(* ===== verification/_CoqProject ===== *)
-Q . S2P
Prelude.v
Bits.v
Varint.v
IntArith.v
Text.v
Bitvec.v
Dll.v
Mem.v
Mem5.v
Malloc.v
Hash.v
RowSet.v
Stack.v
Keywords.v
Tokenize.v
TokenSpec.v
Complete.v
Random.v
Utf.v
Serial.v
RecordCmp.v
Like.v
Locks.v
LockSpec.v
LockTable.v
WalHash.v
WalIter.v
WalLog.v
WalHdr.v
WalWrite.v
WalSpec.v
WalCrash.v
WalTrans.v
WalSys.v
ShmLock.v
WalExec.v
WalIso.v
WalProof.v
WalWriter.v
WalCkpt.v
WalSnap.v
Page.v
PageSpace.v
PageCell.v
PageSpec.v
PageRun.v
Pager.v
BtPages.v
BtRep.v
BtPtrmap.v
BtList.v
BtAlloc.v
BtStore.v
BtFree.v
BtOverflow.v
BtClear.v
BtPayload.v
BtAccess.v
BtRun.v
BtCells.v
BtHang.v
BtWitness.v
