(* ===== verification/Prelude.v ===== *)
(** * The core of SQLite 3.8.5, as compiled into this repository

    The notifications service stores its jobs and messages through the go-sqlite3 driver, which compiles
    the amalgamation [Godeps/_workspace/src/github.com/mattn/go-sqlite3/sqlite3.c]. This library models the
    lower layers of that C program and proves them correct. File names such as util.c below are the parts of the
    amalgamation.

    ** How the parts interact

    mem5.c is a low-level allocator; malloc.c wraps any low-level allocator with counters, a soft limit and
    the lookaside slots of a connection; hash.c and rowset.c allocate their objects from malloc.c. tokenize.c uses the generated
    keyword table and the character tables of global.c, and feeds the parser; complete.c recognises the end of
    a statement with the same character classes. util.c and utf.c hold the encodings (varints, integers in text, UTF-8 and UTF-16)
    used by the record format of the virtual machine, whose records are built, read and compared; the LIKE and GLOB operators of func.c compare UTF-8 texts. bitvec.c keeps sets of page numbers for the
    pager and random.c is the random source. A page of a b-tree in btree.c holds its cells behind an array of pointers, with free blocks chained between them; a payload that is too long for its cell continues on overflow pages, which come from the list of free pages of the file. The POSIX locking of os_unix.c keeps the connections of all processes to a database file apart.
    In WAL mode wal.c appends the pages of a transaction to a log file: the wal-index in shared memory finds the last frame of a page, readers keep a snapshot while
    a writer commits, checkpoints copy frames back to the database, and a log that was copied is restarted.

    ** Files

    - Prelude.v: integers at machine width ([u8] .. [u64], [i16] .. [i64] wrap around; [ck] is a signed operation whose overflow is
      undefined, [None]), bit operations in [c_scope], byte buffers with [rd] and [wr], result codes and limits, shared lemmas and tactics.
    - Bits.v: a reflective decision procedure for equalities between bit-slicing expressions.
    - Varint.v: util.c, sqlite3PutVarint .. sqlite3Put4byte.
    - IntArith.v: util.c, sqlite3AddInt64 .. sqlite3LogEstToInt; a double is given by its 64 bits.
    - Text.v: global.c tables; util.c string comparison, dequoting, hexadecimal and integer parsing.
    - Bitvec.v: bitvec.c. The union of the three layouts is an inductive type, allocation an oracle.
    - Dll.v: doubly linked lists over any store, shared by Mem5.v and Hash.v.
    - Mem.v: the class [MemMethods], the table sqlite3_mem_methods with the laws a client of an allocator
      relies on, and the monad of pointer programs ([None] is a bad load or store).
    - Mem5.v: mem5.c, with the instance of [MemMethods].
    - Malloc.v: malloc.c, status.c and setupLookaside of main.c, over any [MemMethods].
    - Hash.v: hash.c, over Malloc.v.
    - RowSet.v: rowset.c, over the connection's allocator of Malloc.v.
    - Stack.v: the instances of the theorems of Malloc.v, Hash.v and RowSet.v on the memory of Mem5.v.
    - Keywords.v: parse.h token codes and keywordhash.h. Tokenize.v: tokenize.c. TokenSpec.v: spelling of SQL lexical elements.
    - Complete.v: complete.c. Random.v: random.c. Utf.v: utf.c. Like.v: func.c, patternCompare, sqlite3_strglob and likeFunc.
    - Serial.v: the record format, serial types of vdbeaux.c and OP_MakeRecord of vdbe.c. RecordCmp.v: the comparison of records
      in vdbeaux.c; doubles are those of the SpecFloat library.
    - Locks.v: os_unix.c, unixLock, unixUnlock, unixCheckReservedLock and unixClose as programs of system calls, with the
      shared unixInodeInfo of a process, its creation with the errors of fstat and of the allocation, and the reuse of descriptors.
    - LockSpec.v: the class [PosixLocks] (what POSIX promises of record locks: a request can always fail, also one to unlock, and then changes nothing), the system in which the calls of
      any number of processes and connections interleave, and its invariants. LockTable.v: a concrete lock table with an executable
      scheduler, on which the theorems of LockSpec.v are instantiated.
    - WalHash.v: wal.c, the hash tables of the wal-index (walIndexAppend, walCleanupHash, sqlite3WalFindFrame). WalIter.v: the merge sort and the
      iterator over the pages in the log. WalHdr.v: the two copies of the header under concurrent loads and stores.
    - WalLog.v: checksums, frames and recovery. WalWrite.v: sqlite3WalFrames behind walRestartLog, reading, undo and savepoints, over files whose calls can fail. WalSpec.v: what
      is in the log after commits, failures and recovery. WalCrash.v: the class [CrashLaws] (what a power failure can do to writes that were not synced), the durability of commits over it, and a device with
      a cache as its instance.
    - WalTrans.v: read and write transactions, walRestartLog and checkpoints as programs, trees of accesses to what connections share. WalSys.v: the shared state, in
      which the accesses of any number of connections interleave and can fail; a history variable has the published headers with their databases. ShmLock.v: os_unix.c, unixShmLock, unixShmUnmap and
      the end of unixOpenSharedMemory, over [PosixLocks]. WalExec.v: schedules, executed, and the schedule in which a checkpoint loses a commit.
    - WalIso.v: the invariant of that system, what a connection relies on ([rely]), and [safe] for programs whose accesses keep both. WalProof.v, WalWriter.v, WalCkpt.v: the operations
      are safe. WalSnap.v: what readers and writers observe in every run.
    - Page.v: btree.c, the cells and the space of one page (btreeParseCellPtr, cellSizePtr, defragmentPage, allocateSpace, freeSpace, decodeFlags,
      btreeInitPage, zeroPage, dropCell, insertCell, assemblePage). PageSpace.v: the chain of free blocks and what keeps spans of a page apart. PageCell.v: the sizes
      of cells. PageSpec.v: what each operation does on a well-formed page. PageRun.v: the theorems on runs and on arbitrary pages.
    - Pager.v: the class [PagerOps] of the calls of pager.c that btree.c makes, the class [Pager] of what they promise (pages are fetched, made writable and released; every call can fail), and a pager in memory.
    - BtPages.v: btree.c, the pages of the file as programs over a pager: the pointer map, the list of free pages (allocateBtreePage, freePage2), and payloads (fillInCell, accessPayload, getOverflowPage,
      clearCell). BtRep.v: the description of a pager by contents, writable pages and references, and what each call does to it. BtPtrmap.v: entries of the pointer map. BtList.v, BtAlloc.v, BtStore.v, BtFree.v: the
      list of free pages, taking and giving back a page. BtOverflow.v, BtClear.v, BtPayload.v, BtAccess.v: chains of overflow pages, how they are made, freed, and how payloads are stored, read and changed.
      BtRun.v, BtCells.v, BtHang.v: the theorems. BtWitness.v: these on files in memory.

    ** What the theorems show

    - Encodings: varints, UTF-8/16 translation, quoted names, hexadecimal blobs, records and tokens round-trip; the 32-bit
      fast paths agree with the general ones; varints are minimal; parsed integers are the values denoted.
    - Refinement: the bitmap is a set of page numbers, the hash table a map from case-folded keys, the row set a set
      with batches, the keyword function a table lookup, sqlite3_complete a finite machine on lexical elements, LIKE and GLOB
      the language of the pattern, the comparison of records with its fast paths the lexicographic order of their values,
      a page the list of its cells, with exact room: the free space is what the cells and their pointers leave, and every cell that fits in it is stored.
    - B-tree pages: the size of a cell is the one its parser finds; a page that btreeInitPage accepts has the type of its fields; on arbitrary contents the loops other than
      those of freeSpace end within the page, while freeSpace runs forever on a corrupt page that btreeInitPage accepts.
    - Pages of the file: whatever a client does, taking and giving back pages refines a finite map of pages; the file grows only when no page is free, a page where one was asked for is found, no page is lost. A payload
      that is stored, and changed anywhere, is read back, with and without pointer map and cache; clearing the cell gives back exactly its pages. All this with every pager, whose calls can fail at any point: a failure is
      reported and all references are released. On a corrupt list of free pages allocateBtreePage may not return.
    - Concurrency: in every reachable state of the interleaved processes a writer excludes readers and other writers, whichever system calls fail; the check for a
      reserved lock is right; and, where unlocking succeeds, a lock nobody else prevents is granted. Connections in the mode unix-excl are covered by the first, as long as a process does not mix
      them with others (LockTable.v shows how exclusion fails otherwise), and not by the last, as they keep the lock of their process. The locks on the wal-index, kept in masks over the record locks of a process, refine the lock table of the write-ahead log's system; where an unlock fails the connection keeps its lock in both.
    - Write-ahead log: the wal-index finds the last frame of a page and the iterator lists the pages; a header is never seen half-written; a commit is recovered as a
      whole, a failed transaction leaves no trace. A commit for which a sync was asked survives a power failure, except where padding is on and the last frame ends with its sector: there the sync is
      omitted, and WalCrash.v has a run in which the commit is lost. In runs of the system, from an empty log, in which no log is restarted while another connection has the checkpoint
      lock, and no header is published twice, every reader reads the pages of one commit, which was not older than the last one when its transaction began; one connection
      writes at a time, from the last commit; a commit changes the database by the dirty pages of its transaction exactly, also those spilled to the log before the commit. A lock of the wal-index is always given up when asked in these runs. Beginning a read transaction ends after 101 attempts.
      The first condition is necessary: sqlite3WalCheckpoint does not ensure it, and WalExec.v has a run in which a commit is lost.
    - Memory: blocks handed out by the buddy allocator never overlap; the counters are the outstanding bytes and
      blocks; lookaside slots and heap blocks go back where they came from; failures are sticky; no structure loses or
      double-frees memory.
    - Bounds and errors: 64-bit arithmetic reports overflow exactly; the output of a translation fits its buffer; the sort of 2^40 entries
      fits its 40 buckets; tokens stay inside the text, with the one exception proved as such.

    ** Bounds and fuel

    Loops that are not structural carry fuel. It is the length of the input plus one where each turn consumes input
    (tokenizer, complete, UTF, LIKE), 31 or 32 where a loop doubles a 32-bit size (mem5.c), the number of hash slots for probing (124), and the depth of a
    32-bit page number in base 62 for the bitmap (6 for reading and 12 for setting, where a turn can convert the layout first).
    In wal.c, probing has as many steps as a hash table has slots (8192), the merge sort has 13 lists (a table has at most 4096 frames), recovery and the iterator have one
    step more than there are frames; the loop around walTryBeginRead has 101 attempts, of which the last gives up in the code. The number of times that the busy
    handler of a checkpoint asks for another attempt is a parameter of the operation, for which the theorems hold whatever it is.
    On a b-tree page the loops over the free blocks take at most one turn per usable byte, as a block is longer than its header and offsets ascend; the turns of freeSpace, which
    may not end, are a parameter.
    The search in the list of free pages has fewer turns than the file has pages ([frees_fit]); on a list that is not in order it may not end, and fuel is a parameter. A payload takes at most one turn per byte, and special pages of the file
    at most three steps, as no two pages of the pointer map are near each other.
    A theorem about a loop states its result outright, so that fuel running out would falsify it; the functions with an option result return [Some].

    ** Not modelled

    The SQL compiler, the virtual machine (but for records), the tree of btree.c (cursors, balancing, autovacuum) and the pager (whose promises to btree.c are the class [Pager], and whose calls of wal.c satisfy [call_ok] of WalSys.v), opening and closing of a log and the exclusive locking mode of wal.c, the VFS apart from the locks on files and shared memory, mutexes (threads of one process take turns), debugging code and self-tests, extensions, floating point, and the Go code of the service. *)
From Stdlib Require Export ZArith Lia.
From stdpp Require Export base numbers list gmap sorting.

Declare Scope c_scope.
Delimit Scope c_scope with C.
Local Open Scope Z_scope.

(** ** Machine integers *)

Definition uwrap (w x : Z) : Z := x mod 2 ^ w.
Definition swrap (w x : Z) : Z := (x + 2 ^ (w - 1)) mod 2 ^ w - 2 ^ (w - 1).

Abbreviation u8 := (uwrap 8).
Abbreviation u16 := (uwrap 16).
Abbreviation u32 := (uwrap 32).
Abbreviation u64 := (uwrap 64).
Abbreviation i16 := (swrap 16).
Abbreviation i32 := (swrap 32).
Abbreviation i64 := (swrap 64).

Definition is_u (w x : Z) : Prop := 0 <= x < 2 ^ w.
Definition is_i (w x : Z) : Prop := - 2 ^ (w - 1) <= x < 2 ^ (w - 1).

Notation "x << n" := (Z.shiftl x n) (at level 35, no associativity) : c_scope.
Notation "x >> n" := (Z.shiftr x n) (at level 35, no associativity) : c_scope.
Notation "x .& y" := (Z.land x y) (at level 40, left associativity) : c_scope.
Notation "x .| y" := (Z.lor x y) (at level 50, left associativity) : c_scope.

(** ** Result codes *)

Definition SQLITE_OK : Z := 0.
Definition SQLITE_PERM : Z := 3.
Definition SQLITE_BUSY : Z := 5.
Definition SQLITE_NOMEM : Z := 7.
Definition SQLITE_READONLY : Z := 8.
Definition SQLITE_INTERRUPT : Z := 9.
Definition SQLITE_IOERR : Z := 10.
Definition SQLITE_CORRUPT : Z := 11.
Definition SQLITE_TOOBIG : Z := 18.
(** No string or blob is longer. *)
Definition SQLITE_MAX_LENGTH : Z := 1000000000.

(** ** Buffers *)

Definition rd (p : list Z) (i : Z) : Z := nth (Z.to_nat i) p 0.
Definition wr (p : list Z) (i x : Z) : list Z := <[Z.to_nat i := x]> p.
Definition bytes (p : list Z) : Prop := Forall (is_u 8) p.

Lemma uwrap_small w x : is_u w x -> uwrap w x = x.
Proof. apply Z.mod_small. Qed.
Lemma uwrap_range w x : 0 <= w -> is_u w (uwrap w x).
Proof. intros. apply Z.mod_pos_bound, Z.pow_pos_nonneg; lia. Qed.
Lemma swrap_small w x : 0 < w -> is_i w x -> swrap w x = x.
Proof.
  unfold is_i, swrap. intros Hw H.
  assert (2 ^ w = 2 * 2 ^ (w - 1)) by (rewrite <- Z.pow_succ_r by lia; f_equal; lia).
  rewrite Z.mod_small; lia.
Qed.
Lemma swrap_range w x : 0 < w -> is_i w (swrap w x).
Proof.
  unfold is_i, swrap. intros Hw.
  assert (2 ^ w = 2 * 2 ^ (w - 1)) by (rewrite <- Z.pow_succ_r by lia; f_equal; lia).
  pose proof (Z.mod_pos_bound (x + 2 ^ (w - 1)) (2 ^ w)). lia.
Qed.

Lemma rd_byte p i : bytes p -> is_u 8 (rd p i).
Proof.
  intros Hp. unfold rd. destruct (nth_in_or_default (Z.to_nat i) p 0) as [Hin| ->].
  - unfold bytes in Hp. rewrite Forall_forall in Hp. apply Hp. by apply list_elem_of_In.
  - split; [done | reflexivity].
Qed.

(** ** Bit-level reasoning *)

Lemma testbit_uwrap w x i : 0 <= w -> Z.testbit (uwrap w x) i = (i <? w) && Z.testbit x i.
Proof.
  intros Hw. unfold uwrap. destruct (Z.ltb_spec i w).
  - destruct (Z.le_gt_cases 0 i); [by rewrite Z.mod_pow2_bits_low|].
    by rewrite !Z.testbit_neg_r by lia.
  - by rewrite Z.mod_pow2_bits_high by lia.
Qed.

Lemma testbit_shl x n i : 0 <= i -> Z.testbit (Z.shiftl x n) i = Z.testbit x (i - n).
Proof. apply Z.shiftl_spec. Qed.

Lemma testbit_ge w x i : is_u w x -> w <= i -> Z.testbit x i = false.
Proof.
  intros Hx Hi. destruct (Z.le_gt_cases 0 w).
  - rewrite <- (uwrap_small _ _ Hx), testbit_uwrap by done.
    by rewrite (proj2 (Z.ltb_ge i w)).
  - unfold is_u in Hx. rewrite Z.pow_neg_r in Hx; lia.
Qed.

Lemma bits_inj_range n x y :
  (forall i, 0 <= i -> n <= i -> Z.testbit x i = Z.testbit y i) ->
  Forall (fun i => Z.testbit x i = Z.testbit y i) (seqZ 0 n) -> x = y.
Proof.
  intros Hhi Hlo. apply Z.bits_inj'. intros i Hi.
  destruct (Z.le_gt_cases n i); [by apply Hhi|].
  rewrite Forall_forall in Hlo. apply Hlo. apply elem_of_seqZ. lia.
Qed.


Lemma land_shl_0 x y k : 0 <= k -> is_u k y -> Z.land (Z.shiftl x k) y = 0.
Proof.
  intros Hk Hy. apply Z.bits_inj'. intros i Hi. rewrite Z.land_spec, Z.bits_0.
  destruct (Z.lt_ge_cases i k).
  - rewrite Z.shiftl_spec, Z.testbit_neg_r by lia. done.
  - rewrite (testbit_ge k y i) by done. apply andb_false_r.
Qed.

Lemma shl_lor x y k : 0 <= k -> is_u k y -> Z.lor (Z.shiftl x k) y = x * 2 ^ k + y.
Proof.
  intros Hk Hy. pose proof (land_shl_0 x y k Hk Hy) as H0.
  rewrite <- Z.lxor_lor by done. rewrite <- Z.add_nocarry_lxor by done.
  by rewrite Z.shiftl_mul_pow2.
Qed.

Lemma land_mask x k : 0 <= k -> Z.land x (Z.ones k) = x mod 2 ^ k.
Proof. apply Z.land_ones. Qed.

Lemma testbit_one_shl j i : 0 <= j -> Z.testbit (Z.shiftl 1 j) i = (i =? j).
Proof. intros Hj. rewrite Z.shiftl_1_l. rewrite Z.pow2_bits_eqb by done. apply Z.eqb_sym. Qed.

Lemma land_bit x j : 0 <= j -> (Z.land x (Z.shiftl 1 j) =? 0) = negb (Z.testbit x j).
Proof.
  intros Hj. destruct (Z.testbit x j) eqn:E; cbn [negb].
  - apply Z.eqb_neq. intros H. apply (f_equal (fun y => Z.testbit y j)) in H.
    rewrite Z.land_spec, E, testbit_one_shl, Z.eqb_refl, Z.bits_0 in H by done. done.
  - apply Z.eqb_eq, Z.bits_inj'. intros i Hi. rewrite Z.land_spec, Z.bits_0, testbit_one_shl by done.
    destruct (Z.eqb_spec i j) as [->|]; [by rewrite E|apply andb_false_r].
Qed.

(** ** Buffer updates *)

Lemma length_wr p i x : length (wr p i x) = length p.
Proof. apply length_insert. Qed.

Lemma rd_lookup p i x : p !! Z.to_nat i = Some x -> rd p i = x.
Proof. intros H. unfold rd. by rewrite nth_lookup, H. Qed.

Lemma lookup_rd p i : 0 <= i < Z.of_nat (length p) -> p !! Z.to_nat i = Some (rd p i).
Proof.
  intros H. destruct (lookup_lt_is_Some_2 p (Z.to_nat i)) as [x Hx]; [lia|].
  by rewrite (rd_lookup _ _ _ Hx).
Qed.

Lemma rd_wr_eq p i x : 0 <= i < Z.of_nat (length p) -> rd (wr p i x) i = x.
Proof. intros H. apply rd_lookup. apply list_lookup_insert_eq. lia. Qed.

Lemma rd_wr_ne p i j x : 0 <= i -> 0 <= j -> i <> j -> rd (wr p i x) j = rd p j.
Proof.
  intros Hi Hj Hne. unfold rd, wr. rewrite !nth_lookup, list_lookup_insert_ne by lia. done.
Qed.

Lemma bytes_wr p i x : bytes p -> is_u 8 x -> bytes (wr p i x).
Proof. intros. by apply Forall_insert. Qed.

Lemma rd_app_l p q i : 0 <= i < Z.of_nat (length p) -> rd (p ++ q) i = rd p i.
Proof. intros. unfold rd. rewrite app_nth1 by lia. done. Qed.

Lemma rd_app_r p q i :
  Z.of_nat (length p) <= i -> rd (p ++ q) i = rd q (i - Z.of_nat (length p)).
Proof. intros. unfold rd. rewrite app_nth2 by lia. f_equal. lia. Qed.

Lemma rd_beyond p i : Z.of_nat (length p) <= i -> rd p i = 0.
Proof. intros. apply nth_overflow. lia. Qed.

Lemma rd_at p y q i : Z.of_nat (length p) = i -> rd (p ++ y :: q) i = y.
Proof. intros <-. rewrite rd_app_r by lia. by rewrite Z.sub_diag. Qed.

(** A byte store in the middle of a split buffer. *)
Lemma wr_app p x y q i : Z.of_nat (length p) = i -> wr (p ++ x :: q) i y = p ++ y :: q.
Proof.
  intros <-. unfold wr. rewrite Nat2Z.id, insert_app_r_alt by lia.
  by rewrite Nat.sub_diag.
Qed.

(** ** Parts of buffers *)

(** memcpy of the bytes [d] to offset [i]. *)
Definition splice (arr : list Z) (i : Z) (d : list Z) : list Z := take (Z.to_nat i) arr ++ d ++ drop (Z.to_nat i + length d) arr.
Definition slice (p : list Z) (i n : Z) : list Z := take (Z.to_nat n) (drop (Z.to_nat i) p).

Lemma length_splice arr i d : 0 <= i -> i + Z.of_nat (length d) <= Z.of_nat (length arr) -> length (splice arr i d) = length arr.
Proof. intros. unfold splice. rewrite !length_app, length_take, length_drop. lia. Qed.
Lemma rd_splice_out arr i d j : 0 <= i -> i + Z.of_nat (length d) <= Z.of_nat (length arr) -> 0 <= j -> j < i \/ i + Z.of_nat (length d) <= j ->
  rd (splice arr i d) j = rd arr j.
Proof.
  intros Hi Hl Hj0 Hj. unfold splice, rd. rewrite !nth_lookup. f_equal. destruct Hj as [Hj|Hj].
  - rewrite lookup_app_l by (rewrite length_take; lia). by rewrite lookup_take_lt by lia.
  - rewrite lookup_app_r by (rewrite length_take; lia). rewrite length_take, lookup_app_r by lia. rewrite lookup_drop. f_equal. lia.
Qed.
Lemma rd_splice_in arr i d j : 0 <= i -> i + Z.of_nat (length d) <= Z.of_nat (length arr) -> i <= j < i + Z.of_nat (length d) -> rd (splice arr i d) j = rd d (j - i).
Proof.
  intros Hi Hl Hj. unfold splice, rd. rewrite !nth_lookup. f_equal. rewrite lookup_app_r by (rewrite length_take; lia). rewrite length_take, lookup_app_l by lia. f_equal. lia.
Qed.
Lemma bytes_splice arr i d : bytes arr -> bytes d -> bytes (splice arr i d).
Proof. intros Ha Hd. unfold splice. apply Forall_app_2; [by apply Forall_take|]. apply Forall_app_2; [done|by apply Forall_drop]. Qed.
Lemma length_slice p i n : 0 <= i -> 0 <= n -> i + n <= Z.of_nat (length p) -> Z.of_nat (length (slice p i n)) = n.
Proof. intros. unfold slice. rewrite length_take, length_drop. lia. Qed.
Lemma rd_slice p i n j : 0 <= i -> 0 <= j < n -> rd (slice p i n) j = rd p (i + j).
Proof. intros. unfold slice, rd. rewrite !nth_lookup, lookup_take_lt, lookup_drop by lia. do 2 f_equal. lia. Qed.
Lemma rd_drop p i j : 0 <= i -> 0 <= j -> rd (drop (Z.to_nat i) p) j = rd p (i + j).
Proof. intros. unfold rd. rewrite !nth_lookup, lookup_drop. do 2 f_equal. lia. Qed.
Lemma rd_ext p q : length p = length q -> (forall j, 0 <= j < Z.of_nat (length p) -> rd p j = rd q j) -> p = q.
Proof.
  intros Hl H. apply list_eq_same_length with (n := length p); [done|done|]. intros i x y Hi Hx Hy. specialize (H (Z.of_nat i) ltac:(lia)).
  rewrite (rd_lookup p (Z.of_nat i) x), (rd_lookup q (Z.of_nat i) y) in H by by rewrite Nat2Z.id. done.
Qed.
Lemma slice_ext p q i n : 0 <= i -> 0 <= n -> i + n <= Z.of_nat (length p) -> i + n <= Z.of_nat (length q) -> (forall j, i <= j < i + n -> rd p j = rd q j) -> slice p i n = slice q i n.
Proof.
  intros Hi Hn Hp Hq H. apply rd_ext; [apply Nat2Z.inj; by rewrite !length_slice|]. rewrite length_slice by done. intros j Hj. rewrite !rd_slice by lia. apply H. lia.
Qed.
Lemma slice_splice p i d : 0 <= i -> i + Z.of_nat (length d) <= Z.of_nat (length p) -> slice (splice p i d) i (Z.of_nat (length d)) = d.
Proof.
  intros Hi Hl. unfold slice, splice. rewrite drop_app_length' by (rewrite length_take; lia). rewrite Nat2Z.id. apply take_app_length.
Qed.

(** ** Sums over a map *)

Definition map_sum {A} (g : A -> Z) (m : gmap Z A) : Z := map_fold (fun _ x acc => g x + acc) 0 m.

Lemma map_sum_insert {A} (g : A -> Z) m k x : m !! k = None -> map_sum g (<[k := x]> m) = g x + map_sum g m.
Proof. intros. unfold map_sum. rewrite map_fold_insert_L; [done|intros; lia|done]. Qed.
Lemma map_sum_delete {A} (g : A -> Z) m k x : m !! k = Some x -> map_sum g (delete k m) = map_sum g m - g x.
Proof. intros H. unfold map_sum. rewrite (map_fold_delete_L _ _ k x m); [lia|intros; lia|done]. Qed.
Lemma map_sum_update {A} (g : A -> Z) m k x y :
  m !! k = Some x -> map_sum g (<[k := y]> m) = map_sum g m - g x + g y.
Proof.
  intros H. rewrite <- insert_delete_eq, map_sum_insert by apply lookup_delete_eq.
  rewrite (map_sum_delete g m k x) by done. lia.
Qed.
Lemma map_sum_nonneg {A} (g : A -> Z) m : (forall x, 0 <= g x) -> 0 <= map_sum g m.
Proof.
  intros H. induction m as [|k x m Hk IH] using map_ind; [done|].
  rewrite map_sum_insert by done. specialize (H x). lia.
Qed.
Lemma map_sum_zero {A} (g : A -> Z) m : (forall k x, m !! k = Some x -> g x = 0) -> map_sum g m = 0.
Proof.
  induction m as [|k x m Hk IH] using map_ind; intros H; [done|].
  rewrite map_sum_insert, (H k x), IH by first [done | apply lookup_insert_eq
    | intros k' y Hy; apply (H k'); rewrite lookup_insert_ne by congruence; done]. done.
Qed.
Lemma map_sum_pos {A} (g : A -> Z) m : 0 < map_sum g m -> exists k x, m !! k = Some x /\ 0 < g x.
Proof.
  induction m as [|k x m Hk IH] using map_ind; [done|]. rewrite map_sum_insert by done. intros H.
  destruct (decide (0 < g x)); [exists k, x; by rewrite lookup_insert_eq|].
  destruct IH as (k' & y & Hy & Hg); [lia|]. exists k', y. rewrite lookup_insert_ne by congruence. done.
Qed.
(** A term is at most the sum, and two terms are. *)
Lemma map_sum_two {A} (g : A -> Z) m k k' x y :
  (forall x, 0 <= g x) -> m !! k = Some x -> m !! k' = Some y -> k <> k' -> g x + g y <= map_sum g m.
Proof.
  intros H Hx Hy Hne. rewrite <- (insert_id m k x Hx), <- insert_delete_eq, map_sum_insert by apply lookup_delete_eq.
  rewrite <- (insert_id (delete k m) k' y) by by rewrite lookup_delete_ne.
  rewrite <- insert_delete_eq, map_sum_insert by apply lookup_delete_eq.
  pose proof (map_sum_nonneg g (delete k' (delete k m)) H). lia.
Qed.
Lemma map_sum_one {A} (g : A -> Z) m k x : (forall x, 0 <= g x) -> m !! k = Some x -> g x <= map_sum g m.
Proof.
  intros H Hx. pose proof (map_sum_delete g m k x Hx). pose proof (map_sum_nonneg g (delete k m) H). lia.
Qed.

Create HintDb cint.
#[export] Hint Resolve uwrap_range swrap_range rd_byte bytes_wr : cint.

(** ** Checked signed arithmetic

    Signed overflow is undefined behaviour in C: a signed operation is [Some] of
    the exact result when it is representable and [None] otherwise. *)

Definition in_i (w x : Z) : bool := (- 2 ^ (w - 1) <=? x) && (x <? 2 ^ (w - 1)).
Definition ck (w x : Z) : option Z := if in_i w x then Some x else None.

Lemma in_i_spec w x : reflect (is_i w x) (in_i w x).
Proof.
  apply iff_reflect. unfold is_i, in_i. rewrite andb_true_iff, Z.leb_le, Z.ltb_lt. done.
Qed.

Lemma ck_Some w x : is_i w x -> ck w x = Some x.
Proof. intros H. unfold ck. by destruct (in_i_spec w x). Qed.
Lemma ck_None w x : ~ is_i w x -> ck w x = None.
Proof. intros H. unfold ck. by destruct (in_i_spec w x). Qed.

(** ** Finite checks over bytes *)

Lemma byte_forall (P : Z -> bool) :
  forallb P (seqZ 0 256) = true -> forall x, is_u 8 x -> P x = true.
Proof.
  rewrite forallb_forall. intros H x Hx. apply H, list_elem_of_In, elem_of_seqZ.
  unfold is_u in Hx. change (2 ^ 8) with 256 in Hx. lia.
Qed.

(** [P] for every byte, by evaluation of the boolean test [Pb]. *)
Ltac byte_check Pb :=
  let H := fresh in
  intros ? H; revert H;
  match goal with
  | |- is_u 8 ?x -> _ =>
      let H := fresh in
      intros H; pose proof (byte_forall Pb ltac:(vm_compute; reflexivity) x H)
  end.
