(* ===== verification/Bits.v ===== *)
(** Reflective decision procedure for equalities between bit-slicing
    expressions: shifts by constants, masks with constants, disjunctions and
    truncations of bytes. *)
From S2P Require Import Prelude.
Local Open Scope Z_scope.

Inductive bexp :=
| BAtom (k : nat)
| BConst (c : Z)
| BShl (e : bexp) (n : Z)
| BShr (e : bexp) (n : Z)
| BAnd (e : bexp) (m : Z)
| BOr (e1 e2 : bexp)
| BWrap (w : Z) (e : bexp).

Fixpoint bdenote (env : list (Z * Z)) (e : bexp) : Z :=
  match e with
  | BAtom k => snd (nth k env (0, 0))
  | BConst c => c
  | BShl e n => Z.shiftl (bdenote env e) n
  | BShr e n => Z.shiftr (bdenote env e) n
  | BAnd e m => Z.land (bdenote env e) m
  | BOr e1 e2 => Z.lor (bdenote env e1) (bdenote env e2)
  | BWrap w e => uwrap w (bdenote env e)
  end.

(** The bit [i] of an expression, as a disjunction of bits of atoms ([Some]) and
    the constant true ([None]). *)
Fixpoint bsym (ws : list Z) (e : bexp) (i : Z) : list (option (nat * Z)) :=
  match e with
  | BAtom k => if i <? nth k ws 0 then [Some (k, i)] else []
  | BConst c => if Z.testbit c i then [None] else []
  | BShl e n => if i <? n then [] else bsym ws e (i - n)
  | BShr e n => bsym ws e (i + n)
  | BAnd e m => if Z.testbit m i then bsym ws e i else []
  | BOr e1 e2 => bsym ws e1 i ++ bsym ws e2 i
  | BWrap w e => if i <? w then bsym ws e i else []
  end.

Fixpoint bwf (e : bexp) : bool :=
  match e with
  | BAtom _ | BConst _ => true
  | BShl e n | BShr e n => (0 <=? n) && bwf e
  | BAnd e _ => bwf e
  | BOr e1 e2 => bwf e1 && bwf e2
  | BWrap w e => (0 <=? w) && bwf e
  end.

(** An upper bound on the number of significant bits. *)
Fixpoint bwidth (ws : list Z) (e : bexp) : Z :=
  match e with
  | BAtom k => nth k ws 0
  | BConst c => if c <? 0 then 1000 else Z.log2 c + 1
  | BShl e n => bwidth ws e + n
  | BShr e n => Z.max 0 (bwidth ws e - n)
  | BAnd e m => if m <? 0 then bwidth ws e else Z.min (bwidth ws e) (Z.log2 m + 1)
  | BOr e1 e2 => Z.max (bwidth ws e1) (bwidth ws e2)
  | BWrap w e => Z.min w (bwidth ws e)
  end.

Fixpoint bnonneg (e : bexp) : bool :=
  match e with
  | BAtom _ => true
  | BConst c => 0 <=? c
  | BShl e _ | BShr e _ | BAnd e _ | BWrap _ e => bnonneg e
  | BOr e1 e2 => bnonneg e1 && bnonneg e2
  end.

Definition beval (env : list (Z * Z)) (a : option (nat * Z)) : bool :=
  match a with
  | None => true
  | Some (k, j) => Z.testbit (snd (nth k env (0, 0))) j
  end.

Definition benv_ok (env : list (Z * Z)) : Prop := Forall (fun x => is_u (fst x) (snd x)) env.

Lemma benv_atom env k : benv_ok env -> is_u (nth k (map fst env) 0) (snd (nth k env (0, 0))).
Proof.
  intros H. revert k. induction H as [|[w x] env Hx H IH]; intros [|k]; cbn.
  - by split.
  - by split.
  - done.
  - apply IH.
Qed.

Lemma bsym_sound env e i :
  benv_ok env -> bwf e = true -> 0 <= i ->
  Z.testbit (bdenote env e) i = existsb (beval env) (bsym (map fst env) e i).
Proof.
  intros Henv. revert i.
  induction e as [k|c|e IH n|e IH n|e IH m|e1 IH1 e2 IH2|w e IH]; cbn [bwf bdenote bsym];
    intros i Hwf Hi; rewrite ?andb_true_iff, ?Z.leb_le in Hwf.
  - pose proof (benv_atom env k Henv) as Hk.
    destruct (Z.ltb_spec i (nth k (map fst env) 0)); cbn; [by rewrite orb_false_r|].
    by apply (testbit_ge _ _ _ Hk).
  - destruct (Z.testbit c i); reflexivity.
  - destruct Hwf as [Hn Hwf]. rewrite Z.shiftl_spec by done. destruct (Z.ltb_spec i n).
    + by rewrite Z.testbit_neg_r by lia.
    + apply IH; [done|lia].
  - destruct Hwf as [Hn Hwf]. rewrite Z.shiftr_spec by done. apply IH; [done|lia].
  - rewrite Z.land_spec. destruct (Z.testbit m i); [rewrite andb_true_r; by apply IH|].
    by rewrite andb_false_r.
  - destruct Hwf. rewrite Z.lor_spec, existsb_app. by rewrite IH1, IH2.
  - destruct Hwf as [Hn Hwf]. rewrite testbit_uwrap by done.
    destruct (i <? w); [by apply IH|done].
Qed.

Lemma bsym_above ws e i : bnonneg e = true -> bwf e = true -> bwidth ws e <= i -> bsym ws e i = [].
Proof.
  revert i; induction e as [k|c|e IH n|e IH n|e IH m|e1 IH1 e2 IH2|w e IH];
    cbn [bnonneg bwf bwidth bsym]; intros i Hnn Hwf Hi;
    rewrite ?andb_true_iff, ?Z.leb_le in Hwf; rewrite ?andb_true_iff, ?Z.leb_le in Hnn.
  - by rewrite (proj2 (Z.ltb_ge _ _)).
  - rewrite (proj2 (Z.ltb_ge c 0)) in Hi by done.
    rewrite Z.bits_above_log2; [done|done|lia].
  - destruct (i <? n); [done|]. apply IH; [done|apply Hwf|lia].
  - apply IH; [done|apply Hwf|destruct Hwf; lia].
  - destruct (Z.testbit m i) eqn:E; [|done]. apply IH; [done|done|].
    destruct (Z.ltb_spec m 0); [done|]. destruct (Z.le_gt_cases (bwidth ws e) i); [done|].
    rewrite Z.bits_above_log2 in E by lia. done.
  - destruct Hnn, Hwf. rewrite IH1, IH2; [done|done|done|lia|done|done|lia].
  - destruct (Z.ltb_spec i w); [|done]. apply IH; [done|apply Hwf|lia].
Qed.

Definition atom_eqb (a b : option (nat * Z)) : bool :=
  match a, b with
  | None, None => true
  | Some (k, j), Some (k', j') => Nat.eqb k k' && (j =? j')
  | _, _ => false
  end.

Lemma atom_eqb_eq a b : atom_eqb a b = true -> a = b.
Proof.
  destruct a as [[k j]|], b as [[k' j']|]; cbn; try done.
  rewrite andb_true_iff, Nat.eqb_eq, Z.eqb_eq. by intros [-> ->].
Qed.

(** [zs] lists atom bits known to be zero. *)
Definition bnorm (zs : list (nat * Z)) (l : list (option (nat * Z))) :=
  List.filter (fun a => negb (existsb (fun z => atom_eqb a (Some z)) zs)) l.

Definition bincl (l l' : list (option (nat * Z))) : bool :=
  forallb (fun a => existsb (atom_eqb a) l') l.

Definition bcheck (ws : list Z) (zs : list (nat * Z)) (e1 e2 : bexp) : bool :=
  bwf e1 && bwf e2 && bnonneg e1 && bnonneg e2 &&
  forallb (fun i => let l1 := bnorm zs (bsym ws e1 i) in let l2 := bnorm zs (bsym ws e2 i) in
             bincl l1 l2 && bincl l2 l1)
    (seqZ 0 (Z.max (bwidth ws e1) (bwidth ws e2))).

Definition bzeros (env : list (Z * Z)) (zs : list (nat * Z)) : Prop :=
  Forall (fun z => beval env (Some z) = false) zs.

Lemma bnorm_eval env zs l :
  bzeros env zs -> existsb (beval env) (bnorm zs l) = existsb (beval env) l.
Proof.
  intros Hz. unfold bnorm. induction l as [|a l IH]; cbn [List.filter existsb]; [done|].
  destruct (existsb (fun z => atom_eqb a (Some z)) zs) eqn:E; cbn [negb existsb]; rewrite IH; [|done].
  apply existsb_exists in E as (z & Hin & Ha). apply atom_eqb_eq in Ha as ->.
  unfold bzeros in Hz. rewrite Forall_forall in Hz.
  rewrite (Hz z); [done|]. by apply list_elem_of_In.
Qed.

Lemma bincl_eval env l l' :
  bincl l l' = true -> existsb (beval env) l = true -> existsb (beval env) l' = true.
Proof.
  unfold bincl. intros Hi Hl. apply existsb_exists in Hl as (a & Hin & Ha).
  rewrite forallb_forall in Hi. specialize (Hi a Hin).
  apply existsb_exists in Hi as (a' & Hin' & He). apply atom_eqb_eq in He as ->.
  apply existsb_exists. eauto.
Qed.

Theorem bcheck_sound env zs e1 e2 :
  benv_ok env -> bzeros env zs -> bcheck (map fst env) zs e1 e2 = true ->
  bdenote env e1 = bdenote env e2.
Proof.
  intros Henv Hz Hc. unfold bcheck in Hc. rewrite !andb_true_iff in Hc.
  destruct Hc as [[[[Hw1 Hw2] Hn1] Hn2] Hall].
  apply (bits_inj_range (Z.max (bwidth (map fst env) e1) (bwidth (map fst env) e2))).
  - intros i Hi Hge. rewrite !bsym_sound by done. by rewrite !bsym_above by (done || lia).
  - apply Forall_forall. intros i Hi. rewrite forallb_forall in Hall.
    apply list_elem_of_In in Hi as Hin. specialize (Hall i Hin). cbv zeta in Hall.
    rewrite andb_true_iff in Hall. destruct Hall as [H12 H21].
    apply elem_of_seqZ in Hi. rewrite !bsym_sound by (done || lia).
    rewrite <- (bnorm_eval env zs (bsym (map fst env) e1 i)), <- (bnorm_eval env zs (bsym (map fst env) e2 i)) by done.
    apply eq_true_iff_eq. split; by apply bincl_eval.
Qed.

Lemma is_u_bits w x : 0 <= w -> 0 <= x -> (forall i, w <= i -> Z.testbit x i = false) -> is_u w x.
Proof.
  intros Hw Hx Hb. split; [done|]. destruct (Z.lt_ge_cases x (2 ^ w)) as [|Hge]; [done|exfalso].
  assert (0 < x) by (pose proof (Z.pow_pos_nonneg 2 w); lia).
  pose proof (Z.bit_log2 x) as Hl. rewrite Hb in Hl; [by specialize (Hl ltac:(lia))|].
  apply Z.log2_le_pow2; lia.
Qed.

Lemma bdenote_nonneg env e :
  benv_ok env -> bnonneg e = true -> bwf e = true -> 0 <= bdenote env e.
Proof.
  intros Henv. induction e as [k|c|e IH n|e IH n|e IH m|e1 IH1 e2 IH2|w e IH];
    cbn [bnonneg bwf bdenote]; rewrite ?andb_true_iff, ?Z.leb_le; intros Hn Hw.
  - apply (benv_atom env k Henv).
  - done.
  - apply Z.shiftl_nonneg, IH; tauto.
  - apply Z.shiftr_nonneg, IH; tauto.
  - apply Z.land_nonneg. left. by apply IH.
  - apply Z.lor_nonneg. split; [apply IH1|apply IH2]; tauto.
  - apply uwrap_range. tauto.
Qed.

Theorem bwidth_sound env w e :
  benv_ok env -> (0 <=? w) && bnonneg e && bwf e && (bwidth (map fst env) e <=? w) = true ->
  is_u w (bdenote env e).
Proof.
  rewrite !andb_true_iff, !Z.leb_le. intros Henv [[[Hw Hn] Hwf] Hle].
  apply is_u_bits; [done|by apply bdenote_nonneg|]. intros i Hi.
  rewrite bsym_sound by (done || lia). by rewrite bsym_above by (done || lia).
Qed.

(** *** Reification *)

Ltac bmem x l :=
  lazymatch l with
  | nil => constr:(false)
  | x :: _ => constr:(true)
  | _ :: ?l => bmem x l
  end.
Ltac bidx x l :=
  lazymatch l with
  | x :: _ => constr:(O)
  | _ :: ?l => let n := bidx x l in constr:(S n)
  end.
Ltac bisconst x :=
  lazymatch x with
  | Z0 => constr:(true)
  | Zpos _ => constr:(true)
  | Zneg _ => constr:(true)
  | _ => constr:(false)
  end.
Ltac batoms l x :=
  lazymatch x with
  | Z.shiftl ?a _ => batoms l a
  | Z.shiftr ?a _ => batoms l a
  | Z.land ?a _ => batoms l a
  | Z.lor ?a ?b => let l := batoms l a in batoms l b
  | uwrap _ ?a => batoms l a
  | _ => lazymatch bisconst x with
         | true => l
         | false => lazymatch bmem x l with true => l | false => constr:(x :: l) end
         end
  end.
Ltac breify l x :=
  lazymatch x with
  | Z.shiftl ?a ?n => let e := breify l a in constr:(BShl e n)
  | Z.shiftr ?a ?n => let e := breify l a in constr:(BShr e n)
  | Z.land ?a ?m => let e := breify l a in constr:(BAnd e m)
  | Z.lor ?a ?b => let e := breify l a in let f := breify l b in constr:(BOr e f)
  | uwrap ?w ?a => let e := breify l a in constr:(BWrap w e)
  | _ => lazymatch bisconst x with
         | true => constr:(BConst x)
         | false => let n := bidx x l in constr:(BAtom n)
         end
  end.

(** Widths of the atoms, from the [is_u] hypotheses. *)
Ltac benv l :=
  lazymatch l with
  | nil => constr:(@nil (Z * Z))
  | ?x :: ?l =>
      let rest := benv l in
      match goal with
      | _ : is_u ?w x |- _ => constr:((w, x) :: rest)
      end
  end.
(** Atoms whose bit 7 is known to be clear. *)
Ltac bzero_list l k :=
  lazymatch l with
  | nil => constr:(@nil (nat * Z))
  | ?x :: ?l =>
      let rest := bzero_list l (S k) in
      match goal with
      | _ : Z.testbit x 7 = false |- _ => constr:((k, 7) :: rest)
      | _ => rest
      end
  end.

(** [bits_solve] closes [x = y] where both sides slice bytes, using the byte
    ranges and the [Z.testbit _ 7 = false] facts of the context. *)
Ltac bits_solve :=
  lazymatch goal with
  | |- ?x = ?y =>
      let l := batoms (@nil Z) x in
      let l := batoms l y in
      let e1 := breify l x in
      let e2 := breify l y in
      let zs := bzero_list l O in
      let env := benv l in
      change (bdenote env e1 = bdenote env e2);
      apply (bcheck_sound env zs e1 e2);
      [ repeat (apply Forall_cons_2; [assumption|]); apply Forall_nil_2
      | repeat (apply Forall_cons_2; [assumption|]); apply Forall_nil_2
      | vm_compute; reflexivity ]
  end.

(** [bits_range] closes [is_u w x] for a bit-slicing expression [x]. *)
Ltac bits_range :=
  lazymatch goal with
  | |- is_u ?w ?x =>
      let l := batoms (@nil Z) x in
      let e := breify l x in
      let env := benv l in
      change (is_u w (bdenote env e));
      apply (bwidth_sound env w e);
      [ repeat (apply Forall_cons_2; [assumption|]); apply Forall_nil_2
      | vm_compute; reflexivity ]
  end.
