(* ===== verification/Varint.v ===== *)
(** Varints *)
From S2P Require Import Prelude Bits.
Local Open Scope Z_scope.
Local Open Scope c_scope.

Definition SLOT_2_0 : Z := 0x001fc07f.
Definition SLOT_4_2_0 : Z := 0xf01fc07f.

Definition sqlite3GetVarint (p : list Z) : Z * Z :=
  let a := rd p 0 in
  if a .& 0x80 =? 0 then (1, a) else
  let b := rd p 1 in
  if b .& 0x80 =? 0 then
    let a := a .& 0x7f in
    let a := u32 (a << 7) in
    let a := a .| b in
    (2, a)
  else
  let a := u32 (a << 14) in
  let a := a .| rd p 2 in
  if a .& 0x80 =? 0 then
    let a := a .& SLOT_2_0 in
    let b := b .& 0x7f in
    let b := u32 (b << 7) in
    let a := a .| b in
    (3, a)
  else
  let a := a .& SLOT_2_0 in
  let b := u32 (b << 14) in
  let b := b .| rd p 3 in
  if b .& 0x80 =? 0 then
    let b := b .& SLOT_2_0 in
    let a := u32 (a << 7) in
    let a := a .| b in
    (4, a)
  else
  let b := b .& SLOT_2_0 in
  let s := a in
  let a := u32 (a << 14) in
  let a := a .| rd p 4 in
  if a .& 0x80 =? 0 then
    let b := u32 (b << 7) in
    let a := a .| b in
    let s := s >> 18 in
    (5, u64 (s << 32) .| a)
  else
  let s := u32 (s << 7) in
  let s := s .| b in
  let b := u32 (b << 14) in
  let b := b .| rd p 5 in
  if b .& 0x80 =? 0 then
    let a := a .& SLOT_2_0 in
    let a := u32 (a << 7) in
    let a := a .| b in
    let s := s >> 18 in
    (6, u64 (s << 32) .| a)
  else
  let a := u32 (a << 14) in
  let a := a .| rd p 6 in
  if a .& 0x80 =? 0 then
    let a := a .& SLOT_4_2_0 in
    let b := b .& SLOT_2_0 in
    let b := u32 (b << 7) in
    let a := a .| b in
    let s := s >> 11 in
    (7, u64 (s << 32) .| a)
  else
  let a := a .& SLOT_2_0 in
  let b := u32 (b << 14) in
  let b := b .| rd p 7 in
  if b .& 0x80 =? 0 then
    let b := b .& SLOT_4_2_0 in
    let a := u32 (a << 7) in
    let a := a .| b in
    let s := s >> 4 in
    (8, u64 (s << 32) .| a)
  else
  let a := u32 (a << 15) in
  let a := a .| rd p 8 in
  let b := b .& SLOT_2_0 in
  let b := u32 (b << 8) in
  let a := a .| b in
  let s := u32 (s << 4) in
  let b := rd p (8 - 4) in
  let b := b .& 0x7f in
  let b := b >> 3 in
  let s := s .| b in
  (9, u64 (s << 32) .| a).

(** [sqlite3PutVarint]: the do-while loop that fills [buf], low group first. *)
Fixpoint putVarint_buf (fuel : nat) (buf : list Z) (v : Z) : list Z :=
  match fuel with
  | O => buf
  | S fuel =>
      let buf := buf ++ [u8 ((v .& 0x7f) .| 0x80)] in
      let v := v >> 7 in
      if v =? 0 then buf else putVarint_buf fuel buf v
  end.

(** [for(i=0, j=n-1; j>=0; j--, i++) p[i] = buf[j];] with [j+1] steps to go. *)
Fixpoint putVarint_copy (j1 : nat) (i : Z) (buf p : list Z) : list Z :=
  match j1 with
  | O => p
  | S j => putVarint_copy j (i + 1) buf (wr p i (rd buf (Z.of_nat j)))
  end.

(** [for(i=7; i>=0; i--){ p[i] = (u8)((v & 0x7f) | 0x80); v >>= 7; }] *)
Fixpoint putVarint_nine (i1 : nat) (v : Z) (p : list Z) : list Z :=
  match i1 with
  | O => p
  | S i => putVarint_nine i (v >> 7) (wr p (Z.of_nat i) (u8 ((v .& 0x7f) .| 0x80)))
  end.

Definition sqlite3PutVarint (p : list Z) (v : Z) : Z * list Z :=
  if negb (v .& (0xff000000 << 32) =? 0) then
    let p := wr p 8 (u8 v) in
    let v := v >> 8 in
    (9, putVarint_nine 8 v p)
  else
    let buf := putVarint_buf 10 [] v in
    let n := length buf in
    let buf := wr buf 0 (rd buf 0 .& 0x7f) in
    (Z.of_nat n, putVarint_copy n 0 buf p).

Definition sqlite3PutVarint32 (p : list Z) (v : Z) : Z * list Z :=
  if v .& Z.lnot 0x3fff =? 0 then
    let p := wr p 0 (u8 ((v >> 7) .| 0x80)) in
    let p := wr p 1 (u8 (v .& 0x7f)) in
    (2, p)
  else sqlite3PutVarint p v.

(** The [putVarint32] macro. *)
Definition putVarint32 (p : list Z) (v : Z) : Z * list Z :=
  if v <? 0x80 then (1, wr p 0 (u8 v)) else sqlite3PutVarint32 p v.

Definition SQLITE_MAX_U32 : Z := (1 << 32) - 1.

Definition sqlite3GetVarint32 (p : list Z) : Z * Z :=
  let a := rd p 0 in
  let b := rd p 1 in
  if b .& 0x80 =? 0 then
    let a := a .& 0x7f in
    let a := u32 (a << 7) in
    (2, a .| b)
  else
  let a := u32 (a << 14) in
  let a := a .| rd p 2 in
  if a .& 0x80 =? 0 then
    let a := a .& ((0x7f << 14) .| 0x7f) in
    let b := b .& 0x7f in
    let b := u32 (b << 7) in
    (3, a .| b)
  else
    let '(n, v64) := sqlite3GetVarint p in
    if negb (v64 .& SQLITE_MAX_U32 =? v64) then (n, 0xffffffff) else (n, u32 v64).

(** The [getVarint32] macro. *)
Definition getVarint32 (p : list Z) : Z * Z :=
  if rd p 0 <? 0x80 then (1, rd p 0) else sqlite3GetVarint32 p.

Fixpoint varintLen_loop (fuel : nat) (i v : Z) : Z :=
  match fuel with
  | O => i
  | S fuel =>
      let i := i + 1 in
      let v := v >> 7 in
      if negb (v =? 0) && (i <? 9) then varintLen_loop fuel i v else i
  end.
Definition sqlite3VarintLen (v : Z) : Z := varintLen_loop 10 0 v.

Definition sqlite3Get4byte (p : list Z) : Z :=
  u32 (rd p 0 << 24) .| (rd p 1 << 16) .| (rd p 2 << 8) .| rd p 3.

Definition sqlite3Put4byte (p : list Z) (v : Z) : list Z :=
  let p := wr p 0 (u8 (v >> 24)) in
  let p := wr p 1 (u8 (v >> 16)) in
  let p := wr p 2 (u8 (v >> 8)) in
  wr p 3 (u8 v).

(** reference *)
Fixpoint varint_ref (k : nat) (n acc : Z) (p : list Z) : Z * Z :=
  match k, p with
  | _, [] => (n, acc)
  | O, c :: _ => (n + 1, acc << 8 .| c)
  | S k, c :: p =>
      let acc := acc << 7 .| (c .& 0x7f) in
      if c .& 0x80 =? 0 then (n + 1, acc) else varint_ref k (n + 1) acc p
  end.

Lemma land_80 c : (c .& 0x80 =? 0) = negb (Z.testbit c 7).
Proof. by apply (land_bit c 7). Qed.

(** One test of a continuation bit: the word under test has the flag of byte [q]. *)
Ltac varint_step q :=
  lazymatch goal with
  | |- (if ?X .& 128 =? 0 then _ else _) = _ =>
      replace (X .& 128) with (q .& 128) by bits_solve;
      rewrite (land_80 q); destruct (Z.testbit q 7) eqn:?; cbn [negb];
      [|f_equal; bits_solve]
  end.

(** The varint at [p0 .. p8]: the code and the reference read the same value. *)
Lemma getVarint_nine p0 p1 p2 p3 p4 p5 p6 p7 p8 rest :
  bytes [p0; p1; p2; p3; p4; p5; p6; p7; p8] ->
  let p := p0 :: p1 :: p2 :: p3 :: p4 :: p5 :: p6 :: p7 :: p8 :: rest in
  sqlite3GetVarint p = varint_ref 8 0 0 p.
Proof.
  intros Hb p. unfold bytes in Hb. rewrite !Forall_cons in Hb. destruct Hb as (?&?&?&?&?&?&?&?&?&_).
  subst p. unfold sqlite3GetVarint, SLOT_2_0, SLOT_4_2_0. cbn [varint_ref].
  change (rd (p0::_) 0) with p0. change (rd (p0::_) 1) with p1.
  change (rd (p0::_) 2) with p2. change (rd (p0::_) 3) with p3.
  change (rd (p0::_) 4) with p4. change (rd (p0::_) 5) with p5.
  change (rd (p0::_) 6) with p6. change (rd (p0::_) 7) with p7.
  change (rd (p0::_) 8) with p8. change (rd (p0::_) (8 - 4)) with p4.
  cbv zeta.
  varint_step p0. varint_step p1. varint_step p2. varint_step p3. varint_step p4.
  varint_step p5. varint_step p6. varint_step p7.
  f_equal. bits_solve.
Qed.

Lemma rd_pad p k i : 0 <= i -> rd p i = rd (p ++ replicate k 0) i.
Proof.
  intros Hi. destruct (Z.lt_ge_cases i (Z.of_nat (length p))).
  - by rewrite rd_app_l by lia.
  - rewrite rd_app_r, rd_beyond by lia. unfold rd.
    destruct (nth_in_or_default (Z.to_nat (i - Z.of_nat (length p))) (replicate k 0) 0) as [Hin|];
      [|done]. apply list_elem_of_In, elem_of_replicate_inv in Hin. done.
Qed.

Lemma getVarint_ext p q :
  (forall i, 0 <= i -> rd p i = rd q i) -> sqlite3GetVarint p = sqlite3GetVarint q.
Proof. intros H. unfold sqlite3GetVarint. by rewrite !H by lia. Qed.

(** The unrolled decoder computes the reference on every byte buffer (bytes past
    the end of the list read as zero). *)
Lemma getVarint_ref p :
  bytes p -> sqlite3GetVarint p = varint_ref 8 0 0 (p ++ replicate 9 0).
Proof.
  intros Hp. rewrite (getVarint_ext p (p ++ replicate 9 0)) by (intros; by apply rd_pad).
  assert (bytes (p ++ replicate 9 0)) as Hb.
  { apply Forall_app_2; [done|]. by apply Forall_replicate. }
  assert (9 <= length (p ++ replicate 9 0%Z))%nat as Hl by (rewrite length_app, length_replicate; lia).
  revert Hb Hl. generalize (p ++ replicate 9 0). intros q Hb Hl.
  do 9 (destruct q as [|? q]; [cbn in Hl; lia|]).
  apply getVarint_nine. by apply (Forall_take _ 9) in Hb.
Qed.

(** ** Encoding *)

(** [n] seven-bit groups of [v], most significant first, all flagged. *)
Fixpoint vgroups (n : nat) (v : Z) : list Z :=
  match n with
  | O => []
  | S n => vgroups n (v >> 7) ++ [(v .& 0x7f) .| 0x80]
  end.

Lemma vgroups_length n v : length (vgroups n v) = n.
Proof. revert v; induction n; intros; cbn; rewrite ?length_app, ?IHn; cbn; lia. Qed.

Lemma group_low v : (v .& 0x7f .| 0x80) .& 0x7f = v mod 128.
Proof.
  change 128 with (2 ^ 7). rewrite <- Z.land_ones by lia. change (Z.ones 7) with 0x7f.
  rewrite Z.land_lor_distr_l, <- Z.land_assoc. change (0x80 .& 0x7f) with 0.
  by rewrite Z.lor_0_r, Z.land_diag.
Qed.

Lemma group_flag v : ((v .& 0x7f .| 0x80) .& 0x80 =? 0) = false.
Proof. rewrite land_80, Z.lor_spec. by rewrite orb_true_r. Qed.

Lemma group_last c : 0 <= c < 128 -> (c .& 0x80 =? 0) = true /\ c .& 0x7f = c.
Proof.
  intros Hc. split.
  - rewrite land_80, (testbit_ge 7 c 7); [done|split; lia|lia].
  - change 0x7f with (Z.ones 7). rewrite Z.land_ones by lia. apply Z.mod_small. lia.
Qed.

Lemma varint_ref_groups n k m acc v rest :
  (n <= k)%nat -> 0 <= v < 2 ^ (7 * Z.of_nat n) -> 
  varint_ref k m acc (vgroups n v ++ rest) =
  varint_ref (k - n) (m + Z.of_nat n) (acc * 2 ^ (7 * Z.of_nat n) + v) rest.
Proof.
  revert v rest. induction n as [|n IH]; intros v rest Hk Hv.
  { cbn [vgroups app]. f_equal; lia. }
  cbn [vgroups]. rewrite <- app_assoc. rewrite Z.shiftr_div_pow2 by lia.
  assert (2 ^ (7 * Z.of_nat (S n)) = 128 * 2 ^ (7 * Z.of_nat n)) as E2.
  { rewrite <- (Z.pow_add_r 2 7) by lia. f_equal. lia. }
  rewrite E2 in *. change (2 ^ 7) with 128.
  rewrite IH; [|lia|split; [apply Z.div_pos; lia | apply Z.div_lt_upper_bound; lia]].
  destruct (k - n)%nat as [|k'] eqn:Ek; [lia|]. cbn [app varint_ref].
  rewrite group_flag, group_low, shl_lor by (lia || by apply (Z.mod_pos_bound v 128)).
  replace (k - S n)%nat with k' by lia. f_equal; [lia|].
  change (2 ^ 7) with 128. pose proof (Z.div_mod v 128). lia.
Qed.


Lemma group_u8 v : u8 (v .& 0x7f .| 0x80) = v .& 0x7f .| 0x80.
Proof.
  apply uwrap_small. change 0x80 with (1 << 7). rewrite Z.lor_comm.
  change 0x7f with (Z.ones 7). rewrite Z.land_ones by lia.
  pose proof (Z.mod_pos_bound v (2 ^ 7)).
  rewrite shl_lor; [split; lia | lia | split; lia].
Qed.

Lemma vgroups_bytes n v : bytes (vgroups n v).
Proof.
  revert v. induction n as [|n IH]; intros v; [apply Forall_nil_2|].
  apply Forall_app_2; [apply IH|]. apply Forall_cons_2; [|apply Forall_nil_2].
  rewrite <- group_u8. by apply uwrap_range.
Qed.

Lemma putVarint_nine_spec n v mid rest :
  length mid = n -> putVarint_nine n v (mid ++ rest) = vgroups n v ++ rest.
Proof.
  revert v mid rest. induction n as [|n IH]; intros v mid rest Hl; cbn [putVarint_nine].
  { by destruct mid. }
  destruct mid as [|x mid' _] using rev_ind; [done|]. rewrite length_app in Hl; cbn in Hl.
  rewrite <- app_assoc. cbn [app]. rewrite wr_app by lia.
  rewrite IH by lia. cbn [vgroups]. rewrite <- app_assoc. by rewrite group_u8.
Qed.

(** [v] has [n] significant seven-bit groups. *)
Definition vsize (v : Z) (n : nat) : Prop :=
  (1 <= n)%nat /\ 0 <= v < 2 ^ (7 * Z.of_nat n) /\
  (n = 1%nat \/ 2 ^ (7 * (Z.of_nat n - 1)) <= v).

Lemma vsize_step v n : 0 <= v -> v >> 7 <> 0 -> vsize (v >> 7) n -> vsize v (S n).
Proof.
  unfold vsize. rewrite Z.shiftr_div_pow2 by lia. change (2 ^ 7) with 128.
  intros Hv Hne (Hn & Hr & Hlo).
  assert (2 ^ (7 * Z.of_nat (S n)) = 128 * 2 ^ (7 * Z.of_nat n)) as ->.
  { rewrite <- (Z.pow_add_r 2 7) by lia. f_equal. lia. }
  split; [lia|]. split; [pose proof (Z.div_mod v 128); pose proof (Z.mod_pos_bound v 128); lia|].
  right. replace (7 * (Z.of_nat (S n) - 1)) with (7 + 7 * (Z.of_nat n - 1)) by lia.
  rewrite Z.pow_add_r by lia. change (2 ^ 7) with 128.
  pose proof (Z.div_mod v 128). pose proof (Z.mod_pos_bound v 128).
  destruct Hlo as [->|Hlo]; [change (2 ^ _) with 1|]; lia.
Qed.

Lemma vsize_one v : 0 <= v -> v >> 7 = 0 -> vsize v 1.
Proof.
  rewrite Z.shiftr_div_pow2 by lia. change (2 ^ 7) with 128. intros Hv H0.
  split; [lia|]. split; [|by left]. change (2 ^ _) with 128.
  pose proof (Z.div_mod v 128). pose proof (Z.mod_pos_bound v 128). lia.
Qed.

Lemma vsize_lt v n k : vsize v n -> v < 2 ^ (7 * Z.of_nat k) -> (1 <= k)%nat -> (n <= k)%nat.
Proof.
  intros (Hn & Hr & Hlo) Hk H1. destruct Hlo as [->|Hlo]; [lia|].
  assert (7 * (Z.of_nat n - 1) < 7 * Z.of_nat k); [|lia].
  apply (Z.pow_lt_mono_r_iff 2); lia.
Qed.

Lemma vsize_unique v n m : vsize v n -> vsize v m -> n = m.
Proof.
  intros Hn Hm. assert (n <= m /\ m <= n)%nat; [|lia].
  split; eapply vsize_lt; eauto; unfold vsize in *; lia.
Qed.

Lemma shr7_range v n : 0 <= v < 2 ^ (7 * Z.of_nat (S n)) -> 0 <= v >> 7 < 2 ^ (7 * Z.of_nat n).
Proof.
  intros Hv. rewrite Z.shiftr_div_pow2 by lia. split; [apply Z.div_pos; lia|].
  apply Z.div_lt_upper_bound; [lia|]. rewrite <- Z.pow_add_r by lia.
  replace (7 + 7 * Z.of_nat n) with (7 * Z.of_nat (S n)) by lia. lia.
Qed.

Lemma putVarint_buf_spec fuel buf v :
  0 <= v < 2 ^ (7 * Z.of_nat fuel) -> (1 <= fuel)%nat ->
  exists n, vsize v n /\ putVarint_buf fuel buf v = buf ++ rev (vgroups n v).
Proof.
  revert buf v. induction fuel as [|fuel IH]; intros buf v Hv Hf; [lia|]. cbn [putVarint_buf].
  rewrite group_u8. destruct (Z.eqb_spec (v >> 7) 0) as [E|E].
  { exists 1%nat. split; [apply vsize_one; lia|]. done. }
  destruct (IH (buf ++ [v .& 0x7f .| 0x80]) (v >> 7)) as (n & Hn & ->).
  - by apply shr7_range.
  - destruct fuel; [|lia]. apply shr7_range in Hv. cbn in Hv. lia.
  - exists (S n). split; [by apply vsize_step; [lia|..]|].
    cbn [vgroups]. rewrite rev_app_distr. cbn. by rewrite <- app_assoc.
Qed.

Lemma putVarint_copy_spec n i buf pre mid rest :
  Z.of_nat (length pre) = i -> length mid = n -> (n <= length buf)%nat ->
  putVarint_copy n i buf (pre ++ mid ++ rest) = pre ++ rev (take n buf) ++ rest.
Proof.
  revert i pre mid. induction n as [|n IH]; intros i pre mid Hi Hm Hb.
  { by destruct mid. }
  destruct mid as [|x mid]; [done|]. cbn [putVarint_copy app]. rewrite wr_app by done.
  replace (pre ++ rd buf (Z.of_nat n) :: mid ++ rest)
    with ((pre ++ [rd buf (Z.of_nat n)]) ++ mid ++ rest) by by rewrite <- app_assoc.
  cbn in Hm. rewrite IH; [|rewrite length_app; cbn; lia|lia|lia].
  pose proof (lookup_rd buf (Z.of_nat n)) as Hlk. rewrite Nat2Z.id in Hlk.
  rewrite (take_S_r _ _ _ (Hlk ltac:(lia))), rev_app_distr. cbn. by rewrite <- app_assoc.
Qed.

Lemma varintLen_loop_spec fuel i v :
  0 <= v < 2 ^ (7 * Z.of_nat fuel) -> (1 <= fuel)%nat -> i <= 8 ->
  exists n, vsize v n /\ varintLen_loop fuel i v = Z.min 9 (i + Z.of_nat n).
Proof.
  revert i v. induction fuel as [|fuel IH]; intros i v Hv Hf Hi; [lia|].
  cbn [varintLen_loop]. destruct (Z.eqb_spec (v >> 7) 0) as [E|E]; cbn [negb andb].
  { exists 1%nat. split; [apply vsize_one; lia|lia]. }
  apply shr7_range in Hv as Hv'. destruct fuel as [|fuel]; [cbn in Hv'; lia|].
  destruct (Z.ltb_spec (i + 1) 9) as [H9|H9].
  - destruct (IH (i + 1) (v >> 7)) as (n & Hn & ->); [done|lia|lia|].
    exists (S n). split; [by apply vsize_step; [lia|..]|lia].
  - destruct (putVarint_buf_spec (S fuel) [] (v >> 7) Hv') as (n & Hn & _); [lia|].
    exists (S n). split; [by apply vsize_step; [lia|..]|]. lia.
Qed.

(** ** Theorems *)

Lemma test_ff56 v : is_u 64 v -> (v .& (0xff000000 << 32) =? 0) = (v <? 2 ^ 56).
Proof.
  intros Hv. replace (v .& (0xff000000 << 32)) with ((v / 2 ^ 56) * 2 ^ 56).
  - unfold is_u in Hv. pose proof (Z.div_mod v (2 ^ 56)). pose proof (Z.mod_pos_bound v (2 ^ 56)).
    destruct (Z.ltb_spec v (2 ^ 56)); [apply Z.eqb_eq | apply Z.eqb_neq]; nia.
  - rewrite <- Z.shiftr_div_pow2, <- Z.shiftl_mul_pow2 by lia. apply Z.bits_inj'. intros i Hi.
    rewrite Z.land_spec. change (0xff000000 << 32) with (Z.ones 8 << 56).
    rewrite !Z.shiftl_spec by lia. destruct (Z.lt_ge_cases i 56).
    { rewrite !(Z.testbit_neg_r _ (i - 56)) by lia. by rewrite andb_false_r. }
    rewrite Z.shiftr_spec by lia. replace (i - 56 + 56) with i by lia.
    destruct (Z.lt_ge_cases i 64).
    + rewrite Z.ones_spec_low by lia. by rewrite andb_true_r.
    + rewrite (testbit_ge 64) by done. done.
Qed.

(** What [sqlite3PutVarint] leaves in the buffer. *)
(** The encoding of a value. *)
Definition venc (v : Z) : list Z :=
  if v <? 2 ^ 56 then vgroups (Z.to_nat (sqlite3VarintLen v) - 1) (v >> 7) ++ [v mod 128] else vgroups 8 (v >> 8) ++ [u8 v].

Lemma varintLen_range v : is_u 64 v -> 1 <= sqlite3VarintLen v <= 9.
Proof.
  intros Hv. unfold is_u in Hv. destruct (varintLen_loop_spec 10 0 v) as (m & Hm & Hlen); [lia|lia|lia|].
  unfold sqlite3VarintLen. rewrite Hlen. destruct Hm. lia.
Qed.

Lemma putVarint_split p v :
  is_u 64 v -> sqlite3VarintLen v <= Z.of_nat (length p) ->
  sqlite3PutVarint p v = (sqlite3VarintLen v, venc v ++ drop (Z.to_nat (sqlite3VarintLen v)) p) /\
  Z.of_nat (length (venc v)) = sqlite3VarintLen v /\ bytes (venc v) /\
  (forall rest, varint_ref 8 0 0 (venc v ++ rest) = (sqlite3VarintLen v, v)).
Proof.
  intros Hv. pose proof (varintLen_range v Hv) as Hrange. revert Hrange. unfold venc, sqlite3PutVarint. rewrite test_ff56 by done. unfold is_u in Hv.
  unfold sqlite3VarintLen.
  destruct (varintLen_loop_spec 10 0 v) as (m & Hm & Hlen); [lia|lia|lia|]. rewrite Hlen.
  destruct (Z.ltb_spec v (2 ^ 56)) as [Hs|Hs]; cbn [negb].
  - destruct (putVarint_buf_spec 10 [] v) as (n & Hn & Hbuf); [lia|lia|]. rewrite Hbuf. cbn [app].
    rewrite (vsize_unique _ _ _ Hm Hn). pose proof Hn as (Hn1 & Hnr & _).
    assert (n <= 8)%nat by (by apply (vsize_lt v n 8); [..|lia]).
    destruct n as [|n]; [lia|]. rewrite Z.min_r, Z.add_0_l by lia. intros _ Hl.
    rewrite length_rev, vgroups_length, Nat2Z.id. replace (S n - 1)%nat with n by lia. split_and!.
    + f_equal. cbn [vgroups]. rewrite rev_app_distr. cbn [rev app]. 
      change (rd (_ :: _) 0) with (v .& 0x7f .| 0x80). change (wr (_ :: ?t) 0 ?x) with (x :: t).
      rewrite group_low. rewrite <- (take_drop (S n) p) at 1.
      pose proof (putVarint_copy_spec (S n) 0 (v mod 128 :: rev (vgroups n (v >> 7))) []
                    (take (S n) p) (drop (S n) p)) as Hc. cbn [app] in Hc.
      rewrite Hc; [|done|rewrite length_take; lia|cbn; rewrite length_rev, vgroups_length; lia].
      rewrite firstn_all2 by (cbn; rewrite length_rev, vgroups_length; lia).
      cbn [rev]. by rewrite rev_involutive.
    + rewrite length_app, vgroups_length. cbn. lia.
    + apply Forall_app_2; [apply vgroups_bytes|]. apply Forall_cons_2; [|apply Forall_nil_2].
      pose proof (Z.mod_pos_bound v 128). unfold is_u. lia.
    + intros rest. rewrite <- app_assoc. apply shr7_range in Hnr as Hnr'.
      rewrite varint_ref_groups by (lia || done). destruct (8 - n)%nat eqn:E8; [lia|].
      cbn [app varint_ref]. destruct (group_last (v mod 128)) as [-> ->].
      { apply Z.mod_pos_bound. lia. }
      rewrite shl_lor by (lia || by apply (Z.mod_pos_bound v 128)).
      rewrite Z.shiftr_div_pow2 by lia. change (2 ^ 7) with 128.
      pose proof (Z.div_mod v 128). f_equal; lia.
  - assert (9 <= m)%nat as Hm9.
    { destruct (Nat.le_gt_cases 9 m); [done|]. destruct Hm as (_ & Hmr & _).
      assert (2 ^ (7 * Z.of_nat m) <= 2 ^ (7 * 8)) by (apply Z.pow_le_mono_r; lia). lia. }
    rewrite Z.min_l by lia. intros _ Hl.
    do 8 (destruct p as [|? p]; [cbn in Hl; lia|]). destruct p as [|x p]; [cbn in Hl; lia|].
    split_and!; try done.
    + f_equal. pose proof (putVarint_nine_spec 8 (v >> 8) [z; z0; z1; z2; z3; z4; z5; z6] (u8 v :: p) eq_refl) as H9.
      etransitivity; [exact H9|]. rewrite <- app_assoc. reflexivity.
    + apply Forall_app_2; [apply vgroups_bytes|]. apply Forall_cons_2; [|apply Forall_nil_2].
      by apply uwrap_range.
    + intros rest. rewrite <- app_assoc, Z.shiftr_div_pow2 by lia.
      rewrite varint_ref_groups; [|lia|]; cycle 1.
      { split; [apply Z.div_pos; lia|]. apply Z.div_lt_upper_bound; lia. }
      cbn [varint_ref app Nat.sub]. rewrite shl_lor by (lia || by apply uwrap_range).
      unfold uwrap. pose proof (Z.div_mod v (2 ^ 8)). f_equal; lia.
Qed.

(** C35. Encode/decode round trip of the 64-bit varint: after [sqlite3PutVarint] the
    decoder reads back exactly the value and the number of bytes the encoder
    returned, whatever bytes follow. *)
Theorem varint_roundtrip p v :
  is_u 64 v -> bytes p -> 9 <= Z.of_nat (length p) ->
  let '(n, p') := sqlite3PutVarint p v in
  sqlite3GetVarint p' = (n, v) /\ n = sqlite3VarintLen v /\ 1 <= n <= 9 /\
  length p' = length p /\ drop (Z.to_nat n) p' = drop (Z.to_nat n) p.
Proof.
  intros Hv Hp Hl. pose proof (varintLen_range v Hv).
  destruct (putVarint_split p v Hv ltac:(lia)) as (-> & He & Hb & Hdec).
  rewrite getVarint_ref by (apply Forall_app_2; [done|by apply Forall_drop]).
  rewrite <- app_assoc, Hdec. repeat split; try lia.
  - rewrite length_app, length_drop. lia.
  - rewrite drop_app_length'; [done|lia].
Qed.

Lemma varint_roundtrip_witness :
  let '(n, p') := sqlite3PutVarint (replicate 12 7) 123456789012 in
  sqlite3GetVarint p' = (n, 123456789012) /\ n = 6.
Proof.
  pose proof (varint_roundtrip (replicate 12 7) 123456789012 ltac:(unfold is_u; lia)
    ltac:(repeat constructor; discriminate) ltac:(cbn; lia)) as H.
  destruct (sqlite3PutVarint _ _) as [n p']. split; [apply H|]. destruct H as (_ & -> & _). reflexivity.
Defined.

(** *** The 32-bit variants *)

Lemma lt_80 c : is_u 8 c -> (c <? 0x80) = negb (Z.testbit c 7).
Proof.
  intros [H0 H1]. rewrite Z.testbit_odd, Z.shiftr_div_pow2 by lia. change (2 ^ 7) with 128.
  change (2 ^ 8) with 256 in H1. destruct (Z.ltb_spec c 0x80).
  - by rewrite Z.div_small by lia.
  - replace (c / 128) with 1; [done|]. apply Z.div_unique with (c - 128); lia.
Qed.

Definition clip32 (nv : Z * Z) : Z * Z :=
  (nv.1, if nv.2 <=? SQLITE_MAX_U32 then nv.2 else 0xffffffff).

Lemma clip32_small n v : is_u 32 v -> clip32 (n, v) = (n, v).
Proof. intros [H0 H1]. unfold clip32. cbn [fst snd].
  change SQLITE_MAX_U32 with (2 ^ 32 - 1). by rewrite (proj2 (Z.leb_le _ _)) by lia. Qed.

Lemma varint_ref_nonneg k n acc p :
  0 <= acc -> bytes p -> 0 <= (varint_ref k n acc p).2.
Proof.
  revert n acc p. induction k as [|k IH]; intros n acc [|c p] Ha Hp; cbn; try done.
  - apply Z.lor_nonneg. split; [by apply Z.shiftl_nonneg|]. by apply Forall_cons in Hp as [[? _] _].
  - apply Forall_cons in Hp as [Hc Hp].
    assert (0 <= acc << 7 .| (c .& 0x7f)).
    { apply Z.lor_nonneg. split; [by apply Z.shiftl_nonneg|apply Z.land_nonneg; lia]. }
    destruct (c .& 0x80 =? 0); [done|]. by apply IH.
Qed.

Lemma max32_test v : 0 <= v -> (v .& SQLITE_MAX_U32 =? v) = (v <=? SQLITE_MAX_U32).
Proof.
  intros Hv. change SQLITE_MAX_U32 with (Z.ones 32). rewrite Z.land_ones by lia.
  pose proof (Z.mod_pos_bound v (2 ^ 32)). change (Z.ones 32) with (2 ^ 32 - 1).
  destruct (Z.leb_spec v (2 ^ 32 - 1)); [apply Z.eqb_eq, Z.mod_small | apply Z.eqb_neq]; lia.
Qed.

Lemma getVarint32_nine p0 p1 p2 p3 p4 p5 p6 p7 p8 rest :
  bytes (p0 :: p1 :: p2 :: p3 :: p4 :: p5 :: p6 :: p7 :: p8 :: rest) ->
  let p := p0 :: p1 :: p2 :: p3 :: p4 :: p5 :: p6 :: p7 :: p8 :: rest in
  getVarint32 p = clip32 (sqlite3GetVarint p).
Proof.
  intros Hb p. unfold getVarint32, sqlite3GetVarint32.
  assert (0 <= (sqlite3GetVarint p).2) as Hnn.
  { subst p. rewrite getVarint_nine by by apply (Forall_take _ 9) in Hb.
    by apply varint_ref_nonneg. }
  destruct (sqlite3GetVarint p) as [n v64] eqn:E. cbn [snd] in Hnn.
  rewrite max32_test by done. unfold sqlite3GetVarint in E.
  unfold bytes in Hb. rewrite !Forall_cons in Hb. destruct Hb as (?&?&?&_).
  subst p. change (rd (p0 :: _) 0) with p0 in *. change (rd (p0 :: _) 1) with p1 in *.
  change (rd (p0 :: _) 2) with p2 in *. rewrite land_80 in E. rewrite lt_80 by done.
  destruct (Z.testbit p0 7); cbn [negb] in *.
  2: { injection E as <- <-. symmetry. apply clip32_small. bits_range. }
  rewrite land_80 in E |- *. destruct (Z.testbit p1 7); cbn [negb] in *.
  2: { injection E as <- <-. symmetry. apply clip32_small. bits_range. }
  cbv zeta in E.
  destruct ((u32 (p0 << 14) .| p2) .& 128 =? 0).
  1: { injection E as <- <-. symmetry. apply clip32_small. unfold SLOT_2_0. bits_range. }
  clear E. unfold clip32. cbn [fst snd]. destruct (Z.leb_spec v64 SQLITE_MAX_U32); cbn [negb]; [|done].
  f_equal. apply uwrap_small. split; [done|]. change (2 ^ 32) with (SQLITE_MAX_U32 + 1). lia.
Qed.

Lemma getVarint32_clip p :
  bytes p -> getVarint32 p = clip32 (sqlite3GetVarint p).
Proof.
  intros Hp. assert (forall i, 0 <= i -> rd p i = rd (p ++ replicate 9 0) i) as Hpad
    by (intros; by apply rd_pad).
  rewrite (getVarint_ext _ _ Hpad).
  assert (getVarint32 p = getVarint32 (p ++ replicate 9 0)) as ->.
  { unfold getVarint32, sqlite3GetVarint32. by rewrite (getVarint_ext _ _ Hpad), !Hpad by lia. }
  assert (bytes (p ++ replicate 9 0)) as Hb.
  { apply Forall_app_2; [done|]. by apply Forall_replicate. }
  assert (9 <= length (p ++ replicate 9 0%Z))%nat as Hl by (rewrite length_app, length_replicate; lia).
  revert Hb Hl. generalize (p ++ replicate 9 0). intros q Hb Hl.
  do 9 (destruct q as [|? q]; [cbn in Hl; lia|]).
  by apply getVarint32_nine.
Qed.

(** The 32-bit reader (macro and function) agrees with the 64-bit decoder on
    every buffer, saturating values that do not fit at 0xffffffff. *)
Theorem getVarint32_equiv p :
  bytes p -> getVarint32 p = clip32 (sqlite3GetVarint p).
Proof. apply getVarint32_clip. Qed.

Lemma getVarint32_equiv_witness :
  getVarint32 [129; 255; 3; 9] = clip32 (sqlite3GetVarint [129; 255; 3; 9]).
Proof. apply getVarint32_equiv. repeat constructor; discriminate. Defined.

Lemma varint_ref_bounds k n acc p m v :
  bytes p -> (k < length p)%nat -> 0 <= n -> 0 <= acc < 2 ^ (7 * n) ->
  varint_ref k n acc p = (m, v) ->
  n < m <= n + Z.of_nat k + 1 /\ 0 <= v < 2 ^ (7 * (n + Z.of_nat k) + 8) /\
  (m <= n + Z.of_nat k -> v < 2 ^ (7 * m)).
Proof.
  revert n acc p. induction k as [|k IH]; intros n acc [|c p] Hp Hl Hn Ha He;
    try (cbn in Hl; lia); apply Forall_cons in Hp as [Hc Hp]; cbn [varint_ref] in He.
  - injection He as <- <-. rewrite shl_lor by (lia || done). unfold is_u in Hc.
    rewrite (Z.pow_add_r 2 _ 8) by lia. rewrite Z.add_0_r. split; [lia|]. split; nia.
  - assert (acc << 7 .| (c .& 0x7f) = acc * 2 ^ 7 + c mod 2 ^ 7) as Eacc.
    { change 0x7f with (Z.ones 7). rewrite Z.land_ones by lia. apply shl_lor; [lia|].
      apply Z.mod_pos_bound. lia. }
    pose proof (Z.mod_pos_bound c (2 ^ 7) ltac:(lia)).
    assert (0 <= acc * 2 ^ 7 + c mod 2 ^ 7 < 2 ^ (7 * (n + 1))) as Ha'.
    { replace (7 * (n + 1)) with (7 * n + 7) by lia. rewrite Z.pow_add_r by lia. nia. }
    rewrite Eacc in He. destruct (c .& 0x80 =? 0).
    + injection He as <- <-. split; [lia|]. split; [|lia]. split; [lia|].
      eapply Z.lt_le_trans; [apply Ha'|]. apply Z.pow_le_mono_r; lia.
    + cbn in Hl. apply IH in He as (Hm & Hv & Hs); [|done|lia|lia|done].
      replace (n + Z.of_nat (S k)) with (n + 1 + Z.of_nat k) by lia. split; [lia|done].
Qed.

(** No varint that decodes to [v] is shorter than the one [sqlite3PutVarint]
    writes: [sqlite3VarintLen v] is the minimum over all encodings of [v]. *)
Theorem varint_minimal p n v :
  bytes p -> sqlite3GetVarint p = (n, v) ->
  is_u 64 v /\ 1 <= n <= 9 /\ sqlite3VarintLen v <= n.
Proof.
  intros Hp He. rewrite getVarint_ref in He by done.
  apply varint_ref_bounds in He as (Hn & Hv & Hs);
    [|apply Forall_app_2; [done|by apply Forall_replicate]|rewrite length_app, length_replicate; lia|lia|done].
  split; [apply Hv|]. split; [lia|]. unfold sqlite3VarintLen.
  destruct (varintLen_loop_spec 10 0 v) as (m & Hm & ->); [cbn in *; lia|lia|lia|].
  destruct (Z.le_gt_cases n 8); [|lia]. specialize (Hs ltac:(lia)).
  assert (m <= Z.to_nat n)%nat; [|lia]. eapply vsize_lt; [done| |lia].
  by rewrite Z2Nat.id by lia.
Qed.

Lemma varint_minimal_witness : sqlite3VarintLen 5 <= 2.
Proof. apply (varint_minimal [128; 5] 2 5); [repeat constructor; discriminate|reflexivity]. Defined.

Lemma high_mask_test v k :
  0 <= k -> 0 <= v -> (v .& Z.lnot (Z.ones k) =? 0) = (v <? 2 ^ k).
Proof.
  intros Hk Hv. rewrite <- Z.ldiff_land, Z.ldiff_ones_r, Z.shiftl_mul_pow2, Z.shiftr_div_pow2 by lia.
  pose proof (Z.pow_pos_nonneg 2 k). pose proof (Z.div_mod v (2 ^ k)).
  pose proof (Z.mod_pos_bound v (2 ^ k)).
  destruct (Z.ltb_spec v (2 ^ k)); [apply Z.eqb_eq|apply Z.eqb_neq].
  - by rewrite Z.div_small by lia.
  - assert (1 <= v / 2 ^ k) by (apply Z.div_le_lower_bound; lia). nia.
Qed.

(** The 32-bit writer (macro and function) leaves the same bytes and returns
    the same length as the general encoder. *)
Theorem putVarint32_equiv p v :
  is_u 32 v -> putVarint32 p v = sqlite3PutVarint p v.
Proof.
  intros Hv. unfold putVarint32, sqlite3PutVarint32. unfold is_u in Hv.
  assert (sqlite3PutVarint p v =
    let buf := putVarint_buf 10 [] v in
    (Z.of_nat (length buf), putVarint_copy (length buf) 0 (wr buf 0 (rd buf 0 .& 0x7f)) p)) as E.
  { unfold sqlite3PutVarint. rewrite test_ff56 by (unfold is_u; lia).
    by rewrite (proj2 (Z.ltb_lt _ _)) by lia. }
  destruct (Z.ltb_spec v 0x80).
  - rewrite E. cbn [putVarint_buf]. rewrite Z.shiftr_div_pow2, Z.div_small by lia. 
    cbn -[wr rd]. change (wr [?a] 0 ?b) with [b]. change (rd [?a] 0) with a.
    f_equal. rewrite group_u8, group_low, Z.mod_small by lia. f_equal.
    apply uwrap_small. change (is_u 8 v). split; [lia|]. change (2 ^ 8) with 256. lia.
  - assert ((v .& Z.lnot 0x3fff =? 0) = (v <? 2 ^ 14)) as ->.
    { by apply (high_mask_test v 14); lia. }
    destruct (Z.ltb_spec v (2 ^ 14)); [|done]. rewrite E. cbn [putVarint_buf].
    rewrite (Z.shiftr_div_pow2 v 7) by lia. change (2 ^ 7) with 128.
    assert (1 <= v / 128 < 128) by (split; [apply Z.div_le_lower_bound; lia|apply Z.div_lt_upper_bound; lia]).
    rewrite (proj2 (Z.eqb_neq (v / 128) 0)) by lia.
    rewrite (Z.shiftr_div_pow2 (v / 128) 7), (Z.div_small (v / 128)) by lia.
    cbn -[wr rd]. rewrite !group_u8. do 2 f_equal.
    + change (wr [?a; ?c] 0 ?b) with [b; c]. 
      rewrite (proj2 (group_last (v / 128) ltac:(lia))). f_equal.
      change (rd [?a; ?c] (Z.of_nat 1)) with c. apply uwrap_small.
      assert (is_u 7 (v / 128)) by (unfold is_u; lia). bits_range.
    + change (wr [?a; ?c] 0 ?b) with [b; c]. change (rd [?a; ?c] (Z.of_nat 0)) with a.
      change (rd [?a; ?c] 0) with a. rewrite group_low. change 0x7f with (Z.ones 7). rewrite Z.land_ones by lia.
      apply uwrap_small. pose proof (Z.mod_pos_bound v 128). unfold is_u. lia.
Qed.

Lemma putVarint32_equiv_witness : putVarint32 (replicate 9 0) 70000 = sqlite3PutVarint (replicate 9 0) 70000.
Proof. apply putVarint32_equiv. unfold is_u. lia. Defined.

(** The 32-bit accessors on encodings. *)
Lemma putVarint32_venc p v : is_u 32 v -> sqlite3VarintLen v <= Z.of_nat (length p) ->
  putVarint32 p v = (sqlite3VarintLen v, venc v ++ drop (Z.to_nat (sqlite3VarintLen v)) p).
Proof. intros Hv Hl. rewrite putVarint32_equiv by done. apply putVarint_split; [|done]. unfold is_u in *. lia. Qed.

Lemma venc_length v : is_u 64 v -> Z.of_nat (length (venc v)) = sqlite3VarintLen v.
Proof. intros Hv. pose proof (varintLen_range v Hv). apply (putVarint_split (replicate 9 0)); [done|]. rewrite length_replicate. lia. Qed.

Lemma venc_bytes v : is_u 64 v -> bytes (venc v).
Proof. intros Hv. pose proof (varintLen_range v Hv). apply (putVarint_split (replicate 9 0)); [done|]. rewrite length_replicate. lia. Qed.

Lemma getVarint32_venc v rest : is_u 32 v -> bytes rest -> getVarint32 (venc v ++ rest) = (sqlite3VarintLen v, v).
Proof.
  intros Hv Hr. assert (is_u 64 v) as Hv' by (unfold is_u in *; lia). pose proof (varintLen_range v Hv').
  destruct (putVarint_split (replicate 9 0) v Hv') as (_ & _ & Hb & Hdec); [rewrite length_replicate; lia|].
  rewrite getVarint32_clip, getVarint_ref, <- app_assoc, Hdec, clip32_small by (try done; by apply Forall_app_2). done.
Qed.

(** The big-endian 4-byte writer and reader used throughout the file format are inverse
    on every 32-bit value. *)
Theorem put4byte_roundtrip p v :
  is_u 32 v -> 4 <= Z.of_nat (length p) -> sqlite3Get4byte (sqlite3Put4byte p v) = v.
Proof.
  intros Hv Hl. do 4 (destruct p as [|? p]; [cbn in Hl; lia|]).
  unfold sqlite3Get4byte, sqlite3Put4byte.
  change (rd (wr (wr (wr (wr _ _ ?a) _ ?b) _ ?c) _ ?d) 0) with a.
  change (rd (wr (wr (wr (wr _ _ ?a) _ ?b) _ ?c) _ ?d) 1) with b.
  change (rd (wr (wr (wr (wr _ _ ?a) _ ?b) _ ?c) _ ?d) 2) with c.
  change (rd (wr (wr (wr (wr _ _ ?a) _ ?b) _ ?c) _ ?d) 3) with d.
  bits_solve.
Qed.

Lemma put4byte_roundtrip_witness : sqlite3Get4byte (sqlite3Put4byte [1; 2; 3; 4; 5] 3735928559) = 3735928559.
Proof. apply put4byte_roundtrip; [unfold is_u; lia|cbn; lia]. Defined.
