(* ===== verification/IntArith.v ===== *)
(** Overflow-checked 64-bit arithmetic and logarithmic estimates of util.c. *)
From S2P Require Import Prelude.
Local Open Scope Z_scope.
Local Open Scope c_scope.

Module Int64.

Definition LARGEST_INT64 : Z := 0xffffffff .| (0x7fffffff << 32).
Definition SMALLEST_INT64 : Z := -1 - LARGEST_INT64.

(** The result code and the new value of [*pA]; [None] when a signed operation of
    the body overflows. *)
Definition sqlite3AddInt64 (pA iB : Z) : option (Z * Z) :=
  let iA := pA in
  if 0 <=? iB then
    if 0 <? iA then
      d ← ck 64 (LARGEST_INT64 - iA);
      if d <? iB then Some (1, pA)
      else s ← ck 64 (pA + iB); Some (0, s)
    else s ← ck 64 (pA + iB); Some (0, s)
  else
    if iA <? 0 then
      s ← ck 64 (iA + LARGEST_INT64);
      n ← ck 64 (- s);
      b ← ck 64 (iB + 1);
      if b <? n then Some (1, pA)
      else s ← ck 64 (pA + iB); Some (0, s)
    else s ← ck 64 (pA + iB); Some (0, s).

Definition sqlite3SubInt64 (pA iB : Z) : option (Z * Z) :=
  if iB =? SMALLEST_INT64 then
    if 0 <=? pA then Some (1, pA)
    else d ← ck 64 (pA - iB); Some (0, d)
  else
    n ← ck 64 (- iB);
    sqlite3AddInt64 pA n.

Definition TWOPOWER32 : Z := 1 << 32.
Definition TWOPOWER31 : Z := 1 << 31.

Definition sqlite3MulInt64 (pA iB : Z) : option (Z * Z) :=
  let iA := pA in
  let iA1 := Z.quot iA TWOPOWER32 in
  let iA0 := Z.rem iA TWOPOWER32 in
  let iB1 := Z.quot iB TWOPOWER32 in
  let iB0 := Z.rem iB TWOPOWER32 in
  let finish (r : Z) : option (Z * Z) :=
    if (r <? - TWOPOWER31) || (TWOPOWER31 <=? r) then Some (1, pA)
    else
      r ← ck 64 (r * TWOPOWER32);
      m ← ck 64 (iA0 * iB0);
      '(rc, r) ← sqlite3AddInt64 r m;
      if negb (rc =? 0) then Some (1, pA) else Some (0, r) in
  if iA1 =? 0 then
    if iB1 =? 0 then
      m ← ck 64 (pA * iB); Some (0, m)
    else r ← ck 64 (iA0 * iB1); finish r
  else if iB1 =? 0 then
    r ← ck 64 (iA1 * iB0); finish r
  else Some (1, pA).

Definition sqlite3AbsInt32 (x : Z) : option Z :=
  if 0 <=? x then Some x
  else if x =? i32 0x80000000 then Some 0x7fffffff
  else ck 32 (- x).

(** What the three routines promise: the exact result when it is representable,
    and otherwise the code 1 with [*pA] unchanged. *)
Definition exact_or_overflow (pA r : Z) : Z * Z :=
  if in_i 64 r then (0, r) else (1, pA).

(** Runs the checked operations whose results are in range, and decides the
    comparisons the context settles. *)
Ltac ck_run :=
  repeat match goal with
  | |- context [ck ?w ?x] =>
      rewrite (ck_Some w x) by (unfold is_i; lia); cbn [mbind option_bind]
  | |- context [?a <? ?b] => destruct (Z.ltb_spec a b); try lia
  | |- context [?a <=? ?b] => destruct (Z.leb_spec a b); try lia
  end.

Lemma exact_ok pA r : - 2 ^ 63 <= r < 2 ^ 63 -> exact_or_overflow pA r = (0, r).
Proof. intros H. unfold exact_or_overflow. by destruct (in_i_spec 64 r). Qed.
Lemma exact_overflow pA r : r < - 2 ^ 63 \/ 2 ^ 63 <= r -> exact_or_overflow pA r = (1, pA).
Proof.
  intros H. unfold exact_or_overflow. destruct (in_i_spec 64 r) as [Hr|]; [unfold is_i in Hr; lia|done].
Qed.

Lemma addInt64_spec pA iB :
  is_i 64 pA -> is_i 64 iB -> sqlite3AddInt64 pA iB = Some (exact_or_overflow pA (pA + iB)).
Proof.
  unfold is_i. change (2 ^ (64 - 1)) with (2 ^ 63). intros HA HB. unfold sqlite3AddInt64.
  change LARGEST_INT64 with (2 ^ 63 - 1).
  ck_run; first [by rewrite exact_ok by lia | by rewrite exact_overflow by lia].
Qed.

Lemma subInt64_spec pA iB :
  is_i 64 pA -> is_i 64 iB -> sqlite3SubInt64 pA iB = Some (exact_or_overflow pA (pA - iB)).
Proof.
  intros HA HB. pose proof HA as HA'. pose proof HB as HB'. unfold is_i in HA', HB'.
  change (2 ^ (64 - 1)) with (2 ^ 63) in *. unfold sqlite3SubInt64.
  change SMALLEST_INT64 with (- 2 ^ 63). destruct (Z.eqb_spec iB (- 2 ^ 63)).
  - ck_run; first [by rewrite exact_ok by lia | by rewrite exact_overflow by lia].
  - ck_run. rewrite addInt64_spec by (unfold is_i; lia). do 2 f_equal; lia.
Qed.

Lemma quot_rem_32 x : is_i 64 x ->
  exists q r, Z.quot x TWOPOWER32 = q /\ Z.rem x TWOPOWER32 = r /\ x = 2 ^ 32 * q + r /\
    - 2 ^ 31 <= q <= 2 ^ 31 /\ - 2 ^ 32 < r < 2 ^ 32 /\
    (0 < q -> 0 <= r) /\ (q < 0 -> r <= 0).
Proof.
  change TWOPOWER32 with (2 ^ 32). unfold is_i. intros Hx.
  exists (Z.quot x (2 ^ 32)), (Z.rem x (2 ^ 32)). split; [done|]. split; [done|].
  pose proof (Z.quot_rem x (2 ^ 32) ltac:(lia)).
  destruct (Z.le_gt_cases 0 x).
  - pose proof (Z.rem_bound_pos x (2 ^ 32) ltac:(lia) ltac:(lia)). lia.
  - pose proof (Z.rem_bound_pos (- x) (2 ^ 32) ltac:(lia) ltac:(lia)).
    rewrite Z.rem_opp_l in * by lia. lia.
Qed.

(** The second half of [sqlite3MulInt64]: one factor [x] is below [2^32], the
    other is [2^32 * y1 + y0], and the code combines the partial products. *)
Lemma mul_finish pA x y1 y0 :
  - 2 ^ 32 < x < 2 ^ 32 -> y1 <> 0 -> - 2 ^ 31 <= y1 <= 2 ^ 31 -> - 2 ^ 32 < y0 < 2 ^ 32 ->
  (0 < y1 -> 0 <= y0) -> (y1 < 0 -> y0 <= 0) ->
  ck 64 (x * y1) = Some (x * y1) /\
  (if (x * y1 <? - 2 ^ 31) || (2 ^ 31 <=? x * y1) then Some (1, pA)
   else
     r ← ck 64 (x * y1 * 2 ^ 32);
     m ← ck 64 (x * y0);
     '(rc, r) ← sqlite3AddInt64 r m;
     if negb (rc =? 0) then Some (1, pA) else Some (0, r)) =
  Some (exact_or_overflow pA (x * (2 ^ 32 * y1 + y0))).
Proof.
  intros Hx Hy1 Hy1b Hy0 Hp Hn. split; [apply ck_Some; unfold is_i; nia|].
  destruct (Z.ltb_spec (x * y1) (- 2 ^ 31)); cbn [orb].
  { rewrite exact_overflow; [done|]. left. nia. }
  destruct (Z.leb_spec (2 ^ 31) (x * y1)).
  { rewrite exact_overflow; [done|]. right. nia. }
  assert (- 2 ^ 31 <= x <= 2 ^ 31) by nia.
  assert (- 2 ^ 63 <= x * y0 < 2 ^ 63) by nia.
  rewrite !ck_Some by (unfold is_i; nia). cbn [mbind option_bind].
  rewrite addInt64_spec by (unfold is_i; nia).
  replace (x * (2 ^ 32 * y1 + y0)) with (x * y1 * 2 ^ 32 + x * y0) by nia.
  unfold exact_or_overflow. destruct (in_i 64 _); reflexivity.
Qed.

(** [sqlite3MulInt64] is exact, and free of undefined behaviour, whenever one of
    the factors has a non-zero high word; otherwise it performs an unchecked
    multiplication. *)
Lemma mulInt64_spec pA iB :
  is_i 64 pA -> is_i 64 iB ->
  sqlite3MulInt64 pA iB =
    if (Z.abs pA <? 2 ^ 32) && (Z.abs iB <? 2 ^ 32)
    then (m ← ck 64 (pA * iB); Some (0, m))
    else Some (exact_or_overflow pA (pA * iB)).
Proof.
  intros HA HB. unfold sqlite3MulInt64.
  destruct (quot_rem_32 pA HA) as (A1 & A0 & -> & -> & EA & HA1 & HA0 & SA & SA').
  destruct (quot_rem_32 iB HB) as (B1 & B0 & -> & -> & EB & HB1 & HB0 & SB & SB').
  change TWOPOWER32 with (2 ^ 32). change TWOPOWER31 with (2 ^ 31).
  unfold is_i in HA, HB. change (2 ^ (64 - 1)) with (2 ^ 63) in *.
  destruct (Z.eqb_spec A1 0) as [->|NA]; destruct (Z.eqb_spec B1 0) as [->|NB].
  - rewrite (proj2 (Z.ltb_lt (Z.abs pA) _)), (proj2 (Z.ltb_lt (Z.abs iB) _)) by lia. done.
  - rewrite (proj2 (Z.ltb_ge (Z.abs iB) _)), andb_false_r by lia.
    destruct (mul_finish pA A0 B1 B0) as [-> Hf]; try lia. cbn [mbind option_bind].
    rewrite Hf. do 2 f_equal. lia.
  - rewrite (proj2 (Z.ltb_ge (Z.abs pA) _)) by lia. cbn [andb].
    destruct (mul_finish pA B0 A1 A0) as [Hck Hf]; try lia.
    rewrite (Z.mul_comm A1 B0), Hck. cbn [mbind option_bind].
    rewrite (Z.mul_comm A0 B0), Hf. do 2 f_equal. lia.
  - rewrite (proj2 (Z.ltb_ge (Z.abs pA) _)) by lia. cbn [andb].
    rewrite exact_overflow; [done|]. nia.
Qed.
Lemma absInt32_spec x :
  is_i 32 x -> sqlite3AbsInt32 x = Some (Z.min (Z.abs x) (2 ^ 31 - 1)).
Proof.
  unfold is_i, sqlite3AbsInt32. change (2 ^ (32 - 1)) with (2 ^ 31).
  change (i32 0x80000000) with (- 2 ^ 31). intros H.
  destruct (Z.leb_spec 0 x); [f_equal; lia|].
  destruct (Z.eqb_spec x (- 2 ^ 31)) as [->|]; [done|].
  rewrite ck_Some by (unfold is_i; lia). f_equal; lia.
Qed.

(** [sqlite3AddInt64] and [sqlite3SubInt64] never overflow in C: they store the exact result when
    it fits in 64 bits, and otherwise report 1 and leave the operand alone. *)
Theorem add_sub_int64_exact pA iB :
  is_i 64 pA -> is_i 64 iB ->
  sqlite3AddInt64 pA iB = Some (exact_or_overflow pA (pA + iB)) /\
  sqlite3SubInt64 pA iB = Some (exact_or_overflow pA (pA - iB)).
Proof. intros. split; [by apply addInt64_spec|by apply subInt64_spec]. Qed.

Lemma add_sub_int64_exact_witness : sqlite3AddInt64 (2 ^ 63 - 1) 1 = Some (1, 2 ^ 63 - 1).
Proof. exact (proj1 (add_sub_int64_exact (2 ^ 63 - 1) 1 ltac:(unfold is_i; lia) ltac:(unfold is_i; lia))). Defined.

(** [sqlite3MulInt64] is exact, or reports the overflow and leaves the operand alone, whenever
    one factor is at least 2^32 in absolute value; no intermediate operation overflows. *)
Theorem mul_int64_exact pA iB :
  is_i 64 pA -> is_i 64 iB -> 2 ^ 32 <= Z.abs pA \/ 2 ^ 32 <= Z.abs iB ->
  sqlite3MulInt64 pA iB = Some (exact_or_overflow pA (pA * iB)).
Proof.
  intros HA HB Hbig. rewrite mulInt64_spec by done.
  destruct (Z.ltb_spec (Z.abs pA) (2 ^ 32)), (Z.ltb_spec (Z.abs iB) (2 ^ 32)); (done || lia).
Qed.

Lemma mul_int64_exact_witness : sqlite3MulInt64 (2 ^ 40) (- 2 ^ 23) = Some (0, - 2 ^ 63).
Proof. exact (mul_int64_exact (2 ^ 40) (- 2 ^ 23) ltac:(unfold is_i; lia) ltac:(unfold is_i; lia) ltac:(lia)). Defined.

(** C40. When both factors are below 2^32 in absolute value [sqlite3MulInt64] multiplies without a
    check, so that a product outside the 64-bit range is a signed overflow, undefined in C. *)
Theorem mul_int64_unchecked pA iB :
  Z.abs pA < 2 ^ 32 -> Z.abs iB < 2 ^ 32 -> ~ is_i 64 (pA * iB) ->
  sqlite3MulInt64 pA iB = None.
Proof.
  intros HA HB Hov. rewrite mulInt64_spec by (unfold is_i; lia).
  rewrite (proj2 (Z.ltb_lt _ _)), (proj2 (Z.ltb_lt _ _)) by done. cbn [andb].
  by rewrite ck_None.
Qed.

Lemma mul_int64_unchecked_witness : sqlite3MulInt64 (2 ^ 32 - 1) (2 ^ 32 - 1) = None.
Proof. apply mul_int64_unchecked; [lia|lia|unfold is_i; lia]. Defined.

End Int64.

Module LogEst.

(** [LogEst] is a signed 16-bit integer. *)
Definition logEstAdd_x : list Z :=
  [10; 10; 9; 9; 8; 8; 7; 7; 7; 6; 6; 6; 5; 5; 5; 4; 4; 4; 4; 3; 3; 3; 3; 3; 3;
   2; 2; 2; 2; 2; 2; 2].

Definition sqlite3LogEstAdd (a b : Z) : Z :=
  if b <=? a then
    if b + 49 <? a then a
    else if b + 31 <? a then i16 (a + 1)
    else i16 (a + rd logEstAdd_x (a - b))
  else
    if a + 49 <? b then b
    else if a + 31 <? b then i16 (b + 1)
    else i16 (b + rd logEstAdd_x (b - a)).

Definition logEst_a : list Z := [0; 2; 3; 5; 6; 7; 8; 9].

(** [while( x<8 ){ y -= 10; x <<= 1; }] *)
Fixpoint logEst_up (fuel : nat) (y x : Z) : Z * Z :=
  match fuel with
  | O => (y, x)
  | S fuel => if x <? 8 then logEst_up fuel (i16 (y - 10)) (u64 (x << 1)) else (y, x)
  end.
(** [while( x>255 ){ y += 40; x >>= 4; }] *)
Fixpoint logEst_down4 (fuel : nat) (y x : Z) : Z * Z :=
  match fuel with
  | O => (y, x)
  | S fuel => if 255 <? x then logEst_down4 fuel (i16 (y + 40)) (x >> 4) else (y, x)
  end.
(** [while( x>15 ){ y += 10; x >>= 1; }] *)
Fixpoint logEst_down1 (fuel : nat) (y x : Z) : Z * Z :=
  match fuel with
  | O => (y, x)
  | S fuel => if 15 <? x then logEst_down1 fuel (i16 (y + 10)) (x >> 1) else (y, x)
  end.

Definition sqlite3LogEst (x : Z) : Z :=
  let y := 40 in
  if x <? 8 then
    if x <? 2 then 0
    else
      let '(y, x) := logEst_up 3 y x in
      i16 (rd logEst_a (x .& 7) + y - 10)
  else
    let '(y, x) := logEst_down4 14 y x in
    let '(y, x) := logEst_down1 4 y x in
    i16 (rd logEst_a (x .& 7) + y - 10).

Definition sqlite3LogEstToInt (x : Z) : Z :=
  if x <? 10 then 1
  else
    let n := u64 (Z.rem x 10) in
    let x := Z.quot x 10 in
    let n := if 5 <=? n then n - 2 else if 1 <=? n then n - 1 else n in
    if 3 <=? x then
      if 60 <? x then Int64.LARGEST_INT64 else u64 ((n + 8) << (x - 3))
    else (n + 8) >> (3 - x).

(** A double is given by its 64 bits: the sign, 11 bits of the exponent and 52 of the mantissa. The
    comparison with a positive number is one of the bits; it is false for a NaN. The conversion of a
    number above 1 and below 2^52 to [u64] drops the bits behind the point. *)
Definition dbl_exp (a : Z) : Z := (a >> 52) .& 0x7ff.
Definition dbl_mant (a : Z) : Z := a .& 0xfffffffffffff.
Definition dbl_nan (a : Z) : bool := (dbl_exp a =? 0x7ff) && negb (dbl_mant a =? 0).
Definition dbl_le (a b : Z) : bool := negb (dbl_nan a) && (Z.testbit a 63 || (a <=? b)).
Definition dbl_u64 (a : Z) : Z := (2 ^ 52 + dbl_mant a) >> (1075 - dbl_exp a).
Definition dbl_1 : Z := 0x3ff0000000000000.
Definition dbl_2000000000 : Z := 0x41ddcd6500000000.

(** The last assignment and product are those of [LogEst e] and [int]. *)
Definition sqlite3LogEstFromDouble (a : Z) : Z :=
  if dbl_le a dbl_1 then 0
  else if dbl_le a dbl_2000000000 then sqlite3LogEst (dbl_u64 a)
  else let e := i16 ((a >> 52) - 1022) in i16 (e * 10).

(** Invariant of the normalisation loops: the mantissa [x] times [2^k] brackets
    the argument [x0], and [y] counts ten per halving. *)
Definition norm (x0 x y k : Z) : Prop :=
  0 <= k <= 60 /\ y = 40 + 10 * k /\ x * 2 ^ k <= x0 < (x + 1) * 2 ^ k.

Lemma norm_shift x0 x y k j :
  norm x0 x y k -> 0 <= j -> k + j <= 60 -> norm x0 (x >> j) (i16 (y + 10 * j)) (k + j).
Proof.
  intros (Hk & -> & Hb) Hj Hkj. unfold norm. split; [lia|]. split.
  - rewrite swrap_small by (unfold is_i; lia). lia.
  - rewrite Z.shiftr_div_pow2 by done. rewrite Z.pow_add_r by lia.
    pose proof (Z.pow_pos_nonneg 2 k). pose proof (Z.pow_pos_nonneg 2 j).
    pose proof (Z.div_mod x (2 ^ j)). pose proof (Z.mod_pos_bound x (2 ^ j)). nia.
Qed.

Lemma down4_spec fuel x0 x y k :
  norm x0 x y k -> 8 <= x -> x < 2 ^ (8 + 4 * Z.of_nat fuel) -> k + 4 * Z.of_nat fuel <= 56 ->
  exists x' y' k', logEst_down4 fuel y x = (y', x') /\ norm x0 x' y' k' /\ 8 <= x' <= 255 /\ k' <= 56.
Proof.
  revert x y k. induction fuel as [|fuel IH]; intros x y k Hn Hx Hf Hk; cbn [logEst_down4].
  { exists x, y, k. change (2 ^ _) with 256 in Hf. split; [done|]. split; [done|lia]. }
  destruct (Z.ltb_spec 255 x); [|exists x, y, k; split; [done|]; split; [done|lia]].
  apply (IH _ _ (k + 4)).
  - apply (norm_shift _ _ _ _ 4); [done|lia|lia].
  - rewrite Z.shiftr_div_pow2 by lia. apply Z.div_le_lower_bound; lia.
  - rewrite Z.shiftr_div_pow2 by lia. apply Z.div_lt_upper_bound; [lia|].
    rewrite <- Z.pow_add_r by lia. replace (4 + (8 + 4 * Z.of_nat fuel)) with (8 + 4 * Z.of_nat (S fuel)) by lia.
    lia.
  - lia.
Qed.

Lemma down1_spec fuel x0 x y k :
  norm x0 x y k -> 8 <= x < 2 ^ (4 + Z.of_nat fuel) -> k + Z.of_nat fuel <= 60 ->
  exists x' y' k', logEst_down1 fuel y x = (y', x') /\ norm x0 x' y' k' /\ 8 <= x' <= 15.
Proof.
  revert x y k. induction fuel as [|fuel IH]; intros x y k Hn Hx Hk; cbn [logEst_down1].
  { exists x, y, k. change (2 ^ _) with 16 in Hx. split; [done|]. split; [done|lia]. }
  destruct (Z.ltb_spec 15 x); [|exists x, y, k; split; [done|]; split; [done|lia]].
  apply (IH _ _ (k + 1)).
  - apply (norm_shift _ _ _ _ 1); [done|lia|lia].
  - rewrite Z.shiftr_div_pow2 by lia. split; [apply Z.div_le_lower_bound; lia|].
    apply Z.div_lt_upper_bound; [lia|].
    rewrite <- Z.pow_add_r by lia. replace (1 + (4 + Z.of_nat fuel)) with (4 + Z.of_nat (S fuel)) by lia.
    lia.
  - lia.
Qed.
(** The eight mantissas: the table is within one below and two above ten times
    the binary logarithm of any number with that mantissa. *)
Lemma mantissa_table m :
  8 <= m <= 15 ->
  2 ^ (rd logEst_a (m .& 7) + 29) <= m ^ 10 /\ (m + 1) ^ 10 < 2 ^ (rd logEst_a (m .& 7) + 32) /\
  0 <= rd logEst_a (m .& 7) <= 9.
Proof.
  intros Hm. assert (m = 8 \/ m = 9 \/ m = 10 \/ m = 11 \/ m = 12 \/ m = 13 \/ m = 14 \/ m = 15) as Hc by lia.
  destruct Hc as [->|[->|[->|[->|[->|[->|[->| ->]]]]]]]; vm_compute; repeat split; congruence.
Qed.

(** [sqlite3LogEst] approximates ten times the base-2 logarithm: for every 64-bit [x] >= 1 the
    result [e] fits in an i16 and satisfies 2^e <= 2 x^10 and x^10 < 2^(e+2), that is, 10 log2 x lies
    in [e - 1, e + 2). *)
Theorem logEst_accurate x :
  is_u 64 x -> 1 <= x ->
  0 <= sqlite3LogEst x <= 639 /\ 2 ^ sqlite3LogEst x <= 2 * x ^ 10 /\ x ^ 10 < 2 ^ (sqlite3LogEst x + 2).
Proof.
  intros [_ Hx] H1. destruct (Z.lt_ge_cases x 8) as [Hs|Hl].
  { assert (x = 1 \/ x = 2 \/ x = 3 \/ x = 4 \/ x = 5 \/ x = 6 \/ x = 7) as Hc by lia.
    destruct Hc as [->|[->|[->|[->|[->|[->| ->]]]]]]; vm_compute; repeat split; congruence. }
  unfold sqlite3LogEst. rewrite (proj2 (Z.ltb_ge x 8)) by done.
  destruct (down4_spec 14 x x 40 0) as (x1 & y1 & k1 & -> & Hn1 & Hx1 & Hk1); [unfold norm; lia|lia|done|lia|].
  destruct (down1_spec 4 x x1 y1 k1) as (m & y & k & -> & (Hk & -> & Hb) & Hm);
    [done|split; [lia|change (2 ^ _) with 256; lia]|lia|].
  destruct (mantissa_table m Hm) as (Hlo & Hhi & Ha). set (a := rd logEst_a (m .& 7)) in *.
  rewrite swrap_small by (unfold is_i; lia).
  replace (a + (40 + 10 * k) - 10) with (a + 30 + k * 10) by lia.
  pose proof (Z.pow_pos_nonneg 2 k ltac:(lia) ltac:(lia)).
  assert (m ^ 10 * 2 ^ (k * 10) <= x ^ 10) as Hlow.
  { rewrite Z.pow_mul_r, <- Z.pow_mul_l by lia. apply Z.pow_le_mono_l. nia. }
  assert (x ^ 10 < (m + 1) ^ 10 * 2 ^ (k * 10)) as Hhigh.
  { rewrite Z.pow_mul_r, <- Z.pow_mul_l by lia. apply Z.pow_lt_mono_l; [lia|]. nia. }
  pose proof (Z.pow_pos_nonneg 2 (k * 10) ltac:(lia) ltac:(lia)).
  split; [lia|]. split.
  - replace (a + 30 + k * 10) with (1 + (a + 29 + k * 10)) by lia.
    rewrite (Z.pow_add_r 2 1), (Z.pow_add_r 2 (a + 29)) by lia. nia.
  - replace (a + 30 + k * 10 + 2) with (a + 32 + k * 10) by lia. rewrite Z.pow_add_r by lia. nia.
Qed.

Lemma logEst_accurate_witness : 2 ^ sqlite3LogEst 1000 <= 2 * 1000 ^ 10.
Proof. apply (logEst_accurate 1000); [unfold is_u; lia|lia]. Defined.
Lemma forallb_Forall_leb (f : Z -> Z) c l :
  forallb (fun x => f x <=? c) l = true -> Forall (fun x => f x <= c) l.
Proof.
  rewrite forallb_forall, Forall_forall. intros H x Hx. apply Z.leb_le, H. by apply list_elem_of_In.
Qed.

(** [sqlite3LogEst] inverts [sqlite3LogEstToInt] up to one unit over the range 30..609, where the
    conversion to an integer has at least three bits of precision. *)
Theorem logEst_roundtrip l :
  30 <= l <= 609 -> Z.abs (sqlite3LogEst (sqlite3LogEstToInt l) - l) <= 1.
Proof.
  intros Hl.
  assert (Forall (fun l => Z.abs (sqlite3LogEst (sqlite3LogEstToInt l) - l) <= 1) (seqZ 30 580)) as H.
  { apply (forallb_Forall_leb (fun l => Z.abs (sqlite3LogEst (sqlite3LogEstToInt l) - l))). vm_compute. reflexivity. }
  rewrite Forall_forall in H. apply H, elem_of_seqZ. lia.
Qed.

Lemma logEst_roundtrip_witness : Z.abs (sqlite3LogEst (sqlite3LogEstToInt 100) - 100) <= 1.
Proof. apply logEst_roundtrip. lia. Defined.
(** A positive finite double [a] above 1 is the number (2^52 + m) 2^(e - 1075) for the exponent [e] and
    the mantissa [m] of its bits. *)
Lemma dbl_parts a :
  dbl_1 < a < 0x7ff0000000000000 ->
  a = dbl_exp a * 2 ^ 52 + dbl_mant a /\ 1023 <= dbl_exp a < 2047 /\ 0 <= dbl_mant a < 2 ^ 52 /\
  a >> 52 = dbl_exp a /\ dbl_nan a = false /\ Z.testbit a 63 = false.
Proof.
  unfold dbl_1. intros Ha.
  assert (a >> 52 = dbl_exp a) as He.
  { unfold dbl_exp. rewrite (Z.land_ones _ 11) by lia. rewrite Z.mod_small; [done|].
    rewrite Z.shiftr_div_pow2 by lia. split; [apply Z.div_pos; lia|].
    apply Z.div_lt_upper_bound; [lia|]. change (2 ^ 52 * 2 ^ 11) with (2 ^ 63). lia. }
  assert (dbl_mant a = a mod 2 ^ 52) as Hm by (unfold dbl_mant; by rewrite (Z.land_ones _ 52)).
  pose proof (Z.mod_pos_bound a (2 ^ 52) ltac:(lia)). pose proof (Z.div_mod a (2 ^ 52) ltac:(lia)) as Hd.
  rewrite Z.shiftr_div_pow2 in He by lia. rewrite He in Hd. rewrite Z.shiftr_div_pow2, Hm by lia.
  assert (1023 <= dbl_exp a < 2047) as Hb by lia.
  split_and!; try lia.
  - unfold dbl_nan. by rewrite (proj2 (Z.eqb_neq _ _)) by lia.
  - apply Z.bits_above_log2; [lia|]. apply Z.log2_lt_pow2; lia.
Qed.

Lemma dbl_le_pos a b :
  dbl_1 < a < 0x7ff0000000000000 -> dbl_le a b = (a <=? b).
Proof. intros (_ & _ & _ & _ & H & H')%dbl_parts. unfold dbl_le. by rewrite H, H'. Qed.

(** Above two thousand million the estimate is ten times the number [k] of binary digits before the
    point: the number x = (2^52 + m) 2^(e - 1075) has 2^(k-1) <= x < 2^k. *)
Lemma logEstFromDouble_large a :
  dbl_2000000000 < a < 0x7ff0000000000000 ->
  exists k, sqlite3LogEstFromDouble a = 10 * k /\ 31 <= k <= 1024 /\
    2 ^ (k - 1 + 1075) <= (2 ^ 52 + dbl_mant a) * 2 ^ dbl_exp a < 2 ^ (k + 1075).
Proof.
  intros Ha. assert (dbl_1 < a < 0x7ff0000000000000) as H1 by (unfold dbl_1, dbl_2000000000 in *; lia).
  unfold sqlite3LogEstFromDouble. rewrite !dbl_le_pos, !(proj2 (Z.leb_gt _ _)) by (done || lia).
  destruct (dbl_parts a H1) as (Hv & He & Hm & -> & _). unfold dbl_2000000000 in Ha.
  exists (dbl_exp a - 1022). rewrite (swrap_small 16 (dbl_exp a - 1022)), swrap_small by (unfold is_i; lia).
  split_and!; try lia.
  - replace (dbl_exp a - 1022 - 1 + 1075) with (52 + dbl_exp a) by lia. rewrite Z.pow_add_r by lia. nia.
  - replace (dbl_exp a - 1022 + 1075) with (53 + dbl_exp a) by lia. rewrite Z.pow_add_r by lia.
    apply Z.mul_lt_mono_pos_r; lia.
Qed.

(** Between 1 and two thousand million it is the estimate for the integral part [n]: n <= x < n + 1. *)
Lemma logEstFromDouble_small a :
  dbl_1 < a <= dbl_2000000000 ->
  exists n, sqlite3LogEstFromDouble a = sqlite3LogEst n /\ 1 <= n <= 2000000000 /\
    n * 2 ^ (1075 - dbl_exp a) <= 2 ^ 52 + dbl_mant a < (n + 1) * 2 ^ (1075 - dbl_exp a).
Proof.
  intros Ha. assert (dbl_1 < a < 0x7ff0000000000000) as H1 by (unfold dbl_1, dbl_2000000000 in *; lia).
  unfold sqlite3LogEstFromDouble. rewrite !dbl_le_pos by done.
  rewrite (proj2 (Z.leb_gt _ _)), (proj2 (Z.leb_le _ _)) by lia.
  destruct (dbl_parts a H1) as (Hv & He & Hm & _). unfold dbl_1, dbl_2000000000 in Ha.
  exists (dbl_u64 a). unfold dbl_u64. rewrite Z.shiftr_div_pow2 by lia.
  set (p := 2 ^ (1075 - dbl_exp a)). assert (2 ^ 22 <= p <= 2 ^ 52) as Hp.
  { subst p. split; apply Z.pow_le_mono_r; lia. }
  pose proof (Z.div_mod (2 ^ 52 + dbl_mant a) p ltac:(lia)) as Hd.
  pose proof (Z.mod_pos_bound (2 ^ 52 + dbl_mant a) p ltac:(lia)).
  split; [done|]. split; [split|nia].
  - apply Z.div_le_lower_bound; lia.
  - apply Z.lt_succ_r, Z.div_lt_upper_bound; [lia|].
    assert (dbl_exp a = 1053 \/ dbl_exp a <= 1052) as [E|E] by lia.
    + subst p. rewrite E in *. lia.
    + assert (2 ^ 23 <= p) by (apply Z.pow_le_mono_r; lia). lia.
Qed.

Example logEstFromDouble_examples :
  map sqlite3LogEstFromDouble [0x4024000000000000; 0x412e848000000000; 0x4202a05f20000000; 0xc024000000000000]
  = [33; 199; 340; 0].
Proof. reflexivity. Qed.
End LogEst.
