(* ===== verification/Text.v ===== *)
(** Character tables and text routines of global.c and util.c.

    A zero-terminated string is the list of the bytes before its terminator:
    [rd] past the end yields the zero. A counted string is the list of its bytes. *)
From S2P Require Import Prelude IntArith.
Local Open Scope Z_scope.
Local Open Scope c_scope.

Definition sqlite3UpperToLower : list Z :=
  [0; 1; 2; 3; 4; 5; 6; 7; 8; 9; 10; 11; 12; 13; 14; 15; 16; 17;
   18; 19; 20; 21; 22; 23; 24; 25; 26; 27; 28; 29; 30; 31; 32; 33; 34; 35;
   36; 37; 38; 39; 40; 41; 42; 43; 44; 45; 46; 47; 48; 49; 50; 51; 52; 53;
   54; 55; 56; 57; 58; 59; 60; 61; 62; 63; 64; 97; 98; 99; 100; 101; 102; 103;
   104; 105; 106; 107; 108; 109; 110; 111; 112; 113; 114; 115; 116; 117; 118; 119; 120; 121;
   122; 91; 92; 93; 94; 95; 96; 97; 98; 99; 100; 101; 102; 103; 104; 105; 106; 107;
   108; 109; 110; 111; 112; 113; 114; 115; 116; 117; 118; 119; 120; 121; 122; 123; 124; 125;
   126; 127; 128; 129; 130; 131; 132; 133; 134; 135; 136; 137; 138; 139; 140; 141; 142; 143;
   144; 145; 146; 147; 148; 149; 150; 151; 152; 153; 154; 155; 156; 157; 158; 159; 160; 161;
   162; 163; 164; 165; 166; 167; 168; 169; 170; 171; 172; 173; 174; 175; 176; 177; 178; 179;
   180; 181; 182; 183; 184; 185; 186; 187; 188; 189; 190; 191; 192; 193; 194; 195; 196; 197;
   198; 199; 200; 201; 202; 203; 204; 205; 206; 207; 208; 209; 210; 211; 212; 213; 214; 215;
   216; 217; 218; 219; 220; 221; 222; 223; 224; 225; 226; 227; 228; 229; 230; 231; 232; 233;
   234; 235; 236; 237; 238; 239; 240; 241; 242; 243; 244; 245; 246; 247; 248; 249; 250; 251;
   252; 253; 254; 255].

Definition sqlite3CtypeMap : list Z :=
  [0; 0; 0; 0; 0; 0; 0; 0; 0; 0x01; 0x01; 0x01; 0x01; 0x01; 0; 0;
   0; 0; 0; 0; 0; 0; 0; 0; 0; 0; 0; 0; 0; 0; 0; 0;
   0x01; 0; 0; 0; 0x40; 0; 0; 0; 0; 0; 0; 0; 0; 0; 0; 0;
   0x0c; 0x0c; 0x0c; 0x0c; 0x0c; 0x0c; 0x0c; 0x0c; 0x0c; 0x0c; 0; 0; 0; 0; 0; 0;
   0; 0x0a; 0x0a; 0x0a; 0x0a; 0x0a; 0x0a; 0x02; 0x02; 0x02; 0x02; 0x02; 0x02; 0x02; 0x02; 0x02;
   0x02; 0x02; 0x02; 0x02; 0x02; 0x02; 0x02; 0x02; 0x02; 0x02; 0x02; 0; 0; 0; 0; 0x40;
   0; 0x2a; 0x2a; 0x2a; 0x2a; 0x2a; 0x2a; 0x22; 0x22; 0x22; 0x22; 0x22; 0x22; 0x22; 0x22; 0x22;
   0x22; 0x22; 0x22; 0x22; 0x22; 0x22; 0x22; 0x22; 0x22; 0x22; 0x22; 0; 0; 0; 0; 0;
   0x40; 0x40; 0x40; 0x40; 0x40; 0x40; 0x40; 0x40; 0x40; 0x40; 0x40; 0x40; 0x40; 0x40; 0x40; 0x40;
   0x40; 0x40; 0x40; 0x40; 0x40; 0x40; 0x40; 0x40; 0x40; 0x40; 0x40; 0x40; 0x40; 0x40; 0x40; 0x40;
   0x40; 0x40; 0x40; 0x40; 0x40; 0x40; 0x40; 0x40; 0x40; 0x40; 0x40; 0x40; 0x40; 0x40; 0x40; 0x40;
   0x40; 0x40; 0x40; 0x40; 0x40; 0x40; 0x40; 0x40; 0x40; 0x40; 0x40; 0x40; 0x40; 0x40; 0x40; 0x40;
   0x40; 0x40; 0x40; 0x40; 0x40; 0x40; 0x40; 0x40; 0x40; 0x40; 0x40; 0x40; 0x40; 0x40; 0x40; 0x40;
   0x40; 0x40; 0x40; 0x40; 0x40; 0x40; 0x40; 0x40; 0x40; 0x40; 0x40; 0x40; 0x40; 0x40; 0x40; 0x40;
   0x40; 0x40; 0x40; 0x40; 0x40; 0x40; 0x40; 0x40; 0x40; 0x40; 0x40; 0x40; 0x40; 0x40; 0x40; 0x40;
   0x40; 0x40; 0x40; 0x40; 0x40; 0x40; 0x40; 0x40; 0x40; 0x40; 0x40; 0x40; 0x40; 0x40; 0x40; 0x40].

Definition sqlite3Isspace (x : Z) : bool := negb (rd sqlite3CtypeMap x .& 0x01 =? 0).
Definition sqlite3Isalpha (x : Z) : bool := negb (rd sqlite3CtypeMap x .& 0x02 =? 0).
Definition sqlite3Isdigit (x : Z) : bool := negb (rd sqlite3CtypeMap x .& 0x04 =? 0).
Definition sqlite3Isalnum (x : Z) : bool := negb (rd sqlite3CtypeMap x .& 0x06 =? 0).
Definition sqlite3Isxdigit (x : Z) : bool := negb (rd sqlite3CtypeMap x .& 0x08 =? 0).
Definition sqlite3Toupper (x : Z) : Z := x .& Z.lnot (rd sqlite3CtypeMap x .& 0x20).
Definition sqlite3Tolower (x : Z) : Z := rd sqlite3UpperToLower x.
Definition IdChar (c : Z) : bool := negb (rd sqlite3CtypeMap c .& 0x46 =? 0).

(** [while( *z2 ){ z2++; }] *)
Fixpoint strlen (z : list Z) : Z :=
  match z with
  | [] => 0
  | c :: z => if c =? 0 then 0 else 1 + strlen z
  end.

Definition sqlite3Strlen30 (z : option (list Z)) : Z :=
  match z with
  | None => 0
  | Some z => 0x3fffffff .& i32 (strlen z)
  end.

Abbreviation hd0 := (hd 0).

Fixpoint sqlite3_stricmp (a b : list Z) : Z :=
  match a with
  | [] => sqlite3Tolower 0 - sqlite3Tolower (hd0 b)
  | c :: a' =>
      if negb (c =? 0) && (sqlite3Tolower c =? sqlite3Tolower (hd0 b))
      then sqlite3_stricmp a' (tl b)
      else sqlite3Tolower c - sqlite3Tolower (hd0 b)
  end.

Fixpoint sqlite3_strnicmp (a b : list Z) (N : Z) : Z :=
  if 0 <? N then
    match a with
    | [] => sqlite3Tolower 0 - sqlite3Tolower (hd0 b)
    | c :: a' =>
        if negb (c =? 0) && (sqlite3Tolower c =? sqlite3Tolower (hd0 b))
        then sqlite3_strnicmp a' (tl b) (N - 1)
        else sqlite3Tolower c - sqlite3Tolower (hd0 b)
    end
  else 0.

(** ** Quoting *)

(** The loop of [sqlite3Dequote] on the buffer [z]: [i] reads, [j] writes. *)
Fixpoint dequote_loop (fuel : nat) (quote : Z) (z : list Z) (i j : Z) : list Z * Z :=
  match fuel with
  | O => (z, j)
  | S fuel =>
      if rd z i =? quote then
        if rd z (i + 1) =? quote
        then dequote_loop fuel quote (wr z j quote) (i + 1 + 1) (j + 1)
        else (z, j)
      else dequote_loop fuel quote (wr z j (rd z i)) (i + 1) (j + 1)
  end.

Definition sqlite3Dequote (z : list Z) : Z * list Z :=
  let run (quote : Z) :=
    let '(z, j) := dequote_loop (length z) quote z 1 0 in
    (j, wr z j 0) in
  let quote := rd z 0 in
  if (quote =? 39) || (quote =? 34) || (quote =? 96) then run quote
  else if quote =? 91 then run 93
  else (-1, z).

(** ** Hexadecimal *)

Definition sqlite3HexToInt (h : Z) : Z :=
  let h := h + 9 * (1 .& (h >> 6)) in
  u8 (h .& 0xf).

(** [for(i=0; i<n; i+=2) zBlob[i/2] = ...;] on what is left of [z]: the bytes
    stored, in order. *)
Fixpoint hexToBlob_loop (fuel : nat) (z : list Z) (i n : Z) : list Z :=
  match fuel with
  | O => []
  | S fuel =>
      if i <? n then
        u8 ((sqlite3HexToInt (rd z i) << 4) .| sqlite3HexToInt (rd z (i + 1)))
          :: hexToBlob_loop fuel z (i + 2) n
      else []
  end.

(** [mallocOk] is the outcome of [sqlite3DbMallocRaw]. *)
Definition sqlite3HexToBlob (mallocOk : bool) (z : list Z) (n : Z) : option (list Z) :=
  let n := n - 1 in
  if mallocOk then Some (hexToBlob_loop (Z.to_nat n) z 0 n ++ [0]) else None.

(** ** Decimal integers *)

Definition SQLITE_UTF8 : Z := 1.
Definition SQLITE_UTF16LE : Z := 2.
Definition SQLITE_UTF16BE : Z := 3.

(** [while( z<zEnd && f( *z ) ) z += incr;] on offsets into the buffer. *)
Fixpoint skip_while (f : Z -> bool) (fuel : nat) (z : list Z) (i zEnd incr : Z) : Z :=
  match fuel with
  | O => i
  | S fuel => if (i <? zEnd) && f (rd z i) then skip_while f fuel z (i + incr) zEnd incr else i
  end.

(** The digit loop of [sqlite3Atoi64]: final [i], [u] and [c]. *)
Fixpoint atoi64_digits (fuel : nat) (z : list Z) (zNum zEnd incr i u c : Z) : Z * Z * Z :=
  match fuel with
  | O => (i, u, c)
  | S fuel =>
      if zNum + i <? zEnd then
        let c := rd z (zNum + i) in
        if (48 <=? c) && (c <=? 57)
        then atoi64_digits fuel z zNum zEnd incr (i + incr) (u64 (u * 10 + c - 48)) c
        else (i, u, c)
      else (i, u, c)
  end.

Definition pow63 : list Z :=
  [57; 50; 50; 51; 51; 55; 50; 48; 51; 54; 56; 53; 52; 55; 55; 53; 56; 48].

Fixpoint compare2pow63_loop (fuel : nat) (z : list Z) (zNum incr i : Z) : Z :=
  match fuel with
  | O => 0
  | S fuel =>
      let c := (rd z (zNum + i * incr) - rd pow63 i) * 10 in
      if c =? 0 then compare2pow63_loop fuel z zNum incr (i + 1) else c
  end.

Definition compare2pow63 (z : list Z) (zNum incr : Z) : Z :=
  let c := compare2pow63_loop 18 z zNum incr 0 in
  if c =? 0 then rd z (zNum + 18 * incr) - 56 else c.

(** [z] holds the [length] bytes at [zNum]; the result is the return code and
    the value stored in [*pNum]. *)
Definition sqlite3Atoi64 (z : list Z) (length enc : Z) : Z * Z :=
  let fuel := S (Z.to_nat length) in
  let '(incr, nonNum, zEnd, zNum) :=
    if enc =? SQLITE_UTF8 then (1, false, length, 0)
    else
      let i := skip_while (fun c => c =? 0) fuel z (3 - enc) length 2 in
      (2, i <? length, i + enc - 3, enc .& 1) in
  let zNum := skip_while sqlite3Isspace fuel z zNum zEnd incr in
  let '(neg, zNum) :=
    if zNum <? zEnd then
      if rd z zNum =? 45 then (true, zNum + incr)
      else if rd z zNum =? 43 then (false, zNum + incr)
      else (false, zNum)
    else (false, zNum) in
  let zStart := zNum in
  let zNum := skip_while (fun c => c =? 48) fuel z zNum zEnd incr in
  let '(i, u, c) := atoi64_digits fuel z zNum zEnd incr 0 0 0 in
  let pNum :=
    if Int64.LARGEST_INT64 <? u then
      if neg : bool then Int64.SMALLEST_INT64 else Int64.LARGEST_INT64
    else if neg then - u else u in
  if (negb (c =? 0) && (zNum + i <? zEnd)) || ((i =? 0) && (zStart =? zNum))
     || (19 * incr <? i) || (nonNum : bool)
  then (1, pNum)
  else if i <? 19 * incr then (0, pNum)
  else
    let c := compare2pow63 z zNum incr in
    if c <? 0 then (0, pNum)
    else if 0 <? c then (1, pNum)
    else (if neg then 0 else 2, pNum).

(** [while( zNum[0]=='0' ) zNum++;] *)
Fixpoint skip_zeros (z : list Z) : list Z :=
  match z with
  | c :: z' => if c =? 48 then skip_zeros z' else z
  | [] => []
  end.

(** [for(i=0; i<11 && (c = zNum[i] - '0')>=0 && c<=9; i++) v = v*10 + c;] *)
Fixpoint getInt32_digits (fuel : nat) (z : list Z) (i v : Z) : Z * Z :=
  match fuel with
  | O => (i, v)
  | S fuel =>
      let c := hd0 z - 48 in
      if (0 <=? c) && (c <=? 9) then getInt32_digits fuel (tl z) (i + 1) (v * 10 + c)
      else (i, v)
  end.

(** [Some v] when the routine returns 1 and stores [v]. *)
Definition sqlite3GetInt32 (zNum : list Z) : option Z :=
  let '(neg, zNum) :=
    if hd0 zNum =? 45 then (1, tl zNum)
    else if hd0 zNum =? 43 then (0, tl zNum)
    else (0, zNum) in
  let zNum := skip_zeros zNum in
  let '(i, v) := getInt32_digits 11 zNum 0 0 in
  if 10 <? i then None
  else if 2147483647 <? v - neg then None
  else
    let v := if neg =? 0 then v else - v in
    Some (i32 v).

Definition sqlite3Atoi (z : option (list Z)) : Z :=
  match z with
  | None => 0
  | Some z => default 0 (sqlite3GetInt32 z)
  end.

(** * Properties *)

Lemma tolower_0 x : is_u 8 x -> (sqlite3Tolower x =? 0) = (x =? 0).
Proof.
  intros H. apply eqb_true_iff.
  by apply (byte_forall (fun x => eqb (sqlite3Tolower x =? 0) (x =? 0))).
Qed.

(** ** Case-insensitive comparison *)

Definition cstring (z : list Z) : Prop := Forall (fun c => is_u 8 c /\ c <> 0) z.

Lemma stricmp_zero a b :
  cstring a -> cstring b ->
  (sqlite3_stricmp a b = 0 <-> map sqlite3Tolower a = map sqlite3Tolower b).
Proof.
  intros Ha. revert b. induction Ha as [|c a [Hc Hc0] Ha IH]; intros b Hb; cbn [sqlite3_stricmp].
  - destruct Hb as [|d b [Hd Hd0] Hb]; [done|]. cbn [hd map]. change (sqlite3Tolower 0) with 0.
    pose proof (tolower_0 d Hd) as Hl. rewrite (proj2 (Z.eqb_neq d 0)) in Hl by done.
    apply Z.eqb_neq in Hl. split; [lia|done].
  - rewrite (proj2 (Z.eqb_neq c 0)) by done. cbn [negb andb map].
    pose proof (tolower_0 c Hc) as Hl. rewrite (proj2 (Z.eqb_neq c 0)) in Hl by done.
    apply Z.eqb_neq in Hl. destruct Hb as [|d b [Hd Hd0] Hb]; cbn [hd tl map].
    + change (sqlite3Tolower 0) with 0. rewrite (proj2 (Z.eqb_neq _ 0)) by done. split; [lia|done].
    + destruct (Z.eqb_spec (sqlite3Tolower c) (sqlite3Tolower d)) as [E|E].
      * rewrite IH by done. rewrite E. split; [by intros ->|by intros [= ->]].
      * split; [lia|]. intros [= E' _]. done.
Qed.

Lemma stricmp_antisym a b :
  cstring a -> cstring b -> sqlite3_stricmp b a = - sqlite3_stricmp a b.
Proof.
  intros Ha. revert b. induction Ha as [|c a [Hc Hc0] Ha IH]; intros b Hb.
  - destruct Hb as [|d b [Hd Hd0] Hb]; [done|]. cbn [sqlite3_stricmp hd tl].
    rewrite (proj2 (Z.eqb_neq d 0)) by done. change (sqlite3Tolower 0) with 0. rewrite tolower_0 by done.
    rewrite (proj2 (Z.eqb_neq d 0)) by done. cbn. lia.
  - destruct Hb as [|d b [Hd Hd0] Hb]; cbn [sqlite3_stricmp hd tl].
    + rewrite (proj2 (Z.eqb_neq c 0)) by done. change (sqlite3Tolower 0) with 0. rewrite tolower_0 by done.
      rewrite (proj2 (Z.eqb_neq c 0)) by done. cbn. lia.
    + rewrite (proj2 (Z.eqb_neq c 0)), (proj2 (Z.eqb_neq d 0)) by done. cbn [negb andb].
      rewrite (Z.eqb_sym (sqlite3Tolower d)).
      destruct (_ =? _); [by apply IH|lia].
Qed.

(** [sqlite3_strnicmp] over keys of the same length [N]. *)
Lemma strnicmp_zero a b :
  Forall (is_u 8) a -> cstring b -> length a = length b ->
  (sqlite3_strnicmp a b (Z.of_nat (length b)) = 0 <-> map sqlite3Tolower a = map sqlite3Tolower b).
Proof.
  revert b. induction a as [|c a IH]; intros [|d b] Ha Hb Hl; try done.
  apply Forall_cons in Ha as [Hc Ha]. apply Forall_cons in Hb as [[Hd Hd0] Hb].
  cbn [sqlite3_strnicmp length map hd tl]. rewrite (proj2 (Z.ltb_lt 0 _)) by lia.
  replace (Z.of_nat (S (length b)) - 1) with (Z.of_nat (length b)) by lia.
  destruct (Z.eqb_spec (sqlite3Tolower c) (sqlite3Tolower d)) as [E|E].
  - assert (c <> 0) as Hc0.
    { intros ->. change (sqlite3Tolower 0) with 0 in E. symmetry in E. apply Z.eqb_eq in E.
      rewrite tolower_0 in E by done. by apply Z.eqb_eq in E. }
    rewrite (proj2 (Z.eqb_neq c 0)) by done. cbn [negb andb]. rewrite IH by (done || (cbn in Hl; lia)).
    rewrite E. split; [by intros ->|by intros [= ->]].
  - rewrite andb_false_r. split; [lia|]. intros [= E' _]. done.
Qed.

(** ** Quoting *)

(** SQL quoting: the quote character doubled inside, added at both ends. *)
Definition double_quotes (q : Z) (s : list Z) : list Z :=
  concat (map (fun c => if c =? q then [q; q] else [c]) s).

Lemma double_quotes_length q s : (length s <= length (double_quotes q s))%nat.
Proof.
  induction s as [|d s IH]; [done|].
  change (double_quotes q (d :: s)) with ((if d =? q then [q; q] else [d]) ++ double_quotes q s).
  rewrite length_app. destruct (d =? q); cbn; lia.
Qed.

Lemma dequote_loop_spec fuel q B w mid s t i j :
  B = w ++ mid ++ double_quotes q s ++ q :: t ->
  i = Z.of_nat (length w + length mid) -> j = Z.of_nat (length w) ->
  (length s < fuel)%nat -> (1 <= length mid)%nat -> hd0 t <> q ->
  exists mid', dequote_loop fuel q B i j = (w ++ s ++ mid' ++ q :: t, j + Z.of_nat (length s)) /\
    length mid' = (length mid + (length (double_quotes q s) - length s))%nat.
Proof.
  revert fuel B w mid i j.
  induction s as [|c s IH]; intros fuel B w mid i j HB Hi Hj Hf Hm Ht;
    (destruct fuel as [|fuel]; [cbn in Hf; lia|]); cbn [dequote_loop].
  - cbn [double_quotes map concat app length] in *. exists mid.
    assert (rd B i = q) as -> by (subst; rewrite app_assoc; apply rd_at; rewrite length_app; lia).
    assert (rd B (i + 1) = hd0 t) as ->.
    { subst. rewrite app_assoc, rd_app_r by (rewrite length_app; lia). rewrite length_app.
      replace (_ + 1 - _) with 1 by lia. by destruct t. }
    rewrite Z.eqb_refl, (proj2 (Z.eqb_neq _ _)) by done. subst B. split; [f_equal; lia|lia].
  - destruct mid as [|x mid]; [cbn in Hm; lia|]. cbn [length] in Hf, Hi.
    change (double_quotes q (c :: s)) with ((if c =? q then [q; q] else [c]) ++ double_quotes q s) in *.
    rewrite length_app in *. subst B.
    assert (forall y k, rd (w ++ (x :: mid) ++ y :: k) i = y) as Hrd.
    { intros y k. rewrite app_assoc. apply rd_at. rewrite length_app. cbn. lia. }
    assert (forall y k, wr (w ++ (x :: mid) ++ k) j y = (w ++ [y]) ++ mid ++ k) as Hwr.
    { intros y k. cbn [app]. rewrite wr_app by lia. by rewrite <- app_assoc. }
    pose proof (double_quotes_length q s) as Hdl.
    destruct (Z.eqb_spec c q) as [->|Hne]; rewrite <- app_assoc.
    + change ([q; q] ++ ?k) with (q :: q :: k). rewrite Hrd, Z.eqb_refl.
      assert (rd (w ++ (x :: mid) ++ q :: q :: double_quotes q s ++ q :: t) (i + 1) = q) as ->.
      { replace (w ++ (x :: mid) ++ q :: q :: double_quotes q s ++ q :: t)
          with ((w ++ (x :: mid) ++ [q]) ++ q :: double_quotes q s ++ q :: t)
          by (rewrite <- !app_assoc; done).
        apply rd_at. rewrite !length_app. cbn. lia. }
      rewrite Z.eqb_refl, Hwr.
      destruct (IH fuel ((w ++ [q]) ++ mid ++ q :: q :: double_quotes q s ++ q :: t)
                  (w ++ [q]) (mid ++ [q; q]) (i + 1 + 1) (j + 1)) as (mid' & -> & Hm');
        [by rewrite <- !app_assoc|rewrite !length_app; cbn; lia|rewrite length_app; cbn; lia|lia
        |rewrite length_app; cbn; lia|done|].
      exists mid'. split; [f_equal; [by rewrite <- app_assoc|cbn; lia]|].
      rewrite Hm', length_app. cbn. lia.
    + change ([c] ++ ?k) with (c :: k). rewrite Hrd, (proj2 (Z.eqb_neq c q)), Hwr by done.
      destruct (IH fuel ((w ++ [c]) ++ mid ++ c :: double_quotes q s ++ q :: t)
                  (w ++ [c]) (mid ++ [c]) (i + 1) (j + 1)) as (mid' & -> & Hm');
        [by rewrite <- !app_assoc|rewrite !length_app; cbn; lia|rewrite length_app; cbn; lia|lia
        |rewrite length_app; cbn; lia|done|].
      exists mid'. split; [f_equal; [by rewrite <- app_assoc|cbn; lia]|].
      rewrite Hm', length_app. cbn. lia.
Qed.

(** The closing quote that matches an opening quote character. *)
Definition close_quote (q : Z) : Z := if q =? 91 then 93 else q.

(** [sqlite3Dequote] undoes SQL quoting for each of the four quote characters: on a text quoted
    by doubling its closing quotes it leaves the original text, zero-terminated, and returns its length. *)
Theorem dequote_quote q s t :
  In q [39; 34; 96; 91] -> hd0 t <> close_quote q ->
  exists z', sqlite3Dequote (q :: double_quotes (close_quote q) s ++ close_quote q :: t)
             = (Z.of_nat (length s), z') /\
    take (length s) z' = s /\ rd z' (Z.of_nat (length s)) = 0.
Proof.
  intros Hq Ht. unfold sqlite3Dequote.
  pose proof (double_quotes_length (close_quote q) s) as Hdl.
  pose proof (dequote_loop_spec (length (q :: double_quotes (close_quote q) s ++ close_quote q :: t))
    (close_quote q) _ [] [q] s t 1 0 eq_refl eq_refl eq_refl
    ltac:(cbn; rewrite length_app; cbn; lia) ltac:(cbn; lia) Ht) as (mid' & E & Hm').
  cbn [app] in E. change (rd (q :: _) 0) with q.
  assert (let '(z, j) := dequote_loop (length (q :: double_quotes (close_quote q) s ++ close_quote q :: t))
    (close_quote q) (q :: double_quotes (close_quote q) s ++ close_quote q :: t) 1 0 in
    exists z', (j, wr z j 0) = (Z.of_nat (length s), z') /\
    take (length s) z' = s /\ rd z' (Z.of_nat (length s)) = 0) as Hrun.
  { rewrite E. eexists. split; [f_equal|]. destruct mid' as [|x mid']; [cbn in Hm'; lia|].
    cbn [app]. rewrite wr_app by lia. split; [by apply take_app_length|by apply rd_at]. }
  destruct Hq as [<-|[<-|[<-|[<-|[]]]]]; cbn [close_quote Z.eqb Pos.eqb orb] in *;
    destruct (dequote_loop _ _ _ _ _); exact Hrun.
Qed.

Lemma dequote_quote_witness :
  exists z', sqlite3Dequote (91 :: double_quotes 93 [97; 93; 98] ++ 93 :: [0]) = (3, z') /\ take 3 z' = [97; 93; 98].
Proof.
  destruct (dequote_quote 91 [97; 93; 98] [0] ltac:(cbn; tauto) ltac:(discriminate)) as (z' & E & T & _).
  exists z'. exact (conj E T).
Defined.

(** ** Hexadecimal *)

(** Both spellings of a hexadecimal digit. *)
Definition hex_upper (d : Z) : Z := if d <? 10 then 48 + d else 55 + d.
Definition hex_lower (d : Z) : Z := if d <? 10 then 48 + d else 87 + d.

Definition hex_digit (h d : Z) : Prop := 0 <= d < 16 /\ (h = hex_upper d \/ h = hex_lower d).

Lemma hexToInt_digit h d : hex_digit h d -> sqlite3HexToInt h = d.
Proof.
  intros [Hd Hh].
  assert (In d (seqZ 0 16)) as Hin by (apply list_elem_of_In, elem_of_seqZ; lia).
  revert d Hin Hd Hh. 
  assert (forall d, In d (seqZ 0 16) -> sqlite3HexToInt (hex_upper d) = d /\ sqlite3HexToInt (hex_lower d) = d) as H.
  { apply List.Forall_forall. repeat (apply Forall_cons_2; [by split|]). apply Forall_nil_2. }
  intros d Hin _ [->| ->]; by apply H.
Qed.

(** [zs] spells the bytes [b], two digits each. *)
Inductive hex_spelling : list Z -> list Z -> Prop :=
| hex_nil : hex_spelling [] []
| hex_cons h1 h2 d1 d2 zs b :
    hex_digit h1 d1 -> hex_digit h2 d2 -> hex_spelling zs b ->
    hex_spelling (h1 :: h2 :: zs) (16 * d1 + d2 :: b).

Lemma hexToBlob_loop_spec fuel zs b pre t :
  hex_spelling zs b -> (length b <= fuel)%nat ->
  hexToBlob_loop fuel (pre ++ zs ++ t) (Z.of_nat (length pre)) (Z.of_nat (length pre + length zs)) = b.
Proof.
  intros H. revert fuel pre. induction H as [|h1 h2 d1 d2 zs b H1 H2 H IH]; intros fuel pre Hf.
  - destruct fuel; [done|]. cbn [hexToBlob_loop]. by rewrite (proj2 (Z.ltb_ge _ _)) by (cbn; lia).
  - destruct fuel as [|fuel]; [cbn in Hf; lia|]. cbn [hexToBlob_loop app].
    rewrite (proj2 (Z.ltb_lt _ _)) by (cbn; lia). rewrite (rd_at pre) by done.
    replace (pre ++ h1 :: h2 :: zs ++ t) with ((pre ++ [h1]) ++ h2 :: zs ++ t) at 1 by by rewrite <- app_assoc.
    rewrite (rd_at (pre ++ [h1])) by (rewrite length_app; cbn; lia).
    rewrite (hexToInt_digit _ _ H1), (hexToInt_digit _ _ H2). destruct H1 as [Hd1 _], H2 as [Hd2 _].
    rewrite shl_lor by (lia || (unfold is_u; lia)). rewrite uwrap_small by (unfold is_u; lia).
    f_equal; [lia|].
    replace (pre ++ h1 :: h2 :: zs ++ t) with ((pre ++ [h1; h2]) ++ zs ++ t) by by rewrite <- app_assoc.
    replace (Z.of_nat (length pre) + 2) with (Z.of_nat (length (pre ++ [h1; h2])))
      by (rewrite length_app; cbn; lia).
    replace (length pre + length (h1 :: h2 :: zs))%nat with (length (pre ++ [h1; h2]) + length zs)%nat
      by (rewrite length_app; cbn; lia).
    apply IH. cbn in Hf. lia.
Qed.

Lemma hex_spelling_length zs b : hex_spelling zs b -> length zs = (2 * length b)%nat.
Proof. induction 1; cbn; lia. Qed.

(** [sqlite3HexToBlob] decodes every spelling of a blob in hexadecimal digits of either case to
    that blob, followed by the terminating zero. *)
Theorem hexToBlob_spelling zs b :
  hex_spelling zs b ->
  sqlite3HexToBlob true (zs ++ [39]) (Z.of_nat (length zs) + 1) = Some (b ++ [0]).
Proof.
  intros H. unfold sqlite3HexToBlob. do 2 f_equal. replace (_ + 1 - 1) with (Z.of_nat (length zs)) by lia.
  rewrite Nat2Z.id. apply (hexToBlob_loop_spec (length zs) zs b []); [done|].
  apply hex_spelling_length in H. lia.
Qed.

Lemma hexToBlob_spelling_witness : sqlite3HexToBlob true [97; 70; 39] 3 = Some [175; 0].
Proof.
  apply (hexToBlob_spelling [97; 70] [175]). apply (hex_cons 97 70 10 15 [] []); [|  |constructor].
  - split; [lia|right; reflexivity].
  - split; [lia|left; reflexivity].
Defined.

(** ** Decimal integers *)

Definition dval (acc : Z) (ds : list Z) : Z := fold_left (fun a d => a * 10 + (d - 48)) ds acc.
Definition digits (ds : list Z) : Prop := Forall (fun c => 48 <= c <= 57) ds.

Lemma dval_acc acc ds : dval acc ds = acc * 10 ^ Z.of_nat (length ds) + dval 0 ds.
Proof.
  revert acc. induction ds as [|d ds IH]; intros acc; [cbn; lia|].
  unfold dval in *. cbn [fold_left length]. rewrite IH, (IH (0 * 10 + _)).
  rewrite Nat2Z.inj_succ, Z.pow_succ_r by lia. lia.
Qed.

Lemma dval_bound ds : digits ds -> 0 <= dval 0 ds < 10 ^ Z.of_nat (length ds).
Proof.
  induction 1 as [|d ds Hd _ IH]; [done|]. unfold dval in *. cbn [fold_left length].
  pose proof (dval_acc (0 * 10 + (d - 48)) ds) as Ha. unfold dval in Ha. rewrite Ha.
  rewrite Nat2Z.inj_succ, Z.pow_succ_r by lia. nia.
Qed.

Lemma dval_cons d ds : dval 0 (d :: ds) = (d - 48) * 10 ^ Z.of_nat (length ds) + dval 0 ds.
Proof. unfold dval at 1. cbn [fold_left]. rewrite (dval_acc _ ds : fold_left _ ds _ = _). lia. Qed.

(** A digit string is some zeros and a string that does not start with zero. *)
Lemma digits_split ds :
  digits ds -> exists k nz, ds = replicate k 48 ++ nz /\ digits nz /\ hd0 nz <> 48 /\ dval 0 ds = dval 0 nz.
Proof.
  induction 1 as [|d ds Hd Hds IH].
  { exists 0%nat, []. split; [done|]. split; [apply Forall_nil_2|done]. }
  destruct IH as (k & nz & -> & Hnz & Hh & Hv). destruct (Z.eq_dec d 48) as [->|Hne].
  - exists (S k), nz. split; [done|]. split; [done|]. split; [done|]. by rewrite dval_cons, Hv.
  - exists 0%nat, (d :: replicate k 48 ++ nz). split; [done|]. split; [by apply Forall_cons_2|done].
Qed.

Lemma skip_while_spec f fuel pre l post zEnd :
  Forall (fun c => f c = true) l -> (length l < fuel)%nat ->
  zEnd = Z.of_nat (length pre + length l + length post) ->
  (post = [] \/ f (hd0 post) = false) ->
  skip_while f fuel (pre ++ l ++ post) (Z.of_nat (length pre)) zEnd 1 = Z.of_nat (length pre + length l).
Proof.
  intros Hl. revert fuel pre. induction Hl as [|c l Hc Hl IH]; intros fuel pre Hf He Hp;
    (destruct fuel as [|fuel]; [cbn in Hf; lia|]); cbn [skip_while app length].
  - destruct Hp as [->|Hp].
    + rewrite (proj2 (Z.ltb_ge _ _)) by (cbn in He; lia). cbn. lia.
    + destruct post as [|y post].
      * rewrite (proj2 (Z.ltb_ge _ _)) by (cbn in He; lia). cbn. lia.
      * rewrite rd_at by done. cbn in Hp. rewrite Hp, andb_false_r. lia.
  - rewrite rd_at, Hc by done. rewrite (proj2 (Z.ltb_lt _ _)) by (cbn in He; lia). cbn [andb].
    replace (pre ++ c :: l ++ post) with ((pre ++ [c]) ++ l ++ post) by by rewrite <- app_assoc.
    replace (Z.of_nat (length pre) + 1) with (Z.of_nat (length (pre ++ [c]))) by (rewrite length_app; cbn; lia).
    cbn in Hf. rewrite IH; [rewrite length_app; cbn; lia|lia|rewrite length_app; cbn in *; lia|done].
Qed.

Lemma u64_dval_step u d : u64 (u64 u * 10 + d - 48) = u64 (u * 10 + (d - 48)).
Proof.
  unfold uwrap. rewrite (Z.add_comm (u * 10)), <- Z.add_sub_assoc, (Z.add_comm _ (d - 48)).
  rewrite <- Z.add_mod_idemp_r, Z.mul_mod_idemp_l, Z.add_mod_idemp_r by lia. done.
Qed.

Lemma atoi64_digits_spec fuel pre done ds post zEnd u c :
  digits ds -> (length ds < fuel)%nat ->
  zEnd = Z.of_nat (length pre + length done + length ds + length post) ->
  (post = [] \/ ~ (48 <= hd0 post <= 57)) ->
  exists c', atoi64_digits fuel (pre ++ done ++ ds ++ post) (Z.of_nat (length pre)) zEnd 1
      (Z.of_nat (length done)) (u64 u) c =
    (Z.of_nat (length done + length ds), u64 (dval u ds), c') /\
    (post <> [] -> c' = hd0 post).
Proof.
  intros Hd. revert fuel done u c. induction Hd as [|d ds Hd Hds IH]; intros fuel done u c Hf He Hp;
    (destruct fuel as [|fuel]; [cbn in Hf; lia|]); cbn [atoi64_digits app length].
  - destruct post as [|y post].
    + rewrite (proj2 (Z.ltb_ge _ _)) by (cbn in He; lia). exists c. split; [f_equal; f_equal; lia|done].
    + rewrite (proj2 (Z.ltb_lt _ _)) by (cbn in He; lia). rewrite app_assoc, rd_at by (rewrite length_app; lia).
      destruct Hp as [?|Hp]; [done|]. cbn [hd] in Hp. exists y. split; [|done].
      destruct (Z.leb_spec 48 y), (Z.leb_spec y 57); cbn [andb]; try lia; f_equal; f_equal; lia.
  - rewrite (proj2 (Z.ltb_lt _ _)) by (cbn in He; lia).
    rewrite app_assoc, rd_at by (rewrite length_app; lia).
    rewrite (proj2 (Z.leb_le 48 d)), (proj2 (Z.leb_le d 57)) by lia. cbn [andb].
    rewrite u64_dval_step. cbn in Hf.
    destruct (IH fuel (done ++ [d]) (u * 10 + (d - 48)) d) as (c' & E & Hc');
      [lia|rewrite length_app; cbn in *; lia|done|].
    exists c'. split; [|done]. rewrite <- !app_assoc in E. cbn [app] in E.
    replace (Z.of_nat (length done) + 1) with (Z.of_nat (length (done ++ [d])))
      by (rewrite length_app; cbn; lia).
    rewrite <- app_assoc. rewrite E. f_equal. f_equal. rewrite length_app. cbn. lia.
Qed.

(** *** The comparison with 2^63 *)

Fixpoint lexcmp (xs ys : list Z) : Z :=
  match xs, ys with
  | x :: xs, y :: ys => let c := (x - y) * 10 in if c =? 0 then lexcmp xs ys else c
  | _, _ => 0
  end.

Lemma lexcmp_sgn xs ys :
  digits xs -> digits ys -> length xs = length ys ->
  Z.sgn (lexcmp xs ys) = Z.sgn (dval 0 xs - dval 0 ys).
Proof.
  intros Hx. revert ys. induction Hx as [|x xs Hx Hxs IH]; intros [|y ys] Hy Hl; try done.
  apply Forall_cons in Hy as [Hy Hys]. cbn [lexcmp]. injection Hl as Hl.
  rewrite !dval_cons, Hl. pose proof (dval_bound xs Hxs) as Hbx. pose proof (dval_bound ys Hys) as Hby.
  rewrite Hl in Hbx. destruct (Z.eqb_spec ((x - y) * 10) 0) as [E|E].
  - assert (x = y) as -> by lia. rewrite IH by done. f_equal. lia.
  - destruct (Z.lt_trichotomy x y) as [Hlt|[?|Hgt]]; [|lia|].
    + rewrite !Z.sgn_neg; [done|nia|lia].
    + rewrite !Z.sgn_pos; [done|nia|lia].
Qed.

Lemma compare2pow63_loop_spec fuel pre done xs post ys i :
  length ys = fuel -> length xs = fuel -> i = Z.of_nat (length done) ->
  (forall k, (k < fuel)%nat -> rd pow63 (i + Z.of_nat k) = nth k ys 0) ->
  compare2pow63_loop fuel (pre ++ done ++ xs ++ post) (Z.of_nat (length pre)) 1 i = lexcmp xs ys.
Proof.
  revert done xs ys i. induction fuel as [|fuel IH]; intros done xs ys i Hys Hxs Hi Hr.
  { by destruct xs, ys. }
  destruct xs as [|x xs]; [done|]. destruct ys as [|y ys]; [done|].
  cbn [compare2pow63_loop lexcmp app]. rewrite app_assoc, rd_at by (rewrite length_app; lia).
  pose proof (Hr 0%nat ltac:(lia)) as H0. rewrite Z.add_0_r in H0. rewrite H0. cbn [nth].
  destruct (_ =? 0); [|done]. rewrite <- app_assoc.
  replace (done ++ x :: xs ++ post) with ((done ++ [x]) ++ xs ++ post) by by rewrite <- app_assoc.
  cbn in Hys, Hxs. apply IH; [lia|lia|rewrite length_app; cbn; lia|].
  intros k Hk. pose proof (Hr (S k) ltac:(lia)) as H1. cbn [nth] in H1. rewrite <- H1. f_equal. lia.
Qed.

Lemma compare2pow63_spec pre ds post :
  digits ds -> length ds = 19%nat ->
  Z.sgn (compare2pow63 (pre ++ ds ++ post) (Z.of_nat (length pre)) 1) = Z.sgn (dval 0 ds - 2 ^ 63).
Proof.
  intros Hd Hl. destruct ds as [|d xs _] using rev_ind; [done|].
  rewrite length_app in Hl. cbn in Hl. apply Forall_app in Hd as [Hxs Hd].
  apply Forall_cons in Hd as [Hd _]. unfold compare2pow63.
  assert (compare2pow63_loop 18 (pre ++ (xs ++ [d]) ++ post) (Z.of_nat (length pre)) 1 0 = lexcmp xs pow63) as ->.
  { rewrite <- (app_assoc xs). apply (compare2pow63_loop_spec 18 pre [] xs); [done|lia|done|].
    intros k _. unfold rd. f_equal. lia. }
  assert (digits pow63) as Hp by (repeat (apply Forall_cons_2; [lia|]); apply Forall_nil_2).
  pose proof (lexcmp_sgn xs pow63 Hxs Hp ltac:(cbn; lia)) as Hs.
  assert (dval 0 (xs ++ [d]) = dval 0 xs * 10 + (d - 48)) as ->
    by (unfold dval; by rewrite fold_left_app).
  change (dval 0 pow63) with 922337203685477580 in Hs.
  destruct (Z.eqb_spec (lexcmp xs pow63) 0) as [E|E].
  - rewrite E in Hs. change (Z.sgn 0) with 0 in Hs. symmetry in Hs. apply Z.sgn_null_iff in Hs.
    rewrite <- app_assoc, app_assoc. change ([d] ++ post) with (d :: post).
    rewrite rd_at by (rewrite length_app; lia). f_equal. lia.
  - rewrite Hs. destruct (Z.lt_trichotomy (dval 0 xs) 922337203685477580) as [?|[H0|?]].
    + rewrite !Z.sgn_neg; [done|lia|lia].
    + rewrite H0, Z.sub_diag in Hs. change (Z.sgn 0) with 0 in Hs. destruct E. by apply Z.sgn_null_iff.
    + rewrite !Z.sgn_pos; [done|lia|lia].
Qed.

(** The sign prefix of a decimal literal. *)
Inductive sign_prefix : list Z -> bool -> Prop :=
| sign_none : sign_prefix [] false
| sign_plus : sign_prefix [43] false
| sign_minus : sign_prefix [45] true.

Lemma space_not_digit c : is_u 8 c -> sqlite3Isspace c = true -> ~ (48 <= c <= 57) /\ c <> 43 /\ c <> 45.
Proof.
  intros Hc Hs.
  pose proof (byte_forall (fun c => implb (sqlite3Isspace c)
    (negb ((48 <=? c) && (c <=? 57)) && negb (c =? 43) && negb (c =? 45))) eq_refl c Hc) as H.
  cbv beta in H. rewrite Hs in H. cbn [implb] in H. lia.
Qed.

Lemma not_space c : 48 <= c <= 57 \/ c = 43 \/ c = 45 -> sqlite3Isspace c = false.
Proof.
  intros Hc. destruct (sqlite3Isspace c) eqn:E; [|done].
  apply space_not_digit in E; [lia|unfold is_u; lia].
Qed.

(** The final part of [sqlite3Atoi64] once the digits [nz] after the leading zeros
    are known. *)
Lemma atoi64_rc v ndig (neg : bool) cmp :
  0 <= v -> (ndig <= 18 -> v < 10 ^ 18) -> (20 <= ndig -> 10 ^ 19 <= v) ->
  (ndig = 19 -> v < 10 ^ 19 /\ Z.sgn cmp = Z.sgn (v - 2 ^ 63)) ->
  let pNum := if Int64.LARGEST_INT64 <? u64 v
              then if neg then Int64.SMALLEST_INT64 else Int64.LARGEST_INT64
              else if neg then - u64 v else u64 v in
  let w := if neg then - v else v in
  let r := if 19 <? ndig then (1, pNum) else if ndig <? 19 then (0, pNum)
           else if cmp <? 0 then (0, pNum) else if 0 <? cmp then (1, pNum)
           else (if neg then 0 else 2, pNum) in
  r.1 = (if in_i 64 w then 0 else if w =? 2 ^ 63 then 2 else 1) /\ (r.1 <> 1 -> r.2 = Z.min w (2 ^ 63 - 1)).
Proof.
  intros Hv H18 H20 H19. cbv zeta. change Int64.LARGEST_INT64 with (2 ^ 63 - 1).
  change Int64.SMALLEST_INT64 with (- 2 ^ 63).
  destruct (Z.ltb_spec 19 ndig) as [Hd|Hd].
  - specialize (H20 ltac:(lia)). cbn [fst snd]. split; [|done].
    destruct (in_i_spec 64 (if neg then - v else v)) as [Hi|Hi].
    + unfold is_i in Hi. destruct neg; lia.
    + by rewrite (proj2 (Z.eqb_neq _ _)) by (destruct neg; lia).
  - assert (u64 v = v) as ->.
    { apply uwrap_small. split; [lia|]. destruct (Z.eq_dec ndig 19); [destruct H19; lia|]. lia. }
    destruct (Z.ltb_spec ndig 19) as [Hs|Hs].
    + specialize (H18 ltac:(lia)). cbn [fst snd].
      destruct (in_i_spec 64 (if neg then - v else v)) as [Hi|Hi];
        [|exfalso; apply Hi; unfold is_i; destruct neg; lia].
      rewrite (proj2 (Z.ltb_ge _ _)) by lia. split; [done|]. intros _. destruct neg; lia.
    + destruct H19 as [Hlt Hsgn]; [lia|].
      destruct (Z.ltb_spec cmp 0) as [Hc|Hc].
      { rewrite (Z.sgn_neg cmp Hc) in Hsgn. symmetry in Hsgn. apply Z.sgn_neg_iff in Hsgn. cbn [fst snd].
        destruct (in_i_spec 64 (if neg then - v else v)) as [Hi|Hi];
          [|exfalso; apply Hi; unfold is_i; destruct neg; lia].
        rewrite (proj2 (Z.ltb_ge _ _)) by lia. split; [done|]. intros _. destruct neg; lia. }
      destruct (Z.ltb_spec 0 cmp) as [Hc'|Hc'].
      { rewrite (Z.sgn_pos cmp Hc') in Hsgn. symmetry in Hsgn. apply Z.sgn_pos_iff in Hsgn. cbn [fst snd].
        split; [|done]. destruct (in_i_spec 64 (if neg then - v else v)) as [Hi|Hi].
        - unfold is_i in Hi. destruct neg; lia.
        - by rewrite (proj2 (Z.eqb_neq _ _)) by (destruct neg; lia). }
      assert (cmp = 0) as -> by lia. change (Z.sgn 0) with 0 in Hsgn. symmetry in Hsgn.
      apply Z.sgn_null_iff in Hsgn. assert (v = 2 ^ 63) as -> by lia.
      destruct neg; vm_compute; split; done.
Qed.

(** [sqlite3Atoi64] on any amount of white space, an optional sign and decimal digits (UTF-8):
    it returns 0 exactly when the value fits in 64 bits, 2 exactly for 2^63, and 1 for the other values;
    and unless it returns 1 it stores the value (2^63 clipped to the largest integer). *)
Theorem atoi64_correct sp sgn neg ds :
  bytes sp -> Forall (fun c => sqlite3Isspace c = true) sp -> sign_prefix sgn neg ->
  digits ds -> ds <> [] ->
  let z := sp ++ sgn ++ ds in
  let v := if neg : bool then - dval 0 ds else dval 0 ds in
  let '(rc, pNum) := sqlite3Atoi64 z (Z.of_nat (length z)) SQLITE_UTF8 in
  rc = (if in_i 64 v then 0 else if v =? 2 ^ 63 then 2 else 1) /\
  (rc <> 1 -> pNum = Z.min v (2 ^ 63 - 1)).
Proof.
  intros Hb Hsp Hsgn Hds Hne z v. unfold sqlite3Atoi64.
  set (fuel := S (Z.to_nat (Z.of_nat (length z)))).
  assert (fuel = S (length z)) as Hfuel by (unfold fuel; lia).
  change (SQLITE_UTF8 =? SQLITE_UTF8) with true. cbv iota zeta.
  destruct (digits_split ds Hds) as (k & nz & Eds & Hnz & Hh & Hv).
  assert (length z = length sp + length sgn + k + length nz)%nat as Hlz.
  { unfold z. rewrite Eds, !length_app, length_replicate. lia. }
  assert (hd0 ds <> 43 /\ hd0 ds <> 45 /\ 48 <= hd0 ds <= 57) as Hhd.
  { destruct Hds; [done|]. cbn. lia. }
  assert (skip_while sqlite3Isspace fuel z 0 (Z.of_nat (length z)) 1 = Z.of_nat (length sp)) as ->.
  { unfold z. apply (skip_while_spec _ fuel [] sp (sgn ++ ds)); [done|lia|rewrite length_app; cbn; lia|].
    right. destruct Hsgn; cbn [app hd]; apply not_space; tauto. }
  match goal with |- context [if (_ <? _) then ?a else _] =>
    assert ((if Z.of_nat (length sp) <? Z.of_nat (length z) then a else (false, Z.of_nat (length sp))) =
            (neg, Z.of_nat (length (sp ++ sgn)))) as -> end.
  { rewrite (proj2 (Z.ltb_lt _ _)) by (destruct ds; [done|]; unfold z; rewrite !length_app; cbn; lia).
    unfold z. destruct Hsgn; rewrite length_app.
    - destruct ds as [|d ds']; [done|]. cbn [app]. rewrite rd_at by done. cbn in Hhd.
      rewrite (proj2 (Z.eqb_neq d 45)), (proj2 (Z.eqb_neq d 43)) by lia. f_equal. cbn; lia.
    - cbn [app]. rewrite rd_at by done. cbn. f_equal. lia.
    - cbn [app]. rewrite rd_at by done. cbn. f_equal. lia. }
  assert (z = (sp ++ sgn) ++ replicate k 48 ++ nz) as Ez by (unfold z; by rewrite Eds, <- app_assoc).
  assert (skip_while (fun c => c =? 48) fuel z (Z.of_nat (length (sp ++ sgn))) (Z.of_nat (length z)) 1 =
          Z.of_nat (length (sp ++ sgn) + k)) as ->.
  { rewrite Ez at 1. rewrite (skip_while_spec _ fuel (sp ++ sgn) (replicate k 48) nz).
    - by rewrite length_replicate.
    - by apply Forall_replicate.
    - rewrite length_replicate. lia.
    - rewrite Ez, !length_app. lia.
    - right. by apply Z.eqb_neq. }
  destruct (atoi64_digits_spec fuel ((sp ++ sgn) ++ replicate k 48) [] nz [] (Z.of_nat (length z)) 0 0)
    as (c' & Hdig & _); [done|lia|rewrite Ez, !length_app; cbn; lia|by left|].
  rewrite app_nil_r in Hdig. cbn [app length] in Hdig. rewrite <- app_assoc, <- Ez in Hdig.
  rewrite length_app, length_replicate in Hdig. change (u64 0) with 0 in Hdig.
  change (Z.of_nat 0) with 0 in Hdig. rewrite Hdig. cbv iota.
  rewrite (proj2 (Z.ltb_ge (Z.of_nat _ + _) _)) by (rewrite Ez, !length_app, length_replicate; lia).
  rewrite andb_false_r, orb_false_r. cbn [orb].
  assert ((Z.of_nat (0 + length nz) =? 0) && (Z.of_nat (length (sp ++ sgn)) =? Z.of_nat (length (sp ++ sgn) + k)) = false) as ->.
  { destruct nz; cbn [length]; [|done]. destruct k; [by destruct Hne|].
    rewrite andb_true_l. apply Z.eqb_neq. lia. }
  cbn [orb]. rewrite Z.mul_1_r, <- Hv.
  pose proof (atoi64_rc (dval 0 ds) (Z.of_nat (0 + length nz)) neg
    (compare2pow63 z (Z.of_nat (length (sp ++ sgn) + k)) 1)) as Hrc.
  pose proof (dval_bound nz Hnz) as Hbnd. rewrite <- Hv in Hbnd.
  cbv zeta in Hrc. cbv zeta.
  destruct Hrc as [Hr1 Hr2]; [lia| | | |].
  - intros H18. eapply Z.lt_le_trans; [apply Hbnd|]. apply Z.pow_le_mono_r; lia.
  - intros H20. rewrite Hv. destruct nz as [|d nz]; [cbn in H20; lia|]. rewrite dval_cons.
    apply Forall_cons in Hnz as [Hd Hnz]. cbn in Hh, H20. pose proof (dval_bound nz Hnz).
    assert (10 ^ 19 <= 10 ^ Z.of_nat (length nz)) by (apply Z.pow_le_mono_r; lia). nia.
  - intros H19. split; [rewrite <- H19; cbn [Nat.add]; lia|]. rewrite Hv, Ez.
    replace (length (sp ++ sgn) + k)%nat with (length ((sp ++ sgn) ++ replicate k 48))
      by (rewrite length_app, length_replicate; lia).
    rewrite app_assoc, <- (app_nil_r nz) at 1. apply compare2pow63_spec; [done|lia].
  - repeat lazymatch goal with
    | |- context [let '(_, _) := if ?b then _ else _ in _] => destruct b
    end; by split.
Qed.

Lemma atoi64_correct_witness :
  let '(rc, v) := sqlite3Atoi64 [32; 45; 52; 50] 4 SQLITE_UTF8 in rc = 0 /\ v = -42.
Proof.
  pose proof (atoi64_correct [32] [45] true [52; 50] ltac:(repeat constructor; discriminate)
    ltac:(repeat constructor) sign_minus ltac:(repeat constructor; discriminate) ltac:(discriminate)) as H.
  cbn [app length Z.of_nat Pos.of_succ_nat Pos.succ] in H. cbv zeta in H.
  destruct (sqlite3Atoi64 _ _ _) as [rc v]. destruct H as [H1 H2].
  assert (rc = 0) as H0 by exact H1. split; [exact H0|]. apply H2. rewrite H0. discriminate.
Defined.

(** Text after a zero byte is not looked at. *)
Lemma atoi64_embedded_nul :
  sqlite3Atoi64 [49; 0; 120] 3 SQLITE_UTF8 = (0, 1).
Proof. reflexivity. Qed.

Lemma getInt32_digits_spec fuel ds t i v :
  digits ds -> ~ (48 <= hd0 t <= 57) ->
  getInt32_digits fuel (ds ++ t) i v =
    (i + Z.of_nat (Nat.min fuel (length ds)), dval v (take fuel ds)).
Proof.
  intros Hd. revert fuel i v. induction Hd as [|d ds Hd Hds IH]; intros [|fuel] i v Ht;
    cbn [getInt32_digits app hd tl length Nat.min take].
  - f_equal. lia.
  - destruct (Z.leb_spec 0 (hd0 t - 48)), (Z.leb_spec (hd0 t - 48) 9); cbn [andb]; try lia; f_equal; lia.
  - f_equal. lia.
  - rewrite (proj2 (Z.leb_le 0 _)), (proj2 (Z.leb_le _ 9)) by lia. cbn [andb].
    rewrite IH by done. f_equal. lia.
Qed.

Lemma skip_zeros_spec k nz : hd0 nz <> 48 -> skip_zeros (replicate k 48 ++ nz) = nz.
Proof.
  intros Hh. induction k as [|k IH]; [|done]. cbn [replicate app]. destruct nz as [|c nz]; [done|].
  cbn in *. by rewrite (proj2 (Z.eqb_neq _ _)).
Qed.

(** [sqlite3GetInt32] on an optional sign and digits: it returns the value exactly when it fits in
    32 bits, and otherwise reports failure. *)
Theorem getInt32_correct sgn neg ds t :
  sign_prefix sgn neg -> digits ds -> ds <> [] -> ~ (48 <= hd0 t <= 57) ->
  let v := if neg : bool then - dval 0 ds else dval 0 ds in
  sqlite3GetInt32 (sgn ++ ds ++ t) = if in_i 32 v then Some v else None.
Proof.
  intros Hs Hd Hne Ht v. unfold sqlite3GetInt32.
  assert (v = if neg then - dval 0 ds else dval 0 ds) as Ev by done. clearbody v.
  destruct (digits_split ds Hd) as (k & nz & Eds & Hnz & Hh & Hv).
  assert (hd0 (nz ++ t) <> 48) as Hh' by (destruct nz; cbn in *; [lia|done]).
  match goal with |- (let '(_, _) := ?e in _) = _ =>
    assert (e = (if neg then 1 else 0, ds ++ t)) as -> end.
  { destruct Hs; cbn [app hd tl]; [|done|done]. destruct ds as [|d ds]; [done|]. cbn.
    apply Forall_cons in Hd as [Hd _].
    by rewrite (proj2 (Z.eqb_neq d 45)), (proj2 (Z.eqb_neq d 43)) by lia. }
  rewrite Eds, <- app_assoc, skip_zeros_spec by done.
  rewrite getInt32_digits_spec by done. rewrite Z.add_0_l. cbv iota beta. pose proof (dval_bound nz Hnz) as Hbnd.
  destruct (Z.ltb_spec 10 (Z.of_nat (Nat.min 11 (length nz)))) as [H11|H10].
  - assert (10 ^ 10 <= dval 0 nz).
    { destruct nz as [|d nz]; [cbn in H11; lia|]. rewrite dval_cons. cbn in Hh. cbn [length] in H11.
      apply Forall_cons in Hnz as [Hdd Hnz]. pose proof (dval_bound nz Hnz).
      assert (10 ^ 10 <= 10 ^ Z.of_nat (length nz)) by (apply Z.pow_le_mono_r; lia). nia. }
    destruct (in_i_spec 32 v) as [Hi|]; [|done]. unfold is_i in Hi. rewrite Ev, Hv in Hi.
    destruct neg; lia.
  - rewrite take_ge by lia. rewrite <- Hv. rewrite <- Hv in Hbnd.
    destruct (in_i_spec 32 v) as [Hi|Hi]; unfold is_i in Hi; rewrite Ev in Hi.
    + rewrite (proj2 (Z.ltb_ge _ _)) by (destruct neg; lia). f_equal. rewrite Ev.
      destruct neg; cbn [Z.eqb]; apply swrap_small; unfold is_i; lia.
    + rewrite (proj2 (Z.ltb_lt _ _)) by (destruct neg; lia). done.
Qed.

Lemma getInt32_correct_witness : sqlite3GetInt32 [45; 48; 55; 59] = Some (-7).
Proof.
  apply (getInt32_correct [45] true [48; 55] [59] sign_minus); [repeat constructor; discriminate|discriminate|cbn; lia].
Defined.
