(* ===== verification/Bitvec.v ===== *)
(** The page bitmap of bitvec.c.

    A [Bitvec] is one of three layouts of the same union: a flat bitmap when
    [iSize <= BITVEC_NBIT], an open-addressing hash table while [iDivisor = 0],
    and an array of sub-bitmaps once [iDivisor <> 0]. The union is the inductive
    [bv_u], whose constructor is the member the code reads. Sizes are those of a
    64-bit build (8-byte pointers). *)
From S2P Require Import Prelude Bits.
Local Open Scope Z_scope.
Local Open Scope c_scope.

Definition BITVEC_SZ : Z := 512.
Definition BITVEC_USIZE : Z := ((BITVEC_SZ - 3 * 4) / 8) * 8.
Definition BITVEC_SZELEM : Z := 8.
Definition BITVEC_NELEM : Z := BITVEC_USIZE / 1.
Definition BITVEC_NBIT : Z := BITVEC_NELEM * BITVEC_SZELEM.
Definition BITVEC_NINT : Z := BITVEC_USIZE / 4.
Definition BITVEC_MXHASH : Z := BITVEC_NINT / 2.
Definition BITVEC_HASH (x : Z) : Z := (x * 1) mod BITVEC_NINT.
Definition BITVEC_NPTR : Z := BITVEC_USIZE / 8.

Inductive Bitvec :=
| BV (iSize nSet iDivisor : Z) (u : bv_u)
with bv_u :=
| aBitmap (l : list Z)
| aHash (l : list Z)
| apSub (l : list (option Bitvec)).

Definition iSize (p : Bitvec) : Z := let 'BV s _ _ _ := p in s.
Definition nSet (p : Bitvec) : Z := let 'BV _ n _ _ := p in n.
Definition iDivisor (p : Bitvec) : Z := let 'BV _ _ d _ := p in d.
Definition bvu (p : Bitvec) : bv_u := let 'BV _ _ _ u := p in u.

Definition get_bitmap (u : bv_u) : list Z := match u with aBitmap l => l | _ => [] end.
Definition get_hash (u : bv_u) : list Z := match u with aHash l => l | _ => [] end.
Definition get_sub (u : bv_u) : list (option Bitvec) := match u with apSub l => l | _ => [] end.
Definition sub_at (u : bv_u) (bin : Z) : option Bitvec := nth (Z.to_nat bin) (get_sub u) None.

Section Ops.

(** The outcome of the [n]-th memory allocation; the state threaded through the
    operations is the number of allocations made so far. *)
Variable alloc : nat -> bool.

(** The fresh object: [sqlite3MallocZero] clears the union, whatever its layout. *)
Definition bitvec_new (sz : Z) : Bitvec :=
  BV sz 0 0 (if sz <=? BITVEC_NBIT then aBitmap (replicate (Z.to_nat BITVEC_NELEM) 0)
             else aHash (replicate (Z.to_nat BITVEC_NINT) 0)).

Definition sqlite3BitvecCreate (sz : Z) (n : nat) : option Bitvec * nat :=
  (if alloc n then Some (bitvec_new sz) else None, S n).

(** [while( p->u.aHash[h] ){ if( p->u.aHash[h]==i ) return 1; h = (h+1) % BITVEC_NINT; }] *)
Fixpoint test_probe (fuel : nat) (l : list Z) (h i : Z) : Z :=
  match fuel with
  | O => 0
  | S fuel =>
      if rd l h =? 0 then 0
      else if rd l h =? i then 1
      else test_probe fuel l ((h + 1) mod BITVEC_NINT) i
  end.

(** [i] is zero-based here, after the [i--]. *)
Fixpoint bitvecTest_loop (fuel : nat) (p : Bitvec) (i : Z) : Z :=
  match fuel with
  | O => 0
  | S fuel =>
      if negb (iDivisor p =? 0) then
        let bin := i / iDivisor p in
        let i := i mod iDivisor p in
        match sub_at (bvu p) bin with
        | None => 0
        | Some q => bitvecTest_loop fuel q i
        end
      else if iSize p <=? BITVEC_NBIT then
        Z.b2z (negb (rd (get_bitmap (bvu p)) (i / BITVEC_SZELEM)
                     .& (1 << (i .& (BITVEC_SZELEM - 1))) =? 0))
      else
        let h := BITVEC_HASH i in
        let i := i + 1 in
        test_probe (Z.to_nat BITVEC_NINT) (get_hash (bvu p)) h i
  end.

(** Levels of sub-bitmaps: 3968 * 62^4 exceeds the largest 32-bit size. *)
Definition bv_fuel : nat := 6.

Definition sqlite3BitvecTest (p : option Bitvec) (i : Z) : Z :=
  match p with
  | None => 0
  | Some p =>
      if (iSize p <? i) || (i =? 0) then 0
      else bitvecTest_loop bv_fuel p (i - 1)
  end.

(** The do-while search of [sqlite3BitvecSet]: [None] when [i] is already present,
    otherwise the first free slot. *)
Fixpoint set_probe (fuel : nat) (l : list Z) (h i : Z) : option Z :=
  match fuel with
  | O => Some h
  | S fuel =>
      if rd l h =? i then None
      else
        let h := h + 1 in
        let h := if BITVEC_NINT <=? h then 0 else h in
        if rd l h =? 0 then Some h else set_probe fuel l h i
  end.

(** [p->u.apSub[bin] = q] *)
Definition set_sub (p : Bitvec) (bin : Z) (q : option Bitvec) : Bitvec :=
  BV (iSize p) (nSet p) (iDivisor p) (apSub (<[Z.to_nat bin := q]> (get_sub (bvu p)))).

(** [sqlite3BitvecSet] on a non-NULL object; [i] is one-based. The recursion is
    the descent into sub-bitmaps and the re-insertion after a split. *)
Fixpoint bitvecSet (fuel : nat) (p : Bitvec) (i : Z) (n : nat) : Z * Bitvec * nat :=
  match fuel with
  | O => (SQLITE_NOMEM, p, n)
  | S fuel =>
      let i := i - 1 in
      if (BITVEC_NBIT <? iSize p) && negb (iDivisor p =? 0) then
        let bin := i / iDivisor p in
        let i := i mod iDivisor p in
        let '(q, n) :=
          match sub_at (bvu p) bin with
          | Some q => (Some q, n)
          | None => sqlite3BitvecCreate (iDivisor p) n
          end in
        match q with
        | None => (SQLITE_NOMEM, set_sub p bin None, n)
        | Some q =>
            let '(rc, q, n) := bitvecSet fuel q (i + 1) n in
            (rc, set_sub p bin (Some q), n)
        end
      else if iSize p <=? BITVEC_NBIT then
        let l := get_bitmap (bvu p) in
        let k := i / BITVEC_SZELEM in
        let l := wr l k (rd l k .| (1 << (i .& (BITVEC_SZELEM - 1)))) in
        (SQLITE_OK, BV (iSize p) (nSet p) (iDivisor p) (aBitmap l), n)
      else
        let h := BITVEC_HASH i in
        let i := i + 1 in
        let l := get_hash (bvu p) in
        let set_end (h : Z) :=
          (SQLITE_OK, BV (iSize p) (u32 (nSet p + 1)) (iDivisor p) (aHash (wr l h i)), n) in
        let set_rehash (h : Z) :=
          if BITVEC_MXHASH <=? nSet p then
            if alloc n then
              let n := S n in
              let aiValues := l in
              let p := BV (iSize p) (nSet p)
                         (u32 ((iSize p + BITVEC_NPTR - 1) / BITVEC_NPTR))
                         (apSub (replicate (Z.to_nat BITVEC_NPTR) None)) in
              let '(rc, p, n) := bitvecSet fuel p i n in
              fold_left (fun '(rc, p, n) v =>
                           if negb (v =? 0) then
                             let '(rc', p, n) := bitvecSet fuel p v n in
                             (rc .| rc', p, n)
                           else (rc, p, n))
                aiValues (rc, p, n)
            else (SQLITE_NOMEM, p, S n)
          else set_end h in
        if rd l h =? 0 then
          if nSet p <? BITVEC_NINT - 1 then set_end h else set_rehash h
        else
          match set_probe (Z.to_nat BITVEC_NINT) l h i with
          | None => (SQLITE_OK, p, n)
          | Some h => set_rehash h
          end
  end.

(** Two steps per level: the split and the descent. *)
Definition bv_set_fuel : nat := 12.

Definition sqlite3BitvecSet (p : option Bitvec) (i : Z) (n : nat) : Z * option Bitvec * nat :=
  match p with
  | None => (SQLITE_OK, None, n)
  | Some p => let '(rc, p, n) := bitvecSet bv_set_fuel p i n in (rc, Some p, n)
  end.

(** [while( p->u.aHash[h] ){ h++; if( h>=BITVEC_NINT ) h = 0; }] *)
Fixpoint clear_probe (fuel : nat) (l : list Z) (h : Z) : Z :=
  match fuel with
  | O => h
  | S fuel =>
      if rd l h =? 0 then h
      else
        let h := h + 1 in
        clear_probe fuel l (if BITVEC_NINT <=? h then 0 else h)
  end.

(** One iteration of the rebuild loop over [aiValues]; [i1] is [i+1]. *)
Definition clear_step (i1 : Z) (st : Z * list Z) (v : Z) : Z * list Z :=
  let '(ns, l) := st in
  if negb (v =? 0) && negb (v =? i1) then
    let h := BITVEC_HASH (v - 1) in
    let ns := u32 (ns + 1) in
    let h := clear_probe (Z.to_nat BITVEC_NINT) l h in
    (ns, wr l h v)
  else (ns, l).

Fixpoint bitvecClear_loop (fuel : nat) (p : Bitvec) (i : Z) : Bitvec :=
  match fuel with
  | O => p
  | S fuel =>
      if negb (iDivisor p =? 0) then
        let bin := i / iDivisor p in
        let i := i mod iDivisor p in
        match sub_at (bvu p) bin with
        | None => p
        | Some q => set_sub p bin (Some (bitvecClear_loop fuel q i))
        end
      else if iSize p <=? BITVEC_NBIT then
        let l := get_bitmap (bvu p) in
        let k := i / BITVEC_SZELEM in
        let l := wr l k (rd l k .& Z.lnot (1 << (i .& (BITVEC_SZELEM - 1)))) in
        BV (iSize p) (nSet p) (iDivisor p) (aBitmap l)
      else
        let aiValues := get_hash (bvu p) in
        let '(ns, l) := fold_left (clear_step (i + 1)) aiValues
                          (0, replicate (Z.to_nat BITVEC_NINT) 0) in
        BV (iSize p) ns (iDivisor p) (aHash l)
  end.

Definition sqlite3BitvecClear (p : option Bitvec) (i : Z) : option Bitvec :=
  match p with
  | None => None
  | Some p => Some (bitvecClear_loop bv_fuel p (i - 1))
  end.

Definition sqlite3BitvecSize (p : Bitvec) : Z := iSize p.

End Ops.

(** * Open addressing *)

Lemma bv_consts :
  BITVEC_NBIT = 3968 /\ BITVEC_NINT = 124 /\ BITVEC_NELEM = 496 /\ BITVEC_NPTR = 62 /\ BITVEC_MXHASH = 62.
Proof. done. Qed.

(** The [k]-th slot probed from [h]. *)
Definition cyc (h k : Z) : Z := (h + k) mod 124.

Lemma cyc_range h k : 0 <= cyc h k < 124.
Proof. apply Z.mod_pos_bound. lia. Qed.
Lemma cyc_0 h : 0 <= h < 124 -> cyc h 0 = h.
Proof. intros. unfold cyc. rewrite Z.add_0_r. by apply Z.mod_small. Qed.
Lemma cyc_succ h k : cyc ((h + 1) mod 124) k = cyc h (k + 1).
Proof. unfold cyc. rewrite Z.add_mod_idemp_l by lia. f_equal. lia. Qed.
Lemma cyc_dist h s : 0 <= s < 124 -> cyc h ((s - h) mod 124) = s.
Proof.
  intros. unfold cyc. rewrite Z.add_mod_idemp_r by lia.
  replace (h + (s - h)) with s by lia. by apply Z.mod_small.
Qed.
Lemma wrap_step h : 0 <= h < 124 -> (if 124 <=? h + 1 then 0 else h + 1) = (h + 1) mod 124.
Proof.
  intros. destruct (Z.leb_spec 124 (h + 1)).
  - replace (h + 1) with 124 by lia. done.
  - rewrite Z.mod_small; lia.
Qed.

(** [k] is the first probe from [h] whose slot satisfies [P]. *)
Definition first_stop (P : Z -> Prop) (h k : Z) : Prop :=
  0 <= k < 124 /\ P (cyc h k) /\ forall j, 0 <= j < k -> ~ P (cyc h j).

Lemma first_stop_exists (P : Z -> Prop) (dec : forall s, Decision (P s)) h s :
  0 <= s < 124 -> P s -> exists k, first_stop P h k.
Proof.
  intros Hs HP. set (d := (s - h) mod 124).
  assert (0 <= d < 124) as Hd by (apply Z.mod_pos_bound; lia).
  assert (P (cyc h d)) as HPd by (unfold d; by rewrite cyc_dist).
  clearbody d. revert Hd HPd. 
  assert (forall m : nat, forall d, Z.of_nat m = d -> d < 124 -> P (cyc h d) -> exists k, first_stop P h k) as H.
  { induction m as [m IH] using lt_wf_ind. intros d' Em Hd HPd.
    destruct (decide (Exists (fun j => P (cyc h j)) (seqZ 0 d'))) as [He|Hno].
    - apply Exists_exists in He as (j & Hj & HPj). apply elem_of_seqZ in Hj. apply (IH (Z.to_nat j)) with (d := j); [lia|lia|lia|done].
    - exists d'. split; [lia|]. split; [done|]. intros j Hj HPj. apply Hno, Exists_exists. exists j.
      split; [apply elem_of_seqZ; lia|done]. }
  intros Hd HPd. apply (H (Z.to_nat d) d); [lia|lia|done].
Qed.

Lemma first_stop_0 (P : Z -> Prop) h k : 0 <= h < 124 -> first_stop P h k -> P h -> k = 0.
Proof.
  intros Hh (Hk & _ & Hno) HP. destruct (Z.eq_dec k 0); [done|].
  exfalso. apply (Hno 0); [lia|]. by rewrite cyc_0.
Qed.

Lemma first_stop_next P h k :
  0 <= h < 124 -> first_stop P h k -> ~ P h -> exists k', k = k' + 1 /\ first_stop P ((h + 1) mod 124) k'.
Proof.
  intros Hh (Hk & HP & Hno) Hn. destruct (Z.eq_dec k 0) as [->|]; [by rewrite cyc_0 in HP|].
  exists (k - 1). split; [lia|]. split; [lia|]. split.
  - rewrite cyc_succ. by replace (k - 1 + 1) with k by lia.
  - intros j Hj. rewrite cyc_succ. apply Hno. lia.
Qed.

Definition stops (l : list Z) (i s : Z) : Prop := rd l s = 0 \/ rd l s = i.

Lemma test_probe_spec fuel l h i k :
  0 <= h < 124 -> first_stop (stops l i) h k -> (Z.to_nat k < fuel)%nat ->
  test_probe fuel l h i = if rd l (cyc h k) =? 0 then 0 else 1.
Proof.
  revert h k. induction fuel as [|fuel IH]; intros h k Hh Hst Hf; [lia|]. cbn [test_probe].
  destruct bv_consts as (_ & -> & _).
  destruct (Z.eqb_spec (rd l h) 0) as [E|E].
  - assert (k = 0) as -> by (eapply first_stop_0; [done|done|by left]).
    rewrite cyc_0 by done. by rewrite E.
  - destruct (Z.eqb_spec (rd l h) i) as [Ei|Ei].
    + assert (k = 0) as -> by (eapply first_stop_0; [done|done|by right]).
      rewrite cyc_0 by done. by rewrite (proj2 (Z.eqb_neq _ 0)).
    + destruct (first_stop_next _ _ _ Hh Hst) as (k' & -> & Hst'); [intros [?|?]; done|].
      rewrite (IH _ k'); [by rewrite cyc_succ|apply Z.mod_pos_bound; lia|done|].
      destruct Hst' as (? & _). lia.
Qed.

Lemma set_probe_spec fuel l h i k :
  0 <= h < 124 -> rd l h <> 0 -> i <> 0 -> first_stop (stops l i) h k -> (Z.to_nat k < fuel)%nat ->
  set_probe fuel l h i = if rd l (cyc h k) =? 0 then Some (cyc h k) else None.
Proof.
  revert h k. induction fuel as [|fuel IH]; intros h k Hh H0 Hi0 Hst Hf; [lia|]. cbn [set_probe].
  destruct bv_consts as (_ & -> & _).
  destruct (Z.eqb_spec (rd l h) i) as [Ei|Ei].
  - assert (k = 0) as -> by (eapply first_stop_0; [done|done|by right]).
    rewrite cyc_0 by done. by rewrite (proj2 (Z.eqb_neq _ 0)).
  - destruct (first_stop_next _ _ _ Hh Hst) as (k' & -> & Hst'); [intros [?|?]; done|].
    rewrite wrap_step by done.
    assert (0 <= (h + 1) mod 124 < 124) as Hr by (apply Z.mod_pos_bound; lia).
    destruct (Z.eqb_spec (rd l ((h + 1) mod 124)) 0) as [E|E].
    + assert (k' = 0) as -> by (eapply first_stop_0; [done|done|by left]).
      rewrite <- cyc_succ, cyc_0 by done. by rewrite E.
    + rewrite (IH _ k'); [by rewrite cyc_succ|done|done|done|done|].
      destruct Hst' as (? & _). lia.
Qed.

Lemma clear_probe_spec fuel l h k :
  0 <= h < 124 -> first_stop (fun s => rd l s = 0) h k -> (Z.to_nat k < fuel)%nat ->
  clear_probe fuel l h = cyc h k.
Proof.
  revert h k. induction fuel as [|fuel IH]; intros h k Hh Hst Hf; [lia|]. cbn [clear_probe].
  destruct bv_consts as (_ & -> & _).
  destruct (Z.eqb_spec (rd l h) 0) as [E|E].
  - assert (k = 0) as -> by (eapply first_stop_0; [done|done|done]).
    by rewrite cyc_0.
  - destruct (first_stop_next _ _ _ Hh Hst) as (k' & -> & Hst'); [done|].
    rewrite wrap_step by done. rewrite (IH _ k'); [by rewrite cyc_succ|apply Z.mod_pos_bound; lia|done|].
    destruct Hst' as (? & _). lia.
Qed.

(** ** The hash table invariant *)

Definition nz (l : list Z) : Z := Z.of_nat (length (filter (fun x => x <> 0) l)).

Lemma nz_insert l (s : nat) x :
  l !! s = Some 0 -> x <> 0 -> nz (<[s := x]> l) = nz l + 1.
Proof.
  unfold nz. revert s. induction l as [|y l IH]; intros [|s] Hs Hx; try done; cbn in Hs.
  - injection Hs as ->. cbn [insert list_insert]. rewrite !filter_cons.
    rewrite decide_True by done. rewrite decide_False by (intros Hn; by apply Hn). cbn [length]. lia.
  - change (<[S s := x]> (y :: l)) with (y :: <[s := x]> l). rewrite !filter_cons.
    specialize (IH s Hs Hx). destruct (decide (y <> 0)); cbn [length] in *; lia.
Qed.

Lemma nz_zero l : nz l < Z.of_nat (length l) -> exists s, 0 <= s < Z.of_nat (length l) /\ rd l s = 0.
Proof.
  unfold nz. induction l as [|y l IH]; cbn [length]; [cbn; lia|]. rewrite filter_cons.
  destruct (Z.eq_dec y 0) as [->|Hy].
  - intros _. exists 0. split; [lia|done].
  - rewrite decide_True by done. cbn [length]. intros H. destruct IH as (s & Hs & Hr); [lia|].
    exists (s + 1). split; [lia|]. unfold rd in *. by replace (Z.to_nat (s + 1)) with (S (Z.to_nat s)) by lia.
Qed.

Definition hslot (v : Z) : Z := (v - 1) mod 124.

Record hash_wf (sz : Z) (l : list Z) : Prop := {
  hw_len : length l = 124%nat;
  hw_range : forall s, 0 <= s < 124 -> rd l s = 0 \/ 1 <= rd l s <= sz;
  hw_uniq : forall s s', 0 <= s < 124 -> 0 <= s' < 124 -> rd l s = rd l s' -> rd l s <> 0 -> s = s';
  hw_probe : forall s j, 0 <= s < 124 -> rd l s <> 0 ->
    0 <= j < (s - hslot (rd l s)) mod 124 -> rd l (cyc (hslot (rd l s)) j) <> 0 }.

Definition hash_in (l : list Z) (i : Z) : Prop := i <> 0 /\ exists s, 0 <= s < 124 /\ rd l s = i.

Lemma hslot_range v : 0 <= hslot v < 124.
Proof. apply Z.mod_pos_bound. lia. Qed.

(** A present value is met by the probe sequence before any free slot. *)
Lemma hash_find sz l i k :
  hash_wf sz l -> i <> 0 -> first_stop (stops l i) (hslot i) k ->
  (hash_in l i <-> rd l (cyc (hslot i) k) = i).
Proof.
  intros Hw Hi (Hk & Hst & Hno). split.
  - intros (_ & s & Hs & Er). destruct Hst as [H0|]; [exfalso|done].
    set (d := (s - hslot i) mod 124). assert (0 <= d < 124) as Hd by (apply Z.mod_pos_bound; lia).
    assert (cyc (hslot i) d = s) as Ed by by apply cyc_dist.
    destruct (Z.lt_trichotomy k d) as [Hlt|[->|Hgt]].
    + apply (hw_probe _ _ Hw s k); [done|lia|rewrite Er; lia|by rewrite Er].
    + rewrite Ed in H0. lia.
    + apply (Hno d); [lia|]. rewrite Ed. by right.
  - intros E. split; [done|]. exists (cyc (hslot i) k). split; [apply cyc_range|done].
Qed.

(** Storing a new value in the first free slot of its probe sequence. *)
Lemma hash_insert sz l i k :
  hash_wf sz l -> 1 <= i <= sz -> ~ hash_in l i ->
  0 <= k < 124 -> rd l (cyc (hslot i) k) = 0 ->
  (forall j, 0 <= j < k -> rd l (cyc (hslot i) j) <> 0) ->
  let l' := wr l (cyc (hslot i) k) i in
  hash_wf sz l' /\ nz l' = nz l + 1 /\ forall j, hash_in l' j <-> j = i \/ hash_in l j.
Proof.
  intros Hw Hi Hnot Hk H0 Hrun l'. set (t := cyc (hslot i) k) in *.
  assert (0 <= t < 124) as Ht by apply cyc_range. pose proof (hw_len _ _ Hw) as Hlen.
  assert (rd l' t = i) as Et by (apply rd_wr_eq; lia).
  assert (forall s, 0 <= s < 124 -> s <> t -> rd l' s = rd l s) as Ene
    by (intros; apply rd_wr_ne; lia).
  assert (forall s, 0 <= s < 124 -> rd l s <> 0 -> rd l' s = rd l s) as Enz.
  { intros s Hs Hn. apply Ene; [done|]. intros ->. done. }
  split; [|split].
  - split.
    + unfold l'. by rewrite length_wr.
    + intros s Hs. destruct (Z.eq_dec s t) as [->|]; [rewrite Et; lia|].
      rewrite Ene by done. by apply (hw_range _ _ Hw).
    + intros s s' Hs Hs' E Hn. destruct (Z.eq_dec s t) as [->|N1], (Z.eq_dec s' t) as [->|N2]; try done.
      * rewrite Et, Ene in E by done. exfalso. apply Hnot. split; [lia|]. by exists s'.
      * rewrite Et, Ene in E by done. exfalso. apply Hnot. split; [lia|]. by exists s.
      * rewrite (Ene s) in E, Hn by done. rewrite (Ene s') in E by done. by apply (hw_uniq _ _ Hw).
    + intros s j Hs Hn Hj. destruct (Z.eq_dec s t) as [->|N].
      * rewrite Et in *. assert (j < k).
        { replace ((t - hslot i) mod 124) with k in Hj; [lia|]. unfold t, cyc.
          rewrite Zminus_mod_idemp_l. replace (hslot i + k - hslot i) with k by lia.
          by rewrite Z.mod_small. }
        rewrite Enz; [apply Hrun; lia|apply cyc_range|apply Hrun; lia].
      * rewrite (Ene s) in Hn, Hj |- * by done.
        assert (rd l (cyc (hslot (rd l s)) j) <> 0) as Hp by by apply (hw_probe _ _ Hw).
        rewrite Enz; [exact Hp|apply cyc_range|exact Hp].
  - unfold l', wr. apply nz_insert; [|lia]. rewrite lookup_rd by lia. by rewrite H0.
  - intros j. split.
    + intros (Hj & s & Hs & E). destruct (Z.eq_dec s t) as [->|N]; [rewrite Et in E; by left|].
      rewrite Ene in E by done. right. split; [done|]. by exists s.
    + intros [->|(Hj & s & Hs & E)]; split; [lia|by exists t|done|].
      exists s. split; [done|]. rewrite Enz; [done|done|lia].
Qed.

Lemma hash_wf_empty sz : hash_wf sz (replicate 124 0) /\ nz (replicate 124 0) = 0 /\ forall j, ~ hash_in (replicate 124 0) j.
Proof.
  assert (forall s, rd (replicate 124 0) s = 0) as H0.
  { intros s. destruct (nth_in_or_default (Z.to_nat s) (replicate 124 0) 0) as [Hin|]; [|done].
    apply list_elem_of_In, elem_of_replicate_inv in Hin. done. }
  split; [|split; [reflexivity|]].
  - split; [done|intros; left; apply H0|intros s s' ? ? _ Hn; by rewrite H0 in Hn|].
    intros s j ? Hn. by rewrite H0 in Hn.
  - intros j (Hj & s & _ & E). rewrite H0 in E. by apply Hj.
Qed.

Lemma stop_exists sz l i h :
  hash_wf sz l -> nz l <= 123 -> exists k, first_stop (stops l i) h k.
Proof.
  intros Hw Hn. pose proof (hw_len _ _ Hw) as Hlen.
  destruct (nz_zero l) as (s & Hs & H0); [lia|].
  apply (first_stop_exists (stops l i) (fun s => ltac:(unfold stops; apply _)) h s); [lia|by left].
Qed.

(** * Well-formed bitmaps and their contents *)

Inductive bv_wf : Bitvec -> Prop :=
| wf_bitmap sz ns l :
    0 <= sz <= 3968 -> length l = 496%nat -> bytes l -> bv_wf (BV sz ns 0 (aBitmap l))
| wf_hash sz ns l :
    3968 < sz < 2 ^ 32 -> hash_wf sz l -> ns = nz l -> ns <= 123 -> bv_wf (BV sz ns 0 (aHash l))
| wf_sub sz ns dv l :
    3968 < sz < 2 ^ 32 -> dv = (sz + 61) / 62 -> length l = 62%nat ->
    (forall k q, l !! k = Some (Some q) -> iSize q = dv) ->
    (forall k q, l !! k = Some (Some q) -> bv_wf q) ->
    bv_wf (BV sz ns dv (apSub l)).

(** [bv_in p i]: bit [i] (counted from one) is recorded in [p]. *)
Inductive bv_in : Bitvec -> Z -> Prop :=
| in_bitmap sz ns l i :
    1 <= i -> Z.testbit (rd l ((i - 1) / 8)) ((i - 1) mod 8) = true -> bv_in (BV sz ns 0 (aBitmap l)) i
| in_hash sz ns l i : hash_in l i -> bv_in (BV sz ns 0 (aHash l)) i
| in_sub sz ns dv l q i :
    1 <= i -> l !! Z.to_nat ((i - 1) / dv) = Some (Some q) -> bv_in q ((i - 1) mod dv + 1) ->
    bv_in (BV sz ns dv (apSub l)) i.

Lemma low3 i : i .& (BITVEC_SZELEM - 1) = i mod 8.
Proof. change (BITVEC_SZELEM - 1) with (Z.ones 3). by rewrite Z.land_ones. Qed.

(** ** Test *)

Lemma div_level sz n :
  3968 < sz -> sz <= 3968 * 62 ^ Z.of_nat n ->
  exists m, n = S m /\ 0 < (sz + 61) / 62 < sz /\ (sz + 61) / 62 <= 3968 * 62 ^ Z.of_nat m.
Proof.
  intros H0 H1. destruct n as [|m]; [change (62 ^ Z.of_nat 0) with 1 in H1; lia|].
  exists m. split; [done|]. rewrite Nat2Z.inj_succ, Z.pow_succ_r in H1 by lia.
  split.
  - split; [apply Z.div_str_pos; lia|apply Z.div_lt_upper_bound; lia].
  - assert ((sz + 61) / 62 < 3968 * 62 ^ Z.of_nat m + 1); [|lia]. apply Z.div_lt_upper_bound; lia.
Qed.

Lemma sub_bin sz dv i :
  3968 < sz -> dv = (sz + 61) / 62 -> 0 <= i < sz -> 0 <= i / dv < 62 /\ 0 <= i mod dv < dv.
Proof.
  intros Hsz -> Hi.
  assert (0 < (sz + 61) / 62) by (apply Z.div_str_pos; lia).
  split; [|by apply Z.mod_pos_bound].
  split; [apply Z.div_pos; lia|]. apply Z.div_lt_upper_bound; [done|].
  pose proof (Z.div_mod (sz + 61) 62). pose proof (Z.mod_pos_bound (sz + 61) 62). lia.
Qed.

Lemma sub_at_lookup l bin :
  length l = 62%nat -> 0 <= bin < 62 -> l !! Z.to_nat bin = Some (sub_at (apSub l) bin).
Proof.
  intros Hl Hb. unfold sub_at. cbn [get_sub].
  destruct (lookup_lt_is_Some_2 l (Z.to_nat bin)) as [x Hx]; [lia|].
  by rewrite nth_lookup, Hx.
Qed.

Lemma test_loop_spec p : bv_wf p -> forall n i,
  iSize p <= 3968 * 62 ^ Z.of_nat n -> 0 <= i < iSize p ->
  (bitvecTest_loop (S n) p i = 1 /\ bv_in p (i + 1)) \/ (bitvecTest_loop (S n) p i = 0 /\ ~ bv_in p (i + 1)).
Proof.
  induction 1 as [sz ns l Hsz Hlen Hb|sz ns l Hsz Hw Hns Hmx|sz ns dv l Hsz Hdv Hlen Hq Hwf IH];
    intros n i Hn Hi; cbn [iSize] in *; cbn [bitvecTest_loop iDivisor iSize bvu].
  - change (0 =? 0) with true. cbn [negb]. destruct bv_consts as (-> & _).
    rewrite (proj2 (Z.leb_le sz _)) by lia. cbn [get_bitmap]. rewrite low3.
    rewrite land_bit, negb_involutive by (apply Z.mod_pos_bound; lia). change BITVEC_SZELEM with 8.
    destruct (Z.testbit _ _) eqn:E; [left|right]; (split; [done|]).
    + constructor; [lia|]. by replace (i + 1 - 1) with i by lia.
    + inversion 1 as [? ? ? ? _ Ht| |]; subst. replace (i + 1 - 1) with i in Ht by lia. congruence.
  - change (0 =? 0) with true. cbn [negb]. destruct bv_consts as (-> & HN & _).
    rewrite (proj2 (Z.leb_gt sz _)) by lia. cbn [get_hash].
    assert (BITVEC_HASH i = hslot (i + 1)) as ->.
    { unfold BITVEC_HASH, hslot. rewrite HN. f_equal. lia. }
    destruct (stop_exists sz l (i + 1) (hslot (i + 1)) Hw) as (k & Hk); [lia|].
    rewrite (test_probe_spec _ l _ _ k); [|apply hslot_range|done|destruct Hk; rewrite HN; lia].
    pose proof (hash_find sz l (i + 1) k Hw ltac:(lia) Hk) as Hf.
    destruct Hk as (_ & [H0|H1] & _).
    + rewrite H0. right. split; [done|]. inversion 1; subst. rewrite Hf in *. lia.
    + rewrite H1, (proj2 (Z.eqb_neq _ 0)) by lia. left. split; [done|]. constructor. by apply Hf.
  - destruct (div_level sz n) as (m & -> & Hd & Hm); [lia|done|]. rewrite <- Hdv in *.
    rewrite (proj2 (Z.eqb_neq dv 0)) by lia. cbn [negb].
    destruct (sub_bin sz dv i) as [Hbin Hmod]; [lia|done|lia|].
    pose proof (sub_at_lookup l (i / dv) Hlen Hbin) as Hlk.
    destruct (sub_at (apSub l) (i / dv)) as [q|] eqn:Eq.
    + pose proof (Hq _ _ Hlk) as Esz. destruct (IH _ _ Hlk m (i mod dv)) as [[Ht Hin]|[Ht Hin]];
        [lia|lia|left|right]; (split; [done|]).
      * econstructor; [lia|replace (i + 1 - 1) with i by lia; done|by replace (i + 1 - 1) with i by lia].
      * inversion 1 as [| |? ? ? ? q' ? _ Hlk' Hin']; subst. replace (i + 1 - 1) with i in * by lia.
        rewrite Hlk in Hlk'. injection Hlk' as <-. done.
    + right. split; [done|]. inversion 1 as [| |? ? ? ? q' ? _ Hlk' Hin']; subst.
      replace (i + 1 - 1) with i in Hlk' by lia. rewrite Hlk in Hlk'. done.
Qed.

(** ** Set *)

Lemma in_bitmap_iff sz ns l j :
  bv_in (BV sz ns 0 (aBitmap l)) j <->
  1 <= j /\ Z.testbit (rd l ((j - 1) / 8)) ((j - 1) mod 8) = true.
Proof. split; [by inversion 1|]. intros [? ?]. by constructor. Qed.

Lemma in_hash_iff sz ns l j : bv_in (BV sz ns 0 (aHash l)) j <-> hash_in l j.
Proof. split; [by inversion 1|]. intros ?. by constructor. Qed.

Lemma rd_replicate0 n i : rd (replicate n 0) i = 0.
Proof.
  unfold rd. destruct (nth_in_or_default (Z.to_nat i) (replicate n 0) 0) as [Hin|]; [|done].
  by apply list_elem_of_In, elem_of_replicate_inv in Hin.
Qed.

Lemma new_wf sz :
  0 <= sz < 2 ^ 32 -> bv_wf (bitvec_new sz) /\ iSize (bitvec_new sz) = sz /\ forall j, ~ bv_in (bitvec_new sz) j.
Proof.
  intros Hsz. unfold bitvec_new. destruct bv_consts as (-> & -> & -> & _).
  destruct (Z.leb_spec sz 3968).
  - split; [|split; [done|]].
    + constructor; [lia|by rewrite length_replicate|by apply Forall_replicate].
    + intros j. rewrite in_bitmap_iff, rd_replicate0, Z.bits_0. by intros [_ ?].
  - destruct (hash_wf_empty sz) as (Hw & Hn & Hno). split; [|split; [done|]].
    + by apply wf_hash; [lia|exact Hw|exact (eq_sym Hn)|].
    + intros j. rewrite in_hash_iff. apply Hno.
Qed.

Section SetSpec.
Variable alloc : nat -> bool.

(** The result codes: NOMEM is only reported when some allocation fails. *)
Definition rc_ok (rc : Z) : Prop :=
  rc = SQLITE_OK \/ (rc = SQLITE_NOMEM /\ exists k, alloc k = false).

Definition set_post (p : Bitvec) (i : Z) (r : Z * Bitvec * nat) : Prop :=
  let '(rc, p', _) := r in
  bv_wf p' /\ iSize p' = iSize p /\ rc_ok rc /\
  (forall j, bv_in p' j -> j = i \/ bv_in p j) /\
  (rc = SQLITE_OK -> forall j, j = i \/ bv_in p j -> bv_in p' j).

Lemma in_sub_iff sz ns dv l j :
  bv_in (BV sz ns dv (apSub l)) j <->
  1 <= j /\ exists q, l !! Z.to_nat ((j - 1) / dv) = Some (Some q) /\ bv_in q ((j - 1) mod dv + 1).
Proof.
  split; [inversion 1; subst; eauto|]. intros (Hj & q & Hl & Hq). by eapply in_sub.
Qed.

Lemma bin_inj dv i j :
  0 < dv -> 1 <= i -> 1 <= j ->
  Z.to_nat ((j - 1) / dv) = Z.to_nat ((i - 1) / dv) -> (j - 1) mod dv + 1 = (i - 1) mod dv + 1 -> j = i.
Proof.
  intros Hd Hi Hj Hb Hm.
  assert ((j - 1) / dv = (i - 1) / dv).
  { apply Z2Nat.inj; [apply Z.div_pos; lia|apply Z.div_pos; lia|done]. }
  pose proof (Z.div_mod (j - 1) dv). pose proof (Z.div_mod (i - 1) dv). nia.
Qed.

(** Storing an updated sub-bitmap updates the whole in the same way. *)
Lemma set_sub_post sz ns dv l i q rc q' n' :
  bv_wf (BV sz ns dv (apSub l)) -> 1 <= i <= sz ->
  (sub_at (apSub l) ((i - 1) / dv) = Some q \/
   (sub_at (apSub l) ((i - 1) / dv) = None /\ iSize q = dv /\ forall j, ~ bv_in q j)) ->
  set_post q ((i - 1) mod dv + 1) (rc, q', n') ->
  set_post (BV sz ns dv (apSub l)) i (rc, set_sub (BV sz ns dv (apSub l)) ((i - 1) / dv) (Some q'), n').
Proof.
  intros Hwf Hi Hq (Hwf' & Hsz' & Hrc & Hsub & Hsup).
  inversion Hwf as [| |? ? ? ? Hsz Hdv Hlen Hqs Hqw]; subst ns0 sz0 dv0 l0.
  destruct (sub_bin sz dv (i - 1)) as [Hbin Hmod]; [lia|done|lia|]. assert (0 < dv) as Hd0 by lia.
  pose proof (sub_at_lookup l _ Hlen Hbin) as Hlk.
  assert (iSize q = dv) as Esz.
  { destruct Hq as [Eq|(Eq & ? & _)]; [|done]. rewrite Eq in Hlk. by apply (Hqs _ _ Hlk). }
  unfold set_sub. cbn [iSize nSet iDivisor bvu get_sub]. set (b := Z.to_nat ((i - 1) / dv)) in *.
  assert (b < length l)%nat as Hbl by lia.
  split; [|split; [done|split; [done|split]]].
  - constructor; [done|done|by rewrite length_insert| |]; intros k q0;
      rewrite list_lookup_insert; case_decide; try (by apply Hqs || by apply Hqw);
      intros [= <-]; [congruence|done].
  - intros j. rewrite !in_sub_iff. intros (Hj & q0 & Hl & Hin).
    rewrite list_lookup_insert in Hl. case_decide as Hc.
    + injection Hl as <-. destruct Hc as [Hc _]. apply Hsub in Hin as [E|Hin].
      * left. by apply (bin_inj dv); [lia|lia|lia|symmetry; exact Hc|].
      * right. split; [done|]. destruct Hq as [Eq|(_ & _ & Hno)]; [|by apply Hno in Hin].
        exists q. rewrite <- Hc. by rewrite Hlk, Eq.
    + right. eauto.
  - intros Hok j. rewrite !in_sub_iff. specialize (Hsup Hok).
    intros [->|(Hj & q0 & Hl & Hin)].
    + split; [lia|]. exists q'. rewrite list_lookup_insert, decide_True by done. split; [done|].
      apply Hsup. by left.
    + split; [done|]. destruct (decide (b = Z.to_nat ((j - 1) / dv))) as [E|N].
      * exists q'. rewrite list_lookup_insert, decide_True by done. split; [done|]. apply Hsup. right.
        destruct Hq as [Eq|(Eq & _)]; rewrite <- E, Hlk, Eq in Hl; [|done]. by injection Hl as ->.
      * exists q0. rewrite list_lookup_insert_ne by done. done.
Qed.

Definition set_ok_at (n : nat) : Prop := forall p i fuel st,
  bv_wf p -> iSize p <= 3968 * 62 ^ Z.of_nat n -> 1 <= i <= iSize p -> (2 * n + 1 <= fuel)%nat ->
  set_post p i (bitvecSet alloc fuel p i st).

Lemma set_sub_case m sz ns dv l i fuel st :
  set_ok_at m -> bv_wf (BV sz ns dv (apSub l)) -> dv <= 3968 * 62 ^ Z.of_nat m -> 1 <= i <= sz ->
  (2 * m + 2 <= fuel)%nat ->
  set_post (BV sz ns dv (apSub l)) i (bitvecSet alloc fuel (BV sz ns dv (apSub l)) i st) /\
  exists l', (bitvecSet alloc fuel (BV sz ns dv (apSub l)) i st).1.2 = BV sz ns dv (apSub l').
Proof.
  intros IH Hwf Hm Hi Hf. destruct fuel as [|fuel]; [lia|]. cbn [bitvecSet].
  inversion Hwf as [| |? ? ? ? Hsz Hdv Hlen Hqs Hqw]; subst ns0 sz0 dv0 l0.
  destruct (sub_bin sz dv (i - 1)) as [Hbin Hmod]; [lia|done|lia|].
  cbn [iSize iDivisor bvu]. destruct bv_consts as (-> & _).
  rewrite (proj2 (Z.ltb_lt _ sz)), (proj2 (Z.eqb_neq dv 0)) by lia. cbn [andb negb].
  assert (0 <= dv < 2 ^ 32) as Hd32.
  { rewrite Hdv. split; [apply Z.div_pos; lia|]. apply Z.div_lt_upper_bound; lia. }
  pose proof (sub_at_lookup l _ Hlen Hbin) as Hlk.
  destruct (sub_at (apSub l) ((i - 1) / dv)) as [q|] eqn:Eq.
  - pose proof (IH q ((i - 1) mod dv + 1) fuel st (Hqw _ _ Hlk)) as Hq.
    rewrite (Hqs _ _ Hlk) in Hq. specialize (Hq Hm ltac:(lia) ltac:(lia)).
    destruct (bitvecSet alloc fuel q _ st) as [[rc q'] n']. split; [|by eexists].
    eapply set_sub_post; [done|done|by left|done].
  - unfold sqlite3BitvecCreate. destruct (alloc st) eqn:Ea.
    + destruct (new_wf dv Hd32) as (Hnw & Hns & Hno).
      pose proof (IH (bitvec_new dv) ((i - 1) mod dv + 1) fuel (S st) Hnw) as Hq.
      rewrite Hns in Hq. specialize (Hq Hm ltac:(lia) ltac:(lia)).
      destruct (bitvecSet alloc fuel (bitvec_new dv) _ _) as [[rc q'] n']. split; [|by eexists].
      eapply set_sub_post; [done|done|right; by split|done].
    + split; [|by eexists]. unfold set_sub. cbn [iSize nSet iDivisor bvu get_sub].
      rewrite list_insert_id by done. split; [done|]. split; [done|]. split; [right; eauto|].
      split; [by right|]. intros Habs. discriminate Habs.
Qed.
(** The loop that re-inserts the old hash values. *)
Definition reinsert (fuel : nat) : Z * Bitvec * nat -> Z -> Z * Bitvec * nat :=
  fun '(rc, p, n) v =>
    if negb (v =? 0) then
      let '(rc', p, n) := bitvecSet alloc fuel p v n in (rc .| rc', p, n)
    else (rc, p, n).

Lemma reinsert_spec m fuel sz ns dv vs :
  set_ok_at m -> (2 * m + 2 <= fuel)%nat -> dv <= 3968 * 62 ^ Z.of_nat m ->
  Forall (fun v => v = 0 \/ 1 <= v <= sz) vs ->
  forall rc l n, bv_wf (BV sz ns dv (apSub l)) -> rc_ok rc ->
  let '(rc', p', _) := fold_left (reinsert fuel) vs (rc, BV sz ns dv (apSub l), n) in
  bv_wf p' /\ iSize p' = sz /\ rc_ok rc' /\
  (forall j, bv_in p' j -> (j <> 0 /\ j ∈ vs) \/ bv_in (BV sz ns dv (apSub l)) j) /\
  (rc' = SQLITE_OK -> rc = SQLITE_OK /\
     forall j, (j <> 0 /\ j ∈ vs) \/ bv_in (BV sz ns dv (apSub l)) j -> bv_in p' j).
Proof.
  intros Hok Hf Hm. induction 1 as [|v vs Hv Hvs IH]; intros rc l n Hwf Hrc; cbn [fold_left].
  { split; [done|]. split; [done|]. split; [done|]. split; [by right|]. intros Hr. split; [done|].
    intros j [[_ Hj]|Hj]; [by apply elem_of_nil in Hj|done]. }
  cbn [reinsert]. destruct (Z.eqb_spec v 0) as [->|Hv0]; cbn [negb].
  - specialize (IH rc l n Hwf Hrc). destruct (fold_left _ vs _) as [[rc' p'] n'].
    destruct IH as (H1 & H2 & H3 & H4 & H5). split; [done|]. split; [done|]. split; [done|]. split.
    + intros j Hj. destruct (H4 j Hj) as [[? ?]|?]; [left; set_solver|by right].
    + intros Hr. destruct (H5 Hr) as [? H6]. split; [done|]. intros j [[Hj0 Hj]|Hj]; [|by apply H6; right].
      apply H6. left. set_solver.
  - destruct (set_sub_case m sz ns dv l v fuel n Hok Hwf Hm) as [Hpost (l' & El)]; [lia|done|].
    destruct (bitvecSet alloc fuel _ v n) as [[rc1 p1] n1]. cbn [fst snd] in El. subst p1.
    destruct Hpost as (P1 & _ & P3 & P4 & P5).
    assert (rc_ok (rc .| rc1)) as Hrc'
      by (destruct Hrc as [->|[-> ?]], P3 as [->|[-> ?]]; [by left|by right|by right|by right]).
    specialize (IH (rc .| rc1) l' n1 P1 Hrc'). destruct (fold_left _ vs _) as [[rc' p'] n'].
    destruct IH as (H1 & H2 & H3 & H4 & H5). split; [done|]. split; [done|]. split; [done|]. split.
    + intros j Hj. destruct (H4 j Hj) as [[? ?]|Hj']; [left; set_solver|].
      destruct (P4 j Hj') as [->|?]; [left; set_solver|by right].
    + intros Hr. destruct (H5 Hr) as [Hlor H6].
      apply Z.lor_eq_0_iff in Hlor as [-> ->]. split; [done|].
      intros j [[Hj0 Hj]|Hj]; apply H6.
      * apply elem_of_cons in Hj as [->|Hj]; [right; apply P5; [done|by left]|by left].
      * right. apply P5; [done|by right].
Qed.

Lemma rd_elem l s : 0 <= s < Z.of_nat (length l) -> rd l s ∈ l.
Proof. intros Hs. apply list_elem_of_lookup. exists (Z.to_nat s). by apply lookup_rd. Qed.

Lemma hash_in_elem l j : length l = 124%nat -> (hash_in l j <-> j <> 0 /\ j ∈ l).
Proof.
  intros Hl. split.
  - intros (Hj & s & Hs & <-). split; [done|]. apply rd_elem. lia.
  - intros [Hj Hin]. split; [done|]. apply list_elem_of_lookup in Hin as (k & Hk).
    exists (Z.of_nat k). split; [apply lookup_lt_Some in Hk; lia|].
    apply rd_lookup. by rewrite Nat2Z.id.
Qed.

Lemma set_bit_byte x b : is_u 8 x -> 0 <= b < 8 -> is_u 8 (x .| (1 << b)).
Proof.
  intros Hx Hb. apply is_u_bits; [lia|apply Z.lor_nonneg; split; [apply Hx|apply Z.shiftl_nonneg; lia]|].
  intros n Hn. rewrite Z.lor_spec, testbit_one_shl by lia.
  rewrite (testbit_ge 8 x n Hx) by lia. by rewrite (proj2 (Z.eqb_neq n b)) by lia.
Qed.

Lemma set_bitmap_case sz ns l i fuel st :
  bv_wf (BV sz ns 0 (aBitmap l)) -> 1 <= i <= sz -> (1 <= fuel)%nat ->
  set_post (BV sz ns 0 (aBitmap l)) i (bitvecSet alloc fuel (BV sz ns 0 (aBitmap l)) i st).
Proof.
  intros Hwf Hi Hf. destruct fuel as [|fuel]; [lia|]. cbn [bitvecSet iSize iDivisor bvu get_bitmap].
  inversion Hwf as [? ? ? Hsz Hlen Hb| |]; subst.
  change (0 =? 0) with true. cbn [negb]. rewrite andb_false_r. destruct bv_consts as (-> & _).
  rewrite (proj2 (Z.leb_le sz _)) by lia. rewrite low3. change BITVEC_SZELEM with 8.
  set (k := (i - 1) / 8). set (b := (i - 1) mod 8).
  assert (0 <= b < 8) as Hbr by (apply Z.mod_pos_bound; lia).
  assert (0 <= k < 496) as Hk by (split; [apply Z.div_pos; lia|apply Z.div_lt_upper_bound; lia]).
  assert (is_u 8 (rd l k .| (1 << b))) as Hu by (apply set_bit_byte; [by apply rd_byte|done]).
  assert (forall j, 1 <= j -> Z.testbit (rd (wr l k (rd l k .| (1 << b))) ((j - 1) / 8)) ((j - 1) mod 8) =
     (j =? i) || Z.testbit (rd l ((j - 1) / 8)) ((j - 1) mod 8)) as Hbit.
  { intros j Hj. assert (0 <= (j - 1) / 8) by (apply Z.div_pos; lia).
    destruct (Z.eq_dec ((j - 1) / 8) k) as [E|N].
    - rewrite E, rd_wr_eq by lia. rewrite Z.lor_spec, testbit_one_shl by lia. rewrite orb_comm. f_equal.
      apply eq_true_iff_eq. rewrite !Z.eqb_eq. unfold k, b in *.
      pose proof (Z.div_mod (j - 1) 8). pose proof (Z.div_mod (i - 1) 8). split; [lia|]. intros ->. done.
    - rewrite rd_wr_ne by lia. rewrite (proj2 (Z.eqb_neq j i)); [done|]. intros ->. done. }
  split; [constructor; [done|by rewrite length_wr|by apply bytes_wr]|].
  split; [done|]. split; [by left|]. split.
  - intros j. rewrite !in_bitmap_iff. intros [Hj Ht]. rewrite Hbit in Ht by done.
    apply orb_true_iff in Ht as [Ht|Ht]; [left; by apply Z.eqb_eq|by right].
  - intros _ j. rewrite !in_bitmap_iff. intros [->|[Hj Ht]].
    + split; [lia|]. rewrite Hbit by lia. by rewrite Z.eqb_refl.
    + split; [done|]. rewrite Hbit by done. by rewrite Ht, orb_true_r.
Qed.

(** Splitting a full hash table into sub-bitmaps keeps its contents. *)
Lemma split_wf sz ns : 3968 < sz < 2 ^ 32 ->
  bv_wf (BV sz ns ((sz + 61) / 62) (apSub (replicate 62 None))) /\
  forall j, ~ bv_in (BV sz ns ((sz + 61) / 62) (apSub (replicate 62 None))) j.
Proof.
  intros Hsz.
  assert (forall k q, replicate 62 (@None Bitvec) !! k <> Some (Some q)) as Hno.
  { intros k q Hk. apply lookup_replicate in Hk as [? _]. done. }
  split.
  - constructor; [done|done|done| |]; intros k q Hk; by apply Hno in Hk.
  - intros j. rewrite in_sub_iff. intros (_ & q & Hk & _). by apply Hno in Hk.
Qed.

Lemma set_split_case m sz ns l i fuel st rc p n :
  set_ok_at m -> bv_wf (BV sz ns 0 (aHash l)) -> (2 * m + 2 <= fuel)%nat ->
  (sz + 61) / 62 <= 3968 * 62 ^ Z.of_nat m -> 1 <= i <= sz ->
  bitvecSet alloc fuel (BV sz ns ((sz + 61) / 62) (apSub (replicate 62 None))) i st = (rc, p, n) ->
  set_post (BV sz ns 0 (aHash l)) i (fold_left (reinsert fuel) l (rc, p, n)).
Proof.
  intros Hok Hwf Hf Hm Hi E. inversion Hwf as [|? ? ? Hsz Hw Hns Hmx|]; subst.
  destruct (split_wf sz (nz l) Hsz) as [Hw0 Hno].
  destruct (set_sub_case m sz (nz l) _ _ i fuel st Hok Hw0 Hm Hi Hf) as [Hpost (l' & El)].
  rewrite E in Hpost, El. cbn [fst snd] in El. subst p. destruct Hpost as (P1 & _ & P3 & P4 & P5).
  assert (Forall (fun v => v = 0 \/ 1 <= v <= sz) l) as Hvs.
  { apply Forall_lookup. intros k v Hk. pose proof (lookup_lt_Some _ _ _ Hk) as Hlt.
    rewrite (hw_len _ _ Hw) in Hlt. pose proof (hw_range _ _ Hw (Z.of_nat k) ltac:(lia)) as Hr.
    rewrite (rd_lookup l (Z.of_nat k) v) in Hr by (by rewrite Nat2Z.id). done. }
  pose proof (reinsert_spec m fuel sz (nz l) _ l Hok Hf Hm Hvs rc l' n P1 P3) as HR.
  destruct (fold_left _ l _) as [[rc' p'] n']. destruct HR as (R1 & R2 & R3 & R4 & R5).
  split; [done|]. split; [done|]. split; [done|]. split.
  - intros j Hj. rewrite in_hash_iff, hash_in_elem by apply Hw.
    destruct (R4 j Hj) as [?|Hj']; [by right|]. destruct (P4 j Hj') as [?|Hn]; [by left|].
    by apply Hno in Hn.
  - intros Hr j. rewrite in_hash_iff, hash_in_elem by apply Hw. destruct (R5 Hr) as [Hrc R6].
    intros [->|Hj]; apply R6; [right; apply P5; [done|by left]|by left].
Qed.

Lemma set_end_post sz ns l i k st :
  bv_wf (BV sz ns 0 (aHash l)) -> 1 <= i <= sz -> ns < 123 ->
  first_stop (stops l i) (hslot i) k -> rd l (cyc (hslot i) k) = 0 ->
  set_post (BV sz ns 0 (aHash l)) i
    (SQLITE_OK, BV sz (u32 (ns + 1)) 0 (aHash (wr l (cyc (hslot i) k) i)), st).
Proof.
  intros Hwf Hi Hlt Hk H0. inversion Hwf as [|? ? ? Hsz Hw Hns Hmx|]; subst.
  assert (~ hash_in l i) as Hnot.
  { rewrite (hash_find sz l i k) by (done || lia). lia. }
  destruct Hk as (Hk & _ & Hno).
  destruct (hash_insert sz l i k Hw Hi Hnot Hk H0) as (W & N & I).
  { intros j Hj E. apply (Hno j Hj). by left. }
  assert (0 <= nz l) by (unfold nz; lia).
  rewrite uwrap_small by (unfold is_u; lia).
  split; [apply wf_hash; [done|done|done|lia]|]. split; [done|]. split; [by left|].
  split; [intros j; rewrite !in_hash_iff, I; tauto|]. intros _ j. rewrite !in_hash_iff, I. tauto.
Qed.

Lemma set_hash_case m sz ns l i fuel st :
  set_ok_at m -> bv_wf (BV sz ns 0 (aHash l)) -> (2 * m + 2 <= fuel)%nat ->
  (sz + 61) / 62 <= 3968 * 62 ^ Z.of_nat m -> 1 <= i <= sz ->
  set_post (BV sz ns 0 (aHash l)) i (bitvecSet alloc (S fuel) (BV sz ns 0 (aHash l)) i st).
Proof.
  intros Hok Hwf Hf Hm Hi. pose proof Hwf as Hwf'.
  inversion Hwf' as [|? ? ? Hsz Hw Hns Hmx|]; subst ns0 sz0 l0.
  cbn [bitvecSet iSize iDivisor bvu nSet get_hash]. destruct bv_consts as (-> & HN & _ & HP & HM).
  rewrite (proj2 (Z.leb_gt sz _)) by lia. change (0 =? 0) with true. cbn [negb]. rewrite andb_false_r.
  replace (i - 1 + 1) with i by lia. rewrite HN, HP, HM.
  assert (BITVEC_HASH (i - 1) = hslot i) as -> by (unfold BITVEC_HASH, hslot; rewrite HN; f_equal; lia).
  destruct (stop_exists sz l i (hslot i) Hw) as (k & Hk); [lia|].
  pose proof (hslot_range i) as Hh.
  assert (rd l (hslot i) = 0 -> cyc (hslot i) k = hslot i) as E0.
  { intros E. replace k with 0; [by apply cyc_0|]. symmetry. eapply first_stop_0; [done|done|by left]. }
  assert (rd l (cyc (hslot i) k) = 0 ->
    set_post (BV sz ns 0 (aHash l)) i
      (if 62 <=? ns then
         if alloc st then
           let '(rc, p, n) := bitvecSet alloc fuel (BV sz ns (u32 ((sz + 62 - 1) / 62)) (apSub (replicate (Z.to_nat 62) None))) i (S st) in
           fold_left (reinsert fuel) l (rc, p, n)
         else (SQLITE_NOMEM, BV sz ns 0 (aHash l), S st)
       else (SQLITE_OK, BV sz (u32 (ns + 1)) 0 (aHash (wr l (cyc (hslot i) k) i)), st))) as Hre.
  { intros H0. destruct (Z.leb_spec 62 ns); [|by apply set_end_post; [done|done|lia|done|done]].
    destruct (alloc st) eqn:Ea.
    - replace (sz + 62 - 1) with (sz + 61) by lia.
      rewrite uwrap_small by (split; [apply Z.div_pos; lia|apply Z.div_lt_upper_bound; lia]).
      change (Z.to_nat 62) with 62%nat. destruct (bitvecSet alloc fuel _ i (S st)) as [[rc p] n] eqn:E.
      by eapply set_split_case.
    - split; [done|]. split; [done|]. split; [right; eauto|]. split; [by right|]. intros Habs. discriminate Habs. }
  destruct (Z.eqb_spec (rd l (hslot i)) 0) as [E|E].
  - rewrite (E0 E) in Hre. destruct (Z.ltb_spec ns (124 - 1)); [|by apply Hre].
    rewrite <- (E0 E). apply set_end_post; [done|done|lia|done|]. by rewrite (E0 E).
  - rewrite (set_probe_spec _ l _ _ k); [|done|done|lia|done|destruct Hk; lia].
    destruct (Z.eqb_spec (rd l (cyc (hslot i) k)) 0) as [H0|H0]; [by apply Hre|].
    destruct Hk as (_ & [?|E1] & _); [done|].
    split; [done|]. split; [done|]. split; [by left|]. split; [by right|].
    intros _ j [->|?]; [|done]. apply in_hash_iff. split; [lia|]. exists (cyc (hslot i) k).
    split; [apply cyc_range|done].
Qed.

Lemma set_ok_all n : set_ok_at n.
Proof.
  induction n as [|m IH]; intros p i fuel st Hwf Hn Hi Hf; inversion Hwf; subst; cbn [iSize] in *;
    try (apply set_bitmap_case; [done|done|lia]);
    try (change (62 ^ Z.of_nat 0) with 1 in Hn; lia);
    (destruct (div_level sz (S m)) as (m' & [= <-] & Hd & Hm); [lia|done|]).
  - destruct fuel as [|fuel]; [lia|]. apply (set_hash_case m); [done|done|lia|done|done].
  - apply (set_sub_case m); [done|done|done|done|lia].
Qed.
End SetSpec.

(** ** Clear *)

Definition uniq_nz (vs : list Z) : Prop := forall s s' v,
  vs !! s = Some v -> vs !! s' = Some v -> v <> 0 -> s = s'.

Lemma uniq_nz_cons v vs : uniq_nz (v :: vs) -> uniq_nz vs /\ (v <> 0 -> v ∉ vs).
Proof.
  intros H. split.
  - intros s s' w Hs Hs' Hw. by specialize (H (S s) (S s') w Hs Hs' Hw) as [= ->].
  - intros Hv [s Hs]%list_elem_of_lookup. by specialize (H 0%nat (S s) v eq_refl Hs Hv).
Qed.

Lemma hash_wf_uniq sz l : hash_wf sz l -> uniq_nz l.
Proof.
  intros Hw s s' v Hs Hs' Hv.
  pose proof (lookup_lt_Some _ _ _ Hs). pose proof (lookup_lt_Some _ _ _ Hs'). pose proof (hw_len _ _ Hw).
  assert (rd l (Z.of_nat s) = v) as E by (apply rd_lookup; by rewrite Nat2Z.id).
  assert (rd l (Z.of_nat s') = v) as E' by (apply rd_lookup; by rewrite Nat2Z.id).
  apply Nat2Z.inj, (hw_uniq _ _ Hw); [lia|lia|by rewrite E, E'|by rewrite E].
Qed.

Lemma hash_wf_vals sz l : hash_wf sz l -> Forall (fun v => v = 0 \/ 1 <= v <= sz) l.
Proof.
  intros Hw. apply Forall_lookup. intros k v Hk. pose proof (lookup_lt_Some _ _ _ Hk) as Hlt.
  rewrite (hw_len _ _ Hw) in Hlt. pose proof (hw_range _ _ Hw (Z.of_nat k) ltac:(lia)) as Hr.
  rewrite (rd_lookup l (Z.of_nat k) v) in Hr by (by rewrite Nat2Z.id). done.
Qed.

Lemma nz_cons v vs : nz (v :: vs) = (if v =? 0 then 0 else 1) + nz vs.
Proof.
  unfold nz. rewrite filter_cons. destruct (Z.eqb_spec v 0) as [->|Hv].
  - by rewrite decide_False by (intros H; by apply H).
  - rewrite decide_True by done. cbn [length]. lia.
Qed.

(** The rebuild keeps every value but the cleared one. *)
Lemma clear_fold sz i1 vs :
  Forall (fun v => v = 0 \/ 1 <= v <= sz) vs -> uniq_nz vs ->
  forall ns l, hash_wf sz l -> ns = nz l -> nz l + nz vs <= 123 ->
  (forall v, v ∈ vs -> ~ hash_in l v) ->
  let '(ns', l') := fold_left (clear_step i1) vs (ns, l) in
  hash_wf sz l' /\ ns' = nz l' /\ ns' <= 123 /\
  forall j, hash_in l' j <-> hash_in l j \/ (j <> 0 /\ j <> i1 /\ j ∈ vs).
Proof.
  induction 1 as [|v vs Hv Hvs IH]; intros Hu ns l Hw Hns Hcap Hdis; cbn [fold_left].
  { split; [done|]. split; [done|]. split; [unfold nz at 2 in Hcap; cbn in Hcap; lia|].
    intros j. split; [by left|]. intros [?|(_ & _ & Hj)]; [done|by apply elem_of_nil in Hj]. }
  apply uniq_nz_cons in Hu as [Hu Hnew]. rewrite nz_cons in Hcap.
  unfold clear_step at 2. destruct (Z.eqb_spec v 0) as [->|Hv0]; cbn [negb andb].
  - specialize (IH Hu ns l Hw Hns Hcap ltac:(intros w Hin; apply Hdis; by right)).
    destruct (fold_left _ vs _) as [ns' l']. destruct IH as (A & B & C & D).
    split; [done|]. split; [done|]. split; [done|]. intros j. rewrite D, elem_of_cons.
    split; [tauto|]. intros [?|(? & ? & [->|?])]; tauto.
  - specialize (Hnew Hv0). assert (0 <= nz vs) by (unfold nz; lia).
    destruct (Z.eqb_spec v i1) as [->|Hvi]; cbn [negb].
    + specialize (IH Hu ns l Hw Hns ltac:(lia) ltac:(intros w Hin; apply Hdis; by right)).
      destruct (fold_left _ vs _) as [ns' l']. destruct IH as (A & B & C & D).
      split; [done|]. split; [done|]. split; [done|]. intros j. rewrite D, elem_of_cons.
      split; [tauto|]. intros [?|(? & ? & [->|?])]; tauto.
    + destruct bv_consts as (_ & HN & _).
      assert (BITVEC_HASH (v - 1) = hslot v) as -> by (unfold BITVEC_HASH, hslot; rewrite HN; f_equal; lia).
      destruct (nz_zero l) as (s & Hs & H0); [rewrite (hw_len _ _ Hw); lia|].
      rewrite (hw_len _ _ Hw) in Hs.
      destruct (first_stop_exists (fun s => rd l s = 0) (fun s => ltac:(apply _)) (hslot v) s) as (k & Hk); [lia|done|].
      rewrite HN, (clear_probe_spec _ l _ k); [|apply hslot_range|done|destruct Hk; lia].
      destruct Hk as (Hk & Hz & Hno).
      destruct (hash_insert sz l v k Hw ltac:(lia) ltac:(apply Hdis; by left) Hk Hz Hno) as (W & N & I).
      assert (0 <= nz l) by (unfold nz; lia).
      specialize (IH Hu (u32 (ns + 1)) _ W). rewrite uwrap_small in * by (unfold is_u; lia).
      specialize (IH ltac:(lia) ltac:(lia)). 
      destruct (fold_left _ vs _) as [ns' l']. destruct IH as (A & B & C & D).
      { intros w Hin. rewrite I. intros [->|Hw']; [done|]. apply (Hdis w); [by right|done]. }
      split; [done|]. split; [done|]. split; [done|]. intros j. rewrite D, I, elem_of_cons.
      split; [|tauto]. intros [[->|?]|?]; tauto.
Qed.

Lemma clear_bit_byte x b : is_u 8 x -> 0 <= b -> is_u 8 (x .& Z.lnot (1 << b)).
Proof.
  intros Hx Hb. apply is_u_bits; [lia|apply Z.land_nonneg; left; apply Hx|].
  intros n Hn. by rewrite Z.land_spec, (testbit_ge 8 x n Hx) by lia.
Qed.

Definition clear_post (p p' : Bitvec) (i : Z) : Prop :=
  bv_wf p' /\ iSize p' = iSize p /\ forall j, bv_in p' j <-> bv_in p j /\ j <> i.

Lemma clear_bitmap_case sz ns l i :
  bv_wf (BV sz ns 0 (aBitmap l)) -> 0 <= i < sz ->
  clear_post (BV sz ns 0 (aBitmap l))
    (BV sz ns 0 (aBitmap (wr l (i / 8) (rd l (i / 8) .& Z.lnot (1 << (i mod 8)))))) (i + 1).
Proof.
  intros Hwf Hi. inversion Hwf as [? ? ? Hsz Hlen Hb| |]; subst.
  set (k := i / 8). set (b := i mod 8).
  assert (0 <= b < 8) as Hbr by (apply Z.mod_pos_bound; lia).
  assert (0 <= k < 496) as Hk by (split; [apply Z.div_pos; lia|apply Z.div_lt_upper_bound; lia]).
  split; [|split; [done|]].
  { constructor; [done|by rewrite length_wr|apply bytes_wr; [done|]].
    apply clear_bit_byte; [by apply rd_byte|lia]. }
  intros j. rewrite !in_bitmap_iff.
  destruct (Z.le_gt_cases 1 j) as [Hj|]; [|lia].
  assert (0 <= (j - 1) / 8) by (apply Z.div_pos; lia).
  pose proof (Z.div_mod (j - 1) 8). pose proof (Z.div_mod i 8).
  destruct (Z.eq_dec ((j - 1) / 8) k) as [E|N].
  - rewrite E, rd_wr_eq by lia. rewrite Z.land_spec, Z.lnot_spec, testbit_one_shl by (apply Z.mod_pos_bound; lia) || lia.
    rewrite andb_true_iff, negb_true_iff, Z.eqb_neq. unfold k, b in *.
    split; [intros (_ & ? & ?)|intros ((_ & ?) & ?)]; (split; [done || split; done|]);
      [intros ->; replace (i + 1 - 1) with i in * by lia; done|split; [done|lia]].
  - rewrite rd_wr_ne by lia. split; [|tauto]. intros [_ ?]. split; [done|]. intros ->.
    apply N. unfold k. f_equal. lia.
Qed.

Lemma clear_sub_post sz ns dv l i q q' :
  bv_wf (BV sz ns dv (apSub l)) -> 0 <= i < sz -> l !! Z.to_nat (i / dv) = Some (Some q) ->
  clear_post q q' (i mod dv + 1) ->
  clear_post (BV sz ns dv (apSub l)) (set_sub (BV sz ns dv (apSub l)) (i / dv) (Some q')) (i + 1).
Proof.
  intros Hwf Hi Hlk (A & B & C).
  inversion Hwf as [| |? ? ? ? Hsz Hdv Hlen Hqs Hqw]; subst ns0 sz0 dv0 l0.
  destruct (sub_bin sz dv i) as [Hbin Hmod]; [lia|done|lia|]. assert (0 < dv) as Hd0 by lia.
  unfold set_sub. cbn [iSize nSet iDivisor bvu get_sub]. set (b := Z.to_nat (i / dv)) in *.
  assert (b < length l)%nat as Hbl by lia.
  split; [|split; [done|]].
  - constructor; [done|done|by rewrite length_insert| |]; intros k q0;
      rewrite list_lookup_insert; case_decide; try (by apply Hqs || by apply Hqw);
      intros [= <-]; [rewrite B; by apply (Hqs _ _ Hlk)|done].
  - intros j. rewrite !in_sub_iff.
    destruct (decide (b = Z.to_nat ((j - 1) / dv) /\ (b < length l)%nat)) as [[E Hl]|N].
    + rewrite <- E, list_lookup_insert, decide_True, Hlk by done. split.
      * intros (Hj & q0 & [= <-] & Hin). apply C in Hin as [Hin Hne]. split; [eauto|].
        intros ->. apply Hne. f_equal. f_equal. lia.
      * intros [(Hj & q0 & [= <-] & Hin) Hne]. split; [done|]. exists q'. split; [done|]. apply C.
        split; [done|]. intros Em. apply Hne, (bin_inj dv); [lia|lia|lia| |];
          replace (i + 1 - 1) with i by lia; done.
    + rewrite list_lookup_insert, decide_False by done. split; [|tauto]. intros Hj. split; [done|].
      intros ->. apply N. split; [|done]. unfold b. do 2 f_equal. lia.
Qed.

Lemma clear_loop_spec p : bv_wf p -> forall n i,
  iSize p <= 3968 * 62 ^ Z.of_nat n -> 0 <= i < iSize p ->
  clear_post p (bitvecClear_loop (S n) p i) (i + 1).
Proof.
  induction 1 as [sz ns l Hsz Hlen Hb|sz ns l Hsz Hw Hns Hmx|sz ns dv l Hsz Hdv Hlen Hqs Hqw IH];
    intros n i Hn Hi; cbn [iSize] in *; cbn [bitvecClear_loop iDivisor iSize bvu nSet].
  - change (0 =? 0) with true. cbn [negb]. destruct bv_consts as (-> & _).
    rewrite (proj2 (Z.leb_le sz _)) by lia. cbn [get_bitmap]. rewrite low3. change BITVEC_SZELEM with 8.
    by apply clear_bitmap_case; [constructor|].
  - change (0 =? 0) with true. cbn [negb]. destruct bv_consts as (-> & HN & _).
    rewrite (proj2 (Z.leb_gt sz _)) by lia. cbn [get_hash]. rewrite HN.
    destruct (hash_wf_empty sz) as (Ew & En & Eno).
    pose proof (clear_fold sz (i + 1) l (hash_wf_vals _ _ Hw) (hash_wf_uniq _ _ Hw) 0
      (replicate 124 0) Ew (eq_sym En)) as HF. rewrite En in HF.
    specialize (HF ltac:(lia) (fun v _ => Eno v)). change (Z.to_nat 124) with 124%nat.
    destruct (fold_left _ l _) as [ns' l']. destruct HF as (A & B & C & D).
    split; [by apply wf_hash|split; [done|]]. intros j. rewrite !in_hash_iff, D, (hash_in_elem l) by apply Hw.
    split; [intros [Hj|?]; [by apply Eno in Hj|tauto]|tauto].
  - destruct (div_level sz n) as (m & -> & Hd & Hm); [lia|done|]. rewrite <- Hdv in *.
    rewrite (proj2 (Z.eqb_neq dv 0)) by lia. cbn [negb].
    destruct (sub_bin sz dv i) as [Hbin Hmod]; [lia|done|lia|].
    pose proof (sub_at_lookup l (i / dv) Hlen Hbin) as Hlk.
    assert (bv_wf (BV sz ns dv (apSub l))) as Hwf by (constructor; done).
    destruct (sub_at (apSub l) (i / dv)) as [q|] eqn:Eq.
    + destruct (IH _ _ Hlk m (i mod dv)) as (A & B & C); [rewrite (Hqs _ _ Hlk); lia|rewrite (Hqs _ _ Hlk); lia|].
      by apply (clear_sub_post sz ns dv l i q).
    + split; [done|split; [done|]]. intros j. split; [|tauto]. intros Hj. split; [done|]. intros ->.
      apply in_sub_iff in Hj as (_ & q & Hl & _). replace (i + 1 - 1) with i in Hl by lia. by rewrite Hlk in Hl.
Qed.

(** * The bitmap as a set of page numbers *)

Lemma top_level p : bv_wf p -> 0 <= iSize p < 2 ^ 32 /\ iSize p <= 3968 * 62 ^ Z.of_nat 5.
Proof.
  intros Hwf. assert (0 <= iSize p < 2 ^ 32) as H; [inversion Hwf; subst; cbn [iSize]; lia|].
  split; [done|]. assert (2 ^ 32 <= 3968 * 62 ^ Z.of_nat 5) by (vm_compute; discriminate). lia.
Qed.

(** The members that [sqlite3BitvecTest] can report. *)
Definition bv_elem (p : Bitvec) (i : Z) : Prop := 1 <= i <= iSize p /\ bv_in p i.

Lemma test_elem p i :
  bv_wf p -> 0 <= i ->
  (sqlite3BitvecTest (Some p) i = 1 /\ bv_elem p i) \/ (sqlite3BitvecTest (Some p) i = 0 /\ ~ bv_elem p i).
Proof.
  intros Hwf Hi0. destruct (top_level p Hwf) as [_ Hl]. cbn [sqlite3BitvecTest]. unfold bv_elem.
  destruct (Z.ltb_spec (iSize p) i); cbn [orb]; [right; split; [done|lia]|].
  destruct (Z.eqb_spec i 0) as [->|]; [right; split; [done|lia]|].
  destruct (test_loop_spec p Hwf 5 (i - 1) Hl) as [[Ht Hin]|[Ht Hin]]; [lia|left|right];
    replace (i - 1 + 1) with i in Hin by lia; (split; [exact Ht|]).
  - split; [lia|done].
  - by intros [_ ?].
Qed.

(** The requests a client makes of a page set, and the set they denote. *)
Inductive bv_op := OpSet (i : Z) | OpClear (i : Z).

Definition op_arg (o : bv_op) : Z := match o with OpSet i | OpClear i => i end.

Definition bv_step (alloc : nat -> bool) (st : Z * option Bitvec * nat) (o : bv_op) : Z * option Bitvec * nat :=
  let '(rc, p, n) := st in
  match o with
  | OpSet i => let '(rc', p, n) := sqlite3BitvecSet alloc p i n in (rc .| rc', p, n)
  | OpClear i => (rc, sqlite3BitvecClear p i, n)
  end.

Definition spec_step (s : gset Z) (o : bv_op) : gset Z :=
  match o with OpSet i => {[i]} ∪ s | OpClear i => s ∖ {[i]} end.

Lemma set_some alloc p i n :
  bv_wf p -> 1 <= i <= iSize p ->
  exists rc p' n', sqlite3BitvecSet alloc (Some p) i n = (rc, Some p', n') /\ set_post alloc p i (rc, p', n').
Proof.
  intros Hwf Hi. destruct (top_level p Hwf) as [_ Hl]. cbn [sqlite3BitvecSet].
  pose proof (set_ok_all alloc 5 p i bv_set_fuel n Hwf Hl Hi ltac:(unfold bv_set_fuel; lia)) as HP.
  destruct (bitvecSet alloc bv_set_fuel p i n) as [[rc p'] n']. by eexists _, _, _.
Qed.

Lemma clear_some p i :
  bv_wf p -> 1 <= i <= iSize p ->
  exists p', sqlite3BitvecClear (Some p) i = Some p' /\ clear_post p p' i.
Proof.
  intros Hwf Hi. destruct (top_level p Hwf) as [_ Hl]. cbn [sqlite3BitvecClear]. eexists. split; [done|].
  replace i with (i - 1 + 1) at 2 by lia. apply clear_loop_spec; [done|done|lia].
Qed.

(** After an operation sequence: the object is well formed, holds at most what
    the set holds, and all of it when no operation reported an error. *)
Definition bv_sim (alloc : nat -> bool) (sz : Z) (st : Z * option Bitvec * nat) (s : gset Z) : Prop :=
  let '(rc, p, _) := st in
  exists p0, p = Some p0 /\ bv_wf p0 /\ iSize p0 = sz /\ rc_ok alloc rc /\
    (forall j, bv_in p0 j -> j ∈ s) /\ (rc = SQLITE_OK -> forall j, j ∈ s -> bv_in p0 j).

Lemma bv_sim_step alloc sz st s o :
  bv_sim alloc sz st s -> 1 <= op_arg o <= sz -> bv_sim alloc sz (bv_step alloc st o) (spec_step s o).
Proof.
  destruct st as [[rc p] n]. intros (p0 & -> & Hwf & Hsz & Hrc & Hsub & Hsup) Ho.
  destruct o as [i|i]; cbn [op_arg] in Ho; unfold bv_step, spec_step.
  - destruct (set_some alloc p0 i n Hwf) as (rc' & p' & n' & -> & A & B & C & D & E); [lia|].
    exists p'. split; [done|]. split; [done|]. split; [congruence|]. split.
    { destruct Hrc as [->|[-> ?]], C as [->|[-> ?]]; [by left|by right|by right|by right]. }
    split.
    + intros j Hj. destruct (D j Hj) as [->|?]; [set_solver|]. apply elem_of_union_r. auto.
    + intros [-> ->]%Z.lor_eq_0_iff j [Hj|Hj]%elem_of_union; apply E; [done|set_solver|done|auto].
  - destruct (clear_some p0 i Hwf) as (p' & -> & A & B & C); [lia|].
    exists p'. split; [done|]. split; [done|]. split; [congruence|]. split; [done|]. split.
    + intros j. rewrite C. intros [? ?]. set_solver.
    + intros -> j Hj. rewrite C. split; [apply Hsup; [done|set_solver]|set_solver].
Qed.

Lemma bv_sim_create alloc sz :
  0 <= sz < 2 ^ 32 -> bv_sim alloc sz (SQLITE_OK, Some (bitvec_new sz), 1%nat) ∅.
Proof.
  intros Hsz. destruct (new_wf sz Hsz) as (A & B & C). exists (bitvec_new sz).
  split; [done|]. split; [done|]. split; [done|]. split; [by left|]. split; [intros j Hj; by apply C in Hj|set_solver].
Qed.

Lemma bv_sim_run alloc sz ops : Forall (fun o => 1 <= op_arg o <= sz) ops ->
  forall st s, bv_sim alloc sz st s ->
  bv_sim alloc sz (fold_left (bv_step alloc) ops st) (fold_left spec_step ops s).
Proof.
  induction 1 as [|o ops Ho Hops IH]; intros st s Hs; [done|]. cbn [fold_left]. by apply IH, bv_sim_step.
Qed.

(** C19. A bitmap created for [sz] pages and put through any sequence of
    [sqlite3BitvecSet] and [sqlite3BitvecClear] calls on page numbers in range
    refines a set of page numbers: the final object answers [sqlite3BitvecTest]
    with 0 or 1, never reports a page that is not in the set, reports all the pages of
    the set when the calls returned SQLITE_OK, and the calls do return SQLITE_OK
    when memory does not run out. This covers the flat, hashed and split layouts and the
    transitions between them. *)
Theorem bitvec_refines_set alloc sz ops (Hsz : 0 <= sz < 2 ^ 32)
    (Hops : Forall (fun o => 1 <= op_arg o <= sz) ops) :
  let '(rc, p, _) := fold_left (bv_step alloc) ops (SQLITE_OK, Some (bitvec_new sz), 1%nat) in
  let s := fold_left spec_step ops (∅ : gset Z) in
  (rc = SQLITE_OK \/ rc = SQLITE_NOMEM) /\
  ((forall k, alloc k = true) -> rc = SQLITE_OK) /\
  (forall j, 0 <= j -> sqlite3BitvecTest p j = 0 \/ sqlite3BitvecTest p j = 1) /\
  (forall j, 0 <= j -> sqlite3BitvecTest p j = 1 -> j ∈ s) /\
  (rc = SQLITE_OK -> forall j, 0 <= j -> sqlite3BitvecTest p j = if decide (j ∈ s) then 1 else 0).
Proof.
  pose proof (bv_sim_run alloc sz ops Hops _ _ (bv_sim_create alloc sz Hsz)) as Hsim.
  assert (forall o, 1 <= op_arg o <= sz -> forall s : gset Z, (forall j, j ∈ s -> 1 <= j <= sz) ->
    forall j, j ∈ spec_step s o -> 1 <= j <= sz) as Hrange.
  { intros [i|i] Hi s Hs j; cbn [spec_step op_arg] in *; [|set_solver].
    intros [->%elem_of_singleton|?]%elem_of_union; auto. }
  assert (forall j, j ∈ fold_left spec_step ops (∅ : gset Z) -> 1 <= j <= sz) as Hs.
  { assert (forall j, j ∈ (∅ : gset Z) -> 1 <= j <= sz) as H0 by set_solver.
    revert H0. generalize (∅ : gset Z). clear Hsim.
    induction Hops as [|o ops Ho Hops IH]; intros s H0; [done|]. cbn [fold_left]. eapply IH, Hrange; eauto. }
  destruct (fold_left (bv_step alloc) ops _) as [[rc p] n].
  destruct Hsim as (p0 & -> & Hwf & Hiz & Hrc & Hsub & Hsup).
  split; [destruct Hrc as [?|[? _]]; tauto|]. split.
  { intros Hal. destruct Hrc as [?|[_ [k Hk]]]; [done|]. by rewrite Hal in Hk. }
  split; [|split].
  - intros j Hj. destruct (test_elem p0 j Hwf Hj) as [[? _]|[? _]]; tauto.
  - intros j Hj Ht. destruct (test_elem p0 j Hwf Hj) as [[_ [_ ?]]|[E _]]; [auto|congruence].
  - intros Hok j Hj. destruct (test_elem p0 j Hwf Hj) as [[-> [_ Hin]]|[-> Hn]].
    + by rewrite decide_True by auto.
    + rewrite decide_False; [done|]. intros Hin. apply Hn. split; [rewrite Hiz; auto|auto].
Qed.

(** A run that crosses from the hashed to the split layout. *)
Lemma bitvec_refines_set_witness :
  let ops := map (fun k => OpSet (Z.of_nat k * 7 + 1)) (seq 0 80) in
  let '(rc, p, _) := fold_left (bv_step (fun _ => true)) ops (SQLITE_OK, Some (bitvec_new 5000), 1%nat) in
  sqlite3BitvecTest p 8 = 1 /\ sqlite3BitvecTest p 9 = 0 /\ rc = SQLITE_OK.
Proof.
  intros ops.
  assert (Forall (fun o => 1 <= op_arg o <= 5000) ops) as Hops.
  { apply Forall_forall. intros o Ho. apply list_elem_of_fmap in Ho as (k & -> & Hk).
    apply elem_of_seq in Hk. cbn [op_arg]. lia. }
  pose proof (bitvec_refines_set (fun _ => true) 5000 ops ltac:(lia) Hops) as H.
  destruct (fold_left (bv_step _) ops _) as [[rc p] n]. destruct H as (_ & Hok & _ & _ & Ht).
  specialize (Hok (fun _ => eq_refl)). specialize (Ht Hok). split; [|split; [|done]].
  - rewrite (Ht 8) by lia. vm_compute. reflexivity.
  - rewrite (Ht 9) by lia. vm_compute. reflexivity.
Defined.
