(* ===== verification/Dll.v ===== *)
(** Doubly linked lists over an arbitrary store.

    hash.c and mem5.c both thread their elements on doubly linked lists, one through
    heap pointers with NULL as the end marker and the other through
    pool indices with -1. The lemmas here see the store only through two functions,
    the [next] and [prev] fields of every cell, and describe a list by the sequence of its
    cells. *)
From S2P Require Import Prelude.

Section Dll.
Context (null : Z).
Implicit Types (nx pv : Z -> Z) (l : list Z) (p n a b : Z).

Definition hd_or (n : Z) (l : list Z) : Z := match l with [] => n | a :: _ => a end.
Fixpoint last_or (p : Z) (l : list Z) : Z := match l with [] => p | a :: l => last_or a l end.

(** The segment [l] entered from [p] and left to [n]. *)
Fixpoint dlseg nx pv p l n : Prop :=
  match l with
  | [] => True
  | a :: l => nx a = hd_or n l /\ pv a = p /\ dlseg nx pv a l n
  end.

(** A complete list. *)
Record dll nx pv (l : list Z) : Prop := {
  dll_seg : dlseg nx pv null l null;
  dll_nodup : NoDup l;
  dll_null : null ∉ l }.

Lemma hd_or_app n l1 l2 : hd_or n (l1 ++ l2) = hd_or (hd_or n l2) l1.
Proof. by destruct l1. Qed.
Lemma last_or_app p l1 l2 : last_or p (l1 ++ l2) = last_or (last_or p l1) l2.
Proof. revert p. induction l1 as [|a l1 IH]; intros p; [done|apply IH]. Qed.
Lemma hd_or_elem n l : hd_or n l = n \/ hd_or n l ∈ l.
Proof. destruct l; [by left|right; by left]. Qed.
Lemma last_or_elem p l : last_or p l = p \/ last_or p l ∈ l.
Proof.
  revert p. induction l as [|a l IH]; intros p; [by left|]. right. cbn [last_or].
  destruct (IH a) as [->|]; [by left|by right].
Qed.
Lemma last_or_in p a l : last_or p (a :: l) ∈ a :: l.
Proof. cbn [last_or]. destruct (last_or_elem a l) as [->|]; [by left|by right]. Qed.

Lemma dlseg_app nx pv p l1 l2 n :
  dlseg nx pv p (l1 ++ l2) n <-> dlseg nx pv p l1 (hd_or n l2) /\ dlseg nx pv (last_or p l1) l2 n.
Proof.
  revert p. induction l1 as [|a l1 IH]; intros p; cbn; [tauto|]. rewrite IH, hd_or_app. tauto.
Qed.

Lemma dlseg_next nx pv nx' pv' p l n n' :
  NoDup l -> dlseg nx pv p l n ->
  (forall b, b ∈ l -> pv' b = pv b) ->
  (forall b, b ∈ l -> nx' b = if decide (b = last_or p l) then n' else nx b) ->
  dlseg nx' pv' p l n'.
Proof.
  revert p. induction l as [|a l IH]; intros p Hnd Hs Hp Hn; [done|].
  apply NoDup_cons in Hnd as [Hni Hnd]. destruct Hs as (E1 & E2 & Hs). cbn [dlseg].
  split; [|split; [rewrite Hp; [done|by left]|]].
  - rewrite Hn by by left. destruct l as [|b l]; cbn [last_or hd_or] in *.
    + by rewrite decide_True.
    + rewrite decide_False; [done|]. intros E. apply Hni. rewrite E. apply (last_or_in a).
  - apply IH; [done|done|intros b Hb; apply Hp; by right|]. intros b Hb. rewrite Hn by by right.
    cbn [last_or]. done.
Qed.

Lemma dlseg_prev nx pv nx' pv' p p' l n :
  NoDup l -> dlseg nx pv p l n ->
  (forall b, b ∈ l -> nx' b = nx b) ->
  (forall b, b ∈ l -> pv' b = if decide (b = hd_or n l) then p' else pv b) ->
  dlseg nx' pv' p' l n.
Proof.
  destruct l as [|a l]; intros Hnd Hs Hn Hp; [done|].
  apply NoDup_cons in Hnd as [Hni Hnd]. destruct Hs as (E1 & E2 & Hs). cbn [dlseg].
  split; [by rewrite Hn by by left|]. split; [rewrite Hp by (by left); by rewrite decide_True|].
  apply (dlseg_next nx pv _ _ a l n n); [done|done| |].
  - intros b Hb. rewrite Hp, decide_False; [done| |by right]. cbn. by intros ->.
  - intros b Hb. rewrite Hn by by right. case_decide as Ed; [|done]. subst b.
    apply list_elem_of_split in Hb as (l1 & l2 & El). clear -Hs Hnd El.
    assert (forall a0 l0, dlseg nx pv a0 l0 n -> l0 <> [] -> nx (last_or a0 l0) = n) as H.
    { intros a0 l0. revert a0. induction l0 as [|c l0 IH]; intros a0 Hs0 Hne; [done|].
      destruct Hs0 as (F1 & _ & F3). destruct l0; [done|]. cbn [last_or]. by apply (IH c). }
    apply H; [done|]. intros E. rewrite E in El. by apply app_cons_not_nil in El.
Qed.

Lemma dll_mid nx pv l1 a l2 :
  dll nx pv (l1 ++ a :: l2) -> nx a = hd_or null l2 /\ pv a = last_or null l1.
Proof. intros [Hs _ _]. apply dlseg_app in Hs as (_ & ? & ? & _). done. Qed.

Lemma dll_unlink nx pv nx' pv' l1 a l2 :
  dll nx pv (l1 ++ a :: l2) ->
  (forall b, b ∈ l1 ++ l2 -> nx' b = if decide (b = last_or null l1) then hd_or null l2 else nx b) ->
  (forall b, b ∈ l1 ++ l2 -> pv' b = if decide (b = hd_or null l2) then last_or null l1 else pv b) ->
  dll nx' pv' (l1 ++ l2).
Proof.
  intros [Hs Hnd Hnn] Hn Hp. apply dlseg_app in Hs as (S1 & _ & _ & S2).
  apply NoDup_app in Hnd as (N1 & N12 & N2). apply NoDup_cons in N2 as [Na N2].
  assert (null ∉ l1 /\ null ∉ l2) as [Z1 Z2] by set_solver.
  split; [|apply NoDup_app; split; [done|split; [|done]]; set_solver|set_solver].
  apply dlseg_app. split.
  - apply (dlseg_next nx pv _ _ _ _ a); [done|done| |].
    + intros b Hb. rewrite Hp by set_solver. rewrite decide_False; [done|]. intros ->.
      destruct (hd_or_elem null l2) as [E|E]; [rewrite E in Hb; done|]. set_solver.
    + intros b Hb. rewrite Hn by set_solver. done.
  - apply (dlseg_prev nx pv _ _ a); [done|done| |].
    + intros b Hb. rewrite Hn by set_solver. rewrite decide_False; [done|]. intros ->.
      destruct (last_or_elem null l1) as [E|E]; [rewrite E in Hb; done|]. set_solver.
    + intros b Hb. rewrite Hp by set_solver. done.
Qed.

Lemma dll_insert nx pv nx' pv' l1 a l2 :
  dll nx pv (l1 ++ l2) -> a ∉ l1 ++ l2 -> a <> null ->
  nx' a = hd_or null l2 -> pv' a = last_or null l1 ->
  (forall b, b ∈ l1 ++ l2 -> nx' b = if decide (b = last_or null l1) then a else nx b) ->
  (forall b, b ∈ l1 ++ l2 -> pv' b = if decide (b = hd_or null l2) then a else pv b) ->
  dll nx' pv' (l1 ++ a :: l2).
Proof.
  intros [Hs Hnd Hnn] Hni Ha0 Ea Eb Hn Hp. apply dlseg_app in Hs as (S1 & S2).
  apply NoDup_app in Hnd as (N1 & N12 & N2).
  assert (null ∉ l1 /\ null ∉ l2) as [Z1 Z2] by set_solver.
  split; [|apply NoDup_app; split; [done|split; [|constructor]]; set_solver|set_solver].
  apply dlseg_app. split; [|split; [done|split; [done|]]].
  - apply (dlseg_next nx pv _ _ _ _ (hd_or null l2)); [done|done| |].
    + intros b Hb. rewrite Hp by set_solver. rewrite decide_False; [done|]. intros ->.
      destruct (hd_or_elem null l2) as [E|E]; [rewrite E in Hb; done|]. set_solver.
    + intros b Hb. rewrite Hn by set_solver. done.
  - apply (dlseg_prev nx pv _ _ (last_or null l1)); [done|done| |].
    + intros b Hb. rewrite Hn by set_solver. rewrite decide_False; [done|]. intros ->.
      destruct (last_or_elem null l1) as [E|E]; [rewrite E in Hb; done|]. set_solver.
    + intros b Hb. rewrite Hp by set_solver. done.
Qed.

Lemma dll_ext nx pv nx' pv' l :
  dll nx pv l -> (forall b, b ∈ l -> nx' b = nx b /\ pv' b = pv b) -> dll nx' pv' l.
Proof.
  intros [Hs Hnd Hnn] He. split; [|done|done]. clear Hnn Hnd. revert Hs. generalize null at 1 3. 
  induction l as [|a l IH]; intros p Hs; [done|]. destruct Hs as (E1 & E2 & Hs).
  cbn [dlseg]. destruct (He a) as [-> ->]; [by left|]. split; [done|]. split; [done|].
  apply IH; [|done]. intros b Hb. apply He. by right.
Qed.

Lemma dll_nil nx pv : dll nx pv [].
Proof. split; [done|constructor|set_solver]. Qed.

End Dll.

#[global] Arguments dll_seg {_ _ _ _}.
#[global] Arguments dll_nodup {_ _ _ _}.
#[global] Arguments dll_null {_ _ _ _}.
