(* ===== verification/Mem.v ===== *)
(** Memory: the allocator interface and the monad of pointer programs.

    [MemMethods] is the [sqlite3_mem_methods] table that sqlite3.h declares: the
    methods a low-level allocator supplies and the promises the rest of the
    library relies on. An allocator state is described by the map [L] from the address of each
    outstanding allocation to its usable size. mem5.c is an instance (Mem5.v);
    malloc.c and hash.c are clients (Malloc.v, Hash.v). *)
From S2P Require Import Prelude.
Local Open Scope Z_scope.

Class MemMethods (M : Type) := {
  xMalloc : M -> Z -> Z * M;
  xFree : M -> Z -> M;
  xRealloc : M -> Z -> Z -> Z * M;
  xSize : M -> Z -> Z;
  xRoundup : M -> Z -> Z;
  (** [m] is a valid state whose outstanding allocations are [L]. *)
  mm_inv : M -> gmap Z Z -> Prop;
  mm_addr m L p sz : mm_inv m L -> L !! p = Some sz -> 0 < p;
  mm_pos m L p sz : mm_inv m L -> L !! p = Some sz -> 0 < sz < 2 ^ 31;
  mm_disjoint m L p sp q sq :
    mm_inv m L -> L !! p = Some sp -> L !! q = Some sq -> p <> q -> p + sp <= q \/ q + sq <= p;
  mm_malloc m L n : mm_inv m L ->
    let '(p, m') := xMalloc m n in
    (p = 0 /\ mm_inv m' L) \/
    (p <> 0 /\ 0 < n /\ L !! p = None /\ exists sz, n <= sz /\ mm_inv m' (<[p := sz]> L));
  mm_free m L p sz : mm_inv m L -> L !! p = Some sz -> mm_inv (xFree m p) (delete p L);
  mm_realloc m L p sz n : mm_inv m L -> L !! p = Some sz -> 0 <= n ->
    let '(q, m') := xRealloc m p n in
    (q = 0 /\ mm_inv m' L) \/
    (q <> 0 /\ 0 < n /\ (q = p \/ L !! q = None) /\
     exists sz', n <= sz' /\ mm_inv m' (<[q := sz']> (delete p L)));
  mm_size m L p sz : mm_inv m L -> L !! p = Some sz -> xSize m p = sz;
  mm_roundup m L n : mm_inv m L -> 0 < n -> xRoundup m n = 0 \/ n <= xRoundup m n }.

Lemma mm_null `{MemMethods M} (m : M) L : mm_inv m L -> L !! 0 = None.
Proof. intros Hm. destruct (L !! 0) eqn:E; [|done]. by apply (mm_addr _ _ _ _ Hm) in E. Qed.

(** * Pointer programs

    A computation over a state [S] that may go wrong: [None] is undefined
    behaviour (a dereference of a pointer that is not live) or exhausted fuel. *)
Definition prog (S A : Type) : Type := S -> option (A * S).

#[export] Instance prog_ret S : MRet (prog S) := fun A x s => Some (x, s).
#[export] Instance prog_bind S : MBind (prog S) := fun A B k m s =>
  match m s with Some (x, s') => k x s' | None => None end.

Definition pget {S} : prog S S := fun s => Some (s, s).
Definition pput {S} (s : S) : prog S unit := fun _ => Some (tt, s).
Definition pmod {S} (f : S -> S) : prog S unit := fun s => Some (tt, f s).
Definition pfail {S A} : prog S A := fun _ => None.
Definition pwhen {S} (b : bool) (m : prog S unit) : prog S unit := if b then m else mret tt.

Lemma bind_some {S A B} (m : prog S A) (k : A -> prog S B) s x s' :
  m s = Some (x, s') -> (m ≫= k) s = k x s'.
Proof. intros E. unfold mbind, prog_bind. by rewrite E. Qed.

Lemma bind_ret {S A B} (x : A) (k : A -> prog S B) s : (mret x ≫= k) s = k x s.
Proof. done. Qed.
Lemma bind_get {S B} (k : S -> prog S B) s : (pget ≫= k) s = k s s.
Proof. done. Qed.
Lemma bind_put {S B} (k : unit -> prog S B) s s' : (pput s' ≫= k) s = k tt s'.
Proof. done. Qed.
Lemma bind_mod {S B} (f : S -> S) (k : unit -> prog S B) s : (pmod f ≫= k) s = k tt (f s).
Proof. done. Qed.

Create Rewrite HintDb prog.
#[export] Hint Rewrite @bind_ret @bind_get @bind_put @bind_mod : prog.
