(* ===== verification/Mem5.v ===== *)
(** The power-of-two buddy allocator of mem5.c (memsys5).

    The pool is [nBlock] atoms of [szAtom] bytes at address [zPool]. [aCtrl] has one byte
    per atom; the byte of the first atom of a block holds the block's log2 size
    and its CTRL_FREE flag. Free blocks of each size are threaded on a doubly
    linked list through the first bytes of the free memory itself (MEM5LINK), modelled by
    the two arrays [lnext] and [lprev]. *)
From S2P Require Import Prelude Dll Mem.
Local Open Scope Z_scope.
Local Open Scope c_scope.

Definition LOGMAX : Z := 30.
Definition CTRL_LOGSIZE : Z := 0x1f.
Definition CTRL_FREE : Z := 0x20.

Record Mem5Stats := {
  nAlloc : Z; totalAlloc : Z; totalExcess : Z;
  currentOut : Z; currentCount : Z; maxOut : Z; maxCount : Z; maxRequest : Z }.

Record Mem5Global := {
  szAtom : Z; nBlock : Z; zPool : Z;
  stats : Mem5Stats;
  aiFreelist : list Z;
  aCtrl : list Z;
  lnext : list Z;
  lprev : list Z }.

Definition set_free m v := {| szAtom := szAtom m; nBlock := nBlock m; zPool := zPool m; stats := stats m;
  aiFreelist := v; aCtrl := aCtrl m; lnext := lnext m; lprev := lprev m |}.
Definition set_ctrl m v := {| szAtom := szAtom m; nBlock := nBlock m; zPool := zPool m; stats := stats m;
  aiFreelist := aiFreelist m; aCtrl := v; lnext := lnext m; lprev := lprev m |}.
Definition set_next m v := {| szAtom := szAtom m; nBlock := nBlock m; zPool := zPool m; stats := stats m;
  aiFreelist := aiFreelist m; aCtrl := aCtrl m; lnext := v; lprev := lprev m |}.
Definition set_prev m v := {| szAtom := szAtom m; nBlock := nBlock m; zPool := zPool m; stats := stats m;
  aiFreelist := aiFreelist m; aCtrl := aCtrl m; lnext := lnext m; lprev := v |}.
Definition set_stats m v := {| szAtom := szAtom m; nBlock := nBlock m; zPool := zPool m; stats := v;
  aiFreelist := aiFreelist m; aCtrl := aCtrl m; lnext := lnext m; lprev := lprev m |}.

(** [mem5.aCtrl[i] = v] *)
Definition ctrl_wr m i v := set_ctrl m (wr (aCtrl m) i v).

Definition memsys5Unlink (m : Mem5Global) (i iLogsize : Z) : Mem5Global :=
  let next := rd (lnext m) i in
  let prev := rd (lprev m) i in
  let m := if prev <? 0 then set_free m (wr (aiFreelist m) iLogsize next)
           else set_next m (wr (lnext m) prev next) in
  if 0 <=? next then set_prev m (wr (lprev m) next prev) else m.

Definition memsys5Link (m : Mem5Global) (i iLogsize : Z) : Mem5Global :=
  let x := rd (aiFreelist m) iLogsize in
  let m := set_next m (wr (lnext m) i x) in
  let m := set_prev m (wr (lprev m) i (-1)) in
  let m := if 0 <=? x then set_prev m (wr (lprev m) x i) else m in
  set_free m (wr (aiFreelist m) iLogsize i).

Definition memsys5Size (m : Mem5Global) (p : Z) : Z :=
  if p =? 0 then 0
  else
    let i := (p - zPool m) / szAtom m in
    szAtom m * (1 << (rd (aCtrl m) i .& CTRL_LOGSIZE)).

(** [for(iFullSz=mem5.szAtom, iLogsize=0; iFullSz<nByte; iFullSz *= 2, iLogsize++){}]:
    at most 31 doublings fit below 2^31. *)
Fixpoint round_loop (fuel : nat) (iFullSz iLogsize nByte : Z) : Z * Z :=
  match fuel with
  | O => (iFullSz, iLogsize)
  | S fuel => if iFullSz <? nByte then round_loop fuel (iFullSz * 2) (iLogsize + 1) nByte
              else (iFullSz, iLogsize)
  end.

(** [for(iBin=iLogsize; mem5.aiFreelist[iBin]<0 && iBin<=LOGMAX; iBin++){}]. The first test
    reads the array before the bound is checked; [oob] stands for the word found
    past its end. *)
Fixpoint find_bin (fuel : nat) (free : list Z) (oob iBin : Z) : Z :=
  match fuel with
  | O => iBin
  | S fuel =>
      let head := if iBin <=? LOGMAX then rd free iBin else oob in
      if (head <? 0) && (iBin <=? LOGMAX) then find_bin fuel free oob (iBin + 1) else iBin
  end.

(** [while( iBin>iLogsize ){ ... }] *)
Fixpoint split_loop (fuel : nat) (m : Mem5Global) (i iBin iLogsize : Z) : Mem5Global :=
  match fuel with
  | O => m
  | S fuel =>
      if iLogsize <? iBin then
        let iBin := iBin - 1 in
        let newSize := 1 << iBin in
        let m := ctrl_wr m (i + newSize) (CTRL_FREE .| iBin) in
        let m := memsys5Link m (i + newSize) iBin in
        split_loop fuel m i iBin iLogsize
      else m
  end.

Definition stats_request (s : Mem5Stats) (nByte : Z) : Mem5Stats :=
  if maxRequest s <? u32 nByte then
    {| nAlloc := nAlloc s; totalAlloc := totalAlloc s; totalExcess := totalExcess s;
       currentOut := currentOut s; currentCount := currentCount s; maxOut := maxOut s;
       maxCount := maxCount s; maxRequest := u32 nByte |}
  else s.

Definition stats_alloc (s : Mem5Stats) (iFullSz nByte : Z) : Mem5Stats :=
  let cc := u32 (currentCount s + 1) in
  let co := u32 (currentOut s + iFullSz) in
  {| nAlloc := u64 (nAlloc s + 1); totalAlloc := u64 (totalAlloc s + iFullSz);
     totalExcess := u64 (totalExcess s + (iFullSz - nByte));
     currentOut := co; currentCount := cc;
     maxOut := if maxOut s <? co then co else maxOut s;
     maxCount := if maxCount s <? cc then cc else maxCount s;
     maxRequest := maxRequest s |}.

Definition stats_free (s : Mem5Stats) (nByte : Z) : Mem5Stats :=
  {| nAlloc := nAlloc s; totalAlloc := totalAlloc s; totalExcess := totalExcess s;
     currentOut := u32 (currentOut s - nByte); currentCount := u32 (currentCount s - 1);
     maxOut := maxOut s; maxCount := maxCount s; maxRequest := maxRequest s |}.

Definition memsys5MallocUnsafe (oob : Z) (m : Mem5Global) (nByte : Z) : Z * Mem5Global :=
  let m := set_stats m (stats_request (stats m) nByte) in
  if 0x40000000 <? nByte then (0, m)
  else
    let '(iFullSz, iLogsize) := round_loop 31 (szAtom m) 0 nByte in
    let iBin := find_bin 32 (aiFreelist m) oob iLogsize in
    if LOGMAX <? iBin then (0, m)
    else
      let i := rd (aiFreelist m) iBin in
      let m := memsys5Unlink m i iBin in
      let m := split_loop 31 m i iBin iLogsize in
      let m := ctrl_wr m i iLogsize in
      let m := set_stats m (stats_alloc (stats m) iFullSz nByte) in
      (zPool m + i * szAtom m, m).

(** [while( ALWAYS(iLogsize<LOGMAX) ){ ... }], ending with the values of [iBlock] and [iLogsize]. *)
Fixpoint coalesce_loop (fuel : nat) (m : Mem5Global) (iBlock iLogsize size : Z) : Mem5Global * Z * Z :=
  match fuel with
  | O => (m, iBlock, iLogsize)
  | S fuel =>
      if iLogsize <? LOGMAX then
        let iBuddy := if negb ((iBlock >> iLogsize) .& 1 =? 0) then iBlock - size else iBlock + size in
        if nBlock m <? iBuddy + (1 << iLogsize) then (m, iBlock, iLogsize)
        else if negb (rd (aCtrl m) iBuddy =? CTRL_FREE .| iLogsize) then (m, iBlock, iLogsize)
        else
          let m := memsys5Unlink m iBuddy iLogsize in
          let iLogsize := iLogsize + 1 in
          if iBuddy <? iBlock then
            let m := ctrl_wr m iBuddy (CTRL_FREE .| iLogsize) in
            let m := ctrl_wr m iBlock 0 in
            coalesce_loop fuel m iBuddy iLogsize (size * 2)
          else
            let m := ctrl_wr m iBlock (CTRL_FREE .| iLogsize) in
            let m := ctrl_wr m iBuddy 0 in
            coalesce_loop fuel m iBlock iLogsize (size * 2)
      else (m, iBlock, iLogsize)
  end.

Definition memsys5FreeUnsafe (m : Mem5Global) (pOld : Z) : Mem5Global :=
  let iBlock := (pOld - zPool m) / szAtom m in
  let iLogsize := rd (aCtrl m) iBlock .& CTRL_LOGSIZE in
  let size := 1 << iLogsize in
  let m := ctrl_wr m iBlock (rd (aCtrl m) iBlock .| CTRL_FREE) in
  let m := ctrl_wr m (iBlock + size - 1) (rd (aCtrl m) (iBlock + size - 1) .| CTRL_FREE) in
  let m := set_stats m (stats_free (stats m) (u32 (size * szAtom m))) in
  let m := ctrl_wr m iBlock (CTRL_FREE .| iLogsize) in
  let '(m, iBlock, iLogsize) := coalesce_loop 31 m iBlock iLogsize size in
  memsys5Link m iBlock iLogsize.

Definition memsys5Malloc (oob : Z) (m : Mem5Global) (nBytes : Z) : Z * Mem5Global :=
  if 0 <? nBytes then memsys5MallocUnsafe oob m nBytes else (0, m).

Definition memsys5Free (m : Mem5Global) (pPrior : Z) : Mem5Global := memsys5FreeUnsafe m pPrior.

Definition memsys5Realloc (oob : Z) (m : Mem5Global) (pPrior nBytes : Z) : Z * Mem5Global :=
  if nBytes =? 0 then (0, m)
  else
    let nOld := memsys5Size m pPrior in
    if nBytes <=? nOld then (pPrior, m)
    else
      let '(p, m) := memsys5MallocUnsafe oob m nBytes in
      if negb (p =? 0) then (p, memsys5FreeUnsafe m pPrior) else (p, m).

Definition memsys5Roundup (m : Mem5Global) (n : Z) : Z :=
  if 0x40000000 <? n then 0 else (round_loop 31 (szAtom m) 0 n).1.

Fixpoint log_loop (fuel : nat) (iLog iValue : Z) : Z :=
  match fuel with
  | O => iLog
  | S fuel => if (iLog <? 31) && ((1 << iLog) <? iValue) then log_loop fuel (iLog + 1) iValue else iLog
  end.
Definition memsys5Log (iValue : Z) : Z := log_loop 31 0 iValue.

(** [while( (int)sizeof(Mem5Link)>mem5.szAtom ) mem5.szAtom = mem5.szAtom << 1;] *)
Fixpoint atom_loop (fuel : nat) (sz : Z) : Z :=
  match fuel with
  | O => sz
  | S fuel => if sz <? 8 then atom_loop fuel (sz << 1) else sz
  end.

(** [for(ii=LOGMAX; ii>=0; ii--){ ... }]; [k] is [ii + 1]. *)
Fixpoint init_loop (k : nat) (m : Mem5Global) (iOffset : Z) : Mem5Global :=
  match k with
  | O => m
  | S k =>
      let ii := Z.of_nat k in
      let nAlloc := 1 << ii in
      if iOffset + nAlloc <=? nBlock m then
        let m := ctrl_wr m iOffset (ii .| CTRL_FREE) in
        let m := memsys5Link m iOffset ii in
        init_loop k m (iOffset + nAlloc)
      else init_loop k m iOffset
  end.

(** The heap of [nByte] bytes at [zByte]; [ctrl0], [next0] and [prev0] are the bytes it happens to
    hold, and [st0] the counters of the zero-initialised [mem5] object. *)
Definition memsys5Init (mnReq nByte zByte : Z) (st0 : Mem5Stats) (ctrl0 next0 prev0 : list Z) : Mem5Global :=
  let sz := atom_loop 4 (1 << memsys5Log mnReq) in
  let m := {| szAtom := sz; nBlock := nByte / (sz + 1); zPool := zByte; stats := st0;
              aiFreelist := replicate (Z.to_nat (LOGMAX + 1)) (-1);
              aCtrl := ctrl0; lnext := next0; lprev := prev0 |} in
  init_loop (Z.to_nat (LOGMAX + 1)) m 0.

(** * The block structure *)

(** The control byte of the first atom of a block. *)
Definition ctrl (k : Z) (f : bool) : Z := if f then CTRL_FREE .| k else k.

Record geo (m : Mem5Global) : Prop := {
  geo_atom : exists s, 3 <= s <= 30 /\ szAtom m = 2 ^ s;
  geo_pool : 0 < zPool m;
  geo_nblock : 0 <= nBlock m /\ nBlock m * szAtom m < 2 ^ 31;
  geo_free : length (aiFreelist m) = 31%nat;
  geo_ctrl : Z.of_nat (length (aCtrl m)) = nBlock m;
  geo_next : Z.of_nat (length (lnext m)) = nBlock m;
  geo_prev : Z.of_nat (length (lprev m)) = nBlock m }.

(** Free list [k] is a doubly linked list of exactly the free blocks of size 2^k. *)
Definition bin_ok (m : Mem5Global) (B : gmap Z (Z * bool)) (k : Z) : Prop :=
  exists L, dll (-1) (rd (lnext m)) (rd (lprev m)) L /\
    rd (aiFreelist m) k = hd_or (-1) L /\ forall o, o ∈ L <-> B !! o = Some (k, true).

(** The first [c] atoms of the pool are tiled by the aligned blocks [B], each with its log2
    size and whether it is on a free list; the control bytes are right except in the
    blocks [X], which an operation is working on. *)
Record inv (m : Mem5Global) (B : gmap Z (Z * bool)) (X : gset Z) (c : Z) : Prop := {
  inv_geo : geo m;
  inv_top : 0 <= c <= nBlock m;
  inv_blk : forall o k f, B !! o = Some (k, f) ->
    0 <= k <= 30 /\ 0 <= o /\ (2 ^ k | o) /\ o + 2 ^ k <= c /\ (o ∉ X -> rd (aCtrl m) o = ctrl k f);
  inv_disj : forall o k f o' k' f', B !! o = Some (k, f) -> B !! o' = Some (k', f') -> o <> o' ->
    o + 2 ^ k <= o' \/ o' + 2 ^ k' <= o;
  inv_cover : forall i, 0 <= i < c -> exists o k f, B !! o = Some (k, f) /\ o <= i < o + 2 ^ k;
  inv_bin : forall k, 0 <= k <= 30 -> bin_ok m B k }.

Lemma pow2_pos k : 0 <= k -> 0 < 2 ^ k.
Proof. intros. by apply Z.pow_pos_nonneg. Qed.

Lemma inv_range m B X c o k f : inv m B X c -> B !! o = Some (k, f) -> 0 <= o < nBlock m.
Proof.
  intros Hi Hb. destruct (inv_blk _ _ _ _ Hi _ _ _ Hb) as (? & ? & _ & ? & _).
  pose proof (inv_top _ _ _ _ Hi). pose proof (pow2_pos k). lia.
Qed.

(** The fields of the links after [memsys5Unlink] and [memsys5Link]. *)
Ltac fld := cbn [szAtom nBlock zPool stats aiFreelist aCtrl lnext lprev
  set_free set_ctrl set_next set_prev set_stats].

Lemma unlink_fields m i k : geo m ->
  let next := rd (lnext m) i in let prev := rd (lprev m) i in
  -1 <= next < nBlock m -> -1 <= prev < nBlock m -> 0 <= k <= 30 ->
  geo (memsys5Unlink m i k) /\ aCtrl (memsys5Unlink m i k) = aCtrl m /\
  nBlock (memsys5Unlink m i k) = nBlock m /\
  (forall b, 0 <= b -> rd (lnext (memsys5Unlink m i k)) b = if decide (b = prev) then next else rd (lnext m) b) /\
  (forall b, 0 <= b -> rd (lprev (memsys5Unlink m i k)) b = if decide (b = next) then prev else rd (lprev m) b) /\
  (forall j, 0 <= j -> rd (aiFreelist (memsys5Unlink m i k)) j =
     if decide (prev = -1 /\ j = k) then next else rd (aiFreelist m) j).
Proof.
  intros [Ga Gp Gn Gf Gc Gx Gv] next prev Hnx Hpv Hk. unfold memsys5Unlink. fold next prev. clearbody next prev.
  assert (forall l i j v, 0 <= i < Z.of_nat (length l) -> 0 <= j ->
    rd (wr l i v) j = if decide (j = i) then v else rd l j) as Hwr.
  { intros l i' j v Hi' Hj. case_decide as E; [subst; by apply rd_wr_eq|apply rd_wr_ne; lia]. }
  split; [|split; [|split; [|split; [|split]]]].
  - destruct (prev <? 0), (0 <=? next); split; fld; rewrite ?length_wr; done.
  - destruct (prev <? 0), (0 <=? next); done.
  - destruct (prev <? 0), (0 <=? next); done.
  - intros b Hb. destruct (Z.ltb_spec prev 0), (0 <=? next); fld; try (rewrite Hwr by lia; done);
      rewrite decide_False by lia; done.
  - intros b Hb. destruct (prev <? 0), (Z.leb_spec 0 next); fld; try (rewrite Hwr by lia; done);
      rewrite decide_False by lia; done.
  - intros j Hj. destruct (Z.ltb_spec prev 0), (0 <=? next); fld;
      try (by rewrite decide_False by lia);
      rewrite Hwr by lia; case_decide as E1; case_decide as E2; try done; lia.
Qed.

Lemma link_fields m i k : geo m ->
  let x := rd (aiFreelist m) k in
  -1 <= x < nBlock m -> 0 <= i < nBlock m -> x <> i -> 0 <= k <= 30 ->
  geo (memsys5Link m i k) /\ aCtrl (memsys5Link m i k) = aCtrl m /\ nBlock (memsys5Link m i k) = nBlock m /\
  (forall b, 0 <= b -> rd (lnext (memsys5Link m i k)) b = if decide (b = i) then x else rd (lnext m) b) /\
  (forall b, 0 <= b -> rd (lprev (memsys5Link m i k)) b =
     if decide (b = i) then -1 else if decide (b = x) then i else rd (lprev m) b) /\
  (forall j, 0 <= j -> rd (aiFreelist (memsys5Link m i k)) j = if decide (j = k) then i else rd (aiFreelist m) j).
Proof.
  intros [Ga Gp Gn Gf Gc Gx Gv] x Hx Hi Hxi Hk. unfold memsys5Link. fold x. clearbody x.
  assert (forall l i j v, 0 <= i < Z.of_nat (length l) -> 0 <= j ->
    rd (wr l i v) j = if decide (j = i) then v else rd l j) as Hwr.
  { intros l i' j v Hi' Hj. case_decide as E; [subst; by apply rd_wr_eq|apply rd_wr_ne; lia]. }
  split; [|split; [|split; [|split; [|split]]]].
  - destruct (0 <=? x); split; fld; rewrite ?length_wr; done.
  - destruct (0 <=? x); done.
  - destruct (0 <=? x); done.
  - intros b Hb. destruct (0 <=? x); fld; by rewrite Hwr by lia.
  - intros b Hb. destruct (Z.leb_spec 0 x); fld.
    + rewrite Hwr by (rewrite ?length_wr; lia). rewrite Hwr by lia.
      case_decide; case_decide; try done; lia.
    + rewrite Hwr by lia. case_decide; [done|]. rewrite decide_False by lia. done.
  - intros j Hj. destruct (0 <=? x); fld; by rewrite Hwr by lia.
Qed.

Lemma hd_or_bound n l lo hi : (forall b, b ∈ l -> lo <= b < hi) -> lo <= n < hi -> lo <= hd_or n l < hi.
Proof. intros Hl Hn. destruct (hd_or_elem n l) as [->|H]; [done|by apply Hl]. Qed.
Lemma last_or_bound p l lo hi : (forall b, b ∈ l -> lo <= b < hi) -> lo <= p < hi -> lo <= last_or p l < hi.
Proof. intros Hl Hn. destruct (last_or_elem p l) as [->|H]; [done|by apply Hl]. Qed.

(** Taking a block off its free list. *)
Lemma unlink_inv m B X c o k :
  inv m B X c -> B !! o = Some (k, true) ->
  inv (memsys5Unlink m o k) (<[o := (k, false)]> B) ({[o]} ∪ X) c.
Proof.
  intros Hi Hb. destruct (inv_blk _ _ _ _ Hi _ _ _ Hb) as (Hk & Ho & Hal & Hoc & _).
  destruct (inv_bin _ _ _ _ Hi k Hk) as (L & HL & Hhd & Hmem).
  assert (o ∈ L) as HoL by by apply Hmem.
  apply list_elem_of_split in HoL as (l1 & l2 & ->).
  destruct (dll_mid _ _ _ _ _ _ HL) as [En Ep].
  assert (forall b, b ∈ l1 ++ o :: l2 -> 0 <= b < nBlock m) as Hrng.
  { intros b Hin. apply (inv_range m B X c b k true); [done|by apply Hmem]. }
  assert (-1 <= hd_or (-1) l2 < nBlock m) as Rn.
  { apply hd_or_bound; [intros b Hin; destruct (Hrng b); [set_solver|lia]|]. destruct (Hrng o); [set_solver|lia]. }
  assert (-1 <= last_or (-1) l1 < nBlock m) as Rp.
  { apply last_or_bound; [intros b Hin; destruct (Hrng b); [set_solver|lia]|]. destruct (Hrng o); [set_solver|lia]. }
  destruct (unlink_fields m o k (inv_geo _ _ _ _ Hi)) as (G' & Ec & Enb & Fn & Fp & Ff);
    [rewrite En; lia|rewrite Ep; lia|done|].
  rewrite En in Fn, Fp, Ff. rewrite Ep in Fn, Fp, Ff.
  split.
  - done.
  - rewrite Enb. apply Hi.
  - intros o' k' f'. rewrite lookup_insert_Some. intros [[<- [= <- <-]]|[Hne Hb']].
    + repeat (split; [done|]). intros Hx. set_solver.
    + destruct (inv_blk _ _ _ _ Hi _ _ _ Hb') as (? & ? & ? & ? & Hc). repeat (split; [done|]).
      intros Hx. rewrite Ec. apply Hc. set_solver.
  - intros o1 k1 f1 o2 k2 f2. rewrite !lookup_insert_Some. pose proof (inv_disj _ _ _ _ Hi) as Hd.
    intros [[<- [= <- <-]]|[? ?]] [[<- [= <- <-]]|[? ?]] ?; [done|by eapply Hd|by eapply Hd|by eapply Hd].
  - intros i Hir. destruct (inv_cover _ _ _ _ Hi i Hir) as (o1 & k1 & f1 & Hb1 & Hr1).
    destruct (decide (o = o1)) as [<-|].
    + rewrite Hb in Hb1. injection Hb1 as <- <-. exists o, k, false. by rewrite lookup_insert_eq.
    + exists o1, k1, f1. by rewrite lookup_insert_ne.
  - intros k' Hk'. destruct (decide (k' = k)) as [->|Hkk].
    + exists (l1 ++ l2). split; [|split].
      * apply (dll_unlink (-1) (rd (lnext m)) (rd (lprev m)) _ _ l1 o l2); [done| |].
        -- intros b Hin. apply Fn. destruct (Hrng b); set_solver.
        -- intros b Hin. apply Fp. destruct (Hrng b); set_solver.
      * rewrite Ff by lia. destruct l1 as [|a l1]; cbn [last_or app hd_or] in *; [by rewrite decide_True|].
        rewrite decide_False; [done|]. intros [E _].
        pose proof (last_or_in (-1) a l1) as Hin. cbn [last_or] in Hin. rewrite E in Hin.
        destruct (Hrng (-1)); [|lia]. set_solver.
      * intros o'. rewrite lookup_insert_Some.
        pose proof (Hmem o') as Hm. pose proof (dll_nodup HL) as Hnd.
        apply NoDup_app in Hnd as (_ & Hnd1 & Hnd2). apply NoDup_cons in Hnd2 as [Hnd2 _].
        split.
        -- intros Hin. right. split; [|apply Hm; set_solver]. intros <-. set_solver.
        -- intros [[_ [=]]|[Hne Hb']]. apply Hm in Hb'. set_solver.
    + destruct (inv_bin _ _ _ _ Hi k' Hk') as (L' & HL' & Hhd' & Hmem').
      exists L'. split; [|split].
      * apply (dll_ext _ (rd (lnext m)) (rd (lprev m))); [done|]. intros b Hin.
        apply Hmem' in Hin as Hb'. destruct (inv_range _ _ _ _ _ _ _ Hi Hb') as [Hb0 _].
        rewrite Fn, Fp by done. split.
        -- rewrite decide_False; [done|]. intros ->.
           destruct (last_or_elem (-1) l1) as [E|E]; [lia|].
           assert (B !! last_or (-1) l1 = Some (k, true)) by (apply Hmem; set_solver). congruence.
        -- rewrite decide_False; [done|]. intros ->.
           destruct (hd_or_elem (-1) l2) as [E|E]; [lia|].
           assert (B !! hd_or (-1) l2 = Some (k, true)) by (apply Hmem; set_solver). congruence.
      * rewrite Ff by lia. rewrite decide_False; [done|]. by intros [_ ?].
      * intros o'. rewrite lookup_insert_Some, Hmem'. split; [|intros [[_ [=]]|[_ ?]]; done].
        intros Hb'. right. split; [|done]. intros <-. congruence.
Qed.

(** Putting a block back, once its control byte is right. *)
Lemma link_inv m B X c o k :
  inv m B X c -> B !! o = Some (k, false) -> rd (aCtrl m) o = ctrl k true ->
  inv (memsys5Link m o k) (<[o := (k, true)]> B) (X ∖ {[o]}) c.
Proof.
  intros Hi Hb Hct. destruct (inv_blk _ _ _ _ Hi _ _ _ Hb) as (Hk & Ho & Hal & Hoc & _).
  pose proof (inv_range _ _ _ _ _ _ _ Hi Hb) as Hor.
  destruct (inv_bin _ _ _ _ Hi k Hk) as (L & HL & Hhd & Hmem).
  assert (forall b, b ∈ L -> 0 <= b < nBlock m) as Hrng.
  { intros b Hin. apply (inv_range m B X c b k true); [done|by apply Hmem]. }
  assert (o ∉ L) as HoL by (rewrite Hmem; congruence).
  assert (-1 <= hd_or (-1) L < nBlock m) as Rn.
  { apply hd_or_bound; [intros b Hin; destruct (Hrng b); [done|lia]|lia]. }
  destruct (link_fields m o k (inv_geo _ _ _ _ Hi)) as (G' & Ec & Enb & Fn & Fp & Ff);
    [rewrite Hhd; lia|done|rewrite Hhd; intros E; destruct (hd_or_elem (-1) L) as [E'|E']; [lia|congruence]|done|].
  rewrite Hhd in Fn, Fp.
  split.
  - done.
  - rewrite Enb. apply Hi.
  - intros o' k' f'. rewrite lookup_insert_Some. intros [[<- [= <- <-]]|[Hne Hb']].
    + repeat (split; [done|]). by rewrite Ec.
    + destruct (inv_blk _ _ _ _ Hi _ _ _ Hb') as (? & ? & ? & ? & Hc). repeat (split; [done|]).
      intros Hx. rewrite Ec. apply Hc. set_solver.
  - intros o1 k1 f1 o2 k2 f2. rewrite !lookup_insert_Some. pose proof (inv_disj _ _ _ _ Hi) as Hd.
    intros [[<- [= <- <-]]|[? ?]] [[<- [= <- <-]]|[? ?]] ?; [done|by eapply Hd|by eapply Hd|by eapply Hd].
  - intros i Hir. destruct (inv_cover _ _ _ _ Hi i Hir) as (o1 & k1 & f1 & Hb1 & Hr1).
    destruct (decide (o = o1)) as [<-|].
    + rewrite Hb in Hb1. injection Hb1 as <- <-. exists o, k, true. by rewrite lookup_insert_eq.
    + exists o1, k1, f1. by rewrite lookup_insert_ne.
  - intros k' Hk'. destruct (decide (k' = k)) as [->|Hkk].
    + exists (o :: L). split; [|split].
      * apply (dll_insert (-1) (rd (lnext m)) (rd (lprev m)) _ _ [] o L); [done|done|lia| | | |].
        -- by rewrite Fn, decide_True by lia.
        -- by rewrite Fp, decide_True by lia.
        -- intros b Hin. destruct (Hrng b Hin). rewrite Fn by lia. cbn [last_or].
           rewrite decide_False by (intros ->; done). by rewrite decide_False by lia.
        -- intros b Hin. destruct (Hrng b Hin). rewrite Fp by lia.
           by rewrite decide_False by (intros ->; done).
      * rewrite Ff by lia. by rewrite decide_True.
      * intros o'. rewrite elem_of_cons, lookup_insert_Some, Hmem. split.
        -- intros [->|Hb']; [by left|]. right. split; [|done]. intros <-. congruence.
        -- intros [[<- _]|[_ ?]]; [by left|by right].
    + destruct (inv_bin _ _ _ _ Hi k' Hk') as (L' & HL' & Hhd' & Hmem').
      exists L'. split; [|split].
      * apply (dll_ext _ (rd (lnext m)) (rd (lprev m))); [done|]. intros b Hin.
        apply Hmem' in Hin as Hb'. destruct (inv_range _ _ _ _ _ _ _ Hi Hb') as [Hb0 _].
        assert (b <> o) by (intros ->; congruence). rewrite Fn, Fp by done. rewrite !decide_False; [done| |done|done].
        intros ->. destruct (hd_or_elem (-1) L) as [E|E]; [lia|]. apply Hmem in E. congruence.
      * rewrite Ff by lia. by rewrite decide_False.
      * intros o'. rewrite lookup_insert_Some, Hmem'. split; [|intros [[_ [=]]|[_ ?]]; done].
        intros Hb'. right. split; [|done]. intros <-. congruence.
Qed.

(** Control bytes may change where no settled block starts. *)
Lemma ctrl_wr_inv m B X c i v :
  inv m B X c -> (forall k f, B !! i = Some (k, f) -> i ∈ X) -> 0 <= i -> inv (ctrl_wr m i v) B X c.
Proof.
  intros [G T K D C F] Hx Hi0. split; [|exact T| |exact D|exact C|exact F].
  - destruct G. split; unfold ctrl_wr; fld; rewrite ?length_wr; done.
  - intros o k f Hb. destruct (K o k f Hb) as (? & ? & ? & ? & Hc). repeat (split; [done|]).
    intros Hox. unfold ctrl_wr. fld. rewrite rd_wr_ne; [by apply Hc|lia|lia|].
    intros ->. by eapply Hox, Hx.
Qed.

Lemma ctrl_wr_rd m B X c i v k f :
  inv m B X c -> B !! i = Some (k, f) -> rd (aCtrl (ctrl_wr m i v)) i = v.
Proof.
  intros Hi Hb. pose proof (inv_range _ _ _ _ _ _ _ Hi Hb). unfold ctrl_wr. fld. apply rd_wr_eq.
  rewrite (geo_ctrl _ (inv_geo _ _ _ _ Hi)). lia.
Qed.

Lemma settle m B X c o k f :
  inv m B X c -> B !! o = Some (k, f) -> rd (aCtrl m) o = ctrl k f -> inv m B (X ∖ {[o]}) c.
Proof.
  intros [G T K D C F] Hb Hc. split; [done|done| |done|done|done].
  intros o' k' f' Hb'. destruct (K _ _ _ Hb') as (? & ? & ? & ? & Hc'). repeat (split; [done|]).
  intros Hx. destruct (decide (o' = o)) as [->|]; [congruence|]. apply Hc'. set_solver.
Qed.

Lemma inv_sub m B X Y c : inv m B X c -> X ⊆ Y -> inv m B Y c.
Proof.
  intros [G T K D C F] HX. split; [done|done| |done|done|done].
  intros o k f Hb. destruct (K _ _ _ Hb) as (? & ? & ? & ? & Hc). repeat (split; [done|]). intros. apply Hc. set_solver.
Qed.

Lemma inv_stats m B X c s : inv m B X c -> inv (set_stats m s) B X c.
Proof. intros [[] T K D C F]. split; [split; fld; done|exact T|exact K|exact D|exact C|exact F]. Qed.

(** Blocks that are not free do not matter to the free lists. *)
Lemma bins_ext m B B' :
  (forall o k, B' !! o = Some (k, true) <-> B !! o = Some (k, true)) ->
  forall k, bin_ok m B k -> bin_ok m B' k.
Proof. intros HB k (L & H1 & H2 & H3). exists L. split; [done|]. split; [done|]. intros o. by rewrite HB. Qed.

Lemma pow2_succ k : 0 <= k -> 2 ^ (k + 1) = 2 * 2 ^ k.
Proof. intros. by rewrite Z.pow_add_r, Z.mul_comm by lia. Qed.

Lemma half_free m B X c i k f :
  inv m B X c -> B !! i = Some (k + 1, f) -> 0 <= k -> B !! (i + 2 ^ k) = None.
Proof.
  intros Hi Hb Hk. destruct (B !! (i + 2 ^ k)) as [[k' f']|] eqn:E; [exfalso|done].
  pose proof (pow2_pos k Hk). destruct (inv_blk _ _ _ _ Hi _ _ _ E) as (Hk' & _).
  pose proof (pow2_pos k'). pose proof (pow2_succ k Hk).
  destruct (inv_disj _ _ _ _ Hi _ _ _ _ _ _ Hb E); lia.
Qed.

Lemma split_inv m B X c i k :
  inv m B X c -> B !! i = Some (k + 1, false) -> 0 <= k -> i ∈ X ->
  inv m (<[i + 2 ^ k := (k, false)]> (<[i := (k, false)]> B)) ({[i + 2 ^ k]} ∪ X) c.
Proof.
  intros Hi Hb Hk HX. pose proof (half_free _ _ _ _ _ _ _ Hi Hb Hk) as Hh.
  pose proof (pow2_pos k Hk) as Hp. pose proof (pow2_succ k Hk) as Hs. destruct Hi as [G T K D C F].
  destruct (K _ _ _ Hb) as (Hk1 & Hi0 & Hal & Htop & _). rewrite Hs in Hal, Htop.
  assert ((2 ^ k | i)) as Hd1 by (eapply Z.divide_trans; [|done]; by exists 2).
  split; [done|done| | | |].
  - intros o k' f'. rewrite !lookup_insert_Some.
    intros [[<- [= <- <-]]|[Hne [[<- [= <- <-]]|[Hne' Hb']]]].
    + split; [lia|]. split; [lia|]. split; [by apply Z.divide_add_r, Z.divide_refl|]. split; [lia|]. set_solver.
    + split; [lia|]. split; [lia|]. split; [done|]. split; [lia|]. set_solver.
    + destruct (K _ _ _ Hb') as (? & ? & ? & ? & Hc). repeat (split; [done|]). intros. apply Hc. set_solver.
  - assert (forall o k' f', B !! o = Some (k', f') -> i <> o -> o + 2 ^ k' <= i \/ i + 2 * 2 ^ k <= o) as Hd.
    { intros o k' f' Ho Hne. destruct (D _ _ _ _ _ _ Hb Ho Hne); lia. }
    intros o1 k1 f1 o2 k2 f2. rewrite !lookup_insert_Some.
    intros [[<- [= <- <-]]|[Hne [[<- [= <- <-]]|[Hne' Hb']]]] [[<- [= <- <-]]|[Hne2 [[<- [= <- <-]]|[Hne2' Hb2']]]] Hoo;
      try done; try lia;
      try (destruct (Hd _ _ _ Hb2' ltac:(done)); lia); try (destruct (Hd _ _ _ Hb' ltac:(done)); lia).
    by eapply D.
  - intros j Hj. destruct (C j Hj) as (o & k' & f' & Hb' & Hr). destruct (decide (o = i)) as [->|Hne].
    + rewrite Hb in Hb'. injection Hb' as <- <-. destruct (Z.lt_ge_cases j (i + 2 ^ k)).
      * exists i, k, false. rewrite lookup_insert_ne, lookup_insert_eq by lia. split; [done|lia].
      * exists (i + 2 ^ k), k, false. rewrite lookup_insert_eq. split; [done|lia].
    + exists o, k', f'. rewrite !lookup_insert_ne; [done|done|congruence].
  - intros k' Hk'. eapply bins_ext; [|by apply F]. intros o k2. rewrite !lookup_insert_Some. split.
    + intros [[_ [=]]|[_ [[_ [=]]|[_ ?]]]]. done.
    + intros Hb'. right. split; [congruence|]. right. split; [congruence|done].
Qed.

Lemma merge_inv m B X c lo k :
  inv m B X c -> B !! lo = Some (k, false) -> B !! (lo + 2 ^ k) = Some (k, false) ->
  0 <= k <= 29 -> (2 ^ (k + 1) | lo) -> lo ∈ X ->
  inv m (<[lo := (k + 1, false)]> (delete (lo + 2 ^ k) B)) X c.
Proof.
  intros [G T K D C F] Hb1 Hb2 Hk Hal HX.
  pose proof (pow2_pos k) as Hp. pose proof (pow2_succ k) as Hs.
  destruct (K _ _ _ Hb1) as (_ & H0 & _). destruct (K _ _ _ Hb2) as (_ & _ & _ & Htop & _).
  split; [done|done| | | |].
  - intros o k' f'. rewrite lookup_insert_Some, lookup_delete_Some.
    intros [[<- [= <- <-]]|[Hne [Hne' Hb']]].
    + split; [lia|]. split; [lia|]. split; [done|]. split; [lia|]. done.
    + by apply K.
  - assert (forall o k' f', B !! o = Some (k', f') -> lo <> o -> lo + 2 ^ k <> o ->
      o + 2 ^ k' <= lo \/ lo + 2 * 2 ^ k <= o) as Hd.
    { intros o k' f' Ho N1 N2. destruct (K _ _ _ Ho) as (Hk' & _). pose proof (pow2_pos k').
      destruct (D _ _ _ _ _ _ Hb1 Ho N1), (D _ _ _ _ _ _ Hb2 Ho N2); lia. }
    intros o1 k1 f1 o2 k2 f2. rewrite !lookup_insert_Some, !lookup_delete_Some.
    intros [[<- [= <- <-]]|[N1 [N2 E1]]] [[<- [= <- <-]]|[N3 [N4 E2]]] Hoo; [done| | |by eapply D];
      [destruct (Hd _ _ _ E2 N3 N4)|destruct (Hd _ _ _ E1 N1 N2)]; lia.
  - intros j Hj. destruct (C j Hj) as (o & k' & f' & Hb' & Hr).
    destruct (decide (o = lo)) as [->|N1]; [|destruct (decide (o = lo + 2 ^ k)) as [->|N2]].
    + rewrite Hb1 in Hb'. injection Hb' as <- <-. exists lo, (k + 1), false.
      rewrite lookup_insert_eq. split; [done|lia].
    + rewrite Hb2 in Hb'. injection Hb' as <- <-. exists lo, (k + 1), false.
      rewrite lookup_insert_eq. split; [done|lia].
    + exists o, k', f'. rewrite lookup_insert_ne, lookup_delete_ne by congruence. done.
  - intros k' Hk'. eapply bins_ext; [|by apply F]. intros o k2.
    rewrite lookup_insert_Some, lookup_delete_Some. split.
    + intros [[_ [=]]|[_ [_ ?]]]. done.
    + intros Hb'. right. split; [congruence|]. split; [congruence|done].
Qed.

(** * Malloc and free *)

Definition same_pool (m m' : Mem5Global) : Prop :=
  szAtom m' = szAtom m /\ zPool m' = zPool m /\ nBlock m' = nBlock m.

Lemma same_pool_refl m : same_pool m m.
Proof. done. Qed.
Lemma same_pool_trans m1 m2 m3 : same_pool m1 m2 -> same_pool m2 m3 -> same_pool m1 m3.
Proof. unfold same_pool. intuition congruence. Qed.
Lemma unlink_pool m i k : same_pool m (memsys5Unlink m i k).
Proof. unfold memsys5Unlink. by destruct (_ <? 0), (0 <=? _). Qed.
Lemma link_pool m i k : same_pool m (memsys5Link m i k).
Proof. unfold memsys5Link. by destruct (0 <=? _). Qed.
Lemma ctrl_pool m i v : same_pool m (ctrl_wr m i v).
Proof. done. Qed.

Create HintDb mem5.
#[export] Hint Resolve same_pool_refl unlink_pool link_pool ctrl_pool : mem5.

Lemma free_byte k : 0 <= k <= 30 -> CTRL_FREE .| k = 32 + k.
Proof. intros. change CTRL_FREE with (1 << 5). rewrite shl_lor; unfold is_u; lia. Qed.

Lemma ctrl_inj k f k' f' : 0 <= k <= 30 -> 0 <= k' <= 30 -> ctrl k f = ctrl k' f' -> k = k' /\ f = f'.
Proof. intros H H'. destruct f, f'; cbn [ctrl]; rewrite ?free_byte by lia; intros; split; (done || lia). Qed.

Lemma ctrl_log k f : 0 <= k <= 30 -> ctrl k f .& CTRL_LOGSIZE = k.
Proof.
  intros. change CTRL_LOGSIZE with (Z.ones 5). rewrite land_mask by lia. change (2 ^ 5) with 32.
  destruct f; cbn [ctrl]; rewrite ?free_byte by lia; [|apply Z.mod_small; lia].
  replace (32 + k) with (k + 1 * 32) by lia. rewrite Z.mod_add by lia. apply Z.mod_small. lia.
Qed.

(** The allocated blocks of [B'] are those of [B], up to the block at [o]. *)
Definition same_out (B B' : gmap Z (Z * bool)) (o : Z) : Prop :=
  forall o' k, o' <> o -> B' !! o' = Some (k, false) <-> B !! o' = Some (k, false).

Lemma split_loop_inv fuel m B X c i iBin iLog :
  inv m B X c -> B !! i = Some (iBin, false) -> i ∈ X -> 0 <= iLog <= iBin -> iBin - iLog <= Z.of_nat fuel ->
  exists B', inv (split_loop fuel m i iBin iLog) B' X c /\ B' !! i = Some (iLog, false) /\ same_out B B' i /\
    same_pool m (split_loop fuel m i iBin iLog).
Proof.
  revert m B iBin. induction fuel as [|fuel IH]; intros m B iBin Hi Hb HX Hl Hf; cbn [split_loop].
  { replace iBin with iLog in * by lia. by exists B. }
  destruct (Z.ltb_spec iLog iBin); [|replace iBin with iLog in * by lia; by exists B].
  set (k := iBin - 1). rewrite Z.shiftl_1_l. assert (0 <= k) as Hk by (unfold k; lia).
  pose proof (pow2_pos k Hk) as Hp. destruct (inv_blk _ _ _ _ Hi _ _ _ Hb) as (Hk30 & H0 & _).
  replace iBin with (k + 1) in Hb by (unfold k; lia).
  pose proof (half_free _ _ _ _ _ _ _ Hi Hb Hk) as Hh.
  pose proof (split_inv _ _ _ _ _ _ Hi Hb Hk HX) as H1.
  set (B1 := <[i + 2 ^ k := (k, false)]> (<[i := (k, false)]> B)) in *.
  assert (B1 !! (i + 2 ^ k) = Some (k, false)) as Hb1 by (unfold B1; by rewrite lookup_insert_eq).
  pose proof (ctrl_wr_rd _ _ _ _ _ (CTRL_FREE .| k) _ _ H1 Hb1) as Hc1.
  apply (ctrl_wr_inv _ _ _ _ (i + 2 ^ k) (CTRL_FREE .| k)) in H1; [|set_solver|lia].
  pose proof (link_inv _ _ _ _ _ _ H1 Hb1 Hc1) as H2.
  destruct (IH (memsys5Link (ctrl_wr m (i + 2 ^ k) (CTRL_FREE .| k)) (i + 2 ^ k) k)
    (<[i + 2 ^ k := (k, true)]> B1) k) as (B' & I1 & I2 & I3 & I4); [|unfold B1|done|unfold k; lia|unfold k; lia|].
  { eapply inv_sub; [done|set_solver]. }
  { rewrite !lookup_insert_ne, lookup_insert_eq by lia. done. }
  exists B'. split; [done|]. split; [done|]. split;
    [|eapply same_pool_trans; [|exact I4]; eapply same_pool_trans; eauto with mem5].
  intros o' k' Hne. rewrite (I3 o' k' Hne). unfold B1. rewrite !lookup_insert_Some. split.
  - intros [[_ [=]]|[N [[E [= <-]]|[_ [[-> _]|[_ ?]]]]]]; done.
  - intros E. right. split; [congruence|]. right. split; [congruence|]. right. split; [congruence|done].
Qed.

Lemma round_loop_spec fuel f l n s :
  0 <= s -> 0 <= l -> f = 2 ^ (s + l) -> n <= 2 ^ 30 -> s + l <= 30 -> 30 - (s + l) <= Z.of_nat fuel ->
  let '(f', l') := round_loop fuel f l n in
  f' = 2 ^ (s + l') /\ n <= f' /\ l <= l' /\ s + l' <= 30.
Proof.
  revert f l. induction fuel as [|fuel IH]; intros f l Hs Hl Hf Hn Hsl Hfu; cbn [round_loop].
  { replace (s + l) with 30 in Hf by lia. split; [f_equal; rewrite Hf; f_equal; lia|]. subst f. lia. }
  destruct (Z.ltb_spec f n).
  - assert (s + l < 30). { destruct (Z.eq_dec (s + l) 30) as [E|]; [|lia]. rewrite E in Hf. lia. }
    specialize (IH (f * 2) (l + 1)). destruct (round_loop fuel (f * 2) (l + 1) n) as [f' l'].
    destruct IH as (A & B & C & D); [done|lia| |done|lia|lia|].
    + subst f. replace (s + (l + 1)) with (s + l + 1) by lia. rewrite pow2_succ by lia. lia.
    + split; [done|]. split; [done|]. split; lia.
  - split; [done|]. split; [done|]. split; lia.
Qed.

(** The out-of-bounds word never influences the result. *)
Lemma find_bin_spec fuel free oob b :
  0 <= b <= 31 -> 31 - b < Z.of_nat fuel ->
  let b' := find_bin fuel free oob b in
  b <= b' <= 31 /\ (b' <= 30 -> 0 <= rd free b') /\ (forall j, b <= j < b' -> rd free j < 0).
Proof.
  revert b. induction fuel as [|fuel IH]; intros b Hb Hf; [lia|]. cbn [find_bin]. change LOGMAX with 30.
  destruct (Z.leb_spec b 30).
  - destruct (Z.ltb_spec (rd free b) 0); cbn [andb].
    + destruct (IH (b + 1)) as (A & B & C); [lia|lia|]. split; [lia|]. split; [done|].
      intros j Hj. destruct (Z.eq_dec j b) as [->|]; [done|]. apply C. lia.
    + split; [lia|]. split; [done|]. lia.
  - rewrite andb_false_r. split; [lia|]. split; [lia|]. lia.
Qed.

(** A request that fails leaves the blocks alone; one that succeeds turns one free
    block, possibly split, into an allocated one. *)
Lemma malloc_inv oob m B n :
  inv m B ∅ (nBlock m) -> 0 < n ->
  let '(p, m') := memsys5MallocUnsafe oob m n in
  same_pool m m' /\
  ((p = 0 /\ inv m' B ∅ (nBlock m)) \/
   exists B' i k, p = zPool m + i * szAtom m /\ n <= szAtom m * 2 ^ k /\
     inv m' B' ∅ (nBlock m) /\ B' !! i = Some (k, false) /\ (forall k', B !! i <> Some (k', false)) /\
     same_out B B' i).
Proof.
  intros Hi Hn. unfold memsys5MallocUnsafe.
  apply (inv_stats _ _ _ _ (stats_request (stats m) n)) in Hi.
  set (m1 := set_stats m (stats_request (stats m) n)) in *.
  change (nBlock m) with (nBlock m1) in *. change (zPool m) with (zPool m1). change (szAtom m) with (szAtom m1).
  assert (same_pool m m1) as Hp1 by done. clearbody m1.
  destruct (Z.ltb_spec 0x40000000 n); [by split; [|left]|].
  destruct (geo_atom _ (inv_geo _ _ _ _ Hi)) as (s & Hs & Esz).
  pose proof (round_loop_spec 31 (szAtom m1) 0 n s) as HR. destruct (round_loop 31 (szAtom m1) 0 n) as [f l].
  destruct HR as (Ef & Hnf & Hl0 & Hl); [lia|lia|by rewrite Z.add_0_r|lia|lia|lia|].
  destruct (find_bin_spec 32 (aiFreelist m1) oob l) as (Hb & Hhd & _); [lia|lia|].
  set (iBin := find_bin 32 (aiFreelist m1) oob l) in *. clearbody iBin. change LOGMAX with 30.
  destruct (Z.ltb_spec 30 iBin); [by split; [|left]|].
  destruct (inv_bin _ _ _ _ Hi iBin) as (L & _ & Eh & Hmem); [lia|].
  set (i := rd (aiFreelist m1) iBin) in *. specialize (Hhd ltac:(lia)).
  assert (B !! i = Some (iBin, true)) as Hbi.
  { apply Hmem. rewrite Eh. destruct (hd_or_elem (-1) L) as [E|]; [|done]. lia. }
  clearbody i. pose proof (unlink_inv _ _ _ _ _ _ Hi Hbi) as H1.
  destruct (split_loop_inv 31 _ _ _ _ i iBin l H1) as (B' & I1 & I2 & I3 & I4);
    [by rewrite lookup_insert_eq|set_solver|lia|lia|].
  set (m2 := split_loop 31 (memsys5Unlink m1 i iBin) i iBin l) in *.
  assert (same_pool m1 m2) as Hp2 by (eapply same_pool_trans; [|exact I4]; eauto with mem5). clearbody m2.
  pose proof (ctrl_wr_rd _ _ _ _ _ l _ _ I1 I2) as Hc.
  destruct (inv_blk _ _ _ _ I1 _ _ _ I2) as (_ & Hi0 & _).
  apply (ctrl_wr_inv _ _ _ _ i l) in I1; [|set_solver|done].
  pose proof (settle _ _ _ _ _ _ _ I1 I2 Hc) as I5. cbv zeta.
  apply (inv_stats _ _ _ _ (stats_alloc (stats (ctrl_wr m2 i l)) f n)) in I5.
  split; [eapply same_pool_trans; [done|exact Hp2]|]. right. exists B', i, l.
  destruct Hp2 as (P1 & P2 & P3). split; [fld; unfold ctrl_wr; fld; congruence|].
  split; [rewrite Esz, <- Z.pow_add_r by lia; lia|].
  split; [eapply inv_sub; [exact I5|set_solver]|]. split; [done|]. split; [congruence|].
  intros o k Hne. rewrite (I3 o k Hne). by rewrite lookup_insert_ne.
Qed.

Lemma buddy_parity i k : 0 <= i -> 0 <= k -> (2 ^ k | i) ->
  let odd := negb ((i >> k) .& 1 =? 0) in
  let b := if odd then i - 2 ^ k else i + 2 ^ k in
  0 <= b /\ (2 ^ k | b) /\ (2 ^ (k + 1) | Z.min i b) /\ b <> i /\ Z.max i b = Z.min i b + 2 ^ k.
Proof.
  intros Hi Hk [q ->]. pose proof (pow2_pos k Hk). rewrite Z.shiftr_div_pow2, Z.div_mul by lia.
  change 1 with (Z.ones 1) at 1. rewrite land_mask by lia. change (2 ^ 1) with 2. rewrite pow2_succ by lia.
  assert (0 <= q) by nia. cbv zeta. pose proof (Z.div_mod q 2 ltac:(lia)) as Hq.
  destruct (Z.eqb_spec (q mod 2) 0) as [E|E]; cbn [negb].
  - split; [nia|]. split; [exists (q + 1); lia|]. rewrite Z.min_l, Z.max_r by lia.
    split; [exists (q / 2); nia|]. lia.
  - assert (q mod 2 = 1) by (pose proof (Z.mod_pos_bound q 2); lia).
    assert (1 <= q) by lia.
    split; [nia|]. split; [exists (q - 1); lia|]. rewrite Z.min_r, Z.max_l by lia.
    split; [exists (q / 2); nia|]. lia.
Qed.

Lemma pow2_divide a b : 0 <= a <= b -> (2 ^ a | 2 ^ b).
Proof. intros. exists (2 ^ (b - a)). rewrite <- Z.pow_add_r by lia. f_equal. lia. Qed.

(** The buddy of a block is the start of a block no larger than it. *)
Lemma buddy_head m B X c i k b :
  inv m B X c -> B !! i = Some (k, false) -> 0 <= b -> b + 2 ^ k <= c ->
  (2 ^ k | b) -> (2 ^ (k + 1) | Z.min i b) -> b <> i -> Z.max i b = Z.min i b + 2 ^ k ->
  exists k' f', B !! b = Some (k', f') /\ k' <= k.
Proof.
  intros Hi Hb Hb0 Hbc Hd Hd2 Hne Hmx. destruct (inv_blk _ _ _ _ Hi _ _ _ Hb) as (Hk & Hi0 & _).
  pose proof (pow2_pos k). destruct (inv_cover _ _ _ _ Hi b) as (o & k' & f' & Ho & Hr); [lia|].
  destruct (inv_blk _ _ _ _ Hi _ _ _ Ho) as (Hk' & Ho0 & Hdo & _).
  destruct (Z.le_gt_cases k' k) as [Hle|Hgt].
  - exists k', f'. split; [|done]. replace b with o; [done|].
    assert ((2 ^ k' | b)) as [q Hq] by (eapply Z.divide_trans; [apply (pow2_divide k' k); lia|done]).
    destruct Hdo as [q' Hq']. pose proof (pow2_pos k').
    assert (q' <= q) by nia. assert (q < q' + 1) by nia. assert (q' = q) by lia. congruence.
  - exfalso. (* the covering block would contain both buddies *)
    assert ((2 ^ (k + 1) | 2 ^ k')) as Hdv by (apply pow2_divide; lia).
    assert ((2 ^ (k + 1) | o)) as [q' Hq'] by (eapply Z.divide_trans; done).
    destruct Hd2 as [q Hq], Hdv as [r Hr']. rewrite pow2_succ in * by lia.
    pose proof (pow2_pos k'). assert (0 < r) by nia.
    assert (o <= Z.min i b < o + 2 ^ k').
    { split; [|lia]. assert (q' < q + 1) by nia. nia. }
    assert (q < q' + r) by nia. assert (Z.min i b + 2 * 2 ^ k <= o + 2 ^ k') by nia.
    assert (i <> o). { intros ->. rewrite Hb in Ho. injection Ho as -> _. lia. }
    destruct (inv_disj _ _ _ _ Hi _ _ _ _ _ _ Hb Ho); lia.
Qed.

(** The allocated blocks of [B'] are those of [B] without the one at [i]; the one at [i']
    is being worked on. *)
Definition out_minus (B B' : gmap Z (Z * bool)) (i i' : Z) : Prop :=
  (forall o kk, o <> i' -> B' !! o = Some (kk, false) <-> (B !! o = Some (kk, false) /\ o <> i)) /\
  (forall kk, B !! i' = Some (kk, false) -> i' = i).

Lemma out_minus_trans B B1 B2 i i1 i2 :
  out_minus B B1 i i1 -> out_minus B1 B2 i1 i2 -> out_minus B B2 i i2.
Proof.
  intros [A1 A2] [C1 C2]. split.
  - intros o kk Ho. rewrite (C1 o kk Ho). split.
    + intros [E N]. by apply A1.
    + intros [E N]. assert (o <> i1) by (intros ->; by eapply N, A2). split; [by apply A1|done].
  - intros kk E. destruct (decide (i2 = i)) as [|N]; [done|].
    destruct (decide (i2 = i1)) as [->|N1]; [by eapply A2|].
    exfalso. apply N1. eapply C2. by apply A1.
Qed.

(** One merge: the buddy leaves its free list, the lower half becomes a block of twice
    the size and the upper half is no longer a block. *)
Lemma merge_step m B c i k b :
  inv m B {[i]} c -> B !! i = Some (k, false) -> B !! b = Some (k, true) -> 0 <= k <= 29 ->
  (2 ^ (k + 1) | Z.min i b) -> Z.max i b = Z.min i b + 2 ^ k ->
  let lo := Z.min i b in let hi := Z.max i b in
  let B' := <[lo := (k + 1, false)]> (delete hi (<[b := (k, false)]> B)) in
  let m' := ctrl_wr (ctrl_wr (memsys5Unlink m b k) lo (ctrl (k + 1) true)) hi 0 in
  inv m' B' {[lo]} c /\ B' !! lo = Some (k + 1, false) /\ rd (aCtrl m') lo = ctrl (k + 1) true /\
  same_pool m m' /\
  out_minus B B' i lo.
Proof.
  intros Hi Hb Hbb Hk Hal Hmx lo hi B' m'. pose proof (pow2_pos k ltac:(lia)) as Hp.
  assert (b <> i) as Hne by congruence.
  assert (lo = i /\ hi = b \/ lo = b /\ hi = i) as Hlh by (unfold lo, hi; lia).
  assert (hi = lo + 2 ^ k) as Eh by done.
  pose proof (unlink_inv _ _ _ _ _ _ Hi Hbb) as H1.
  assert (0 <= lo) as Hlo0.
  { destruct (inv_blk _ _ _ _ Hi _ _ _ Hb) as (_ & ? & _).
    destruct (inv_blk _ _ _ _ Hi _ _ _ Hbb) as (_ & ? & _). unfold lo. lia. }
  set (X := {[b]} ∪ {[i]} : gset Z) in *. set (B1 := <[b := (k, false)]> B) in *.
  assert (B1 !! i = Some (k, false)) as Hi1 by (unfold B1; by rewrite lookup_insert_ne).
  assert (B1 !! b = Some (k, false)) as Hb1 by (unfold B1; by rewrite lookup_insert_eq).
  assert (lo ∈ X) as HX by (destruct Hlh as [[-> _]|[-> _]]; set_solver).
  assert (B1 !! lo = Some (k, false) /\ B1 !! hi = Some (k, false)) as [Hl1 Hh1]
    by (destruct Hlh as [[-> ->]|[-> ->]]; done).
  assert (inv (memsys5Unlink m b k) B' X c) as H2.
  { unfold B'. rewrite Eh. rewrite Eh in Hh1. by apply merge_inv. }
  assert (B' !! lo = Some (k + 1, false)) as Hlo by (unfold B'; by rewrite lookup_insert_eq).
  assert (B' !! hi = None) as Hhi.
  { unfold B'. rewrite lookup_insert_ne, lookup_delete_eq by lia. done. }
  assert (rd (aCtrl m') lo = ctrl (k + 1) true) as Hc.
  { unfold m'. unfold ctrl_wr at 1. fld. rewrite rd_wr_ne by lia. eapply ctrl_wr_rd; [exact H2|exact Hlo]. }
  split; [|split; [done|split; [done|split]]].
  - assert (inv m' B' X c) as [G T K D C F].
    { apply ctrl_wr_inv; [|congruence|lia]. apply ctrl_wr_inv; [done|done|lia]. }
    split; [done|done| |done|done|done]. intros o k2 f2 Ho.
    destruct (K _ _ _ Ho) as (? & ? & ? & ? & Hcc). repeat (split; [done|]).
    intros Hol%not_elem_of_singleton. apply Hcc. assert (o <> hi) by congruence.
    unfold X. rewrite not_elem_of_union, !not_elem_of_singleton.
    destruct Hlh as [[? ?]|[? ?]]; split; congruence.
  - eapply same_pool_trans; [apply unlink_pool|done].
  - split; [|intros kk; destruct Hlh as [[-> _]|[-> _]]; congruence].
    intros o kk Ho. unfold B', B1. rewrite lookup_insert_Some, lookup_delete_Some, lookup_insert_Some. split.
    + intros [[<- _]|[N1 [N2 [[<- [= <-]]|[N3 ?]]]]]; [done|destruct Hlh as [[? ?]|[? ?]]; congruence|].
      split; [done|]. destruct Hlh as [[? ?]|[? ?]]; congruence.
    + intros [Hbo Hoi]. assert (o <> b) by congruence. right. split; [congruence|].
      split; [destruct Hlh as [[? ?]|[? ?]]; congruence|]. right. split; congruence.
Qed.

Lemma coalesce_inv fuel m B c i k :
  inv m B {[i]} c -> c = nBlock m -> B !! i = Some (k, false) -> rd (aCtrl m) i = ctrl k true ->
  30 - k < Z.of_nat fuel ->
  let '(m', i', k') := coalesce_loop fuel m i k (2 ^ k) in
  exists B', inv m' B' {[i']} c /\ B' !! i' = Some (k', false) /\ rd (aCtrl m') i' = ctrl k' true /\
    same_pool m m' /\
    out_minus B B' i i'.
Proof.
  revert m B i k. induction fuel as [|fuel IH]; intros m B i k Hi Hc Hb Hct Hf;
    destruct (inv_blk _ _ _ _ Hi _ _ _ Hb) as (Hk & Hi0 & Hal & Htop & _); [lia|].
  assert (exists B', inv m B' {[i]} c /\ B' !! i = Some (k, false) /\ rd (aCtrl m) i = ctrl k true /\
    same_pool m m /\
    out_minus B B' i i) as Hstop.
  { exists B. repeat (split; [done|]). split; [intros; tauto|done]. }
  cbn [coalesce_loop]. change LOGMAX with 30. destruct (Z.ltb_spec k 30); [|done].
  rewrite Z.shiftl_1_l.
  destruct (buddy_parity i k Hi0 ltac:(lia) Hal) as (Hb0 & Hbd & Hmin & Hne & Hmx).
  set (b := if negb _ then _ else _) in *. clearbody b.
  destruct (Z.ltb_spec (nBlock m) (b + 2 ^ k)); [done|].
  destruct (buddy_head m B {[i]} c i k b) as (k' & f' & Hbb & Hkk'); [done|done|done|lia|done|done|done|done|].
  destruct (inv_blk _ _ _ _ Hi _ _ _ Hbb) as (Hk' & _ & _ & _ & Hcb). rewrite Hcb by set_solver.
  destruct (Z.eqb_spec (ctrl k' f') (CTRL_FREE .| k)) as [E|]; cbn [negb]; [|done].
  change (CTRL_FREE .| k) with (ctrl k true) in E. apply ctrl_inj in E as [-> ->]; [|lia|lia].
  destruct (merge_step m B c i k b) as (S1 & S2 & S3 & S4 & S5); [done|done|done|lia|done|done|].
  pose proof S4 as (_ & _ & En).
  specialize (IH _ _ _ _ S1 ltac:(congruence) S2 S3 ltac:(lia)).
  replace (2 ^ k * 2) with (2 ^ (k + 1)) by (rewrite pow2_succ; lia).
  change (CTRL_FREE .| (k + 1)) with (ctrl (k + 1) true).
  assert (forall r : Mem5Global * Z * Z,
    (let '(m', i', k') := r in exists B', inv m' B' {[i']} c /\ B' !! i' = Some (k', false) /\
       rd (aCtrl m') i' = ctrl k' true /\
       same_pool (ctrl_wr (ctrl_wr (memsys5Unlink m b k) (Z.min i b) (ctrl (k + 1) true)) (Z.max i b) 0) m' /\
       out_minus (<[Z.min i b := (k + 1, false)]> (delete (Z.max i b) (<[b := (k, false)]> B))) B' (Z.min i b) i') ->
    let '(m', i', k') := r in
    exists B', inv m' B' {[i']} c /\ B' !! i' = Some (k', false) /\ rd (aCtrl m') i' = ctrl k' true /\
      same_pool m m' /\
      out_minus B B' i i') as Hwrap.
  { intros [[m' i'] k'] (B' & A1 & A2 & A3 & A4 & A5). exists B'. repeat (split; [done|]).
    split; [by eapply same_pool_trans|]. by eapply out_minus_trans. }
  destruct (Z.ltb_spec b i).
  - rewrite (Z.min_r i b), (Z.max_l i b) in * by lia. by apply Hwrap.
  - rewrite (Z.min_l i b), (Z.max_r i b) in * by lia. by apply Hwrap.
Qed.

Lemma free_inv m B i k :
  inv m B ∅ (nBlock m) -> B !! i = Some (k, false) ->
  let m' := memsys5FreeUnsafe m (zPool m + i * szAtom m) in
  same_pool m m' /\
  exists B', inv m' B' ∅ (nBlock m) /\
    forall o kk, B' !! o = Some (kk, false) <-> (B !! o = Some (kk, false) /\ o <> i).
Proof.
  intros Hi Hb. destruct (inv_blk _ _ _ _ Hi _ _ _ Hb) as (Hk & Hi0 & Hal & Htop & Hc).
  destruct (geo_atom _ (inv_geo _ _ _ _ Hi)) as (s & Hs & Esz).
  pose proof (pow2_pos s ltac:(lia)) as Hsz. pose proof (pow2_pos k ltac:(lia)) as Hp. unfold memsys5FreeUnsafe.
  replace ((zPool m + i * szAtom m - zPool m) / szAtom m) with i
    by (replace (zPool m + i * szAtom m - zPool m) with (i * szAtom m) by lia; rewrite Z.div_mul; lia).
  rewrite Hc, ctrl_log, Z.shiftl_1_l by (done || set_solver).
  assert (forall v, inv (ctrl_wr m i v) B {[i]} (nBlock m)) as H1.
  { intros v. apply ctrl_wr_inv; [|set_solver|done]. eapply inv_sub; [exact Hi|set_solver]. }
  assert (forall v w, inv (ctrl_wr (ctrl_wr m i v) (i + 2 ^ k - 1) w) B {[i]} (nBlock m)) as H2.
  { intros v w. apply ctrl_wr_inv; [done| |lia]. intros k' f' Hb'. apply elem_of_singleton.
    destruct (decide (i + 2 ^ k - 1 = i)); [done|].
    destruct (inv_blk _ _ _ _ Hi _ _ _ Hb') as (? & _). pose proof (pow2_pos k').
    destruct (inv_disj _ _ _ _ Hi _ _ _ _ _ _ Hb Hb'); lia. }
  set (m2 := ctrl_wr (ctrl_wr m i _) (i + 2 ^ k - 1) _).
  assert (inv m2 B {[i]} (nBlock m)) as H3 by apply H2. assert (same_pool m m2) as Hp2 by done. clearbody m2.
  apply (inv_stats _ _ _ _ (stats_free (stats m2) (u32 (2 ^ k * szAtom m2)))) in H3.
  set (m3 := set_stats m2 _) in *. assert (same_pool m m3) as Hp3 by done. clearbody m3.
  pose proof (ctrl_wr_rd _ _ _ _ _ (CTRL_FREE .| k) _ _ H3 Hb) as Hc3.
  apply (ctrl_wr_inv _ _ _ _ i (CTRL_FREE .| k)) in H3; [|set_solver|done].
  pose proof Hp3 as (_ & _ & En).
  pose proof (coalesce_inv 31 _ _ _ _ _ H3 (eq_sym En) Hb Hc3 ltac:(lia)) as HC.
  destruct (coalesce_loop 31 _ i k (2 ^ k)) as [[m4 i4] k4].
  destruct HC as (B' & A1 & A2 & A3 & A4 & A5 & A6). split.
  { eapply same_pool_trans; [exact Hp3|]. eapply same_pool_trans; [exact A4|apply link_pool]. }
  exists (<[i4 := (k4, true)]> B'). split.
  { eapply inv_sub; [by apply link_inv|set_solver]. }
  intros o kk. rewrite lookup_insert_Some. split.
  - intros [[_ [=]]|[N E]]. by apply A5.
  - intros [E N]. right. assert (i4 <> o) by (intros ->; by eapply N, A6). split; [done|]. by apply A5.
Qed.

(** * The allocator interface *)

(** [m] is a valid pool whose outstanding allocations are [L]. *)
Definition mem5_rep (m : Mem5Global) (L : gmap Z Z) : Prop :=
  exists B, inv m B ∅ (nBlock m) /\
    forall p sz, L !! p = Some sz <->
      exists o k, B !! o = Some (k, false) /\ p = zPool m + o * szAtom m /\ sz = szAtom m * 2 ^ k.

Lemma atom_pos m B X c : inv m B X c -> 0 < szAtom m.
Proof. intros Hi. destruct (geo_atom _ (inv_geo _ _ _ _ Hi)) as (s & Hs & ->). apply pow2_pos. lia. Qed.

Lemma rep_addr m L p sz : mem5_rep m L -> L !! p = Some sz -> 0 < p.
Proof.
  intros (B & Hi & HL) (o & k & Hb & -> & _)%HL. destruct (inv_blk _ _ _ _ Hi _ _ _ Hb) as (_ & ? & _).
  pose proof (atom_pos _ _ _ _ Hi). pose proof (geo_pool _ (inv_geo _ _ _ _ Hi)). nia.
Qed.

Lemma rep_null m L : mem5_rep m L -> L !! 0 = None.
Proof. intros HR. destruct (L !! 0) as [sz|] eqn:E; [|done]. by apply (rep_addr _ _ _ _ HR) in E. Qed.

Lemma rep_pos m L p sz : mem5_rep m L -> L !! p = Some sz -> 0 < sz < 2 ^ 31.
Proof.
  intros (B & Hi & HL) (o & k & Hb & _ & ->)%HL. destruct (inv_blk _ _ _ _ Hi _ _ _ Hb) as (Hk & Ho & _ & Ht & _).
  pose proof (atom_pos _ _ _ _ Hi). pose proof (pow2_pos k). pose proof (geo_nblock _ (inv_geo _ _ _ _ Hi)). nia.
Qed.

Lemma rep_disjoint m L p sp q sq :
  mem5_rep m L -> L !! p = Some sp -> L !! q = Some sq -> p <> q -> p + sp <= q \/ q + sq <= p.
Proof.
  intros (B & Hi & HL) (o & k & Hb & -> & ->)%HL (o' & k' & Hb' & -> & ->)%HL Hne.
  pose proof (atom_pos _ _ _ _ Hi).
  destruct (inv_disj _ _ _ _ Hi _ _ _ _ _ _ Hb Hb'); [congruence|left; nia|right; nia].
Qed.

Lemma rep_size m L p sz : mem5_rep m L -> L !! p = Some sz -> memsys5Size m p = sz.
Proof.
  intros HR HL. pose proof (rep_null _ _ HR) as Hnull. destruct HR as (B & Hi & HL').
  unfold memsys5Size. rewrite (proj2 (Z.eqb_neq p 0)) by congruence.
  apply HL' in HL as (o & k & Hb & -> & ->). destruct (inv_blk _ _ _ _ Hi _ _ _ Hb) as (Hk & _ & _ & _ & Hc).
  pose proof (atom_pos _ _ _ _ Hi). replace (zPool m + o * szAtom m - zPool m) with (o * szAtom m) by lia.
  rewrite Z.div_mul by lia. rewrite Hc, ctrl_log, Z.shiftl_1_l by (done || set_solver). done.
Qed.

Lemma rep_malloc_unsafe oob m L n : mem5_rep m L -> 0 < n ->
  let '(p, m') := memsys5MallocUnsafe oob m n in
  (p = 0 /\ mem5_rep m' L) \/
  (p <> 0 /\ 0 < n /\ L !! p = None /\ exists sz, n <= sz /\ mem5_rep m' (<[p := sz]> L)).
Proof.
  intros (B & Hi & HL) Hn. pose proof (malloc_inv oob m B n Hi Hn) as HM.
  destruct (memsys5MallocUnsafe oob m n) as [p m']. destruct HM as [(P1 & P2 & P3) HM].
  destruct HM as [[-> Hi']|(B' & i & k & -> & Hsz & Hi' & Hbi & Hno & Hout)].
  - left. split; [done|]. exists B. rewrite P3. split; [done|]. by rewrite P1, P2.
  - right. pose proof (atom_pos _ _ _ _ Hi). pose proof (geo_pool _ (inv_geo _ _ _ _ Hi)).
    destruct (inv_blk _ _ _ _ Hi' _ _ _ Hbi) as (_ & Hi0 & _).
    split; [nia|]. split; [done|]. split.
    { destruct (L !! _) as [sz|] eqn:E; [exfalso|done]. apply HL in E as (o & k' & Hb & E & _).
      replace o with i in Hb by nia. by eapply Hno. }
    exists (szAtom m * 2 ^ k). split; [done|]. exists B'. rewrite P3. split; [done|].
    intros p sz. rewrite lookup_insert_Some, HL, P1, P2. split.
    + intros [[<- <-]|[Hne (o & k' & Hb & -> & ->)]]; [by eexists _, _|].
      exists o, k'. split; [|done]. apply Hout; [|done]. intros ->. done.
    + intros (o & k' & Hb & -> & ->). destruct (decide (o = i)) as [->|Hne].
      * left. rewrite Hbi in Hb. by injection Hb as ->.
      * right. split; [nia|]. exists o, k'. split; [|done]. by apply Hout.
Qed.

Lemma rep_free m L p sz : mem5_rep m L -> L !! p = Some sz -> mem5_rep (memsys5FreeUnsafe m p) (delete p L).
Proof.
  intros (B & Hi & HL) (i & k & Hb & -> & ->)%HL.
  destruct (free_inv m B i k Hi Hb) as ((P1 & P2 & P3) & B' & Hi' & Hout).
  exists B'. rewrite P3. split; [done|]. intros p sz. rewrite lookup_delete_Some, HL, P1, P2.
  pose proof (atom_pos _ _ _ _ Hi). split.
  - intros [Hne (o & k' & Hb' & -> & ->)]. exists o, k'. split; [|done]. apply Hout. split; [done|]. intros ->. done.
  - intros (o & k' & [Hb' Hne]%Hout & -> & ->). split; [nia|]. by exists o, k'.
Qed.

Lemma rep_realloc oob m L p sz n : mem5_rep m L -> L !! p = Some sz -> 0 <= n ->
  let '(q, m') := memsys5Realloc oob m p n in
  (q = 0 /\ mem5_rep m' L) \/
  (q <> 0 /\ 0 < n /\ (q = p \/ L !! q = None) /\ exists sz', n <= sz' /\ mem5_rep m' (<[q := sz']> (delete p L))).
Proof.
  intros HR HL Hn. unfold memsys5Realloc. destruct (Z.eqb_spec n 0) as [->|Hn0]; [by left|].
  rewrite (rep_size _ _ _ _ HR HL). pose proof (rep_pos _ _ _ _ HR HL) as Hpos.
  destruct (Z.leb_spec n sz).
  - right. split; [intros ->; by rewrite (rep_null _ _ HR) in HL|]. split; [lia|]. split; [by left|].
    exists sz. split; [done|]. by rewrite insert_delete_id.
  - pose proof (rep_malloc_unsafe oob m L n HR ltac:(lia)) as HM.
    destruct (memsys5MallocUnsafe oob m n) as [q m'].
    destruct HM as [[-> HR']|(Hq & _ & Hnew & sz' & Hsz & HR')]; [by left|].
    rewrite (proj2 (Z.eqb_neq q 0)) by done. cbn [negb]. right. split; [done|]. split; [lia|]. split; [by right|].
    exists sz'. split; [done|]. assert (p <> q) by congruence.
    rewrite <- delete_insert_ne by done. eapply rep_free; [done|]. by rewrite lookup_insert_ne.
Qed.

Lemma rep_roundup m L n : mem5_rep m L -> 0 < n -> memsys5Roundup m n = 0 \/ n <= memsys5Roundup m n.
Proof.
  intros (B & Hi & _) Hn. unfold memsys5Roundup. destruct (Z.ltb_spec 0x40000000 n); [by left|right].
  destruct (geo_atom _ (inv_geo _ _ _ _ Hi)) as (s & Hs & ->).
  pose proof (round_loop_spec 31 (2 ^ s) 0 n s) as HR. destruct (round_loop 31 (2 ^ s) 0 n) as [f l]. cbn.
  destruct HR as (_ & ? & _); [lia|lia|by rewrite Z.add_0_r|lia|lia|lia|done].
Qed.

Section Methods.
Context (oob : Z).

#[export] Instance mem5_methods : MemMethods Mem5Global.
Proof.
  refine {| xMalloc := memsys5Malloc oob; xFree := memsys5Free; xRealloc := memsys5Realloc oob;
            xSize := memsys5Size; xRoundup := memsys5Roundup; mm_inv := mem5_rep;
            mm_addr := rep_addr; mm_pos := rep_pos; mm_disjoint := rep_disjoint; mm_free := rep_free;
            mm_realloc := rep_realloc oob; mm_size := rep_size; mm_roundup := rep_roundup |}.
  intros m L n HR. unfold memsys5Malloc. destruct (Z.ltb_spec 0 n); [|by left].
  by apply rep_malloc_unsafe.
Defined.
End Methods.

(** * Initialisation *)

Lemma extend_inv m B X c k :
  inv m B X c -> 0 <= k <= 30 -> (2 ^ k | c) -> c + 2 ^ k <= nBlock m ->
  inv m (<[c := (k, false)]> B) ({[c]} ∪ X) (c + 2 ^ k) /\ B !! c = None.
Proof.
  intros Hi Hk Hd Hc. pose proof (pow2_pos k ltac:(lia)) as Hp.
  assert (forall o k f, B !! o = Some (k, f) -> 0 < 2 ^ k /\ o + 2 ^ k <= c) as Hlt.
  { intros o k' f' Hb. destruct (inv_blk _ _ _ _ Hi _ _ _ Hb) as (? & _ & _ & ? & _). split; [apply pow2_pos; lia|done]. }
  assert (B !! c = None) as Hn.
  { destruct (B !! c) as [[k' f']|] eqn:E; [|done]. destruct (Hlt _ _ _ E). lia. }
  split; [|done]. destruct Hi as [G T K D C F]. split.
  - done.
  - lia.
  - intros o k' f'. rewrite lookup_insert_Some. intros [[<- [= <- <-]]|[Hne Hb]].
    + split; [lia|]. split; [lia|]. split; [done|]. split; [lia|]. set_solver.
    + destruct (K _ _ _ Hb) as (? & ? & ? & ? & Hct). split; [lia|]. split; [lia|]. split; [done|].
      split; [lia|]. intros. apply Hct. set_solver.
  - intros o1 k1 f1 o2 k2 f2. rewrite !lookup_insert_Some.
    intros [[<- [= <- <-]]|[? E1]] [[<- [= <- <-]]|[? E2]] ?; [done| | |by eapply D].
    + destruct (Hlt _ _ _ E2). lia.
    + destruct (Hlt _ _ _ E1). lia.
  - intros j Hj. destruct (Z.lt_ge_cases j c).
    + destruct (C j) as (o & k' & f' & Hb & Hr); [lia|]. exists o, k', f'. split; [|done].
      rewrite lookup_insert_ne; [done|congruence].
    + exists c, k, false. rewrite lookup_insert_eq. split; [done|lia].
  - intros k' Hk'. eapply bins_ext; [|by apply F]. intros o k2. rewrite lookup_insert_Some. split.
    + intros [[_ [=]]|[_ ?]]. done.
    + intros Hb. right. split; [congruence|done].
Qed.

Lemma init_loop_inv k m B c :
  (k <= 31)%nat -> inv m B ∅ c -> (2 ^ Z.of_nat k | c) -> nBlock m - c < 2 ^ Z.of_nat k ->
  (forall o kk f, B !! o = Some (kk, f) -> f = true) ->
  exists B', inv (init_loop k m c) B' ∅ (nBlock m) /\ same_pool m (init_loop k m c) /\
    (forall o kk f, B' !! o = Some (kk, f) -> f = true).
Proof.
  revert m B c. induction k as [|k IH]; intros m B c Hk Hi Hd Hlt Hfree; cbn [init_loop].
  { exists B. pose proof (inv_top _ _ _ _ Hi). change (2 ^ Z.of_nat 0) with 1 in Hlt.
    replace (nBlock m) with c by lia. by split. }
  set (ii := Z.of_nat k). assert (0 <= ii <= 30) as Hii by lia.
  rewrite Nat2Z.inj_succ, <- Z.add_1_r, pow2_succ in Hlt by lia. rewrite Z.shiftl_1_l. fold ii in Hlt.
  assert ((2 ^ ii | c)) as Hd' by (eapply Z.divide_trans; [apply (pow2_divide ii (Z.of_nat (S k))); lia|done]).
  destruct (Z.leb_spec (c + 2 ^ ii) (nBlock m)).
  - destruct (extend_inv m B ∅ c ii Hi Hii Hd' ltac:(lia)) as [H1 Hn]. pose proof (inv_top _ _ _ _ Hi) as Ht.
    assert ((<[c := (ii, false)]> B) !! c = Some (ii, false)) as Hb by by rewrite lookup_insert_eq.
    rewrite Z.lor_comm. pose proof (ctrl_wr_rd _ _ _ _ _ (CTRL_FREE .| ii) _ _ H1 Hb) as Hct.
    apply (ctrl_wr_inv _ _ _ _ c (CTRL_FREE .| ii)) in H1; [|set_solver|lia].
    pose proof (link_inv _ _ _ _ _ _ H1 Hb Hct) as H2.
    pose proof (link_pool (ctrl_wr m c (CTRL_FREE .| ii)) c ii) as (P1 & P2 & P3).
    destruct (IH _ _ _ ltac:(lia) (inv_sub _ _ _ ∅ _ H2 ltac:(set_solver))) as (B' & A1 & A2 & A3).
    + apply Z.divide_add_r; [done|apply Z.divide_refl].
    + rewrite P3. unfold ctrl_wr. fld. fold ii. lia.
    + intros o kk f. rewrite insert_insert_eq, lookup_insert_Some. intros [[_ [= _ <-]]|[_ ?]]; eauto.
    + exists B'. rewrite P3 in A1. split; [exact A1|]. split; [|done].
      eapply same_pool_trans; [|exact A2]. eapply same_pool_trans; [apply ctrl_pool|apply link_pool].
  - apply (IH m B c); [lia|done|done|fold ii; lia|done].
Qed.

(** [memsys5Log] is the ceiling of the base-2 logarithm, as its comment says. *)
Lemma memsys5Log_spec v : 0 < v < 2 ^ 31 -> memsys5Log v = Z.log2_up v.
Proof.
  intros Hv.  unfold memsys5Log. assert (0 <= Z.log2_up v <= 31) as Hu.
  { split; [apply Z.log2_up_nonneg|]. apply Z.log2_up_le_pow2; lia. }
  assert (forall fuel i, 0 <= i <= Z.log2_up v -> Z.log2_up v - i <= Z.of_nat fuel ->
    log_loop fuel i v = Z.log2_up v) as H; [|apply H; lia].
  induction fuel as [|fuel IH]; intros i Hi Hf; cbn [log_loop]; [lia|].
  rewrite Z.shiftl_1_l. destruct (Z.ltb_spec (2 ^ i) v) as [Hlt|Hge].
  - assert (i < Z.log2_up v) by (apply Z.log2_up_lt_pow2; lia).
    rewrite (proj2 (Z.ltb_lt i 31)) by lia. cbn [andb]. apply IH; lia.
  - rewrite andb_false_r. apply Z.log2_up_le_pow2 in Hge; lia.
Qed.

Lemma atom_loop_spec l : 0 <= l -> atom_loop 4 (2 ^ l) = 2 ^ (Z.max 3 l).
Proof.
  intros Hl. destruct (Z.le_gt_cases 3 l) as [H3|H3].
  - rewrite Z.max_r by done. cbn [atom_loop]. rewrite (proj2 (Z.ltb_ge _ 8)); [done|].
    change 8 with (2 ^ 3). by apply Z.pow_le_mono_r.
  - assert (l = 0 \/ l = 1 \/ l = 2) as [->|[->| ->]] by lia; reflexivity.
Qed.

(** The atom size [memsys5Init] settles on. *)
Definition init_atom (mnReq : Z) : Z := atom_loop 4 (1 << memsys5Log mnReq).

Lemma init_atom_spec r : 1 <= r <= 2 ^ 12 ->
  exists s, 3 <= s <= 12 /\ init_atom r = 2 ^ s /\ r <= 2 ^ s.
Proof.
  intros Hr. unfold init_atom. rewrite memsys5Log_spec, Z.shiftl_1_l, atom_loop_spec
    by (lia || apply Z.log2_up_nonneg).
  assert (Z.log2_up r <= 12) by (apply Z.log2_up_le_pow2; lia).
  pose proof (Z.log2_up_nonneg r). exists (Z.max 3 (Z.log2_up r)). split; [lia|]. split; [done|].
  apply Z.log2_up_le_pow2; lia.
Qed.

(** A pool as [sqlite3_config] sets it up: [mnReq] is clamped to 1..4096 there. *)
Record pool_ok (mnReq nByte zByte : Z) (ctrl0 next0 prev0 : list Z) : Prop := {
  po_req : 1 <= mnReq <= 2 ^ 12;
  po_byte : 0 <= nByte < 2 ^ 31;
  po_addr : 0 < zByte;
  po_ctrl : Z.of_nat (length ctrl0) = nByte / (init_atom mnReq + 1);
  po_next : length next0 = length ctrl0;
  po_prev : length prev0 = length ctrl0 }.

Lemma init_rep mnReq nByte zByte st0 c0 n0 p0 :
  pool_ok mnReq nByte zByte c0 n0 p0 -> mem5_rep (memsys5Init mnReq nByte zByte st0 c0 n0 p0) ∅.
Proof.
  intros [Hr Hb Ha Hc Hn Hp]. unfold memsys5Init. fold (init_atom mnReq).
  destruct (init_atom_spec mnReq Hr) as (s & Hs & Es & _). pose proof (pow2_pos s ltac:(lia)).
  set (m := {| szAtom := _ |}).
  assert (0 <= nByte / (init_atom mnReq + 1) /\ nByte / (init_atom mnReq + 1) * init_atom mnReq < 2 ^ 31) as Hnb.
  { split; [apply Z.div_pos; lia|]. pose proof (Z.mul_div_le nByte (init_atom mnReq + 1) ltac:(lia)). nia. }
  assert (inv m ∅ ∅ 0) as H0.
  { split; try done.
    - unfold m. split; fld; [exists s; split; [lia|done]|lia|lia|done|lia|lia|lia].
    - unfold m. fld. lia.
    - intros i Hi. lia.
    - intros k Hk. exists []. split; [apply dll_nil|]. split.
      + unfold m. fld. unfold rd. rewrite nth_lookup, lookup_replicate_2 by (change (Z.to_nat (LOGMAX + 1)) with 31%nat; lia). done.
      + intros o. rewrite lookup_empty. split; [by intros ?%elem_of_nil|done]. }
  destruct (init_loop_inv (Z.to_nat (LOGMAX + 1)) m ∅ 0) as (B' & A1 & (_ & _ & A2) & A3);
    [change (Z.to_nat (LOGMAX + 1)) with 31%nat; lia|done|apply Z.divide_0_r|unfold m; fld; change (2 ^ Z.of_nat _) with (2 ^ 31); lia|done|].
  exists B'. rewrite A2. split; [exact A1|]. intros p sz. rewrite lookup_empty. split; [done|].
  intros (o & k & Hbo & _). by apply A3 in Hbo.
Qed.

Lemma rep_pool m L p sz : mem5_rep m L -> L !! p = Some sz ->
  zPool m <= p /\ p + sz <= zPool m + nBlock m * szAtom m /\ (szAtom m | p - zPool m).
Proof.
  intros (B & Hi & HL) (o & k & Hb & -> & ->)%HL.
  destruct (inv_blk _ _ _ _ Hi _ _ _ Hb) as (? & ? & _ & ? & _). pose proof (atom_pos _ _ _ _ Hi).
  split; [nia|]. split; [nia|]. exists o. lia.
Qed.

(** * Client runs *)

Inductive mem_req := ReqMalloc (n : Z) | ReqFree (p : Z) | ReqRealloc (p n : Z).

(** A client serves its requests on live blocks only, and records the blocks it holds with the
    size [memsys5Size] reports. *)
Definition mem_step (oob : Z) (st : Mem5Global * gmap Z Z) (r : mem_req) : Mem5Global * gmap Z Z :=
  let '(m, L) := st in
  match r with
  | ReqMalloc n =>
      let '(p, m) := memsys5Malloc oob m n in
      (m, if p =? 0 then L else <[p := memsys5Size m p]> L)
  | ReqFree p => if L !! p then (memsys5Free m p, delete p L) else (m, L)
  | ReqRealloc p n =>
      if decide (0 <= n /\ is_Some (L !! p)) then
        let '(q, m) := memsys5Realloc oob m p n in
        (m, if q =? 0 then L else <[q := memsys5Size m q]> (delete p L))
      else (m, L)
  end.

Lemma mem_step_rep oob m L r : mem5_rep m L -> let '(m', L') := mem_step oob (m, L) r in mem5_rep m' L'.
Proof.
  intros HR. destruct r as [n|p|p n]; cbn [mem_step].
  - pose proof (mm_malloc (MemMethods := mem5_methods oob) m L n HR) as HM. cbn in HM.
    destruct (memsys5Malloc oob m n) as [p m'].
    destruct HM as [[-> ?]|(Hp & _ & _ & sz & _ & HR')]; [done|]. rewrite (proj2 (Z.eqb_neq p 0)) by done.
    by rewrite (rep_size _ _ _ _ HR' (lookup_insert_eq _ _ _)).
  - destruct (L !! p) eqn:E; [|done]. by eapply rep_free.
  - case_decide as Hd; [|done]. destruct Hd as [Hn0 [sz0 E]]. pose proof (rep_realloc oob m L p _ n HR E Hn0) as HM.
    destruct (memsys5Realloc oob m p n) as [q m'].
    destruct HM as [[-> ?]|(Hq & _ & _ & sz & _ & HR')]; [done|]. rewrite (proj2 (Z.eqb_neq q 0)) by done.
    by rewrite (rep_size _ _ _ _ HR' (lookup_insert_eq _ _ _)).
Qed.

Lemma mem_run_rep oob rs : forall m L, mem5_rep m L ->
  let '(m', L') := fold_left (mem_step oob) rs (m, L) in mem5_rep m' L'.
Proof.
  induction rs as [|r rs IH]; intros m L HR; [done|]. cbn [fold_left].
  pose proof (mem_step_rep oob m L r HR) as H. destruct (mem_step oob (m, L) r) as [m' L']. by apply IH.
Qed.

(** C20. Memory safety of the buddy allocator: whatever requests a client makes of a
    pool set up by [memsys5Init], the blocks it holds never overlap, each lies inside
    the pool on an atom boundary, and NULL is never among them. This does not
    depend on the word [memsys5MallocUnsafe] reads past the end of the free-list array. *)
Theorem mem5_blocks_disjoint oob mnReq nByte zByte st0 c0 n0 p0 rs
    (Hpool : pool_ok mnReq nByte zByte c0 n0 p0) :
  let m0 := memsys5Init mnReq nByte zByte st0 c0 n0 p0 in
  let '(m, L) := fold_left (mem_step oob) rs (m0, ∅) in
  L !! 0 = None /\
  forall p sp, L !! p = Some sp ->
    zPool m <= p /\ p + sp <= zPool m + nBlock m * szAtom m /\ (szAtom m | p - zPool m) /\
    forall q sq, L !! q = Some sq -> p <> q -> p + sp <= q \/ q + sq <= p.
Proof.
  intros m0. pose proof (mem_run_rep oob rs m0 ∅ (init_rep _ _ _ _ _ _ _ Hpool)) as HR.
  destruct (fold_left _ rs _) as [m L]. split; [by apply (rep_null m)|]. intros p sp HL.
  destruct (rep_pool _ _ _ _ HR HL) as (? & ? & ?). repeat (split; [done|]).
  intros q sq HLq Hne. by apply (rep_disjoint m L).
Qed.

(** A successful [memsys5Malloc] hands out a block that was not outstanding, at least as
    large as requested, and leaves every other outstanding block and the pool valid; a
    failed one changes no block. *)
Theorem mem5_malloc_correct oob m L n (HR : mem5_rep m L) :
  let '(p, m') := memsys5Malloc oob m n in
  (p = 0 /\ mem5_rep m' L) \/
  (p <> 0 /\ L !! p = None /\ n <= memsys5Size m' p /\ mem5_rep m' (<[p := memsys5Size m' p]> L)).
Proof.
  pose proof (mm_malloc (MemMethods := mem5_methods oob) m L n HR) as HM. cbn in HM.
  destruct (memsys5Malloc oob m n) as [p m'].
  destruct HM as [[-> ?]|(Hp & _ & Hn & sz & Hsz & HR')]; [by left|right].
  by rewrite (rep_size _ _ _ _ HR' (lookup_insert_eq _ _ _)).
Qed.

Definition demo_stats : Mem5Stats := Build_Mem5Stats 0 0 0 0 0 0 0 0.

Lemma demo_pool : pool_ok 16 340 4096 (replicate 20 0) (replicate 20 0) (replicate 20 0).
Proof. split; try done; vm_compute; split; discriminate. Qed.

Lemma mem5_blocks_disjoint_witness :
  let m0 := memsys5Init 16 340 4096 demo_stats (replicate 20 0) (replicate 20 0) (replicate 20 0) in
  let '(m, L) := fold_left (mem_step 0) [ReqMalloc 30; ReqMalloc 10; ReqFree 4352; ReqRealloc 4384 100] (m0, ∅) in
  L !! 0 = None.
Proof.
  intros m0. pose proof (mem5_blocks_disjoint 0 16 340 4096 demo_stats _ _ _
    [ReqMalloc 30; ReqMalloc 10; ReqFree 4352; ReqRealloc 4384 100] demo_pool) as H.
  fold m0 in H. cbv zeta in H. destruct (fold_left _ _ _) as [m L]. apply H.
Defined.

Lemma mem5_malloc_correct_witness :
  let m0 := memsys5Init 16 340 4096 demo_stats (replicate 20 0) (replicate 20 0) (replicate 20 0) in
  let '(p, m') := memsys5Malloc 0 m0 30 in p <> 0 /\ 30 <= memsys5Size m' p.
Proof.
  intros m0. pose proof (mem5_malloc_correct 0 m0 ∅ 30 (init_rep _ _ _ _ _ _ _ demo_pool)) as H.
  destruct (memsys5Malloc 0 m0 30) as [p m'] eqn:E.
  assert (p = 4352) as -> by (vm_compute in E; by injection E as <- _).
  destruct H as [[E0 _]|(H1 & _ & H2 & _)]; [discriminate E0|exact (conj H1 H2)].
Defined.
