(* ===== verification/Malloc.v ===== *)
(** The allocation layer of malloc.c, with the counters of status.c and the
    lookaside buffers of a database connection (malloc.c and main.c).

    Everything here is written against the [MemMethods] interface. The world is the
    low-level allocator state, the status counters and [mem0]. The only alarm callback
    modelled is the one the library installs itself, [softHeapLimitEnforcer]; mutexes are
    not modelled (the operations run under them). *)
From S2P Require Import Prelude Mem.
Local Open Scope Z_scope.
Local Open Scope c_scope.

Definition SQLITE_STATUS_MEMORY_USED : Z := 0.
Definition SQLITE_STATUS_SCRATCH_USED : Z := 3.
Definition SQLITE_STATUS_SCRATCH_OVERFLOW : Z := 4.
Definition SQLITE_STATUS_MALLOC_SIZE : Z := 5.
Definition SQLITE_STATUS_SCRATCH_SIZE : Z := 8.
Definition SQLITE_STATUS_MALLOC_COUNT : Z := 9.

(** [sqlite3Stat] *)
Record sqlite3StatType := { nowValue : list Z; mxValue : list Z }.

(** [mem0]; [alarmCallback] says whether [softHeapLimitEnforcer] is installed, and the list of
    unused scratch buffers is given by its nodes. *)
Record Mem0Global := {
  alarmThreshold : Z; alarmCallback : bool; nearlyFull : Z;
  pScratchFree : list Z; nScratchFree : Z }.

Section Malloc.
Context {M : Type} `{MM : MemMethods M}.

(** The configuration in [sqlite3GlobalConfig]. *)
Context (bMemstat : bool) (pScratch pScratchEnd szScratch : Z).

Record World := { w_mem : M; w_stat : sqlite3StatType; w_mem0 : Mem0Global }.

Definition set_mem (w : World) (m : M) : World := {| w_mem := m; w_stat := w_stat w; w_mem0 := w_mem0 w |}.
Definition set_stat (w : World) (s : sqlite3StatType) : World :=
  {| w_mem := w_mem w; w_stat := s; w_mem0 := w_mem0 w |}.
Definition set_mem0 (w : World) (m0 : Mem0Global) : World :=
  {| w_mem := w_mem w; w_stat := w_stat w; w_mem0 := m0 |}.

(** ** status.c *)

Definition sqlite3StatusValue (w : World) (op : Z) : Z := rd (nowValue (w_stat w)) op.

(** The common tail of [sqlite3StatusAdd] and [sqlite3StatusSet]. *)
Definition stat_store (s : sqlite3StatType) (op v : Z) : sqlite3StatType :=
  {| nowValue := wr (nowValue s) op v;
     mxValue := if rd (mxValue s) op <? v then wr (mxValue s) op v else mxValue s |}.

Definition sqlite3StatusAdd (w : World) (op N : Z) : World :=
  set_stat w (stat_store (w_stat w) op (i32 (rd (nowValue (w_stat w)) op + N))).

Definition sqlite3StatusSet (w : World) (op X : Z) : World :=
  set_stat w (stat_store (w_stat w) op X).

(** [None] is SQLITE_MISUSE; otherwise the current value and the high-water mark. *)
Definition sqlite3_status (w : World) (op : Z) (resetFlag : bool) : option (Z * Z) * World :=
  if (op <? 0) || (10 <=? op) then (None, w)
  else
    let s := w_stat w in
    (Some (rd (nowValue s) op, rd (mxValue s) op),
     if resetFlag
     then set_stat w {| nowValue := nowValue s; mxValue := wr (mxValue s) op (rd (nowValue s) op) |}
     else w).

(** ** malloc.c *)

Definition sqlite3_memory_used (w : World) : Z :=
  match sqlite3_status w SQLITE_STATUS_MEMORY_USED false with (Some (n, _), _) => n | _ => 0 end.

Definition sqlite3_memory_highwater (w : World) (resetFlag : bool) : Z * World :=
  match sqlite3_status w SQLITE_STATUS_MEMORY_USED resetFlag with (Some (_, mx), w) => (mx, w) | (None, w) => (0, w) end.

(** Without SQLITE_ENABLE_MEMORY_MANAGEMENT this is a no-op returning zero. *)
Definition sqlite3_release_memory (w : World) (n : Z) : Z * World := (0, w).

Definition softHeapLimitEnforcer (w : World) (allocSize : Z) : World := (sqlite3_release_memory w allocSize).2.

Definition set_callback (w : World) (b : bool) : World :=
  let m0 := w_mem0 w in
  set_mem0 w {| alarmThreshold := alarmThreshold m0; alarmCallback := b; nearlyFull := nearlyFull m0;
                pScratchFree := pScratchFree m0; nScratchFree := nScratchFree m0 |}.
Definition set_nearly (w : World) (n : Z) : World :=
  let m0 := w_mem0 w in
  set_mem0 w {| alarmThreshold := alarmThreshold m0; alarmCallback := alarmCallback m0; nearlyFull := n;
                pScratchFree := pScratchFree m0; nScratchFree := nScratchFree m0 |}.
Definition set_scratch (w : World) (l : list Z) (n : Z) : World :=
  let m0 := w_mem0 w in
  set_mem0 w {| alarmThreshold := alarmThreshold m0; alarmCallback := alarmCallback m0; nearlyFull := nearlyFull m0;
                pScratchFree := l; nScratchFree := n |}.

Definition sqlite3MemoryAlarm (w : World) (xCallback : bool) (iThreshold : Z) : World :=
  let m0 := w_mem0 w in
  let nUsed := sqlite3StatusValue w SQLITE_STATUS_MEMORY_USED in
  set_mem0 w {| alarmThreshold := iThreshold; alarmCallback := xCallback;
                nearlyFull := Z.b2z ((0 <? iThreshold) && (iThreshold <=? nUsed));
                pScratchFree := pScratchFree m0; nScratchFree := nScratchFree m0 |}.

(** [initialized] is the success of [sqlite3_initialize]. *)
Definition sqlite3_soft_heap_limit64 (initialized : bool) (w : World) (n : Z) : Z * World :=
  if negb initialized then (-1, w)
  else
    let priorLimit := alarmThreshold (w_mem0 w) in
    if n <? 0 then (priorLimit, w)
    else
      let w := if 0 <? n then sqlite3MemoryAlarm w true n else sqlite3MemoryAlarm w false 0 in
      let excess := sqlite3_memory_used w - n in
      let w := if 0 <? excess then (sqlite3_release_memory w (excess .& 0x7fffffff)).2 else w in
      (priorLimit, w).

(** The callback slot is emptied while the callback runs. *)
Definition sqlite3MallocAlarm (w : World) (nByte : Z) : World :=
  if alarmCallback (w_mem0 w) then
    let w := set_callback w false in
    let w := softHeapLimitEnforcer w nByte in
    set_callback w true
  else w.

Definition sqlite3MallocSize (w : World) (p : Z) : Z := xSize (w_mem w) p.

Definition mallocWithAlarm (w : World) (n : Z) : Z * Z * World :=
  let nFull := xRoundup (w_mem w) n in
  let w := sqlite3StatusSet w SQLITE_STATUS_MALLOC_SIZE n in
  let w :=
    if alarmCallback (w_mem0 w) then
      let nUsed := sqlite3StatusValue w SQLITE_STATUS_MEMORY_USED in
      if alarmThreshold (w_mem0 w) - nFull <=? nUsed then
        sqlite3MallocAlarm (set_nearly w 1) nFull
      else set_nearly w 0
    else w in
  let '(p, m) := xMalloc (w_mem w) nFull in
  let w := set_mem w m in
  if negb (p =? 0) then
    let nFull := sqlite3MallocSize w p in
    let w := sqlite3StatusAdd w SQLITE_STATUS_MEMORY_USED nFull in
    let w := sqlite3StatusAdd w SQLITE_STATUS_MALLOC_COUNT 1 in
    (nFull, p, w)
  else (nFull, p, w).

Definition sqlite3Malloc (w : World) (n : Z) : Z * World :=
  if (n <=? 0) || (0x7fffff00 <=? n) then (0, w)
  else if bMemstat then let '(_, p, w) := mallocWithAlarm w n in (p, w)
  else let '(p, m) := xMalloc (w_mem w) n in (p, set_mem w m).

Definition sqlite3_free (w : World) (p : Z) : World :=
  if p =? 0 then w
  else if bMemstat then
    let w := sqlite3StatusAdd w SQLITE_STATUS_MEMORY_USED (- sqlite3MallocSize w p) in
    let w := sqlite3StatusAdd w SQLITE_STATUS_MALLOC_COUNT (-1) in
    set_mem w (xFree (w_mem w) p)
  else set_mem w (xFree (w_mem w) p).

Definition sqlite3Realloc (w : World) (pOld nBytes : Z) : Z * World :=
  if pOld =? 0 then sqlite3Malloc w nBytes
  else if nBytes <=? 0 then (0, sqlite3_free w pOld)
  else if 0x7fffff00 <=? nBytes then (0, w)
  else
    let nOld := sqlite3MallocSize w pOld in
    let nNew := xRoundup (w_mem w) nBytes in
    if nOld =? nNew then (pOld, w)
    else if bMemstat then
      let w := sqlite3StatusSet w SQLITE_STATUS_MALLOC_SIZE nBytes in
      let nDiff := nNew - nOld in
      let w := if alarmThreshold (w_mem0 w) - nDiff <=? sqlite3StatusValue w SQLITE_STATUS_MEMORY_USED
               then sqlite3MallocAlarm w nDiff else w in
      let '(pNew, m) := xRealloc (w_mem w) pOld nNew in
      let w := set_mem w m in
      let '(pNew, w) :=
        if (pNew =? 0) && alarmCallback (w_mem0 w) then
          let w := sqlite3MallocAlarm w nBytes in
          let '(pNew, m) := xRealloc (w_mem w) pOld nNew in (pNew, set_mem w m)
        else (pNew, w) in
      if negb (pNew =? 0) then
        let nNew := sqlite3MallocSize w pNew in
        (pNew, sqlite3StatusAdd w SQLITE_STATUS_MEMORY_USED (nNew - nOld))
      else (pNew, w)
    else let '(pNew, m) := xRealloc (w_mem w) pOld nNew in (pNew, set_mem w m).

Definition sqlite3ScratchMalloc (w : World) (n : Z) : Z * World :=
  let m0 := w_mem0 w in
  if negb (nScratchFree m0 =? 0) && (n <=? szScratch) then
    let p := hd 0 (pScratchFree m0) in
    let w := set_scratch w (tail (pScratchFree m0)) (u32 (nScratchFree m0 - 1)) in
    let w := sqlite3StatusAdd w SQLITE_STATUS_SCRATCH_USED 1 in
    (p, sqlite3StatusSet w SQLITE_STATUS_SCRATCH_SIZE n)
  else if bMemstat then
    let w := sqlite3StatusSet w SQLITE_STATUS_SCRATCH_SIZE n in
    let '(n, p, w) := mallocWithAlarm w n in
    (p, if negb (p =? 0) then sqlite3StatusAdd w SQLITE_STATUS_SCRATCH_OVERFLOW n else w)
  else let '(p, m) := xMalloc (w_mem w) n in (p, set_mem w m).

Definition sqlite3ScratchFree (w : World) (p : Z) : World :=
  if p =? 0 then w
  else if (pScratch <=? p) && (p <? pScratchEnd) then
    let m0 := w_mem0 w in
    let w := set_scratch w (p :: pScratchFree m0) (u32 (nScratchFree m0 + 1)) in
    sqlite3StatusAdd w SQLITE_STATUS_SCRATCH_USED (-1)
  else if bMemstat then
    let iSize := sqlite3MallocSize w p in
    let w := sqlite3StatusAdd w SQLITE_STATUS_SCRATCH_OVERFLOW (- iSize) in
    let w := sqlite3StatusAdd w SQLITE_STATUS_MEMORY_USED (- iSize) in
    let w := sqlite3StatusAdd w SQLITE_STATUS_MALLOC_COUNT (-1) in
    set_mem w (xFree (w_mem w) p)
  else set_mem w (xFree (w_mem w) p).

(** ** Lookaside *)

(** The lookaside part of a connection; the free list is given by its slots. *)
Record Lookaside := {
  sz : Z; bEnabled : bool; bMalloced : bool; nOut : Z; mxOut : Z; anStat : list Z;
  pFree : list Z; pStart : Z; pEnd : Z }.

(** What the allocator reads and writes of a [sqlite3] connection at address [db_addr]. *)
Record Db := { db_addr : Z; mallocFailed : bool; lookaside : Lookaside; pnBytesFreed : option Z }.

Definition set_failed (db : Db) (b : bool) : Db :=
  {| db_addr := db_addr db; mallocFailed := b; lookaside := lookaside db; pnBytesFreed := pnBytesFreed db |}.
Definition set_lk (db : Db) (l : Lookaside) : Db :=
  {| db_addr := db_addr db; mallocFailed := mallocFailed db; lookaside := l; pnBytesFreed := pnBytesFreed db |}.
Definition set_freed (db : Db) (n : Z) : Db :=
  {| db_addr := db_addr db; mallocFailed := mallocFailed db; lookaside := lookaside db; pnBytesFreed := Some n |}.
Definition lk_stat (l : Lookaside) (k : Z) : Lookaside :=
  {| sz := sz l; bEnabled := bEnabled l; bMalloced := bMalloced l; nOut := nOut l; mxOut := mxOut l;
     anStat := wr (anStat l) k (i32 (rd (anStat l) k + 1)); pFree := pFree l; pStart := pStart l; pEnd := pEnd l |}.

Definition isLookaside (db : Db) (p : Z) : bool :=
  (pStart (lookaside db) <=? p) && (p <? pEnd (lookaside db)).

Definition sqlite3DbMallocSize (w : World) (db : Db) (p : Z) : Z :=
  if isLookaside db p then sz (lookaside db) else xSize (w_mem w) p.

(** Taking the first free slot. *)
Definition lk_take (l : Lookaside) (rest : list Z) : Lookaside :=
  let nOut' := i32 (nOut l + 1) in
  {| sz := sz l; bEnabled := bEnabled l; bMalloced := bMalloced l; nOut := nOut';
     mxOut := if mxOut l <? nOut' then nOut' else mxOut l;
     anStat := wr (anStat l) 0 (i32 (rd (anStat l) 0 + 1));
     pFree := rest; pStart := pStart l; pEnd := pEnd l |}.

Definition lk_give (l : Lookaside) (p : Z) : Lookaside :=
  {| sz := sz l; bEnabled := bEnabled l; bMalloced := bMalloced l; nOut := i32 (nOut l - 1);
     mxOut := mxOut l; anStat := anStat l; pFree := p :: pFree l; pStart := pStart l; pEnd := pEnd l |}.

(** [p = sqlite3Malloc(n); if( !p && db ) db->mallocFailed = 1;] *)
Definition db_heap_malloc (w : World) (db : Db) (n : Z) : Z * World * Db :=
  let '(p, w) := sqlite3Malloc w n in
  (p, w, if p =? 0 then set_failed db true else db).

Definition sqlite3DbMallocRaw (w : World) (db : option Db) (n : Z) : Z * World * option Db :=
  match db with
  | None => let '(p, w) := sqlite3Malloc w n in (p, w, None)
  | Some db =>
      if mallocFailed db then (0, w, Some db)
      else if bEnabled (lookaside db) then
        if sz (lookaside db) <? n then
          let '(p, w, db) := db_heap_malloc w (set_lk db (lk_stat (lookaside db) 1)) n in (p, w, Some db)
        else
          match pFree (lookaside db) with
          | [] => let '(p, w, db) := db_heap_malloc w (set_lk db (lk_stat (lookaside db) 2)) n in (p, w, Some db)
          | pBuf :: rest => (pBuf, w, Some (set_lk db (lk_take (lookaside db) rest)))
          end
      else let '(p, w, db) := db_heap_malloc w db n in (p, w, Some db)
  end.

Definition sqlite3DbFree (w : World) (db : option Db) (p : Z) : World * option Db :=
  if p =? 0 then (w, db)
  else
    match db with
    | None => (sqlite3_free w p, None)
    | Some db =>
        match pnBytesFreed db with
        | Some n => (w, Some (set_freed db (i32 (n + sqlite3DbMallocSize w db p))))
        | None =>
            if isLookaside db p then (w, Some (set_lk db (lk_give (lookaside db) p)))
            else (sqlite3_free w p, Some db)
        end
    end.

Definition sqlite3DbRealloc (w : World) (db : Db) (p n : Z) : Z * World * Db :=
  if mallocFailed db then (0, w, db)
  else if p =? 0 then
    match sqlite3DbMallocRaw w (Some db) n with (q, w, Some db) => (q, w, db) | (q, w, None) => (q, w, db) end
  else if isLookaside db p then
    if n <=? sz (lookaside db) then (p, w, db)
    else
      match sqlite3DbMallocRaw w (Some db) n with
      | (q, w, Some db) =>
          if negb (q =? 0) then
            match sqlite3DbFree w (Some db) p with (w, Some db) => (q, w, db) | (w, None) => (q, w, db) end
          else (q, w, db)
      | (q, w, None) => (q, w, db)
      end
  else
    let '(q, w) := sqlite3Realloc w p n in
    (q, w, if q =? 0 then set_failed db true else db).

Definition sqlite3DbReallocOrFree (w : World) (db : Db) (p n : Z) : Z * World * Db :=
  let '(q, w, db) := sqlite3DbRealloc w db p n in
  if q =? 0 then
    match sqlite3DbFree w (Some db) p with (w, Some db) => (q, w, db) | (w, None) => (q, w, db) end
  else (q, w, db).

Definition ROUNDDOWN8 (x : Z) : Z := x .& Z.lnot 7.

(** [for(i=cnt-1; i>=0; i--){ p->pNext = pFree; pFree = p; p = p + sz; }] *)
Fixpoint lookaside_slots (cnt : nat) (p sz : Z) (pFree : list Z) : list Z * Z :=
  match cnt with
  | O => (pFree, p)
  | S cnt => lookaside_slots cnt (p + sz) sz (p :: pFree)
  end.

Definition setupLookaside (w : World) (db : Db) (pBuf sz0 cnt : Z) : Z * World * Db :=
  let l := lookaside db in
  if negb (nOut l =? 0) then (5, w, db)
  else
    let w := if bMalloced l then sqlite3_free w (pStart l) else w in
    let sz1 := ROUNDDOWN8 sz0 in
    let sz1 := if sz1 <=? 8 then 0 else sz1 in
    let cnt := if cnt <? 0 then 0 else cnt in
    let '(sz1, p, cnt, w) :=
      if (sz1 =? 0) || (cnt =? 0) then (0, 0, cnt, w)
      else if pBuf =? 0 then
        let '(p, w) := sqlite3Malloc w (i32 (sz1 * cnt)) in
        (sz1, p, if negb (p =? 0) then sqlite3MallocSize w p / sz1 else cnt, w)
      else (sz1, pBuf, cnt, w) in
    let l' :=
      if negb (p =? 0) then
        let '(fr, e) := lookaside_slots (Z.to_nat cnt) p sz1 [] in
        {| sz := u16 sz1; bEnabled := true; bMalloced := (pBuf =? 0); nOut := nOut l; mxOut := mxOut l;
           anStat := anStat l; pFree := fr; pStart := p; pEnd := e |}
      else
        {| sz := u16 sz1; bEnabled := false; bMalloced := false; nOut := nOut l; mxOut := mxOut l;
           anStat := anStat l; pFree := []; pStart := db_addr db; pEnd := db_addr db |} in
    (0, w, set_lk db l').

(** * Accounting *)

(** Bytes outstanding. *)
Definition total (L : gmap Z Z) : Z := map_sum (fun s => s) L.

Lemma total_insert L p s : L !! p = None -> total (<[p := s]> L) = s + total L.
Proof. apply map_sum_insert. Qed.
Lemma total_delete L p s : L !! p = Some s -> total (delete p L) = total L - s.
Proof. apply map_sum_delete. Qed.

Record winv (w : World) (L : gmap Z Z) : Prop := {
  wi_mem : mm_inv (w_mem w) L;
  wi_now : length (nowValue (w_stat w)) = 10%nat;
  wi_mx : length (mxValue (w_stat w)) = 10%nat;
  wi_used : bMemstat = true -> sqlite3StatusValue w SQLITE_STATUS_MEMORY_USED = i32 (total L);
  wi_count : bMemstat = true -> sqlite3StatusValue w SQLITE_STATUS_MALLOC_COUNT = i32 (Z.of_nat (size L)) }.

Lemma i32_add a b : i32 (i32 a + b) = i32 (a + b).
Proof.
  unfold swrap. f_equal. replace ((a + 2 ^ (32 - 1)) mod 2 ^ 32 - 2 ^ (32 - 1) + b + 2 ^ (32 - 1))
    with ((a + 2 ^ (32 - 1)) mod 2 ^ 32 + b) by lia.
  rewrite Zplus_mod_idemp_l. f_equal. lia.
Qed.

(** A counter after a store. *)
Lemma value_store w op v j : length (nowValue (w_stat w)) = 10%nat -> 0 <= op < 10 -> 0 <= j ->
  sqlite3StatusValue (set_stat w (stat_store (w_stat w) op v)) j =
  if decide (j = op) then v else sqlite3StatusValue w j.
Proof.
  intros Hl Ho Hj. unfold sqlite3StatusValue. cbn [w_stat set_stat nowValue stat_store].
  case_decide as E; [subst; apply rd_wr_eq; lia|apply rd_wr_ne; lia].
Qed.

Lemma store_len s op v :
  length (nowValue (stat_store s op v)) = length (nowValue s) /\
  length (mxValue (stat_store s op v)) = length (mxValue s).
Proof. unfold stat_store. cbn. destruct (_ <? _); by rewrite ?length_wr. Qed.

(** The high-water mark never falls below the counter. *)
Definition hiwater (w : World) (op : Z) : Prop := rd (nowValue (w_stat w)) op <= rd (mxValue (w_stat w)) op.

Lemma hiwater_store w op v j :
  length (nowValue (w_stat w)) = 10%nat -> length (mxValue (w_stat w)) = 10%nat -> 0 <= op < 10 -> 0 <= j ->
  hiwater w j -> hiwater (set_stat w (stat_store (w_stat w) op v)) j.
Proof.
  intros Hn Hm Ho Hj H. unfold hiwater in *. cbn [w_stat set_stat nowValue mxValue stat_store].
  destruct (decide (j = op)) as [->|Hne].
  - rewrite rd_wr_eq by lia. destruct (Z.ltb_spec (rd (mxValue (w_stat w)) op) v); [|lia].
    rewrite rd_wr_eq by lia. lia.
  - rewrite rd_wr_ne by lia. destruct (_ <? _); [rewrite rd_wr_ne by lia|]; done.
Qed.

Lemma winv_store w L op v :
  winv w L -> 0 <= op < 10 ->
  (op = SQLITE_STATUS_MEMORY_USED -> v = i32 (total L)) ->
  (op = SQLITE_STATUS_MALLOC_COUNT -> v = i32 (Z.of_nat (size L))) ->
  winv (set_stat w (stat_store (w_stat w) op v)) L.
Proof.
  intros [Hm Hn Hx Hu Hc] Ho H0 H9. destruct (store_len (w_stat w) op v) as [E1 E2].
  split; cbn [w_mem w_stat set_stat]; [done|congruence|congruence| |]; intros Hb;
    rewrite value_store by (done || unfold SQLITE_STATUS_MEMORY_USED, SQLITE_STATUS_MALLOC_COUNT; lia);
    case_decide; auto.
Qed.

(** Changing [mem0] changes no counter. *)
Definition same_ms (w w' : World) : Prop := w_mem w' = w_mem w /\ w_stat w' = w_stat w.

Lemma winv_same w w' L : same_ms w w' -> winv w L -> winv w' L.
Proof.
  intros [E1 E2] [Hm Hn Hx Hu Hc]. unfold sqlite3StatusValue in *.
  split; unfold sqlite3StatusValue; rewrite ?E1, ?E2; done.
Qed.

Lemma alarm_same w n : same_ms w (sqlite3MallocAlarm w n).
Proof. unfold sqlite3MallocAlarm. by destruct (alarmCallback _). Qed.

(** The bookkeeping of an allocation and of a release. *)
Lemma winv_count w m L L' s c :
  winv w L -> bMemstat = true -> mm_inv m L' -> total L' = total L + s ->
  Z.of_nat (size L') = Z.of_nat (size L) + c ->
  winv (sqlite3StatusAdd (sqlite3StatusAdd (set_mem w m) SQLITE_STATUS_MEMORY_USED s)
          SQLITE_STATUS_MALLOC_COUNT c) L'.
Proof.
  intros [Hm Hn Hx Hu Hc] Hb Hm' Ht Hs. unfold sqlite3StatusAdd at 2.
  set (w1 := set_stat (set_mem w m) _).
  destruct (store_len (w_stat (set_mem w m)) SQLITE_STATUS_MEMORY_USED
    (i32 (rd (nowValue (w_stat (set_mem w m))) SQLITE_STATUS_MEMORY_USED + s))) as [E1 E2].
  assert (length (nowValue (w_stat w1)) = 10%nat) as Hl1 by (unfold w1; cbn in *; congruence).
  unfold sqlite3StatusAdd. set (v := i32 (rd _ SQLITE_STATUS_MALLOC_COUNT + c)).
  destruct (store_len (w_stat w1) SQLITE_STATUS_MALLOC_COUNT v) as [E3 E4].
  split; [done|cbn in *; congruence|cbn in *; congruence| |]; intros _.
  - rewrite value_store by (done || unfold SQLITE_STATUS_MALLOC_COUNT, SQLITE_STATUS_MEMORY_USED; lia).
    rewrite decide_False by done. unfold w1. rewrite value_store by done. rewrite decide_True by done.
    change (rd _ _) with (sqlite3StatusValue w SQLITE_STATUS_MEMORY_USED).
    rewrite Hu by done. by rewrite i32_add, Ht.
  - rewrite value_store by (done || unfold SQLITE_STATUS_MALLOC_COUNT; lia).
    rewrite decide_True by done. unfold v. change (rd _ _) with (sqlite3StatusValue w1 SQLITE_STATUS_MALLOC_COUNT).
    unfold w1. rewrite value_store by done. rewrite decide_False by done.
    change (sqlite3StatusValue (set_mem w m) _) with (sqlite3StatusValue w SQLITE_STATUS_MALLOC_COUNT).
    rewrite Hc by done. by rewrite i32_add, Hs.
Qed.

Lemma winv_heap w m L L' : bMemstat = false -> winv w L -> mm_inv m L' -> winv (set_mem w m) L'.
Proof. intros Hb [Hm Hn Hx Hu Hc] Hm'. split; [done|done|done|by rewrite Hb|by rewrite Hb]. Qed.

Lemma size_insert_new (L : gmap Z Z) p s :
  L !! p = None -> Z.of_nat (size (<[p := s]> L)) = Z.of_nat (size L) + 1.
Proof. intros. rewrite map_size_insert_None by done. lia. Qed.
Lemma size_delete_old (L : gmap Z Z) p s :
  L !! p = Some s -> Z.of_nat (size (delete p L)) = Z.of_nat (size L) - 1.
Proof.
  intros H. rewrite map_size_delete_Some by done.
  assert (size L <> 0%nat); [|lia]. intros E%map_size_empty_inv. subst. done.
Qed.

(** What [mallocWithAlarm] does before it calls the allocator. *)
Lemma alarm_prelude w L n nFull :
  winv w L ->
  let w := sqlite3StatusSet w SQLITE_STATUS_MALLOC_SIZE n in
  let w' := if alarmCallback (w_mem0 w) then
      let nUsed := sqlite3StatusValue w SQLITE_STATUS_MEMORY_USED in
      if alarmThreshold (w_mem0 w) - nFull <=? nUsed then sqlite3MallocAlarm (set_nearly w 1) nFull
      else set_nearly w 0
    else w in
  winv w' L /\ w_mem w' = w_mem w.
Proof.
  intros Hw. assert (winv (sqlite3StatusSet w SQLITE_STATUS_MALLOC_SIZE n) L) as H1.
  { apply winv_store; [done|unfold SQLITE_STATUS_MALLOC_SIZE; lia|done|done]. }
  cbv zeta. destruct (alarmCallback _); [|done]. destruct (_ <=? _); [|split; [|done]].
  - destruct (alarm_same (set_nearly (sqlite3StatusSet w SQLITE_STATUS_MALLOC_SIZE n) 1) nFull) as [E1 E2].
    split; [|done]. eapply winv_same; [|exact H1]. by split.
  - eapply winv_same; [|exact H1]. done.
Qed.

Lemma mallocWithAlarm_inv w L n :
  winv w L -> bMemstat = true -> 0 < n ->
  let '(_, p, w') := mallocWithAlarm w n in
  (p = 0 /\ winv w' L) \/ (p <> 0 /\ L !! p = None /\ exists s, n <= s /\ winv w' (<[p := s]> L)).
Proof.
  intros Hw Hb Hn. unfold mallocWithAlarm.
  destruct (alarm_prelude w L n (xRoundup (w_mem w) n) Hw) as [Hw1 Em]. cbv zeta in Hw1, Em.
  set (w1 := if alarmCallback _ then _ else _) in *. cbv zeta. fold w1.
  pose proof (mm_roundup _ _ n (wi_mem _ _ Hw) Hn) as Hr.
  pose proof (mm_malloc (w_mem w1) L (xRoundup (w_mem w) n) (wi_mem _ _ Hw1)) as HM.
  destruct (xMalloc (w_mem w1) _) as [p m]. destruct HM as [[-> HM]|(Hp & Hpos & Hnew & s & Hs & HM)].
  - left. split; [done|]. destruct Hw1 as [A B C D E]. by split.
  - rewrite (proj2 (Z.eqb_neq p 0)) by done. cbn [negb]. right. split; [done|]. split; [done|].
    exists s. split; [lia|]. unfold sqlite3MallocSize. cbn [w_mem set_mem].
    rewrite (mm_size _ _ _ _ HM (lookup_insert_eq _ _ _)).
    eapply winv_count; [done|done|done|rewrite total_insert by done; lia|by apply size_insert_new].
Qed.

Lemma malloc_spec w L n :
  winv w L ->
  let '(p, w') := sqlite3Malloc w n in
  (p = 0 /\ winv w' L) \/ (p <> 0 /\ L !! p = None /\ exists s, n <= s /\ winv w' (<[p := s]> L)).
Proof.
  intros Hw. unfold sqlite3Malloc. destruct ((n <=? 0) || _) eqn:E; [by left|].
  apply orb_false_iff in E as [E _]. apply Z.leb_gt in E. destruct bMemstat eqn:Hb.
  - pose proof (mallocWithAlarm_inv w L n Hw Hb E) as H. by destruct (mallocWithAlarm w n) as [[? p] w'].
  - pose proof (mm_malloc _ _ n (wi_mem _ _ Hw)) as HM. destruct (xMalloc (w_mem w) n) as [p m].
    destruct HM as [[-> HM]|(Hp & _ & Hnew & s & Hs & HM)]; [left|right]; (split; [done|]).
    + by eapply winv_heap.
    + split; [done|]. exists s. split; [done|]. by eapply winv_heap.
Qed.

Lemma free_spec w L p s : winv w L -> L !! p = Some s -> winv (sqlite3_free w p) (delete p L).
Proof.
  intros Hw HL. pose proof (wi_mem _ _ Hw) as Hm. unfold sqlite3_free.
  rewrite (proj2 (Z.eqb_neq p 0)) by (intros ->; by rewrite (mm_null _ _ Hm) in HL).
  pose proof (mm_free _ _ _ _ Hm HL) as HF. destruct bMemstat eqn:Hb; [|by eapply winv_heap].
  unfold sqlite3MallocSize. rewrite (mm_size _ _ _ _ Hm HL).
  apply (winv_count w (xFree (w_mem w) p) L); [done|done|done| |].
  - rewrite (total_delete _ _ _ HL). lia.
  - rewrite (size_delete_old _ _ _ HL). lia.
Qed.

Lemma winv_used w m L L' d :
  winv w L -> bMemstat = true -> mm_inv m L' -> total L' = total L + d -> size L' = size L ->
  winv (sqlite3StatusAdd (set_mem w m) SQLITE_STATUS_MEMORY_USED d) L'.
Proof.
  intros [Hm Hn Hx Hu Hc] Hb Hm' Ht Hs. unfold sqlite3StatusAdd.
  set (v := i32 _). destruct (store_len (w_stat (set_mem w m)) SQLITE_STATUS_MEMORY_USED v) as [E1 E2].
  split; [done|cbn in *; congruence|cbn in *; congruence| |]; intros _.
  - rewrite value_store by done. rewrite decide_True by done. unfold v.
    change (rd _ _) with (sqlite3StatusValue w SQLITE_STATUS_MEMORY_USED).
    rewrite Hu by done. by rewrite i32_add, Ht.
  - rewrite value_store by done. rewrite decide_False by done. rewrite Hs. by apply Hc.
Qed.

(** Replacing a block in the books. *)
Lemma replace_block (L : gmap Z Z) p s q s' :
  L !! p = Some s -> q = p \/ L !! q = None ->
  total (<[q := s']> (delete p L)) = total L + (s' - s) /\ size (<[q := s']> (delete p L)) = size L.
Proof.
  intros HL Hq. assert (delete p L !! q = None) as Hn.
  { destruct Hq as [->|?]; [apply lookup_delete_eq|]. apply lookup_delete_None. by right. }
  split.
  - rewrite total_insert, (total_delete _ _ _ HL) by done. lia.
  - apply Nat2Z.inj. rewrite size_insert_new, (size_delete_old _ _ _ HL) by done. lia.
Qed.

Definition realloc_post (L : gmap Z Z) (p n : Z) (r : Z * World) : Prop :=
  let '(q, w') := r in
  (q = 0 /\ winv w' L) \/
  (q <> 0 /\ (q = p \/ L !! q = None) /\ exists s', n <= s' /\ winv w' (<[q := s']> (delete p L))).

(** The last step of [sqlite3Realloc], once the allocator has answered. *)
Lemma realloc_book w L p s n nNew q m :
  winv w L -> bMemstat = true -> L !! p = Some s -> nNew = 0 \/ n <= nNew ->
  (q = 0 /\ mm_inv m L) \/
  (q <> 0 /\ 0 < nNew /\ (q = p \/ L !! q = None) /\
   exists s', nNew <= s' /\ mm_inv m (<[q := s']> (delete p L))) ->
  realloc_post L p n
    (if negb (q =? 0) then
       (q, sqlite3StatusAdd (set_mem w m) SQLITE_STATUS_MEMORY_USED (sqlite3MallocSize (set_mem w m) q - s))
     else (q, set_mem w m)).
Proof.
  intros Hw Hb HL Hr [[-> HM]|(Hq & Hpos & Hqp & s' & Hs & HM)].
  - left. split; [done|]. destruct Hw as [A B C D E]. by split.
  - rewrite (proj2 (Z.eqb_neq q 0)) by done. cbn [negb]. right. split; [done|]. split; [done|].
    exists s'. split; [lia|]. unfold sqlite3MallocSize. cbn [w_mem set_mem].
    rewrite (mm_size _ _ _ _ HM (lookup_insert_eq _ _ _)).
    destruct (replace_block L p s q s' HL Hqp) as [E1 E2].
    by apply (winv_used w m L).
Qed.

Lemma realloc_spec w L p s n :
  winv w L -> L !! p = Some s -> 0 < n -> realloc_post L p n (sqlite3Realloc w p n).
Proof.
  intros Hw HL Hn. pose proof (wi_mem _ _ Hw) as Hm. unfold sqlite3Realloc.
  rewrite (proj2 (Z.eqb_neq p 0)) by (intros ->; by rewrite (mm_null _ _ Hm) in HL).
  rewrite (proj2 (Z.leb_gt n 0)) by done.
  destruct (0x7fffff00 <=? n); [by left|].
  assert (sqlite3MallocSize w p = s) as -> by (by apply (mm_size _ _ _ _ Hm HL)).
  pose proof (mm_roundup _ _ n Hm Hn) as Hr. set (nNew := xRoundup (w_mem w) n) in *.
  pose proof (mm_pos _ _ _ _ Hm HL) as Hpos.
  destruct (Z.eqb_spec s nNew) as [E|_].
  { right. split; [intros ->; by rewrite (mm_null _ _ Hm) in HL|]. split; [by left|].
    exists s. split; [lia|]. by rewrite insert_delete_id. }
  assert (0 <= nNew) as Hnn by lia. destruct bMemstat eqn:Hb.
  - set (w1 := sqlite3StatusSet w SQLITE_STATUS_MALLOC_SIZE n).
    assert (winv w1 L) as Hw1
      by (apply winv_store; [done|unfold SQLITE_STATUS_MALLOC_SIZE; lia|done|done]).
    set (w2 := if _ <=? _ then _ else w1).
    assert (same_ms w1 w2) as Hs2 by (unfold w2; destruct (_ <=? _); [apply alarm_same|done]).
    assert (winv w2 L) as Hw2 by by eapply winv_same. clearbody w2.
    pose proof (mm_realloc _ _ _ _ nNew (wi_mem _ _ Hw2) HL Hnn) as HM.
    destruct (xRealloc (w_mem w2) p nNew) as [q m].
    destruct ((q =? 0) && _) eqn:Eq.
    + apply andb_true_iff in Eq as [->%Z.eqb_eq _].
      destruct HM as [[_ HM]|[? _]]; [|done].
      assert (winv (set_mem w2 m) L) as Hw3 by (destruct Hw2 as [A B C D F]; by split).
      pose proof (winv_same _ _ _ (alarm_same (set_mem w2 m) n) Hw3) as Hw4.
      pose proof (mm_realloc _ _ _ _ nNew (wi_mem _ _ Hw4) HL Hnn) as HM4.
      destruct (xRealloc _ p nNew) as [q' m'].
      by apply (realloc_book _ L p s n nNew).
    + by apply (realloc_book _ L p s n nNew).
  - pose proof (mm_realloc _ _ _ _ nNew Hm HL Hnn) as HM. destruct (xRealloc (w_mem w) p nNew) as [q m].
    destruct HM as [[-> HM]|(Hq & Hp0 & Hqp & s' & Hs & HM)]; [left|right]; (split; [done|]).
    + by eapply winv_heap.
    + split; [done|]. exists s'. split; [lia|]. by eapply winv_heap.
Qed.

(** * The connection's allocator *)

(** The slots of a connection: free ones are on the list, the others are in [O]; the buffer is
    a heap block of its own (or there are no slots). *)
Record lkinv (l : Lookaside) (L : gmap Z Z) (O : gset Z) : Prop := {
  lk_nodup : NoDup (pFree l);
  lk_split : forall p, p ∈ pFree l -> p ∉ O;
  lk_slot : forall p, p ∈ pFree l \/ p ∈ O -> pStart l <= p /\ p + sz l <= pEnd l;
  lk_sep : forall p q, p ∈ pFree l \/ p ∈ O -> q ∈ pFree l \/ q ∈ O -> p <> q -> p + sz l <= q \/ q + sz l <= p;
  lk_nout : nOut l = Z.of_nat (size O) /\ Z.of_nat (length (pFree l)) + nOut l < 2 ^ 31;
  lk_buf : (pFree l = [] /\ O = ∅ /\ pEnd l <= pStart l) \/
           (0 < sz l /\ exists s, L !! pStart l = Some s /\ pStart l < pEnd l <= pStart l + s) }.

Record dbinv (w : World) (db : Db) (L : gmap Z Z) (O : gset Z) : Prop := {
  di_w : winv w L;
  di_lk : lkinv (lookaside db) L O;
  di_freed : pnBytesFreed db = None }.

Lemma lkinv_stat l L O k : lkinv l L O -> lkinv (lk_stat l k) L O.
Proof. by intros [A B C D E F]. Qed.

(** Heap blocks other than the buffer stay clear of it. *)
Lemma heap_not_lookaside w db L O p s :
  dbinv w db L O -> L !! p = Some s ->
  pEnd (lookaside db) <= pStart (lookaside db) \/ p <> pStart (lookaside db) ->
  isLookaside db p = false.
Proof.
  intros [Hw Hl _] HL Hne. unfold isLookaside.
  destruct (lk_buf _ _ _ Hl) as [(_ & _ & Hb)|(_ & s' & Hs & Hend)].
  - destruct (Z.leb_spec (pStart (lookaside db)) p); [|done]. apply Z.ltb_ge. lia.
  - destruct (Z.leb_spec (pStart (lookaside db)) p); [|done]. apply Z.ltb_ge.
    pose proof (mm_pos _ _ _ _ (wi_mem _ _ Hw) HL). destruct Hne as [?|Hne]; [lia|].
    destruct (mm_disjoint _ _ _ _ _ _ (wi_mem _ _ Hw) HL Hs Hne); lia.
Qed.

Lemma lkinv_insert l L O p s : lkinv l L O -> L !! p = None -> lkinv l (<[p := s]> L) O.
Proof.
  intros [A B C D E F] Hp. split; try done. destruct F as [?|(Hz & s' & Hs & He)]; [by left|right].
  split; [done|]. exists s'. rewrite lookup_insert_ne; [done|congruence].
Qed.

Definition db_malloc_post (n : Z) (db : Db) (L : gmap Z Z) (O : gset Z) (r : Z * World * option Db) : Prop :=
  let '(p, w', odb) := r in
  exists db', odb = Some db' /\ pStart (lookaside db') = pStart (lookaside db) /\
    pEnd (lookaside db') = pEnd (lookaside db) /\
  ((p = 0 /\ mallocFailed db' = true /\ dbinv w' db' L O) \/
   (p <> 0 /\ mallocFailed db' = false /\ isLookaside db' p = true /\ p ∉ O /\ n <= sz (lookaside db) /\
      dbinv w' db' L ({[p]} ∪ O)) \/
   (p <> 0 /\ mallocFailed db' = false /\ isLookaside db' p = false /\ L !! p = None /\
      exists s, n <= s /\ dbinv w' db' (<[p := s]> L) O)).

Lemma heap_malloc_spec w db db0 L O n :
  dbinv w db L O -> mallocFailed db = false ->
  pStart (lookaside db) = pStart (lookaside db0) -> pEnd (lookaside db) = pEnd (lookaside db0) ->
  db_malloc_post n db0 L O (let '(p, w, db) := db_heap_malloc w db n in (p, w, Some db)).
Proof.
  intros Hd Hf Es Ee. unfold db_heap_malloc. pose proof (malloc_spec w L n (di_w _ _ _ _ Hd)) as HM.
  destruct (sqlite3Malloc w n) as [p w']. destruct HM as [[-> HM]|(Hp & Hnew & s & Hs & HM)].
  - eexists. split; [done|]. split; [done|]. split; [done|]. left. split; [done|]. split; [done|].
    destruct Hd. by split.
  - rewrite (proj2 (Z.eqb_neq p 0)) by done. exists db. split; [done|]. split; [done|]. split; [done|]. right. right.
    split; [done|]. split; [done|].
    assert (dbinv w' db (<[p := s]> L) O) as Hd'.
    { destruct Hd as [A B C]. split; [done|by apply lkinv_insert|done]. }
    split; [|split; [done|by exists s]].
    eapply heap_not_lookaside; [exact Hd'|apply lookup_insert_eq|].
    destruct (lk_buf _ _ _ (di_lk _ _ _ _ Hd)) as [(_ & _ & Hb)|(_ & s2 & Hs2 & _)]; [by left|right].
    congruence.
Qed.

Lemma db_malloc_spec w db L O n :
  dbinv w db L O -> mallocFailed db = false -> db_malloc_post n db L O (sqlite3DbMallocRaw w (Some db) n).
Proof.
  intros Hd Hf. unfold sqlite3DbMallocRaw. rewrite Hf.
  assert (forall k, dbinv w (set_lk db (lk_stat (lookaside db) k)) L O) as Hstat
    by (intros k; destruct Hd as [A B C]; split; [done|by apply lkinv_stat|done]).
  destruct (bEnabled _); [|by apply heap_malloc_spec].
  destruct (Z.ltb_spec (sz (lookaside db)) n); [by apply heap_malloc_spec|].
  destruct (pFree (lookaside db)) as [|p rest] eqn:Efree; [by apply heap_malloc_spec|].
  destruct Hd as [Hw [A B C D E F] G]. rewrite Efree in *.
  apply NoDup_cons in A as [Hni A]. assert (p ∉ O) as HpO by (apply B; by left).
  destruct F as [(? & _)|(Hz & s & Hs & Hend)]; [done|].
  assert (p ∈ p :: rest) as Hin by by left.
  destruct (C p) as [Hp1 Hp2]; [by left|]. destruct E as [E1 E2]. cbn [length] in E2.
  eexists. split; [done|]. split; [done|]. split; [done|]. right. left. split.
  { pose proof (mm_addr _ _ _ _ (wi_mem _ _ Hw) Hs). lia. }
  split; [done|]. split; [|split; [done|split; [lia|]]].
  { unfold isLookaside. cbn. apply andb_true_iff. split; [by apply Z.leb_le|apply Z.ltb_lt; lia]. }
  assert (forall q, q ∈ rest \/ q ∈ {[p]} ∪ O -> q ∈ p :: rest \/ q ∈ O) as Hslot by set_solver.
  split; [done| |done]. split; cbn [lookaside set_lk pFree lk_take sz pStart pEnd nOut].
  - done.
  - intros q Hq. assert (q ∉ O) by (apply B; by right). set_solver.
  - intros q Hq. by apply C, Hslot.
  - intros q r Hq Hr. by apply D; apply Hslot.
  - rewrite swrap_small by (lia || (unfold is_i; lia)). rewrite size_union, size_singleton by set_solver. lia.
  - right. by split; [|exists s].
Qed.

(** Giving back a slot or a heap block. *)
Lemma db_free_slot w db L O p :
  dbinv w db L O -> p ∈ O ->
  exists db', sqlite3DbFree w (Some db) p = (w, Some db') /\ dbinv w db' L (O ∖ {[p]}) /\
    mallocFailed db' = mallocFailed db /\ forall c, isLookaside db' c = isLookaside db c.
Proof.
  intros [Hw [A B C D E F] G] Hp.
  destruct F as [(_ & -> & _)|(Hz & s & Hs & Hend)]; [set_solver|].
  destruct (C p) as [Hp1 Hp2]; [by right|]. pose proof (mm_addr _ _ _ _ (wi_mem _ _ Hw) Hs) as Ha.
  unfold sqlite3DbFree. rewrite (proj2 (Z.eqb_neq p 0)), G by lia.
  assert (isLookaside db p = true) as ->.
  { unfold isLookaside. apply andb_true_iff. split; [by apply Z.leb_le|apply Z.ltb_lt; lia]. }
  eexists. split; [done|]. split; [|by split].
  assert (forall q, q ∈ p :: pFree (lookaside db) \/ q ∈ O ∖ {[p]} -> q ∈ pFree (lookaside db) \/ q ∈ O) as Hslot.
  { intros q [[->|?]%elem_of_cons|?%elem_of_difference]; tauto. }
  assert (size O <> 0%nat) as Hsz.
  { intros E0%size_empty_inv. set_solver. }
  split; [done| |done]. split; cbn [lookaside set_lk pFree lk_give sz pStart pEnd nOut].
  - constructor; [|done]. intros Hin. by apply (B p).
  - intros q [->|Hq]%elem_of_cons; [set_solver|]. specialize (B q Hq). set_solver.
  - intros q Hq. by apply C, Hslot.
  - intros q r Hq Hr. by apply D; apply Hslot.
  - rewrite swrap_small by (lia || (unfold is_i; lia)). cbn [length].
    rewrite size_difference, size_singleton by set_solver. lia.
  - right. by split; [|exists s].
Qed.

Lemma db_free_heap w db L O p s :
  dbinv w db L O -> L !! p = Some s ->
  pEnd (lookaside db) <= pStart (lookaside db) \/ p <> pStart (lookaside db) ->
  sqlite3DbFree w (Some db) p = (sqlite3_free w p, Some db) /\
  dbinv (sqlite3_free w p) db (delete p L) O.
Proof.
  intros Hd HL Hne. pose proof (heap_not_lookaside _ _ _ _ _ _ Hd HL Hne) as Hl.
  destruct Hd as [Hw Hk G]. pose proof (mm_addr _ _ _ _ (wi_mem _ _ Hw) HL).
  unfold sqlite3DbFree. rewrite (proj2 (Z.eqb_neq p 0)), G, Hl by lia. split; [done|].
  split; [by eapply free_spec| |done]. destruct Hk as [A B C D E F]. split; try done.
  destruct F as [?|(Hz & s' & Hs & Hend)]; [by left|right]. split; [done|]. exists s'. split; [|done].
  rewrite lookup_delete_ne; [done|]. destruct Hne; [lia|done].
Qed.

(** The allocation layer keeps its books: [sqlite3Malloc] returns NULL and changes
    nothing, or returns a new block of at least the requested size; in both cases
    SQLITE_STATUS_MEMORY_USED is the number of outstanding bytes and
    SQLITE_STATUS_MALLOC_COUNT the number of outstanding blocks (as 32-bit counters),
    for any low-level allocator that meets the interface. *)
Theorem sqlite3Malloc_correct w L n (Hw : winv w L) :
  let '(p, w') := sqlite3Malloc w n in
  (p = 0 /\ winv w' L) \/
  (p <> 0 /\ L !! p = None /\ exists s, n <= s /\ winv w' (<[p := s]> L)).
Proof. by apply malloc_spec. Qed.

(** [sqlite3_free] releases exactly the given block and takes its size and count
    off the counters; freeing NULL does nothing. *)
Theorem sqlite3_free_correct w L p s (Hw : winv w L) (Hp : L !! p = Some s) :
  winv (sqlite3_free w p) (delete p L) /\ sqlite3_free w 0 = w.
Proof. split; [by eapply free_spec|done]. Qed.

(** [sqlite3Realloc] on a live block: a request of at most zero bytes frees it; a
    failure keeps the old block and the books; a success leaves one block of at least
    the new size in place of the old one, with the counters following. *)
Theorem sqlite3Realloc_correct w L p s n (Hw : winv w L) (Hp : L !! p = Some s) :
  let '(q, w') := sqlite3Realloc w p n in
  if n <=? 0 then q = 0 /\ winv w' (delete p L)
  else (q = 0 /\ winv w' L) \/
       (q <> 0 /\ (q = p \/ L !! q = None) /\
        exists s', n <= s' /\ winv w' (<[q := s']> (delete p L))).
Proof.
  destruct (Z.leb_spec n 0) as [Hn|Hn]; [|by apply (realloc_spec w L p s)].
  unfold sqlite3Realloc. assert (p <> 0).
  { intros ->. by rewrite (mm_null _ _ (wi_mem _ _ Hw)) in Hp. }
  rewrite (proj2 (Z.eqb_neq p 0)), (proj2 (Z.leb_le n 0)) by done. split; [done|]. by eapply free_spec.
Qed.

(** C33. [sqlite3DbMallocRaw] on a connection: it fails by returning NULL and raising
    [mallocFailed]; otherwise it hands out a lookaside slot that was free and is large
    enough, or a new heap block of at least [n] bytes that lies outside the lookaside
    buffer; the invariant of slots, blocks and counters is kept in every case. *)
Theorem sqlite3DbMallocRaw_correct w db L O n (Hd : dbinv w db L O) (Hf : mallocFailed db = false) :
  db_malloc_post n db L O (sqlite3DbMallocRaw w (Some db) n).
Proof. by apply db_malloc_spec. Qed.

(** [sqlite3DbFree] gives a pointer back to where it came from: a slot returns to the
    lookaside list, a heap block to the heap, and the other allocations are untouched. *)
Theorem sqlite3DbFree_correct w db L O p (Hd : dbinv w db L O) :
  (p ∈ O -> exists db', sqlite3DbFree w (Some db) p = (w, Some db') /\ dbinv w db' L (O ∖ {[p]})) /\
  (forall s, L !! p = Some s -> pEnd (lookaside db) <= pStart (lookaside db) \/ p <> pStart (lookaside db) ->
     exists w', sqlite3DbFree w (Some db) p = (w', Some db) /\ dbinv w' db (delete p L) O).
Proof.
  split.
  - intros Hp. destruct (db_free_slot w db L O p Hd Hp) as (db' & ? & ? & _). eauto.
  - intros s HL Hne. destruct (db_free_heap w db L O p s Hd HL Hne). eauto.
Qed.

(** A run of allocations on one connection, with the pointers it returns. *)
Fixpoint db_mallocs (w : World) (db : option Db) (ns : list Z) : list Z :=
  match ns with
  | [] => []
  | n :: ns => let '(p, w, db) := sqlite3DbMallocRaw w db n in p :: db_mallocs w db ns
  end.

Lemma failed_mallocs w db ns : mallocFailed db = true -> Forall (fun p => p = 0) (db_mallocs w (Some db) ns).
Proof.
  intros Hf. induction ns as [|n ns IH]; [done|]. cbn [db_mallocs sqlite3DbMallocRaw]. rewrite Hf.
  by constructor.
Qed.

(** Failures are sticky, the assumption the comment above [sqlite3DbMallocRaw] calls
    important: in a run of allocations on a connection, every allocation after one that
    returned NULL returns NULL too, so a pointer that is not NULL vouches for all earlier ones. *)
Theorem malloc_failure_sticky w db L O ns i j (Hd : dbinv w db L O) (Hij : (i <= j)%nat)
    (Hj : (j < length ns)%nat) :
  rd (db_mallocs w (Some db) ns) (Z.of_nat i) = 0 -> rd (db_mallocs w (Some db) ns) (Z.of_nat j) = 0.
Proof.
  assert (forall l k, Forall (fun p => p = 0) l -> rd l (Z.of_nat k) = 0) as Hzero.
  { intros l k Hl. unfold rd. rewrite Nat2Z.id. destruct (nth_in_or_default k l 0) as [Hin|]; [|done].
    rewrite Forall_forall in Hl. by apply Hl, list_elem_of_In. }
  revert w db L O i j Hd Hij Hj. induction ns as [|n ns IH]; intros w db L O i j Hd Hij Hj; [cbn in Hj; lia|].
  destruct (mallocFailed db) eqn:Hf; [intros _; by apply Hzero, failed_mallocs|].
  cbn [db_mallocs]. pose proof (db_malloc_spec w db L O n Hd Hf) as HP.
  destruct (sqlite3DbMallocRaw w (Some db) n) as [[p w'] odb]. destruct HP as (db' & -> & _ & _ & HP).
  assert ((p = 0 /\ mallocFailed db' = true) \/ (p <> 0 /\ exists L' O', dbinv w' db' L' O')) as HP'.
  { destruct HP as [(? & ? & _)|[(? & _ & _ & _ & _ & ?)|(? & _ & _ & _ & s & _ & ?)]]; [by left|right|right]; eauto. }
  destruct HP' as [[-> Hf']|[Hp (L' & O' & Hd')]].
  - intros _. apply Hzero. constructor; [done|]. by apply failed_mallocs.
  - destruct i as [|i]; [done|]. destruct j as [|j]; [lia|].
    unfold rd. rewrite !Nat2Z.id. cbn [nth]. intros Hi.
    pose proof (IH w' db' L' O' i j Hd' ltac:(lia) ltac:(cbn in Hj; lia)) as H.
    unfold rd in H. rewrite !Nat2Z.id in H. by apply H.
Qed.

(** ** Setting up the slots *)

Lemma lookaside_slots_spec cnt : forall p z acc, 0 < z ->
  NoDup acc -> (forall q, q ∈ acc -> q < p) ->
  let '(fr, e) := lookaside_slots cnt p z acc in
  e = p + Z.of_nat cnt * z /\ NoDup fr /\ length fr = (cnt + length acc)%nat /\
  forall q, q ∈ fr <-> q ∈ acc \/ exists i, 0 <= i < Z.of_nat cnt /\ q = p + i * z.
Proof.
  induction cnt as [|cnt IH]; intros p z acc Hz Hnd Hlt; cbn [lookaside_slots].
  { split; [lia|]. split; [done|]. split; [done|]. intros q. split; [by left|]. intros [?|(i & ? & _)]; [done|lia]. }
  specialize (IH (p + z) z (p :: acc) Hz).
  destruct (lookaside_slots cnt (p + z) z (p :: acc)) as [fr e]. destruct IH as (A & B & C & D).
  - constructor; [|done]. intros Hp%Hlt. lia.
  - intros q [->|Hq%Hlt]%elem_of_cons; lia.
  - split; [lia|]. split; [done|]. split; [cbn in C; lia|]. intros q. rewrite D, elem_of_cons. split.
    + intros [[->|?]|(i & Hi & ->)]; [right; exists 0; lia|by left|right; exists (i + 1); lia].
    + intros [?|(i & Hi & ->)]; [by left; right|]. destruct (decide (i = 0)) as [->|]; [left; left; lia|].
      right. exists (i - 1). lia.
Qed.

Lemma rounddown8 x : 0 <= x -> ROUNDDOWN8 x = x / 8 * 8.
Proof.
  intros Hx. unfold ROUNDDOWN8. change 7 with (Z.ones 3). rewrite <- Z.ldiff_land, Z.ldiff_ones_r by lia.
  rewrite Z.shiftl_mul_pow2, Z.shiftr_div_pow2 by lia. done.
Qed.

(** On a connection with no slots outstanding and no buffer of its own,
    [setupLookaside] either leaves lookaside disabled or carves a fresh heap block
    into at least one slot per requested count, all of them free, disjoint, and inside the
    block, so that the connection's invariant holds. *)
Theorem setupLookaside_correct w db L z cnt (Hw : winv w L) (Hf : pnBytesFreed db = None)
    (Hout : nOut (lookaside db) = 0) (Hm : bMalloced (lookaside db) = false)
    (Hz : 0 <= z < 2 ^ 16) (Hc : 0 <= cnt) (Hzc : z * cnt < 2 ^ 31) :
  let '(rc, w', db') := setupLookaside w db 0 z cnt in
  rc = 0 /\
  ((bEnabled (lookaside db') = false /\ dbinv w' db' L ∅) \/
   (exists s, L !! pStart (lookaside db') = None /\ dbinv w' db' (<[pStart (lookaside db') := s]> L) ∅ /\
      bEnabled (lookaside db') = true /\ cnt <= Z.of_nat (length (pFree (lookaside db'))))).
Proof.
  unfold setupLookaside. rewrite Hout, Hm. change (0 =? 0) with true. cbn [negb].
  rewrite rounddown8 by lia. rewrite (proj2 (Z.ltb_ge cnt 0)) by lia.
  pose proof (Z.mul_div_le z 8 ltac:(lia)) as Hle.
  assert (0 <= z / 8 * 8) by (pose proof (Z.div_pos z 8); lia).
  assert (forall z1, winv w L -> dbinv w (set_lk db {| sz := u16 z1; bEnabled := false; bMalloced := false; nOut := 0;
    mxOut := mxOut (lookaside db); anStat := anStat (lookaside db); pFree := [];
    pStart := db_addr db; pEnd := db_addr db |}) L ∅) as Hoff.
  { intros z1 _. split; [done| |done].
    split; cbn; [constructor|set_solver|set_solver|set_solver|rewrite size_empty; lia|by left; split; [|split]]. }
  destruct (Z.leb_spec (z / 8 * 8) 8) as [H8|H8].
  { change (0 =? 0) with true. cbn. split; [done|]. left. by split; [|apply Hoff]. }
  rewrite (proj2 (Z.eqb_neq (z / 8 * 8) 0)) by lia. cbn [orb].
  destruct (Z.eqb_spec cnt 0) as [->|Hc0].
  { cbn. split; [done|]. left. by split; [|apply Hoff]. }
  set (z1 := z / 8 * 8) in *. rewrite swrap_small by (lia || (unfold is_i; nia)).
  pose proof (malloc_spec w L (z1 * cnt) Hw) as HM. destruct (sqlite3Malloc w (z1 * cnt)) as [p w'].
  destruct HM as [[-> HM]|(Hp & Hnew & s & Hs & HM)].
  { cbn. split; [done|]. left. split; [done|]. specialize (Hoff z1 Hw). destruct Hoff as [_ A B]. by split. }
  rewrite (proj2 (Z.eqb_neq p 0)) by done. cbn [negb].
  pose proof (mm_pos _ _ _ _ (wi_mem _ _ HM) (lookup_insert_eq _ _ _)) as Hs31.
  assert (sqlite3MallocSize w' p = s) as -> by apply (mm_size _ _ _ _ (wi_mem _ _ HM) (lookup_insert_eq _ _ _)).
  assert (cnt <= s / z1) as Hcs by (apply Z.div_le_lower_bound; lia).
  pose proof (Z.mul_div_le s z1 ltac:(lia)) as Hsz.
  pose proof (lookaside_slots_spec (Z.to_nat (s / z1)) p z1 [] ltac:(lia) (NoDup_nil_2) ltac:(set_solver)) as HS.
  destruct (lookaside_slots _ p z1 []) as [fr e]. destruct HS as (-> & Hnd & Hlen & Hin).
  rewrite Z2Nat.id in * by lia. cbn [length] in Hlen.
  assert (u16 z1 = z1) as Hu by (apply uwrap_small; unfold is_u; lia).
  split; [done|]. right. exists s. cbn [lookaside set_lk pStart pFree bEnabled]. split; [done|].
  split; [|split; [done|lia]]. split; [done| |done]. rewrite Hu.
  assert (forall q, q ∈ fr \/ q ∈ (∅ : gset Z) -> exists i, 0 <= i < s / z1 /\ q = p + i * z1) as Hq.
  { intros q [Hq|?]; [|set_solver]. apply Hin in Hq as [Hq|?]; [by apply elem_of_nil in Hq|done]. }
  split; cbn [pFree pStart pEnd sz nOut set_lk lookaside].
  - done.
  - set_solver.
  - intros q (i & Hi & ->)%Hq. nia.
  - intros q r (i & Hi & ->)%Hq (j & Hj & ->)%Hq Hne. assert (i <> j) by congruence.
    destruct (Z.lt_total i j) as [?|[?|?]]; [left; nia|done|right; nia].
  - rewrite size_empty. split; [done|]. assert (s / z1 <= s) by (apply Z.div_le_upper_bound; nia). lia.
  - right. split; [lia|]. exists s. rewrite lookup_insert_eq. split; [done|]. nia.
Qed.

End Malloc.
