(* ===== verification/Hash.v ===== *)
(** The string-keyed hash table of hash.c.

    The program is written over an explicit heap of [HashElem] objects and a
    bucket array, in the monad of pointer programs: a read or write through a pointer that
    is not live, or past the bucket array, is [None]. Objects come from [sqlite3Malloc]
    of Malloc.v, over any low-level allocator. A key is given by the bytes of its string. *)
From S2P Require Import Prelude Dll Mem Text Malloc.
Local Open Scope Z_scope.
Local Open Scope c_scope.

Record HashElem := { next : Z; prev : Z; data : Z; pKey : list Z; nKey : Z }.

Definition set_next (v : Z) (e : HashElem) : HashElem :=
  {| next := v; prev := prev e; data := data e; pKey := pKey e; nKey := nKey e |}.
Definition set_prev (v : Z) (e : HashElem) : HashElem :=
  {| next := next e; prev := v; data := data e; pKey := pKey e; nKey := nKey e |}.
Definition set_data (d : Z) (k : list Z) (e : HashElem) : HashElem :=
  {| next := next e; prev := prev e; data := d; pKey := k; nKey := nKey e |}.

(** [struct _ht] *)
Record Ht := { ht_count : Z; ht_chain : Z }.

(** [ht] is the address of the bucket array and [hta] its contents. *)
Record Hash := { htsize : Z; count : Z; first : Z; ht : Z; hta : list Ht }.

(** The hashing function, for [n] bytes. *)
Fixpoint strHash_loop (h : Z) (z : list Z) (n : nat) : Z :=
  match n with
  | O => h
  | S n => strHash_loop (Z.lxor (Z.lxor (u32 (h << 3)) h) (rd sqlite3UpperToLower (hd 0 z))) (tl z) n
  end.
Definition strHash (z : list Z) (nKey : Z) : Z := strHash_loop 0 z (Z.to_nat nKey).

Definition SQLITE_MALLOC_SOFT_LIMIT : Z := 1024.
Definition sizeof_ht : Z := 16.
Definition sizeof_HashElem : Z := 40.

Section Hash.
Context {M : Type} `{MM : MemMethods M} (bMemstat : bool).

(** What a fresh, uninitialised [HashElem] happens to hold. *)
Context (junk : HashElem).

Record HState := { hs_w : @World M; hs_heap : gmap Z HashElem; hs_h : Hash }.

Definition with_w (s : HState) w := {| hs_w := w; hs_heap := hs_heap s; hs_h := hs_h s |}.
Definition with_heap (s : HState) h := {| hs_w := hs_w s; hs_heap := h; hs_h := hs_h s |}.
Definition with_h (s : HState) h := {| hs_w := hs_w s; hs_heap := hs_heap s; hs_h := h |}.

(** Reading and updating an object through its pointer. *)
Definition getE (a : Z) : prog HState HashElem := fun s =>
  match hs_heap s !! a with Some e => Some (e, s) | None => None end.
Definition modE (a : Z) (f : HashElem -> HashElem) : prog HState unit := fun s =>
  match hs_heap s !! a with
  | Some e => Some (tt, with_heap s (<[a := f e]> (hs_heap s)))
  | None => None
  end.

(** Bucket [h] of the array. *)
Definition getB (h : Z) : prog HState Ht := fun s =>
  match hta (hs_h s) !! Z.to_nat h with Some b => Some (b, s) | None => None end.
Definition setB (h : Z) (b : Ht) : prog HState unit := fun s =>
  match hta (hs_h s) !! Z.to_nat h with
  | Some _ =>
      let t := hs_h s in
      Some (tt, with_h s {| htsize := htsize t; count := count t; first := first t; ht := ht t;
                            hta := <[Z.to_nat h := b]> (hta t) |})
  | None => None
  end.

Definition setFirst (a : Z) : prog HState unit := pmod (fun s =>
  let t := hs_h s in
  with_h s {| htsize := htsize t; count := count t; first := a; ht := ht t; hta := hta t |}).
Definition setCount (n : Z) : prog HState unit := pmod (fun s =>
  let t := hs_h s in
  with_h s {| htsize := htsize t; count := n; first := first t; ht := ht t; hta := hta t |}).
Definition setTable (n a : Z) (b : list Ht) : prog HState unit := pmod (fun s =>
  let t := hs_h s in
  with_h s {| htsize := n; count := count t; first := first t; ht := a; hta := b |}).

Definition mallocP (n : Z) : prog HState Z := fun s =>
  let '(p, w) := sqlite3Malloc bMemstat (hs_w s) n in Some (p, with_w s w).
Definition freeP (p : Z) : prog HState unit := fun s =>
  Some (tt, with_w s (sqlite3_free bMemstat (hs_w s) p)).

(** [sqlite3_free] on a [HashElem]: the object is gone. *)
Definition freeE (p : Z) : prog HState unit :=
  freeP p ;; pmod (fun s => with_heap s (delete p (hs_heap s))).

Definition sqlite3HashInit : prog HState unit :=
  setFirst 0 ;; setCount 0 ;; setTable 0 0 [].

(** [while( elem ){ next_elem = elem->next; sqlite3_free(elem); elem = next_elem; }] *)
Fixpoint clear_loop (fuel : nat) (elem : Z) : prog HState unit :=
  match fuel with
  | O => if elem =? 0 then mret tt else pfail
  | S fuel =>
      if elem =? 0 then mret tt
      else e ← getE elem; freeE elem ;; clear_loop fuel (next e)
  end.

Definition sqlite3HashClear : prog HState unit :=
  s ← pget;
  let elem := first (hs_h s) in
  setFirst 0 ;;
  freeP (ht (hs_h s)) ;;
  setTable 0 0 [] ;;
  clear_loop (size (hs_heap s)) elem ;;
  setCount 0.

Definition insertElement (pEntry : option Z) (pNew : Z) : prog HState unit :=
  pHead ← (match pEntry with
           | Some h =>
               b ← getB h;
               setB h {| ht_count := i32 (ht_count b + 1); ht_chain := pNew |} ;;
               mret (if negb (ht_count b =? 0) then ht_chain b else 0)
           | None => mret 0
           end);
  if negb (pHead =? 0) then
    modE pNew (set_next pHead) ;;
    eh ← getE pHead;
    modE pNew (set_prev (prev eh)) ;;
    (if negb (prev eh =? 0) then modE (prev eh) (set_next pNew) else setFirst pNew) ;;
    modE pHead (set_prev pNew)
  else
    s ← pget;
    modE pNew (set_next (first (hs_h s))) ;;
    (if negb (first (hs_h s) =? 0) then modE (first (hs_h s)) (set_prev pNew) else mret tt) ;;
    modE pNew (set_prev 0) ;;
    setFirst pNew.

(** [for(elem=pH->first, pH->first=0; elem; elem = next_elem){ ... }] *)
Fixpoint rehash_loop (fuel : nat) (new_size elem : Z) : prog HState unit :=
  match fuel with
  | O => if elem =? 0 then mret tt else pfail
  | S fuel =>
      if elem =? 0 then mret tt
      else
        e ← getE elem;
        let h := strHash (pKey e) (nKey e) mod new_size in
        insertElement (Some h) elem ;;
        rehash_loop fuel new_size (next e)
  end.

Definition rehash (new_size : Z) : prog HState bool :=
  s ← pget;
  let new_size := if SQLITE_MALLOC_SOFT_LIMIT <? new_size * sizeof_ht
                  then SQLITE_MALLOC_SOFT_LIMIT / sizeof_ht else new_size in
  if new_size =? htsize (hs_h s) then mret false
  else
    new_ht ← mallocP (new_size * sizeof_ht);
    if new_ht =? 0 then mret false
    else
      freeP (ht (hs_h s)) ;;
      s ← pget;
      let new_size := sqlite3MallocSize (hs_w s) new_ht / sizeof_ht in
      setTable new_size new_ht (replicate (Z.to_nat new_size) {| ht_count := 0; ht_chain := 0 |}) ;;
      let elem := first (hs_h s) in
      setFirst 0 ;;
      rehash_loop (size (hs_heap s)) new_size elem ;;
      mret true.

(** [while( count-- && ALWAYS(elem) ){ ... }] *)
Fixpoint find_loop (n : nat) (elem : Z) (key : list Z) (nkey : Z) : prog HState Z :=
  match n with
  | O => mret 0
  | S n =>
      if elem =? 0 then mret 0
      else
        e ← getE elem;
        if (nKey e =? nkey) && (sqlite3_strnicmp (pKey e) key nkey =? 0) then mret elem
        else find_loop n (next e) key nkey
  end.

Definition findElementGivenHash (key : list Z) (nkey h : Z) : prog HState Z :=
  s ← pget;
  if negb (ht (hs_h s) =? 0) then
    b ← getB h;
    find_loop (Z.to_nat (ht_count b)) (ht_chain b) key nkey
  else find_loop (Z.to_nat (count (hs_h s))) (first (hs_h s)) key nkey.

Definition removeElementGivenHash (elem h : Z) : prog HState unit :=
  e ← getE elem;
  (if negb (prev e =? 0) then modE (prev e) (set_next (next e)) else setFirst (next e)) ;;
  (if negb (next e =? 0) then modE (next e) (set_prev (prev e)) else mret tt) ;;
  s ← pget;
  (if negb (ht (hs_h s) =? 0) then
     b ← getB h;
     setB h {| ht_count := i32 (ht_count b - 1);
               ht_chain := if ht_chain b =? elem then next e else ht_chain b |}
   else mret tt) ;;
  freeE elem ;;
  s ← pget;
  let n := u32 (count (hs_h s) - 1) in
  setCount n ;;
  if n =? 0 then sqlite3HashClear else mret tt.

Definition sqlite3HashFind (key : list Z) (nkey : Z) : prog HState Z :=
  s ← pget;
  let h := if negb (ht (hs_h s) =? 0) then strHash key nkey mod htsize (hs_h s) else 0 in
  elem ← findElementGivenHash key nkey h;
  if negb (elem =? 0) then e ← getE elem; mret (data e) else mret 0.

Definition sqlite3HashInsert (key : list Z) (nkey d : Z) : prog HState Z :=
  s ← pget;
  let h := if negb (htsize (hs_h s) =? 0) then strHash key nkey mod htsize (hs_h s) else 0 in
  elem ← findElementGivenHash key nkey h;
  if negb (elem =? 0) then
    e ← getE elem;
    (if d =? 0 then removeElementGivenHash elem h else modE elem (set_data d key)) ;;
    mret (data e)
  else if d =? 0 then mret 0
  else
    new_elem ← mallocP sizeof_HashElem;
    if new_elem =? 0 then mret d
    else
      pmod (fun s => with_heap s (<[new_elem :=
        {| next := next junk; prev := prev junk; data := d; pKey := key; nKey := nkey |}]> (hs_heap s))) ;;
      let c := u32 (count (hs_h s) + 1) in
      setCount c ;;
      h ← (if (10 <=? c) && (u32 (2 * htsize (hs_h s)) <? c) then
             ok ← rehash (u32 (c * 2));
             if (ok : bool) then s ← pget; mret (strHash key nkey mod htsize (hs_h s)) else mret h
           else mret h);
      s ← pget;
      (if negb (ht (hs_h s) =? 0) then insertElement (Some h) new_elem else insertElement None new_elem) ;;
      mret 0.

(** * Linking *)

Definition nx (h : gmap Z HashElem) (a : Z) : Z := match h !! a with Some e => next e | None => 0 end.
Definition pv (h : gmap Z HashElem) (a : Z) : Z := match h !! a with Some e => prev e | None => 0 end.
(** What an object holds besides its links. *)
Definition pay (h : gmap Z HashElem) (a : Z) : option (Z * list Z * Z) :=
  match h !! a with Some e => Some (data e, pKey e, nKey e) | None => None end.

Lemma nx_insert h a e b : nx (<[a := e]> h) b = if decide (a = b) then next e else nx h b.
Proof. unfold nx. rewrite lookup_insert. by case_decide. Qed.
Lemma pv_insert h a e b : pv (<[a := e]> h) b = if decide (a = b) then prev e else pv h b.
Proof. unfold pv. rewrite lookup_insert. by case_decide. Qed.
Lemma pay_insert h a e b :
  pay (<[a := e]> h) b = if decide (a = b) then Some (data e, pKey e, nKey e) else pay h b.
Proof. unfold pay. rewrite lookup_insert. by case_decide. Qed.
Lemma nx_at h a e : h !! a = Some e -> nx h a = next e.
Proof. unfold nx. by intros ->. Qed.
Lemma pv_at h a e : h !! a = Some e -> pv h a = prev e.
Proof. unfold pv. by intros ->. Qed.
Lemma pay_at h a e : h !! a = Some e -> pay h a = Some (data e, pKey e, nKey e).
Proof. unfold pay. by intros ->. Qed.
Lemma pay_live h a x : pay h a = Some x -> exists e, h !! a = Some e.
Proof. unfold pay. destruct (h !! a); eauto. done. Qed.

Lemma run_getE s a e : hs_heap s !! a = Some e -> getE a s = Some (e, s).
Proof. intros E. unfold getE. by rewrite E. Qed.
Lemma run_modE s a e f : hs_heap s !! a = Some e -> modE a f s = Some (tt, with_heap s (<[a := f e]> (hs_heap s))).
Proof. intros E. unfold modE. by rewrite E. Qed.

Lemma bind_getE {B} s a e (k : HashElem -> prog HState B) :
  hs_heap s !! a = Some e -> (getE a ≫= k) s = k e s.
Proof. intros E. by rewrite (bind_some _ _ _ _ _ (run_getE _ _ _ E)). Qed.
Lemma bind_modE {B} s a e f (k : unit -> prog HState B) :
  hs_heap s !! a = Some e -> (modE a f ≫= k) s = k tt (with_heap s (<[a := f e]> (hs_heap s))).
Proof. intros E. by rewrite (bind_some _ _ _ _ _ (run_modE _ _ _ _ E)). Qed.
Lemma bind_assoc {A B C} (m : prog HState A) (k : A -> prog HState B) (k2 : B -> prog HState C) s :
  ((m ≫= k) ≫= k2) s = (m ≫= fun x => k x ≫= k2) s.
Proof. unfold mbind, prog_bind. by destruct (m s) as [[]|]. Qed.

(** The fields of an object whose links were overwritten. *)
Ltac at_obj := subst; cbn [data pKey nKey next prev set_next set_prev]; symmetry;
  first [apply pay_at | apply nx_at | apply pv_at]; assumption.

Definition first_set (s : HState) (h : gmap Z HashElem) (a : Z) : HState :=
  {| hs_w := hs_w s; hs_heap := h;
     hs_h := {| htsize := htsize (hs_h s); count := count (hs_h s); first := a;
                ht := ht (hs_h s); hta := hta (hs_h s) |} |}.

(** The store after an element has been linked in: same objects, same payloads, and
    nothing outside the list touched. *)
Record linked (h h' : gmap Z HashElem) (l l' : list Z) : Prop := {
  ln_dll : dll 0 (nx h') (pv h') l';
  ln_pay : forall b, pay h' b = pay h b;
  ln_out : forall b, b ∉ l' -> h' !! b = h !! b }.

Lemma dll_live h l a : dll 0 (nx h) (pv h) l -> (forall b, b ∈ l -> is_Some (h !! b)) -> a ∈ l ->
  exists e, h !! a = Some e.
Proof. intros _ H Ha. by apply H. Qed.

(** The branch of [insertElement] for an empty bucket. *)
Lemma link_front s l a ea :
  dll 0 (nx (hs_heap s)) (pv (hs_heap s)) l -> (forall b, b ∈ l -> is_Some (hs_heap s !! b)) ->
  first (hs_h s) = hd_or 0 l -> hs_heap s !! a = Some ea -> a ∉ l -> a <> 0 ->
  exists h',
  (modE a (set_next (first (hs_h s))) ;;
   (if negb (first (hs_h s) =? 0) then modE (first (hs_h s)) (set_prev a) else mret tt) ;;
   modE a (set_prev 0) ;; setFirst a) s = Some (tt, first_set s h' a) /\
  linked (hs_heap s) h' l (a :: l).
Proof.
  intros Hd Hlive Hf Ha Hni Ha0. pose proof (dll_null Hd) as Hnull. rewrite Hf.
  rewrite (bind_modE _ _ _ _ _ Ha). set (h1 := <[a := _]> (hs_heap s)).
  destruct l as [|p l]; cbn [hd_or] in *.
  - change (0 =? 0) with true. cbn [negb]. rewrite bind_ret.
    rewrite (bind_modE _ a (set_next 0 ea)) by (unfold h1; cbn; by rewrite lookup_insert_eq).
    eexists. split; [reflexivity|]. cbn [with_heap hs_heap]. unfold h1. rewrite insert_insert_eq.
    split.
    + apply (dll_insert 0 (nx (hs_heap s)) (pv (hs_heap s)) _ _ [] a []); [done|done|done| | |set_solver|set_solver].
      * by rewrite nx_insert, decide_True.
      * by rewrite pv_insert, decide_True.
    + intros b. rewrite pay_insert. case_decide; [at_obj|done].
    + intros b Hb. rewrite lookup_insert_ne by set_solver. done.
  - assert (p <> 0) as Hp0 by set_solver. assert (p <> a) as Hpa by set_solver.
    rewrite (proj2 (Z.eqb_neq p 0)) by done. cbn [negb].
    destruct (Hlive p) as [ep Hp]; [by left|].
    rewrite (bind_modE _ p ep) by (unfold h1; cbn; by rewrite lookup_insert_ne by congruence).
    rewrite (bind_modE _ a (set_next p ea)) by (unfold h1; cbn; by rewrite lookup_insert_ne, lookup_insert_eq by congruence).
    eexists. split; [reflexivity|]. cbn [with_heap hs_heap]. unfold h1.
    split.
    + apply (dll_insert 0 (nx (hs_heap s)) (pv (hs_heap s)) _ _ [] a (p :: l)); [done|done|done| | | |].
      * by rewrite nx_insert, decide_True.
      * by rewrite pv_insert, decide_True.
      * intros b Hb. cbn [last_or]. rewrite (decide_False (P := b = 0)) by set_solver.
        rewrite !nx_insert. case_decide; [set_solver|]. case_decide; [at_obj|].
        done.
      * intros b Hb. cbn [hd_or]. rewrite !pv_insert. case_decide; [set_solver|].
        case_decide; [subst; by rewrite decide_True|]. rewrite decide_False by congruence. done.
    + intros b. rewrite !pay_insert. case_decide; [at_obj|].
      case_decide; [at_obj|]. done.
    + intros b Hb. rewrite !lookup_insert_ne by set_solver. done.
Qed.

(** The branch for a bucket that has elements: [p] is its first one. *)
Lemma link_before s l1 p l2 a ea :
  dll 0 (nx (hs_heap s)) (pv (hs_heap s)) (l1 ++ p :: l2) ->
  (forall b, b ∈ l1 ++ p :: l2 -> is_Some (hs_heap s !! b)) ->
  first (hs_h s) = hd_or 0 (l1 ++ p :: l2) -> hs_heap s !! a = Some ea -> a ∉ l1 ++ p :: l2 -> a <> 0 ->
  exists h',
  (modE a (set_next p) ;;
   eh ← getE p;
   modE a (set_prev (prev eh)) ;;
   (if negb (prev eh =? 0) then modE (prev eh) (set_next a) else setFirst a) ;;
   modE p (set_prev a)) s = Some (tt, first_set s h' (hd_or 0 (l1 ++ a :: p :: l2))) /\
  linked (hs_heap s) h' (l1 ++ p :: l2) (l1 ++ a :: p :: l2).
Proof.
  intros Hd Hlive Hf Ha Hni Ha0. pose proof (dll_null Hd) as Hnull. pose proof (dll_nodup Hd) as Hnd.
  destruct (dll_mid _ _ _ _ _ _ Hd) as [_ Epv]. set (q := last_or 0 l1) in *.
  assert (p <> a) as Hpa by set_solver. assert (q <> a) as Hqa.
  { destruct (last_or_elem 0 l1) as [E|E]; unfold q; [congruence|]. set_solver. }
  assert (q <> p) as Hqp.
  { apply NoDup_app in Hnd as (_ & Hnd & _). destruct (last_or_elem 0 l1) as [E|E]; unfold q; set_solver. }
  destruct (Hlive p) as [ep Hp]; [set_solver|]. rewrite (pv_at _ _ _ Hp) in Epv.
  rewrite (bind_modE _ _ _ _ _ Ha). set (h1 := <[a := _]> (hs_heap s)).
  rewrite (bind_getE _ p ep) by (unfold h1; cbn; by rewrite lookup_insert_ne by congruence). rewrite Epv.
  rewrite (bind_modE _ a (set_next p ea)) by (unfold h1; cbn; by rewrite lookup_insert_eq).
  change (hs_heap (with_heap s h1)) with h1. unfold h1. rewrite insert_insert_eq.
  set (h2 := <[a := set_prev q (set_next p ea)]> (hs_heap s)).
  assert (h2 !! p = Some ep) as Hp2 by (unfold h2; by rewrite lookup_insert_ne by congruence).
  assert (forall h3, (forall b, nx h3 b = if decide (b = a) then p else if decide (b = q /\ q <> 0) then a else nx (hs_heap s) b) ->
    (forall b, pv h3 b = if decide (b = a) then q else if decide (b = p) then a else pv (hs_heap s) b) ->
    dll 0 (nx h3) (pv h3) (l1 ++ a :: p :: l2)) as Hdll.
  { intros h3 N P. apply (dll_insert 0 (nx (hs_heap s)) (pv (hs_heap s)) _ _ l1 a (p :: l2)); [done|done|done| | | |].
    - by rewrite N, decide_True.
    - by rewrite P, decide_True.
    - intros b Hb. fold q. rewrite N, decide_False by (intros ->; done).
      destruct (decide (b = q)) as [->|]; [|by rewrite decide_False by tauto].
      by rewrite decide_True by (split; [done|]; intros E; by rewrite E in Hb).
    - intros b Hb. rewrite P, decide_False by (intros ->; done). done. }
  assert (q = 0 -> l1 = []) as Hq0.
  { intros Eq. destruct l1 as [|c l1]; [done|exfalso]. apply Hnull.
    pose proof (last_or_in 0 c l1) as Hin. fold q in Hin. rewrite Eq in Hin. apply elem_of_app. by left. }
  assert (q <> 0 -> q ∈ l1) as Hq1 by (intros Nq; destruct (last_or_elem 0 l1); done).
  clearbody q. destruct (Z.eqb_spec q 0) as [Eq|Nq]; cbn [negb].
  - unfold setFirst. rewrite bind_mod. rewrite (run_modE _ p ep) by exact Hp2. exists (<[p := set_prev a ep]> h2). split.
    { by rewrite (Hq0 Eq). }
    split.
    + apply Hdll; intros b; unfold h2; rewrite ?nx_insert, ?pv_insert; cbn [next prev set_next set_prev].
      * destruct (decide (p = b)) as [<-|]; [rewrite decide_False by done; rewrite decide_False by tauto; at_obj|].
        destruct (decide (a = b)) as [<-|]; [by rewrite decide_True|]. rewrite !decide_False by (congruence || tauto). done.
      * destruct (decide (p = b)) as [<-|]; [rewrite decide_False by done; by rewrite decide_True|].
        destruct (decide (a = b)) as [<-|]; [rewrite decide_True by done; done|]. by rewrite !decide_False by congruence.
    + clear Hdll. intros b. unfold h2. rewrite !pay_insert. case_decide; [at_obj|].
      case_decide; [at_obj|]. done.
    + intros b Hb. unfold h2. cbn [with_heap hs_heap with_h]. rewrite !lookup_insert_ne by set_solver. done.
  - specialize (Hq1 Nq).
    destruct (Hlive q) as [eq Hq]; [set_solver|].
    rewrite (bind_modE _ q eq) by (unfold h2; cbn; by rewrite lookup_insert_ne by congruence).
    rewrite (run_modE _ p ep) by (cbn; by rewrite lookup_insert_ne by congruence).
    exists (<[p := set_prev a ep]> (<[q := set_next a eq]> h2)). split.
    { destruct l1 as [|c l1]; [set_solver|]. cbn [app hd_or] in *. unfold first_set, with_heap. cbn. rewrite <- Hf.
      by destruct (hs_h s). }
    split.
    + apply Hdll; intros b; unfold h2; cbn [hs_heap with_heap]; rewrite ?nx_insert, ?pv_insert; cbn [next prev set_next set_prev].
      * destruct (decide (p = b)) as [<-|]; [rewrite decide_False by done; rewrite decide_False by (intros [? _]; congruence); at_obj|].
        destruct (decide (q = b)) as [<-|]; [rewrite decide_False by done; by rewrite decide_True|].
        destruct (decide (a = b)) as [<-|]; [by rewrite decide_True|].
        rewrite !decide_False by (intuition congruence). done.
      * destruct (decide (p = b)) as [<-|]; [rewrite decide_False by done; by rewrite decide_True|].
        destruct (decide (q = b)) as [<-|]; [rewrite !decide_False by done; at_obj|].
        destruct (decide (a = b)) as [<-|]; [by rewrite decide_True|]. by rewrite !decide_False by congruence.
    + clear Hdll. intros b. unfold h2. cbn [hs_heap with_heap]. rewrite !pay_insert.
      case_decide; [at_obj|]. case_decide; [at_obj|].
      case_decide; [at_obj|]. done.
    + intros b Hb. unfold h2. cbn [with_heap hs_heap with_h]. rewrite !lookup_insert_ne by set_solver. done.
Qed.

(** The unlinking half of [removeElementGivenHash]. *)
Definition unlinkE (e : HashElem) : prog HState unit :=
  (if negb (prev e =? 0) then modE (prev e) (set_next (next e)) else setFirst (next e)) ;;
  (if negb (next e =? 0) then modE (next e) (set_prev (prev e)) else mret tt).

Lemma unlink_run s l1 a l2 e :
  dll 0 (nx (hs_heap s)) (pv (hs_heap s)) (l1 ++ a :: l2) ->
  (forall b, b ∈ l1 ++ a :: l2 -> is_Some (hs_heap s !! b)) ->
  first (hs_h s) = hd_or 0 (l1 ++ a :: l2) -> hs_heap s !! a = Some e ->
  next e = hd_or 0 l2 /\
  exists h', unlinkE e s = Some (tt, first_set s h' (hd_or 0 (l1 ++ l2))) /\
    dll 0 (nx h') (pv h') (l1 ++ l2) /\ (forall b, pay h' b = pay (hs_heap s) b).
Proof.
  intros Hd Hlive Hf Ha. pose proof (dll_null Hd) as Hnull. pose proof (dll_nodup Hd) as Hnd.
  destruct (dll_mid _ _ _ _ _ _ Hd) as [En Ep]. rewrite (nx_at _ _ _ Ha) in En. rewrite (pv_at _ _ _ Ha) in Ep.
  split; [done|]. unfold unlinkE. rewrite En, Ep. set (p := last_or 0 l1) in *. set (n := hd_or 0 l2) in *.
  apply NoDup_app in Hnd as (N1 & N12 & N2). apply NoDup_cons in N2 as [Na N2].
  assert (p = 0 /\ l1 = [] \/ p <> 0 /\ p ∈ l1) as Hp.
  { destruct l1 as [|c l1]; [by left|right]. pose proof (last_or_in 0 c l1) as Hin. fold p in Hin.
    split; [|done]. intros E. apply Hnull. rewrite E in Hin. apply elem_of_app. by left. }
  assert (n = 0 /\ l2 = [] \/ n <> 0 /\ n ∈ l2) as Hn.
  { destruct l2 as [|c l2]; [by left|right]. unfold n. cbn [hd_or]. split; [|by left]. intros ->. set_solver. }
  assert (n <> 0 -> p <> n) as Hpn.
  { intros Hn0. destruct Hp as [[-> _]|[_ Hp]]; [done|]. destruct Hn as [[? _]|[_ Hn]]; [done|].
    intros E. rewrite <- E in Hn. apply (N12 p Hp). by right. }
  assert (forall h', (forall b, b ∈ l1 ++ l2 -> nx h' b = if decide (b = p) then n else nx (hs_heap s) b) ->
    (forall b, b ∈ l1 ++ l2 -> pv h' b = if decide (b = n) then p else pv (hs_heap s) b) ->
    dll 0 (nx h') (pv h') (l1 ++ l2)) as Hdll.
  { intros h' HN HP. by apply (dll_unlink 0 (nx (hs_heap s)) (pv (hs_heap s)) _ _ l1 a l2). }
  assert (forall b, b ∈ l1 ++ l2 -> b <> 0) as Hb0.
  { intros b Hb ->. apply Hnull. apply elem_of_app in Hb as [?|?]; apply elem_of_app; [by left|right; by right]. }
  assert (forall b, b ∈ l1 \/ b ∈ l2 -> is_Some (hs_heap s !! b)) as Hlv.
  { intros b Hb. apply Hlive, elem_of_app. destruct Hb; [by left|right; by right]. }
  (* the store after the first assignment *)
  assert (exists h1, (if negb (p =? 0) then modE p (set_next n) else setFirst n) s =
      Some (tt, first_set s h1 (hd_or 0 (l1 ++ l2))) /\
    (forall b, nx h1 b = if decide (b = p /\ p <> 0) then n else nx (hs_heap s) b) /\
    (forall b, pv h1 b = pv (hs_heap s) b) /\ (forall b, pay h1 b = pay (hs_heap s) b)) as (h1 & R1 & X1 & P1 & Y1).
  { destruct (Z.eqb_spec p 0) as [E|E]; cbn [negb].
    - destruct Hp as [[_ ->]|[? _]]; [|done]. exists (hs_heap s). split; [done|].
      split; [intros b; by rewrite decide_False by tauto|done].
    - destruct Hp as [[? _]|[_ Hp]]; [done|]. destruct (Hlv p) as [ep Hep]; [by left|].
      exists (<[p := set_next n ep]> (hs_heap s)). split.
      { rewrite (run_modE _ _ _ _ Hep). destruct l1; [set_solver|]. cbn [app hd_or] in *.
        unfold first_set, with_heap. rewrite <- Hf. by destruct (hs_h s). }
      clear Hdll. split; [|split]; intros b; rewrite ?nx_insert, ?pv_insert, ?pay_insert.
      + destruct (decide (p = b)) as [<-|]; [by rewrite decide_True|]. by rewrite decide_False by (intros [? _]; congruence).
      + case_decide; [at_obj|done].
      + case_decide; [at_obj|done]. }
  rewrite (bind_some _ _ _ _ _ R1). destruct (Z.eqb_spec n 0) as [E|E]; cbn [negb].
  - exists h1. split; [done|]. split; [|done]. apply Hdll; intros b Hb.
    + rewrite X1. pose proof (Hb0 b Hb). destruct (decide (b = p)) as [->|]; [by rewrite decide_True|by rewrite decide_False by tauto].
    + rewrite P1, decide_False; [done|]. rewrite E. by apply Hb0.
  - destruct Hn as [[? _]|[_ Hn]]; [done|]. destruct (Hlv n) as [en0 Hen0]; [by right|].
    assert (exists en, h1 !! n = Some en) as [en Hen].
    { eapply (pay_live _ _ _ (eq_trans (Y1 n) (pay_at _ _ _ Hen0))). }
    exists (<[n := set_prev p en]> h1). split.
    { by rewrite (run_modE (first_set s h1 _) n en). }
    split; [apply Hdll; intros b Hb|].
    + rewrite nx_insert, (X1 b). pose proof (Hb0 b Hb) as Hb0'.
      destruct (decide (n = b)) as [<-|Hnb].
      * cbn [next set_prev]. rewrite <- (nx_at _ _ _ Hen), X1.
        rewrite (decide_False (P := n = p)) by (intros E'; by apply Hpn). by rewrite decide_False by (intros [E' _]; by apply Hpn).
      * destruct (decide (b = p)) as [->|]; [by rewrite decide_True|by rewrite decide_False by tauto].
    + rewrite pv_insert, P1. destruct (decide (n = b)) as [<-|]; [by rewrite decide_True|]. by rewrite decide_False by congruence.
    + intros b. rewrite pay_insert, <- Y1. destruct (decide (n = b)) as [<-|]; [|done]. by rewrite (pay_at _ _ _ Hen).
Qed.

(** * The contents of a table *)

(** An element: its address, its key and its datum. *)
Record Cell := { ca : Z; ck : list Z; cd : Z }.

Definition low (k : list Z) : list Z := map sqlite3Tolower k.
Definition chash (n : Z) (c : Cell) : Z := strHash (ck c) (Z.of_nat (length (ck c))) mod n.

Definition cell_ok (h : gmap Z HashElem) (c : Cell) : Prop :=
  pay h (ca c) = Some (cd c, ck c, Z.of_nat (length (ck c))) /\ cstring (ck c) /\ cd c <> 0.

(** The list of all elements. *)
Record lrep (h : gmap Z HashElem) (f : Z) (l : list Cell) : Prop := {
  lr_dll : dll 0 (nx h) (pv h) (map ca l);
  lr_first : f = hd_or 0 (map ca l);
  lr_cells : Forall (cell_ok h) l }.

(** The buckets: the list is a sequence of runs, one for each bucket in use. *)
Definition flat (gs : list (Z * list Cell)) : list Cell := concat (map snd gs).

Record tbl (t : Hash) (gs : list (Z * list Cell)) : Prop := {
  tb_size : htsize t = Z.of_nat (length (hta t));
  tb_nodup : NoDup (map fst gs);
  tb_run : forall h seg, (h, seg) ∈ gs -> seg <> [] /\ 0 <= h < htsize t /\ Forall (fun c => chash (htsize t) c = h) seg /\
    hta t !! Z.to_nat h = Some {| ht_count := Z.of_nat (length seg); ht_chain := hd_or 0 (map ca seg) |};
  tb_empty : forall h, 0 <= h < htsize t -> h ∉ map fst gs ->
    exists ch, hta t !! Z.to_nat h = Some {| ht_count := 0; ht_chain := ch |} }.

Lemma strHash_low a b : low a = low b ->
  strHash a (Z.of_nat (length a)) = strHash b (Z.of_nat (length b)).
Proof.
  unfold strHash. rewrite !Nat2Z.id. generalize 0. revert b.
  induction a as [|x a IH]; intros [|y b] h E; try done. unfold low in E. cbn [map] in E. injection E as E1 E2.
  cbn [length strHash_loop hd tl]. unfold sqlite3Tolower in E1. rewrite E1. by apply IH.
Qed.

Lemma flat_app g1 g2 : flat (g1 ++ g2) = flat g1 ++ flat g2.
Proof. unfold flat. by rewrite map_app, concat_app. Qed.
Lemma flat_cons h seg gs : flat ((h, seg) :: gs) = seg ++ flat gs.
Proof. done. Qed.

(** The first element with a matching key. *)
Fixpoint cfind (key : list Z) (l : list Cell) : option Cell :=
  match l with
  | [] => None
  | c :: l => if decide (low (ck c) = low key) then Some c else cfind key l
  end.
Definition caddr (o : option Cell) : Z := match o with Some c => ca c | None => 0 end.

Lemma cfind_None key l : cfind key l = None <-> forall c, c ∈ l -> low (ck c) <> low key.
Proof.
  induction l as [|c l IH]; cbn [cfind]; [split; [set_solver|done]|]. case_decide as E.
  - split; [done|]. intros H. exfalso. apply (H c); [by left|done].
  - rewrite IH. split.
    + intros H c' [->|?]%elem_of_cons; auto.
    + intros H c' Hc'. apply H. by right.
Qed.
Lemma cfind_Some key l c : cfind key l = Some c -> c ∈ l /\ low (ck c) = low key.
Proof.
  induction l as [|c' l IH]; cbn [cfind]; [done|]. case_decide.
  - intros [= ->]. split; [by left|done].
  - intros Hc. destruct (IH Hc). split; [by right|done].
Qed.
Lemma cfind_uniq key l c : NoDup (map (fun c => low (ck c)) l) -> c ∈ l -> low (ck c) = low key -> cfind key l = Some c.
Proof.
  induction l as [|c' l IH]; cbn [map cfind]; intros Hnd Hc Hk; [set_solver|].
  apply NoDup_cons in Hnd as [Hni Hnd]. apply elem_of_cons in Hc as [->|Hc]; [by rewrite decide_True|].
  rewrite decide_False; [by apply IH|]. intros E. apply Hni. rewrite E, <- Hk.
  by apply (list_elem_of_fmap_2 (fun c => low (ck c))).
Qed.

Lemma cfind_app key l1 l2 :
  cfind key (l1 ++ l2) = match cfind key l1 with Some c => Some c | None => cfind key l2 end.
Proof. induction l1 as [|c l1 IH]; [done|]. cbn [app cfind]. by case_decide. Qed.

Lemma elem_flat c gs : c ∈ flat gs <-> exists h seg, (h, seg) ∈ gs /\ c ∈ seg.
Proof.
  induction gs as [|[h seg] gs IH]; [split; [set_solver|intros (? & ? & ? & ?); set_solver]|].
  rewrite flat_cons, elem_of_app, IH. split.
  - intros [?|(h' & seg' & ? & ?)]; [exists h, seg; split; [by left|done]|exists h', seg'; split; [by right|done]].
  - intros (h' & seg' & [[= -> ->]|?]%elem_of_cons & ?); [by left|right; by exists h', seg'].
Qed.

(** No element of another bucket has a matching key. *)
Lemma cfind_other n key h gs :
  strHash key (Z.of_nat (length key)) mod n = h ->
  (forall h' seg', (h', seg') ∈ gs -> h' <> h /\ Forall (fun c => chash n c = h') seg') ->
  cfind key (flat gs) = None.
Proof.
  intros Hk Hg. apply cfind_None. intros c (h' & seg' & Hin & Hc)%elem_flat E.
  destruct (Hg h' seg' Hin) as [Hne Hf]. apply Hne. rewrite Forall_forall in Hf. rewrite <- (Hf c Hc), <- Hk.
  unfold chash. f_equal. by apply strHash_low.
Qed.

Lemma run_split t gs h :
  tbl t gs -> h ∈ map fst gs ->
  exists g1 seg g2, gs = g1 ++ (h, seg) :: g2 /\ h ∉ map fst (g1 ++ g2).
Proof.
  intros Ht Hin. apply list_elem_of_fmap in Hin as ([h' seg] & -> & Hin). cbn.
  apply list_elem_of_split in Hin as (g1 & g2 & ->). exists g1, seg, g2. split; [done|].
  pose proof (tb_nodup _ _ Ht) as Hnd. rewrite map_app in *. cbn [map fst] in *.
  apply NoDup_app in Hnd as (_ & H1 & H2). apply NoDup_cons in H2 as [H2 _]. set_solver.
Qed.

Lemma others t gs h g1 seg g2 :
  tbl t gs -> gs = g1 ++ (h, seg) :: g2 -> h ∉ map fst (g1 ++ g2) ->
  forall h' seg', (h', seg') ∈ g1 ++ g2 -> h' <> h /\ Forall (fun c => chash (htsize t) c = h') seg'.
Proof.
  intros Ht -> Hni h' seg' Hin. split.
  - intros ->. apply Hni. apply (list_elem_of_fmap_2 fst _ (h, seg')). done.
  - apply (tb_run _ _ Ht). apply elem_of_app in Hin as [?|?]; apply elem_of_app; [by left|right; by right].
Qed.

(** ** Searching *)

Lemma key_test e key c h :
  h !! ca c = Some e -> cell_ok h c -> cstring key ->
  ((nKey e =? Z.of_nat (length key)) && (sqlite3_strnicmp (pKey e) key (Z.of_nat (length key)) =? 0)) =
  bool_decide (low (ck c) = low key).
Proof.
  intros He (Hp & Hc & _) Hk. rewrite (pay_at _ _ _ He) in Hp. injection Hp as _ -> ->.
  destruct (Z.eqb_spec (Z.of_nat (length (ck c))) (Z.of_nat (length key))) as [E|E]; cbn [andb].
  - apply Nat2Z.inj in E. apply eq_true_iff_eq. rewrite bool_decide_eq_true, Z.eqb_eq.
    apply strnicmp_zero; [|done|done]. eapply Forall_impl; [exact Hc|]. by intros ? [? _].
  - symmetry. apply bool_decide_eq_false. intros El. apply E.
    pose proof (f_equal length El) as Hl. unfold low in Hl. rewrite !length_map in Hl. congruence.
Qed.

Lemma find_loop_run s p seg rest key :
  dlseg (nx (hs_heap s)) (pv (hs_heap s)) p (map ca (seg ++ rest)) 0 -> 0 ∉ map ca (seg ++ rest) ->
  Forall (cell_ok (hs_heap s)) (seg ++ rest) -> cstring key ->
  find_loop (length seg) (hd_or 0 (map ca (seg ++ rest))) key (Z.of_nat (length key)) s =
  Some (caddr (cfind key seg), s).
Proof.
  intros Hd H0 Hok Hk. revert p Hd H0 Hok. induction seg as [|c seg IH]; intros p Hd H0 Hok; [done|].
  cbn [length find_loop app map hd_or]. cbn [app map dlseg] in Hd. destruct Hd as (En & _ & Hd).
  apply Forall_cons in Hok as [Hc Hok]. cbn [app map] in H0. apply not_elem_of_cons in H0 as [Hc0 H0].
  rewrite (proj2 (Z.eqb_neq (ca c) 0)) by congruence.
  destruct (pay_live _ _ _ (proj1 Hc)) as [e He]. rewrite (bind_getE _ _ _ _ He).
  rewrite (key_test e key c _ He Hc Hk). cbn [cfind]. rewrite (nx_at _ _ _ He) in En.
  destruct (decide (low (ck c) = low key)) as [E|E].
  - by rewrite bool_decide_eq_true_2.
  - rewrite bool_decide_eq_false_2 by done. rewrite En. by apply (IH (ca c)).
Qed.

(** What the table part of a state says. *)
Definition trep (s : HState) (l : list Cell) : Prop :=
  (ht (hs_h s) = 0 /\ htsize (hs_h s) = 0) \/
  (ht (hs_h s) <> 0 /\ 0 < htsize (hs_h s) /\ exists gs, l = flat gs /\ tbl (hs_h s) gs).

(** The bucket index as [sqlite3HashInsert] and [sqlite3HashFind] compute it. *)
Definition bucket (s : HState) (key : list Z) : Z :=
  if negb (htsize (hs_h s) =? 0) then strHash key (Z.of_nat (length key)) mod htsize (hs_h s) else 0.

Lemma bucket_range s key : 0 < htsize (hs_h s) ->
  bucket s key = strHash key (Z.of_nat (length key)) mod htsize (hs_h s) /\ 0 <= bucket s key < htsize (hs_h s).
Proof.
  intros H. unfold bucket. rewrite (proj2 (Z.eqb_neq (htsize (hs_h s)) 0)) by lia. cbn [negb].
  split; [done|]. by apply Z.mod_pos_bound.
Qed.

Lemma run_getB s h b : hta (hs_h s) !! Z.to_nat h = Some b -> getB h s = Some (b, s).
Proof. intros E. unfold getB. by rewrite E. Qed.

Lemma find_run s l key :
  lrep (hs_heap s) (first (hs_h s)) l -> trep s l -> count (hs_h s) = Z.of_nat (length l) -> cstring key ->
  findElementGivenHash key (Z.of_nat (length key)) (bucket s key) s = Some (caddr (cfind key l), s).
Proof.
  intros [Hd Hf Hok] Ht Hcnt Hk. unfold findElementGivenHash. rewrite bind_get.
  destruct Ht as [[-> _]|(Hht & Hsz & gs & -> & Ht)].
  - change (0 =? 0) with true. cbn [negb]. rewrite Hcnt, Nat2Z.id, Hf.
    pose proof (find_loop_run s 0 l [] key) as HF. rewrite !app_nil_r in HF.
    apply HF; [apply Hd|apply (dll_null Hd)|done|done].
  - rewrite (proj2 (Z.eqb_neq (ht (hs_h s)) 0)) by done. cbn [negb].
    destruct (bucket_range s key Hsz) as [Eb Hb]. set (h := bucket s key) in *.
    destruct (decide (h ∈ map fst gs)) as [Hin|Hni].
    + destruct (run_split _ _ _ Ht Hin) as (g1 & seg & g2 & -> & Hni).
      pose proof (others _ _ _ _ _ _ Ht eq_refl Hni) as Hoth.
      destruct (tb_run _ _ Ht h seg) as (_ & _ & _ & Hbk); [set_solver|].
      rewrite (bind_some _ _ _ _ _ (run_getB _ _ _ Hbk)). cbn [ht_count ht_chain]. rewrite Nat2Z.id.
      rewrite flat_app, flat_cons in *. rewrite !map_app in Hd. pose proof (dll_null Hd) as H0. destruct Hd as [Hd _ _].
      apply dlseg_app in Hd as [_ Hd]. apply Forall_app in Hok as [_ Hok]. rewrite <- map_app in Hd, H0.
      assert (hd_or 0 (map ca seg) = hd_or 0 (map ca (seg ++ flat g2))) as ->.
      { destruct (tb_run _ _ Ht h seg) as (Hne & _); [set_solver|]. by destruct seg. }
      rewrite (find_loop_run s _ seg (flat g2) key Hd) by (done || set_solver).
      rewrite !cfind_app. rewrite (cfind_other (htsize (hs_h s)) key h g1), (cfind_other (htsize (hs_h s)) key h g2);
        [by destruct (cfind key seg)|done|intros; apply Hoth; set_solver|done|intros; apply Hoth; set_solver].
    + destruct (tb_empty _ _ Ht h Hb Hni) as (ch & Hbk).
      rewrite (bind_some _ _ _ _ _ (run_getB _ _ _ Hbk)). cbn [ht_count Z.to_nat find_loop].
      rewrite (cfind_other (htsize (hs_h s)) key h gs); [done|done|]. intros h' seg' Hin.
      destruct (tb_run _ _ Ht _ _ Hin) as (_ & _ & ? & _). split; [|done]. intros ->. apply Hni.
      by apply (list_elem_of_fmap_2 fst _ (h, seg')).
Qed.

(** ** Inserting into a bucket *)

(** What linking an element leaves alone. *)
Record frame (s s' : HState) : Prop := {
  fr_w : hs_w s' = hs_w s;
  fr_ht : ht (hs_h s') = ht (hs_h s);
  fr_size : htsize (hs_h s') = htsize (hs_h s);
  fr_count : count (hs_h s') = count (hs_h s);
  fr_pay : forall b, pay (hs_heap s') b = pay (hs_heap s) b }.

Lemma cells_pay h h' l : (forall b, pay h' b = pay h b) -> Forall (cell_ok h) l -> Forall (cell_ok h') l.
Proof.
  intros Hp Hl. eapply Forall_impl; [exact Hl|]. intros c (A & B). split; [by rewrite Hp|done].
Qed.

Lemma cells_live h l : Forall (cell_ok h) l -> forall b, b ∈ map ca l -> is_Some (h !! b).
Proof.
  intros Hok b Hb. apply list_elem_of_fmap in Hb as (c & -> & Hc). rewrite Forall_forall in Hok.
  destruct (pay_live _ _ _ (proj1 (Hok c Hc))) as [e ->]. done.
Qed.

(** The table after one bucket has been overwritten. *)
Definition bucket_set (t : Hash) (f h : Z) (b : Ht) : Hash :=
  {| htsize := htsize t; count := count t; first := f; ht := ht t; hta := <[Z.to_nat h := b]> (hta t) |}.

Lemma tbl_set t gs gs' f h seg' b :
  tbl t gs -> 0 <= h < htsize t -> seg' <> [] -> Forall (fun c => chash (htsize t) c = h) seg' ->
  b = {| ht_count := Z.of_nat (length seg'); ht_chain := hd_or 0 (map ca seg') |} ->
  NoDup (map fst gs') ->
  (forall h0 seg0, (h0, seg0) ∈ gs' <-> (h0 = h /\ seg0 = seg') \/ (h0 <> h /\ (h0, seg0) ∈ gs)) ->
  tbl (bucket_set t f h b) gs'.
Proof.
  intros Ht Hh Hne Hall -> Hnd Hgs. pose proof (tb_size _ _ Ht) as Hsz. split; cbn [bucket_set htsize hta].
  - by rewrite length_insert.
  - done.
  - intros h0 seg0 [[-> ->]|[Hn Hin]]%Hgs.
    + split; [done|]. split; [done|]. split; [done|]. rewrite list_lookup_insert_eq; [done|lia].
    + destruct (tb_run _ _ Ht _ _ Hin) as (A & B & C & D). split; [done|]. split; [done|]. split; [done|].
      rewrite list_lookup_insert_ne by lia. done.
  - intros h0 Hh0 Hni. assert (h0 <> h) as Hn.
    { intros ->. apply Hni. apply (list_elem_of_fmap_2 fst _ (h, seg')). apply Hgs. by left. }
    rewrite list_lookup_insert_ne by lia. apply (tb_empty _ _ Ht); [done|].
    intros ([h1 seg1] & -> & Hin)%list_elem_of_fmap. apply Hni.
    apply (list_elem_of_fmap_2 fst _ (h1, seg1)). apply Hgs. by right.
Qed.

Lemma run_setB s h b b0 : hta (hs_h s) !! Z.to_nat h = Some b0 ->
  setB h b s = Some (tt, with_h s (bucket_set (hs_h s) (first (hs_h s)) h b)).
Proof. intros E. unfold setB. by rewrite E. Qed.

Lemma insert_run s gs c :
  lrep (hs_heap s) (first (hs_h s)) (flat gs) -> tbl (hs_h s) gs -> 0 < htsize (hs_h s) ->
  cell_ok (hs_heap s) c -> ca c ∉ map ca (flat gs) -> ca c <> 0 ->
  Z.of_nat (length (flat gs)) < 2 ^ 31 - 1 ->
  exists s' gs', insertElement (Some (chash (htsize (hs_h s)) c)) (ca c) s = Some (tt, s') /\
    lrep (hs_heap s') (first (hs_h s')) (flat gs') /\ tbl (hs_h s') gs' /\ flat gs' ≡ₚ c :: flat gs /\
    frame s s' /\ (forall b, b ∉ map ca (flat gs') -> hs_heap s' !! b = hs_heap s !! b).
Proof.
  intros [Hd Hf Hok] Ht Hsz Hc Hni Hc0 Hlen. set (h := chash (htsize (hs_h s)) c).
  assert (0 <= h < htsize (hs_h s)) as Hh by (apply Z.mod_pos_bound; lia).
  destruct (pay_live _ _ _ (proj1 Hc)) as [ec Hec]. pose proof (dll_null Hd) as Hnull.
  pose proof (cells_live _ _ Hok) as Hlive. unfold insertElement.
  destruct (decide (h ∈ map fst gs)) as [Hin|Hab].
  - destruct (run_split _ _ _ Ht Hin) as (g1 & seg & g2 & -> & Hni2).
    destruct (tb_run _ _ Ht h seg) as (Hne & _ & Hall & Hbk); [set_solver|].
    destruct seg as [|c1 seg]; [done|]. clear Hne. cbn [map hd_or] in Hbk.
    assert (ca c1 <> 0) as Hc10.
    { intros E. apply Hnull. rewrite flat_app, flat_cons, !map_app. cbn. rewrite E. set_solver. }
    rewrite bind_assoc, (bind_some _ _ _ _ _ (run_getB _ _ _ Hbk)), bind_assoc.
    rewrite (bind_some _ _ _ _ _ (run_setB _ _ _ _ Hbk)), bind_ret. cbn [ht_count ht_chain].
    rewrite (proj2 (Z.eqb_neq (Z.of_nat (length (c1 :: seg))) 0)) by (cbn; lia). cbn [negb].
    rewrite (proj2 (Z.eqb_neq (ca c1) 0)) by done. cbn [negb].
    rewrite flat_app, flat_cons in Hd, Hf, Hni, Hlen, Hlive, Hnull |- *.
    rewrite !map_app in Hd, Hf, Hni, Hlive. cbn [map app] in Hd, Hf, Hni, Hlive.
    set (t1 := bucket_set (hs_h s) (first (hs_h s)) h _).
    edestruct (link_before (with_h s t1) (map ca (flat g1)) (ca c1) (map ca seg ++ map ca (flat g2)) (ca c) ec)
      as (h' & Hrun & Hl); [exact Hd|exact Hlive|exact Hf|exact Hec|exact Hni|done|].
    eexists _, (g1 ++ (h, c :: c1 :: seg) :: g2). split; [exact Hrun|]. destruct Hl as [Hd' Hp' Ho'].
    rewrite flat_app, flat_cons.
    assert (map ca (flat g1 ++ (c :: c1 :: seg) ++ flat g2) =
      map ca (flat g1) ++ ca c :: ca c1 :: map ca seg ++ map ca (flat g2)) as Em by (by rewrite !map_app).
    split; [|split; [|split; [|split]]].
    + split; cbn [first_set hs_heap hs_h first]; [by rewrite Em|by rewrite Em|].
      apply (cells_pay (hs_heap s)); [done|]. rewrite flat_app, flat_cons in Hok.
      apply Forall_app in Hok as [? ?]. apply Forall_app. split; [done|]. by constructor.
    + eapply (tbl_set (hs_h s) _ _ _ h (c :: c1 :: seg)); [exact Ht|done|done|by constructor| | |].
      * f_equal. cbn [length]. rewrite swrap_small; [lia|lia|].
        rewrite !length_app in Hlen. cbn [length] in Hlen. unfold is_i. lia.
      * pose proof (tb_nodup _ _ Ht) as Hnd. by rewrite !map_app in *.
      * intros h0 seg0. rewrite !elem_of_app, !elem_of_cons.
        assert (forall sg, (h, sg) ∈ g1 ++ g2 -> False) as Hno.
        { intros sg Hsg. apply Hni2. by apply (list_elem_of_fmap_2 fst _ (h, sg)). }
        split.
        -- intros [Hg|[[= -> ->]|Hg]]; [right|by left|right]; (split; [intros ->; apply (Hno seg0); set_solver|tauto]).
        -- intros [[-> ->]|[Hn [Hg|[[= -> ->]|Hg]]]]; [by right; left|by left|done|by right; right].
    + symmetry. apply (Permutation_middle (flat g1) ((c1 :: seg) ++ flat g2) c).
    + split; cbn [first_set hs_w hs_h ht htsize count hs_heap]; done.
    + intros b Hb. cbn [first_set hs_heap]. rewrite Em in Hb. by apply Ho'.
  - destruct (tb_empty _ _ Ht h Hh Hab) as (ch & Hbk).
    rewrite bind_assoc, (bind_some _ _ _ _ _ (run_getB _ _ _ Hbk)), bind_assoc.
    rewrite (bind_some _ _ _ _ _ (run_setB _ _ _ _ Hbk)), bind_ret. cbn [ht_count ht_chain].
    change (0 =? 0) with true. cbn [negb]. change (0 =? 0) with true. cbn [negb]. rewrite bind_get.
    set (t1 := bucket_set (hs_h s) (first (hs_h s)) h _).
    edestruct (link_front (with_h s t1) (map ca (flat gs)) (ca c) ec) as (h' & Hrun & Hl);
      [exact Hd|exact Hlive|exact Hf|exact Hec|exact Hni|done|].
    eexists _, ((h, [c]) :: gs). split; [exact Hrun|]. destruct Hl as [Hd' Hp' Ho']. rewrite flat_cons.
    split; [|split; [|split; [|split]]].
    + split; cbn [first_set hs_heap hs_h first app map]; [done|done|].
      apply (cells_pay (hs_heap s)); [done|]. by constructor.
    + eapply (tbl_set (hs_h s) _ _ _ h [c]); [exact Ht|done|done|by constructor|done| |].
      * cbn [map fst]. constructor; [done|apply Ht].
      * intros h0 seg0. rewrite elem_of_cons. split.
        -- intros [[= -> ->]|Hg]; [by left|right]. split; [|done]. intros ->. apply Hab.
           by apply (list_elem_of_fmap_2 fst _ (h, seg0)).
        -- intros [[-> ->]|[_ ?]]; [by left|by right].
    + done.
    + split; cbn [first_set hs_w hs_h ht htsize count hs_heap]; done.
    + intros b Hb. cbn [first_set hs_heap]. by apply Ho'.
Qed.

(** ** Growing the table *)

Lemma dlseg_same h h' p l n :
  dlseg (nx h) (pv h) p l n -> (forall b, b ∈ l -> h' !! b = h !! b) -> dlseg (nx h') (pv h') p l n.
Proof.
  revert p. induction l as [|a l IH]; intros p Hd He; [done|]. destruct Hd as (A & B & C). cbn [dlseg].
  assert (h' !! a = h !! a) as E by (apply He; by left). split; [|split].
  - unfold nx. rewrite E. exact A.
  - unfold pv. rewrite E. exact B.
  - apply IH; [done|]. intros b Hb. apply He. by right.
Qed.

Lemma frame_trans s1 s2 s3 : frame s1 s2 -> frame s2 s3 -> frame s1 s3.
Proof.
  intros [A B C D E] [A' B' C' D' E']. split; congruence.
Qed.

Lemma rehash_loop_run fuel : forall s gs r p,
  lrep (hs_heap s) (first (hs_h s)) (flat gs) -> tbl (hs_h s) gs -> 0 < htsize (hs_h s) ->
  dlseg (nx (hs_heap s)) (pv (hs_heap s)) p (map ca r) 0 -> Forall (cell_ok (hs_heap s)) r ->
  NoDup (map ca (r ++ flat gs)) -> 0 ∉ map ca r -> Z.of_nat (length (r ++ flat gs)) < 2 ^ 31 - 1 ->
  (length r <= fuel)%nat ->
  exists s' gs', rehash_loop fuel (htsize (hs_h s)) (hd_or 0 (map ca r)) s = Some (tt, s') /\
    lrep (hs_heap s') (first (hs_h s')) (flat gs') /\ tbl (hs_h s') gs' /\ flat gs' ≡ₚ r ++ flat gs /\
    frame s s' /\ (forall b, b ∉ map ca (r ++ flat gs) -> hs_heap s' !! b = hs_heap s !! b).
Proof.
  induction fuel as [|fuel IH]; intros s gs r p Hl Ht Hsz Hd Hok Hnd H0 Hlen Hf;
    (destruct r as [|c r]; [exists s, gs; split; [done|]; split; [done|]; split; [done|]; split; [done|]; split; [by split|done]|]);
    [cbn in Hf; lia|].
  cbn [map hd_or dlseg app] in *. destruct Hd as (En & _ & Hd). apply Forall_cons in Hok as [Hc Hok].
  apply not_elem_of_cons in H0 as [Hc0 H0]. apply NoDup_cons in Hnd as [Hni Hnd].
  cbn [rehash_loop]. rewrite (proj2 (Z.eqb_neq (ca c) 0)) by congruence.
  destruct (pay_live _ _ _ (proj1 Hc)) as [e He]. rewrite (bind_getE _ _ _ _ He).
  pose proof (proj1 Hc) as Hp. rewrite (pay_at _ _ _ He) in Hp. injection Hp as _ Ek En'. rewrite Ek, En'.
  rewrite (nx_at _ _ _ He) in En. change (strHash _ _ mod _) with (chash (htsize (hs_h s)) c).
  rewrite map_app in Hni. apply not_elem_of_app in Hni as [Hni1 Hni2].
  cbn [length] in Hlen, Hf. rewrite length_app in Hlen.
  destruct (insert_run s gs c Hl Ht Hsz Hc Hni2) as (s1 & gs1 & R1 & L1 & T1 & Q1 & F1 & O1);
    [congruence|lia|]. rewrite (bind_some _ _ _ _ _ R1), En.
  pose proof (fr_size _ _ F1) as Es. rewrite <- Es.
  assert (NoDup (map ca (r ++ flat gs1))) as Hnd1.
  { rewrite Q1. rewrite <- Permutation_middle. cbn [map]. constructor; [rewrite map_app; set_solver|done]. }
  destruct (IH s1 gs1 r (ca c)) as (s2 & gs2 & R2 & L2 & T2 & Q2 & F2 & O2); try done.
  - by rewrite Es.
  - apply (dlseg_same (hs_heap s)); [done|]. intros b Hb. apply O1.
    rewrite map_app in Hnd1. apply NoDup_app in Hnd1 as (_ & Hx & _). by apply Hx.
  - by apply (cells_pay (hs_heap s)); [apply F1|].
  - rewrite length_app, Q1. cbn [length]. lia.
  - lia.
  - exists s2, gs2. split; [done|]. split; [done|]. split; [done|]. split.
    { rewrite Q2, Q1. by rewrite <- Permutation_middle. }
    split; [by eapply frame_trans|]. intros b Hb. rewrite O2, O1.
    + done.
    + rewrite Q1. cbn [map]. rewrite map_app in Hb. set_solver.
    + rewrite Q1, <- Permutation_middle. done.
Qed.

(** The invariant of a table with elements [l]; [X] are elements allocated but not yet
    linked, and [L] the outstanding allocations. *)
Record hinv (s : HState) (l X : list Cell) (L : gmap Z Z) : Prop := {
  hi_w : winv bMemstat (hs_w s) L;
  hi_l : lrep (hs_heap s) (first (hs_h s)) l;
  hi_t : trep s l;
  hi_x : Forall (cell_ok (hs_heap s)) X;
  hi_nd : NoDup (map ca (X ++ l));
  hi_null : 0 ∉ map ca (X ++ l);
  hi_keys : NoDup (map (fun c => low (ck c)) (X ++ l));
  hi_dom : forall a, is_Some (hs_heap s !! a) <-> a ∈ map ca (X ++ l);
  hi_live : forall a, a ∈ map ca (X ++ l) -> is_Some (L !! a);
  hi_ht : ht (hs_h s) <> 0 -> is_Some (L !! ht (hs_h s)) /\ ht (hs_h s) ∉ map ca (X ++ l);
  hi_count : count (hs_h s) = Z.of_nat (length (X ++ l));
  hi_small : Z.of_nat (length (X ++ l)) < 2 ^ 30 }.

Lemma heap_size s l X L : hinv s l X L -> (length l <= size (hs_heap s))%nat.
Proof.
  intros H. pose proof (hi_nd _ _ _ _ H) as Hnd. rewrite map_app in Hnd. apply NoDup_app in Hnd as (_ & _ & Hnd).
  rewrite <- (length_map ca l), <- (size_list_to_set (C := gset Z)) by done.
  rewrite <- size_dom. apply subseteq_size. intros a Ha%elem_of_list_to_set.
  apply elem_of_dom. apply (hi_dom _ _ _ _ H). rewrite map_app. set_solver.
Qed.

(** A state that differs in the world only. *)
Lemma hinv_world s l X L w : hinv s l X L -> winv bMemstat w L -> hinv (with_w s w) l X L.
Proof. intros [A B C D E F G H I J K N] Hw. by split. Qed.

Lemma tbl_fresh n a c f :
  0 <= n -> tbl {| htsize := n; count := c; first := f; ht := a;
                   hta := replicate (Z.to_nat n) {| ht_count := 0; ht_chain := 0 |} |} [].
Proof.
  intros Hn. split; cbn.
  - rewrite length_replicate. lia.
  - constructor.
  - intros h seg Hin. by apply elem_of_nil in Hin.
  - intros h Hh _. exists 0. apply lookup_replicate. split; [done|lia].
Qed.

Lemma rehash_run s l X L n :
  hinv s l X L -> 0 < n ->
  exists ok s' l' L', rehash n s = Some (ok, s') /\ hinv s' l' X L' /\ l' ≡ₚ l /\
    (ok = true -> ht (hs_h s') <> 0) /\ (ok = false -> hs_h s' = hs_h s) /\
    (forall b, pay (hs_heap s') b = pay (hs_heap s) b).
Proof.
  intros Hi Hn. unfold rehash. rewrite bind_get. set (n1 := if _ <? _ then _ else n).
  assert (0 < n1) as Hn1 by (unfold n1; destruct (_ <? _); [done|lia]).
  destruct (n1 =? htsize (hs_h s)); [by exists false, s, l, L|].
  unfold mallocP at 1. pose proof (malloc_spec bMemstat (hs_w s) L (n1 * sizeof_ht) (hi_w _ _ _ _ Hi)) as HM.
  unfold mbind at 1, prog_bind at 1. destruct (sqlite3Malloc bMemstat (hs_w s) (n1 * sizeof_ht)) as [p w].
  destruct HM as [[-> HM]|(Hp & Hnew & z & Hz & HM)].
  { change (0 =? 0) with true. exists false, (with_w s w), l, L. split; [done|].
    split; [by apply hinv_world|]. done. }
  rewrite (proj2 (Z.eqb_neq p 0)) by done. set (s1 := with_w s w).
  assert (p ∉ map ca (X ++ l)) as Hpl.
  { intros Hin. destruct (hi_live _ _ _ _ Hi p Hin). congruence. }
  assert (exists w2 L2, (freeP (ht (hs_h s))) s1 = Some (tt, with_w s w2) /\ winv bMemstat w2 L2 /\
    L2 !! p = Some z /\ (forall a, a ∈ map ca (X ++ l) -> is_Some (L2 !! a))) as (w2 & L2 & R2 & W2 & Lp & Lv).
  { unfold freeP. destruct (decide (ht (hs_h s) = 0)) as [E|E].
    - exists w, (<[p := z]> L). rewrite E. split; [done|]. split; [done|]. split; [apply lookup_insert_eq|].
      intros a Ha. rewrite lookup_insert_ne by congruence. by apply (hi_live _ _ _ _ Hi).
    - destruct (hi_ht _ _ _ _ Hi E) as [[z0 Hz0] Hht].
      assert ((<[p := z]> L) !! ht (hs_h s) = Some z0) as Hlk by (rewrite lookup_insert_ne by congruence; done).
      eexists _, _. split; [reflexivity|]. split; [by apply (free_spec _ _ _ _ _ HM Hlk)|].
      split; [rewrite lookup_delete_ne, lookup_insert_eq by congruence; done|].
      intros a Ha. rewrite lookup_delete_ne, lookup_insert_ne by congruence. by apply (hi_live _ _ _ _ Hi). }
  rewrite (bind_some _ _ _ _ _ R2), bind_get.
  assert (sqlite3MallocSize w2 p = z) as Esz by apply (mm_size _ _ _ _ (wi_mem _ _ _ W2) Lp).
  cbn [hs_w with_w]. rewrite Esz. set (n2 := z / sizeof_ht).
  assert (0 < n2) as Hn2.
  { assert (n1 <= n2); [|lia]. unfold n2. apply Z.div_le_lower_bound; [done|]. rewrite Z.mul_comm. exact Hz. }
  unfold setTable, setFirst. rewrite !bind_mod. cbn [with_h with_w hs_h hs_heap first htsize count ht hta].
  set (t2 := {| htsize := n2; count := count (hs_h s); first := 0; ht := p; hta := _ |}).
  set (s2 := {| hs_w := w2; hs_heap := hs_heap s; hs_h := t2 |}).
  destruct (hi_l _ _ _ _ Hi) as [Hd Hf Hok].
  pose proof (hi_nd _ _ _ _ Hi) as Hnd. rewrite map_app in Hnd. apply NoDup_app in Hnd as (_ & _ & Hndl).
  pose proof (hi_small _ _ _ _ Hi) as Hsm. rewrite length_app in Hsm.
  destruct (rehash_loop_run (size (hs_heap s)) s2 [] l 0) as (s3 & gs & R3 & L3 & T3 & Q3 & F3 & O3).
  - split; [apply dll_nil|done|by constructor].
  - apply tbl_fresh. lia.
  - done.
  - apply Hd.
  - done.
  - by rewrite app_nil_r.
  - apply Hd.
  - rewrite app_nil_r. lia.
  - by eapply heap_size.
  - rewrite Hf. rewrite (bind_some _ _ _ _ _ R3). rewrite app_nil_r in Q3.
    exists true, s3, (flat gs), L2. split; [done|]. destruct F3 as [E1 E2 E3 E4 E5]. cbn in E1, E2, E3, E4.
    assert (X ++ flat gs ≡ₚ X ++ l) as Qx by by rewrite Q3.
    split; [|split; [done|split; [|split; [done|done]]]].
    + split.
      * by rewrite E1.
      * done.
      * right. rewrite E2, E3. split; [done|]. split; [done|]. by exists gs.
      * by apply (cells_pay (hs_heap s)); [|apply Hi].
      * rewrite Qx. apply Hi.
      * rewrite Qx. apply Hi.
      * rewrite Qx. apply Hi.
      * intros a. rewrite Qx. rewrite <- (hi_dom _ _ _ _ Hi a).
        pose proof (E5 a) as Ea. unfold pay in Ea. cbn in Ea.
        destruct (hs_heap s3 !! a), (hs_heap s !! a); try done; split; intros [? ?]; done.
      * intros a. rewrite Qx. apply Lv.
      * intros _. rewrite E2, Qx. split; [by rewrite Lp|done].
      * rewrite E4, Qx. apply Hi.
      * rewrite Qx. apply Hi.
    + intros _. by rewrite E2.
Qed.

(** ** Removing an element *)

Lemma tbl_drop t g1 h seg g2 f ch :
  tbl t (g1 ++ (h, seg) :: g2) ->
  tbl (bucket_set t f h {| ht_count := 0; ht_chain := ch |}) (g1 ++ g2).
Proof.
  intros Ht. pose proof (tb_size _ _ Ht) as Hsz. pose proof (tb_nodup _ _ Ht) as Hnd.
  assert (h ∉ map fst (g1 ++ g2)) as Hni.
  { rewrite map_app in *. cbn [map fst] in Hnd. apply NoDup_app in Hnd as (_ & H1 & H2).
    apply NoDup_cons in H2 as [H2 _]. set_solver. }
  destruct (tb_run _ _ Ht h seg) as (_ & Hh & _); [set_solver|].
  split; cbn [bucket_set htsize hta].
  - by rewrite length_insert.
  - rewrite map_app in *. cbn [map fst] in Hnd. apply NoDup_app in Hnd as (H0 & H1 & H2).
    apply NoDup_cons in H2 as [_ H2]. apply NoDup_app. split; [done|]. split; [set_solver|done].
  - intros h0 seg0 Hin. assert (h0 <> h) as Hn.
    { intros ->. apply Hni. by apply (list_elem_of_fmap_2 fst _ (h, seg0)). }
    destruct (tb_run _ _ Ht h0 seg0) as (A & B & C & D); [set_solver|].
    split; [done|]. split; [done|]. split; [done|]. rewrite list_lookup_insert_ne by lia. done.
  - intros h0 Hh0 Hn0. destruct (decide (h0 = h)) as [->|Hn].
    + exists ch. rewrite list_lookup_insert_eq; [done|lia].
    + rewrite list_lookup_insert_ne by lia. apply (tb_empty _ _ Ht); [done|].
      rewrite map_app in *. cbn [map fst]. set_solver.
Qed.

(** The bucket update of [removeElementGivenHash]; [n] is the successor of the element. *)
Definition unbucket (elem h n : Z) : prog HState unit :=
  s ← pget;
  if negb (ht (hs_h s) =? 0) then
    b ← getB h;
    setB h {| ht_count := i32 (ht_count b - 1);
              ht_chain := if ht_chain b =? elem then n else ht_chain b |}
  else mret tt.

Lemma find_run_of s l c :
  trep s l -> c ∈ l -> ht (hs_h s) <> 0 ->
  exists g1 sa sb g2, l = (flat g1 ++ sa) ++ c :: (sb ++ flat g2) /\
    tbl (hs_h s) (g1 ++ (bucket s (ck c), sa ++ c :: sb) :: g2).
Proof.
  intros [[? _]|(_ & Hsz & gs & -> & Ht)] Hc Hht; [done|].
  apply elem_flat in Hc as (h & seg & Hin & Hc). destruct (tb_run _ _ Ht _ _ Hin) as (_ & _ & Hall & _).
  assert (bucket s (ck c) = h) as ->.
  { destruct (bucket_range s (ck c) Hsz) as [-> _]. rewrite Forall_forall in Hall. by apply (Hall c). }
  apply list_elem_of_split in Hin as (g1 & g2 & ->). apply list_elem_of_split in Hc as (sa & sb & ->).
  exists g1, sa, sb, g2. split; [|done]. rewrite flat_app, flat_cons, <- !(assoc_L (++)). done.
Qed.

Lemma unbucket_run s l c :
  trep s l -> c ∈ l -> NoDup (map ca l) -> Z.of_nat (length l) < 2 ^ 30 ->
  exists l1 l2, l = l1 ++ c :: l2 /\
  forall s1 f, hs_h s1 = hs_h (first_set s (hs_heap s) f) ->
  exists t, unbucket (ca c) (bucket s (ck c)) (hd_or 0 (map ca l2)) s1 = Some (tt, with_h s1 t) /\
    first t = f /\ count t = count (hs_h s) /\ ht t = ht (hs_h s) /\ trep (with_h s1 t) (l1 ++ l2).
Proof.
  intros Ht Hc Hnd Hlen. unfold unbucket. destruct (decide (ht (hs_h s) = 0)) as [E|E].
  - apply list_elem_of_split in Hc as (l1 & l2 & ->). exists l1, l2. split; [done|]. intros s1 f Es.
    exists (hs_h s1). rewrite bind_get. assert (ht (hs_h s1) = 0) as E1 by by rewrite Es.
    rewrite E1. change (0 =? 0) with true. cbn [negb].
    destruct Ht as [[_ Hz]|[? _]]; [|done]. split; [by destruct s1|]. rewrite Es.
    split; [done|]. split; [done|]. split; [done|]. left. by cbn.
  - destruct (find_run_of s l c Ht Hc E) as (g1 & sa & sb & g2 & -> & Hb).
    exists (flat g1 ++ sa), (sb ++ flat g2). split; [done|]. intros s1 f Es. set (h := bucket s (ck c)) in *.
    destruct (tb_run _ _ Hb h (sa ++ c :: sb)) as (_ & Hh & Hall & Hbk); [set_solver|].
    rewrite bind_get, Es. cbn [first_set hs_h ht]. rewrite (proj2 (Z.eqb_neq (ht (hs_h s)) 0)) by done. cbn [negb].
    assert (hta (hs_h s1) !! Z.to_nat h = Some {| ht_count := Z.of_nat (length (sa ++ c :: sb));
      ht_chain := hd_or 0 (map ca (sa ++ c :: sb)) |}) as Hbk1 by by rewrite Es.
    rewrite (bind_some _ _ _ _ _ (run_getB _ _ _ Hbk1)), (run_setB _ _ _ _ Hbk1). cbn [ht_count ht_chain].
    eexists. split; [reflexivity|]. rewrite Es. cbn [first_set hs_h].
    split; [done|]. split; [done|]. split; [done|]. right. cbn [with_h hs_h bucket_set ht htsize].
    destruct Ht as [[? _]|(_ & Hsz & _)]; [done|]. split; [done|]. split; [done|].
    rewrite !length_app in Hlen. cbn [length] in Hlen. rewrite !length_app in Hlen.
    assert (i32 (Z.of_nat (length (sa ++ c :: sb)) - 1) = Z.of_nat (length (sa ++ sb))) as ->.
    { rewrite !length_app. cbn [length]. rewrite swrap_small; [lia|lia|unfold is_i; lia]. }
    apply Forall_app in Hall as [Ha1 Ha2]. apply Forall_cons in Ha2 as [_ Ha2].
    assert (forall ch, ch = hd_or 0 (map ca (sa ++ sb)) -> sa ++ sb <> [] ->
      exists gs, (flat g1 ++ sa) ++ sb ++ flat g2 = flat gs /\
        tbl (bucket_set (hs_h s) f h {| ht_count := Z.of_nat (length (sa ++ sb)); ht_chain := ch |}) gs) as Hkeep.
    { intros ch -> Hne. exists (g1 ++ (h, sa ++ sb) :: g2). split; [by rewrite flat_app, flat_cons, <- !(assoc_L (++))|].
      eapply (tbl_set (hs_h s) _ _ _ h (sa ++ sb)); [exact Hb|done|done|by apply Forall_app|done| |].
      - pose proof (tb_nodup _ _ Hb) as Hn. by rewrite !map_app in *.
      - pose proof (tb_nodup _ _ Hb) as Hn. rewrite map_app in Hn. cbn [map fst] in Hn.
        apply NoDup_app in Hn as (_ & Hn1 & Hn2). apply NoDup_cons in Hn2 as [Hn2 _].
        assert (forall sg, (h, sg) ∈ g1 -> False) as X1.
        { intros sg Hg. apply (Hn1 h); [by apply (list_elem_of_fmap_2 fst _ (h, sg))|by left]. }
        assert (forall sg, (h, sg) ∈ g2 -> False) as X2.
        { intros sg Hg. apply Hn2. by apply (list_elem_of_fmap_2 fst _ (h, sg)). }
        intros h0 seg0. rewrite !elem_of_app, !elem_of_cons. split.
        + intros [Hg|[[= -> ->]|Hg]]; [right|by left|right]; (split; [intros ->; eauto|tauto]).
        + intros [[-> ->]|[Hne0 [Hg|[[= -> ->]|Hg]]]]; [by right; left|by left|done|by right; right]. }
    destruct sa as [|a sa]; cbn [app map hd_or] in *.
    + rewrite Z.eqb_refl. destruct sb as [|b sb].
      * exists (g1 ++ g2). split; [by rewrite flat_app, app_nil_r|]. exact (tbl_drop _ _ _ _ _ f _ Hb).
      * by apply Hkeep.
    + rewrite (proj2 (Z.eqb_neq (ca a) (ca c))).
      * by apply Hkeep.
      * intros E'. rewrite map_app in Hnd. apply NoDup_app in Hnd as (_ & Hx & _). apply (Hx (ca a)).
        -- rewrite map_app. cbn. set_solver.
        -- rewrite E'. by left.
Qed.

(** ** Clearing *)

(** [L'] is [L] without the blocks of [as_]. *)
Definition freed (L L' : gmap Z Z) (as_ : list Z) : Prop :=
  forall a, L' !! a = if decide (a ∈ as_) then None else L !! a.

Lemma clear_loop_run fuel : forall s r p L,
  winv bMemstat (hs_w s) L -> dlseg (nx (hs_heap s)) (pv (hs_heap s)) p (map ca r) 0 ->
  Forall (cell_ok (hs_heap s)) r -> NoDup (map ca r) -> 0 ∉ map ca r ->
  (forall a, a ∈ map ca r -> is_Some (L !! a)) -> (length r <= fuel)%nat ->
  exists s' L', clear_loop fuel (hd_or 0 (map ca r)) s = Some (tt, s') /\
    winv bMemstat (hs_w s') L' /\ hs_h s' = hs_h s /\ freed L L' (map ca r) /\
    (forall a, hs_heap s' !! a = if decide (a ∈ map ca r) then None else hs_heap s !! a).
Proof.
  induction fuel as [|fuel IH]; intros s r p L Hw Hd Hok Hnd H0 Hlv Hf;
    (destruct r as [|c r]; [exists s, L; split; [done|]; split; [done|]; split; [done|];
       split; intros a; by rewrite decide_False by (by intros ?%elem_of_nil)|]); [cbn in Hf; lia|].
  cbn [map hd_or dlseg] in *. destruct Hd as (En & _ & Hd). apply Forall_cons in Hok as [Hc Hok].
  apply NoDup_cons in Hnd as [Hni Hnd]. apply not_elem_of_cons in H0 as [Hc0 H0].
  cbn [clear_loop]. rewrite (proj2 (Z.eqb_neq (ca c) 0)) by congruence.
  destruct (pay_live _ _ _ (proj1 Hc)) as [e He]. rewrite (bind_getE _ _ _ _ He).
  rewrite (nx_at _ _ _ He) in En. destruct (Hlv (ca c)) as [z Hz]; [by left|].
  unfold freeE at 1. rewrite bind_assoc. unfold freeP at 1. unfold mbind at 1, prog_bind at 1. rewrite bind_mod.
  set (s1 := with_heap _ _). rewrite En.
  assert (forall a, a ∈ map ca r -> a <> ca c) as Hne by (intros a Ha ->; done).
  assert (forall b, b ∈ map ca r -> hs_heap s1 !! b = hs_heap s !! b) as Hsame.
  { intros b Hb. cbn. rewrite lookup_delete_ne; [done|]. by apply not_eq_sym, Hne. }
  destruct (IH s1 r (ca c) (delete (ca c) L)) as (s' & L' & R & W & Hh & Hfr & Hheap); try done.
  - by apply (free_spec _ _ _ _ _ Hw Hz).
  - by apply (dlseg_same (hs_heap s)).
  - apply Forall_forall. intros c' Hc'. rewrite Forall_forall in Hok. destruct (Hok c' Hc') as (A & B).
    split; [|done]. unfold pay in *. rewrite Hsame; [done|]. by apply (list_elem_of_fmap_2 ca).
  - intros a Ha. rewrite lookup_delete_ne by (by apply not_eq_sym, Hne). apply Hlv. by right.
  - cbn in Hf. lia.
  - exists s', L'. split; [done|]. split; [done|]. split; [done|]. split; intros a.
    + rewrite Hfr. destruct (decide (a ∈ map ca r)) as [Ha|Ha]; [rewrite decide_True; [done|by right]|].
      destruct (decide (a = ca c)) as [->|]; [rewrite lookup_delete_eq, decide_True; [done|by left]|].
      rewrite lookup_delete_ne, decide_False by set_solver. done.
    + rewrite Hheap. destruct (decide (a ∈ map ca r)) as [Ha|Ha]; [rewrite decide_True; [done|by right]|]. cbn.
      destruct (decide (a = ca c)) as [->|]; [rewrite lookup_delete_eq, decide_True; [done|by left]|].
      rewrite lookup_delete_ne, decide_False by set_solver. done.
Qed.

(** The addresses a table owns. *)
Definition owned (s : HState) (l : list Cell) : list Z :=
  map ca l ++ (if decide (ht (hs_h s) = 0) then [] else [ht (hs_h s)]).

Lemma clear_run s l L :
  hinv s l [] L ->
  exists s' L', sqlite3HashClear s = Some (tt, s') /\ hinv s' [] [] L' /\ freed L L' (owned s l).
Proof.
  intros Hi. unfold sqlite3HashClear. rewrite bind_get. unfold setFirst, setTable, setCount.
  rewrite bind_mod. cbn [app] in *. destruct (hi_l _ _ _ _ Hi) as [Hd Hf Hok].
  assert (exists w L1, (freeP (ht (hs_h s))) (with_h s {| htsize := htsize (hs_h s); count := count (hs_h s);
      first := 0; ht := ht (hs_h s); hta := hta (hs_h s) |}) =
      Some (tt, {| hs_w := w; hs_heap := hs_heap s; hs_h := {| htsize := htsize (hs_h s); count := count (hs_h s);
      first := 0; ht := ht (hs_h s); hta := hta (hs_h s) |} |}) /\ winv bMemstat w L1 /\
      freed L L1 (if decide (ht (hs_h s) = 0) then [] else [ht (hs_h s)]) /\
      (forall a, a ∈ map ca l -> is_Some (L1 !! a))) as (w & L1 & R1 & W1 & F1 & Lv1).
  { unfold freeP. destruct (decide (ht (hs_h s) = 0)) as [E|E].
    - exists (hs_w s), L. rewrite E. split; [done|]. split; [apply Hi|]. split; [|apply Hi].
      intros a. by rewrite decide_False by (by intros ?%elem_of_nil).
    - destruct (hi_ht _ _ _ _ Hi E) as [[z Hz] Hni]. eexists _, (delete (ht (hs_h s)) L). split; [reflexivity|].
      split; [by apply (free_spec _ _ _ _ _ (hi_w _ _ _ _ Hi) Hz)|]. split.
      + intros a. case_decide as Ha; [apply list_elem_of_singleton in Ha as ->; apply lookup_delete_eq|].
        apply lookup_delete_ne. intros <-. apply Ha. by left.
      + intros a Ha. rewrite lookup_delete_ne by (intros <-; done). by apply (hi_live _ _ _ _ Hi). }
  rewrite (bind_some _ _ _ _ _ R1), bind_mod. set (s2 := with_h _ _). rewrite Hf.
  pose proof (hi_nd _ _ _ _ Hi) as Hnd. cbn [app] in Hnd.
  destruct (clear_loop_run (size (hs_heap s)) s2 l 0 L1) as (s3 & L3 & R3 & W3 & H3 & F3 & Hp3); try done.
  - apply Hd.
  - apply Hd.
  - by eapply heap_size.
  - rewrite (bind_some _ _ _ _ _ R3). eexists _, L3. split; [reflexivity|]. split.
    + cbn [app map]. split; cbn [with_h hs_w hs_h hs_heap first]; rewrite ?H3; cbn [s2 with_h hs_h first ht htsize count];
        try done; try apply NoDup_nil_2; try (by intros ?%elem_of_nil).
      * split; [apply dll_nil|done|by constructor].
      * by left.
      * intros a. rewrite Hp3. split; [|by intros ?%elem_of_nil]. intros [x Hx]. case_decide as Ha; [done|].
        cbn in Hx. exfalso. apply Ha. apply (hi_dom _ _ _ _ Hi a). by exists x.
      * intros a Ha. by apply elem_of_nil in Ha.
    + intros a. rewrite F3. unfold owned. destruct (decide (a ∈ map ca l)) as [Ha|Ha].
      * rewrite decide_True by set_solver. done.
      * rewrite F1. destruct (decide (a ∈ (if decide (ht (hs_h s) = 0) then [] else [ht (hs_h s)]))) as [Hb|Hb].
        -- rewrite decide_True by (apply elem_of_app; by right). done.
        -- rewrite decide_False by (rewrite elem_of_app; tauto). done.
Qed.

Lemma remove_eq elem h s e :
  hs_heap s !! elem = Some e ->
  removeElementGivenHash elem h s =
  (unlinkE e ;; unbucket elem h (next e) ;; freeE elem ;;
   s ← pget;
   let n := u32 (count (hs_h s) - 1) in
   setCount n ;;
   if n =? 0 then sqlite3HashClear else mret tt) s.
Proof.
  intros He. unfold removeElementGivenHash, unlinkE. rewrite (bind_getE _ _ _ _ He).
  set (m1 := if negb (prev e =? 0) then modE (prev e) (set_next (next e)) else setFirst (next e)).
  set (m2 := if negb (next e =? 0) then modE (next e) (set_prev (prev e)) else mret tt).
  rewrite bind_assoc. unfold mbind, prog_bind. destruct (m1 s) as [[[] s1]|]; [|done].
  destruct (m2 s1) as [[[] s2]|]; [|done]. done.
Qed.

Lemma remove_run s l c L :
  hinv s l [] L -> c ∈ l ->
  exists s' l' L', removeElementGivenHash (ca c) (bucket s (ck c)) s = Some (tt, s') /\
    hinv s' l' [] L' /\ l ≡ₚ c :: l'.
Proof.
  intros Hi Hc. destruct (hi_l _ _ _ _ Hi) as [Hd Hf Hok]. pose proof (hi_nd _ _ _ _ Hi) as Hnd.
  pose proof (hi_small _ _ _ _ Hi) as Hsm. pose proof (hi_keys _ _ _ _ Hi) as Hky.
  pose proof (hi_null _ _ _ _ Hi) as Hnull. cbn [app] in Hnd, Hsm, Hky, Hnull.
  pose proof (cells_live _ _ Hok) as Hlive.
  destruct (unbucket_run s l c (hi_t _ _ _ _ Hi) Hc Hnd Hsm) as (l1 & l2 & -> & Hub).
  destruct (Hlive (ca c)) as [e He]; [by apply (list_elem_of_fmap_2 ca)|]. rewrite (remove_eq _ _ _ e He).
  rewrite map_app in Hd, Hf, Hnd, Hlive, Hnull. cbn [map] in Hd, Hf, Hnd, Hlive, Hnull.
  destruct (unlink_run s (map ca l1) (ca c) (map ca l2) e Hd Hlive Hf He) as (En & h1 & R1 & D1 & P1).
  rewrite (bind_some _ _ _ _ _ R1), En. set (f := hd_or 0 (map ca l1 ++ map ca l2)).
  destruct (Hub (first_set s h1 f) f eq_refl) as (t & R2 & Tf & Tc & Th & Tt). rewrite (bind_some _ _ _ _ _ R2).
  destruct (hi_live _ _ _ _ Hi (ca c)) as [z Hz]; [cbn; by apply (list_elem_of_fmap_2 ca)|].
  unfold freeE. rewrite bind_assoc. unfold freeP. unfold mbind at 1, prog_bind at 1. rewrite bind_mod, bind_get.
  unfold setCount at 1. rewrite bind_mod. cbn [with_heap with_w with_h hs_h first_set hs_w hs_heap]. rewrite Tc.
  rewrite (hi_count _ _ _ _ Hi). cbn [app]. rewrite length_app. cbn [length].
  rewrite length_app in Hsm. cbn [length] in Hsm.
  replace (u32 (Z.of_nat (length l1 + S (length l2)) - 1)) with (Z.of_nat (length (l1 ++ l2)))
    by (rewrite length_app, uwrap_small by (unfold is_u; lia); lia).
  set (s5 := with_h _ _).
  assert (ca c ∉ map ca (l1 ++ l2)) as Hni.
  { rewrite map_app. apply NoDup_app in Hnd as (_ & Hx & Hy). apply NoDup_cons in Hy as [Hy _]. set_solver. }
  assert (hinv s5 (l1 ++ l2) [] (delete (ca c) L)) as H5.
  { split; cbn [app s5 with_h with_heap with_w first_set hs_w hs_h hs_heap first ht htsize count].
    - by apply (free_spec _ _ _ _ _ (hi_w _ _ _ _ Hi) Hz).
    - rewrite map_app in Hni. split; cbn; rewrite ?map_app.
      + apply (dll_ext _ (nx h1) (pv h1)); [done|]. intros b Hb. unfold nx, pv.
        rewrite lookup_delete_ne by (intros <-; done). done.
      + done.
      + apply (cells_pay (hs_heap s) h1) in Hok; [|exact P1]. apply Forall_app in Hok as [Ho1 Ho2].
        apply Forall_cons in Ho2 as [_ Ho2]. rewrite <- map_app in Hni. 
        assert (Forall (cell_ok h1) (l1 ++ l2)) as Ho by by apply Forall_app.
        apply Forall_forall. intros c' Hc'. rewrite Forall_forall in Ho. destruct (Ho c' Hc') as (A & B).
        split; [|done]. unfold pay in *. rewrite lookup_delete_ne; [done|].
        intros E. apply Hni. rewrite E. by apply (list_elem_of_fmap_2 ca).
    - destruct Tt as [[A B]|(A & B & C)]; [left|right]; cbn in *; [done|].
      split; [done|]. split; [done|]. destruct C as (gs & E & [T1 T2 T3 T4]). exists gs. split; [done|]. by split.
    - constructor.
    - rewrite map_app. apply NoDup_app in Hnd as (N1 & N2 & N3). apply NoDup_cons in N3 as [_ N3].
      apply NoDup_app. split; [done|]. split; [|done]. intros x Hx Hx2. apply (N2 x Hx). by right.
    - rewrite map_app. set_solver.
    - rewrite map_app in *. cbn [map] in Hky. apply NoDup_app in Hky as (N1 & N2 & N3). apply NoDup_cons in N3 as [_ N3].
      apply NoDup_app. split; [done|]. split; [|done]. intros x Hx Hx2. apply (N2 x Hx). by right.
    - intros a. pose proof (hi_dom _ _ _ _ Hi a) as Hdom. cbn [app] in Hdom. pose proof (P1 a) as Pa. unfold pay in Pa.
      rewrite map_app in *. cbn [map] in Hdom. destruct (decide (a = ca c)) as [->|Hne].
      + rewrite lookup_delete_eq. split; [by intros [? ?]|done].
      + rewrite lookup_delete_ne by congruence. rewrite elem_of_app, elem_of_cons in Hdom. rewrite elem_of_app.
        transitivity (is_Some (hs_heap s !! a)); [|tauto].
        destruct (h1 !! a), (hs_heap s !! a); try done; split; intros [? ?]; done.
    - intros a Ha. rewrite lookup_delete_ne by (intros <-; done). apply (hi_live _ _ _ _ Hi). cbn [app].
      rewrite map_app in *. cbn [map]. set_solver.
    - rewrite Th. intros Hh. destruct (hi_ht _ _ _ _ Hi Hh) as [Hl Hn]. cbn [app] in Hn. rewrite map_app in Hn. cbn [map] in Hn.
      split; [rewrite lookup_delete_ne; [done|set_solver]|]. rewrite map_app. set_solver.
    - done.
    - rewrite length_app. lia. }
  assert (l1 ++ c :: l2 ≡ₚ c :: (l1 ++ l2)) as Hperm by (symmetry; apply Permutation_middle).
  destruct (Z.eqb_spec (Z.of_nat (length (l1 ++ l2))) 0) as [E|E].
  - destruct (clear_run _ _ _ H5) as (s6 & L6 & R6 & H6 & _). exists s6, [], L6. split; [exact R6|].
    split; [done|]. destruct (l1 ++ l2); [done|cbn in E; lia].
  - exists s5, (l1 ++ l2), (delete (ca c) L). by split.
Qed.

(** ** Linking a new element *)

Lemma insert_none_run s l c :
  lrep (hs_heap s) (first (hs_h s)) l -> cell_ok (hs_heap s) c -> ca c ∉ map ca l -> ca c <> 0 ->
  exists h', insertElement None (ca c) s = Some (tt, first_set s h' (ca c)) /\
    lrep h' (ca c) (c :: l) /\ (forall b, pay h' b = pay (hs_heap s) b).
Proof.
  intros [Hd Hf Hok] Hc Hni Hc0. destruct (pay_live _ _ _ (proj1 Hc)) as [ec Hec].
  unfold insertElement. rewrite bind_ret. change (0 =? 0) with true. cbn [negb]. rewrite bind_get.
  destruct (link_front s (map ca l) (ca c) ec Hd (cells_live _ _ Hok) Hf Hec Hni Hc0) as (h' & R & [D P O]).
  exists h'. split; [done|]. split; [|done]. split; [done|done|].
  apply (cells_pay (hs_heap s)); [done|]. by constructor.
Qed.

Lemma pay_dom h h' : (forall b, pay h' b = pay h b) -> forall a, is_Some (h' !! a) <-> is_Some (h !! a).
Proof.
  intros Hp a. specialize (Hp a). unfold pay in Hp.
  destruct (h' !! a), (h !! a); try done; split; intros [? ?]; done.
Qed.

Lemma link_new s l c L :
  hinv s l [c] L ->
  exists s' l', (if negb (ht (hs_h s) =? 0) then insertElement (Some (bucket s (ck c))) (ca c)
                 else insertElement None (ca c)) s = Some (tt, s') /\
    hinv s' l' [] L /\ l' ≡ₚ c :: l.
Proof.
  intros Hi. pose proof (hi_nd _ _ _ _ Hi) as Hnd. pose proof (hi_null _ _ _ _ Hi) as Hnull.
  cbn [app map] in Hnd, Hnull. apply NoDup_cons in Hnd as [Hni Hnd]. apply not_elem_of_cons in Hnull as [Hc0 Hnull].
  pose proof (hi_x _ _ _ _ Hi) as Hc. apply Forall_cons in Hc as [Hc _].
  assert (forall s' l', lrep (hs_heap s') (first (hs_h s')) l' -> trep s' l' -> l' ≡ₚ c :: l ->
    frame s s' -> hinv s' l' [] L) as Hfin.
  { intros s' l' Hl Ht Q [F1 F2 F3 F4 F5]. assert (([] ++ l') ≡ₚ [c] ++ l) as Q' by done.
    split; rewrite ?Q', ?F1, ?F2, ?F4; try done; try apply Hi.
    - intros a. rewrite Q', (pay_dom _ _ F5 a). apply Hi.
    - intros a. rewrite Q'. apply Hi. }
  destruct (hi_t _ _ _ _ Hi) as [[E Ez]|(E & Hsz & gs & El & Ht)].
  - rewrite E. change (0 =? 0) with true. cbn [negb].
    destruct (insert_none_run s l c (hi_l _ _ _ _ Hi) Hc Hni) as (h' & R & Hl & P); [congruence|].
    eexists _, (c :: l). split; [exact R|]. split; [|done]. apply Hfin; [done|by left|done|by split].
  - rewrite (proj2 (Z.eqb_neq (ht (hs_h s)) 0)) by done. cbn [negb].
    destruct (bucket_range s (ck c) Hsz) as [Eb _]. rewrite Eb. subst l.
    pose proof (hi_small _ _ _ _ Hi) as Hsm. cbn [app length] in Hsm.
    destruct (insert_run s gs c (hi_l _ _ _ _ Hi) Ht Hsz Hc Hni) as (s' & gs' & R & Hl & Ht' & Q & F & _);
      [congruence|lia|].
    exists s', (flat gs'). split; [exact R|]. split; [|done]. apply Hfin; [done| |done|done].
    right. rewrite (fr_ht _ _ F), (fr_size _ _ F). split; [done|]. split; [done|]. by exists gs'.
Qed.

(** ** Replacing the datum of an element *)

Definition upd (c c' x : Cell) : Cell := if decide (ca x = ca c) then c' else x.

Lemma upd_ca c c' x : ca c' = ca c -> ca (upd c c' x) = ca x.
Proof. intros E. unfold upd. case_decide; congruence. Qed.

Lemma upd_in (c : Cell) l x : NoDup (map ca l) -> c ∈ l -> x ∈ l -> ca x = ca c -> x = c.
Proof.
  intros Hnd Hc Hx E. apply list_elem_of_lookup in Hc as (i & Hi). apply list_elem_of_lookup in Hx as (j & Hj).
  assert (i = j) as ->; [|congruence].
  eapply NoDup_lookup; [exact Hnd| |]; rewrite list_lookup_fmap; [by rewrite Hi|rewrite Hj]. cbn. by rewrite E.
Qed.

Lemma tbl_upd t gs c c' :
  tbl t gs -> ca c' = ca c -> (forall x, x ∈ flat gs -> ca x = ca c -> chash (htsize t) c' = chash (htsize t) x) ->
  tbl t (map (fun '(h, seg) => (h, map (upd c c') seg)) gs).
Proof.
  intros [A B C D] Ea Eh.
  assert (map fst (map (fun '(h, seg) => (h, map (upd c c') seg)) gs) = map fst gs) as Ef.
  { rewrite map_map. apply map_ext. by intros [h seg]. }
  assert (forall l, map ca (map (upd c c') l) = map ca l) as Em.
  { intros l. rewrite map_map. apply map_ext. intros x. by apply upd_ca. }
  split; [done|by rewrite Ef| |by rewrite Ef].
  intros h seg' Hin. apply list_elem_of_fmap in Hin as ([h0 seg] & [= -> ->] & Hin).
  destruct (C h0 seg Hin) as (N & R & F & K). split; [by destruct seg|]. split; [done|]. split.
  - apply Forall_forall. intros x (y & -> & Hy)%list_elem_of_fmap. rewrite Forall_forall in F.
    rewrite <- (F y Hy). unfold upd. case_decide as E; [|done]. apply Eh; [|done]. apply elem_flat. eauto.
  - by rewrite length_map, Em.
Qed.

Lemma replace_run s l c L key d :
  hinv s l [] L -> c ∈ l -> low (ck c) = low key -> cstring key -> d <> 0 ->
  let c' := {| ca := ca c; ck := key; cd := d |} in
  exists s', modE (ca c) (set_data d key) s = Some (tt, s') /\ hinv s' (map (upd c c') l) [] L.
Proof.
  intros Hi Hc Hlow Hk Hd0 c'. pose proof (hi_nd _ _ _ _ Hi) as Hnd. cbn [app] in Hnd.
  destruct (hi_l _ _ _ _ Hi) as [Hd Hf Hok]. pose proof Hok as Hok'. rewrite Forall_forall in Hok'.
  destruct (Hok' c Hc) as (Hp & _). destruct (pay_live _ _ _ Hp) as [e He]. rewrite (pay_at _ _ _ He) in Hp.
  injection Hp as _ _ En. assert (length (ck c) = length key) as Elen.
  { pose proof (f_equal length Hlow) as E. unfold low in E. by rewrite !length_map in E. }
  assert (map ca (map (upd c c') l) = map ca l) as Em.
  { rewrite map_map. apply map_ext. intros x. by apply upd_ca. }
  assert (map (fun x => low (ck x)) (map (upd c c') l) = map (fun x => low (ck x)) l) as Ek.
  { rewrite map_map. apply map_ext_in. intros x Hx%list_elem_of_In. unfold upd. case_decide as E; [|done].
    rewrite (upd_in c l x Hnd Hc Hx E). done. }
  set (h' := <[ca c := set_data d key e]> (hs_heap s)).
  exists (with_heap s h'). split; [by rewrite (run_modE _ _ _ _ He)|].
  split; cbn [with_heap hs_w hs_heap hs_h app]; rewrite ?Em, ?Ek, ?length_map; try apply Hi.
  - split; rewrite ?Em; [|done|].
    + apply (dll_ext _ (nx (hs_heap s)) (pv (hs_heap s))); [done|]. intros b _. unfold h'.
      rewrite nx_insert, pv_insert. destruct (decide (ca c = b)) as [<-|]; [|done].
      cbn. split; symmetry; [by apply nx_at|by apply pv_at].
    + apply Forall_forall. intros x (y & -> & Hy)%list_elem_of_fmap. unfold upd. case_decide as E.
      * split; [|done]. unfold h'. rewrite pay_insert. cbn [ca c' ck cd]. rewrite decide_True by done.
        cbn. by rewrite En, Elen.
      * destruct (Hok' y Hy) as (A & B). split; [|done]. unfold h'. rewrite pay_insert, decide_False by congruence. done.
  - destruct (hi_t _ _ _ _ Hi) as [?|(E & Hsz & gs & -> & Ht)]; [by left|right]. cbn.
    split; [done|]. split; [done|]. exists (map (fun '(h, seg) => (h, map (upd c c') seg)) gs). split.
    + unfold flat. rewrite concat_map, !map_map. f_equal. apply map_ext. by intros [h seg].
    + apply tbl_upd; [done|done|]. intros x Hx E'. rewrite (upd_in c _ x Hnd Hc Hx E').
      unfold chash. cbn [c' ck]. f_equal. symmetry. by apply strHash_low.
  - constructor.
  - intros a. pose proof (hi_dom _ _ _ _ Hi a) as Hdom. cbn [app] in Hdom. rewrite <- Hdom. unfold h'. rewrite lookup_insert_is_Some'.
    split; [intros [<-|?]; [by exists e|done]|by right].
Qed.

(** * The table as a map *)

(** The abstract value: the datum of each key, up to case. *)
Definition hmap (l : list Cell) : gmap (list Z) Z := list_to_map (map (fun c => (low (ck c), cd c)) l).

Lemma hmap_cons c l : hmap (c :: l) = <[low (ck c) := cd c]> (hmap l).
Proof. done. Qed.

Lemma hmap_lookup l key : hmap l !! low key = cd <$> cfind key l.
Proof.
  induction l as [|c l IH]; [done|]. rewrite hmap_cons. cbn [cfind]. case_decide as E.
  - rewrite E. apply lookup_insert_eq.
  - rewrite lookup_insert_ne by done. apply IH.
Qed.

Lemma hmap_perm l l' : NoDup (map (fun c => low (ck c)) l) -> l ≡ₚ l' -> hmap l = hmap l'.
Proof.
  intros Hnd Hp. apply list_to_map_proper.
  - by rewrite map_map.
  - by rewrite Hp.
Qed.

(** [sqlite3HashFind] is the lookup of a map from case-folded keys to data: it never goes
    wrong, returns the datum stored under the key (NULL if there is none) and changes nothing. *)
Theorem hashFind_correct s l L key (Hi : hinv s l [] L) (Hk : cstring key) :
  sqlite3HashFind key (Z.of_nat (length key)) s = Some (default 0 (hmap l !! low key), s).
Proof.
  unfold sqlite3HashFind. rewrite bind_get.
  replace (if negb (ht (hs_h s) =? 0) then strHash key (Z.of_nat (length key)) mod htsize (hs_h s) else 0)
    with (bucket s key).
  2: { unfold bucket. destruct (hi_t _ _ _ _ Hi) as [[-> ->]|(E & E2 & _)]; [done|].
       by rewrite (proj2 (Z.eqb_neq (ht (hs_h s)) 0)), (proj2 (Z.eqb_neq (htsize (hs_h s)) 0)) by lia. }
  pose proof (hi_count _ _ _ _ Hi) as Hcnt. cbn [app] in Hcnt.
  rewrite (bind_some _ _ _ _ _ (find_run s l key (hi_l _ _ _ _ Hi) (hi_t _ _ _ _ Hi) Hcnt Hk)).
  rewrite hmap_lookup. destruct (cfind key l) as [c|] eqn:E; cbn [caddr fmap option_fmap option_map]; [|done].
  apply cfind_Some in E as [Hc _]. pose proof (lr_cells _ _ _ (hi_l _ _ _ _ Hi)) as Hok.
  rewrite Forall_forall in Hok. destruct (Hok c Hc) as (Hp & _). destruct (pay_live _ _ _ Hp) as [e He].
  pose proof (hi_null _ _ _ _ Hi) as Hnull. cbn [app] in Hnull.
  rewrite (proj2 (Z.eqb_neq (ca c) 0)) by (intros E0; apply Hnull; rewrite <- E0; by apply (list_elem_of_fmap_2 ca)).
  cbn [negb]. rewrite (bind_getE _ _ _ _ He). rewrite (pay_at _ _ _ He) in Hp. by injection Hp as -> _ _.
Qed.

Lemma hi_keys0 s l L : hinv s l [] L -> NoDup (map (fun c => low (ck c)) l).
Proof. intros Hi. apply (hi_keys _ _ _ _ Hi). Qed.

Lemma hmap_remove l c l' : NoDup (map (fun c => low (ck c)) l) -> l ≡ₚ c :: l' -> hmap l' = delete (low (ck c)) (hmap l).
Proof.
  intros Hnd Hp. rewrite (hmap_perm l (c :: l')) by done. rewrite hmap_cons.
  rewrite Hp in Hnd. cbn [map] in Hnd. apply NoDup_cons in Hnd as [Hni _]. rewrite delete_insert_id; [done|].
  rewrite hmap_lookup. destruct (cfind (ck c) l') as [x|] eqn:E; [|done]. apply cfind_Some in E as [Hx E].
  exfalso. apply Hni. rewrite <- E. by apply (list_elem_of_fmap_2 (fun c => low (ck c))).
Qed.

Lemma hmap_upd l c key d :
  NoDup (map (fun c => low (ck c)) l) -> NoDup (map ca l) -> c ∈ l -> low (ck c) = low key ->
  hmap (map (upd c {| ca := ca c; ck := key; cd := d |}) l) = <[low key := d]> (hmap l).
Proof.
  intros Hnd Hna Hc Hl. set (c' := {| ca := ca c; ck := key; cd := d |}).
  apply list_elem_of_split in Hc as (l1 & l2 & ->).
  assert (map (upd c c') (l1 ++ c :: l2) = l1 ++ c' :: l2) as ->.
  { rewrite map_app in *. cbn [map] in *. unfold upd at 2. rewrite decide_True by done.
    apply NoDup_app in Hna as (_ & N1 & N2). apply NoDup_cons in N2 as [N2 _].
    f_equal; [|f_equal].
    - transitivity (map (fun x => x) l1); [|apply map_id]. apply map_ext_in. intros x Hx%list_elem_of_In.
      unfold upd. rewrite decide_False; [done|]. intros E. apply (N1 (ca x)); [by apply (list_elem_of_fmap_2 ca)|rewrite E; by left].
    - transitivity (map (fun x => x) l2); [|apply map_id]. apply map_ext_in. intros x Hx%list_elem_of_In.
      unfold upd. rewrite decide_False; [done|]. intros E. apply N2. rewrite <- E. by apply (list_elem_of_fmap_2 ca). }
  assert (NoDup (map (fun c => low (ck c)) (l1 ++ c' :: l2))) as Hnd'.
  { rewrite map_app in *. cbn [map] in *. cbn [c' ck]. by rewrite <- Hl. }
  rewrite (hmap_perm (l1 ++ c :: l2) (c :: l1 ++ l2)), (hmap_perm (l1 ++ c' :: l2) (c' :: l1 ++ l2))
    by (done || (symmetry; apply Permutation_middle)).
  rewrite !hmap_cons. cbn [c' ck cd]. by rewrite Hl, insert_insert_eq.
Qed.

(** The state in which [sqlite3HashInsert] links its new element. *)
Lemma insert_new_state s l L p z w key d :
  hinv s l [] L -> cstring key -> d <> 0 -> cfind key l = None -> Z.of_nat (length l) + 1 < 2 ^ 30 ->
  p <> 0 -> L !! p = None -> winv bMemstat w (<[p := z]> L) ->
  let e := {| next := next junk; prev := prev junk; data := d; pKey := key; nKey := Z.of_nat (length key) |} in
  let t := hs_h s in
  hinv {| hs_w := w; hs_heap := <[p := e]> (hs_heap s);
          hs_h := {| htsize := htsize t; count := u32 (count t + 1); first := first t; ht := ht t; hta := hta t |} |}
    l [{| ca := p; ck := key; cd := d |}] (<[p := z]> L).
Proof.
  intros Hi Hk Hd Hnone Hlen Hp Hnew Hw e t. subst t. pose proof (hi_nd _ _ _ _ Hi) as Hnd.
  pose proof (hi_null _ _ _ _ Hi) as Hnull. pose proof (hi_keys0 _ _ _ Hi) as Hky. cbn [app] in Hnd, Hnull.
  assert (p ∉ map ca l) as Hpl.
  { intros Hin. destruct (hi_live _ _ _ _ Hi p Hin). congruence. }
  split; cbn [hs_w hs_heap hs_h app map length first ht htsize count ca ck].
  - done.
  - destruct (hi_l _ _ _ _ Hi) as [A B C]. split; [|done|].
    + apply (dll_ext _ (nx (hs_heap s)) (pv (hs_heap s))); [done|]. intros b Hb.
      rewrite nx_insert, pv_insert, !decide_False by (intros ->; done). done.
    + apply Forall_forall. intros c Hc. rewrite Forall_forall in C. destruct (C c Hc) as (C1 & C2). split; [|done].
      rewrite pay_insert, decide_False; [done|]. intros ->. apply Hpl. by apply (list_elem_of_fmap_2 ca).
  - destruct (hi_t _ _ _ _ Hi) as [?|(E & Hsz & gs & -> & [T1 T2 T3 T4])]; [by left|right]. cbn.
    split; [done|]. split; [done|]. exists gs. split; [done|]. by split.
  - constructor; [|done]. split; [|done]. cbn. by rewrite pay_insert, decide_True.
  - by constructor.
  - apply not_elem_of_cons. split; [congruence|done].
  - constructor; [|done]. rewrite cfind_None in Hnone.
    intros (c & E & Hc)%list_elem_of_fmap. by apply (Hnone c Hc).
  - intros a. pose proof (hi_dom _ _ _ _ Hi a) as Hdom. cbn [app] in Hdom.
    rewrite lookup_insert_is_Some', elem_of_cons, Hdom. split; (intros [->|?]; [by left|by right]).
  - intros a [->|Ha]%elem_of_cons; [rewrite lookup_insert_eq; by eexists|].
    rewrite lookup_insert_ne by (intros ->; done). by apply (hi_live _ _ _ _ Hi).
  - intros Hh. destruct (hi_ht _ _ _ _ Hi Hh) as [[x Hx] Hn]. cbn [app] in Hn.
    assert (p <> ht (hs_h s)) by congruence. split; [rewrite lookup_insert_ne by done; by exists x|].
    apply not_elem_of_cons. split; [congruence|done].
  - rewrite (hi_count _ _ _ _ Hi). cbn [app]. rewrite uwrap_small by (unfold is_u; lia). lia.
  - lia.
Qed.

Lemma insert_fresh s l L key d :
  hinv s l [] L -> cstring key -> d <> 0 -> cfind key l = None -> Z.of_nat (length l) + 1 < 2 ^ 30 ->
  exists r s' l' L', sqlite3HashInsert key (Z.of_nat (length key)) d s = Some (r, s') /\ hinv s' l' [] L' /\
    ((r = 0 /\ exists a, l' ≡ₚ {| ca := a; ck := key; cd := d |} :: l) \/
     (r = d /\ l' = l /\ (sqlite3Malloc bMemstat (hs_w s) sizeof_HashElem).1 = 0)).
Proof.
  intros Hi Hk Hd Hnone Hlen. unfold sqlite3HashInsert. rewrite bind_get.
  pose proof (hi_count _ _ _ _ Hi) as Hcnt. cbn [app] in Hcnt. change (if negb (htsize (hs_h s) =? 0) then _ else 0) with (bucket s key).
  rewrite (bind_some _ _ _ _ _ (find_run s l key (hi_l _ _ _ _ Hi) (hi_t _ _ _ _ Hi) Hcnt Hk)), Hnone.
  cbn [caddr]. change (0 =? 0) with true. cbn [negb]. rewrite (proj2 (Z.eqb_neq d 0)) by done.
  unfold mallocP at 1. unfold mbind at 1, prog_bind at 1.
  pose proof (malloc_spec bMemstat (hs_w s) L sizeof_HashElem (hi_w _ _ _ _ Hi)) as HM.
  destruct (sqlite3Malloc bMemstat (hs_w s) sizeof_HashElem) as [p w].
  destruct HM as [[-> HM]|(Hp & Hnew & z & Hz & HM)].
  { change (0 =? 0) with true. exists d, (with_w s w), l, L. split; [done|]. split; [by apply hinv_world|].
    right. done. }
  rewrite (proj2 (Z.eqb_neq p 0)) by done. rewrite bind_mod. unfold setCount at 1. rewrite bind_mod.
  pose proof (insert_new_state s l L p z w key d Hi Hk Hd Hnone Hlen Hp Hnew HM) as H1. cbv zeta in H1.
  cbn [with_heap with_w with_h hs_w hs_heap hs_h].
  set (c := {| ca := p; ck := key; cd := d |}) in *. set (s1 := {| hs_w := w; hs_heap := _; hs_h := _ |}) in *.
  assert (forall s2 l2 L2 h2, hinv s2 l2 [c] L2 -> l2 ≡ₚ l -> h2 = bucket s2 key ->
    exists r s' l' L', ((s ← pget;
      (if negb (ht (hs_h s) =? 0) then insertElement (Some h2) p else insertElement None p) ;; mret 0) s2)
      = Some (r, s') /\ hinv s' l' [] L' /\
    ((r = 0 /\ exists a, l' ≡ₚ {| ca := a; ck := key; cd := d |} :: l) \/
     (r = d /\ l' = l /\ (p, w).1 = 0))) as Hlink.
  { intros s2 l2 L2 h2 H2 Q ->. rewrite bind_get. destruct (link_new s2 l2 c L2 H2) as (s3 & l3 & R3 & H3 & Q3).
    cbn [c ca ck] in R3. rewrite (bind_some _ _ _ _ _ R3). exists 0, s3, l3, L2. split; [done|]. split; [done|].
    left. split; [done|]. exists p. fold c. by rewrite Q3, Q. }
  set (cond := (10 <=? _) && _). destruct cond.
  - assert (0 < u32 (u32 (count (hs_h s) + 1) * 2)) as Hpos.
    { rewrite Hcnt. rewrite (uwrap_small 32 (Z.of_nat (length l) + 1)) by (unfold is_u; lia).
      rewrite uwrap_small by (unfold is_u; lia). lia. }
    destruct (rehash_run s1 l [c] (<[p := z]> L) _ H1 Hpos) as (ok & s2 & l2 & L2 & R2 & H2 & Q2 & Hok & Hno & _).
    rewrite !bind_assoc, (bind_some _ _ _ _ _ R2). destruct ok.
    + rewrite bind_assoc, bind_get, bind_ret. apply (Hlink s2 l2 L2); [done|done|].
      specialize (Hok eq_refl). unfold bucket. destruct (hi_t _ _ _ _ H2) as [[? _]|(_ & Hsz & _)]; [done|].
      by rewrite (proj2 (Z.eqb_neq (htsize (hs_h s2)) 0)) by lia.
    + rewrite bind_ret. apply (Hlink s2 l2 L2); [done|done|]. unfold bucket. by rewrite (Hno eq_refl).
  - rewrite bind_ret. by apply (Hlink s1 l (<[p := z]> L)).
Qed.

(** C21. [sqlite3HashInsert] refines the update of a map from case-folded keys to data, without
    ever dereferencing a pointer that is not live: a NULL datum deletes the key; another datum is stored under
    the key, and the previous datum (NULL if none) is returned. Only when the element cannot be
    allocated is the new datum returned and the map left unchanged. The invariant of
    lists, buckets and allocations is kept, whether or not the table was rehashed. *)
Theorem hashInsert_correct s l L key d (Hi : hinv s l [] L) (Hk : cstring key)
    (Hlen : Z.of_nat (length l) + 1 < 2 ^ 30) :
  exists r s' l' L',
    sqlite3HashInsert key (Z.of_nat (length key)) d s = Some (r, s') /\ hinv s' l' [] L' /\
    (if d =? 0 then r = default 0 (hmap l !! low key) /\ hmap l' = delete (low key) (hmap l)
     else (r = default 0 (hmap l !! low key) /\ hmap l' = <[low key := d]> (hmap l)) \/
          (r = d /\ hmap l !! low key = None /\ hmap l' = hmap l /\
           (sqlite3Malloc bMemstat (hs_w s) sizeof_HashElem).1 = 0)).
Proof.
  pose proof (hi_keys0 _ _ _ Hi) as Hky. pose proof (hi_nd _ _ _ _ Hi) as Hna. cbn [app] in Hna.
  pose proof (hi_count _ _ _ _ Hi) as Hcnt. cbn [app] in Hcnt. rewrite hmap_lookup.
  destruct (cfind key l) as [c|] eqn:Ec; cbn [fmap option_fmap option_map default from_option].
  - unfold sqlite3HashInsert. rewrite bind_get. change (if negb (htsize (hs_h s) =? 0) then _ else 0) with (bucket s key).
    rewrite (bind_some _ _ _ _ _ (find_run s l key (hi_l _ _ _ _ Hi) (hi_t _ _ _ _ Hi) Hcnt Hk)), Ec. cbn [caddr].
    apply cfind_Some in Ec as [Hc El]. pose proof (hi_null _ _ _ _ Hi) as Hnull. cbn [app] in Hnull.
    rewrite (proj2 (Z.eqb_neq (ca c) 0)) by (intros E0; apply Hnull; rewrite <- E0; by apply (list_elem_of_fmap_2 ca)).
    cbn [negb]. pose proof (lr_cells _ _ _ (hi_l _ _ _ _ Hi)) as Hok. rewrite Forall_forall in Hok.
    destruct (Hok c Hc) as (Hp & _). destruct (pay_live _ _ _ Hp) as [e He]. rewrite (bind_getE _ _ _ _ He).
    rewrite (pay_at _ _ _ He) in Hp. injection Hp as Hdat _ _. rewrite Hdat.
    assert (bucket s key = bucket s (ck c)) as ->.
    { unfold bucket. destruct (negb _); [|done]. f_equal. symmetry. by apply strHash_low. }
    destruct (Z.eqb_spec d 0) as [->|Hd].
    + destruct (remove_run s l c L Hi Hc) as (s' & l' & L' & R & H' & Q). rewrite (bind_some _ _ _ _ _ R).
      exists (cd c), s', l', L'. split; [done|]. split; [done|]. split; [done|].
      rewrite <- El. by apply hmap_remove.
    + destruct (replace_run s l c L key d Hi Hc El Hk Hd) as (s' & R & H'). rewrite (bind_some _ _ _ _ _ R).
      eexists (cd c), s', _, L. split; [done|]. split; [exact H'|]. left. split; [done|]. by apply hmap_upd.
  - destruct (Z.eqb_spec d 0) as [->|Hd].
    + unfold sqlite3HashInsert. rewrite bind_get. change (if negb (htsize (hs_h s) =? 0) then _ else 0) with (bucket s key).
      rewrite (bind_some _ _ _ _ _ (find_run s l key (hi_l _ _ _ _ Hi) (hi_t _ _ _ _ Hi) Hcnt Hk)), Ec. cbn [caddr].
      exists 0, s, l, L. split; [done|]. split; [done|]. split; [done|]. symmetry. apply delete_id.
      rewrite hmap_lookup, Ec. done.
    + destruct (insert_fresh s l L key d Hi Hk Hd Ec Hlen) as (r & s' & l' & L' & R & H' & [[-> [a Q]]|(-> & -> & Hm)]).
      * exists 0, s', l', L'. split; [done|]. split; [done|]. left. split; [done|].
        rewrite (hmap_perm l' _ (hi_keys0 _ _ _ H') Q). done.
      * exists d, s', l, L'. split; [done|]. split; [done|]. right. done.
Qed.

(** [sqlite3HashClear] empties the table and releases everything it owned: each element
    and the bucket array are freed, exactly once, and no other allocation is touched. *)
Theorem hashClear_correct s l L (Hi : hinv s l [] L) :
  exists s' L', sqlite3HashClear s = Some (tt, s') /\ hinv s' [] [] L' /\
    forall a, L' !! a = if decide (a ∈ owned s l) then None else L !! a.
Proof. destruct (clear_run s l L Hi) as (s' & L' & ? & ? & ?). by exists s', L'. Qed.
End Hash.
