(* ===== verification/RowSet.v ===== *)
(** The set of row identifiers of rowset.c.

    Entries live in exactly one place at a time, the pending list or one tree of the
    forest, and are moved by relinking; the model gives each structure by its
    values: the list of a [pRight] chain, and [Tree] for the binary trees. Entry objects come from chunks
    obtained with [sqlite3DbMallocRaw] of Malloc.v. *)
From S2P Require Import Prelude Mem Malloc.
Local Open Scope Z_scope.
Local Open Scope c_scope.

Inductive Tree := Leaf | Node (pLeft : Tree) (v : Z) (pRight : Tree).

(** [pLast] is the value of the last entry of [pEntry], if there is one; [pChunk] the addresses
    of the chunks; [pForest] the trees hanging off the forest list. *)
Record RowSet := {
  pChunk : list Z; pEntry : list Z; pLast : option Z; pForest : list Tree;
  nFresh : Z; rsFlags : Z; iBatch : Z }.

Definition ROWSET_ALLOCATION_SIZE : Z := 1024.
Definition sizeof_RowSetEntry : Z := 24.
Definition ROWSET_ENTRY_PER_CHUNK : Z := (ROWSET_ALLOCATION_SIZE - 8) / sizeof_RowSetEntry.
Definition sizeof_RowSetChunk : Z := 8 + ROWSET_ENTRY_PER_CHUNK * sizeof_RowSetEntry.
Definition sizeof_RowSet : Z := 56.
Definition ROWSET_SORTED : Z := 0x01.
Definition ROWSET_NEXT : Z := 0x02.

Definition sqlite3RowSetInit (N : Z) : RowSet :=
  {| pChunk := []; pEntry := []; pLast := None; pForest := [];
     nFresh := u16 ((N - sizeof_RowSet) / sizeof_RowSetEntry); rsFlags := ROWSET_SORTED; iBatch := 0 |}.

(** [rowSetEntryMerge]: both lists are walked; of two equal entries the first list's is
    dropped. *)
Fixpoint rowSetEntryMerge (pA : list Z) : list Z -> list Z :=
  fix go (pB : list Z) : list Z :=
    match pA with
    | [] => pB
    | a :: pA' =>
        match pB with
        | [] => pA
        | b :: pB' =>
            if a <? b then a :: rowSetEntryMerge pA' pB
            else if b <? a then b :: go pB'
            else rowSetEntryMerge pA' pB
        end
    end.

(** [for(i=0; aBucket[i]; i++){ pIn = rowSetEntryMerge(aBucket[i], pIn); aBucket[i] = 0; }
    aBucket[i] = pIn;]; [None] when the 40 buckets are exceeded. *)
Fixpoint bucket_push (aBucket : list (list Z)) (pIn : list Z) : option (list (list Z)) :=
  match aBucket with
  | [] => None
  | [] :: rest => Some (pIn :: rest)
  | b :: rest =>
      match bucket_push rest (rowSetEntryMerge b pIn) with
      | Some rest => Some ([] :: rest)
      | None => None
      end
  end.

Fixpoint sort_loop (aBucket : list (list Z)) (pIn : list Z) : option (list (list Z)) :=
  match pIn with
  | [] => Some aBucket
  | x :: pNext =>
      match bucket_push aBucket [x] with
      | Some aBucket => sort_loop aBucket pNext
      | None => None
      end
  end.

Definition rowSetEntrySort (pIn : list Z) : option (list Z) :=
  match sort_loop (replicate 40 []) pIn with
  | Some aBucket => Some (fold_left rowSetEntryMerge aBucket [])
  | None => None
  end.

(** The list a tree becomes: left subtree, node, right subtree. *)
Fixpoint rowSetTreeToList (pIn : Tree) : list Z :=
  match pIn with
  | Leaf => []
  | Node l v r => rowSetTreeToList l ++ v :: rowSetTreeToList r
  end.

Fixpoint rowSetNDeepTree (iDepth : nat) (ppList : list Z) : Tree * list Z :=
  match ppList with
  | [] => (Leaf, [])
  | p :: rest =>
      match iDepth with
      | O => (Leaf, ppList)
      | S O => (Node Leaf p Leaf, rest)
      | S d =>
          let '(pLeft, l) := rowSetNDeepTree d ppList in
          match l with
          | [] => (pLeft, [])
          | p :: l =>
              let '(pRight, l) := rowSetNDeepTree d l in
              (Node pLeft p pRight, l)
          end
      end
  end.

(** [for(iDepth=1; pList; iDepth++){ ... }] *)
Fixpoint listToTree_loop (fuel : nat) (iDepth : nat) (p : Tree) (pList : list Z) : Tree :=
  match fuel with
  | O => p
  | S fuel =>
      match pList with
      | [] => p
      | x :: pList =>
          let '(pRight, pList) := rowSetNDeepTree iDepth pList in
          listToTree_loop fuel (S iDepth) (Node p x pRight) pList
      end
  end.

Definition rowSetListToTree (pList : list Z) : Tree :=
  match pList with
  | [] => Leaf
  | x :: pList => listToTree_loop (length pList) 1 (Node Leaf x Leaf) pList
  end.

(** [while( p ){ if( p->v<iRowid ) p = p->pRight; else if( p->v>iRowid ) p = p->pLeft; else return 1; }] *)
Fixpoint tree_test (p : Tree) (iRowid : Z) : bool :=
  match p with
  | Leaf => false
  | Node l v r =>
      if v <? iRowid then tree_test r iRowid
      else if iRowid <? v then tree_test l iRowid
      else true
  end.

(** The walk over the forest for the entries [p] of a new batch: a free place takes the tree, a taken one
    is emptied into the list. The second component is what is left when the forest ends. *)
Fixpoint forest_merge (pForest : list Tree) (p : list Z) : list Tree * option (list Z) :=
  match pForest with
  | [] => ([], Some p)
  | Leaf :: rest => (rowSetListToTree p :: rest, None)
  | t :: rest =>
      let '(rest, lo) := forest_merge rest (rowSetEntryMerge (rowSetTreeToList t) p) in
      (Leaf :: rest, lo)
  end.

Definition with_fresh (p : RowSet) (chunks : list Z) (n : Z) : RowSet :=
  {| pChunk := chunks; pEntry := pEntry p; pLast := pLast p; pForest := pForest p;
     nFresh := n; rsFlags := rsFlags p; iBatch := iBatch p |}.

Definition with_entry (p : RowSet) (l : list Z) : RowSet :=
  {| pChunk := pChunk p; pEntry := l; pLast := pLast p; pForest := pForest p;
     nFresh := nFresh p; rsFlags := rsFlags p; iBatch := iBatch p |}.

Section RowSet.
Context {M : Type} `{MM : MemMethods M} (bMemstat : bool).

(** The state of the calls: the allocator, the connection and the set. *)
Record RState := { rs_w : @World M; rs_db : Db; rs : RowSet }.

Definition rs_set (st : RState) (p : RowSet) : RState := {| rs_w := rs_w st; rs_db := rs_db st; rs := p |}.

(** Whether an entry object could be had. *)
Definition rowSetEntryAlloc (st : RState) : bool * RState :=
  let p := rs st in
  if nFresh p =? 0 then
    match sqlite3DbMallocRaw bMemstat (rs_w st) (Some (rs_db st)) sizeof_RowSetChunk with
    | (pNew, w, odb) =>
        let db := match odb with Some db => db | None => rs_db st end in
        if pNew =? 0 then (false, {| rs_w := w; rs_db := db; rs := p |})
        else (true, {| rs_w := w; rs_db := db;
                       rs := with_fresh p (pNew :: pChunk p) (u16 (ROWSET_ENTRY_PER_CHUNK - 1)) |})
    end
  else (true, rs_set st (with_fresh p (pChunk p) (u16 (nFresh p - 1)))).

Definition sqlite3RowSetInsert (st : RState) (rowid : Z) : RState :=
  let '(ok, st) := rowSetEntryAlloc st in
  if ok then
    let p := rs st in
    rs_set st
      {| pChunk := pChunk p; pEntry := pEntry p ++ [rowid]; pLast := Some rowid; pForest := pForest p;
         nFresh := nFresh p;
         rsFlags := match pLast p with
                    | Some last =>
                        if negb (rsFlags p .& ROWSET_SORTED =? 0) && (rowid <=? last)
                        then rsFlags p .& Z.lnot ROWSET_SORTED else rsFlags p
                    | None => rsFlags p
                    end;
         iBatch := iBatch p |}
  else st.

(** [for(pChunk=p->pChunk; pChunk; pChunk = pNextChunk) sqlite3DbFree(p->db, pChunk);] *)
Definition free_chunks (w : World) (db : Db) (chunks : list Z) : @World M * Db :=
  fold_left (fun '(w, db) c =>
    match sqlite3DbFree bMemstat w (Some db) c with
    | (w, Some db) => (w, db)
    | (w, None) => (w, db)
    end) chunks (w, db).

Definition sqlite3RowSetClear (st : RState) : RState :=
  let '(w, db) := free_chunks (rs_w st) (rs_db st) (pChunk (rs st)) in
  {| rs_w := w; rs_db := db;
     rs := {| pChunk := []; pEntry := []; pLast := None; pForest := []; nFresh := 0;
              rsFlags := ROWSET_SORTED; iBatch := iBatch (rs st) |} |}.

Definition rowSetToList (p : RowSet) : option RowSet :=
  match (if rsFlags p .& ROWSET_SORTED =? 0 then rowSetEntrySort (pEntry p) else Some (pEntry p)) with
  | Some l => Some {| pChunk := pChunk p; pEntry := l; pLast := pLast p; pForest := pForest p;
                      nFresh := nFresh p; rsFlags := rsFlags p .| ROWSET_NEXT; iBatch := iBatch p |}
  | None => None
  end.

(** The row delivered, if any; the outer [None] is the bucket overflow. *)
Definition sqlite3RowSetNext (st : RState) : option (option Z * RState) :=
  match (if rsFlags (rs st) .& ROWSET_NEXT =? 0 then rowSetToList (rs st) else Some (rs st)) with
  | None => None
  | Some p =>
      let st := rs_set st p in
      match pEntry p with
      | [] => Some (None, st)
      | v :: rest =>
          let st := rs_set st (with_entry p rest) in
          Some (Some v, match rest with [] => sqlite3RowSetClear st | _ => st end)
      end
  end.

(** The first test of a new batch moves the pending entries into the forest. *)
Definition rowset_flush (st : RState) : option RState :=
  let p := rs st in
  match pEntry p with
  | [] => Some st
  | _ =>
      match (if rsFlags p .& ROWSET_SORTED =? 0 then rowSetEntrySort (pEntry p) else Some (pEntry p)) with
      | None => None
      | Some l =>
          let '(forest, lo) := forest_merge (pForest p) l in
          let '(forest, st) :=
            match lo with
            | None => (forest, st)
            | Some l =>
                let '(ok, st) := rowSetEntryAlloc st in
                (if ok then forest ++ [rowSetListToTree l] else forest, st)
            end in
          let p := rs st in
          Some (rs_set st {| pChunk := pChunk p; pEntry := []; pLast := None; pForest := forest;
                             nFresh := nFresh p; rsFlags := rsFlags p .| ROWSET_SORTED; iBatch := iBatch p |})
      end
  end.

Definition sqlite3RowSetTest (st : RState) (batch iRowid : Z) : option (bool * RState) :=
  let st :=
    if negb (batch =? iBatch (rs st)) then
      match rowset_flush st with
      | Some st =>
          let p := rs st in
          Some (rs_set st {| pChunk := pChunk p; pEntry := pEntry p; pLast := pLast p; pForest := pForest p;
                             nFresh := nFresh p; rsFlags := rsFlags p; iBatch := batch |})
      | None => None
      end
    else Some st in
  match st with
  | Some st => Some (existsb (fun t => tree_test t iRowid) (pForest (rs st)), st)
  | None => None
  end.
End RowSet.

(** * Sorting and merging *)

Abbreviation ssorted := (StronglySorted Z.lt).

Lemma ssorted_cons a l : ssorted (a :: l) <-> ssorted l /\ forall x, x ∈ l -> a < x.
Proof.
  split.
  - intros H. apply StronglySorted_inv in H as [H1 H2]. split; [done|]. by rewrite Forall_forall in H2.
  - intros [H1 H2]. constructor; [done|]. by apply Forall_forall.
Qed.

Lemma ssorted_app l1 l2 : ssorted (l1 ++ l2) <-> ssorted l1 /\ ssorted l2 /\ forall x y, x ∈ l1 -> y ∈ l2 -> x < y.
Proof.
  induction l1 as [|a l1 IH]; cbn [app].
  - split; [|tauto]. intros H. split; [constructor|]. split; [done|]. intros x y Hx. by apply elem_of_nil in Hx.
  - rewrite !ssorted_cons, IH. split.
    + intros ((H1 & H2 & H3) & H4). split; [split; [done|intros x Hx; apply H4, elem_of_app; by left]|].
      split; [done|]. intros x y [->|Hx]%elem_of_cons Hy; [apply H4, elem_of_app; by right|by apply H3].
    + intros ((H1 & H2) & H3 & H4). split; [split; [done|split; [done|]]|].
      * intros x y Hx Hy. apply H4; [by right|done].
      * intros x [Hx|Hx]%elem_of_app; [by apply H2|]. apply H4; [by left|done].
Qed.

Lemma merge_nil_r l : rowSetEntryMerge l [] = l.
Proof. by destruct l. Qed.

Lemma merge_cons a A b B : rowSetEntryMerge (a :: A) (b :: B) =
  if a <? b then a :: rowSetEntryMerge A (b :: B)
  else if b <? a then b :: rowSetEntryMerge (a :: A) B
  else rowSetEntryMerge A (b :: B).
Proof. done. Qed.

Lemma merge_spec A : forall B, ssorted A -> ssorted B ->
  ssorted (rowSetEntryMerge A B) /\ forall x, x ∈ rowSetEntryMerge A B <-> x ∈ A \/ x ∈ B.
Proof.
  induction A as [|a A IHA]; intros B HA HB.
  { cbn. destruct B; (split; [done|]); intros x; rewrite elem_of_nil; tauto. }
  induction B as [|b B IHB]; [rewrite merge_nil_r; split; [done|]; intros x; rewrite elem_of_nil; tauto|].
  pose proof HA as HA'. apply ssorted_cons in HA' as [HA1 HA2].
  pose proof HB as HB'. apply ssorted_cons in HB' as [HB1 HB2]. rewrite merge_cons.
  destruct (Z.ltb_spec a b) as [Hab|Hab]; [|destruct (Z.ltb_spec b a) as [Hba|Hba]].
  - destruct (IHA (b :: B) HA1 HB) as [S1 S2]. split.
    + apply ssorted_cons. split; [done|]. intros x [Hx|[->|Hx]%elem_of_cons]%S2; [by apply HA2|done|].
      specialize (HB2 x Hx). lia.
    + intros x. rewrite !elem_of_cons, S2, elem_of_cons. tauto.
  - destruct (IHB HB1) as [S1 S2]. split.
    + apply ssorted_cons. split; [done|]. intros x [[->|Hx]%elem_of_cons|Hx]%S2; [done| |by apply HB2].
      specialize (HA2 x Hx). lia.
    + intros x. rewrite elem_of_cons, S2, !elem_of_cons. tauto.
  - assert (a = b) as <- by lia. destruct (IHA (a :: B) HA1 HB) as [S1 S2]. split; [done|].
    intros x. rewrite S2, !elem_of_cons. tauto.
Qed.

Lemma merge_nonempty A B : A <> [] \/ B <> [] -> rowSetEntryMerge A B <> [].
Proof.
  revert B. induction A as [|a A IHA]; intros B; [by destruct B; intros [?|?]|].
  destruct B as [|b B]; [done|]. intros _. rewrite merge_cons.
  destruct (a <? b); [done|]. destruct (b <? a); [done|]. apply IHA. by right.
Qed.

(** The buckets in use, read as a binary number. *)
Fixpoint bucket_count (bs : list (list Z)) : Z :=
  match bs with
  | [] => 0
  | b :: bs => (match b with [] => 0 | _ => 1 end) + 2 * bucket_count bs
  end.

Lemma bucket_count_bound bs : 0 <= bucket_count bs < 2 ^ Z.of_nat (length bs).
Proof.
  induction bs as [|b bs IH]; cbn [bucket_count length]; [done|].
  rewrite Nat2Z.inj_succ, Z.pow_succ_r by lia. destruct b; lia.
Qed.

Definition in_buckets (bs : list (list Z)) (x : Z) : Prop := exists b, b ∈ bs /\ x ∈ b.

Lemma in_buckets_cons b bs x : in_buckets (b :: bs) x <-> x ∈ b \/ in_buckets bs x.
Proof.
  split.
  - intros (c & [->|Hc]%elem_of_cons & Hx); [by left|right; by exists c].
  - intros [Hx|(c & Hc & Hx)]; [exists b; split; [by left|done]|exists c; split; [by right|done]].
Qed.

Lemma bucket_push_spec bs : forall x,
  x <> [] -> ssorted x -> Forall (StronglySorted Z.lt) bs -> bucket_count bs + 1 < 2 ^ Z.of_nat (length bs) ->
  exists bs', bucket_push bs x = Some bs' /\ length bs' = length bs /\ bucket_count bs' = bucket_count bs + 1 /\
    Forall (StronglySorted Z.lt) bs' /\ forall y, in_buckets bs' y <-> y ∈ x \/ in_buckets bs y.
Proof.
  induction bs as [|b bs IH]; intros x Hx Sx Hs Hc.
  { cbn in Hc. lia. }
  apply Forall_cons in Hs as [Hb Hs]. cbn [bucket_push]. cbn [bucket_count length] in Hc.
  rewrite Nat2Z.inj_succ, Z.pow_succ_r in Hc by lia. destruct b as [|b0 b].
  - exists (x :: bs). split; [done|]. split; [done|]. split; [destruct x; [done|cbn [bucket_count]; lia]|]. split; [by constructor|].
    intros y. rewrite !in_buckets_cons, elem_of_nil. tauto.
  - set (bb := b0 :: b) in *. destruct (merge_spec bb x Hb Sx) as [M1 M2].
    destruct (IH (rowSetEntryMerge bb x)) as (bs' & -> & L & C & S & I);
      [apply merge_nonempty; by left|done|done|lia|].
    exists ([] :: bs'). split; [done|]. split; [cbn; congruence|]. split; [cbn; lia|]. split; [constructor; [constructor|done]|].
    intros y. rewrite !in_buckets_cons, elem_of_nil, I, M2. tauto.
Qed.

Lemma sort_loop_spec l : forall bs, Forall (StronglySorted Z.lt) bs ->
  bucket_count bs + Z.of_nat (length l) < 2 ^ Z.of_nat (length bs) ->
  exists bs', sort_loop bs l = Some bs' /\ Forall (StronglySorted Z.lt) bs' /\
    forall y, in_buckets bs' y <-> y ∈ l \/ in_buckets bs y.
Proof.
  induction l as [|x l IH]; intros bs Hs Hc; cbn [sort_loop].
  { exists bs. split; [done|]. split; [done|]. intros y. rewrite elem_of_nil. tauto. }
  cbn [length] in Hc. destruct (bucket_push_spec bs [x]) as (bs1 & -> & L & C & S & I);
    [done|repeat constructor|done|lia|].
  destruct (IH bs1 S) as (bs2 & R & S2 & I2); [rewrite L, C; lia|].
  exists bs2. split; [done|]. split; [done|]. intros y. rewrite I2, I, !elem_of_cons, elem_of_nil. tauto.
Qed.

Lemma merge_all_spec bs : forall acc, Forall (StronglySorted Z.lt) bs -> ssorted acc ->
  ssorted (fold_left rowSetEntryMerge bs acc) /\
  forall y, y ∈ fold_left rowSetEntryMerge bs acc <-> y ∈ acc \/ in_buckets bs y.
Proof.
  induction bs as [|b bs IH]; intros acc Hs Ha; cbn [fold_left].
  { split; [done|]. intros y. split; [by left|]. intros [?|(c & Hc & _)]; [done|]. by apply elem_of_nil in Hc. }
  apply Forall_cons in Hs as [Hb Hs]. destruct (merge_spec acc b Ha Hb) as [M1 M2].
  destruct (IH _ Hs M1) as [S I]. split; [done|]. intros y. rewrite I, M2, in_buckets_cons. tauto.
Qed.

Lemma sort_spec l : Z.of_nat (length l) < 2 ^ 40 ->
  exists l', rowSetEntrySort l = Some l' /\ ssorted l' /\ forall y, y ∈ l' <-> y ∈ l.
Proof.
  intros Hl. unfold rowSetEntrySort.
  assert (bucket_count (replicate 40 []) = 0) as E by done.
  destruct (sort_loop_spec l (replicate 40 [])) as (bs & -> & S & I).
  - apply Forall_replicate. constructor.
  - rewrite E, length_replicate. exact Hl.
  - destruct (merge_all_spec bs [] S (SSorted_nil _)) as [S2 I2]. eexists. split; [done|]. split; [done|].
    intros y. rewrite I2, I, elem_of_nil.
    assert (~ in_buckets (replicate 40 []) y); [|tauto].
    intros (b & Hb & Hy). apply elem_of_replicate_inv in Hb as ->. by apply elem_of_nil in Hy.
Qed.

(** [rowSetEntrySort] never overruns its 40 buckets on lists of fewer than 2^40
    entries, and returns the values in strictly increasing order: the same set of values,
    without duplicates. *)
Theorem rowSetEntrySort_correct l (Hl : Z.of_nat (length l) < 2 ^ 40) :
  exists l', rowSetEntrySort l = Some l' /\ ssorted l' /\ forall y, y ∈ l' <-> y ∈ l.
Proof. by apply sort_spec. Qed.

Lemma rowSetEntrySort_correct_witness : rowSetEntrySort [5; 3; 5; 9; 1; 3] = Some [1; 3; 5; 9].
Proof.
  destruct (rowSetEntrySort_correct [5; 3; 5; 9; 1; 3] ltac:(cbn; lia)) as (l' & E & _).
  rewrite E. vm_compute in E. symmetry. exact E.
Defined.

(** * Trees *)

Lemma ndeep_spec d : (1 <= d)%nat -> forall l t r,
  rowSetNDeepTree d l = (t, r) -> rowSetTreeToList t ++ r = l.
Proof.
  intros Hd. induction Hd as [|d Hd IH]; intros l t r.
  - destruct l as [|p l]; cbn; intros [= <- <-]; done.
  - destruct l as [|p l]; [cbn; by intros [= <- <-]|]. cbn [rowSetNDeepTree].
    destruct d as [|d]; [lia|]. destruct (rowSetNDeepTree (S d) (p :: l)) as [tl l1] eqn:E1.
    apply IH in E1. destruct l1 as [|q l1]; [intros [= <- <-]; by rewrite app_nil_r in *|].
    destruct (rowSetNDeepTree (S d) l1) as [tr l2] eqn:E2. apply IH in E2.
    intros [= <- <-]. cbn [rowSetTreeToList]. rewrite <- (assoc_L (++)). cbn [app]. by rewrite E2, E1.
Qed.

Lemma listToTree_loop_spec fuel : forall d p l, (1 <= d)%nat -> (length l <= fuel)%nat ->
  rowSetTreeToList (listToTree_loop fuel d p l) = rowSetTreeToList p ++ l.
Proof.
  induction fuel as [|fuel IH]; intros d p l Hd Hf; cbn [listToTree_loop].
  { destruct l; [by rewrite app_nil_r|cbn in Hf; lia]. }
  destruct l as [|x l]; [by rewrite app_nil_r|].
  destruct (rowSetNDeepTree d l) as [tr r] eqn:E. apply (ndeep_spec d Hd) in E.
  rewrite IH; [|lia|].
  - cbn [rowSetTreeToList]. rewrite <- (assoc_L (++)). cbn [app]. by rewrite E.
  - rewrite <- E in Hf. cbn [length] in Hf. rewrite length_app in Hf. lia.
Qed.

Lemma listToTree_spec l : rowSetTreeToList (rowSetListToTree l) = l.
Proof. destruct l as [|x l]; [done|]. cbn [rowSetListToTree]. by rewrite listToTree_loop_spec by lia. Qed.

Lemma tree_test_spec t r : ssorted (rowSetTreeToList t) -> tree_test t r = true <-> r ∈ rowSetTreeToList t.
Proof.
  induction t as [|l IHl v rt IHr]; cbn [rowSetTreeToList tree_test].
  { intros _. rewrite elem_of_nil. done. }
  rewrite ssorted_app, ssorted_cons. intros (S1 & (S2 & S3) & S4).
  rewrite elem_of_app, elem_of_cons.
  assert (forall x, x ∈ rowSetTreeToList l -> x < v) as S5 by (intros x Hx; apply S4; [done|by left]).
  destruct (Z.ltb_spec v r).
  - rewrite IHr by done. split; [tauto|]. intros [Hx|[->|?]]; [apply S5 in Hx; lia|lia|done].
  - destruct (Z.ltb_spec r v).
    + rewrite IHl by done. split; [tauto|]. intros [?|[->|Hx]]; [done|lia|apply S3 in Hx; lia].
    + split; [|done]. intros _. right. left. lia.
Qed.

Fixpoint height (t : Tree) : nat :=
  match t with Leaf => O | Node l _ r => S (Nat.max (height l) (height r)) end.

(** A tree of depth [d] takes at most 2^d - 1 entries, and exactly as many when entries remain. *)
Lemma ndeep_height d : (1 <= d)%nat -> forall l t r, rowSetNDeepTree d l = (t, r) ->
  (height t <= d)%nat /\ (r <> [] -> (length (rowSetTreeToList t) + 1 = 2 ^ d)%nat).
Proof.
  intros Hd. induction Hd as [|d Hd IH]; intros l t r.
  - destruct l as [|p l]; cbn; intros [= <- <-]; cbn; (split; [lia|done]).
  - destruct l as [|p l]; [cbn; intros [= <- <-]; split; [cbn; lia|done]|]. cbn [rowSetNDeepTree].
    destruct d as [|d]; [lia|]. destruct (rowSetNDeepTree (S d) (p :: l)) as [tl l1] eqn:E1.
    apply IH in E1 as [H1 C1]. destruct l1 as [|q l1]; [intros [= <- <-]; split; [lia|done]|].
    destruct (rowSetNDeepTree (S d) l1) as [tr l2] eqn:E2. apply IH in E2 as [H2 C2].
    intros [= <- <-]. cbn [height rowSetTreeToList]. split; [lia|]. intros Hr.
    specialize (C1 ltac:(done)). specialize (C2 Hr). rewrite length_app. cbn [length Nat.pow]. cbn [Nat.pow] in C1, C2. lia.
Qed.

Lemma listToTree_height_loop fuel : forall d p l, (1 <= d)%nat -> (length l <= fuel)%nat ->
  (height p <= d)%nat -> (length (rowSetTreeToList p) + 1 = 2 ^ d)%nat ->
  (2 ^ (height (listToTree_loop fuel d p l) - 1) <= length (rowSetTreeToList p ++ l))%nat.
Proof.
  assert (forall d p (l : list Z), (1 <= d)%nat -> (height p <= d)%nat -> (length (rowSetTreeToList p) + 1 = 2 ^ d)%nat ->
    (2 ^ (height p - 1) <= length (rowSetTreeToList p ++ l))%nat) as Hstop.
  { intros d p l Hd Hh Hc. rewrite length_app. destruct d as [|d]; [lia|].
    assert (2 ^ (height p - 1) <= 2 ^ d)%nat by (apply Nat.pow_le_mono_r; lia). cbn [Nat.pow] in Hc.
    assert (2 ^ d <> 0)%nat by (apply Nat.pow_nonzero; lia). lia. }
  induction fuel as [|fuel IH]; intros d p l Hd Hf Hh Hc; cbn [listToTree_loop]; [by eapply Hstop|].
  destruct l as [|x l]; [by eapply Hstop|].
  destruct (rowSetNDeepTree d l) as [tr r] eqn:E.
  pose proof (ndeep_height d Hd _ _ _ E) as [Hh' Hc']. pose proof (ndeep_spec d Hd _ _ _ E) as El.
  destruct r as [|y r].
  - rewrite app_nil_r in El. subst l.
    assert (listToTree_loop fuel (S d) (Node p x tr) [] = Node p x tr) as -> by by destruct fuel.
    cbn [height]. rewrite length_app. cbn [length].
    assert (2 ^ (S (Nat.max (height p) (height tr)) - 1) <= 2 ^ d)%nat by (apply Nat.pow_le_mono_r; lia). lia.
  - specialize (Hc' ltac:(done)). 
    assert (rowSetTreeToList p ++ x :: l = rowSetTreeToList (Node p x tr) ++ y :: r) as ->.
    { cbn [rowSetTreeToList]. rewrite <- (assoc_L (++)). cbn [app]. by rewrite El. }
    apply IH; [lia| |cbn [height]; lia|].
    + rewrite <- El in Hf. cbn [length] in *. rewrite length_app in Hf. cbn [length] in Hf. lia.
    + cbn [rowSetTreeToList Nat.pow]. rewrite length_app. cbn [length]. lia.
Qed.

(** [rowSetListToTree] rebuilds the list it is given (an in-order walk returns it
    unchanged), and the tree is balanced: its height is at most one more than the base-2
    logarithm of the number of entries, so that a search takes logarithmic time. *)
Theorem rowSetListToTree_correct l (Hl : l <> []) :
  rowSetTreeToList (rowSetListToTree l) = l /\ (2 ^ (height (rowSetListToTree l) - 1) <= length l)%nat.
Proof.
  split; [apply listToTree_spec|]. destruct l as [|x l]; [done|]. cbn [rowSetListToTree].
  apply (listToTree_height_loop (length l) 1 (Node Leaf x Leaf) l); cbn; lia.
Qed.

Lemma rowSetListToTree_correct_witness :
  rowSetTreeToList (rowSetListToTree [1; 2; 3; 4; 5; 6; 7; 8]) = [1; 2; 3; 4; 5; 6; 7; 8].
Proof. apply (rowSetListToTree_correct [1; 2; 3; 4; 5; 6; 7; 8]). discriminate. Defined.

(** * The forest *)

Definition in_forest (f : list Tree) (x : Z) : Prop := exists t, t ∈ f /\ x ∈ rowSetTreeToList t.
Definition forest_ok (f : list Tree) : Prop := Forall (fun t => ssorted (rowSetTreeToList t)) f.

Lemma in_forest_cons t f x : in_forest (t :: f) x <-> x ∈ rowSetTreeToList t \/ in_forest f x.
Proof.
  split.
  - intros (c & [->|Hc]%elem_of_cons & Hx); [by left|right; by exists c].
  - intros [Hx|(c & Hc & Hx)]; [exists t; split; [by left|done]|exists c; split; [by right|done]].
Qed.

Lemma forest_merge_spec f : forall p, forest_ok f -> ssorted p ->
  let '(f', lo) := forest_merge f p in
  forest_ok f' /\
  match lo with
  | None => forall x, in_forest f' x <-> in_forest f x \/ x ∈ p
  | Some l => ssorted l /\ forall x, in_forest f' x \/ x ∈ l <-> in_forest f x \/ x ∈ p
  end.
Proof.
  induction f as [|t f IH]; intros p Hf Hp; [by split|]. apply Forall_cons in Hf as [Ht Hf]. cbn [forest_merge].
  destruct t as [|tl v tr].
  - split; [constructor; [by rewrite listToTree_spec|done]|]. intros x.
    rewrite !in_forest_cons, listToTree_spec. cbn [rowSetTreeToList]. rewrite elem_of_nil. tauto.
  - set (t := Node tl v tr) in *. destruct (merge_spec _ p Ht Hp) as [M1 M2].
    specialize (IH _ Hf M1). destruct (forest_merge f _) as [f' lo]. destruct IH as [IH1 IH2].
    split; [constructor; [constructor|done]|]. destruct lo as [l|].
    + destruct IH2 as [Sl I]. split; [done|]. intros x. specialize (I x). rewrite M2 in I.
      rewrite !in_forest_cons. cbn [rowSetTreeToList]. rewrite elem_of_nil. tauto.
    + intros x. specialize (IH2 x). rewrite M2 in IH2. rewrite !in_forest_cons. cbn [rowSetTreeToList]. rewrite elem_of_nil. tauto.
Qed.

Lemma forest_test f r : forest_ok f -> existsb (fun t => tree_test t r) f = true <-> in_forest f r.
Proof.
  intros Hf. rewrite existsb_exists. split.
  - intros (t & Ht%list_elem_of_In & E). exists t. split; [done|]. rewrite <- tree_test_spec; [done|].
    unfold forest_ok in Hf. rewrite Forall_forall in Hf. by apply Hf.
  - intros (t & Ht & E). exists t. split; [by apply list_elem_of_In|]. apply tree_test_spec; [|done].
    unfold forest_ok in Hf. rewrite Forall_forall in Hf. by apply Hf.
Qed.

(** * The operations *)

Section RowSetSpec.
Context {M : Type} `{MM : MemMethods M} (bMemstat : bool).

(** ** Memory *)

(** A pointer the connection's allocator has handed out. *)
Definition held (db : Db) (L : gmap Z Z) (O : gset Z) (c : Z) : Prop :=
  c ∈ O \/ (exists s, L !! c = Some s) /\ isLookaside db c = false.

(** Without the chunks of the set, the live blocks would be [L0] and the outstanding lookaside
    slots [O0]. *)
Record rmem (L0 : gmap Z Z) (O0 : gset Z) (st : RState) (L : gmap Z Z) (O : gset Z) : Prop := {
  rm_db : dbinv bMemstat (rs_w st) (rs_db st) L O;
  rm_nodup : NoDup (pChunk (rs st));
  rm_held : Forall (held (rs_db st) L O) (pChunk (rs st));
  rm_L : forall a, L0 !! a =
    if decide (a ∈ pChunk (rs st) /\ isLookaside (rs_db st) a = false) then None else L !! a;
  rm_O : forall a, a ∈ O0 <-> a ∈ O /\ a ∉ pChunk (rs st) }.

Lemma slot_is_lookaside w db L O c : dbinv bMemstat w db L O -> c ∈ O -> isLookaside db c = true.
Proof.
  intros [Hw Hl _] Hc. destruct (lk_slot _ _ _ Hl c) as [A B]; [by right|].
  destruct (lk_buf _ _ _ Hl) as [(_ & -> & _)|(Hz & _)]; [set_solver|].
  unfold isLookaside. apply andb_true_iff. split; [by apply Z.leb_le|apply Z.ltb_lt; lia].
Qed.

Lemma rmem_same L0 O0 st p L O : rmem L0 O0 st L O -> pChunk p = pChunk (rs st) -> rmem L0 O0 (rs_set st p) L O.
Proof. intros [A B C D E] Ec. split; cbn [rs_set rs rs_w rs_db]; rewrite ?Ec; done. Qed.

Lemma rmem_fail L0 O0 st w db L O : rmem L0 O0 st L O -> dbinv bMemstat w db L O ->
  (forall c, isLookaside db c = isLookaside (rs_db st) c) ->
  rmem L0 O0 {| rs_w := w; rs_db := db; rs := rs st |} L O.
Proof.
  intros [A B C D E] Hd Hlk. split; cbn [rs rs_w rs_db]; try done.
  - eapply Forall_impl; [exact C|]. intros c [?|[? ?]]; [by left|right]. split; [done|]. by rewrite Hlk.
  - intros a. rewrite D. by apply decide_ext; rewrite Hlk.
Qed.

Lemma rmem_slot L0 O0 st w db p ch L O : rmem L0 O0 st L O ->
  (forall c, isLookaside db c = isLookaside (rs_db st) c) ->
  dbinv bMemstat w db L ({[p]} ∪ O) -> p ∉ O -> isLookaside db p = true -> ch = p :: pChunk (rs st) ->
  forall n, rmem L0 O0 {| rs_w := w; rs_db := db; rs := with_fresh (rs st) ch n |} L ({[p]} ∪ O).
Proof.
  intros [A B C D E] Hlk Hd HpO Hl -> n. rewrite Forall_forall in C.
  assert (p ∉ pChunk (rs st)) as Hp.
  { intros Hin. destruct (C p Hin) as [?|[_ X]]; [done|]. rewrite Hlk in Hl. congruence. }
  split; cbn [rs rs_w rs_db with_fresh pChunk]; [done|by constructor| | |].
  - constructor; [left; set_solver|]. apply Forall_forall. intros c Hc.
    destruct (C c Hc) as [?|[? ?]]; [left; set_solver|right]. split; [done|]. by rewrite Hlk.
  - intros a. rewrite D. apply decide_ext. rewrite Hlk, elem_of_cons. split; [tauto|].
    intros [[->|?] X]; [rewrite Hlk in Hl; congruence|done].
  - intros a. rewrite E, elem_of_union, elem_of_singleton, elem_of_cons. split; [|tauto].
    intros [? ?]. split; [by right|]. by intros [->|?].
Qed.

Lemma rmem_heap L0 O0 st w db p s ch L O : rmem L0 O0 st L O ->
  (forall c, isLookaside db c = isLookaside (rs_db st) c) ->
  dbinv bMemstat w db (<[p := s]> L) O -> L !! p = None -> isLookaside db p = false -> ch = p :: pChunk (rs st) ->
  forall n, rmem L0 O0 {| rs_w := w; rs_db := db; rs := with_fresh (rs st) ch n |} (<[p := s]> L) O.
Proof.
  intros [A B C D E] Hlk Hd HpL Hl -> n. rewrite Forall_forall in C.
  assert (p ∉ O) as HpO by (intros Hc; apply (slot_is_lookaside _ _ _ _ _ Hd) in Hc; congruence).
  split; cbn [rs rs_w rs_db with_fresh pChunk]; [done| | | |].
  - constructor; [|done]. intros Hin. destruct (C p Hin) as [?|[[? X] _]]; [done|congruence].
  - constructor; [right; split; [exists s; apply lookup_insert_eq|done]|]. apply Forall_forall. intros c Hc.
    destruct (C c Hc) as [?|[[s' X] ?]]; [by left|right]. split; [|by rewrite Hlk].
    exists s'. rewrite lookup_insert_ne; [done|congruence].
  - intros a. rewrite D. destruct (decide (a = p)) as [->|Hap].
    + rewrite (decide_True (P := p ∈ p :: _ /\ _)) by (split; [by left|done]). by rewrite HpL; case_decide.
    + rewrite lookup_insert_ne by done. apply decide_ext. rewrite Hlk, elem_of_cons. tauto.
  - intros a. rewrite E, elem_of_cons. split; [|tauto]. intros [? ?]. split; [done|]. by intros [->|?].
Qed.

Lemma alloc_spec L0 O0 st L O :
  rmem L0 O0 st L O ->
  let '(ok, st') := rowSetEntryAlloc bMemstat st in
  (exists L' O', rmem L0 O0 st' L' O') /\
  (exists ch n, rs st' = with_fresh (rs st) ch n) /\
  (if ok then mallocFailed (rs_db st') = mallocFailed (rs_db st) else mallocFailed (rs_db st') = true).
Proof.
  intros Hm. unfold rowSetEntryAlloc. destruct (nFresh (rs st) =? 0).
  2: { split; [exists L, O; by apply rmem_same|]. split; [by eexists _, _|done]. }
  assert (exists ch n, rs st = with_fresh (rs st) ch n) as Hsame
    by (exists (pChunk (rs st)), (nFresh (rs st)); by destruct (rs st)).
  destruct (mallocFailed (rs_db st)) eqn:Hf.
  { cbn [sqlite3DbMallocRaw]. rewrite Hf. change (0 =? 0) with true. split; [|done].
    exists L, O. eapply rmem_fail; [done|apply Hm|done]. }
  pose proof (db_malloc_spec bMemstat _ _ _ _ sizeof_RowSetChunk (rm_db _ _ _ _ _ Hm) Hf) as HP.
  destruct (sqlite3DbMallocRaw bMemstat (rs_w st) (Some (rs_db st)) sizeof_RowSetChunk) as [[p w] odb].
  destruct HP as (db' & -> & Es & Ee & HP).
  assert (forall c, isLookaside db' c = isLookaside (rs_db st) c) as Hlk
    by (intros c; unfold isLookaside; by rewrite Es, Ee).
  destruct HP as [(-> & F & HD)|[(Hp & F & Hl & HpO & _ & HD)|(Hp & F & Hl & HpL & s & _ & HD)]].
  - change (0 =? 0) with true. split; [|done]. exists L, O. by eapply rmem_fail.
  - rewrite (proj2 (Z.eqb_neq p 0)) by done. split; [|split; [by eexists _, _|done]].
    exists L, ({[p]} ∪ O). by eapply rmem_slot.
  - rewrite (proj2 (Z.eqb_neq p 0)) by done. split; [|split; [by eexists _, _|done]].
    exists (<[p := s]> L), O. by eapply rmem_heap.
Qed.

Lemma free_chunks_spec chunks : forall w db L O,
  dbinv bMemstat w db L O -> NoDup chunks -> Forall (held db L O) chunks ->
  let '(w', db') := free_chunks bMemstat w db chunks in
  exists L' O', dbinv bMemstat w' db' L' O' /\ mallocFailed db' = mallocFailed db /\
    (forall a, L' !! a = if decide (a ∈ chunks /\ isLookaside db a = false) then None else L !! a) /\
    (forall a, a ∈ O' <-> a ∈ O /\ a ∉ chunks).
Proof.
  induction chunks as [|c chunks IH]; intros w db L O Hd Hnd Hh.
  { exists L, O. split; [done|]. split; [done|]. split.
    - intros a. rewrite decide_False; [done|]. intros [H%elem_of_nil _]. done.
    - intros a. rewrite elem_of_nil. tauto. }
  apply NoDup_cons in Hnd as [Hni Hnd]. apply Forall_cons in Hh as [Hc Hh].
  unfold free_chunks. cbn [fold_left]. fold (free_chunks bMemstat).
  destruct (decide (c ∈ O)) as [HcO|HcO].
  - destruct (db_free_slot bMemstat w db L O c Hd HcO) as (db1 & -> & Hd1 & Hf1 & Hlk).
    assert (Forall (held db1 L (O ∖ {[c]})) chunks) as Hh1.
    { rewrite Forall_forall in *. intros a Ha. destruct (Hh a Ha) as [?|[? ?]]; [left; set_solver|right]. by rewrite Hlk. }
    specialize (IH w db1 L (O ∖ {[c]}) Hd1 Hnd Hh1).
    destruct (free_chunks bMemstat w db1 chunks) as [w' db'] eqn:E. unfold free_chunks in E. rewrite E.
    destruct IH as (L' & O' & A & B & C & D). exists L', O'. split; [done|]. split; [congruence|]. split.
    + intros a. rewrite C, Hlk. pose proof (slot_is_lookaside _ _ _ _ _ Hd HcO) as Hs.
      apply decide_ext. rewrite elem_of_cons. split; [tauto|]. intros [[->|?] ?]; [congruence|done].
    + intros a. rewrite D. set_solver.
  - destruct Hc as [?|[[s Hs] Hl]]; [done|].
    destruct (db_free_heap bMemstat w db L O c s Hd Hs) as [-> Hd1].
    { unfold isLookaside in Hl. apply andb_false_iff in Hl. rewrite Z.leb_gt, Z.ltb_ge in Hl. lia. }
    assert (Forall (held db (delete c L) O) chunks) as Hh1.
    { rewrite Forall_forall in *. intros a Ha. destruct (Hh a Ha) as [?|[[s' E] ?]]; [by left|right]. split; [|done].
      exists s'. rewrite lookup_delete_ne; [done|]. by intros <-. }
    specialize (IH _ _ _ _ Hd1 Hnd Hh1).
    destruct (free_chunks bMemstat _ db chunks) as [w' db'] eqn:E. unfold free_chunks in E. rewrite E.
    destruct IH as (L' & O' & A & B & C & D). exists L', O'. split; [done|]. split; [done|]. split.
    + intros a. rewrite C. destruct (decide (a = c)) as [->|Hac].
      * rewrite (decide_True (P := c ∈ c :: chunks /\ _)) by (split; [by left|done]). case_decide; [done|].
        apply lookup_delete_eq.
      * rewrite lookup_delete_ne by done. apply decide_ext. rewrite elem_of_cons. tauto.
    + intros a. rewrite D. set_solver.
Qed.

Lemma clear_spec L0 O0 st L O : rmem L0 O0 st L O ->
  let st' := sqlite3RowSetClear bMemstat st in
  rmem L0 O0 st' L0 O0 /\ mallocFailed (rs_db st') = mallocFailed (rs_db st) /\
  pEntry (rs st') = [] /\ pForest (rs st') = [].
Proof.
  intros [A B C D E]. unfold sqlite3RowSetClear.
  pose proof (free_chunks_spec _ _ _ _ _ A B C) as H. destruct (free_chunks _ _ _ _) as [w db].
  destruct H as (L' & O' & Hd & Hf & HL & HO).
  assert (L' = L0) as -> by (apply map_eq; intros a; by rewrite HL, D).
  assert (O' = O0) as -> by (apply set_eq; intros a; by rewrite HO, E).
  split; [|done]. split; cbn [rs rs_w rs_db pChunk]; [done|constructor|constructor| |].
  - intros a. rewrite decide_False; [done|]. by intros [H%elem_of_nil _].
  - intros a. rewrite elem_of_nil. tauto.
Qed.

Lemma rmem_empty L0 O0 st L O : rmem L0 O0 st L O -> pChunk (rs st) = [] -> L = L0 /\ O = O0.
Proof.
  intros [A B C D E] Hc. rewrite Hc in D, E. split.
  - apply map_eq. intros a. rewrite D, decide_False; [done|]. by intros [H%elem_of_nil _].
  - apply set_eq. intros a. rewrite E, elem_of_nil. tauto.
Qed.

(** ** Values *)

(** [seen] are the values a test finds, [pend] the pending ones, of which there are at most [n]. *)
Record rval (p : RowSet) (seen pend : gset Z) (n : Z) : Prop := {
  rv_forest : forest_ok (pForest p);
  rv_seen : forall x, in_forest (pForest p) x <-> x ∈ seen;
  rv_pend : forall x, x ∈ pEntry p <-> x ∈ pend;
  rv_last : pLast p = list.last (pEntry p);
  rv_len : Z.of_nat (length (pEntry p)) <= n;
  rv_flags : rsFlags p = 0 \/ rsFlags p = ROWSET_SORTED /\ ssorted (pEntry p) }.

Lemma rval_fresh p ch k seen pend n : rval p seen pend n -> rval (with_fresh p ch k) seen pend n.
Proof. by intros [A B C D E F]. Qed.

Lemma ssorted_snoc l x : ssorted l -> (forall y, list.last l = Some y -> y < x) -> ssorted (l ++ [x]).
Proof.
  intros Hs Hl. apply ssorted_app. split; [done|]. split; [repeat constructor|].
  intros a b Ha ->%list_elem_of_singleton.
  destruct l as [|c l _] using rev_ind; [by apply elem_of_nil in Ha|].
  specialize (Hl c (last_snoc _ _)). apply ssorted_app in Hs as (_ & _ & Hs).
  apply elem_of_app in Ha as [Ha| ->%list_elem_of_singleton]; [|done].
  specialize (Hs a c Ha ltac:(by left)). lia.
Qed.

Lemma insert_spec L0 O0 st L O seen pend n r :
  rmem L0 O0 st L O -> rval (rs st) seen pend n ->
  let st' := sqlite3RowSetInsert bMemstat st r in
  (exists L' O', rmem L0 O0 st' L' O') /\ iBatch (rs st') = iBatch (rs st) /\
  (mallocFailed (rs_db st) = true -> mallocFailed (rs_db st') = true) /\
  exists pend', rval (rs st') seen pend' (n + 1) /\
    (mallocFailed (rs_db st') = false -> pend' = {[r]} ∪ pend).
Proof.
  intros Hm Hv. unfold sqlite3RowSetInsert. pose proof (alloc_spec L0 O0 st L O Hm) as H.
  destruct (rowSetEntryAlloc bMemstat st) as [ok st1]. destruct H as ((L1 & O1 & H1) & (ch & k & Ers) & Hf).
  apply (rval_fresh _ ch k) in Hv. rewrite <- Ers in Hv.
  assert (iBatch (rs st1) = iBatch (rs st)) as Hb by by rewrite Ers.
  destruct ok.
  2: { split; [eauto|]. split; [done|]. split; [done|]. exists pend. split; [|congruence].
       destruct Hv as [A B C D E F]. split; try done. lia. }
  split; [exists L1, O1; by apply rmem_same|]. split; [done|]. cbn [rs_set rs_db rs]. split; [congruence|].
  exists ({[r]} ∪ pend). split; [|done]. destruct Hv as [A B C D E F]. split; cbn [pForest pEntry pLast rsFlags]; try done.
  - intros x. rewrite elem_of_app, C. set_solver.
  - by rewrite last_snoc.
  - rewrite length_app. cbn [length]. lia.
  - rewrite D. destruct F as [->|[-> F]].
    + left. by destruct (list.last _).
    + destruct (list.last (pEntry (rs st1))) as [y|] eqn:El.
      * change (negb (ROWSET_SORTED .& ROWSET_SORTED =? 0)) with true. cbn [andb].
        destruct (Z.leb_spec r y); [by left|right]. split; [done|]. apply ssorted_snoc; [done|].
        rewrite El. by intros ? [= <-].
      * right. split; [done|]. apply last_None in El as ->. repeat constructor.
Qed.

Lemma in_forest_app f g x : in_forest (f ++ g) x <-> in_forest f x \/ in_forest g x.
Proof. unfold in_forest. setoid_rewrite elem_of_app. naive_solver. Qed.

Lemma sorted_entries p seen pend n : rval p seen pend n -> n < 2 ^ 40 ->
  exists l, (if rsFlags p .& ROWSET_SORTED =? 0 then rowSetEntrySort (pEntry p) else Some (pEntry p)) = Some l /\
    ssorted l /\ forall x, x ∈ l <-> x ∈ pend.
Proof.
  intros [A B C D E F] Hn. destruct F as [->|[-> F]].
  - change (0 .& ROWSET_SORTED =? 0) with true.
    destruct (sort_spec (pEntry p)) as (l & -> & Sl & Il); [lia|].
    exists l. split; [done|]. split; [done|]. intros x. by rewrite Il, C.
  - change (ROWSET_SORTED .& ROWSET_SORTED =? 0) with false. by exists (pEntry p).
Qed.

Lemma flush_spec L0 O0 st L O seen pend n :
  rmem L0 O0 st L O -> rval (rs st) seen pend n -> n < 2 ^ 40 ->
  exists st', rowset_flush bMemstat st = Some st' /\
  (exists L' O', rmem L0 O0 st' L' O') /\
  (mallocFailed (rs_db st) = true -> mallocFailed (rs_db st') = true) /\
  exists seen', rval (rs st') seen' ∅ n /\ (mallocFailed (rs_db st') = false -> seen' = seen ∪ pend).
Proof.
  intros Hm Hv Hn. unfold rowset_flush. destruct (pEntry (rs st)) as [|e0 es] eqn:Ee.
  { exists st. split; [done|]. split; [eauto|]. split; [done|]. exists seen.
    assert (pend = ∅) as ->; [|by split; [|intros _; set_solver]].
    apply set_eq. intros x. rewrite <- (rv_pend _ _ _ _ Hv), Ee. set_solver. }
  rewrite <- Ee. destruct (sorted_entries _ _ _ _ Hv Hn) as (l & -> & Sl & Il).
  pose proof (forest_merge_spec (pForest (rs st)) l (rv_forest _ _ _ _ Hv) Sl) as Hfm.
  pose proof (rv_len _ _ _ _ Hv) as Hlen. assert (0 <= n) as Hn0 by lia.
  assert (rsFlags (rs st) .| ROWSET_SORTED = ROWSET_SORTED) as Hfl
    by (destruct (rv_flags _ _ _ _ Hv) as [->|[-> _]]; done).
  destruct (forest_merge (pForest (rs st)) l) as [f lo]. destruct Hfm as [Hf0 Hfm].
  assert (forall q g seen', rsFlags q = rsFlags (rs st) -> forest_ok g -> (forall x, in_forest g x <-> x ∈ seen') ->
    rval {| pChunk := pChunk q; pEntry := []; pLast := None; pForest := g; nFresh := nFresh q;
            rsFlags := rsFlags q .| ROWSET_SORTED; iBatch := iBatch q |} seen' ∅ n) as Hnew.
  { intros q g seen' Hq Hg Hin. split; cbn [pForest pEntry pLast rsFlags]; try done; [set_solver|].
    right. rewrite Hq. split; [done|constructor]. }
  destruct lo as [l'|].
  - destruct Hfm as [Sl' Hfm]. pose proof (alloc_spec L0 O0 st L O Hm) as H.
    destruct (rowSetEntryAlloc bMemstat st) as [ok st1]. destruct H as ((L1 & O1 & H1) & (ch & k & Ers) & Hf).
    destruct ok; (eexists; split; [done|]); (split; [exists L1, O1; by apply rmem_same|]); cbn [rs_set rs_db rs].
    + split; [congruence|]. exists (seen ∪ pend). split; [|done]. apply Hnew; [by rewrite Ers| |].
      * apply Forall_app. split; [done|]. constructor; [by rewrite listToTree_spec|constructor].
      * intros x. rewrite in_forest_app, in_forest_cons, listToTree_spec.
        assert (~ in_forest [] x) by (intros (t & Ht & _); by apply elem_of_nil in Ht).
        rewrite elem_of_union, <- (rv_seen _ _ _ _ Hv), <- Il, <- Hfm. tauto.
    + split; [done|]. exists (list_to_set (f ≫= rowSetTreeToList)). split; [|congruence].
      apply Hnew; [by rewrite Ers|done|].
      intros x. rewrite elem_of_list_to_set, list_elem_of_bind. unfold in_forest. naive_solver.
  - eexists. split; [done|]. split; [exists L, O; by apply rmem_same|]. split; [done|].
    exists (seen ∪ pend). split; [|done]. apply Hnew; [done|done|].
    intros x. by rewrite Hfm, elem_of_union, <- (rv_seen _ _ _ _ Hv), <- Il.
Qed.

(** ** Sequences of calls *)

Inductive rs_op := OInsert (rowid : Z) | OTest (batch rowid : Z).

(** The answers of the tests among the calls. *)
Fixpoint rs_run (st : RState) (ops : list rs_op) : option (list bool * RState) :=
  match ops with
  | [] => Some ([], st)
  | OInsert r :: ops => rs_run (sqlite3RowSetInsert bMemstat st r) ops
  | OTest b r :: ops =>
      match sqlite3RowSetTest bMemstat st b r with
      | None => None
      | Some (a, st) => match rs_run st ops with Some (l, st) => Some (a :: l, st) | None => None end
      end
  end.

(** What the answers should be: a test finds the values inserted before the batch began. *)
Fixpoint rs_spec (batch : Z) (seen pend : gset Z) (ops : list rs_op) : list bool :=
  match ops with
  | [] => []
  | OInsert r :: ops => rs_spec batch seen ({[r]} ∪ pend) ops
  | OTest b r :: ops =>
      if b =? batch then bool_decide (r ∈ seen) :: rs_spec batch seen pend ops
      else bool_decide (r ∈ seen ∪ pend) :: rs_spec b (seen ∪ pend) ∅ ops
  end.

Lemma bool_decide_iff (P : Prop) `{Decision P} b : (b = true <-> P) -> b = bool_decide P.
Proof. intros Hb. case_bool_decide as HP; destruct b; try done; [by apply (proj2 Hb)|by destruct (HP (proj1 Hb eq_refl))]. Qed.

Lemma test_spec L0 O0 st L O seen pend n b r :
  rmem L0 O0 st L O -> rval (rs st) seen pend n -> n < 2 ^ 40 ->
  exists a st', sqlite3RowSetTest bMemstat st b r = Some (a, st') /\
  (exists L' O', rmem L0 O0 st' L' O') /\ iBatch (rs st') = b /\
  (mallocFailed (rs_db st) = true -> mallocFailed (rs_db st') = true) /\
  exists seen' pend', rval (rs st') seen' pend' n /\ a = bool_decide (r ∈ seen') /\
    (mallocFailed (rs_db st') = false ->
     if b =? iBatch (rs st) then seen' = seen /\ pend' = pend else seen' = seen ∪ pend /\ pend' = ∅).
Proof.
  intros Hm Hv Hn. unfold sqlite3RowSetTest. destruct (Z.eqb_spec b (iBatch (rs st))) as [->|Hb]; cbn [negb].
  - eexists _, st. split; [done|]. split; [eauto|]. split; [done|]. split; [done|].
    exists seen, pend. split; [done|]. split; [|done]. apply bool_decide_iff.
    rewrite forest_test by apply Hv. apply Hv.
  - destruct (flush_spec _ _ _ _ _ _ _ _ Hm Hv Hn) as (st1 & -> & (L1 & O1 & H1) & Hf & seen' & Hv' & Hs).
    eexists _, _. split; [done|]. split; [exists L1, O1; by apply rmem_same|]. split; [done|]. split; [done|].
    exists seen', ∅. cbn [rs_set rs rs_db pForest]. split; [destruct Hv'; by split|]. split.
    + apply bool_decide_iff. rewrite forest_test by apply Hv'. apply Hv'.
    + intros Hok. by split; [apply Hs|].
Qed.

Lemma not_failed (b c : bool) : (b = true -> c = true) -> c = false -> b = false.
Proof. intros H ->. destruct b; [by discriminate (H eq_refl)|done]. Qed.

Lemma run_spec L0 O0 ops : forall st L O seen pend n,
  rmem L0 O0 st L O -> rval (rs st) seen pend n -> n + Z.of_nat (length ops) < 2 ^ 40 ->
  exists answers st', rs_run st ops = Some (answers, st') /\
    (exists L' O', rmem L0 O0 st' L' O') /\
    (mallocFailed (rs_db st) = true -> mallocFailed (rs_db st') = true) /\
    (mallocFailed (rs_db st') = false -> answers = rs_spec (iBatch (rs st)) seen pend ops).
Proof.
  induction ops as [|[r|b r] ops IH]; intros st L O seen pend n Hm Hv Hn; cbn [rs_run length] in *.
  - exists [], st. split; [done|]. by split; [eauto|].
  - destruct (insert_spec _ _ _ _ _ _ _ _ r Hm Hv) as ((L1 & O1 & H1) & Hb & Hf & pend' & Hv' & Hp).
    destruct (IH _ _ _ _ _ _ H1 Hv') as (an & st' & E & Hm' & Hf' & Ha); [lia|].
    exists an, st'. split; [done|]. split; [done|]. split; [auto|]. intros Hok.
    cbn [rs_spec]. by rewrite Ha, Hb, Hp by eauto using not_failed.
  - destruct (test_spec _ _ _ _ _ _ _ _ b r Hm Hv) as
      (a & st1 & -> & (L1 & O1 & H1) & Hb & Hf & seen' & pend' & Hv' & -> & Hs); [lia|].
    destruct (IH _ _ _ _ _ _ H1 Hv') as (an & st' & -> & Hm' & Hf' & Ha); [lia|].
    eexists _, st'. split; [done|]. split; [done|]. split; [auto|]. intros Hok.
    cbn [rs_spec]. rewrite Ha, Hb by done. specialize (Hs (not_failed _ _ Hf' Hok)).
    destruct (Z.eqb_spec b (iBatch (rs st))) as [->|E]; by destruct Hs as [-> ->].
Qed.

Lemma init_rval N n : 0 <= n -> rval (sqlite3RowSetInit N) ∅ ∅ n.
Proof.
  intros Hn. split; cbn; try done; [constructor| |set_solver|].
  - intros x. split; [|set_solver]. intros (t & Ht & _). by apply elem_of_nil in Ht.
  - right. split; [done|constructor].
Qed.

Lemma init_rmem w db N L O : dbinv bMemstat w db L O ->
  rmem L O {| rs_w := w; rs_db := db; rs := sqlite3RowSetInit N |} L O.
Proof.
  intros Hd. split; cbn; [done|constructor|constructor| |].
  - intros a. rewrite decide_False; [done|]. by intros [H%elem_of_nil _].
  - intros a. rewrite elem_of_nil. tauto.
Qed.

Definition inserts (st : RState) (rows : list Z) : RState :=
  fold_left (sqlite3RowSetInsert bMemstat) rows st.

(** [sqlite3RowSetNext] until it delivers nothing. *)
Fixpoint drain (fuel : nat) (st : RState) : option (list Z * RState) :=
  match fuel with
  | O => None
  | S fuel =>
      match sqlite3RowSetNext bMemstat st with
      | None => None
      | Some (None, st) => Some ([], st)
      | Some (Some v, st) => match drain fuel st with Some (l, st) => Some (v :: l, st) | None => None end
      end
  end.

Lemma drain_S fuel st : drain (S fuel) st =
  match sqlite3RowSetNext bMemstat st with
  | None => None
  | Some (None, st) => Some ([], st)
  | Some (Some v, st) => match drain fuel st with Some (l, st) => Some (v :: l, st) | None => None end
  end.
Proof. done. Qed.

Lemma inserts_spec L0 O0 rows : forall st L O seen pend n,
  rmem L0 O0 st L O -> rval (rs st) seen pend n ->
  let st' := inserts st rows in
  (exists L' O', rmem L0 O0 st' L' O') /\
  (mallocFailed (rs_db st) = true -> mallocFailed (rs_db st') = true) /\
  exists pend', rval (rs st') seen pend' (n + Z.of_nat (length rows)) /\
    (mallocFailed (rs_db st') = false -> forall x, x ∈ pend' <-> x ∈ pend \/ x ∈ rows).
Proof.
  induction rows as [|r rows IH]; intros st L O seen pend n Hm Hv; cbn [inserts fold_left length].
  { split; [eauto|]. split; [done|]. exists pend. rewrite Z.add_0_r. split; [done|]. intros _ x. set_solver. }
  destruct (insert_spec _ _ _ _ _ _ _ _ r Hm Hv) as ((L1 & O1 & H1) & Hb & Hf & pend1 & Hv1 & Hp).
  destruct (IH _ _ _ _ _ _ H1 Hv1) as (Hm2 & Hf2 & pend2 & Hv2 & Hp2). fold (inserts (sqlite3RowSetInsert bMemstat st r) rows).
  split; [done|]. split; [auto|]. exists pend2. split.
  { replace (n + Z.of_nat (S (length rows))) with (n + 1 + Z.of_nat (length rows)) by lia. done. }
  intros Hok x. rewrite Hp2, Hp by eauto using not_failed.
  set_solver.
Qed.

Lemma clear_next L0 O0 st L O : rmem L0 O0 st L O ->
  exists st', sqlite3RowSetNext bMemstat (sqlite3RowSetClear bMemstat st) = Some (None, st') /\ rmem L0 O0 st' L0 O0.
Proof.
  intros Hm. pose proof (clear_spec _ _ _ _ _ Hm) as (Hm2 & _ & He & _).
  assert (rsFlags (rs (sqlite3RowSetClear bMemstat st)) = ROWSET_SORTED) as E
    by (unfold sqlite3RowSetClear; by destruct (free_chunks _ _ _ _)).
  set (st2 := sqlite3RowSetClear bMemstat st) in *. clearbody st2.
  unfold sqlite3RowSetNext, rowSetToList. rewrite E, He.
  change (ROWSET_SORTED .& ROWSET_NEXT =? 0) with true. change (ROWSET_SORTED .& ROWSET_SORTED =? 0) with false.
  cbn [pEntry]. eexists. split; [done|]. by apply rmem_same.
Qed.

(** The first call sorts. *)
Lemma first_next st seen pend n l : rval (rs st) seen pend n ->
  (if rsFlags (rs st) .& ROWSET_SORTED =? 0 then rowSetEntrySort (pEntry (rs st)) else Some (pEntry (rs st))) = Some l ->
  exists p, sqlite3RowSetNext bMemstat st = sqlite3RowSetNext bMemstat (rs_set st p) /\
    rsFlags p .& ROWSET_NEXT <> 0 /\ pEntry p = l /\ pChunk p = pChunk (rs st).
Proof.
  intros Hv El. unfold sqlite3RowSetNext, rowSetToList. rewrite El.
  assert (rsFlags (rs st) .& ROWSET_NEXT =? 0 = true) as ->
    by (destruct (rv_flags _ _ _ _ Hv) as [->|[-> _]]; done).
  set (p := {| pEntry := l |}). exists p. split; [|split; [|split; [done|done]]].
  - cbn [rs rs_set rsFlags p]. change (rs (rs_set st p)) with p. change (rsFlags p) with (rsFlags (rs st) .| ROWSET_NEXT).
    assert ((rsFlags (rs st) .| ROWSET_NEXT) .& ROWSET_NEXT =? 0 = false) as ->
      by (destruct (rv_flags _ _ _ _ Hv) as [->|[-> _]]; done). done.
  - cbn [rsFlags p]. destruct (rv_flags _ _ _ _ Hv) as [->|[-> _]]; done.
Qed.

(** Once the entries are sorted, the calls deliver them one by one. *)
Lemma drain_sorted L0 O0 l : forall st L O, rmem L0 O0 st L O ->
  rsFlags (rs st) .& ROWSET_NEXT <> 0 -> pEntry (rs st) = l -> l <> [] ->
  exists st', drain (S (length l)) st = Some (l, st') /\ rmem L0 O0 st' L0 O0.
Proof.
  induction l as [|v l IH]; intros st L O Hm Hf He Hl; [done|].
  rewrite drain_S. unfold sqlite3RowSetNext at 1. rewrite (proj2 (Z.eqb_neq _ 0)), He by done.
  set (st2 := rs_set (rs_set st (rs st)) (with_entry (rs st) l)).
  assert (rmem L0 O0 st2 L O) as Hm2 by (apply rmem_same; [by apply rmem_same|done]).
  destruct l as [|v2 l].
  - destruct (clear_next _ _ _ _ _ Hm2) as (st' & E & Hm'). cbn [length]. rewrite drain_S, E. by exists st'.
  - destruct (IH st2 L O Hm2 Hf eq_refl) as (st' & E & Hm'); [done|].
    exists st'. split; [|done]. fold st2. by rewrite (E : drain (length (v :: v2 :: l)) st2 = _).
Qed.

(** C34. Any sequence of inserts and tests on a new set (fewer than 2^40 calls) is defined,
    and, if no allocation failed, every test answers whether the row was inserted before
    the current batch of tests began; clearing the set afterwards, failure or not, returns all its memory. *)
Theorem rowSetTest_correct w db L O N ops (Hd : dbinv bMemstat w db L O) (Hn : Z.of_nat (length ops) < 2 ^ 40) :
  exists answers st', rs_run {| rs_w := w; rs_db := db; rs := sqlite3RowSetInit N |} ops = Some (answers, st') /\
    (mallocFailed (rs_db st') = false -> answers = rs_spec 0 ∅ ∅ ops) /\
    let st'' := sqlite3RowSetClear bMemstat st' in
    dbinv bMemstat (rs_w st'') (rs_db st'') L O /\ pChunk (rs st'') = [].
Proof.
  destruct (run_spec L O ops _ _ _ _ _ 0 (init_rmem w db N L O Hd) (init_rval N 0 ltac:(lia)) ltac:(lia))
    as (an & st' & E & (L' & O' & Hm) & _ & Ha).
  exists an, st'. split; [done|]. split; [done|]. cbv zeta. split; [apply (clear_spec _ _ _ _ _ Hm)|].
  unfold sqlite3RowSetClear. by destruct (free_chunks _ _ _ _).
Qed.

(** Rows inserted and then drawn: if no allocation failed, [sqlite3RowSetNext] delivers
    exactly the inserted rows, each once, in increasing order, and then nothing; when
    it has, all memory the set took is back with the allocator. *)
Theorem rowSetNext_correct w db L O N rows (Hd : dbinv bMemstat w db L O)
    (Hn : Z.of_nat (length rows) < 2 ^ 40)
    (Hok : mallocFailed (rs_db (inserts {| rs_w := w; rs_db := db; rs := sqlite3RowSetInit N |} rows)) = false) :
  exists l st', drain (S (length l)) (inserts {| rs_w := w; rs_db := db; rs := sqlite3RowSetInit N |} rows) = Some (l, st') /\
    ssorted l /\ (forall x, x ∈ l <-> x ∈ rows) /\ dbinv bMemstat (rs_w st') (rs_db st') L O.
Proof.
  destruct (decide (rows = [])) as [->|Hrows].
  { eexists [], _. split; [done|]. split; [constructor|]. by split. }
  destruct (inserts_spec L O rows _ _ _ _ _ 0 (init_rmem w db N L O Hd) (init_rval N 0 ltac:(lia)))
    as ((L1 & O1 & Hm) & _ & pend & Hv & Hp).
  set (st := inserts _ _) in *. clearbody st. specialize (Hp Hok).
  destruct (sorted_entries _ _ _ _ Hv ltac:(lia)) as (l & El & Sl & Il).
  assert (forall x, x ∈ l <-> x ∈ rows) as Hin by (intros x; rewrite Il, Hp; set_solver).
  exists l. destruct (first_next _ _ _ _ _ Hv El) as (p & Ep & Hf & He & Hc).
  assert (rmem L O (rs_set st p) L1 O1) as Hm1 by by apply rmem_same.
  assert (l <> []) as Hl by (destruct rows as [|r rows]; [done|]; intros ->; specialize (Hin r); set_solver).
  destruct (drain_sorted L O l _ _ _ Hm1 Hf He Hl) as (st' & E & Hm').
  exists st'. rewrite drain_S in *. rewrite Ep, E. split; [done|]. split; [done|]. split; [done|]. apply Hm'.
Qed.
End RowSetSpec.
