(* ===== verification/Stack.v ===== *)
(** The components put together: the tables of Hash.v and the sets of RowSet.v over the
    allocation layer of Malloc.v over the buddy allocator of Mem5.v, which discharges the
    interface those files are proved against. The theorems of the client files
    are applied here to a concrete pool. *)
From S2P Require Import Prelude Text Mem Mem5 Malloc Hash RowSet.
Local Open Scope Z_scope.

(** A pool of 16-byte atoms at address 4096, statistics on, nothing outstanding. *)
Definition stack_mem : Mem5Global :=
  memsys5Init 16 4000 4096 demo_stats (replicate 235 0) (replicate 235 0) (replicate 235 0).

Definition stack_world : @World Mem5Global :=
  {| w_mem := stack_mem;
     w_stat := {| nowValue := replicate 10 0; mxValue := replicate 10 0 |};
     w_mem0 := {| alarmThreshold := 0; alarmCallback := false; nearlyFull := 0;
                  pScratchFree := []; nScratchFree := 0 |} |}.

Local Instance stack_methods : MemMethods Mem5Global := mem5_methods 0.

Lemma stack_pool : pool_ok 16 4000 4096 (replicate 235 0) (replicate 235 0) (replicate 235 0).
Proof. split; try done; vm_compute; split; discriminate. Qed.

Lemma stack_winv : winv true stack_world ∅.
Proof. split; [apply (init_rep _ _ _ _ _ _ _ stack_pool)|done..]. Qed.

(** ** The allocation layer *)

Lemma sqlite3Malloc_correct_witness :
  let '(p, w) := sqlite3Malloc true stack_world 100 in
  p <> 0 /\ exists s, 100 <= s /\ winv true w {[p := s]}.
Proof.
  pose proof (sqlite3Malloc_correct true stack_world ∅ 100 stack_winv) as H.
  assert ((sqlite3Malloc true stack_world 100).1 =? 0 = false) as Hn%Z.eqb_neq by (vm_compute; reflexivity).
  destruct (sqlite3Malloc true stack_world 100) as [p w].
  destruct H as [[Hp _]|(Hp & _ & H)]; [destruct (Hn Hp)|exact (conj Hp H)].
Defined.

(** One block of the pool in use. *)
Definition one_block : @World Mem5Global := (sqlite3Malloc true stack_world 100).2.

Lemma one_block_winv : winv true one_block {[7680 := 128]}.
Proof.
  pose proof (malloc_spec true stack_world ∅ 100 stack_winv) as H. unfold one_block.
  assert ((sqlite3Malloc true stack_world 100).1 = 7680) as Hp by (vm_compute; reflexivity).
  assert (xSize (w_mem (sqlite3Malloc true stack_world 100).2) 7680 = 128) as Hs by (vm_compute; reflexivity).
  destruct (sqlite3Malloc true stack_world 100) as [p w]. cbn [fst snd] in *. subst p.
  destruct H as [[H _]|(_ & _ & s & _ & H)]; [done|].
  pose proof (mm_size _ _ _ _ (wi_mem _ _ _ H) (lookup_insert_eq _ _ _)) as Hs'.
  rewrite Hs in Hs'. by subst s.
Qed.

Lemma sqlite3_free_correct_witness : winv true (sqlite3_free true one_block 7680) (delete 7680 {[7680 := 128]}).
Proof. exact (proj1 (sqlite3_free_correct true one_block _ 7680 128 one_block_winv eq_refl)). Defined.

Lemma sqlite3Realloc_correct_witness :
  let '(q, w) := sqlite3Realloc true one_block 7680 1000 in
  q <> 0 /\ exists s, 1000 <= s /\ winv true w (<[q := s]> (delete 7680 {[7680 := 128]})).
Proof.
  pose proof (sqlite3Realloc_correct true one_block _ 7680 128 1000 one_block_winv eq_refl) as H.
  assert ((sqlite3Realloc true one_block 7680 1000).1 =? 0 = false) as Hn%Z.eqb_neq by (vm_compute; reflexivity).
  destruct (sqlite3Realloc true one_block 7680 1000) as [q w].
  destruct H as [[Hq _]|(Hq & _ & H)]; [destruct (Hn Hq)|exact (conj Hq H)].
Defined.

(** ** A connection *)

Definition new_db : Db :=
  {| db_addr := 99; mallocFailed := false; pnBytesFreed := None;
     lookaside := {| sz := 0; bEnabled := false; bMalloced := false; nOut := 0; mxOut := 0;
                     anStat := [0; 0; 0]; pFree := []; pStart := 0; pEnd := 0 |} |}.

Lemma new_dbinv w L : winv true w L -> dbinv true w new_db L ∅.
Proof.
  intros Hw. split; [done| |done].
  assert (forall p : Z, ~ (p ∈ @nil Z \/ p ∈ (∅ : gset Z))) as Hno by set_solver.
  split; cbn [lookaside new_db pFree nOut pStart pEnd sz].
  - constructor.
  - by intros p ?%elem_of_nil.
  - intros p Hp. by destruct (Hno p).
  - intros p q Hp. by destruct (Hno p).
  - done.
  - left. done.
Qed.

Lemma sqlite3DbMallocRaw_correct_witness :
  db_malloc_post true 100 new_db ∅ ∅ (sqlite3DbMallocRaw true stack_world (Some new_db) 100).
Proof. exact (sqlite3DbMallocRaw_correct true stack_world new_db ∅ ∅ 100 (new_dbinv _ _ stack_winv) eq_refl). Defined.

Lemma sqlite3DbFree_correct_witness :
  exists w', sqlite3DbFree true one_block (Some new_db) 7680 = (w', Some new_db) /\
    dbinv true w' new_db (delete 7680 {[7680 := 128]}) ∅.
Proof.
  apply (proj2 (sqlite3DbFree_correct true one_block new_db _ ∅ 7680 (new_dbinv _ _ one_block_winv)) 128 eq_refl).
  left. reflexivity.
Defined.

Lemma malloc_failure_sticky_witness :
  rd (db_mallocs true stack_world (Some new_db) [100; 30000; 50; 10]) 3 = 0.
Proof.
  apply (malloc_failure_sticky true stack_world new_db ∅ ∅ [100; 30000; 50; 10] 1 3 (new_dbinv _ _ stack_winv)); [lia|cbn; lia|].
  vm_compute. reflexivity.
Defined.

Lemma setupLookaside_correct_witness :
  let '(rc, w', db') := setupLookaside true stack_world new_db 0 64 10 in
  rc = 0 /\ bEnabled (lookaside db') = true /\ 10 <= Z.of_nat (length (pFree (lookaside db'))).
Proof.
  pose proof (setupLookaside_correct true stack_world new_db ∅ 64 10 stack_winv eq_refl eq_refl eq_refl
    ltac:(lia) ltac:(lia) ltac:(lia)) as H.
  assert (bEnabled (lookaside (setupLookaside true stack_world new_db 0 64 10).2) = true) as Hn by (vm_compute; reflexivity).
  destruct (setupLookaside true stack_world new_db 0 64 10) as [[rc w'] db'].
  destruct H as (Hrc & [[Hb _]|(s & _ & _ & Hb & Hc)]).
  - cbn [snd] in Hn. rewrite Hb in Hn. discriminate Hn.
  - exact (conj Hrc (conj Hb Hc)).
Defined.

(** ** Hash tables *)

Definition no_elem : HashElem := {| next := 0; prev := 0; data := 0; pKey := []; nKey := 0 |}.

Definition new_table : @HState Mem5Global :=
  {| hs_w := stack_world; hs_heap := ∅; hs_h := {| htsize := 0; count := 0; first := 0; ht := 0; hta := [] |} |}.

Lemma new_table_hinv : hinv true new_table [] [] ∅.
Proof.
  split; try done; [apply stack_winv|..]; try constructor; try done; try set_solver.
  - apply Dll.dll_nil.
  - intros [e He]. done.
Qed.

Definition key_foo : list Z := [70; 111; 111].
Definition key_foo' : list Z := [102; 79; 79].

Lemma key_foo_ok : cstring key_foo /\ cstring key_foo'.
Proof. split; repeat constructor; discriminate. Qed.

(** The table with one entry: [foo] under the key "Foo". *)
Definition foo_table : @HState Mem5Global :=
  default new_table (snd <$> sqlite3HashInsert true no_elem key_foo 3 7 new_table).

Lemma foo_table_hinv : exists l L, hinv true foo_table l [] L /\ hmap l = {[low key_foo := 7]} /\ length l = 1%nat.
Proof.
  destruct (insert_fresh true no_elem new_table [] ∅ key_foo 7 new_table_hinv (proj1 key_foo_ok))
    as (r & s' & l & L & E & Hi & Hl); [done|done|done|].
  exists l, L. unfold foo_table. change (Z.of_nat (length key_foo)) with 3 in E. rewrite E. split; [exact Hi|].
  destruct Hl as [(-> & a & Hl)|(-> & _ & Hm)]; [|vm_compute in Hm; discriminate Hm].
  apply Permutation_singleton_r in Hl. subst l. split; reflexivity.
Qed.

Lemma hashFind_correct_witness : exists s, sqlite3HashFind key_foo' 3 foo_table = Some (7, s).
Proof.
  destruct foo_table_hinv as (l & L & Hi & Hm & _). exists foo_table.
  pose proof (hashFind_correct true foo_table l L key_foo' Hi (proj2 key_foo_ok)) as H.
  rewrite Hm in H. exact H.
Defined.

Lemma hashInsert_correct_witness :
  exists s l L, sqlite3HashInsert true no_elem key_foo' 3 0 foo_table = Some (7, s) /\ hinv true s l [] L /\ hmap l = ∅.
Proof.
  destruct foo_table_hinv as (l & L & Hi & Hm & Hl).
  destruct (hashInsert_correct true no_elem foo_table l L key_foo' 0 Hi (proj2 key_foo_ok)) as (r & s & l' & L' & E & Hi' & Hr & Hm').
  { rewrite Hl. reflexivity. }
  exists s, l', L'. rewrite Hm in Hr, Hm'. cbn [Z.eqb] in *. subst r.
  split; [exact E|]. split; [exact Hi'|]. rewrite Hm'. reflexivity.
Defined.

Lemma hashClear_correct_witness :
  exists s L, sqlite3HashClear true foo_table = Some (tt, s) /\ hinv true s [] [] L.
Proof.
  destruct foo_table_hinv as (l & L & Hi & _).
  destruct (hashClear_correct true foo_table l L Hi) as (s & L' & E & Hi' & _). exists s, L'. exact (conj E Hi').
Defined.

(** ** Row sets *)

Definition demo_ops : list rs_op :=
  [OInsert 5; OInsert 3; OTest 1 3; OTest 1 4; OInsert 4; OTest 1 4; OTest 2 4; OInsert 3; OTest 3 5].

Lemma rowSetTest_correct_witness :
  exists answers st, rs_run true {| rs_w := stack_world; rs_db := new_db; rs := sqlite3RowSetInit 104 |} demo_ops = Some (answers, st) /\
    answers = [true; false; false; true; true].
Proof.
  destruct (rowSetTest_correct true stack_world new_db ∅ ∅ 104 demo_ops (new_dbinv _ _ stack_winv)) as (a & st & E & Ha & _).
  { vm_compute. reflexivity. }
  exists a, st. split; [exact E|]. rewrite Ha; [vm_compute; reflexivity|].
  assert (option_map (fun r => mallocFailed (rs_db r.2)) (Some (a, st)) = Some false) as H
    by (rewrite <- E; vm_compute; reflexivity).
  injection H as H. exact H.
Defined.

Lemma rowSetNext_correct_witness :
  exists l st, drain true 4 (inserts true {| rs_w := stack_world; rs_db := new_db; rs := sqlite3RowSetInit 104 |} [8; 2; 8; 5])
    = Some (l, st) /\ dbinv true (rs_w st) (rs_db st) ∅ ∅.
Proof.
  destruct (rowSetNext_correct true stack_world new_db ∅ ∅ 104 [8; 2; 8; 5] (new_dbinv _ _ stack_winv)) as (l & st & E & _ & _ & Hd).
  { vm_compute. reflexivity. }
  { vm_compute. reflexivity. }
  exists l, st. split; [|exact Hd]. assert (length l = 3%nat) as Hl; [|rewrite Hl in E; exact E].
  apply (f_equal (option_map fst)) in E. cbn [option_map fst] in E.
  destruct l as [|a [|b [|c [|d l]]]]; [..|reflexivity|]; vm_compute in E; discriminate E.
Defined.
