(* ===== verification/Keywords.v ===== *)
(** SQL keywords: the token codes of parse.h and the generated perfect-hash lookup of
    keywordhash.h, with the proof that it is the plain, case-insensitive table lookup. *)
From Stdlib Require Import String Ascii.
From S2P Require Import Prelude Text.
Local Open Scope Z_scope.
Local Open Scope c_scope.

(** The bytes of an ASCII string. *)
Definition txt (s : string) : list Z := map (fun c => Z.of_N (N_of_ascii c)) (list_ascii_of_string s).

(** * Token codes *)

Definition TK_SEMI : Z := 1.
Definition TK_EXPLAIN : Z := 2.
Definition TK_QUERY : Z := 3.
Definition TK_PLAN : Z := 4.
Definition TK_BEGIN : Z := 5.
Definition TK_TRANSACTION : Z := 6.
Definition TK_DEFERRED : Z := 7.
Definition TK_IMMEDIATE : Z := 8.
Definition TK_EXCLUSIVE : Z := 9.
Definition TK_COMMIT : Z := 10.
Definition TK_END : Z := 11.
Definition TK_ROLLBACK : Z := 12.
Definition TK_SAVEPOINT : Z := 13.
Definition TK_RELEASE : Z := 14.
Definition TK_TO : Z := 15.
Definition TK_TABLE : Z := 16.
Definition TK_CREATE : Z := 17.
Definition TK_IF : Z := 18.
Definition TK_NOT : Z := 19.
Definition TK_EXISTS : Z := 20.
Definition TK_TEMP : Z := 21.
Definition TK_LP : Z := 22.
Definition TK_RP : Z := 23.
Definition TK_AS : Z := 24.
Definition TK_WITHOUT : Z := 25.
Definition TK_COMMA : Z := 26.
Definition TK_ID : Z := 27.
Definition TK_INDEXED : Z := 28.
Definition TK_ABORT : Z := 29.
Definition TK_ACTION : Z := 30.
Definition TK_AFTER : Z := 31.
Definition TK_ANALYZE : Z := 32.
Definition TK_ASC : Z := 33.
Definition TK_ATTACH : Z := 34.
Definition TK_BEFORE : Z := 35.
Definition TK_BY : Z := 36.
Definition TK_CASCADE : Z := 37.
Definition TK_CAST : Z := 38.
Definition TK_COLUMNKW : Z := 39.
Definition TK_CONFLICT : Z := 40.
Definition TK_DATABASE : Z := 41.
Definition TK_DESC : Z := 42.
Definition TK_DETACH : Z := 43.
Definition TK_EACH : Z := 44.
Definition TK_FAIL : Z := 45.
Definition TK_FOR : Z := 46.
Definition TK_IGNORE : Z := 47.
Definition TK_INITIALLY : Z := 48.
Definition TK_INSTEAD : Z := 49.
Definition TK_LIKE_KW : Z := 50.
Definition TK_MATCH : Z := 51.
Definition TK_NO : Z := 52.
Definition TK_KEY : Z := 53.
Definition TK_OF : Z := 54.
Definition TK_OFFSET : Z := 55.
Definition TK_PRAGMA : Z := 56.
Definition TK_RAISE : Z := 57.
Definition TK_RECURSIVE : Z := 58.
Definition TK_REPLACE : Z := 59.
Definition TK_RESTRICT : Z := 60.
Definition TK_ROW : Z := 61.
Definition TK_TRIGGER : Z := 62.
Definition TK_VACUUM : Z := 63.
Definition TK_VIEW : Z := 64.
Definition TK_VIRTUAL : Z := 65.
Definition TK_WITH : Z := 66.
Definition TK_REINDEX : Z := 67.
Definition TK_RENAME : Z := 68.
Definition TK_CTIME_KW : Z := 69.
Definition TK_ANY : Z := 70.
Definition TK_OR : Z := 71.
Definition TK_AND : Z := 72.
Definition TK_IS : Z := 73.
Definition TK_BETWEEN : Z := 74.
Definition TK_IN : Z := 75.
Definition TK_ISNULL : Z := 76.
Definition TK_NOTNULL : Z := 77.
Definition TK_NE : Z := 78.
Definition TK_EQ : Z := 79.
Definition TK_GT : Z := 80.
Definition TK_LE : Z := 81.
Definition TK_LT : Z := 82.
Definition TK_GE : Z := 83.
Definition TK_ESCAPE : Z := 84.
Definition TK_BITAND : Z := 85.
Definition TK_BITOR : Z := 86.
Definition TK_LSHIFT : Z := 87.
Definition TK_RSHIFT : Z := 88.
Definition TK_PLUS : Z := 89.
Definition TK_MINUS : Z := 90.
Definition TK_STAR : Z := 91.
Definition TK_SLASH : Z := 92.
Definition TK_REM : Z := 93.
Definition TK_CONCAT : Z := 94.
Definition TK_COLLATE : Z := 95.
Definition TK_BITNOT : Z := 96.
Definition TK_STRING : Z := 97.
Definition TK_JOIN_KW : Z := 98.
Definition TK_CONSTRAINT : Z := 99.
Definition TK_DEFAULT : Z := 100.
Definition TK_NULL : Z := 101.
Definition TK_PRIMARY : Z := 102.
Definition TK_UNIQUE : Z := 103.
Definition TK_CHECK : Z := 104.
Definition TK_REFERENCES : Z := 105.
Definition TK_AUTOINCR : Z := 106.
Definition TK_ON : Z := 107.
Definition TK_INSERT : Z := 108.
Definition TK_DELETE : Z := 109.
Definition TK_UPDATE : Z := 110.
Definition TK_SET : Z := 111.
Definition TK_DEFERRABLE : Z := 112.
Definition TK_FOREIGN : Z := 113.
Definition TK_DROP : Z := 114.
Definition TK_UNION : Z := 115.
Definition TK_ALL : Z := 116.
Definition TK_EXCEPT : Z := 117.
Definition TK_INTERSECT : Z := 118.
Definition TK_SELECT : Z := 119.
Definition TK_VALUES : Z := 120.
Definition TK_DISTINCT : Z := 121.
Definition TK_DOT : Z := 122.
Definition TK_FROM : Z := 123.
Definition TK_JOIN : Z := 124.
Definition TK_USING : Z := 125.
Definition TK_ORDER : Z := 126.
Definition TK_GROUP : Z := 127.
Definition TK_HAVING : Z := 128.
Definition TK_LIMIT : Z := 129.
Definition TK_WHERE : Z := 130.
Definition TK_INTO : Z := 131.
Definition TK_INTEGER : Z := 132.
Definition TK_FLOAT : Z := 133.
Definition TK_BLOB : Z := 134.
Definition TK_VARIABLE : Z := 135.
Definition TK_CASE : Z := 136.
Definition TK_WHEN : Z := 137.
Definition TK_THEN : Z := 138.
Definition TK_ELSE : Z := 139.
Definition TK_INDEX : Z := 140.
Definition TK_ALTER : Z := 141.
Definition TK_ADD : Z := 142.
Definition TK_TO_TEXT : Z := 143.
Definition TK_TO_BLOB : Z := 144.
Definition TK_TO_NUMERIC : Z := 145.
Definition TK_TO_INT : Z := 146.
Definition TK_TO_REAL : Z := 147.
Definition TK_ISNOT : Z := 148.
Definition TK_END_OF_FILE : Z := 149.
Definition TK_ILLEGAL : Z := 150.
Definition TK_SPACE : Z := 151.
Definition TK_UNCLOSED_STRING : Z := 152.
Definition TK_FUNCTION : Z := 153.
Definition TK_COLUMN : Z := 154.
Definition TK_AGG_FUNCTION : Z := 155.
Definition TK_AGG_COLUMN : Z := 156.
Definition TK_UMINUS : Z := 157.
Definition TK_UPLUS : Z := 158.
Definition TK_REGISTER : Z := 159.

(** * The tables of [keywordCode] *)

Definition zText : list Z := txt (
  "REINDEXEDESCAPEACHECKEYBEFOREIGNOREGEXPLAINSTEADDATABASELECTABLEFTHEND" ++
  "EFERRABLELSEXCEPTRANSACTIONATURALTERAISEXCLUSIVEXISTSAVEPOINTERSECTRIG" ++
  "GEREFERENCESCONSTRAINTOFFSETEMPORARYUNIQUERYWITHOUTERELEASEATTACHAVING" ++
  "ROUPDATEBEGINNERECURSIVEBETWEENOTNULLIKECASCADELETECASECOLLATECREATECU" ++
  "RRENT_DATEDETACHIMMEDIATEJOINSERTMATCHPLANALYZEPRAGMABORTVALUESVIRTUAL" ++
  "IMITWHENWHERENAMEAFTEREPLACEANDEFAULTAUTOINCREMENTCASTCOLUMNCOMMITCONF" ++
  "LICTCROSSCURRENT_TIMESTAMPRIMARYDEFERREDISTINCTDROPFAILFROMFULLGLOBYIF" ++
  "ISNULLORDERESTRICTRIGHTROLLBACKROWUNIONUSINGVACUUMVIEWINITIALLY")%string.

Definition aHash : list Z :=
  [76; 105; 117; 74; 0; 45; 0; 0; 82; 0; 77; 0; 0; 42; 12; 78; 15; 0; 116; 85; 54; 112; 0; 19; 0; 0;
   121; 0; 119; 115; 0; 22; 93; 0; 9; 0; 0; 70; 71; 0; 69; 6; 0; 48; 90; 102; 0; 118; 101; 0; 0;
   44; 0; 103; 24; 0; 17; 0; 122; 53; 23; 0; 5; 110; 25; 96; 0; 0; 124; 106; 60; 123; 57; 28; 55;
   0; 91; 0; 100; 26; 0; 99; 0; 0; 0; 95; 92; 97; 88; 109; 14; 39; 108; 0; 81; 0; 18; 89; 111; 32;
   0; 120; 80; 113; 62; 46; 84; 0; 0; 94; 40; 59; 114; 0; 36; 0; 0; 29; 0; 86; 63; 64; 0; 20; 61;
   0; 56].

Definition aNext : list Z :=
  [0; 0; 0; 0; 4; 0; 0; 0; 0; 0; 0; 0; 0; 0; 2; 0; 0; 0; 0; 0; 0; 13; 0; 0; 0; 0; 0; 7; 0; 0; 0; 0;
   0; 0; 0; 0; 0; 0; 0; 0; 0; 0; 0; 33; 0; 21; 0; 0; 0; 0; 0; 50; 0; 43; 3; 47; 0; 0; 0; 0; 30; 0;
   58; 0; 38; 0; 0; 0; 1; 66; 0; 0; 67; 0; 41; 0; 0; 0; 0; 0; 0; 49; 65; 0; 0; 0; 0; 31; 52; 16;
   34; 10; 0; 0; 0; 0; 0; 0; 0; 11; 72; 79; 0; 8; 0; 104; 98; 0; 107; 0; 87; 0; 75; 51; 0; 27; 37;
   73; 83; 0; 35; 68; 0; 0].

Definition aLen : list Z :=
  [7; 7; 5; 4; 6; 4; 5; 3; 6; 7; 3; 6; 6; 7; 7; 3; 8; 2; 6; 5; 4; 4; 3; 10; 4; 6; 11; 6; 2; 7; 5; 5;
   9; 6; 9; 9; 7; 10; 10; 4; 6; 2; 3; 9; 4; 2; 6; 5; 7; 4; 5; 7; 6; 6; 5; 6; 5; 5; 9; 7; 7; 3; 2;
   4; 4; 7; 3; 6; 4; 7; 6; 12; 6; 9; 4; 6; 5; 4; 7; 6; 5; 6; 7; 5; 4; 5; 6; 5; 7; 3; 7; 13; 2; 2;
   4; 6; 6; 8; 5; 17; 12; 7; 8; 8; 2; 4; 4; 4; 4; 4; 2; 2; 6; 5; 8; 5; 8; 3; 5; 5; 6; 4; 9; 3].

Definition aOffset : list Z :=
  [0; 2; 2; 8; 9; 14; 16; 20; 23; 25; 25; 29; 33; 36; 41; 46; 48; 53; 54; 59; 62; 65; 67; 69; 78;
   81; 86; 91; 95; 96; 101; 105; 109; 117; 122; 128; 136; 142; 152; 159; 162; 162; 165; 167; 167;
   171; 176; 179; 184; 184; 188; 192; 199; 204; 209; 212; 218; 221; 225; 234; 240; 240; 240; 243;
   246; 250; 251; 255; 261; 265; 272; 278; 290; 296; 305; 307; 313; 318; 320; 327; 332; 337; 343;
   349; 354; 358; 361; 367; 371; 378; 380; 387; 389; 391; 400; 404; 410; 416; 424; 429; 429; 445;
   452; 459; 460; 467; 471; 475; 479; 483; 486; 488; 490; 496; 500; 508; 513; 521; 524; 529; 534;
   540; 544; 549].

Definition aCode : list Z :=
  [TK_REINDEX; TK_INDEXED; TK_INDEX; TK_DESC; TK_ESCAPE; TK_EACH; TK_CHECK; TK_KEY; TK_BEFORE;
   TK_FOREIGN; TK_FOR; TK_IGNORE; TK_LIKE_KW; TK_EXPLAIN; TK_INSTEAD; TK_ADD; TK_DATABASE; TK_AS;
   TK_SELECT; TK_TABLE; TK_JOIN_KW; TK_THEN; TK_END; TK_DEFERRABLE; TK_ELSE; TK_EXCEPT;
   TK_TRANSACTION; TK_ACTION; TK_ON; TK_JOIN_KW; TK_ALTER; TK_RAISE; TK_EXCLUSIVE; TK_EXISTS;
   TK_SAVEPOINT; TK_INTERSECT; TK_TRIGGER; TK_REFERENCES; TK_CONSTRAINT; TK_INTO; TK_OFFSET; TK_OF;
   TK_SET; TK_TEMP; TK_TEMP; TK_OR; TK_UNIQUE; TK_QUERY; TK_WITHOUT; TK_WITH; TK_JOIN_KW;
   TK_RELEASE; TK_ATTACH; TK_HAVING; TK_GROUP; TK_UPDATE; TK_BEGIN; TK_JOIN_KW; TK_RECURSIVE;
   TK_BETWEEN; TK_NOTNULL; TK_NOT; TK_NO; TK_NULL; TK_LIKE_KW; TK_CASCADE; TK_ASC; TK_DELETE;
   TK_CASE; TK_COLLATE; TK_CREATE; TK_CTIME_KW; TK_DETACH; TK_IMMEDIATE; TK_JOIN; TK_INSERT;
   TK_MATCH; TK_PLAN; TK_ANALYZE; TK_PRAGMA; TK_ABORT; TK_VALUES; TK_VIRTUAL; TK_LIMIT; TK_WHEN;
   TK_WHERE; TK_RENAME; TK_AFTER; TK_REPLACE; TK_AND; TK_DEFAULT; TK_AUTOINCR; TK_TO; TK_IN;
   TK_CAST; TK_COLUMNKW; TK_COMMIT; TK_CONFLICT; TK_JOIN_KW; TK_CTIME_KW; TK_CTIME_KW; TK_PRIMARY;
   TK_DEFERRED; TK_DISTINCT; TK_IS; TK_DROP; TK_FAIL; TK_FROM; TK_JOIN_KW; TK_LIKE_KW; TK_BY;
   TK_IF; TK_ISNULL; TK_ORDER; TK_RESTRICT; TK_JOIN_KW; TK_ROLLBACK; TK_ROW; TK_UNION; TK_USING;
   TK_VACUUM; TK_VIEW; TK_INITIALLY; TK_ALL].

Definition charMap (c : Z) : Z := rd sqlite3UpperToLower c.

(** The walk along a hash chain; [None] when the fuel, one step for each of the 124 keywords, runs out. *)
Fixpoint keyword_loop (fuel : nat) (z : list Z) (n i : Z) : option Z :=
  match fuel with
  | O => None
  | S fuel =>
      if i <? 0 then Some TK_ID
      else if (rd aLen i =? n) && (sqlite3_strnicmp (drop (Z.to_nat (rd aOffset i)) zText) z n =? 0)
      then Some (rd aCode i)
      else keyword_loop fuel z n (rd aNext i - 1)
  end.

Definition keywordCode (z : list Z) (n : Z) : option Z :=
  if n <? 2 then Some TK_ID
  else
    let h := Z.rem (Z.lxor (Z.lxor (charMap (rd z 0) * 4) (charMap (rd z (n - 1)) * 3)) n) 127 in
    keyword_loop 125 z n (rd aHash h - 1).

(** * The table as one would write it *)

Definition keyword_table : list (string * Z) :=
  [("REINDEX"%string, TK_REINDEX); ("INDEXED"%string, TK_INDEXED); ("INDEX"%string, TK_INDEX);
   ("DESC"%string, TK_DESC); ("ESCAPE"%string, TK_ESCAPE); ("EACH"%string, TK_EACH);
   ("CHECK"%string, TK_CHECK); ("KEY"%string, TK_KEY); ("BEFORE"%string, TK_BEFORE);
   ("FOREIGN"%string, TK_FOREIGN); ("FOR"%string, TK_FOR); ("IGNORE"%string, TK_IGNORE);
   ("REGEXP"%string, TK_LIKE_KW); ("EXPLAIN"%string, TK_EXPLAIN); ("INSTEAD"%string, TK_INSTEAD);
   ("ADD"%string, TK_ADD); ("DATABASE"%string, TK_DATABASE); ("AS"%string, TK_AS);
   ("SELECT"%string, TK_SELECT); ("TABLE"%string, TK_TABLE); ("LEFT"%string, TK_JOIN_KW);
   ("THEN"%string, TK_THEN); ("END"%string, TK_END); ("DEFERRABLE"%string, TK_DEFERRABLE);
   ("ELSE"%string, TK_ELSE); ("EXCEPT"%string, TK_EXCEPT); ("TRANSACTION"%string, TK_TRANSACTION);
   ("ACTION"%string, TK_ACTION); ("ON"%string, TK_ON); ("NATURAL"%string, TK_JOIN_KW);
   ("ALTER"%string, TK_ALTER); ("RAISE"%string, TK_RAISE); ("EXCLUSIVE"%string, TK_EXCLUSIVE);
   ("EXISTS"%string, TK_EXISTS); ("SAVEPOINT"%string, TK_SAVEPOINT); ("INTERSECT"%string, TK_INTERSECT);
   ("TRIGGER"%string, TK_TRIGGER); ("REFERENCES"%string, TK_REFERENCES);
   ("CONSTRAINT"%string, TK_CONSTRAINT); ("INTO"%string, TK_INTO); ("OFFSET"%string, TK_OFFSET);
   ("OF"%string, TK_OF); ("SET"%string, TK_SET); ("TEMPORARY"%string, TK_TEMP); ("TEMP"%string, TK_TEMP);
   ("OR"%string, TK_OR); ("UNIQUE"%string, TK_UNIQUE); ("QUERY"%string, TK_QUERY);
   ("WITHOUT"%string, TK_WITHOUT); ("WITH"%string, TK_WITH); ("OUTER"%string, TK_JOIN_KW);
   ("RELEASE"%string, TK_RELEASE); ("ATTACH"%string, TK_ATTACH); ("HAVING"%string, TK_HAVING);
   ("GROUP"%string, TK_GROUP); ("UPDATE"%string, TK_UPDATE); ("BEGIN"%string, TK_BEGIN);
   ("INNER"%string, TK_JOIN_KW); ("RECURSIVE"%string, TK_RECURSIVE); ("BETWEEN"%string, TK_BETWEEN);
   ("NOTNULL"%string, TK_NOTNULL); ("NOT"%string, TK_NOT); ("NO"%string, TK_NO); ("NULL"%string, TK_NULL);
   ("LIKE"%string, TK_LIKE_KW); ("CASCADE"%string, TK_CASCADE); ("ASC"%string, TK_ASC);
   ("DELETE"%string, TK_DELETE); ("CASE"%string, TK_CASE); ("COLLATE"%string, TK_COLLATE);
   ("CREATE"%string, TK_CREATE); ("CURRENT_DATE"%string, TK_CTIME_KW); ("DETACH"%string, TK_DETACH);
   ("IMMEDIATE"%string, TK_IMMEDIATE); ("JOIN"%string, TK_JOIN); ("INSERT"%string, TK_INSERT);
   ("MATCH"%string, TK_MATCH); ("PLAN"%string, TK_PLAN); ("ANALYZE"%string, TK_ANALYZE);
   ("PRAGMA"%string, TK_PRAGMA); ("ABORT"%string, TK_ABORT); ("VALUES"%string, TK_VALUES);
   ("VIRTUAL"%string, TK_VIRTUAL); ("LIMIT"%string, TK_LIMIT); ("WHEN"%string, TK_WHEN);
   ("WHERE"%string, TK_WHERE); ("RENAME"%string, TK_RENAME); ("AFTER"%string, TK_AFTER);
   ("REPLACE"%string, TK_REPLACE); ("AND"%string, TK_AND); ("DEFAULT"%string, TK_DEFAULT);
   ("AUTOINCREMENT"%string, TK_AUTOINCR); ("TO"%string, TK_TO); ("IN"%string, TK_IN);
   ("CAST"%string, TK_CAST); ("COLUMN"%string, TK_COLUMNKW); ("COMMIT"%string, TK_COMMIT);
   ("CONFLICT"%string, TK_CONFLICT); ("CROSS"%string, TK_JOIN_KW); ("CURRENT_TIMESTAMP"%string, TK_CTIME_KW);
   ("CURRENT_TIME"%string, TK_CTIME_KW); ("PRIMARY"%string, TK_PRIMARY); ("DEFERRED"%string, TK_DEFERRED);
   ("DISTINCT"%string, TK_DISTINCT); ("IS"%string, TK_IS); ("DROP"%string, TK_DROP);
   ("FAIL"%string, TK_FAIL); ("FROM"%string, TK_FROM); ("FULL"%string, TK_JOIN_KW);
   ("GLOB"%string, TK_LIKE_KW); ("BY"%string, TK_BY); ("IF"%string, TK_IF); ("ISNULL"%string, TK_ISNULL);
   ("ORDER"%string, TK_ORDER); ("RESTRICT"%string, TK_RESTRICT); ("RIGHT"%string, TK_JOIN_KW);
   ("ROLLBACK"%string, TK_ROLLBACK); ("ROW"%string, TK_ROW); ("UNION"%string, TK_UNION);
   ("USING"%string, TK_USING); ("VACUUM"%string, TK_VACUUM); ("VIEW"%string, TK_VIEW);
   ("INITIALLY"%string, TK_INITIALLY); ("ALL"%string, TK_ALL)].

Definition fold_case (z : list Z) : list Z := map sqlite3Tolower z.

Definition keyword_ref (z : list Z) : Z :=
  match find (fun e => bool_decide (fold_case (txt e.1) = fold_case z)) keyword_table with
  | Some e => e.2
  | None => TK_ID
  end.

(** ** Equivalence *)

Definition kw_name (i : Z) : list Z := take (Z.to_nat (rd aLen i)) (drop (Z.to_nat (rd aOffset i)) zText).

(** The tables spell the keywords in order. *)
Lemma tables_agree :
  map (fun i => (kw_name i, rd aCode i)) (seqZ 0 124) = map (fun e => (txt e.1, e.2)) keyword_table.
Proof. vm_compute. reflexivity. Qed.

Definition kw_row_ok (i : Z) : bool :=
  (2 <=? rd aLen i) && (Z.of_nat (length (kw_name i)) =? rd aLen i) &&
  (-1 <=? rd aNext i - 1) && (rd aNext i - 1 <? 124) && (0 <=? rd aOffset i).

Lemma rows_ok i : 0 <= i < 124 ->
  2 <= rd aLen i /\ Z.of_nat (length (kw_name i)) = rd aLen i /\ -1 <= rd aNext i - 1 < 124.
Proof.
  intros Hi. assert (forallb kw_row_ok (seqZ 0 124) = true) as H by (vm_compute; reflexivity).
  rewrite forallb_forall in H. specialize (H i). rewrite <- list_elem_of_In, elem_of_seqZ in H.
  specialize (H ltac:(lia)). unfold kw_row_ok in H. rewrite !andb_true_iff in H. lia.
Qed.

Lemma zText_bytes : Forall (is_u 8) zText.
Proof.
  assert (forallb (fun c => (0 <=? c) && (c <? 256)) zText = true) as H by (vm_compute; reflexivity).
  rewrite forallb_forall in H. apply Forall_forall. intros x Hx. specialize (H x).
  rewrite <- list_elem_of_In in H. specialize (H Hx). unfold is_u. change (2 ^ 8) with 256. lia.
Qed.

Lemma strnicmp_take a b N : (Z.to_nat N <= length a)%nat ->
  sqlite3_strnicmp a b N = sqlite3_strnicmp (take (Z.to_nat N) a) b N.
Proof.
  revert b N. induction a as [|c a IH]; intros b N HN; [cbn in HN; by rewrite take_nil|].
  destruct (Z.ltb_spec 0 N) as [Hp|Hp].
  - destruct (Z.to_nat N) as [|k] eqn:E; [lia|]. cbn [take sqlite3_strnicmp].
    rewrite (proj2 (Z.ltb_lt 0 N)) by done. destruct (_ && _); [|done].
    assert (k = Z.to_nat (N - 1)) as -> by lia. apply IH. cbn in HN. lia.
  - replace (Z.to_nat N) with O by lia. cbn [take sqlite3_strnicmp].
    by rewrite (proj2 (Z.ltb_ge 0 N)) by done.
Qed.

(** The test of the loop compares with the keyword, whatever the case. *)
Lemma keyword_test z i : cstring z -> 0 <= i < 124 ->
  (rd aLen i =? Z.of_nat (length z)) &&
  (sqlite3_strnicmp (drop (Z.to_nat (rd aOffset i)) zText) z (Z.of_nat (length z)) =? 0)
  = bool_decide (fold_case (kw_name i) = fold_case z).
Proof.
  intros Hz Hi. destruct (rows_ok i Hi) as (H2 & Hl & _).
  destruct (Z.eqb_spec (rd aLen i) (Z.of_nat (length z))) as [E|E].
  - assert (length (kw_name i) = length z) as El by lia. cbn [andb].
    rewrite strnicmp_take.
    2: { unfold kw_name in El. rewrite length_take in El. lia. }
    rewrite <- E at 1. fold (kw_name i).
    pose proof (strnicmp_zero (kw_name i) z) as HS. unfold fold_case.
    case_bool_decide as HD.
    + apply Z.eqb_eq, HS; [|done..]. by apply Forall_take, Forall_drop, zText_bytes.
    + apply Z.eqb_neq. intros H0. apply HD, HS; [|done..]. by apply Forall_take, Forall_drop, zText_bytes.
  - rewrite bool_decide_false; [done|]. intros Hf. apply (f_equal length) in Hf.
    unfold fold_case in Hf. rewrite !length_map in Hf. lia.
Qed.

(** The lookup on a folded word. *)
Fixpoint folded_loop (fuel : nat) (z : list Z) (i : Z) : option Z :=
  match fuel with
  | O => None
  | S fuel =>
      if i <? 0 then Some TK_ID
      else if bool_decide (fold_case (kw_name i) = z) then Some (rd aCode i)
      else folded_loop fuel z (rd aNext i - 1)
  end.

Definition folded_hash (z : list Z) : Z :=
  Z.rem (Z.lxor (Z.lxor (rd z 0 * 4) (rd z (Z.of_nat (length z) - 1) * 3)) (Z.of_nat (length z))) 127.

Definition folded_code (z : list Z) : option Z :=
  if Z.of_nat (length z) <? 2 then Some TK_ID else folded_loop 125 z (rd aHash (folded_hash z) - 1).

Lemma loop_folded z fuel : cstring z -> forall i, i < 124 ->
  keyword_loop fuel z (Z.of_nat (length z)) i = folded_loop fuel (fold_case z) i.
Proof.
  intros Hz. induction fuel as [|fuel IH]; intros i Hi; [done|]. cbn [keyword_loop folded_loop].
  destruct (Z.ltb_spec i 0); [done|]. rewrite keyword_test by (done || lia).
  destruct (bool_decide _); [done|]. apply IH. destruct (rows_ok i); lia.
Qed.

Lemma fold_length z : length (fold_case z) = length z.
Proof. apply length_map. Qed.

Lemma rd_fold z i : 0 <= i < Z.of_nat (length z) -> rd (fold_case z) i = sqlite3Tolower (rd z i).
Proof. intros Hi. apply rd_lookup. unfold fold_case. by rewrite list_lookup_fmap, lookup_rd. Qed.

Lemma aHash_range i : rd aHash i - 1 < 124.
Proof.
  assert (Forall (fun x => x < 125) aHash) as H by (repeat constructor). unfold rd.
  destruct (decide (Z.to_nat i < length aHash)%nat).
  - rewrite Forall_forall in H. specialize (H (nth (Z.to_nat i) aHash 0)).
    assert (nth (Z.to_nat i) aHash 0 ∈ aHash) by (apply list_elem_of_In, nth_In; lia). specialize (H ltac:(done)). lia.
  - rewrite nth_overflow by lia. lia.
Qed.

Lemma code_folded z : cstring z -> keywordCode z (Z.of_nat (length z)) = folded_code (fold_case z).
Proof.
  intros Hz. unfold keywordCode, folded_code, folded_hash. rewrite !fold_length.
  destruct (Z.ltb_spec (Z.of_nat (length z)) 2); [done|].
  rewrite !rd_fold by lia. rewrite loop_folded by (done || apply aHash_range). done.
Qed.

(** Chains end. *)
Lemma folded_miss z fuel : (forall i, 0 <= i < 124 -> fold_case (kw_name i) <> z) -> forall i, i < 124 ->
  folded_loop fuel z i = folded_loop fuel [] i.
Proof.
  intros Hz. induction fuel as [|fuel IH]; intros i Hi; [done|]. cbn [folded_loop].
  destruct (Z.ltb_spec i 0); [done|]. destruct (rows_ok i ltac:(lia)) as (H2 & Hl & Hn).
  rewrite !bool_decide_false; [apply IH; lia| |apply Hz; lia].
  intros E. apply (f_equal length) in E. unfold fold_case in E. rewrite length_map in E. cbn in E. lia.
Qed.

Lemma chains_end h : 0 <= h < 127 -> folded_loop 125 [] (rd aHash h - 1) = Some TK_ID.
Proof.
  intros Hh. assert (forallb (fun h => bool_decide (folded_loop 125 [] (rd aHash h - 1) = Some TK_ID)) (seqZ 0 127) = true) as H
    by (vm_compute; reflexivity).
  rewrite forallb_forall in H. specialize (H h). rewrite <- list_elem_of_In, elem_of_seqZ in H.
  specialize (H ltac:(lia)). by apply bool_decide_eq_true in H.
Qed.

Lemma tolower_byte c : is_u 8 c -> is_u 8 (sqlite3Tolower c).
Proof.
  intros Hc. pose proof (byte_forall (fun c => (0 <=? sqlite3Tolower c) && (sqlite3Tolower c <? 256)) ltac:(vm_compute; reflexivity) c Hc) as H.
  unfold is_u. change (2 ^ 8) with 256. cbn beta in H. lia.
Qed.

Lemma lxor_nn a b : 0 <= a -> 0 <= b -> 0 <= Z.lxor a b.
Proof. intros. by apply Z.lxor_nonneg. Qed.

Lemma folded_hash_range z : Forall (is_u 8) z -> 0 <= folded_hash z < 127.
Proof.
  intros Hz. unfold folded_hash. assert (forall i, 0 <= rd z i) as Hr.
  { intros i. destruct (decide (0 <= i < Z.of_nat (length z))) as [Hi|Hi].
    - rewrite Forall_forall in Hz. destruct (Hz (rd z i)); [|done].
      eapply list_elem_of_lookup_2, lookup_rd. exact Hi.
    - destruct (Z.lt_ge_cases i 0); [|rewrite rd_beyond; lia]. unfold rd. replace (Z.to_nat i) with O by lia.
      destruct z as [|c z]; [done|]. apply Forall_cons in Hz as [[? ?] _]. done. }
  apply Z.rem_bound_pos; [|lia].
  pose proof (Hr 0). pose proof (Hr (Z.of_nat (length z) - 1)). apply lxor_nn; [apply lxor_nn|]; lia.
Qed.

Lemma find_none_table z :
  find (fun e : string * Z => bool_decide (fold_case (txt e.1) = z)) keyword_table = None ->
  forall i, 0 <= i < 124 -> fold_case (kw_name i) <> z.
Proof.
  intros Hf i Hi E.
  assert ((kw_name i, rd aCode i) ∈ map (fun i => (kw_name i, rd aCode i)) (seqZ 0 124)) as Hin
    by (apply list_elem_of_fmap; exists i; split; [done|apply elem_of_seqZ; lia]).
  rewrite tables_agree in Hin. apply list_elem_of_fmap in Hin as (e & [= E1 E2] & He).
  pose proof (find_none _ _ Hf e (proj1 (list_elem_of_In _ _) He)) as Hn. cbn beta in Hn.
  apply bool_decide_eq_false in Hn. apply Hn. by rewrite <- E1.
Qed.

Lemma keywords_found :
  forallb (fun e : string * Z => bool_decide (folded_code (fold_case (txt e.1)) = Some e.2) &&
    bool_decide (find (fun e' : string * Z => bool_decide (fold_case (txt e'.1) = fold_case (txt e.1))) keyword_table = Some e)) keyword_table = true.
Proof. vm_compute. reflexivity. Qed.

Lemma keywordCode_lookup z : cstring z -> keywordCode z (Z.of_nat (length z)) = Some (keyword_ref z).
Proof.
  intros Hz.
  rewrite code_folded by done. unfold keyword_ref. set (zl := fold_case z).
  assert (Forall (is_u 8) zl) as Hb.
  { apply Forall_map. eapply Forall_impl; [exact Hz|]. intros c [Hc _]. by apply tolower_byte. }
  clearbody zl. destruct (find _ _) as [e|] eqn:E.
  - apply find_some in E as [He E]. apply bool_decide_eq_true in E. subst zl.
    pose proof keywords_found as H. rewrite forallb_forall in H. specialize (H e He).
    apply andb_true_iff in H as [H _]. by apply bool_decide_eq_true in H.
  - pose proof (find_none_table _ E) as Hn. unfold folded_code. destruct (Z.ltb_spec (Z.of_nat (length zl)) 2); [done|].
    rewrite folded_miss by (done || apply aHash_range). apply chains_end. by apply folded_hash_range.
Qed.

(** The generated perfect-hash function is the plain table lookup: on every word, in any
    mixture of cases, [keywordCode] terminates and returns the code of the keyword the word spells, and TK_ID
    for every other word. *)
Theorem keywordCode_correct z (Hz : cstring z) :
  keywordCode z (Z.of_nat (length z)) = Some (keyword_ref z).
Proof. by apply keywordCode_lookup. Qed.

Lemma keywordCode_correct_witness : keywordCode (txt "SeLeCt") 6 = Some TK_SELECT /\ keywordCode (txt "Selec") 5 = Some TK_ID.
Proof.
  split.
  - apply (keywordCode_correct (txt "SeLeCt")). repeat constructor; discriminate.
  - apply (keywordCode_correct (txt "Selec")). repeat constructor; discriminate.
Defined.
