(* ===== verification/Tokenize.v ===== *)
(** The SQL tokenizer of tokenize.c and the loop of [sqlite3RunParser] that feeds the
    parser. A zero-terminated text is the list of the bytes before the terminator; a read at the
    terminator or past it gives 0. *)
From Stdlib Require Import String.
From S2P Require Import Prelude Text Keywords.
Local Open Scope Z_scope.
Local Open Scope c_scope.

(** [for(; f(z[i]); i++){}] from the position where [z] starts; [f] is false at the
    terminator. The number of steps. *)
Fixpoint scan (f : Z -> bool) (z : list Z) : Z :=
  match z with
  | [] => 0
  | c :: z => if f c then 1 + scan f z else 0
  end.

Definition from (z : list Z) (i : Z) : list Z := drop (Z.to_nat i) z.

(** [for(i=3, c=z[2]; (c!='*' || z[i]!='/') && (c=z[i])!=0; i++){}] *)
Fixpoint comment_loop (c : Z) (z : list Z) (i : Z) : Z * Z :=
  match z with
  | [] => (i, 0)
  | d :: z =>
      if (c =? 42) && (d =? 47) then (i, c)
      else if d =? 0 then (i, 0)
      else comment_loop d z (i + 1)
  end.

(** [for(i=1; (c=z[i])!=0; i++){ if( c==delim ){ if( z[i+1]==delim ) i++; else break; } }] *)
Fixpoint quoted_loop (delim : Z) (z : list Z) (i : Z) : Z * Z :=
  match z with
  | [] => (i, 0)
  | c :: z =>
      if c =? 0 then (i, 0)
      else if c =? delim then
        match z with
        | d :: z => if d =? delim then quoted_loop delim z (i + 2) else (i, c)
        | [] => (i, c)
        end
      else quoted_loop delim z (i + 1)
  end.

(** [for(i=1, c=z[0]; c!=']' && (c=z[i])!=0; i++){}] *)
Fixpoint bracket_loop (c : Z) (z : list Z) (i : Z) : Z * Z :=
  if c =? 93 then (i, c)
  else
    match z with
    | [] => (i, 0)
    | d :: z => if d =? 0 then (i, 0) else bracket_loop d z (i + 1)
    end.

(** The loop over the name of a variable: the position, the number of identifier characters and
    whether a parenthesized suffix was not closed. *)
Fixpoint variable_loop (z : list Z) (i n : Z) : Z * Z * bool :=
  match z with
  | [] => (i, n, false)
  | c :: z =>
      if c =? 0 then (i, n, false)
      else if IdChar c then variable_loop z (i + 1) (n + 1)
      else if (c =? 40) && (0 <? n) then
        let k := scan (fun c => negb (c =? 0) && negb (sqlite3Isspace c) && negb (c =? 41)) z in
        if rd z k =? 41 then (i + 1 + k + 1, n, false) else (i + 1 + k, n, true)
      else if (c =? 58) && (hd0 z =? 58) then
        match z with _ :: z => variable_loop z (i + 2) n | [] => (i, n, false) end
      else (i, n, false)
  end.

(** The case of the digits, and of a point before a digit. *)
Definition number_token (z : list Z) : Z * Z :=
  let i := scan sqlite3Isdigit z in
  let '(i, t) :=
    if rd z i =? 46
    then (i + 1 + scan sqlite3Isdigit (from z (i + 1)), TK_FLOAT) else (i, TK_INTEGER) in
  let '(i, t) :=
    if ((rd z i =? 101) || (rd z i =? 69)) &&
       (sqlite3Isdigit (rd z (i + 1)) ||
        ((rd z (i + 1) =? 43) || (rd z (i + 1) =? 45)) && sqlite3Isdigit (rd z (i + 2)))
    then (i + 2 + scan sqlite3Isdigit (from z (i + 2)), TK_FLOAT) else (i, t) in
  let k := scan IdChar (from z i) in
  (i + k, if 0 <? k then TK_ILLEGAL else t).

(** The [default] case ([keywordCode] always has a result). *)
Definition word_token (z : list Z) : Z * Z :=
  if negb (IdChar (hd0 z)) then (1, TK_ILLEGAL)
  else
    let i := 1 + scan IdChar (from z 1) in
    (i, default TK_ILLEGAL (keywordCode (take (Z.to_nat i) z) i)).

Definition blob_token (z : list Z) : Z * Z :=
  let i := 2 + scan sqlite3Isxdigit (from z 2) in
  let '(i, t) :=
    if negb (rd z i =? 39) || negb (Z.rem i 2 =? 0)
    then (i + scan (fun c => negb (c =? 0) && negb (c =? 39)) (from z i), TK_ILLEGAL)
    else (i, TK_BLOB) in
  (if negb (rd z i =? 0) then i + 1 else i, t).

(** The length of the token at the start of [z] and its type. *)
Definition sqlite3GetToken (z : list Z) : Z * Z :=
  let c0 := hd0 z in
  let c1 := rd z 1 in
  if existsb (Z.eqb c0) [32; 9; 10; 12; 13] then (1 + scan sqlite3Isspace (from z 1), TK_SPACE)
  else if c0 =? 45 then
    if c1 =? 45 then (2 + scan (fun c => negb (c =? 0) && negb (c =? 10)) (from z 2), TK_SPACE)
    else (1, TK_MINUS)
  else if c0 =? 40 then (1, TK_LP)
  else if c0 =? 41 then (1, TK_RP)
  else if c0 =? 59 then (1, TK_SEMI)
  else if c0 =? 43 then (1, TK_PLUS)
  else if c0 =? 42 then (1, TK_STAR)
  else if c0 =? 47 then
    if negb (c1 =? 42) || (rd z 2 =? 0) then (1, TK_SLASH)
    else
      let '(i, c) := comment_loop (rd z 2) (from z 3) 3 in
      (if negb (c =? 0) then i + 1 else i, TK_SPACE)
  else if c0 =? 37 then (1, TK_REM)
  else if c0 =? 61 then (1 + Z.b2z (c1 =? 61), TK_EQ)
  else if c0 =? 60 then
    if c1 =? 61 then (2, TK_LE)
    else if c1 =? 62 then (2, TK_NE)
    else if c1 =? 60 then (2, TK_LSHIFT)
    else (1, TK_LT)
  else if c0 =? 62 then
    if c1 =? 61 then (2, TK_GE)
    else if c1 =? 62 then (2, TK_RSHIFT)
    else (1, TK_GT)
  else if c0 =? 33 then
    if negb (c1 =? 61) then (2, TK_ILLEGAL) else (2, TK_NE)
  else if c0 =? 124 then
    if negb (c1 =? 124) then (1, TK_BITOR) else (2, TK_CONCAT)
  else if c0 =? 44 then (1, TK_COMMA)
  else if c0 =? 38 then (1, TK_BITAND)
  else if c0 =? 126 then (1, TK_BITNOT)
  else if existsb (Z.eqb c0) [96; 39; 34] then
    let '(i, c) := quoted_loop c0 (from z 1) 1 in
    if c =? 39 then (i + 1, TK_STRING)
    else if negb (c =? 0) then (i + 1, TK_ID)
    else (i, TK_ILLEGAL)
  else if c0 =? 46 then
    if negb (sqlite3Isdigit c1) then (1, TK_DOT) else number_token z
  else if existsb (Z.eqb c0) [48; 49; 50; 51; 52; 53; 54; 55; 56; 57] then number_token z
  else if c0 =? 91 then
    let '(i, c) := bracket_loop c0 (from z 1) 1 in
    (i, if c =? 93 then TK_ID else TK_ILLEGAL)
  else if c0 =? 63 then (1 + scan sqlite3Isdigit (from z 1), TK_VARIABLE)
  else if existsb (Z.eqb c0) [36; 64; 35; 58] then
    let '(i, n, bad) := variable_loop (from z 1) 1 0 in
    (i, if (n =? 0) || bad then TK_ILLEGAL else TK_VARIABLE)
  else if (c0 =? 120) || (c0 =? 88) then
    if c1 =? 39 then blob_token z else word_token z
  else word_token z.

(** ** Feeding the parser *)


Section RunParser.
(** The LALR engine: a call with a token code and a token (its offset and length) gives
    the new engine state, the [pParse->rc] its actions left and [db->mallocFailed]. *)
Context {P : Type} (sqlite3Parser : P -> Z -> Z * Z -> P * Z * bool).
(** [db->u1.isInterrupted] when the text before the given offset has been read, and the limit. *)
Context (isInterrupted : Z -> bool) (mxSqlLen : Z).

(** The variables of the loop. *)
Record Feed := {
  pEngine : P; f_rc : Z; f_failed : bool; nErr : Z; f_i : Z; lastTokenParsed : Z;
  zTail : Z; sLastToken : Z * Z }.

(** [zSql[i]]; [None] past the terminator. *)
Definition zSql_at (zSql : list Z) (i : Z) : option Z :=
  if i <=? Z.of_nat (length zSql) then Some (rd zSql i) else None.

(** One turn of the loop: whether to go on. *)
Definition feed_step (zSql : list Z) (f : Feed) : bool * Feed :=
  let '(n, tokenType) := sqlite3GetToken (from zSql (f_i f)) in
  let tok := (f_i f, n) in
  let i := f_i f + n in
  let f := {| pEngine := pEngine f; f_rc := f_rc f; f_failed := f_failed f; nErr := nErr f; f_i := i;
              lastTokenParsed := lastTokenParsed f; zTail := zTail f; sLastToken := tok |} in
  let fail rc ne := (false, {| pEngine := pEngine f; f_rc := rc; f_failed := f_failed f; nErr := ne; f_i := i;
                               lastTokenParsed := lastTokenParsed f; zTail := zTail f; sLastToken := tok |}) in
  if mxSqlLen <? i then fail SQLITE_TOOBIG (nErr f)
  else if tokenType =? TK_SPACE then
    if isInterrupted i then fail SQLITE_INTERRUPT (nErr f) else (true, f)
  else if tokenType =? TK_ILLEGAL then fail (f_rc f) (nErr f + 1)
  else
    let zTail' := if tokenType =? TK_SEMI then i else zTail f in
    let '(e, rc, failed) := sqlite3Parser (pEngine f) tokenType tok in
    (rc =? 0,
     {| pEngine := e; f_rc := rc; f_failed := failed; nErr := nErr f; f_i := i;
        lastTokenParsed := tokenType; zTail := zTail'; sLastToken := tok |}).

(** [while( !db->mallocFailed && zSql[i]!=0 ){ ... }] *)
Fixpoint feed_loop (fuel : nat) (zSql : list Z) (f : Feed) : option Feed :=
  match fuel with
  | O => None
  | S fuel =>
      if f_failed f then Some f
      else
        match zSql_at zSql (f_i f) with
        | None => None
        | Some c =>
            if c =? 0 then Some f
            else let '(go, f) := feed_step zSql f in if go : bool then feed_loop fuel zSql f else Some f
        end
  end.

Definition feed_init (e : P) (failed : bool) : Feed :=
  {| pEngine := e; f_rc := 0; f_failed := failed; nErr := 0; f_i := 0; lastTokenParsed := -1;
     zTail := 0; sLastToken := (0, 0) |}.

(** The end of input: [abort_parse]. *)
Definition feed_end (zSql : list Z) (f : Feed) : option Feed :=
  match zSql_at zSql (f_i f) with
  | None => None
  | Some c =>
      if (c =? 0) && (nErr f =? 0) && (f_rc f =? 0) then
        let '(e, rc, failed, zt) :=
          if negb (lastTokenParsed f =? TK_SEMI)
          then let '(e, rc, fl) := sqlite3Parser (pEngine f) TK_SEMI (sLastToken f) in (e, rc, fl, f_i f)
          else (pEngine f, f_rc f, f_failed f, zTail f) in
        let '(e, rc, failed) := sqlite3Parser e 0 (sLastToken f) in
        Some {| pEngine := e; f_rc := rc; f_failed := failed; nErr := nErr f; f_i := f_i f;
                lastTokenParsed := lastTokenParsed f; zTail := zt; sLastToken := sLastToken f |}
      else Some f
  end.

(** The part of [sqlite3RunParser] between the allocation and the release of the engine. *)
Definition sqlite3RunParser (zSql : list Z) (e : P) : option Feed :=
  match feed_loop (S (length zSql)) zSql (feed_init e false) with
  | Some f => feed_end zSql f
  | None => None
  end.
End RunParser.

(** ** Bounds *)

Lemma scan_bound f z : 0 <= scan f z <= Z.of_nat (length z).
Proof. induction z as [|c z IH]; cbn [scan length]; [lia|]. destruct (f c); lia. Qed.

Lemma rd_pos z i : 0 <= i -> rd z i <> 0 -> i < Z.of_nat (length z).
Proof. intros Hi Hr. destruct (Z.lt_ge_cases i (Z.of_nat (length z))); [done|]. by rewrite rd_beyond in Hr. Qed.

Lemma length_from z i : 0 <= i -> Z.of_nat (length (from z i)) = Z.max 0 (Z.of_nat (length z) - i).
Proof. intros. unfold from. rewrite length_drop. lia. Qed.

(** Scanning from a position inside the text stays inside. *)
Lemma scan_from f z i : 0 <= i <= Z.of_nat (length z) -> 0 <= scan f (from z i) <= Z.of_nat (length z) - i.
Proof. intros. pose proof (scan_bound f (from z i)). rewrite length_from in *; lia. Qed.

Lemma comment_bound c z i :
  let '(j, c') := comment_loop c z i in
  i <= j <= i + Z.of_nat (length z) /\ (c' <> 0 -> j + 1 <= i + Z.of_nat (length z)).
Proof.
  revert c i. induction z as [|d z IH]; intros c i; cbn [comment_loop length]; [split; [lia|done]|].
  destruct (_ && _); [split; lia|]. destruct (d =? 0); [split; [lia|done]|].
  specialize (IH d (i + 1)). destruct (comment_loop d z (i + 1)) as [j c']. split; [lia|]. intros. destruct IH; lia.
Qed.

Lemma quoted_bound delim z i :
  let '(j, c) := quoted_loop delim z i in
  i <= j <= i + Z.of_nat (length z) /\ (c <> 0 -> j + 1 <= i + Z.of_nat (length z)).
Proof.
  revert i. induction z as [z IH] using (induction_ltof1 _ (@length Z)); unfold ltof in IH; intros i.
  destruct z as [|c z]; cbn [quoted_loop length]; [split; [lia|done]|].
  destruct (c =? 0); [split; [lia|done]|]. destruct (c =? delim).
  - destruct z as [|d z]; [cbn; split; lia|]. destruct (d =? delim); [|cbn [length]; split; lia].
    specialize (IH z ltac:(cbn; lia) (i + 2)). destruct (quoted_loop delim z (i + 2)). cbn [length].
    split; [lia|]. intros. destruct IH; lia.
  - specialize (IH z ltac:(cbn; lia) (i + 1)). destruct (quoted_loop delim z (i + 1)).
    split; [lia|]. intros. destruct IH; lia.
Qed.

Lemma bracket_bound z : forall c i, let '(j, _) := bracket_loop c z i in i <= j <= i + Z.of_nat (length z).
Proof.
  induction z as [|d z IH]; intros c i; cbn [bracket_loop length]; (destruct (c =? 93); [lia|]); [lia|].
  destruct (d =? 0); [lia|]. specialize (IH d (i + 1)). destruct (bracket_loop d z (i + 1)). lia.
Qed.

Lemma variable_bound z : forall i n, let '(j, _, _) := variable_loop z i n in i <= j <= i + Z.of_nat (length z).
Proof.
  induction z as [z IH] using (induction_ltof1 _ (@length Z)); unfold ltof in IH; intros i n.
  destruct z as [|c z]; cbn [variable_loop length]; [lia|].
  destruct (c =? 0); [lia|]. destruct (IdChar c).
  { specialize (IH z ltac:(cbn; lia) (i + 1) (n + 1)). destruct (variable_loop _ _ _) as [[? ?] ?]. lia. }
  destruct (_ && _).
  { set (k := scan _ z). assert (0 <= k <= Z.of_nat (length z)) by apply scan_bound.
    destruct (Z.eqb_spec (rd z k) 41) as [E|E]; [|lia].
    pose proof (rd_pos z k ltac:(lia) ltac:(lia)). lia. }
  destruct (_ && _); [|lia]. destruct z as [|d z]; [cbn; lia|]. cbn [length].
  specialize (IH z ltac:(cbn; lia) (i + 2) n). destruct (variable_loop _ _ _) as [[? ?] ?]. lia.
Qed.

Lemma number_bound z : z <> [] -> sqlite3Isdigit (hd0 z) || (hd0 z =? 46) = true ->
  1 <= (number_token z).1 <= Z.of_nat (length z).
Proof.
  intros Hz H0. unfold number_token. set (i := scan sqlite3Isdigit z).
  assert (0 <= i <= Z.of_nat (length z)) as Hi by apply scan_bound.
  assert (i = 0 -> hd0 z = 46) as Hi0.
  { subst i. destruct z as [|c z]; [done|]. cbn [scan hd] in *. destruct (sqlite3Isdigit c).
    - pose proof (scan_bound sqlite3Isdigit z). lia.
    - intros _. by apply Z.eqb_eq in H0. }
  assert (forall k, 0 <= k -> rd z k <> 0 -> k < Z.of_nat (length z)) as Hrd by (intros; by apply rd_pos).
  clearbody i.
  assert (exists j t, (if rd z i =? 46 then (i + 1 + scan sqlite3Isdigit (from z (i + 1)), TK_FLOAT) else (i, TK_INTEGER)) = (j, t) /\
    1 <= j <= Z.of_nat (length z)) as (j & t & -> & Hj).
  { destruct (Z.eqb_spec (rd z i) 46) as [E|E]; eexists _, _; (split; [done|]).
    - specialize (Hrd i ltac:(lia) ltac:(lia)). pose proof (scan_from sqlite3Isdigit z (i + 1) ltac:(lia)). lia.
    - split; [|lia]. destruct (Z.eq_dec i 0) as [->|]; [|lia]. destruct E. specialize (Hi0 eq_refl). by destruct z. }
  match goal with |- context [if ?b then (j + 2 + _, _) else _] => destruct b eqn:E end.
  - assert (j + 1 < Z.of_nat (length z)) as Hj1.
    { apply Hrd; [lia|]. intros E0. rewrite E0 in E. rewrite !andb_true_iff, orb_true_iff in E.
      destruct E as [_ E]. revert E. vm_compute. intuition discriminate. }
    pose proof (scan_from sqlite3Isdigit z (j + 2) ltac:(lia)).
    set (k := scan sqlite3Isdigit (from z (j + 2))) in *.
    pose proof (scan_from IdChar z (j + 2 + k) ltac:(lia)). cbn [fst]. lia.
  - pose proof (scan_from IdChar z j ltac:(lia)). cbn [fst]. lia.
Qed.

Lemma word_bound z : z <> [] -> 1 <= (word_token z).1 <= Z.of_nat (length z).
Proof.
  intros Hz. assert (1 <= Z.of_nat (length z)) by (destruct z; [done|cbn; lia]).
  unfold word_token. destruct (negb _); cbn [fst]; [lia|].
  pose proof (scan_from IdChar z 1 ltac:(lia)). lia.
Qed.

Lemma blob_bound z : rd z 1 <> 0 -> 1 <= (blob_token z).1 <= Z.of_nat (length z).
Proof.
  intros H1. pose proof (rd_pos z 1 ltac:(lia) H1) as Hl. unfold blob_token.
  pose proof (scan_from sqlite3Isxdigit z 2 ltac:(lia)). set (i := 2 + _) in *. assert (2 <= i <= Z.of_nat (length z)) as Hi by lia.
  clearbody i. destruct (_ || _).
  - pose proof (scan_from (fun c => negb (c =? 0) && negb (c =? 39)) z i ltac:(lia)).
    set (j := i + _) in *. destruct (Z.eqb_spec (rd z j) 0) as [E|E]; cbn [negb fst]; [lia|].
    apply rd_pos in E; lia.
  - destruct (Z.eqb_spec (rd z i) 0) as [E|E]; cbn [negb fst]; [lia|]. apply rd_pos in E; lia.
Qed.

(** A token inside the text, or the one exception. *)
Definition fits (z : list Z) (r : Z * Z) : Prop := 1 <= r.1 /\ (r.1 <= Z.of_nat (length z) \/ z = [33]).

Lemma fits_in z n t : 1 <= n <= Z.of_nat (length z) -> fits z (n, t).
Proof. intros. split; cbn [fst]; [lia|left; lia]. Qed.

Lemma fits_if z (b : bool) x y : (b = true -> fits z x) -> (b = false -> fits z y) -> fits z (if b then x else y).
Proof. destruct b; auto. Qed.

Lemma fits_second z k x y : k <> 0 ->
  (2 <= Z.of_nat (length z) -> fits z x) -> fits z y -> fits z (if rd z 1 =? k then x else y).
Proof.
  intros Hk Hx Hy. apply fits_if; [|done]. intros E%Z.eqb_eq. apply Hx.
  pose proof (rd_pos z 1 ltac:(lia) ltac:(lia)). lia.
Qed.

Lemma fits_comment z : fits z (
  if negb (rd z 1 =? 42) || (rd z 2 =? 0) then (1, TK_SLASH)
  else let '(i, c) := comment_loop (rd z 2) (from z 3) 3 in (if negb (c =? 0) then i + 1 else i, TK_SPACE)) \/ z = [].
Proof.
  destruct z as [|c0 z0] eqn:Ez; [by right|left]. rewrite <- Ez. apply fits_if; [intros _; apply fits_in; subst; cbn; lia|].
  intros [_ E%Z.eqb_neq]%orb_false_iff. pose proof (rd_pos z 2 ltac:(lia) E).
  pose proof (comment_bound (rd z 2) (from z 3) 3) as HB. destruct (comment_loop _ _ _) as [i c].
  rewrite length_from in HB by lia. apply fits_in.
  destruct (Z.eqb_spec c 0); cbn [negb]; [lia|]. destruct HB; lia.
Qed.

Lemma fits_quoted z d : z <> [] -> fits z (
  let '(i, c) := quoted_loop d (from z 1) 1 in
  if c =? 39 then (i + 1, TK_STRING) else if negb (c =? 0) then (i + 1, TK_ID) else (i, TK_ILLEGAL)).
Proof.
  intros Hz. assert (1 <= Z.of_nat (length z)) by (destruct z; [done|cbn; lia]).
  pose proof (quoted_bound d (from z 1) 1) as HB. destruct (quoted_loop _ _ _) as [i c].
  rewrite length_from in HB by lia. destruct (Z.eqb_spec c 39); [apply fits_in; destruct HB; lia|].
  destruct (Z.eqb_spec c 0); cbn [negb]; apply fits_in; destruct HB; lia.
Qed.

Lemma fits_bracket z c : z <> [] -> fits z (
  let '(i, c) := bracket_loop c (from z 1) 1 in (i, if c =? 93 then TK_ID else TK_ILLEGAL)).
Proof.
  intros Hz. assert (1 <= Z.of_nat (length z)) by (destruct z; [done|cbn; lia]).
  pose proof (bracket_bound (from z 1) c 1) as HB. destruct (bracket_loop _ _ _) as [i c'].
  rewrite length_from in HB by lia. apply fits_in. lia.
Qed.

Lemma fits_variable z : z <> [] -> fits z (
  let '(i, n, bad) := variable_loop (from z 1) 1 0 in (i, if (n =? 0) || bad then TK_ILLEGAL else TK_VARIABLE)).
Proof.
  intros Hz. assert (1 <= Z.of_nat (length z)) by (destruct z; [done|cbn; lia]).
  pose proof (variable_bound (from z 1) 1 0) as HB. destruct (variable_loop _ _ _) as [[i n] bad].
  rewrite length_from in HB by lia. apply fits_in. lia.
Qed.

Lemma fits_pair z r : 1 <= r.1 <= Z.of_nat (length z) -> fits z r.
Proof. destruct r. apply fits_in. Qed.

Lemma digit_start z : existsb (Z.eqb (hd0 z)) [48; 49; 50; 51; 52; 53; 54; 55; 56; 57] = true -> sqlite3Isdigit (hd0 z) = true.
Proof. intros (d & Hd & ->%Z.eqb_eq)%existsb_exists. cbn in Hd. destruct_or!; subst; done. Qed.

Lemma token_bound z : z <> [] -> fits z (sqlite3GetToken z).
Proof.
  intros Hz. assert (1 <= Z.of_nat (length z)) as Hl by (destruct z; [done|cbn; lia]).
  unfold sqlite3GetToken.
  apply fits_if; intros _; [pose proof (scan_from sqlite3Isspace z 1 ltac:(lia)); apply fits_in; lia|].
  apply fits_if; intros _.
  { apply fits_second; [done| |apply fits_in; lia]. intros H2.
    pose proof (scan_from (fun c => negb (c =? 0) && negb (c =? 10)) z 2 ltac:(lia)). apply fits_in. lia. }
  do 5 (apply fits_if; intros _; [apply fits_in; lia|]).
  apply fits_if; intros _; [by destruct (fits_comment z)|].
  apply fits_if; intros _; [apply fits_in; lia|].
  apply fits_if; intros _.
  { apply fits_in. destruct (Z.eqb_spec (rd z 1) 61) as [E|E]; [|cbn; lia].
    pose proof (rd_pos z 1 ltac:(lia) ltac:(lia)). cbn. lia. }
  apply fits_if; intros _.
  { repeat (apply fits_second; [done|intros ?; apply fits_in; lia|]). apply fits_in; lia. }
  apply fits_if; intros _.
  { repeat (apply fits_second; [done|intros ?; apply fits_in; lia|]). apply fits_in; lia. }
  apply fits_if; intros E0.
  { apply Z.eqb_eq in E0. destruct z as [|c [|d z]]; [done| |].
    - cbn in E0. subst c. split; [by vm_compute|by right].
    - destruct (negb _); apply fits_in; cbn; lia. }
  apply fits_if; intros _.
  { apply fits_if; [intros _; apply fits_in; lia|]. intros E%negb_false_iff%Z.eqb_eq. apply fits_in.
    pose proof (rd_pos z 1 ltac:(lia) ltac:(lia)). lia. }
  do 3 (apply fits_if; intros _; [apply fits_in; lia|]).
  apply fits_if; intros _; [by apply fits_quoted|].
  apply fits_if; intros E46.
  { apply fits_if; [intros _; apply fits_in; lia|]. intros _. apply fits_pair, number_bound; [done|]. by rewrite E46, orb_true_r. }
  apply fits_if; intros Ed.
  { apply fits_pair, number_bound; [done|]. by rewrite digit_start. }
  apply fits_if; intros _; [by apply fits_bracket|].
  apply fits_if; intros _; [pose proof (scan_from sqlite3Isdigit z 1 ltac:(lia)); apply fits_in; lia|].
  apply fits_if; intros _; [by apply fits_variable|].
  apply fits_if; intros _; [|by apply fits_pair, word_bound].
  apply fits_if; intros E%Z.eqb_eq || intros _; [|by apply fits_pair, word_bound].
  apply fits_pair, blob_bound. lia.
Qed.

(** The tokenizer makes progress and stays inside the text: a token of a non-empty text
    has at least one byte, and no more bytes than the text has, with one exception (a text that is a lone
    exclamation mark, see [getToken_overrun]). *)
Theorem getToken_bounds z (Hz : z <> []) :
  1 <= (sqlite3GetToken z).1 /\ ((sqlite3GetToken z).1 <= Z.of_nat (length z) \/ z = [33]).
Proof. by apply token_bound. Qed.

Lemma getToken_bounds_witness : 1 <= (sqlite3GetToken (txt "'it''s' || x")).1 <= 12.
Proof.
  destruct (getToken_bounds (txt "'it''s' || x") ltac:(discriminate)) as [H1 [H2|H2]]; [exact (conj H1 H2)|discriminate H2].
Defined.

(** ** The feed *)

(** The tokens of a text, each with its offset and length. *)
Fixpoint tokens (fuel : nat) (z : list Z) (i : Z) : list (Z * (Z * Z)) :=
  match fuel with
  | O => []
  | S fuel =>
      match from z i with
      | [] => []
      | l => let '(n, t) := sqlite3GetToken l in (t, (i, n)) :: tokens fuel z (i + n)
      end
  end.

Definition all_tokens (z : list Z) : list (Z * (Z * Z)) := tokens (length z) z 0.

(** What the parser is given: the tokens that are not space, a final semicolon unless there is one, and the
    end marker. *)
Definition parser_input (z : list Z) : list (Z * (Z * Z)) :=
  let ts := all_tokens z in
  let sig := filter (fun t => t.1 <> TK_SPACE) ts in
  let lastTok := default (0, 0) (snd <$> list.last ts) in
  sig ++ (if decide (fst <$> list.last sig = Some TK_SEMI) then [] else [(TK_SEMI, lastTok)]) ++ [(0, lastTok)].

Section Feed.
Context {P : Type} (sqlite3Parser : P -> Z -> Z * Z -> P * Z * bool) (mxSqlLen : Z).
Context (quiet : forall e t k, exists e', sqlite3Parser e t k = (e', 0, false)).

Abbreviation step := (fun e (t : Z * (Z * Z)) => (sqlite3Parser e t.1 t.2).1.1).

Lemma quiet_step e t k : sqlite3Parser e t k = (step e (t, k), 0, false).
Proof. destruct (quiet e t k) as [e' E]. cbn [fst snd]. by rewrite E. Qed.

Lemma bool_decide_iff_eqb (o : option Z) : (default (-1) o =? TK_SEMI) = bool_decide (o = Some TK_SEMI).
Proof.
  destruct o as [t|]; cbn [default from_option]; [|by rewrite bool_decide_false].
  case_bool_decide as H; [injection H as ->; apply Z.eqb_refl|]. apply Z.eqb_neq. cbn. intros E. apply H. by rewrite E.
Qed.

Lemma zSql_in z i : 0 <= i <= Z.of_nat (length z) -> zSql_at z i = Some (rd z i).
Proof. intros. unfold zSql_at. by rewrite (proj2 (Z.leb_le _ _)) by lia. Qed.

Definition last_or {A} (d : A) (l : list A) : A := default d (list.last l).

Lemma last_or_cons {A} (d x : A) l : last_or d (x :: l) = last_or x l.
Proof. unfold last_or. rewrite last_cons. by destruct (list.last l). Qed.

Lemma from_cons z i c l : 0 <= i -> from z i = c :: l -> rd z i = c /\ i < Z.of_nat (length z).
Proof.
  intros Hi E. assert (z !! Z.to_nat i = Some c) as Hc.
  { unfold from in E. rewrite <- (Nat.add_0_r (Z.to_nat i)), <- lookup_drop, E. done. }
  split; [by apply rd_lookup|]. apply lookup_lt_Some in Hc. lia.
Qed.

Lemma feed_loop_spec z fuel : forall f,
  cstring z -> Z.of_nat (length z) <= mxSqlLen -> 0 <= f_i f <= Z.of_nat (length z) ->
  (length z - Z.to_nat (f_i f) < fuel)%nat -> f_failed f = false -> f_rc f = 0 ->
  Forall (fun t => t.1 <> TK_ILLEGAL) (tokens (pred fuel) z (f_i f)) ->
  exists f', feed_loop sqlite3Parser (fun _ => false) mxSqlLen fuel z f = Some f' /\
    let sig := filter (fun t => t.1 <> TK_SPACE) (tokens (pred fuel) z (f_i f)) in
    pEngine f' = fold_left step sig (pEngine f) /\ f_rc f' = 0 /\ f_failed f' = false /\ nErr f' = nErr f /\
    f_i f' = Z.of_nat (length z) /\
    lastTokenParsed f' = last_or (lastTokenParsed f) (map fst sig) /\
    sLastToken f' = last_or (sLastToken f) (map snd (tokens (pred fuel) z (f_i f))).
Proof.
  induction fuel as [|fuel IH]; intros f Hz Hmx Hi Hf Hfail Hrc Hleg; [lia|]. cbn [feed_loop pred] in *.
  rewrite Hfail, zSql_in by done. destruct (from z (f_i f)) as [|c l] eqn:El.
  { assert (f_i f = Z.of_nat (length z)) as Ei.
    { apply (f_equal length) in El. unfold from in El. rewrite length_drop in El. cbn in El. lia. }
    rewrite rd_beyond by lia. change (0 =? 0) with true.
    assert (tokens fuel z (f_i f) = []) as -> by (destruct fuel; [done|]; cbn [tokens]; by rewrite El).
    exists f. done. }
  destruct (from_cons _ _ _ _ (proj1 Hi) El) as [Hc Hlt]. rewrite Hc.
  assert (c <> 0) as Hc0.
  { rewrite <- Hc. unfold cstring in Hz. rewrite Forall_forall in Hz.
    apply (Hz (rd z (f_i f))). eapply list_elem_of_lookup_2, lookup_rd. lia. }
  rewrite (proj2 (Z.eqb_neq c 0)) by done. unfold feed_step.
  destruct fuel as [|fuel]; [lia|]. cbn [tokens pred] in *. rewrite El in *.
  pose proof (token_bound (c :: l) ltac:(done)) as HT. destruct (sqlite3GetToken (c :: l)) as [n t] eqn:ET.
  apply Forall_cons in Hleg as [Hleg1 Hleg]. cbn [fst] in Hleg1.
  assert (1 <= n <= Z.of_nat (length z) - f_i f) as Hn.
  { destruct HT as [H1 H2]. cbn [fst] in *. split; [done|].
    assert (Z.of_nat (length (c :: l)) = Z.of_nat (length z) - f_i f) as <- by (rewrite <- El, length_from; lia).
    destruct H2 as [?|[= -> ->]]; [done|]. exfalso. cbn in ET. injection ET as <- <-. done. }
  rewrite (proj2 (Z.ltb_ge _ _)) by lia. rewrite filter_cons. cbn [fst].
  destruct (Z.eqb_spec t TK_SPACE) as [Ets|Ets].
  - rewrite decide_False by (intros X; by apply X).
    destruct (IH {| pEngine := pEngine f; f_rc := f_rc f; f_failed := f_failed f; nErr := nErr f; f_i := f_i f + n;
       lastTokenParsed := lastTokenParsed f; zTail := zTail f; sLastToken := (f_i f, n) |}) as (f' & E & H);
      cbn [f_i f_failed f_rc]; try done; try lia.
    exists f'. split; [done|]. cbn [pEngine nErr lastTokenParsed sLastToken f_i] in H. cbn [map snd]. by rewrite last_or_cons.
  - rewrite decide_True by done. rewrite (proj2 (Z.eqb_neq t TK_ILLEGAL)) by done.
    rewrite quiet_step. change (0 =? 0) with true. cbn [pEngine].
    match goal with |- context [feed_loop _ _ _ _ _ ?g] => destruct (IH g) as (f' & E & H) end;
      cbn [f_i f_failed f_rc]; try done; try lia.
    exists f'. split; [done|]. cbn [pEngine nErr lastTokenParsed sLastToken f_i] in H. cbn [map fst snd fold_left].
    by rewrite !last_or_cons.
Qed.

(** The loop of [sqlite3RunParser] terminates on every text within the length limit, and when every
    token is legal and neither the engine nor an interrupt stops it, the engine receives exactly the tokens that are not space, in
    order and with their positions, then a semicolon unless the last one was a semicolon, then
    the end marker. *)
Theorem runParser_feed z e (Hz : cstring z) (Hmx : Z.of_nat (length z) <= mxSqlLen)
    (Hlegal : Forall (fun t => t.1 <> TK_ILLEGAL) (all_tokens z)) :
  exists f, sqlite3RunParser sqlite3Parser (fun _ => false) mxSqlLen z e = Some f /\
    pEngine f = fold_left step (parser_input z) e /\ f_rc f = 0 /\ nErr f = 0 /\ f_i f = Z.of_nat (length z).
Proof.
  unfold sqlite3RunParser.
  destruct (feed_loop_spec z (S (length z)) (feed_init e false)) as (f & -> & H); try done; try (cbn; lia).
  cbv zeta in H. cbn [pred feed_init pEngine nErr f_i lastTokenParsed sLastToken] in H. fold (all_tokens z) in H.
  destruct H as (He & Hrc & Hfl & Hne & Hi & Hl & Ht).
  unfold feed_end. rewrite Hi, zSql_in, rd_beyond, Hne, Hrc by lia. change ((0 =? 0) && (0 =? 0) && (0 =? 0)) with true. cbv iota.
  unfold parser_input. set (sig := filter _ (all_tokens z)) in *.
  assert (sLastToken f = default (0, 0) (snd <$> list.last (all_tokens z))) as Ht'.
  { rewrite Ht. unfold last_or. by rewrite fmap_last. }
  assert (lastTokenParsed f = default (-1) (fst <$> list.last sig)) as Hl'.
  { rewrite Hl. unfold last_or. by rewrite fmap_last. }
  rewrite <- Ht', fold_left_app, fold_left_app, <- He.
  assert (negb (lastTokenParsed f =? TK_SEMI) = negb (bool_decide (fst <$> list.last sig = Some TK_SEMI))) as ->.
  { f_equal. rewrite Hl'. apply bool_decide_iff_eqb. }
  case_bool_decide as HD; [rewrite decide_True by done|rewrite decide_False by done]; cbn [negb].
  - rewrite quiet_step. eexists. split; [done|]. by cbn.
  - rewrite quiet_step, quiet_step. eexists. split; [done|]. by cbn.
Qed.
(** The last token of a text is a lone exclamation mark, and all before it are legal. *)
Definition ends_in_mark (z : list Z) (ts : list (Z * (Z * Z))) : Prop :=
  exists pre, ts = pre ++ [(TK_ILLEGAL, (Z.of_nat (length z) - 1, 2))] /\ Forall (fun t => t.1 <> TK_ILLEGAL) pre.

Lemma feed_end_in z f : 0 <= f_i f <= Z.of_nat (length z) -> feed_end sqlite3Parser z f <> None.
Proof.
  intros Hi. unfold feed_end. rewrite zSql_in by done. destruct (_ && _ && _); [|done].
  destruct (negb _); repeat (destruct (sqlite3Parser _ _ _) as [[? ?] ?]); done.
Qed.

Lemma ends_cons z t ts : t.1 <> TK_ILLEGAL -> ends_in_mark z (t :: ts) <-> ends_in_mark z ts.
Proof.
  intros Ht. split; intros (pre & E & H).
  - destruct pre as [|t' pre]; [injection E as -> _; done|]. injection E as -> ->. apply Forall_cons in H as [_ H]. by exists pre.
  - exists (t :: pre). rewrite E. split; [done|]. by constructor.
Qed.
Lemma ends_illegal z ts k : ends_in_mark z ((TK_ILLEGAL, k) :: ts) <-> ts = [] /\ k = (Z.of_nat (length z) - 1, 2).
Proof.
  split; [intros (pre & E & H)|intros [-> ->]; by exists []]. destruct pre as [|t pre]; [by injection E as -> ->|].
  injection E as <- _. by apply Forall_cons in H as [? _].
Qed.

Lemma feed_overrun z fuel : forall f,
  cstring z -> Z.of_nat (length z) <= mxSqlLen -> 0 <= f_i f <= Z.of_nat (length z) ->
  (length z - Z.to_nat (f_i f) < fuel)%nat -> f_failed f = false ->
  match feed_loop sqlite3Parser (fun _ => false) mxSqlLen fuel z f with Some f => feed_end sqlite3Parser z f | None => None end = None <->
  ends_in_mark z (tokens (pred fuel) z (f_i f)).
Proof.
  induction fuel as [|fuel IH]; intros f Hz Hmx Hi Hf Hfail; [lia|]. cbn [feed_loop pred] in *.
  rewrite Hfail, zSql_in by done. destruct (from z (f_i f)) as [|c l] eqn:El.
  { assert (f_i f = Z.of_nat (length z)) as Ei.
    { apply (f_equal length) in El. unfold from in El. rewrite length_drop in El. cbn in El. lia. }
    rewrite rd_beyond by lia. change (0 =? 0) with true.
    assert (tokens fuel z (f_i f) = []) as -> by (destruct fuel; [done|]; cbn [tokens]; by rewrite El).
    split; [intros E; by destruct (feed_end_in z f Hi)|]. intros (pre & E & _). by destruct pre. }
  destruct (from_cons _ _ _ _ (proj1 Hi) El) as [Hc Hlt]. rewrite Hc.
  assert (c <> 0) as Hc0.
  { rewrite <- Hc. unfold cstring in Hz. rewrite Forall_forall in Hz.
    apply (Hz (rd z (f_i f))). eapply list_elem_of_lookup_2, lookup_rd. lia. }
  rewrite (proj2 (Z.eqb_neq c 0)) by done. unfold feed_step. destruct fuel as [|fuel]; [lia|]. cbn [tokens pred] in *. rewrite El in *.
  assert (Z.of_nat (length (c :: l)) = Z.of_nat (length z) - f_i f) as Hlen by (rewrite <- El, length_from; lia).
  pose proof (token_bound (c :: l) ltac:(done)) as HT. destruct (sqlite3GetToken (c :: l)) as [n t] eqn:ET. cbn [fst snd] in *.
  destruct (Z.eqb_spec t TK_ILLEGAL) as [->|Ht].
  - (* the loop stops at this token *)
    assert (forall g, f_i g = f_i f + n -> feed_end sqlite3Parser z g = None <-> Z.of_nat (length z) < f_i f + n) as Hend.
    { intros g Eg. split; [|intros H; unfold feed_end, zSql_at; by rewrite Eg, (proj2 (Z.leb_gt _ _))].
      intros E. destruct (decide (Z.of_nat (length z) < f_i f + n)) as [|Hge]; [done|]. destruct HT as [Hn1 _]. cbn [fst] in Hn1. destruct (feed_end_in z g); [lia|done]. }
    rewrite ends_illegal. change (TK_ILLEGAL =? TK_SPACE) with false. cbv iota.
    assert (Z.of_nat (length z) < f_i f + n <-> tokens fuel z (f_i f + n) = [] /\ (f_i f, n) = (Z.of_nat (length z) - 1, 2)) as <-.
    { destruct HT as [Hn1 HT]. cbn [fst] in HT, Hn1. split.
      - intros Hn. destruct HT as [|[= -> ->]]; [lia|]. cbn in ET. injection ET as <-. cbn in Hlen.
        split; [|f_equal; lia]. destruct fuel; [done|]. cbn [tokens]. unfold from. rewrite drop_ge by lia. done.
      - intros [_ [= E1 ->]]. lia. }
    cbn [nErr f_rc f_i pEngine f_failed lastTokenParsed zTail].
    destruct (mxSqlLen <? f_i f + n); by apply Hend.
  - rewrite ends_cons by done.
    assert (1 <= n <= Z.of_nat (length z) - f_i f) as Hn.
    { destruct HT as [H1 H2]. cbn [fst] in H1, H2. split; [done|]. destruct H2 as [?|[= -> ->]]; [lia|]. exfalso. cbn in ET. by injection ET as <- <-. }
    rewrite (proj2 (Z.ltb_ge _ _)) by lia. destruct (Z.eqb_spec t TK_SPACE) as [Ets|Ets].
    + rewrite IH; cbn [f_i f_failed]; try done; lia.
    + rewrite quiet_step. change (0 =? 0) with true. rewrite IH; cbn [f_i f_failed]; try done; lia.
Qed.

(** C39. The tokenizer can run past the end of the text. For an engine that accepts every token and a text within the length limit,
    [sqlite3RunParser] reads the byte behind the terminator exactly when the last token of the text is a lone exclamation mark and all tokens before it are
    legal: the token is then one byte longer than the text has left. *)
Theorem getToken_overrun z e (Hz : cstring z) (Hmx : Z.of_nat (length z) <= mxSqlLen) :
  sqlite3RunParser sqlite3Parser (fun _ => false) mxSqlLen z e = None <-> ends_in_mark z (all_tokens z).
Proof. unfold sqlite3RunParser. apply (feed_overrun z (S (length z)) (feed_init e false)); try done; cbn; lia. Qed.
End Feed.

(** An engine that only records what it is given. *)
Definition recorder (e : list Z) (t : Z) (k : Z * Z) : list Z * Z * bool := (e ++ [t], 0, false).

Lemma runParser_feed_witness :
  exists f, sqlite3RunParser recorder (fun _ => false) 1000 (txt "select 1 /* x */ ; ") [] = Some f /\
    pEngine f = [TK_SELECT; TK_INTEGER; TK_SEMI; 0].
Proof.
  destruct (runParser_feed recorder 1000 ltac:(intros; eexists; reflexivity) (txt "select 1 /* x */ ; ") [])
    as (f & E & Hf & _).
  - repeat constructor; discriminate.
  - vm_compute. discriminate.
  - vm_compute. repeat constructor; discriminate.
  - exists f. split; [exact E|]. rewrite Hf. vm_compute. reflexivity.
Defined.

Lemma getToken_overrun_witness : sqlite3RunParser recorder (fun _ => false) 1000 (txt "select 1 !") [] = None.
Proof.
  apply (getToken_overrun recorder 1000 ltac:(intros; eexists; reflexivity) (txt "select 1 !") []).
  - repeat constructor; discriminate.
  - vm_compute. discriminate.
  - exists [(TK_SELECT, (0, 6)); (TK_SPACE, (6, 1)); (TK_INTEGER, (7, 1)); (TK_SPACE, (8, 1))]. split; [vm_compute; reflexivity|]. repeat constructor; discriminate.
Defined.
