(* ===== verification/TokenSpec.v ===== *)
(** What the tokens of SQL look like, and that the tokenizer of Tokenize.v inverts every
    well-separated spelling of a sequence of them. *)
From Stdlib Require Import String.
From S2P Require Import Prelude Text Keywords Tokenize.
Local Open Scope Z_scope.
Local Open Scope c_scope.

(** The lexical elements, with what varies in their spelling. *)
Inductive Lexeme :=
| LSpace (w : list Z)
| LLine (w : list Z)                      (** [--] comment *)
| LBlock (w : list Z)                     (** [/* */] comment *)
| LPunct (k : nat)                        (** entry of [puncts] *)
| LString (s : list Z)                    (** string literal of the text [s] *)
| LQuoted (q : Z) (s : list Z)            (** identifier [s] in double quotes or backticks *)
| LBracket (s : list Z)                   (** identifier in square brackets *)
| LWord (w : list Z)                      (** keyword or identifier *)
| LNumber (ip : list Z) (fp : option (list Z)) (ex : option (Z * list Z * list Z))
| LBlob (x : Z) (hex : list Z)
| LParam (ds : list Z)                    (** [?] and digits *)
| LVariable (c : Z) (w : list Z).

(** Operators and punctuation: spelling, token code, and the characters that would
    make a longer token. *)
Definition puncts : list (list Z * Z * list Z) :=
  [(txt "-", TK_MINUS, txt "-"); (txt "(", TK_LP, []); (txt ")", TK_RP, []); (txt ";", TK_SEMI, []);
   (txt "+", TK_PLUS, []); (txt "*", TK_STAR, []); (txt "/", TK_SLASH, txt "*"); (txt "%", TK_REM, []);
   (txt "=", TK_EQ, txt "="); (txt "==", TK_EQ, []); (txt "<", TK_LT, txt "=><"); (txt "<=", TK_LE, []);
   (txt "<>", TK_NE, []); (txt "<<", TK_LSHIFT, []); (txt ">", TK_GT, txt "=>"); (txt ">=", TK_GE, []);
   (txt ">>", TK_RSHIFT, []); (txt "!=", TK_NE, []); (txt "|", TK_BITOR, txt "|"); (txt "||", TK_CONCAT, []);
   (txt ",", TK_COMMA, []); (txt "&", TK_BITAND, []); (txt "~", TK_BITNOT, []); (txt ".", TK_DOT, txt "0123456789")].

Definition punct (k : nat) : list Z * Z * list Z := nth k puncts ([], 0, []).

(** The exponent: the letter, the sign and the digits. *)
Definition spell_exp (ex : option (Z * list Z * list Z)) : list Z :=
  match ex with Some (e, sgn, ds) => e :: sgn ++ ds | None => [] end.

Definition spell (l : Lexeme) : list Z :=
  match l with
  | LSpace w => w
  | LLine w => txt "--" ++ w
  | LBlock w => txt "/*" ++ w ++ txt "*/"
  | LPunct k => (punct k).1.1
  | LString s => 39 :: double_quotes 39 s ++ [39]
  | LQuoted q s => q :: double_quotes q s ++ [q]
  | LBracket s => 91 :: s ++ [93]
  | LWord w => w
  | LNumber ip fp ex => ip ++ (match fp with Some fp => 46 :: fp | None => [] end) ++ spell_exp ex
  | LBlob x hex => x :: 39 :: hex ++ [39]
  | LParam ds => 63 :: ds
  | LVariable c w => c :: w
  end.

Definition lex_type (l : Lexeme) : Z :=
  match l with
  | LSpace _ | LLine _ | LBlock _ => TK_SPACE
  | LPunct k => (punct k).1.2
  | LString _ => TK_STRING
  | LQuoted _ _ | LBracket _ => TK_ID
  | LWord w => keyword_ref w
  | LNumber _ None None => TK_INTEGER
  | LNumber _ _ _ => TK_FLOAT
  | LBlob _ _ => TK_BLOB
  | LParam _ | LVariable _ _ => TK_VARIABLE
  end.

Definition all (f : Z -> bool) (w : list Z) : Prop := Forall (fun c => f c = true) w.

(** No [*/] inside. *)
Fixpoint no_close (w : list Z) : bool :=
  match w with
  | [] => true
  | c :: w => negb ((c =? 42) && (hd0 w =? 47)) && no_close w
  end.

Definition lex_ok (l : Lexeme) : Prop :=
  match l with
  | LSpace w => w <> [] /\ all sqlite3Isspace w /\ hd0 w <> 11
  | LLine w => Forall (fun c => c <> 0 /\ c <> 10) w
  | LBlock w => Forall (fun c => c <> 0) w /\ no_close w = true
  | LPunct k => (k < length puncts)%nat
  | LString s => Forall (fun c => c <> 0) s
  | LQuoted q s => (q = 34 \/ q = 96) /\ Forall (fun c => c <> 0) s
  | LBracket s => Forall (fun c => c <> 0 /\ c <> 93) s
  | LWord w => w <> [] /\ cstring w /\ all IdChar w /\ sqlite3Isdigit (hd0 w) = false /\ hd0 w <> 36
  | LNumber ip fp ex =>
      all sqlite3Isdigit ip /\ all sqlite3Isdigit (default [] fp) /\ (ip <> [] \/ default [] fp <> []) /\
      match ex with
      | Some (e, sgn, ds) => (e = 101 \/ e = 69) /\ (sgn = [] \/ sgn = [43] \/ sgn = [45]) /\ all sqlite3Isdigit ds /\ ds <> []
      | None => True
      end
  | LBlob x hex => (x = 120 \/ x = 88) /\ all sqlite3Isxdigit hex /\ Nat.even (length hex) = true
  | LParam ds => all sqlite3Isdigit ds
  | LVariable c w => In c [36; 64; 35; 58] /\ w <> [] /\ all IdChar w
  end.

(** Whether a token ends where the text [t] begins. *)
Definition ends_before (l : Lexeme) (t : list Z) : Prop :=
  match l with
  | LSpace _ => sqlite3Isspace (hd0 t) = false
  | LLine _ => hd0 t = 10 \/ t = []
  | LPunct k => hd0 t ∉ (punct k).2
  | LString _ => hd0 t <> 39
  | LQuoted q _ => hd0 t <> q
  | LWord w => IdChar (hd0 t) = false /\ (w = [120] \/ w = [88] -> hd0 t <> 39)
  | LNumber _ fp ex => IdChar (hd0 t) = false /\ (fp = None -> ex = None -> hd0 t <> 46)
  | LParam _ => sqlite3Isdigit (hd0 t) = false
  | LVariable _ _ => IdChar (hd0 t) = false /\ hd0 t <> 40 /\ hd0 t <> 58
  | LBlock _ | LBracket _ | LBlob _ _ => True
  end.

(** A sequence whose members are pairwise separated. *)
Fixpoint separated (ls : list Lexeme) : Prop :=
  match ls with
  | [] => True
  | l :: ls => ends_before l (concat (map spell ls)) /\ separated ls
  end.

(** The token list with positions. *)
Fixpoint lexed (i : Z) (ls : list Lexeme) : list (Z * (Z * Z)) :=
  match ls with
  | [] => []
  | l :: ls => let n := Z.of_nat (length (spell l)) in (lex_type l, (i, n)) :: lexed (i + n) ls
  end.

(** ** One token *)

Lemma scan_all f w t : all f w -> f (hd0 t) = false -> scan f (w ++ t) = Z.of_nat (length w).
Proof.
  intros Hw Ht. induction Hw as [|c w Hc Hw IH]; cbn [app scan length].
  - destruct t as [|c t]; [done|]. cbn [hd] in Ht. cbn [scan]; by rewrite Ht.
  - rewrite Hc, IH. lia.
Qed.

Lemma from_app p q i : i = Z.of_nat (length p) -> from (p ++ q) i = q.
Proof. intros ->. unfold from. by rewrite Nat2Z.id, drop_app_length. Qed.

Lemma rd_from z i : 0 <= i -> rd z i = hd0 (from z i).
Proof.
  intros Hi. unfold rd, from. generalize (Z.to_nat i) as k. clear i Hi.
  induction z as [|c z IH]; intros [|k]; cbn; try done.
Qed.

Lemma rd_app_hd p q i : i = Z.of_nat (length p) -> rd (p ++ q) i = hd0 q.
Proof. intros Hi. rewrite rd_from by lia. by rewrite from_app. Qed.

(** The token functions return [tok l]. *)
Definition tok (l : Lexeme) : Z * Z := (Z.of_nat (length (spell l)), lex_type l).

(** Decides the tests between constants. *)
Ltac ground_eqb :=
  cbn [existsb]; repeat match goal with
  | |- context [?a =? ?b] =>
      let r := eval vm_compute in (a =? b) in
      match r with true => change (a =? b) with true | false => change (a =? b) with false end
  end; cbn [orb]; cbv iota.

(** A character of some class is a byte. *)
Lemma ctype_byte m c : rd sqlite3CtypeMap c .& m <> 0 -> is_u 8 c.
Proof.
  intros H. destruct (Z.lt_ge_cases c 0).
  { exfalso. apply H. unfold rd. replace (Z.to_nat c) with O by lia. done. }
  destruct (Z.lt_ge_cases c 256); [unfold is_u; change (2 ^ 8) with 256; lia|].
  exfalso. apply H. rewrite rd_beyond; [done|]. change (Z.of_nat (length sqlite3CtypeMap)) with 256. lia.
Qed.

(** What a class says of a character, by checking the 256 bytes. *)
Lemma class_check m (P : Z -> bool) c :
  forallb (fun c => implb (negb (rd sqlite3CtypeMap c .& m =? 0)) (P c)) (seqZ 0 256) = true ->
  negb (rd sqlite3CtypeMap c .& m =? 0) = true -> P c = true.
Proof.
  intros HP Hc. assert (is_u 8 c) as Hb by (apply (ctype_byte m); by apply Z.eqb_neq, negb_true_iff).
  pose proof (byte_forall _ HP c Hb) as H. cbn beta in H. by rewrite Hc in H.
Qed.

Lemma tok_space w t : lex_ok (LSpace w) -> ends_before (LSpace w) t ->
  sqlite3GetToken (spell (LSpace w) ++ t) = tok (LSpace w).
Proof.
  intros (Hne & Hw & H11) Ht. destruct w as [|c w]; [done|]. apply Forall_cons in Hw as [Hc Hw]. cbn [hd] in H11.
  unfold sqlite3GetToken. cbn [spell app hd].
  assert (existsb (Z.eqb c) [32; 9; 10; 12; 13] = true) as ->.
  { pose proof (class_check 1 (fun c => (c =? 11) || existsb (Z.eqb c) [32; 9; 10; 12; 13]) c ltac:(vm_compute; reflexivity) Hc) as H.
    cbn beta in H. by rewrite (proj2 (Z.eqb_neq c 11)) in H. }
  change (from (c :: w ++ t) 1) with (w ++ t). rewrite scan_all by done. unfold tok. cbn [spell length lex_type]. f_equal. lia.
Qed.

Lemma tok_line w t : lex_ok (LLine w) -> ends_before (LLine w) t ->
  sqlite3GetToken (spell (LLine w) ++ t) = tok (LLine w).
Proof.
  intros Hw Ht. cbn [lex_ok ends_before] in *. change (spell (LLine w) ++ t) with (45 :: 45 :: w ++ t).
  unfold sqlite3GetToken. cbn [hd]. change (existsb (Z.eqb 45) [32; 9; 10; 12; 13]) with false.
  change (rd (45 :: 45 :: w ++ t) 1) with 45. change (45 =? 45) with true. cbv iota.
  change (from (45 :: 45 :: w ++ t) 2) with (w ++ t). rewrite scan_all.
  - unfold tok. cbn. f_equal. lia.
  - eapply Forall_impl; [exact Hw|]. intros c [H0 H1]. cbn beta. by rewrite !(proj2 (Z.eqb_neq _ _)).
  - by destruct Ht as [->| ->].
Qed.

Lemma comment_spec w t : forall c i, Forall (fun c => c <> 0) w -> no_close (c :: w) = true ->
  comment_loop c (w ++ 42 :: 47 :: t) i = (i + Z.of_nat (length w) + 1, 42).
Proof.
  induction w as [|d w IH]; intros c i Hw Hn.
  - cbn. rewrite andb_false_r. f_equal. lia.
  - apply Forall_cons in Hw as [Hd Hw]. cbn [no_close hd] in Hn. apply andb_true_iff in Hn as [Hn1 Hn2].
    cbn [app comment_loop]. apply negb_true_iff in Hn1. rewrite Hn1, (proj2 (Z.eqb_neq d 0)) by done.
    rewrite IH by done. f_equal. cbn [length]. lia.
Qed.

Lemma tok_block w t : lex_ok (LBlock w) -> sqlite3GetToken (spell (LBlock w) ++ t) = tok (LBlock w).
Proof.
  intros [Hw Hn]. cbn [spell]. rewrite <- !app_assoc. change (txt "/*") with [47; 42]. change (txt "*/") with [42; 47].
  cbn [app]. unfold sqlite3GetToken. cbn [hd].
  change (rd (47 :: 42 :: w ++ 42 :: 47 :: t) 1) with 42.
  rewrite (rd_from _ 2) by lia. change (from (47 :: 42 :: w ++ 42 :: 47 :: t) 2) with (w ++ 42 :: 47 :: t).
  assert (from (47 :: 42 :: w ++ 42 :: 47 :: t) 3 = tl (w ++ 42 :: 47 :: t)) as -> by by destruct w.
  ground_eqb. cbn [negb orb].
  unfold tok. cbn [spell lex_type]. rewrite !length_app. change (length (txt "/*")) with 2%nat. change (length (txt "*/")) with 2%nat.
  destruct w as [|c w].
  - cbn. done.
  - apply Forall_cons in Hw as [Hc Hw]. cbn [app hd tl]. rewrite (proj2 (Z.eqb_neq c 0)) by done.
    rewrite comment_spec by done. change (negb (42 =? 0)) with true. cbv iota. cbn [length]. f_equal. lia.
Qed.

Lemma digit_cases c : sqlite3Isdigit c = true <-> 48 <= c <= 57.
Proof.
  split.
  - intros H. pose proof (class_check 4 (fun c => (48 <=? c) && (c <=? 57)) c ltac:(vm_compute; reflexivity) H) as H'.
    cbn beta in H'. lia.
  - intros H. assert (c = 48 \/ c = 49 \/ c = 50 \/ c = 51 \/ c = 52 \/ c = 53 \/ c = 54 \/ c = 55 \/ c = 56 \/ c = 57) as Hin by lia.
    destruct_or!; subst; done.
Qed.

Lemma rd_second c t : rd (c :: t) 1 = hd0 t.
Proof. by destruct t. Qed.

Lemma not_digit t : hd0 t ∉ [48; 49; 50; 51; 52; 53; 54; 55; 56; 57] -> sqlite3Isdigit (hd0 t) = false.
Proof.
  intros H. apply not_true_is_false. rewrite digit_cases. intros Hd. apply H.
  rewrite !elem_of_cons. lia.
Qed.

Lemma tok_punct k t : lex_ok (LPunct k) -> ends_before (LPunct k) t ->
  sqlite3GetToken (spell (LPunct k) ++ t) = tok (LPunct k).
Proof.
  cbn [lex_ok ends_before]. unfold tok. cbn [spell lex_type]. intros Hk Ht.
  change (length puncts) with 24%nat in Hk.
  do 24 (destruct k as [|k]; [solve [
    match goal with |- context [punct ?k] =>
      let r := eval vm_compute in (punct k) in change (punct k) with r in * end;
    cbn [fst snd app length] in *; unfold sqlite3GetToken; rewrite rd_second; cbn [hd] in *; ground_eqb;
    rewrite ?not_digit by done;
    repeat match goal with
    | |- context [hd0 t =? ?c] => destruct (Z.eqb_spec (hd0 t) c) as [E|_]; [exfalso; apply Ht; rewrite E; set_solver|]
    end; reflexivity]|]).
  lia.
Qed.

Lemma quoted_spec d s t : forall i, d <> 0 -> Forall (fun c => c <> 0) s -> hd0 t <> d ->
  quoted_loop d (double_quotes d s ++ d :: t) i = (i + Z.of_nat (length (double_quotes d s)), d).
Proof.
  induction s as [|c s IH]; intros i Hd Hs Ht.
  - cbn. rewrite (proj2 (Z.eqb_neq d 0)), Z.eqb_refl by done. destruct t as [|e t]; [f_equal; lia|].
    cbn [hd] in Ht. rewrite (proj2 (Z.eqb_neq e d)) by done. f_equal. lia.
  - apply Forall_cons in Hs as [Hc Hs].
    change (double_quotes d (c :: s)) with ((if c =? d then [d; d] else [c]) ++ double_quotes d s).
    destruct (Z.eqb_spec c d) as [->|Hcd]; cbn [app quoted_loop length].
    + rewrite (proj2 (Z.eqb_neq d 0)), Z.eqb_refl by done. rewrite IH by done. f_equal. lia.
    + rewrite (proj2 (Z.eqb_neq c 0)), (proj2 (Z.eqb_neq c d)) by done. rewrite IH by done. f_equal. lia.
Qed.

Lemma tok_string s t : lex_ok (LString s) -> ends_before (LString s) t ->
  sqlite3GetToken (spell (LString s) ++ t) = tok (LString s).
Proof.
  cbn [lex_ok ends_before spell]. intros Hs Ht. cbn [app]. rewrite <- app_assoc. cbn [app].
  unfold sqlite3GetToken. cbn [hd]. ground_eqb.
  change (from (39 :: double_quotes 39 s ++ 39 :: t) 1) with (double_quotes 39 s ++ 39 :: t).
  rewrite quoted_spec by done. ground_eqb. unfold tok. cbn [spell length lex_type]. rewrite length_app. cbn [length]. f_equal. lia.
Qed.

Lemma tok_quoted q s t : lex_ok (LQuoted q s) -> ends_before (LQuoted q s) t ->
  sqlite3GetToken (spell (LQuoted q s) ++ t) = tok (LQuoted q s).
Proof.
  cbn [lex_ok ends_before spell]. intros [Hq Hs] Ht. cbn [app]. rewrite <- app_assoc. cbn [app].
  unfold sqlite3GetToken. cbn [hd].
  change (from (q :: double_quotes q s ++ q :: t) 1) with (double_quotes q s ++ q :: t).
  rewrite quoted_spec by (done || lia).
  destruct Hq as [-> | ->]; ground_eqb; cbn [negb]; unfold tok; cbn [spell length lex_type]; rewrite length_app; cbn [length]; f_equal; lia.
Qed.

Lemma bracket_spec s t : forall c i, c <> 93 -> Forall (fun c => c <> 0 /\ c <> 93) s ->
  bracket_loop c (s ++ 93 :: t) i = (i + Z.of_nat (length s) + 1, 93).
Proof.
  induction s as [|d s IH]; intros c i Hc Hs; cbn [app bracket_loop]; rewrite (proj2 (Z.eqb_neq c 93)) by done.
  - cbn. destruct t; cbn; f_equal; lia.
  - apply Forall_cons in Hs as [[Hd Hd'] Hs]. rewrite (proj2 (Z.eqb_neq d 0)) by done. rewrite IH by done.
    cbn [length]. f_equal. lia.
Qed.

Lemma tok_bracket s t : lex_ok (LBracket s) -> sqlite3GetToken (spell (LBracket s) ++ t) = tok (LBracket s).
Proof.
  cbn [lex_ok spell]. intros Hs. cbn [app]. rewrite <- app_assoc. cbn [app].
  unfold sqlite3GetToken. cbn [hd]. ground_eqb. change (from (91 :: s ++ 93 :: t) 1) with (s ++ 93 :: t).
  rewrite bracket_spec by done. ground_eqb. unfold tok. cbn [spell length lex_type]. rewrite length_app. cbn [length]. f_equal. lia.
Qed.

Lemma word_start c z : IdChar c = true -> sqlite3Isdigit c = false -> c <> 36 ->
  sqlite3GetToken (c :: z) =
  if ((c =? 120) || (c =? 88)) && (hd0 z =? 39) then blob_token (c :: z) else word_token (c :: z).
Proof.
  intros Hi Hd H36. unfold sqlite3GetToken. rewrite rd_second. cbn [hd existsb].
  repeat match goal with
  | |- context [c =? ?k] =>
      lazymatch k with 120 => fail | 88 => fail | _ => idtac end;
      let E := fresh in destruct (Z.eqb_spec c k) as [E|_]; [exfalso; subst c; done|]
  end. cbn [orb]. destruct ((c =? 120) || (c =? 88)); [|done]. by destruct (hd0 z =? 39).
Qed.

Lemma idchar_quote c : IdChar c = true -> c =? 39 = false.
Proof. intros H. apply Z.eqb_neq. by intros ->. Qed.

Lemma tok_word w t : lex_ok (LWord w) -> ends_before (LWord w) t ->
  sqlite3GetToken (spell (LWord w) ++ t) = tok (LWord w).
Proof.
  cbn [lex_ok ends_before spell]. intros (Hne & Hcs & Hw & Hd & H36) (Ht & Hx).
  destruct w as [|c w]; [done|]. pose proof Hw as Hw0. apply Forall_cons in Hw as [Hc Hw]. cbn [hd] in *. cbn [app].
  rewrite word_start by done.
  assert (((c =? 120) || (c =? 88)) && (hd0 (w ++ t) =? 39) = false) as ->.
  { destruct w as [|d w]; cbn [app hd].
    - destruct (Z.eqb_spec c 120) as [->|]; [|destruct (Z.eqb_spec c 88) as [->|]; [|done]]; cbn [orb andb].
      + apply Z.eqb_neq, Hx. by left.
      + apply Z.eqb_neq, Hx. by right.
    - apply Forall_cons in Hw as [Hd' _]. rewrite idchar_quote by done. apply andb_false_r. }
  unfold word_token. cbn [hd]. rewrite Hc. cbn [negb]. change (from (c :: w ++ t) 1) with (w ++ t).
  rewrite scan_all by done. replace (1 + Z.of_nat (length w)) with (Z.of_nat (length (c :: w))) by (cbn; lia).
  rewrite Nat2Z.id. change (c :: w ++ t) with ((c :: w) ++ t). rewrite take_app_length.
  by rewrite keywordCode_lookup.
Qed.

Lemma tok_param ds t : lex_ok (LParam ds) -> ends_before (LParam ds) t ->
  sqlite3GetToken (spell (LParam ds) ++ t) = tok (LParam ds).
Proof.
  cbn [lex_ok ends_before spell]. intros Hd Ht. cbn [app]. unfold sqlite3GetToken. cbn [hd]. ground_eqb.
  change (from (63 :: ds ++ t) 1) with (ds ++ t). rewrite scan_all by done. unfold tok. cbn [spell length lex_type]. f_equal. lia.
Qed.

Lemma variable_spec w t : forall i n, all IdChar w ->
  variable_loop (w ++ t) i n = variable_loop t (i + Z.of_nat (length w)) (n + Z.of_nat (length w)).
Proof.
  induction w as [|c w IH]; intros i n Hw; cbn [app length]; [by rewrite !Z.add_0_r|].
  apply Forall_cons in Hw as [Hc Hw]. cbn [variable_loop]. rewrite Hc, IH by done.
  destruct (Z.eqb_spec c 0) as [->|_]; [done|]. f_equal; lia.
Qed.

Lemma tok_variable c w t : lex_ok (LVariable c w) -> ends_before (LVariable c w) t ->
  sqlite3GetToken (spell (LVariable c w) ++ t) = tok (LVariable c w).
Proof.
  cbn [lex_ok ends_before spell]. intros (Hc & Hne & Hw) (Ht & H40 & H58). cbn [app].
  assert (sqlite3GetToken (c :: w ++ t) =
    let '(i, n, bad) := variable_loop (w ++ t) 1 0 in (i, if (n =? 0) || bad then TK_ILLEGAL else TK_VARIABLE)) as ->.
  { unfold sqlite3GetToken. cbn [hd]. change (from (c :: w ++ t) 1) with (w ++ t).
    cbn in Hc. destruct_or!; subst; try done; ground_eqb; done. }
  rewrite variable_spec by done.
  assert (forall i n, variable_loop t i n = (i, n, false)) as Hend.
  { intros i n. destruct t as [|d t]; [done|]. cbn [hd] in *. cbn [variable_loop].
    rewrite Ht, (proj2 (Z.eqb_neq d 40)), (proj2 (Z.eqb_neq d 58)) by done. by destruct (d =? 0). }
  rewrite Hend. unfold tok. cbn [spell length lex_type].
  rewrite (proj2 (Z.eqb_neq _ 0)) by (destruct w; [done|cbn; lia]). cbn [orb]. f_equal. lia.
Qed.

Lemma tok_blob x hex t : lex_ok (LBlob x hex) -> sqlite3GetToken (spell (LBlob x hex) ++ t) = tok (LBlob x hex).
Proof.
  cbn [lex_ok spell]. intros (Hx & Hh & He). cbn [app]. rewrite <- app_assoc. cbn [app].
  assert (sqlite3GetToken (x :: 39 :: hex ++ 39 :: t) = blob_token (x :: 39 :: hex ++ 39 :: t)) as ->.
  { rewrite word_start by (destruct Hx as [-> | ->]; done). cbn [hd]. destruct Hx as [-> | ->]; done. }
  unfold blob_token. change (from (x :: 39 :: hex ++ 39 :: t) 2) with (hex ++ 39 :: t).
  rewrite scan_all by done. set (i := 2 + Z.of_nat (length hex)).
  assert (rd (x :: 39 :: hex ++ 39 :: t) i = 39) as ->.
  { change (x :: 39 :: hex ++ 39 :: t) with ((x :: 39 :: hex) ++ 39 :: t). apply rd_at. unfold i. cbn [length]. lia. }
  apply Nat.even_spec in He as [m Hm].
  assert (Z.rem i 2 = 0) as -> by (unfold i; rewrite Hm, Z.rem_mod_nonneg by lia;
    replace (2 + Z.of_nat (2 * m)) with ((Z.of_nat m + 1) * 2) by lia; apply Z_mod_mult).
  change (negb (39 =? 39) || negb (0 =? 0)) with false. cbv iota. unfold i.
  change (x :: 39 :: hex ++ 39 :: t) with ((x :: 39 :: hex) ++ 39 :: t). rewrite rd_at by (cbn [length]; lia).
  unfold tok. cbn [spell length lex_type]. rewrite length_app. cbn [length]. change (negb (39 =? 0)) with true. cbv iota. f_equal. lia.
Qed.

(** *** Numbers *)

Lemma nonid_digit c : IdChar c = false -> sqlite3Isdigit c = false.
Proof.
  intros H. apply not_true_is_false. intros Hd.
  pose proof (class_check 4 IdChar c ltac:(vm_compute; reflexivity) Hd). congruence.
Qed.

Lemma scan_none f t : f (hd0 t) = false -> scan f t = 0.
Proof. intros H. apply (scan_all f [] t); [constructor|done]. Qed.

Lemma from_plus p q i k : i = Z.of_nat (length p) -> 0 <= k -> from (p ++ q) (i + k) = from q k.
Proof.
  intros -> Hk. unfold from. rewrite Z2Nat.inj_add, Nat2Z.id by lia. rewrite drop_app_add. done.
Qed.

Lemma rd_plus p q i k : i = Z.of_nat (length p) -> 0 <= k -> rd (p ++ q) (i + k) = rd q k.
Proof. intros -> Hk. rewrite !rd_from by lia. by rewrite from_plus. Qed.

Definition spell_frac (fp : option (list Z)) : list Z := match fp with Some fp => 46 :: fp | None => [] end.

(** Integer part and fraction, before anything that does not continue them. *)
Lemma number_mantissa ip fp q :
  all sqlite3Isdigit ip -> all sqlite3Isdigit (default [] fp) -> sqlite3Isdigit (hd0 q) = false ->
  (fp = None -> hd0 q <> 46) ->
  let z := ip ++ spell_frac fp ++ q in
  let i := scan sqlite3Isdigit z in
  (if rd z i =? 46 then (i + 1 + scan sqlite3Isdigit (from z (i + 1)), TK_FLOAT) else (i, TK_INTEGER)) =
  (Z.of_nat (length (ip ++ spell_frac fp)), if fp then TK_FLOAT else TK_INTEGER).
Proof.
  intros Hip Hfp Hq H46 z i.
  assert (i = Z.of_nat (length ip)) as Hi by (apply scan_all; [done|]; by destruct fp).
  clearbody i. subst z. rewrite rd_app_hd by done. rewrite length_app. destruct fp as [fp|]; cbn [spell_frac app hd length].
  - change (46 =? 46) with true. cbv iota. rewrite from_plus by (done || lia).
    change (from (46 :: fp ++ q) 1) with (fp ++ q). rewrite scan_all by done. f_equal. lia.
  - rewrite (proj2 (Z.eqb_neq _ _)) by auto. f_equal. lia.
Qed.

(** The exponent. *)
Lemma number_exponent p ex t ty :
  IdChar (hd0 t) = false ->
  match ex with
  | Some (e, sgn, ds) => (e = 101 \/ e = 69) /\ (sgn = [] \/ sgn = [43] \/ sgn = [45]) /\ all sqlite3Isdigit ds /\ ds <> []
  | None => True
  end ->
  let z := p ++ spell_exp ex ++ t in
  let i := Z.of_nat (length p) in
  (if ((rd z i =? 101) || (rd z i =? 69)) &&
       (sqlite3Isdigit (rd z (i + 1)) ||
        ((rd z (i + 1) =? 43) || (rd z (i + 1) =? 45)) && sqlite3Isdigit (rd z (i + 2)))
    then (i + 2 + scan sqlite3Isdigit (from z (i + 2)), TK_FLOAT) else (i, ty)) =
  (Z.of_nat (length (p ++ spell_exp ex)), if ex then TK_FLOAT else ty).
Proof.
  intros Ht Hex z i. subst z. rewrite rd_app_hd by done. rewrite length_app.
  destruct ex as [[[e sgn] ds]|]; cbn [spell_exp].
  - destruct Hex as (He & Hs & Hd & Hne). destruct ds as [|d ds]; [done|]. apply Forall_cons in Hd as [Hd1 Hd].
    rewrite !rd_plus, from_plus by (done || lia). cbn [app hd].
    assert ((e =? 101) || (e =? 69) = true) as -> by (destruct He as [-> | ->]; done). cbn [andb].
    pose proof (nonid_digit _ Ht).
    destruct Hs as [-> | Hs]; cbn [app].
    + change (rd (e :: d :: ds ++ t) 1) with d. rewrite Hd1. cbn [orb].
      change (from (e :: d :: ds ++ t) 2) with (ds ++ t). rewrite scan_all by done. cbn [length]. f_equal. lia.
    + assert (exists s, sgn = [s] /\ sqlite3Isdigit s = false /\ (s =? 43) || (s =? 45) = true) as (s & -> & Hs1 & Hs2)
        by (destruct Hs as [-> | ->]; eexists; done).
      cbn [app]. change (rd (e :: s :: d :: ds ++ t) 1) with s. change (rd (e :: s :: d :: ds ++ t) 2) with d.
      rewrite Hs1, Hs2, Hd1. cbn [orb andb].
      change (from (e :: s :: d :: ds ++ t) 2) with ((d :: ds) ++ t). rewrite scan_all by (done || by constructor).
      cbn [length app]. f_equal. lia.
  - cbn [app length]. rewrite !(proj2 (Z.eqb_neq (hd0 t) _)); [cbn [orb andb]; f_equal; lia|..];
      intros E; rewrite E in Ht; done.
Qed.

Lemma number_spec ip fp ex t : lex_ok (LNumber ip fp ex) -> ends_before (LNumber ip fp ex) t ->
  number_token (ip ++ spell_frac fp ++ spell_exp ex ++ t) = tok (LNumber ip fp ex).
Proof.
  cbn [lex_ok ends_before]. intros (Hip & Hfp & Hne & Hex) (Ht & H46). unfold number_token.
  assert (forall P : Z -> Prop, P 101 -> P 69 -> (ex = None -> P (hd0 t)) -> P (hd0 (spell_exp ex ++ t))) as Hhd.
  { intros P H1 H2 H3. destruct ex as [[[e sgn] ds]|]; cbn; [by destruct Hex as [[-> | ->] _]|auto]. }
  rewrite (number_mantissa ip fp (spell_exp ex ++ t)); [|done|done| |].
  2: { apply (Hhd (fun c => sqlite3Isdigit c = false)); [done|done|intros _; by apply nonid_digit]. }
  2: { intros Hf. apply (Hhd (fun c => c <> 46)); [done|done|auto]. }
  cbv iota beta. rewrite (assoc_L (++) ip).
  pose proof (number_exponent (ip ++ spell_frac fp) ex t (if fp then TK_FLOAT else TK_INTEGER) Ht Hex) as HE.
  cbv zeta in HE. rewrite HE. cbv iota beta. rewrite (assoc_L (++) (ip ++ spell_frac fp)), from_app by done.
  rewrite scan_none by done. change (0 <? 0) with false. cbv iota. rewrite Z.add_0_r. unfold tok. cbn [spell lex_type].
  rewrite <- (assoc_L (++)). f_equal. by destruct fp, ex.
Qed.

Lemma tok_number ip fp ex t : lex_ok (LNumber ip fp ex) -> ends_before (LNumber ip fp ex) t ->
  sqlite3GetToken (spell (LNumber ip fp ex) ++ t) = tok (LNumber ip fp ex).
Proof.
  intros Hok Ht. rewrite <- number_spec with (t := t) by done. cbn [spell]. fold (spell_frac fp).
  rewrite <- !(assoc_L (++)). cbn [lex_ok] in Hok. destruct Hok as (Hip & Hfp & Hne & _).
  destruct ip as [|d ip].
  - destruct fp as [[|d fp]|]; try (by destruct Hne). cbn [default from_option id] in Hfp. apply Forall_cons in Hfp as [Hd _].
    cbn [spell_frac app]. unfold sqlite3GetToken. cbn [hd]. rewrite rd_second. cbn [hd]. ground_eqb. by rewrite Hd.
  - apply Forall_cons in Hip as [Hd _]. apply digit_cases in Hd. cbn [app]. unfold sqlite3GetToken. cbn [hd].
    assert (d = 48 \/ d = 49 \/ d = 50 \/ d = 51 \/ d = 52 \/ d = 53 \/ d = 54 \/ d = 55 \/ d = 56 \/ d = 57) as Hin by lia.
    clear Hd. destruct_or!; subst; ground_eqb; done.
Qed.

(** ** Sequences *)

Lemma tok_lexeme l t : lex_ok l -> ends_before l t -> sqlite3GetToken (spell l ++ t) = tok l.
Proof.
  destruct l; intros Hok Ht; [by apply tok_space|by apply tok_line|by apply tok_block|by apply tok_punct|
    by apply tok_string|by apply tok_quoted|by apply tok_bracket|by apply tok_word|by apply tok_number|
    by apply tok_blob|by apply tok_param|by apply tok_variable].
Qed.

Lemma punct_nonempty k : (k < length puncts)%nat -> (punct k).1.1 <> [].
Proof. intros Hk. change (length puncts) with 24%nat in Hk. do 24 (destruct k as [|k]; [done|]). lia. Qed.

Lemma spell_nonempty l : lex_ok l -> spell l <> [].
Proof.
  destruct l; cbn [lex_ok spell]; try done.
  - by intros [? _].
  - by apply punct_nonempty.
  - by intros [? _].
  - intros (_ & _ & Hne & _) E. apply app_eq_nil in E as [-> E]. apply app_eq_nil in E as [E _].
    destruct Hne as [?|Hne]; [done|]. by destruct fp.
Qed.

Lemma tokens_spec ls : forall fuel pre, Forall lex_ok ls -> separated ls ->
  (length (concat (map spell ls)) <= fuel)%nat ->
  tokens fuel (pre ++ concat (map spell ls)) (Z.of_nat (length pre)) = lexed (Z.of_nat (length pre)) ls.
Proof.
  induction ls as [|l ls IH]; intros fuel pre Hok Hsep Hf; cbn [map concat lexed] in *.
  - destruct fuel; [done|]. cbn [tokens]. by rewrite from_app.
  - apply Forall_cons in Hok as [Hl Hok]. destruct Hsep as [Hend Hsep].
    pose proof (spell_nonempty l Hl) as Hne. rewrite length_app in Hf.
    destruct fuel as [|fuel]; [destruct (spell l); [done|cbn in Hf; lia]|]. cbn [tokens].
    rewrite from_app by done. pose proof (tok_lexeme l _ Hl Hend) as HT.
    destruct (spell l ++ concat (map spell ls)) as [|c rest] eqn:E; [by apply app_eq_nil in E as [? _]|].
    rewrite HT. unfold tok. f_equal. rewrite <- E, (assoc_L (++)).
    replace (Z.of_nat (length pre) + Z.of_nat (length (spell l))) with (Z.of_nat (length (pre ++ spell l)))
      by (rewrite length_app; lia).
    apply IH; [done|done|]. destruct (spell l); [done|]. cbn in Hf. lia.
Qed.

(** C22. Printing and tokenizing: every sequence of lexical elements, spelled out and separated where two
    would run together, is taken apart by [sqlite3GetToken] into exactly those
    elements, with their token codes, positions and lengths. The elements are white space and both comment
    forms, all operators, string literals with doubled quotes, the three forms of quoted identifiers, keywords and
    identifiers, numbers with fraction and exponent, blob literals and variables. *)
Theorem tokenize_roundtrip ls (Hok : Forall lex_ok ls) (Hsep : separated ls) :
  all_tokens (concat (map spell ls)) = lexed 0 ls.
Proof. by apply (tokens_spec ls _ []). Qed.

Definition demo_lexemes : list Lexeme :=
  [LWord (txt "select"); LSpace [32; 10]; LString (txt "it's"); LPunct 20; LNumber [49] (Some [53]) (Some (101, [45], [51]));
   LPunct 11; LBlob 120 (txt "0aF1"); LSpace [9]; LLine (txt " done")].

Lemma tokenize_roundtrip_witness :
  all_tokens (txt "select " ++ [10] ++ txt "'it''s',1.5e-3<=x'0aF1'" ++ [9] ++ txt "-- done") = lexed 0 demo_lexemes.
Proof.
  apply (tokenize_roundtrip demo_lexemes).
  - repeat (apply Forall_cons; split); [..|apply Forall_nil; exact I]; cbn [lex_ok]; repeat split;
      try discriminate; try (repeat constructor; discriminate); try (left; discriminate).
    all: try (left; reflexivity); try (right; right; reflexivity).
  - cbn. repeat split; try discriminate; try (intros [H|H]; discriminate H); try reflexivity; try (right; reflexivity).
    all: intros H; inversion H; subst; discriminate.
Defined.
