(* ===== verification/Complete.v ===== *)
(** [sqlite3_complete] of complete.c: the state machine over statements, and its agreement with
    the lexical elements of TokenSpec.v. *)
From Stdlib Require Import String.
From S2P Require Import Prelude Text Keywords Tokenize TokenSpec.
Local Open Scope Z_scope.
Local Open Scope c_scope.

Definition tkSEMI : Z := 0.
Definition tkWS : Z := 1.
Definition tkOTHER : Z := 2.
Definition tkEXPLAIN : Z := 3.
Definition tkCREATE : Z := 4.
Definition tkTEMP : Z := 5.
Definition tkTRIGGER : Z := 6.
Definition tkEND : Z := 7.

Definition trans_table : list (list Z) :=
  [[1; 0; 2; 3; 4; 2; 2; 2];
   [1; 1; 2; 3; 4; 2; 2; 2];
   [1; 2; 2; 2; 2; 2; 2; 2];
   [1; 3; 3; 2; 4; 2; 2; 2];
   [1; 4; 2; 2; 2; 4; 5; 2];
   [6; 5; 5; 5; 5; 5; 5; 5];
   [6; 6; 5; 5; 5; 5; 5; 7];
   [1; 7; 5; 5; 5; 5; 5; 5]].

Definition trans (state token : Z) : Z := rd (nth (Z.to_nat state) trans_table []) token.

(** The token of an identifier or keyword of [nId] characters at [zSql]. *)
Definition complete_word (zSql : list Z) (nId : Z) : Z :=
  let c := hd0 zSql in
  let kw w n := (nId =? n) && (sqlite3_strnicmp zSql (txt w) n =? 0) in
  if (c =? 99) || (c =? 67) then if kw "create"%string 6 then tkCREATE else tkOTHER
  else if (c =? 116) || (c =? 84) then
    if kw "trigger"%string 7 then tkTRIGGER
    else if kw "temp"%string 4 then tkTEMP
    else if kw "temporary"%string 9 then tkTEMP
    else tkOTHER
  else if (c =? 101) || (c =? 69) then
    if kw "end"%string 3 then tkEND
    else if kw "explain"%string 7 then tkEXPLAIN
    else tkOTHER
  else tkOTHER.

(** [while( zSql[0] && (zSql[0]!='*' || zSql[1]!='/') ){ zSql++; }]: the rest of the text. *)
Fixpoint skip_comment (z : list Z) : list Z :=
  match z with
  | [] => []
  | c :: z' => if (c =? 0) || ((c =? 42) && (hd0 z' =? 47)) then z else skip_comment z'
  end.

(** [while( *zSql && *zSql!=c ){ zSql++; }] *)
Fixpoint skip_to (d : Z) (z : list Z) : list Z :=
  match z with
  | [] => []
  | c :: z' => if (c =? 0) || (c =? d) then z else skip_to d z'
  end.

(** What one turn of the loop reads: the token and the text after it, or the value returned. *)
Inductive Turn := Next (token : Z) (zSql : list Z) | Done (result : bool).

Definition complete_turn (state : Z) (zSql : list Z) : Turn :=
  let c := hd0 zSql in
  let c1 := rd zSql 1 in
  if c =? 59 then Next tkSEMI (tl zSql)
  else if existsb (Z.eqb c) [32; 13; 9; 10; 12] then Next tkWS (tl zSql)
  else if c =? 47 then
    if negb (c1 =? 42) then Next tkOTHER (tl zSql)
    else
      let z := skip_comment (from zSql 2) in
      if hd0 z =? 0 then Done false else Next tkWS (from z 2)
  else if c =? 45 then
    if negb (c1 =? 45) then Next tkOTHER (tl zSql)
    else
      let z := skip_to 10 zSql in
      if hd0 z =? 0 then Done (state =? 1) else Next tkWS (tl z)
  else if c =? 91 then
    let z := skip_to 93 (tl zSql) in
    if hd0 z =? 0 then Done false else Next tkOTHER (tl z)
  else if existsb (Z.eqb c) [96; 34; 39] then
    let z := skip_to c (tl zSql) in
    if hd0 z =? 0 then Done false else Next tkOTHER (tl z)
  else if IdChar c then
    let nId := 1 + scan IdChar (from zSql 1) in
    Next (complete_word zSql nId) (from zSql nId)
  else Next tkOTHER (tl zSql).

(** [None] when the fuel, one turn per byte, runs out. *)
Fixpoint complete_loop (fuel : nat) (state : Z) (zSql : list Z) : option bool :=
  match fuel with
  | O => None
  | S fuel =>
      if hd0 zSql =? 0 then Some (state =? 1)
      else
        match complete_turn state zSql with
        | Done r => Some r
        | Next token z => complete_loop fuel (trans state token) z
        end
  end.

Definition sqlite3_complete (zSql : list Z) : option bool := complete_loop (S (length zSql)) 0 zSql.

(** ** The machine over lexical elements *)

Definition word_class (w : list Z) : Z :=
  let kw s := bool_decide (fold_case w = txt s) in
  if kw "create"%string then tkCREATE
  else if kw "trigger"%string then tkTRIGGER
  else if kw "temp"%string || kw "temporary"%string then tkTEMP
  else if kw "end"%string then tkEND
  else if kw "explain"%string then tkEXPLAIN
  else tkOTHER.

(** The tokens of the machine an element stands for. *)
Definition lex_class (l : Lexeme) : list Z :=
  match l with
  | LSpace _ | LLine _ | LBlock _ => []
  | LPunct 3 => [tkSEMI]
  | LWord w => [word_class w]
  | LVariable c w => if c =? 36 then [tkOTHER] else [tkOTHER; word_class w]
  | _ => [tkOTHER]
  end.

(** Where the two tokenizers see the same: white space has no vertical tab, and a numbered
    parameter does not run into a word. *)
Definition plain (l : Lexeme) (t : list Z) : Prop :=
  match l with
  | LSpace w => Forall (fun c => c <> 11) w
  | LParam ds => ds = [] \/ IdChar (hd0 t) = false
  | _ => True
  end.

Fixpoint plain_all (ls : list Lexeme) : Prop :=
  match ls with
  | [] => True
  | l :: ls => plain l (concat (map spell ls)) /\ plain_all ls
  end.

Definition run_states (state : Z) (ts : list Z) : Z := fold_left trans ts state.

(** ** Unrolling the loop *)

Definition comp (state : Z) (z : list Z) : option bool := complete_loop (S (length z)) state z.

Lemma skip_comment_len z : (length (skip_comment z) <= length z)%nat.
Proof. induction z as [|c z IH]; cbn [skip_comment]; [done|]. destruct (_ || _); [done|cbn [length]; lia]. Qed.
Lemma skip_to_len d z : (length (skip_to d z) <= length z)%nat.
Proof. induction z as [|c z IH]; cbn [skip_to]; [done|]. destruct (_ || _); [done|cbn [length]; lia]. Qed.

Lemma turn_shorter state z t z' : hd0 z <> 0 -> complete_turn state z = Next t z' -> (length z' < length z)%nat.
Proof.
  intros H0. destruct z as [|c z]; [done|]. unfold complete_turn. cbn [hd tl] in *.
  assert (forall n, 1 <= n -> (length (from (c :: z) n) < length (c :: z))%nat) as Hfrom.
  { intros n Hn. unfold from. rewrite length_drop. cbn [length]. lia. }
  repeat match goal with
  | |- (if ?b then _ else _) = _ -> _ => destruct b eqn:?
  end; intros [= <- <-]; cbn [length]; try lia.
  - pose proof (skip_comment_len (from (c :: z) 2)). specialize (Hfrom 2 ltac:(lia)). cbn [length] in *.
    unfold from at 1. rewrite length_drop. lia.
  - pose proof (skip_to_len 10 z) as Hs. destruct (_ || _); [cbn; lia|]. destruct (skip_to 10 z); cbn [length tl] in *; lia.
  - pose proof (skip_to_len 93 z) as Hs. destruct (skip_to 93 z); cbn [length tl] in *; lia.
  - pose proof (skip_to_len c z) as Hs. destruct (skip_to c z); cbn [length tl] in *; lia.
  - apply Hfrom. pose proof (scan_bound IdChar (from (c :: z) 1)). lia.
Qed.

Lemma loop_fuel n : forall fuel state z, (length z <= n)%nat -> (length z < fuel)%nat ->
  complete_loop fuel state z = comp state z.
Proof.
  induction n as [|n IH]; intros fuel state z Hn Hf; (destruct fuel as [|fuel]; [lia|]); unfold comp; cbn [complete_loop].
  - destruct z; [done|cbn in Hn; lia].
  - destruct (Z.eqb_spec (hd0 z) 0); [done|]. destruct (complete_turn state z) as [t z'|] eqn:E; [|done].
    apply turn_shorter in E; [|done]. rewrite (IH fuel) by lia. rewrite (IH (length z)) by lia. done.
Qed.

Lemma comp_step state z : hd0 z <> 0 ->
  comp state z = match complete_turn state z with Done r => Some r | Next t z' => comp (trans state t) z' end.
Proof.
  intros H0. unfold comp at 1. cbn [complete_loop]. rewrite (proj2 (Z.eqb_neq _ 0)) by done.
  destruct (complete_turn state z) as [t z'|] eqn:E; [|done]. apply turn_shorter in E; [|done].
  by apply (loop_fuel (length z')).
Qed.

(** ** The states *)

Definition is_state (s : Z) : Prop := 0 <= s < 8.

Lemma state_check (P : Z -> bool) s : forallb P (seqZ 0 8) = true -> is_state s -> P s = true.
Proof. rewrite forallb_forall. intros H Hs. apply H, list_elem_of_In, elem_of_seqZ. unfold is_state in Hs. lia. Qed.

Lemma trans_state s t : is_state s -> 0 <= t < 8 -> is_state (trans s t).
Proof.
  intros Hs Ht.
  pose proof (state_check (fun s => forallb (fun t => (0 <=? trans s t) && (trans s t <? 8)) (seqZ 0 8)) s ltac:(vm_compute; reflexivity) Hs) as H.
  cbn beta in H. rewrite forallb_forall in H. specialize (H t). rewrite <- list_elem_of_In, elem_of_seqZ in H.
  specialize (H ltac:(lia)). unfold is_state. lia.
Qed.

Lemma trans_ws s : is_state s -> trans s tkWS = s.
Proof. intros Hs. apply Z.eqb_eq. by apply (state_check (fun s => trans s tkWS =? s)). Qed.

Lemma trans_other s : is_state s -> trans (trans s tkOTHER) tkOTHER = trans s tkOTHER.
Proof. intros Hs. apply Z.eqb_eq. by apply (state_check (fun s => trans (trans s tkOTHER) tkOTHER =? trans s tkOTHER)). Qed.

(** ** Elements *)

(** The text [z] before [t] acts on the machine as the tokens [ts]. *)
Definition acts (z t : list Z) (ts : list Z) : Prop :=
  forall s, is_state s -> comp s (z ++ t) = comp (run_states s ts) t.

Lemma acts_nil t : acts [] t [].
Proof. by intros s _. Qed.

Lemma run_state s ts : is_state s -> Forall (fun t => 0 <= t < 8) ts -> is_state (run_states s ts).
Proof.
  intros Hs Ht. revert s Hs. induction Ht as [|t ts Ht _ IH]; intros s Hs; [done|]. apply IH. by apply trans_state.
Qed.

Lemma acts_app a b t ts us : Forall (fun t => 0 <= t < 8) ts -> acts a (b ++ t) ts -> acts b t us -> acts (a ++ b) t (ts ++ us).
Proof.
  intros Ht Ha Hb s Hs. rewrite <- (assoc_L (++)), Ha by done. rewrite Hb by (by apply run_state).
  unfold run_states. by rewrite fold_left_app.
Qed.

(** Others in a row act as one. *)
Lemma acts_others a b t : acts a (b ++ t) [tkOTHER] -> acts b t [tkOTHER] -> acts (a ++ b) t [tkOTHER].
Proof.
  intros Ha Hb s Hs. rewrite (acts_app a b t [tkOTHER] [tkOTHER]) by (done || (repeat constructor; done)).
  cbn [app run_states fold_left]. by rewrite trans_other.
Qed.

(** One character. *)
Lemma acts_char c t tk : c <> 0 -> (forall s, complete_turn s (c :: t) = Next tk t) -> acts [c] t [tk].
Proof. intros Hc H s Hs. cbn [app]. rewrite comp_step by done. by rewrite H. Qed.

Lemma space_char c t : In c [32; 13; 9; 10; 12] -> acts [c] t [].
Proof.
  intros Hc s Hs. assert (acts [c] t [tkWS]) as H.
  { apply acts_char; [by intros ->; cbn in Hc; destruct_or!|]. intros s'. unfold complete_turn. cbn [hd tl].
    cbn in Hc. destruct_or!; subst; try done; ground_eqb; done. }
  rewrite H by done. unfold run_states. cbn [fold_left]. by rewrite trans_ws.
Qed.

(** A character that is a token of its own. *)
Definition lone (c : Z) : bool :=
  negb (existsb (Z.eqb c) [0; 59; 32; 13; 9; 10; 12; 47; 45; 91; 96; 34; 39]) && negb (IdChar c).

Lemma lone_char c t : lone c = true -> acts [c] t [tkOTHER].
Proof.
  unfold lone. rewrite andb_true_iff, !negb_true_iff. intros [H1 H2]. apply acts_char.
  { intros ->. done. }
  intros s. unfold complete_turn. cbn [hd tl existsb] in *. rewrite !orb_false_iff in H1.
  destruct H1 as (E0 & E1 & E2 & E3 & E4 & E5 & E6 & E7 & E8 & E9 & E10 & E11 & E12 & _).
  rewrite E1, E2, E3, E4, E5, E6, E7, E8, E9, E10, E11, E12, H2. done.
Qed.

Lemma acts_space w t : all sqlite3Isspace w -> Forall (fun c => c <> 11) w -> acts w t [].
Proof.
  intros Hw H11. induction Hw as [|c w Hc Hw IH]; [apply acts_nil|]. apply Forall_cons in H11 as [Hc11 H11].
  apply (acts_app [c] w t [] []); [constructor| |by apply IH]. apply space_char.
  pose proof (class_check 1 (fun c => (c =? 11) || existsb (Z.eqb c) [32; 13; 9; 10; 12]) c ltac:(vm_compute; reflexivity) Hc) as H.
  cbn beta in H. rewrite (proj2 (Z.eqb_neq c 11)) in H by done.
  apply existsb_exists in H as (d & Hd & ->%Z.eqb_eq). done.
Qed.

Lemma skip_to_app d u z : Forall (fun c => c <> 0 /\ c <> d) u -> skip_to d (u ++ z) = skip_to d z.
Proof.
  induction 1 as [|c u [Hc Hd] Hu IH]; [done|]. cbn [app skip_to].
  by rewrite (proj2 (Z.eqb_neq c 0)), (proj2 (Z.eqb_neq c d)).
Qed.

Lemma skip_to_here d z : skip_to d (d :: z) = d :: z.
Proof. cbn. by rewrite Z.eqb_refl, orb_true_r. Qed.

Lemma acts_line w t : Forall (fun c => c <> 0 /\ c <> 10) w -> hd0 t = 10 \/ t = [] -> acts (45 :: 45 :: w) t [].
Proof.
  intros Hw Ht s Hs. cbn [app run_states fold_left]. rewrite comp_step by done.
  assert (skip_to 10 (45 :: 45 :: w ++ t) = t) as E.
  { change (45 :: 45 :: w ++ t) with ((45 :: 45 :: w) ++ t). rewrite skip_to_app by (repeat (constructor; [done|]); done).
    destruct Ht as [Ht| ->]; [|done]. destruct t as [|c t]; [done|]. cbn in Ht. subst c. apply skip_to_here. }
  unfold complete_turn. rewrite rd_second, E. cbn [hd]. ground_eqb. cbn [negb].
  destruct Ht as [Ht| ->]; [|done]. destruct t as [|c t]; [done|]. cbn in Ht. subst c. cbn [hd tl]. ground_eqb.
  rewrite trans_ws by done. symmetry. change (10 :: t) with ([10] ++ t). rewrite (space_char 10 t); [done|cbn; tauto|done].
Qed.

Lemma skip_comment_spec w t : Forall (fun c => c <> 0) w -> no_close w = true ->
  skip_comment (w ++ 42 :: 47 :: t) = 42 :: 47 :: t.
Proof.
  induction w as [|c w IH]; intros Hw Hn; [done|]. apply Forall_cons in Hw as [Hc Hw]. cbn [no_close] in Hn.
  apply andb_true_iff in Hn as [Hn1 Hn2]. cbn [app skip_comment]. rewrite (proj2 (Z.eqb_neq c 0)) by done. cbn [orb].
  assert ((c =? 42) && (hd0 (w ++ 42 :: 47 :: t) =? 47) = false) as ->; [|by apply IH].
  destruct w as [|d w]; [by rewrite andb_false_r|]. by apply negb_true_iff in Hn1.
Qed.

Lemma acts_block w t : Forall (fun c => c <> 0) w -> no_close w = true -> acts ([47; 42] ++ w ++ [42; 47]) t [].
Proof.
  intros Hw Hn s Hs. cbn [app run_states fold_left]. rewrite <- (assoc_L (++)). cbn [app]. rewrite comp_step by done.
  unfold complete_turn. rewrite rd_second. cbn [hd]. ground_eqb. cbn [negb].
  change (from (47 :: 42 :: w ++ 42 :: 47 :: t) 2) with (w ++ 42 :: 47 :: t). rewrite skip_comment_spec by done.
  cbn [hd]. ground_eqb. change (from (42 :: 47 :: t) 2) with t. by rewrite trans_ws.
Qed.

(** A text between quotes, in which the quote is doubled. *)
Lemma split_quote (d : Z) (s : list Z) : (Forall (fun c => c <> d) s) \/ exists u v, s = u ++ d :: v /\ Forall (fun c => c <> d) u.
Proof.
  induction s as [|c s IH]; [left; constructor|]. destruct (decide (c = d)) as [->|Hc].
  - right. by exists [], s.
  - destruct IH as [IH|(u & v & -> & Hu)]; [left; by constructor|right]. exists (c :: u), v. split; [done|by constructor].
Qed.

Lemma dq_app q a b : double_quotes q (a ++ b) = double_quotes q a ++ double_quotes q b.
Proof. unfold double_quotes. by rewrite map_app, concat_app. Qed.

Lemma dq_none q s : Forall (fun c => c <> q) s -> double_quotes q s = s.
Proof.
  induction 1 as [|c s Hc Hs IH]; [done|]. unfold double_quotes in *. cbn [map concat].
  by rewrite (proj2 (Z.eqb_neq c q)), IH.
Qed.

Lemma acts_quoted d s t : In d [96; 34; 39] -> Forall (fun c => c <> 0) s ->
  acts (d :: double_quotes d s ++ [d]) t [tkOTHER].
Proof.
  intros Hd. induction s as [s IH] using (induction_ltof1 _ (@length Z)); unfold ltof in IH. intros Hs.
  assert (d <> 0) as Hd0 by (cbn in Hd; lia).
  assert (forall u z, Forall (fun c => c <> 0 /\ c <> d) u -> acts (d :: u ++ [d]) z [tkOTHER]) as Hone.
  { intros u z Hu st Hst. cbn [app]. rewrite comp_step by done. rewrite <- (assoc_L (++)). cbn [app].
    assert (complete_turn st (d :: u ++ d :: z) = Next tkOTHER z) as ->; [|done].
    unfold complete_turn. cbn [hd tl]. rewrite (skip_to_app d u), skip_to_here by done. cbn [hd tl].
    rewrite (proj2 (Z.eqb_neq d 0)) by done. cbn in Hd. destruct_or!; subst; try done; ground_eqb; done. }
  assert (forall u, Forall (fun c => c <> 0) u -> Forall (fun c => c <> d) u -> Forall (fun c => c <> 0 /\ c <> d) u) as Hboth.
  { intros u H1 H2. rewrite !Forall_forall in *. auto. }
  destruct (split_quote d s) as [Hn|(u & v & -> & Hu)].
  - rewrite dq_none by done. apply Hone. by apply Hboth.
  - apply Forall_app in Hs as [Hs1 Hs2]. apply Forall_cons in Hs2 as [_ Hs2].
    assert (d :: double_quotes d (u ++ d :: v) ++ [d] = (d :: u ++ [d]) ++ (d :: double_quotes d v ++ [d])) as ->.
    { rewrite dq_app, dq_none by done. unfold double_quotes at 1. cbn [map concat]. rewrite Z.eqb_refl.
      fold (double_quotes d v). cbn [app]. f_equal. rewrite <- !(assoc_L (++)). done. }
    apply acts_others; [apply Hone; by apply Hboth|]. apply IH; [|done]. rewrite length_app. cbn [length]. lia.
Qed.

Lemma acts_bracket s t : Forall (fun c => c <> 0 /\ c <> 93) s -> acts (91 :: s ++ [93]) t [tkOTHER].
Proof.
  intros Hs st Hst. cbn [app]. rewrite comp_step by done. rewrite <- (assoc_L (++)). cbn [app].
  unfold complete_turn. cbn [hd tl]. rewrite skip_to_app, skip_to_here by done. ground_eqb. cbn [hd tl]. ground_eqb. done.
Qed.

(** ** Words *)

Lemma idchar_cstring w : all IdChar w -> cstring w.
Proof.
  intros Hw. eapply Forall_impl; [exact Hw|]. intros c Hc. cbn beta in Hc. split.
  - apply (ctype_byte 0x46). by apply Z.eqb_neq, negb_true_iff.
  - by intros ->.
Qed.

(** The comparison with a keyword [k] spelled in lower case. *)
Lemma kw_test w t k : all IdChar w -> cstring (txt k) -> fold_case (txt k) = txt k ->
  (Z.of_nat (length w) =? Z.of_nat (length (txt k))) &&
  (sqlite3_strnicmp (w ++ t) (txt k) (Z.of_nat (length (txt k))) =? 0) = bool_decide (fold_case w = txt k).
Proof.
  intros Hw%idchar_cstring Hk Hf. destruct (Z.eqb_spec (Z.of_nat (length w)) (Z.of_nat (length (txt k)))) as [E|E]; cbn [andb].
  - apply Nat2Z.inj in E. rewrite strnicmp_take by (rewrite length_app; lia). rewrite Nat2Z.id, <- E, take_app_length, E.
    pose proof (strnicmp_zero w (txt k)) as HS. unfold fold_case in *. rewrite Hf in HS.
    assert (Forall (is_u 8) w) as Hb by (eapply Forall_impl; [exact Hw|]; by intros c [? _]).
    case_bool_decide as HD; [apply Z.eqb_eq|apply Z.eqb_neq; intros E0; apply HD]; by apply HS.
  - rewrite bool_decide_false; [done|]. intros Hf'. apply E. rewrite <- Hf'. by rewrite fold_length.
Qed.

(** The characters that fold to the letters the code switches on. *)
Lemma fold_first c (x y : Z) : is_u 8 c -> (x = 99 /\ y = 67) \/ (x = 116 /\ y = 84) \/ (x = 101 /\ y = 69) ->
  (c =? x) || (c =? y) = (sqlite3Tolower c =? x).
Proof.
  intros Hc Hxy.
  pose proof (byte_forall (fun c => eqb ((c =? 99) || (c =? 67)) (sqlite3Tolower c =? 99) &&
    eqb ((c =? 116) || (c =? 84)) (sqlite3Tolower c =? 116) &&
    eqb ((c =? 101) || (c =? 69)) (sqlite3Tolower c =? 101)) ltac:(vm_compute; reflexivity) c Hc) as H.
  cbn beta in H. rewrite !andb_true_iff, !eqb_true_iff in H. destruct H as [[H1 H2] H3].
  by destruct Hxy as [[-> ->]|[[-> ->]|[-> ->]]].
Qed.

Lemma complete_word_class w t : all IdChar w -> w <> [] ->
  complete_word (w ++ t) (Z.of_nat (length w)) = word_class w.
Proof.
  intros Hw Hne. unfold complete_word, word_class.
  assert (forall k n, n = Z.of_nat (length (txt k)) -> cstring (txt k) -> fold_case (txt k) = txt k ->
    (Z.of_nat (length w) =? n) && (sqlite3_strnicmp (w ++ t) (txt k) n =? 0) = bool_decide (fold_case w = txt k)) as HK
    by (intros ? ? -> ? ?; by apply kw_test).
  rewrite !HK by (done || (repeat constructor; done)). clear HK.
  destruct w as [|c w]; [done|]. pose proof (idchar_cstring _ Hw) as Hcs. apply Forall_cons in Hcs as [[Hc _] _].
  cbn [app hd]. rewrite (fold_first c 99 67), (fold_first c 116 84), (fold_first c 101 69) by (done || tauto).
  unfold fold_case. cbn [map].
  assert (forall k, sqlite3Tolower c <> hd0 (txt k) -> bool_decide (sqlite3Tolower c :: map sqlite3Tolower w = txt k) = false) as Hd.
  { intros k Hb. apply bool_decide_false. intros E. by rewrite <- E in Hb. }
  destruct (Z.eqb_spec (sqlite3Tolower c) 99) as [E1|E1].
  { destruct (bool_decide _); [done|]. by rewrite !Hd by (rewrite E1; done). }
  rewrite (Hd "create"%string) by done.
  destruct (Z.eqb_spec (sqlite3Tolower c) 116) as [E2|E2].
  { rewrite (Hd "end"%string), (Hd "explain"%string) by (rewrite E2; done). 
    set (v := sqlite3Tolower c :: _).
    by destruct (bool_decide (v = txt "trigger")), (bool_decide (v = txt "temp")), (bool_decide (v = txt "temporary")). }
  rewrite (Hd "trigger"%string), (Hd "temp"%string), (Hd "temporary"%string) by done.
  destruct (Z.eqb_spec (sqlite3Tolower c) 101) as [E3|E3]; [done|].
  by rewrite !Hd by done.
Qed.

Lemma acts_word w t : all IdChar w -> w <> [] -> IdChar (hd0 t) = false -> acts w t [word_class w].
Proof.
  intros Hw Hne Ht s Hs. rewrite <- (complete_word_class w t) by done.
  destruct w as [|c w]; [done|]. pose proof Hw as Hw0. apply Forall_cons in Hw as [Hc Hw].
  assert (hd0 ((c :: w) ++ t) = c) as Hhd by done.
  rewrite comp_step by (rewrite Hhd; by intros ->).
  assert (complete_turn s ((c :: w) ++ t) = Next (complete_word ((c :: w) ++ t) (Z.of_nat (length (c :: w)))) t) as ->; [|done].
  unfold complete_turn. rewrite Hhd. cbn [existsb].
  repeat match goal with
  | |- context [c =? ?k] => let E := fresh in destruct (Z.eqb_spec c k) as [E|_]; [exfalso; subst c; done|]
  end. cbn [orb]. rewrite Hc.
  assert (1 + scan IdChar (from ((c :: w) ++ t) 1) = Z.of_nat (length (c :: w))) as ->.
  { change (from ((c :: w) ++ t) 1) with (w ++ t). rewrite scan_all by done. cbn [length]. lia. }
  by rewrite from_app.
Qed.

(** A word with a character that is not a letter is no keyword. *)
Lemma nonletter_class w d : d ∈ w -> sqlite3Isdigit d = true \/ d = 36 -> word_class w = tkOTHER.
Proof.
  intros Hd Hc. assert (sqlite3Tolower d = d) as Hl.
  { destruct Hc as [Hc| ->]; [|done]. apply digit_cases in Hc.
    pose proof (byte_forall (fun d => implb ((48 <=? d) && (d <=? 57)) (sqlite3Tolower d =? d)) ltac:(vm_compute; reflexivity) d) as H.
    assert (is_u 8 d) as Hb by (unfold is_u; change (2 ^ 8) with 256; lia). specialize (H Hb). cbn beta in H.
    assert ((48 <=? d) && (d <=? 57) = true) as E by lia. rewrite E in H. by apply Z.eqb_eq in H. }
  assert (forall k, forallb (fun c => (97 <=? c) && (c <=? 122)) (txt k) = true -> bool_decide (fold_case w = txt k) = false) as H.
  { intros k Hk. apply bool_decide_false. intros E. rewrite forallb_forall in Hk.
    assert (d ∈ txt k) as Hin by (rewrite <- E, <- Hl; by apply (list_elem_of_fmap_2 sqlite3Tolower)).
    specialize (Hk d). rewrite <- list_elem_of_In in Hk. specialize (Hk Hin).
    destruct Hc as [Hc| ->]; [|done]. apply digit_cases in Hc. lia. }
  unfold word_class. by rewrite !H by done.
Qed.

Lemma acts_run w t d : all IdChar w -> IdChar (hd0 t) = false -> d ∈ w -> sqlite3Isdigit d = true \/ d = 36 ->
  acts w t [tkOTHER].
Proof.
  intros Hw Ht Hd Hc. rewrite <- (nonletter_class w d) by done. apply acts_word; [done| |done]. by intros ->; apply elem_of_nil in Hd.
Qed.

Lemma digits_id w : all sqlite3Isdigit w -> all IdChar w.
Proof.
  intros Hw. eapply Forall_impl; [exact Hw|]. intros c Hc. by apply (class_check 4 IdChar c ltac:(vm_compute; reflexivity)).
Qed.

(** Digits, if any. *)
Lemma acts_digits ds t : all sqlite3Isdigit ds -> IdChar (hd0 t) = false -> ds <> [] -> acts ds t [tkOTHER].
Proof.
  intros Hd Ht Hne. destruct ds as [|d ds]; [done|]. apply (acts_run _ _ d); [by apply digits_id|done|by left|].
  apply Forall_cons in Hd as [Hd _]. by left.
Qed.

Lemma acts_other_opt a b t : acts a (b ++ t) [tkOTHER] -> b = [] \/ acts b t [tkOTHER] -> acts (a ++ b) t [tkOTHER].
Proof. intros Ha [->|Hb]; [by rewrite app_nil_r|by apply acts_others]. Qed.

(** ** Every element *)

Lemma acts_punct k t : lex_ok (LPunct k) -> ends_before (LPunct k) t -> acts (spell (LPunct k)) t (lex_class (LPunct k)).
Proof.
  cbn [lex_ok ends_before spell]. intros Hk Ht.
  assert (forall a b, lone a = true -> lone b = true -> acts [a; b] t [tkOTHER]) as Htwo.
  { intros a b Ha Hb. apply (acts_others [a] [b]); by apply lone_char. }
  assert (forall c d, c = 45 /\ d = 45 \/ c = 47 /\ d = 42 -> hd0 t <> d -> acts [c] t [tkOTHER]) as Hdash.
  { intros c d Hcd Hd. apply acts_char; [lia|]. intros s. unfold complete_turn. rewrite rd_second. cbn [hd tl].
    destruct Hcd as [[-> ->]|[-> ->]]; ground_eqb; by rewrite (proj2 (Z.eqb_neq _ _)). }
  change (length puncts) with 24%nat in Hk.
  do 24 (destruct k as [|k]; [solve [
    match goal with |- context [punct ?k] =>
      let r := eval vm_compute in (punct k) in change (punct k) with r in * end;
    cbn [fst snd lex_class] in *;
    first [by apply lone_char | by apply Htwo
      | eapply Hdash; [by left|]; intros E; apply Ht; rewrite E; by left
      | eapply Hdash; [by right|]; intros E; apply Ht; rewrite E; by left
      | by apply acts_char]]|]).
  lia.
Qed.

Lemma acts_number ip fp ex t : lex_ok (LNumber ip fp ex) -> ends_before (LNumber ip fp ex) t ->
  acts (spell (LNumber ip fp ex)) t [tkOTHER].
Proof.
  cbn [lex_ok ends_before spell]. fold (spell_frac fp). intros (Hip & Hfp & Hne & Hex) (Ht & _).
  (* the part from the letter of the exponent on, after digits [ds] *)
  assert (forall ds, all sqlite3Isdigit ds -> ds ++ spell_exp ex = [] \/ acts (ds ++ spell_exp ex) t [tkOTHER]) as Htail.
  { intros ds Hds. destruct ex as [[[e sgn] xs]|]; cbn [spell_exp].
    2: { rewrite app_nil_r. destruct ds as [|d ds]; [by left|right]. by apply acts_digits. }
    right. destruct Hex as (He & Hs & Hx & Hxne). assert (IdChar e = true) as Hie by (destruct He as [-> | ->]; done).
    assert (all IdChar [e]) as He1 by (repeat constructor; done).
    destruct xs as [|x xs]; [done|]. pose proof Hx as Hx'. apply Forall_cons in Hx' as [Hx1 _].
    destruct Hs as [->|Hs]; cbn [app].
    - apply (acts_run _ _ x); [|done|set_solver|by left].
      apply Forall_app. split; [by apply digits_id|]. constructor; [done|]. by apply digits_id.
    - assert (exists s, sgn = [s] /\ IdChar s = false /\ acts [s] (x :: xs ++ t) [tkOTHER]) as (s & -> & Hs1 & Hs2).
      { destruct Hs as [-> | ->]; eexists; (split; [done|]); (split; [done|]); [by apply lone_char|].
        apply acts_char; [done|]. intros st. unfold complete_turn. rewrite rd_second. cbn [hd tl]. ground_eqb.
        assert (x =? 45 = false) as -> by (apply Z.eqb_neq; intros ->; done). done. }
      replace (ds ++ e :: [s] ++ x :: xs) with ((ds ++ [e]) ++ [s] ++ x :: xs) by by rewrite <- (assoc_L (++)).
      apply acts_others; [|apply acts_others; [done|by apply acts_digits]].
      assert (word_class (ds ++ [e]) = tkOTHER) as <-.
      { destruct ds as [|d ds]; [destruct He as [-> | ->]; done|]. apply (nonletter_class _ d); [by left|].
        apply Forall_cons in Hds as [Hd _]. by left. }
      apply acts_word; [|by destruct ds|done]. apply Forall_app. split; [by apply digits_id|done]. }
  destruct fp as [fp|]; cbn [spell_frac default from_option id app] in *.
  - assert (acts (46 :: fp ++ spell_exp ex) t [tkOTHER]) as Hfrac.
    { apply (acts_other_opt [46]); [by apply lone_char|by apply Htail]. }
    destruct ip as [|d ip]; [done|]. apply acts_others; [|done]. by apply acts_digits.
  - destruct Hne as [Hne|?]; [|done]. destruct (Htail ip Hip) as [E|?]; [|done]. by apply app_eq_nil in E as [-> _].
Qed.

Lemma acts_lexeme l t : lex_ok l -> plain l t -> ends_before l t -> acts (spell l) t (lex_class l).
Proof.
  destruct l; intros Hok Hp Ht.
  - destruct Hok as (_ & Hw & _). by apply acts_space.
  - by apply acts_line.
  - destruct Hok. by apply acts_block.
  - by apply acts_punct.
  - apply acts_quoted; [cbn; tauto|done].
  - destruct Hok as [Hq Hs]. apply acts_quoted; [cbn; lia|done].
  - by apply acts_bracket.
  - destruct Hok as (? & _ & ? & _), Ht. by apply acts_word.
  - by apply acts_number.
  - destruct Hok as (Hx & Hh & _). cbn [spell lex_class].
    assert (acts [x] ((39 :: hex ++ [39]) ++ t) [tkOTHER]) as H1.
    { assert (word_class [x] = tkOTHER) as <- by (destruct Hx as [-> | ->]; done).
      apply acts_word; [|done|done]. repeat constructor. by destruct Hx as [-> | ->]. }
    apply (acts_others [x]); [done|]. rewrite <- (dq_none 39 hex) at 1.
    + apply acts_quoted; [cbn; tauto|]. eapply Forall_impl; [exact Hh|]. by intros c Hc ->.
    + eapply Forall_impl; [exact Hh|]. by intros c Hc ->.
  - cbn [spell lex_class]. apply (acts_other_opt [63]); [by apply lone_char|].
    destruct ds as [|d ds]; [by left|right]. destruct Hp as [?|Hp]; [done|]. by apply acts_digits.
  - destruct Hok as (Hc & Hne & Hw), Ht as (Ht & _ & _). cbn [spell lex_class]. destruct (Z.eqb_spec c 36) as [->|Hc36].
    + apply (acts_run _ _ 36); [by constructor|done|by left|by right].
    + apply (acts_app [c] w t [tkOTHER] [word_class w]); [repeat constructor; done| |by apply acts_word].
      apply lone_char. cbn in Hc. destruct_or!; subst; done.
Qed.

Lemma class_range l : Forall (fun t => 0 <= t < 8) (lex_class l).
Proof.
  assert (forall w, 0 <= word_class w < 8) as Hw.
  { intros w. unfold word_class. repeat (destruct (bool_decide _); [done|]). cbn [orb].
    repeat (destruct (bool_decide _); [done|]). done. }
  assert (forall x, 0 <= x < 8 -> Forall (fun t => 0 <= t < 8) [x]) as H1 by (intros; by constructor).
  destruct l as [| | |k| | | | | | | |c w]; cbn [lex_class]; try (by constructor); try (apply H1; done || apply Hw).
  - do 4 (destruct k as [|k]; [by apply H1|]). by apply H1.
  - destruct (c =? 36); [by apply H1|]. constructor; [done|by apply H1].
Qed.

Lemma acts_all ls : Forall lex_ok ls -> separated ls -> plain_all ls ->
  acts (concat (map spell ls)) [] (concat (map lex_class ls)).
Proof.
  induction ls as [|l ls IH]; intros Hok Hsep Hp; [apply acts_nil|]. apply Forall_cons in Hok as [Hl Hok].
  destruct Hsep, Hp. cbn [map concat]. apply acts_app; [apply class_range| |by apply IH].
  rewrite app_nil_r. by apply acts_lexeme.
Qed.

(** A text is always judged. *)
Lemma comp_total z : forall s, exists b, comp s z = Some b.
Proof.
  induction z as [z IH] using (induction_ltof1 _ (@length Z)); unfold ltof in IH. intros s.
  destruct (decide (hd0 z = 0)) as [E|E].
  - unfold comp. cbn [complete_loop]. rewrite E. by eexists.
  - rewrite comp_step by done. destruct (complete_turn s z) as [t z'|r] eqn:ET; [|by eexists].
    apply IH. by eapply turn_shorter.
Qed.

(** [sqlite3_complete] terminates on every text, and on every spelled-out sequence of lexical elements
    its answer is that of the statement machine run on the elements: quotes, comments, numbers and
    variables are skipped exactly as the tokenizer would. *)
Theorem complete_refines_machine ls (Hok : Forall lex_ok ls) (Hsep : separated ls) (Hp : plain_all ls) :
  sqlite3_complete (concat (map spell ls)) = Some (run_states 0 (concat (map lex_class ls)) =? 1) /\
  forall z, exists b, sqlite3_complete z = Some b.
Proof.
  split; [|intros z; apply comp_total]. pose proof (acts_all ls Hok Hsep Hp 0 ltac:(unfold is_state; lia)) as H. rewrite app_nil_r in H.
  exact H.
Qed.

Lemma complete_refines_machine_witness :
  sqlite3_complete (txt "CREATE TRIGGER x; end;") = Some true.
Proof.
  apply (complete_refines_machine [LWord (txt "CREATE"); LSpace [32]; LWord (txt "TRIGGER"); LSpace [32]; LWord (txt "x");
    LPunct 3; LSpace [32]; LWord (txt "end"); LPunct 3]).
  - repeat (apply Forall_cons; split); [..|apply Forall_nil; exact I]; cbn [lex_ok]; repeat split;
      try discriminate; try (repeat constructor; discriminate); try (vm_compute; lia).
  - cbn. repeat split; try discriminate; try (intros [H|H]; discriminate H); try reflexivity; set_solver.
  - cbn. repeat split; repeat constructor; discriminate.
Defined.

(** ** What the machine accepts *)

Lemma run_app s a b : run_states s (a ++ b) = run_states (run_states s a) b.
Proof. apply fold_left_app. Qed.

(** Without CREATE the machine stays in the states 0 to 3, and a semicolon leads to 1 and nothing else does. *)
Lemma plain_states ts : Forall (fun t => In t [tkSEMI; tkOTHER; tkEXPLAIN; tkTEMP; tkTRIGGER; tkEND]) ts ->
  forall s, 0 <= s < 4 -> 0 <= run_states s ts < 4 /\ (ts <> [] -> run_states s ts = 1 <-> list.last ts = Some tkSEMI).
Proof.
  intros Hts. induction ts as [|t ts IH] using rev_ind; intros s Hs; [done|].
  apply Forall_app in Hts as [Hts Ht]. apply Forall_cons in Ht as [Ht _]. destruct (IH Hts s Hs) as [Hr _].
  rewrite run_app, last_snoc. set (r := run_states s ts) in *. clearbody r. cbn [run_states fold_left].
  assert (r = 0 \/ r = 1 \/ r = 2 \/ r = 3) as Hr' by lia. cbn in Ht.
  destruct_or!; subst; try done; (split; [vm_compute; split; discriminate || done|]); intros _; split; intros H; done.
Qed.

(** From the trigger state the way out is a semicolon, END and a semicolon; [seen s] is the part of it
    that has been read. *)
Definition has_end (ts : list Z) : Prop := exists a b, ts = a ++ [tkSEMI; tkEND; tkSEMI] ++ b.
Definition seen (s : Z) : list Z := if s =? 6 then [tkSEMI] else if s =? 7 then [tkSEMI; tkEND] else [].

Lemma has_end_cons t ts : has_end ts -> has_end (t :: ts).
Proof. intros (a & b & ->). by exists (t :: a), b. Qed.

Lemma trigger_exit ts : Forall (fun t => 0 <= t < 8 /\ t <> tkWS) ts ->
  forall s, 5 <= s <= 7 -> run_states s ts = 1 -> has_end (seen s ++ ts).
Proof.
  induction 1 as [|t ts [Ht Hws] Hts IH]; intros s Hs Hr; [exfalso; cbn in Hr; lia|].
  assert (t = 0 \/ t = 2 \/ t = 3 \/ t = 4 \/ t = 5 \/ t = 6 \/ t = 7) as Hc by (unfold tkWS in Hws; lia).
  change (run_states s (t :: ts)) with (run_states (trans s t) ts) in Hr.
  assert (s = 5 \/ s = 6 \/ s = 7) as [-> |[-> | ->]] by lia; cbn [seen app].
  - destruct Hc as [->|Hc]; [exact (IH 6 ltac:(lia) Hr)|].
    assert (trans 5 t = 5) as E by (destruct_or!; subst; done). rewrite E in Hr.
    apply has_end_cons. exact (IH 5 ltac:(lia) Hr).
  - destruct (decide (t = 0)) as [->|Ht0]; [apply (has_end_cons tkSEMI); exact (IH 6 ltac:(lia) Hr)|].
    destruct (decide (t = 7)) as [->|Ht7]; [exact (IH 7 ltac:(lia) Hr)|].
    assert (trans 6 t = 5) as E by (destruct_or!; subst; done). rewrite E in Hr.
    apply (has_end_cons tkSEMI), has_end_cons. exact (IH 5 ltac:(lia) Hr).
  - destruct (decide (t = 0)) as [->|Ht0]; [by exists [], ts|].
    assert (trans 7 t = 5) as E by (destruct_or!; subst; done). rewrite E in Hr.
    apply (has_end_cons tkSEMI), (has_end_cons tkEND), has_end_cons. exact (IH 5 ltac:(lia) Hr).
Qed.

Lemma trigger_stay ts : Forall (fun t => 0 <= t < 8 /\ t <> tkWS) ts ->
  forall s, 5 <= s <= 7 -> ~ has_end (seen s ++ ts) -> 5 <= run_states s ts <= 7.
Proof.
  induction 1 as [|t ts [Ht Hws] Hts IH]; intros s Hs Hno; [done|].
  assert (t = 0 \/ t = 2 \/ t = 3 \/ t = 4 \/ t = 5 \/ t = 6 \/ t = 7) as Hc by (unfold tkWS in Hws; lia).
  change (run_states s (t :: ts)) with (run_states (trans s t) ts).
  assert (s = 5 \/ s = 6 \/ s = 7) as Hs' by lia.
  destruct (decide (s = 7 /\ t = 0)) as [[-> ->]|Hend]; [destruct Hno; by exists [], ts|].
  apply IH; destruct_or!; subst; try (exfalso; by apply Hend); try (vm_compute; split; discriminate);
    intros Hh; apply Hno; first [exact Hh | apply has_end_cons; exact Hh | do 2 apply has_end_cons; exact Hh | do 3 apply has_end_cons; exact Hh].
Qed.

(** What the machine accepts. A text without the word CREATE is complete exactly when its last
    token is a semicolon. A text that starts a CREATE [TEMP] TRIGGER statement, even after EXPLAIN and other words, is complete only if
    the definition is closed by a semicolon, END and a semicolon in a row; and it is complete right after them. *)
Theorem complete_machine_meaning :
  (forall ts, ts <> [] -> Forall (fun t => In t [tkSEMI; tkOTHER; tkEXPLAIN; tkTEMP; tkTRIGGER; tkEND]) ts ->
     run_states 0 ts = 1 <-> list.last ts = Some tkSEMI) /\
  (forall (explain : bool) n m body, Forall (fun t => 0 <= t < 8 /\ t <> tkWS) body ->
     let start := (if explain then tkEXPLAIN :: replicate n tkOTHER else []) ++ tkCREATE :: replicate m tkTEMP ++ [tkTRIGGER] in
     (run_states 0 (start ++ body) = 1 -> has_end body) /\
     (~ has_end body -> run_states 0 (start ++ body ++ [tkSEMI; tkEND; tkSEMI]) = 1)).
Proof.
  split.
  - intros ts Hne Hts. by apply (plain_states ts Hts 0 ltac:(lia)).
  - intros explain n m body Hb start.
    assert (run_states 0 start = 5) as Hstart.
    { subst start. rewrite run_app. set (r := run_states 0 _). assert (r = 0 \/ r = 3) as Hr.
      { subst r. destruct explain; [|by left]. right. cbn [run_states fold_left]. change (trans 0 tkEXPLAIN) with 3.
        induction n as [|n IH]; [done|]. exact IH. }
      clearbody r. change (tkCREATE :: replicate m tkTEMP ++ [tkTRIGGER]) with ([tkCREATE] ++ replicate m tkTEMP ++ [tkTRIGGER]).
      rewrite !run_app. assert (run_states r [tkCREATE] = 4) as -> by (destruct Hr as [-> | ->]; done).
      assert (run_states 4 (replicate m tkTEMP) = 4) as ->; [|done]. induction m as [|m IH]; [done|exact IH]. }
    rewrite !run_app, Hstart. split.
    + intros Hr. by apply (trigger_exit body Hb 5).
    + intros Hno. pose proof (trigger_stay body Hb 5 ltac:(lia) Hno) as Hs.
      assert (run_states 5 body = 5 \/ run_states 5 body = 6 \/ run_states 5 body = 7) as H by lia.
      destruct H as [-> |[-> | ->]]; done.
Qed.

(** Texts the statement above does not cover: [sqlite3_complete] does not take a vertical tab inside white space for
    white space, as the tokenizer does. *)
Lemma complete_vertical_tab :
  sqlite3_complete [59; 32; 11] = Some false /\ map fst (all_tokens [59; 32; 11]) = [TK_SEMI; TK_SPACE].
Proof. split; reflexivity. Qed.
