(* ===== verification/Random.v ===== *)
(** The pseudo-random generator of random.c. The 256 seed bytes [sqlite3OsRandomness] delivers
    are a parameter; the mutex is not modelled. *)
From Stdlib Require Import String.
From S2P Require Import Prelude Keywords.
Local Open Scope Z_scope.

Record sqlite3PrngType := { isInit : Z; prng_i : Z; prng_j : Z; prng_s : list Z }.

Definition zeroPrng : sqlite3PrngType := {| isInit := 0; prng_i := 0; prng_j := 0; prng_s := replicate 256 0 |}.

(** [for(i=0; i<256; i++){ j += s[i] + k[i]; t = s[j]; s[j] = s[i]; s[i] = t; }] *)
Fixpoint prng_key (fuel : nat) (k : list Z) (i j : Z) (s : list Z) : Z * list Z :=
  match fuel with
  | O => (j, s)
  | S fuel =>
      let j := u8 (j + rd s i + rd k i) in
      let t := rd s j in
      let s := wr s j (rd s i) in
      prng_key fuel k (i + 1) j (wr s i t)
  end.

Definition prng_init (k : list Z) : sqlite3PrngType :=
  let '(j, s) := prng_key 256 k 0 0 (seqZ 0 256) in
  {| isInit := 1; prng_i := 0; prng_j := j; prng_s := s |}.

(** One turn of the output loop. *)
Definition prng_next (p : sqlite3PrngType) : Z * sqlite3PrngType :=
  let i := u8 (prng_i p + 1) in
  let t := rd (prng_s p) i in
  let j := u8 (prng_j p + t) in
  let s := wr (prng_s p) i (rd (prng_s p) j) in
  let s := wr s j t in
  let t := u8 (t + rd s i) in
  (rd s t, {| isInit := isInit p; prng_i := i; prng_j := j; prng_s := s |}).

Fixpoint prng_bytes (n : nat) (p : sqlite3PrngType) : list Z * sqlite3PrngType :=
  match n with
  | O => ([], p)
  | S n => let '(b, p) := prng_next p in let '(l, p) := prng_bytes n p in (b :: l, p)
  end.

(** [k] is what the operating system would deliver as the seed. *)
Definition sqlite3_randomness (k : list Z) (p : sqlite3PrngType) (N : Z) : list Z * sqlite3PrngType :=
  if N <=? 0 then ([], {| isInit := 0; prng_i := prng_i p; prng_j := prng_j p; prng_s := prng_s p |})
  else
    let p := if isInit p =? 0 then prng_init k else p in
    prng_bytes (Z.to_nat N) p.

(** The pair of the current and the saved generator. *)
Definition sqlite3PrngSaveState (st : sqlite3PrngType * sqlite3PrngType) : sqlite3PrngType * sqlite3PrngType := (st.1, st.1).
Definition sqlite3PrngRestoreState (st : sqlite3PrngType * sqlite3PrngType) : sqlite3PrngType * sqlite3PrngType := (st.2, st.2).

(** ** The state *)

(** The table is a permutation of the bytes. *)
Record prng_ok (p : sqlite3PrngType) : Prop := {
  po_i : is_u 8 (prng_i p);
  po_j : is_u 8 (prng_j p);
  po_s : prng_s p ≡ₚ seqZ 0 256 }.

Lemma perm_facts s : s ≡ₚ seqZ 0 256 -> length s = 256%nat /\ forall i, 0 <= i < 256 -> is_u 8 (rd s i).
Proof.
  intros Hp. assert (length s = 256%nat) as Hl by (rewrite Hp; apply length_seqZ).
  split; [done|]. intros i Hi. assert (rd s i ∈ seqZ 0 256) as Hin.
  { rewrite <- Hp. eapply list_elem_of_lookup_2, lookup_rd. lia. }
  apply elem_of_seqZ in Hin. unfold is_u. change (2 ^ 8) with 256. lia.
Qed.

Lemma swap_perm s i j : 0 <= i < Z.of_nat (length s) -> 0 <= j < Z.of_nat (length s) ->
  wr (wr s i (rd s j)) j (rd s i) ≡ₚ s.
Proof.
  intros Hi Hj. destruct (decide (i = j)) as [->|Hij].
  - assert (wr s j (rd s j) = s) as E by (unfold wr; apply list_insert_id, lookup_rd; lia). by rewrite !E.
  - assert (Z.to_nat i <> Z.to_nat j) by lia. unfold wr.
    pose proof (lookup_rd s i Hi) as Ei. pose proof (lookup_rd s j Hj) as Ej.
    by apply Permutation_insert_swap.
Qed.

Lemma key_perm k fuel : forall i j s, 0 <= i -> i + Z.of_nat fuel <= 256 -> is_u 8 j -> s ≡ₚ seqZ 0 256 ->
  let '(j', s') := prng_key fuel k i j s in is_u 8 j' /\ s' ≡ₚ seqZ 0 256.
Proof.
  induction fuel as [|fuel IH]; intros i j s Hi Hf Hj Hs; cbn [prng_key]; [done|].
  set (j1 := u8 (j + rd s i + rd k i)). assert (is_u 8 j1) as Hj1 by (apply uwrap_range; lia).
  destruct (perm_facts s Hs) as [Hl _]. apply IH; [lia|lia|done|].
  rewrite swap_perm; [done|unfold is_u in Hj1; change (2 ^ 8) with 256 in Hj1; lia|lia].
Qed.

Lemma init_ok k : prng_ok (prng_init k) /\ isInit (prng_init k) = 1.
Proof.
  unfold prng_init. pose proof (key_perm k 256 0 0 (seqZ 0 256) ltac:(lia) ltac:(lia) ltac:(done) ltac:(done)) as H.
  destruct (prng_key 256 k 0 0 (seqZ 0 256)) as [j s]. destruct H. split; [|done]. by split.
Qed.

Lemma next_ok p : prng_ok p ->
  let '(b, p') := prng_next p in is_u 8 b /\ prng_ok p' /\ isInit p' = isInit p.
Proof.
  intros [Hi Hj Hs]. unfold prng_next.
  set (i := u8 (prng_i p + 1)). set (t := rd (prng_s p) i). set (j := u8 (prng_j p + t)).
  assert (is_u 8 i) as Hi' by (apply uwrap_range; lia). assert (is_u 8 j) as Hj' by (apply uwrap_range; lia).
  destruct (perm_facts _ Hs) as [Hl _]. unfold is_u in Hi', Hj'. change (2 ^ 8) with 256 in *.
  assert (wr (wr (prng_s p) i (rd (prng_s p) j)) j t ≡ₚ seqZ 0 256) as Hs' by (unfold t; rewrite swap_perm; [done|lia|lia]).
  split; [|done]. apply (proj2 (perm_facts _ Hs')). pose proof (uwrap_range 8 (t + rd (wr (wr (prng_s p) i (rd (prng_s p) j)) j t) i) ltac:(lia)) as H.
  unfold is_u in H. change (2 ^ 8) with 256 in H. lia.
Qed.

Lemma bytes_ok n : forall p, prng_ok p ->
  let '(l, p') := prng_bytes n p in length l = n /\ bytes l /\ prng_ok p' /\ isInit p' = isInit p.
Proof.
  induction n as [|n IH]; intros p Hp; cbn [prng_bytes]; [by repeat split; constructor || apply Hp|].
  pose proof (next_ok p Hp) as H1. destruct (prng_next p) as [b p1]. destruct H1 as (Hb & Hp1 & Hi1).
  specialize (IH p1 Hp1). destruct (prng_bytes n p1) as [l p2]. destruct IH as (Hl & Hbs & Hp2 & Hi2).
  split; [cbn; lia|]. split; [by constructor|]. split; [done|congruence].
Qed.

Lemma bytes_app n m : forall p,
  prng_bytes (n + m) p =
  let '(a, p1) := prng_bytes n p in let '(b, p2) := prng_bytes m p1 in (a ++ b, p2).
Proof.
  induction n as [|n IH]; intros p; cbn [Nat.add prng_bytes]; [by destruct (prng_bytes m p)|].
  destruct (prng_next p) as [c p1]. rewrite IH. destruct (prng_bytes n p1) as [a p2]. by destruct (prng_bytes m p2).
Qed.

(** The generator: a request for N > 0 bytes delivers N bytes and leaves an initialised state whose
    table is a permutation of 0..255 and whose indexes are in range; requests
    compose into one stream (N+M bytes are N bytes followed by M bytes); and a state that was saved and restored delivers the same bytes
    again. *)
Theorem randomness_correct k k' p q N M (HN : 0 < N) (HM : 0 < M) (Hp : isInit p = 0 \/ prng_ok p) :
  let '(a, p1) := sqlite3_randomness k p N in
  let '(b, p2) := sqlite3_randomness k' p1 M in
  Z.of_nat (length a) = N /\ bytes a /\ isInit p1 <> 0 /\ prng_ok p1 /\
  sqlite3_randomness k p (N + M) = (a ++ b, p2) /\
  (isInit p <> 0 -> let st := sqlite3PrngRestoreState (p2, (sqlite3PrngSaveState (p, q)).2) in
     sqlite3_randomness k' st.1 N = (a, p1)).
Proof.
  unfold sqlite3_randomness. rewrite !(proj2 (Z.leb_gt _ 0)) by lia.
  set (p0 := if isInit p =? 0 then prng_init k else p).
  assert (prng_ok p0 /\ isInit p0 <> 0) as [Hp0 Hi0].
  { subst p0. destruct (Z.eqb_spec (isInit p) 0) as [E|E]; [destruct (init_ok k) as [? ->]; done|].
    destruct Hp as [?|?]; done. }
  pose proof (bytes_ok (Z.to_nat N) p0 Hp0) as HB. pose proof (bytes_app (Z.to_nat N) (Z.to_nat M) p0) as HA.
  destruct (prng_bytes (Z.to_nat N) p0) as [a p1] eqn:EN. destruct HB as (Hl & Hb & Hp1 & Hi1).
  rewrite (proj2 (Z.eqb_neq (isInit p1) 0)) by congruence.
  destruct (prng_bytes (Z.to_nat M) p1) as [b p2].
  split; [lia|]. split; [done|]. split; [congruence|]. split; [done|]. split.
  - rewrite Z2Nat.inj_add by lia. exact HA.
  - intros Hi. cbn [sqlite3PrngRestoreState sqlite3PrngSaveState fst snd]. rewrite (proj2 (Z.eqb_neq (isInit p) 0)) by done.
    rewrite <- EN. subst p0. by rewrite (proj2 (Z.eqb_neq (isInit p) 0)).
Qed.

(** The seed that repeats the key "Key". *)
Definition key_seed : list Z := take 256 (concat (replicate 86 (txt "Key"))).

Lemma randomness_correct_witness :
  let '(a, _) := sqlite3_randomness key_seed zeroPrng 4 in a = [23; 215; 106; 4] /\ Z.of_nat (length a) = 4.
Proof.
  pose proof (randomness_correct key_seed [] zeroPrng zeroPrng 4 5 ltac:(lia) ltac:(lia) (or_introl eq_refl)) as H.
  assert ((sqlite3_randomness key_seed zeroPrng 4).1 = [23; 215; 106; 4]) as E by (vm_compute; reflexivity).
  destruct (sqlite3_randomness key_seed zeroPrng 4) as [a p1]. destruct (sqlite3_randomness [] p1 5) as [b p2].
  split; [exact E|]. apply H.
Defined.

(** Not quite RC4: the published key stream for this key starts EB 9F 77 81, and the generator delivers it only if [j] is
    set back to 0 after the key schedule, which the code does not do. *)
Lemma randomness_not_rc4 :
  let p := prng_init key_seed in
  (prng_bytes 4 {| isInit := 1; prng_i := 0; prng_j := 0; prng_s := prng_s p |}).1 = [0xEB; 0x9F; 0x77; 0x81] /\
  (sqlite3_randomness key_seed zeroPrng 4).1 = [23; 215; 106; 4].
Proof. vm_compute. split; reflexivity. Qed.
