(* ===== verification/Utf.v ===== *)
(** Text encodings: utf.c. Input is consumed from a byte list that ends where [zTerm] points. *)
From S2P Require Import Prelude Text Keywords.
Local Open Scope Z_scope.
Local Open Scope c_scope.

Definition sqlite3Utf8Trans1 : list Z :=
  [0; 1; 2; 3; 4; 5; 6; 7;
   8; 9; 10; 11; 12; 13; 14; 15;
   16; 17; 18; 19; 20; 21; 22; 23;
   24; 25; 26; 27; 28; 29; 30; 31;
   0; 1; 2; 3; 4; 5; 6; 7;
   8; 9; 10; 11; 12; 13; 14; 15;
   0; 1; 2; 3; 4; 5; 6; 7;
   0; 1; 2; 3; 0; 1; 0; 0].

(** ** Characters *)

Definition WRITE_UTF8 (c : Z) : list Z :=
  if c <? 0x80 then [u8 (c .& 0xFF)]
  else if c <? 0x800 then [u8 (0xC0 + (c >> 6 .& 0x1F)); u8 (0x80 + (c .& 0x3F))]
  else if c <? 0x10000 then
    [u8 (0xE0 + (c >> 12 .& 0x0F)); u8 (0x80 + (c >> 6 .& 0x3F)); u8 (0x80 + (c .& 0x3F))]
  else
    [u8 (0xF0 + (c >> 18 .& 0x07)); u8 (0x80 + (c >> 12 .& 0x3F)); u8 (0x80 + (c >> 6 .& 0x3F)); u8 (0x80 + (c .& 0x3F))].

Definition WRITE_UTF16LE (c : Z) : list Z :=
  if c <=? 0xFFFF then [u8 (c .& 0x00FF); u8 (c >> 8 .& 0x00FF)]
  else [u8 ((c >> 10 .& 0x003F) + (u32 (c - 0x10000) >> 10 .& 0x00C0)); u8 (0x00D8 + (u32 (c - 0x10000) >> 18 .& 0x03));
        u8 (c .& 0x00FF); u8 (0x00DC + (c >> 8 .& 0x03))].

Definition WRITE_UTF16BE (c : Z) : list Z :=
  if c <=? 0xFFFF then [u8 (c >> 8 .& 0x00FF); u8 (c .& 0x00FF)]
  else [u8 (0x00D8 + (u32 (c - 0x10000) >> 18 .& 0x03)); u8 ((c >> 10 .& 0x003F) + (u32 (c - 0x10000) >> 10 .& 0x00C0));
        u8 (0x00DC + (c >> 8 .& 0x03)); u8 (c .& 0x00FF)].

(** The surrogate pair of two 16-bit units. *)
Definition surrogate (c c2 : Z) : Z :=
  u32 ((c2 .& 0x03FF) + ((c .& 0x003F) << 10) + (((c .& 0x03C0) + 0x0040) << 10)).

(** The character and the rest. With [chk] the condition [TERM] is that input is left ([zIn<zTerm]), without it is 1. *)
Definition READ_UTF16LE (chk : bool) (z : list Z) : Z * list Z :=
  let c := rd z 0 + (rd z 1 << 8) in
  let z := drop 2 z in
  if (0xD800 <=? c) && (c <? 0xE000) && (negb chk || (0 <? Z.of_nat (length z)))
  then (surrogate c (rd z 0 + (rd z 1 << 8)), drop 2 z) else (c, z).

Definition READ_UTF16BE (chk : bool) (z : list Z) : Z * list Z :=
  let c := (rd z 0 << 8) + rd z 1 in
  let z := drop 2 z in
  if (0xD800 <=? c) && (c <? 0xE000) && (negb chk || (0 <? Z.of_nat (length z)))
  then (surrogate c ((rd z 0 << 8) + rd z 1), drop 2 z) else (c, z).

(** [while( zIn!=zTerm && ( *zIn & 0xc0)==0x80 ){ c = (c<<6) + (0x3f & *(zIn++)); }] *)
Fixpoint utf8_cont (c : Z) (z : list Z) : Z * list Z :=
  match z with
  | b :: z' => if b .& 0xc0 =? 0x80 then utf8_cont (u32 ((c << 6) + (0x3f .& b))) z' else (c, z)
  | [] => (c, [])
  end.

Definition utf8_fix (c : Z) : Z :=
  if (c <? 0x80) || (c .& 0xFFFFF800 =? 0xD800) || (c .& 0xFFFFFFFE =? 0xFFFE) then 0xFFFD else c.

Definition READ_UTF8 (z : list Z) : Z * list Z :=
  let c := hd0 z in
  if 0xc0 <=? c then
    let '(c, z) := utf8_cont (rd sqlite3Utf8Trans1 (c - 0xc0)) (tl z) in (utf8_fix c, z)
  else (c, tl z).

(** The same on a zero-terminated string, given by the bytes before the terminator. *)
Definition sqlite3Utf8Read (pz : list Z) : Z * list Z := READ_UTF8 pz.

(** [SQLITE_SKIP_UTF8]: the bytes of one character. *)
Fixpoint skip_cont (z : list Z) : list Z :=
  match z with
  | b :: z' => if b .& 0xc0 =? 0x80 then skip_cont z' else z
  | [] => []
  end.
Definition SQLITE_SKIP_UTF8 (z : list Z) : list Z := if 0xc0 <=? hd0 z then skip_cont (tl z) else tl z.

(** ** Strings *)

(** The part of a [Mem] the translation reads and writes: the encoding, the [n] bytes at [z], and the MEM_Term flag. *)
Record Mem := { m_enc : Z; m_z : list Z; m_term : bool }.

Definition WRITE_UTF16 (enc c : Z) : list Z := if enc =? SQLITE_UTF16LE then WRITE_UTF16LE c else WRITE_UTF16BE c.
Definition READ_UTF16 (chk : bool) (enc : Z) (z : list Z) : Z * list Z :=
  if enc =? SQLITE_UTF16LE then READ_UTF16LE chk z else READ_UTF16BE chk z.

(** [while( zIn<zTerm ){ READ_UTF8(zIn, zTerm, c); WRITE_UTF16xx(z, c); }] *)
Fixpoint utf8_to_16 (fuel : nat) (enc : Z) (z : list Z) : list Z :=
  match fuel with
  | O => []
  | S fuel => match z with [] => [] | _ => let '(c, z) := READ_UTF8 z in WRITE_UTF16 enc c ++ utf8_to_16 fuel enc z end
  end.

(** [while( zIn<zTerm ){ READ_UTF16xx(zIn, zIn<zTerm, c); WRITE_UTF8(z, c); }] *)
Fixpoint utf16_to_8 (fuel : nat) (enc : Z) (z : list Z) : list Z :=
  match fuel with
  | O => []
  | S fuel => match z with [] => [] | _ => let '(c, z) := READ_UTF16 true enc z in WRITE_UTF8 c ++ utf16_to_8 fuel enc z end
  end.

Fixpoint swap_pairs (z : list Z) : list Z :=
  match z with
  | a :: b :: z => b :: a :: swap_pairs z
  | _ => z
  end.

(** The number of bytes without an odd last one. *)
Definition even_len (n : Z) : Z := n .& Z.lnot 1.

(** The size of the output buffer, an [int]. *)
Definition translate_len (m : Mem) (desiredEnc : Z) : Z :=
  if desiredEnc =? SQLITE_UTF8 then i32 (even_len (Z.of_nat (length (m_z m))) * 2 + 1)
  else i32 (Z.of_nat (length (m_z m)) * 2 + 2).

(** [writable] and [alloc] say whether [sqlite3VdbeMemMakeWriteable] and [sqlite3DbMallocRaw] succeed. *)
Definition sqlite3VdbeMemTranslate (writable alloc : bool) (m : Mem) (desiredEnc : Z) : Z * Mem :=
  if negb (m_enc m =? SQLITE_UTF8) && negb (desiredEnc =? SQLITE_UTF8) then
    if negb writable then (SQLITE_NOMEM, m)
    else (0, {| m_enc := desiredEnc; m_z := swap_pairs (m_z m); m_term := m_term m |})
  else
    let zIn := if desiredEnc =? SQLITE_UTF8 then take (Z.to_nat (even_len (Z.of_nat (length (m_z m))))) (m_z m) else m_z m in
    if negb alloc then (SQLITE_NOMEM, {| m_enc := m_enc m; m_z := zIn; m_term := m_term m |})
    else
      let zOut := if m_enc m =? SQLITE_UTF8 then utf8_to_16 (length zIn) desiredEnc zIn
                  else utf16_to_8 (length zIn) (m_enc m) zIn in
      (0, {| m_enc := desiredEnc; m_z := zOut; m_term := true |}).

Definition sqlite3VdbeMemHandleBom (writable : bool) (m : Mem) : Z * Mem :=
  let b1 := rd (m_z m) 0 in
  let b2 := rd (m_z m) 1 in
  let bom :=
    if 1 <? Z.of_nat (length (m_z m)) then
      let bom := if (b1 =? 0xFE) && (b2 =? 0xFF) then SQLITE_UTF16BE else 0 in
      if (b1 =? 0xFF) && (b2 =? 0xFE) then SQLITE_UTF16LE else bom
    else 0 in
  if negb (bom =? 0) then
    if negb writable then (SQLITE_NOMEM, m)
    else (0, {| m_enc := bom; m_z := drop 2 (m_z m); m_term := true |})
  else (0, m).

(** [pos] is [z - zIn]. *)
Fixpoint charlen_loop (fuel : nat) (z : list Z) (pos nByte r : Z) : Z :=
  match fuel with
  | O => r
  | S fuel =>
      if negb (hd0 z =? 0) && ((nByte <? 0) || (pos <? nByte)) then
        let z' := SQLITE_SKIP_UTF8 z in
        charlen_loop fuel z' (pos + Z.of_nat (length z - length z')) nByte (r + 1)
      else r
  end.
Definition sqlite3Utf8CharLen (z : list Z) (nByte : Z) : Z := charlen_loop (length z) z 0 nByte 0.

(** On a little-endian machine the native order is [SQLITE_UTF16LE]. *)
Fixpoint utf16_skip (nChar : nat) (enc : Z) (z : list Z) : list Z :=
  match nChar with
  | O => z
  | S n => utf16_skip n enc (READ_UTF16 false enc z).2
  end.
Definition sqlite3Utf16ByteLen (native : Z) (z : list Z) (nChar : Z) : Z :=
  Z.of_nat (length z - length (utf16_skip (Z.to_nat nChar) native z)).

Example utf8_euro : WRITE_UTF8 0x20AC = [0xE2; 0x82; 0xAC] /\ READ_UTF8 [0xE2; 0x82; 0xAC; 65] = (0x20AC, [65]).
Proof. done. Qed.
Example utf16_smile : WRITE_UTF16LE 0x1F600 = [0x3D; 0xD8; 0x00; 0xDE] /\ READ_UTF16LE true [0x3D; 0xD8; 0x00; 0xDE] = (0x1F600, []).
Proof. done. Qed.

(** ** Characters: round trips *)

(** A field of [w] bits at bit [k]. *)
Lemma land_field x k w : 0 <= k -> 0 <= w -> Z.land x (Z.shiftl (Z.ones w) k) = x / 2 ^ k mod 2 ^ w * 2 ^ k.
Proof.
  intros Hk Hw. rewrite <- Z.shiftr_div_pow2, <- Z.shiftl_mul_pow2, <- Z.land_ones by done.
  apply Z.bits_inj'. intros i Hi. rewrite Z.land_spec, !Z.shiftl_spec by done.
  destruct (Z.lt_ge_cases i k); [rewrite !(Z.testbit_neg_r _ (i - k)) by lia; apply andb_false_r|].
  rewrite Z.land_spec, Z.shiftr_spec by lia. by replace (i - k + k) with i by lia.
Qed.

Lemma shr_div x k : 0 <= k -> x >> k = x / 2 ^ k.
Proof. apply Z.shiftr_div_pow2. Qed.
Lemma shl_mul x k : 0 <= k -> x << k = x * 2 ^ k.
Proof. apply Z.shiftl_mul_pow2. Qed.

(** Masks and shifts by constants as divisions. *)
Lemma land_3f x : x .& 0x3F = x mod 64.
Proof. apply (Z.land_ones x 6). lia. Qed.
Lemma land_3f' x : 0x3F .& x = x mod 64.
Proof. rewrite Z.land_comm. apply land_3f. Qed.
Lemma land_1f x : x .& 0x1F = x mod 32.
Proof. apply (Z.land_ones x 5). lia. Qed.
Lemma land_0f x : x .& 0x0F = x mod 16.
Proof. apply (Z.land_ones x 4). lia. Qed.
Lemma land_07 x : x .& 0x07 = x mod 8.
Proof. apply (Z.land_ones x 3). lia. Qed.
Lemma land_03 x : x .& 0x03 = x mod 4.
Proof. apply (Z.land_ones x 2). lia. Qed.
Lemma land_ff x : x .& 0xFF = x mod 256.
Proof. apply (Z.land_ones x 8). lia. Qed.
Lemma land_3ff x : x .& 0x03FF = x mod 1024.
Proof. apply (Z.land_ones x 10). lia. Qed.
Lemma land_c0 x : x .& 0xC0 = x / 64 mod 4 * 64.
Proof. apply (land_field x 6 2); lia. Qed.
Lemma land_3c0 x : x .& 0x03C0 = x / 64 mod 16 * 64.
Proof. apply (land_field x 6 4); lia. Qed.

(** [lia] treats divisions and remainders by constants. *)
Ltac Zify.zify_post_hook ::= Z.div_mod_to_equations.

Create HintDb utf.
#[export] Hint Rewrite land_3f land_3f' land_1f land_0f land_07 land_03 land_ff land_3ff land_c0 land_3c0 : utf.

(** Turns masks and shifts into arithmetic. *)
Ltac arith_bits :=
  rewrite ?shr_div, ?shl_mul by lia; autorewrite with utf;
  repeat match goal with |- context [2 ^ ?k] => let r := eval vm_compute in (2 ^ k) in change (2 ^ k) with r end.

Lemma u8_small x : 0 <= x < 256 -> u8 x = x.
Proof. intros H. apply uwrap_small. exact H. Qed.

(** A scalar value [sqlite3Utf8Read] keeps. *)
Definition utf_ok (c : Z) : Prop :=
  0 <= c < 0x110000 /\ ~ (0xD800 <= c < 0xE000) /\ c <> 0xFFFE /\ c <> 0xFFFF.

Lemma utf8_fix_id c : utf_ok c -> 0x80 <= c -> utf8_fix c = c.
Proof.
  intros (H1 & H2 & H3 & H4) H80. unfold utf8_fix.
  assert (c .& 0xFFFFF800 = c / 2048 mod 2097152 * 2048) as -> by (apply (land_field c 11 21); lia).
  assert (c .& 0xFFFFFFFE = c / 2 mod 2147483648 * 2) as -> by (apply (land_field c 1 31); lia).
  rewrite (proj2 (Z.ltb_ge c 0x80)) by lia. cbn [orb].
  destruct (Z.eqb_spec (c / 2048 mod 2097152 * 2048) 0xD800); [exfalso; lia|].
  destruct (Z.eqb_spec (c / 2 mod 2147483648 * 2) 0xFFFE); [exfalso; lia|]. done.
Qed.

Definition is_cont (b : Z) : bool := b .& 0xc0 =? 0x80.

Lemma cont_byte y : 0 <= y < 64 -> is_cont (0x80 + y) = true /\ 0x3F .& (0x80 + y) = y.
Proof. intros Hy. unfold is_cont. arith_bits. split; [apply Z.eqb_eq|]; lia. Qed.

Lemma cont_step c y z : 0 <= y < 64 -> 0 <= c < 2 ^ 24 -> utf8_cont c (0x80 + y :: z) = utf8_cont (c * 64 + y) z.
Proof.
  intros Hy Hc. cbn [utf8_cont]. destruct (cont_byte y Hy) as [Hb ->]. unfold is_cont in Hb. rewrite Hb.
  rewrite shl_mul by lia. change (2 ^ 6) with 64. rewrite uwrap_small; [done|]. unfold is_u. lia.
Qed.

Lemma cont_end c z : is_cont (hd0 z) = false -> utf8_cont c z = (c, z).
Proof. destruct z as [|b z]; [done|]. cbn [hd]. unfold is_cont. intros H. cbn [utf8_cont]. by rewrite H. Qed.

(** The leading byte of a sequence. *)
Lemma trans1 x : 0 <= x < 32 -> rd sqlite3Utf8Trans1 x = x /\
  (x < 16 -> rd sqlite3Utf8Trans1 (32 + x) = x) /\ (x < 8 -> rd sqlite3Utf8Trans1 (48 + x) = x).
Proof.
  intros Hx. assert (forallb (fun x => (rd sqlite3Utf8Trans1 x =? x) && ((16 <=? x) || (rd sqlite3Utf8Trans1 (32 + x) =? x)) &&
    ((8 <=? x) || (rd sqlite3Utf8Trans1 (48 + x) =? x))) (seqZ 0 32) = true) as H by (vm_compute; reflexivity).
  rewrite forallb_forall in H. specialize (H x). rewrite <- list_elem_of_In, elem_of_seqZ in H.
  specialize (H ltac:(lia)). rewrite !andb_true_iff, !orb_true_iff in H. lia.
Qed.

Lemma read_write_utf8 c t : utf_ok c -> is_cont (hd0 t) = false -> READ_UTF8 (WRITE_UTF8 c ++ t) = (c, t).
Proof.
  intros Hc Ht. pose proof Hc as (H1 & _). unfold WRITE_UTF8, READ_UTF8.
  destruct (Z.ltb_spec c 0x80); [|destruct (Z.ltb_spec c 0x800); [|destruct (Z.ltb_spec c 0x10000)]];
    arith_bits; rewrite !u8_small by lia; cbn [app hd tl].
  - rewrite (proj2 (Z.leb_gt 0xc0 _)) by lia. f_equal. lia.
  - rewrite (proj2 (Z.leb_le 0xc0 _)) by lia.
    replace (0xC0 + c / 64 mod 32 - 0xc0) with (c / 64 mod 32) by lia.
    rewrite (proj1 (trans1 (c / 64 mod 32) ltac:(lia))), cont_step, cont_end by (done || lia).
    rewrite <- (utf8_fix_id c Hc) at 3 by lia. f_equal. f_equal. lia.
  - rewrite (proj2 (Z.leb_le 0xc0 _)) by lia.
    replace (0xE0 + c / 4096 mod 16 - 0xc0) with (32 + c / 4096 mod 16) by lia.
    destruct (trans1 (c / 4096 mod 16) ltac:(lia)) as (_ & -> & _); [|lia].
    rewrite !cont_step, cont_end by (done || lia).
    rewrite <- (utf8_fix_id c Hc) at 4 by lia. f_equal. f_equal. lia.
  - rewrite (proj2 (Z.leb_le 0xc0 _)) by lia.
    replace (0xF0 + c / 262144 mod 8 - 0xc0) with (48 + c / 262144 mod 8) by lia.
    destruct (trans1 (c / 262144 mod 8) ltac:(lia)) as (_ & _ & ->); [|lia].
    rewrite !cont_step, cont_end by (done || lia).
    rewrite <- (utf8_fix_id c Hc) at 5 by lia. f_equal. f_equal. lia.
Qed.

(** *** UTF-16 *)

Lemma rd_two a b z : rd (a :: b :: z) 0 = a /\ rd (a :: b :: z) 1 = b /\ drop 2 (a :: b :: z) = z.
Proof. done. Qed.

(** The two units of a character outside the basic plane. *)
Definition hi_unit (c : Z) : Z := 0xD800 + (c - 0x10000) / 1024.
Definition lo_unit (c : Z) : Z := 0xDC00 + c mod 1024.

Lemma surrogate_units c : 0x10000 <= c < 0x110000 -> surrogate (hi_unit c) (lo_unit c) = c.
Proof.
  intros Hc. unfold surrogate, hi_unit, lo_unit. arith_bits. rewrite uwrap_small; [lia|]. unfold is_u. lia.
Qed.

(** One unit in the byte order of [enc]. *)
Definition unit_bytes (enc u : Z) : list Z :=
  if enc =? SQLITE_UTF16LE then [u mod 256; u / 256] else [u / 256; u mod 256].

Lemma cons_eq {A} (a b : A) l k : a = b -> l = k -> a :: l = b :: k.
Proof. by intros -> ->. Qed.

Lemma write_utf16 enc c : 0 <= c < 0x110000 ->
  WRITE_UTF16 enc c = if c <? 0x10000 then unit_bytes enc c else unit_bytes enc (hi_unit c) ++ unit_bytes enc (lo_unit c).
Proof.
  intros Hc. unfold WRITE_UTF16, WRITE_UTF16LE, WRITE_UTF16BE, unit_bytes, hi_unit, lo_unit.
  destruct (Z.leb_spec c 0xFFFF), (Z.ltb_spec c 0x10000); try lia; (destruct (enc =? SQLITE_UTF16LE); cbn [app]);
    rewrite ?(uwrap_small 32 (c - 0x10000)) by (unfold is_u; lia); arith_bits; rewrite !u8_small by lia;
    repeat (apply cons_eq; [lia|]); done.
Qed.

(** Reading a unit. *)
Lemma read_utf16_unit chk enc u z : 0 <= u < 0x10000 ->
  READ_UTF16 chk enc (unit_bytes enc u ++ z) =
  if (0xD800 <=? u) && (u <? 0xE000) && (negb chk || (0 <? Z.of_nat (length z)))
  then (surrogate u (if enc =? SQLITE_UTF16LE then rd z 0 + (rd z 1 << 8) else (rd z 0 << 8) + rd z 1), drop 2 z) else (u, z).
Proof.
  intros Hu. unfold READ_UTF16, READ_UTF16LE, READ_UTF16BE, unit_bytes. destruct (enc =? SQLITE_UTF16LE); cbn [app drop].
  - change (rd (u mod 256 :: u / 256 :: z) 0) with (u mod 256). change (rd (u mod 256 :: u / 256 :: z) 1) with (u / 256).
    replace (u mod 256 + ((u / 256) << 8)) with u by (arith_bits; lia). done.
  - change (rd (u / 256 :: u mod 256 :: z) 0) with (u / 256). change (rd (u / 256 :: u mod 256 :: z) 1) with (u mod 256).
    replace (((u / 256) << 8) + u mod 256) with u by (arith_bits; lia). done.
Qed.

Lemma unit_value enc u z : 0 <= u < 0x10000 -> let z' := unit_bytes enc u ++ z in
  (if enc =? SQLITE_UTF16LE then rd z' 0 + (rd z' 1 << 8) else (rd z' 0 << 8) + rd z' 1) = u /\ drop 2 z' = z /\ 0 < Z.of_nat (length z').
Proof.
  intros Hu. unfold unit_bytes. destruct (enc =? SQLITE_UTF16LE); cbn [app drop length]; (split; [|split; [done|lia]]).
  - change (rd (u mod 256 :: u / 256 :: z) 0) with (u mod 256). change (rd (u mod 256 :: u / 256 :: z) 1) with (u / 256). arith_bits; lia.
  - change (rd (u / 256 :: u mod 256 :: z) 0) with (u / 256). change (rd (u / 256 :: u mod 256 :: z) 1) with (u mod 256). arith_bits; lia.
Qed.

Lemma read_write_utf16 chk enc c t : 0 <= c < 0x110000 -> ~ (0xD800 <= c < 0xE000) ->
  READ_UTF16 chk enc (WRITE_UTF16 enc c ++ t) = (c, t).
Proof.
  intros Hc Hs. rewrite write_utf16 by done. destruct (Z.ltb_spec c 0x10000).
  - rewrite read_utf16_unit by lia. destruct ((0xD800 <=? c) && (c <? 0xE000)) eqn:E; [exfalso; lia|]. done.
  - assert (0xD800 <= hi_unit c < 0xDC00) as Hh by (unfold hi_unit; lia).
    assert (0xDC00 <= lo_unit c < 0xE000) as Hl by (unfold lo_unit; lia).
    rewrite <- (assoc_L (++)), read_utf16_unit by lia.
    destruct (unit_value enc (lo_unit c) t ltac:(lia)) as (Hv & Hd & Hlen). cbv zeta in Hv. rewrite Hv, Hd.
    rewrite (proj2 (Z.leb_le 0xD800 _)), (proj2 (Z.ltb_lt _ 0xE000)), (proj2 (Z.ltb_lt 0 _)) by lia.
    rewrite orb_true_r. cbn [andb]. by rewrite surrogate_units by lia.
Qed.

(** ** Strings of characters *)

Definition utf8_text (cs : list Z) : list Z := concat (map WRITE_UTF8 cs).
Definition utf16_text (enc : Z) (cs : list Z) : list Z := concat (map (WRITE_UTF16 enc) cs).

Lemma write_utf8_head c : utf_ok c -> exists b l, WRITE_UTF8 c = b :: l /\ is_cont b = false.
Proof.
  intros (Hc & _). unfold WRITE_UTF8, is_cont.
  destruct (Z.ltb_spec c 0x80); [|destruct (Z.ltb_spec c 0x800); [|destruct (Z.ltb_spec c 0x10000)]];
    eexists _, _; (split; [done|]); arith_bits; rewrite u8_small by lia; apply Z.eqb_neq; lia.
Qed.

Lemma utf8_text_head cs : Forall utf_ok cs -> is_cont (hd0 (utf8_text cs)) = false.
Proof.
  intros [|c cs' Hc _]; [done|]. unfold utf8_text. cbn [map concat].
  destruct (write_utf8_head c Hc) as (b & l & -> & Hb). done.
Qed.

Lemma utf8_to_16_text enc cs : Forall utf_ok cs -> forall fuel, (length (utf8_text cs) <= fuel)%nat ->
  utf8_to_16 fuel enc (utf8_text cs) = utf16_text enc cs.
Proof.
  induction 1 as [|c cs Hc Hcs IH]; intros fuel Hf; [by destruct fuel|].
  unfold utf8_text, utf16_text in *. cbn [map concat] in *. destruct (write_utf8_head c Hc) as (b & l & E & _).
  pose proof (read_write_utf8 c (utf8_text cs) Hc (utf8_text_head cs Hcs)) as HR. unfold utf8_text in HR.
  rewrite length_app, E in Hf. cbn [length] in Hf. destruct fuel as [|fuel]; [lia|]. cbn [utf8_to_16].
  rewrite HR. rewrite E at 1. cbn [app]. f_equal. apply IH. lia.
Qed.

Lemma write_utf16_nonempty enc c : exists a b l, WRITE_UTF16 enc c = a :: b :: l.
Proof.
  unfold WRITE_UTF16, WRITE_UTF16LE, WRITE_UTF16BE. destruct (enc =? SQLITE_UTF16LE), (c <=? 0xFFFF); by eexists _, _, _.
Qed.

Lemma utf16_to_8_text enc cs : Forall utf_ok cs -> forall fuel, (length (utf16_text enc cs) <= fuel)%nat ->
  utf16_to_8 fuel enc (utf16_text enc cs) = utf8_text cs.
Proof.
  induction 1 as [|c cs Hc Hcs IH]; intros fuel Hf; [by destruct fuel|].
  unfold utf8_text, utf16_text in *. cbn [map concat] in *. destruct (write_utf16_nonempty enc c) as (a & b & l & E).
  destruct Hc as (H1 & H2 & _). pose proof (read_write_utf16 true enc c (utf16_text enc cs) H1 H2) as HR. unfold utf16_text in HR.
  rewrite length_app, E in Hf. cbn [length] in Hf. destruct fuel as [|fuel]; [lia|]. cbn [utf16_to_8].
  rewrite HR. rewrite E at 1. cbn [app]. f_equal. apply IH. lia.
Qed.

Lemma utf16_text_even enc cs : exists k, length (utf16_text enc cs) = (2 * k)%nat.
Proof.
  induction cs as [|c cs [k IH]]; [by exists O|]. unfold utf16_text in *. cbn [map concat]. rewrite length_app, IH.
  unfold WRITE_UTF16, WRITE_UTF16LE, WRITE_UTF16BE. destruct (enc =? SQLITE_UTF16LE), (c <=? 0xFFFF); cbn [length];
    (exists (k + 1)%nat; lia) || (exists (k + 2)%nat; lia).
Qed.

Lemma even_len_spec n : 0 <= n -> even_len n = n / 2 * 2.
Proof.
  intros Hn. unfold even_len. rewrite <- Z.ldiff_land. change 1 with (Z.ones 1) at 1.
  rewrite Z.ldiff_ones_r by lia. rewrite Z.shiftl_mul_pow2, Z.shiftr_div_pow2 by lia. done.
Qed.

Lemma swap_write c z :
  swap_pairs (WRITE_UTF16LE c ++ z) = WRITE_UTF16BE c ++ swap_pairs z /\
  swap_pairs (WRITE_UTF16BE c ++ z) = WRITE_UTF16LE c ++ swap_pairs z.
Proof. unfold WRITE_UTF16LE, WRITE_UTF16BE. by destruct (c <=? 0xFFFF). Qed.

Lemma swap_text cs : swap_pairs (utf16_text SQLITE_UTF16LE cs) = utf16_text SQLITE_UTF16BE cs /\
  swap_pairs (utf16_text SQLITE_UTF16BE cs) = utf16_text SQLITE_UTF16LE cs.
Proof.
  induction cs as [|c cs [IH1 IH2]]; [done|]. unfold utf16_text in *. cbn [map concat].
  change (WRITE_UTF16 SQLITE_UTF16LE c) with (WRITE_UTF16LE c). change (WRITE_UTF16 SQLITE_UTF16BE c) with (WRITE_UTF16BE c).
  destruct (swap_write c (concat (map (WRITE_UTF16 SQLITE_UTF16LE) cs))) as [-> _].
  destruct (swap_write c (concat (map (WRITE_UTF16 SQLITE_UTF16BE) cs))) as [_ ->]. by rewrite IH1, IH2.
Qed.

(** The text of characters [cs] in an encoding. *)
Definition text (enc : Z) (cs : list Z) : list Z := if enc =? SQLITE_UTF8 then utf8_text cs else utf16_text enc cs.
Definition encoding (enc : Z) : Prop := In enc [SQLITE_UTF8; SQLITE_UTF16LE; SQLITE_UTF16BE].

Lemma take_even {A} (l : list A) k : length l = (2 * k)%nat -> take (Z.to_nat (even_len (Z.of_nat (length l)))) l = l.
Proof. intros Hl. rewrite even_len_spec by lia. apply take_ge. lia. Qed.

Lemma translate_text enc enc' cs term : encoding enc -> encoding enc' -> enc <> enc' -> Forall utf_ok cs ->
  exists term', sqlite3VdbeMemTranslate true true {| m_enc := enc; m_z := text enc cs; m_term := term |} enc' =
    (0, {| m_enc := enc'; m_z := text enc' cs; m_term := term' |}).
Proof.
  unfold encoding. cbn [In]. intros He He' Hne Hcs. destruct (swap_text cs) as [Hs1 Hs2].
  destruct (utf16_text_even enc cs) as [k Hk].
  destruct He as [<-|[<-|[<-|[]]]], He' as [<-|[<-|[<-|[]]]]; try done; eexists; unfold sqlite3VdbeMemTranslate, text;
    cbn [m_enc m_z m_term]; repeat match goal with
    | |- context [?a =? ?b] =>
        let r := eval vm_compute in (a =? b) in
        match r with true => change (a =? b) with true | false => change (a =? b) with false end
    end; cbn [negb andb];
    rewrite ?(take_even _ _ Hk), ?utf8_to_16_text, ?utf16_to_8_text, ?Hs1, ?Hs2 by done; reflexivity.
Qed.

(** C37. Translating between the encodings: any text of Unicode scalar values (other than the non-characters U+FFFE and
    U+FFFF) comes out as the same characters in the desired encoding, for every ordered pair of UTF-8, UTF-16LE and
    UTF-16BE, and translating back restores the original bytes. *)
Theorem memTranslate_correct enc enc' cs term (He : encoding enc) (He' : encoding enc') (Hne : enc <> enc')
    (Hcs : Forall utf_ok cs) :
  exists m, sqlite3VdbeMemTranslate true true {| m_enc := enc; m_z := text enc cs; m_term := term |} enc' = (0, m) /\
    m_enc m = enc' /\ m_z m = text enc' cs /\
    exists term', sqlite3VdbeMemTranslate true true m enc = (0, {| m_enc := enc; m_z := text enc cs; m_term := term' |}).
Proof.
  destruct (translate_text enc enc' cs term He He' Hne Hcs) as [t1 E1]. eexists. split; [exact E1|].
  split; [done|]. split; [done|]. by apply translate_text.
Qed.

Lemma memTranslate_correct_witness :
  (sqlite3VdbeMemTranslate true true {| m_enc := SQLITE_UTF8; m_z := text SQLITE_UTF8 [72; 0xE9; 0x20AC; 0x1F600]; m_term := false |}
     SQLITE_UTF16BE).2 =
  {| m_enc := SQLITE_UTF16BE; m_z := [0; 72; 0; 0xE9; 0x20; 0xAC; 0xD8; 0x3D; 0xDE; 0]; m_term := true |}.
Proof.
  destruct (memTranslate_correct SQLITE_UTF8 SQLITE_UTF16BE [72; 0xE9; 0x20AC; 0x1F600] false) as (m & E & _).
  - left. reflexivity.
  - right. right. left. reflexivity.
  - discriminate.
  - repeat constructor; unfold utf_ok; lia.
  - vm_compute. reflexivity.
Defined.

(** ** The output buffer *)

Lemma cont_consumes c z : bytes z -> 0 <= c < 32 ->
  let '(c', z') := utf8_cont c z in
  (length z' <= length z)%nat /\ bytes z' /\ (length z' = length z -> c' = c) /\
  (length z' = (length z - 1)%nat -> c' < 0x800) /\ is_u 32 c'.
Proof.
  intros Hz Hc. assert (forall z c, bytes z -> is_u 32 c -> let '(c', z') := utf8_cont c z in
    (length z' <= length z)%nat /\ bytes z' /\ is_u 32 c') as Hlen.
  { clear. induction z as [|b z IH]; intros c Hz Hc; cbn [utf8_cont]; [done|]. apply Forall_cons in Hz as [Hb Hz].
    destruct (_ =? _); [|split; [done|split; [by constructor|done]]].
    specialize (IH (u32 ((c << 6) + (0x3f .& b))) Hz ltac:(apply uwrap_range; lia)).
    destruct (utf8_cont _ z). cbn [length]. destruct IH as (? & ? & ?). split; [lia|done]. }
  assert (is_u 32 c) as Hc32 by (unfold is_u; lia).
  destruct z as [|b z]; cbn [utf8_cont]; [cbn; split; [done|split; [done|split; [done|split; [lia|done]]]]|].
  pose proof Hz as Hbz. apply Forall_cons in Hz as [Hb Hz]. destruct (_ =? 0x80).
  2: { cbn [length]. split; [done|split; [done|split; [done|split; [lia|done]]]]. }
  set (c1 := u32 ((c << 6) + (0x3f .& b))).
  assert (0 <= c1 < 0x800) as Hc1.
  { unfold c1. rewrite uwrap_small; arith_bits; unfold is_u; lia. }
  destruct z as [|d z]; cbn [utf8_cont].
  { cbn. split; [lia|split; [done|split; [lia|split; [lia|unfold is_u; lia]]]]. }
  pose proof Hz as Hdz. apply Forall_cons in Hz as [Hd Hz]. destruct (_ =? 0x80).
  2: { cbn [length]. split; [lia|split; [done|split; [lia|split; [lia|unfold is_u; lia]]]]. }
  specialize (Hlen z (u32 ((c1 << 6) + (0x3f .& d))) Hz ltac:(apply uwrap_range; lia)).
  destruct (utf8_cont _ z) as [c' z']. destruct Hlen as (? & ? & ?). cbn [length].
  split; [lia|split; [done|split; [lia|split; [lia|done]]]].
Qed.

Lemma trans1_range x : 0 <= rd sqlite3Utf8Trans1 x < 32.
Proof.
  assert (Forall (fun y => 0 <= y < 32) sqlite3Utf8Trans1) as H.
  { apply Forall_forall. intros y Hy. assert (forallb (fun y => (0 <=? y) && (y <? 32)) sqlite3Utf8Trans1 = true) as HF by reflexivity.
    rewrite forallb_forall in HF. specialize (HF y (proj1 (list_elem_of_In _ _) Hy)). lia. }
  unfold rd. destruct (decide (Z.to_nat x < length sqlite3Utf8Trans1)%nat).
  - rewrite Forall_forall in H. apply H. apply list_elem_of_In, nth_In. lia.
  - rewrite nth_overflow by lia. lia.
Qed.

Lemma write_utf16_len enc c : (length (WRITE_UTF16 enc c) <= 4)%nat /\ (c <= 0xFFFF -> length (WRITE_UTF16 enc c) = 2%nat).
Proof.
  unfold WRITE_UTF16, WRITE_UTF16LE, WRITE_UTF16BE.
  destruct (enc =? SQLITE_UTF16LE), (Z.leb_spec c 0xFFFF); cbn [length]; split; lia.
Qed.

Lemma utf8_fix_small c : c <= 0xFFFD -> utf8_fix c <= 0xFFFF.
Proof. intros H. unfold utf8_fix. destruct (_ || _); lia. Qed.

Lemma read_utf8_bound enc z : bytes z -> z <> [] ->
  let '(c, z') := READ_UTF8 z in
  bytes z' /\ (length z' < length z)%nat /\ (length (WRITE_UTF16 enc c) <= 2 * (length z - length z'))%nat.
Proof.
  intros Hz Hne. destruct z as [|b z]; [done|]. apply Forall_cons in Hz as [Hb Hz]. unfold READ_UTF8. cbn [hd tl length].
  destruct (Z.leb_spec 0xc0 b) as [Hc0|Hc0].
  - pose proof (cont_consumes _ z Hz (trans1_range (b - 0xc0))) as H. destruct (utf8_cont _ z) as [c z'].
    destruct H as (H1 & H2 & H3 & H4 & H5). split; [done|]. split; [lia|].
    destruct (write_utf16_len enc (utf8_fix c)) as [L4 L2].
    destruct (decide (length z' = length z)) as [E|E].
    { rewrite L2 by (apply utf8_fix_small; rewrite H3 by done; pose proof (trans1_range (b - 0xc0)); lia). lia. }
    destruct (decide (length z' = (length z - 1)%nat)) as [E'|E']; [|lia].
    rewrite L2 by (apply utf8_fix_small; specialize (H4 E'); lia). lia.
  - split; [done|]. split; [lia|]. rewrite (proj2 (write_utf16_len enc b)) by lia. lia.
Qed.

Lemma utf8_to_16_len enc fuel : forall z, bytes z -> (length (utf8_to_16 fuel enc z) <= 2 * length z)%nat.
Proof.
  induction fuel as [|fuel IH]; intros z Hz; cbn [utf8_to_16]; [cbn; lia|]. destruct z as [|b z0] eqn:Ez; [cbn; lia|]. rewrite <- Ez in *.
  pose proof (read_utf8_bound enc z Hz ltac:(by rewrite Ez)) as H. destruct (READ_UTF8 z) as [c z']. destruct H as (H1 & H2 & H3).
  rewrite length_app. specialize (IH z' H1). lia.
Qed.

Lemma write_utf8_len c : (length (WRITE_UTF8 c) <= 4)%nat.
Proof. unfold WRITE_UTF8. repeat (destruct (_ <? _); [cbn; lia|]). cbn; lia. Qed.

Lemma read_utf16_bound enc z :
  let '(c, z') := READ_UTF16 true enc z in
  exists k, z' = drop k z /\ (k = 2 \/ k = 4 /\ 2 < length z)%nat /\ (length (WRITE_UTF8 c) <= 4)%nat.
Proof.
  unfold READ_UTF16, READ_UTF16LE, READ_UTF16BE.
  destruct (enc =? SQLITE_UTF16LE); destruct (_ && _) eqn:E; rewrite ?drop_drop.
  1, 3: exists 4%nat; split; [done|]; split; [|apply write_utf8_len]; right; split; [done|];
    apply andb_true_iff in E as [_ E]; cbn [negb orb] in E; apply Z.ltb_lt in E; rewrite length_drop in E; lia.
  all: exists 2%nat; split; [done|]; split; [by left|apply write_utf8_len].
Qed.

Lemma utf16_to_8_len enc fuel : forall z k, length z = (2 * k)%nat -> (length (utf16_to_8 fuel enc z) <= 2 * length z)%nat.
Proof.
  induction fuel as [|fuel IH]; intros z k Hk; cbn [utf16_to_8]; [cbn; lia|].
  destruct z as [|b z0] eqn:Ez; [cbn; lia|]. rewrite <- Ez in *. assert (2 <= length z)%nat by (rewrite Ez in *; cbn in *; lia).
  pose proof (read_utf16_bound enc z) as H0. destruct (READ_UTF16 true enc z) as [c z']. destruct H0 as (j & -> & Hj & Hw).
  rewrite length_app. destruct Hj as [->|[-> Hl]].
  - specialize (IH (drop 2 z) (k - 1)%nat ltac:(rewrite length_drop; lia)). rewrite length_drop in IH. lia.
  - specialize (IH (drop 4 z) (k - 2)%nat ltac:(rewrite length_drop; lia)). rewrite length_drop in IH. lia.
Qed.

(** What the loop of a translation has written after some turns. *)
Definition translated (turns : nat) (m : Mem) (enc' : Z) : list Z :=
  if m_enc m =? SQLITE_UTF8 then utf8_to_16 turns enc' (m_z m)
  else utf16_to_8 turns (m_enc m) (take (Z.to_nat (even_len (Z.of_nat (length (m_z m))))) (m_z m)).

Lemma utf8_to_16_enough enc k1 : forall k2 z, bytes z -> (length z <= k1)%nat -> (length z <= k2)%nat -> utf8_to_16 k1 enc z = utf8_to_16 k2 enc z.
Proof.
  induction k1 as [|k1 IH]; intros [|k2] z Hz H1 H2; destruct z as [|b z0] eqn:Ez; try done; try (cbn in *; lia). rewrite <- Ez in *. cbn [utf8_to_16].
  pose proof (read_utf8_bound enc z Hz ltac:(by rewrite Ez)) as H. destruct (READ_UTF8 z) as [c z']. destruct H as (Hb & Hl & _).
  rewrite Ez at 1 2. f_equal. apply IH; [done|lia..].
Qed.
Lemma utf16_to_8_enough enc k1 : forall k2 z, (length z <= k1)%nat -> (length z <= k2)%nat -> utf16_to_8 k1 enc z = utf16_to_8 k2 enc z.
Proof.
  induction k1 as [|k1 IH]; intros [|k2] z H1 H2; destruct z as [|b z0] eqn:Ez; try done; try (cbn in *; lia). rewrite <- Ez in *. cbn [utf16_to_8].
  pose proof (read_utf16_bound enc z) as H. destruct (READ_UTF16 true enc z) as [c z']. destruct H as (j & -> & Hj & _).
  assert (0 < length z)%nat by (rewrite Ez; cbn; lia). rewrite Ez at 1 2. f_equal. apply IH; rewrite length_drop; lia.
Qed.

Lemma translated_fits m enc' turns : bytes (m_z m) -> (m_enc m = SQLITE_UTF8 <-> enc' <> SQLITE_UTF8) -> Z.of_nat (length (m_z m)) <= SQLITE_MAX_LENGTH ->
  Z.of_nat (length (translated turns m enc')) + (if enc' =? SQLITE_UTF8 then 1 else 2) <= translate_len m enc' /\
  ((length (m_z m) <= turns)%nat -> translated turns m enc' = translated (length (m_z m)) m enc').
Proof.
  intros Hm He Hn. unfold translated, translate_len. unfold SQLITE_MAX_LENGTH in Hn. set (n := Z.of_nat (length (m_z m))) in *. destruct (Z.eqb_spec enc' SQLITE_UTF8) as [->|E2].
  - rewrite (proj2 (Z.eqb_neq (m_enc m) _)) by naive_solver. rewrite even_len_spec by lia. set (z := take _ (m_z m)).
    assert (length z = (2 * Z.to_nat (n / 2))%nat) as Hl by (unfold z; rewrite length_take; lia). rewrite swrap_small by (unfold is_i; lia).
    split; [pose proof (utf16_to_8_len (m_enc m) turns z _ Hl); lia|]. intros Ht. apply utf16_to_8_enough; lia.
  - rewrite (proj2 (Z.eqb_eq (m_enc m) _)) by naive_solver. rewrite swrap_small by (unfold is_i; lia).
    split; [pose proof (utf8_to_16_len enc' turns (m_z m) Hm); lia|]. intros Ht. by apply utf8_to_16_enough.
Qed.

(** C36. The output of a translation fits the buffer of [len] bytes that was allocated for it, terminator included (one
    byte for UTF-8, two for UTF-16), for every text of at most SQLITE_MAX_LENGTH bytes, well formed or not: after any number of turns of the loop what was
    written fits, and the loop has ended after as many turns as there are bytes. The size of the buffer is computed as an [int]; with this bound on the text it does not overflow. *)
Theorem memTranslate_fits m enc' (Hm : bytes (m_z m)) (He : encoding (m_enc m)) (He' : encoding enc')
    (Hne : m_enc m <> enc') (Hlen : Z.of_nat (length (m_z m)) <= SQLITE_MAX_LENGTH) :
  let '(rc, m') := sqlite3VdbeMemTranslate true true m enc' in
  rc = 0 /\ m_enc m' = enc' /\
  if negb (m_enc m =? SQLITE_UTF8) && negb (enc' =? SQLITE_UTF8) then length (m_z m') = length (m_z m)
  else forall turns, Z.of_nat (length (translated turns m enc')) + (if enc' =? SQLITE_UTF8 then 1 else 2) <= translate_len m enc' /\
         ((length (m_z m) <= turns)%nat -> m_z m' = translated turns m enc').
Proof.
  assert (forall k (z : list Z), (length z <= k)%nat -> length (swap_pairs z) = length z) as Hsw.
  { induction k as [|k IH]; intros [|a [|b z]] Hz; cbn in *; try lia. rewrite IH; lia. }
  unfold sqlite3VdbeMemTranslate. destruct (negb _ && negb _) eqn:E1.
  { cbn [negb]. split; [done|]. split; [done|]. cbn [m_z]. by apply (Hsw (length (m_z m))). }
  cbn [negb]. split; [done|]. split; [done|]. cbn [m_z]. intros turns.
  destruct (translated_fits m enc' turns Hm) as [H1 H2]; [|done|].
  { apply andb_false_iff in E1. rewrite !negb_false_iff, !Z.eqb_eq in E1. destruct E1 as [E|E]; split; intros; congruence. }
  split; [done|]. intros Ht. rewrite (H2 Ht). unfold translated. destruct (Z.eqb_spec enc' SQLITE_UTF8) as [->|E2].
  - rewrite (proj2 (Z.eqb_neq (m_enc m) _)) by done. apply utf16_to_8_enough; [done|]. rewrite length_take. lia.
  - cbn [negb andb] in E1. rewrite andb_true_r in E1. apply negb_false_iff in E1. by rewrite E1.
Qed.

Lemma memTranslate_fits_witness :
  let m := {| m_enc := SQLITE_UTF8; m_z := [0xDF; 0xBF; 0xBF; 0xC1; 65]; m_term := false |} in
  Z.of_nat (length (m_z (sqlite3VdbeMemTranslate true true m SQLITE_UTF16LE).2)) + 2 <= 12.
Proof.
  intros m. pose proof (memTranslate_fits m SQLITE_UTF16LE) as H.
  destruct (sqlite3VdbeMemTranslate true true m SQLITE_UTF16LE) as [rc m']. destruct H as (_ & _ & H).
  - repeat constructor; discriminate.
  - left. reflexivity.
  - right. left. reflexivity.
  - discriminate.
  - vm_compute. discriminate.
  - cbn [snd]. destruct (H 5%nat) as [H1 H2]. rewrite H2 by (cbn; lia). exact H1.
Defined.

(** ** Counting *)

Lemma skip_utf8_char c t : utf_ok c -> is_cont (hd0 t) = false -> SQLITE_SKIP_UTF8 (WRITE_UTF8 c ++ t) = t.
Proof.
  intros Hc Ht. pose proof Hc as (H1 & _).
  assert (skip_cont t = t) as Hend by (destruct t as [|b t]; [done|]; cbn [hd skip_cont] in *; unfold is_cont in Ht; by rewrite Ht).
  assert (forall y z, 0 <= y < 64 -> skip_cont (0x80 + y :: z) = skip_cont z) as Hstep.
  { intros y z Hy. cbn [skip_cont]. destruct (cont_byte y Hy) as [Hb _]. unfold is_cont in Hb. by rewrite Hb. }
  unfold WRITE_UTF8, SQLITE_SKIP_UTF8.
  destruct (Z.ltb_spec c 0x80); [|destruct (Z.ltb_spec c 0x800); [|destruct (Z.ltb_spec c 0x10000)]];
    arith_bits; rewrite !u8_small by lia; cbn [app hd tl];
    [rewrite (proj2 (Z.leb_gt 0xc0 _)) by lia; done|rewrite (proj2 (Z.leb_le 0xc0 _)) by lia; rewrite !Hstep by lia; done..].
Qed.

Lemma charlen_text cs : Forall (fun c => utf_ok c /\ c <> 0) cs -> forall fuel pos nByte r,
  (length (utf8_text cs) <= fuel)%nat -> nByte < 0 \/ pos + Z.of_nat (length (utf8_text cs)) <= nByte ->
  charlen_loop fuel (utf8_text cs) pos nByte r = r + Z.of_nat (length cs).
Proof.
  induction 1 as [|c cs [Hc Hc0] Hcs IH]; intros fuel pos nByte r Hf Hn.
  { cbn. destruct fuel; cbn; lia. }
  assert (Forall utf_ok cs) as Hok by (eapply Forall_impl; [exact Hcs|]; by intros ? [? _]).
  unfold utf8_text in *. cbn [map concat] in *. pose proof (skip_utf8_char c (utf8_text cs) Hc (utf8_text_head cs Hok)) as HS.
  unfold utf8_text in HS. rewrite length_app in Hf, Hn.
  destruct (write_utf8_head c Hc) as (b & l & E & _).
  assert (b <> 0) as Hb.
  { clear - E Hc Hc0. destruct Hc as (Hc & _). unfold WRITE_UTF8 in E.
    destruct (Z.ltb_spec c 0x80); [|destruct (Z.ltb_spec c 0x800); [|destruct (Z.ltb_spec c 0x10000)]];
      injection E as <- _; arith_bits; rewrite u8_small; lia. }
  assert (1 <= length (WRITE_UTF8 c))%nat by (rewrite E; cbn; lia).
  destruct fuel as [|fuel]; [lia|]. cbn [charlen_loop]. rewrite HS.
  assert (hd0 (WRITE_UTF8 c ++ concat (map WRITE_UTF8 cs)) = b) as -> by by rewrite E.
  rewrite (proj2 (Z.eqb_neq b 0)) by done. cbn [negb andb].
  assert ((nByte <? 0) || (pos <? nByte) = true) as -> by lia. rewrite length_app.
  rewrite IH; [cbn [length]; lia|lia|]. lia.
Qed.

Lemma utf16_skip_text enc cs t : Forall utf_ok cs ->
  utf16_skip (length cs) enc (utf16_text enc cs ++ t) = t.
Proof.
  induction 1 as [|c cs (H1 & H2 & _) Hcs IH]; [done|]. unfold utf16_text in *. cbn [map concat length utf16_skip].
  rewrite <- (assoc_L (++)), read_write_utf16 by done. exact IH.
Qed.

(** Character counts: [sqlite3Utf8CharLen] counts the characters of a UTF-8 text without zero characters, both with
    an explicit byte count and without; and [sqlite3Utf16ByteLen] returns the number of bytes the first characters of a UTF-16
    text occupy, surrogate pairs included. *)
Theorem utf_lengths_correct cs t enc (Hcs : Forall (fun c => utf_ok c /\ c <> 0) cs) :
  sqlite3Utf8CharLen (utf8_text cs) (-1) = Z.of_nat (length cs) /\
  sqlite3Utf8CharLen (utf8_text cs) (Z.of_nat (length (utf8_text cs))) = Z.of_nat (length cs) /\
  sqlite3Utf16ByteLen enc (utf16_text enc cs ++ t) (Z.of_nat (length cs)) = Z.of_nat (length (utf16_text enc cs)).
Proof.
  split; [|split].
  - apply charlen_text; [done|lia|by left].
  - apply charlen_text; [done|lia|right; lia].
  - unfold sqlite3Utf16ByteLen. rewrite Nat2Z.id, utf16_skip_text.
    + rewrite length_app. lia.
    + eapply Forall_impl; [exact Hcs|]. by intros ? [? _].
Qed.

Lemma utf_lengths_correct_witness : sqlite3Utf8CharLen [72; 0xC3; 0xA9; 0xE2; 0x82; 0xAC] (-1) = 3.
Proof.
  apply (utf_lengths_correct [72; 0xE9; 0x20AC] [] SQLITE_UTF16LE). repeat constructor; unfold utf_ok; lia.
Defined.
