(* ===== verification/Serial.v ===== *)
(** The record format: serial types and record building of vdbeaux.c and vdbe.c.

    A value in a register of the virtual machine is a [Mem]; its union [u] holds the integer or, for a blob with a tail of
    zeros, their number; a real is given by its 64 bits; the [n] bytes at [z] are the list [c_z]. *)
From Stdlib Require Import Floats.SpecFloat.
From S2P Require Import Prelude Varint.
Local Open Scope Z_scope.
Local Open Scope c_scope.

Definition MEM_Null : Z := 0x0001.
Definition MEM_Str : Z := 0x0002.
Definition MEM_Int : Z := 0x0004.
Definition MEM_Real : Z := 0x0008.
Definition MEM_Blob : Z := 0x0010.
Definition MEM_Term : Z := 0x0200.
Definition MEM_Ephem : Z := 0x1000.
Definition MEM_Zero : Z := 0x4000.

Record Mem := { c_flags : Z; c_u : Z; c_r : Z; c_z : list Z; c_enc : Z }.

Definition has (f : Z) (m : Mem) : bool := negb (c_flags m .& f =? 0).
Definition c_n (m : Mem) : Z := Z.of_nat (length (c_z m)).

(** ** Doubles *)

(** The number a 64-bit pattern stands for. *)
Definition double_of_bits (x : Z) : spec_float :=
  let s := Z.testbit x 63 in
  let e := (x >> 52) .& 0x7ff in
  let m := x .& (2 ^ 52 - 1) in
  if e =? 0x7ff then if m =? 0 then S754_infinity s else S754_nan
  else if e =? 0 then match m with Zpos m => S754_finite s m (-1074) | _ => S754_zero s end
  else match 2 ^ 52 + m with Zpos m => S754_finite s m (e - 1075) | _ => S754_zero s end.

(** [(double)i], rounded to nearest even. *)
Definition double_of_int (i : Z) : spec_float := binary_normalize 53 1024 i 0 false.

Definition sqlite3IsNaN (x : Z) : bool := negb (SFeqb (double_of_bits x) (double_of_bits x)).

(** ** Serial types *)

Definition MAX_6BYTE : Z := (0x00008000 << 32) - 1.

Definition sqlite3VdbeSerialType (pMem : Mem) (file_format : Z) : Z :=
  if has MEM_Null pMem then 0
  else if has MEM_Int pMem then
    let i := c_u pMem in
    if (i <? 0) && (i <? - MAX_6BYTE) then 6
    else
      let u := u64 (if i <? 0 then - i else i) in
      if u <=? 127 then if (i .& 1 =? i) && (4 <=? file_format) then 8 + u32 u else 1
      else if u <=? 32767 then 2
      else if u <=? 8388607 then 3
      else if u <=? 2147483647 then 4
      else if u <=? MAX_6BYTE then 5
      else 6
  else if has MEM_Real pMem then 7
  else
    let n := if has MEM_Zero pMem then c_n pMem + c_u pMem else c_n pMem in
    u32 (n * 2 + 12 + (if has MEM_Str pMem then 1 else 0)).

Definition aSize : list Z := [0; 1; 2; 3; 4; 6; 8; 8; 0; 0; 0; 0].
Definition sqlite3VdbeSerialTypeLen (serial_type : Z) : Z :=
  if 12 <=? serial_type then (serial_type - 12) / 2 else rd aSize serial_type.

(** [while( i-- ){ buf[i] = (u8)(v&0xFF); v >>= 8; }] *)
Fixpoint put_int (i : nat) (v : Z) (buf : list Z) : list Z :=
  match i with
  | O => buf
  | S i => put_int i (v >> 8) (wr buf (Z.of_nat i) (u8 (v .& 0xFF)))
  end.

Definition memcpy (buf src : list Z) : list Z := src ++ drop (length src) buf.

Definition sqlite3VdbeSerialPut (buf : list Z) (pMem : Mem) (serial_type : Z) : Z * list Z :=
  if (serial_type <=? 7) && (0 <? serial_type) then
    let v := if serial_type =? 7 then c_r pMem else u64 (c_u pMem) in
    let len := sqlite3VdbeSerialTypeLen serial_type in
    (len, put_int (Z.to_nat len) v buf)
  else if 12 <=? serial_type then (c_n pMem, memcpy buf (c_z pMem))
  else (0, buf).

Definition i8 (x : Z) : Z := swrap 8 x.
Definition ONE_BYTE_INT (x : list Z) : Z := i8 (rd x 0).
Definition TWO_BYTE_INT (x : list Z) : Z := 256 * i8 (rd x 0) .| rd x 1.
Definition THREE_BYTE_INT (x : list Z) : Z := 65536 * i8 (rd x 0) .| (rd x 1 << 8) .| rd x 2.
Definition FOUR_BYTE_UINT (x : list Z) : Z := (rd x 0 << 24) .| (rd x 1 << 16) .| (rd x 2 << 8) .| rd x 3.

Definition set_flags (f : Z) (m : Mem) : Mem := {| c_flags := f; c_u := c_u m; c_r := c_r m; c_z := c_z m; c_enc := c_enc m |}.
Definition set_int (i : Z) (m : Mem) : Mem := {| c_flags := MEM_Int; c_u := i; c_r := c_r m; c_z := c_z m; c_enc := c_enc m |}.
Definition set_real (x : Z) (m : Mem) : Mem :=
  {| c_flags := if sqlite3IsNaN x then MEM_Null else MEM_Real; c_u := c_u m; c_r := x; c_z := c_z m; c_enc := c_enc m |}.
Definition set_bytes (f : Z) (z : list Z) (m : Mem) : Mem :=
  {| c_flags := f; c_u := c_u m; c_r := c_r m; c_z := z; c_enc := c_enc m |}.

(** The 64 bits at [buf]. *)
Definition eight_bytes (buf : list Z) : Z := u64 (FOUR_BYTE_UINT buf << 32) .| FOUR_BYTE_UINT (drop 4 buf).

Definition sqlite3VdbeSerialGet (buf : list Z) (serial_type : Z) (pMem : Mem) : Z * Mem :=
  match serial_type with
  | 10 | 11 | 0 => (0, set_flags MEM_Null pMem)
  | 1 => (1, set_int (ONE_BYTE_INT buf) pMem)
  | 2 => (2, set_int (TWO_BYTE_INT buf) pMem)
  | 3 => (3, set_int (THREE_BYTE_INT buf) pMem)
  | 4 => (4, set_int (i32 (FOUR_BYTE_UINT buf)) pMem)
  | 5 => (6, set_int (FOUR_BYTE_UINT (drop 2 buf) + (1 << 32) * TWO_BYTE_INT buf) pMem)
  | 6 => (8, set_int (i64 (eight_bytes buf)) pMem)
  | 7 => (8, set_real (eight_bytes buf) pMem)
  | 8 | 9 => (0, set_int (serial_type - 8) pMem)
  | _ =>
      let len := (serial_type - 12) / 2 in
      (len, set_bytes (if serial_type .& 1 =? 1 then MEM_Str .| MEM_Ephem else MEM_Blob .| MEM_Ephem) (take (Z.to_nat len) buf) pMem)
  end.

Definition vdbeRecordDecodeInt (serial_type : Z) (aKey : list Z) : Z :=
  match serial_type with
  | 0 | 1 => ONE_BYTE_INT aKey
  | 2 => TWO_BYTE_INT aKey
  | 3 => THREE_BYTE_INT aKey
  | 4 => i32 (FOUR_BYTE_UINT aKey)
  | 5 => FOUR_BYTE_UINT (drop 2 aKey) + (1 << 32) * TWO_BYTE_INT aKey
  | 6 => i64 (eight_bytes aKey)
  | _ => serial_type - 8
  end.

(** ** Records *)

(** [sqlite3VdbeMemExpandBlob]; [grow] says whether the allocation succeeds. *)
Definition sqlite3VdbeMemExpandBlob (grow : bool) (pMem : Mem) : Z * Mem :=
  if has MEM_Zero pMem then
    if negb grow then (SQLITE_NOMEM, pMem)
    else (SQLITE_OK, {| c_flags := c_flags pMem .& Z.lnot (MEM_Zero .| MEM_Term); c_u := c_u pMem; c_r := c_r pMem;
                        c_z := c_z pMem ++ replicate (Z.to_nat (c_u pMem)) 0; c_enc := c_enc pMem |})
  else (SQLITE_OK, pMem).

Record Space := { nData : Z; nHdr : Z; nZero : Z }.

(** One turn of the loop that computes the space, which runs from the last field to the first. *)
Definition space_field (grow : bool) (file_format : Z) (pRec : Mem) (s : Space) : Mem * Space :=
  let serial_type := sqlite3VdbeSerialType pRec file_format in
  let len := sqlite3VdbeSerialTypeLen serial_type in
  let '(pRec, nZero, len) :=
    if has MEM_Zero pRec then
      if negb (nData s =? 0) then ((sqlite3VdbeMemExpandBlob grow pRec).2, nZero s, len)
      else (pRec, nZero s + c_u pRec, len - c_u pRec)
    else (pRec, nZero s, len) in
  (pRec, {| nData := nData s + len; nHdr := nHdr s + (if serial_type <=? 127 then 1 else sqlite3VarintLen serial_type); nZero := nZero |}).

Fixpoint record_space (grow : bool) (file_format : Z) (fields : list Mem) : list Mem * Space :=
  match fields with
  | [] => ([], {| nData := 0; nHdr := 0; nZero := 0 |})
  | pRec :: fields =>
      let '(fields, s) := record_space grow file_format fields in
      let '(pRec, s) := space_field grow file_format pRec s in
      (pRec :: fields, s)
  end.

(** The initial header varint counts itself. *)
Definition header_size (nHdr : Z) : Z :=
  if nHdr <=? 126 then nHdr + 1
  else
    let nVarint := sqlite3VarintLen nHdr in
    let nHdr := nHdr + nVarint in
    if nVarint <? sqlite3VarintLen nHdr then nHdr + 1 else nHdr.

(** Writing through a pointer into the record. *)
Definition at_ptr (i : Z) (f : list Z -> Z * list Z) (buf : list Z) : Z * list Z :=
  let '(n, p) := f (drop (Z.to_nat i) buf) in (n, take (Z.to_nat i) buf ++ p).

Fixpoint write_fields (file_format : Z) (fields : list Mem) (i j : Z) (buf : list Z) : Z * Z * list Z :=
  match fields with
  | [] => (i, j, buf)
  | pRec :: fields =>
      let serial_type := sqlite3VdbeSerialType pRec file_format in
      let '(n, buf) := at_ptr i (fun p => putVarint32 p serial_type) buf in
      let '(k, buf) := at_ptr j (fun p => sqlite3VdbeSerialPut p pRec serial_type) buf in
      write_fields file_format fields (i + n) (j + k) buf
  end.

Inductive MakeResult := TooBig | NoMem | Made (i j : Z) (pOut : Mem).

(** The opcode OP_MakeRecord on the registers [fields], after the affinities were applied. [buf] is the buffer of the output register
    that [sqlite3VdbeMemGrow] provides, [None] if that fails; [expand] says whether the expansion of blobs gets its memory. *)
Definition OP_MakeRecord (limit file_format : Z) (expand : bool) (mem_grow : Z -> option (list Z)) (fields : list Mem) : MakeResult :=
  let '(fields, s) := record_space expand file_format fields in
  let nHdr := header_size (nHdr s) in
  let nByte := nHdr + nData s in
  if limit <? nByte then TooBig
  else
    match mem_grow nByte with
    | None => NoMem
    | Some zNewRecord =>
        let '(i, zNewRecord) := putVarint32 zNewRecord nHdr in
        let '(i, j, zNewRecord) := write_fields file_format fields i nHdr zNewRecord in
        Made i j {| c_flags := if negb (nZero s =? 0) then MEM_Blob .| MEM_Zero else MEM_Blob;
                    c_u := nZero s; c_r := 0; c_z := take (Z.to_nat nByte) zNewRecord; c_enc := 1 |}
    end.

(** The loop of [sqlite3VdbeRecordUnpack]: at most [n] more fields. *)
Fixpoint unpack_loop (n : nat) (nKey szHdr idx d : Z) (enc : Z) (aKey : list Z) (aMem : list Mem) : list Mem :=
  match n, aMem with
  | S n, pMem :: aMem =>
      if (idx <? szHdr) && (d <=? nKey) then
        let '(k, serial_type) := getVarint32 (drop (Z.to_nat idx) aKey) in
        let '(len, pMem) := sqlite3VdbeSerialGet (drop (Z.to_nat d) aKey) serial_type
          {| c_flags := c_flags pMem; c_u := c_u pMem; c_r := c_r pMem; c_z := c_z pMem; c_enc := enc |} in
        pMem :: unpack_loop n nKey szHdr (u32 (idx + k)) (i32 (d + len)) enc aKey aMem
      else []
  | _, _ => []
  end.

(** [aMem] are the cells of the UnpackedRecord, [nField] of them; the result is the fields that were set. *)
Definition sqlite3VdbeRecordUnpack (enc nKey : Z) (pKey : list Z) (aMem : list Mem) : list Mem :=
  let '(idx, szHdr) := getVarint32 pKey in
  unpack_loop (length aMem) nKey szHdr idx (i32 szHdr) enc pKey aMem.

Definition int_cell (i : Z) : Mem := {| c_flags := MEM_Int; c_u := i; c_r := 0; c_z := []; c_enc := 1 |}.
Definition text_cell (z : list Z) : Mem := {| c_flags := MEM_Str .| MEM_Term; c_u := 0; c_r := 0; c_z := z; c_enc := 1 |}.
Definition blob_cell (z : list Z) (zeros : Z) : Mem :=
  {| c_flags := if zeros =? 0 then MEM_Blob else MEM_Blob .| MEM_Zero; c_u := zeros; c_r := 0; c_z := z; c_enc := 1 |}.
Definition null_cell : Mem := {| c_flags := MEM_Null; c_u := 0; c_r := 0; c_z := []; c_enc := 1 |}.

Example make_small :
  OP_MakeRecord 1000 4 true (fun n => Some (replicate (Z.to_nat n) 170)) [int_cell 1; text_cell [65; 66]; int_cell (-300); null_cell; blob_cell [7] 2] =
  Made 6 11 {| c_flags := MEM_Blob .| MEM_Zero; c_u := 2; c_r := 0; c_z := [6; 9; 17; 2; 0; 18; 65; 66; 254; 212; 7]; c_enc := 1 |}.
Proof. reflexivity. Qed.

(** * Big-endian integers *)

(** Powers of two with literal exponents as numerals. *)
Ltac pow_numeral n k := let v := eval vm_compute in (2 ^ n) in k v.
Ltac pows :=
  repeat match goal with
    | |- context [2 ^ ?n] => lazymatch n with context [Z.of_nat _] => fail | _ => pow_numeral n ltac:(fun v => change (2 ^ n) with v) end
    | H : context [2 ^ ?n] |- _ => lazymatch n with context [Z.of_nat _] => fail | _ => pow_numeral n ltac:(fun v => change (2 ^ n) with v in H) end
    end.
Ltac small := unfold is_u, is_i in *; pows; Z.to_euclidean_division_equations; lia.

Fixpoint be (n : nat) (v : Z) : list Z :=
  match n with O => [] | S n => be n (v >> 8) ++ [u8 v] end.
Definition be_val (l : list Z) : Z := foldl (fun a b => a * 256 + b) 0 l.

Lemma be_length n v : length (be n v) = n.
Proof. revert v. induction n; intros; cbn; [done|]. rewrite length_app, IHn. cbn. lia. Qed.
Lemma be_bytes n v : bytes (be n v).
Proof. revert v. induction n; intros; [constructor|]. apply Forall_app_2; [apply IHn|]. repeat constructor; by apply uwrap_range. Qed.

Lemma be_val_be n v : be_val (be n v) = uwrap (8 * Z.of_nat n) v.
Proof.
  revert v. induction n as [|n IH]; intros v; [symmetry; apply Z.mod_1_r|].
  unfold be_val in *. cbn [be]. rewrite foldl_app. cbn [foldl]. rewrite IH. unfold uwrap. rewrite Z.shiftr_div_pow2 by lia.
  replace (8 * Z.of_nat (S n)) with (8 + 8 * Z.of_nat n) by lia. rewrite Z.pow_add_r by lia.
  rewrite Z.rem_mul_r by lia. change (2 ^ 8) with 256. lia.
Qed.

Lemma put_int_be n : forall v buf, (n <= length buf)%nat -> put_int n v buf = be n v ++ drop n buf.
Proof.
  induction n as [|n IH]; intros v buf Hl; [done|]. cbn [put_int be].
  assert (exists pre x post, buf = pre ++ x :: post /\ length pre = n) as (pre & x & post & -> & Hpre).
  { exists (take n buf). destruct (drop n buf) as [|x post] eqn:E.
    - apply (f_equal length) in E. rewrite length_drop in E. cbn in E. lia.
    - exists x, post. rewrite <- E, take_drop. split; [done|]. rewrite length_take. lia. }
  rewrite wr_app, IH by (rewrite ?length_app; cbn; lia). rewrite drop_app_length' by done. rewrite <- app_assoc. f_equal. cbn [app].
  replace (drop (S n) (pre ++ x :: post)) with post; [|rewrite drop_app_ge by lia; by replace (S n - length pre)%nat with 1%nat by lia].
  f_equal. unfold uwrap. change 0xFF with (Z.ones 8). rewrite Z.land_ones by lia. by rewrite Z.mod_mod by lia.
Qed.

Lemma four_uint l rest : bytes l -> length l = 4%nat -> FOUR_BYTE_UINT (l ++ rest) = be_val l /\ is_u 32 (be_val l).
Proof.
  intros Hl H4. destruct l as [|a [|b [|c [|d [|]]]]]; try done. unfold FOUR_BYTE_UINT, be_val. cbn [app foldl]. 
  change (rd (a :: b :: c :: d :: rest) 0) with a. change (rd (a :: b :: c :: d :: rest) 1) with b.
  change (rd (a :: b :: c :: d :: rest) 2) with c. change (rd (a :: b :: c :: d :: rest) 3) with d.
  unfold bytes in *. rewrite ?Forall_cons in Hl. destruct_and? Hl.
  rewrite <- !Z.lor_assoc, (shl_lor c d), (shl_lor b), (shl_lor a) by small. small.
Qed.

Lemma two_int l rest : bytes l -> length l = 2%nat -> TWO_BYTE_INT (l ++ rest) = swrap 16 (be_val l).
Proof.
  intros Hl H4. destruct l as [|a [|b [|]]]; try done. unfold TWO_BYTE_INT, be_val, i8, swrap. cbn [app foldl]. 
  change (rd (a :: b :: rest) 0) with a. change (rd (a :: b :: rest) 1) with b.
  unfold bytes in *. rewrite ?Forall_cons in Hl. destruct_and? Hl.
  rewrite Z.mul_comm, <- (Z.shiftl_mul_pow2 _ 8), shl_lor by small. small.
Qed.

Lemma three_int l rest : bytes l -> length l = 3%nat -> THREE_BYTE_INT (l ++ rest) = swrap 24 (be_val l).
Proof.
  intros Hl H4. destruct l as [|a [|b [|c [|]]]]; try done. unfold THREE_BYTE_INT, be_val, i8, swrap. cbn [app foldl]. 
  change (rd (a :: b :: c :: rest) 0) with a. change (rd (a :: b :: c :: rest) 1) with b. change (rd (a :: b :: c :: rest) 2) with c.
  unfold bytes in *. rewrite ?Forall_cons in Hl. destruct_and? Hl.
  rewrite Z.mul_comm, <- (Z.shiftl_mul_pow2 _ 16), <- Z.lor_assoc, (shl_lor b c), shl_lor by small. small.
Qed.

Lemma eight_uint l rest : bytes l -> length l = 8%nat -> eight_bytes (l ++ rest) = be_val l.
Proof.
  intros Hl H8. assert (length (take 4 l) = 4%nat /\ length (drop 4 l) = 4%nat) as [Ha Hb] by (rewrite length_take, length_drop; lia).
  assert (bytes (take 4 l) /\ bytes (drop 4 l)) as [Hla Hlb] by (split; [by apply Forall_take|by apply Forall_drop]).
  rewrite <- (take_drop 4 l). generalize dependent (drop 4 l). generalize dependent (take 4 l). intros a Ha Hla b Hb Hlb.
  unfold eight_bytes. rewrite <- !app_assoc.
  rewrite (drop_app_length' a) by done. destruct (four_uint a (b ++ rest) Hla Ha) as [-> Ra]. destruct (four_uint b rest Hlb Hb) as [-> Rb].
  rewrite (uwrap_small 64) by (rewrite Z.shiftl_mul_pow2 by lia; small).
  rewrite shl_lor by done. pows. unfold be_val at 3. rewrite foldl_app. fold (be_val a).
  destruct b as [|b0 [|b1 [|b2 [|b3 [|]]]]]; try done. unfold be_val. cbn [foldl]. lia.
Qed.

(** * Values *)

(** The SQL value of a cell. *)
Inductive value := VNull | VInt (i : Z) | VReal (bits : Z) | VText (z : list Z) | VBlob (z : list Z).

(** The bytes of a text or blob, with the zeros of its tail. *)
Definition content (m : Mem) : list Z := c_z m ++ (if has MEM_Zero m then replicate (Z.to_nat (c_u m)) 0 else []).

Definition value_of (m : Mem) : value :=
  if has MEM_Null m then VNull
  else if has MEM_Int m then VInt (c_u m)
  else if has MEM_Real m then VReal (c_r m)
  else if has MEM_Str m then VText (content m) else VBlob (content m).

(** The cells the virtual machine keeps: a real is never NaN, only a blob has a tail of zeros, and no value is longer than SQLITE_MAX_LENGTH. *)
Record cell_ok (m : Mem) : Prop := {
  ok_int : is_i 64 (c_u m);
  ok_real : is_u 64 (c_r m);
  ok_nan : has MEM_Real m = true -> sqlite3IsNaN (c_r m) = false;
  ok_bytes : bytes (c_z m);
  ok_zero : has MEM_Zero m = true -> 0 <= c_u m /\ has MEM_Null m = false /\ has MEM_Int m = false /\ has MEM_Real m = false /\ has MEM_Str m = false;
  ok_length : Z.of_nat (length (content m)) <= SQLITE_MAX_LENGTH
}.

(** The bytes of a field in a record. *)
Definition payload (file_format : Z) (m : Mem) : list Z :=
  let t := sqlite3VdbeSerialType m file_format in
  if (t <=? 7) && (0 <? t) then be (Z.to_nat (sqlite3VdbeSerialTypeLen t)) (if t =? 7 then c_r m else u64 (c_u m))
  else if 12 <=? t then content m
  else [].

(** The serial type says which kind of value is stored. *)
Lemma serial_type_cases m fmt : cell_ok m ->
  let t := sqlite3VdbeSerialType m fmt in
  match value_of m with
  | VNull => t = 0
  | VInt i => (t = 8 /\ i = 0) \/ (t = 9 /\ i = 1) \/ (t = 1 /\ is_i 8 i) \/ (t = 2 /\ is_i 16 i) \/ (t = 3 /\ is_i 24 i) \/
      (t = 4 /\ is_i 32 i) \/ (t = 5 /\ is_i 48 i) \/ t = 6
  | VReal _ => t = 7
  | VText z => t = 2 * Z.of_nat (length z) + 13
  | VBlob z => t = 2 * Z.of_nat (length z) + 12
  end.
Proof.
  intros [Hi Hr _ _ Hz Hlen] t. unfold value_of, t, sqlite3VdbeSerialType.
  destruct (has MEM_Null m); [done|]. destruct (has MEM_Int m) eqn:Eint.
  - change MAX_6BYTE with 140737488355327.
    assert (c_u m .& 1 = c_u m mod 2) as -> by (change 1 with (Z.ones 1); by rewrite Z.land_ones).
    assert ((c_u m <? 0) && (c_u m <? - (140737488355327)) = false -> u64 (if c_u m <? 0 then - c_u m else c_u m) = Z.abs (c_u m)) as Habs.
    { destruct (Z.ltb_spec (c_u m) 0); intros; rewrite uwrap_small; small. }
    destruct (_ && _) eqn:E; [lia|]. rewrite Habs by done. unfold uwrap, is_i in *. pows.
    repeat match goal with |- context [if ?b then _ else _] => destruct b eqn:?E end; Z.to_euclidean_division_equations; lia.
  - destruct (has MEM_Real m); [done|]. unfold content, c_n, SQLITE_MAX_LENGTH in *. rewrite length_app in *.
    destruct (has MEM_Zero m); [destruct Hz as (? & _ & _ & _ & ->); [done|]|]; rewrite ?length_replicate in *; cbn [length] in *.
    + rewrite length_app, length_replicate, uwrap_small by small. lia.
    + destruct (has MEM_Str m); rewrite length_app, uwrap_small by small; cbn [length]; lia.
Qed.

Lemma serial_get_bytes buf t m : 12 <= t ->
  sqlite3VdbeSerialGet buf t m =
    (let len := (t - 12) / 2 in
     (len, set_bytes (if t .& 1 =? 1 then MEM_Str .| MEM_Ephem else MEM_Blob .| MEM_Ephem) (take (Z.to_nat len) buf) m)).
Proof.
  intros Ht. destruct t as [|t|t]; [lia| |lia]. do 4 (destruct t as [t|t|]; try reflexivity; try (exfalso; lia)).
Qed.

Lemma serial_get_int buf t m : 1 <= t <= 9 /\ t <> 7 ->
  sqlite3VdbeSerialGet buf t m = (sqlite3VdbeSerialTypeLen t, set_int (vdbeRecordDecodeInt t buf) m).
Proof.
  intros Ht. assert (t = 1 \/ t = 2 \/ t = 3 \/ t = 4 \/ t = 5 \/ t = 6 \/ t = 8 \/ t = 9) as Hc by lia. by destruct_or! Hc; subst.
Qed.

Lemma land_1_odd t : t .& 1 = t mod 2.
Proof. change 1 with (Z.ones 1). by rewrite Z.land_ones. Qed.

Lemma value_of_inv m :
  match value_of m with
  | VInt i => c_u m = i
  | VReal x => c_r m = x /\ has MEM_Real m = true
  | VText z | VBlob z => content m = z
  | VNull => True
  end.
Proof.
  unfold value_of. destruct (has MEM_Null m); [done|]. destruct (has MEM_Int m); [done|].
  destruct (has MEM_Real m) eqn:E; [done|]. by destruct (has MEM_Str m).
Qed.

(** The type and the bytes of a field, by its value. *)
Lemma field_cases m fmt : cell_ok m ->
  let t := sqlite3VdbeSerialType m fmt in
  let b := payload fmt m in
  match value_of m with
  | VNull => t = 0 /\ b = []
  | VInt i => (t = 8 /\ i = 0 /\ b = []) \/ (t = 9 /\ i = 1 /\ b = []) \/ (t = 1 /\ is_i 8 i /\ b = be 1 (u64 i)) \/
      (t = 2 /\ is_i 16 i /\ b = be 2 (u64 i)) \/ (t = 3 /\ is_i 24 i /\ b = be 3 (u64 i)) \/
      (t = 4 /\ is_i 32 i /\ b = be 4 (u64 i)) \/ (t = 5 /\ is_i 48 i /\ b = be 6 (u64 i)) \/ (t = 6 /\ b = be 8 (u64 i))
  | VReal x => t = 7 /\ b = be 8 x /\ is_u 64 x /\ sqlite3IsNaN x = false
  | VText z => t = 2 * Z.of_nat (length z) + 13 /\ b = z
  | VBlob z => t = 2 * Z.of_nat (length z) + 12 /\ b = z
  end.
Proof.
  intros Hm. cbn zeta. pose proof (serial_type_cases m fmt Hm) as Ht. pose proof (value_of_inv m) as Hv. cbn zeta in Ht. unfold payload.
  destruct Hm as [_ Hr Hnan _ _ _]. destruct (value_of m); rewrite ?Hv in *.
  - by rewrite Ht.
  - destruct_or! Ht; destruct_and? Ht; match goal with H : sqlite3VdbeSerialType _ _ = _ |- _ => rewrite H end; cbn -[be uwrap is_i]; tauto.
  - rewrite Ht. destruct Hv as [<- ?]. by auto.
  - rewrite Ht. rewrite (proj2 (Z.leb_gt _ 7)), (proj2 (Z.leb_le 12 _)) by lia. done.
  - rewrite Ht. rewrite (proj2 (Z.leb_gt _ 7)), (proj2 (Z.leb_le 12 _)) by lia. done.
Qed.

Lemma payload_length m fmt : cell_ok m -> Z.of_nat (length (payload fmt m)) = sqlite3VdbeSerialTypeLen (sqlite3VdbeSerialType m fmt).
Proof.
  intros Hm. pose proof (field_cases m fmt Hm) as Ht. cbn zeta in Ht.
  destruct (value_of m) as [| | |z|z]; destruct_or? Ht; destruct_and? Ht;
    repeat match goal with H : _ = _ |- _ => rewrite H end; rewrite ?be_length; try done;
    unfold sqlite3VdbeSerialTypeLen; rewrite (proj2 (Z.leb_le 12 _)) by lia; Z.to_euclidean_division_equations; lia.
Qed.

(** The 64-bit pattern of an integer read back at its width. *)
Lemma sign_be k i : (0 < k <= 8)%nat -> is_i (8 * Z.of_nat k) i -> swrap (8 * Z.of_nat k) (be_val (be k (u64 i))) = i.
Proof.
  intros Hk Hi. rewrite be_val_be. destruct k as [|[|[|[|[|[|[|[|[|]]]]]]]]]; try lia; unfold swrap, uwrap; cbn in Hi |- *; small.
Qed.

Lemma decode_int m fmt rest i : cell_ok m -> value_of m = VInt i ->
  vdbeRecordDecodeInt (sqlite3VdbeSerialType m fmt) (payload fmt m ++ rest) = i.
Proof.
  intros Hm Ev. pose proof (field_cases m fmt Hm) as Ht. pose proof (value_of_inv m) as Hv. rewrite Ev in Ht, Hv. cbn zeta in Ht.
  assert (is_i 64 i) as Hi by (rewrite <- Hv; apply Hm).
  destruct_or! Ht; destruct_and! Ht; repeat match goal with H : _ = _ |- _ => rewrite H end; cbn [vdbeRecordDecodeInt]; try done.
  - change (be 1 (u64 i)) with [u8 (u64 i)]. unfold ONE_BYTE_INT. cbn [app]. change (rd (?x :: _) 0) with x.
    rewrite <- (sign_be 1 i) at 2 by (lia || done). f_equal.
  - rewrite two_int by (apply be_bytes || apply be_length). apply (sign_be 2 i); [lia|done].
  - rewrite three_int by (apply be_bytes || apply be_length). apply (sign_be 3 i); [lia|done].
  - rewrite (proj1 (four_uint _ rest (be_bytes 4 (u64 i)) (be_length 4 _))). apply (sign_be 4 i); [lia|done].
  - change (be 6 (u64 i)) with (be 2 (u64 i >> 8 >> 8 >> 8 >> 8) ++ be 4 (u64 i)). rewrite <- app_assoc.
    rewrite (two_int _ (be 4 (u64 i) ++ rest)) by (apply be_bytes || apply be_length).
    rewrite (drop_app_length' (be 2 _)) by (by rewrite be_length).
    rewrite (proj1 (four_uint _ rest (be_bytes 4 (u64 i)) (be_length 4 _))), !be_val_be.
    rewrite !Z.shiftr_shiftr by lia. rewrite Z.shiftr_div_pow2 by lia. unfold swrap, uwrap. rewrite Z.shiftl_mul_pow2 by lia. cbn. small.
  - rewrite eight_uint by (apply be_bytes || apply be_length). apply (sign_be 8 i); [lia|done].
Qed.

(** A cell with one representation of its value: NULL excludes the others, it is not an integer and a real, and there is no tail of zeros. *)
Definition plain (m : Mem) : Prop :=
  has MEM_Zero m = false /\
  match value_of m with
  | VNull => has MEM_Int m = false /\ has MEM_Real m = false /\ has MEM_Str m = false /\ has MEM_Blob m = false
  | VInt _ => has MEM_Real m = false
  | VBlob _ => has MEM_Blob m = true
  | _ => True
  end.

(** Reading the bytes of a field gives back its value. *)
Lemma serial_get m fmt rest m0 : cell_ok m -> exists m',
  sqlite3VdbeSerialGet (payload fmt m ++ rest) (sqlite3VdbeSerialType m fmt) m0 = (Z.of_nat (length (payload fmt m)), m') /\
  value_of m' = value_of m /\ c_enc m' = c_enc m0 /\ plain m'.
Proof.
  intros Hm. pose proof (field_cases m fmt Hm) as Ht. pose proof (decode_int m fmt rest) as Hd. cbn zeta in Ht. destruct (value_of m) as [|i|x|z|z].
  - destruct Ht as [-> ->]. by eexists.
  - rewrite serial_get_int by (clear -Ht; destruct_or! Ht; destruct_and! Ht; lia). rewrite (Hd i), payload_length by done. by eexists.
  - destruct Ht as (-> & -> & Hx & Hnan). cbn [sqlite3VdbeSerialGet].
    rewrite eight_uint by (apply be_bytes || apply be_length). rewrite be_val_be, uwrap_small, be_length by done.
    eexists. split; [done|]. unfold plain, value_of, has, set_real. rewrite Hnan. done.
  - destruct Ht as [-> ->]. rewrite serial_get_bytes, land_1_odd by lia. cbn zeta.
    replace ((2 * Z.of_nat (length z) + 13 - 12) / 2) with (Z.of_nat (length z)) by (Z.to_euclidean_division_equations; lia).
    replace ((2 * Z.of_nat (length z) + 13) mod 2) with 1 by (Z.to_euclidean_division_equations; lia).
    eexists. split; [done|]. rewrite Nat2Z.id, take_app_length. unfold plain, value_of, content, has. cbn. by rewrite app_nil_r.
  - destruct Ht as [-> ->]. rewrite serial_get_bytes, land_1_odd by lia. cbn zeta.
    replace ((2 * Z.of_nat (length z) + 12 - 12) / 2) with (Z.of_nat (length z)) by (Z.to_euclidean_division_equations; lia).
    replace ((2 * Z.of_nat (length z) + 12) mod 2) with 0 by (Z.to_euclidean_division_equations; lia).
    eexists. split; [done|]. rewrite Nat2Z.id, take_app_length. unfold plain, value_of, content, has. cbn. by rewrite app_nil_r.
Qed.

(** The bytes [sqlite3VdbeSerialPut] writes: the tail of zeros is left to the caller. *)
Definition tail (m : Mem) : list Z := if has MEM_Zero m then replicate (Z.to_nat (c_u m)) 0 else [].
Definition stored (file_format : Z) (m : Mem) : list Z :=
  if 12 <=? sqlite3VdbeSerialType m file_format then c_z m else payload file_format m.

Lemma zero_blob m : cell_ok m -> has MEM_Zero m = true -> value_of m = VBlob (content m).
Proof. intros Hm Hz. destruct (ok_zero m Hm Hz) as (_ & E1 & E2 & E3 & E4). unfold value_of. by rewrite E1, E2, E3, E4. Qed.

Lemma payload_stored fmt m : cell_ok m -> payload fmt m = stored fmt m ++ tail m.
Proof.
  intros Hm. pose proof (field_cases m fmt Hm) as Ht. pose proof (value_of_inv m) as Hv. pose proof (zero_blob m Hm) as Hz. cbn zeta in Ht. unfold stored, tail.
  destruct (value_of m) as [|i|x|z|z]; try (destruct (has MEM_Zero m) eqn:Ez; [by specialize (Hz eq_refl)|]).
  - destruct Ht as [-> ->]. done.
  - destruct_or! Ht; destruct_and! Ht; repeat match goal with H : _ = _ |- _ => rewrite H end; by rewrite app_nil_r.
  - destruct Ht as (-> & -> & _). by rewrite app_nil_r.
  - destruct Ht as [-> ->]. rewrite (proj2 (Z.leb_le 12 _)) by lia. rewrite <- Hv. unfold content. by rewrite Ez.
  - destruct Ht as [-> ->]. rewrite (proj2 (Z.leb_le 12 _)) by lia. by rewrite <- Hv.
Qed.

Lemma serial_put fmt m buf : cell_ok m -> (length (stored fmt m) <= length buf)%nat ->
  sqlite3VdbeSerialPut buf m (sqlite3VdbeSerialType m fmt) =
    (Z.of_nat (length (stored fmt m)), stored fmt m ++ drop (length (stored fmt m)) buf).
Proof.
  intros Hm Hl. unfold stored, sqlite3VdbeSerialPut in *. set (t := sqlite3VdbeSerialType m fmt) in *.
  destruct (Z.leb_spec 12 t) as [H12|H12].
  - rewrite (proj2 (Z.leb_gt t 7)) by lia. done.
  - pose proof (payload_length m fmt Hm) as Hlen. fold t in Hlen. unfold payload in *. fold t in Hl, Hlen |- *.
    rewrite (proj2 (Z.leb_gt 12 t)) in * by lia. destruct ((t <=? 7) && (0 <? t)); [|done].
    rewrite be_length in Hl, Hlen |- *. rewrite Hlen. by rewrite put_int_be by lia.
Qed.

(** A value survives serialization: [sqlite3VdbeSerialPut] writes exactly the bytes its length function announces, less the zeros
    at the end of a blob, and reading them with [sqlite3VdbeSerialGet] gives back the same value. *)
Theorem serial_roundtrip fmt m buf m0 :
  cell_ok m -> Z.of_nat (length (stored fmt m)) <= Z.of_nat (length buf) ->
  let t := sqlite3VdbeSerialType m fmt in
  let '(n, buf') := sqlite3VdbeSerialPut buf m t in
  n + Z.of_nat (length (tail m)) = sqlite3VdbeSerialTypeLen t /\ drop (Z.to_nat n) buf' = drop (Z.to_nat n) buf /\
  exists m', sqlite3VdbeSerialGet (take (Z.to_nat n) buf' ++ tail m ++ drop (Z.to_nat n) buf') t m0 = (sqlite3VdbeSerialTypeLen t, m') /\
    value_of m' = value_of m.
Proof.
  intros Hm Hl t. subst t. rewrite serial_put by (done || lia). pose proof (payload_length m fmt Hm) as Hlen.
  rewrite Nat2Z.id, take_app_length, drop_app_length. rewrite app_assoc, <- payload_stored by done.
  split; [rewrite <- Hlen, payload_stored, length_app by done; lia|]. split; [done|].
  destruct (serial_get m fmt (drop (length (stored fmt m)) buf) m0 Hm) as (m' & E & ? & _). exists m'. by rewrite <- Hlen.
Qed.

Lemma int_cell_ok i : is_i 64 i -> cell_ok (int_cell i).
Proof.
  intros Hi. constructor; [exact Hi|by split|done|constructor|done|by vm_compute].
Qed.

Lemma serial_roundtrip_witness :
  let t := sqlite3VdbeSerialType (int_cell (-300)) 4 in
  exists n buf' m', sqlite3VdbeSerialPut (replicate 9 7) (int_cell (-300)) t = (n, buf') /\
    sqlite3VdbeSerialGet (take (Z.to_nat n) buf' ++ drop (Z.to_nat n) buf') t null_cell = (sqlite3VdbeSerialTypeLen t, m') /\
    value_of m' = VInt (-300).
Proof.
  pose proof (serial_roundtrip 4 (int_cell (-300)) (replicate 9 7) null_cell) as H. cbn zeta in H |- *.
  destruct (sqlite3VdbeSerialPut _ _ _) as [n buf'].
  destruct H as (_ & _ & m' & E & Hv); [apply int_cell_ok; small|by vm_compute|]. by exists n, buf', m'.
Defined.

(** * Records *)

Definition types (fmt : Z) (fs : list Mem) : list Z := concat (map (fun m => venc (sqlite3VdbeSerialType m fmt)) fs).
Definition body (fmt : Z) (fs : list Mem) : list Z := concat (map (payload fmt) fs).
Definition stored_body (fmt : Z) (fs : list Mem) : list Z := concat (map (stored fmt) fs).

(** The record of a list of fields: the size of the header, the types, and the bytes of the fields. *)
Definition record_bytes (fmt : Z) (fs : list Mem) : list Z :=
  venc (header_size (Z.of_nat (length (types fmt fs)))) ++ types fmt fs ++ body fmt fs.

Lemma serial_type_u32 m fmt : cell_ok m -> is_u 32 (sqlite3VdbeSerialType m fmt) /\ is_u 64 (sqlite3VdbeSerialType m fmt).
Proof.
  intros Hm. pose proof (serial_type_cases m fmt Hm) as Ht. pose proof (value_of_inv m) as Hv. pose proof (ok_length m Hm) as Hl. cbn zeta in Ht.
  unfold SQLITE_MAX_LENGTH in Hl. destruct (value_of m); subst; destruct_or? Ht; small.
Qed.

Lemma varintLen_cases v : 0 <= v < 2 ^ 35 ->
  let k := sqlite3VarintLen v in
  k = 1 /\ v < 128 \/ k = 2 /\ 128 <= v < 16384 \/ k = 3 /\ 16384 <= v < 2097152 \/ k = 4 /\ 2097152 <= v < 268435456 \/ k = 5 /\ 268435456 <= v.
Proof.
  intros Hv k. subst k. unfold sqlite3VarintLen. destruct (varintLen_loop_spec 10 0 v) as (m & Hm & ->); [lia|lia|lia|].
  assert (m <= 5)%nat by (apply (vsize_lt v m 5); [done|exact (proj2 Hv)|lia]). destruct Hm as (Hm1 & Hr & Hlo).
  destruct m as [|[|[|[|[|[|]]]]]]; try lia; cbn in Hr, Hlo; lia.
Qed.

(** The header counts the bytes of its own size. *)
Lemma header_size_self n : 0 <= n < 2 ^ 32 - 10 -> header_size n = n + sqlite3VarintLen (header_size n) /\ is_u 32 (header_size n).
Proof.
  intros Hn. pose proof (varintLen_cases n ltac:(pows; lia)) as Hk. cbn zeta in Hk. unfold header_size.
  pose proof (varintLen_cases (n + sqlite3VarintLen n) ltac:(pows; lia)) as Hk2.
  pose proof (varintLen_cases (n + sqlite3VarintLen n + 1) ltac:(pows; lia)) as Hk3.
  pose proof (varintLen_cases (n + 1) ltac:(pows; lia)) as Hk4. cbn zeta in Hk2, Hk3, Hk4.
  destruct (Z.leb_spec n 126); [small|]. destruct (Z.ltb_spec (sqlite3VarintLen n) (sqlite3VarintLen (n + sqlite3VarintLen n))); small.
Qed.

(** Cells that stand for the same field. *)
Definition same_field (fmt : Z) (m m' : Mem) : Prop :=
  cell_ok m' /\ value_of m' = value_of m /\ sqlite3VdbeSerialType m' fmt = sqlite3VdbeSerialType m fmt /\ payload fmt m' = payload fmt m.

Lemma same_value fmt m m' : cell_ok m -> cell_ok m' -> value_of m' = value_of m -> (forall i, value_of m <> VInt i) -> same_field fmt m m'.
Proof.
  intros Hm Hm' Hv Hi. pose proof (field_cases m fmt Hm) as H. pose proof (field_cases m' fmt Hm') as H'. cbn zeta in H, H'. rewrite Hv in H'.
  unfold same_field. destruct (value_of m) as [|i| | |]; [| by destruct (Hi i)|..]; destruct_and! H; destruct_and! H'; split_and!; congruence.
Qed.


Lemma expand_ok m fmt : cell_ok m -> has MEM_Zero m = true ->
  let m' := (sqlite3VdbeMemExpandBlob true m).2 in
  same_field fmt m m' /\ has MEM_Zero m' = false /\ c_z m' = content m.
Proof.
  intros Hm Hz. unfold sqlite3VdbeMemExpandBlob. rewrite Hz. cbn [negb snd]. set (m' := {| c_flags := _ |}).
  assert (forall f, Z.land (Z.lnot (MEM_Zero .| MEM_Term)) f = f -> has f m' = has f m) as Hf.
  { intros f Hf. unfold has, m'. cbn [c_flags]. by rewrite <- Z.land_assoc, Hf. }
  assert (has MEM_Zero m' = false) as Hz'.
  { unfold has, m'. cbn [c_flags]. rewrite <- Z.land_assoc. change (Z.land (Z.lnot (MEM_Zero .| MEM_Term)) MEM_Zero) with 0. by rewrite Z.land_0_r. }
  assert (content m' = content m) as Hc by (unfold content; rewrite Hz', Hz, app_nil_r; done).
  destruct Hm as [Hi Hr Hn Hb H0 Hl] eqn:EHm. destruct (H0 Hz) as (Hu & E1 & E2 & E3 & E4).
  assert (cell_ok m') as Hm'.
  { constructor; [done|done|rewrite Hf by done; by rewrite E3|..|by rewrite Hz'|by rewrite Hc].
    apply Forall_app_2; [done|]. apply Forall_replicate. done. }
  assert (value_of m' = value_of m) as Hv by (unfold value_of; rewrite !Hf, E1, E2, E3, E4, Hc by done; done).
  split; [|split; [done|by unfold content; rewrite Hz]]. apply same_value; try done. intros i. unfold value_of. by rewrite E1, E2, E3, E4.
Qed.

Lemma tail_none m : has MEM_Zero m = false -> tail m = [].
Proof. unfold tail. by intros ->. Qed.

Lemma types_cons fmt m fs : cell_ok m -> let t := sqlite3VdbeSerialType m fmt in
  Z.of_nat (length (types fmt fs)) + (if t <=? 127 then 1 else sqlite3VarintLen t) = Z.of_nat (length (types fmt (m :: fs))).
Proof.
  intros Hm. destruct (serial_type_u32 m fmt Hm) as [Ht Ht']. unfold types. cbn [map concat]. rewrite length_app, Nat2Z.inj_add, venc_length by done.
  pose proof (varintLen_cases (sqlite3VdbeSerialType m fmt) ltac:(small)) as Hk. cbn zeta in *.
  destruct (Z.leb_spec (sqlite3VdbeSerialType m fmt) 127); lia.
Qed.

(** What the loop over the fields computes: the sizes of the parts, and the zeros at the end that need not be written. *)
Lemma record_space_correct fmt fs : Forall cell_ok fs ->
  let '(fs', s) := record_space true fmt fs in
  Forall2 (same_field fmt) fs fs' /\ nHdr s = Z.of_nat (length (types fmt fs)) /\ nData s = Z.of_nat (length (stored_body fmt fs')) /\
  0 <= nZero s /\ body fmt fs = stored_body fmt fs' ++ replicate (Z.to_nat (nZero s)) 0.
Proof.
  induction fs as [|m fs IH]; intros Hok; [cbn; split_and!; done|]. apply Forall_cons in Hok as [Hm Hok]. cbn [record_space].
  specialize (IH Hok). destruct (record_space true fmt fs) as [fs' s]. destruct IH as (Hsame & Hh & Hd & Hz & Hb).
  unfold space_field. pose proof (payload_length m fmt Hm) as Hl.
  pose proof (types_cons fmt m fs Hm) as Hhdr. rewrite <- Hh in Hhdr.
  pose proof (payload_stored fmt m Hm) as Hp. unfold body. cbn [map concat]. fold (body fmt fs). rewrite Hb.
  destruct (has MEM_Zero m) eqn:Ez.
  - destruct (Z.eqb_spec (nData s) 0) as [E0|E0]; cbn [negb].
    + split_and!; cbn [nData nHdr nZero]; [by constructor; [|done]|done|..].
      * unfold stored_body in *. cbn [map concat]. destruct (concat _); [|cbn in Hd; lia]. rewrite app_nil_r.
        rewrite <- Hl, Hp, length_app. unfold tail. rewrite Ez, length_replicate. destruct (ok_zero m Hm Ez). lia.
      * destruct (ok_zero m Hm Ez). lia.
      * unfold stored_body in *. cbn [map concat]. destruct (concat _); [|cbn in Hd; lia]. rewrite app_nil_r, Hp, <- app_assoc. cbn [app].
        f_equal. unfold tail. rewrite Ez, <- replicate_add. f_equal. destruct (ok_zero m Hm Ez). lia.
    + destruct (expand_ok m fmt Hm Ez) as (Hsm & Ez' & Hc). set (m' := (sqlite3VdbeMemExpandBlob true m).2) in *.
      pose proof Hsm as (Hm' & _ & _ & Hpl). pose proof (payload_stored fmt m' Hm') as Hp'. rewrite tail_none, app_nil_r in Hp' by done.
      split_and!; cbn [nData nHdr nZero]; [by constructor|done|..|done|]; unfold stored_body in *; cbn [map concat].
      * rewrite <- Hl, length_app, <- Hp', Hpl. lia.
      * by rewrite <- Hp', Hpl, app_assoc.
  - rewrite tail_none, app_nil_r in Hp by done.
    split_and!; cbn [nData nHdr nZero]; [by constructor; [|done]|done|..|done|]; unfold stored_body in *; cbn [map concat].
    + rewrite <- Hl, length_app, <- Hp. lia.
    + by rewrite <- Hp, app_assoc.
Qed.

Lemma at_ptr_app i f pre p n p' : i = Z.of_nat (length pre) -> f p = (n, p') -> at_ptr i f (pre ++ p) = (n, pre ++ p').
Proof. intros -> E. unfold at_ptr. by rewrite Nat2Z.id, drop_app_length, take_app_length, E. Qed.

(** Writing the fields: the types go to the room [X] in the header, the bytes behind the bytes [S] written before. *)
Lemma write_fields_correct fmt fs : Forall cell_ok fs -> forall A X S Y,
  length X = length (types fmt fs) -> (length (stored_body fmt fs) <= length Y)%nat ->
  write_fields fmt fs (Z.of_nat (length A)) (Z.of_nat (length (A ++ X ++ S))) (A ++ X ++ S ++ Y) =
    (Z.of_nat (length (A ++ types fmt fs)), Z.of_nat (length (A ++ X ++ S ++ stored_body fmt fs)),
     A ++ types fmt fs ++ S ++ stored_body fmt fs ++ drop (length (stored_body fmt fs)) Y).
Proof.
  induction fs as [|m fs IH]; intros Hok A X S Y HX HY.
  - cbn. destruct X; [|done]. by rewrite !app_nil_r.
  - apply Forall_cons in Hok as [Hm Hok]. destruct (serial_type_u32 m fmt Hm) as [Ht Ht']. cbn [write_fields].
    unfold types, stored_body in HX, HY |- *. cbn [map concat] in *. fold (types fmt fs) (stored_body fmt fs) in *. rewrite length_app in HX, HY.
    set (T := venc (sqlite3VdbeSerialType m fmt)) in *. pose proof (venc_length _ Ht') as HT. fold T in HT.
    rewrite (at_ptr_app (Z.of_nat (length A)) _ A _ (Z.of_nat (length T)) (T ++ drop (length T) X ++ S ++ Y)); [|done|].
    2:{ rewrite putVarint32_venc; [|done|rewrite <- HT, !length_app; lia]. rewrite <- HT, Nat2Z.id. rewrite drop_app_le by lia.  done. }
    set (X' := drop (length T) X). assert (length X' = length (types fmt fs)) as HX' by (unfold X'; rewrite length_drop; lia).
    set (P := stored fmt m) in *.
    replace (A ++ T ++ X' ++ S ++ Y) with ((A ++ T ++ X' ++ S) ++ Y) by (by rewrite <- !app_assoc).
    rewrite (at_ptr_app _ _ (A ++ T ++ X' ++ S) Y (Z.of_nat (length P)) (P ++ drop (length P) Y)); cycle 1.
    { rewrite !length_app, HX', HX. lia. }
    { apply serial_put; [done|fold P; lia]. }
    replace ((A ++ T ++ X' ++ S) ++ P ++ drop (length P) Y) with ((A ++ T) ++ X' ++ (S ++ P) ++ drop (length P) Y) by (by rewrite <- !app_assoc).
    replace (Z.of_nat (length A) + Z.of_nat (length T)) with (Z.of_nat (length (A ++ T))) by (rewrite length_app; lia).
    replace (Z.of_nat (length (A ++ X ++ S)) + Z.of_nat (length P)) with (Z.of_nat (length ((A ++ T) ++ X' ++ S ++ P))) by (rewrite !length_app, HX', HX; lia).
    rewrite IH by (done || rewrite length_drop; lia). rewrite drop_drop, <- !app_assoc. f_equal; [f_equal; rewrite !length_app, ?HX', ?HX; lia|].
    by rewrite (length_app P).
Qed.

Lemma varintLen_nonneg fuel : forall i v, i <= varintLen_loop fuel i v.
Proof. induction fuel as [|fuel IH]; intros i v; cbn [varintLen_loop]; [lia|]. destruct (_ && _); [|lia]. specialize (IH (i + 1) (v >> 7)). lia. Qed.

Lemma header_size_ge n : n <= header_size n.
Proof.
  unfold header_size. pose proof (varintLen_nonneg 10 0 n) as H. fold (sqlite3VarintLen n) in H.
  destruct (_ <=? _); [lia|]. destruct (_ <? _); lia.
Qed.

Lemma same_types fmt fs fs' : Forall2 (same_field fmt) fs fs' -> types fmt fs' = types fmt fs /\ Forall cell_ok fs'.
Proof.
  induction 1 as [|m m' fs fs' (Hm & _ & Ht & _) _ [IH1 IH2]]; [done|]. split; [|by constructor]. unfold types in *. cbn [map concat]. by rewrite Ht, IH1.
Qed.

(** A buffer of at least the size that was asked for. *)
Definition grows (mem_grow : Z -> option (list Z)) : Prop := forall n buf, mem_grow n = Some buf -> n <= Z.of_nat (length buf).

Lemma makeRecord_bytes limit fmt mem_grow fields i j pOut :
  Forall cell_ok fields -> grows mem_grow -> limit <= SQLITE_MAX_LENGTH ->
  OP_MakeRecord limit fmt true mem_grow fields = Made i j pOut ->
  i = header_size (Z.of_nat (length (types fmt fields))) /\ j = c_n pOut /\ content pOut = record_bytes fmt fields /\
  value_of pOut = VBlob (content pOut) /\ j <= limit.
Proof.
  intros Hok Hgrow Hlimit. unfold OP_MakeRecord. pose proof (record_space_correct fmt fields Hok) as Hs.
  destruct (record_space true fmt fields) as [fs' s]. destruct Hs as (Hsame & Hh & Hd & Hz & Hb). rewrite Hh.
  destruct (same_types _ _ _ Hsame) as [Htypes Hok']. set (n := Z.of_nat (length (types fmt fields))) in *. set (h := header_size n).
  destruct (Z.ltb_spec limit (h + nData s)) as [|Hle]; [done|]. destruct (mem_grow (h + nData s)) as [buf|] eqn:Eg; [|done]. apply Hgrow in Eg.
  pose proof (header_size_ge n) as Hge. fold h in Hge. unfold SQLITE_MAX_LENGTH in Hlimit.
  destruct (header_size_self n ltac:(pows; lia)) as [Hself Hu]. fold h in Hself, Hu.
  assert (is_u 64 h) as Hu' by small. pose proof (venc_length h Hu') as Hvl.
  rewrite putVarint32_venc by (done || lia). set (A := venc h) in *. rewrite <- Hvl, Nat2Z.id.
  set (X := take (length (types fmt fields)) (drop (length A) buf)). set (Y := drop (length (types fmt fields)) (drop (length A) buf)).
  assert (length X = length (types fmt fs')) as HX by (unfold X; rewrite length_take, length_drop, Htypes; lia).
  assert (drop (length A) buf = X ++ [] ++ Y) as -> by (unfold X, Y; cbn [app]; by rewrite take_drop).
  assert (length (stored_body fmt fs') <= length Y)%nat as HY by (unfold Y; rewrite !length_drop; lia).
  assert (h = Z.of_nat (length (A ++ X ++ []))) as Eh by (rewrite app_nil_r, length_app, HX, Htypes; lia).
  rewrite Eh at 1. rewrite write_fields_correct by done. intros [= <- <- <-]. rewrite Htypes.
  assert (take (Z.to_nat (h + nData s)) (A ++ types fmt fields ++ stored_body fmt fs' ++ drop (length (stored_body fmt fs')) Y) =
    A ++ types fmt fields ++ stored_body fmt fs') as Ht.
  { rewrite !app_assoc. apply take_app_length'. rewrite !length_app. lia. }
  unfold content, c_n, value_of, content, record_bytes, has. cbn [c_flags c_z c_u]. rewrite Ht. fold n h A. rewrite Hb.
  split; [rewrite length_app; lia|]. cbn [app]. split; [rewrite !length_app, HX, Htypes; lia|].
  destruct (Z.eqb_spec (nZero s) 0) as [->|]; cbn [negb]; cbn -[app replicate Z.to_nat];
    rewrite <- ?app_assoc; (split; [done|]); (split; [done|]); rewrite !length_app, HX, Htypes; lia.
Qed.

(** * Reading a record *)

(** A position in the record of some fields: the types of the fields [fs] that are left are at [idx], their bytes at [d]. *)
Record at_fields (fmt : Z) (aKey : list Z) (nKey szHdr : Z) (fs : list Mem) (idx d : Z) : Prop := {
  at_ok : Forall cell_ok fs;
  at_bytes : bytes aKey;
  at_types : exists rest, drop (Z.to_nat idx) aKey = types fmt fs ++ rest;
  at_body : exists rest, drop (Z.to_nat d) aKey = body fmt fs ++ rest;
  at_idx : 0 <= idx /\ idx + Z.of_nat (length (types fmt fs)) = szHdr;
  at_d : szHdr <= d /\ d + Z.of_nat (length (body fmt fs)) <= nKey;
  at_nKey : nKey <= SQLITE_MAX_LENGTH
}.

Lemma drop_more {A} (l a b : list A) i n : 0 <= i -> drop (Z.to_nat i) l = a ++ b -> n = Z.of_nat (length a) -> drop (Z.to_nat (i + n)) l = b.
Proof.
  intros Hi E ->. replace (Z.to_nat (i + Z.of_nat (length a))) with (Z.to_nat i + length a)%nat by lia.
  by rewrite <- drop_drop, E, drop_app_length.
Qed.

(** The next field: its type and bytes can be read, and behind them is the position of the fields that follow. *)
Lemma at_fields_step fmt aKey nKey szHdr m fs idx d : at_fields fmt aKey nKey szHdr (m :: fs) idx d ->
  let t := sqlite3VdbeSerialType m fmt in
  cell_ok m /\ idx < szHdr /\ d <= nKey /\ getVarint32 (drop (Z.to_nat idx) aKey) = (sqlite3VarintLen t, t) /\
  (exists rest, drop (Z.to_nat d) aKey = payload fmt m ++ rest) /\ d + sqlite3VdbeSerialTypeLen t <= nKey /\
  at_fields fmt aKey nKey szHdr fs (idx + sqlite3VarintLen t) (d + sqlite3VdbeSerialTypeLen t).
Proof.
  intros [Hok Hb [r1 Ht] [r2 Hd] [Hi0 Hi] [Hd0 Hdn] Hn] t. apply Forall_cons in Hok as [Hm Hok].
  unfold types, body in Ht, Hd, Hi, Hdn |- *. cbn [map concat] in Ht, Hd, Hi, Hdn |- *. fold (types fmt fs) (body fmt fs) t in Ht, Hd, Hi, Hdn |- *. rewrite <- app_assoc in Ht, Hd. rewrite length_app in Hi, Hdn.
  destruct (serial_type_u32 m fmt Hm) as [Hu Hu']. fold t in Hu, Hu'. pose proof (venc_length t Hu') as Hl. pose proof (payload_length m fmt Hm) as Hp. fold t in Hp.
  pose proof (varintLen_cases t ltac:(small)) as Hk. cbn zeta in Hk.
  split; [done|]. split; [lia|]. split; [lia|]. split.
  { pose proof (Forall_drop _ (Z.to_nat idx) _ Hb) as Hbt. rewrite Ht in Hbt |- *. apply Forall_app in Hbt as [_ ?]. by apply getVarint32_venc. }
  split; [eauto|]. split; [lia|]. constructor; try done; [exists r1|exists r2|lia|lia].
  - by apply (drop_more _ (venc t)).
  - by apply (drop_more _ (payload fmt m)); [lia|..].
Qed.

Lemma unpack_loop_correct fmt aKey nKey szHdr enc fs : forall aMem idx d, at_fields fmt aKey nKey szHdr fs idx d ->
  let r := unpack_loop (length aMem) nKey szHdr idx d enc aKey aMem in
  map value_of r = take (length aMem) (map value_of fs) /\ Forall (fun m => c_enc m = enc) r.
Proof.
  induction fs as [|m fs IH]; intros [|m0 aMem] idx d Hat; cbn [length unpack_loop take map]; try done.
  - destruct Hat as [_ _ _ _ [_ Hi] _ _]. cbn in Hi. rewrite (proj2 (Z.ltb_ge idx szHdr)) by lia. done.
  - pose proof Hat as Hat0. apply at_fields_step in Hat as (Hm & Hi & Hd & Hg & [rest Hp] & Hn & Hat). rewrite (proj2 (Z.ltb_lt _ _)), (proj2 (Z.leb_le _ _)), Hg, Hp by done.
    cbn [andb]. match goal with |- context [sqlite3VdbeSerialGet _ _ ?m1] => destruct (serial_get m fmt rest m1 Hm) as (m' & -> & Hv & He & _) end.
    rewrite payload_length by done. destruct Hat as [? ? ? ? [? ?] [? ?] Hk] eqn:E. unfold SQLITE_MAX_LENGTH in Hk.
    rewrite (uwrap_small 32), (swrap_small 32) by small. specialize (IH aMem _ _ Hat) as [IH1 IH2]. cbn zeta in *. cbn [map]. rewrite Hv, IH1.
    split; [done|]. constructor; [by rewrite He|done].
Qed.

Lemma body_bytes fmt fs : Forall cell_ok fs -> bytes (body fmt fs).
Proof.
  induction 1 as [|m fs Hm _ IH]; [constructor|]. apply Forall_app_2; [|done]. unfold payload. destruct (_ && _); [apply be_bytes|].
  destruct (_ <=? _); [|constructor]. apply Forall_app_2; [apply Hm|]. destruct (has _ _); [|constructor]. by apply Forall_replicate.
Qed.

Lemma types_bytes fmt fs : Forall cell_ok fs -> bytes (types fmt fs).
Proof. induction 1 as [|m fs Hm _ IH]; [constructor|]. apply Forall_app_2; [|done]. by apply venc_bytes, serial_type_u32. Qed.

(** The start of a record, whatever follows it. *)
Lemma record_start fmt fs pad : Forall cell_ok fs -> bytes pad -> Z.of_nat (length (record_bytes fmt fs)) <= SQLITE_MAX_LENGTH ->
  let aKey := record_bytes fmt fs ++ pad in
  let szHdr := header_size (Z.of_nat (length (types fmt fs))) in
  getVarint32 aKey = (sqlite3VarintLen szHdr, szHdr) /\ is_u 32 szHdr /\
  at_fields fmt aKey (Z.of_nat (length (record_bytes fmt fs))) szHdr fs (sqlite3VarintLen szHdr) szHdr.
Proof.
  intros Hok Hpad Hlen aKey szHdr. unfold record_bytes in *. fold szHdr in Hlen, aKey |- *. rewrite !length_app in Hlen.
  set (n := Z.of_nat (length (types fmt fs))) in *.
  assert (0 <= n < 2 ^ 32 - 10) as Hn by (unfold SQLITE_MAX_LENGTH in *; pows; lia).
  destruct (header_size_self n Hn) as [Hself Hu]. fold szHdr in Hself, Hu. assert (is_u 64 szHdr) as Hu' by small.
  pose proof (venc_length szHdr Hu') as Hv. pose proof (body_bytes fmt fs Hok). pose proof (types_bytes fmt fs Hok). pose proof (venc_bytes szHdr Hu').
  assert (bytes (types fmt fs ++ body fmt fs ++ pad)) by (repeat apply Forall_app_2; done).
  unfold aKey. rewrite <- !app_assoc. split; [by apply getVarint32_venc|]. split; [done|]. rewrite !length_app.
  constructor; try done.
  - by apply Forall_app_2.
  - exists (body fmt fs ++ pad). rewrite <- Hv, Nat2Z.id. by rewrite drop_app_length.
  - exists pad. rewrite app_assoc. apply drop_app_length'. rewrite length_app. lia.
  - lia.
  - lia.
Qed.

Lemma record_length fmt fs : 0 <= Z.of_nat (length (types fmt fs)) < 2 ^ 32 - 10 ->
  Z.of_nat (length (record_bytes fmt fs)) = header_size (Z.of_nat (length (types fmt fs))) + Z.of_nat (length (body fmt fs)).
Proof.
  intros Hn. destruct (header_size_self _ Hn) as [Hself Hu]. unfold record_bytes. rewrite !length_app, !Nat2Z.inj_add, venc_length by small. lia.
Qed.

Lemma makeRecord_made limit fmt mem_grow fields :
  Forall cell_ok fields -> (forall n, mem_grow n <> None) -> limit <= SQLITE_MAX_LENGTH ->
  Z.of_nat (length (record_bytes fmt fields)) <= limit ->
  exists i j pOut, OP_MakeRecord limit fmt true mem_grow fields = Made i j pOut.
Proof.
  intros Hok Hmem Hlimit Hlen. unfold OP_MakeRecord. pose proof (record_space_correct fmt fields Hok) as Hs.
  destruct (record_space true fmt fields) as [fs' s]. destruct Hs as (_ & Hh & Hd & _ & Hb). rewrite Hh.
  rewrite record_length, Hb, length_app in Hlen.
  - rewrite (proj2 (Z.ltb_ge _ _)) by lia. destruct (mem_grow _) eqn:E; [|by apply Hmem in E].
    destruct (putVarint32 _ _). destruct (write_fields _ _ _ _ _) as [[i j] buf]. eauto.
  - unfold record_bytes, SQLITE_MAX_LENGTH in *. rewrite !length_app in Hlen. pows. lia.
Qed.

(** C25. OP_MakeRecord and [sqlite3VdbeRecordUnpack] are inverse: when the record fits the limit and memory is available, the opcode succeeds, its header
    and body end where their sizes say (the assertions [i==nHdr] and [j==nByte] of the code), and unpacking the record, with its tail of zeros and whatever
    follows it in memory, gives back the values of the registers, as many as there are cells. *)
Theorem makeRecord_roundtrip limit fmt mem_grow fields enc aMem pad :
  Forall cell_ok fields -> grows mem_grow -> (forall n, mem_grow n <> None) -> limit <= SQLITE_MAX_LENGTH -> bytes pad ->
  Z.of_nat (length (record_bytes fmt fields)) <= limit ->
  exists pOut, OP_MakeRecord limit fmt true mem_grow fields = Made (header_size (Z.of_nat (length (types fmt fields)))) (c_n pOut) pOut /\
    let r := sqlite3VdbeRecordUnpack enc (Z.of_nat (length (content pOut))) (content pOut ++ pad) aMem in
    map value_of r = take (length aMem) (map value_of fields) /\ Forall (fun m => c_enc m = enc) r.
Proof.
  intros Hok Hgrow Hmem Hlimit Hpad Hlen. destruct (makeRecord_made limit fmt mem_grow fields) as (i & j & pOut & E); [done..|].
  destruct (makeRecord_bytes limit fmt mem_grow fields i j pOut) as (-> & -> & Hc & _ & _); [done..|]. exists pOut. split; [done|].
  rewrite Hc. unfold sqlite3VdbeRecordUnpack.
  destruct (record_start fmt fields pad) as (-> & Hu & Hat); [done|done|lia|].
  rewrite (swrap_small 32); [by apply (unpack_loop_correct fmt _ _ _ _ fields)|lia|].
  destruct Hat as [_ _ _ _ _ [? ?] ?]. unfold SQLITE_MAX_LENGTH in *. small.
Qed.

Lemma makeRecord_roundtrip_witness :
  let fields := [int_cell 1; text_cell [65; 66]; int_cell (-300); null_cell; blob_cell [7] 2] in
  exists pOut, OP_MakeRecord 1000 4 true (fun n => Some (replicate (Z.to_nat n) 170)) fields = Made 6 (c_n pOut) pOut /\
    map value_of (sqlite3VdbeRecordUnpack 1 (Z.of_nat (length (content pOut))) (content pOut ++ [1; 2]) (replicate 9 null_cell)) =
      [VInt 1; VText [65; 66]; VInt (-300); VNull; VBlob [7; 0; 0]].
Proof.
  intros fields. destruct (makeRecord_roundtrip 1000 4 (fun n => Some (replicate (Z.to_nat n) 170)) fields 1 (replicate 9 null_cell) [1; 2])
    as (pOut & E & Hv & _).
  - repeat apply Forall_cons_2; try apply Forall_nil_2; try (apply int_cell_ok; small);
      (constructor; try done; try (by split); try (by repeat constructor)).
  - intros n buf [= <-]. rewrite length_replicate. lia.
  - done.
  - by vm_compute.
  - by repeat constructor.
  - by vm_compute.
  - exists pOut. split; [exact E|exact Hv].
Defined.
