(* ===== verification/RecordCmp.v ===== *)
(** Comparison of records: vdbeaux.c, sqlite3MemCompare .. sqlite3VdbeIdxRowid.

    A key is its bytes in memory, [nKey1] of them and whatever follows; the right side is already unpacked. *)
From Stdlib Require Import Floats.SpecFloat.
From S2P Require Import Prelude Varint Text Utf Serial.
Local Open Scope Z_scope.
Local Open Scope c_scope.


(** A collating sequence: the callback of the application and the encoding it expects. *)
Record CollSeq := { xCmp : list Z -> list Z -> Z; coll_enc : Z }.

(** [alloc] stands for the connection: it says whether the conversions get their memory. *)
Record KeyInfo := { k_enc : Z; k_nField : Z; k_nXField : Z; alloc : bool; aSortOrder : list bool; aColl : list (option CollSeq) }.

(** [aMem] has [nField] elements. *)
Record UnpackedRecord := { pKeyInfo : KeyInfo; default_rc : Z; aMem : list Mem; r1 : Z; r2 : Z }.

(** Of the result of [memcmp] only the sign is specified. *)
Fixpoint memcmp (n : nat) (a b : list Z) : Z :=
  match n with
  | O => 0
  | S n => let x := hd0 a in let y := hd0 b in if x <? y then -1 else if y <? x then 1 else memcmp n (tl a) (tl b)
  end.

(** [sqlite3ValueText] of a copy of a text cell: the null pointer with [n] = 0, here no bytes, when the conversion fails. *)
Definition text_in (mem : bool) (enc : Z) (m : Mem) : list Z :=
  if c_enc m =? enc then c_z m
  else
    let '(rc, m') := sqlite3VdbeMemTranslate mem mem {| m_enc := c_enc m; m_z := c_z m; m_term := false |} enc in
    if rc =? 0 then m_z m' else [].

Definition vdbeCompareMemString (mem : bool) (pMem1 pMem2 : Mem) (pColl : CollSeq) : Z :=
  if c_enc pMem1 =? coll_enc pColl then xCmp pColl (c_z pMem1) (c_z pMem2)
  else xCmp pColl (text_in mem (coll_enc pColl) pMem1) (text_in mem (coll_enc pColl) pMem2).

(** [if( r1<r2 ) return -1; if( r1>r2 ) return 1; return 0;] *)
Definition compare_double (x y : spec_float) : Z := if SFltb x y then -1 else if SFltb y x then 1 else 0.
Definition compare_int (x y : Z) : Z := if x <? y then -1 else if y <? x then 1 else 0.

Definition compare_bytes (a b : list Z) : Z :=
  let rc := memcmp (Nat.min (length a) (length b)) a b in
  if rc =? 0 then Z.of_nat (length a) - Z.of_nat (length b) else rc.

Definition sqlite3MemCompare (mem : bool) (pMem1 pMem2 : Mem) (pColl : option CollSeq) : Z :=
  let f1 := c_flags pMem1 in
  let f2 := c_flags pMem2 in
  let combined_flags := f1 .| f2 in
  if negb (combined_flags .& MEM_Null =? 0) then (f2 .& MEM_Null) - (f1 .& MEM_Null)
  else if negb (combined_flags .& (MEM_Int .| MEM_Real) =? 0) then
    if negb (f1 .& f2 .& MEM_Int =? 0) then compare_int (c_u pMem1) (c_u pMem2)
    else if negb (f1 .& MEM_Real =? 0) || negb (f1 .& MEM_Int =? 0) then
      let x := if negb (f1 .& MEM_Real =? 0) then double_of_bits (c_r pMem1) else double_of_int (c_u pMem1) in
      if negb (f2 .& MEM_Real =? 0) || negb (f2 .& MEM_Int =? 0) then
        let y := if negb (f2 .& MEM_Real =? 0) then double_of_bits (c_r pMem2) else double_of_int (c_u pMem2) in
        compare_double x y
      else -1
    else 1
  else if negb (combined_flags .& MEM_Str =? 0) then
    if f1 .& MEM_Str =? 0 then 1
    else if f2 .& MEM_Str =? 0 then -1
    else match pColl with
      | Some pColl => vdbeCompareMemString mem pMem1 pMem2 pColl
      | None => compare_bytes (c_z pMem1) (c_z pMem2)
      end
  else compare_bytes (c_z pMem1) (c_z pMem2).

(** ** The general comparison *)
Section compare.
Context (nKey1 : Z) (aKey1 : list Z) (pPKey2 : UnpackedRecord).
Let ki : KeyInfo := pKeyInfo pPKey2.

Definition coll (i : nat) : option CollSeq := nth i (aColl ki) None.
Definition desc (i : nat) : bool := nth i (aSortOrder ki) false.

(** The local variable [mem1] before it is set. *)
Definition mem1_init : Mem := {| c_flags := 0; c_u := 0; c_r := 0; c_z := []; c_enc := k_enc ki |}.

(** One field: [rc] and the serial type that was read. *)
Definition compare_field (i : nat) (d1 idx1 : Z) (pRhs : Mem) : Z * Z :=
  let data := drop (Z.to_nat d1) aKey1 in
  if has MEM_Int pRhs then
    let serial_type := rd aKey1 idx1 in
    if 12 <=? serial_type then (1, serial_type)
    else if serial_type =? 0 then (-1, serial_type)
    else if serial_type =? 7 then
      let mem1 := (sqlite3VdbeSerialGet data serial_type mem1_init).2 in
      (compare_double (double_of_bits (c_r mem1)) (double_of_int (c_u pRhs)), serial_type)
    else (compare_int (vdbeRecordDecodeInt serial_type data) (c_u pRhs), serial_type)
  else if has MEM_Real pRhs then
    let serial_type := rd aKey1 idx1 in
    if 12 <=? serial_type then (1, serial_type)
    else if serial_type =? 0 then (-1, serial_type)
    else
      let mem1 := (sqlite3VdbeSerialGet data serial_type mem1_init).2 in
      let lhs := if serial_type =? 7 then double_of_bits (c_r mem1) else double_of_int (c_u mem1) in
      (compare_double lhs (double_of_bits (c_r pRhs)), serial_type)
  else if has MEM_Str pRhs then
    let serial_type := (getVarint32 (drop (Z.to_nat idx1) aKey1)).2 in
    if serial_type <? 12 then (-1, serial_type)
    else if serial_type .& 0x01 =? 0 then (1, serial_type)
    else
      let n := (serial_type - 12) / 2 in
      if nKey1 <? u32 (d1 + n) then (1, serial_type)
      else
        match coll i with
        | Some pColl =>
            (vdbeCompareMemString (alloc ki)
               {| c_flags := MEM_Str; c_u := c_u mem1_init; c_r := c_r mem1_init; c_z := take (Z.to_nat n) data; c_enc := k_enc ki |} pRhs pColl, serial_type)
        | None =>
            let rc := memcmp (Nat.min (Z.to_nat n) (length (c_z pRhs))) data (c_z pRhs) in
            ((if rc =? 0 then n - c_n pRhs else rc), serial_type)
        end
  else if has MEM_Blob pRhs then
    let serial_type := (getVarint32 (drop (Z.to_nat idx1) aKey1)).2 in
    if (serial_type <? 12) || negb (serial_type .& 0x01 =? 0) then (-1, serial_type)
    else
      let nStr := (serial_type - 12) / 2 in
      if nKey1 <? u32 (d1 + nStr) then (1, serial_type)
      else
        let rc := memcmp (Nat.min (Z.to_nat nStr) (length (c_z pRhs))) data (c_z pRhs) in
        ((if rc =? 0 then nStr - c_n pRhs else rc), serial_type)
  else
    let serial_type := rd aKey1 idx1 in
    ((if negb (serial_type =? 0) then 1 else 0), serial_type).

(** The do-while loop over the fields of the right side from number [i] on. *)
Fixpoint record_loop (rhs : list Mem) (i : nat) (szHdr1 d1 idx1 : Z) : Z :=
  match rhs with
  | [] => default_rc pPKey2
  | pRhs :: rhs =>
      let '(rc, serial_type) := compare_field i d1 idx1 pRhs in
      if negb (rc =? 0) then if desc i then i32 (- rc) else rc
      else
        let d1 := u32 (d1 + sqlite3VdbeSerialTypeLen serial_type) in
        let idx1 := u32 (idx1 + sqlite3VarintLen serial_type) in
        match rhs with
        | [] => default_rc pPKey2
        | _ :: _ => if (idx1 <? szHdr1) && (d1 <=? nKey1) then record_loop rhs (S i) szHdr1 d1 idx1 else default_rc pPKey2
        end
  end.

Definition sqlite3VdbeRecordCompare (bSkip : bool) : Z :=
  if bSkip then
    let '(k, s1) := getVarint32 (drop 1 aKey1) in
    let szHdr1 := rd aKey1 0 in
    record_loop (tl (aMem pPKey2)) 1 szHdr1 (u32 (szHdr1 + sqlite3VdbeSerialTypeLen s1)) (1 + k)
  else
    let '(idx1, szHdr1) := getVarint32 aKey1 in
    record_loop (aMem pPKey2) 0 szHdr1 szHdr1 idx1.

(** [vdbeRecordCompareDebug], the reference the assertions of the code compare with. *)
Fixpoint debug_loop (rhs : list Mem) (i : nat) (szHdr1 d1 idx1 : Z) : Z :=
  match rhs with
  | [] => default_rc pPKey2
  | pRhs :: rhs =>
      let '(k, serial_type1) := getVarint32 (drop (Z.to_nat idx1) aKey1) in
      let idx1 := u32 (idx1 + k) in
      if (nKey1 <? u32 (d1 + serial_type1 + 2)) && (nKey1 <? u32 (d1 + sqlite3VdbeSerialTypeLen serial_type1)) then default_rc pPKey2
      else
        let '(len, mem1) := sqlite3VdbeSerialGet (drop (Z.to_nat d1) aKey1) serial_type1 mem1_init in
        let d1 := u32 (d1 + len) in
        let rc := sqlite3MemCompare (alloc ki) mem1 pRhs (coll i) in
        if negb (rc =? 0) then if desc i then i32 (- rc) else rc
        else
          match rhs with
          | [] => default_rc pPKey2
          | _ :: _ => if idx1 <? szHdr1 then debug_loop rhs (S i) szHdr1 d1 idx1 else default_rc pPKey2
          end
  end.

Definition vdbeRecordCompareDebug : Z :=
  let '(idx1, szHdr1) := getVarint32 aKey1 in
  debug_loop (aMem pPKey2) 0 szHdr1 szHdr1 idx1.

(** ** The fast paths *)

Definition rhs0 : Mem := nth 0 (aMem pPKey2) mem1_init.
Definition nField : Z := Z.of_nat (length (aMem pPKey2)).

Definition vdbeRecordCompareInt : Z :=
  let aKey := drop (Z.to_nat (rd aKey1 0 .& 0x3F)) aKey1 in
  let serial_type := rd aKey1 1 in
  let v := c_u rhs0 in
  let finish (lhs : Z) :=
    if lhs <? v then r1 pPKey2
    else if v <? lhs then r2 pPKey2
    else if 1 <? nField then sqlite3VdbeRecordCompare true
    else default_rc pPKey2 in
  match serial_type with
  | 1 => finish (ONE_BYTE_INT aKey)
  | 2 => finish (TWO_BYTE_INT aKey)
  | 3 => finish (THREE_BYTE_INT aKey)
  | 4 => finish (i32 (FOUR_BYTE_UINT aKey))
  | 5 => finish (FOUR_BYTE_UINT (drop 2 aKey) + (1 << 32) * TWO_BYTE_INT aKey)
  | 6 => finish (i64 (eight_bytes aKey))
  | 8 => finish 0
  | 9 => finish 1
  | _ => sqlite3VdbeRecordCompare false
  end.

Definition vdbeRecordCompareString : Z :=
  let serial_type := i32 (getVarint32 (drop 1 aKey1)).2 in
  if serial_type <? 12 then r1 pPKey2
  else if serial_type .& 0x01 =? 0 then r2 pPKey2
  else
    let szHdr := rd aKey1 0 in
    let nStr := (serial_type - 12) / 2 in
    if nKey1 <? szHdr + nStr then 0
    else
      let res := memcmp (Nat.min (length (c_z rhs0)) (Z.to_nat nStr)) (drop (Z.to_nat szHdr) aKey1) (c_z rhs0) in
      if res =? 0 then
        let res := nStr - c_n rhs0 in
        if res =? 0 then if 1 <? nField then sqlite3VdbeRecordCompare true else default_rc pPKey2
        else if 0 <? res then r2 pPKey2 else r1 pPKey2
      else if 0 <? res then r2 pPKey2 else r1 pPKey2.
End compare.

(** The function [sqlite3VdbeFindCompare] returns. *)
Inductive RecordCompare := CompareGeneral | CompareInt | CompareString.

Definition set_r (a b : Z) (p : UnpackedRecord) : UnpackedRecord :=
  {| pKeyInfo := pKeyInfo p; default_rc := default_rc p; aMem := aMem p; r1 := a; r2 := b |}.

Definition sqlite3VdbeFindCompare (p : UnpackedRecord) : RecordCompare * UnpackedRecord :=
  if k_nField (pKeyInfo p) + k_nXField (pKeyInfo p) <=? 13 then
    let flags := c_flags (rhs0 p) in
    let p := if desc p 0 then set_r 1 (-1) p else set_r (-1) 1 p in
    if negb (flags .& MEM_Int =? 0) then (CompareInt, p)
    else if (flags .& (MEM_Real .| MEM_Null .| MEM_Blob) =? 0) && match coll p 0 with None => true | Some _ => false end then (CompareString, p)
    else (CompareGeneral, p)
  else (CompareGeneral, p).

(** A call through the returned pointer. *)
Definition call_compare (f : RecordCompare) (nKey1 : Z) (aKey1 : list Z) (p : UnpackedRecord) : Z :=
  match f with
  | CompareGeneral => sqlite3VdbeRecordCompare nKey1 aKey1 p false
  | CompareInt => vdbeRecordCompareInt nKey1 aKey1 p
  | CompareString => vdbeRecordCompareString nKey1 aKey1 p
  end.

(** [sqlite3VdbeIdxRowid] once the entry was read: the bytes [z] of the index record; the result code and the rowid. *)
Definition sqlite3VdbeIdxRowid (z : list Z) : Z * Z :=
  let n := Z.of_nat (length z) in
  let szHdr := (getVarint32 z).2 in
  if (szHdr <? 3) || (n <? i32 szHdr) then (SQLITE_CORRUPT, 0)
  else
    let typeRowid := (getVarint32 (drop (Z.to_nat (szHdr - 1)) z)).2 in
    if (typeRowid <? 1) || (9 <? typeRowid) || (typeRowid =? 7) then (SQLITE_CORRUPT, 0)
    else
      let lenRowid := sqlite3VdbeSerialTypeLen typeRowid in
      if n <? u32 (szHdr + lenRowid) then (SQLITE_CORRUPT, 0)
      else (SQLITE_OK, c_u (sqlite3VdbeSerialGet (drop (Z.to_nat (n - lenRowid)) z) typeRowid null_cell).2).

(** * The order of values *)

(** NULL first, then numbers, then text by the collating sequence, then blobs. *)
Definition cmp_values (mem : bool) (enc : Z) (c : option CollSeq) (v w : value) : Z :=
  match v, w with
  | VNull, VNull => 0
  | VNull, _ => -1
  | _, VNull => 1
  | VInt a, VInt b => compare_int a b
  | VInt a, VReal y => compare_double (double_of_int a) (double_of_bits y)
  | VReal x, VInt b => compare_double (double_of_bits x) (double_of_int b)
  | VReal x, VReal y => compare_double (double_of_bits x) (double_of_bits y)
  | (VInt _ | VReal _), _ => -1
  | _, (VInt _ | VReal _) => 1
  | VText a, VText b =>
      match c with
      | Some c => vdbeCompareMemString mem {| c_flags := 0; c_u := 0; c_r := 0; c_z := a; c_enc := enc |} {| c_flags := 0; c_u := 0; c_r := 0; c_z := b; c_enc := enc |} c
      | None => compare_bytes a b
      end
  | VText _, VBlob _ => -1
  | VBlob _, VText _ => 1
  | VBlob a, VBlob b => compare_bytes a b
  end.

Lemma has_bit f j m : 0 <= j -> f = 1 << j -> has f m = Z.testbit (c_flags m) j.
Proof. intros Hj ->. unfold has. rewrite land_bit by done. by rewrite negb_involutive. Qed.

Lemma flag_null x : x .& MEM_Null = Z.b2z (Z.testbit x 0).
Proof. change MEM_Null with (Z.ones 1). rewrite Z.land_ones by lia. change (2 ^ 1) with 2. by rewrite <- Z.bit0_mod. Qed.

Lemma flag_test x f j : 0 <= j -> f = 1 << j -> negb (x .& f =? 0) = Z.testbit x j.
Proof. intros Hj ->. rewrite land_bit by done. apply negb_involutive. Qed.

Lemma flag_number x : negb (x .& (MEM_Int .| MEM_Real) =? 0) = Z.testbit x 2 || Z.testbit x 3.
Proof.
  change (MEM_Int .| MEM_Real) with ((1 << 2) .| (1 << 3)). rewrite Z.land_lor_distr_r.
  rewrite <- (negb_involutive (Z.testbit x 2)), <- (negb_involutive (Z.testbit x 3)), <- !land_bit by lia. rewrite <- negb_andb. f_equal.
  apply Bool.eq_true_iff_eq. rewrite andb_true_iff, !Z.eqb_eq. apply Z.lor_eq_0_iff.
Qed.

(** The comparison in terms of the flags that are set. *)
Lemma memCompare_has mem m1 m2 c : sqlite3MemCompare mem m1 m2 c =
  if has MEM_Null m1 || has MEM_Null m2 then Z.b2z (has MEM_Null m2) - Z.b2z (has MEM_Null m1)
  else if (has MEM_Int m1 || has MEM_Int m2) || (has MEM_Real m1 || has MEM_Real m2) then
    if has MEM_Int m1 && has MEM_Int m2 then compare_int (c_u m1) (c_u m2)
    else if has MEM_Real m1 || has MEM_Int m1 then
      if has MEM_Real m2 || has MEM_Int m2 then
        compare_double (if has MEM_Real m1 then double_of_bits (c_r m1) else double_of_int (c_u m1))
          (if has MEM_Real m2 then double_of_bits (c_r m2) else double_of_int (c_u m2))
      else -1
    else 1
  else if has MEM_Str m1 || has MEM_Str m2 then
    if negb (has MEM_Str m1) then 1
    else if negb (has MEM_Str m2) then -1
    else match c with Some c => vdbeCompareMemString mem m1 m2 c | None => compare_bytes (c_z m1) (c_z m2) end
  else compare_bytes (c_z m1) (c_z m2).
Proof.
  unfold sqlite3MemCompare. rewrite (flag_test _ MEM_Null 0), !flag_null, flag_number by done.
  rewrite !(flag_test _ MEM_Real 3), !(flag_test _ MEM_Int 2), !(flag_test _ MEM_Str 1), !Z.lor_spec, Z.land_spec by done.
  unfold has. rewrite !(flag_test _ MEM_Real 3), !(flag_test _ MEM_Int 2), !(flag_test _ MEM_Str 1), !(flag_test _ MEM_Null 0) by done.
  rewrite <- (negb_involutive (c_flags m1 .& MEM_Str =? 0)), <- (negb_involutive (c_flags m2 .& MEM_Str =? 0)), !(flag_test _ MEM_Str 1) by done. done.
Qed.

(** Only the bytes and the encoding of texts matter. *)
Lemma compareMemString_cells mem m1 m2 c enc f1 f2 u1 u2 x1 x2 : c_enc m1 = enc -> c_enc m2 = enc ->
  vdbeCompareMemString mem m1 m2 c =
  vdbeCompareMemString mem {| c_flags := f1; c_u := u1; c_r := x1; c_z := c_z m1; c_enc := enc |} {| c_flags := f2; c_u := u2; c_r := x2; c_z := c_z m2; c_enc := enc |} c.
Proof. intros E1 E2. unfold vdbeCompareMemString, text_in. cbn. by rewrite E1, E2. Qed.

Lemma memCompare_values mem enc c m1 m2 : plain m1 -> plain m2 -> c_enc m1 = enc -> c_enc m2 = enc ->
  sqlite3MemCompare mem m1 m2 c = cmp_values mem enc c (value_of m1) (value_of m2).
Proof.
  intros [Z1 P1] [Z2 P2] E1 E2. rewrite memCompare_has. unfold value_of, content in *. rewrite Z1, Z2, !app_nil_r in *.
  destruct (has MEM_Null m1), (has MEM_Null m2), (has MEM_Int m1), (has MEM_Int m2); cbn [orb andb negb Z.b2z] in *; try done;
    destruct (has MEM_Real m1), (has MEM_Real m2); cbn [orb andb negb] in *; try done;
    destruct (has MEM_Str m1), (has MEM_Str m2); cbn [orb andb negb] in *; try done; destruct_and?; try done.
  destruct c as [c|]; [|done]. by apply compareMemString_cells.
Qed.

(** * One field *)

(** The first byte of a type tells the types below 128. *)
Lemma type_byte fmt aKey nKey szHdr m fs idx d : at_fields fmt aKey nKey szHdr (m :: fs) idx d ->
  let t := sqlite3VdbeSerialType m fmt in
  (t < 128 /\ rd aKey idx = t) \/ (128 <= t /\ 128 <= rd aKey idx).
Proof.
  intros Hat t. pose proof (at_fields_step _ _ _ _ _ _ _ _ Hat) as (Hm & _ & _ & Hg & _). fold t in Hg.
  destruct Hat as [_ _ [rest Ht] _ [Hi _] _ _]. destruct (serial_type_u32 m fmt Hm) as [Hu _]. fold t in Hu.
  assert (rd aKey idx = rd (drop (Z.to_nat idx) aKey) 0) as ->.
  { unfold rd. rewrite !nth_lookup, lookup_drop. by rewrite Z2Nat.inj_0, Nat.add_0_r. }
  destruct (Z.lt_ge_cases t 128); [left|right].
  - split; [done|]. rewrite Ht. unfold types, venc. cbn [map concat]. fold t. rewrite (proj2 (Z.ltb_lt _ _)) by (pows; lia).
    pose proof (varintLen_cases t ltac:(small)) as Hk. cbn zeta in Hk. assert (sqlite3VarintLen t = 1) as -> by lia.
    cbn [vgroups Z.to_nat Nat.sub app]. change (rd (?x :: _) 0) with x. apply Z.mod_small. small.
  - split; [done|]. unfold getVarint32 in Hg. destruct (Z.ltb_spec (rd (drop (Z.to_nat idx) aKey) 0) 0x80); [|done]. injection Hg as _ E. lia.
Qed.

Lemma memcmp_app n : forall a b c, (n <= length a)%nat -> memcmp n (a ++ c) b = memcmp n a b.
Proof.
  induction n as [|n IH]; intros a b c Hl; [done|]. destruct a as [|x a]; [cbn in Hl; lia|]. cbn [memcmp app hd tl].
  rewrite IH by (cbn in Hl; lia). done.
Qed.

Lemma compare_bytes_prefix a rest b n : n = Z.of_nat (length a) ->
  (let rc := memcmp (Nat.min (Z.to_nat n) (length b)) (a ++ rest) b in if rc =? 0 then n - Z.of_nat (length b) else rc) = compare_bytes a b.
Proof. intros ->. cbn zeta. rewrite Nat2Z.id, memcmp_app by lia. done. Qed.

(** Decides the tests of integers that the context determines. *)
Ltac zdecide :=
  repeat match goal with
    | |- context [?a <=? ?b] => first [rewrite (proj2 (Z.leb_le a b)) by lia | rewrite (proj2 (Z.leb_gt a b)) by lia]
    | |- context [?a <? ?b] => first [rewrite (proj2 (Z.ltb_lt a b)) by lia | rewrite (proj2 (Z.ltb_ge a b)) by lia]
    | |- context [?a =? ?b] => first [rewrite (proj2 (Z.eqb_eq a b)) by lia | rewrite (proj2 (Z.eqb_neq a b)) by lia]
    end; cbn [negb andb orb].

Section field.
Context (fmt : Z) (aKey : list Z) (nKey szHdr : Z) (m : Mem) (fs : list Mem) (idx d : Z) (i : nat) (p : UnpackedRecord) (pRhs : Mem).
Hypothesis Hat : at_fields fmt aKey nKey szHdr (m :: fs) idx d.
Hypothesis Hplain : plain pRhs.
Hypothesis Henc : c_enc pRhs = k_enc (pKeyInfo p).

Abbreviation ki := (pKeyInfo p).
Abbreviation t := (sqlite3VdbeSerialType m fmt).
Abbreviation agrees r :=
  (r.1 = cmp_values (alloc ki) (k_enc ki) (coll p i) (value_of m) (value_of pRhs) /\ (r.1 = 0 -> r.2 = t)).

Lemma field_facts : cell_ok m /\ ((t < 128 /\ rd aKey idx = t) \/ (128 <= t /\ 128 <= rd aKey idx)) /\
  getVarint32 (drop (Z.to_nat idx) aKey) = (sqlite3VarintLen t, t) /\ (exists rest, drop (Z.to_nat d) aKey = payload fmt m ++ rest) /\
  0 <= d /\ d + sqlite3VdbeSerialTypeLen t <= nKey <= SQLITE_MAX_LENGTH.
Proof.
  pose proof (type_byte _ _ _ _ _ _ _ _ Hat). pose proof (at_fields_step _ _ _ _ _ _ _ _ Hat) as (? & _ & _ & ? & ? & ? & _).
  pose proof Hat as [_ _ _ _ [? ?] [? ?] ?]. cbn zeta in *. split_and!; done || lia.
Qed.

(** The cell that reading the field gives. *)
Lemma field_cell rest m0 : cell_ok m -> let m' := (sqlite3VdbeSerialGet (payload fmt m ++ rest) t m0).2 in value_of m' = value_of m.
Proof. intros Hm m'. destruct (serial_get m fmt rest m0 Hm) as (m1 & E & Hv & _). unfold m'. by rewrite E. Qed.

Lemma compare_field_int : has MEM_Int pRhs = true -> agrees (compare_field nKey aKey p i d idx pRhs).
Proof.
  intros HI. destruct field_facts as (Hm & Hb & Hg & [rest Hp] & Hd & Hn). unfold compare_field. rewrite HI, Hp.
  pose proof (serial_type_cases m fmt Hm) as Ht. pose proof (field_cell rest (mem1_init p) Hm) as Hc. pose proof (decode_int m fmt rest) as Hdec. cbn zeta in *.
  assert (value_of pRhs = VInt (c_u pRhs)) as ->.
  { destruct Hplain as [_ HP]. unfold value_of in *. rewrite HI in *. by destruct (has MEM_Null pRhs); [destruct HP|]. }
  destruct (value_of m) as [|j|x|z|z]; cbn [cmp_values].
  - zdecide. done.
  - assert (rd aKey idx = t /\ 1 <= t <= 9 /\ t <> 7) as (-> & ? & ?) by (destruct_or! Ht; lia). zdecide. cbn [fst snd]. by rewrite (Hdec j).
  - assert (rd aKey idx = 7) as -> by lia. rewrite Ht in Hc. pose proof (value_of_inv (sqlite3VdbeSerialGet (payload fmt m ++ rest) 7 (mem1_init p)).2) as Hx.
    rewrite Hc in Hx. destruct Hx as [-> _]. zdecide. done.
  - zdecide. done.
  - zdecide. done.
Qed.

Lemma compare_field_real : has MEM_Int pRhs = false -> has MEM_Real pRhs = true -> agrees (compare_field nKey aKey p i d idx pRhs).
Proof.
  intros HI HR. destruct field_facts as (Hm & Hb & Hg & [rest Hp] & Hd & Hn). unfold compare_field. rewrite HI, HR, Hp.
  pose proof (serial_type_cases m fmt Hm) as Ht. pose proof (field_cell rest (mem1_init p) Hm) as Hc. cbn zeta in *.
  assert (value_of pRhs = VReal (c_r pRhs)) as ->.
  { destruct Hplain as [_ HP]. unfold value_of in *. rewrite HI, HR in *. by destruct (has MEM_Null pRhs); [destruct_and! HP|]. }
  destruct (value_of m) as [|j|x|z|z]; cbn [cmp_values].
  - zdecide. done.
  - assert (rd aKey idx = t /\ 1 <= t <= 9 /\ t <> 7) as (-> & ? & ?) by (destruct_or! Ht; lia). zdecide. cbn [fst snd].
    pose proof (value_of_inv (sqlite3VdbeSerialGet (payload fmt m ++ rest) t (mem1_init p)).2) as Hx. rewrite Hc in Hx. by rewrite Hx.
  - assert (rd aKey idx = 7) as -> by lia. rewrite Ht in Hc. pose proof (value_of_inv (sqlite3VdbeSerialGet (payload fmt m ++ rest) 7 (mem1_init p)).2) as Hx.
    rewrite Hc in Hx. destruct Hx as [-> _]. zdecide. done.
  - zdecide. done.
  - zdecide. done.
Qed.
Lemma compare_field_text : has MEM_Int pRhs = false -> has MEM_Real pRhs = false -> has MEM_Str pRhs = true ->
  agrees (compare_field nKey aKey p i d idx pRhs).
Proof.
  intros HI HR HS. destruct field_facts as (Hm & Hb & Hg & [rest Hp] & Hd & Hn). unfold compare_field. rewrite HI, HR, HS, Hp, Hg. cbn [snd].
  pose proof (field_cases m fmt Hm) as Ht. pose proof (payload_length m fmt Hm) as Hl. cbn zeta in *. unfold SQLITE_MAX_LENGTH in Hn.
  assert (value_of pRhs = VText (c_z pRhs)) as ->.
  { destruct Hplain as [HZ HP]. unfold value_of, content in *. rewrite HI, HR, HS, HZ, app_nil_r in *. by destruct (has MEM_Null pRhs); [destruct_and! HP|]. }
  rewrite land_1_odd. destruct (value_of m) as [|j|x|z|z]; cbn [cmp_values].
  - destruct Ht as [-> _]. done.
  - zdecide. done.
  - destruct Ht as [-> _]. done.
  - destruct Ht as [Ht Hpl]. rewrite Hpl in Hl |- *. rewrite Ht in *. zdecide.
    replace ((2 * Z.of_nat (length z) + 13) mod 2) with 1 by (Z.to_euclidean_division_equations; lia). cbn [Z.eqb].
    replace ((2 * Z.of_nat (length z) + 13 - 12) / 2) with (Z.of_nat (length z)) by (Z.to_euclidean_division_equations; lia).
    rewrite uwrap_small by small. zdecide. destruct (coll p i) as [c|]; cbn [fst snd]; (split; [|done]).
    + rewrite Nat2Z.id, take_app_length. rewrite (compareMemString_cells _ _ pRhs c (k_enc ki) 0 0 0 0 0 0) by done. done.
    + by apply compare_bytes_prefix.
  - destruct Ht as [Ht _]. rewrite Ht. zdecide.
    replace ((2 * Z.of_nat (length z) + 12) mod 2) with 0 by (Z.to_euclidean_division_equations; lia). done.
Qed.

Lemma compare_field_blob : has MEM_Int pRhs = false -> has MEM_Real pRhs = false -> has MEM_Str pRhs = false -> has MEM_Blob pRhs = true ->
  agrees (compare_field nKey aKey p i d idx pRhs).
Proof.
  intros HI HR HS HB. destruct field_facts as (Hm & Hb & Hg & [rest Hp] & Hd & Hn). unfold compare_field. rewrite HI, HR, HS, HB, Hp, Hg. cbn [snd].
  pose proof (field_cases m fmt Hm) as Ht. pose proof (payload_length m fmt Hm) as Hl. cbn zeta in *. unfold SQLITE_MAX_LENGTH in Hn.
  assert (value_of pRhs = VBlob (c_z pRhs)) as ->.
  { destruct Hplain as [HZ HP]. unfold value_of, content in *. rewrite HI, HR, HS, HZ, app_nil_r in *. destruct (has MEM_Null pRhs); [destruct_and! HP; congruence|done]. }
  rewrite land_1_odd. destruct (value_of m) as [|j|x|z|z]; cbn [cmp_values].
  - destruct Ht as [-> _]. done.
  - zdecide. done.
  - destruct Ht as [-> _]. done.
  - destruct Ht as [Ht _]. rewrite Ht. zdecide.
    replace ((2 * Z.of_nat (length z) + 13) mod 2) with 1 by (Z.to_euclidean_division_equations; lia). done.
  - destruct Ht as [Ht Hpl]. rewrite Hpl in Hl |- *. rewrite Ht in *. zdecide.
    replace ((2 * Z.of_nat (length z) + 12) mod 2) with 0 by (Z.to_euclidean_division_equations; lia). cbn [Z.eqb negb].
    replace ((2 * Z.of_nat (length z) + 12 - 12) / 2) with (Z.of_nat (length z)) by (Z.to_euclidean_division_equations; lia).
    rewrite uwrap_small by small. zdecide. cbn [fst snd]. split; [|done]. by apply compare_bytes_prefix.
Qed.

(** Comparing a field of the record in memory is comparing values. *)
Lemma compare_field_values : agrees (compare_field nKey aKey p i d idx pRhs).
Proof.
  destruct (has MEM_Int pRhs) eqn:HI; [by apply compare_field_int|]. destruct (has MEM_Real pRhs) eqn:HR; [by apply compare_field_real|].
  destruct (has MEM_Str pRhs) eqn:HS; [by apply compare_field_text|]. destruct (has MEM_Blob pRhs) eqn:HB; [by apply compare_field_blob|].
  destruct field_facts as (Hm & Hb & _). unfold compare_field. rewrite HI, HR, HS, HB. cbn [fst snd].
  pose proof (serial_type_cases m fmt Hm) as Ht. cbn zeta in Ht.
  assert (value_of pRhs = VNull) as ->.
  { destruct Hplain as [HZ HP]. unfold value_of in *. rewrite HI, HR, HS in *. destruct (has MEM_Null pRhs); [done|congruence]. }
  destruct (value_of m) as [|j|x|z|z]; cbn [cmp_values].
  - assert (rd aKey idx = 0) as -> by lia. done.
  - zdecide. done.
  - zdecide. done.
  - zdecide. done.
  - zdecide. done.
Qed.
End field.

(** * Whole records *)

(** Lexicographic comparison of lists of values, field [i] first; columns can be descending. *)
Fixpoint cmp_fields (p : UnpackedRecord) (i : nat) (vs ws : list value) : Z :=
  match vs, ws with
  | v :: vs, w :: ws =>
      let rc := cmp_values (alloc (pKeyInfo p)) (k_enc (pKeyInfo p)) (coll p i) v w in
      if negb (rc =? 0) then if desc p i then i32 (- rc) else rc else cmp_fields p (S i) vs ws
  | _, _ => default_rc p
  end.

(** The cells on the right side: in the encoding of the database, with one representation each. *)
Definition rhs_ok (p : UnpackedRecord) : Prop := Forall (fun m => plain m /\ c_enc m = k_enc (pKeyInfo p)) (aMem p).

Section records.
Context (fmt : Z) (aKey : list Z) (nKey szHdr : Z) (p : UnpackedRecord).

Lemma at_fields_end idx d : at_fields fmt aKey nKey szHdr [] idx d -> idx = szHdr.
Proof. intros [_ _ _ _ [_ H] _ _]. cbn in H. lia. Qed.

Lemma at_fields_u32 fs idx d : at_fields fmt aKey nKey szHdr fs idx d -> u32 idx = idx /\ u32 d = d.
Proof. intros [_ _ _ _ [? ?] [? ?] Hn]. unfold SQLITE_MAX_LENGTH in Hn. split; apply uwrap_small; small. Qed.

Lemma record_loop_correct rhs : Forall (fun m => plain m /\ c_enc m = k_enc (pKeyInfo p)) rhs -> forall fs i idx d,
  fs <> [] -> at_fields fmt aKey nKey szHdr fs idx d ->
  record_loop nKey aKey p rhs i szHdr d idx = cmp_fields p i (map value_of fs) (map value_of rhs).
Proof.
  induction 1 as [|w rhs [Hw He] Hrhs IH]; intros fs i idx d Hfs Hat; (destruct fs as [|m fs]; [done|]); [done|].
  cbn [record_loop map cmp_fields]. pose proof (compare_field_values fmt aKey nKey szHdr m fs idx d i p w Hat Hw He) as [Hrc Ht].
  destruct (compare_field _ _ _ _ _ _ _) as [rc t]. cbn [fst snd] in *. rewrite <- Hrc. destruct (Z.eqb_spec rc 0) as [E|]; [|done]. cbn [negb]. rewrite (Ht E).
  apply at_fields_step in Hat as (_ & _ & _ & _ & _ & _ & Hat). destruct (at_fields_u32 _ _ _ Hat) as [-> ->].
  destruct rhs as [|w' rhs]; [by destruct fs|]. destruct fs as [|m' fs].
  - apply at_fields_end in Hat as ->. by rewrite Z.ltb_irrefl.
  - pose proof (at_fields_step _ _ _ _ _ _ _ _ Hat) as (_ & ? & ? & _). zdecide. by apply IH.
Qed.

Lemma debug_loop_correct rhs : Forall (fun m => plain m /\ c_enc m = k_enc (pKeyInfo p)) rhs -> forall fs i idx d,
  fs <> [] -> at_fields fmt aKey nKey szHdr fs idx d ->
  debug_loop nKey aKey p rhs i szHdr d idx = cmp_fields p i (map value_of fs) (map value_of rhs).
Proof.
  induction 1 as [|w rhs [Hw He] Hrhs IH]; intros fs i idx d Hfs Hat; (destruct fs as [|m fs]; [done|]); [done|].
  cbn [debug_loop map cmp_fields].
  apply at_fields_step in Hat as (Hm & _ & _ & -> & [rest ->] & Hn & Hat). destruct (at_fields_u32 _ _ _ Hat) as [-> Hd].
  rewrite Hd. rewrite (proj2 (Z.ltb_ge nKey _) Hn), andb_false_r.
  destruct (serial_get m fmt rest (mem1_init p) Hm) as (m' & -> & Hv & He' & Hp). rewrite payload_length, Hd by done.
  rewrite (memCompare_values _ (k_enc (pKeyInfo p))), Hv by done. destruct (cmp_values _ _ _ _ _ =? 0); [|done]. cbn [negb].
  destruct rhs as [|w' rhs]; [by destruct fs|]. destruct fs as [|m1 fs].
  - apply at_fields_end in Hat as ->. by rewrite Z.ltb_irrefl.
  - pose proof (at_fields_step _ _ _ _ _ _ _ _ Hat) as (_ & ? & _). zdecide. by apply IH.
Qed.
End records.

(** A key in memory: the record of some fields, followed by the bytes [pad]. *)
Record key_ok (fmt : Z) (fs : list Mem) (pad : list Z) : Prop := {
  key_cells : Forall cell_ok fs;
  key_nonempty : fs <> [];
  key_pad : bytes pad;
  key_length : Z.of_nat (length (record_bytes fmt fs)) <= SQLITE_MAX_LENGTH
}.

Lemma recordCompare_values fmt fs pad p : key_ok fmt fs pad -> rhs_ok p ->
  sqlite3VdbeRecordCompare (Z.of_nat (length (record_bytes fmt fs))) (record_bytes fmt fs ++ pad) p false =
    cmp_fields p 0 (map value_of fs) (map value_of (aMem p)).
Proof.
  intros [Hok Hne Hpad Hlen] Hrhs. unfold sqlite3VdbeRecordCompare. destruct (record_start fmt fs pad Hok Hpad Hlen) as (-> & _ & Hat).
  by apply record_loop_correct with (fmt := fmt).
Qed.

(** C24. Comparing a record in memory with an unpacked one is the lexicographic comparison of their values (NULL, numbers, text by the collating sequence,
    blobs), with the order reversed in descending columns and the default result when one side runs out of fields; and [sqlite3VdbeRecordCompare], which decodes
    only what it needs, returns exactly what the reference [vdbeRecordCompareDebug] of the assertions returns. *)
Theorem recordCompare_correct fmt fs pad p : key_ok fmt fs pad -> rhs_ok p ->
  let nKey1 := Z.of_nat (length (record_bytes fmt fs)) in
  let aKey1 := record_bytes fmt fs ++ pad in
  sqlite3VdbeRecordCompare nKey1 aKey1 p false = cmp_fields p 0 (map value_of fs) (map value_of (aMem p)) /\
  vdbeRecordCompareDebug nKey1 aKey1 p = sqlite3VdbeRecordCompare nKey1 aKey1 p false.
Proof.
  intros Hk Hrhs nKey1 aKey1. unfold nKey1, aKey1. rewrite recordCompare_values by done. split; [done|].
  destruct Hk as [Hok Hne Hpad Hlen]. unfold vdbeRecordCompareDebug. destruct (record_start fmt fs pad Hok Hpad Hlen) as (-> & _ & Hat).
  by apply debug_loop_correct with (fmt := fmt).
Qed.

(** * The fast paths *)

(** A short header: its size takes one byte. *)
Lemma types_length fmt fs : Forall cell_ok fs -> (length (types fmt fs) <= 5 * length fs)%nat.
Proof.
  induction 1 as [|m fs Hm _ IH]; [done|]. unfold types in *. cbn [map concat length]. rewrite length_app.
  destruct (serial_type_u32 m fmt Hm) as [Hu Hu']. pose proof (venc_length _ Hu') as Hl.
  pose proof (varintLen_cases (sqlite3VdbeSerialType m fmt) ltac:(small)) as Hk. cbn zeta in Hk. lia.
Qed.

Lemma int_type_byte fmt m : cell_ok m -> (exists j, value_of m = VInt j) -> length (venc (sqlite3VdbeSerialType m fmt)) = 1%nat.
Proof.
  intros Hm [j Hj]. destruct (serial_type_u32 m fmt Hm) as [Hu Hu']. pose proof (venc_length _ Hu') as Hl.
  pose proof (serial_type_cases m fmt Hm) as Ht. cbn zeta in Ht. rewrite Hj in Ht.
  pose proof (varintLen_cases (sqlite3VdbeSerialType m fmt) ltac:(small)) as Hk. cbn zeta in Hk. lia.
Qed.

(** The switch of [vdbeRecordCompareInt] takes the types of integers. *)
Lemma int_switch (s : Z) (A : list Z) (F : Z -> Z) (G : Z) : 0 <= s ->
  match s with
  | 1 => F (ONE_BYTE_INT A) | 2 => F (TWO_BYTE_INT A) | 3 => F (THREE_BYTE_INT A) | 4 => F (i32 (FOUR_BYTE_UINT A))
  | 5 => F (FOUR_BYTE_UINT (drop 2 A) + (1 << 32) * TWO_BYTE_INT A) | 6 => F (i64 (eight_bytes A)) | 8 => F 0 | 9 => F 1
  | _ => G
  end = if (1 <=? s) && (s <=? 9) && negb (s =? 7) then F (vdbeRecordDecodeInt s A) else G.
Proof.
  intros H. destruct s as [|s|s]; [done| |done]. do 4 (destruct s as [s|s|]; try reflexivity).
Qed.

Section fast.
Context (fmt : Z) (m : Mem) (fs : list Mem) (pad : list Z) (p : UnpackedRecord) (w : Mem) (ws : list Mem).
Hypothesis Hkey : key_ok fmt (m :: fs) pad.
Hypothesis Hrhs : rhs_ok p.
Hypothesis Hmem : aMem p = w :: ws.
Hypothesis Hshort : (length (m :: fs) <= 13)%nat.
Hypothesis Hfields : (length (w :: ws) <= length (m :: fs))%nat.

Abbreviation aKey := (record_bytes fmt (m :: fs) ++ pad).
Abbreviation nKey := (Z.of_nat (length (record_bytes fmt (m :: fs)))).
Abbreviation szHdr := (header_size (Z.of_nat (length (types fmt (m :: fs))))).
Abbreviation t := (sqlite3VdbeSerialType m fmt).

Lemma header_short : szHdr = Z.of_nat (length (types fmt (m :: fs))) + 1 /\ 1 < szHdr < 128 /\ sqlite3VarintLen szHdr = 1 /\ venc szHdr = [szHdr].
Proof.
  pose proof (types_length fmt (m :: fs) (key_cells _ _ _ Hkey)) as Hl.
  destruct (header_size_self (Z.of_nat (length (types fmt (m :: fs)))) ltac:(pows; lia)) as [Hself Hu].
  assert (szHdr = Z.of_nat (length (types fmt (m :: fs))) + 1) as E by (unfold header_size in *; zdecide; lia).
  assert (0 < length (types fmt (m :: fs)))%nat.
  { pose proof (key_cells _ _ _ Hkey) as [Hm _]%Forall_cons. pose proof (types_cons fmt m fs Hm). cbn zeta in *. destruct (serial_type_u32 m fmt Hm) as [Ht _].
    pose proof (varintLen_cases t ltac:(small)) as Hk. cbn zeta in Hk. destruct (_ <=? _); lia. }
  split; [done|]. split; [lia|]. assert (sqlite3VarintLen szHdr = 1) as E1 by lia. split; [done|].
  unfold venc. rewrite E1. rewrite (proj2 (Z.ltb_lt _ _)) by (pows; lia). cbn [Z.to_nat Nat.sub vgroups app]. rewrite Z.mod_small by lia. done.
Qed.

Lemma key_start : rd aKey 0 = szHdr /\ at_fields fmt aKey nKey szHdr (m :: fs) 1 szHdr.
Proof.
  destruct header_short as (_ & _ & E1 & E2). destruct Hkey as [Hok _ Hpad Hlen].
  destruct (record_start fmt (m :: fs) pad Hok Hpad Hlen) as (_ & _ & Hat). rewrite E1 in Hat. split; [|done].
  unfold record_bytes. rewrite E2. done.
Qed.

(** Comparing from the second field on. *)
Lemma skip_correct : ws <> [] -> sqlite3VdbeRecordCompare nKey aKey p true = cmp_fields p 1 (map value_of fs) (map value_of ws).
Proof.
  intros Hws. destruct key_start as [E0 Hat]. unfold sqlite3VdbeRecordCompare. rewrite E0.
  apply at_fields_step in Hat as (_ & _ & _ & Hg & _ & _ & Hat). change (Z.to_nat 1) with 1%nat in Hg. rewrite Hg.
  destruct (at_fields_u32 _ _ _ _ _ _ _ Hat) as [_ ->]. rewrite Hmem. cbn [tl]. apply record_loop_correct with (fmt := fmt).
  - unfold rhs_ok in Hrhs. rewrite Hmem in Hrhs. by apply Forall_cons in Hrhs as [_ ?].
  - destruct fs; [|done]. destruct ws; [done|]. cbn in Hfields. lia.
  - done.
Qed.

(** What both fast paths do when the first fields are equal. *)
Lemma rest_correct : (if 1 <? nField p then sqlite3VdbeRecordCompare nKey aKey p true else default_rc p) =
  cmp_fields p 1 (map value_of fs) (map value_of ws).
Proof.
  unfold nField. rewrite Hmem. cbn [length]. destruct (decide (ws = [])) as [E|E].
  - rewrite E. cbn. by destruct (map value_of fs).
  - assert (0 < length ws)%nat by (by apply length_pos_iff || (destruct ws; [done|cbn; lia])). rewrite (proj2 (Z.ltb_lt _ _)) by lia. by apply skip_correct.
Qed.

Lemma compareInt_cases : 0 <= rd aKey 1 ->
  vdbeRecordCompareInt nKey aKey p =
    let lhs := vdbeRecordDecodeInt (rd aKey 1) (drop (Z.to_nat (rd aKey 0 .& 0x3F)) aKey) in
    if (1 <=? rd aKey 1) && (rd aKey 1 <=? 9) && negb (rd aKey 1 =? 7) then
      if lhs <? c_u (rhs0 p) then r1 p else if c_u (rhs0 p) <? lhs then r2 p
      else if 1 <? nField p then sqlite3VdbeRecordCompare nKey aKey p true else default_rc p
    else sqlite3VdbeRecordCompare nKey aKey p false.
Proof.
  intros H. unfold vdbeRecordCompareInt. cbn zeta.
  exact (int_switch (rd aKey 1) (drop (Z.to_nat (rd aKey 0 .& 0x3F)) aKey)
    (fun lhs => if lhs <? c_u (rhs0 p) then r1 p else if c_u (rhs0 p) <? lhs then r2 p
      else if 1 <? nField p then sqlite3VdbeRecordCompare nKey aKey p true else default_rc p) (sqlite3VdbeRecordCompare nKey aKey p false) H).
Qed.

Lemma compareInt_correct : r1 p = (if desc p 0 then 1 else -1) -> r2 p = (if desc p 0 then -1 else 1) -> has MEM_Int w = true ->
  vdbeRecordCompareInt nKey aKey p = sqlite3VdbeRecordCompare nKey aKey p false.
Proof.
  intros H1 H2 HI. destruct key_start as [E0 Hat]. pose proof (type_byte _ _ _ _ _ _ _ _ Hat) as Hb. cbn zeta in Hb.
  pose proof (at_fields_step _ _ _ _ _ _ _ _ Hat) as (Hm & _ & _ & _ & [rest Hp] & _).
  pose proof (serial_type_cases m fmt Hm) as Ht. pose proof (serial_type_u32 m fmt Hm) as [Hu _]. cbn zeta in Ht. rewrite compareInt_cases by small. cbn zeta.
  destruct (value_of m) as [|j|x|z|z] eqn:Ev; try (zdecide; done).
  assert (rd aKey 1 = t /\ 1 <= t <= 9 /\ t <> 7) as (Eb & ? & ?) by (destruct_or! Ht; lia). rewrite Eb, E0. zdecide.
  assert (szHdr .& 0x3F = szHdr) as ->.
  { destruct header_short as (Eh & _). change 0x3F with (Z.ones 6). rewrite Z.land_ones by lia. apply Z.mod_small. split; [lia|]. rewrite Eh.
    pose proof (key_cells _ _ _ Hkey) as [_ Hok]%Forall_cons. pose proof (types_length fmt fs Hok) as Hl. unfold types. cbn [map concat]. fold (types fmt fs).
    rewrite length_app, (int_type_byte fmt m Hm) by eauto. cbn in Hshort. pows. lia. }
  rewrite Hp, (decode_int m fmt rest j Hm Ev), recordCompare_values by done. unfold rhs0. rewrite Hmem. cbn [nth map cmp_fields].
  assert (value_of w = VInt (c_u w)) as ->.
  { unfold rhs_ok in Hrhs. rewrite Hmem in Hrhs. apply Forall_cons in Hrhs as [[[_ HP] _] _].
    unfold value_of in *. rewrite HI in *. by destruct (has MEM_Null w); [destruct HP|]. }
  rewrite Ev. cbn [cmp_values]. unfold compare_int. rewrite H1, H2.
  destruct (Z.ltb_spec j (c_u w)); [by destruct (desc p 0)|]. destruct (Z.ltb_spec (c_u w) j); [by destruct (desc p 0)|]. cbn [negb Z.eqb]. apply rest_correct.
Qed.

(** The result of the fast path for texts, by the sign of a comparison. *)
Lemma sign_result rc : (rc <> 0 -> - 2 ^ 31 < rc < 2 ^ 31) -> r1 p = (if desc p 0 then 1 else -1) -> r2 p = (if desc p 0 then -1 else 1) -> rc <> 0 ->
  Z.sgn (if 0 <? rc then r2 p else r1 p) = Z.sgn (if desc p 0 then i32 (- rc) else rc).
Proof.
  intros Hr -> -> Hne. specialize (Hr Hne). destruct (desc p 0); [rewrite swrap_small by small|]; destruct (Z.ltb_spec 0 rc); lia.
Qed.

Lemma memcmp_range n : forall a b, -1 <= memcmp n a b <= 1.
Proof. induction n as [|n IH]; intros a b; cbn [memcmp]; [lia|]. destruct (_ <? _); [lia|]. destruct (_ <? _); [lia|]. apply IH. Qed.

Lemma compareString_correct : r1 p = (if desc p 0 then 1 else -1) -> r2 p = (if desc p 0 then -1 else 1) -> value_of w = VText (c_z w) ->
  coll p 0 = None -> Z.of_nat (length (c_z w)) <= SQLITE_MAX_LENGTH ->
  Z.sgn (vdbeRecordCompareString nKey aKey p) = Z.sgn (sqlite3VdbeRecordCompare nKey aKey p false).
Proof.
  intros H1 H2 Hw Hcoll Hwl. destruct key_start as [E0 Hat]. pose proof (at_fields_step _ _ _ _ _ _ _ _ Hat) as (Hm & _ & _ & Hg & [rest Hp] & Hn & _).
  change (Z.to_nat 1) with 1%nat in Hg. pose proof (field_cases m fmt Hm) as Ht. pose proof (payload_length m fmt Hm) as Hl. cbn zeta in Ht.
  destruct Hat as [_ _ _ _ _ _ HK]. destruct header_short as (_ & Hh & _). unfold SQLITE_MAX_LENGTH in *.
  assert (0 <= t < 2 ^ 31) as Htr.
  { pows. destruct (serial_type_u32 m fmt Hm) as [Hu _]. destruct (value_of m) as [| | |z|z]; try (destruct_or? Ht; lia); destruct Ht as [Ht Hpl]; rewrite Hpl in Hl; lia. }
  rewrite recordCompare_values by done. rewrite Hmem. cbn [map cmp_fields]. rewrite Hw, Hcoll. unfold vdbeRecordCompareString, rhs0. rewrite Hg, Hmem. cbn [snd nth].
  rewrite swrap_small by small. rewrite land_1_odd, E0, Hp. destruct (value_of m) as [|j|x|z|z] eqn:Ev; cbn [cmp_values].
  - zdecide. rewrite H1. by destruct (desc p 0).
  - zdecide. rewrite H1. by destruct (desc p 0).
  - zdecide. rewrite H1. by destruct (desc p 0).
  - destruct Ht as [Ht Hpl]. rewrite Hpl in Hl |- *. rewrite Ht in Hl, Hn |- *.
    replace ((2 * Z.of_nat (length z) + 13) mod 2) with 1 by (Z.to_euclidean_division_equations; lia).
    replace ((2 * Z.of_nat (length z) + 13 - 12) / 2) with (Z.of_nat (length z)) by (Z.to_euclidean_division_equations; lia). cbn [Z.eqb].
    rewrite (proj2 (Z.ltb_ge _ 12)), (proj2 (Z.ltb_ge nKey _)) by lia. rewrite Nat2Z.id, Nat.min_comm, memcmp_app by lia. unfold compare_bytes.
    pose proof (memcmp_range (Nat.min (length z) (length (c_z w))) z (c_z w)) as Hr. cbn zeta.
    destruct (Z.eqb_spec (memcmp (Nat.min (length z) (length (c_z w))) z (c_z w)) 0) as [E|E].
    + unfold c_n. destruct (Z.eqb_spec (Z.of_nat (length z) - Z.of_nat (length (c_z w))) 0) as [E'|E']; cbn [negb]; [by rewrite rest_correct|].
      apply sign_result; [intros _; pows; lia|done..].
    + rewrite (proj2 (Z.eqb_neq _ _) E). cbn [negb]. apply sign_result; [intros _; pows; lia|done..].
  - destruct Ht as [Ht _]. rewrite Ht. replace ((2 * Z.of_nat (length z) + 12) mod 2) with 0 by (Z.to_euclidean_division_equations; lia).
    rewrite (proj2 (Z.ltb_ge _ 12)) by lia. cbn [Z.eqb negb]. rewrite H2. by destruct (desc p 0).
Qed.
End fast.

Lemma cmp_fields_set_r a b p vs : forall i ws, cmp_fields (set_r a b p) i vs ws = cmp_fields p i vs ws.
Proof. induction vs as [|v vs IH]; intros i [|w ws]; try done. cbn [cmp_fields]. by rewrite IH. Qed.

(** C32. The comparison function [sqlite3VdbeFindCompare] picks agrees with the general one: for every key with as many fields as the index has columns, the
    fast paths for a first field that is an integer or a text in binary order give a result of the same sign as [sqlite3VdbeRecordCompare], in ascending and in
    descending columns. *)
Theorem findCompare_correct fmt fs pad p :
  key_ok fmt fs pad -> rhs_ok p -> Forall cell_ok (aMem p) -> aMem p <> [] -> (length (aMem p) <= length fs)%nat ->
  Z.of_nat (length fs) <= k_nField (pKeyInfo p) + k_nXField (pKeyInfo p) ->
  let nKey1 := Z.of_nat (length (record_bytes fmt fs)) in
  let aKey1 := record_bytes fmt fs ++ pad in
  let '(f, p') := sqlite3VdbeFindCompare p in
  Z.sgn (call_compare f nKey1 aKey1 p') = Z.sgn (sqlite3VdbeRecordCompare nKey1 aKey1 p false).
Proof.
  intros Hkey Hrhs Hcells Hne Hlen Hn nKey1 aKey1. destruct fs as [|m fs]; [by destruct Hkey|].
  destruct (aMem p) as [|w ws] eqn:Hmem; [done|]. unfold sqlite3VdbeFindCompare.
  destruct (Z.leb_spec (k_nField (pKeyInfo p) + k_nXField (pKeyInfo p)) 13) as [H13|]; [|done].
  assert (length (m :: fs) <= 13)%nat as Hshort by lia.
  set (p' := if desc p 0 then set_r 1 (-1) p else set_r (-1) 1 p).
  assert (rhs_ok p' /\ aMem p' = w :: ws /\ desc p' 0 = desc p 0) as (Hrhs' & Hmem' & Hdesc) by (unfold p'; by destruct (desc p 0) eqn:?).
  assert (r1 p' = (if desc p' 0 then 1 else -1) /\ r2 p' = (if desc p' 0 then -1 else 1)) as [H1 H2] by (rewrite Hdesc; unfold p'; by destruct (desc p 0) eqn:?).
  assert (sqlite3VdbeRecordCompare nKey1 aKey1 p false = sqlite3VdbeRecordCompare nKey1 aKey1 p' false) as ->.
  { unfold nKey1, aKey1. rewrite !recordCompare_values by done. rewrite Hmem, Hmem'. unfold p'. destruct (desc p 0); by rewrite cmp_fields_set_r. }
  unfold rhs0. rewrite Hmem. cbn [nth]. fold (has MEM_Int w). destruct (has MEM_Int w) eqn:HI.
  - cbn [call_compare]. f_equal. by apply (compareInt_correct fmt m fs pad p' w ws).
  - destruct (_ && _) eqn:HS; [|done]. apply andb_true_iff in HS as [Hf Hc]. cbn [call_compare].
    apply (compareString_correct fmt m fs pad p' w ws); try done.
    + unfold rhs_ok in Hrhs. rewrite Hmem in Hrhs. apply Forall_cons in Hrhs as [[[HZ HP] _] _].
      apply Z.eqb_eq in Hf. assert (forall g, Z.land (MEM_Real .| MEM_Null .| MEM_Blob) g = g -> has g w = false) as Hno.
      { intros g Hg. unfold has. by rewrite <- Hg, Z.land_assoc, Hf. }
      unfold value_of, content in *. rewrite HZ, HI, app_nil_r, !(Hno MEM_Null), !(Hno MEM_Real) in * by done.
      destruct (has MEM_Str w); [done|]. by rewrite (Hno MEM_Blob) in HP.
    + revert Hc. fold p'. by destruct (coll p' 0).
    + apply Forall_cons in Hcells as [Hw _]. pose proof (ok_length w Hw) as Hl. unfold content in Hl. rewrite length_app in Hl. lia.
Qed.

(** * The rowid of an index entry *)

Lemma types_app fmt a b : types fmt (a ++ b) = types fmt a ++ types fmt b.
Proof. unfold types. by rewrite map_app, concat_app. Qed.
Lemma body_app fmt a b : body fmt (a ++ b) = body fmt a ++ body fmt b.
Proof. unfold body. by rewrite map_app, concat_app. Qed.

(** [sqlite3VdbeIdxRowid] finds the rowid of an index entry, its last field, from the end of the header and the end of the record. *)
Theorem idxRowid_correct fmt fs m j :
  key_ok fmt (fs ++ [m]) [] -> fs <> [] -> value_of m = VInt j -> sqlite3VdbeIdxRowid (record_bytes fmt (fs ++ [m])) = (SQLITE_OK, j).
Proof.
  intros [Hok _ _ Hlen] Hne Hj. pose proof Hok as [Hfs [Hm _]%Forall_cons]%Forall_app.
  pose proof (serial_type_cases m fmt Hm) as Ht. pose proof (serial_type_u32 m fmt Hm) as [Htu _]. cbn zeta in Ht. rewrite Hj in Ht.
  pose proof (payload_length m fmt Hm) as Hpl. pose proof (int_type_byte fmt m Hm ltac:(eauto)) as H1. set (t := sqlite3VdbeSerialType m fmt) in *.
  destruct (record_start fmt (fs ++ [m]) [] Hok ltac:(constructor) Hlen) as (Hg & Hu & Hat). rewrite app_nil_r in Hg, Hat.
  pose proof (at_idx _ _ _ _ _ _ _ Hat) as [_ Hidx]. pose proof (at_d _ _ _ _ _ _ _ Hat) as [_ Hdn].
  unfold sqlite3VdbeIdxRowid. rewrite Hg. cbn [snd]. set (h := header_size _) in *.
  assert (is_u 64 h) as Hu' by small. pose proof (venc_length h Hu') as Hv. pose proof (varintLen_range h Hu').
  assert (0 < length (types fmt fs))%nat as Hpos.
  { destruct fs as [|m1 fs]; [done|]. apply Forall_cons in Hfs as [Hm1 _]. pose proof (types_cons fmt m1 fs Hm1) as Hc. cbn zeta in Hc.
    destruct (serial_type_u32 m1 fmt Hm1) as [? ?]. pose proof (varintLen_range (sqlite3VdbeSerialType m1 fmt) ltac:(done)). destruct (_ <=? _); lia. }
  rewrite types_app, length_app in Hidx. rewrite body_app, length_app in Hdn.
  assert (types fmt [m] = venc t) as Et by (unfold types; cbn; by rewrite app_nil_r). assert (body fmt [m] = payload fmt m) as Eb by (unfold body; cbn; by rewrite app_nil_r).
  rewrite Et, H1 in Hidx. rewrite Eb in Hdn. unfold SQLITE_MAX_LENGTH in Hlen. rewrite swrap_small by small.
  assert (record_bytes fmt (fs ++ [m]) = (venc h ++ types fmt fs) ++ venc t ++ body fmt fs ++ payload fmt m) as Er.
  { unfold record_bytes. fold h. rewrite types_app, body_app, Et, Eb. by rewrite <- !app_assoc. }
  assert (drop (Z.to_nat (h - 1)) (record_bytes fmt (fs ++ [m])) = venc t ++ body fmt fs ++ payload fmt m) as ->.
  { rewrite Er. apply drop_app_length'. rewrite length_app. lia. }
  rewrite getVarint32_venc by (done || (apply Forall_app_2; [by apply body_bytes|]; rewrite <- Eb; apply body_bytes; by apply Forall_singleton)). cbn [snd].
  rewrite (uwrap_small 32) by small. zdecide.
  assert (drop (Z.to_nat (Z.of_nat (length (record_bytes fmt (fs ++ [m]))) - sqlite3VdbeSerialTypeLen t)) (record_bytes fmt (fs ++ [m])) = payload fmt m ++ []) as ->.
  { rewrite Er, !app_assoc, app_nil_r. apply drop_app_length'. rewrite !length_app. lia. }
  f_equal. pose proof (serial_get m fmt [] null_cell Hm) as (m' & E & Hv' & _). fold t in E. rewrite E. cbn [snd].
  pose proof (value_of_inv m') as Hx. by rewrite Hv', Hj in Hx.
Qed.

(** * A concrete index entry *)

Definition entry : list Mem := [int_cell 42; text_cell [65; 66]; int_cell 7].
Definition sample_info (d : bool) : KeyInfo := {| k_enc := 1; k_nField := 2; k_nXField := 1; alloc := true; aSortOrder := [d; false]; aColl := [None; None] |}.
Definition sample (d : bool) (ws : list Mem) : UnpackedRecord := {| pKeyInfo := sample_info d; default_rc := 0; aMem := ws; r1 := 0; r2 := 0 |}.

Lemma text_cell_ok z : bytes z -> Z.of_nat (length z) <= SQLITE_MAX_LENGTH -> cell_ok (text_cell z).
Proof. intros Hz Hl. constructor; [by split|by split|done|done|done|]. unfold content. cbn. by rewrite app_nil_r. Qed.

Lemma entry_ok : key_ok 4 entry [9; 9].
Proof.
  constructor; [|done|by repeat constructor|by vm_compute].
  repeat apply Forall_cons_2; try apply Forall_nil_2; first [apply int_cell_ok; small|apply text_cell_ok; [by repeat constructor|by vm_compute]].
Qed.

Lemma recordCompare_correct_witness :
  sqlite3VdbeRecordCompare (Z.of_nat (length (record_bytes 4 entry))) (record_bytes 4 entry ++ [9; 9]) (sample false [int_cell 42; text_cell [65; 67]]) false = -1.
Proof.
  rewrite (proj1 (recordCompare_correct 4 entry [9; 9] (sample false [int_cell 42; text_cell [65; 67]]) entry_ok ltac:(by repeat constructor))).
  by vm_compute.
Defined.

Lemma findCompare_correct_witness :
  let p := sample true [int_cell 40] in
  sqlite3VdbeFindCompare p = (CompareInt, set_r 1 (-1) p) /\
  Z.sgn (vdbeRecordCompareInt (Z.of_nat (length (record_bytes 4 entry))) (record_bytes 4 entry ++ [9; 9]) (set_r 1 (-1) p)) = -1.
Proof.
  intros p. split; [done|].
  pose proof (findCompare_correct 4 entry [9; 9] p entry_ok ltac:(by repeat constructor) ltac:(apply Forall_singleton, int_cell_ok; small) ltac:(done)
    ltac:(cbn; lia) ltac:(cbn; lia)) as H.
  cbn zeta in H. change (sqlite3VdbeFindCompare p) with (CompareInt, set_r 1 (-1) p) in H. cbn [call_compare] in H. rewrite H. by vm_compute.
Defined.

Lemma idxRowid_correct_witness : sqlite3VdbeIdxRowid (record_bytes 4 entry) = (SQLITE_OK, 7).
Proof.
  apply (idxRowid_correct 4 [int_cell 42; text_cell [65; 66]] (int_cell 7) 7); [|done|done].
  destruct entry_ok. by constructor; [..|constructor|].
Defined.

(** * Integers and reals *)

Definition real_cell (bits : Z) : Mem := {| c_flags := MEM_Real; c_u := 0; c_r := bits; c_z := []; c_enc := 1 |}.

(** The order of numbers is not transitive: an integer is converted to a double before it is compared with a real, so that 2^53 + 1 and 2^53 both equal
    the real 2^53, and yet differ from each other. *)
Theorem memCompare_not_transitive mem c :
  let r := real_cell 0x4340000000000000 in
  double_of_bits (c_r r) = double_of_int (2 ^ 53) /\
  sqlite3MemCompare mem (int_cell (2 ^ 53 + 1)) r c = 0 /\ sqlite3MemCompare mem r (int_cell (2 ^ 53)) c = 0 /\
  sqlite3MemCompare mem (int_cell (2 ^ 53 + 1)) (int_cell (2 ^ 53)) c = 1.
Proof. by vm_compute. Qed.
