(* ===== verification/Like.v ===== *)
(** The LIKE and GLOB operators of func.c.

    Strings are C strings in memory: the bytes with their terminator. A pointer into one is the rest of the memory; a read behind the
    terminator is undefined and makes the whole comparison [None]. *)
From Stdlib Require Import String.
From S2P Require Import Prelude Text Keywords Utf.
Local Open Scope Z_scope.
Local Open Scope c_scope.

Record compareInfo := { matchAll : Z; matchOne : Z; matchSet : Z; noCase : bool }.

Definition globInfo : compareInfo := {| matchAll := 42; matchOne := 63; matchSet := 91; noCase := false |}.
Definition likeInfoNorm : compareInfo := {| matchAll := 37; matchOne := 95; matchSet := 0; noCase := true |}.
Definition likeInfoAlt : compareInfo := {| matchAll := 37; matchOne := 95; matchSet := 0; noCase := false |}.

Definition GlobUpperToLower (a : Z) : Z := if a .& Z.lnot 0x7f =? 0 then rd sqlite3UpperToLower a else a.

(** [sqlite3Utf8Read(&z)] *)
Definition next_char (z : list Z) : option (Z * list Z) :=
  match z with [] => None | _ => Some (sqlite3Utf8Read z) end.

(** [while( (c=sqlite3Utf8Read(&zPattern)) == matchAll || c == matchOne ){ ... }]: [Some None] is [return 0]. *)
Fixpoint star_run (fuel : nat) (pInfo : compareInfo) (zPattern zString : list Z) : option (option (Z * list Z * list Z)) :=
  match fuel with
  | O => None
  | S fuel =>
      '(c, zPattern) ← next_char zPattern;
      if (c =? matchAll pInfo) || (c =? matchOne pInfo) then
        if c =? matchOne pInfo then
          '(c2, zString) ← next_char zString;
          if c2 =? 0 then Some None else star_run fuel pInfo zPattern zString
        else star_run fuel pInfo zPattern zString
      else Some (Some (c, zPattern, zString))
  end.

(** [while( *zString && patternCompare(&zPattern[-1],zString,pInfo,esc)==0 ){ SQLITE_SKIP_UTF8(zString); } return *zString!=0;] *)
Fixpoint set_search (fuel : nat) (compare : list Z -> option bool) (zString : list Z) : option bool :=
  match fuel with
  | O => None
  | S fuel =>
      match zString with
      | [] => None
      | b :: _ =>
          if b =? 0 then Some false
          else
            r ← compare zString;
            if (r : bool) then Some true else set_search fuel compare (SQLITE_SKIP_UTF8 zString)
      end
  end.

(** [while( c2 != 0 && c2 != c ){ c2 = sqlite3Utf8Read(&zString); ... }], with the folding when [noCase]. *)
Fixpoint skip_until (fuel : nat) (fold : Z -> Z) (c c2 : Z) (zString : list Z) : option (Z * list Z) :=
  match fuel with
  | O => None
  | S fuel =>
      if negb (c2 =? 0) && negb (c2 =? c) then
        '(c2, zString) ← next_char zString;
        skip_until fuel fold c (fold c2) zString
      else Some (c2, zString)
  end.

(** [while( (c2 = sqlite3Utf8Read(&zString))!=0 ){ ... } return 0;] *)
Fixpoint lit_search (fuel : nat) (fold : Z -> Z) (compare : list Z -> option bool) (c : Z) (zString : list Z) : option bool :=
  match fuel with
  | O => None
  | S fuel =>
      '(c2, zString) ← next_char zString;
      if c2 =? 0 then Some false
      else
        let c := fold c in
        '(c2, zString) ← skip_until (S (length zString)) fold c (fold c2) zString;
        if c2 =? 0 then Some false
        else
          r ← compare zString;
          if (r : bool) then Some true else lit_search fuel fold compare c zString
  end.

(** [while( c2 && c2!=']' ){ ... }]: the last [c2], the rest of the pattern and [seen]. *)
Fixpoint set_loop (fuel : nat) (c c2 prior_c : Z) (seen : bool) (zPattern : list Z) : option (Z * list Z * bool) :=
  match fuel with
  | O => None
  | S fuel =>
      if negb (c2 =? 0) && negb (c2 =? 93) then
        match zPattern with
        | [] => None
        | b :: _ =>
            if (c2 =? 45) && negb (b =? 93) && negb (b =? 0) && (0 <? prior_c) then
              '(c2, zPattern) ← next_char zPattern;
              let seen := if (prior_c <=? c) && (c <=? c2) then true else seen in
              '(c2, zPattern) ← next_char zPattern;
              set_loop fuel c c2 0 seen zPattern
            else
              let seen := if c =? c2 then true else seen in
              let prior_c := c2 in
              '(c2, zPattern) ← next_char zPattern;
              set_loop fuel c c2 prior_c seen zPattern
        end
      else Some (c2, zPattern, seen)
  end.

(** The branch for a set: [None] inside is [return 0], otherwise the rest of the pattern and of the string. *)
Definition match_set (zPattern zString : list Z) : option (option (list Z * list Z)) :=
  '(c, zString) ← next_char zString;
  if c =? 0 then Some None
  else
    '(c2, zPattern) ← next_char zPattern;
    '(invert, c2, zPattern) ←
      (if c2 =? 94 then '(c2, zPattern) ← next_char zPattern; Some (true, c2, zPattern) else Some (false, c2, zPattern));
    '(seen, c2, zPattern) ←
      (if c2 =? 93 then '(c2, zPattern) ← next_char zPattern; Some (c =? 93, c2, zPattern) else Some (false, c2, zPattern));
    '(c2, zPattern, seen) ← set_loop (S (length zPattern)) c c2 0 seen zPattern;
    if (c2 =? 0) || negb (xorb seen invert) then Some None else Some (Some (zPattern, zString)).

(** The loop of [patternCompare], from its head. *)
Fixpoint compare_loop (fuel : nat) (pInfo : compareInfo) (esc : Z) (zPattern zString : list Z) (prevEscape : bool) : option bool :=
  match fuel with
  | O => None
  | S fuel =>
      let patternCompare zPattern zString := compare_loop fuel pInfo esc zPattern zString false in
      let fold c := if noCase pInfo then GlobUpperToLower c else c in
      '(c, zPattern) ← next_char zPattern;
      if c =? 0 then match zString with [] => None | b :: _ => Some (b =? 0) end
      else if (c =? matchAll pInfo) && negb prevEscape then
        r ← star_run (S (length zPattern)) pInfo zPattern zString;
        match r with
        | None => Some false
        | Some (c, zPattern, zString) =>
            if c =? 0 then Some true
            else if c =? esc then
              '(c, zPattern) ← next_char zPattern;
              if c =? 0 then Some false
              else lit_search (length zString) fold (patternCompare zPattern) c zString
            else if c =? matchSet pInfo then
              set_search (length zString) (patternCompare (c :: zPattern)) zString
            else lit_search (length zString) fold (patternCompare zPattern) c zString
        end
      else if (c =? matchOne pInfo) && negb prevEscape then
        '(c2, zString) ← next_char zString;
        if c2 =? 0 then Some false else compare_loop fuel pInfo esc zPattern zString prevEscape
      else if c =? matchSet pInfo then
        r ← match_set zPattern zString;
        match r with
        | None => Some false
        | Some (zPattern, zString) => compare_loop fuel pInfo esc zPattern zString prevEscape
        end
      else if (esc =? c) && negb prevEscape then compare_loop fuel pInfo esc zPattern zString true
      else
        '(c2, zString) ← next_char zString;
        if negb (fold c =? fold c2) then Some false else compare_loop fuel pInfo esc zPattern zString false
  end.

Definition patternCompare (zPattern zString : list Z) (pInfo : compareInfo) (esc : Z) : option bool :=
  compare_loop (length zPattern) pInfo esc zPattern zString false.

(** The interface: 0 is a match. *)
Definition sqlite3_strglob (zGlobPattern zString : list Z) : option Z :=
  r ← patternCompare zGlobPattern zString globInfo 0; Some (if (r : bool) then 0 else 1).

Example glob_abc : sqlite3_strglob (txt "*[x-z]?b*"%string ++ [0]) (txt "fooyab"%string ++ [0]) = Some 0.
Proof. reflexivity. Qed.
Example like_esc : patternCompare (txt "A\%%_"%string ++ [0]) (txt "a%bc"%string ++ [0]) likeInfoNorm 92 = Some true.
Proof. reflexivity. Qed.

(** * Characters of a string in memory *)

(** A zero-terminated string of bytes. *)
Definition c_memory (z : list Z) : Prop := exists s, z = s ++ [0] /\ cstring s.

Fixpoint decode (n : nat) (z : list Z) : list Z :=
  match n with
  | O => []
  | S n => if hd0 z =? 0 then [] else let '(c, z) := sqlite3Utf8Read z in c :: decode n z
  end.
Definition chars (z : list Z) : list Z := decode (length z) z.

Lemma utf8_cont_memory s : forall c, cstring s ->
  exists c' s', utf8_cont c (s ++ [0]) = (c', s' ++ [0]) /\ skip_cont (s ++ [0]) = s' ++ [0] /\ cstring s' /\ (length s' <= length s)%nat.
Proof.
  induction s as [|b s IH]; intros c Hs; [by exists c, []|]. cbn [app utf8_cont skip_cont].
  apply Forall_cons in Hs as [Hb Hs]. destruct (b .& 0xc0 =? 0x80).
  - destruct (IH (u32 ((c << 6) + (0x3f .& b))) Hs) as (c' & s' & -> & -> & ? & ?). exists c', s'. cbn [length]. eauto with lia.
  - exists c, (b :: s). by repeat split; [constructor|].
Qed.

(** Reading a character of a non-empty string: the rest is a string again, and [SQLITE_SKIP_UTF8] skips the same bytes. *)
Lemma read_memory b s : cstring (b :: s) ->
  exists c s', sqlite3Utf8Read ((b :: s) ++ [0]) = (c, s' ++ [0]) /\ SQLITE_SKIP_UTF8 ((b :: s) ++ [0]) = s' ++ [0] /\ 0 < c /\
    cstring s' /\ (length s' <= length s)%nat /\ forall d, d < 0x80 -> (c =? d) = (b =? d).
Proof.
  intros [[Hb Hb0] Hs]%Forall_cons. unfold sqlite3Utf8Read, READ_UTF8, SQLITE_SKIP_UTF8. cbn [app hd tl].
  unfold is_u in Hb. destruct (Z.leb_spec 0xc0 b).
  - destruct (utf8_cont_memory s (rd sqlite3Utf8Trans1 (b - 0xc0)) Hs) as (c & s' & -> & -> & ? & ?).
    assert (0x80 <= utf8_fix c) as Hc.
    { unfold utf8_fix. destruct (Z.ltb_spec c 0x80); [done|]. cbn. by destruct (_ || _). }
    exists (utf8_fix c), s'. repeat split; try done; [lia|]. intros d Hd.
    rewrite !(proj2 (Z.eqb_neq _ _)) by lia. done.
  - exists b, s. repeat split; try done. lia.
Qed.

Lemma decode_S n z : hd0 z <> 0 -> decode (S n) z = let '(c, z) := sqlite3Utf8Read z in c :: decode n z.
Proof. intros H. cbn [decode]. by rewrite (proj2 (Z.eqb_neq _ _) H). Qed.

Lemma decode_enough n : forall s, (length s < n)%nat -> cstring s -> decode n (s ++ [0]) = decode (S (length s)) (s ++ [0]).
Proof.
  induction n as [n IH] using lt_wf_ind. intros s Hn Hs. destruct n as [|n]; [lia|].
  destruct s as [|b s]; [done|]. destruct (read_memory b s Hs) as (c & s' & E & _ & _ & Hs' & Hl & _).
  apply Forall_cons in Hs as [[_ Hb] _]. cbn [length] in *. rewrite !decode_S, E by done. f_equal.
  rewrite (IH n ltac:(lia) s'), (IH (S (length s)) ltac:(lia) s') by (done || lia). done.
Qed.

Lemma chars_end : chars [0] = [].
Proof. done. Qed.

(** A string either is at its end, or has a next character. *)
Lemma next_char_cases z : c_memory z ->
  (z = [0] /\ chars z = [] /\ next_char z = Some (0, [])) \/
  (exists c z', next_char z = Some (c, z') /\ chars z = c :: chars z' /\ 0 < c /\ c_memory z' /\ (length z' < length z)%nat /\
     SQLITE_SKIP_UTF8 z = z' /\ hd0 z <> 0 /\ forall d, d < 0x80 -> (c =? d) = (hd0 z =? d)).
Proof.
  intros (s & -> & Hs). destruct s as [|b s]; [by left|right].
  destruct (read_memory b s Hs) as (c & s' & E & Hk & Hc & Hs' & Hl & Hd). exists c, (s' ++ [0]).
  pose proof Hs as [[_ Hb] _]%Forall_cons.
  split; [cbn [next_char app]; by rewrite <- E|]. split; [|repeat split; try done; [by exists s'|rewrite !length_app; cbn; lia]].
  unfold chars. rewrite !length_app. cbn [length]. rewrite !Nat.add_1_r. rewrite decode_S, E by done. f_equal. apply decode_enough; [lia|done].
Qed.

(** * What patterns mean *)

(** A set is a list of ranges; a set that is not closed matches nothing ([PNever]). *)
Inductive pelem := PAny | POne | PLit (c : Z) | PSet (invert : bool) (items : list (Z * Z)) | PNever.

Definition in_items (c : Z) (items : list (Z * Z)) : bool := existsb (fun '(a, b) => (a <=? c) && (c <=? b)) items.

Inductive matches (fold : Z -> Z) : list pelem -> list Z -> Prop :=
| m_end : matches fold [] []
| m_any p s t : matches fold p t -> matches fold (PAny :: p) (s ++ t)
| m_one p c t : matches fold p t -> matches fold (POne :: p) (c :: t)
| m_lit p c d t : fold c = fold d -> matches fold p t -> matches fold (PLit c :: p) (d :: t)
| m_set p inv items c t : xorb (in_items c items) inv = true -> matches fold p t -> matches fold (PSet inv items :: p) (c :: t).

(** The items of a set up to the closing bracket: a minus sign between two characters makes a range. *)
Fixpoint set_body (prior : Z) (cs : list Z) : option (list (Z * Z) * list Z) :=
  match cs with
  | [] => None
  | c :: cs =>
      if c =? 93 then Some ([], cs)
      else
        match cs with
        | [] => None
        | d :: cs' =>
            if (c =? 45) && negb (d =? 93) && (0 <? prior) then
              '(items, rest) ← set_body 0 cs'; Some ((prior, d) :: items, rest)
            else
              '(items, rest) ← set_body c cs; Some ((c, c) :: items, rest)
        end
  end.

(** The text behind an optional character. *)
Definition optional (d : Z) (cs : list Z) : bool * list Z :=
  match cs with c :: cs' => if c =? d then (true, cs') else (false, cs) | [] => (false, []) end.

(** A set behind its opening bracket: a caret inverts it, and a closing bracket that comes first is one of its characters. *)
Definition parse_set (cs : list Z) : option (bool * list (Z * Z) * list Z) :=
  let '(inv, cs) := optional 94 cs in
  let '(close, cs) := optional 93 cs in
  '(items, rest) ← set_body 0 cs; Some (inv, if close then (93, 93) :: items else items, rest).

(** The elements of a pattern; [None] if it ends in an escape character that escapes nothing. *)
Fixpoint parse (n : nat) (pInfo : compareInfo) (esc : Z) (cs : list Z) : option (list pelem) :=
  match n, cs with
  | _, [] => Some []
  | O, _ => None
  | S n, c :: cs =>
      if c =? matchAll pInfo then cons PAny <$> parse n pInfo esc cs
      else if c =? matchOne pInfo then cons POne <$> parse n pInfo esc cs
      else if c =? matchSet pInfo then
        match parse_set cs with
        | Some (inv, items, rest) => cons (PSet inv items) <$> parse n pInfo esc rest
        | None => Some [PNever]
        end
      else if c =? esc then
        match cs with [] => None | d :: cs => cons (PLit d) <$> parse n pInfo esc cs end
      else cons (PLit c) <$> parse n pInfo esc cs
  end.

(** * Laws of the specification *)
Section laws.
Context (fold : Z -> Z).

Lemma matches_any_nil p : matches fold (PAny :: p) [] <-> matches fold p [].
Proof.
  split; [|by apply (m_any fold p [] [])].
  inversion 1 as [|? s t H' E1 E2| | |]; subst. by apply app_eq_nil in E2 as [-> ->].
Qed.

Lemma matches_any_cons p c s : matches fold (PAny :: p) (c :: s) <-> matches fold p (c :: s) \/ matches fold (PAny :: p) s.
Proof.
  split.
  - inversion 1 as [|? s1 t H' E1 E2| | |]; subst. destruct s1 as [|d s1]; [left; by cbn in E2; subst|right].
    injection E2 as -> <-. by constructor.
  - intros [H|H]; [by apply (m_any fold p [] (c :: s))|].
    inversion H as [|? s1 t H' E1 E2| | |]; subst. by apply (m_any fold p (c :: s1) t).
Qed.

Lemma matches_any_all s : matches fold [PAny] s.
Proof. rewrite <- (app_nil_r s). repeat constructor. Qed.

Lemma matches_any_any p s : matches fold (PAny :: PAny :: p) s <-> matches fold (PAny :: p) s.
Proof.
  induction s as [|c s IH]; [by rewrite matches_any_nil|]. rewrite (matches_any_cons (PAny :: p)), IH, (matches_any_cons p). tauto.
Qed.

Lemma matches_one p s : matches fold (POne :: p) s <-> exists c t, s = c :: t /\ matches fold p t.
Proof. split; [inversion 1; eauto|]. intros (c & t & -> & H). by constructor. Qed.

Lemma matches_lit p c s : matches fold (PLit c :: p) s <-> exists d t, s = d :: t /\ fold c = fold d /\ matches fold p t.
Proof. split; [inversion 1; eauto|]. intros (d & t & -> & ? & H). by constructor. Qed.

Lemma matches_set p inv items s :
  matches fold (PSet inv items :: p) s <-> exists c t, s = c :: t /\ xorb (in_items c items) inv = true /\ matches fold p t.
Proof. split; [inversion 1; eauto|]. intros (d & t & -> & ? & H). by constructor. Qed.

Lemma matches_never p s : matches fold (PNever :: p) s <-> False.
Proof. split; [inversion 1|done]. Qed.

Lemma matches_any_one p c s : matches fold (PAny :: POne :: p) (c :: s) <-> matches fold (PAny :: p) s.
Proof.
  revert c. induction s as [|d s IH]; intros c; rewrite matches_any_cons, matches_one.
  - rewrite matches_any_nil, matches_any_nil, matches_one. naive_solver.
  - rewrite IH, matches_any_cons. naive_solver.
Qed.
End laws.

(** * The loops *)

(** [next_char] at a string's end or at its next character, as one case analysis. *)
Ltac next z H :=
  let E := fresh "E" in let Ec := fresh "Ec" in let c := fresh "c" in let z' := fresh "z" in
  let Hc := fresh "Hc" in let Hm := fresh "Hm" in let Hl := fresh "Hl" in let Hk := fresh "Hk" in let Hh := fresh "Hh" in
  let Ha := fresh "Ha" in
  destruct (next_char_cases z H) as [(-> & Ec & E)|(c & z' & E & Ec & Hc & Hm & Hl & Hk & Hh & Ha)];
  rewrite ?E, ?Ec in *; cbn [mbind option_bind] in *.

Lemma c_memory_hd {A} (F : Z -> option A) z : c_memory z -> match z with [] => None | b :: _ => F b end = F (hd0 z).
Proof. intros (s & -> & _). by destruct s. Qed.

Lemma set_loop_end fuel c prior seen z : (0 < fuel)%nat -> set_loop fuel c 0 prior seen z = Some (0, z, seen).
Proof. by destruct fuel; [lia|]. Qed.

(** The loop over a set is the specification's reading of it. *)
Lemma set_loop_correct c fuel : forall z c2 prior seen, c_memory z -> 0 < c2 -> (length z < fuel)%nat ->
  match set_body prior (c2 :: chars z) with
  | None => exists z' seen', set_loop fuel c c2 prior seen z = Some (0, z', seen')
  | Some (items, rest) => exists z', set_loop fuel c c2 prior seen z = Some (93, z', seen || in_items c items) /\
      c_memory z' /\ rest = chars z' /\ (length z' <= length z)%nat
  end.
Proof.
  induction fuel as [|fuel IH]; intros z c2 prior seen Hz Hc2 Hf; [lia|]. cbn [set_body set_loop].
  rewrite (proj2 (Z.eqb_neq c2 0)) by lia. cbn [negb andb].
  destruct (Z.eqb_spec c2 93) as [->|Hc2']; cbn [negb]; [exists z; rewrite orb_false_r; eauto|].
  rewrite c_memory_hd by done. next z Hz.
  - cbn [hd length] in *. rewrite andb_false_r. cbn [andb]. rewrite set_loop_end by lia. eauto.
  - rewrite <- (Ha 93), (proj2 (Z.eqb_neq (hd0 z) 0)), andb_true_r by done.
    destruct (_ && _ && _).
    + next z0 Hm.
      * rewrite set_loop_end by (cbn [length] in *; lia). cbn. eauto.
      * specialize (IH z1 c1 0 (if (prior <=? c) && (c <=? c0) then true else seen) Hm0 Hc0 ltac:(lia)).
        destruct (set_body 0 (c1 :: chars z1)) as [[items rest]|]; cbn [mbind option_bind]; [|done].
        destruct IH as (z' & -> & ? & ? & ?). exists z'. split_and!; [|done|done|lia].
        cbn [in_items existsb]. fold (in_items c items). by destruct (_ && _); rewrite ?orb_true_r.
    + specialize (IH z0 c0 c2 (if c =? c2 then true else seen) Hm Hc ltac:(lia)).
      destruct (set_body c2 (c0 :: chars z0)) as [[items rest]|]; cbn [mbind option_bind]; [|done].
      destruct IH as (z' & -> & ? & ? & ?). exists z'. split_and!; [|done|done|lia].
      cbn [in_items existsb]. fold (in_items c items).
      destruct (Z.eqb_spec c c2) as [->|]; [by rewrite Z.leb_refl, !orb_true_r|].
      destruct (Z.leb_spec c2 c), (Z.leb_spec c c2); try done. lia.
Qed.

(** A character that was read, and the memory behind it, stand for the characters [cs]. *)
Definition ahead (c : Z) (z cs : list Z) : Prop := (c = 0 /\ cs = []) \/ (0 < c /\ c_memory z /\ cs = c :: chars z).

Lemma next_ahead z : c_memory z -> exists c z', next_char z = Some (c, z') /\ ahead c z' (chars z) /\ (length z' < length z)%nat.
Proof.
  intros Hz. next z Hz; [exists 0, []|exists c, z0]; (split_and!; [done| |cbn [length]; lia]); [by left|by right].
Qed.

Lemma optional_ahead {A} (x y : A) d c z cs : d <> 0 -> ahead c z cs ->
  exists c' z', (if c =? d then '(c, z) ← next_char z; Some (x, c, z) else Some (y, c, z)) =
      Some (if (optional d cs).1 then x else y, c', z') /\
    ahead c' z' (optional d cs).2 /\ (length z' <= length z)%nat.
Proof.
  intros Hd [[-> ->]|(Hc & Hz & ->)]; cbn [optional].
  - rewrite (proj2 (Z.eqb_neq 0 d)) by done. exists 0, z. split_and!; [done|by left|lia].
  - destruct (Z.eqb_spec c d) as [->|].
    + destruct (next_ahead z Hz) as (c' & z' & -> & ? & ?). exists c', z'. split_and!; [done..|lia].
    + exists c, z. split_and!; [done| |lia]. by right.
Qed.

Lemma set_loop_ahead c c2 z cs seen : ahead c2 z cs ->
  match set_body 0 cs with
  | None => exists z' seen', set_loop (S (length z)) c c2 0 seen z = Some (0, z', seen')
  | Some (items, rest) => exists z', set_loop (S (length z)) c c2 0 seen z = Some (93, z', seen || in_items c items) /\
      c_memory z' /\ rest = chars z' /\ (length z' <= length z)%nat
  end.
Proof.
  intros [[-> ->]|(Hc & Hz & ->)]; [rewrite set_loop_end by lia; cbn; eauto|]. apply set_loop_correct; [done|done|lia].
Qed.

(** A set against the next character of the string. *)
Lemma match_set_correct z s : c_memory z -> c_memory s ->
  match chars s, parse_set (chars z) with
  | [], _ | _, None => match_set z s = Some None
  | c :: t, Some (inv, items, rest) =>
      if xorb (in_items c items) inv then
        exists z' s', match_set z s = Some (Some (z', s')) /\ c_memory z' /\ c_memory s' /\ rest = chars z' /\ t = chars s' /\
          (length z' < length z)%nat
      else match_set z s = Some None
  end.
Proof.
  intros Hz Hs. unfold match_set. next s Hs; [done|]. rewrite (proj2 (Z.eqb_neq c 0)) by lia.
  destruct (next_ahead z Hz) as (c1 & z1 & -> & H1 & L1). cbn [mbind option_bind].
  destruct (optional_ahead true false 94 c1 z1 _ ltac:(done) H1) as (c2 & z2 & -> & H2 & L2). cbn [mbind option_bind].
  destruct (optional_ahead (c =? 93) false 93 c2 z2 _ ltac:(done) H2) as (c3 & z3 & -> & H3 & L3). cbn [mbind option_bind].
  unfold parse_set. destruct (optional 94 _) as [inv cs1]. cbn [fst snd] in *. destruct (optional 93 cs1) as [close cs2].
  cbn [fst snd] in *. pose proof (set_loop_ahead c c3 z3 cs2 (if close then c =? 93 else false) H3) as H4.
  destruct (set_body 0 cs2) as [[items rest]|]; cbn [mbind option_bind].
  - destruct H4 as (z4 & -> & ? & ? & ?). cbn [mbind option_bind].
    assert ((if close then c =? 93 else false) || in_items c items = in_items c (if close then (93, 93) :: items else items)) as ->.
    { destruct close; [|done]. cbn [in_items existsb]. f_equal. destruct (Z.eqb_spec c 93), (Z.leb_spec 93 c), (Z.leb_spec c 93); lia || done. }
    destruct inv, (in_items _ _); cbn; try done; exists z4, z0; split_and!; done || lia.
  - by destruct H4 as (? & ? & ->).
Qed.

(** * The comparison *)
Section compare.
Context (pInfo : compareInfo) (esc : Z).

(** The comparisons there are: GLOB has no escape character. *)
Hypothesis Hinfo : (pInfo = globInfo /\ esc = 0) \/ pInfo = likeInfoNorm \/ pInfo = likeInfoAlt.

Lemma info_facts : (matchAll pInfo =? 0) = false /\ (matchOne pInfo =? 0) = false /\ (matchAll pInfo =? matchOne pInfo) = false /\
  matchSet pInfo < 0x80 /\ matchSet pInfo <> matchAll pInfo /\ matchSet pInfo <> matchOne pInfo /\ (matchSet pInfo = 0 \/ esc = 0).
Proof. destruct Hinfo as [[-> ->]|[-> | ->]]; cbn; split_and!; try done; first [by left|by right]. Qed.

(** Characters are compared as they are, or as lower case letters. *)
Definition fold_case (c : Z) : Z := if noCase pInfo then GlobUpperToLower c else c.

Lemma glob_lower_fix c : 0 <= c -> GlobUpperToLower (GlobUpperToLower c) = GlobUpperToLower c /\ (c <> 0 -> GlobUpperToLower c <> 0).
Proof.
  intros Hc. destruct (Z.ltb_spec c 128) as [Hlt|Hge].
  - assert (Forall (fun c => GlobUpperToLower (GlobUpperToLower c) = GlobUpperToLower c /\ (c <> 0 -> GlobUpperToLower c <> 0)) (seqZ 0 128)) as HF.
    { apply (bool_decide_unpack _). by vm_compute. }
    rewrite Forall_forall in HF. apply HF, elem_of_seqZ. lia.
  - assert (GlobUpperToLower c = c) as H; [|by rewrite !H].
    unfold GlobUpperToLower. destruct (Z.eqb_spec (c .& Z.lnot 0x7f) 0) as [E|]; [|done].
    replace (Z.lnot 0x7f) with (Z.lnot (Z.ones 7)) in E by done.
    rewrite <- Z.ldiff_land, Z.ldiff_ones_r, Z.shiftl_mul_pow2, Z.shiftr_div_pow2 in E by lia.
    change (2 ^ 7) with 128 in E. lia.
Qed.

Lemma fold_fix c : 0 <= c -> fold_case (fold_case c) = fold_case c.
Proof. unfold fold_case. destruct (noCase pInfo); [apply glob_lower_fix|done]. Qed.
Lemma fold_nonzero c : 0 < c -> fold_case c <> 0.
Proof. unfold fold_case. intros Hc. destruct (noCase pInfo); [apply glob_lower_fix; lia|lia]. Qed.

Abbreviation matches := (matches fold_case).

(** Reading on to the next occurrence of a character. *)
Lemma skip_until_correct c p fuel : 0 < c -> forall d z, c_memory z -> 0 < d -> (length z < fuel)%nat ->
  exists d' z', skip_until fuel fold_case (fold_case c) (fold_case d) z = Some (d', z') /\
    ((d' = 0 /\ ~ matches (PAny :: PLit c :: p) (d :: chars z)) \/
     (d' <> 0 /\ c_memory z' /\ (length z' <= length z)%nat /\
      (matches (PAny :: PLit c :: p) (d :: chars z) <-> matches p (chars z') \/ matches (PAny :: PLit c :: p) (chars z')))).
Proof.
  intros Hc0. induction fuel as [|fuel IH]; intros d z Hz Hd Hf; [lia|]. cbn [skip_until].
  rewrite (proj2 (Z.eqb_neq (fold_case d) 0)) by by apply fold_nonzero. cbn [negb andb].
  destruct (Z.eqb_spec (fold_case d) (fold_case c)) as [Heq|Hne]; cbn [negb].
  - exists (fold_case d), z. split; [done|]. right. split_and!; [by apply fold_nonzero|done|lia|].
    rewrite matches_any_cons, matches_lit. naive_solver.
  - assert (matches (PAny :: PLit c :: p) (d :: chars z) <-> matches (PAny :: PLit c :: p) (chars z)) as Hstep.
    { rewrite matches_any_cons, matches_lit. naive_solver. }
    next z Hz.
    + exists 0, []. split; [|left; split; [done|]].
      * assert (fold_case 0 = 0) as -> by (unfold fold_case; by destruct (noCase pInfo)).
        destruct fuel; [cbn in Hf; lia|done].
      * rewrite Hstep, matches_any_nil, matches_lit. naive_solver.
    + destruct (IH c0 z0 Hm Hc ltac:(lia)) as (d' & z' & -> & H). exists d', z'. split; [done|]. rewrite Hstep.
      destruct H as [?|(? & ? & ? & ?)]; [by left|right]. split_and!; done || lia.
Qed.

(** What a recursive call promises. *)
Definition decides (cmp : list Z -> option bool) (p : list pelem) : Prop :=
  forall s, c_memory s -> exists b, cmp s = Some b /\ (b = true <-> matches p (chars s)).

Lemma lit_search_correct cmp p c0 c fuel : 0 < c0 -> c = c0 \/ c = fold_case c0 -> decides cmp p -> forall z, c_memory z -> (length z <= fuel)%nat ->
  exists b, lit_search fuel fold_case cmp c z = Some b /\ (b = true <-> matches (PAny :: PLit c0 :: p) (chars z)).
Proof.
  intros Hc0 Hcc Hcmp. revert c Hcc. induction fuel as [|fuel IH]; intros c Hcc z Hz Hf.
  { destruct Hz as (s & -> & _). rewrite length_app in Hf. cbn in Hf. lia. }
  cbn [lit_search]. next z Hz.
  - exists false. split; [done|]. rewrite matches_any_nil, matches_lit. naive_solver.
  - rewrite (proj2 (Z.eqb_neq c1 0)) by lia.
    assert (fold_case c = fold_case c0) as -> by (destruct Hcc as [->| ->]; [done|apply fold_fix; lia]).
    destruct (skip_until_correct c0 p (S (length z0)) Hc0 c1 z0 Hm Hc ltac:(lia)) as (d' & z' & -> & H). cbn [mbind option_bind].
    destruct H as [[-> H]|(Hd & Hz' & Hl' & H)]; [exists false; split; [done|naive_solver]|].
    rewrite (proj2 (Z.eqb_neq d' 0)) by done. destruct (Hcmp z' Hz') as (b & -> & Hb). cbn [mbind option_bind]. setoid_rewrite H.
    destruct b; [exists true; tauto|].
    destruct (IH (fold_case c0) (or_intror eq_refl) z' Hz' ltac:(lia)) as (b & -> & Hb'). exists b. split; [done|].
    rewrite Hb', <- Hb. naive_solver.
Qed.

Lemma set_search_correct cmp p fuel : decides cmp p -> ~ matches p [] -> forall z, c_memory z -> (length z <= fuel)%nat ->
  exists b, set_search fuel cmp z = Some b /\ (b = true <-> matches (PAny :: p) (chars z)).
Proof.
  intros Hcmp Hnil. induction fuel as [|fuel IH]; intros z Hz Hf.
  { destruct Hz as (s & -> & _). rewrite length_app in Hf. cbn in Hf. lia. }
  cbn [set_search]. rewrite c_memory_hd by done. destruct (Hcmp z Hz) as (b & Eb & Hb). next z Hz.
  - exists false. split; [done|]. by rewrite matches_any_nil.
  - rewrite (proj2 (Z.eqb_neq _ _) Hh), Eb, Hk. cbn [mbind option_bind]. setoid_rewrite matches_any_cons. setoid_rewrite <- Hb.
    destruct b; [exists true; tauto|]. destruct (IH z0 Hm ltac:(lia)) as (b & -> & Hb'). exists b. split; [done|].
    rewrite Hb'. naive_solver.
Qed.

(** What the run of wildcards behind a [matchAll] leaves: of the pattern [p] the rest [p'], in fewer than [len] bytes. *)
Definition star_post (len : nat) (p : list pelem) (s : list Z) (r : option (Z * list Z * list Z)) : Prop :=
  match r with
  | None => ~ matches (PAny :: p) (chars s)
  | Some (c, z', s') =>
      exists n p', c_memory s' /\ (matches (PAny :: p) (chars s) <-> matches (PAny :: p') (chars s')) /\
        ((c = 0 /\ p' = []) \/
         (0 < c /\ c <> matchAll pInfo /\ c <> matchOne pInfo /\ c_memory z' /\ (length z' < len)%nat /\
          parse n pInfo esc (c :: chars z') = Some p'))
  end.

Lemma star_post_step len len' p p0 s s0 r : (len <= len')%nat -> (matches (PAny :: p0) (chars s0) <-> matches (PAny :: p) (chars s)) ->
  star_post len p s r -> star_post len' p0 s0 r.
Proof.
  intros Hl Hiff. destruct r as [[[c z'] s']|]; unfold star_post; [|tauto].
  setoid_rewrite Hiff. intros (n & p' & ? & ? & H). exists n, p'. split_and!; [done..|]. naive_solver lia.
Qed.

Lemma star_run_correct fuel : forall n z s p, c_memory z -> c_memory s -> (length z <= fuel)%nat -> parse n pInfo esc (chars z) = Some p ->
  exists r, star_run fuel pInfo z s = Some r /\ star_post (length z) p s r.
Proof.
  destruct info_facts as (Hall0 & Hone0 & Hne & _).
  induction fuel as [|fuel IH]; intros n z s p Hz Hs Hf Hp.
  { destruct Hz as (? & -> & _). rewrite length_app in Hf. cbn in Hf. lia. }
  cbn [star_run]. next z Hz.
  - rewrite (Z.eqb_sym 0), Hall0, (Z.eqb_sym 0), Hone0. cbn [orb]. eexists. split; [done|].
    exists n, []. destruct n; injection Hp as <-; eauto.
  - destruct n as [|n]; [done|]. cbn [parse] in Hp.
    destruct (Z.eqb_spec c (matchAll pInfo)) as [->|Hall]; cbn [orb]; [|destruct (Z.eqb_spec c (matchOne pInfo)) as [->|Hone]].
    + rewrite Hne. apply fmap_Some in Hp as (p1 & Hp & ->). destruct (IH n z0 s p1 Hm Hs ltac:(lia) Hp) as (r & -> & H).
      exists r. split; [done|]. revert H. apply star_post_step; [lia|apply matches_any_any].
    + apply fmap_Some in Hp as (p1 & Hp & ->). next s Hs.
      * exists None. split; [done|]. unfold star_post. rewrite Ec0, matches_any_nil, matches_one. naive_solver.
      * rewrite (proj2 (Z.eqb_neq c 0)) by lia. destruct (IH n z0 z1 p1 Hm Hm0 ltac:(lia) Hp) as (r & -> & H).
        exists r. split; [done|]. revert H. apply star_post_step; [lia|]. rewrite Ec0. apply matches_any_one.
    + eexists. split; [done|]. exists (S n), p. split_and!; [done..|]. right. split_and!; try done.
      cbn [parse]. by rewrite (proj2 (Z.eqb_neq _ _) Hall), (proj2 (Z.eqb_neq _ _) Hone).
Qed.

(** [zPattern[-1]], when the character read is a single byte. *)
Lemma chars_back c z : 0 < c < 0x80 -> c_memory z -> c_memory (c :: z) /\ chars (c :: z) = c :: chars z.
Proof.
  intros Hc (s & -> & Hs). assert (c_memory (c :: s ++ [0])) as Hm.
  { exists (c :: s). split; [done|]. constructor; [|done]. split; [|lia]. unfold is_u. change (2 ^ 8) with 256. lia. }
  split; [done|]. destruct (next_char_cases _ Hm) as [[? _]|(c1 & z1 & _ & -> & _ & _ & _ & Hk & _ & Ha)].
  - destruct s; discriminate.
  - specialize (Ha c ltac:(lia)). cbn [hd] in Ha. rewrite Z.eqb_refl in Ha. apply Z.eqb_eq in Ha as ->. f_equal.
    rewrite <- Hk. unfold SQLITE_SKIP_UTF8. cbn [hd tl]. by rewrite (proj2 (Z.leb_gt 0xc0 c)) by lia.
Qed.

(** The elements from a place in the pattern, behind an escape character or not. *)
Definition parse_at (prevEscape : bool) (n : nat) (cs : list Z) : option (list pelem) :=
  if prevEscape then match cs with [] => None | d :: cs => cons (PLit d) <$> parse n pInfo esc cs end
  else parse n pInfo esc cs.

Section step.
Context (fuel : nat).
Hypothesis IH : forall n z s pe p, c_memory z -> c_memory s -> (length z <= fuel)%nat ->
  (pe = true -> esc <> 0) -> parse_at pe n (chars z) = Some p ->
  exists b, compare_loop fuel pInfo esc z s pe = Some b /\ (b = true <-> matches p (chars s)).

Lemma call_decides n z p : c_memory z -> (length z <= fuel)%nat -> parse n pInfo esc (chars z) = Some p ->
  decides (fun s => compare_loop fuel pInfo esc z s false) p.
Proof. intros Hz Hl Hp s Hs. by apply (IH n). Qed.

Lemma star_correct n z s p : c_memory z -> c_memory s -> (length z <= fuel)%nat -> parse n pInfo esc (chars z) = Some p ->
  exists b, (r ← star_run (S (length z)) pInfo z s;
    match r with
    | None => Some false
    | Some (c, zPattern, zString) =>
        if c =? 0 then Some true
        else if c =? esc then
          '(c, zPattern) ← next_char zPattern;
          if c =? 0 then Some false
          else lit_search (length zString) fold_case (fun s => compare_loop fuel pInfo esc zPattern s false) c zString
        else if c =? matchSet pInfo then
          set_search (length zString) (fun s => compare_loop fuel pInfo esc (c :: zPattern) s false) zString
        else lit_search (length zString) fold_case (fun s => compare_loop fuel pInfo esc zPattern s false) c zString
    end) = Some b /\ (b = true <-> matches (PAny :: p) (chars s)).
Proof.
  intros Hz Hs Hl Hp. destruct info_facts as (Hall0 & Hone0 & Hne & Hset & Hset1 & Hset2 & Hesc).
  destruct (star_run_correct (S (length z)) n z s p Hz Hs ltac:(lia) Hp) as ([[[c z'] s']|] & -> & H); cbn [mbind option_bind].
  2:{ by exists false. }
  destruct H as (n' & p' & Hs' & Hiff & H). setoid_rewrite Hiff.
  destruct H as [[-> ->]|(Hc & Hc1 & Hc2 & Hz' & Hl' & Hp')].
  { exists true. split; [done|]. split; [|done]. intros _. apply matches_any_all. }
  rewrite (proj2 (Z.eqb_neq c 0)) by lia. destruct n' as [|n']; [done|]. cbn [parse] in Hp'.
  rewrite (proj2 (Z.eqb_neq _ _) Hc1), (proj2 (Z.eqb_neq _ _) Hc2) in Hp'. destruct (Z.eqb_spec c esc) as [->|Hce].
  - rewrite (proj2 (Z.eqb_neq esc (matchSet pInfo))) in Hp' by lia. next z' Hz'; [done|].
    apply fmap_Some in Hp' as (p1 & Hp' & ->). rewrite (proj2 (Z.eqb_neq c 0)) by lia.
    apply (lit_search_correct _ p1 c c); [lia|by left| |done|lia]. apply (call_decides n'); [done|lia|done].
  - destruct (Z.eqb_spec c (matchSet pInfo)) as [->|].
    + destruct (chars_back (matchSet pInfo) z' ltac:(lia) Hz') as [Hm Hch].
      apply set_search_correct; [|destruct (parse_set _) as [[[inv items] rest]|]|done|lia].
      * apply (call_decides (S n')); [done|cbn [length]; lia|]. rewrite Hch. cbn [parse].
        by rewrite (proj2 (Z.eqb_neq _ _) Hset1), (proj2 (Z.eqb_neq _ _) Hset2), Z.eqb_refl.
      * apply fmap_Some in Hp' as (p1 & _ & ->). rewrite matches_set. naive_solver.
      * injection Hp' as <-. by inversion 1.
    + apply fmap_Some in Hp' as (p1 & Hp' & ->).
      apply (lit_search_correct _ p1 c c); [lia|by left| |done|lia]. apply (call_decides n'); [done|lia|done].
Qed.
Lemma lit_correct n z s c p : 0 < c -> c_memory z -> c_memory s -> (length z <= fuel)%nat -> parse n pInfo esc (chars z) = Some p ->
  exists b, ('(c2, zString) ← next_char s;
    if negb (fold_case c =? fold_case c2) then Some false else compare_loop fuel pInfo esc z zString false) = Some b /\
    (b = true <-> matches (PLit c :: p) (chars s)).
Proof.
  intros Hc0 Hz Hs Hl Hp. setoid_rewrite matches_lit. next s Hs.
  - exists false. assert (fold_case 0 = 0) as -> by (unfold fold_case; by destruct (noCase pInfo)).
    rewrite (proj2 (Z.eqb_neq (fold_case c) 0)) by by apply fold_nonzero. split; [done|naive_solver].
  - destruct (Z.eqb_spec (fold_case c) (fold_case c0)); cbn [negb]; [|exists false; naive_solver].
    destruct (call_decides n z p Hz Hl Hp z0 Hm) as (b & -> & Hb). exists b. naive_solver.
Qed.

Lemma one_correct n z s p : c_memory z -> c_memory s -> (length z <= fuel)%nat -> parse n pInfo esc (chars z) = Some p ->
  exists b, ('(c2, zString) ← next_char s;
    if c2 =? 0 then Some false else compare_loop fuel pInfo esc z zString false) = Some b /\
    (b = true <-> matches (POne :: p) (chars s)).
Proof.
  intros Hz Hs Hl Hp. setoid_rewrite matches_one. next s Hs; [exists false; naive_solver|].
  rewrite (proj2 (Z.eqb_neq c 0)) by lia.
  destruct (call_decides n z p Hz Hl Hp z0 Hm) as (b & -> & Hb). exists b. naive_solver.
Qed.

Lemma set_correct n z s p : c_memory z -> c_memory s -> (length z <= fuel)%nat ->
  match parse_set (chars z) with
  | Some (inv, items, rest) => cons (PSet inv items) <$> parse n pInfo esc rest
  | None => Some [PNever]
  end = Some p ->
  exists b, (r ← match_set z s;
    match r with
    | None => Some false
    | Some (zPattern, zString) => compare_loop fuel pInfo esc zPattern zString false
    end) = Some b /\ (b = true <-> matches p (chars s)).
Proof.
  intros Hz Hs Hl Hp. pose proof (match_set_correct z s Hz Hs) as H. destruct (parse_set (chars z)) as [[[inv items] rest]|].
  - apply fmap_Some in Hp as (p1 & Hp & ->). setoid_rewrite matches_set.
    destruct (chars s) as [|c t]; [rewrite H; exists false; naive_solver|].
    destruct (xorb _ _) eqn:Ex; [|rewrite H; exists false; naive_solver].
    destruct H as (z' & s' & -> & Hz' & Hs' & -> & -> & Hl'). cbn [mbind option_bind].
    destruct (call_decides n z' p1 Hz' ltac:(lia) Hp s' Hs') as (b & -> & Hb). exists b. naive_solver.
  - injection Hp as <-. exists false. destruct (chars s); rewrite H; (split; [done|]); by rewrite matches_never.
Qed.
End step.

Lemma compare_loop_correct fuel : forall n z s pe p, c_memory z -> c_memory s -> (length z <= fuel)%nat ->
  (pe = true -> esc <> 0) -> parse_at pe n (chars z) = Some p ->
  exists b, compare_loop fuel pInfo esc z s pe = Some b /\ (b = true <-> matches p (chars s)).
Proof.
  destruct info_facts as (Hall0 & Hone0 & Hne & Hset & Hset1 & Hset2 & Hesc).
  induction fuel as [|fuel IH]; intros n z s pe p Hz Hs Hf Hpe Hp.
  { destruct Hz as (? & -> & _). rewrite length_app in Hf. cbn in Hf. lia. }
  cbn [compare_loop]. fold fold_case. next z Hz.
  - destruct pe; [done|]. destruct n; injection Hp as <-; cbn [Z.eqb]; (rewrite c_memory_hd by done);
      (next s Hs; [exists true; by repeat constructor|]); exists false; (split; [by rewrite (proj2 (Z.eqb_neq _ _) Hh)|]); split; by inversion 1.
  - rewrite (proj2 (Z.eqb_neq c 0)) by lia. destruct pe; cbn [parse_at negb] in *; rewrite ?andb_false_r, ?andb_true_r.
    + specialize (Hpe eq_refl). rewrite (proj2 (Z.eqb_neq c (matchSet pInfo))) by lia.
      apply fmap_Some in Hp as (p1 & Hp & ->). apply (lit_correct fuel IH n); done || lia.
    + destruct n as [|n]; [done|]. cbn [parse] in Hp. rewrite (Z.eqb_sym esc).
      destruct (Z.eqb_spec c (matchAll pInfo)) as [->|Hall]; [|destruct (Z.eqb_spec c (matchOne pInfo)) as [->|Hone];
        [|destruct (Z.eqb_spec c (matchSet pInfo)) as [->|Hnset]; [|destruct (Z.eqb_spec c esc) as [->|Hnesc]]]].
      * apply fmap_Some in Hp as (p1 & Hp & ->). apply (star_correct fuel IH n); done || lia.
      * apply fmap_Some in Hp as (p1 & Hp & ->). apply (one_correct fuel IH n); done || lia.
      * apply (set_correct fuel IH n); done || lia.
      * destruct (chars z0) as [|d cs] eqn:Ed; [done|]. apply (IH n); [done|done|lia|by intros _; lia|]. by rewrite Ed.
      * apply fmap_Some in Hp as (p1 & Hp & ->). apply (lit_correct fuel IH n); done || lia.
Qed.
End compare.

Lemma patternCompare_decides zPattern zString pInfo esc n p :
  (pInfo = globInfo /\ esc = 0) \/ pInfo = likeInfoNorm \/ pInfo = likeInfoAlt ->
  c_memory zPattern -> c_memory zString -> parse n pInfo esc (chars zPattern) = Some p ->
  exists b, patternCompare zPattern zString pInfo esc = Some b /\ (b = true <-> matches (fold_case pInfo) p (chars zString)).
Proof. intros Hinfo Hp Hs Hparse. by apply (compare_loop_correct pInfo esc Hinfo _ n). Qed.

(** * The functions of the interface *)

(** An argument of an SQL function as [sqlite3_value_text] and [sqlite3_value_bytes] give it. *)
Record sqlite3_value := { value_text : option (list Z); value_bytes : Z }.

(** What a function leaves in its context: nothing (the result is NULL), an error message or an integer. *)
Inductive sql_result := ResultNull | ResultError (zMsg : string) | ResultInt (n : Z).

(** [limit] is [db->aLimit[SQLITE_LIMIT_LIKE_PATTERN_LENGTH]], [pInfo] the user data of the function. *)
Definition likeFunc (limit : Z) (pInfo : compareInfo) (argv0 argv1 : sqlite3_value) (argv2 : option sqlite3_value) : option sql_result :=
  let zB := value_text argv0 in
  let zA := value_text argv1 in
  let nPat := value_bytes argv0 in
  let compare (escape : Z) :=
    match zA, zB with
    | Some zA, Some zB => r ← patternCompare zB zA pInfo escape; Some (ResultInt (if (r : bool) then 1 else 0))
    | _, _ => Some ResultNull
    end in
  if limit <? nPat then Some (ResultError "LIKE or GLOB pattern too complex")
  else
    match argv2 with
    | None => compare 0
    | Some argv2 =>
        match value_text argv2 with
        | None => Some ResultNull
        | Some zEsc =>
            if negb (sqlite3Utf8CharLen zEsc (-1) =? 1) then Some (ResultError "ESCAPE expression must be a single character")
            else compare (sqlite3Utf8Read zEsc).1
        end
    end.

Lemma charlen_chars fuel : forall z pos r, c_memory z -> (length z <= fuel)%nat ->
  charlen_loop fuel z pos (-1) r = r + Z.of_nat (length (chars z)).
Proof.
  induction fuel as [|fuel IH]; intros z pos r Hz Hf.
  { destruct Hz as (s & -> & _). rewrite length_app in Hf. cbn in Hf. lia. }
  cbn [charlen_loop]. next z Hz; [cbn; lia|]. rewrite (proj2 (Z.eqb_neq _ _) Hh), Hk, IH by (done || lia). cbn [length negb andb Z.ltb orb Z.compare]. lia.
Qed.

Lemma read_single z c : c_memory z -> chars z = [c] -> sqlite3Utf8CharLen z (-1) = 1 /\ (sqlite3Utf8Read z).1 = c.
Proof.
  intros Hz Hc. split; [unfold sqlite3Utf8CharLen; rewrite charlen_chars, Hc by done; done|].
  next z Hz; [done|]. injection Hc as -> _. destruct z; [done|]. cbn in E. by injection E as ->.
Qed.

(** The escape character a call gives: none, or the one character of the third argument. *)
Definition escape_arg (pInfo : compareInfo) (argv2 : option sqlite3_value) (esc : Z) : Prop :=
  match argv2 with
  | None => esc = 0 /\ (pInfo = globInfo \/ pInfo = likeInfoNorm \/ pInfo = likeInfoAlt)
  | Some v => (exists zE, value_text v = Some zE /\ c_memory zE /\ chars zE = [esc]) /\ (pInfo = likeInfoNorm \/ pInfo = likeInfoAlt)
  end.

(** C26. LIKE and GLOB decide the language of the pattern: for a pattern within the limit whose escape characters all escape something, [likeFunc] returns an integer
    (the loops and the recursion of [patternCompare] end, and no byte behind a terminator is read), and the integer is 1 exactly if the
    characters of the string match the elements of the pattern, with letters compared by their lower case forms when the comparison ignores case. *)
Theorem likeFunc_correct limit pInfo zB nPat zA nA argv2 esc n p :
  escape_arg pInfo argv2 esc -> nPat <= limit ->
  c_memory zB -> c_memory zA -> parse n pInfo esc (chars zB) = Some p ->
  exists b, likeFunc limit pInfo {| value_text := Some zB; value_bytes := nPat |} {| value_text := Some zA; value_bytes := nA |} argv2 = Some (ResultInt b) /\
    (b = 1 <-> matches (fold_case pInfo) p (chars zA)) /\ (b = 0 <-> ~ matches (fold_case pInfo) p (chars zA)).
Proof.
  intros He Hl HB HA Hp. unfold likeFunc. cbn [value_text value_bytes]. rewrite (proj2 (Z.ltb_ge limit nPat)) by done.
  assert ((pInfo = globInfo /\ esc = 0) \/ pInfo = likeInfoNorm \/ pInfo = likeInfoAlt) as Hinfo.
  { unfold escape_arg in He. destruct argv2; naive_solver. }
  destruct (patternCompare_decides zB zA pInfo esc n p Hinfo HB HA Hp) as (b & E & Hb).
  exists (if b then 1 else 0). split; [|rewrite <- Hb; by destruct b]. destruct argv2 as [v|].
  - destruct He as ((zE & -> & HE & Hc) & _). destruct (read_single zE esc HE Hc) as [-> ->]. cbn. by rewrite E.
  - destruct He as [-> _]. by rewrite E.
Qed.

Lemma likeFunc_correct_witness :
  let zB := txt "a\%%_Z"%string ++ [0] in
  let zA := txt "A%xyz"%string ++ [0] in
  let zE := txt "\"%string ++ [0] in
  exists b, likeFunc 50000 likeInfoNorm {| value_text := Some zB; value_bytes := 6 |} {| value_text := Some zA; value_bytes := 5 |}
      (Some {| value_text := Some zE; value_bytes := 1 |}) = Some (ResultInt b) /\
    (b = 1 <-> matches GlobUpperToLower [PLit 97; PLit 37; PAny; POne; PLit 90] (chars zA)) /\
    (b = 0 <-> ~ matches GlobUpperToLower [PLit 97; PLit 37; PAny; POne; PLit 90] (chars zA)).
Proof.
  intros zB zA zE. apply (likeFunc_correct 50000 likeInfoNorm zB 6 zA 5 (Some {| value_text := Some zE; value_bytes := 1 |}) 92 6).
  - split; [|by left]. exists zE. split; [done|]. split; [|by vm_compute].
    exists (txt "\"%string). split; [done|]. apply (bool_decide_unpack _). by vm_compute.
  - lia.
  - exists (txt "a\%%_Z"%string). split; [done|]. apply (bool_decide_unpack _). by vm_compute.
  - exists (txt "A%xyz"%string). split; [done|]. apply (bool_decide_unpack _). by vm_compute.
  - by vm_compute.
Defined.

(** * GLOB has no syntax errors *)
Lemma set_body_suffix n : forall prior cs items rest, (length cs <= n)%nat -> set_body prior cs = Some (items, rest) -> rest `suffix_of` cs.
Proof.
  induction n as [|n IH]; intros prior cs items rest Hn; destruct cs as [|c cs]; cbn [set_body length] in *; try (done || lia).
  destruct (c =? 93); [intros [= <- <-]; by apply suffix_cons_r|]. destruct cs as [|d cs]; [done|]. cbn [length] in *.
  destruct (_ && _ && _); intros ([items' rest'] & H & [= <- <-])%bind_Some; apply IH in H; cbn [length]; try lia; auto using suffix_cons_r.
Qed.

Lemma parse_set_suffix cs inv items rest : parse_set cs = Some (inv, items, rest) -> rest `suffix_of` cs.
Proof.
  assert (forall d l, (optional d l).2 `suffix_of` l) as Ho.
  { intros d [|c l]; [done|]. cbn. destruct (c =? d); [by apply suffix_cons_r|done]. }
  unfold parse_set. pose proof (Ho 94 cs). destruct (optional 94 cs) as [i cs1]. pose proof (Ho 93 cs1).
  destruct (optional 93 cs1) as [cl cs2]. cbn [fst snd] in *.
  intros ([items' rest'] & H'%(set_body_suffix (length cs2)) & [= _ _ <-])%bind_Some; [|done].
  etrans; [done|]. by etrans.
Qed.

Lemma parse_glob n : forall cs, (length cs <= n)%nat -> Forall (fun c => c <> 0) cs -> exists p, parse n globInfo 0 cs = Some p.
Proof.
  induction n as [|n IH]; intros [|c cs] Hn Hc; cbn [length parse] in *; [by eexists|lia|by eexists|].
  apply Forall_cons in Hc as [Hc0 Hc]. assert (forall e, exists p, cons e <$> parse n globInfo 0 cs = Some p) as Hcons.
  { intros e. destruct (IH cs ltac:(lia) Hc) as [p ->]. by eexists. }
  rewrite (proj2 (Z.eqb_neq c 0) Hc0). do 2 (destruct (c =? _); [apply Hcons|]). destruct (c =? _); [|apply Hcons].
  destruct (parse_set cs) as [[[inv items] rest]|] eqn:E; [|by eexists].
  pose proof (parse_set_suffix _ _ _ _ E) as Hsuf. pose proof (suffix_length _ _ Hsuf).
  destruct (IH rest ltac:(lia)) as [p ->]; [|by eexists]. destruct Hsuf as [l ->]. by apply Forall_app in Hc as [_ ?].
Qed.

Lemma chars_nonzero n : forall z, (length z <= n)%nat -> c_memory z -> Forall (fun c => c <> 0) (chars z).
Proof.
  induction n as [|n IH]; intros z Hn Hz; next z Hz; cbn [length] in *; try done; [lia|].
  constructor; [lia|]. apply IH; [lia|done].
Qed.

(** [sqlite3_strglob] is total: every GLOB pattern has a meaning, and the result is 0 exactly if the string matches it. *)
Theorem sqlite3_strglob_correct zGlobPattern zString :
  c_memory zGlobPattern -> c_memory zString ->
  exists p r, parse (length (chars zGlobPattern)) globInfo 0 (chars zGlobPattern) = Some p /\
    sqlite3_strglob zGlobPattern zString = Some r /\ (r = 0 <-> matches id p (chars zString)).
Proof.
  intros HP HS. destruct (parse_glob (length (chars zGlobPattern)) (chars zGlobPattern)) as [p Hp]; [done|by apply (chars_nonzero (length zGlobPattern))|].
  destruct (patternCompare_decides zGlobPattern zString globInfo 0 _ p ltac:(by left) HP HS Hp) as (b & E & Hb).
  exists p, (if b then 0 else 1). split; [done|]. unfold sqlite3_strglob. rewrite E. split; [done|].
  change (id : Z -> Z) with (fold_case globInfo). rewrite <- Hb. by destruct b.
Qed.

Lemma sqlite3_strglob_correct_witness :
  let zP := txt "*[^a-c]?"%string ++ [0] in
  let zS := txt "abcdef"%string ++ [0] in
  exists p r, parse (length (chars zP)) globInfo 0 (chars zP) = Some p /\ sqlite3_strglob zP zS = Some r /\ (r = 0 <-> matches id p (chars zS)).
Proof.
  intros zP zS. apply (sqlite3_strglob_correct zP zS).
  - exists (txt "*[^a-c]?"%string). split; [done|]. apply (bool_decide_unpack _). by vm_compute.
  - exists (txt "abcdef"%string). split; [done|]. apply (bool_decide_unpack _). by vm_compute.
Defined.
