(* ===== verification/Locks.v ===== *)
(** POSIX advisory locking of os_unix.c.

    A connection locks the database file through byte-range locks on three regions behind the first gigabyte.
    The operating system keeps one set of locks per process, so the connections of a process share
    a [unixInodeInfo] object, and a file descriptor is not closed while the process has locks.
    The operations are programs over the system calls they make ([Sys]): a program is a tree
    whose nodes are calls and whose branches are the possible answers, so that the calls of several processes can
    be interleaved. The mutex makes each program atomic within its process. *)
From S2P Require Import Prelude.
Local Open Scope Z_scope.
Local Open Scope c_scope.

(** ** Constants *)

Definition NO_LOCK : Z := 0.
Definition SHARED_LOCK : Z := 1.
Definition RESERVED_LOCK : Z := 2.
Definition PENDING_LOCK : Z := 3.
Definition EXCLUSIVE_LOCK : Z := 4.

Definition PENDING_BYTE : Z := 0x40000000.
Definition RESERVED_BYTE : Z := PENDING_BYTE + 1.
Definition SHARED_FIRST : Z := PENDING_BYTE + 2.
Definition SHARED_SIZE : Z := 510.

Definition UNIXFILE_EXCL : Z := 0x01.
Definition UNIXFILE_RDONLY : Z := 0x02.

Definition SQLITE_NOLFS : Z := 22.
Definition SQLITE_IOERR_UNLOCK : Z := SQLITE_IOERR .| (8 << 8).
Definition SQLITE_IOERR_RDLOCK : Z := SQLITE_IOERR .| (9 << 8).
Definition SQLITE_IOERR_CHECKRESERVEDLOCK : Z := SQLITE_IOERR .| (14 << 8).
Definition SQLITE_IOERR_LOCK : Z := SQLITE_IOERR .| (15 << 8).

(** Error numbers, with the values of Linux. *)
Definition EPERM : Z := 1.
Definition EINTR : Z := 4.
Definition EAGAIN : Z := 11.
Definition EACCES : Z := 13.
Definition EBUSY : Z := 16.
Definition ENOLCK : Z := 37.
Definition ETIMEDOUT : Z := 110.
Definition EOVERFLOW : Z := 75.

Definition sqliteErrorFromPosixError (posixError sqliteIOErr : Z) : Z :=
  if (posixError =? EAGAIN) || (posixError =? ETIMEDOUT) || (posixError =? EBUSY) || (posixError =? EINTR)
     || (posixError =? ENOLCK) then SQLITE_BUSY
  else if (posixError =? EACCES)
       && ((sqliteIOErr =? SQLITE_IOERR_LOCK) || (sqliteIOErr =? SQLITE_IOERR_UNLOCK)
           || (sqliteIOErr =? SQLITE_IOERR_RDLOCK) || (sqliteIOErr =? SQLITE_IOERR_CHECKRESERVEDLOCK))
  then SQLITE_BUSY
  else if (posixError =? EACCES) || (posixError =? EPERM) then SQLITE_PERM
  else sqliteIOErr.

(** ** System calls *)

Inductive lock_type := F_RDLCK | F_WRLCK | F_UNLCK.

(** [struct flock] with [l_whence = SEEK_SET]; a zero [l_len] means to the end of the file, however large. *)
Record flock := { l_type : lock_type; l_start : Z; l_len : Z }.

Inductive Sys (A : Type) :=
| Ret (a : A)
| Setlk (l : flock) (k : Z -> Sys A)
| Getlk (l : flock) (k : Z -> lock_type -> Sys A)
| Close (fd : Z) (k : Sys A).
Arguments Ret {A} a.
Arguments Setlk {A} l k.
Arguments Getlk {A} l k.
Arguments Close {A} fd k.

Fixpoint sys_bind {A B} (f : A -> Sys B) (m : Sys A) : Sys B :=
  match m with
  | Ret a => f a
  | Setlk l k => Setlk l (fun e => sys_bind f (k e))
  | Getlk l k => Getlk l (fun e t => sys_bind f (k e t))
  | Close fd k => Close fd (sys_bind f k)
  end.
#[export] Instance sys_ret : MRet Sys := fun A => Ret.
#[export] Instance sys_mbind : MBind Sys := fun A B => sys_bind.

(** [osFcntl(h, F_SETLK, &lock)]: 0, or the error number. *)
Definition osSetlk (l : flock) : Sys Z := Setlk l Ret.
(** [osFcntl(h, F_GETLK, &lock)]: 0 or the error number, and the resulting [l_type]. *)
Definition osGetlk (l : flock) : Sys (Z * lock_type) := Getlk l (fun e t => Ret (e, t)).
Definition robust_close (h : Z) : Sys unit := Close h (Ret tt).

(** ** Objects *)

(** [pUnused] lists file descriptors to close, with the flags they were opened with. *)
Record unixInodeInfo := {
  nShared : Z; i_lock : Z; bProcessLock : Z; nRef : Z; nLock : Z; pUnused : list (Z * Z) }.

(** [f_unused] is the preallocated [UnixUnusedFd]. *)
Record unixFile := { h : Z; f_lock : Z; ctrlFlags : Z; lastErrno : Z; f_unused : Z * Z }.

Definition set_nShared (n : Z) (i : unixInodeInfo) :=
  {| nShared := n; i_lock := i_lock i; bProcessLock := bProcessLock i; nRef := nRef i; nLock := nLock i; pUnused := pUnused i |}.
Definition set_i_lock (v : Z) (i : unixInodeInfo) :=
  {| nShared := nShared i; i_lock := v; bProcessLock := bProcessLock i; nRef := nRef i; nLock := nLock i; pUnused := pUnused i |}.
Definition set_process (i : unixInodeInfo) :=
  {| nShared := nShared i; i_lock := i_lock i; bProcessLock := 1; nRef := nRef i; nLock := nLock i + 1; pUnused := pUnused i |}.
Definition set_nRef (n : Z) (i : unixInodeInfo) :=
  {| nShared := nShared i; i_lock := i_lock i; bProcessLock := bProcessLock i; nRef := n; nLock := nLock i; pUnused := pUnused i |}.
Definition set_nLock (n : Z) (i : unixInodeInfo) :=
  {| nShared := nShared i; i_lock := i_lock i; bProcessLock := bProcessLock i; nRef := nRef i; nLock := n; pUnused := pUnused i |}.
Definition set_pUnused (l : list (Z * Z)) (i : unixInodeInfo) :=
  {| nShared := nShared i; i_lock := i_lock i; bProcessLock := bProcessLock i; nRef := nRef i; nLock := nLock i; pUnused := l |}.

Definition set_f_lock (v : Z) (f : unixFile) :=
  {| h := h f; f_lock := v; ctrlFlags := ctrlFlags f; lastErrno := lastErrno f; f_unused := f_unused f |}.
Definition set_errno (e : Z) (f : unixFile) :=
  {| h := h f; f_lock := f_lock f; ctrlFlags := ctrlFlags f; lastErrno := e; f_unused := f_unused f |}.
Definition set_h (v : Z) (f : unixFile) :=
  {| h := v; f_lock := f_lock f; ctrlFlags := ctrlFlags f; lastErrno := lastErrno f; f_unused := f_unused f |}.

(** ** Operations

    [i] is [*pFile->pInode] and [f] is [*pFile]; a result carries the return code and both objects. *)

Definition unixCheckReservedLock (i : unixInodeInfo) (f : unixFile) : Sys (Z * Z * unixFile) :=
  let reserved := if SHARED_LOCK <? i_lock i then 1 else 0 in
  if (reserved =? 0) && (bProcessLock i =? 0) then
    '(e, t) ← osGetlk {| l_type := F_WRLCK; l_start := RESERVED_BYTE; l_len := 1 |};
    if negb (e =? 0) then mret (SQLITE_IOERR_CHECKRESERVEDLOCK, reserved, set_errno e f)
    else mret (SQLITE_OK, match t with F_UNLCK => reserved | _ => 1 end, f)
  else mret (SQLITE_OK, reserved, f).

Definition unixFileLock (i : unixInodeInfo) (f : unixFile) (l : flock) : Sys (Z * unixInodeInfo) :=
  if (negb (ctrlFlags f .& UNIXFILE_EXCL =? 0) || negb (bProcessLock i =? 0)) && (ctrlFlags f .& UNIXFILE_RDONLY =? 0) then
    if bProcessLock i =? 0 then
      rc ← osSetlk {| l_type := F_WRLCK; l_start := SHARED_FIRST; l_len := SHARED_SIZE |};
      if negb (rc =? 0) then mret (rc, i) else mret (rc, set_process i)
    else mret (0, i)
  else
    rc ← osSetlk l;
    mret (rc, i).

(** [if( rc!=SQLITE_BUSY ){ pFile->lastErrno = tErrno; }] *)
Definition note_errno (rc tErrno : Z) (f : unixFile) : unixFile :=
  if negb (rc =? SQLITE_BUSY) then set_errno tErrno f else f.

(** The branch [eFileLock==SHARED_LOCK], with the read-lock on the pending byte held: [goto end_lock] on failure. *)
Definition unixLock_shared (i : unixInodeInfo) (f : unixFile) : Sys (Z * unixInodeInfo * unixFile) :=
  '(e, i) ← unixFileLock i f {| l_type := F_RDLCK; l_start := SHARED_FIRST; l_len := SHARED_SIZE |};
  let rc := if negb (e =? 0) then sqliteErrorFromPosixError e SQLITE_IOERR_LOCK else SQLITE_OK in
  '(e', i) ← unixFileLock i f {| l_type := F_UNLCK; l_start := PENDING_BYTE; l_len := 1 |};
  let '(rc, tErrno) := if negb (e' =? 0) && (rc =? SQLITE_OK) then (SQLITE_IOERR_UNLOCK, e') else (rc, e) in
  if negb (rc =? 0) then mret (rc, i, note_errno rc tErrno f)
  else
    let f := set_f_lock SHARED_LOCK f in
    let i := set_nLock (nLock i + 1) i in
    let i := set_nShared 1 i in
    mret (SQLITE_OK, set_i_lock SHARED_LOCK i, f).

(** The branch for RESERVED_LOCK and EXCLUSIVE_LOCK. *)
Definition unixLock_write (i : unixInodeInfo) (f : unixFile) (eFileLock : Z) : Sys (Z * unixInodeInfo * unixFile) :=
  '(rc, i, f) ←
    (if (eFileLock =? EXCLUSIVE_LOCK) && (1 <? nShared i) then mret (SQLITE_BUSY, i, f)
     else
       '(e, i) ← unixFileLock i f
         (if eFileLock =? RESERVED_LOCK then {| l_type := F_WRLCK; l_start := RESERVED_BYTE; l_len := 1 |}
          else {| l_type := F_WRLCK; l_start := SHARED_FIRST; l_len := SHARED_SIZE |});
       if negb (e =? 0) then
         let rc := sqliteErrorFromPosixError e SQLITE_IOERR_LOCK in mret (rc, i, note_errno rc e f)
       else mret (SQLITE_OK, i, f));
  if rc =? SQLITE_OK then mret (rc, set_i_lock eFileLock i, set_f_lock eFileLock f)
  else if eFileLock =? EXCLUSIVE_LOCK then mret (rc, set_i_lock PENDING_LOCK i, set_f_lock PENDING_LOCK f)
  else mret (rc, i, f).

Definition unixLock (i : unixInodeInfo) (f : unixFile) (eFileLock : Z) : Sys (Z * unixInodeInfo * unixFile) :=
  if eFileLock <=? f_lock f then mret (SQLITE_OK, i, f)
  else if negb (f_lock f =? i_lock i) && ((PENDING_LOCK <=? i_lock i) || (SHARED_LOCK <? eFileLock))
  then mret (SQLITE_BUSY, i, f)
  else if (eFileLock =? SHARED_LOCK) && ((i_lock i =? SHARED_LOCK) || (i_lock i =? RESERVED_LOCK)) then
    mret (SQLITE_OK, set_nLock (nLock i + 1) (set_nShared (nShared i + 1) i), set_f_lock SHARED_LOCK f)
  else
    '(e, i) ←
      (if (eFileLock =? SHARED_LOCK) || ((eFileLock =? EXCLUSIVE_LOCK) && (f_lock f <? PENDING_LOCK)) then
         unixFileLock i f {| l_type := if eFileLock =? SHARED_LOCK then F_RDLCK else F_WRLCK;
                             l_start := PENDING_BYTE; l_len := 1 |}
       else mret (0, i));
    if negb (e =? 0) then
      let rc := sqliteErrorFromPosixError e SQLITE_IOERR_LOCK in mret (rc, i, note_errno rc e f)
    else if eFileLock =? SHARED_LOCK then unixLock_shared i f
    else unixLock_write i f eFileLock.

Definition setPendingFd (i : unixInodeInfo) (f : unixFile) : unixInodeInfo * unixFile :=
  (set_pUnused (f_unused f :: pUnused i) i, set_h (-1) f).

Fixpoint close_fds (l : list (Z * Z)) : Sys unit :=
  match l with
  | [] => mret tt
  | (fd, _) :: l => robust_close fd;; close_fds l
  end.
Definition closePendingFds (i : unixInodeInfo) : Sys unixInodeInfo :=
  close_fds (pUnused i);; mret (set_pUnused [] i).

(** The part of [posixUnlock] that gives up locks above SHARED; an error code means [goto end_unlock]. *)
Definition posixUnlock_write (i : unixInodeInfo) (f : unixFile) (eFileLock : Z) : Sys (Z * unixInodeInfo * unixFile) :=
  '(e, i) ←
    (if eFileLock =? SHARED_LOCK
     then unixFileLock i f {| l_type := F_RDLCK; l_start := SHARED_FIRST; l_len := SHARED_SIZE |}
     else mret (0, i));
  if negb (e =? 0) then mret (SQLITE_IOERR_RDLOCK, i, set_errno e f)
  else
    '(e, i) ← unixFileLock i f {| l_type := F_UNLCK; l_start := PENDING_BYTE; l_len := 2 |};
    if e =? 0 then mret (SQLITE_OK, set_i_lock SHARED_LOCK i, f)
    else mret (SQLITE_IOERR_UNLOCK, i, set_errno e f).

(** The branch [eFileLock==NO_LOCK]. *)
Definition posixUnlock_none (i : unixInodeInfo) (f : unixFile) : Sys (Z * unixInodeInfo * unixFile) :=
  let i := set_nShared (nShared i - 1) i in
  '(rc, i, f) ←
    (if nShared i =? 0 then
       '(e, i) ← unixFileLock i f {| l_type := F_UNLCK; l_start := 0; l_len := 0 |};
       if e =? 0 then mret (SQLITE_OK, set_i_lock NO_LOCK i, f)
       else mret (SQLITE_IOERR_UNLOCK, set_i_lock NO_LOCK i, set_f_lock NO_LOCK (set_errno e f))
     else mret (SQLITE_OK, i, f));
  let i := set_nLock (nLock i - 1) i in
  i ← (if nLock i =? 0 then closePendingFds i else mret i);
  mret (rc, i, f).

Definition posixUnlock (i : unixInodeInfo) (f : unixFile) (eFileLock : Z) : Sys (Z * unixInodeInfo * unixFile) :=
  if f_lock f <=? eFileLock then mret (SQLITE_OK, i, f)
  else
    '(rc, i, f) ← (if SHARED_LOCK <? f_lock f then posixUnlock_write i f eFileLock else mret (SQLITE_OK, i, f));
    if negb (rc =? SQLITE_OK) then mret (rc, i, f)
    else
      '(rc, i, f) ← (if eFileLock =? NO_LOCK then posixUnlock_none i f else mret (SQLITE_OK, i, f));
      mret (rc, i, if rc =? SQLITE_OK then set_f_lock eFileLock f else f).

Definition unixUnlock (i : unixInodeInfo) (f : unixFile) (eFileLock : Z) : Sys (Z * unixInodeInfo * unixFile) :=
  posixUnlock i f eFileLock.

(** [None] when the object is freed. *)
Definition releaseInodeInfo (i : unixInodeInfo) : Sys (option unixInodeInfo) :=
  let i := set_nRef (nRef i - 1) i in
  if nRef i =? 0 then closePendingFds i;; mret None else mret (Some i).

Definition closeUnixFile (f : unixFile) : Sys unit :=
  if 0 <=? h f then robust_close (h f) else mret tt.

(** The second critical section of [unixClose], which starts by [unixUnlock(id, NO_LOCK)]. *)
Definition unixClose_tail (i : unixInodeInfo) (f : unixFile) : Sys (option unixInodeInfo) :=
  let '(i, f) := if negb (nLock i =? 0) then setPendingFd i f else (i, f) in
  i ← releaseInodeInfo i;
  closeUnixFile f;;
  mret i.

(** [findInodeInfo] on the inode of the database file, for which the process has the object [i] or none. [fstat] is 0 or the error number of that call;
    [alloc] says whether the allocation succeeds. *)
Definition findInodeInfo (fstat : Z) (alloc : bool) (i : option unixInodeInfo) : Z * option unixInodeInfo :=
  if negb (fstat =? 0) then (if fstat =? EOVERFLOW then SQLITE_NOLFS else SQLITE_IOERR, i)
  else
    match i with
    | None =>
        if negb alloc then (SQLITE_NOMEM, None)
        else (SQLITE_OK, Some {| nShared := 0; i_lock := 0; bProcessLock := 0; nRef := 1; nLock := 0; pUnused := [] |})
    | Some i => (SQLITE_OK, Some (set_nRef (nRef i + 1) i))
    end.

(** The part of [fillInUnixFile] that finds the inode object: when that fails the new descriptor is closed. *)
Definition fillInUnixFile (fstat : Z) (alloc : bool) (i : option unixInodeInfo) (h : Z) : Sys (Z * option unixInodeInfo) :=
  let '(rc, i) := findInodeInfo fstat alloc i in
  if negb (rc =? SQLITE_OK) then robust_close h;; mret (rc, i) else mret (rc, i).

(** The first unused descriptor with the given flags leaves the list. *)
Fixpoint take_fd (flags : Z) (l : list (Z * Z)) : option Z * list (Z * Z) :=
  match l with
  | [] => (None, [])
  | (fd, fl) :: l => if fl =? flags then (Some fd, l) else let '(r, l) := take_fd flags l in (r, (fd, fl) :: l)
  end.
Definition findReusableFd (i : option unixInodeInfo) (flags : Z) : option Z * option unixInodeInfo :=
  match i with
  | None => (None, None)
  | Some i => let '(r, l) := take_fd flags (pUnused i) in (r, Some (set_pUnused l i))
  end.
