(* ===== verification/LockSpec.v ===== *)
(** Mutual exclusion of the locking protocol of Locks.v.

    [PosixLocks] states what POSIX promises about record locks. Over any implementation of it, any number of
    processes with any number of connections to one database file run the operations of Locks.v; their system calls
    interleave in any order ([step]). An invariant of the reachable states gives mutual exclusion. *)
From S2P Require Import Prelude Locks.
Local Open Scope Z_scope.
Local Open Scope c_scope.

(** * Record locks *)

#[export] Instance lock_type_eq_dec : EqDecision lock_type.
Proof. solve_decision. Defined.

Inductive mode := Rd | Wr.
#[export] Instance mode_eq_dec : EqDecision mode.
Proof. solve_decision. Defined.

Definition in_range (l : flock) (b : Z) : bool := (l_start l <=? b) && ((l_len l =? 0) || (b <? l_start l + l_len l)).
Definition grant (l : flock) : option mode :=
  match l_type l with F_RDLCK => Some Rd | F_WRLCK => Some Wr | F_UNLCK => None end.

(** The lock on byte [b] of the file that process [p] holds is [held k p b]. Every request can fail, for a conflict or for any other reason, also one that
    gives up locks (on a network mount, or without memory to split a range); a request that fails changes nothing. *)
Class PosixLocks (K : Type) := {
  valid : K -> Prop;
  held : K -> Z -> Z -> option mode;
  setlk : K -> Z -> flock -> Z * K;
  getlk : K -> Z -> flock -> Z * lock_type;
  closefd : K -> Z -> Z -> K;
  valid_setlk k p l : valid k -> valid (setlk k p l).2;
  valid_closefd k p fd : valid k -> valid (closefd k p fd);
  held_excl k p q b : valid k -> p <> q -> held k p b = Some Wr -> held k q b = None;
  setlk_own k p l b : (setlk k p l).1 = 0 -> held (setlk k p l).2 p b = if in_range l b then grant l else held k p b;
  setlk_other k p l q b : q <> p -> held (setlk k p l).2 q b = held k q b;
  setlk_refused k p l b : (setlk k p l).1 <> 0 -> held (setlk k p l).2 p b = held k p b;
  getlk_free k p l q b : getlk k p l = (0, F_UNLCK) -> l_type l = F_WRLCK -> q <> p -> in_range l b = true -> held k q b = None;
  getlk_taken k p l t : getlk k p l = (0, t) -> t <> F_UNLCK ->
    exists q b, q <> p /\ in_range l b = true /\ held k q b <> None;
  closefd_own k p fd b : held (closefd k p fd) p b = None;
  closefd_other k p fd q b : q <> p -> held (closefd k p fd) q b = held k q b }.

(** * Processes *)

Definition Res : Type := Z * option unixInodeInfo * option unixFile.

(** A running operation is on the connection [r_id]; [r_claim] is the lock its client may rely on
    while it runs: the present one for a lock operation, the target for an unlock. *)
Record Run := { r_id : Z; r_claim : Z; r_prog : Sys Res }.
Record Proc := { p_inode : option unixInodeInfo; p_files : gmap Z unixFile; p_run : option Run }.

Inductive call := CLock (e : Z) | CUnlock (e : Z) | CCheck | CClose.

(** The assertions on the order of locks; [unixClose] unlocks first. *)
Definition call_ok (f : unixFile) (c : call) : Prop :=
  match c with
  | CLock e => (e = SHARED_LOCK \/ e = RESERVED_LOCK \/ e = EXCLUSIVE_LOCK) /\ (f_lock f <> NO_LOCK \/ e = SHARED_LOCK)
  | CUnlock e => e = NO_LOCK \/ e = SHARED_LOCK
  | CCheck => True
  | CClose => f_lock f = NO_LOCK
  end.

Definition claim (f : unixFile) (c : call) : Z :=
  match c with
  | CLock _ | CCheck => f_lock f
  | CUnlock e => f_lock f `min` e
  | CClose => NO_LOCK
  end.

Definition program (i : unixInodeInfo) (f : unixFile) (c : call) : Sys Res :=
  match c with
  | CLock e => '(rc, i, f) ← unixLock i f e; mret (rc, Some i, Some f)
  | CUnlock e => '(rc, i, f) ← unixUnlock i f e; mret (rc, Some i, Some f)
  | CCheck => '(rc, _, f) ← unixCheckReservedLock i f; mret (rc, Some i, Some f)
  | CClose => i ← unixClose_tail i f; mret (SQLITE_OK, i, None)
  end.

Definition new_file (fd ctrl flags : Z) : unixFile :=
  {| h := fd; f_lock := NO_LOCK; ctrlFlags := ctrl; lastErrno := 0; f_unused := (fd, flags) |}.

Definition commit (id : Z) (r : Res) (fs : gmap Z unixFile) : gmap Z unixFile :=
  match r.2 with Some f => <[id := f]> fs | None => delete id fs end.

Definition relied (pr : Proc) (id : Z) : Z :=
  match p_files pr !! id, p_run pr with
  | None, _ => NO_LOCK
  | Some f, Some r => if id =? r_id r then r_claim r else f_lock f
  | Some f, None => f_lock f
  end.

(** A connection in the mode unix-excl that can write: unixFileLock then takes one lock for the whole process. *)
Definition whole (ctrl : Z) : bool := negb (ctrl .& UNIXFILE_EXCL =? 0) && (ctrl .& UNIXFILE_RDONLY =? 0).

Section System.
Context {K : Type} `{PL : PosixLocks K}.

Definition State : Type := K * gmap Z Proc.

(** The connections of a process are all in the mode of [whole], or none is. A connection whose descriptor cannot be examined by fstat would close it and drop
    the locks of its process, as a comment in fillInUnixFile says: fstat does not fail here. *)
Inductive step : State -> State -> Prop :=
| step_spawn k ps p :
    ps !! p = None ->
    step (k, ps) (k, <[p := {| p_inode := None; p_files := ∅; p_run := None |}]> ps)
| step_reuse k ps p i fs flags :
    ps !! p = Some {| p_inode := i; p_files := fs; p_run := None |} ->
    step (k, ps) (k, <[p := {| p_inode := (findReusableFd i flags).2; p_files := fs; p_run := None |}]> ps)
| step_open k ps p i fs id fd ctrl flags alloc i' :
    ps !! p = Some {| p_inode := i; p_files := fs; p_run := None |} ->
    fs !! id = None -> (forall id' f, fs !! id' = Some f -> whole (ctrlFlags f) = whole ctrl) ->
    fillInUnixFile 0 alloc i fd = mret (SQLITE_OK, i') ->
    step (k, ps)
      (k, <[p := {| p_inode := i'; p_files := <[id := new_file fd ctrl flags]> fs; p_run := None |}]> ps)
| step_open_fail k ps p i fs fd alloc rc i' :
    ps !! p = Some {| p_inode := i; p_files := fs; p_run := None |} ->
    fillInUnixFile 0 alloc i fd = Close fd (mret (rc, i')) ->
    step (k, ps) (closefd k p fd, <[p := {| p_inode := i'; p_files := fs; p_run := None |}]> ps)
| step_call k ps p i fs id f c :
    ps !! p = Some {| p_inode := Some i; p_files := fs; p_run := None |} ->
    fs !! id = Some f -> call_ok f c ->
    step (k, ps)
      (k, <[p := {| p_inode := Some i; p_files := fs;
                    p_run := Some {| r_id := id; r_claim := claim f c; r_prog := program i f c |} |}]> ps)
| step_setlk k ps p i fs id c l m :
    ps !! p = Some {| p_inode := i; p_files := fs; p_run := Some {| r_id := id; r_claim := c; r_prog := Setlk l m |} |} ->
    step (k, ps)
      ((setlk k p l).2,
       <[p := {| p_inode := i; p_files := fs;
                 p_run := Some {| r_id := id; r_claim := c; r_prog := m (setlk k p l).1 |} |}]> ps)
| step_getlk k ps p i fs id c l m :
    ps !! p = Some {| p_inode := i; p_files := fs; p_run := Some {| r_id := id; r_claim := c; r_prog := Getlk l m |} |} ->
    step (k, ps)
      (k, <[p := {| p_inode := i; p_files := fs;
                    p_run := Some {| r_id := id; r_claim := c; r_prog := m (getlk k p l).1 (getlk k p l).2 |} |}]> ps)
| step_close k ps p i fs id c fd m :
    ps !! p = Some {| p_inode := i; p_files := fs; p_run := Some {| r_id := id; r_claim := c; r_prog := Close fd m |} |} ->
    step (k, ps)
      (closefd k p fd,
       <[p := {| p_inode := i; p_files := fs; p_run := Some {| r_id := id; r_claim := c; r_prog := m |} |}]> ps)
| step_return k ps p i fs id c r :
    ps !! p = Some {| p_inode := i; p_files := fs; p_run := Some {| r_id := id; r_claim := c; r_prog := Ret r |} |} ->
    step (k, ps) (k, <[p := {| p_inode := r.1.2; p_files := commit id r fs; p_run := None |}]> ps)
| step_exit k ps p pr fd :
    ps !! p = Some pr ->
    step (k, ps) (closefd k p fd, delete p ps).

(** At the start no process runs and nothing is locked. *)
Definition start (s : State) : Prop := valid s.1 /\ (forall p b, held s.1 p b = None) /\ s.2 = ∅.

Definition reachable (s : State) : Prop := exists s0, start s0 /\ rtc step s0 s.

(** A file system that refuses a request only for a conflict with another process. *)
Definition prompt : Prop := forall k p l, valid k ->
  l_type l = F_UNLCK \/ (0 < l_len l /\ forall q b, q <> p -> in_range l b = true -> held k q b = None \/ (l_type l = F_RDLCK /\ held k q b = Some Rd)) ->
  (setlk k p l).1 = 0.

(** The lock a client of connection [id] of process [p] may rely on. *)
Definition lock_level (s : State) (p id : Z) : Z :=
  match s.2 !! p with Some pr => relied pr id | None => NO_LOCK end.

End System.

(** * The locks of one process

    A process locks three regions: the pending byte, the reserved byte and the shared range. *)
Definition view : Type := option mode * option mode * option mode * bool.
Abbreviation pend := (fun x : view => x.1.1.1).
Abbreviation resv := (fun x : view => x.1.1.2).
Abbreviation shar := (fun x : view => x.1.2).
Abbreviation none := (None, None, None, false).

Definition shared_byte (b : Z) : Prop := SHARED_FIRST <= b < SHARED_FIRST + SHARED_SIZE.

(** The last part of a view says that no other process has a lock on the shared range: this stays so while the process has a write-lock on that range, or
    a read-lock on it and the write-lock on the pending byte. *)
Definition guards (a s : option mode) : Prop := s = Some Wr \/ (s = Some Rd /\ a = Some Wr).

(** The request treats the shared range as a whole. *)
Definition uniform (l : flock) : Prop := forall b, shared_byte b -> in_range l b = in_range l SHARED_FIRST.
(** A process that has no lock on the shared range gets a read-lock on it only with a lock on the pending byte. *)
Definition entry (l : flock) (x : view) : Prop := in_range l SHARED_FIRST = true -> grant l = Some Rd -> shar x = None -> pend x <> None.

Definition alone (a s : option mode) (o : bool) : bool :=
  match s with Some Wr => true | Some Rd => match a with Some Wr => o | _ => false end | None => false end.
Definition eff (l : flock) (x : view) : view :=
  let a := if in_range l PENDING_BYTE then grant l else pend x in
  let s := if in_range l SHARED_FIRST then grant l else shar x in
  (a, if in_range l RESERVED_BYTE then grant l else resv x, s, alone a s x.2).

(** Requests that only a conflict could refuse. *)
Definition refusable (l : flock) (x : view) : bool :=
  match l_type l with
  | F_UNLCK => false
  | F_WRLCK => true
  | F_RDLCK => negb ((l_start l =? SHARED_FIRST) && (l_len l =? SHARED_SIZE) && bool_decide (shar x <> None))
  end.

Ltac levels := unfold NO_LOCK, SHARED_LOCK, RESERVED_LOCK, PENDING_LOCK, EXCLUSIVE_LOCK in *.

(** The lemmas hold for two kinds of file systems: when [strict] holds, a request fails for a conflict only. *)
Section Strict.
Context (strict : Prop).

(** Every run of a program from the view [x]: [C] holds at each system call and [Q] at the end. *)
Fixpoint wp {A} (m : Sys A) (x : view) (C : view -> Prop) (Q : A -> view -> Prop) : Prop :=
  C x /\
  match m with
  | Ret a => Q a x
  | Setlk l k => uniform l /\ entry l x /\ (forall e, e <> 0 -> (strict -> refusable l x = true) -> wp (k e) x C Q) /\ wp (k 0) (eff l x) C Q
  | Getlk l k => forall e t, wp (k e t) x C Q
  | Close fd k => wp k none C Q
  end.

Lemma sys_ret_bind {A B} (a : A) (f : A -> Sys B) : mret a ≫= f = f a.
Proof. done. Qed.

Lemma wp_here {A} (m : Sys A) x C Q : wp m x C Q -> C x.
Proof. destruct m; by intros [? _]. Qed.

Lemma wp_bind {A B} (m : Sys A) (f : A -> Sys B) C Q x :
  wp m x C (fun a x => wp (f a) x C Q) -> wp (m ≫= f) x C Q.
Proof.
  revert x. induction m as [a|l k IH|l k IH|fd k IH]; intros x; cbn.
  - by intros [_ ?].
  - intros (? & ? & ? & He & H0). split; [done|]. split; [done|]. split; [done|]. split; [|by apply IH].
    intros e ??. by apply IH, He.
  - intros [? H]. split; [done|]. intros e t. by apply IH.
  - intros [? H]. split; [done|]. by apply IH.
Qed.

(** A program that packs up its result. *)
Lemma wp_pack {A B} (m : Sys A) (g : A -> Sys B) C (Q : A -> view -> Prop) (Q' : B -> view -> Prop) x :
  (forall a x, Q a x -> exists b, g a = mret b /\ Q' b x) -> wp m x C Q -> wp (m ≫= g) x C Q'.
Proof.
  intros HQ. revert x. induction m as [a|l k IH|l k IH|fd k IH]; intros x; cbn.
  - intros [HC Ha]. destruct (HQ a x Ha) as (b & -> & Hb). done.
  - intros (? & ? & ? & He & H0). split; [done|]. split; [done|]. split; [done|]. split; [|by apply IH]. intros e ??. by apply IH, He.
  - intros [? H]. split; [done|]. intros e t. by apply IH.
  - intros [? H]. split; [done|]. by apply IH.
Qed.

Lemma wp_mono {A} (m : Sys A) C (Q Q' : A -> view -> Prop) x :
  (forall a x, Q a x -> Q' a x) -> wp m x C Q -> wp m x C Q'.
Proof.
  intros HQ. revert x. induction m as [a|l k IH|l k IH|fd k IH]; intros x; cbn; naive_solver.
Qed.

(** * The invariant of a process *)

(** The locks that go with the level of the inode object. After a request to give up locks has failed there can be more of them: a process without a level
    keeps locks, and one that could not go down from EXCLUSIVE may have a read-lock, the pending byte and nobody beside it. *)
Inductive tab : Z -> view -> Prop :=
| tab_none a s o : a <> Some Wr -> (strict -> a = None /\ s = None) -> tab NO_LOCK (a, None, s, o)
| tab_shared o : tab SHARED_LOCK (None, None, Some Rd, o)
| tab_reserved o : tab RESERVED_LOCK (None, Some Wr, Some Rd, o)
| tab_pending r o : tab PENDING_LOCK (Some Wr, r, Some Rd, o)
| tab_exclusive r m : tab EXCLUSIVE_LOCK (Some Wr, r, Some m, true).

(** One lock for the whole process. *)
Definition one_lock (x : view) : Prop := shar x = Some Wr /\ x.2 = true.
Definition tabs (i : unixInodeInfo) (x : view) : Prop := if bProcessLock i =? 0 then tab (i_lock i) x else one_lock x.

(** The locks that a client relying on level [M] needs. *)
Record backs (M : Z) (x : view) : Prop := {
  ba_shared : SHARED_LOCK <= M -> shar x <> None;
  ba_reserved : M = RESERVED_LOCK -> resv x = Some Wr \/ shar x = Some Wr;
  ba_pending : PENDING_LOCK <= M -> pend x = Some Wr \/ shar x = Some Wr;
  ba_exclusive : M = EXCLUSIVE_LOCK -> x.2 = true }.

(** The levels of the connections of a process whose inode object is at level [M]. *)
Record bounded (lv : Z -> Z) (M : Z) : Prop := {
  bo_le id : 0 <= lv id <= M;
  bo_high id : 2 <= lv id -> lv id = M;
  bo_one id id' : id <> id' -> 2 <= lv id -> lv id' <= 1;
  bo_excl id id' : id <> id' -> lv id = EXCLUSIVE_LOCK -> lv id' = NO_LOCK }.

Definition sharing (f : unixFile) : Z := Z.b2z (1 <=? f_lock f).

Record pok (i : unixInodeInfo) (fs : gmap Z unixFile) : Prop := {
  po_process : bProcessLock i = 0 \/ bProcessLock i = 1;
  po_used : bProcessLock i = 1 -> fs <> ∅;
  po_same id id' f f' : fs !! id = Some f -> fs !! id' = Some f' -> whole (ctrlFlags f) = whole (ctrlFlags f');
  po_whole id f : fs !! id = Some f -> bProcessLock i = 1 -> whole (ctrlFlags f) = true;
  po_idle id f : fs !! id = Some f -> whole (ctrlFlags f) = true -> bProcessLock i = 0 -> i_lock i = NO_LOCK;
  po_le id f : fs !! id = Some f -> 0 <= f_lock f <= i_lock i;
  po_top : 0 <= i_lock i <= EXCLUSIVE_LOCK;
  po_zero : nShared i = 0 -> i_lock i = NO_LOCK;
  po_own : 2 <= i_lock i -> exists id f, fs !! id = Some f /\ f_lock f = i_lock i;
  po_write id id' f f' : fs !! id = Some f -> fs !! id' = Some f' -> id <> id' -> 2 <= f_lock f -> f_lock f' <= 1;
  po_excl : i_lock i = EXCLUSIVE_LOCK -> nShared i = 1;
  po_shared : nShared i = map_sum sharing fs;
  po_nlock : nLock i = nShared i + bProcessLock i;
  po_nref : nRef i = Z.of_nat (size fs) }.

Definition pinv (i : option unixInodeInfo) (fs : gmap Z unixFile) (x : view) : Prop :=
  match i with
  | None => fs = ∅ /\ tab NO_LOCK x
  | Some i => pok i fs /\ tabs i x
  end.

Lemma sharing_nonneg f : 0 <= sharing f.
Proof. unfold sharing. destruct (1 <=? f_lock f); cbn; lia. Qed.

Lemma sharing_locked f : 1 <= f_lock f -> sharing f = 1.
Proof. intros. unfold sharing. by rewrite (proj2 (Z.leb_le _ _)). Qed.
Lemma sharing_unlocked f : f_lock f <= 0 -> sharing f = 0.
Proof. intros. unfold sharing. by rewrite (proj2 (Z.leb_gt _ _)) by lia. Qed.

Lemma tab_backs L x : tab L x -> backs L x.
Proof. destruct 1; levels; split; cbn; intros; (done || lia || by left). Qed.
Lemma backs_one_lock M x : one_lock x -> backs M x.
Proof. intros [E1 E2]. split; intros; [by rewrite E1|by right|by right|done]. Qed.
Lemma tabs_backs i x : tabs i x -> backs (i_lock i) x.
Proof. unfold tabs. destruct (bProcessLock i =? 0); [apply tab_backs|apply backs_one_lock]. Qed.
Lemma tabs_plain i x : bProcessLock i = 0 -> tabs i x <-> tab (i_lock i) x.
Proof. unfold tabs. by intros ->. Qed.
Lemma tabs_held i x : bProcessLock i = 1 -> tabs i x <-> one_lock x.
Proof. unfold tabs. by intros ->. Qed.

(** A level above SHARED belongs to one connection. *)
Lemma pok_high i fs id f : pok i fs -> fs !! id = Some f -> 2 <= f_lock f -> f_lock f = i_lock i.
Proof.
  intros H Hf H2. pose proof (po_le _ _ H _ _ Hf).
  destruct (po_own _ _ H) as (id' & f' & Hf' & E); [lia|].
  destruct (decide (id = id')) as [->|Hne]; [by simplify_eq|].
  pose proof (po_write _ _ H _ _ _ _ Hf Hf' Hne H2). lia.
Qed.

Lemma pok_others_unlocked i fs id f id' f' :
  pok i fs -> fs !! id = Some f -> fs !! id' = Some f' -> id <> id' -> nShared i = 1 -> 1 <= f_lock f -> f_lock f' = 0.
Proof.
  intros H Hf Hf' Hne H1 Hl. rewrite (po_shared _ _ H) in H1.
  pose proof (map_sum_two sharing fs _ _ _ _ sharing_nonneg Hf Hf' Hne) as Hs.
  pose proof (po_le _ _ H _ _ Hf'). rewrite (sharing_locked f) in Hs by done.
  destruct (decide (1 <= f_lock f')); [rewrite (sharing_locked f') in Hs by done|]; lia.
Qed.

Lemma pok_bounded i fs : pok i fs -> bounded (fun id => match fs !! id with Some f => f_lock f | None => 0 end) (i_lock i).
Proof.
  intros H. pose proof (po_top _ _ H).
  split; intros id; [| |intros id'|intros id'].
  - destruct (fs !! id) eqn:E; [by eapply po_le|lia].
  - destruct (fs !! id) eqn:E; [by eapply pok_high|lia].
  - intros Hne. destruct (fs !! id) eqn:E; [|lia]. destruct (fs !! id') eqn:E'; [|lia]. by eapply po_write.
  - intros Hne E4. levels. destruct (fs !! id) eqn:E; [|done]. destruct (fs !! id') eqn:E'; [|done].
    pose proof (pok_high _ _ _ _ H E ltac:(lia)). eapply pok_others_unlocked; [done|exact E|done|done| |lia].
    apply (po_excl _ _ H). levels. lia.
Qed.

Lemma pok_update i fs id f i' f' :
  pok i fs -> fs !! id = Some f ->
  bProcessLock i' = bProcessLock i \/ (bProcessLock i' = 1 /\ whole (ctrlFlags f) = true) -> (bProcessLock i' = 0 -> whole (ctrlFlags f) = true -> i_lock i' = 0) ->
  ctrlFlags f' = ctrlFlags f -> nRef i' = nRef i ->
  nShared i' = nShared i - sharing f + sharing f' -> nLock i' = nShared i' + bProcessLock i' ->
  0 <= f_lock f' <= i_lock i' -> i_lock i' <= 4 ->
  (nShared i' = 0 -> i_lock i' = 0) ->
  (2 <= i_lock i' -> f_lock f' = i_lock i' \/ (i_lock i' = i_lock i /\ f_lock f <= 1)) ->
  (forall id2 f2, id2 <> id -> fs !! id2 = Some f2 -> f_lock f2 <= i_lock i' /\ (2 <= f_lock f' -> f_lock f2 <= 1)) ->
  (i_lock i' = 4 -> nShared i' = 1) ->
  pok i' (<[id := f']> fs).
Proof.
  intros H Hf Hp Hw Hc Hr Hs Hl Hle H4 Hz Hown Hoth Hex.
  assert (forall id2 f2, <[id := f']> fs !! id2 = Some f2 -> whole (ctrlFlags f2) = whole (ctrlFlags f)) as Hsame.
  { intros id2 f2. rewrite lookup_insert_Some. intros [[-> <-]|[? Hf2]]; [by rewrite Hc|by eapply (po_same _ _ H)]. }
  split; levels; try done; try lia.
  - destruct Hp as [->|[-> _]]; [apply H|by right].
  - intros _. apply insert_non_empty.
  - intros id1 id2 f1 f2 H1 H2. by rewrite (Hsame _ _ H1), (Hsame _ _ H2).
  - intros id2 f2 H2 E1. rewrite (Hsame _ _ H2). destruct Hp as [E|[_ E]]; [|done]. rewrite E in E1. by eapply (po_whole _ _ H).
  - intros id2 f2 H2 E1 E2. apply Hw; [done|]. by rewrite <- (Hsame _ _ H2).
  - intros id2 f2. rewrite lookup_insert_Some. intros [[-> <-]|[? Hf2]]; [lia|].
    pose proof (po_le _ _ H _ _ Hf2). destruct (Hoth id2 f2); [done|done|lia].
  - intros H2. destruct (Hown H2) as [E|[E E']]; [exists id, f'; by rewrite lookup_insert_eq|].
    destruct (po_own _ _ H) as (id2 & f2 & Hf2 & E2); [lia|]. exists id2, f2.
    rewrite lookup_insert_ne; [split; [done|lia]|]. intros ->. simplify_eq. lia.
  - intros id1 id2 f1 f2. rewrite !lookup_insert_Some. intros [[-> <-]|[? Hf1]] [[-> <-]|[? Hf2]] Hne H2; [done| | |].
    + by apply (Hoth id2 f2).
    + destruct (decide (2 <= f_lock f')); [|lia]. destruct (Hoth id1 f1) as [_ H1]; [done|done|]. specialize (H1 l). lia.
    + by eapply (po_write _ _ H _ _ _ _ Hf1 Hf2).
  - rewrite (map_sum_update sharing fs id f f' Hf), <- (po_shared _ _ H). lia.
  - rewrite Hr, (po_nref _ _ H), map_size_insert_Some by by exists f. done.
Qed.

(** Outside of the mode [whole] the lock requests go to the operating system; in it there is one request, for the whole process. *)
Lemma unixFileLock_plain i f l :
  bProcessLock i = 0 -> whole (ctrlFlags f) = false -> unixFileLock i f l = Setlk l (fun e => Ret (e, i)).
Proof. unfold whole, unixFileLock. intros -> Hc. rewrite orb_false_r. by rewrite Hc. Qed.
Lemma unixFileLock_held i f l : bProcessLock i = 1 -> whole (ctrlFlags f) = true -> unixFileLock i f l = mret (0, i).
Proof. unfold whole, unixFileLock. intros -> Hc. apply andb_true_iff in Hc as [-> ->]. done. Qed.
Lemma unixFileLock_first i f l : bProcessLock i = 0 -> whole (ctrlFlags f) = true ->
  unixFileLock i f l = (rc ← osSetlk {| l_type := F_WRLCK; l_start := SHARED_FIRST; l_len := SHARED_SIZE |}; if negb (rc =? 0) then mret (rc, i) else mret (rc, set_process i)).
Proof. unfold whole, unixFileLock. intros -> Hc. apply andb_true_iff in Hc as [-> ->]. done. Qed.

Lemma error_not_ok e io : io <> 0 -> sqliteErrorFromPosixError e io <> 0.
Proof.
  intros. unfold sqliteErrorFromPosixError.
  repeat match goal with |- context [if ?c then _ else _] => destruct c end; done.
Qed.

Lemma note_errno_keeps rc e f : f_lock (note_errno rc e f) = f_lock f /\ ctrlFlags (note_errno rc e f) = ctrlFlags f.
Proof. unfold note_errno. by destruct (negb _). Qed.

Lemma uniform_pending n : 0 < n <= 2 -> forall ty, uniform {| l_type := ty; l_start := PENDING_BYTE; l_len := n |}.
Proof.
  intros Hn ty b Hb. unfold in_range, shared_byte, SHARED_FIRST in *. cbn [l_start l_len].
  rewrite (proj2 (Z.eqb_neq n 0)) by lia. cbn. rewrite !(proj2 (Z.ltb_ge _ _)) by lia. by rewrite !andb_false_r.
Qed.
Lemma uniform_reserved ty : uniform {| l_type := ty; l_start := RESERVED_BYTE; l_len := 1 |}.
Proof.
  intros b Hb. unfold in_range, shared_byte, SHARED_FIRST, RESERVED_BYTE in *. cbn [l_start l_len].
  rewrite !(proj2 (Z.ltb_ge _ _)) by lia. by rewrite !andb_false_r.
Qed.
Lemma uniform_shared ty : uniform {| l_type := ty; l_start := SHARED_FIRST; l_len := SHARED_SIZE |}.
Proof.
  intros b Hb. unfold in_range, shared_byte, SHARED_SIZE in *. cbn [l_start l_len].
  rewrite !(proj2 (Z.leb_le _ _)), !(proj2 (Z.ltb_lt _ _)) by lia. done.
Qed.
Lemma uniform_all ty : uniform {| l_type := ty; l_start := 0; l_len := 0 |}.
Proof.
  intros b Hb. unfold in_range, shared_byte, SHARED_FIRST, PENDING_BYTE in *. cbn [l_start l_len].
  by rewrite (proj2 (Z.leb_le _ _)) by lia.
Qed.
Create HintDb locks.
#[local] Hint Resolve uniform_pending uniform_reserved uniform_shared uniform_all : locks.

(** A program that makes one request and looks at the answer. *)
Lemma wp_setlk {B} l (k : Z -> Sys B) x C Q :
  C x -> uniform l -> entry l x -> (forall e, e <> 0 -> (strict -> refusable l x = true) -> wp (k e) x C Q) -> wp (k 0) (eff l x) C Q ->
  wp (Setlk l k) x C Q.
Proof. by split. Qed.

Lemma backs_none x : backs 0 x.
Proof. split; levels; intros; lia. Qed.
Lemma backs_low M (x : view) : M <= 1 -> shar x <> None -> backs M x.
Proof. split; levels; intros; done || lia. Qed.
#[local] Hint Resolve backs_none backs_low tab_backs tabs_backs backs_one_lock : locks.

Lemma entry_write l x : l_type l <> F_RDLCK -> entry l x.
Proof. unfold entry, grant. by destruct (l_type l). Qed.
Lemma entry_pending ty x : entry {| l_type := ty; l_start := PENDING_BYTE; l_len := 1 |} x.
Proof. by intros ?. Qed.
Lemma entry_guarded l x : pend x <> None \/ shar x <> None -> entry l x.
Proof. by intros [?|?] ???. Qed.

Definition settled (fs : gmap Z unixFile) (id : Z) (r : Z * unixInodeInfo * unixFile) (x : view) : Prop :=
  pok r.1.2 (<[id := r.2]> fs) /\ tabs r.1.2 x.

Lemma tab_view L x : tab L x ->
  (L = 1 -> exists o, x = (None, None, Some Rd, o)) /\ (L = 2 -> exists o, x = (None, Some Wr, Some Rd, o)) /\
  (L = 3 -> exists r o, x = (Some Wr, r, Some Rd, o)) /\
  (L = 0 -> exists a s o, x = (a, None, s, o) /\ a <> Some Wr /\ (strict -> a = None /\ s = None)).
Proof. destruct 1; levels; naive_solver lia. Qed.

(** A process that could only take a part of its way down. *)
Lemma tab_downgrade L x :
  2 <= L -> tab L x -> tab L (eff {| l_type := F_RDLCK; l_start := SHARED_FIRST; l_len := SHARED_SIZE |} x).
Proof. intros HL Ht. destruct Ht; levels; try lia; constructor. Qed.

Lemma none_tab : tab NO_LOCK none.
Proof. by constructor. Qed.

Section Operations.
Context (i : unixInodeInfo) (f : unixFile) (fs : gmap Z unixFile) (id : Z).
Context (Hok : pok i fs) (Hf : fs !! id = Some f).

(** A process with a lock is not about to make its first request. *)
Lemma pok_mode : 1 <= i_lock i -> bProcessLock i = 1 \/ (bProcessLock i = 0 /\ whole (ctrlFlags f) = false).
Proof.
  intros H1. destruct (po_process _ _ Hok) as [E|E]; [right|by left]. split; [done|].
  destruct (whole _) eqn:Ew; [|done]. pose proof (po_idle _ _ Hok _ _ Hf Ew E). levels. lia.
Qed.

Lemma pok_same f' : f_lock f' = f_lock f -> ctrlFlags f' = ctrlFlags f -> pok i (<[id := f']> fs).
Proof.
  intros E Ec. pose proof (po_le _ _ Hok _ _ Hf). pose proof (po_top _ _ Hok). levels.
  eapply pok_update; [exact Hok|exact Hf|by left| |done|done| |by apply Hok|lia|lia|by apply Hok| | |by apply Hok].
  - intros ??. by eapply (po_idle _ _ Hok).
  - unfold sharing. rewrite E. lia.
  - intros H2. destruct (decide (2 <= f_lock f)); [left|right; lia].
    rewrite E. by eapply pok_high.
  - intros id2 f2 Hne Hf2. rewrite E. split; [by eapply (po_le _ _ Hok)|by apply (po_write _ _ Hok id id2)].
Qed.

Lemma settled_same rc f' x :
  f_lock f' = f_lock f -> ctrlFlags f' = ctrlFlags f -> tabs i x -> settled fs id (rc, i, f') x.
Proof. intros. split; [by apply pok_same|done]. Qed.

(** When no connection of the process has a lock. *)
Lemma pok_unshared : i_lock i = 0 -> nShared i = 0.
Proof.
  intros Ei. rewrite (po_shared _ _ Hok). apply map_sum_zero. intros id2 f2 Hf2. apply sharing_unlocked.
  pose proof (po_le _ _ Hok _ _ Hf2). lia.
Qed.
Lemma pok_first_shared :
  f_lock f = 0 -> i_lock i = 0 -> bProcessLock i = 1 \/ whole (ctrlFlags f) = false ->
  pok (set_i_lock SHARED_LOCK (set_nShared 1 (set_nLock (nLock i + 1) i))) (<[id := set_f_lock SHARED_LOCK f]> fs).
Proof.
  intros E0 Ei Hm. pose proof (po_nlock _ _ Hok). pose proof (pok_unshared Ei) as Hs.
  eapply pok_update; [exact Hok|exact Hf|by left| |done|done| | |cbn; levels; lia..| |cbn; levels; lia].
  - cbn. destruct Hm as [-> | ->]; done.
  - rewrite (sharing_unlocked f), (sharing_locked (set_f_lock _ f)) by (cbn; levels; lia). cbn. lia.
  - cbn. lia.
  - intros id2 f2 Hne Hf2. pose proof (po_le _ _ Hok _ _ Hf2). cbn. levels. lia.
Qed.

(** The one request of a process in the mode [whole] was granted. *)
Lemma pok_whole : i_lock i = 0 -> bProcessLock i = 0 -> whole (ctrlFlags f) = true -> pok (set_process i) fs.
Proof.
  intros Ei Eb Ew. rewrite <- (insert_id fs id f Hf). pose proof (po_le _ _ Hok _ _ Hf). pose proof (po_nlock _ _ Hok).
  eapply pok_update; [exact Hok|exact Hf|by right|done|done|done| | |cbn; lia..| |cbn; lia].
  - cbn. lia.
  - cbn. lia.
  - intros id2 f2 Hne Hf2. pose proof (po_le _ _ Hok _ _ Hf2). cbn. lia.
Qed.

Lemma shared_positive : 1 <= f_lock f -> 1 <= nShared i.
Proof.
  intros. rewrite (po_shared _ _ Hok), <- (sharing_locked f) by done.
  apply (map_sum_one sharing fs id); [apply sharing_nonneg|done].
Qed.

Lemma pok_raise L f' :
  2 <= L <= 4 -> f_lock f = i_lock i -> 1 <= f_lock f -> (L = 4 -> nShared i = 1) -> ctrlFlags f' = ctrlFlags f ->
  pok (set_i_lock L i) (<[id := set_f_lock L f']> fs).
Proof.
  intros HL E H1 H4 Ec. pose proof (shared_positive H1).
  eapply pok_update; [exact Hok|exact Hf|by left| |done|done| |by apply Hok|cbn; lia..| |done].
  - cbn. destruct pok_mode as [-> | [_ ->]]; [lia|done|done].
  - rewrite (sharing_locked f), (sharing_locked (set_f_lock L f')) by (cbn; lia). cbn. lia.
  - intros id2 f2 Hne Hf2. pose proof (po_le _ _ Hok _ _ Hf2). pose proof (po_top _ _ Hok). levels. cbn.
    destruct (decide (2 <= f_lock f)); [|lia]. pose proof (po_write _ _ Hok _ _ _ _ Hf Hf2 ltac:(done)). lia.
Qed.

Lemma pok_join_shared :
  f_lock f = 0 -> i_lock i = SHARED_LOCK \/ i_lock i = RESERVED_LOCK ->
  pok (set_nLock (nLock i + 1) (set_nShared (nShared i + 1) i)) (<[id := set_f_lock SHARED_LOCK f]> fs).
Proof.
  intros E0 Ei. pose proof (po_nlock _ _ Hok). pose proof (map_sum_nonneg sharing fs sharing_nonneg) as Hn.
  rewrite <- (po_shared _ _ Hok) in Hn. levels.
  eapply pok_update; [exact Hok|exact Hf|by left| |done|done| |cbn; lia..| |cbn; lia].
  - cbn. destruct pok_mode as [-> | [_ ->]]; [lia|done|done].
  - rewrite (sharing_unlocked f), (sharing_locked (set_f_lock _ f)) by (cbn; lia). cbn. lia.
  - intros id2 f2 Hne Hf2. pose proof (po_le _ _ Hok _ _ Hf2). cbn. lia.
Qed.

(** What remains of [unixLock] after its tests: the requests. *)
Definition unixLock_requests (e : Z) : Sys (Z * unixInodeInfo * unixFile) :=
  '(e', i) ←
    (if (e =? SHARED_LOCK) || ((e =? EXCLUSIVE_LOCK) && (f_lock f <? PENDING_LOCK)) then
       unixFileLock i f {| l_type := if e =? SHARED_LOCK then F_RDLCK else F_WRLCK; l_start := PENDING_BYTE; l_len := 1 |}
     else mret (0, i));
  if negb (e' =? 0) then
    let rc := sqliteErrorFromPosixError e' SQLITE_IOERR_LOCK in mret (rc, i, note_errno rc e' f)
  else if e =? SHARED_LOCK then unixLock_shared i f
  else unixLock_write i f e.

Definition raises (e : Z) : Prop :=
  (e = SHARED_LOCK /\ i_lock i = 0) \/ (e = RESERVED_LOCK /\ i_lock i = 1) \/ (e = EXCLUSIVE_LOCK /\ 1 <= i_lock i <= 3).

Lemma unixLock_cases e x :
  call_ok f (CLock e) -> tabs i x ->
  (f_lock f = i_lock i -> raises e -> wp (unixLock_requests e) x (backs (i_lock i)) (settled fs id)) ->
  wp (unixLock i f e) x (backs (i_lock i)) (settled fs id).
Proof.
  intros [He Hseq] Ht Hk. unfold unixLock. pose proof (po_le _ _ Hok _ _ Hf). pose proof (po_top _ _ Hok).
  destruct (Z.leb_spec e (f_lock f)); [split; [auto with locks|by apply settled_same]|].
  destruct (negb (f_lock f =? i_lock i) && _) eqn:Ebusy; [split; [auto with locks|by apply settled_same]|].
  destruct ((e =? SHARED_LOCK) && _) eqn:Ejoin.
  { apply andb_true_iff in Ejoin as [E1%Z.eqb_eq Ej]. subst e. apply orb_true_iff in Ej. rewrite !Z.eqb_eq in Ej.
    split; [auto with locks|]. split; [apply pok_join_shared; levels; done || lia|done]. }
  apply andb_false_iff in Ebusy. rewrite negb_false_iff, orb_false_iff, Z.eqb_eq, Z.leb_gt, Z.ltb_ge in Ebusy.
  apply andb_false_iff in Ejoin. rewrite orb_false_iff, !Z.eqb_neq in Ejoin.
  apply Hk; unfold raises; levels; lia.
Qed.

(** ** A process with one lock makes no requests *)

Section Held.
Context (Hb : bProcessLock i = 1).

Lemma held_lock l : unixFileLock i f l = mret (0, i).
Proof. apply unixFileLock_held; [done|by eapply po_whole]. Qed.

Lemma unixLock_shared_held C x :
  f_lock f = 0 -> i_lock i = 0 -> one_lock x -> C x -> wp (unixLock_shared i f) x C (settled fs id).
Proof.
  intros E0 Ei Hx HC. unfold unixLock_shared. rewrite !held_lock, !sys_ret_bind. cbn -[set_i_lock set_nLock set_nShared].
  rewrite held_lock, sys_ret_bind. split; [done|]. split; [apply pok_first_shared; auto|]. by apply tabs_held.
Qed.

Lemma unixLock_write_held e x :
  f_lock f = i_lock i -> 1 <= f_lock f -> e = RESERVED_LOCK \/ e = EXCLUSIVE_LOCK -> one_lock x ->
  wp (unixLock_write i f e) x (backs (i_lock i)) (settled fs id).
Proof.
  intros E H1 He Hx. pose proof (shared_positive H1). apply wp_bind. rewrite held_lock, sys_ret_bind.
  destruct ((e =? EXCLUSIVE_LOCK) && (1 <? nShared i)) eqn:Eb; (split; [auto with locks|]); cbn [Z.eqb].
  - apply andb_true_iff in Eb as [->%Z.eqb_eq _]. split; [auto with locks|].
    split; [apply pok_raise; levels; done || lia|by apply tabs_held].
  - split; [auto with locks|]. apply andb_false_iff in Eb. rewrite Z.eqb_neq, Z.ltb_ge in Eb.
    split; [apply pok_raise; levels; done || lia|by apply tabs_held].
Qed.

Lemma unixLock_held e x :
  call_ok f (CLock e) -> one_lock x -> wp (unixLock i f e) x (backs (i_lock i)) (settled fs id).
Proof.
  intros Hc Hx. apply unixLock_cases; [done|by apply tabs_held|]. intros Efi Hr. unfold unixLock_requests. rewrite held_lock.
  assert (forall b : bool, (if b then mret (0, i) else mret (0, i)) = mret (M := Sys) (0, i)) as -> by by intros [].
  rewrite sys_ret_bind. cbn [negb Z.eqb]. destruct (Z.eqb_spec e SHARED_LOCK) as [->|Hns].
  - apply unixLock_shared_held; unfold raises in *; levels; auto with locks; lia.
  - apply unixLock_write_held; unfold raises in *; levels; done || lia.
Qed.
End Held.

(** ** A process that locks byte ranges *)

Section Plain.
Context (Hb : bProcessLock i = 0) (Hw : whole (ctrlFlags f) = false).

Lemma plain_lock l : unixFileLock i f l = Setlk l (fun e => Ret (e, i)).
Proof. by apply unixFileLock_plain. Qed.

Lemma settled_plain rc f' x :
  f_lock f' = f_lock f -> ctrlFlags f' = ctrlFlags f -> tab (i_lock i) x -> settled fs id (rc, i, f') x.
Proof. intros. apply settled_same; [done..|]. by apply tabs_plain. Qed.

Lemma unixLock_shared_wp s o :
  f_lock f = 0 -> i_lock i = 0 -> (strict -> s = None) ->
  wp (unixLock_shared i f) (Some Rd, None, s, o) (backs 0) (settled fs id).
Proof.
  intros E0 Ei Hs. unfold unixLock_shared. rewrite plain_lock. cbn [mbind sys_mbind sys_bind].
  apply wp_setlk; auto with locks; [by apply entry_guarded; left| |].
  - intros e He _. rewrite plain_lock. cbn [mbind sys_mbind sys_bind].
    apply wp_setlk; [auto with locks|apply uniform_pending; lia|by apply entry_write|intros e' He' Hst|].
    all: rewrite (proj2 (Z.eqb_neq e 0)) by done; cbn [negb andb Z.eqb];
      rewrite (proj2 (Z.eqb_neq (sqliteErrorFromPosixError _ _) _)), ?andb_false_r, ?(proj2 (Z.eqb_neq (sqliteErrorFromPosixError _ _) 0)) by by apply error_not_ok.
    all: (split; [auto with locks|]); apply settled_plain; [apply note_errno_keeps..|]; rewrite Ei; constructor; try done; intros Hstr.
    + by specialize (Hst Hstr).
    + by rewrite Hs.
  - rewrite plain_lock. cbn [mbind sys_mbind sys_bind].
    apply wp_setlk; [auto with locks|apply uniform_pending; lia|by apply entry_write|intros e' He' Hst|].
    + rewrite (proj2 (Z.eqb_neq e' 0)) by done. cbn [negb andb Z.eqb]. split; [auto with locks|].
      apply settled_plain; [apply note_errno_keeps..|]. rewrite Ei. constructor; [done|]. intros Hstr. by specialize (Hst Hstr).
    + split; [auto with locks|]. split; cbn; [apply pok_first_shared; auto|]. apply tabs_plain; [done|]. constructor.
Qed.

Lemma unixLock_write_wp e x :
  f_lock f = i_lock i -> 1 <= f_lock f ->
  (e = RESERVED_LOCK /\ exists o, x = (None, None, Some Rd, o)) \/ (e = EXCLUSIVE_LOCK /\ exists r o, x = (Some Wr, r, Some Rd, o)) ->
  backs (i_lock i) x -> tab (i_lock i) x \/ e = EXCLUSIVE_LOCK -> i_lock i < 4 ->
  wp (unixLock_write i f e) x (backs (i_lock i)) (settled fs id).
Proof.
  intros E H1 Hx HC Ht H4. apply wp_bind.
  assert (forall g, f_lock g = f_lock f -> ctrlFlags g = ctrlFlags f -> forall rc, rc <> 0 ->
    wp (if rc =? SQLITE_OK then mret (rc, set_i_lock e i, set_f_lock e g)
        else if e =? EXCLUSIVE_LOCK then mret (rc, set_i_lock PENDING_LOCK i, set_f_lock PENDING_LOCK g)
        else mret (rc, i, g)) x (backs (i_lock i)) (settled fs id)) as Hfail.
  { intros g Eg Ec rc Hrc. unfold SQLITE_OK. rewrite (proj2 (Z.eqb_neq rc 0)) by done.
    destruct Hx as [[-> [o ->]]|[-> (r & o & ->)]]; (split; [done|]).
    - apply settled_plain; [done..|]. by destruct Ht.
    - split; [apply pok_raise; levels; done || lia|]. apply tabs_plain; [done|]. constructor. }
  destruct ((e =? EXCLUSIVE_LOCK) && (1 <? nShared i)) eqn:Ebusy; [by split; [|apply (Hfail f)]|].
  rewrite plain_lock. cbn [mbind sys_mbind sys_bind].
  apply wp_setlk; [done|destruct (e =? RESERVED_LOCK); auto with locks|apply entry_write; by destruct (e =? RESERVED_LOCK)| |].
  - intros er Her _. rewrite (proj2 (Z.eqb_neq er 0)) by done. split; [done|].
    apply Hfail; [apply note_errno_keeps..|by apply error_not_ok].
  - destruct Hx as [[-> [o ->]]|[-> (r & o & ->)]].
    + change (eff _ _) with (None : option mode, Some Wr, Some Rd, false).
      assert (backs (i_lock i) (None, Some Wr, Some Rd, false)) by (destruct HC; split; levels; cbn in *; intros; auto; lia).
      split; [done|]. split; [done|]. split; [apply pok_raise; levels; done || lia|]. apply tabs_plain; [done|apply tab_reserved].
    + assert (nShared i = 1) by (pose proof (shared_positive H1); apply andb_false_iff in Ebusy as [?|?%Z.ltb_ge]; [done|lia]).
      assert (backs (i_lock i) (Some Wr, r, Some Wr, true)) by (split; levels; cbn in *; intros; auto; lia).
      change (eff _ _) with (Some Wr, r, Some Wr, true).
      split; [done|]. split; [done|]. split; [apply pok_raise; levels; done || lia|]. apply tabs_plain; [done|apply tab_exclusive].
Qed.

(** A request that leaves everything as it is when it is refused. *)
Lemma wp_request l x Q :
  tab (i_lock i) x -> uniform l -> entry l x -> wp (Q i) (eff l x) (backs (i_lock i)) (settled fs id) ->
  wp ('(e, i) ← unixFileLock i f l;
      if negb (e =? 0) then
        let rc := sqliteErrorFromPosixError e SQLITE_IOERR_LOCK in mret (rc, i, note_errno rc e f)
      else Q i) x (backs (i_lock i)) (settled fs id).
Proof.
  intros Ht Hu He HQ. rewrite plain_lock. cbn [mbind sys_mbind sys_bind].
  apply wp_setlk; [auto with locks|done|done| |exact HQ].
  intros e Hne _. rewrite (proj2 (Z.eqb_neq e 0)) by done. split; [auto with locks|].
  by apply settled_plain; [apply note_errno_keeps..|].
Qed.

Lemma unixLock_plain e x :
  call_ok f (CLock e) -> tab (i_lock i) x -> wp (unixLock i f e) x (backs (i_lock i)) (settled fs id).
Proof.
  intros Hc Ht. destruct (tab_view _ _ Ht) as (V1 & V2 & V3 & V0). apply unixLock_cases; [done|by apply tabs_plain|].
  intros Efi Hr. unfold unixLock_requests. destruct Hr as [[-> Ei]|[[-> Ei]|[-> Ei]]].
  - apply (wp_request _ _ (fun i => unixLock_shared i f)); [done|apply uniform_pending; lia|apply entry_pending|].
    destruct (V0 Ei) as (a & s & o & -> & Ha & Hs). rewrite Ei.
    change (eff _ _) with (Some Rd, None : option mode, s, alone (Some Rd) s o). apply unixLock_shared_wp; [lia|done|naive_solver].
  - apply unixLock_write_wp; [levels; lia..| |auto with locks|by left|lia]. left. auto.
  - assert (forall r o, backs (i_lock i) (Some Wr, r, Some Rd, o) ->
      wp (unixLock_write i f EXCLUSIVE_LOCK) (Some Wr, r, Some Rd, o) (backs (i_lock i)) (settled fs id)) as Hwr.
    { intros r o Hr. apply unixLock_write_wp; [done|lia|right; split; [done|by exists r, o]|done|by right|lia]. }
    change (EXCLUSIVE_LOCK =? SHARED_LOCK) with false. change (EXCLUSIVE_LOCK =? EXCLUSIVE_LOCK) with true. cbn [orb andb].
    destruct (Z.ltb_spec (f_lock f) PENDING_LOCK).
    + apply (wp_request _ _ (fun i => unixLock_write i f EXCLUSIVE_LOCK)); [done|apply uniform_pending; lia|apply entry_pending|].
      destruct (decide (i_lock i = 1)) as [E1|E1]; [destruct (V1 E1) as [o ->]|destruct V2 as [o ->]; [levels; lia|]]; apply Hwr.
      all: split; levels; cbn; intros; try done; try lia; by left.
    + destruct V3 as (r & o & ->); [levels; lia|]. apply Hwr. auto with locks.
Qed.

(** The two outcomes of giving up the locks above SHARED. *)
Lemma posixUnlock_write_wp e M x :
  M <= 1 -> 2 <= i_lock i -> tab (i_lock i) x ->
  wp (posixUnlock_write i f e) x (backs M)
    (fun r x' =>
       (r = (SQLITE_OK, set_i_lock SHARED_LOCK i, f) /\ exists o, x' = (None, None, if e =? SHARED_LOCK then Some Rd else shar x, o)) \/
       (exists rc f', r = (rc, i, f') /\ rc <> 0 /\ f_lock f' = f_lock f /\ ctrlFlags f' = ctrlFlags f /\ tab (i_lock i) x')).
Proof.
  intros HM HL Ht. assert (forall y, tab (i_lock i) y -> backs M y) as HC.
  { intros y Hy. apply backs_low; [done|]. apply tab_backs in Hy as [Hs _ _ _]. apply Hs. levels. lia. }
  unfold posixUnlock_write. destruct (e =? SHARED_LOCK); [rewrite plain_lock|]; cbn [mbind sys_mbind sys_bind].
  - apply wp_setlk; [auto|auto with locks| | |].
    { apply entry_guarded. right. apply tab_backs in Ht as [Hs _ _ _]. apply Hs. levels. lia. }
    { intros er Her _. rewrite (proj2 (Z.eqb_neq er 0)) by done. split; [auto|]. right. by repeat eexists. }
    cbn [negb Z.eqb]. rewrite plain_lock. cbn [mbind sys_mbind sys_bind]. pose proof (tab_downgrade _ _ HL Ht) as Ht'.
    apply wp_setlk; [auto|apply uniform_pending; lia|by apply entry_write| |].
    { intros er Her _. rewrite (proj2 (Z.eqb_neq er 0)) by done. split; [auto|]. right. by repeat eexists. }
    split; [by apply backs_low|]. left. split; [done|]. by eexists.
  - rewrite sys_ret_bind. cbn [negb Z.eqb]. rewrite plain_lock. cbn [mbind sys_mbind sys_bind].
    apply wp_setlk; [auto|apply uniform_pending; lia|by apply entry_write| |].
    { intros er Her _. rewrite (proj2 (Z.eqb_neq er 0)) by done. split; [auto|]. right. by repeat eexists. }
    split; [|left; split; [done|by eexists]]. apply backs_low; [done|].
    apply tab_backs in Ht as [Hs _ _ _]. apply Hs. levels. lia.
Qed.
End Plain.

End Operations.

(** The first request of a process in the mode [whole]. *)
Lemma unixLock_first i f fs id e x :
  pok i fs -> fs !! id = Some f -> bProcessLock i = 0 -> whole (ctrlFlags f) = true -> call_ok f (CLock e) -> tab (i_lock i) x ->
  wp (unixLock i f e) x (backs (i_lock i)) (settled fs id).
Proof.
  intros Hok Hf Eb Ew Hc Ht. pose proof (po_idle _ _ Hok _ _ Hf Ew Eb) as Ei. pose proof (pok_whole _ _ _ _ Hok Hf Ei Eb Ew) as Hok'.
  apply unixLock_cases; [done..|by apply tabs_plain|]. intros Efi Hr. unfold unixLock_requests, raises in *. levels.
  assert (e = 1) as -> by lia. cbn [Z.eqb Pos.eqb orb]. rewrite unixFileLock_first by done. cbn [mbind sys_mbind sys_bind osSetlk].
  rewrite Ei. apply wp_setlk; [auto with locks|auto with locks|by apply entry_write| |].
  - intros er Her _. rewrite (proj2 (Z.eqb_neq er 0)) by done. cbn [negb]. rewrite sys_ret_bind, (proj2 (Z.eqb_neq er 0)) by done.
    split; [auto with locks|]. eapply settled_same; [done|done|apply note_errno_keeps|apply note_errno_keeps|]. apply tabs_plain; [done|]. by rewrite Ei in *.
  - cbn [negb Z.eqb]. rewrite sys_ret_bind. cbn [negb Z.eqb]. apply (unixLock_shared_held (set_process i) f fs id Hok' Hf); cbn; auto with locks; by rewrite Efi || done.
Qed.

Lemma unixLock_wp i f fs id e x :
  pok i fs -> fs !! id = Some f -> call_ok f (CLock e) -> tabs i x -> wp (unixLock i f e) x (backs (i_lock i)) (settled fs id).
Proof.
  intros Hok Hf Hc Ht. destruct (po_process _ _ Hok) as [Hb|Hb].
  - apply tabs_plain in Ht; [|done]. destruct (whole (ctrlFlags f)) eqn:Ew; [by apply unixLock_first|by apply unixLock_plain].
  - apply tabs_held in Ht; [|done]. by apply unixLock_held.
Qed.


(** ** Unlocking *)

(** The level a client can rely on while the connection is being unlocked. *)
Definition lowered (i : unixInodeInfo) (f : unixFile) (e : Z) : Z :=
  if f_lock f <=? e then i_lock i
  else if 2 <=? f_lock f then (if (e =? SHARED_LOCK) || (1 <? nShared i) then 1 else 0)
  else if nShared i =? 1 then 0 else i_lock i.

Lemma close_fds_wp l x Q : (l = [] -> Q tt x) -> (l <> [] -> Q tt none) -> wp (close_fds l) x (backs 0) Q.
Proof.
  revert x. induction l as [|[fd fl] l IH]; intros x H1 H2; [split; [auto with locks|by apply H1]|].
  split; [auto with locks|]. apply IH; intros; by apply H2.
Qed.

Lemma closePendingFds_wp i x Q :
  (pUnused i = [] -> Q (set_pUnused [] i) x) -> (pUnused i <> [] -> Q (set_pUnused [] i) none) -> wp (closePendingFds i) x (backs 0) Q.
Proof. intros H1 H2. apply wp_bind, close_fds_wp; intros; (split; [auto with locks|auto]). Qed.

(** The last SHARED lock of the process goes: everything is unlocked and the waiting descriptors are closed. When the request fails the level is none all the
    same. *)
Lemma posixUnlock_last_wp i f s o :
  bProcessLock i = 0 -> whole (ctrlFlags f) = false -> nShared i = 1 -> nLock i = 1 ->
  wp (posixUnlock_none i f) (None, None, s, o) (backs 0)
    (fun r x' => (exists rc f', r = (rc, set_pUnused [] (set_nLock 0 (set_i_lock NO_LOCK (set_nShared 0 i))), f') /\
       ctrlFlags f' = ctrlFlags f /\ (rc = 0 \/ f_lock f' = 0)) /\ tab NO_LOCK x').
Proof.
  intros Hb Hc Hs Hl. unfold posixUnlock_none. rewrite Hs. cbn [nShared set_nShared Z.sub Z.add Z.opp Z.eqb Z.pos_sub].
  rewrite unixFileLock_plain by done. cbn [mbind sys_mbind sys_bind].
  apply wp_setlk; [auto with locks|auto with locks|by apply entry_write|intros e He Hst|].
  - rewrite (proj2 (Z.eqb_neq e 0)) by done. cbn [sys_bind mret sys_ret nLock set_i_lock set_nShared]. rewrite Hl.
    assert (tab NO_LOCK (None, None, s, o)) by (constructor; [done|]; intros Hstr; by specialize (Hst Hstr)).
    apply wp_bind, closePendingFds_wp; intros; (split; [auto with locks|]); (split; [do 2 eexists; split; [done|]; auto|]); [done|apply none_tab].
  - cbn [Z.eqb sys_bind mret sys_ret nLock set_i_lock set_nShared]. rewrite Hl.
    apply wp_bind, closePendingFds_wp; intros; (split; [auto with locks|]); (split; [do 2 eexists; split; [done|]; auto|]); apply none_tab.
Qed.

Lemma posixUnlock_more_wp i f x C :
  1 < nShared i -> nShared i <= nLock i -> C x ->
  wp (posixUnlock_none i f) x C
    (fun r x' => r = (SQLITE_OK, set_nLock (nLock i - 1) (set_nShared (nShared i - 1) i), f) /\ x' = x).
Proof.
  intros Hs Hl HC. unfold posixUnlock_none. cbn [nShared set_nShared].
  rewrite (proj2 (Z.eqb_neq (nShared i - 1) 0)) by lia. cbn [mbind sys_mbind sys_bind mret sys_ret nLock set_nLock set_nShared].
  rewrite (proj2 (Z.eqb_neq (nLock i - 1) 0)) by lia. done.
Qed.

(** The last SHARED lock goes, the lock of the process stays. *)
Lemma posixUnlock_kept_wp i f x C :
  bProcessLock i = 1 -> whole (ctrlFlags f) = true -> nShared i = 1 -> nLock i = 2 -> C x ->
  wp (posixUnlock_none i f) x C (fun r x' => r = (SQLITE_OK, set_nLock 1 (set_i_lock NO_LOCK (set_nShared 0 i)), f) /\ x' = x).
Proof.
  intros Hb Hw Hs Hl HC. unfold posixUnlock_none. rewrite Hs. cbn [nShared set_nShared Z.sub Z.add Z.opp Z.eqb Z.pos_sub].
  rewrite unixFileLock_held, sys_ret_bind by done. change (1 - 1) with 0. cbn [Z.eqb]. rewrite sys_ret_bind. cbn [nLock set_i_lock set_nShared]. rewrite Hl. done.
Qed.

Section Unlock.
Context (i : unixInodeInfo) (f : unixFile) (fs : gmap Z unixFile) (id : Z).
Context (Hok : pok i fs) (Hf : fs !! id = Some f).

(** The connection goes down to [e], the inode object to [L]. *)
Lemma pok_lower e L n u f' :
  e = 0 \/ e = 1 -> e < f_lock f -> e <= L -> n = nShared i - 1 + e -> f_lock f' = e -> ctrlFlags f' = ctrlFlags f ->
  (n = 0 -> L = 0) -> (n <> 0 -> if 2 <=? f_lock f then L = 1 else L = i_lock i) ->
  pok (set_pUnused u (set_nLock (n + bProcessLock i) (set_i_lock L (set_nShared n i)))) (<[id := f']> fs).
Proof.
  intros He Hlt HeL Hn Hfe Hfc Hz HL. pose proof (po_le _ _ Hok _ _ Hf). pose proof (po_top _ _ Hok).
  pose proof (shared_positive _ _ _ _ Hok Hf ltac:(lia)). levels.
  eapply pok_update; [exact Hok|exact Hf|by left| |done|done| |done|cbn; destruct (Z.leb_spec 2 (f_lock f)); lia..| |].
  - cbn. destruct (pok_mode i f fs id Hok Hf) as [-> | [_ ->]]; [lia|done|done].
  - rewrite (sharing_locked f) by lia. cbn.
    destruct He as [-> | ->]; [rewrite sharing_unlocked by lia|rewrite sharing_locked by lia]; lia.
  - intros id2 f2 Hne Hf2. pose proof (po_le _ _ Hok _ _ Hf2). cbn.
    destruct (decide (n = 0)) as [En|En].
    + pose proof (pok_others_unlocked _ _ _ _ _ _ Hok Hf Hf2 ltac:(done) ltac:(lia) ltac:(lia)). lia.
    + specialize (HL En). destruct (Z.leb_spec 2 (f_lock f)); [|lia].
      pose proof (po_write _ _ Hok _ _ _ _ Hf Hf2 ltac:(done)). lia.
  - cbn. intros E4. destruct (decide (n = 0)); [lia|]. specialize (HL ltac:(done)).
    destruct (Z.leb_spec 2 (f_lock f)); [lia|]. pose proof (po_excl _ _ Hok). levels. lia.
Qed.

Lemma pok_lower' e L n f' m :
  e = 0 \/ e = 1 -> e < f_lock f -> e <= L -> n = nShared i - 1 + e -> f_lock f' = e -> ctrlFlags f' = ctrlFlags f ->
  (n = 0 -> L = 0) -> (n <> 0 -> if 2 <=? f_lock f then L = 1 else L = i_lock i) -> m = n + bProcessLock i ->
  pok (set_nLock m (set_i_lock L (set_nShared n i))) (<[id := f']> fs).
Proof. intros. subst m. by apply (pok_lower e L n (pUnused i)). Qed.

(** The end of [posixUnlock], after the locks above SHARED went: the inode object is at level [L]. *)
Definition unlock_rest (e L : Z) : Sys (Z * unixInodeInfo * unixFile) :=
  '(rc, i, f) ← (if e =? NO_LOCK then posixUnlock_none (set_i_lock L i) f else mret (SQLITE_OK, set_i_lock L i, f));
  mret (rc, i, if rc =? SQLITE_OK then set_f_lock e f else f).

Lemma unlock_rest_last x :
  1 <= f_lock f -> nShared i = 1 -> bProcessLock i = 0 -> whole (ctrlFlags f) = false -> (exists s o, x = (None, None, s, o)) ->
  forall L, wp (unlock_rest 0 L) x (backs 0) (settled fs id).
Proof.
  intros H1 Hs Hb Hw (s & o & ->) L. pose proof (po_nlock _ _ Hok) as Hl. apply wp_bind. change (0 =? NO_LOCK) with true. cbn [andb].
  eapply wp_mono; [|apply (posixUnlock_last_wp (set_i_lock L i) f); cbn; [done|done|lia|lia]].
  intros r x' [(rc & f' & -> & Hc & Hrc) Ht]. split; [auto with locks|]. split; [|by apply tabs_plain].
  cbn [fst snd]. change (set_pUnused _ _) with (set_pUnused [] (set_nLock 0 (set_i_lock 0 (set_nShared 0 i)))).
  replace (set_nLock 0) with (set_nLock (0 + bProcessLock i)) by by rewrite Hb.
  apply (pok_lower 0 0 0 []); try lia; destruct (Z.eqb_spec rc SQLITE_OK); cbn; try done. by destruct Hrc.
Qed.

Lemma unlock_rest_wp e L x :
  e = 0 \/ e = 1 -> e < f_lock f -> L = (if 2 <=? f_lock f then 1 else i_lock i) -> tabs (set_i_lock L i) x ->
  wp (unlock_rest e L) x (backs (lowered i f e)) (settled fs id).
Proof.
  intros He Hlt HL Hx. pose proof (po_nlock _ _ Hok) as Hl. pose proof (po_top _ _ Hok). pose proof (po_process _ _ Hok) as Hp.
  pose proof (shared_positive _ _ _ _ Hok Hf ltac:(lia)) as Hs1. pose proof (po_le _ _ Hok _ _ Hf) as Hle.
  pose proof (tabs_backs _ _ Hx) as HbL. cbn in HbL. unfold lowered. rewrite (proj2 (Z.leb_gt _ _)) by lia. levels.
  destruct He as [-> | ->]; cbn [Z.eqb orb Pos.eqb].
  - destruct (decide (nShared i = 1)) as [En|En].
    + replace (if 2 <=? f_lock f then _ else _) with 0 by (rewrite En; by destruct (2 <=? f_lock f)).
      destruct (pok_mode i f fs id Hok Hf ltac:(lia)) as [Hb|[Hb Hw]].
      * apply wp_bind. change (0 =? NO_LOCK) with true. cbn [andb].
        eapply wp_mono; [|apply (posixUnlock_kept_wp (set_i_lock L i) f x); cbn; [done|by eapply po_whole|lia|lia|auto with locks]].
        intros ? ? [-> ->]. split; [auto with locks|]. split; [|apply tabs_held; [done|]; by apply tabs_held in Hx].
        cbn [fst snd]. change (set_nLock 1 _) with (set_nLock 1 (set_i_lock 0 (set_nShared 0 i))). apply (pok_lower' 0 0 0); done || lia.
      * apply unlock_rest_last; [lia|done..|]. apply tabs_plain in Hx; [|done]. cbn in Hx.
        destruct (tab_view _ _ Hx) as ([o ->] & _); [|by do 2 eexists]. subst L. destruct (Z.leb_spec 2 (f_lock f)); [done|].
        destruct (decide (2 <= i_lock i)) as [H2|]; [|lia]. destruct (po_own _ _ Hok H2) as (id' & f' & Hf' & E).
        destruct (decide (id = id')) as [->|Hne]; [simplify_eq; lia|].
        pose proof (pok_others_unlocked _ _ _ _ _ _ Hok Hf Hf' Hne En ltac:(lia)). lia.
    + replace (if 2 <=? f_lock f then _ else _) with L
        by (rewrite (proj2 (Z.ltb_lt 1 (nShared i))), (proj2 (Z.eqb_neq (nShared i) 1)) by lia; done).
      apply wp_bind. change (0 =? NO_LOCK) with true. cbn [andb].
      eapply wp_mono; [|apply (posixUnlock_more_wp (set_i_lock L i) f x); cbn; [lia|lia|done]].
      intros ? ? [-> ->]. split; [done|]. split; [|exact Hx].
      apply (pok_lower' 0 L (nShared i - 1)); cbn; try done; try lia; intros; destruct (2 <=? f_lock f); lia.
  - rewrite (proj2 (Z.leb_le 2 (f_lock f))) in * by lia. subst L. split; [done|]. split; [|exact Hx]. cbn.
    replace (set_i_lock 1 i) with (set_nLock (nLock i) (set_i_lock 1 (set_nShared (nShared i) i))) by by destruct i.
    apply (pok_lower' 1 1 (nShared i)); cbn; try done; try lia. intros _. by rewrite (proj2 (Z.leb_le 2 (f_lock f))) by lia.
Qed.

Lemma posixUnlock_wp e x :
  e = 0 \/ e = 1 -> tabs i x -> wp (posixUnlock i f e) x (backs (lowered i f e)) (settled fs id).
Proof.
  intros He Hx. unfold posixUnlock. pose proof (po_le _ _ Hok _ _ Hf) as Hle.
  destruct (Z.leb_spec (f_lock f) e) as [Hfe|Hfe].
  { unfold lowered. rewrite (proj2 (Z.leb_le _ _)) by done. split; [auto with locks|by eapply settled_same]. }
  destruct (Z.leb_spec 2 (f_lock f)) as [H2|H2].
  - rewrite (proj2 (Z.ltb_lt SHARED_LOCK (f_lock f))) by (levels; lia). pose proof (pok_high _ _ _ _ Hok Hf H2) as Ei.
    assert (forall y, tabs (set_i_lock SHARED_LOCK i) y -> wp (unlock_rest e SHARED_LOCK) y (backs (lowered i f e)) (settled fs id)) as Hrest.
    { intros y Hy. apply unlock_rest_wp; [done|done| |done]. by rewrite (proj2 (Z.leb_le _ _)). }
    destruct (pok_mode i f fs id Hok Hf ltac:(lia)) as [Hb|[Hb Hw]].
    + unfold posixUnlock_write. rewrite (held_lock i f fs id Hok Hf Hb).
      replace (if e =? SHARED_LOCK then mret (0, i) else mret (0, i)) with (mret (M := Sys) (0, i)) by by destruct (e =? SHARED_LOCK).
      rewrite sys_ret_bind. cbn [negb Z.eqb]. rewrite (held_lock i f fs id Hok Hf Hb), sys_ret_bind. cbn [Z.eqb]. rewrite sys_ret_bind.
      apply Hrest. apply tabs_held; [done|]. by apply tabs_held in Hx.
    + apply tabs_plain in Hx; [|done]. apply wp_bind.
      eapply wp_mono; [|apply (posixUnlock_write_wp i f Hb Hw e (lowered i f e) x); [|lia|done]].
      * intros ? ? [(-> & o & ->)|(rc & f' & -> & Hrc & El & Ec & Ht)].
        -- cbn [negb Z.eqb]. destruct (decide (e = 0 /\ nShared i = 1)) as [[-> En]|Hn].
           ++ unfold lowered. rewrite (proj2 (Z.leb_gt _ _)), (proj2 (Z.leb_le _ _)), En by lia. cbn [orb].
              apply unlock_rest_last; [lia|done..|by do 2 eexists].
           ++ apply Hrest. apply tabs_plain; [done|]. cbn [i_lock set_i_lock].
              assert ((if e =? SHARED_LOCK then Some Rd else shar x) = Some Rd) as ->; [|constructor].
              destruct He as [-> | ->]; [|done]. cbn [Z.eqb]. pose proof (po_excl _ _ Hok). pose proof (po_top _ _ Hok). levels.
              destruct (tab_view _ _ Hx) as (_ & V2 & V3 & _). assert (i_lock i = 2 \/ i_lock i = 3) as [E|E] by lia.
              ** by destruct (V2 E) as [? ->].
              ** by destruct (V3 E) as (? & ? & ->).
        -- rewrite (proj2 (Z.eqb_neq rc SQLITE_OK)) by done. cbn [negb]. split; [|by eapply settled_plain].
           unfold lowered. rewrite (proj2 (Z.leb_gt _ _)), (proj2 (Z.leb_le _ _)) by lia. apply tab_backs in Ht as [Hs _ _ _].
           apply backs_low; [destruct (_ || _); lia|]. apply Hs. levels. lia.
      * unfold lowered. rewrite (proj2 (Z.leb_gt _ _)), (proj2 (Z.leb_le _ _)) by lia. destruct (_ || _); lia.
  - rewrite (proj2 (Z.ltb_ge SHARED_LOCK (f_lock f))), sys_ret_bind by (levels; lia). cbn [negb Z.eqb].
    assert (set_i_lock (i_lock i) i = i) as Eta by by destruct i.
    pose proof (unlock_rest_wp e (i_lock i) x He Hfe) as Hr. unfold unlock_rest in Hr. rewrite Eta in Hr.
    apply Hr; [|done]. by rewrite (proj2 (Z.leb_gt _ _)).
Qed.

Lemma unixCheckReservedLock_wp x :
  tabs i x ->
  wp (unixCheckReservedLock i f) x (backs (i_lock i)) (fun r x' => settled fs id (r.1.1, i, r.2) x').
Proof.
  intros Ht. unfold unixCheckReservedLock.
  destruct (_ && _); [|split; [auto with locks|by eapply settled_same]].
  split; [auto with locks|]. intros e t. cbn. destruct (negb (e =? 0)); (split; [auto with locks|by eapply settled_same]).
Qed.

Lemma pok_close u n : f_lock f = 0 -> n = nRef i - 1 -> n <> 0 -> pok (set_nRef n (set_pUnused u i)) (delete id fs).
Proof.
  intros E0 Hn Hn0.
  assert (forall id2 f2, delete id fs !! id2 = Some f2 -> id2 <> id /\ fs !! id2 = Some f2) as Hd.
  { intros id2 f2. rewrite lookup_delete_Some. naive_solver. }
  assert (n = Z.of_nat (size (delete id fs))) as Hsz.
  { rewrite Hn, (po_nref _ _ Hok), map_size_delete_Some by by exists f.
    assert (size fs <> 0%nat) by (intros ?%map_size_empty_inv; subst; done). lia. }
  split; cbn; try (by apply Hok); try by (intros ?? [? ?]%Hd; eapply Hok).
  - intros _ He. rewrite He, map_size_empty in Hsz. lia.
  - intros id1 id2 f1 f2 [? H1]%Hd [? H2]%Hd. by eapply (po_same _ _ Hok).
  - intros H2. destruct (po_own _ _ Hok H2) as (id2 & f2 & Hf2 & E2). exists id2, f2.
    rewrite lookup_delete_ne; [done|]. intros ->. simplify_eq. lia.
  - intros id1 id2 f1 f2 [? H1]%Hd [? H2]%Hd. by apply (po_write _ _ Hok).
  - rewrite (map_sum_delete sharing fs id f) by done. rewrite sharing_unlocked by lia. rewrite (po_shared _ _ Hok). lia.
  - done.
Qed.

(** The only connection of a process. *)
Lemma pok_alone : f_lock f = 0 -> nRef i = 1 -> delete id fs = ∅ /\ nShared i = 0.
Proof.
  intros E0 Hr. rewrite (po_nref _ _ Hok) in Hr.
  assert (delete id fs = ∅) as Hd.
  { apply map_size_empty_inv. rewrite map_size_delete_Some by by exists f. lia. }
  split; [done|]. rewrite (po_shared _ _ Hok). apply map_sum_zero. intros id2 f2 Hf2.
  destruct (decide (id2 = id)) as [->|Hne]; [simplify_eq; apply sharing_unlocked; lia|].
  assert (delete id fs !! id2 = Some f2) as Hx by by rewrite lookup_delete_ne. by rewrite Hd in Hx.
Qed.

Lemma closeUnixFile_wp (i' : option unixInodeInfo) x :
  tab NO_LOCK x -> wp (closeUnixFile f ;; mret (M := Sys) i') x (backs 0) (fun a x' => a = i' /\ tab NO_LOCK x').
Proof.
  intros Ht. unfold closeUnixFile. pose proof none_tab. destruct (0 <=? h f); repeat (split; auto with locks).
Qed.

Lemma unixClose_wp x :
  f_lock f = 0 -> tabs i x ->
  wp (unixClose_tail i f) x (backs (i_lock i)) (fun i' x' => pinv i' (delete id fs) x').
Proof.
  intros E0 Ht. unfold unixClose_tail, releaseInodeInfo. pose proof (po_nlock _ _ Hok) as Hl. pose proof (po_process _ _ Hok).
  assert (0 <= nShared i) as Hs0 by (rewrite (po_shared _ _ Hok); apply map_sum_nonneg, sharing_nonneg).
  pose proof (po_zero _ _ Hok) as Hz. pose proof none_tab as Hnt.
  destruct (Z.eqb_spec (nLock i) 0) as [E|E]; cbn [negb setPendingFd]; apply wp_bind.
  - assert (bProcessLock i = 0) as Hb by lia. pose proof (Hz ltac:(lia)) as Ei. apply tabs_plain in Ht; [|done]. rewrite Ei in *.
    cbn [nRef set_nRef]. destruct (Z.eqb_spec (nRef i - 1) 0) as [Er|Er].
    + assert (forall y, tab NO_LOCK y -> wp (mret (M := Sys) (None : option unixInodeInfo)) y (backs 0)
        (fun i' x' => wp (closeUnixFile f ;; mret i') x' (backs 0) (fun i' x' => pinv i' (delete id fs) x'))) as Hk.
      { intros y Hy. split; [auto with locks|]. eapply wp_mono; [|by apply closeUnixFile_wp]. intros ? ? [-> ?].
        split; [apply pok_alone; [done|lia]|done]. }
      apply wp_bind, closePendingFds_wp; intros; by apply Hk.
    + split; [auto with locks|]. eapply wp_mono; [|by apply closeUnixFile_wp]. intros ? ? [-> ?].
      split; [|apply tabs_plain; [done|]; cbn; by rewrite Ei].
      destruct (pok_close (pUnused i) (nRef i - 1) E0 eq_refl Er). by split.
  - cbn [nRef set_nRef set_pUnused]. destruct (Z.eqb_spec (nRef i - 1) 0) as [Er|Er].
    + destruct (pok_alone E0 ltac:(lia)) as [Hd Hs]. rewrite (Hz Hs).
      apply wp_bind, closePendingFds_wp; [done|]. intros _. split; [auto with locks|]. split; [auto with locks|]. by split.
    + split; [auto with locks|]. split; [auto with locks|]. split; [|done]. by apply pok_close.
Qed.
End Unlock.

(** * The invariant of the system *)

Lemma bounded_ext lv lv' M : (forall id, lv id = lv' id) -> bounded lv M -> bounded lv' M.
Proof. intros E [B1 B2 B3 B4]. split; intros *; rewrite <- ?E; [apply B1|apply B2|apply B3|apply B4]. Qed.

Lemma relied_idle i fs id : relied {| p_inode := i; p_files := fs; p_run := None |} id = match fs !! id with Some f => f_lock f | None => 0 end.
Proof. unfold relied. cbn. by destruct (fs !! id). Qed.

Lemma relied_running i fs id f c m id' :
  fs !! id = Some f ->
  relied {| p_inode := i; p_files := fs; p_run := Some {| r_id := id; r_claim := c; r_prog := m |} |} id'
  = if decide (id' = id) then c else match fs !! id' with Some f => f_lock f | None => 0 end.
Proof.
  intros Hf. unfold relied. cbn. destruct (decide (id' = id)) as [->|Hne].
  - by rewrite Hf, Z.eqb_refl.
  - rewrite (proj2 (Z.eqb_neq id' id)) by done. by destruct (fs !! id').
Qed.

Lemma bounded_lower lv M id e M' :
  bounded lv M -> 0 <= e <= 1 -> e <= lv id -> e <= M' -> (forall id', id' <> id -> lv id' <= M') -> M' <= 1 \/ M' = M ->
  bounded (fun id' => if decide (id' = id) then e else lv id') M'.
Proof.
  intros [B1 B2 B3 B4] He Hid HeM Hle HM. split; intros id1.
  - case_decide; [lia|]. specialize (B1 id1). specialize (Hle id1). lia.
  - case_decide; [lia|]. specialize (B2 id1). specialize (Hle id1). lia.
  - intros id2 Hne. repeat case_decide; [by subst|lia|lia|by apply B3].
  - intros id2 Hne. levels. repeat case_decide; [by subst|lia| |by apply B4].
    intros E4. specialize (B4 id1 id). subst. specialize (B4 ltac:(done) E4). lia.
Qed.

(** The level that backs a running call. *)
Definition ground (i : unixInodeInfo) (f : unixFile) (c : call) : Z :=
  match c with CUnlock e => lowered i f e | _ => i_lock i end.

Lemma claim_bounded i fs id f c m :
  pok i fs -> fs !! id = Some f -> call_ok f c ->
  bounded (relied {| p_inode := Some i; p_files := fs; p_run := Some {| r_id := id; r_claim := claim f c; r_prog := m |} |}) (ground i f c).
Proof.
  intros Hok Hf Hc. pose proof (pok_bounded _ _ Hok) as Hb. pose proof (po_le _ _ Hok _ _ Hf).
  eapply bounded_ext; [intros id'; symmetry; by apply (relied_running _ _ _ f)|].
  assert (claim f c = f_lock f -> ground i f c = i_lock i ->
    bounded (fun id' => if decide (id' = id) then claim f c else match fs !! id' with Some f => f_lock f | None => 0 end) (ground i f c)) as Hsame.
  { intros -> ->. eapply bounded_ext; [|exact Hb]. intros id'. cbn. destruct (decide (id' = id)) as [->|]; [by rewrite Hf|done]. }
  destruct c as [e|e| |]; [by apply Hsame| |by apply Hsame|apply Hsame; [by rewrite Hc|done]].
  cbn [claim ground call_ok] in *. unfold lowered in *.
  destruct (Z.leb_spec (f_lock f) e); [apply Hsame; [lia|done]|]. clear Hsame. rewrite Z.min_r by lia. levels.
  pose proof (shared_positive _ _ _ _ Hok Hf ltac:(lia)) as Hs1.
  set (lv := fun id' => match fs !! id' with Some f => f_lock f | None => 0 end) in *.
  assert (lv id = f_lock f) as Hlv by (unfold lv; by rewrite Hf).
  assert (forall id', id' <> id -> nShared i = 1 -> lv id' = 0) as Hone.
  { intros id' Hne H1. unfold lv. destruct (fs !! id') eqn:E; [|done]. eapply (pok_others_unlocked _ _ id f id'); try done. lia. }
  apply (bounded_lower lv (i_lock i)); [done|lia|lia|repeat case_match; lia| |].
  - intros id' Hne. pose proof (bo_le _ _ Hb id'). pose proof (bo_one _ _ Hb id id' ltac:(done)). specialize (Hone id' Hne).
    destruct (Z.leb_spec 2 (f_lock f)), (Z.eqb_spec e 1), (Z.ltb_spec 1 (nShared i)), (Z.eqb_spec (nShared i) 1); cbn; lia.
  - destruct (Z.leb_spec 2 (f_lock f)), (Z.eqb_spec e 1), (Z.ltb_spec 1 (nShared i)), (Z.eqb_spec (nShared i) 1); cbn; lia.
Qed.

Lemma program_wp i fs id f c x :
  pok i fs -> fs !! id = Some f -> call_ok f c -> tabs i x ->
  wp (program i f c) x (backs (ground i f c)) (fun r x' => pinv r.1.2 (commit id r fs) x').
Proof.
  intros Hok Hf Hc Ht. destruct c as [e|e| |]; cbn [ground program].
  - eapply wp_pack; [|by eapply unixLock_wp]. intros [[rc i'] f'] x' [? ?]. by eexists.
  - eapply wp_pack; [|by eapply posixUnlock_wp]. intros [[rc i'] f'] x' [? ?]. by eexists.
  - eapply wp_pack; [|by eapply unixCheckReservedLock_wp]. intros [[rc n] f'] x' [? ?]. by eexists.
  - eapply wp_pack; [|by eapply unixClose_wp]. intros i' x' ?. by eexists.
Qed.

End Strict.

Section Safety.
Context {K : Type} `{PL : PosixLocks K}.

(** The view [x] of process [p] is that of its locks. *)
Record sees (k : K) (p : Z) (x : view) : Prop := {
  se_pending : held k p PENDING_BYTE = pend x;
  se_reserved : held k p RESERVED_BYTE = resv x;
  se_shared b : shared_byte b -> held k p b = shar x;
  se_guards : x.2 = true -> guards (pend x) (shar x);
  se_alone q b : x.2 = true -> q <> p -> shared_byte b -> held k q b = None }.

Definition proc_ok (k : K) (p : Z) (pr : Proc) : Prop :=
  exists x, sees k p x /\
  match p_run pr with
  | None => pinv prompt (p_inode pr) (p_files pr) x
  | Some r => exists M, bounded (relied pr) M /\
      wp prompt (r_prog r) x (backs M) (fun res x' => pinv prompt res.1.2 (commit (r_id r) res (p_files pr)) x')
  end.

Definition sys_ok (s : State) : Prop :=
  valid s.1 /\
  forall p, match s.2 !! p with
            | Some pr => proc_ok s.1 p pr
            | None => forall b, held s.1 p b = None
            end.

Lemma first_shared_byte : shared_byte SHARED_FIRST.
Proof. by split. Qed.

Lemma sees_none k p : (forall b, held k p b = None) -> sees k p none.
Proof. by split. Qed.

(** A step of process [p] that leaves the locks of the other processes alone. *)
Lemma sys_ok_step k ps p k' (o : option Proc) :
  sys_ok (k, ps) -> valid k' -> (forall q b, q <> p -> held k' q b = held k q b) ->
  (forall q x b, q <> p -> sees k q x -> x.2 = true -> shared_byte b -> held k' p b = None) ->
  match o with Some pr => proc_ok k' p pr | None => forall b, held k' p b = None end ->
  sys_ok (k', match o with Some pr => <[p := pr]> ps | None => delete p ps end).
Proof.
  intros [_ H] Hv Hq Hal Ho. split; [done|]. intros q. cbn. specialize (H q). cbn in H.
  destruct (decide (q = p)) as [->|Hne].
  - destruct o; [by rewrite lookup_insert_eq|by rewrite lookup_delete_eq].
  - assert (match o with Some pr => <[p := pr]> ps | None => delete p ps end !! q = ps !! q) as ->
      by (destruct o; [by rewrite lookup_insert_ne|by rewrite lookup_delete_ne]).
    destruct (ps !! q); [|intros b; rewrite Hq by done; auto]. destruct H as (x & Hx & H). exists x. split; [|done].
    pose proof Hx as [S1 S2 S3 S4 S5]. split; try (by rewrite Hq); [|done|].
    + intros b Hb. rewrite Hq by done. auto.
    + intros r b Hx2 Hr Hb. destruct (decide (r = p)) as [->|]; [by eapply Hal|]. rewrite Hq by done. auto.
Qed.

(** A step that changes no lock. *)
Lemma sys_ok_quiet k ps p pr : sys_ok (k, ps) -> proc_ok k p pr -> sys_ok (k, <[p := pr]> ps).
Proof.
  intros Hok Hp. apply (sys_ok_step k ps p k (Some pr)); [done|apply Hok|done| |done].
  intros q x b Hq Hx E Hb. by eapply se_alone.
Qed.
Lemma sys_ok_close k ps p fd (o : option Proc) :
  sys_ok (k, ps) -> match o with Some pr => proc_ok (closefd k p fd) p pr | None => True end ->
  sys_ok (closefd k p fd, match o with Some pr => <[p := pr]> ps | None => delete p ps end).
Proof.
  intros Hok Hp. apply (sys_ok_step k); [done|apply valid_closefd, Hok|intros; by apply closefd_other|intros; apply closefd_own|].
  destruct o; [done|]. intros. apply closefd_own.
Qed.

Lemma sees_setlk k p l x :
  valid k -> uniform l -> (setlk k p l).1 = 0 -> sees k p x -> sees (setlk k p l).2 p (eff l x).
Proof.
  intros Hv Hu H0 [S1 S2 S3 S4 S5]. assert (forall b, shared_byte b -> held (setlk k p l).2 p b = shar (eff l x)) as Hsh.
  { intros b Hb. by rewrite setlk_own, (Hu b Hb), (S3 b Hb) by done. }
  split; [by rewrite setlk_own, S1|by rewrite setlk_own, S2|done| |].
  - unfold guards. cbn. unfold alone. repeat case_match; try done; intros _; auto.
  - intros q b E Hq Hb. destruct (shar (eff l x)) as [[]|] eqn:Es; cbn in E, Es; rewrite Es in E; cbn in E.
    + rewrite setlk_other by done. apply S5; [|done..]. by repeat case_match.
    + eapply held_excl; [by apply valid_setlk|by apply not_eq_sym|]. by rewrite Hsh.
    + done.
Qed.

(** A process with nobody beside it on the shared range stays so. *)
Lemma setlk_apart k p l x q y b :
  valid k -> uniform l -> entry l x -> sees k p x -> q <> p -> sees k q y -> y.2 = true -> shared_byte b ->
  held (setlk k p l).2 p b = None.
Proof.
  intros Hv Hu He Hx Hq Hy E Hb. pose proof (se_alone _ _ _ Hy p b E ltac:(done) Hb) as Hn.
  destruct (decide ((setlk k p l).1 = 0)) as [E0|E0]; [|by rewrite setlk_refused].
  rewrite setlk_own by done. destruct (in_range l b) eqn:Er; [|done]. destruct (grant l) as [m|] eqn:Eg; [|done].
  pose proof (se_guards _ _ _ Hy E) as Hg. pose proof (se_shared _ _ _ Hy b Hb) as Hs.
  assert (forall c, held (setlk k p l).2 q c = held k q c) as Ho by (intros c; by apply setlk_other).
  assert (held (setlk k p l).2 p b = Some m) as Hp by by rewrite setlk_own, Er.
  destruct (decide (m = Wr)) as [->|Hm].
  { assert (held (setlk k p l).2 q b = None) as Hc by (eapply held_excl; [by apply valid_setlk|by apply not_eq_sym|done]).
    rewrite Ho, Hs in Hc. destruct Hg as [Hg|[Hg _]]; by rewrite Hc in Hg. }
  destruct Hg as [Hg|[Hg1 Hg2]].
  { rewrite (held_excl (setlk k p l).2 q p b) in Hp; [done|by apply valid_setlk|done|]. by rewrite Ho, Hs, Hg. }
  destruct m; [|done]. destruct He; [by rewrite <- (Hu b Hb)|done|by rewrite <- (se_shared _ _ _ Hx b Hb)|].
  rewrite <- (se_pending _ _ _ Hx). eapply held_excl; [done|done|]. by rewrite (se_pending _ _ _ Hy).
Qed.

Lemma not_refusable k p l x : valid k -> prompt -> sees k p x -> (setlk k p l).1 <> 0 -> refusable l x = true.
Proof.
  intros Hv Hp Hx E. destruct (refusable l x) eqn:Hr; [done|]. destruct E. apply Hp; [done|].
  unfold refusable in *. destruct (l_type l) eqn:El; [right|done|by left].
  apply negb_false_iff, andb_true_iff in Hr as [Hl Hne%bool_decide_eq_true]. apply andb_true_iff in Hl as [E1%Z.eqb_eq E2%Z.eqb_eq].
  split; [by rewrite E2|]. intros q b Hq Hb. destruct (held k q b) as [[]|] eqn:Eh; [by right| |by left].
  destruct Hne. rewrite <- (se_shared _ _ _ Hx b); [by eapply held_excl|].
  unfold in_range in Hb. rewrite E1, E2 in Hb. apply andb_true_iff in Hb as [?%Z.leb_le ?%Z.ltb_lt]. split; lia.
Qed.

Lemma findReusableFd_ok i fs flags x : pinv prompt i fs x -> pinv prompt (findReusableFd i flags).2 fs x.
Proof.
  destruct i as [i|]; [|done]. cbn. destruct (take_fd _ _) as [r l]. intros [[] ?]. by split.
Qed.

Lemma pok_open i fs id fd ctrl flags :
  pok i fs -> fs !! id = None -> (forall id' f, fs !! id' = Some f -> whole (ctrlFlags f) = whole ctrl) ->
  pok (set_nRef (nRef i + 1) i) (<[id := new_file fd ctrl flags]> fs).
Proof.
  intros H Hid Hc. pose proof (po_top _ _ H).
  assert (forall id2 f2, <[id := new_file fd ctrl flags]> fs !! id2 = Some f2 -> whole (ctrlFlags f2) = whole ctrl) as Hc'.
  { intros id2 f2. rewrite lookup_insert_Some. intros [[-> <-]|[? ?]]; [done|by eapply Hc]. }
  assert (fs <> ∅ -> exists id' f', fs !! id' = Some f' /\ whole (ctrlFlags f') = whole ctrl) as Hex.
  { intros Hne. destruct (map_choose fs Hne) as (id' & f' & Hf'). eauto. }
  split; cbn; try by apply H.
  - intros _. apply insert_non_empty.
  - intros id1 id2 f1 f2 H1 H2. by rewrite (Hc' _ _ H1), (Hc' _ _ H2).
  - intros id2 f2 H2 E. rewrite (Hc' _ _ H2). destruct (Hex (po_used _ _ H E)) as (id' & f' & Hf' & <-). by eapply (po_whole _ _ H).
  - intros id2 f2 H2 E Eb. rewrite (Hc' _ _ H2) in E. destruct (decide (fs = ∅)) as [->|Hne].
    + apply (po_zero _ _ H). rewrite (po_shared _ _ H). done.
    + destruct (Hex Hne) as (id' & f' & Hf' & E'). eapply (po_idle _ _ H); [done|by rewrite E'|done].
  - intros id2 f2. rewrite lookup_insert_Some. intros [[-> <-]|[? ?]]; [cbn; levels; lia|by eapply po_le].
  - intros H2. destruct (po_own _ _ H H2) as (id2 & f2 & Hf2 & E2). exists id2, f2.
    rewrite lookup_insert_ne by congruence. done.
  - intros id1 id2 f1 f2. rewrite !lookup_insert_Some.
    intros [[-> <-]|[? Hf1]] [[-> <-]|[? Hf2]]; cbn; levels; try lia. by eapply (po_write _ _ H).
  - rewrite map_sum_insert by done. rewrite sharing_unlocked by done. by apply H.
  - rewrite (po_nref _ _ H), map_size_insert_None by done. lia.
Qed.

(** Opening a connection: the object of the process is found or made, or the descriptor is closed, and then the process has no object. *)
Lemma fillInUnixFile_cases alloc i fd :
  fillInUnixFile 0 alloc i fd = match i, alloc with
    | Some i, _ => mret (SQLITE_OK, Some (set_nRef (nRef i + 1) i))
    | None, true => mret (SQLITE_OK, Some {| nShared := 0; i_lock := 0; bProcessLock := 0; nRef := 1; nLock := 0; pUnused := [] |})
    | None, false => Close fd (mret (SQLITE_NOMEM, None))
    end.
Proof. by destruct i, alloc. Qed.

Lemma fillInUnixFile_ok alloc i i' fs x id fd ctrl flags :
  pinv prompt i fs x -> fs !! id = None -> (forall id' f, fs !! id' = Some f -> whole (ctrlFlags f) = whole ctrl) ->
  fillInUnixFile 0 alloc i fd = mret (SQLITE_OK, i') -> pinv prompt i' (<[id := new_file fd ctrl flags]> fs) x.
Proof.
  intros Hi Hid Hc. rewrite fillInUnixFile_cases. destruct i as [i|].
  - intros [= <-]. destruct Hi as [Hok Ht]. split; [by apply pok_open|done].
  - destruct alloc; [|done]. intros [= <-]. destruct Hi as [-> Ht]. split; [|done].
    apply (pok_open {| nShared := 0; i_lock := 0; bProcessLock := 0; nRef := 0; nLock := 0; pUnused := [] |}); [|done..].
    split; cbn; levels; intros; try done; lia.
Qed.

Lemma step_setlk_ok k ps p i fs id c l m :
  sys_ok (k, ps) -> ps !! p = Some {| p_inode := i; p_files := fs; p_run := Some {| r_id := id; r_claim := c; r_prog := Setlk l m |} |} ->
  sys_ok ((setlk k p l).2, <[p := {| p_inode := i; p_files := fs; p_run := Some {| r_id := id; r_claim := c; r_prog := m (setlk k p l).1 |} |}]> ps).
Proof.
  intros Hok Hp. pose proof (proj2 Hok p) as H. cbn in H. rewrite Hp in H. pose proof (proj1 Hok) as Hv. cbn in Hv.
  destruct H as (x & Hx & M & Hb & HC & Hu & Hen & He & H0).
  apply (sys_ok_step k ps p _ (Some _)); [done|by apply valid_setlk|intros; by apply setlk_other| |].
  { intros q y b Hq Hy E Hsb. by eapply setlk_apart. }
  destruct (decide ((setlk k p l).1 = 0)) as [E|E].
  - exists (eff l x). split; [by apply sees_setlk|]. exists M. split; [done|]. cbn. by rewrite E.
  - exists x. split; [|exists M; split; [done|]; apply He; [done|]; intros; by eapply not_refusable].
    assert (forall q b, held (setlk k p l).2 q b = held k q b) as Eh.
    { intros q b. destruct (decide (q = p)) as [->|]; [by apply setlk_refused|by apply setlk_other]. }
    destruct Hx as [S1 S2 S3 S4 S5]. split; intros; rewrite ?Eh; auto.
Qed.

Lemma step_ok s s' : step s s' -> sys_ok s -> sys_ok s'.
Proof.
  intros Hs Hok. destruct Hs as
    [k ps p Hp|k ps p i fs flags Hp|k ps p i fs id fd ctrl flags alloc i' Hp Hid Hc Hfi|k ps p i fs fd alloc rc i' Hp Hfi|k ps p i fs id f c Hp Hf Hc
    |k ps p i fs id c l m Hp|k ps p i fs id c l m Hp|k ps p i fs id c fd m Hp|k ps p i fs id c r Hp|k ps p pr fd Hp];
    pose proof (proj2 Hok p) as H; cbn in H; rewrite Hp in H.
  - apply sys_ok_quiet; [done|]. exists none. split; [by apply sees_none|]. split; [done|apply none_tab].
  - apply sys_ok_quiet; [done|]. destruct H as (x & Hx & Hi). exists x. split; [done|]. by apply findReusableFd_ok.
  - apply sys_ok_quiet; [done|]. destruct H as (x & Hx & Hi). exists x. split; [done|]. eapply (fillInUnixFile_ok alloc i); [exact Hi|exact Hid|exact Hc|exact Hfi].
  - apply (sys_ok_close _ _ _ _ (Some _)); [done|]. exists none. split; [by apply sees_none, closefd_own|].
    destruct H as (x & _ & Hi). rewrite fillInUnixFile_cases in Hfi. destruct i; [done|]. destruct alloc; [done|]. injection Hfi as _ <-.
    destruct Hi as [-> _]. split; [done|apply none_tab].
  - apply sys_ok_quiet; [done|]. destruct H as (x & Hx & Hi & Ht). exists x. split; [done|].
    exists (ground i f c). split; [by apply claim_bounded|by apply program_wp].
  - by apply step_setlk_ok.
  - apply sys_ok_quiet; [done|]. destruct H as (x & Hx & M & Hb & HC & Hk). exists x. split; [done|]. exists M. split; [done|]. apply Hk.
  - apply (sys_ok_close _ _ _ _ (Some _)); [done|]. destruct H as (x & Hx & M & Hb & HC & Hk). exists none.
    split; [by apply sees_none, closefd_own|by exists M].
  - apply sys_ok_quiet; [done|]. destruct H as (x & Hx & M & Hb & HC & HQ). by exists x.
  - by apply (sys_ok_close _ _ _ _ None).
Qed.

Lemma reachable_ok s : reachable s -> sys_ok s.
Proof.
  intros (s0 & (Hv & Hn & He) & Hr). assert (sys_ok s0) as H0.
  { split; [done|]. intros p. rewrite He, lookup_empty. apply Hn. }
  clear -H0 Hr. induction Hr; eauto using step_ok.
Qed.

(** The locks of a process back the levels its clients rely on. *)
Lemma proc_ok_backs k p pr : proc_ok k p pr -> exists x M, sees k p x /\ bounded (relied pr) M /\ backs M x.
Proof.
  intros (x & Hx & H). destruct pr as [i fs [r|]]; cbn [p_run p_inode p_files] in H.
  - destruct H as (M & Hb & Hw). exists x, M. by apply wp_here in Hw.
  - destruct i as [i|]; [|destruct H as [-> _]].
    + destruct H as [Hok Ht]. exists x, (i_lock i). split; [done|]. split; [|by eapply tabs_backs].
      eapply bounded_ext; [intros id; symmetry; apply relied_idle|by apply pok_bounded].
    + exists x, 0. split; [done|]. split; [|apply backs_none].
      split; intros *; rewrite ?relied_idle, ?lookup_empty; levels; lia.
Qed.



(** ** Running an operation without interference *)

Fixpoint exec {A} (k : K) (p : Z) (m : Sys A) : A * K :=
  match m with
  | Ret a => (a, k)
  | Setlk l m => exec (setlk k p l).2 p (m (setlk k p l).1)
  | Getlk l m => exec k p (m (getlk k p l).1 (getlk k p l).2)
  | Close fd m => exec (closefd k p fd) p m
  end.

Lemma idle_level (s : @State K) p i fs id f :
  s.2 !! p = Some {| p_inode := i; p_files := fs; p_run := None |} -> fs !! id = Some f -> lock_level s p id = f_lock f.
Proof. intros Hp Hf. unfold lock_level. by rewrite Hp, relied_idle, Hf. Qed.

(** [unixCheckReservedLock] called by an idle process of a reachable state, when it does not fail: the answer 0 means that no connection
    of this process is above SHARED, and, when the connection has a lock, that no connection of any process relies on RESERVED; the answer 1 means that a connection
    of this process is above SHARED or another process has the reserved byte locked. *)
Theorem check_reserved_correct (s : @State K) p i fs id f reserved f' k' :
  reachable s -> s.2 !! p = Some {| p_inode := Some i; p_files := fs; p_run := None |} -> fs !! id = Some f ->
  exec s.1 p (unixCheckReservedLock i f) = ((SQLITE_OK, reserved, f'), k') ->
  (reserved = 0 /\ (SHARED_LOCK <= f_lock f -> forall p' id', lock_level s p' id' <> RESERVED_LOCK) /\ (forall id', lock_level s p id' <= SHARED_LOCK)) \/
  (reserved = 1 /\ ((exists id', SHARED_LOCK < lock_level s p id') \/ (exists q, q <> p /\ held s.1 q RESERVED_BYTE <> None))).
Proof.
  intros Hr Hp Hf Hx. destruct (reachable_ok s Hr) as [Hv H]. pose proof (H p) as Hpo. rewrite Hp in Hpo.
  destruct Hpo as (x & Hsx & Hok & Ht). cbn in Hok, Ht. unfold unixCheckReservedLock in Hx.
  destruct (Z.ltb_spec SHARED_LOCK (i_lock i)) as [Hl|Hl]; cbn [Z.eqb andb] in Hx.
  { injection Hx as <- _ _. right. split; [done|]. left. destruct (po_own _ _ Hok) as (id' & g & Hg & E); [levels; lia|].
    exists id'. erewrite idle_level by done. levels. lia. }
  assert (forall id', lock_level s p id' <= SHARED_LOCK) as Hown.
  { intros id'. unfold lock_level. rewrite Hp, relied_idle. destruct (fs !! id') eqn:E; [|done].
    pose proof (po_le _ _ Hok _ _ E). levels. lia. }
  assert ((forall q, q <> p -> held s.1 q RESERVED_BYTE = None) \/ one_lock x ->
    SHARED_LOCK <= f_lock f -> forall q id', lock_level s q id' <> RESERVED_LOCK) as Hnone.
  { intros Hor Hsh q id' El. destruct (decide (q = p)) as [->|Hq]; [specialize (Hown id'); levels; lia|].
    unfold lock_level in El. specialize (H q). destruct (s.2 !! q) as [pr|]; [|done].
    apply proc_ok_backs in H as (y & M & Hy & Hb & [C1 C2 _ _]). rewrite (bo_high _ _ Hb) in El by (levels; lia).
    pose proof (se_shared _ _ _ Hsx _ first_shared_byte) as Sx. pose proof (se_shared _ _ _ Hy _ first_shared_byte) as Sy.
    pose proof (po_le _ _ Hok _ _ Hf). assert (shar x <> None) as Hnx by (apply (ba_shared _ _ (tabs_backs _ _ _ Ht)); lia).
    destruct (C2 El) as [R|R].
    - destruct Hor as [Hf0|[E1 E2]]; [by rewrite <- (se_reserved _ _ _ Hy), Hf0 in R|]. apply C1; [levels; lia|].
      rewrite <- Sy. by eapply (se_alone _ _ _ Hsx); [| |apply first_shared_byte].
    - apply Hnx. rewrite <- Sx. eapply held_excl; [done|exact Hq|by rewrite Sy]. }
  destruct (po_process _ _ Hok) as [Eb|Eb]; rewrite Eb in Hx; cbn in Hx.
  2:{ injection Hx as <- _ _. left. split; [done|]. split; [|done]. apply Hnone. right. by apply tabs_held in Ht. }
  destruct (getlk _ _ _) as [e t] eqn:Eg. cbn [fst snd] in Hx.
  destruct (Z.eqb_spec e 0) as [->|He]; [|discriminate Hx].
  destruct (decide (t = F_UNLCK)) as [->|Htt]; cbn in Hx.
  - injection Hx as <- _ _. left. split; [done|]. split; [|done]. apply Hnone. left. intros q Hq. by apply (getlk_free _ _ _ q _ Eg).
  - assert (reserved = 1) as -> by (destruct t; by injection Hx). right. split; [done|]. right.
    destruct (getlk_taken _ _ _ _ Eg Htt) as (q & b & Hq & Hb & Hh). exists q. split; [done|].
    assert (b = RESERVED_BYTE) as -> by (unfold in_range in Hb; cbn in Hb; lia). done.
Qed.

(** ** Availability *)

Definition idle (s : @State K) : Prop := forall q pr, s.2 !! q = Some pr -> p_run pr = None.

Lemma exec_granted {A} k p l (m : Z -> Sys A) :
  (setlk k p l).1 = 0 -> exec k p (Setlk l m) = exec (setlk k p l).2 p (m 0).
Proof. intros E. cbn. by rewrite E. Qed.

(** No connection is in the mode unix-excl with permission to write. *)
Definition no_whole (s : @State K) : Prop :=
  forall q pr id f, s.2 !! q = Some pr -> p_files pr !! id = Some f -> whole (ctrlFlags f) = false.

(** In an idle system the locks of a process go with the highest level of its connections. *)
Lemma idle_view (s : @State K) q :
  sys_ok s -> idle s -> no_whole s -> exists x L, sees s.1 q x /\ tab prompt L x /\ (L = 0 \/ exists id, lock_level s q id = L).
Proof.
  intros [_ H] Hi Hnw. specialize (H q). specialize (Hi q). specialize (Hnw q). unfold lock_level.
  destruct (s.2 !! q) as [[i fs r]|]; [|exists none, 0; split; [by apply sees_none|split; [apply none_tab|by left]]].
  assert (r = None) as -> by apply (Hi _ eq_refl). destruct H as (x & Hx & Hp). cbn in Hp.
  destruct i as [i|]; [|destruct Hp as [-> ?]; exists x, 0; split; [done|split; [done|by left]]].
  destruct Hp as [Hok Ht]. exists x, (i_lock i). split; [done|].
  split.
  { destruct (po_process _ _ Hok) as [Eb|Eb]; [by apply tabs_plain in Ht|]. exfalso.
    destruct (map_choose fs (po_used _ _ Hok Eb)) as (id & f & Hf).
    pose proof (po_whole _ _ Hok _ _ Hf Eb) as E. by rewrite (Hnw _ id f eq_refl Hf) in E. }
  destruct (decide (2 <= i_lock i)) as [H2|H2].
  { right. destruct (po_own _ _ Hok H2) as (id & f & Hf & E). exists id. by rewrite relied_idle, Hf. }
  pose proof (po_top _ _ Hok). destruct (decide (i_lock i = 0)) as [|H0]; [by left|right].
  destruct (map_sum_pos sharing fs) as (id & f & Hf & Hs).
  { pose proof (map_sum_nonneg sharing fs sharing_nonneg). pose proof (po_zero _ _ Hok). rewrite (po_shared _ _ Hok) in *. levels. lia. }
  exists id. rewrite relied_idle, Hf. pose proof (po_le _ _ Hok _ _ Hf). unfold sharing in Hs.
  destruct (Z.leb_spec 1 (f_lock f)); cbn in Hs; lia.
Qed.

(** What the requests of [unixLock] meet in the other processes. *)
Lemma others_allow (s : @State K) p k l :
  sys_ok s -> idle s -> no_whole s -> prompt -> valid k -> (forall q b, q <> p -> held k q b = held s.1 q b) ->
  (exists ty, (ty = F_RDLCK /\ (forall q id, q <> p -> lock_level s q id < PENDING_LOCK) \/
               ty = F_WRLCK /\ (forall q id, q <> p -> lock_level s q id = NO_LOCK)) /\
     (l = {| l_type := ty; l_start := PENDING_BYTE; l_len := 1 |} \/
      l = {| l_type := ty; l_start := SHARED_FIRST; l_len := SHARED_SIZE |})) ->
  (setlk k p l).1 = 0.
Proof.
  intros Hok Hi Hnw Hp Hv Hk (ty & Hty & Hl). apply Hp; [done|]. right. split; [by destruct Hl as [-> | ->]|]. intros q b Hq Hb. rewrite Hk by done.
  destruct (idle_view s q Hok Hi Hnw) as (x & L & Hx & Ht & HL).
  assert (ty = F_RDLCK /\ L < PENDING_LOCK \/ L = NO_LOCK) as HL'.
  { destruct Hty as [[-> Hlow]|[-> Hnone]].
    - left. split; [done|]. destruct HL as [->|[id <-]]; [done|by apply Hlow].
    - right. destruct HL as [->|[id <-]]; [done|by apply Hnone]. }
  clear Hty HL. destruct Hl as [-> | ->]; cbn in Hb |- *.
  - assert (b = PENDING_BYTE) as -> by (unfold in_range in Hb; cbn in Hb; lia). left. rewrite (se_pending _ _ _ Hx).
    destruct Ht as [a s' o _ Hst| | | |]; levels; try done; try lia. by destruct (Hst Hp).
  - assert (shared_byte b) as Hsb by (unfold in_range in Hb; cbn in Hb; split; lia). rewrite (se_shared _ _ _ Hx b Hsb).
    destruct Ht as [a s' o _ Hst| | | |]; levels; cbn; [by left; destruct (Hst Hp)|..].
    all: destruct HL' as [[-> ?]|?]; [by right + lia|lia].
Qed.

Definition obtains (k : K) (p : Z) (i : unixInodeInfo) (f : unixFile) (e : Z) : Prop :=
  let '(rc, _, f', _) := exec k p (unixLock i f e) in rc = SQLITE_OK /\ f_lock f' = e.

Section Available.
Context (s : @State K) (p id : Z) (i : unixInodeInfo) (fs : gmap Z unixFile) (f : unixFile).
Context (Hs : sys_ok s) (Hidle : idle s) (Hnw : no_whole s) (Hprompt : prompt).
Context (Hok : pok i fs) (Hf : fs !! id = Some f).
Context (Hb : bProcessLock i = 0) (Hw : whole (ctrlFlags f) = false).
Context (Hown : forall id' f', fs !! id' = Some f' -> lock_level s p id' = f_lock f').

Lemma shared_available :
  f_lock f = NO_LOCK -> (forall q id', lock_level s q id' < PENDING_LOCK) -> obtains s.1 p i f SHARED_LOCK.
Proof.
  intros E0 Hlow. pose proof (po_top _ _ Hok).
  assert (i_lock i < 3) as Hi.
  { destruct (decide (2 <= i_lock i)) as [H2|]; [|lia]. destruct (po_own _ _ Hok H2) as (id' & f' & Hf' & <-).
    rewrite <- (Hown _ _ Hf'). apply Hlow. }
  unfold obtains, unixLock. rewrite E0. change (SHARED_LOCK <=? NO_LOCK) with false. change (SHARED_LOCK <? SHARED_LOCK) with false.
  rewrite (proj2 (Z.leb_gt PENDING_LOCK (i_lock i))), orb_false_r, andb_false_r by (levels; lia).
  change (SHARED_LOCK =? SHARED_LOCK) with true. cbn [andb orb].
  destruct ((i_lock i =? SHARED_LOCK) || (i_lock i =? RESERVED_LOCK)) eqn:Ej; [done|].
  rewrite (plain_lock i f Hb Hw). cbn [mbind sys_mbind sys_bind].
  rewrite exec_granted by (eapply others_allow; eauto; [apply Hs|exists F_RDLCK; auto]). cbn [negb Z.eqb].
  unfold unixLock_shared. rewrite (plain_lock i f Hb Hw). cbn [mbind sys_mbind sys_bind].
  assert (forall k l, (forall q b, q <> p -> held k q b = held s.1 q b) -> forall q b, q <> p -> held (setlk k p l).2 q b = held s.1 q b)
    as Hk by (intros k l Hk q b Hq; rewrite setlk_other by done; auto).
  rewrite exec_granted by (eapply (others_allow s); eauto; [apply valid_setlk, Hs|exists F_RDLCK; auto]).
  rewrite (plain_lock i f Hb Hw). cbn [mbind sys_mbind sys_bind].
  rewrite exec_granted by (apply Hprompt; [apply valid_setlk, valid_setlk, Hs|by left]). done.
Qed.

Lemma exclusive_available :
  f_lock f <> NO_LOCK -> (forall q id', (q, id') <> (p, id) -> lock_level s q id' = NO_LOCK) -> obtains s.1 p i f EXCLUSIVE_LOCK.
Proof.
  intros E0 Hnone. pose proof (po_top _ _ Hok). pose proof (po_le _ _ Hok _ _ Hf). levels.
  assert (forall id' f', fs !! id' = Some f' -> id' <> id -> f_lock f' = 0) as Hoth.
  { intros id' f' Hf' Hne. rewrite <- (Hown _ _ Hf'). apply Hnone. congruence. }
  assert (f_lock f = i_lock i) as Ei.
  { destruct (decide (2 <= i_lock i)) as [H2|]; [|lia]. destruct (po_own _ _ Hok H2) as (id' & f' & Hf' & E).
    destruct (decide (id' = id)) as [->|Hne]; [by simplify_eq|]. rewrite (Hoth _ _ Hf' Hne) in E. lia. }
  assert (nShared i = 1) as E1.
  { rewrite (po_shared _ _ Hok). pose proof (map_sum_delete sharing fs id f Hf) as Hd.
    rewrite (sharing_locked f), (map_sum_zero sharing (delete id fs)) in Hd by first [lia |
      intros id' f' [Hne Hf']%lookup_delete_Some; apply sharing_unlocked; rewrite (Hoth id' f') by done; lia]. lia. }
  assert (forall k, valid k -> (forall q b, q <> p -> held k q b = held s.1 q b) ->
    (exec k p (unixLock_write i f 4)).1.1.1 = 0 /\ f_lock (exec k p (unixLock_write i f 4)).1.2 = 4) as Hwr.
  { intros k Hv Hk. unfold unixLock_write. rewrite E1. change ((4 =? EXCLUSIVE_LOCK) && (1 <? 1)) with false. cbn [andb].
    rewrite (plain_lock i f Hb Hw). cbn [mbind sys_mbind sys_bind].
    rewrite exec_granted; [done|]. eapply (others_allow s); eauto. exists F_WRLCK. split; [right|by right].
    split; [done|]. intros q id' Hq. apply Hnone. congruence. }
  unfold obtains, unixLock. destruct (Z.leb_spec 4 (f_lock f)); [split; [done|cbn; lia]|].
  rewrite <- Ei, Z.eqb_refl. change (4 =? SHARED_LOCK) with false. change (4 =? EXCLUSIVE_LOCK) with true. cbn [negb andb orb].
  destruct (Z.ltb_spec (f_lock f) PENDING_LOCK).
  - rewrite (plain_lock i f Hb Hw). cbn [mbind sys_mbind sys_bind].
    rewrite exec_granted. 2:{ eapply (others_allow s); eauto; [apply Hs|]. exists F_WRLCK. split; [right|by left].
      split; [done|]. intros q id' Hq. apply Hnone. congruence. }
    cbn [negb Z.eqb]. destruct (Hwr (setlk s.1 p {| l_type := F_WRLCK; l_start := PENDING_BYTE; l_len := 1 |}).2) as [W1 W2];
      [apply valid_setlk, Hs|intros q b Hq; by apply setlk_other|].
    destruct (exec _ _ _) as [[[? ?] ?] ?]. done.
  - rewrite sys_ret_bind. cbn [negb Z.eqb]. destruct (Hwr s.1) as [W1 W2]; [apply Hs|done|].
    destruct (exec _ _ _) as [[[? ?] ?] ?]. done.
Qed.
End Available.

(** C4. Nothing stays locked by accident. In a reachable state in which no operation is running, a connection without a lock obtains SHARED unless some connection
    relies on PENDING or more, and a connection with a lock obtains EXCLUSIVE when all others are unlocked. This is for file systems on which a request to unlock
    succeeds and a request to lock fails only when it conflicts with a lock of another process, and when no connection is in the mode unix-excl with permission to
    write, since the process of such a connection keeps its one lock until it closes the file. *)
Theorem locks_available (s : @State K) p i fs id f :
  reachable s -> idle s -> no_whole s -> prompt ->
  s.2 !! p = Some {| p_inode := Some i; p_files := fs; p_run := None |} -> fs !! id = Some f ->
  (f_lock f = NO_LOCK -> (forall q id', lock_level s q id' < PENDING_LOCK) -> obtains s.1 p i f SHARED_LOCK) /\
  (f_lock f <> NO_LOCK -> (forall q id', (q, id') <> (p, id) -> lock_level s q id' = NO_LOCK) -> obtains s.1 p i f EXCLUSIVE_LOCK).
Proof.
  intros Hr Hi Hnw Hp Ep Hf. pose proof (reachable_ok s Hr) as Hok. pose proof (proj2 Hok p) as H. rewrite Ep in H.
  destruct H as (x & _ & Hpk & _). cbn in Hpk. pose proof (Hnw _ _ _ _ Ep Hf) as Hw.
  assert (bProcessLock i = 0) as Hb.
  { destruct (po_process _ _ Hpk) as [?|E]; [done|]. by rewrite (po_whole _ _ Hpk _ _ Hf E) in Hw. }
  assert (forall id' f', fs !! id' = Some f' -> lock_level s p id' = f_lock f') as Hown by (intros; by eapply idle_level).
  split; [by eapply shared_available|by eapply exclusive_available].
Qed.
End Safety.
