(* ===== verification/LockTable.v ===== *)
(** A lock table that implements the record locks of LockSpec.v, an executable scheduler, and runs of the protocol. *)
From S2P Require Import Prelude Locks LockSpec.
Local Open Scope Z_scope.

(** * A lock table *)

(** For each process, its locked bytes. *)
Abbreviation Table := (gmap Z (gmap Z mode)).

Definition row (k : Table) (p : Z) : gmap Z mode := default ∅ (k !! p).
Definition tab_held (k : Table) (p b : Z) : option mode := row k p !! b.
Definition tab_valid (k : Table) : Prop := forall p q b, p <> q -> tab_held k p b = Some Wr -> tab_held k q b = None.

(** Whether a lock of another process is in the way. *)
Definition clash (l : flock) (m : mode) : bool :=
  match l_type l, m with F_UNLCK, _ => false | F_RDLCK, Rd => false | _, _ => true end.
Definition clear (k : Table) (p : Z) (l : flock) : Prop :=
  map_Forall (fun q r => q = p \/ map_Forall (fun b m => in_range l b = false \/ clash l m = false) r) k.
#[export] Instance clear_dec k p l : Decision (clear k p l).
Proof. apply _. Defined.

Definition tab_write (l : flock) (r : gmap Z mode) : gmap Z mode :=
  match grant l with
  | None => filter (fun x => in_range l x.1 = false) r
  | Some m => list_to_map ((fun b => (b, m)) <$> seqZ (l_start l) (l_len l)) ∪ r
  end.

(** A lock to the end of the file is only supported for unlocking: otherwise EINVAL. *)
Definition tab_setlk (k : Table) (p : Z) (l : flock) : Z * Table :=
  if (l_len l =? 0) && bool_decide (grant l <> None) then (22, k)
  else if bool_decide (clear k p l) then (0, <[p := tab_write l (row k p)]> k) else (EAGAIN, k).

Definition tab_getlk (k : Table) (p : Z) (l : flock) : Z * lock_type :=
  if bool_decide (clear k p l) then (0, F_UNLCK) else (0, F_WRLCK).

Definition tab_close (k : Table) (p fd : Z) : Table := delete p k.

Lemma tab_held_insert k p r q b : tab_held (<[p := r]> k) q b = if decide (q = p) then r !! b else tab_held k q b.
Proof.
  unfold tab_held, row. destruct (decide (q = p)) as [->|]; [by rewrite lookup_insert_eq|by rewrite lookup_insert_ne].
Qed.

Lemma clear_alt k p l :
  clear k p l <-> forall q b m, q <> p -> tab_held k q b = Some m -> in_range l b = true -> clash l m = false.
Proof.
  unfold clear, tab_held, row. split.
  - intros H q b m Hq Hm Hb. destruct (k !! q) as [r|] eqn:Er; [|done].
    destruct (H q r Er) as [?|Hr]; [done|]. destruct (Hr b m Hm) as [?|?]; [congruence|done].
  - intros H q r Hr. destruct (decide (q = p)); [by left|right]. intros b m Hm.
    destruct (in_range l b) eqn:E; [right|by left]. eapply (H q b); [done| |done]. by rewrite Hr.
Qed.

Lemma tab_write_lookup l r b :
  l_len l <> 0 \/ grant l = None -> tab_write l r !! b = if in_range l b then grant l else r !! b.
Proof.
  intros Hl. unfold tab_write. destruct (grant l) as [m|] eqn:Eg.
  - destruct Hl as [Hl|]; [|done]. rewrite lookup_union.
    assert (NoDup ((fun b => (b, m)) <$> seqZ (l_start l) (l_len l)).*1) as Hn.
    { rewrite <- list_fmap_compose. rewrite (list_fmap_ext _ id) by done. rewrite list_fmap_id. apply NoDup_seqZ. }
    assert (in_range l b = true <-> b ∈ seqZ (l_start l) (l_len l)) as Hin.
    { rewrite elem_of_seqZ. unfold in_range. rewrite (proj2 (Z.eqb_neq _ _)) by done. cbn.
      rewrite andb_true_iff, Z.leb_le, Z.ltb_lt. lia. }
    destruct (in_range l b) eqn:E.
    + rewrite (elem_of_list_to_map_1 _ b m Hn) by (apply list_elem_of_fmap; exists b; by rewrite <- Hin).
      by destruct (r !! b).
    + rewrite not_elem_of_list_to_map_1; [by destruct (r !! b)|]. rewrite <- list_fmap_compose.
      rewrite (list_fmap_ext _ id) by done. rewrite list_fmap_id, <- Hin. done.
  - destruct (in_range l b) eqn:E.
    + apply map_lookup_filter_None_2. right. cbn. intros ??. congruence.
    + destruct (r !! b) eqn:Er; [by apply map_lookup_filter_Some_2|by apply map_lookup_filter_None_2; left].
Qed.

(** The two outcomes of a request. *)
Lemma tab_setlk_cases k p l :
  (tab_setlk k p l).1 = 0 /\ (tab_setlk k p l).2 = <[p := tab_write l (row k p)]> k /\ clear k p l /\
    (l_len l <> 0 \/ grant l = None) \/
  (tab_setlk k p l).1 <> 0 /\ (tab_setlk k p l).2 = k.
Proof.
  unfold tab_setlk. destruct ((l_len l =? 0) && bool_decide (grant l <> None)) eqn:E; [by right|].
  unfold EAGAIN. destruct (bool_decide (clear k p l)) eqn:Ec; [left|by right]. apply bool_decide_eq_true in Ec. repeat split; [done|].
  apply andb_false_iff in E as [?%Z.eqb_neq|E%bool_decide_eq_false]; [by left|right]. by destruct (grant l); [destruct E|].
Qed.

#[export] Instance table_locks : PosixLocks Table.
Proof.
  refine {| valid := tab_valid; held := tab_held; setlk := tab_setlk; getlk := tab_getlk; closefd := tab_close |}.
  - intros k p l Hv. destruct (tab_setlk_cases k p l) as [(_ & -> & Hc & Hl)|[_ ->]]; [|done].
    rewrite clear_alt in Hc. intros p1 p2 b Hne. rewrite !tab_held_insert.
    destruct (decide (p1 = p)) as [->|H1], (decide (p2 = p)) as [->|H2]; [done| | |by apply Hv].
    + rewrite tab_write_lookup by done. destruct (in_range l b) eqn:E; [|by apply Hv]. intros Hg.
      destruct (tab_held k p2 b) eqn:E2; [|done]. specialize (Hc p2 b m H2 E2 E). unfold clash, grant in *. by destruct (l_type l).
    + rewrite tab_write_lookup by done. intros Hw. destruct (in_range l b) eqn:E; [|by eapply Hv].
      specialize (Hc p1 b Wr H1 Hw E). unfold clash, grant in *. by destruct (l_type l).
  - intros k p fd Hv p1 p2 b Hne. unfold tab_held, tab_close, row in *.
    destruct (decide (p1 = p)) as [->|]; [by rewrite lookup_delete_eq|]. rewrite lookup_delete_ne by done.
    destruct (decide (p2 = p)) as [->|]; [by rewrite lookup_delete_eq|]. rewrite lookup_delete_ne by done. by apply Hv.
  - intros k p q b Hv. by apply Hv.
  - intros k p l b H0. destruct (tab_setlk_cases k p l) as [(_ & -> & _ & Hl)|[? _]]; [|done].
    rewrite tab_held_insert, decide_True, tab_write_lookup by done. done.
  - intros k p l q b Hq. destruct (tab_setlk_cases k p l) as [(_ & -> & _)|[_ ->]]; [|done]. by rewrite tab_held_insert, decide_False.
  - intros k p l b H0. destruct (tab_setlk_cases k p l) as [(? & _)|[_ ->]]; done.
  - intros k p l q b. unfold tab_getlk. case_bool_decide as Hc; [|done]. rewrite clear_alt in Hc. intros _ Hl Hq Hb.
    destruct (tab_held k q b) eqn:E; [|done]. specialize (Hc q b m Hq E Hb). unfold clash in Hc. by rewrite Hl in Hc.
  - intros k p l t. unfold tab_getlk. case_bool_decide as Hc; [by intros [= <-]|]. intros _ _.
    unfold clear in Hc. apply map_not_Forall in Hc as (q & r & Hr & Hn); [|apply _].
    assert (q <> p) as Hq by (intros ->; apply Hn; by left).
    assert (~ map_Forall (fun b m => in_range l b = false \/ clash l m = false) r) as Hn' by (intros ?; apply Hn; by right).
    apply map_not_Forall in Hn' as (b & m & Hm & Hn'); [|apply _].
    exists q, b. split; [done|]. unfold tab_held, row. rewrite Hr. cbn. rewrite Hm.
    split; [|done]. destruct (in_range l b); [done|]. destruct Hn'. by left.
  - intros k p fd b. unfold tab_held, tab_close, row. by rewrite lookup_delete_eq.
  - intros k p fd q b Hq. unfold tab_held, tab_close, row. by rewrite lookup_delete_ne.
Defined.

(** * A scheduler *)

Inductive act := ASpawn (p : Z) | AOpen (p id fd : Z) | ACall (p id : Z) (c : call) | AGo (p : Z).

#[export] Instance call_ok_dec f c : Decision (call_ok f c).
Proof. destruct c; unfold call_ok; apply _. Defined.

(** [AGo] makes the next system call of a running operation, or ends it. *)
Definition act_step (s : @State Table) (a : act) : option State :=
  let '(k, ps) := s in
  match a with
  | ASpawn p =>
      match ps !! p with None => Some (k, <[p := {| p_inode := None; p_files := ∅; p_run := None |}]> ps) | Some _ => None end
  | AOpen p id fd =>
      match ps !! p with
      | Some {| p_inode := i; p_files := fs; p_run := None |} =>
          match fs !! id with
          | None =>
              if bool_decide (map_Forall (fun _ f => whole (ctrlFlags f) = false) fs) then
                Some (k, <[p := {| p_inode := (findInodeInfo 0 true i).2; p_files := <[id := new_file fd 0 0]> fs; p_run := None |}]> ps)
              else None
          | Some _ => None
          end
      | _ => None
      end
  | ACall p id c =>
      match ps !! p with
      | Some {| p_inode := Some i; p_files := fs; p_run := None |} =>
          match fs !! id with
          | Some f =>
              if bool_decide (call_ok f c) then
                Some (k, <[p := {| p_inode := Some i; p_files := fs;
                                   p_run := Some {| r_id := id; r_claim := claim f c; r_prog := program i f c |} |}]> ps)
              else None
          | None => None
          end
      | _ => None
      end
  | AGo p =>
      match ps !! p with
      | Some {| p_inode := i; p_files := fs; p_run := Some {| r_id := id; r_claim := c; r_prog := m |} |} =>
          match m with
          | Ret r => Some (k, <[p := {| p_inode := r.1.2; p_files := commit id r fs; p_run := None |}]> ps)
          | Setlk l m => Some ((setlk k p l).2, <[p := {| p_inode := i; p_files := fs;
              p_run := Some {| r_id := id; r_claim := c; r_prog := m (setlk k p l).1 |} |}]> ps)
          | Getlk l m => Some (k, <[p := {| p_inode := i; p_files := fs;
              p_run := Some {| r_id := id; r_claim := c; r_prog := m (getlk k p l).1 (getlk k p l).2 |} |}]> ps)
          | Close fd m => Some (closefd k p fd, <[p := {| p_inode := i; p_files := fs;
              p_run := Some {| r_id := id; r_claim := c; r_prog := m |} |}]> ps)
          end
      | _ => None
      end
  end.

Fixpoint act_run (s : @State Table) (l : list act) : option State :=
  match l with [] => Some s | a :: l => match act_step s a with Some s => act_run s l | None => None end end.

Lemma act_step_sound s a s' : act_step s a = Some s' -> step s s'.
Proof.
  destruct s as [k ps]. destruct a as [p|p id fd|p id c|p]; cbn; destruct (ps !! p) as [[i fs r]|] eqn:Ep; try done.
  - intros [= <-]. by apply step_spawn.
  - destruct r; [done|]. destruct (fs !! id) eqn:Ei; [done|]. case_bool_decide as Hw; [|done]. intros [= <-].
    eapply (step_open k ps p i fs id fd 0 0 true); [done|done|intros; by eapply Hw|by destruct i].
  - destruct i as [i|]; [|done]. destruct r; [done|]. destruct (fs !! id) as [f|] eqn:Ei; [|done].
    case_bool_decide; [|done]. intros [= <-]. by eapply step_call.
  - destruct r as [[id c m]|]; [|done]. destruct m as [r|l m|l m|fd m]; intros [= <-].
    + by eapply step_return.
    + exact (step_setlk k ps p i fs id c l m Ep).
    + exact (step_getlk k ps p i fs id c l m Ep).
    + exact (step_close k ps p i fs id c fd m Ep).
Qed.

Definition quiet : @State Table := (∅, ∅).

Lemma act_run_reachable l s : act_run quiet l = Some s -> reachable s.
Proof.
  intros H. exists quiet. split; [split; [by intros ???|done]|].
  revert H. generalize quiet. induction l as [|a l IH]; intros s0; cbn; [by intros [= <-]|].
  destruct (act_step s0 a) eqn:E; [|done]. intros H. eapply rtc_l; [by eapply act_step_sound|auto].
Qed.


(** The state a list of actions leads to. *)
Definition after (l : list act) : @State Table := default quiet (act_run quiet l).

Lemma after_reachable l : reachable (after l).
Proof.
  unfold after. destruct (act_run quiet l) eqn:E; [by eapply act_run_reachable|]. by apply (act_run_reachable []).
Qed.


(** A second process holds RESERVED. *)
Definition demo_reserved : list act :=
  [ASpawn 1; AOpen 1 1 3; ASpawn 2; AOpen 2 1 3; ACall 2 1 (CLock SHARED_LOCK); AGo 2; AGo 2; AGo 2; AGo 2;
   ACall 2 1 (CLock RESERVED_LOCK); AGo 2; AGo 2].
Definition new_inode : unixInodeInfo :=
  {| nShared := 0; i_lock := 0; bProcessLock := 0; nRef := 1; nLock := 0; pUnused := [] |}.

Lemma check_reserved_correct_witness :
  (1 = 0 /\ (SHARED_LOCK <= NO_LOCK -> forall p' id', lock_level (after demo_reserved) p' id' <> RESERVED_LOCK) /\
   (forall id', lock_level (after demo_reserved) 1 id' <= SHARED_LOCK)) \/
  (1 = 1 /\ ((exists id', SHARED_LOCK < lock_level (after demo_reserved) 1 id') \/
             (exists q, q <> 1 /\ held (after demo_reserved).1 q RESERVED_BYTE <> None))).
Proof.
  assert ((after demo_reserved).2 !! 1 =
    Some {| p_inode := Some new_inode; p_files := {[1 := new_file 3 0 0]}; p_run := None |}) as Hp by (vm_compute; reflexivity).
  assert (exec (after demo_reserved).1 1 (unixCheckReservedLock new_inode (new_file 3 0 0))
    = ((SQLITE_OK, 1, new_file 3 0 0), (after demo_reserved).1)) as Hx.
  { assert (getlk (after demo_reserved).1 1 {| l_type := F_WRLCK; l_start := RESERVED_BYTE; l_len := 1 |} = (0, F_WRLCK)) as Hg
      by (vm_compute; reflexivity).
    generalize dependent (after demo_reserved).1. intros k Hg. unfold exec, unixCheckReservedLock. cbn -[getlk]. by rewrite Hg. }
  exact (check_reserved_correct _ _ _ _ 1 _ _ _ _ (after_reachable demo_reserved) Hp eq_refl Hx).
Defined.

Lemma table_prompt : prompt (K := Table).
Proof.
  intros k p l Hv Hl. cbn in *. assert (clear k p l) as Hc.
  { apply clear_alt. intros q b m Hq Hm Hb. unfold clash. destruct Hl as [->|[_ Hl]]; [done|].
    destruct (Hl q b Hq Hb) as [E|[-> E]]; [congruence|]. by rewrite E in Hm; injection Hm as <-. }
  unfold tab_setlk. rewrite (bool_decide_true (clear k p l)) by done.
  destruct Hl as [Hu|[Hpos _]]; [|by rewrite (proj2 (Z.eqb_neq _ _)) by lia].
  unfold grant. rewrite Hu. by rewrite bool_decide_false, andb_false_r by auto.
Qed.

Lemma no_whole_check (s : @State Table) :
  bool_decide (map_Forall (fun _ pr => map_Forall (fun _ f => whole (ctrlFlags f) = false) (p_files pr)) s.2) = true -> no_whole s.
Proof. intros H%bool_decide_eq_true q pr id f Hq Hf. exact (H q pr Hq id f Hf). Qed.

Lemma idle_check (s : @State Table) :
  bool_decide (map_Forall (fun _ pr => match p_run pr with None => true | _ => false end = true) s.2) = true -> idle s.
Proof.
  intros H%bool_decide_eq_true q pr Hq. specialize (H q pr Hq). cbn in H. by destruct (p_run pr).
Qed.

Lemma levels_check (s : @State Table) p id :
  idle s ->
  bool_decide (map_Forall (fun q pr => map_Forall (fun i f => (q, i) = (p, id) \/ f_lock f = 0) (p_files pr)) s.2) = true ->
  forall q i, (q, i) <> (p, id) -> lock_level s q i = NO_LOCK.
Proof.
  intros Hi H%bool_decide_eq_true q i Hne. unfold lock_level. destruct (s.2 !! q) as [pr|] eqn:E; [|done].
  pose proof (Hi q pr E) as Hr. specialize (H q pr E). unfold relied. rewrite Hr.
  destruct (p_files pr !! i) eqn:Ei; [|done]. by destruct (H i _ Ei).
Qed.

(** The first process gives up its RESERVED lock and closes; the second can then have EXCLUSIVE. *)
Definition demo_free : list act :=
  [ASpawn 1; AOpen 1 1 3; ASpawn 2; AOpen 2 1 3; ACall 1 1 (CLock SHARED_LOCK); AGo 1; AGo 1; AGo 1; AGo 1;
   ACall 1 1 (CLock RESERVED_LOCK); AGo 1; AGo 1; ACall 2 1 (CLock SHARED_LOCK); AGo 2; AGo 2; AGo 2; AGo 2;
   ACall 1 1 (CUnlock NO_LOCK); AGo 1; AGo 1; AGo 1; ACall 1 1 CClose; AGo 1; AGo 1].
Definition shared_file : unixFile := set_f_lock SHARED_LOCK (new_file 3 0 0).
Definition shared_inode : unixInodeInfo := set_i_lock SHARED_LOCK (set_nShared 1 (set_nLock 1 new_inode)).

Lemma locks_available_witness : obtains (after demo_free).1 2 shared_inode shared_file EXCLUSIVE_LOCK.
Proof.
  assert (idle (after demo_free)) as Hi by (apply idle_check; vm_compute; reflexivity).
  assert (no_whole (after demo_free)) as Hn by (apply no_whole_check; vm_compute; reflexivity).
  assert ((after demo_free).2 !! 2 = Some {| p_inode := Some shared_inode; p_files := {[1 := shared_file]}; p_run := None |}) as Hp
    by (vm_compute; reflexivity).
  assert (forall q id', (q, id') <> (2, 1) -> lock_level (after demo_free) q id' = NO_LOCK) as Hl
    by (apply levels_check; [exact Hi|vm_compute; reflexivity]).
  exact (proj2 (locks_available (after demo_free) 2 shared_inode {[1 := shared_file]} 1 shared_file
    (after_reachable demo_free) Hi Hn table_prompt Hp eq_refl) ltac:(discriminate) Hl).
Defined.

(** The unix-excl mode (UNIXFILE_EXCL) is not safe when a process also has a read-only connection: the read-only
    one, unlocking last, passes its unlock through to the operating system and gives up the lock of the whole process, while
    [bProcessLock] still says that it is held. Then connections of two processes hold EXCLUSIVE at once. *)
Lemma excl_readonly_unsafe :
  let run {A} (k : Table) p (m : Sys (Z * unixInodeInfo * A)) := exec k p m in
  let a := new_file 3 UNIXFILE_EXCL 0 in
  let b := new_file 4 (Z.lor UNIXFILE_EXCL UNIXFILE_RDONLY) 0 in
  let '((_, i, a), k) := run ∅ 1 (unixLock (set_nRef 2 new_inode) a SHARED_LOCK) in
  let '((_, i, b), k) := run k 1 (unixLock i b SHARED_LOCK) in
  let '((_, i, a), k) := run k 1 (unixUnlock i a NO_LOCK) in
  let '((_, i, b), k) := run k 1 (unixUnlock i b NO_LOCK) in
  let '((_, i, a), k) := run k 1 (unixLock i a SHARED_LOCK) in
  let '((_, i, a), k) := run k 1 (unixLock i a EXCLUSIVE_LOCK) in
  let '((_, j, c), k) := run k 2 (unixLock new_inode (new_file 3 0 0) SHARED_LOCK) in
  let '((_, j, c), k) := run k 2 (unixLock j c EXCLUSIVE_LOCK) in
  f_lock a = EXCLUSIVE_LOCK /\ f_lock c = EXCLUSIVE_LOCK.
Proof. vm_compute. by split. Qed.
