(* ===== verification/WalHash.v ===== *)
(** The wal-index of wal.c: the hash tables in shared memory that find the frame of a page.

    A page of the wal-index holds the page numbers of its frames and a hash table; [aPgno[k]] of the C code, for k from 1, is element k-1 of the list.
    Page 0 has fewer entries, since the headers are at its start. *)
From S2P Require Import Prelude.
Local Open Scope Z_scope.
Local Open Scope c_scope.

Definition HASHTABLE_NPAGE : Z := 4096.
Definition HASHTABLE_HASH_1 : Z := 383.
Definition HASHTABLE_NSLOT : Z := HASHTABLE_NPAGE * 2.

(** sizeof(WalIndexHdr)*2 + sizeof(WalCkptInfo) + WALINDEX_LOCK_RESERVED *)
Definition WALINDEX_HDR_SIZE : Z := 48 * 2 + 24 + 16.
Definition HASHTABLE_NPAGE_ONE : Z := HASHTABLE_NPAGE - WALINDEX_HDR_SIZE / 4.

Record HashPage := { aPgno : list Z; aHash : list Z }.

Definition npage (iHash : Z) : Z := if iHash =? 0 then HASHTABLE_NPAGE_ONE else HASHTABLE_NPAGE.
Definition zero_page (iHash : Z) : HashPage :=
  {| aPgno := replicate (Z.to_nat (npage iHash)) 0; aHash := replicate (Z.to_nat HASHTABLE_NSLOT) 0 |}.

(** The wal-index in shared memory; a page that was never written is all zeros. *)
Abbreviation WalIndex := (gmap Z HashPage).
Definition page_at (w : WalIndex) (iHash : Z) : HashPage := default (zero_page iHash) (w !! iHash).

Definition walHash (iPage : Z) : Z := u32 (iPage * HASHTABLE_HASH_1) .& (HASHTABLE_NSLOT - 1).
Definition walNextHash (iPriorHash : Z) : Z := (iPriorHash + 1) .& (HASHTABLE_NSLOT - 1).

Definition walFramePage (iFrame : Z) : Z := (iFrame + HASHTABLE_NPAGE - HASHTABLE_NPAGE_ONE - 1) / HASHTABLE_NPAGE.

(** [*piZero] of [walHashGet] *)
Definition iZero_of (iHash : Z) : Z := if iHash =? 0 then 0 else HASHTABLE_NPAGE_ONE + (iHash - 1) * HASHTABLE_NPAGE.

(** Outcomes of the allocator and of the method xShmMap of the file, for each call: the state counts the calls.
    A call of xShmMap that reports SQLITE_OK or SQLITE_READONLY maps the page. *)
Record ShmEnv := {
  xRealloc : nat -> bool;
  xMallocZero : nat -> bool;
  xShmMap : nat -> Z -> Z;
  exclusiveMode : Z
}.

(** The pages a connection has mapped: [apWiData] has the numbers of the entries that are not null. *)
Record WiData := { nWiData : Z; apWiData : gset Z; readOnly : Z; calls : nat }.

Definition WAL_HEAPMEMORY_MODE : Z := 2.
Definition WAL_SHM_RDONLY : Z := 2.

Section index.
Context (env : ShmEnv).

Definition walIndexPage (m : WiData) (iPage : Z) : Z * WiData :=
  let grow := nWiData m <=? iPage in
  if grow && negb (xRealloc env (calls m)) then (SQLITE_NOMEM, {| nWiData := nWiData m; apWiData := apWiData m; readOnly := readOnly m; calls := S (calls m) |})
  else
    let m := if grow then {| nWiData := iPage + 1; apWiData := apWiData m; readOnly := readOnly m; calls := S (calls m) |} else m in
    if decide (iPage ∈ apWiData m) then (SQLITE_OK, m)
    else
      let map_it ro := {| nWiData := nWiData m; apWiData := {[iPage]} ∪ apWiData m; readOnly := readOnly m .| ro; calls := S (calls m) |} in
      let failed := {| nWiData := nWiData m; apWiData := apWiData m; readOnly := readOnly m; calls := S (calls m) |} in
      if exclusiveMode env =? WAL_HEAPMEMORY_MODE then
        if xMallocZero env (calls m) then (SQLITE_OK, map_it 0) else (SQLITE_NOMEM, failed)
      else
        let rc := xShmMap env (calls m) iPage in
        if rc =? SQLITE_READONLY then (SQLITE_OK, map_it WAL_SHM_RDONLY)
        else if rc =? SQLITE_OK then (SQLITE_OK, map_it 0)
        else (rc, failed).

(** The result code, [*piZero], and the new mapping; the page itself is [page_at w iHash]. *)
Definition walHashGet (m : WiData) (iHash : Z) : Z * Z * WiData :=
  let '(rc, m) := walIndexPage m iHash in
  (rc, iZero_of iHash, m).

Definition walFramePgno (w : WalIndex) (iFrame : Z) : Z :=
  let iHash := walFramePage iFrame in
  if iHash =? 0 then rd (aPgno (page_at w 0)) (iFrame - 1)
  else rd (aPgno (page_at w iHash)) ((iFrame - 1 - HASHTABLE_NPAGE_ONE) mod HASHTABLE_NPAGE).

(** The two loops of [walCleanupHash]. *)
Definition cleanup_page (iLimit : Z) (p : HashPage) : HashPage :=
  {| aPgno := take (Z.to_nat iLimit) (aPgno p) ++ replicate (length (aPgno p) - Z.to_nat iLimit) 0;
     aHash := map (fun e => if iLimit <? e then 0 else e) (aHash p) |}.

(** [None]: the page is not mapped and the code would follow a null pointer. *)
Definition walCleanupHash (m : WiData) (w : WalIndex) (mxFrame : Z) : option (WiData * WalIndex) :=
  if mxFrame =? 0 then Some (m, w)
  else
    let iHash := walFramePage mxFrame in
    let '(rc, iZero, m) := walHashGet m iHash in
    if rc =? SQLITE_OK then Some (m, <[iHash := cleanup_page (mxFrame - iZero) (page_at w iHash)]> w) else None.

(** [for(iKey=walHash(iPage); aHash[iKey]; iKey=walNextHash(iKey)){ if( (nCollide--)==0 ) return SQLITE_CORRUPT_BKPT; }] *)
Fixpoint append_probe (nCollide : nat) (aHash : list Z) (iKey : Z) : option Z :=
  if rd aHash iKey =? 0 then Some iKey
  else match nCollide with O => None | S n => append_probe n aHash (walNextHash iKey) end.

(** [mxFrame] is [pWal->hdr.mxFrame]. *)
Definition walIndexAppend (m : WiData) (w : WalIndex) (mxFrame iFrame iPage : Z) : option (Z * WiData * WalIndex) :=
  let iHash := walFramePage iFrame in
  let '(rc, iZero, m) := walHashGet m iHash in
  if negb (rc =? SQLITE_OK) then Some (rc, m, w)
  else
    let idx := iFrame - iZero in
    let w := if idx =? 1 then <[iHash := zero_page iHash]> w else w in
    '(m, w) ← (if negb (rd (aPgno (page_at w iHash)) (idx - 1) =? 0) then walCleanupHash m w mxFrame else Some (m, w));
    let p := page_at w iHash in
    match append_probe (Z.to_nat idx) (aHash p) (walHash iPage) with
    | None => Some (SQLITE_CORRUPT, m, w)
    | Some iKey => Some (SQLITE_OK, m, <[iHash := {| aPgno := wr (aPgno p) (idx - 1) iPage; aHash := wr (aHash p) iKey idx |}]> w)
    end.

(** The search of one hash table: [nCollide] starts at HASHTABLE_NSLOT. *)
Fixpoint find_probe (nCollide : nat) (p : HashPage) (iZero iLast pgno iKey iRead : Z) : option Z :=
  let e := rd (aHash p) iKey in
  if e =? 0 then Some iRead
  else
    let iFrame := e + iZero in
    let iRead := if (iFrame <=? iLast) && (rd (aPgno p) (e - 1) =? pgno) then iFrame else iRead in
    match nCollide with O => None | S n => find_probe n p iZero iLast pgno (walNextHash iKey) iRead end.

(** The loop over the hash tables, from number [iHash] down to 0: the result code, [iRead] and the new mapping. *)
Fixpoint find_tables (n : nat) (m : WiData) (w : WalIndex) (iLast pgno : Z) : Z * Z * WiData :=
  match n with
  | O => (SQLITE_OK, 0, m)
  | S n =>
      let iHash := Z.of_nat n in
      let '(rc, iZero, m) := walHashGet m iHash in
      if negb (rc =? SQLITE_OK) then (rc, 0, m)
      else
        match find_probe (Z.to_nat HASHTABLE_NSLOT) (page_at w iHash) iZero iLast pgno (walHash pgno) 0 with
        | None => (SQLITE_CORRUPT, 0, m)
        | Some iRead => if iRead =? 0 then find_tables n m w iLast pgno else (SQLITE_OK, iRead, m)
        end
  end.

Definition sqlite3WalFindFrame (m : WiData) (w : WalIndex) (readLock mxFrame pgno : Z) : Z * Z * WiData :=
  let iLast := mxFrame in
  if (iLast =? 0) || (readLock =? 0) then (SQLITE_OK, 0, m)
  else find_tables (Z.to_nat (walFramePage iLast + 1)) m w iLast pgno.

(** The linear search of the assertion at the end of [sqlite3WalFindFrame]. *)
Fixpoint linear_find (iTest : nat) (w : WalIndex) (pgno : Z) : Z :=
  match iTest with
  | O => 0
  | S n => if walFramePgno w (Z.of_nat iTest) =? pgno then Z.of_nat iTest else linear_find n w pgno
  end.
End index.

(** * One hash table *)

Definition NSLOT : Z := HASHTABLE_NSLOT.
Lemma NSLOT_eq : NSLOT = 8192.
Proof. done. Qed.

(** The slot at a distance from the start of a probe. *)
Definition slot (k d : Z) : Z := (k + d) mod NSLOT.

Lemma next_slot k d : walNextHash (slot k d) = slot k (d + 1).
Proof.
  unfold walNextHash, slot. change (HASHTABLE_NSLOT - 1) with (Z.ones 13). rewrite Z.land_ones by lia. change (2 ^ 13) with NSLOT.
  rewrite Z.add_mod_idemp_l by (rewrite NSLOT_eq; lia). f_equal. lia.
Qed.
Lemma walHash_range p : 0 <= walHash p < NSLOT.
Proof.
  unfold walHash. change (HASHTABLE_NSLOT - 1) with (Z.ones 13). rewrite Z.land_ones by lia. by apply Z.mod_pos_bound.
Qed.
Lemma slot_0 k : 0 <= k < NSLOT -> slot k 0 = k.
Proof. intros. unfold slot. rewrite Z.add_0_r. by apply Z.mod_small. Qed.
Lemma slot_range k d : 0 <= slot k d < NSLOT.
Proof. apply Z.mod_pos_bound. rewrite NSLOT_eq. lia. Qed.
Lemma slot_inj k d d' : 0 <= d < NSLOT -> 0 <= d' < NSLOT -> slot k d = slot k d' -> d = d'.
Proof. unfold slot. rewrite NSLOT_eq. intros. Z.to_euclidean_division_equations. lia. Qed.

(** The table of a page whose frames carry the page numbers [s]: entry [i] is reached from the hash of its page number over entries that are
    older, every entry has one slot, and nothing else is in the table. *)
Record table_ok (tbl s : list Z) : Prop := {
  tbl_length : Z.of_nat (length tbl) = NSLOT;
  tbl_path : forall i p, s !! i = Some p -> exists d, 0 <= d < NSLOT /\ rd tbl (slot (walHash p) d) = Z.of_nat i + 1 /\
    forall d', 0 <= d' < d -> 0 < rd tbl (slot (walHash p) d') < Z.of_nat i + 1;
  tbl_entries : forall k, 0 <= k < NSLOT -> 0 <= rd tbl k <= Z.of_nat (length s);
  tbl_inj : forall k k', 0 <= k < NSLOT -> 0 <= k' < NSLOT -> rd tbl k = rd tbl k' -> rd tbl k <> 0 -> k = k'
}.

Lemma first_zero (f : Z -> Z) m : 
  (exists d, 0 <= d < Z.of_nat m /\ f d = 0 /\ forall d', 0 <= d' < d -> f d' <> 0) \/ (forall d, 0 <= d < Z.of_nat m -> f d <> 0).
Proof.
  induction m as [|m [(d & ? & ? & ?)|IH]]; [right; lia|left; exists d; split_and!; done || lia|].
  destruct (decide (f (Z.of_nat m) = 0)) as [E|E].
  - left. exists (Z.of_nat m). split_and!; done || lia.
  - right. intros d Hd. destruct (decide (d = Z.of_nat m)) as [->|]; [done|]. apply IH. lia.
Qed.

(** The first empty slot of a probe: there are more slots than entries. *)
Lemma first_empty tbl s k : table_ok tbl s -> Z.of_nat (length s) < NSLOT ->
  exists d, 0 <= d <= Z.of_nat (length s) /\ rd tbl (slot k d) = 0 /\ forall d', 0 <= d' < d -> rd tbl (slot k d') <> 0.
Proof.
  intros Ht Hs. destruct (first_zero (fun d => rd tbl (slot k d)) (S (length s))) as [(d & ? & ? & ?)|Hall]; [exists d; split_and!; done || lia|].
  exfalso. set (l := map (fun d => rd tbl (slot k d)) (seqZ 0 (Z.of_nat (S (length s))))).
  assert (l ⊆+ seqZ 1 (Z.of_nat (length s))) as Hsub.
  { apply NoDup_submseteq.
    - apply NoDup_fmap_2_strong; [|apply NoDup_seqZ]. intros d d' Hd%elem_of_seqZ Hd'%elem_of_seqZ E.
      apply (slot_inj k); [lia|lia|]. apply (tbl_inj tbl s Ht); [apply slot_range|apply slot_range|done|apply Hall; lia].
    - intros x (d & -> & Hd%elem_of_seqZ)%list_elem_of_fmap. apply elem_of_seqZ.
      pose proof (tbl_entries tbl s Ht (slot k d) (slot_range k d)). pose proof (Hall d ltac:(lia)). lia. }
  apply submseteq_length in Hsub. unfold l in Hsub. rewrite length_map, !length_seqZ in Hsub. lia.
Qed.

Lemma append_probe_correct tbl k d : forall n, 0 <= d <= Z.of_nat n -> rd tbl (slot k d) = 0 -> (forall d', 0 <= d' < d -> rd tbl (slot k d') <> 0) ->
  append_probe n tbl (slot k 0) = Some (slot k d).
Proof.
  assert (forall n i, 0 <= i <= d -> d - i <= Z.of_nat n -> rd tbl (slot k d) = 0 -> (forall d', 0 <= d' < d -> rd tbl (slot k d') <> 0) ->
    append_probe n tbl (slot k i) = Some (slot k d)) as H.
  { induction n as [|n IH]; intros i Hi Hn H0 Hne; cbn [append_probe].
    - assert (i = d) as -> by lia. by rewrite (proj2 (Z.eqb_eq _ _) H0).
    - destruct (decide (i = d)) as [->|]; [by rewrite (proj2 (Z.eqb_eq _ _) H0)|].
      rewrite (proj2 (Z.eqb_neq _ _) (Hne i ltac:(lia))), next_slot. apply IH; lia || done. }
  intros n Hd H0 Hne. apply H; lia || done.
Qed.

(** Adding an entry. *)
Lemma table_add tbl s p d : table_ok tbl s -> Z.of_nat (length s) < NSLOT -> 0 <= d <= Z.of_nat (length s) ->
  rd tbl (slot (walHash p) d) = 0 -> (forall d', 0 <= d' < d -> rd tbl (slot (walHash p) d') <> 0) ->
  table_ok (wr tbl (slot (walHash p) d) (Z.of_nat (length s) + 1)) (s ++ [p]).
Proof.
  intros Ht Hs Hd H0 Hne. set (k := walHash p) in *. pose proof (tbl_length tbl s Ht) as Hl.
  assert (forall j, 0 <= j < NSLOT -> rd (wr tbl (slot k d) (Z.of_nat (length s) + 1)) j = if j =? slot k d then Z.of_nat (length s) + 1 else rd tbl j) as Hrd.
  { intros j Hj. pose proof (slot_range k d). destruct (Z.eqb_spec j (slot k d)) as [->|]; [apply rd_wr_eq; lia|apply rd_wr_ne; lia]. }
  constructor.
  - by rewrite length_wr.
  - intros i q Hi. destruct (decide (i = length s)) as [->|Hil].
    + rewrite lookup_app_r, Nat.sub_diag in Hi by lia. injection Hi as <-. fold k. exists d. split; [lia|]. rewrite Hrd, Z.eqb_refl by apply slot_range. split; [done|].
      intros d' Hd'. rewrite Hrd by apply slot_range. destruct (Z.eqb_spec (slot k d') (slot k d)) as [E|_]; [apply slot_inj in E; lia|].
      pose proof (tbl_entries tbl s Ht (slot k d') (slot_range _ _)). specialize (Hne d' Hd'). lia.
    + apply lookup_lt_Some in Hi as Hil'. rewrite length_app in Hil'. cbn in Hil'. rewrite lookup_app_l in Hi by lia.
      destruct (tbl_path tbl s Ht i q Hi) as (e & He & Hre & Hpath). exists e. split; [done|]. rewrite Hrd by apply slot_range. split.
      * destruct (Z.eqb_spec (slot (walHash q) e) (slot k d)) as [E|_]; [rewrite E in Hre; lia|done].
      * intros d' Hd'. rewrite Hrd by apply slot_range. specialize (Hpath d' Hd').
        destruct (Z.eqb_spec (slot (walHash q) d') (slot k d)) as [E|_]; [rewrite E in Hpath; lia|done].
  - intros j Hj. rewrite Hrd, length_app by done. pose proof (tbl_entries tbl s Ht j Hj). cbn [length]. destruct (_ =? _); lia.
  - intros j j' Hj Hj'. rewrite !Hrd by done. pose proof (tbl_entries tbl s Ht j Hj). pose proof (tbl_entries tbl s Ht j' Hj').
    destruct (Z.eqb_spec j (slot k d)), (Z.eqb_spec j' (slot k d)); try lia. by apply (tbl_inj tbl s Ht).
Qed.

(** Removing the entries of the frames beyond a limit. *)
Lemma rd_map (g : Z -> Z) l i : g 0 = 0 -> rd (map g l) i = g (rd l i).
Proof. intros Hg. unfold rd. rewrite <- Hg at 1. apply map_nth. Qed.

Lemma table_cleanup tbl s n : table_ok tbl s -> (n <= length s)%nat ->
  table_ok (map (fun e => if Z.of_nat n <? e then 0 else e) tbl) (take n s).
Proof.
  intros Ht Hn. assert (forall i, rd (map (fun e => if Z.of_nat n <? e then 0 else e) tbl) i = if Z.of_nat n <? rd tbl i then 0 else rd tbl i) as Hrd.
  { intros i. apply (rd_map (fun e => if Z.of_nat n <? e then 0 else e)). by destruct (_ <? _). }
  constructor.
  - rewrite length_map. apply (tbl_length tbl s Ht).
  - intros i p Hi. apply lookup_take_Some in Hi as [Hi Hin]. destruct (tbl_path tbl s Ht i p Hi) as (d & Hd & Hv & Hp). exists d. split; [done|].
    rewrite Hrd, Hv. split; [rewrite (proj2 (Z.ltb_ge _ _)); lia|]. intros d' Hd'. rewrite Hrd. specialize (Hp d' Hd').
    rewrite (proj2 (Z.ltb_ge _ _)); lia.
  - intros k Hk. rewrite Hrd, length_take, Nat.min_l by done. pose proof (tbl_entries tbl s Ht k Hk). destruct (Z.ltb_spec (Z.of_nat n) (rd tbl k)); lia.
  - intros k k' Hk Hk'. rewrite !Hrd. destruct (_ <? _), (_ <? _); try lia. by apply (tbl_inj tbl s Ht).
Qed.

(** * The search *)

(** The linear search that the search of the hash tables must agree with. *)
Fixpoint last_frame (fs : list Z) (n : nat) (pgno : Z) : Z :=
  match n with
  | O => 0
  | S m => if decide (fs !! m = Some pgno) then Z.of_nat n else last_frame fs m pgno
  end.

Lemma last_frame_spec fs n pgno :
  (last_frame fs n pgno = 0 /\ forall i, (i < n)%nat -> fs !! i <> Some pgno) \/
  exists i, (i < n)%nat /\ last_frame fs n pgno = Z.of_nat i + 1 /\ fs !! i = Some pgno /\ forall j, (i < j < n)%nat -> fs !! j <> Some pgno.
Proof.
  induction n as [|n IH]; cbn [last_frame]; [left; split; [done|lia]|]. case_decide as E.
  - right. exists n. split_and!; [lia|lia|done|lia].
  - destruct IH as [[H0 H]|(i & Hi & Hr & He & H)]; [left|right; exists i]; split_and!; try done || lia.
    + intros j Hj. destruct (decide (j = n)) as [->|]; [done|apply H; lia].
    + intros j Hj. destruct (decide (j = n)) as [->|]; [done|apply H; lia].
Qed.

Lemma last_frame_app fs a b pgno :
  last_frame fs (a + b) pgno = let r := last_frame (drop a fs) b pgno in if r =? 0 then last_frame fs a pgno else r + Z.of_nat a.
Proof.
  induction b as [|b IH]; [by rewrite Nat.add_0_r|]. rewrite Nat.add_succ_r. cbn [last_frame]. rewrite lookup_drop. case_decide; [|done].
  cbv zeta. rewrite (proj2 (Z.eqb_neq _ _)); lia.
Qed.

Lemma last_frame_clip fs n pgno : last_frame fs n pgno = last_frame fs (n `min` length fs) pgno.
Proof.
  induction n as [|n IH]; [done|]. destruct (decide (n < length fs)%nat); [by rewrite Nat.min_l by lia|].
  rewrite Nat.min_r in * by lia. cbn [last_frame]. rewrite lookup_ge_None_2 by lia. by case_decide.
Qed.

Section probe.
Context (p : HashPage) (iZero iLast pgno k e : Z).

Definition hit (d : Z) : Prop :=
  rd (aHash p) (slot k d) + iZero <= iLast /\ rd (aPgno p) (rd (aHash p) (slot k d) - 1) = pgno.

Lemma find_probe_spec : forall n i iRead, 0 <= i <= e -> e - i <= Z.of_nat n ->
  rd (aHash p) (slot k e) = 0 -> (forall d, 0 <= d < e -> rd (aHash p) (slot k d) <> 0) ->
  exists r, find_probe n p iZero iLast pgno (slot k i) iRead = Some r /\
    ((r = iRead /\ forall d, i <= d < e -> ~ hit d) \/
     exists d, i <= d < e /\ hit d /\ r = rd (aHash p) (slot k d) + iZero /\ forall d', d < d' < e -> ~ hit d').
Proof.
  assert (forall n iRead, rd (aHash p) (slot k e) = 0 -> find_probe n p iZero iLast pgno (slot k e) iRead = Some iRead) as Hend.
  { intros n iRead H0. destruct n; cbn [find_probe]; by rewrite (proj2 (Z.eqb_eq _ _) H0). }
  induction n as [|n IH]; intros i iRead Hi Hn H0 Hne.
  - assert (i = e) as -> by lia. eexists. split; [by apply Hend|]. left. split; [done|lia].
  - destruct (decide (i = e)) as [->|]; [eexists; split; [by apply Hend|]; left; split; [done|lia]|].
    cbn [find_probe]. rewrite (proj2 (Z.eqb_neq _ _) (Hne i ltac:(lia))), next_slot. cbv zeta.
    destruct (IH (i + 1) (if (rd (aHash p) (slot k i) + iZero <=? iLast) && (rd (aPgno p) (rd (aHash p) (slot k i) - 1) =? pgno)
      then rd (aHash p) (slot k i) + iZero else iRead)) as (r & Hr & Hcase); [lia|lia|done|done|].
    exists r. split; [done|]. destruct Hcase as [[-> Hno]|(d & Hd & Hh & -> & Hno)].
    + destruct (Z.leb_spec (rd (aHash p) (slot k i) + iZero) iLast), (Z.eqb_spec (rd (aPgno p) (rd (aHash p) (slot k i) - 1)) pgno); cbn [andb];
        [right; exists i; split_and!; [lia|lia|by split|done|intros; apply Hno; lia]|left; split; [done|]..];
        (intros d Hd [??]; destruct (decide (d = i)) as [->|]; [lia|apply (Hno d); [lia|by split]]).
    + right. exists d. split_and!; [lia|lia|done|done|done].
Qed.
End probe.

(** * A page of the index *)

(** Page [iHash] holds the page numbers [s] of its frames. *)
Record page_ok (iHash : Z) (p : HashPage) (s : list Z) : Prop := {
  page_room : Z.of_nat (length s) <= npage iHash;
  page_pgno : aPgno p = s ++ replicate (Z.to_nat (npage iHash) - length s) 0;
  page_tbl : table_ok (aHash p) s;
  page_pos : Forall (fun x => 0 < x) s
}.

Lemma npage_range h : 0 < npage h <= 4096.
Proof. unfold npage. destruct (_ =? _); vm_compute; split; done. Qed.

Lemma rd_replicate n i : rd (replicate n 0) i = 0.
Proof. unfold rd. rewrite nth_lookup. destruct (_ !! _) eqn:E; [|done]. by apply lookup_replicate in E as [-> _]. Qed.

Lemma page_ok_zero h : page_ok h (zero_page h) [].
Proof.
  pose proof (npage_range h). constructor; [cbn [length]; lia|cbn [length zero_page aPgno]; by rewrite Nat.sub_0_r| |constructor].
  constructor; cbn [zero_page aHash]; [rewrite length_replicate; unfold NSLOT; rewrite Z2Nat.id; by vm_compute|done| |]; intros; rewrite rd_replicate in *; [cbn; lia|done].
Qed.

Lemma page_rd h p s i : page_ok h p s -> 0 <= i -> rd (aPgno p) i = default 0 (s !! Z.to_nat i).
Proof.
  intros Hp Hi. rewrite (page_pgno _ _ _ Hp). destruct (decide (i < Z.of_nat (length s))).
  - rewrite rd_app_l by lia. rewrite lookup_rd by lia. done.
  - rewrite rd_app_r, rd_replicate by lia. by rewrite lookup_ge_None_2 by lia.
Qed.

Lemma page_cleanup h p s n : page_ok h p s -> (n <= length s)%nat -> page_ok h (cleanup_page (Z.of_nat n) p) (take n s).
Proof.
  intros [Hr Hpg Ht Hf] Hn. constructor.
  - rewrite length_take. lia.
  - cbn [cleanup_page aPgno]. rewrite Nat2Z.id, Hpg, take_app_le, length_app, length_replicate, length_take by lia. do 2 f_equal. lia.
  - by apply table_cleanup.
  - by apply Forall_take.
Qed.

(** Adding a frame to a page with room. *)
Lemma page_add h p s pg : page_ok h p s -> Z.of_nat (length s) < npage h -> 0 < pg ->
  exists iKey, append_probe (S (length s)) (aHash p) (walHash pg) = Some iKey /\
    page_ok h {| aPgno := wr (aPgno p) (Z.of_nat (length s)) pg; aHash := wr (aHash p) iKey (Z.of_nat (length s) + 1) |} (s ++ [pg]).
Proof.
  intros [Hr Hpg Ht Hf] Hn Hpos. pose proof (npage_range h) as Hnp. pose proof NSLOT_eq as HN.
  destruct (first_empty (aHash p) s (walHash pg) Ht) as (d & Hd & H0 & Hne); [lia|]. exists (slot (walHash pg) d). split.
  - rewrite <- (slot_0 (walHash pg)) at 1 by apply walHash_range. apply append_probe_correct; lia || done.
  - constructor; cbn [aPgno aHash].
    + rewrite length_app. cbn [length]. lia.
    + rewrite Hpg. replace (Z.to_nat (npage h) - length s)%nat with (S (Z.to_nat (npage h) - length (s ++ [pg])))
        by (rewrite length_app; cbn [length]; lia).
      cbn [replicate]. rewrite wr_app by done. by rewrite <- app_assoc.
    + apply table_add; done || lia.
    + apply Forall_app. by split; [|constructor].
Qed.

(** The search of one table finds the last of the page's frames, up to the reader's last one, that holds the page. *)
Lemma page_find h p s iZero iLast pgno : page_ok h p s -> 0 < pgno -> iZero <= iLast ->
  find_probe (Z.to_nat HASHTABLE_NSLOT) p iZero iLast pgno (walHash pgno) 0 =
    Some (let r := last_frame s (Z.to_nat (iLast - iZero)) pgno in if r =? 0 then 0 else r + iZero).
Proof.
  intros Hp Hpos Hz. pose proof (page_tbl _ _ _ Hp) as Ht. pose proof (npage_range h) as Hnp. pose proof (page_room _ _ _ Hp) as Hroom. pose proof NSLOT_eq as HN.
  set (k := walHash pgno). destruct (first_empty (aHash p) s k Ht) as (e & He & H0 & Hne); [lia|].
  destruct (find_probe_spec p iZero iLast pgno k e (Z.to_nat HASHTABLE_NSLOT) 0 0) as (r & Hr & Hcase); [lia|unfold NSLOT in *; lia|done|done|].
  rewrite slot_0 in Hr by apply walHash_range. rewrite Hr. f_equal. clear Hr.
  assert (forall d, 0 <= d < e -> hit p iZero iLast pgno k d ->
    exists i, rd (aHash p) (slot k d) = Z.of_nat i + 1 /\ (i < Z.to_nat (iLast - iZero))%nat /\ s !! i = Some pgno) as Hhit.
  { intros d Hd [Hl Hpg]. pose proof (tbl_entries _ _ Ht (slot k d) (slot_range k d)). specialize (Hne d Hd).
    exists (Z.to_nat (rd (aHash p) (slot k d) - 1)). split_and!; [lia|lia|]. rewrite (page_rd h p s) in Hpg by (done || lia).
    destruct (s !! _) as [x|]; cbn in Hpg; [by subst|lia]. }
  assert (forall i, (i < Z.to_nat (iLast - iZero))%nat -> s !! i = Some pgno -> exists d, 0 <= d < e /\ hit p iZero iLast pgno k d /\
    rd (aHash p) (slot k d) = Z.of_nat i + 1 /\ forall d', 0 <= d' < d -> 0 < rd (aHash p) (slot k d') < Z.of_nat i + 1) as Hpath.
  { intros i Hi Hs. destruct (tbl_path _ _ Ht i pgno Hs) as (d & Hd & Hv & Hb). exists d. split; [|split; [split|done]].
    - split; [lia|]. destruct (decide (d < e)); [done|]. destruct (decide (d = e)) as [->|]; [fold k in Hv; lia|]. specialize (Hb e). fold k in Hb. lia.
    - fold k in Hv. rewrite Hv. lia.
    - fold k in Hv. rewrite Hv, (page_rd h p s) by (done || lia). replace (Z.to_nat (Z.of_nat i + 1 - 1)) with i by lia. by rewrite Hs. }
  cbv zeta. destruct (last_frame_spec s (Z.to_nat (iLast - iZero)) pgno) as [[-> Hn]|(i & Hi & -> & Hs & Hl)]; cbn [Z.eqb].
  - destruct Hcase as [[-> _]|(d & Hd & Hh & _)]; [done|]. destruct (Hhit d Hd Hh) as (i & _ & Hi & Hs). by destruct (Hn i Hi).
  - rewrite (proj2 (Z.eqb_neq _ _)) by lia. destruct (Hpath i Hi Hs) as (d & Hd & Hh & Hv & Hb).
    destruct Hcase as [[_ Hno]|(d2 & Hd2 & Hh2 & -> & Hno)]; [by destruct (Hno d Hd)|].
    destruct (Hhit d2 Hd2 Hh2) as (j & Hj & Hjl & Hjs). destruct (decide (d2 = d)) as [->|]; [lia|].
    destruct (decide (d2 < d)); [exfalso; apply (Hno d); [lia|done]|]. exfalso.
    destruct (Hpath j Hjl Hjs) as (d3 & Hd3 & _ & Hv3 & Hb3).
    assert (d3 = d2) as ->. { apply (slot_inj k); [lia|lia|]. apply (tbl_inj _ _ Ht); [apply slot_range|apply slot_range|lia|lia]. }
    specialize (Hb3 d). apply (Hl j); [lia|done].
Qed.

(** * The index *)

(** The page numbers of the frames that page [h] indexes. *)
Definition table_part (h : Z) (fs : list Z) : list Z := take (Z.to_nat (npage h)) (drop (Z.to_nat (iZero_of h)) fs).

(** The index holds the frames with the page numbers [fs], frame 1 first. *)
Definition index_ok (w : WalIndex) (fs : list Z) : Prop :=
  forall h, 0 <= h -> iZero_of h < Z.of_nat (length fs) -> page_ok h (page_at w h) (table_part h fs).

Lemma iZero_succ h : 0 <= h -> iZero_of (h + 1) = iZero_of h + npage h.
Proof. intros. unfold iZero_of, npage, HASHTABLE_NPAGE. rewrite (proj2 (Z.eqb_neq (h + 1) 0)) by lia. destruct (Z.eqb_spec h 0); lia. Qed.
Lemma iZero_nonneg h : 0 <= h -> 0 <= iZero_of h.
Proof. intros. unfold iZero_of. change HASHTABLE_NPAGE with 4096. change HASHTABLE_NPAGE_ONE with 4062. destruct (Z.eqb_spec h 0); lia. Qed.

Lemma index_ok_nil w : index_ok w [].
Proof. intros h Hh Hz. pose proof (iZero_nonneg h Hh). cbn [length] in Hz. lia. Qed.

(** A frame is indexed by one page. *)
Lemma walFramePage_spec f : 0 < f -> 0 <= walFramePage f /\ iZero_of (walFramePage f) < f <= iZero_of (walFramePage f) + npage (walFramePage f).
Proof.
  intros Hf. unfold walFramePage, iZero_of, npage. change HASHTABLE_NPAGE with 4096. change HASHTABLE_NPAGE_ONE with 4062.
  destruct (Z.eqb_spec ((f + 4096 - 4062 - 1) / 4096) 0); Z.to_euclidean_division_equations; lia.
Qed.
Lemma walFramePage_unique f h : 0 <= h -> iZero_of h < f <= iZero_of h + npage h -> walFramePage f = h.
Proof.
  unfold walFramePage, iZero_of, npage. change HASHTABLE_NPAGE with 4096. change HASHTABLE_NPAGE_ONE with 4062.
  destruct (Z.eqb_spec h 0); intros; Z.to_euclidean_division_equations; lia.
Qed.
Lemma iZero_mono h h' : 0 <= h < h' -> iZero_of h + npage h <= iZero_of h'.
Proof.
  unfold iZero_of, npage. change HASHTABLE_NPAGE with 4096. change HASHTABLE_NPAGE_ONE with 4062.
  destruct (Z.eqb_spec h 0), (Z.eqb_spec h' 0); lia.
Qed.

Lemma lookup_part h fs i : (i < Z.to_nat (npage h))%nat -> table_part h fs !! i = fs !! (Z.to_nat (iZero_of h) + i)%nat.
Proof. intros. unfold table_part. by rewrite lookup_take_lt, lookup_drop by done. Qed.
Lemma length_part h fs : 0 <= h -> Z.of_nat (length (table_part h fs)) = Z.max 0 (Z.min (npage h) (Z.of_nat (length fs) - iZero_of h)).
Proof. intros. pose proof (iZero_nonneg h). pose proof (npage_range h). unfold table_part. rewrite length_take, length_drop. lia. Qed.

Lemma last_frame_take fs m n pgno : last_frame (take m fs) n pgno = last_frame fs (n `min` m) pgno.
Proof.
  induction n as [|n IH]; [done|]. cbn [last_frame]. destruct (decide (n < m)%nat).
  - rewrite lookup_take_lt, Nat.min_l by lia. cbn [last_frame]. rewrite IH, Nat.min_l by lia. done.
  - rewrite lookup_take_ge by lia. rewrite decide_False by done. rewrite IH. f_equal. lia.
Qed.

(** The errors that mapping a page reports. *)
Definition map_error (env : ShmEnv) (rc : Z) : Prop := rc <> SQLITE_OK /\ (rc = SQLITE_NOMEM \/ exists t h, rc = xShmMap env t h).

(** No call fails. *)
Definition env_ok (env : ShmEnv) : Prop :=
  (forall t, xRealloc env t = true) /\ (forall t, xMallocZero env t = true) /\ forall t h, xShmMap env t h = SQLITE_OK \/ xShmMap env t h = SQLITE_READONLY.

(** A page that was mapped stays mapped: mapping it again does nothing. *)
Lemma walIndexPage_spec env m h : let '(rc, m') := walIndexPage env m h in
  (rc = SQLITE_OK -> walIndexPage env m' h = (SQLITE_OK, m')) /\ (rc <> SQLITE_OK -> map_error env rc) /\ (env_ok env -> rc = SQLITE_OK).
Proof.
  assert (forall m1, nWiData m1 <=? h = false -> h ∈ apWiData m1 -> walIndexPage env m1 h = (SQLITE_OK, m1)) as Hagain.
  { intros m1 Hn Hin. unfold walIndexPage. rewrite Hn. cbn [andb]. by rewrite decide_True. }
  assert (forall rc, map_error env rc -> rc <> SQLITE_OK) as Herr by (by intros rc [? _]).
  unfold walIndexPage at 1. destruct (nWiData m <=? h) eqn:Hg; cbn [andb].
  - destruct (xRealloc env (calls m)) eqn:Hr; cbn [negb nWiData apWiData readOnly calls].
    + assert (forall ro c s, walIndexPage env {| nWiData := h + 1; apWiData := {[h]} ∪ s; readOnly := ro; calls := c |} h =
        (SQLITE_OK, {| nWiData := h + 1; apWiData := {[h]} ∪ s; readOnly := ro; calls := c |})) as Hm.
      { intros. apply Hagain; cbn; [apply Z.leb_gt; lia|set_solver]. }
      case_decide; [split_and!; [intros _; apply Hagain; cbn; [apply Z.leb_gt; lia|done]|done|done]|].
      destruct (_ =? _); [destruct (xMallocZero env _) eqn:Hz|destruct (Z.eqb_spec (xShmMap env (S (calls m)) h) SQLITE_READONLY);
        [|destruct (Z.eqb_spec (xShmMap env (S (calls m)) h) SQLITE_OK)]]; (split_and!; [try done; by intros _|try done|try done]).
      * intros _. by split; [|left].
      * intros (_ & Hz' & _). by rewrite Hz' in Hz.
      * intros _. split; [done|]. right. by eexists _, _.
      * intros (_ & _ & Hs). by destruct (Hs (S (calls m)) h).
    + split_and!; [done|by split; [|left]|]. intros (Hr' & _). by rewrite Hr' in Hr.
  - case_decide as Hin; [split_and!; [intros _; by apply Hagain|done|done]|].
    assert (forall ro c s, walIndexPage env {| nWiData := nWiData m; apWiData := {[h]} ∪ s; readOnly := ro; calls := c |} h =
        (SQLITE_OK, {| nWiData := nWiData m; apWiData := {[h]} ∪ s; readOnly := ro; calls := c |})) as Hm.
    { intros. apply Hagain; cbn; [done|set_solver]. }
    destruct (_ =? _); [destruct (xMallocZero env _) eqn:Hz|destruct (Z.eqb_spec (xShmMap env (calls m) h) SQLITE_READONLY);
        [|destruct (Z.eqb_spec (xShmMap env (calls m) h) SQLITE_OK)]]; (split_and!; [try done; by intros _|try done|try done]).
    + intros _. by split; [|left].
    + intros (_ & Hz' & _). by rewrite Hz' in Hz.
    + intros _. split; [done|]. right. by eexists _, _.
    + intros (_ & _ & Hs). by destruct (Hs (calls m) h).
Qed.

Section find.
Context (env : ShmEnv) (w : WalIndex) (fs : list Z) (iLast pgno : Z).
Context (Hok : index_ok w fs) (Hlast : 0 < iLast <= Z.of_nat (length fs)) (Hpg : 0 < pgno).

Lemma find_tables_correct n : forall m, iZero_of (Z.of_nat n - 1) < iLast \/ n = O ->
  let '(rc, iRead, _) := find_tables env n m w iLast pgno in
  (rc = SQLITE_OK -> iRead = last_frame fs (Z.to_nat (Z.min iLast (iZero_of (Z.of_nat n)))) pgno) /\ (rc <> SQLITE_OK -> map_error env rc) /\
  (env_ok env -> rc = SQLITE_OK).
Proof.
  induction n as [|n IH]; intros m Hz; [change (iZero_of (Z.of_nat 0)) with 0; by rewrite Z.min_r by lia|]. cbn [find_tables].
  replace (Z.of_nat (S n) - 1) with (Z.of_nat n) in Hz by lia. replace (Z.of_nat (S n)) with (Z.of_nat n + 1) in * by lia.
  destruct Hz as [Hz|]; [|done]. unfold walHashGet. pose proof (walIndexPage_spec env m (Z.of_nat n)) as Hmap.
  destruct (walIndexPage env m (Z.of_nat n)) as [rc m1]. destruct Hmap as (_ & Herr & Henv).
  destruct (Z.eqb_spec rc SQLITE_OK) as [->|Hrc]; cbn [negb]; [|done].
  pose proof (iZero_nonneg (Z.of_nat n)) as Hnn. pose proof (npage_range (Z.of_nat n)) as Hnp.
  rewrite (page_find (Z.of_nat n) _ (table_part (Z.of_nat n) fs)) by (done || lia || (apply Hok; lia)). unfold table_part. rewrite last_frame_take.
  rewrite iZero_succ by lia.
  replace (Z.to_nat (Z.min iLast (iZero_of (Z.of_nat n) + npage (Z.of_nat n)))) with
    (Z.to_nat (iZero_of (Z.of_nat n)) + Z.to_nat (iLast - iZero_of (Z.of_nat n)) `min` Z.to_nat (npage (Z.of_nat n)))%nat by lia.
  rewrite last_frame_app. cbv zeta. set (r := last_frame _ (_ `min` _) _).
  assert (0 <= r) by (destruct (last_frame_spec (drop (Z.to_nat (iZero_of (Z.of_nat n))) fs)
    (Z.to_nat (iLast - iZero_of (Z.of_nat n)) `min` Z.to_nat (npage (Z.of_nat n))) pgno) as [[E _]|(i & _ & E & _)]; unfold r; lia).
  destruct (Z.eqb_spec r 0) as [E|E]; cbn [Z.eqb].
  - specialize (IH m1). destruct (find_tables env n m1 w iLast pgno) as [[rc iRead] m2]. rewrite Z.min_r in IH by lia. apply IH.
    destruct n as [|n]; [by right|left]. pose proof (iZero_mono (Z.of_nat (S n) - 1) (Z.of_nat (S n))). pose proof (npage_range (Z.of_nat (S n) - 1)). lia.
  - rewrite (proj2 (Z.eqb_neq _ _)) by lia. split_and!; [intros _; lia|done|done].
Qed.

Lemma walFramePgno_correct f : 0 < f <= Z.of_nat (length fs) -> walFramePgno w f = rd fs (f - 1).
Proof.
  intros Hf. destruct (walFramePage_spec f) as [Hh Hr]; [lia|]. pose proof (iZero_nonneg _ Hh) as Hnn.
  assert (walFramePgno w f = rd (aPgno (page_at w (walFramePage f))) (f - 1 - iZero_of (walFramePage f))) as ->.
  { unfold walFramePgno. destruct (Z.eqb_spec (walFramePage f) 0) as [E|E]; [rewrite E; f_equal; cbn; lia|]. f_equal.
    revert Hh Hr E. generalize (walFramePage f). intros h Hh Hr E. unfold iZero_of, npage in *. rewrite (proj2 (Z.eqb_neq _ _) E) in *.
    change HASHTABLE_NPAGE with 4096 in *. change HASHTABLE_NPAGE_ONE with 4062 in *. Z.to_euclidean_division_equations. lia. }
  rewrite (page_rd (walFramePage f) _ (table_part (walFramePage f) fs)) by (lia || (apply Hok; lia)).
  rewrite lookup_part by lia. unfold rd. rewrite nth_lookup. do 2 f_equal. lia.
Qed.

Lemma linear_find_correct n : Z.of_nat n <= Z.of_nat (length fs) -> linear_find n w pgno = last_frame fs n pgno.
Proof.
  induction n as [|n IH]; intros Hn; [done|]. cbn [linear_find last_frame]. rewrite walFramePgno_correct, IH by lia.
  replace (Z.of_nat (S n) - 1) with (Z.of_nat n) by lia. pose proof (lookup_rd fs (Z.of_nat n)) as Hl. rewrite Nat2Z.id in Hl. rewrite Hl by lia.
  destruct (Z.eqb_spec (rd fs (Z.of_nat n)) pgno) as [->|]; case_decide; congruence.
Qed.

Lemma find_frame_ok m readLock : readLock <> 0 -> let '(rc, iRead, _) := sqlite3WalFindFrame env m w readLock iLast pgno in
  (rc = SQLITE_OK -> iRead = last_frame fs (Z.to_nat iLast) pgno) /\ (rc <> SQLITE_OK -> map_error env rc) /\ (env_ok env -> rc = SQLITE_OK).
Proof.
  intros Hrl. unfold sqlite3WalFindFrame. rewrite (proj2 (Z.eqb_neq iLast 0)), (proj2 (Z.eqb_neq _ _) Hrl) by lia. cbn [orb].
  destruct (walFramePage_spec iLast) as [Hh Hr]; [lia|]. pose proof (find_tables_correct (Z.to_nat (walFramePage iLast + 1)) m) as Hfind.
  rewrite Z2Nat.id, iZero_succ, Z.min_l in Hfind by lia. apply Hfind. left.
  replace (walFramePage iLast + 1 - 1) with (walFramePage iLast) by lia. lia.
Qed.
End find.

(** C23. Looking up a page in the hash tables gives what a linear search of the frames, newest first, gives: the last frame up to [mxFrame] with that
    page, or 0. The code asserts this when expensive assertions are on. The only errors are those of mapping shared memory. *)
Theorem walFindFrame_correct env m w fs readLock mxFrame pgno :
  index_ok w fs -> 0 < mxFrame <= Z.of_nat (length fs) -> 0 < pgno -> readLock <> 0 ->
  let '(rc, iRead, _) := sqlite3WalFindFrame env m w readLock mxFrame pgno in
  (rc = SQLITE_OK -> iRead = linear_find (Z.to_nat mxFrame) w pgno /\ iRead = last_frame fs (Z.to_nat mxFrame) pgno) /\
  (rc <> SQLITE_OK -> map_error env rc) /\ (env_ok env -> rc = SQLITE_OK).
Proof.
  intros Hok Hmx Hpg Hrl. pose proof (find_frame_ok env w fs mxFrame pgno Hok Hmx Hpg m readLock Hrl) as H.
  rewrite (linear_find_correct w fs pgno Hok) by lia. destruct (sqlite3WalFindFrame _ _ _ _ _ _) as [[rc iRead] m']. destruct H as (H1 & H2 & H3).
  split_and!; [|done|done]. intros E. split; by apply H1.
Qed.

(** * Updates of the index *)

Lemma page_at_insert w h p : page_at (<[h := p]> w) h = p.
Proof. unfold page_at. by rewrite lookup_insert_eq. Qed.
Lemma page_at_insert_ne w h h' p : h <> h' -> page_at (<[h := p]> w) h' = page_at w h'.
Proof. intros. unfold page_at. by rewrite lookup_insert_ne. Qed.

Lemma part_take h fs n : 0 <= h -> table_part h (take n fs) = take (Z.to_nat (Z.of_nat n - iZero_of h)) (table_part h fs).
Proof.
  intros Hh. pose proof (iZero_nonneg h Hh). unfold table_part. rewrite skipn_firstn_comm, !take_take. f_equal. lia.
Qed.
Lemma part_below h fs n ext : 0 <= h -> iZero_of h + npage h <= Z.of_nat n -> (n <= length fs)%nat -> table_part h (take n fs ++ ext) = table_part h fs.
Proof.
  intros Hh Hn Hl. pose proof (iZero_nonneg h Hh). pose proof (npage_range h). unfold table_part.
  rewrite drop_app_le by (rewrite length_take; lia). rewrite take_app_le by (rewrite length_drop, length_take; lia).
  rewrite skipn_firstn_comm, take_take. f_equal. lia.
Qed.
Lemma part_snoc h fs pg : 0 <= h -> iZero_of h <= Z.of_nat (length fs) < iZero_of h + npage h -> table_part h (fs ++ [pg]) = table_part h fs ++ [pg].
Proof.
  intros Hh Hl. pose proof (iZero_nonneg h Hh). unfold table_part. rewrite drop_app_le by lia.
  rewrite !take_ge by (rewrite ?length_app, ?length_drop; cbn [length]; lia). done.
Qed.

(** A change of the page of the last frame that leaves the pages before it alone. *)
Lemma index_ok_change w h p fs n ext : index_ok w fs -> (n <= length fs)%nat -> 0 <= h -> iZero_of h <= Z.of_nat n ->
  Z.of_nat (length (take n fs ++ ext)) <= iZero_of h + npage h -> page_ok h p (table_part h (take n fs ++ ext)) ->
  index_ok (<[h := p]> w) (take n fs ++ ext).
Proof.
  intros Hok Hn Hh Hz Hl Hp h' Hh' Hz'. destruct (decide (h = h')) as [<-|Hne]; [by rewrite page_at_insert|].
  rewrite page_at_insert_ne by done. assert (h' < h) as Hlt.
  { destruct (decide (h' < h)); [done|]. pose proof (iZero_mono h h'). lia. }
  pose proof (iZero_mono h' h). pose proof (npage_range h'). rewrite part_below by lia. apply Hok; lia.
Qed.

Section update.
Context (env : ShmEnv).

(** Dropping the frames beyond [n]. *)
Lemma cleanup_index_ok m w fs n : index_ok w fs -> (n <= length fs)%nat -> (walIndexPage env m (walFramePage (Z.of_nat n))).1 = SQLITE_OK ->
  exists m' w', walCleanupHash env m w (Z.of_nat n) = Some (m', w') /\ index_ok w' (take n fs).
Proof.
  intros Hok Hn Hmap. unfold walCleanupHash. destruct (Z.eqb_spec (Z.of_nat n) 0) as [E|E].
  - eexists _, _. split; [done|]. replace n with O by lia. apply index_ok_nil.
  - unfold walHashGet. destruct (walIndexPage env m _) as [rc m1]. cbn [fst] in Hmap. subst rc. cbn [Z.eqb SQLITE_OK].
    eexists _, _. split; [done|]. destruct (walFramePage_spec (Z.of_nat n)) as [Hh Hr]; [lia|]. set (h := walFramePage (Z.of_nat n)) in *.
    rewrite <- (app_nil_r (take n fs)).
    apply index_ok_change; [done|done|done|lia|rewrite length_app, length_take; cbn [length]; lia|].
    rewrite app_nil_r, part_take by done. replace (Z.of_nat n - iZero_of h) with (Z.of_nat (Z.to_nat (Z.of_nat n - iZero_of h))) by lia.
    rewrite Nat2Z.id. apply page_cleanup; [apply Hok; lia|]. pose proof (length_part h fs Hh). lia.
Qed.

(** The page of the next entry, after the remains of a writer that died are gone. *)
Lemma append_clean m w fs n mxFrame : index_ok w fs -> (n <= length fs)%nat -> n = length fs \/ Z.of_nat n = mxFrame ->
  let h := walFramePage (Z.of_nat n + 1) in let idx := Z.of_nat n + 1 - iZero_of h in
  walIndexPage env m h = (SQLITE_OK, m) ->
  let w1 := if idx =? 1 then <[h := zero_page h]> w else w in
  exists w2, (if negb (rd (aPgno (page_at w1 h)) (idx - 1) =? 0) then walCleanupHash env m w1 mxFrame else Some (m, w1)) = Some (m, w2) /\
    page_ok h (page_at w2 h) (take (Z.to_nat (idx - 1)) (table_part h fs)) /\ forall p, <[h := p]> w2 = <[h := p]> w.
Proof.
  intros Hok Hn Hmx h idx Hmap w1. destruct (walFramePage_spec (Z.of_nat n + 1)) as [Hh Hr]; [lia|]. fold h in Hh, Hr.
  pose proof (iZero_nonneg h Hh) as Hnn. unfold w1. destruct (Z.eqb_spec idx 1) as [E|E].
  - eexists. rewrite E, page_at_insert. cbn [zero_page aPgno]. rewrite rd_replicate. split; [done|]. rewrite page_at_insert.
    split; [apply page_ok_zero|]. intros p. by rewrite insert_insert_eq.
  - assert (page_ok h (page_at w h) (table_part h fs)) as Hph by (apply Hok; lia).
    rewrite (page_rd h _ _ _ Hph) by lia. pose proof (length_part h fs Hh) as Hls. destruct (table_part h fs !! Z.to_nat (idx - 1)) as [x|] eqn:Hx.
    + pose proof (page_pos _ _ _ Hph) as Hpos. rewrite Forall_lookup in Hpos. specialize (Hpos _ _ Hx). cbn [default from_option id].
      rewrite (proj2 (Z.eqb_neq _ _)) by lia. cbn [negb]. apply lookup_lt_Some in Hx.
      assert (Z.of_nat n = mxFrame) as <- by (destruct Hmx as [->|]; lia). unfold walCleanupHash. rewrite (proj2 (Z.eqb_neq (Z.of_nat n) 0)) by lia.
      rewrite (walFramePage_unique (Z.of_nat n) h) by lia. unfold walHashGet. rewrite Hmap. cbn [Z.eqb SQLITE_OK]. eexists. split; [done|].
      replace (Z.of_nat n - iZero_of h) with (Z.of_nat (Z.to_nat (idx - 1))) by lia.
      split; [rewrite page_at_insert; apply page_cleanup; [done|lia]|]. intros p. by rewrite insert_insert_eq.
    + apply lookup_ge_None_1 in Hx. cbn [default from_option negb Z.eqb]. eexists. split; [done|]. by rewrite take_ge by lia.
Qed.

(** Appending after frame [n]: at the end, or after the last frame of the header over the frames of a writer that died. *)
Lemma append_index_ok m w fs n mxFrame pg : index_ok w fs -> 0 < pg -> (n <= length fs)%nat -> n = length fs \/ Z.of_nat n = mxFrame ->
  exists rc m' w', walIndexAppend env m w mxFrame (Z.of_nat n + 1) pg = Some (rc, m', w') /\
    (rc = SQLITE_OK -> index_ok w' (take n fs ++ [pg])) /\ (rc <> SQLITE_OK -> w' = w /\ map_error env rc) /\ (env_ok env -> rc = SQLITE_OK).
Proof.
  intros Hok Hpg Hm Hmx. unfold walIndexAppend, walHashGet. pose proof (walIndexPage_spec env m (walFramePage (Z.of_nat n + 1))) as Hmap.
  destruct (walIndexPage env m _) as [rc m1]. destruct Hmap as (Hmap & Herr & Henv).
  destruct (Z.eqb_spec rc SQLITE_OK) as [->|Hrc]; cbn [negb]; [|eexists _, _, _; split_and!; [done|done|by split; [|apply Herr]|done]].
  destruct (append_clean m1 w fs n mxFrame Hok Hm Hmx (Hmap eq_refl)) as (w2 & -> & Hp & Hw). cbn [mbind option_bind].
  destruct (walFramePage_spec (Z.of_nat n + 1)) as [Hh Hr]; [lia|]. set (h := walFramePage (Z.of_nat n + 1)) in *.
  pose proof (iZero_nonneg h Hh) as Hnn. set (idx := Z.of_nat n + 1 - iZero_of h) in *. set (k := Z.to_nat (idx - 1)) in *.
  assert (Z.of_nat (length (take k (table_part h fs))) = idx - 1) as Hln by (rewrite length_take; pose proof (length_part h fs Hh); lia).
  destruct (page_add h (page_at w2 h) (take k (table_part h fs)) pg Hp) as (iKey & Hkey & Hadd); [lia|done|].
  replace (S (length (take k (table_part h fs)))) with (Z.to_nat idx) in Hkey by lia. rewrite Hkey, Hw.
  eexists _, _, _. split_and!; [done| |done|done]. intros _.
  apply index_ok_change; [done|done|done|lia|rewrite length_app, length_take; cbn [length]; lia|].
  rewrite part_snoc, part_take by (rewrite ?length_take; lia). replace (Z.to_nat (Z.of_nat n - iZero_of h)) with k by lia.
  rewrite Hln in Hadd. by replace (idx - 1 + 1) with idx in Hadd by lia.
Qed.
End update.

(** Shared memory that never fails, and a connection that has mapped nothing. *)
Definition env1 : ShmEnv := {| xRealloc := fun _ => true; xMallocZero := fun _ => true; xShmMap := fun _ _ => SQLITE_OK; exclusiveMode := 0 |}.
Lemma env1_ok : env_ok env1.
Proof. split_and!; [done|done|by left]. Qed.
Definition no_map : WiData := {| nWiData := 0; apWiData := ∅; readOnly := 0; calls := 0 |}.

Lemma walFindFrame_correct_witness : exists m w, walIndexAppend env1 no_map ∅ 0 1 7 = Some (SQLITE_OK, m, w) /\
  (sqlite3WalFindFrame env1 m w 1 1 7).1 = (SQLITE_OK, 1).
Proof.
  destruct (append_index_ok env1 no_map ∅ [] 0 0 7) as (rc & m & w & Ha & Hok & _ & Hrc); [apply index_ok_nil|lia|cbn; lia|by left|].
  specialize (Hrc env1_ok). subst rc. specialize (Hok eq_refl). exists m, w. split; [exact Ha|].
  pose proof (walFindFrame_correct env1 m w [7] 1 1 7 Hok ltac:(cbn; lia) ltac:(lia) ltac:(lia)) as Hf.
  destruct (sqlite3WalFindFrame env1 m w 1 1 7) as [[rc iRead] m']. destruct Hf as (Hf & _ & Hrc). specialize (Hrc env1_ok). subst rc.
  destruct (Hf eq_refl) as [_ ->]. reflexivity.
Defined.
