(* ===== verification/WalIter.v ===== *)
(** The iterator of wal.c over the pages in the log, in order: a merge sort per page of the wal-index, and a merge of the sorted segments. *)
From S2P Require Import Prelude WalHash.
Local Open Scope Z_scope.
Local Open Scope c_scope.

(** ** Sorting *)

(** A sub-list of the array that is sorted: the index of its first element and its length. *)
Record Sublist := { s_aList : Z; s_nList : Z }.
Definition sub_list (arr : list Z) (s : Sublist) : list Z := take (Z.to_nat (s_nList s)) (drop (Z.to_nat (s_aList s)) arr).

(** The loop of [walMerge], on what is left of the two lists; the result is what goes to [aTmp]. *)
Fixpoint merge_loop (fuel : nat) (aContent aLeft aRight : list Z) : list Z :=
  match fuel with
  | O => []
  | S fuel =>
      let next logpage aLeft aRight :=
        let dbpage := rd aContent logpage in
        let aLeft := match aLeft with l :: aLeft' => if rd aContent l =? dbpage then aLeft' else aLeft | [] => [] end in
        logpage :: merge_loop fuel aContent aLeft aRight in
      match aLeft, aRight with
      | [], [] => []
      | l :: aLeft', [] => next l aLeft' []
      | [], r :: aRight' => next r [] aRight'
      | l :: aLeft', r :: aRight' => if rd aContent l <? rd aContent r then next l aLeft' aRight else next r aLeft aRight'
      end
  end.

(** The array and the new [*paRight], [*pnRight]. *)
Definition walMerge (aContent arr : list Z) (aLeft aRight : Sublist) : list Z * Sublist :=
  let aTmp := merge_loop (Z.to_nat (s_nList aLeft + s_nList aRight)) aContent (sub_list arr aLeft) (sub_list arr aRight) in
  (splice arr (s_aList aLeft) aTmp, {| s_aList := s_aList aLeft; s_nList := Z.of_nat (length aTmp) |}).

(** [for(iSub=0; iList & (1<<iSub); iSub++)] *)
Fixpoint sub_loop (fuel : nat) (aContent : list Z) (iList iSub : Z) (aSub : list Sublist) (arr : list Z) (aMerge : Sublist) : list Z * Sublist * Z :=
  match fuel with
  | O => (arr, aMerge, iSub)
  | S fuel =>
      if iList .& (1 << iSub) =? 0 then (arr, aMerge, iSub)
      else
        let p := nth (Z.to_nat iSub) aSub {| s_aList := 0; s_nList := 0 |} in
        let '(arr, aMerge) := walMerge aContent arr p aMerge in
        sub_loop fuel aContent iList (iSub + 1) aSub arr aMerge
  end.

(** [for(iList=0; iList<nList; iList++)], with [n] turns to go: the array, [aSub], [aMerge] and [iSub]. *)
Fixpoint list_loop (n : nat) (aContent : list Z) (iList : Z) (aSub : list Sublist) (arr : list Z) (aMerge : Sublist) (iSub : Z) :
    list Z * list Sublist * Sublist * Z :=
  match n with
  | O => (arr, aSub, aMerge, iSub)
  | S n =>
      let aMerge := {| s_aList := iList; s_nList := 1 |} in
      let '(arr, aMerge, iSub) := sub_loop 13 aContent iList 0 aSub arr aMerge in
      list_loop n aContent (iList + 1) (<[Z.to_nat iSub := aMerge]> aSub) arr aMerge iSub
  end.

(** [for(iSub++; iSub<ArraySize(aSub); iSub++)] *)
Fixpoint last_loop (n : nat) (aContent : list Z) (nList iSub : Z) (aSub : list Sublist) (arr : list Z) (aMerge : Sublist) : list Z * Sublist :=
  match n with
  | O => (arr, aMerge)
  | S n =>
      let '(arr, aMerge) :=
        if nList .& (1 << iSub) =? 0 then (arr, aMerge)
        else walMerge aContent arr (nth (Z.to_nat iSub) aSub {| s_aList := 0; s_nList := 0 |}) aMerge in
      last_loop n aContent nList (iSub + 1) aSub arr aMerge
  end.

(** The sorted array and [*pnList]. *)
Definition walMergesort (aContent aList : list Z) (nList : Z) : list Z * Z :=
  let '(arr, aSub, aMerge, iSub) :=
    list_loop (Z.to_nat nList) aContent 0 (replicate 13 {| s_aList := 0; s_nList := 0 |}) aList {| s_aList := 0; s_nList := 0 |} 0 in
  let '(arr, aMerge) := last_loop (Z.to_nat (13 - (iSub + 1))) aContent nList (iSub + 1) aSub arr aMerge in
  (arr, s_nList aMerge).

(** ** The iterator *)

(** [sg_aPgno] are the page numbers of the segment, from the one of frame [sg_iZero] on. *)
Record WalSegment := { sg_iNext : Z; sg_aIndex : list Z; sg_aPgno : list Z; sg_nEntry : Z; sg_iZero : Z }.
Record WalIterator := { iPrior : Z; aSegment : list WalSegment }.

(** [while( pSegment->iNext<pSegment->nEntry )]: the new [iNext] and the entry at which the loop breaks. *)
Fixpoint next_entry (fuel : nat) (s : WalSegment) (iMin iNext : Z) : Z * option (Z * Z) :=
  match fuel with
  | O => (iNext, None)
  | S fuel =>
      if negb (iNext <? sg_nEntry s) then (iNext, None)
      else
        let iPg := rd (sg_aPgno s) (rd (sg_aIndex s) iNext) in
        if iMin <? iPg then (iNext, Some (iPg, sg_iZero s + rd (sg_aIndex s) iNext))
        else next_entry fuel s iMin (iNext + 1)
  end.

(** The loop over the segments, the last one first: the segments with their new positions, [iRet] and [*piFrame]. *)
Fixpoint next_loop (rsegs : list WalSegment) (iMin iRet piFrame : Z) : list WalSegment * Z * Z :=
  match rsegs with
  | [] => ([], iRet, piFrame)
  | s :: rsegs =>
      let '(iNext, found) := next_entry (S (Z.to_nat (sg_nEntry s))) s iMin (sg_iNext s) in
      let s := {| sg_iNext := iNext; sg_aIndex := sg_aIndex s; sg_aPgno := sg_aPgno s; sg_nEntry := sg_nEntry s; sg_iZero := sg_iZero s |} in
      let '(iRet, piFrame) := match found with Some (iPg, fr) => if iPg <? iRet then (iPg, fr) else (iRet, piFrame) | None => (iRet, piFrame) end in
      let '(l, iRet, piFrame) := next_loop rsegs iMin iRet piFrame in
      (s :: l, iRet, piFrame)
  end.

(** The result (0 for success), the new iterator, [*piPage] and [*piFrame]. *)
Definition walIteratorNext (p : WalIterator) (piFrame : Z) : Z * WalIterator * Z * Z :=
  let '(l, iRet, piFrame) := next_loop (reverse (aSegment p)) (iPrior p) 0xFFFFFFFF piFrame in
  ((if iRet =? 0xFFFFFFFF then 1 else 0), {| iPrior := iRet; aSegment := reverse l |}, iRet, piFrame).

(** [for(i=0; rc==SQLITE_OK && i<nSegment; i++)], with [n] turns to go. *)
Fixpoint segment_loop (env : ShmEnv) (n : nat) (m : WiData) (w : WalIndex) (iLast nSegment i : Z) : Z * list WalSegment * WiData :=
  match n with
  | O => (SQLITE_OK, [], m)
  | S n =>
      let '(rc, iZero, m) := walHashGet env m i in
      if negb (rc =? SQLITE_OK) then (rc, [], m)
      else
        let pgnos := aPgno (page_at w i) in
        let nEntry := if i + 1 =? nSegment then iLast - iZero else Z.of_nat (length pgnos) in
        let '(aIndex, nEntry) := walMergesort pgnos (seqZ 0 nEntry) nEntry in
        let s := {| sg_iNext := 0; sg_aIndex := aIndex; sg_aPgno := pgnos; sg_nEntry := nEntry; sg_iZero := iZero + 1 |} in
        let '(rc, l, m) := segment_loop env n m w iLast nSegment (i + 1) in
        (rc, s :: l, m)
  end.

(** [alloc1] and [alloc2] are the outcomes of the two allocations. *)
Definition walIteratorInit (env : ShmEnv) (alloc1 alloc2 : bool) (m : WiData) (w : WalIndex) (mxFrame : Z) : Z * option WalIterator * WiData :=
  let iLast := mxFrame in
  let nSegment := walFramePage iLast + 1 in
  if negb alloc1 then (SQLITE_NOMEM, None, m)
  else if negb alloc2 then (SQLITE_NOMEM, None, m)
  else
    let '(rc, l, m) := segment_loop env (Z.to_nat nSegment) m w iLast nSegment 0 in
    if negb (rc =? SQLITE_OK) then (rc, None, m) else (rc, Some {| iPrior := 0; aSegment := l |}, m).

(** * Sorting *)

(** The order of the lists: strictly ascending page numbers. *)
Definition asc (a : list Z) : list Z -> Prop := StronglySorted (fun i j => rd a i < rd a j).

Lemma asc_cons a x l : asc a (x :: l) <-> asc a l /\ forall y, y ∈ l -> rd a x < rd a y.
Proof.
  unfold asc. split.
  - intros H. apply StronglySorted_inv in H as [H1 H2]. split; [done|]. by apply Forall_forall.
  - intros [H1 H2]. constructor; [done|]. by apply Forall_forall.
Qed.

(** The left list without the entries whose page is in the right one, and the right list. *)
Definition merged (a L R M : list Z) : Prop :=
  asc a M /\ forall i, i ∈ M <-> i ∈ R \/ (i ∈ L /\ forall r, r ∈ R -> rd a r <> rd a i).

Lemma merged_cons a x L R M : (forall y, y ∈ L \/ y ∈ R -> rd a x < rd a y) -> merged a L R M ->
  asc a (x :: M) /\ forall i, i ∈ x :: M <-> i = x \/ i ∈ R \/ (i ∈ L /\ forall r, r ∈ R -> rd a r <> rd a i).
Proof.
  intros Hlt [Hs Hm]. split.
  - apply asc_cons. split; [done|]. intros y Hy. apply Hlt. apply Hm in Hy as [?|[? _]]; [by right|by left].
  - intros i. rewrite elem_of_cons, Hm. done.
Qed.

(** The entry of the left list that has the page just taken is skipped. *)
Definition skip_left (a L : list Z) (dbpage : Z) : list Z := match L with l :: L' => if rd a l =? dbpage then L' else L | [] => [] end.

Lemma merge_loop_ok a n : forall L R, asc a L -> asc a R -> (length L + length R <= n)%nat -> merged a L R (merge_loop n a L R).
Proof.
  induction n as [|n IH]; intros L R HL HR Hn.
  { destruct L, R; cbn in Hn; try lia. split; [constructor|]. set_solver. }
  assert (forall x L1 R1, asc a L1 -> asc a R1 -> (length L1 + length R1 <= n)%nat -> (forall y, y ∈ L1 -> rd a x <= rd a y) -> (forall y, y ∈ R1 -> rd a x < rd a y) ->
    let M := x :: merge_loop n a (skip_left a L1 (rd a x)) R1 in
    asc a M /\ forall i, i ∈ M <-> i = x \/ i ∈ R1 \/ (i ∈ L1 /\ rd a i <> rd a x /\ forall r, r ∈ R1 -> rd a r <> rd a i)) as Hnext.
  { intros x L1 R1 H1 H2 Hl Hx1 Hx2 M.
    assert (asc a (skip_left a L1 (rd a x)) /\ (length (skip_left a L1 (rd a x)) <= length L1)%nat /\
      forall i, i ∈ skip_left a L1 (rd a x) <-> i ∈ L1 /\ rd a i <> rd a x) as (Hs1 & Hs2 & Hs3).
    { destruct L1 as [|l L1]; [split_and!; [done|done|set_solver]|]. cbn [skip_left]. apply asc_cons in H1 as [H1 H1'].
      pose proof (Hx1 l ltac:(left)) as Hl1. destruct (Z.eqb_spec (rd a l) (rd a x)) as [E|E].
      - split_and!; [done|cbn; lia|]. intros i. rewrite elem_of_cons. split; [intros Hi; split; [by right|]; specialize (H1' i Hi); lia|].
        intros [[->|Hi] Hne]; [done|done].
      - split_and!; [by apply asc_cons|done|]. intros i. split; [|by intros [? _]]. intros Hi. split; [done|].
        apply elem_of_cons in Hi as [->|Hi]; [done|]. specialize (H1' i Hi). lia. }
    destruct (merged_cons a x (skip_left a L1 (rd a x)) R1 (merge_loop n a (skip_left a L1 (rd a x)) R1)) as [Ha Hm].
    - intros y [Hy|Hy]; [|by apply Hx2]. apply Hs3 in Hy as [Hy Hne]. specialize (Hx1 y Hy). lia.
    - apply IH; [done|done|lia].
    - split; [done|]. intros i. unfold M. rewrite Hm, Hs3. naive_solver. }
  destruct L as [|l L], R as [|r R]; cbn [merge_loop].
  - split; [constructor|]. set_solver.
  - apply asc_cons in HR as [HR HR']. destruct (Hnext r [] R) as [Ha Hm]; [constructor|done|cbn in *; lia|set_solver|done|].
    split; [done|]. intros i. rewrite Hm. set_solver.
  - apply asc_cons in HL as [HL HL']. destruct (Hnext l L []) as [Ha Hm]; [done|constructor|cbn in *; lia|intros y Hy; specialize (HL' y Hy); lia|set_solver|].
    split; [done|]. intros i. rewrite Hm, elem_of_cons. split; [set_solver|]. intros [Hi|[[->|Hi] _]]; [set_solver|by left|]. right. right.
    split_and!; [done|specialize (HL' i Hi); lia|set_solver].
  - pose proof HL as HL0. pose proof HR as HR0. apply asc_cons in HL as [HL HL']. apply asc_cons in HR as [HR HR'].
    destruct (Z.ltb_spec (rd a l) (rd a r)) as [Hlt|Hge].
    + destruct (Hnext l L (r :: R)) as [Ha Hm]; [done|done|cbn in *; lia|intros y Hy; specialize (HL' y Hy); lia|..].
      { intros y [->|Hy]%elem_of_cons; [done|]. specialize (HR' y Hy). lia. }
      split; [done|]. intros i. rewrite Hm, (elem_of_cons L). split.
      * intros [->|[Hi|(Hi & _ & Hr)]]; [right|by left|right; split; [by right|done]]. split; [by left|].
        intros y [->|Hy]%elem_of_cons; [lia|]. specialize (HR' y Hy). lia.
      * intros [Hi|[[->|Hi] Hr]]; [by right; left|by left|]. right. right. split_and!; [done|specialize (HL' i Hi); lia|done].
    + destruct (Hnext r (l :: L) R) as [Ha Hm]; [done|done|cbn in *; lia| |done|].
      { intros y [->|Hy]%elem_of_cons; [done|]. specialize (HL' y Hy). lia. }
      split; [done|]. intros i. rewrite Hm, (elem_of_cons R). split.
      * intros [->|[Hi|(Hi & Hne & Hr)]]; [by left; left|by left; right|]. right. split; [done|]. intros y [->|Hy]%elem_of_cons; [lia|by apply Hr].
      * intros [[->|Hi]|[Hi Hr]]; [by left|by right; left|]. right. right. split_and!; [done| |intros y Hy; apply Hr; by right].
        intros E. apply (Hr r); [by left|done].
Qed.

(** The list of a range of positions: for each page of the range its last position, in the order of the pages. *)
Definition range_ok (a : list Z) (lo hi : Z) (L : list Z) : Prop :=
  asc a L /\ forall i, i ∈ L <-> lo <= i < hi /\ forall j, i < j < hi -> rd a j <> rd a i.

Lemma last_occurrence a lo hi j : lo <= j < hi -> exists r, lo <= r < hi /\ rd a r = rd a j /\ forall k, r < k < hi -> rd a k <> rd a r.
Proof.
  remember (Z.to_nat (hi - j)) as d eqn:Ed. assert (hi - j <= Z.of_nat d) as Hd by lia. clear Ed. revert j Hd.
  induction d as [|d IH]; intros j Hd Hj; [lia|]. destruct (decide (Exists (fun k => rd a k = rd a j) (seqZ (j + 1) (hi - j - 1)))) as [He|He].
  - apply Exists_exists in He as (k & Hk%elem_of_seqZ & E). destruct (IH k) as (r & H1 & H2 & H3); [lia|lia|]. exists r. split_and!; [lia|lia|congruence|done].
  - exists j. split_and!; [lia|lia|done|]. intros k Hk E. apply He, Exists_exists. exists k. split; [apply elem_of_seqZ; lia|done].
Qed.

Lemma range_merge a lo mid hi L R M : lo <= mid <= hi -> range_ok a lo mid L -> range_ok a mid hi R -> merged a L R M -> range_ok a lo hi M.
Proof.
  intros Hle [HL HLm] [HR HRm] [HM HMm]. split; [done|]. intros i. rewrite HMm, HRm, HLm. split.
  - intros [[Hi Hlast]|[[Hi Hlast] Hr]]; (split; [lia|]); intros j Hj; [apply Hlast; lia|]. destruct (decide (j < mid)); [apply Hlast; lia|].
    intros E.
    destruct (last_occurrence a mid hi j) as (r & Hr1 & Hr2 & Hr3); [lia|].
    apply (Hr r); [apply HRm; by split|congruence].
  - intros [Hi Hlast]. destruct (decide (i < mid)); [right|left; split; [lia|done]]. split; [split; [lia|intros; apply Hlast; lia]|].
    intros r [Hr _]%HRm. apply Hlast. lia.
Qed.

Lemma asc_NoDup a L : asc a L -> NoDup L.
Proof.
  induction L as [|x L IH]; intros H; [constructor|]. apply asc_cons in H as [H1 H2]. constructor; [|by apply IH]. intros Hx. specialize (H2 x Hx). lia.
Qed.
Lemma range_length a lo hi L : range_ok a lo hi L -> Z.of_nat (length L) <= Z.max 0 (hi - lo).
Proof.
  intros [Hs Hm]. assert (L ⊆+ seqZ lo (hi - lo)) as Hsub.
  { apply NoDup_submseteq; [by apply (asc_NoDup a)|]. intros i Hi. apply elem_of_seqZ. apply Hm in Hi. lia. }
  apply submseteq_length in Hsub. rewrite length_seqZ in Hsub. lia.
Qed.
Lemma range_single a i : range_ok a i (i + 1) [i].
Proof. split; [repeat constructor|]. intros k. rewrite list_elem_of_singleton. split; [intros ->; split; lia|]. intros [? _]. lia. Qed.

(** A sub-list of the array that holds the list of a range, at the place of that range. *)
Record region_ok (a arr : list Z) (s : Sublist) (lo hi : Z) : Prop := {
  rg_start : s_aList s = lo;
  rg_bounds : 0 <= lo <= hi /\ hi <= Z.of_nat (length arr);
  rg_length : Z.of_nat (length (sub_list arr s)) = s_nList s;
  rg_range : range_ok a lo hi (sub_list arr s)
}.

Lemma region_nList a arr s lo hi : region_ok a arr s lo hi -> 0 <= s_nList s <= hi - lo.
Proof. intros [Hs Hb Hl Hr]. pose proof (range_length _ _ _ _ Hr). lia. Qed.

Lemma sub_list_ext arr arr' s lo hi : s_aList s = lo -> 0 <= lo -> s_nList s <= hi - lo -> length arr' = length arr ->
  (forall j, lo <= j < hi -> rd arr' j = rd arr j) -> sub_list arr' s = sub_list arr s.
Proof.
  intros Hs Hlo Hn Hl Hrd. apply list_eq. intros i. unfold sub_list. rewrite Hs. destruct (decide (i < Z.to_nat (s_nList s))%nat).
  - rewrite !lookup_take_lt, !lookup_drop by done. destruct (decide (Z.to_nat lo + i < length arr)%nat); [|by rewrite !lookup_ge_None_2 by lia].
    pose proof (lookup_rd arr (lo + Z.of_nat i) ltac:(lia)) as E1. pose proof (lookup_rd arr' (lo + Z.of_nat i) ltac:(lia)) as E2.
    replace (Z.to_nat (lo + Z.of_nat i)) with (Z.to_nat lo + i)%nat in * by lia. rewrite E1, E2. f_equal. apply Hrd. lia.
  - by rewrite !lookup_take_ge by lia.
Qed.
Lemma region_ext a arr arr' s lo hi : region_ok a arr s lo hi -> length arr' = length arr -> (forall j, lo <= j < hi -> rd arr' j = rd arr j) ->
  region_ok a arr' s lo hi.
Proof.
  intros Hr Hl Hrd. pose proof (region_nList _ _ _ _ _ Hr). destruct Hr as [Hs Hb Hln Hr].
  assert (sub_list arr' s = sub_list arr s) as E by (by apply (sub_list_ext arr arr' s lo hi); lia || done). constructor; rewrite ?E; done || lia.
Qed.

(** Merging the lists of two neighbouring ranges in place. *)
Lemma walMerge_ok a arr l r lo mid hi : region_ok a arr l lo mid -> region_ok a arr r mid hi ->
  let '(arr', s) := walMerge a arr l r in
  length arr' = length arr /\ region_ok a arr' s lo hi /\ forall j, 0 <= j -> j < lo \/ hi <= j -> rd arr' j = rd arr j.
Proof.
  intros Hl Hr. pose proof (region_nList _ _ _ _ _ Hl). pose proof (region_nList _ _ _ _ _ Hr). unfold walMerge.
  destruct Hl as [Hls Hlb Hll Hlr], Hr as [Hrs Hrb Hrl Hrr]. set (M := merge_loop _ _ _ _).
  assert (range_ok a lo hi M) as HM.
  { apply (range_merge a lo mid hi _ _ _ ltac:(lia) Hlr Hrr). apply merge_loop_ok; [apply Hlr|apply Hrr|lia]. }
  pose proof (range_length _ _ _ _ HM) as HMl. rewrite Hls. assert (length (splice arr lo M) = length arr) as Hlen by (apply length_splice; lia).
  assert (sub_list (splice arr lo M) {| s_aList := lo; s_nList := Z.of_nat (length M) |} = M) as Hsub.
  { unfold sub_list, splice. cbn [s_aList s_nList]. rewrite Nat2Z.id, drop_app_length' by (rewrite length_take; lia). apply take_app_length. }
  split_and!; [done|constructor; cbn [s_aList s_nList]; rewrite ?Hsub; done || lia|]. intros j Hj0 Hj. apply rd_splice_out; lia.
Qed.

(** ** Binary counting *)

Lemma mod_pow2_succ n i : 0 <= i -> n mod 2 ^ (i + 1) = n mod 2 ^ i + 2 ^ i * Z.b2z (Z.testbit n i).
Proof.
  intros Hi. rewrite Z.testbit_spec' by done. rewrite Z.pow_add_r, Z.pow_1_r by lia. rewrite Z.rem_mul_r by lia. done.
Qed.
Lemma bit_set n i : 0 <= i -> (n .& (1 << i) =? 0) = negb (Z.testbit n i).
Proof.
  intros Hi. rewrite Z.shiftl_1_l. destruct (Z.testbit n i) eqn:E; cbn [negb].
  - apply Z.eqb_neq. intros H. assert (Z.testbit (n .& 2 ^ i) i = false) as H2 by (rewrite H; apply Z.bits_0).
    rewrite Z.land_spec, E, Z.pow2_bits_true in H2 by done. done.
  - apply Z.eqb_eq. apply Z.bits_inj'. intros j Hj. rewrite Z.land_spec, Z.bits_0, Z.pow2_bits_eqb by done. destruct (Z.eqb_spec i j) as [->|]; [by rewrite E|apply andb_false_r].
Qed.

(** Counting from [n], whose lowest zero bit is bit [i], to [n + 1]. *)
Section count.
Context (n i : Z) (Hn : 0 <= n) (Hi : 0 <= i) (Hones : n mod 2 ^ i = 2 ^ i - 1) (Hzero : Z.testbit n i = false).

Lemma count_mod : n mod 2 ^ (i + 1) = 2 ^ i - 1.
Proof using Hi Hones Hzero. rewrite mod_pow2_succ, Hzero, Hones by done. cbn. lia. Qed.
Lemma count_low : (n + 1) mod 2 ^ i = 0.
Proof using Hi Hones. pose proof (Z.pow_pos_nonneg 2 i). rewrite <- Z.add_mod_idemp_l, Hones by lia. replace (2 ^ i - 1 + 1) with (2 ^ i) by lia. apply Z.mod_same. lia. Qed.
Lemma count_high j : i < j -> (n + 1) mod 2 ^ j = n mod 2 ^ j + 1.
Proof using Hi Hones Hzero.
  intros Hj. pose proof (Z.pow_pos_nonneg 2 i) as Hp. pose proof (Z.pow_pos_nonneg 2 j) as Hpj.
  assert (2 ^ j = 2 ^ (i + 1) * 2 ^ (j - i - 1)) as Ej by (rewrite <- Z.pow_add_r by lia; f_equal; lia).
  pose proof (Z.pow_pos_nonneg 2 (j - i - 1)) as Hq. rewrite Z.pow_add_r, Z.pow_1_r in Ej by lia.
  rewrite <- Z.add_mod_idemp_l by lia. apply Z.mod_small. pose proof (Z.mod_pos_bound n (2 ^ j)) as Hb.
  assert (n mod 2 ^ j <> 2 ^ j - 1); [|lia]. intros E. pose proof count_mod as Hc.
  assert ((n mod 2 ^ j) mod 2 ^ (i + 1) = n mod 2 ^ (i + 1)) as Hmm.
  { apply Z.mod_mod_divide. exists (2 ^ (j - i - 1)). rewrite <- Z.pow_add_r by lia. f_equal. lia. }
  rewrite Hc, E in Hmm. assert ((2 ^ j - 1) mod 2 ^ (i + 1) = 2 ^ (i + 1) - 1) as Hm2.
  { rewrite Ej. replace (2 ^ i * 2 * 2 ^ (j - i - 1) - 1) with (2 ^ (i + 1) - 1 + (2 ^ (j - i - 1) - 1) * 2 ^ (i + 1))
      by (rewrite !Z.pow_add_r, Z.pow_1_r by lia; nia).
    rewrite Z.mod_add by (rewrite Z.pow_add_r by lia; lia). apply Z.mod_small. rewrite Z.pow_add_r, Z.pow_1_r by lia. lia. }
  rewrite Hm2, Z.pow_add_r, Z.pow_1_r in Hmm by lia. lia.
Qed.
Lemma count_bit j : 0 <= j -> Z.testbit (n + 1) j = if j <? i then false else if j =? i then true else Z.testbit n j.
Proof using Hi Hn Hones Hzero.
  intros Hj. pose proof (Z.pow_pos_nonneg 2 j) as Hp. destruct (Z.ltb_spec j i) as [Hlt|Hge].
  - rewrite <- (Z.mod_pow2_bits_low (n + 1) i j Hlt), count_low. apply Z.bits_0.
  - destruct (Z.eqb_spec j i) as [->|Hne].
    + pose proof (mod_pow2_succ (n + 1) i Hi) as E. rewrite (count_high (i + 1)), count_mod, count_low in E by lia. destruct (Z.testbit (n + 1) i); [done|cbn in E; lia].
    + apply Z.b2z_inj. pose proof (mod_pow2_succ (n + 1) j Hj) as E1. pose proof (mod_pow2_succ n j Hj) as E2.
      rewrite (count_high (j + 1)), (count_high j) in E1 by lia. nia.
Qed.
End count.

(** ** The sort *)

Section sort.
Context (a : list Z).
Definition sub_at (aSub : list Sublist) (i : Z) : Sublist := nth (Z.to_nat i) aSub {| s_aList := 0; s_nList := 0 |}.

(** After [n] elements: the sub-lists are those of the binary digits of [n], the rest of the array is as it was. *)
Record sort_inv (n : Z) (arr : list Z) (aSub : list Sublist) (N : Z) : Prop := {
  si_length : Z.of_nat (length arr) = N /\ length aSub = 13%nat;
  si_rest : forall j, n <= j < N -> rd arr j = j;
  si_sub : forall i, 0 <= i < 13 -> Z.testbit n i = true -> region_ok a arr (sub_at aSub i) (n - n mod 2 ^ (i + 1)) (n - n mod 2 ^ i)
}.

(** The sub-lists of the digits from [i] on are not touched by a change of the array from [n - n mod 2 ^ i] on. *)
Lemma sub_kept n arr arr' aSub N i : sort_inv n arr aSub N -> 0 <= n -> 0 <= i -> length arr' = length arr ->
  (forall j, 0 <= j < n - n mod 2 ^ i -> rd arr' j = rd arr j) ->
  forall k, i <= k < 13 -> Z.testbit n k = true -> region_ok a arr' (sub_at aSub k) (n - n mod 2 ^ (k + 1)) (n - n mod 2 ^ k).
Proof.
  intros [_ _ Hsub] Hn Hi Hl Hrd k Hk Hbit. apply (region_ext a arr); [by apply Hsub; [lia|]|done|]. intros j Hj. apply Hrd. split.
  - pose proof (rg_bounds _ _ _ _ _ (Hsub k ltac:(lia) Hbit)). lia.
  - pose proof (Z.pow_pos_nonneg 2 i). pose proof (Z.pow_pos_nonneg 2 k). assert (n mod 2 ^ i <= n mod 2 ^ k); [|lia].
    rewrite <- (Z.mod_mod_divide n (2 ^ k) (2 ^ i)); [apply Z.mod_le; [apply Z.mod_pos_bound; lia|lia]|].
    exists (2 ^ (k - i)). rewrite <- Z.pow_add_r by lia. f_equal. lia.
Qed.

Lemma sub_loop_ok n aSub N arr0 : sort_inv n arr0 aSub N -> 0 <= n < N -> n < 4096 ->
  forall fuel i arr s, 0 <= i -> 13 - i <= Z.of_nat fuel -> n mod 2 ^ i = 2 ^ i - 1 -> length arr = length arr0 ->
  (forall j, 0 <= j -> j < n + 1 - 2 ^ i \/ n < j -> rd arr j = rd arr0 j) -> region_ok a arr s (n + 1 - 2 ^ i) (n + 1) ->
  let '(arr', s', i') := sub_loop fuel a n i aSub arr s in
  0 <= i' < 13 /\ n mod 2 ^ i' = 2 ^ i' - 1 /\ Z.testbit n i' = false /\ length arr' = length arr0 /\
  (forall j, 0 <= j -> j < n + 1 - 2 ^ i' \/ n < j -> rd arr' j = rd arr0 j) /\ region_ok a arr' s' (n + 1 - 2 ^ i') (n + 1).
Proof.
  intros Hinv Hn H4096. induction fuel as [|fuel IH]; intros i arr s Hi Hf Hones Hl Hrd Hs.
  { assert (2 ^ 13 <= 2 ^ i) by (apply Z.pow_le_mono_r; lia). change (2 ^ 13) with 8192 in *. rewrite Z.mod_small in Hones; lia. }
  cbn [sub_loop]. rewrite bit_set by done. pose proof (Z.pow_pos_nonneg 2 i) as Hp. destruct (Z.testbit n i) eqn:Hbit; cbn [negb].
  - assert (i < 13) as Hi13.
    { destruct (decide (i < 13)); [done|]. assert (2 ^ 13 <= 2 ^ i) by (apply Z.pow_le_mono_r; lia). change (2 ^ 13) with 8192 in *. rewrite Z.mod_small in Hones; lia. }
    assert (2 ^ (i + 1) = 2 * 2 ^ i) as Epow by (rewrite Z.pow_add_r, Z.pow_1_r by lia; lia).
    assert (n mod 2 ^ (i + 1) = 2 ^ (i + 1) - 1) as Hones' by (rewrite mod_pow2_succ, Hbit, Hones by done; cbn; lia).
    assert (region_ok a arr (sub_at aSub i) (n + 1 - 2 ^ (i + 1)) (n + 1 - 2 ^ i)) as Hp1.
    { pose proof (sub_kept n arr0 arr aSub N i Hinv ltac:(lia) Hi Hl) as Hk. specialize (Hk ltac:(intros j Hj; apply Hrd; lia) i ltac:(lia) Hbit).
      rewrite Hones, Hones' in Hk. replace (n - (2 ^ (i + 1) - 1)) with (n + 1 - 2 ^ (i + 1)) in Hk by lia. by replace (n - (2 ^ i - 1)) with (n + 1 - 2 ^ i) in Hk by lia. }
    fold (sub_at aSub i). pose proof (walMerge_ok a arr (sub_at aSub i) s _ _ _ Hp1 Hs) as Hm. destruct (walMerge a arr (sub_at aSub i) s) as [arr' s'].
    destruct Hm as (Hl' & Hr' & Hout). apply IH; [lia|lia|done|congruence| |done]. intros j Hj0 Hj. rewrite Hout by lia. apply Hrd; lia.
  - split_and!; try done. destruct (decide (i < 13)); [done|]. assert (2 ^ 13 <= 2 ^ i) by (apply Z.pow_le_mono_r; lia).
    change (2 ^ 13) with 8192 in *. rewrite Z.mod_small in Hones; lia.
Qed.

(** One more element. *)
Lemma sort_step n arr aSub N : sort_inv n arr aSub N -> 0 <= n < N -> n < 4096 ->
  let '(arr', s, i) := sub_loop 13 a n 0 aSub arr {| s_aList := n; s_nList := 1 |} in
  sort_inv (n + 1) arr' (<[Z.to_nat i := s]> aSub) N /\ 0 <= i < 13 /\ region_ok a arr' s (n + 1 - (n + 1) mod 2 ^ (i + 1)) (n + 1).
Proof.
  intros Hinv Hn H4096. pose proof Hinv as [[Hl Hs13] Hrest Hsub].
  assert (sub_list arr {| s_aList := n; s_nList := 1 |} = [n]) as Hone.
  { unfold sub_list. cbn [s_aList s_nList]. pose proof (lookup_rd arr n ltac:(lia)) as E. rewrite Hrest in E by lia. rewrite (drop_S _ n _ E). done. }
  pose proof (sub_loop_ok n aSub N arr Hinv Hn H4096 13 0 arr {| s_aList := n; s_nList := 1 |} ltac:(lia) ltac:(lia) ltac:(by rewrite Z.mod_1_r) eq_refl ltac:(done)) as H.
  destruct (sub_loop 13 a n 0 aSub arr _) as [[arr' s] i]. destruct H as (Hi & Hones & Hzero & Hl' & Hrd & Hr).
  { change (2 ^ 0) with 1. replace (n + 1 - 1) with n by lia. constructor; rewrite ?Hone; [done|lia|done|apply range_single]. }
  pose proof (Z.pow_pos_nonneg 2 i). pose proof (count_low n i ltac:(lia) Hones) as Hlow. pose proof (count_high n i ltac:(lia) Hones Hzero) as Hhigh.
  pose proof (count_mod n i ltac:(lia) Hones Hzero) as Hmod. pose proof (count_bit n i ltac:(lia) ltac:(lia) Hones Hzero) as Hbit.
  assert ((n + 1) mod 2 ^ (i + 1) = 2 ^ i) as Hm1 by (rewrite Hhigh by lia; lia). rewrite Hm1. split_and!; [|lia|lia|done]. constructor.
  - rewrite length_insert. split; [lia|done].
  - intros j Hj. rewrite Hrd by lia. apply Hrest. lia.
  - intros k Hk Hb. rewrite Hbit in Hb by lia. destruct (Z.ltb_spec k i); [done|]. unfold sub_at. destruct (Z.eqb_spec k i) as [->|Hne].
    + rewrite nth_lookup, list_lookup_insert_eq by lia. cbn [default from_option id]. rewrite Hm1, Hlow, Z.sub_0_r. done.
    + rewrite nth_lookup, list_lookup_insert_ne, <- nth_lookup by lia. rewrite (Hhigh k), (Hhigh (k + 1)) by lia.
      replace (n + 1 - (n mod 2 ^ (k + 1) + 1)) with (n - n mod 2 ^ (k + 1)) by lia. replace (n + 1 - (n mod 2 ^ k + 1)) with (n - n mod 2 ^ k) by lia.
      apply (sub_kept n arr arr' aSub N (i + 1) Hinv); [lia|lia|done| |lia|done]. intros j Hj. apply Hrd; lia.
Qed.

Lemma list_loop_ok N : N <= 4096 -> forall k n arr aSub s i, sort_inv n arr aSub N -> 0 <= n -> n + Z.of_nat k = N -> (n = 0 \/ (0 <= i < 13 /\ region_ok a arr s (n - n mod 2 ^ (i + 1)) n)) -> 0 < N ->
  let '(arr', aSub', s', i') := list_loop k a n aSub arr s i in
  sort_inv N arr' aSub' N /\ 0 <= i' < 13 /\ region_ok a arr' s' (N - N mod 2 ^ (i' + 1)) N.
Proof.
  intros HN. induction k as [|k IH]; intros n arr aSub s i Hinv Hn Hk Hs Hpos; cbn [list_loop].
  - destruct Hs as [->|[Hi Hr]]; [lia|]. replace n with N in * by lia. done.
  - pose proof (sort_step n arr aSub N Hinv ltac:(lia) ltac:(lia)) as H. destruct (sub_loop 13 a n 0 aSub arr _) as [[arr' s'] i']. destruct H as (H1 & H2 & H3).
    apply IH; [done|lia|lia|by right|done].
Qed.

Lemma last_loop_ok N arr0 aSub : sort_inv N arr0 aSub N -> 0 < N <= 4096 -> forall k i arr s, 0 <= i -> i + Z.of_nat k = 13 -> length arr = length arr0 ->
  (forall j, 0 <= j < N - N mod 2 ^ i -> rd arr j = rd arr0 j) -> region_ok a arr s (N - N mod 2 ^ i) N ->
  let '(arr', s') := last_loop k a N i aSub arr s in region_ok a arr' s' 0 N /\ length arr' = length arr0.
Proof.
  intros Hinv HN. induction k as [|k IH]; intros i arr s Hi Hk Hl Hrd Hs; cbn [last_loop].
  - replace i with 13 in Hs by lia. change (2 ^ 13) with 8192 in Hs. rewrite Z.mod_small, Z.sub_diag in Hs by lia. done.
  - rewrite bit_set by done. pose proof (mod_pow2_succ N i Hi) as E. destruct (Z.testbit N i) eqn:Hbit; cbn [negb].
    + pose proof (sub_kept N arr0 arr aSub N i Hinv ltac:(lia) Hi Hl Hrd i ltac:(lia) Hbit) as Hp. fold (sub_at aSub i).
      pose proof (walMerge_ok a arr (sub_at aSub i) s _ _ _ Hp Hs) as Hm. destruct (walMerge a arr (sub_at aSub i) s) as [arr' s']. destruct Hm as (Hl' & Hr' & Hout).
      apply IH; [lia|lia|congruence| |done]. intros j Hj. pose proof (Z.pow_pos_nonneg 2 i). cbn in E. rewrite Hout by lia. apply Hrd. lia.
    + cbn in E. rewrite Z.mul_0_r, Z.add_0_r in E. apply IH; [lia|lia|done|by rewrite E|by rewrite E].
Qed.

(** The sorted list of the first [N] positions. *)
Lemma mergesort_ok N : 0 < N <= 4096 -> let '(arr, n) := walMergesort a (seqZ 0 N) N in
  0 <= n <= Z.of_nat (length arr) /\ range_ok a 0 N (take (Z.to_nat n) arr).
Proof.
  intros HN. unfold walMergesort. assert (sort_inv 0 (seqZ 0 N) (replicate 13 {| s_aList := 0; s_nList := 0 |}) N) as Hinv.
  { constructor; [rewrite length_seqZ, length_replicate; lia| |intros i _ H; by rewrite Z.bits_0 in H].
    intros j Hj. apply rd_lookup. rewrite lookup_seqZ_lt by lia. f_equal. lia. }
  pose proof (list_loop_ok N ltac:(lia) (Z.to_nat N) 0 _ _ {| s_aList := 0; s_nList := 0 |} 0 Hinv ltac:(lia) ltac:(lia) ltac:(by left) ltac:(lia)) as H.
  destruct (list_loop _ _ _ _ _ _ _) as [[[arr aSub] s] i]. destruct H as (H1 & H2 & H3).
  pose proof (last_loop_ok N arr aSub H1 HN (Z.to_nat (13 - (i + 1))) (i + 1) arr s ltac:(lia) ltac:(lia) eq_refl ltac:(done) H3) as H4.
  destruct (last_loop _ _ _ _ _ _ _) as [arr' s']. destruct H4 as [[Hs Hb Hl Hr] Hlen].
  unfold sub_list in Hl, Hr. rewrite Hs, drop_0 in Hl, Hr. split; [|done]. rewrite <- Hl, length_take. lia.
Qed.
End sort.

(** * The iterator *)

(** Segment [s] covers the frames [z + 1] to [z + cnt] of the log with the page numbers [fs]; the entries before its position have pages up to [m]. *)
Record seg_ok (fs : list Z) (s : WalSegment) (z cnt m : Z) : Prop := {
  so_zero : sg_iZero s = z + 1 /\ 0 <= z /\ 0 <= cnt;
  so_next : 0 <= sg_iNext s <= sg_nEntry s /\ sg_nEntry s <= Z.of_nat (length (sg_aIndex s));
  so_range : range_ok (sg_aPgno s) 0 cnt (take (Z.to_nat (sg_nEntry s)) (sg_aIndex s));
  so_pgno : forall i, 0 <= i < cnt -> rd (sg_aPgno s) i = rd fs (z + i);
  so_done : forall k, 0 <= k < sg_iNext s -> rd (sg_aPgno s) (rd (sg_aIndex s) k) <= m
}.

Lemma asc_lookup a L : asc a L -> forall i j x y, L !! i = Some x -> L !! j = Some y -> (i < j)%nat -> rd a x < rd a y.
Proof.
  induction L as [|l L IH]; intros H i j x y Hx Hy Hij; [done|]. apply asc_cons in H as [H1 H2]. destruct j as [|j]; [lia|]. cbn in Hy. destruct i as [|i].
  - injection Hx as <-. apply H2. apply list_elem_of_lookup. by eexists.
  - apply (IH H1 i j); [done|done|lia].
Qed.

Section segment.
Context (fs : list Z) (s : WalSegment) (z cnt m : Z) (Hs : seg_ok fs s z cnt m).

Lemma entry_lookup k : 0 <= k < sg_nEntry s -> take (Z.to_nat (sg_nEntry s)) (sg_aIndex s) !! Z.to_nat k = Some (rd (sg_aIndex s) k).
Proof using Hs. intros Hk. destruct (so_next _ _ _ _ _ Hs). rewrite lookup_take_lt by lia. apply lookup_rd. lia. Qed.
Lemma seg_entry_ok k : 0 <= k < sg_nEntry s -> let i := rd (sg_aIndex s) k in 0 <= i < cnt /\ forall j, i < j < cnt -> rd (sg_aPgno s) j <> rd (sg_aPgno s) i.
Proof using Hs. intros Hk. apply (so_range _ _ _ _ _ Hs). apply list_elem_of_lookup. eexists. by apply entry_lookup. Qed.
Lemma entry_exists i : 0 <= i < cnt -> exists k, 0 <= k < sg_nEntry s /\ rd (sg_aPgno s) (rd (sg_aIndex s) k) = rd (sg_aPgno s) i.
Proof using Hs.
  intros Hi. destruct (last_occurrence (sg_aPgno s) 0 cnt i Hi) as (r & Hr & E & Hlast).
  assert (r ∈ take (Z.to_nat (sg_nEntry s)) (sg_aIndex s)) as Hin by (apply (so_range _ _ _ _ _ Hs); by split).
  destruct (so_next _ _ _ _ _ Hs) as [Hn Hl].
  apply list_elem_of_lookup in Hin as [k Hk]. pose proof (lookup_lt_Some _ _ _ Hk) as Hlt. rewrite length_take in Hlt. exists (Z.of_nat k). split; [lia|].
  pose proof (entry_lookup (Z.of_nat k) ltac:(lia)) as Hk2. rewrite Nat2Z.id, Hk in Hk2. injection Hk2 as <-. done.
Qed.
Lemma entry_mono k k' : 0 <= k < k' -> k' < sg_nEntry s -> rd (sg_aPgno s) (rd (sg_aIndex s) k) < rd (sg_aPgno s) (rd (sg_aIndex s) k').
Proof using Hs.
  intros Hk Hk'. destruct (so_range _ _ _ _ _ Hs) as [Hasc _]. eapply asc_lookup; [exact Hasc|apply entry_lookup; lia|apply entry_lookup; lia|lia].
Qed.

(** The first entry with a page beyond [m]. *)
Lemma next_entry_ok fuel : forall i, sg_iNext s <= i <= sg_nEntry s -> sg_nEntry s - i < Z.of_nat fuel ->
  (forall k, 0 <= k < i -> rd (sg_aPgno s) (rd (sg_aIndex s) k) <= m) ->
  let '(iNext, found) := next_entry fuel s m i in
  i <= iNext <= sg_nEntry s /\ (forall k, 0 <= k < iNext -> rd (sg_aPgno s) (rd (sg_aIndex s) k) <= m) /\
  match found with
  | None => forall i, 0 <= i < cnt -> rd fs (z + i) <= m
  | Some (pg, fr) => m < pg /\ (exists i, 0 <= i < cnt /\ fr = z + 1 + i /\ rd fs (z + i) = pg /\ forall j, i < j < cnt -> rd fs (z + j) <> pg) /\
      forall i, 0 <= i < cnt -> m < rd fs (z + i) -> pg <= rd fs (z + i)
  end.
Proof using Hs.
  induction fuel as [|fuel IH]; intros i Hi Hf Hdone; [lia|]. cbn [next_entry]. destruct (so_next _ _ _ _ _ Hs) as [Hn Hl]. pose proof (so_pgno _ _ _ _ _ Hs) as Hpg.
  destruct (Z.ltb_spec i (sg_nEntry s)) as [Hlt|Hge]; cbn [negb].
  - destruct (Z.ltb_spec m (rd (sg_aPgno s) (rd (sg_aIndex s) i))) as [Hm|Hm].
    + split; [lia|]. split; [done|]. split; [done|]. destruct (seg_entry_ok i ltac:(lia)) as [Hr Hlast]. split.
      * exists (rd (sg_aIndex s) i). destruct (so_zero _ _ _ _ _ Hs) as [-> _]. split_and!; [lia|lia|done|by rewrite Hpg|].
        intros j Hj. rewrite <- Hpg by lia. by apply Hlast.
      * intros j Hj Hmj. rewrite <- Hpg in Hmj |- * by lia. destruct (entry_exists j Hj) as (k & Hk & E). rewrite <- E in Hmj |- *.
        destruct (decide (k < i)); [specialize (Hdone k); lia|]. destruct (decide (k = i)) as [->|]; [done|]. pose proof (entry_mono i k). lia.
    + pose proof (IH (i + 1)) as IH1. destruct (next_entry fuel s m (i + 1)) as [iNext found]. destruct IH1 as (H1 & H2); [lia|lia| |split; [lia|done]].
      intros k Hk. destruct (decide (k = i)) as [->|]; [done|apply Hdone; lia].
  - split; [lia|]. split; [done|]. intros j Hj. rewrite <- Hpg by done. destruct (entry_exists j Hj) as (k & Hk & <-). apply Hdone. lia.
Qed.
End segment.

(** Segments, the last one first, that cover the frames from [z0] on to [top]. *)
Inductive covers (fs : list Z) (m z0 : Z) : Z -> list WalSegment -> Prop :=
| covers_nil : covers fs m z0 z0 []
| covers_cons s z cnt l : seg_ok fs s z cnt m -> covers fs m z0 z l -> covers fs m z0 (z + cnt) (s :: l).

Lemma covers_app fs m z0 z top l l' : covers fs m z top l' -> covers fs m z0 z l -> covers fs m z0 top (l' ++ l).
Proof. induction 1 as [|s z' cnt l1 Hs _ IH]; intros Hl; [done|]. cbn. constructor; [done|]. by apply IH. Qed.

Definition NO_PAGE : Z := 0xFFFFFFFF.

(** What is known of the frames beyond [top]: [iRet] is their smallest page beyond [m], and [piFrame] its last frame. *)
Definition best (fs : list Z) (n m top iRet piFrame : Z) : Prop :=
  m < iRet /\ (forall i, top <= i < n -> m < rd fs i -> iRet <= rd fs i) /\
  (iRet <> NO_PAGE -> top < piFrame <= n /\ rd fs (piFrame - 1) = iRet /\ forall j, piFrame <= j < n -> rd fs j <> iRet).

Lemma next_loop_ok fs n m top l : covers fs m 0 top l -> forall iRet piFrame, top <= n -> iRet <= NO_PAGE -> (forall i, 0 <= i < n -> rd fs i < NO_PAGE) ->
  best fs n m top iRet piFrame ->
  let '(l', iRet', piFrame') := next_loop l m iRet piFrame in
  best fs n m 0 iRet' piFrame' /\ iRet' <= NO_PAGE /\ forall m', m <= m' -> covers fs m' 0 top l'.
Proof.
  induction 1 as [|s z cnt l Hs _ IH]; intros iRet piFrame Htop Hmax Hpages Hbest; cbn [next_loop].
  { split_and!; [done|done|constructor]. }
  destruct (so_zero _ _ _ _ _ Hs) as (_ & Hz & Hcnt). destruct (so_next _ _ _ _ _ Hs) as [Hn Hl].
  pose proof (next_entry_ok fs s z cnt m Hs (S (Z.to_nat (sg_nEntry s))) (sg_iNext s) ltac:(lia) ltac:(lia) (so_done _ _ _ _ _ Hs)) as H.
  destruct (next_entry _ _ _ _) as [iNext found]. destruct H as (H1 & H2 & H3).
  set (s' := {| sg_iNext := iNext; sg_aIndex := sg_aIndex s; sg_aPgno := sg_aPgno s; sg_nEntry := sg_nEntry s; sg_iZero := sg_iZero s |}).
  assert (forall m', m <= m' -> seg_ok fs s' z cnt m') as Hs'.
  { intros m' Hm'. destruct Hs. constructor; cbn [s' sg_iNext sg_aIndex sg_aPgno sg_nEntry sg_iZero]; [done|lia|done|done|]. intros k Hk. specialize (H2 k Hk). lia. }
  destruct Hbest as (Hb1 & Hb2 & Hb3).
  assert (exists r p, match found with Some (iPg, fr) => if iPg <? iRet then (iPg, fr) else (iRet, piFrame) | None => (iRet, piFrame) end = (r, p) /\
    best fs n m z r p /\ r <= NO_PAGE) as (r & p & -> & Hb & Hr).
  { destruct found as [[pg fr]|].
    - destruct H3 as (Hm & (i & Hi & -> & Hpg & Hlast) & Hmin). destruct (Z.ltb_spec pg iRet) as [Hlt|Hge].
      + eexists _, _. split; [done|]. split; [|lia]. split_and!; [done| |].
        * intros j Hj Hmj. destruct (decide (j < z + cnt)); [|specialize (Hb2 j); lia]. replace j with (z + (j - z)) in * by lia. apply Hmin; [lia|done].
        * intros _. split_and!; [lia|lia|by replace (z + 1 + i - 1) with (z + i) by lia|]. intros j Hj E. destruct (decide (j < z + cnt)).
          -- apply (Hlast (j - z)); [lia|]. by replace (z + (j - z)) with j by lia.
          -- specialize (Hb2 j). lia.
      + eexists _, _. split; [done|]. split; [|done]. split_and!; [done| |intros E; destruct (Hb3 E); lia || split; [lia|done]].
        intros j Hj Hmj. destruct (decide (j < z + cnt)); [|apply Hb2; [lia|done]]. specialize (Hmin (j - z)). replace (z + (j - z)) with j in Hmin by lia. lia.
    - eexists _, _. split; [done|]. split; [|done]. split_and!; [done| |intros E; destruct (Hb3 E); split; [lia|done]].
      intros j Hj Hmj. destruct (decide (j < z + cnt)); [|apply Hb2; [lia|done]]. specialize (H3 (j - z)). replace (z + (j - z)) with j in H3 by lia. lia. }
  specialize (IH r p ltac:(lia) Hr Hpages Hb). destruct (next_loop l m r p) as [[l' iRet'] piFrame']. destruct IH as (IH1 & IH2 & IH3).
  split_and!; [done|done|]. intros m' Hm'. constructor; [by apply Hs'|by apply IH3].
Qed.

(** The iterator on the first [n] frames of the log. *)
Definition it_ok (fs : list Z) (n : Z) (p : WalIterator) : Prop := covers fs (iPrior p) 0 n (reverse (aSegment p)).

Lemma last_frame_unique fs n fr pg : 0 < fr <= n -> n <= Z.of_nat (length fs) -> rd fs (fr - 1) = pg -> (forall j, fr <= j < n -> rd fs j <> pg) ->
  last_frame fs (Z.to_nat n) pg = fr.
Proof.
  intros Hf Hn Hpg Hlast. pose proof (lookup_rd fs (fr - 1) ltac:(lia)) as Hl. rewrite Hpg in Hl.
  destruct (last_frame_spec fs (Z.to_nat n) pg) as [[_ H]|(i & Hi & -> & Hli & H)]; [by destruct (H (Z.to_nat (fr - 1))); [lia|]|].
  destruct (decide (Z.of_nat i < fr - 1)); [by destruct (H (Z.to_nat (fr - 1))); [lia|]|].
  destruct (decide (Z.of_nat i = fr - 1)); [lia|]. destruct (Hlast (Z.of_nat i)); [lia|]. apply rd_lookup. by rewrite Nat2Z.id.
Qed.

Lemma iteratorNext_ok fs n p fr0 : it_ok fs n p -> 0 <= n <= Z.of_nat (length fs) -> (forall i, 0 <= i < n -> 0 < rd fs i < NO_PAGE) -> iPrior p < NO_PAGE ->
  let '(rc, p', pg, fr) := walIteratorNext p fr0 in
  (rc = 1 /\ forall i, 0 <= i < n -> rd fs i <= iPrior p) \/
  (rc = 0 /\ iPrior p' = pg /\ it_ok fs n p' /\ iPrior p < pg < NO_PAGE /\ 0 < fr <= n /\ rd fs (fr - 1) = pg /\ fr = last_frame fs (Z.to_nat n) pg /\
    forall i, 0 <= i < n -> iPrior p < rd fs i -> pg <= rd fs i).
Proof.
  intros Hit Hn Hpages Hprior. unfold walIteratorNext.
  pose proof (next_loop_ok fs n (iPrior p) n _ Hit NO_PAGE fr0 ltac:(lia) ltac:(lia) ltac:(intros i Hi; by apply Hpages)) as H. change 0xFFFFFFFF with NO_PAGE.
  destruct (next_loop _ _ _ _) as [[l iRet] fr]. destruct H as ((H1 & H2 & H3) & Hmax & Hcov); [split_and!; [done|lia|done]|].
  destruct (Z.eqb_spec iRet NO_PAGE) as [->|Hne].
  - left. split; [done|]. intros i Hi. destruct (decide (iPrior p < rd fs i)); [|lia]. specialize (H2 i Hi). specialize (Hpages i Hi). lia.
  - right. destruct (H3 Hne) as (Hf & Hpg & Hlast). split_and!; [done|done| |done|lia|lia|lia|done| |done].
    + unfold it_ok. cbn [aSegment iPrior]. rewrite reverse_involutive. apply Hcov. lia.
    + symmetry. apply last_frame_unique; done || lia.
Qed.

(** ** Building the iterator *)

Lemma segment_loop_ok env w fs n : index_ok w fs -> 0 < n <= Z.of_nat (length fs) -> forall k m i, 0 <= i -> i + Z.of_nat k = walFramePage n + 1 ->
  let '(rc, l, m') := segment_loop env k m w n (walFramePage n + 1) i in
  (rc = SQLITE_OK -> (k = O \/ covers fs 0 (iZero_of i) n (reverse l)) /\ (k = O -> l = [])) /\ (rc <> SQLITE_OK -> map_error env rc) /\ (env_ok env -> rc = SQLITE_OK).
Proof.
  intros Hok Hn. induction k as [|k IH]; intros m i Hi Hk; cbn [segment_loop]; [split_and!; [intros _; split; [by left|done]|done|done]|].
  unfold walHashGet. pose proof (walIndexPage_spec env m i) as Hmap. destruct (walIndexPage env m i) as [rc m1]. destruct Hmap as (_ & Herr & Henv).
  destruct (Z.eqb_spec rc SQLITE_OK) as [->|Hrc]; cbn [negb]; [|done]. destruct (walFramePage_spec n ltac:(lia)) as [Hh Hr]. pose proof (npage_range i) as Hnp.
  assert (iZero_of i < n) as Hzi.
  { destruct (decide (i = walFramePage n)) as [->|]; [lia|]. pose proof (iZero_mono i (walFramePage n)). lia. }
  pose proof (iZero_nonneg i Hi) as Hz0. pose proof (Hok i Hi ltac:(lia)) as Hp. pose proof (length_part i fs Hi) as Hls.
  set (cnt := if i + 1 =? walFramePage n + 1 then n - iZero_of i else Z.of_nat (length (aPgno (page_at w i)))).
  assert (length (aPgno (page_at w i)) = Z.to_nat (npage i)) as Hlen.
  { rewrite (page_pgno _ _ _ Hp), length_app, length_replicate. pose proof (page_room _ _ _ Hp). lia. }
  assert (0 < cnt <= npage i /\ iZero_of i + cnt <= n /\ (i = walFramePage n -> iZero_of i + cnt = n) /\ (i <> walFramePage n -> cnt = npage i)) as (Hc1 & Hc2 & Hc3 & Hc4).
  { unfold cnt. destruct (Z.eqb_spec (i + 1) (walFramePage n + 1)) as [E|E]; [replace (walFramePage n) with i in * by lia; split_and!; lia|].
    rewrite Hlen. pose proof (iZero_mono i (walFramePage n)). split_and!; lia. }
  pose proof (mergesort_ok (aPgno (page_at w i)) cnt ltac:(lia)) as Hsort. destruct (walMergesort _ _ cnt) as [aIndex nEntry]. destruct Hsort as [Hn1 Hn2].
  set (s := {| sg_iNext := 0; sg_aIndex := aIndex; sg_aPgno := aPgno (page_at w i); sg_nEntry := nEntry; sg_iZero := iZero_of i + 1 |}).
  assert (seg_ok fs s (iZero_of i) cnt 0) as Hs.
  { constructor; cbn [s sg_iNext sg_aIndex sg_aPgno sg_nEntry sg_iZero]; [lia|lia|done| |lia]. intros j Hj. rewrite (page_rd i _ _ _ Hp) by lia.
    rewrite lookup_part by lia. unfold rd. rewrite nth_lookup. do 2 f_equal. lia. }
  specialize (IH m1 (i + 1) ltac:(lia) ltac:(lia)). destruct (segment_loop env k m1 w n (walFramePage n + 1) (i + 1)) as [[rc l] m2]. destruct IH as (IH1 & IH2 & IH3).
  split_and!; [|done|done]. intros E. destruct (IH1 E) as [Hl Hnil]. split; [right|done]. rewrite reverse_cons. apply covers_app with (iZero_of i + cnt).
  - destruct (decide (i = walFramePage n)) as [Ei|Hne].
    + rewrite Hnil by lia. rewrite (Hc3 Ei). constructor.
    + destruct Hl as [|Hl]; [lia|]. rewrite iZero_succ in Hl by done. rewrite (Hc4 Hne). done.
  - constructor; [done|constructor].
Qed.

Lemma iteratorInit_ok env m w fs n : index_ok w fs -> 0 < n <= Z.of_nat (length fs) ->
  let '(rc, p, _) := walIteratorInit env true true m w n in
  (rc = SQLITE_OK -> exists it, p = Some it /\ it_ok fs n it /\ iPrior it = 0) /\ (rc <> SQLITE_OK -> p = None /\ map_error env rc) /\ (env_ok env -> rc = SQLITE_OK).
Proof.
  intros Hok Hn. unfold walIteratorInit. cbn [negb]. destruct (walFramePage_spec n ltac:(lia)) as [Hh Hr].
  pose proof (segment_loop_ok env w fs n Hok Hn (Z.to_nat (walFramePage n + 1)) m 0 ltac:(lia) ltac:(lia)) as H. destruct (segment_loop _ _ _ _ _ _ _) as [[rc l] m'].
  destruct H as (H1 & H2 & H3). destruct (Z.eqb_spec rc SQLITE_OK) as [->|Hrc]; cbn [negb]; [|split_and!; [done|by split; [|apply H2]|done]].
  split_and!; [|done|done]. intros _. eexists. split; [done|]. split; [|done]. destruct (H1 eq_refl) as [[|Hc] _]; [lia|exact Hc].
Qed.

(** ** A whole iteration *)

(** The pages and frames an iterator delivers until it reports the end. *)
Fixpoint iterate (fuel : nat) (p : WalIterator) (fr : Z) : option (list (Z * Z)) :=
  match fuel with
  | O => None
  | S fuel =>
      let '(rc, p, pg, fr) := walIteratorNext p fr in
      if rc =? 0 then (fun l => (pg, fr) :: l) <$> iterate fuel p fr else Some []
  end.

(** The positions whose page is beyond [m]. *)
Definition beyond (fs : list Z) (n m : Z) : list Z := filter (fun i => m < rd fs i) (seqZ 0 n).

Lemma beyond_shrinks fs n m m' i : 0 <= i < n -> m < rd fs i -> rd fs i <= m' -> (length (beyond fs n m') < length (beyond fs n m))%nat.
Proof.
  intros Hi Hm Hm'. assert (i :: beyond fs n m' ⊆+ beyond fs n m) as Hsub; [|apply submseteq_length in Hsub; cbn in Hsub; lia].
  unfold beyond. apply NoDup_submseteq.
  - constructor; [rewrite list_elem_of_filter; lia|]. apply NoDup_filter, NoDup_seqZ.
  - intros j [->|Hj]%elem_of_cons; apply list_elem_of_filter; [split; [done|apply elem_of_seqZ; lia]|].
    apply list_elem_of_filter in Hj as [? ?]. split; [lia|done].
Qed.

Lemma iterate_ok fs n : 0 <= n <= Z.of_nat (length fs) -> (forall i, 0 <= i < n -> 0 < rd fs i < NO_PAGE) ->
  forall fuel p fr0, it_ok fs n p -> iPrior p < NO_PAGE -> (length (beyond fs n (iPrior p)) < fuel)%nat ->
  exists l, iterate fuel p fr0 = Some l /\ StronglySorted Z.lt (map fst l) /\ Forall (fun x => iPrior p < x.1) l /\
    forall pg fr, (pg, fr) ∈ l <-> iPrior p < pg /\ fr = last_frame fs (Z.to_nat n) pg /\ fr <> 0.
Proof.
  intros Hn Hpages. induction fuel as [|fuel IH]; intros p fr0 Hit Hprior Hfuel; [lia|]. cbn [iterate].
  pose proof (iteratorNext_ok fs n p fr0 Hit Hn Hpages Hprior) as H. destruct (walIteratorNext p fr0) as [[[rc p'] pg] fr].
  assert (forall q, last_frame fs (Z.to_nat n) q <> 0 -> exists i, 0 <= i < n /\ rd fs i = q) as Hin.
  { intros q Hq. destruct (last_frame_spec fs (Z.to_nat n) q) as [[? _]|(i & Hi & _ & Hl & _)]; [done|]. exists (Z.of_nat i). split; [lia|].
    apply rd_lookup. by rewrite Nat2Z.id. }
  destruct H as [[-> Hnone]|(-> & Hp' & Hit' & Hpg & Hfr & Hrd & Hlast & Hmin)]; cbn [Z.eqb].
  - exists []. split_and!; [done|constructor|constructor|]. intros q f. split; [intros H; by apply not_elem_of_nil in H|]. intros (Hq & -> & Hf).
    destruct (Hin q Hf) as (i & Hi & <-). specialize (Hnone i Hi). lia.
  - destruct (IH p' fr Hit') as (l & -> & Hs & Hgt & Hm).
    { lia. }
    { pose proof (beyond_shrinks fs n (iPrior p) (iPrior p') (fr - 1)). lia. }
    rewrite Hp' in *. cbn [fmap option_fmap option_map]. exists ((pg, fr) :: l). split_and!; [done| | |].
    + cbn [map fst]. constructor; [done|]. apply Forall_map. eapply Forall_impl; [exact Hgt|]. done.
    + constructor; [cbn; lia|]. eapply Forall_impl; [exact Hgt|]. cbn. intros x Hx. lia.
    + intros q f. rewrite elem_of_cons, Hm. split.
      * intros [[= -> ->]|(Hq & -> & Hf)]; [split_and!; [lia|done|lia]|split_and!; [lia|done|done]].
      * intros (Hq & -> & Hf). destruct (decide (q = pg)) as [->|Hne]; [left; by rewrite <- Hlast|]. right. split_and!; [|done|done].
        destruct (Hin q Hf) as (i & Hi & <-). specialize (Hmin i Hi Hq). lia.
Qed.

(** ** The pages in the log as a list *)

(** The pages of the first [n] frames in ascending order, each with its last frame. *)
Definition log_pages (fs : list Z) (n : Z) : list (Z * Z) :=
  map (fun pg => (pg, last_frame fs (Z.to_nat n) pg)) (merge_sort Z.le (remove_dups (filter (fun pg => 0 < pg) (take (Z.to_nat n) fs)))).
Lemma log_pages_elem fs n pg f : (pg, f) ∈ log_pages fs n <-> 0 < pg /\ f = last_frame fs (Z.to_nat n) pg /\ 0 < f.
Proof.
  unfold log_pages. rewrite list_elem_of_fmap. split.
  - intros (q & [= -> ->] & H). rewrite merge_sort_Permutation, elem_of_remove_dups, list_elem_of_filter in H. destruct H as [Hq H]. split_and!; [done|done|].
    apply list_elem_of_lookup in H as [i Hi]. apply lookup_take_Some in Hi as [Hi Hlt]. destruct (last_frame_spec fs (Z.to_nat n) q) as [[_ H]|(j & _ & -> & _)]; [|lia]. by destruct (H i Hlt).
  - intros (Hp & -> & Hf). exists pg. split; [done|]. rewrite merge_sort_Permutation, elem_of_remove_dups, list_elem_of_filter. split; [done|].
    destruct (last_frame_spec fs (Z.to_nat n) pg) as [[? _]|(i & Hi & _ & Hl & _)]; [lia|]. apply list_elem_of_lookup. exists i. by rewrite lookup_take_lt.
Qed.
(** The list is determined by its order and its elements. *)
Lemma log_pages_unique fs n l : StronglySorted Z.lt (map fst l) -> (forall pg fr, (pg, fr) ∈ l <-> 0 < pg /\ fr = last_frame fs (Z.to_nat n) pg /\ 0 < fr) -> l = log_pages fs n.
Proof.
  intros Hs Hl. assert (map fst l = merge_sort Z.le (remove_dups (filter (fun pg => 0 < pg) (take (Z.to_nat n) fs)))) as E.
  { apply (StronglySorted_unique Z.le).
    - clear Hl. induction Hs as [|x xs Hs IH Hx]; constructor; [done|]. eapply Forall_impl; [exact Hx|]. cbn. lia.
    - apply StronglySorted_merge_sort; apply _.
    - apply NoDup_Permutation.
      + clear Hl. induction Hs as [|x xs Hs IH Hx]; constructor; [|done]. intros Hin. pose proof (proj1 (Forall_forall _ _) Hx x Hin). lia.
      + rewrite merge_sort_Permutation. apply NoDup_remove_dups.
      + intros pg. rewrite list_elem_of_fmap. transitivity ((pg, last_frame fs (Z.to_nat n) pg) ∈ log_pages fs n).
        * rewrite log_pages_elem. split; [intros ([q f] & -> & Hin); apply Hl in Hin as (? & -> & ?); done|]. intros H. exists (pg, last_frame fs (Z.to_nat n) pg). split; [done|]. by apply Hl.
        * unfold log_pages. rewrite list_elem_of_fmap. split; [intros (q & [= -> _] & ?); done|]. intros H. by exists pg. }
  unfold log_pages. rewrite <- E, map_map. transitivity (map id l); [by rewrite map_id|]. apply map_ext_in. intros [pg f] Hin. apply list_elem_of_In in Hin. apply Hl in Hin as (_ & -> & _). done.
Qed.

(** C31. The iterator delivers every page of the log once, in ascending order, each with the last frame that holds it. *)
Theorem walIterator_correct env m w fs n : index_ok w fs -> 0 < n <= Z.of_nat (length fs) -> Forall (fun x => 0 < x < NO_PAGE) fs -> env_ok env ->
  exists it m' l, walIteratorInit env true true m w n = (SQLITE_OK, Some it, m') /\ iterate (S (Z.to_nat n)) it 0 = Some l /\ l = log_pages fs n /\
    StronglySorted Z.lt (map fst l) /\ forall pg fr, (pg, fr) ∈ l <-> fr = last_frame fs (Z.to_nat n) pg /\ fr <> 0.
Proof.
  intros Hok Hn Hpages Henv. pose proof (iteratorInit_ok env m w fs n Hok Hn) as H. destruct (walIteratorInit env true true m w n) as [[rc p] m'].
  destruct H as (H1 & _ & H3). specialize (H3 Henv). subst rc. destruct (H1 eq_refl) as (it & -> & Hit & Hprior).
  assert (forall i, 0 <= i < n -> 0 < rd fs i < NO_PAGE) as Hpg by (intros i Hi; apply (Forall_lookup_1 _ _ _ _ Hpages (lookup_rd fs i ltac:(lia)))).
  destruct (iterate_ok fs n ltac:(lia) Hpg (S (Z.to_nat n)) it 0 Hit) as (l & Hl & Hs & _ & Hm); [by rewrite Hprior| |].
  { unfold beyond. pose proof (length_filter (fun i => iPrior it < rd fs i) (seqZ 0 n)) as Hf. rewrite length_seqZ in Hf. lia. }
  assert (forall pg fr, (pg, fr) ∈ l <-> 0 < pg /\ fr = last_frame fs (Z.to_nat n) pg /\ fr <> 0) as Hl' by (intros pg fr; by rewrite Hm, Hprior).
  exists it, m', l. split_and!; [done|done| |done|].
  - apply log_pages_unique; [done|]. intros pg fr. rewrite Hl'. pose proof (last_frame_spec fs (Z.to_nat n) pg) as Hlf. split; (intros (Hp1 & -> & Hp2); split_and!; [done|done|]); destruct Hlf as [[? _]|(i & _ & ? & _)]; lia.
  - intros pg fr. rewrite Hl'. split; [by intros (_ & ? & ?)|]. intros [-> Hf]. split_and!; [|done|done].
    destruct (last_frame_spec fs (Z.to_nat n) pg) as [[? _]|(i & Hi & _ & Hlk & _)]; [done|]. specialize (Hpg (Z.of_nat i) ltac:(lia)).
    rewrite (rd_lookup fs (Z.of_nat i) pg) in Hpg; [lia|by rewrite Nat2Z.id].
Qed.

Lemma walIterator_correct_witness : exists w it m' l, index_ok w [5; 3; 5] /\ walIteratorInit env1 true true no_map w 3 = (SQLITE_OK, Some it, m') /\
  iterate 4 it 0 = Some l /\ (3, 2) ∈ l /\ (5, 3) ∈ l.
Proof.
  destruct (append_index_ok env1 no_map ∅ [] 0 0 5) as (rc & m & w & _ & Hok & _ & Hrc); [apply index_ok_nil|lia|cbn; lia|by left|].
  specialize (Hok (Hrc env1_ok)).
  destruct (append_index_ok env1 no_map w [5] 1 0 3) as (rc2 & m2 & w2 & _ & Hok2 & _ & Hrc2); [exact Hok|lia|cbn; lia|by left|]. specialize (Hok2 (Hrc2 env1_ok)).
  destruct (append_index_ok env1 no_map w2 [5; 3] 2 0 5) as (rc3 & m3 & w3 & _ & Hok3 & _ & Hrc3); [exact Hok2|lia|cbn; lia|by left|]. specialize (Hok3 (Hrc3 env1_ok)).
  destruct (walIterator_correct env1 no_map w3 [5; 3; 5] 3 Hok3) as (it & m' & l & Hi & Hl & _ & _ & Hm); [cbn; lia|repeat constructor|apply env1_ok|].
  exists w3, it, m', l. split_and!; [exact Hok3|exact Hi|exact Hl| |]; apply Hm; split; [reflexivity|lia|reflexivity|lia].
Defined.

