(* ===== verification/WalLog.v ===== *)
(** The write-ahead log of wal.c: checksums, frames, the header of the wal-index, recovery.

    Byte order is that of a little-endian machine ([SQLITE_BIGENDIAN] is 0). The file of the log is reached through the
    class [WalFile], the methods of its sqlite3_file; [WalFileLaws] is what the log relies on. *)
From S2P Require Import Prelude Varint WalHash.
Local Open Scope Z_scope.
Local Open Scope c_scope.

Definition WAL_MAX_VERSION : Z := 3007000.
Definition WALINDEX_MAX_VERSION : Z := 3007000.
Definition WAL_NREADER : Z := 8 - 3.
Definition READMARK_NOT_USED : Z := 0xffffffff.
Definition WAL_FRAME_HDRSIZE : Z := 24.
Definition WAL_HDRSIZE : Z := 32.
Definition WAL_MAGIC : Z := 0x377f0682.
Definition SQLITE_MAX_PAGE_SIZE : Z := 65536.
Definition SQLITE_BIGENDIAN : Z := 0.
Definition SQLITE_CANTOPEN : Z := 14.

Definition walFrameOffset (iFrame szPage : Z) : Z := WAL_HDRSIZE + (iFrame - 1) * (szPage + WAL_FRAME_HDRSIZE).

(** [aSalt] is kept as its 8 bytes. *)
Record WalIndexHdr := {
  iVersion : Z; unused : Z; iChange : Z; isInit : Z; bigEndCksum : Z; hszPage : Z; mxFrame : Z; nPage : Z;
  aFrameCksum : Z * Z; aSalt : list Z; aCksum : Z * Z
}.
Record WalCkptInfo := { nBackfill : Z; aReadMark : list Z }.

(** ** Checksums *)

Definition BYTESWAP32 (x : Z) : Z :=
  u32 (((x .& 0x000000FF) << 24) + ((x .& 0x0000FF00) << 8) + ((x .& 0x00FF0000) >> 8) + ((x .& 0xFF000000) >> 24)).

(** A u32 in memory. *)
Definition le4 (v : Z) : list Z := [u8 v; u8 (v >> 8); u8 (v >> 16); u8 (v >> 24)].
Definition load4 (b0 b1 b2 b3 : Z) : Z := b0 .| (b1 << 8) .| (b2 << 16) .| (b3 << 24).

Fixpoint cksum_loop (native : bool) (a : list Z) (s1 s2 : Z) : Z * Z :=
  match a with
  | b0 :: b1 :: b2 :: b3 :: b4 :: b5 :: b6 :: b7 :: a =>
      let swap x := if native then x else BYTESWAP32 x in
      let s1 := u32 (s1 + (swap (load4 b0 b1 b2 b3) + s2)) in
      let s2 := u32 (s2 + (swap (load4 b4 b5 b6 b7) + s1)) in
      cksum_loop native a s1 s2
  | _ => (s1, s2)
  end.
(** [a] has [nByte] bytes, a positive multiple of 8; [aIn] is [None] for a null pointer. *)
Definition walChecksumBytes (nativeCksum : bool) (a : list Z) (aIn : option (Z * Z)) : Z * Z :=
  let '(s1, s2) := default (0, 0) aIn in cksum_loop nativeCksum a s1 s2.

(** ** Frames *)

Definition set_cksum (h : WalIndexHdr) (c : Z * Z) : WalIndexHdr :=
  {| iVersion := iVersion h; unused := unused h; iChange := iChange h; isInit := isInit h; bigEndCksum := bigEndCksum h; hszPage := hszPage h;
     mxFrame := mxFrame h; nPage := nPage h; aFrameCksum := c; aSalt := aSalt h; aCksum := aCksum h |}.

(** Four bytes of a buffer, big-endian. *)
Definition be4 (v : Z) : list Z := sqlite3Put4byte [0; 0; 0; 0] v.
Definition get4 (p : list Z) (off : nat) : Z := sqlite3Get4byte (drop off p).

(** The frame header, and the header of the handle with the new running checksum. *)
Definition walEncodeFrame (h : WalIndexHdr) (iPage nTruncate : Z) (aData : list Z) : list Z * WalIndexHdr :=
  let aFrame := be4 iPage ++ be4 nTruncate in
  let nativeCksum := bigEndCksum h =? SQLITE_BIGENDIAN in
  let aCksum := walChecksumBytes nativeCksum aFrame (Some (aFrameCksum h)) in
  let aCksum := walChecksumBytes nativeCksum aData (Some aCksum) in
  (aFrame ++ aSalt h ++ be4 aCksum.1 ++ be4 aCksum.2, set_cksum h aCksum).

(** [None]: not a valid frame. The running checksum changes when the checksum is what fails, too. *)
Definition walDecodeFrame (h : WalIndexHdr) (aData aFrame : list Z) : option (Z * Z) * WalIndexHdr :=
  if negb (bool_decide (take 8 (drop 8 aFrame) = aSalt h)) then (None, h)
  else
    let pgno := get4 aFrame 0 in
    if pgno =? 0 then (None, h)
    else
      let nativeCksum := bigEndCksum h =? SQLITE_BIGENDIAN in
      let aCksum := walChecksumBytes nativeCksum (take 8 aFrame) (Some (aFrameCksum h)) in
      let aCksum := walChecksumBytes nativeCksum aData (Some aCksum) in
      let h := set_cksum h aCksum in
      if negb (aCksum.1 =? get4 aFrame 16) || negb (aCksum.2 =? get4 aFrame 20) then (None, h)
      else (Some (pgno, get4 aFrame 4), h).

(** ** The header of the wal-index *)

(** The bytes of a WalIndexHdr before its checksum. *)
Definition hdr_bytes (h : WalIndexHdr) : list Z :=
  le4 (iVersion h) ++ le4 (unused h) ++ le4 (iChange h) ++ [isInit h; bigEndCksum h; u8 (hszPage h); u8 (hszPage h >> 8)] ++
  le4 (mxFrame h) ++ le4 (nPage h) ++ le4 (aFrameCksum h).1 ++ le4 (aFrameCksum h).2 ++ aSalt h.

(** Shared memory: the two copies of the header, the checkpoint information and the hash tables. *)
Record Shm := { aHdr0 : WalIndexHdr; aHdr1 : WalIndexHdr; ckpt : WalCkptInfo; tables : WalIndex }.
Definition set_tables (s : Shm) (w : WalIndex) : Shm := {| aHdr0 := aHdr0 s; aHdr1 := aHdr1 s; ckpt := ckpt s; tables := w |}.

Definition walIndexWriteHdr (h : WalIndexHdr) (s : Shm) : WalIndexHdr * Shm :=
  let h := {| iVersion := WALINDEX_MAX_VERSION; unused := unused h; iChange := iChange h; isInit := 1; bigEndCksum := bigEndCksum h;
              hszPage := hszPage h; mxFrame := mxFrame h; nPage := nPage h; aFrameCksum := aFrameCksum h; aSalt := aSalt h; aCksum := aCksum h |} in
  let h := {| iVersion := iVersion h; unused := unused h; iChange := iChange h; isInit := isInit h; bigEndCksum := bigEndCksum h;
              hszPage := hszPage h; mxFrame := mxFrame h; nPage := nPage h; aFrameCksum := aFrameCksum h; aSalt := aSalt h;
              aCksum := walChecksumBytes true (hdr_bytes h) None |} in
  (h, {| aHdr0 := h; aHdr1 := h; ckpt := ckpt s; tables := tables s |}).

#[export] Instance WalIndexHdr_eq_dec : EqDecision WalIndexHdr.
Proof. solve_decision. Defined.

(** The result (0 for success), [*pChanged] set or not, and the new [pWal->hdr] and [pWal->szPage]: [h1] and [h2] are what was read from
    the two copies. *)
Definition walIndexTryHdr (hdr : WalIndexHdr) (szPage : Z) (h1 h2 : WalIndexHdr) : Z * bool * WalIndexHdr * Z :=
  if negb (bool_decide (h1 = h2)) then (1, false, hdr, szPage)
  else if isInit h1 =? 0 then (1, false, hdr, szPage)
  else if negb (bool_decide (walChecksumBytes true (hdr_bytes h1) None = aCksum h1)) then (1, false, hdr, szPage)
  else if negb (bool_decide (hdr = h1)) then (0, true, h1, (hszPage h1 .& 0xfe00) + ((hszPage h1 .& 1) << 16))
  else (0, false, hdr, szPage).

(** ** The file of the log *)

Class WalFile (F : Type) := {
  contents : F -> list Z;
  sqlite3OsRead : F -> Z -> Z -> Z * list Z;       (* amount, offset *)
  sqlite3OsWrite : F -> list Z -> Z -> Z * F;      (* data, offset *)
  sqlite3OsSync : F -> Z -> Z * F;
  sqlite3OsTruncate : F -> Z -> Z * F;
  sqlite3OsFileSize : F -> Z * Z;
  sqlite3OsSectorSize : F -> Z
}.

(** The effect of a write; a gap is filled with zeros. *)
Definition pwrite (c d : list Z) (off : nat) : list Z := resize off 0 c ++ d ++ drop (off + length d) c.

Lemma lookup_pwrite_out c d off j : (j < length c)%nat -> (j < off \/ off + length d <= j)%nat -> pwrite c d off !! j = c !! j.
Proof.
  intros Hj Ho. unfold pwrite. destruct (decide (j < off)%nat).
  - rewrite lookup_app_l by (rewrite length_resize; lia). by rewrite lookup_resize by lia.
  - rewrite lookup_app_r by (rewrite length_resize; lia). rewrite length_resize, lookup_app_r by lia. rewrite lookup_drop. f_equal. lia.
Qed.

(** What the log relies on: a call that reports success has done its work; one that fails may have damaged what it was to
    change, and nothing else. *)
Class WalFileLaws (F : Type) `{WalFile F} := {
  read_ok f n off l : sqlite3OsRead f n off = (SQLITE_OK, l) -> 0 <= n -> 0 <= off -> off + n <= Z.of_nat (length (contents f)) ->
    l = take (Z.to_nat n) (drop (Z.to_nat off) (contents f));
  write_ok f d off f' : sqlite3OsWrite f d off = (SQLITE_OK, f') -> 0 <= off -> contents f' = pwrite (contents f) d (Z.to_nat off);
  write_error f d off rc f' j : sqlite3OsWrite f d off = (rc, f') -> rc <> SQLITE_OK -> 0 <= off -> Z.of_nat j < off \/ off + Z.of_nat (length d) <= Z.of_nat j ->
    (j < length (contents f))%nat -> contents f' !! j = contents f !! j;
  sync_ok f flags rc f' : sqlite3OsSync f flags = (rc, f') -> contents f' = contents f;
  truncate_ok f n rc f' : sqlite3OsTruncate f n = (rc, f') -> 0 <= n <= Z.of_nat (length (contents f)) ->
    contents f' = contents f \/ contents f' = take (Z.to_nat n) (contents f);
  size_ok f n : sqlite3OsFileSize f = (SQLITE_OK, n) -> n = Z.of_nat (length (contents f))
}.

(** Nothing fails when the file is read. *)
Definition reads_ok {F} `{WalFile F} (f : F) : Prop :=
  (exists n, sqlite3OsFileSize f = (SQLITE_OK, n)) /\
  forall n off, 0 <= n -> 0 <= off -> off + n <= Z.of_nat (length (contents f)) -> exists l, sqlite3OsRead f n off = (SQLITE_OK, l).

(** ** Recovery *)

Definition zero_hdr : WalIndexHdr :=
  {| iVersion := 0; unused := 0; iChange := 0; isInit := 0; bigEndCksum := 0; hszPage := 0; mxFrame := 0; nPage := 0;
     aFrameCksum := (0, 0); aSalt := replicate 8 0; aCksum := (0, 0) |}.

Definition set_commit (h : WalIndexHdr) (iFrame n sz : Z) : WalIndexHdr :=
  {| iVersion := iVersion h; unused := unused h; iChange := iChange h; isInit := isInit h; bigEndCksum := bigEndCksum h;
     hszPage := u16 ((sz .& 0xff00) .| (sz >> 16)); mxFrame := iFrame; nPage := n; aFrameCksum := aFrameCksum h; aSalt := aSalt h; aCksum := aCksum h |}.

Section recover.
Context {F : Type} `{WalFile F} (env : ShmEnv).

(** What the loop over the frames changes: [pWal->hdr], [aFrameCksum], the mapping and the hash tables. *)
Record RecState := { r_hdr : WalIndexHdr; r_cksum : Z * Z; r_map : WiData; r_tables : WalIndex }.

Fixpoint recover_loop (fuel : nat) (f : F) (nSize szPage iFrame iOffset : Z) (r : RecState) : option (Z * RecState) :=
  match fuel with
  | O => None
  | S fuel =>
      let szFrame := szPage + WAL_FRAME_HDRSIZE in
      if negb (iOffset + szFrame <=? nSize) then Some (SQLITE_OK, r)
      else
        let iFrame := iFrame + 1 in
        let '(rc, buf) := sqlite3OsRead f szFrame iOffset in
        if negb (rc =? SQLITE_OK) then Some (rc, r)
        else
          let '(valid, h) := walDecodeFrame (r_hdr r) (drop 24 buf) buf in
          let r := {| r_hdr := h; r_cksum := r_cksum r; r_map := r_map r; r_tables := r_tables r |} in
          match valid with
          | None => Some (SQLITE_OK, r)
          | Some (pgno, nTruncate) =>
              '(rc, m, w) ← walIndexAppend env (r_map r) (r_tables r) (mxFrame h) iFrame pgno;
              let r := {| r_hdr := h; r_cksum := r_cksum r; r_map := m; r_tables := w |} in
              if negb (rc =? SQLITE_OK) then Some (rc, r)
              else
                let r := if nTruncate =? 0 then r
                         else {| r_hdr := set_commit h iFrame nTruncate szPage; r_cksum := aFrameCksum h; r_map := m; r_tables := w |} in
                recover_loop fuel f nSize szPage iFrame (iOffset + szFrame) r
          end
  end.

(** [pWal->szPage] and [pWal->nCkpt] with the rest of what recovery sets. *)
Record RecResult := { rr_rc : Z; rr_szPage : Z; rr_nCkpt : Z; rr_hdr : WalIndexHdr; rr_map : WiData; rr_shm : Shm }.

Definition recover_finished (rc szPage nCkpt : Z) (r : RecState) (s : Shm) : RecResult :=
  let s := set_tables s (r_tables r) in
  if negb (rc =? SQLITE_OK) then {| rr_rc := rc; rr_szPage := szPage; rr_nCkpt := nCkpt; rr_hdr := r_hdr r; rr_map := r_map r; rr_shm := s |}
  else
    let '(h, s) := walIndexWriteHdr (set_cksum (r_hdr r) (r_cksum r)) s in
    let marks := 0 :: replicate (Z.to_nat (WAL_NREADER - 1)) READMARK_NOT_USED in
    let marks := if mxFrame h =? 0 then marks else wr marks 1 (mxFrame h) in
    {| rr_rc := rc; rr_szPage := szPage; rr_nCkpt := nCkpt; rr_hdr := h; rr_map := r_map r;
       rr_shm := {| aHdr0 := aHdr0 s; aHdr1 := aHdr1 s; ckpt := {| nBackfill := 0; aReadMark := marks |}; tables := tables s |} |}.

(** [lock_rc] is the result of [walLockExclusive], [alloc] says whether the buffer for a frame is allocated. *)
Definition walIndexRecover (lock_rc : Z) (alloc : bool) (f : F) (hdr : WalIndexHdr) (szPage nCkpt : Z) (m : WiData) (s : Shm) : option RecResult :=
  let stop rc szPage nCkpt h := {| rr_rc := rc; rr_szPage := szPage; rr_nCkpt := nCkpt; rr_hdr := h; rr_map := m; rr_shm := s |} in
  let start h := {| r_hdr := h; r_cksum := (0, 0); r_map := m; r_tables := tables s |} in
  if negb (lock_rc =? SQLITE_OK) then Some (stop lock_rc szPage nCkpt hdr)
  else
    let h := zero_hdr in
    let '(rc, nSize) := sqlite3OsFileSize f in
    if negb (rc =? SQLITE_OK) then Some (stop rc szPage nCkpt h)
    else if negb (WAL_HDRSIZE <? nSize) then Some (recover_finished SQLITE_OK szPage nCkpt (start h) s)
    else
      let '(rc, aBuf) := sqlite3OsRead f WAL_HDRSIZE 0 in
      if negb (rc =? SQLITE_OK) then Some (stop rc szPage nCkpt h)
      else
        let magic := get4 aBuf 0 in
        let szPage' := i32 (get4 aBuf 8) in
        if negb (magic .& 0xFFFFFFFE =? WAL_MAGIC) || negb (szPage' .& (szPage' - 1) =? 0) || (SQLITE_MAX_PAGE_SIZE <? szPage') || (szPage' <? 512)
        then Some (recover_finished SQLITE_OK szPage nCkpt (start h) s)
        else
          let szPage := szPage' in
          let nCkpt := get4 aBuf 12 in
          let bigEnd := magic .& 1 in
          let h := {| iVersion := 0; unused := 0; iChange := 0; isInit := 0; bigEndCksum := bigEnd; hszPage := 0; mxFrame := 0; nPage := 0;
                      aFrameCksum := walChecksumBytes (bigEnd =? SQLITE_BIGENDIAN) (take 24 aBuf) None; aSalt := take 8 (drop 16 aBuf); aCksum := (0, 0) |} in
          if negb ((aFrameCksum h).1 =? get4 aBuf 24) || negb ((aFrameCksum h).2 =? get4 aBuf 28)
          then Some (recover_finished SQLITE_OK szPage nCkpt (start h) s)
          else if negb (get4 aBuf 4 =? WAL_MAX_VERSION) then Some (recover_finished SQLITE_CANTOPEN szPage nCkpt (start h) s)
          else if negb alloc then Some (stop SQLITE_NOMEM szPage nCkpt h)
          else
            '(rc, r) ← recover_loop (S (Z.to_nat nSize)) f nSize szPage 0 WAL_HDRSIZE (start h);
            Some (recover_finished rc szPage nCkpt r s).
End recover.

(** * Frames as values *)

Record Frame := { f_pgno : Z; f_trunc : Z; f_data : list Z }.

(** The running checksum after a frame, and after a log. *)
Definition frame_cksum (c : Z * Z) (f : Frame) : Z * Z :=
  walChecksumBytes true (f_data f) (Some (walChecksumBytes true (be4 (f_pgno f) ++ be4 (f_trunc f)) (Some c))).
Definition log_cksum (c : Z * Z) (fs : list Frame) : Z * Z := foldl frame_cksum c fs.

Definition frame_bytes (salt : list Z) (c : Z * Z) (f : Frame) : list Z :=
  (be4 (f_pgno f) ++ be4 (f_trunc f)) ++ salt ++ (be4 (frame_cksum c f).1 ++ be4 (frame_cksum c f).2) ++ f_data f.
Fixpoint log_bytes (salt : list Z) (c : Z * Z) (fs : list Frame) : list Z :=
  match fs with [] => [] | f :: fs => frame_bytes salt c f ++ log_bytes salt (frame_cksum c f) fs end.

(** The header of the file, and the checksum that starts the chain. *)
Definition wal_base (szPage nCkpt : Z) (salt : list Z) : list Z :=
  be4 (WAL_MAGIC .| SQLITE_BIGENDIAN) ++ be4 WAL_MAX_VERSION ++ be4 szPage ++ be4 nCkpt ++ salt.
Definition wal_cksum (szPage nCkpt : Z) (salt : list Z) : Z * Z := walChecksumBytes true (wal_base szPage nCkpt salt) None.
Definition wal_header (szPage nCkpt : Z) (salt : list Z) : list Z :=
  wal_base szPage nCkpt salt ++ be4 (wal_cksum szPage nCkpt salt).1 ++ be4 (wal_cksum szPage nCkpt salt).2.

Definition frame_ok (szPage : Z) (f : Frame) : Prop := 0 < f_pgno f < 2 ^ 32 /\ is_u 32 (f_trunc f) /\ Z.of_nat (length (f_data f)) = szPage.
Definition page_size (szPage : Z) : Prop := exists k, 9 <= k <= 16 /\ szPage = 2 ^ k.
Definition u32_pair (c : Z * Z) : Prop := is_u 32 c.1 /\ is_u 32 c.2.

Lemma length_be4 v : length (be4 v) = 4%nat.
Proof. unfold be4, sqlite3Put4byte. by rewrite !length_wr. Qed.
Lemma get4_be4 p v q : is_u 32 v -> get4 (p ++ be4 v ++ q) (length p) = v.
Proof.
  intros Hv. unfold get4. rewrite drop_app_length. transitivity (sqlite3Get4byte (be4 v)); [done|]. apply put4byte_roundtrip; [done|cbn; lia].
Qed.
Lemma get4_at n p v q : length p = n -> is_u 32 v -> get4 (p ++ be4 v ++ q) n = v.
Proof. intros <-. apply get4_be4. Qed.

Lemma cksum_range native n : forall a s1 s2, (length a <= n)%nat -> is_u 32 s1 -> is_u 32 s2 -> u32_pair (cksum_loop native a s1 s2).
Proof.
  induction n as [|n IH]; intros a s1 s2 Hn H1 H2; [by destruct a; [|cbn in Hn; lia]|].
  do 8 (destruct a as [|? a]; [by split|]). cbn [cksum_loop]. cbn [length] in Hn. apply IH; [lia|apply uwrap_range; lia..].
Qed.
Lemma walChecksum_range native a c : u32_pair (default (0, 0) c) -> u32_pair (walChecksumBytes native a c).
Proof. unfold walChecksumBytes. destruct (default (0, 0) c) as [s1 s2]. intros [??]. by apply (cksum_range native (length a)). Qed.
Lemma frame_cksum_range c f : u32_pair c -> u32_pair (frame_cksum c f).
Proof. intros. unfold frame_cksum. by apply walChecksum_range, walChecksum_range. Qed.
Lemma log_cksum_range fs : forall c, u32_pair c -> u32_pair (log_cksum c fs).
Proof. induction fs as [|f fs IH]; intros c Hc; [done|]. by apply IH, frame_cksum_range. Qed.
Lemma wal_cksum_range szPage nCkpt salt : u32_pair (wal_cksum szPage nCkpt salt).
Proof. by apply walChecksum_range. Qed.

Lemma length_frame_bytes szPage salt c f : frame_ok szPage f -> length salt = 8%nat -> Z.of_nat (length (frame_bytes salt c f)) = szPage + 24.
Proof. intros (_ & _ & Hl) Hs. unfold frame_bytes. rewrite !length_app, !length_be4. lia. Qed.
Lemma length_log_bytes szPage salt fs : forall c, Forall (frame_ok szPage) fs -> length salt = 8%nat ->
  Z.of_nat (length (log_bytes salt c fs)) = Z.of_nat (length fs) * (szPage + 24).
Proof.
  induction fs as [|f fs IH]; intros c Hf Hs; [done|]. apply Forall_cons in Hf as [Hf Hfs]. cbn [log_bytes].
  rewrite length_app, Nat2Z.inj_add, (length_frame_bytes szPage), IH by done. cbn [length]. lia.
Qed.
Lemma log_bytes_app salt fs : forall c gs, log_bytes salt c (fs ++ gs) = log_bytes salt c fs ++ log_bytes salt (log_cksum c fs) gs.
Proof. induction fs as [|f fs IH]; intros c gs; [done|]. cbn [log_bytes app]. by rewrite IH, app_assoc. Qed.
Lemma log_cksum_app fs gs c : log_cksum c (fs ++ gs) = log_cksum (log_cksum c fs) gs.
Proof. apply foldl_app. Qed.
Lemma length_wal_header szPage nCkpt salt : length salt = 8%nat -> length (wal_header szPage nCkpt salt) = 32%nat.
Proof. intros Hs. unfold wal_header, wal_base. rewrite !length_app, !length_be4, Hs. done. Qed.

(** A frame that the chain wrote decodes. *)
Lemma decode_frame szPage h c f : bigEndCksum h = 0 -> length (aSalt h) = 8%nat -> aFrameCksum h = c -> u32_pair c -> frame_ok szPage f ->
  let b := frame_bytes (aSalt h) c f in walDecodeFrame h (drop 24 b) b = (Some (f_pgno f, f_trunc f), set_cksum h (frame_cksum c f)).
Proof.
  intros Hb Hs Hc Hcr (Hp & Ht & Hl) b. destruct (frame_cksum_range c f Hcr) as [H1 H2]. unfold walDecodeFrame.
  assert (take 8 b = be4 (f_pgno f) ++ be4 (f_trunc f)) as E0 by by apply take_app_length'.
  assert (drop 8 b = aSalt h ++ (be4 (frame_cksum c f).1 ++ be4 (frame_cksum c f).2) ++ f_data f) as E8 by by apply drop_app_length'.
  assert (drop 24 b = f_data f) as E24.
  { unfold b, frame_bytes. rewrite !app_assoc. rewrite drop_app_ge by (rewrite !length_app, !length_be4; lia).
    replace (24 - _)%nat with O by (rewrite !length_app, !length_be4; lia). done. }
  rewrite E24, E8, E0, take_app_length', bool_decide_eq_true_2 by done. cbn [negb].
  assert (get4 b 0 = f_pgno f) as ->. { unfold b, frame_bytes. rewrite <- !app_assoc. apply (get4_at 0 []); [done|unfold is_u; lia]. }
  rewrite (proj2 (Z.eqb_neq _ _)) by lia. rewrite Hb, Hc. cbn [Z.eqb SQLITE_BIGENDIAN]. fold (frame_cksum c f).
  assert (get4 b 16 = (frame_cksum c f).1) as ->.
  { unfold b, frame_bytes. rewrite !app_assoc, <- 2!app_assoc. apply get4_at; [|done]. rewrite !length_app, !length_be4. lia. }
  assert (get4 b 20 = (frame_cksum c f).2) as ->.
  { unfold b, frame_bytes. rewrite !app_assoc, <- 1!app_assoc. apply get4_at; [|done]. rewrite !length_app, !length_be4. lia. }
  assert (get4 b 4 = f_trunc f) as ->. { unfold b, frame_bytes. rewrite <- !app_assoc. apply get4_at; [|done]. apply length_be4. }
  rewrite !Z.eqb_refl. done.
Qed.

(** * Recovery *)

(** The last commit of a log: its frame, the size of the database and the running checksum; [acc] when there is none. *)
Fixpoint last_commit (n : Z) (c : Z * Z) (acc : Z * Z * (Z * Z)) (fs : list Frame) : Z * Z * (Z * Z) :=
  match fs with
  | [] => acc
  | f :: fs => let c := frame_cksum c f in last_commit (n + 1) c (if f_trunc f =? 0 then acc else (n + 1, f_trunc f, c)) fs
  end.

Lemma last_commit_app fs : forall n c acc gs, last_commit n c acc (fs ++ gs) = last_commit (n + Z.of_nat (length fs)) (log_cksum c fs) (last_commit n c acc fs) gs.
Proof.
  induction fs as [|f fs IH]; intros n c acc gs; [cbn; by rewrite Z.add_0_r|]. cbn [app last_commit length log_cksum foldl]. rewrite IH. f_equal. lia.
Qed.
Lemma last_commit_uncommitted fs : forall n c acc, Forall (fun f => f_trunc f = 0) fs -> last_commit n c acc fs = acc.
Proof. induction fs as [|f fs IH]; intros n c acc Hf; [done|]. apply Forall_cons in Hf as [Hf Hfs]. cbn [last_commit]. rewrite Hf. by apply IH. Qed.

(** No valid frame at the end of the log. *)
Definition chain_hdr (salt : list Z) (c : Z * Z) : WalIndexHdr :=
  {| iVersion := 0; unused := 0; iChange := 0; isInit := 0; bigEndCksum := 0; hszPage := 0; mxFrame := 0; nPage := 0; aFrameCksum := c; aSalt := salt;
     aCksum := (0, 0) |}.
Definition log_end (szPage : Z) (salt : list Z) (c : Z * Z) (tail : list Z) : Prop :=
  Z.of_nat (length tail) < szPage + 24 \/
  let b := take (Z.to_nat (szPage + 24)) tail in (walDecodeFrame (chain_hdr salt c) (drop 24 b) b).1 = None.

Lemma decode_chain h data buf : bigEndCksum h = 0 -> (walDecodeFrame h data buf).1 = (walDecodeFrame (chain_hdr (aSalt h) (aFrameCksum h)) data buf).1.
Proof.
  intros Hb. unfold walDecodeFrame. rewrite Hb. cbn [chain_hdr bigEndCksum aSalt aFrameCksum]. destruct (negb _); [done|]. destruct (_ =? 0); [done|].
  by destruct (_ || _).
Qed.
(** Decoding changes the running checksum only. *)
Lemma decode_hdr h data buf : exists c, (walDecodeFrame h data buf).2 = set_cksum h c.
Proof.
  unfold walDecodeFrame. destruct (negb _); [exists (aFrameCksum h); by destruct h|]. destruct (_ =? 0); [exists (aFrameCksum h); by destruct h|].
  eexists. by destruct (_ || _).
Qed.

Definition commit_size (szPage : Z) : Z := u16 ((szPage .& 0xff00) .| (szPage >> 16)).

Section recover_ok.
Context {F : Type} `{WalFileLaws F} (env : ShmEnv) (Henv : env_ok env) (f : F) (Hreads : reads_ok f).
Context (szPage : Z) (salt : list Z) (c0 : Z * Z) (base tail : list Z) (frames : list Frame).
Context (Hsz : 0 < szPage) (Hsalt : length salt = 8%nat) (Hc0 : u32_pair c0) (Hbase : length base = 32%nat) (Hframes : Forall (frame_ok szPage) frames).
Context (Hfile : contents f = base ++ log_bytes salt c0 frames ++ tail) (Htail : log_end szPage salt (log_cksum c0 frames) tail).

Definition frame_off (n : nat) : Z := 32 + Z.of_nat n * (szPage + 24).

Lemma frame_off_pos n : 32 <= frame_off n.
Proof using Hsz. clear -Hsz. unfold frame_off. nia. Qed.

Lemma read_file n off : 0 <= n -> 0 <= off -> off + n <= Z.of_nat (length (contents f)) ->
  sqlite3OsRead f n off = (SQLITE_OK, take (Z.to_nat n) (drop (Z.to_nat off) (contents f))).
Proof. intros Hn Ho Hl. destruct (proj2 Hreads n off Hn Ho Hl) as [l Hr]. by rewrite Hr, (read_ok f n off l). Qed.

Lemma drop_log pre post : frames = pre ++ post ->
  drop (Z.to_nat (frame_off (length pre))) (contents f) = log_bytes salt (log_cksum c0 pre) post ++ tail.
Proof using Hfile Hbase Hframes Hsalt Hsz.
  intros E. rewrite Hfile, E, log_bytes_app, <- app_assoc, (app_assoc base). apply drop_app_length'.
  rewrite E in Hframes. apply Forall_app in Hframes as [Hpre _].
  pose proof (length_log_bytes szPage salt pre c0 Hpre Hsalt). rewrite length_app, Hbase. unfold frame_off. lia.
Qed.

Lemma length_file : Z.of_nat (length (contents f)) = frame_off (length frames) + Z.of_nat (length tail).
Proof using Hfile Hbase Hframes Hsalt.
  rewrite Hfile, !length_app, Hbase. pose proof (length_log_bytes szPage salt frames c0 Hframes Hsalt). unfold frame_off. lia.
Qed.

(** What the loop keeps: the frames read so far are indexed, and the header follows the chain. *)
Record loop_ok (pre : list Frame) (r : RecState) : Prop := {
  lo_big : bigEndCksum (r_hdr r) = 0;
  lo_salt : aSalt (r_hdr r) = salt;
  lo_chain : aFrameCksum (r_hdr r) = log_cksum c0 pre;
  lo_index : index_ok (r_tables r) (map f_pgno pre);
  lo_commit : (mxFrame (r_hdr r), nPage (r_hdr r), r_cksum r) = last_commit 0 c0 (0, 0, (0, 0)) pre;
  lo_size : mxFrame (r_hdr r) = 0 \/ hszPage (r_hdr r) = commit_size szPage
}.

Lemma recover_loop_ok rest : forall pre r fuel, frames = pre ++ rest -> (length rest < fuel)%nat -> loop_ok pre r ->
  exists r', recover_loop env fuel f (Z.of_nat (length (contents f))) szPage (Z.of_nat (length pre)) (frame_off (length pre)) r = Some (SQLITE_OK, r') /\
    exists c, loop_ok frames {| r_hdr := set_cksum (r_hdr r') c; r_cksum := r_cksum r'; r_map := r_map r'; r_tables := r_tables r' |}.
Proof.
  pose proof length_file as Hlen. pose proof frame_off_pos as Hoff. induction rest as [|fr rest IH]; intros pre r fuel E Hfuel Hr.
  - rewrite app_nil_r in E. subst pre. destruct fuel as [|fuel]; [cbn in Hfuel; lia|]. cbn [recover_loop]. unfold WAL_FRAME_HDRSIZE.
    assert (forall r' c, r_hdr r' = set_cksum (r_hdr r) c -> r_cksum r' = r_cksum r -> r_tables r' = r_tables r ->
      exists c, loop_ok frames {| r_hdr := set_cksum (r_hdr r') c; r_cksum := r_cksum r'; r_map := r_map r'; r_tables := r_tables r' |}) as Hdone.
    { intros r' c Hh Hc Ht. exists (log_cksum c0 frames). destruct Hr. by constructor; cbn; rewrite ?Hh, ?Hc, ?Ht. }
    destruct (Z.leb_spec (frame_off (length frames) + (szPage + 24)) (Z.of_nat (length (contents f)))) as [Hle|]; cbn [negb].
    + destruct Htail as [|Hdec]; [lia|]. rewrite read_file by (specialize (Hoff (length frames)); lia). rewrite (drop_log frames []) by (by rewrite app_nil_r).
      cbn [negb Z.eqb SQLITE_OK log_bytes app]. cbv zeta in Hdec. set (b := take _ tail) in *.
      rewrite <- (lo_salt _ _ Hr), <- (lo_chain _ _ Hr), <- decode_chain in Hdec by apply (lo_big _ _ Hr).
      destruct (decode_hdr (r_hdr r) (drop 24 b) b) as [c Hc]. destruct (walDecodeFrame _ _ _) as [v h]. cbn in Hdec, Hc. subst v h.
      eexists. split; [done|]. by eapply Hdone.
    + eexists. split; [done|]. apply (Hdone r (aFrameCksum (r_hdr r))); [by destruct (r_hdr r)|done|done].
  - destruct fuel as [|fuel]; [cbn in Hfuel; lia|]. cbn [recover_loop]. unfold WAL_FRAME_HDRSIZE.
    assert (frame_ok szPage fr) as Hfr by (rewrite E in Hframes; apply Forall_app in Hframes as [_ Hframes']; by apply Forall_cons in Hframes' as [? _]).
    assert (frame_off (length pre) + (szPage + 24) <= Z.of_nat (length (contents f))) as Hle.
    { rewrite Hlen, E, length_app. cbn [length]. unfold frame_off. nia. }
    rewrite (proj2 (Z.leb_le _ _) Hle). cbn [negb]. rewrite read_file by (specialize (Hoff (length pre)); lia). cbn [negb Z.eqb SQLITE_OK].
    rewrite (drop_log pre (fr :: rest) E). cbn [log_bytes]. rewrite <- app_assoc.
    rewrite take_app_length' by (pose proof (length_frame_bytes szPage salt (log_cksum c0 pre) fr Hfr Hsalt); lia).
    pose proof (decode_frame szPage (r_hdr r) (log_cksum c0 pre) fr (lo_big _ _ Hr)) as Hdec. rewrite (lo_salt _ _ Hr) in Hdec. cbv zeta in Hdec.
    rewrite Hdec by (first [done | apply (lo_chain _ _ Hr) | by apply log_cksum_range]). clear Hdec. cbn [r_map r_tables r_cksum mxFrame set_cksum].
    destruct (append_index_ok env (r_map r) (r_tables r) (map f_pgno pre) (length pre) (mxFrame (r_hdr r)) (f_pgno fr)) as (rc & m & w & Ha & Hw & _ & Hrc);
      [apply (lo_index _ _ Hr)|apply Hfr|by rewrite length_map|left; by rewrite length_map|].
    rewrite Ha. cbn [mbind option_bind]. specialize (Hrc Henv). subst rc. specialize (Hw eq_refl). rewrite firstn_all2 in Hw by (by rewrite length_map).
    cbn [negb Z.eqb SQLITE_OK]. set (r1 := if f_trunc fr =? 0 then _ else _).
    specialize (IH (pre ++ [fr]) r1 fuel). rewrite length_app in IH. cbn [length] in IH, Hfuel.
    replace (Z.of_nat (length pre + 1)) with (Z.of_nat (length pre) + 1) in IH by lia.
    replace (frame_off (length pre + 1)) with (frame_off (length pre) + (szPage + 24)) in IH by (unfold frame_off; lia).
    apply IH; [by rewrite <- app_assoc|lia|]. unfold r1. pose proof (lo_commit _ _ Hr) as Hscan. pose proof (lo_size _ _ Hr) as Hsize. destruct (Z.eqb_spec (f_trunc fr) 0) as [E0|E0]; constructor;
      cbn [r_hdr r_cksum r_tables set_cksum set_commit bigEndCksum aSalt aFrameCksum mxFrame nPage hszPage];
      try apply (lo_big _ _ Hr); try apply (lo_salt _ _ Hr); try (by rewrite log_cksum_app); try (by rewrite map_app); try done.
    + rewrite last_commit_app. cbn [last_commit]. by rewrite E0, <- Hscan.
    + rewrite last_commit_app. cbn [last_commit]. rewrite (proj2 (Z.eqb_neq _ _) E0). done.
    + by right.
Qed.
End recover_ok.

(** What a recovery of the frames leaves behind. *)
Record recovered (szPage nCkpt : Z) (salt : list Z) (frames : list Frame) (res : RecResult) : Prop := {
  rec_rc : rr_rc res = SQLITE_OK;
  rec_commit : (mxFrame (rr_hdr res), nPage (rr_hdr res), aFrameCksum (rr_hdr res)) = last_commit 0 (wal_cksum szPage nCkpt salt) (0, 0, (0, 0)) frames;
  rec_index : index_ok (tables (rr_shm res)) (map f_pgno frames);
  rec_shared : aHdr0 (rr_shm res) = rr_hdr res /\ aHdr1 (rr_shm res) = rr_hdr res;
  rec_handle : frames <> [] -> rr_szPage res = szPage /\ rr_nCkpt res = nCkpt /\ aSalt (rr_hdr res) = salt /\ bigEndCksum (rr_hdr res) = 0;
  rec_size : mxFrame (rr_hdr res) = 0 \/ hszPage (rr_hdr res) = commit_size szPage;
  rec_ckpt : nBackfill (ckpt (rr_shm res)) = 0 /\
    aReadMark (ckpt (rr_shm res)) = [0; if mxFrame (rr_hdr res) =? 0 then READMARK_NOT_USED else mxFrame (rr_hdr res); READMARK_NOT_USED; READMARK_NOT_USED; READMARK_NOT_USED]
}.

Lemma recover_finished_ok szPage nCkpt salt frames r s c sz' nc' :
  loop_ok szPage salt (wal_cksum szPage nCkpt salt) frames {| r_hdr := set_cksum (r_hdr r) c; r_cksum := r_cksum r; r_map := r_map r; r_tables := r_tables r |} ->
  (frames <> [] -> sz' = szPage /\ nc' = nCkpt) ->
  recovered szPage nCkpt salt frames (recover_finished SQLITE_OK sz' nc' r s).
Proof.
  intros [] Hh. unfold recover_finished. cbn [negb Z.eqb SQLITE_OK walIndexWriteHdr].
  cbn [set_cksum r_hdr r_cksum r_tables mxFrame nPage aFrameCksum aSalt bigEndCksum hszPage] in *.
  constructor; cbn [rr_rc rr_hdr rr_szPage rr_nCkpt rr_shm aHdr0 aHdr1 ckpt tables set_tables mxFrame nPage aFrameCksum aSalt bigEndCksum hszPage nBackfill aReadMark];
    [done|done|done|done|by intros Hne; destruct (Hh Hne)|done|by destruct (mxFrame (r_hdr r) =? 0)].
Qed.

(** An empty log. *)
Lemma recover_nothing szPage nCkpt salt s w m sz nc :
  recovered szPage nCkpt salt [] (recover_finished SQLITE_OK sz nc {| r_hdr := zero_hdr; r_cksum := (0, 0); r_map := m; r_tables := w |} s).
Proof.
  unfold recover_finished. cbn [negb Z.eqb SQLITE_OK walIndexWriteHdr].
  constructor; cbn [rr_rc rr_hdr rr_szPage rr_nCkpt rr_shm aHdr0 aHdr1 ckpt tables set_tables mxFrame nPage aFrameCksum aSalt bigEndCksum hszPage nBackfill aReadMark];
    [done|done|apply index_ok_nil|done|done|by left|done].
Qed.

Lemma page_size_cases szPage : page_size szPage ->
  512 <= szPage <= 65536 /\ szPage .& (szPage - 1) = 0 /\ szPage mod 8 = 0 /\ (commit_size szPage .& 0xfe00) + ((commit_size szPage .& 1) << 16) = szPage.
Proof.
  intros (k & Hk & ->). assert (k = 9 \/ k = 10 \/ k = 11 \/ k = 12 \/ k = 13 \/ k = 14 \/ k = 15 \/ k = 16) as Hc by lia.
  repeat (destruct Hc as [->|Hc]; [vm_compute; done|]). subst k. by vm_compute.
Qed.

Section recover_all.
Context {F : Type} `{WalFileLaws F} (env : ShmEnv).

Lemma recover_ok f szPage nCkpt salt frames tail hdr sz0 nc0 m s :
  env_ok env -> reads_ok f -> page_size szPage -> is_u 32 nCkpt -> length salt = 8%nat -> Forall (frame_ok szPage) frames ->
  contents f = wal_header szPage nCkpt salt ++ log_bytes salt (wal_cksum szPage nCkpt salt) frames ++ tail ->
  log_end szPage salt (log_cksum (wal_cksum szPage nCkpt salt) frames) tail ->
  exists res, walIndexRecover env SQLITE_OK true f hdr sz0 nc0 m s = Some res /\ recovered szPage nCkpt salt frames res.
Proof.
  intros Henv Hreads Hps Hnc Hsalt Hfr Hfile Htail. destruct (page_size_cases szPage Hps) as (Hsz & Hpow & _ & _).
  set (c0 := wal_cksum szPage nCkpt salt) in *. pose proof (length_wal_header szPage nCkpt salt Hsalt) as Hhdr.
  destruct (wal_cksum_range szPage nCkpt salt) as [Hc1 Hc2]. fold c0 in Hc1, Hc2.
  destruct Hreads as [[n Hn] Hr]. pose proof (size_ok f n Hn) as ->. unfold walIndexRecover. cbn [negb Z.eqb SQLITE_OK]. rewrite Hn. cbn [negb Z.eqb SQLITE_OK].
  destruct (Z.ltb_spec WAL_HDRSIZE (Z.of_nat (length (contents f)))) as [Hlt|Hge]; cbn [negb].
  2: { rewrite Hfile, !length_app, Hhdr in Hge. unfold WAL_HDRSIZE in Hge. assert (frames = []) as ->.
       { destruct frames as [|fr l]; [done|]. pose proof (length_log_bytes szPage salt (fr :: l) c0 Hfr Hsalt). cbn [length] in *. lia. }
       eexists. split; [done|]. apply recover_nothing. }
  rewrite (read_file f (conj (ex_intro _ _ Hn) Hr)) by (unfold WAL_HDRSIZE in *; lia). cbn [negb Z.eqb SQLITE_OK].
  assert (take (Z.to_nat WAL_HDRSIZE) (drop (Z.to_nat 0) (contents f)) = wal_header szPage nCkpt salt) as ->.
  { rewrite Hfile. by apply take_app_length'. }
  set (b := wal_header szPage nCkpt salt).
  assert (get4 b 0 = WAL_MAGIC /\ get4 b 4 = WAL_MAX_VERSION /\ get4 b 8 = szPage /\ get4 b 12 = nCkpt /\ get4 b 24 = c0.1 /\ get4 b 28 = c0.2) as
    (-> & -> & -> & -> & -> & ->).
  { unfold b, wal_header, wal_base. fold c0. change (WAL_MAGIC .| SQLITE_BIGENDIAN) with WAL_MAGIC. split_and!; rewrite <- ?app_assoc.
    - by apply (get4_at 0 []).
    - apply get4_at; [apply length_be4|done].
    - rewrite (app_assoc (be4 WAL_MAGIC)). apply get4_at; [by rewrite length_app, !length_be4|unfold is_u; lia].
    - rewrite (app_assoc (be4 WAL_MAGIC)), (app_assoc (be4 WAL_MAGIC ++ _)). apply get4_at; [by rewrite !length_app, !length_be4|done].
    - rewrite (app_assoc (be4 WAL_MAGIC)), (app_assoc (be4 WAL_MAGIC ++ _)), (app_assoc ((be4 WAL_MAGIC ++ _) ++ _)), (app_assoc (((be4 WAL_MAGIC ++ _) ++ _) ++ _)).
      apply get4_at; [by rewrite !length_app, !length_be4, Hsalt|done].
    - rewrite <- (app_nil_r (be4 c0.2)), !app_assoc, <- 1!app_assoc. apply get4_at; [by rewrite !length_app, !length_be4, Hsalt|done]. }
  rewrite swrap_small by (unfold is_i; lia). rewrite Hpow, (proj2 (Z.ltb_ge _ _)) by (unfold SQLITE_MAX_PAGE_SIZE; lia).
  rewrite (proj2 (Z.ltb_ge _ _)) by lia. change (negb (WAL_MAGIC .& 0xFFFFFFFE =? WAL_MAGIC) || negb (0 =? 0) || false || false) with false. cbv iota.
  change (WAL_MAGIC .& 1) with 0. change (0 =? SQLITE_BIGENDIAN) with true.
  assert (take 24 b = wal_base szPage nCkpt salt) as ->.
  { unfold b, wal_header. apply take_app_length'. unfold wal_base. by rewrite !length_app, !length_be4, Hsalt. }
  fold (wal_cksum szPage nCkpt salt). fold c0. cbn [aFrameCksum]. rewrite !Z.eqb_refl. cbn [negb orb].
  assert (take 8 (drop 16 b) = salt) as ->.
  { unfold b, wal_header, wal_base. rewrite <- !app_assoc, (app_assoc (be4 _)), (app_assoc (be4 _ ++ _)), (app_assoc ((be4 _ ++ _) ++ _)).
    rewrite drop_app_length' by (by rewrite !length_app, !length_be4). by apply take_app_length'. }
  destruct (recover_loop_ok env Henv f (conj (ex_intro _ _ Hn) Hr) szPage salt c0 b tail frames ltac:(lia) Hsalt (wal_cksum_range _ _ _) Hhdr Hfr Hfile Htail
    frames [] {| r_hdr := chain_hdr salt c0; r_cksum := (0, 0); r_map := m; r_tables := tables s |} (S (Z.to_nat (Z.of_nat (length (contents f))))))
    as (r' & Hloop & c & Hok); [done| | |].
  - rewrite Nat2Z.id, Hfile, !length_app. pose proof (length_log_bytes szPage salt frames c0 Hfr Hsalt). nia.
  - constructor; [done|done|done|apply index_ok_nil|done|by left].
  - unfold chain_hdr in Hloop. change (frame_off szPage (length [])) with WAL_HDRSIZE in Hloop. change (Z.of_nat (length [])) with 0 in Hloop. rewrite Hloop. cbn [mbind option_bind].
    eexists. split; [done|]. by apply recover_finished_ok with (c := c).
Qed.
End recover_all.
