(* ===== verification/WalHdr.v ===== *)
(** The header of the wal-index read while it is written: [walIndexWriteHdr] and [walIndexTryHdr] of wal.c on two processors.

    A step is one 32-bit load or store. The stores to copy 1 are done before the first store to copy 0, and the loads from copy 0 before the first
    load from copy 1: that is what the barriers between the calls of memcpy give. Within a memcpy the order of the words is free. *)
From S2P Require Import Prelude WalHash WalLog.
Local Open Scope Z_scope.

(** The words of a header. *)
Fixpoint words (l : list Z) : list Z :=
  match l with b0 :: b1 :: b2 :: b3 :: l => load4 b0 b1 b2 b3 :: words l | _ => [] end.
Definition hdr_words (h : WalIndexHdr) : list Z := words (hdr_bytes h ++ le4 (aCksum h).1 ++ le4 (aCksum h).2).

Lemma hdr_words_length h : length (aSalt h) = 8%nat -> length (hdr_words h) = 12%nat.
Proof. unfold hdr_words, hdr_bytes. generalize (aSalt h). intros l Hs. do 8 (destruct l as [|? l]; [done|]). by destruct l. Qed.

(** The two copies; the words that the writer still has to store, to copy 1 and then to copy 0; the words that the reader still has to
    load; what it has loaded. *)
Record HdrRun := {
  c0 : list Z; c1 : list Z;
  w1 : list nat; w0 : list nat;
  r0 : list nat; r1 : list nat;
  g0 : gmap nat Z; g1 : gmap nat Z
}.

Inductive hdr_step (new : list Z) : HdrRun -> HdrRun -> Prop :=
| store1 c0 c1 j v w1 w0 r0 r1 g0 g1 : new !! j = Some v ->
    hdr_step new (Build_HdrRun c0 c1 (j :: w1) w0 r0 r1 g0 g1) (Build_HdrRun c0 (<[j := v]> c1) w1 w0 r0 r1 g0 g1)
| store0 c0 c1 j v w0 r0 r1 g0 g1 : new !! j = Some v ->
    hdr_step new (Build_HdrRun c0 c1 [] (j :: w0) r0 r1 g0 g1) (Build_HdrRun (<[j := v]> c0) c1 [] w0 r0 r1 g0 g1)
| load0 c0 c1 j v w1 w0 r0 r1 g0 g1 : c0 !! j = Some v ->
    hdr_step new (Build_HdrRun c0 c1 w1 w0 (j :: r0) r1 g0 g1) (Build_HdrRun c0 c1 w1 w0 r0 r1 (<[j := v]> g0) g1)
| load1 c0 c1 j v w1 w0 r1 g0 g1 : c1 !! j = Some v ->
    hdr_step new (Build_HdrRun c0 c1 w1 w0 [] (j :: r1) g0 g1) (Build_HdrRun c0 c1 w1 w0 [] r1 g0 (<[j := v]> g1)).

(** Both copies hold [old]; each memcpy takes the words in an order of its own. *)
Definition hdr_start (old : list Z) (s : HdrRun) : Prop :=
  c0 s = old /\ c1 s = old /\ g0 s = ∅ /\ g1 s = ∅ /\
  w1 s ≡ₚ seq 0 (length old) /\ w0 s ≡ₚ seq 0 (length old) /\ r0 s ≡ₚ seq 0 (length old) /\ r1 s ≡ₚ seq 0 (length old).

Section run.
Context (old new : list Z) (Hlen : length new = length old).

(** What holds in every state: copy 0 is old until copy 1 is new, and the reader either has only old words of copy 0 or gets only new words of copy 1. *)
Record hdr_inv (s : HdrRun) : Prop := {
  hi_len : length (c0 s) = length old /\ length (c1 s) = length old;
  hi_c1 : forall j, j ∉ w1 s -> (j < length old)%nat -> c1 s !! j = new !! j;
  hi_c0 : w1 s <> [] -> c0 s = old;
  hi_g1 : r0 s <> [] -> g1 s = ∅;
  hi_read : (forall j v, g0 s !! j = Some v -> old !! j = Some v) \/ (w1 s = [] /\ forall j v, g1 s !! j = Some v -> new !! j = Some v)
}.

Lemma hdr_start_inv s : hdr_start old s -> hdr_inv s.
Proof.
  intros (H0 & H1 & Hg0 & Hg1 & Hw1 & Hw0 & Hr0 & Hr1).
  assert (forall l j, l ≡ₚ seq 0 (length old) -> (j < length old)%nat -> j ∈ l) as Hin. { intros l j ->. rewrite elem_of_seq. lia. }
  constructor.
  - by rewrite H0, H1.
  - intros j Hj Hl. by destruct Hj; apply Hin.
  - done.
  - done.
  - left. intros j v. by rewrite Hg0.
Qed.

Lemma hdr_step_inv s s' : hdr_inv s -> hdr_step new s s' -> hdr_inv s'.
Proof.
  intros [[Hl0 Hl1] Hc1 Hc0 Hg1 Hread] Hstep. destruct Hstep as [a0 a1 j v x1 x0 y0 y1 b0 b1 Hv|a0 a1 j v x0 y0 y1 b0 b1 Hv|a0 a1 j v x1 x0 y0 y1 b0 b1 Hv|a0 a1 j v x1 x0 y1 b0 b1 Hv]; cbn in *.
  - constructor; cbn; try done; [by rewrite length_insert| | |by destruct Hread as [|[? _]]; [left|]].
    + intros i Hi Hli. destruct (decide (i = j)) as [->|Hne]; [by rewrite list_lookup_insert_eq by lia|].
      rewrite list_lookup_insert_ne by done. apply Hc1; [set_solver|done].
    + intros _. by apply Hc0.
  - constructor; cbn; try done. by rewrite length_insert.
  - assert (b1 = ∅) as -> by by apply Hg1. constructor; cbn; try done.
    destruct (decide (x1 = [])) as [->|Hx]; [right; split; [done|]; intros i u Hu; by rewrite lookup_empty in Hu|].
    destruct Hread as [Hread|[? _]]; [|done]. left. rewrite (Hc0 Hx) in Hv. intros i u. destruct (decide (i = j)) as [->|Hne].
    + rewrite lookup_insert_eq. intros [= <-]. done.
    + rewrite lookup_insert_ne by done. apply Hread.
  - constructor; cbn; try done. destruct Hread as [Hread|[-> Hread]]; [by left|]. right. split; [done|]. intros i u. destruct (decide (i = j)) as [->|Hne].
    + rewrite lookup_insert_eq. intros [= <-]. rewrite <- Hv. symmetry. apply Hc1; [set_solver|]. apply lookup_lt_Some in Hv. lia.
    + rewrite lookup_insert_ne by done. apply Hread.
Qed.
Lemma hdr_steps_inv s s' : rtc (hdr_step new) s s' -> hdr_inv s -> hdr_inv s'.
Proof. induction 1 as [|s s1 s2 Hs _ IH]; [done|]. intros Hi. apply IH. by apply (hdr_step_inv s). Qed.
End run.

(** A header that was published is accepted. *)
Lemma write_then_read h s hdr szPage : let '(h', s') := walIndexWriteHdr h s in
  (walIndexTryHdr hdr szPage (aHdr0 s') (aHdr1 s')).1.1.1 = 0 /\ (walIndexTryHdr hdr szPage (aHdr0 s') (aHdr1 s')).1.2 = h'.
Proof.
  cbn [walIndexWriteHdr aHdr0 aHdr1]. set (h' := Build_WalIndexHdr _ _ _ _ _ _ _ _ _ _ _). unfold walIndexTryHdr. rewrite bool_decide_eq_true_2 by done.
  assert (WalLog.isInit h' =? 0 = false) as -> by done.
  assert (walChecksumBytes true (hdr_bytes h') None = aCksum h') as -> by done. rewrite bool_decide_eq_true_2 by done. cbn [negb].
  destruct (decide (hdr = h')) as [->|]; [by rewrite bool_decide_eq_true_2|by rewrite bool_decide_eq_false_2].
Qed.

(** C18. No torn header: a reader that ran while the header was written, in any interleaving, and that accepts what it has loaded from the two
    copies has the old header or the new one, never a mixture. *)
Theorem hdr_no_tear h h' s s' h1 h2 hdr szPage :
  length (aSalt h) = 8%nat -> length (aSalt h') = 8%nat -> length (aSalt h1) = 8%nat ->
  hdr_start (hdr_words h) s -> rtc (hdr_step (hdr_words h')) s s' ->
  (forall j, (j < 12)%nat -> g0 s' !! j = hdr_words h1 !! j /\ g1 s' !! j = hdr_words h2 !! j) ->
  (walIndexTryHdr hdr szPage h1 h2).1.1.1 = 0 -> hdr_words h1 = hdr_words h \/ hdr_words h1 = hdr_words h'.
Proof.
  intros Hs Hs' Hs1 Hstart Hsteps Hg Htry. apply hdr_words_length in Hs, Hs', Hs1. assert (h1 = h2) as <-.
  { unfold walIndexTryHdr in Htry. destruct (decide (h1 = h2)) as [|Hne]; [done|]. by rewrite bool_decide_eq_false_2 in Htry. }
  assert (hdr_inv (hdr_words h) (hdr_words h') s') as [_ _ _ _ Hread].
  { eapply hdr_steps_inv; [by rewrite Hs, Hs'|exact Hsteps|]. apply hdr_start_inv; [by rewrite Hs, Hs'|exact Hstart]. }
  destruct Hread as [Hread|[_ Hread]]; [left|right]; apply list_eq_same_length with 12%nat; try done; intros j x y Hj Hx Hy; destruct (Hg j Hj) as [Hg0 Hg1].
  - rewrite Hx in Hg0. specialize (Hread j x Hg0). congruence.
  - rewrite Hx in Hg1. specialize (Hread j x Hg1). congruence.
Qed.

(** The reader comes between the writer's two copies: copy 1 is new already and copy 0 is new when the reader looks at it. *)
Definition pub (n : Z) : WalIndexHdr := (walIndexWriteHdr (set_commit (chain_hdr [1; 2; 3; 4; 5; 6; 7; 8] (n, n)) n 2 512)
  {| aHdr0 := zero_hdr; aHdr1 := zero_hdr; ckpt := {| nBackfill := 0; aReadMark := [] |}; tables := ∅ |}).1.
Lemma hdr_no_tear_witness : hdr_words (pub 2) = hdr_words (pub 1) \/ hdr_words (pub 2) = hdr_words (pub 2).
Proof.
  eapply (hdr_no_tear (pub 1) (pub 2)
    (Build_HdrRun (hdr_words (pub 1)) (hdr_words (pub 1)) (seq 0 12) (seq 0 12) (seq 0 12) (seq 0 12) ∅ ∅) _ (pub 2) (pub 2) zero_hdr 0);
    [reflexivity|reflexivity|reflexivity|split_and!; reflexivity| | |vm_compute; reflexivity].
  - cbn [seq]. do 24 (eapply rtc_l; [first [apply store1; vm_compute; reflexivity|apply store0; vm_compute; reflexivity]|]).
    do 24 (eapply rtc_l; [first [apply load0; vm_compute; reflexivity|apply load1; vm_compute; reflexivity]|]). apply rtc_refl.
  - intros j Hj. do 12 (destruct j as [|j]; [split; vm_compute; reflexivity|]). lia.
Defined.
