(* ===== verification/WalWrite.v ===== *)
(** Writing the log, sqlite3WalFrames of wal.c, with reading, undo and savepoints. *)
From S2P Require Import Prelude Random Varint WalHash WalLog.
Local Open Scope Z_scope.
Local Open Scope c_scope.

Definition WAL_SYNC_TRANSACTIONS : Z := 0x20.
Definition SQLITE_SYNC_MASK : Z := 0x13.
Definition MAX_SECTOR_SIZE : Z := 0x10000.

(** A dirty page: its number and its content. *)
Record PgHdr := { pgno : Z; pData : list Z }.

Section write.
Context {F : Type} `{WalFile F} (env : ShmEnv).

Record Wal := {
  pWalFd : F; hdr : WalIndexHdr; wi : WiData; szPage : Z; nCkpt : Z; readLock : Z; truncateOnCommit : Z; syncHeader : Z; padToSectorBoundary : Z;
  mxWalSize : Z; iCallback : Z
}.
Definition set_file (w : Wal) (f : F) (h : WalIndexHdr) : Wal :=
  {| pWalFd := f; hdr := h; wi := wi w; szPage := szPage w; nCkpt := nCkpt w; readLock := readLock w; truncateOnCommit := truncateOnCommit w;
     syncHeader := syncHeader w; padToSectorBoundary := padToSectorBoundary w; mxWalSize := mxWalSize w; iCallback := iCallback w |}.
Definition set_map (w : Wal) (m : WiData) (h : WalIndexHdr) (cb : Z) : Wal :=
  {| pWalFd := pWalFd w; hdr := h; wi := m; szPage := szPage w; nCkpt := nCkpt w; readLock := readLock w; truncateOnCommit := truncateOnCommit w;
     syncHeader := syncHeader w; padToSectorBoundary := padToSectorBoundary w; mxWalSize := mxWalSize w; iCallback := cb |}.

Definition sqlite3SectorSize (f : F) : Z :=
  let iRet := sqlite3OsSectorSize f in
  if iRet <? 32 then 512 else if MAX_SECTOR_SIZE <? iRet then MAX_SECTOR_SIZE else iRet.

Definition walLimitSize (f : F) (nMax : Z) : F :=
  let '(rx, sz) := sqlite3OsFileSize f in
  if (rx =? SQLITE_OK) && (nMax <? sz) then (sqlite3OsTruncate f nMax).2 else f.

Definition walWriteToLog (f : F) (iSyncPoint syncFlags : Z) (pContent : list Z) (iOffset : Z) : Z * F :=
  let iAmt := Z.of_nat (length pContent) in
  if (iOffset <? iSyncPoint) && (iSyncPoint <=? iOffset + iAmt) then
    let iFirstAmt := iSyncPoint - iOffset in
    let '(rc, f) := sqlite3OsWrite f (take (Z.to_nat iFirstAmt) pContent) iOffset in
    if negb (rc =? SQLITE_OK) then (rc, f)
    else
      let iOffset := iOffset + iFirstAmt in
      let iAmt := iAmt - iFirstAmt in
      let pContent := drop (Z.to_nat iFirstAmt) pContent in
      let '(rc, f) := sqlite3OsSync f (syncFlags .& SQLITE_SYNC_MASK) in
      if (iAmt =? 0) || negb (rc =? SQLITE_OK) then (rc, f) else sqlite3OsWrite f pContent iOffset
  else sqlite3OsWrite f pContent iOffset.

Definition walWriteOneFrame (f : F) (h : WalIndexHdr) (iSyncPoint syncFlags : Z) (pPage : PgHdr) (nTruncate iOffset : Z) : Z * F * WalIndexHdr :=
  let '(aFrame, h) := walEncodeFrame h (pgno pPage) nTruncate (pData pPage) in
  let '(rc, f) := walWriteToLog f iSyncPoint syncFlags aFrame iOffset in
  if negb (rc =? SQLITE_OK) then (rc, f, h)
  else
    let '(rc, f) := walWriteToLog f iSyncPoint syncFlags (pData pPage) (iOffset + WAL_FRAME_HDRSIZE) in
    (rc, f, h).

(** [for(p=pList; p; p=p->pDirty)], writing the frames. *)
Fixpoint write_frames (f : F) (h : WalIndexHdr) (syncFlags szPage : Z) (isCommit : bool) (nTruncate : Z) (pList : list PgHdr) (iOffset : Z) : Z * F * WalIndexHdr * Z :=
  match pList with
  | [] => (SQLITE_OK, f, h, iOffset)
  | p :: pDirty =>
      let nDbSize := if isCommit && match pDirty with [] => true | _ => false end then nTruncate else 0 in
      let '(rc, f, h) := walWriteOneFrame f h 0 syncFlags p nDbSize iOffset in
      if negb (rc =? SQLITE_OK) then (rc, f, h, iOffset)
      else write_frames f h syncFlags szPage isCommit nTruncate pDirty (iOffset + (szPage + WAL_FRAME_HDRSIZE))
  end.

(** [while( iOffset<w.iSyncPoint )]: the result code, the file, the header and [nExtra]. *)
Fixpoint pad_loop (fuel : nat) (f : F) (h : WalIndexHdr) (iSyncPoint syncFlags szPage : Z) (pLast : PgHdr) (nTruncate iOffset nExtra : Z) : option (Z * F * WalIndexHdr * Z) :=
  if negb (iOffset <? iSyncPoint) then Some (SQLITE_OK, f, h, nExtra)
  else
    match fuel with
    | O => None
    | S fuel =>
        let '(rc, f, h) := walWriteOneFrame f h iSyncPoint syncFlags pLast nTruncate iOffset in
        if negb (rc =? SQLITE_OK) then Some (rc, f, h, nExtra)
        else pad_loop fuel f h iSyncPoint syncFlags szPage pLast nTruncate (iOffset + (szPage + WAL_FRAME_HDRSIZE)) (nExtra + 1)
    end.

(** The loops that add the frames to the wal-index: the result code, the mapping, the hash tables and [iFrame]. *)
Fixpoint append_frames (m : WiData) (w : WalIndex) (mxFrame iFrame : Z) (pgs : list Z) : option (Z * WiData * WalIndex * Z) :=
  match pgs with
  | [] => Some (SQLITE_OK, m, w, iFrame)
  | pg :: pgs =>
      let iFrame := iFrame + 1 in
      '(rc, m, w) ← walIndexAppend env m w mxFrame iFrame pg;
      if negb (rc =? SQLITE_OK) then Some (rc, m, w, iFrame) else append_frames m w mxFrame iFrame pgs
  end.

(** The new WAL header, written when the log is empty. *)
Definition start_log (seed : list Z) (prng : sqlite3PrngType) (w : Wal) (szPage sync_flags : Z) : Z * Wal * sqlite3PrngType :=
  let '(salt, prng) := if nCkpt w =? 0 then sqlite3_randomness seed prng 8 else (aSalt (hdr w), prng) in
  let aWalHdr := be4 (WAL_MAGIC .| SQLITE_BIGENDIAN) ++ be4 WAL_MAX_VERSION ++ be4 szPage ++ be4 (nCkpt w) ++ salt in
  let aCksum := walChecksumBytes true aWalHdr None in
  let aWalHdr := aWalHdr ++ be4 aCksum.1 ++ be4 aCksum.2 in
  let h := hdr w in
  let h := {| iVersion := iVersion h; unused := unused h; iChange := iChange h; isInit := WalLog.isInit h; bigEndCksum := SQLITE_BIGENDIAN; hszPage := hszPage h;
              mxFrame := mxFrame h; nPage := nPage h; aFrameCksum := aCksum; aSalt := salt; WalLog.aCksum := WalLog.aCksum h |} in
  let '(rc, f) := sqlite3OsWrite (pWalFd w) aWalHdr 0 in
  let put f := {| pWalFd := f; hdr := h; wi := wi w; szPage := szPage; nCkpt := nCkpt w; readLock := readLock w; truncateOnCommit := 1;
                  syncHeader := syncHeader w; padToSectorBoundary := padToSectorBoundary w; mxWalSize := mxWalSize w; iCallback := iCallback w |} in
  if negb (rc =? SQLITE_OK) then (rc, put f, prng)
  else if negb (syncHeader w =? 0) && negb (sync_flags =? 0) then
    let '(rc, f) := sqlite3OsSync f (sync_flags .& SQLITE_SYNC_MASK) in (rc, put f, prng)
  else (SQLITE_OK, put f, prng).

(** The padding or the sync at the end of a transaction. The flag says that the code returns at once. *)
Definition end_transaction (f : F) (h : WalIndexHdr) (pad szPage : Z) (isCommit : bool) (sync_flags : Z) (pLast : PgHdr) (nTruncate iOffset : Z) :
    option (bool * Z * F * WalIndexHdr * Z) :=
  if isCommit && negb (sync_flags .& WAL_SYNC_TRANSACTIONS =? 0) then
    if negb (pad =? 0) then
      let sectorSize := sqlite3SectorSize f in
      let iSyncPoint := ((iOffset + sectorSize - 1) / sectorSize) * sectorSize in
      '(rc, f, h, nExtra) ← pad_loop (Z.to_nat (iSyncPoint - iOffset)) f h iSyncPoint sync_flags szPage pLast nTruncate iOffset 0;
      Some (negb (rc =? SQLITE_OK), rc, f, h, nExtra)
    else
      let '(rc, f) := sqlite3OsSync f (sync_flags .& SQLITE_SYNC_MASK) in
      Some (false, rc, f, h, 0)
  else Some (false, SQLITE_OK, f, h, 0).

Definition set_truncated (w : Wal) (f : F) : Wal :=
  {| pWalFd := f; hdr := hdr w; wi := wi w; szPage := szPage w; nCkpt := nCkpt w; readLock := readLock w; truncateOnCommit := 0;
     syncHeader := syncHeader w; padToSectorBoundary := padToSectorBoundary w; mxWalSize := mxWalSize w; iCallback := iCallback w |}.

(** The private copy of the header after the frames were added. *)
Definition frames_hdr (h : WalIndexHdr) (sz iFrame : Z) (isCommit : bool) (nTruncate : Z) : WalIndexHdr :=
  {| iVersion := iVersion h; unused := unused h; iChange := if isCommit then u32 (iChange h + 1) else iChange h; isInit := WalLog.isInit h;
     bigEndCksum := bigEndCksum h; hszPage := u16 ((sz .& 0xff00) .| (sz >> 16)); mxFrame := iFrame;
     nPage := if isCommit then nTruncate else nPage h; aFrameCksum := aFrameCksum h; aSalt := aSalt h; WalLog.aCksum := WalLog.aCksum h |}.

(** The truncation to the journal size limit; [nFrame] is [iFrame+nExtra]. *)
Definition limit_log (w : Wal) (szPage : Z) (isCommit : bool) (nFrame : Z) : Wal :=
  if isCommit && negb (truncateOnCommit w =? 0) && (0 <=? mxWalSize w) then
    let sz := if mxWalSize w <? walFrameOffset (nFrame + 1) szPage then walFrameOffset (nFrame + 1) szPage else mxWalSize w in
    set_truncated w (walLimitSize (pWalFd w) sz)
  else w.

(** The update of the wal-index and of its header; [pgs] are the page numbers of the new frames. *)
Definition publish (w : Wal) (s : Shm) (rc szPage : Z) (pgs : list Z) (isCommit : bool) (nTruncate : Z) : option (Z * Wal * Shm) :=
  '(rc, m, tb, iFrame) ← (if rc =? SQLITE_OK
    then append_frames (wi w) (tables s) (mxFrame (hdr w)) (mxFrame (hdr w)) pgs
    else Some (rc, wi w, tables s, mxFrame (hdr w)));
  let s := set_tables s tb in
  if negb (rc =? SQLITE_OK) then Some (rc, set_map w m (hdr w) (iCallback w), s)
  else
    let h := frames_hdr (hdr w) szPage iFrame isCommit nTruncate in
    if isCommit then
      let '(h, s) := walIndexWriteHdr h s in Some (rc, set_map w m h iFrame, s)
    else Some (rc, set_map w m h (iCallback w), s).

(** [sqlite3WalFrames] after its call of [walRestartLog], which returns SQLITE_OK at once unless the read lock is number 0.
    The list of pages is not empty. *)
Definition walFrames (seed : list Z) (prng : sqlite3PrngType) (w : Wal) (s : Shm) (szPage : Z) (pList : list PgHdr) (nTruncate : Z) (isCommit : bool) (sync_flags : Z) :
    option (Z * Wal * Shm * sqlite3PrngType) :=
  let iFrame := mxFrame (hdr w) in
  let '(rc, w, prng) := if iFrame =? 0 then start_log seed prng w szPage sync_flags else (SQLITE_OK, w, prng) in
  if negb (rc =? SQLITE_OK) then Some (rc, w, s, prng)
  else
    let '(rc, f, h, iOffset) := write_frames (pWalFd w) (hdr w) sync_flags szPage isCommit nTruncate pList (walFrameOffset (iFrame + 1) szPage) in
    if negb (rc =? SQLITE_OK) then Some (rc, set_file w f h, s, prng)
    else
      let pLast := default {| pgno := 0; pData := [] |} (last pList) in
      let iFrame := iFrame + Z.of_nat (length pList) in
      '(stop, rc, f, h, nExtra) ← end_transaction f h (padToSectorBoundary w) szPage isCommit sync_flags pLast nTruncate iOffset;
      let w := set_file w f h in
      if (stop : bool) then Some (rc, w, s, prng)
      else
        let w := limit_log w szPage isCommit (iFrame + nExtra) in
        '(rc, w, s) ← publish w s rc szPage (map pgno pList ++ replicate (Z.to_nat nExtra) (pgno pLast)) isCommit nTruncate;
        Some (rc, w, s, prng).

(** ** Reading, undo and savepoints *)

Definition sqlite3WalReadFrame (w : Wal) (iRead nOut : Z) : Z * list Z :=
  let sz := hszPage (hdr w) in
  let sz := (sz .& 0xfe00) + ((sz .& 0x0001) << 16) in
  let iOffset := walFrameOffset iRead sz + WAL_FRAME_HDRSIZE in
  sqlite3OsRead (pWalFd w) (if sz <? nOut then sz else nOut) iOffset.

Definition sqlite3WalDbsize (w : Wal) : Z := if 0 <=? readLock w then nPage (hdr w) else 0.

(** [xUndo] is the callback of the pager, over its state. *)
Fixpoint undo_loop {C} (xUndo : C -> Z -> Z * C) (n : nat) (c : C) (tb : WalIndex) (iFrame : Z) : Z * C :=
  match n with
  | O => (SQLITE_OK, c)
  | S n =>
      let '(rc, c) := xUndo c (walFramePgno tb iFrame) in
      if negb (rc =? SQLITE_OK) then (rc, c) else undo_loop xUndo n c tb (iFrame + 1)
  end.
Definition sqlite3WalUndo {C} (xUndo : C -> Z -> Z * C) (c : C) (w : Wal) (s : Shm) : option (Z * C * Wal * Shm) :=
  let iMax := mxFrame (hdr w) in
  let h := aHdr0 s in
  let '(rc, c) := undo_loop xUndo (Z.to_nat (iMax - mxFrame h)) c (tables s) (mxFrame h + 1) in
  if iMax =? mxFrame h then Some (rc, c, set_file w (pWalFd w) h, s)
  else
    '(m, tb) ← walCleanupHash env (wi w) (tables s) (mxFrame h);
    Some (rc, c, set_map w m h (iCallback w), set_tables s tb).

(** [aWalData]: the last frame, the running checksum, and [nCkpt]. *)
Record Savepoint := { sv_mxFrame : Z; sv_cksum : Z * Z; sv_nCkpt : Z }.
Definition sqlite3WalSavepoint (w : Wal) : Savepoint :=
  {| sv_mxFrame := mxFrame (hdr w); sv_cksum := aFrameCksum (hdr w); sv_nCkpt := nCkpt w |}.
Definition set_position (h : WalIndexHdr) (mx : Z) (c : Z * Z) : WalIndexHdr :=
  {| iVersion := iVersion h; unused := unused h; iChange := iChange h; isInit := WalLog.isInit h; bigEndCksum := bigEndCksum h; hszPage := hszPage h;
     mxFrame := mx; nPage := nPage h; aFrameCksum := c; aSalt := aSalt h; WalLog.aCksum := WalLog.aCksum h |}.
Definition sqlite3WalSavepointUndo (w : Wal) (s : Shm) (sv : Savepoint) : option (Wal * Shm * Savepoint) :=
  let sv := if sv_nCkpt sv =? nCkpt w then sv else {| sv_mxFrame := 0; sv_cksum := sv_cksum sv; sv_nCkpt := nCkpt w |} in
  if sv_mxFrame sv <? mxFrame (hdr w) then
    let h := set_position (hdr w) (sv_mxFrame sv) (sv_cksum sv) in
    '(m, tb) ← walCleanupHash env (wi w) (tables s) (mxFrame h);
    Some (set_map w m h (iCallback w), set_tables s tb, sv)
  else Some (w, s, sv).
End write.
Arguments Wal : clear implicits.

(** * The file keeps what was written *)

Lemma randomness_length k p n : 0 < n -> length (sqlite3_randomness k p n).1 = Z.to_nat n.
Proof.
  intros Hn. unfold sqlite3_randomness. rewrite (proj2 (Z.leb_gt _ _)) by lia. generalize (if Random.isInit p =? 0 then prng_init k else p). clear.
  induction (Z.to_nat n) as [|m IH]; intros q; [done|]. cbn [prng_bytes]. destruct (prng_next q) as [b q']. specialize (IH q').
  destruct (prng_bytes m q') as [l q'']. cbn in *. by rewrite IH.
Qed.

Section laws.
Context {F : Type} `{WalFileLaws F}.

Lemma prefix_take (P l : list Z) : P `prefix_of` l <-> take (length P) l = P.
Proof. split; [intros [k ->]; apply take_app_length|]. intros E. rewrite <- (take_drop (length P) l), E. by eexists. Qed.
Lemma prefix_app_trans (P d l : list Z) : P ++ d `prefix_of` l -> P `prefix_of` l.
Proof. intros [k ->]. exists (d ++ k). by rewrite app_assoc. Qed.

Lemma write_prefix f d P rc f' : sqlite3OsWrite f d (Z.of_nat (length P)) = (rc, f') -> P `prefix_of` contents f ->
  P `prefix_of` contents f' /\ (rc = SQLITE_OK -> P ++ d `prefix_of` contents f').
Proof.
  intros Hw HP. destruct (decide (rc = SQLITE_OK)) as [->|Hrc].
  - rewrite (write_ok f d _ f' Hw), Nat2Z.id by lia. destruct HP as [k Hk]. unfold pwrite. rewrite resize_le by (rewrite Hk, length_app; lia).
    rewrite Hk, take_app_length. split; [eexists; done|]. intros _. rewrite app_assoc. by eexists.
  - split; [|done]. destruct HP as [k Hk]. apply prefix_take, list_eq_same_length with (length P); [done| |].
    + rewrite length_take. destruct (decide (length P <= length (contents f'))%nat); [lia|].
      pose proof (write_error f d _ rc f' (length (contents f')) Hw Hrc ltac:(lia) ltac:(left; lia)) as He. rewrite lookup_ge_None_2 in He by lia.
      rewrite Hk, length_app in He. rewrite lookup_app_l in He by lia. symmetry in He. apply lookup_ge_None_1 in He; lia.
    + intros i x y Hi Hx Hy. rewrite lookup_take_lt in Hx by done. rewrite (write_error f d _ rc f' i Hw Hrc) in Hx; [|lia|left; lia|rewrite Hk, length_app; lia].
      rewrite Hk, lookup_app_l in Hx by done. congruence.
Qed.

Lemma writeToLog_prefix f sp fl d P rc f' : walWriteToLog f sp fl d (Z.of_nat (length P)) = (rc, f') -> P `prefix_of` contents f ->
  P `prefix_of` contents f' /\ (rc = SQLITE_OK -> P ++ d `prefix_of` contents f').
Proof.
  unfold walWriteToLog. destruct (Z.ltb_spec (Z.of_nat (length P)) sp); cbn [andb]; [|apply write_prefix].
  destruct (Z.leb_spec sp (Z.of_nat (length P) + Z.of_nat (length d))); [|apply write_prefix].
  set (n := Z.to_nat (sp - Z.of_nat (length P))). intros Hw HP.
  destruct (sqlite3OsWrite f (take n d) _) as [rc1 f1] eqn:Hw1. destruct (write_prefix _ _ _ _ _ Hw1 HP) as [HP1 Hok1].
  destruct (Z.eqb_spec rc1 SQLITE_OK) as [->|Hrc1]; cbn [negb] in Hw; [|by simplify_eq]. specialize (Hok1 eq_refl).
  destruct (sqlite3OsSync f1 _) as [rc2 f2] eqn:Hs. apply sync_ok in Hs.
  assert (Z.of_nat (length P) + (sp - Z.of_nat (length P)) = Z.of_nat (length (P ++ take n d))) as Hoff.
  { rewrite length_app, length_take. unfold n. lia. }
  destruct (Z.eqb_spec (Z.of_nat (length d) - (sp - Z.of_nat (length P))) 0); cbn [orb] in Hw.
  - simplify_eq. rewrite Hs. split; [done|]. intros _. by rewrite take_ge in Hok1 by (unfold n; lia).
  - destruct (Z.eqb_spec rc2 SQLITE_OK) as [->|Hrc2]; cbn [negb] in Hw; [|simplify_eq; by rewrite Hs].
    rewrite Hoff in Hw. rewrite <- Hs in Hok1. destruct (write_prefix _ _ _ _ _ Hw Hok1) as [HP2 Hok2].
    split; [by apply prefix_app_trans in HP2|]. intros E. specialize (Hok2 E). by rewrite <- app_assoc, take_drop in Hok2.
Qed.

(** A page as a frame. *)
Definition page_frame (nTruncate : Z) (p : PgHdr) : Frame := {| f_pgno := pgno p; f_trunc := nTruncate; f_data := pData p |}.

Lemma writeOneFrame_prefix f h sp fl p nT P rc f' h' : bigEndCksum h = 0 -> length (aSalt h) = 8%nat ->
  walWriteOneFrame f h sp fl p nT (Z.of_nat (length P)) = (rc, f', h') -> P `prefix_of` contents f ->
  h' = set_cksum h (frame_cksum (aFrameCksum h) (page_frame nT p)) /\ P `prefix_of` contents f' /\
  (rc = SQLITE_OK -> P ++ frame_bytes (aSalt h) (aFrameCksum h) (page_frame nT p) `prefix_of` contents f').
Proof.
  intros Hb Hsalt. unfold walWriteOneFrame, walEncodeFrame. rewrite Hb. cbn [Z.eqb SQLITE_BIGENDIAN].
  change (walChecksumBytes true (pData p) (Some (walChecksumBytes true (be4 (pgno p) ++ be4 nT) (Some (aFrameCksum h))))) with
    (frame_cksum (aFrameCksum h) (page_frame nT p)).
  set (hb := (be4 (pgno p) ++ be4 nT) ++ aSalt h ++ _). intros Hw HP.
  destruct (walWriteToLog f sp fl hb _) as [rc1 f1] eqn:Hw1. destruct (writeToLog_prefix _ _ _ _ _ _ _ Hw1 HP) as [HP1 Hok1].
  destruct (Z.eqb_spec rc1 SQLITE_OK) as [->|Hrc1]; cbn [negb] in Hw; [|by simplify_eq]. specialize (Hok1 eq_refl).
  replace (Z.of_nat (length P) + WAL_FRAME_HDRSIZE) with (Z.of_nat (length (P ++ hb))) in Hw.
  2: { unfold hb, WAL_FRAME_HDRSIZE. rewrite !length_app, !length_be4, Hsalt. lia. }
  destruct (walWriteToLog f1 sp fl (pData p) _) as [rc2 f2] eqn:Hw2. simplify_eq.
  destruct (writeToLog_prefix _ _ _ _ _ _ _ Hw2 Hok1) as [HP2 Hok2]. split; [done|]. split; [by apply prefix_app_trans in HP2|].
  intros E. specialize (Hok2 E). replace (P ++ frame_bytes _ _ _) with ((P ++ hb) ++ pData p); [done|].
  unfold frame_bytes, hb. cbn [page_frame f_pgno f_trunc f_data]. by rewrite <- !app_assoc.
Qed.

(** The frames of a set of pages: the last one carries the size of the database when the set ends a transaction. *)
Fixpoint tx_frames (isCommit : bool) (nTruncate : Z) (pList : list PgHdr) : list Frame :=
  match pList with
  | [] => []
  | p :: l => page_frame (if isCommit && match l with [] => true | _ => false end then nTruncate else 0) p :: tx_frames isCommit nTruncate l
  end.

Definition dirty_ok (sz : Z) (p : PgHdr) : Prop := 0 < pgno p < 2 ^ 32 /\ Z.of_nat (length (pData p)) = sz.

Lemma page_frame_ok sz nT p : dirty_ok sz p -> is_u 32 nT -> frame_ok sz (page_frame nT p).
Proof. intros [??] ?. done. Qed.
Lemma tx_frames_ok sz isCommit nT pl : Forall (dirty_ok sz) pl -> is_u 32 nT -> Forall (frame_ok sz) (tx_frames isCommit nT pl).
Proof.
  induction pl as [|p pl IH]; intros Hp HT; constructor; apply Forall_cons in Hp as [Hp Hpl].
  - apply page_frame_ok; [done|]. by destruct (_ && _).
  - by apply IH.
Qed.
Lemma tx_frames_pgno isCommit nT pl : map f_pgno (tx_frames isCommit nT pl) = map pgno pl.
Proof. induction pl as [|p pl IH]; [done|]. cbn. by rewrite IH. Qed.
Lemma tx_frames_length isCommit nT pl : length (tx_frames isCommit nT pl) = length pl.
Proof. rewrite <- (length_map f_pgno), tx_frames_pgno. apply length_map. Qed.

Lemma set_cksum_twice h c c' : set_cksum (set_cksum h c) c' = set_cksum h c'.
Proof. done. Qed.

Section frames.
Context (sz nT : Z) (HnT : is_u 32 nT).

Lemma write_frames_prefix isCommit fl pl : forall f h P rc f' h' off', Forall (dirty_ok sz) pl -> bigEndCksum h = 0 -> length (aSalt h) = 8%nat ->
  write_frames f h fl sz isCommit nT pl (Z.of_nat (length P)) = (rc, f', h', off') -> P `prefix_of` contents f ->
  (exists c, h' = set_cksum h c) /\ P `prefix_of` contents f' /\
  (rc = SQLITE_OK -> h' = set_cksum h (log_cksum (aFrameCksum h) (tx_frames isCommit nT pl)) /\
    P ++ log_bytes (aSalt h) (aFrameCksum h) (tx_frames isCommit nT pl) `prefix_of` contents f' /\
    off' = Z.of_nat (length (P ++ log_bytes (aSalt h) (aFrameCksum h) (tx_frames isCommit nT pl)))).
Proof using HnT H0.
  induction pl as [|p pl IH]; intros f h P rc f' h' off' Hpl Hb Hs Hw HP; cbn [write_frames tx_frames] in *.
  - simplify_eq. split; [exists (aFrameCksum h'); by destruct h'|]. split; [done|]. intros _. cbn. rewrite app_nil_r. split; [by destruct h'|done].
  - apply Forall_cons in Hpl as [Hp Hpl]. set (t := if isCommit && _ then nT else 0) in *.
    assert (frame_ok sz (page_frame t p)) as Hfr by (apply page_frame_ok; [done|]; unfold t; by destruct (_ && _)).
    destruct (walWriteOneFrame f h 0 fl p t _) as [[rc1 f1] h1] eqn:Hw1. destruct (writeOneFrame_prefix _ _ _ _ _ _ _ _ _ _ Hb Hs Hw1 HP) as (-> & HP1 & Hok1).
    destruct (Z.eqb_spec rc1 SQLITE_OK) as [->|Hrc1]; cbn [negb] in Hw; [|simplify_eq; split; [by eexists|done]]. specialize (Hok1 eq_refl).
    replace (Z.of_nat (length P) + (sz + WAL_FRAME_HDRSIZE)) with (Z.of_nat (length (P ++ frame_bytes (aSalt h) (aFrameCksum h) (page_frame t p)))) in Hw.
    2: { rewrite length_app, Nat2Z.inj_add, (length_frame_bytes sz) by done. done. }
    destruct (IH f1 (set_cksum h (frame_cksum (aFrameCksum h) (page_frame t p))) _ rc f' h' off' Hpl Hb Hs Hw Hok1) as ([c ->] & HP2 & Hok2).
    split; [by eexists|]. split; [by apply prefix_app_trans in HP2|]. intros E. destruct (Hok2 E) as (E1 & HP3 & E2).
    cbn [set_cksum aSalt aFrameCksum] in *. rewrite <- app_assoc in HP3, E2. cbn [log_bytes]. by split_and!.
Qed.

Lemma pad_loop_prefix sp fl p : forall fuel f h P n, 0 < sz -> dirty_ok sz p -> bigEndCksum h = 0 -> length (aSalt h) = 8%nat ->
  sp - Z.of_nat (length P) <= Z.of_nat fuel -> 0 <= n -> P `prefix_of` contents f ->
  exists rc f' h' k, pad_loop fuel f h sp fl sz p nT (Z.of_nat (length P)) n = Some (rc, f', h', n + Z.of_nat k) /\
  (exists c, h' = set_cksum h c) /\ P `prefix_of` contents f' /\
  (rc = SQLITE_OK -> h' = set_cksum h (log_cksum (aFrameCksum h) (replicate k (page_frame nT p))) /\
    P ++ log_bytes (aSalt h) (aFrameCksum h) (replicate k (page_frame nT p)) `prefix_of` contents f').
Proof using HnT H0.
  induction fuel as [|fuel IH]; intros f h P n Hsz Hp Hb Hs Hf Hn HP; cbn [pad_loop].
  - rewrite (proj2 (Z.ltb_ge _ _)) by lia. cbn [negb]. exists SQLITE_OK, f, h, O. rewrite Z.add_0_r. split_and!; [done|exists (aFrameCksum h); by destruct h|done|].
    intros _. cbn. rewrite app_nil_r. split; [by destruct h|done].
  - destruct (Z.ltb_spec (Z.of_nat (length P)) sp) as [Hlt|Hge]; cbn [negb].
    2: { exists SQLITE_OK, f, h, O. rewrite Z.add_0_r. split_and!; [done|exists (aFrameCksum h); by destruct h|done|].
         intros _. cbn. rewrite app_nil_r. split; [by destruct h|done]. }
    pose proof (page_frame_ok sz nT p Hp HnT) as Hfr.
    destruct (walWriteOneFrame f h sp fl p nT _) as [[rc1 f1] h1] eqn:Hw1. destruct (writeOneFrame_prefix _ _ _ _ _ _ _ _ _ _ Hb Hs Hw1 HP) as (-> & HP1 & Hok1).
    destruct (Z.eqb_spec rc1 SQLITE_OK) as [->|Hrc1]; cbn [negb].
    2: { eexists rc1, f1, _, O. rewrite Z.add_0_r. split_and!; [done|by eexists|done|done]. }
    specialize (Hok1 eq_refl). set (c1 := frame_cksum (aFrameCksum h) (page_frame nT p)) in *.
    assert (Z.of_nat (length P) + (sz + WAL_FRAME_HDRSIZE) = Z.of_nat (length (P ++ frame_bytes (aSalt h) (aFrameCksum h) (page_frame nT p)))) as Hoff.
    { rewrite length_app, Nat2Z.inj_add, (length_frame_bytes sz) by done. done. }
    rewrite Hoff. destruct (IH f1 (set_cksum h c1) (P ++ frame_bytes (aSalt h) (aFrameCksum h) (page_frame nT p)) (n + 1)) as (rc & f' & h' & k & Hl & [c ->] & HP2 & Hok2);
      [done|done|done|done|unfold WAL_FRAME_HDRSIZE in *; lia|lia|done|].
    eexists rc, f', _, (S k). split; [rewrite Hl; do 2 f_equal; lia|]. split; [by eexists|]. split; [by apply prefix_app_trans in HP2|].
    intros E. destruct (Hok2 E) as (E1 & HP3). cbn [set_cksum aSalt aFrameCksum] in *. rewrite <- app_assoc in HP3. by split.
Qed.
End frames.

(** * The log and its handle *)

Definition wal_file (sz nc : Z) (salt : list Z) (fs : list Frame) : list Z := wal_header sz nc salt ++ log_bytes salt (wal_cksum sz nc salt) fs.

(** The file starts with the frames [fs], and the header of the handle is at their end. *)
Record chain (sz nc : Z) (fs : list Frame) (f : F) (h : WalIndexHdr) : Prop := {
  ch_file : wal_file sz nc (aSalt h) fs `prefix_of` contents f;
  ch_big : bigEndCksum h = 0;
  ch_salt : length (aSalt h) = 8%nat;
  ch_cksum : aFrameCksum h = log_cksum (wal_cksum sz nc (aSalt h)) fs
}.

Lemma wal_file_app sz nc salt fs gs : wal_file sz nc salt (fs ++ gs) = wal_file sz nc salt fs ++ log_bytes salt (log_cksum (wal_cksum sz nc salt) fs) gs.
Proof. unfold wal_file. by rewrite log_bytes_app, app_assoc. Qed.
Lemma wal_file_length sz nc salt fs : length salt = 8%nat -> Forall (frame_ok sz) fs ->
  Z.of_nat (length (wal_file sz nc salt fs)) = walFrameOffset (Z.of_nat (length fs) + 1) sz.
Proof.
  intros Hs Hf. unfold wal_file, walFrameOffset, WAL_HDRSIZE, WAL_FRAME_HDRSIZE.
  rewrite length_app, length_wal_header, Nat2Z.inj_add, (length_log_bytes sz) by done. lia.
Qed.

(** Extending the chain: the outcome of a step that writes the frames [gs]. *)
Lemma chain_extend sz nc fs gs f h f' : chain sz nc fs f h ->
  wal_file sz nc (aSalt h) fs ++ log_bytes (aSalt h) (aFrameCksum h) gs `prefix_of` contents f' ->
  chain sz nc (fs ++ gs) f' (set_cksum h (log_cksum (aFrameCksum h) gs)).
Proof.
  intros [Hf Hb Hs Hc] HP. constructor; cbn [set_cksum aSalt bigEndCksum aFrameCksum]; [|done|done|by rewrite log_cksum_app, Hc].
  by rewrite wal_file_app, <- Hc.
Qed.

Section tx.
Context (sz nc nT : Z) (Hsz : page_size sz) (HnT : is_u 32 nT).

Lemma page_size_pos : 0 < sz.
Proof using Hsz. destruct (page_size_cases sz Hsz). lia. Qed.

Lemma end_transaction_chain fs f h pad isCommit fl p :
  chain sz nc fs f h -> Forall (frame_ok sz) fs -> dirty_ok sz p ->
  exists stop rc f' h' k, end_transaction f h pad sz isCommit fl p nT (walFrameOffset (Z.of_nat (length fs) + 1) sz) = Some (stop, rc, f', h', Z.of_nat k) /\
    (stop = true -> rc <> SQLITE_OK) /\ (exists c, h' = set_cksum h c) /\ wal_file sz nc (aSalt h) fs `prefix_of` contents f' /\ (isCommit = false -> k = O) /\
    (rc = SQLITE_OK -> chain sz nc (fs ++ replicate k (page_frame nT p)) f' h').
Proof using HnT Hsz H0.
  intros Hc Hfs Hp. destruct Hc as [Hf Hb Hs Hck] eqn:E. clear E. unfold end_transaction.
  assert (h = set_cksum h (aFrameCksum h)) as Hid by (by destruct h).
  assert (forall b rc f', contents f' = contents f -> b = false -> exists stop rc0 f0 h' k, Some (b, rc, f', h, 0) = Some (stop, rc0, f0, h', Z.of_nat k) /\
    (stop = true -> rc0 <> SQLITE_OK) /\ (exists c, h' = set_cksum h c) /\ wal_file sz nc (aSalt h) fs `prefix_of` contents f0 /\ (isCommit = false -> k = O) /\
    (rc0 = SQLITE_OK -> chain sz nc (fs ++ replicate k (page_frame nT p)) f0 h')) as Hnone.
  { intros b rc f' Hf' ->. exists false, rc, f', h, O. split_and!; [done|done|by eexists|by rewrite Hf'|done|]. intros _. rewrite app_nil_r.
    by constructor; rewrite ?Hf'. }
  destruct isCommit; cbn [andb]; [|by apply Hnone]. destruct (negb (_ =? 0)); [|by apply Hnone]. destruct (negb (pad =? 0)).
  - set (sp := _ * sqlite3SectorSize f). rewrite <- (wal_file_length sz nc (aSalt h) fs Hs Hfs).
    destruct (pad_loop_prefix sz nT HnT sp fl p (Z.to_nat (sp - Z.of_nat (length (wal_file sz nc (aSalt h) fs)))) f h (wal_file sz nc (aSalt h) fs) 0)
      as (rc & f' & h' & k & Hl & Hset & HP & Hok); [apply page_size_pos|done|done|done|lia|lia|done|].
    rewrite Hl. cbn [mbind option_bind]. eexists _, rc, f', h', k. split; [done|]. split_and!; [|done|done|done|].
    + intros E ->. done.
    + intros Hrc. destruct (Hok Hrc) as [-> HP']. by apply (chain_extend sz nc fs _ f).
  - destruct (sqlite3OsSync f _) as [rc f'] eqn:Hsy. apply sync_ok in Hsy. by apply Hnone.
Qed.

Lemma limit_prefix f n P : P `prefix_of` contents f -> Z.of_nat (length P) <= n -> P `prefix_of` contents (walLimitSize f n).
Proof using H0.
  intros HP Hn. unfold walLimitSize. destruct (sqlite3OsFileSize f) as [rx size] eqn:Hs. destruct (Z.eqb_spec rx SQLITE_OK) as [->|]; cbn [andb]; [|done].
  apply size_ok in Hs. subst size. destruct (Z.ltb_spec n (Z.of_nat (length (contents f)))); [|done].
  destruct (sqlite3OsTruncate f n) as [rc f'] eqn:Ht. cbn [snd]. apply truncate_ok in Ht as [-> | ->]; [done| |lia].
  destruct HP as [k ->]. rewrite take_app_ge by lia. by eexists.
Qed.
End tx.
End laws.

(** The loops that add the frames to the index. *)
Lemma append_frames_ok env pgs : forall m tb l n mx, Forall (fun x => 0 < x) pgs -> index_ok tb l -> (n <= length l)%nat -> n = length l \/ Z.of_nat n = mx ->
  exists rc m' tb' i, append_frames env m tb mx (Z.of_nat n) pgs = Some (rc, m', tb', i) /\
    (exists ext, index_ok tb' (take n l ++ ext)) /\ (env_ok env -> rc = SQLITE_OK) /\
    (rc = SQLITE_OK -> i = Z.of_nat n + Z.of_nat (length pgs) /\ exists ext, index_ok tb' (take n l ++ pgs ++ ext)).
Proof.
  induction pgs as [|pg pgs IH]; intros m tb l n mx Hpos Hok Hn Hmx; cbn [append_frames].
  - exists SQLITE_OK, m, tb, (Z.of_nat n). split; [done|]. assert (exists ext, index_ok tb (take n l ++ ext)) by (exists (drop n l); by rewrite take_drop).
    split_and!; [done|done|]. intros _. cbn [length app]. split; [lia|done].
  - apply Forall_cons in Hpos as [Hpg Hpos]. destruct (append_index_ok env m tb l n mx pg Hok Hpg Hn Hmx) as (rc & m1 & tb1 & Ha & H1 & H2 & H3).
    rewrite Ha. cbn [mbind option_bind]. destruct (Z.eqb_spec rc SQLITE_OK) as [->|Hrc]; cbn [negb].
    + specialize (H1 eq_refl). assert (length (take n l ++ [pg]) = S n) as Hl by (rewrite length_app, length_take; cbn; lia).
      destruct (IH m1 tb1 (take n l ++ [pg]) (S n) mx Hpos H1) as (rc & m' & tb' & i & Hi & [ext He] & Henv & Hrc); [lia|by left|].
      replace (Z.of_nat n + 1) with (Z.of_nat (S n)) by lia. rewrite Hi. rewrite firstn_all2 in He, Hrc by lia.
      exists rc, m', tb', i. split_and!; [done|exists (pg :: ext); by rewrite <- app_assoc in He|done|].
      intros E. destruct (Hrc E) as (-> & ext' & He'). split; [cbn [length]; lia|]. exists ext'. by rewrite <- app_assoc in He'.
    + destruct (H2 Hrc) as [-> _]. eexists rc, m1, tb, _. split; [done|]. split_and!; [exists (drop n l); by rewrite take_drop|done|done].
Qed.

(** * sqlite3WalFrames *)

Section main.
Context {F : Type} `{WalFileLaws F} (env : ShmEnv).

(** The log holds the frames [fs]; the index may hold more, the remains of a writer that died. *)
Record log_ok (w : Wal F) (s : Shm) (fs : list Frame) : Prop := {
  lg_mx : mxFrame (hdr w) = Z.of_nat (length fs);
  lg_nckpt : is_u 32 (nCkpt w);
  lg_salt : length (aSalt (hdr w)) = 8%nat;
  lg_frames : Forall (frame_ok (szPage w)) fs;
  lg_index : exists ext, index_ok (tables s) (map f_pgno fs ++ ext);
  lg_chain : fs <> [] -> page_size (szPage w) /\ chain (szPage w) (nCkpt w) fs (pWalFd w) (hdr w) /\ hszPage (hdr w) = commit_size (szPage w)
}.

(** The handle when the frames are to be written: the header of the log is there. *)
Record ready (w w1 : Wal F) (sz : Z) (fs : list Frame) : Prop := {
  rd_chain : chain sz (nCkpt w) fs (pWalFd w1) (hdr w1);
  rd_szPage : szPage w1 = sz;
  rd_nckpt : nCkpt w1 = nCkpt w;
  rd_mx : mxFrame (hdr w1) = mxFrame (hdr w);
  rd_salt : fs <> [] -> aSalt (hdr w1) = aSalt (hdr w);
  rd_npage : nPage (hdr w1) = nPage (hdr w)
}.

Lemma start_ready seed prng w s sz fl fs : log_ok w s fs -> (fs <> [] -> szPage w = sz) ->
  exists rc w1 prng', (if mxFrame (hdr w) =? 0 then start_log seed prng w sz fl else (SQLITE_OK, w, prng)) = (rc, w1, prng') /\
    (rc = SQLITE_OK -> ready w w1 sz fs) /\ (rc <> SQLITE_OK -> fs = []).
Proof.
  intros Hlog Hsame. destruct (Z.eqb_spec (mxFrame (hdr w)) 0) as [E|E].
  - rewrite (lg_mx _ _ _ Hlog) in E. destruct fs as [|fr l]; [|cbn in E; lia]. unfold start_log.
    assert (exists salt prng', (if nCkpt w =? 0 then sqlite3_randomness seed prng 8 else (aSalt (hdr w), prng)) = (salt, prng') /\ length salt = 8%nat)
      as (salt & prng' & -> & Hsalt).
    { destruct (nCkpt w =? 0); [|eexists _, _; split; [done|apply (lg_salt _ _ _ Hlog)]].
      pose proof (randomness_length seed prng 8). destruct (sqlite3_randomness seed prng 8) as [l p]. eexists _, _. split; [done|]. cbn in *. lia. }
    fold (wal_base sz (nCkpt w) salt). fold (wal_cksum sz (nCkpt w) salt). fold (wal_header sz (nCkpt w) salt).
    destruct (sqlite3OsWrite (pWalFd w) (wal_header sz (nCkpt w) salt) 0) as [rc f] eqn:Hw.
    destruct (write_prefix (pWalFd w) (wal_header sz (nCkpt w) salt) [] rc f Hw (prefix_nil _)) as [_ Hok].
    assert (forall f', rc = SQLITE_OK -> contents f' = contents f -> forall h, aSalt h = salt -> bigEndCksum h = 0 -> aFrameCksum h = wal_cksum sz (nCkpt w) salt ->
      chain sz (nCkpt w) [] f' h) as Hch.
    { intros f' Hrc Hf' h <- Hb Hck. constructor; [|done|done|done]. unfold wal_file. cbn [log_bytes]. rewrite app_nil_r, Hf'. by apply Hok. }
    destruct (Z.eqb_spec rc SQLITE_OK) as [->|Hrc]; cbn [negb]; [|by eexists _, _, _].
    destruct (negb (syncHeader w =? 0) && negb (fl =? 0)).
    + destruct (sqlite3OsSync f _) as [rc2 f2] eqn:Hs. apply sync_ok in Hs. eexists _, _, _. split; [done|]. split; [|done]. intros _.
      constructor; [by apply Hch|done..].
    + eexists _, _, _. split; [done|]. split; [|done]. intros _. constructor; [by apply Hch|done..].
  - rewrite (lg_mx _ _ _ Hlog) in E. assert (fs <> []) as Hne by (intros ->; done). eexists _, _, _. split; [done|]. split; [|done]. intros _.
    destruct (lg_chain _ _ _ Hlog Hne) as (_ & Hc & _). rewrite (Hsame Hne) in Hc. constructor; [done|by apply Hsame|done..].
Qed.

(** The outcome of a successful call: the frames of the pages, and copies of the last one up to the end of the sector. *)
Definition written (w : Wal F) (s : Shm) (fs : list Frame) (sz nT : Z) (isCommit : bool) (pList : list PgHdr) (w' : Wal F) (s' : Shm) : Prop :=
  exists k p, last pList = Some p /\ log_ok w' s' (fs ++ tx_frames isCommit nT pList ++ replicate k (page_frame nT p)) /\
    szPage w' = sz /\ nCkpt w' = nCkpt w /\ (fs <> [] -> aSalt (hdr w') = aSalt (hdr w)) /\
    if isCommit then aHdr0 s' = hdr w' /\ aHdr1 s' = hdr w' /\ nPage (hdr w') = nT
    else k = O /\ aHdr0 s' = aHdr0 s /\ aHdr1 s' = aHdr1 s /\ nPage (hdr w') = nPage (hdr w).

(** The outcome of a call that failed: what was committed is still there, in the file and in the index. *)
Definition kept (w : Wal F) (s : Shm) (fs : list Frame) (w' : Wal F) (s' : Shm) : Prop :=
  aHdr0 s' = aHdr0 s /\ aHdr1 s' = aHdr1 s /\ (exists ext, index_ok (tables s') (map f_pgno fs ++ ext)) /\
  (fs <> [] -> wal_file (szPage w) (nCkpt w) (aSalt (hdr w)) fs `prefix_of` contents (pWalFd w')).

(** The last part, when the frames [new] have reached the file. *)
Lemma publish_ok w s sz nc rc pgs isCommit nT fs new : mxFrame (hdr w) = Z.of_nat (length fs) -> (exists ext, index_ok (tables s) (map f_pgno fs ++ ext)) ->
  map f_pgno new = pgs -> Forall (frame_ok sz) new -> szPage w = sz -> nCkpt w = nc -> is_u 32 nc -> page_size sz -> Forall (frame_ok sz) fs ->
  (rc = SQLITE_OK -> chain sz nc (fs ++ new) (pWalFd w) (hdr w)) ->
  exists rc' w' s', publish env w s rc sz pgs isCommit nT = Some (rc', w', s') /\ pWalFd w' = pWalFd w /\
    (exists ext, index_ok (tables s') (map f_pgno fs ++ ext)) /\ (rc' <> SQLITE_OK -> aHdr0 s' = aHdr0 s /\ aHdr1 s' = aHdr1 s) /\
    (rc' = SQLITE_OK -> log_ok w' s' (fs ++ new) /\ szPage w' = sz /\ nCkpt w' = nc /\ aSalt (hdr w') = aSalt (hdr w) /\
      if isCommit then aHdr0 s' = hdr w' /\ aHdr1 s' = hdr w' /\ nPage (hdr w') = nT
      else aHdr0 s' = aHdr0 s /\ aHdr1 s' = aHdr1 s /\ nPage (hdr w') = nPage (hdr w)).
Proof.
  intros Hmx [ext Hidx] Hpgs Hnew Hsz Hnc Hncu Hps Hfs Hch. unfold publish. destruct (Z.eqb_spec rc SQLITE_OK) as [->|Hrc].
  2: { cbn [mbind option_bind]. rewrite (proj2 (Z.eqb_neq _ _) Hrc). cbn [negb]. eexists _, _, _. split; [done|]. split_and!; [done|by exists ext|done|done]. }
  specialize (Hch eq_refl). rewrite Hmx. destruct (append_frames_ok env pgs (wi w) (tables s) (map f_pgno fs ++ ext) (length fs) (Z.of_nat (length fs)))
    as (rc & m & tb & i & -> & Hany & _ & Hok); [|done|rewrite length_app, length_map; lia|by right|].
  { subst pgs. apply Forall_map. eapply Forall_impl; [exact Hnew|]. intros fr (? & _). cbn. lia. }
  cbn [mbind option_bind]. rewrite take_app_length' in Hany, Hok by by rewrite length_map.
  destruct (Z.eqb_spec rc SQLITE_OK) as [->|Hrc]; cbn [negb]; [|eexists _, _, _; split; [done|]; by split_and!].
  destruct (Hok eq_refl) as (Hi & ext' & Hidx'). destruct Hch as [Hf Hb Hs Hc].
  assert (log_ok (set_map w m (frames_hdr (hdr w) sz i isCommit nT) (iCallback w)) (set_tables s tb) (fs ++ new)) as Hlog.
  { constructor; cbn [set_map hdr frames_hdr mxFrame nCkpt aSalt szPage set_tables tables pWalFd hszPage].
    - rewrite Hi, length_app, <- Hpgs, length_map. lia.
    - by rewrite Hnc.
    - done.
    - rewrite Hsz. by apply Forall_app.
    - exists ext'. by rewrite map_app, Hpgs, <- app_assoc.
    - intros _. rewrite Hsz, Hnc. split_and!; [done|by constructor|done]. }
  destruct isCommit.
  - eexists _, _, _. split; [done|]. split_and!; [done|done|done|]. intros _. split; [|done]. destruct Hlog. constructor; try done.
    intros Hne. destruct (lg_chain0 Hne) as (? & [] & ?). done.
  - eexists _, _, _. split; [done|]. by split_and!.
Qed.

Lemma limit_log_ok w sz isCommit n P : P `prefix_of` contents (pWalFd w) -> Z.of_nat (length P) <= walFrameOffset (n + 1) sz ->
  P `prefix_of` contents (pWalFd (limit_log w sz isCommit n)) /\ hdr (limit_log w sz isCommit n) = hdr w /\ szPage (limit_log w sz isCommit n) = szPage w /\
  nCkpt (limit_log w sz isCommit n) = nCkpt w.
Proof.
  intros HP Hn. unfold limit_log. destruct (_ && _); [|done]. split; [|done]. cbn [set_truncated pWalFd]. apply limit_prefix; [done|].
  destruct (Z.ltb_spec (mxWalSize w) (walFrameOffset (n + 1) sz)); lia.
Qed.

Lemma ready_file w w1 sz fs f : ready w w1 sz fs -> (fs <> [] -> szPage w = sz) -> wal_file sz (nCkpt w) (aSalt (hdr w1)) fs `prefix_of` contents f ->
  fs <> [] -> wal_file (szPage w) (nCkpt w) (aSalt (hdr w)) fs `prefix_of` contents f.
Proof. intros Hr Hsame HP Hfn. by rewrite Hsame, <- (rd_salt _ _ _ _ Hr). Qed.

Lemma finish_ok w w1 s sz nT isCommit fs pList p k rc f h :
  log_ok w s fs -> ready w w1 sz fs -> page_size sz -> (fs <> [] -> szPage w = sz) -> Forall (frame_ok sz) fs -> Forall (dirty_ok sz) pList -> is_u 32 nT ->
  last pList = Some p -> dirty_ok sz p -> (exists c, h = set_cksum (hdr w1) c) -> wal_file sz (nCkpt w) (aSalt (hdr w1)) fs `prefix_of` contents f ->
  (isCommit = false -> k = O) -> let new := tx_frames isCommit nT pList ++ replicate k (page_frame nT p) in (rc = SQLITE_OK -> chain sz (nCkpt w) (fs ++ new) f h) ->
  exists rc' w' s', publish env (limit_log (set_file w1 f h) sz isCommit (Z.of_nat (length fs) + Z.of_nat (length pList) + Z.of_nat k)) s rc sz
    (map pgno pList ++ replicate k (pgno p)) isCommit nT = Some (rc', w', s') /\
    (rc' = SQLITE_OK -> written w s fs sz nT isCommit pList w' s') /\ (rc' <> SQLITE_OK -> kept w s fs w' s').
Proof.
  intros Hlog Hr Hsz Hsame Hfs Hpl HnT Hlast Hp [c Hh] HP Hk0 new Hok. set (w2 := set_file w1 f h).
  pose proof Hr as [Hch Hsz1 Hnc1 Hmx1 Hsalt1 Hnp1]. set (n := Z.of_nat (length fs) + Z.of_nat (length pList) + Z.of_nat k).
  assert (Forall (frame_ok sz) new) as Hnew by (apply Forall_app; split; [by apply tx_frames_ok|apply Forall_replicate; by apply page_frame_ok]).
  assert (Z.of_nat (length (fs ++ new)) = n) as Hn by (unfold new, n; rewrite !length_app, tx_frames_length, length_replicate; lia).
  assert (length (aSalt (hdr w1)) = 8%nat) as Hs1 by apply Hch.
  destruct (limit_log_ok w2 sz isCommit n (wal_file sz (nCkpt w) (aSalt (hdr w1)) fs)) as (HPl & Ehl & Eszl & Encl); [done| |].
  { rewrite (wal_file_length sz) by done. unfold walFrameOffset, WAL_FRAME_HDRSIZE. pose proof (page_size_pos sz Hsz). unfold n. nia. }
  destruct (publish_ok (limit_log w2 sz isCommit n) s sz (nCkpt w) rc (map pgno pList ++ replicate k (pgno p)) isCommit nT fs new)
    as (rc' & w' & s' & -> & Efd & Hext & Herr & Hfin);
    [|apply (lg_index _ _ _ Hlog)| |done|by rewrite Eszl|by rewrite Encl|apply (lg_nckpt _ _ _ Hlog)|done|done| |].
  - rewrite Ehl. cbn. rewrite Hh. cbn. rewrite Hmx1. apply (lg_mx _ _ _ Hlog).
  - unfold new. rewrite map_app, tx_frames_pgno. f_equal. apply (fmap_replicate f_pgno).
  - intros Hrc. rewrite Ehl. destruct (Hok Hrc) as [Hf3 Hb3 Hs3 Hc3]. constructor; try done.
    apply limit_log_ok; [done|]. rewrite (wal_file_length sz), Hn; [done|done|]. by apply Forall_app.
  - eexists _, _, _. split; [done|]. split; intros Hrc.
    + destruct (Hfin Hrc) as (Hl & Es & En & Esalt & Hc). exists k, p. split_and!; [done|done|done|done| |].
      * intros Hfn. rewrite Esalt, Ehl. cbn. rewrite Hh. by apply Hsalt1.
      * destruct isCommit; [done|]. destruct Hc as (? & ? & Hc). split_and!; [by apply Hk0|done|done|]. rewrite Hc, Ehl. cbn. by rewrite Hh.
    + destruct (Herr Hrc). split_and!; [done|done|done|]. rewrite Efd. by apply (ready_file w w1 sz).
Qed.

Lemma walFrames_ok seed prng w s sz pList nT isCommit fl fs :
  log_ok w s fs -> page_size sz -> (fs <> [] -> szPage w = sz) -> pList <> [] -> Forall (dirty_ok sz) pList -> is_u 32 nT ->
  exists rc w' s' prng', walFrames env seed prng w s sz pList nT isCommit fl = Some (rc, w', s', prng') /\
    (rc = SQLITE_OK -> written w s fs sz nT isCommit pList w' s') /\ (rc <> SQLITE_OK -> kept w s fs w' s').
Proof.
  intros Hlog Hsz Hsame Hne Hpl HnT. unfold walFrames. destruct (start_ready seed prng w s sz fl fs Hlog Hsame) as (rc & w1 & prng' & -> & Hready & Hstart).
  destruct (Z.eqb_spec rc SQLITE_OK) as [->|Hrc]; cbn [negb].
  2: { eexists _, _, _, _. split; [done|]. split; [done|]. intros _. rewrite (Hstart Hrc) in *. split_and!; [done|done|apply (lg_index _ _ _ Hlog)|done]. }
  specialize (Hready eq_refl). pose proof (rd_chain _ _ _ _ Hready) as Hch. clear Hstart.
  assert (Forall (frame_ok sz) fs) as Hfs. { pose proof (lg_frames _ _ _ Hlog). destruct fs as [|fr l]; [done|]. by rewrite <- Hsame. }
  rewrite (lg_mx _ _ _ Hlog). rewrite <- (wal_file_length sz (nCkpt w) (aSalt (hdr w1)) fs) by (done || apply Hch).
  destruct (write_frames _ _ _ _ _ _ _ _) as [[[rc f] h] off] eqn:Hw.
  destruct (write_frames_prefix sz nT HnT isCommit fl pList _ _ _ _ _ _ _ Hpl (ch_big _ _ _ _ _ Hch) (ch_salt _ _ _ _ _ Hch) Hw (ch_file _ _ _ _ _ Hch))
    as (Hset & HP & Hok).
  destruct (Z.eqb_spec rc SQLITE_OK) as [->|Hrc]; cbn [negb].
  2: { eexists _, _, _, _. split; [done|]. split; [done|]. intros _. split_and!; [done|done|apply (lg_index _ _ _ Hlog)|by apply (ready_file w w1 sz)]. }
  destruct (Hok eq_refl) as (Eh & HP1 & Eoff). pose proof (chain_extend sz (nCkpt w) fs _ _ _ _ Hch HP1) as Hch1. rewrite <- Eh in Hch1. clear Hok.
  destruct (last pList) as [p|] eqn:Hlast; [|by apply last_None in Hlast]. cbn [default from_option id].
  assert (dirty_ok sz p) as Hp by (by apply (proj1 (Forall_forall _ _) Hpl), last_Some_elem_of). set (tx := tx_frames isCommit nT pList) in *.
  assert (Forall (frame_ok sz) (fs ++ tx)) as Hfs1 by (apply Forall_app; split; [done|]; by apply tx_frames_ok).
  assert (off = walFrameOffset (Z.of_nat (length (fs ++ tx)) + 1) sz) as ->.
  { rewrite <- (wal_file_length sz (nCkpt w) (aSalt (hdr w1))) by (done || apply Hch). rewrite Eoff, wal_file_app. by rewrite <- (ch_cksum _ _ _ _ _ Hch). }
  destruct (end_transaction_chain sz (nCkpt w) nT Hsz HnT (fs ++ tx) f h (padToSectorBoundary w1) isCommit fl p Hch1 Hfs1 Hp)
    as (stop & rc & f2 & h2 & k & -> & Hstop & [c2 Hh2] & HP2 & Hk0 & Hok2). cbn [mbind option_bind]. destruct Hset as [c1 Hset].
  assert (wal_file sz (nCkpt w) (aSalt (hdr w1)) fs `prefix_of` contents f2) as HP2'.
  { rewrite Hset in HP2. cbn [set_cksum aSalt] in HP2. rewrite wal_file_app in HP2. by apply prefix_app_trans in HP2. }
  destruct stop.
  { eexists _, _, _, _. split; [done|]. split; [intros ->; by destruct (Hstop eq_refl)|]. intros _.
    split_and!; [done|done|apply (lg_index _ _ _ Hlog)|by apply (ready_file w w1 sz)]. }
  rewrite Nat2Z.id. destruct (finish_ok w w1 s sz nT isCommit fs pList p k rc f2 h2) as (rc' & w' & s' & -> & Hfin); try done.
  - exists c2. by rewrite Hh2, Hset.
  - intros Hrc. rewrite app_assoc. by apply Hok2.
  - cbn [mbind option_bind]. by eexists _, _, _, _.
Qed.
End main.
