(* ===== verification/WalSpec.v ===== *)
(** What the write-ahead log promises: recovery finds the last commit, failed writes change nothing that was committed, readers
    keep their snapshot, undo and savepoints go back. *)
From S2P Require Import Prelude Random WalHash WalLog WalWrite.
Local Open Scope Z_scope.

Section clients.
Context {F : Type} `{WalFileLaws F} (env : ShmEnv).

(** The handle at an earlier point of the log: the file and the index stay. *)
Lemma log_ok_rewind w w' s s' fs un ext : log_ok w s (fs ++ un) ->
  index_ok (tables s') (map f_pgno fs ++ ext) -> pWalFd w' = pWalFd w -> szPage w' = szPage w -> nCkpt w' = nCkpt w -> aSalt (hdr w') = aSalt (hdr w) ->
  mxFrame (hdr w') = Z.of_nat (length fs) -> (fs <> [] -> bigEndCksum (hdr w') = 0 /\ hszPage (hdr w') = commit_size (szPage w) /\
    aFrameCksum (hdr w') = log_cksum (wal_cksum (szPage w) (nCkpt w) (aSalt (hdr w))) fs) -> log_ok w' s' fs.
Proof.
  intros Hlog Hidx Hf Hsz Hnc Hsalt Hmx Hhdr. pose proof (lg_frames _ _ _ Hlog) as Hfr. apply Forall_app in Hfr as [Hfr _]. constructor.
  - done.
  - rewrite Hnc. apply (lg_nckpt _ _ _ Hlog).
  - rewrite Hsalt. apply (lg_salt _ _ _ Hlog).
  - by rewrite Hsz.
  - by exists ext.
  - intros Hne. destruct (Hhdr Hne) as (Hb & Hh & Hc). destruct (lg_chain _ _ _ Hlog) as (Hps & [Hcf _ Hcs _] & _); [by destruct fs|].
    rewrite Hsz, Hnc. split_and!; [done| |done]. constructor; rewrite ?Hsalt, ?Hf; try done. rewrite wal_file_app in Hcf. by apply prefix_app_trans in Hcf.
Qed.

Lemma undo_loop_ok {C} (xUndo : C -> Z -> Z * C) tb fs ext : (forall c p, (xUndo c p).1 = SQLITE_OK) -> index_ok tb (map f_pgno fs ++ ext) ->
  forall un pre c, fs = pre ++ un ->
  undo_loop xUndo (length un) c tb (Z.of_nat (length pre) + 1) = (SQLITE_OK, foldl (fun c p => (xUndo c p).2) c (map f_pgno un)).
Proof.
  intros Hx Hidx. induction un as [|fr un IH]; intros pre c E; [done|]. cbn [length undo_loop map foldl].
  rewrite (walFramePgno_correct tb (map f_pgno fs ++ ext) Hidx) by (rewrite E, !length_app, length_map, length_app; cbn; lia).
  replace (Z.of_nat (length pre) + 1 - 1) with (Z.of_nat (length pre)) by lia.
  assert (rd (map f_pgno fs ++ ext) (Z.of_nat (length pre)) = f_pgno fr) as ->.
  { rewrite E, map_app, <- app_assoc. apply rd_at. by rewrite length_map. }
  specialize (Hx c (f_pgno fr)). destruct (xUndo c (f_pgno fr)) as [rc c']. cbn in Hx. subst rc. cbn [negb Z.eqb SQLITE_OK snd].
  specialize (IH (pre ++ [fr]) c'). rewrite length_app in IH. cbn [length] in IH. replace (Z.of_nat (length pre) + 1 + 1) with (Z.of_nat (length pre + 1) + 1) by lia.
  apply IH. by rewrite <- app_assoc.
Qed.

(** The handle of a connection that has recovered the log. *)
Definition recovered_wal (f : F) (res : RecResult) (readLock syncHeader pad mxWalSize : Z) : Wal F :=
  {| pWalFd := f; hdr := rr_hdr res; wi := rr_map res; szPage := rr_szPage res; nCkpt := rr_nCkpt res; readLock := readLock; truncateOnCommit := 0;
     syncHeader := syncHeader; padToSectorBoundary := pad; mxWalSize := mxWalSize; iCallback := 0 |}.

Lemma recovered_log_ok f sz nc salt pre cf un res tail a b c d : page_size sz -> is_u 32 nc -> length salt = 8%nat -> Forall (frame_ok sz) (pre ++ cf :: un) ->
  f_trunc cf <> 0 -> Forall (fun fr => f_trunc fr = 0) un -> contents f = wal_file sz nc salt (pre ++ cf :: un) ++ tail ->
  recovered sz nc salt (pre ++ cf :: un) res ->
  log_ok (recovered_wal f res a b c d) (rr_shm res) (pre ++ [cf]) /\ nPage (rr_hdr res) = f_trunc cf.
Proof.
  intros Hps Hnc Hs Hfr Hcf Hun Hf [Hrc Hcommit Hidx Hsh Hh Hsize _]. destruct Hh as (Hh1 & Hh2 & Hh3 & Hh4); [by destruct pre|].
  rewrite last_commit_app in Hcommit. cbn [last_commit] in Hcommit. rewrite (proj2 (Z.eqb_neq _ _) Hcf), last_commit_uncommitted in Hcommit by done. injection Hcommit as Hmx Hnp Hck.
  assert (pre ++ cf :: un = (pre ++ [cf]) ++ un) as E by (by rewrite <- app_assoc). split; [|done].
  assert (mxFrame (rr_hdr res) = Z.of_nat (length (pre ++ [cf]))) as Hmx' by (rewrite Hmx, length_app; cbn; lia).
  constructor; cbn [recovered_wal hdr nCkpt WalWrite.szPage pWalFd].
  - done.
  - by rewrite Hh2.
  - by rewrite Hh3.
  - rewrite Hh1. rewrite E in Hfr. by apply Forall_app in Hfr as [? _].
  - exists (map f_pgno un). by rewrite <- map_app, <- E.
  - intros _. rewrite Hh1, Hh2. split_and!; [done| |].
    + constructor; rewrite ?Hh3; [|done|done|by rewrite Hck, log_cksum_app]. rewrite Hf, E, (wal_file_app _ _ _ (pre ++ [cf]) un). by apply prefix_app_r, prefix_app_r.
    + destruct Hsize as [Hz|]; [|done]. rewrite Hmx', length_app in Hz. cbn in Hz. lia.
Qed.

(** Reading a frame of the log. *)
Lemma read_frame_ok w fs j fr : page_size (szPage w) -> Forall (frame_ok (szPage w)) fs -> length (aSalt (hdr w)) = 8%nat -> reads_ok (pWalFd w) ->
  wal_file (szPage w) (nCkpt w) (aSalt (hdr w)) fs `prefix_of` contents (pWalFd w) -> hszPage (hdr w) = commit_size (szPage w) -> fs !! j = Some fr ->
  sqlite3WalReadFrame w (Z.of_nat j + 1) (szPage w) = (SQLITE_OK, f_data fr).
Proof.
  intros Hps Hfr Hs Hreads [k Hk] Hsz Hj. destruct (page_size_cases _ Hps) as (Hrange & _ & _ & Hdec). unfold sqlite3WalReadFrame.
  rewrite Hsz, Hdec, Z.ltb_irrefl. pose proof (lookup_lt_Some _ _ _ Hj) as Hlt. pose proof (take_drop_middle fs j fr Hj) as Efs.
  assert (length (take j fs) = j) as Hl by (rewrite length_take; lia).
  assert (Forall (frame_ok (szPage w)) (take j fs)) as Hpre by (by apply Forall_take).
  assert (frame_ok (szPage w) fr) as Hok by (by apply (Forall_lookup_1 _ _ _ _ Hfr Hj)).
  rewrite <- Efs, wal_file_app in Hk. cbn [log_bytes] in Hk. set (c := log_cksum _ _) in Hk.
  pose proof (wal_file_length (szPage w) (nCkpt w) (aSalt (hdr w)) (take j fs) Hs Hpre) as Hwl. rewrite Hl in Hwl.
  set (A := wal_file (szPage w) (nCkpt w) (aSalt (hdr w)) (take j fs) ++ be4 (f_pgno fr) ++ be4 (f_trunc fr) ++ aSalt (hdr w) ++
    be4 (frame_cksum c fr).1 ++ be4 (frame_cksum c fr).2).
  assert (exists rest, contents (pWalFd w) = A ++ f_data fr ++ rest) as [rest Hc].
  { eexists. rewrite Hk. unfold A, frame_bytes. rewrite <- !app_assoc. done. }
  assert (Z.of_nat (length A) = walFrameOffset (Z.of_nat j + 1) (szPage w) + WAL_FRAME_HDRSIZE) as HA.
  { unfold A. rewrite !length_app, !length_be4, Hs. unfold WAL_FRAME_HDRSIZE. lia. }
  rewrite <- HA. destruct Hok as (_ & _ & Hd). rewrite read_file; [|done|lia|lia|rewrite Hc, !length_app; lia].
  rewrite Nat2Z.id, Hc, drop_app_length. f_equal. apply take_app_length'. lia.
Qed.

(** A reader finds the last version of a page in its snapshot. *)
Lemma read_page_ok w s fs pg : log_ok w s fs -> env_ok env -> reads_ok (pWalFd w) -> 0 < pg -> readLock w <> 0 ->
  let i := last_frame (map f_pgno fs) (length fs) pg in
  (sqlite3WalFindFrame env (wi w) (tables s) (readLock w) (mxFrame (hdr w)) pg).1 = (SQLITE_OK, i) /\
  (i <> 0 -> exists fr, fs !! Z.to_nat (i - 1) = Some fr /\ f_pgno fr = pg /\ sqlite3WalReadFrame w i (szPage w) = (SQLITE_OK, f_data fr)).
Proof.
  intros Hlog Henv Hreads Hpg Hrl i. destruct (lg_index _ _ _ Hlog) as [ext Hidx].
  assert (last_frame (map f_pgno fs ++ ext) (length fs) pg = i) as Hi.
  { unfold i. transitivity (last_frame (take (length fs) (map f_pgno fs ++ ext)) (length fs) pg); [by rewrite last_frame_take, Nat.min_id|].
    by rewrite take_app_length' by by rewrite length_map. }
  split.
  - rewrite (lg_mx _ _ _ Hlog). destruct (decide (fs = [])) as [->|Hne]; [done|]. assert (0 < length fs)%nat by (destruct fs; [done|cbn; lia]).
    pose proof (find_frame_ok env (tables s) (map f_pgno fs ++ ext) (Z.of_nat (length fs)) pg Hidx) as Hfind.
    specialize (Hfind ltac:(rewrite length_app, length_map; lia) Hpg (wi w) (readLock w) Hrl). rewrite Nat2Z.id, Hi in Hfind.
    destruct (sqlite3WalFindFrame _ _ _ _ _ _) as [[rc iRead] m]. destruct Hfind as (Hfind & _ & Hok). specialize (Hok Henv). subst rc. cbn [fst].
    by rewrite Hfind.
  - intros Hne. unfold i in Hne. destruct (last_frame_spec (map f_pgno fs) (length fs) pg) as [[E _]|(j & Hj & E & Hl & _)]; [done|].
    unfold i. rewrite E. replace (Z.of_nat j + 1 - 1) with (Z.of_nat j) by lia. rewrite Nat2Z.id.
    apply list_lookup_fmap_Some in Hl as (fr & -> & Hfr). exists fr. split_and!; [done|done|].
    destruct (lg_chain _ _ _ Hlog) as (Hps & [Hcf _ Hs _] & Hsz); [by destruct fs|].
    apply (read_frame_ok w fs j fr); try done. apply (lg_frames _ _ _ Hlog).
Qed.

(** A transaction ends with a frame that carries the size of the database. *)
Lemma tx_commit nT pList p k : last pList = Some p ->
  exists pre cf, tx_frames true nT pList ++ replicate k (page_frame nT p) = pre ++ [cf] /\ f_trunc cf = nT.
Proof.
  intros Hl. destruct k as [|k].
  - rewrite app_nil_r. revert Hl. induction pList as [|q l IH]; intros Hl; [done|]. cbn [tx_frames andb]. destruct l as [|q' l].
    + by exists [], (page_frame nT q).
    + destruct (IH Hl) as (pre & cf & E & Ht). rewrite E. by exists (page_frame 0 q :: pre), cf.
  - exists (tx_frames true nT pList ++ replicate k (page_frame nT p)), (page_frame nT p). split; [|done]. by rewrite <- app_assoc, <- replicate_cons_app.
Qed.

(** The outcome of a call, by its result code. *)
Lemma walFrames_outcome seed prng w s sz pList nT isCommit fl fs rc w' s' prng' :
  log_ok w s fs -> page_size sz -> (fs <> [] -> szPage w = sz) -> pList <> [] -> Forall (dirty_ok sz) pList -> is_u 32 nT ->
  walFrames env seed prng w s sz pList nT isCommit fl = Some (rc, w', s', prng') ->
  (rc = SQLITE_OK -> written w s fs sz nT isCommit pList w' s') /\ (rc <> SQLITE_OK -> kept w s fs w' s').
Proof.
  intros Hlog Hps Hsame Hne Hpl HnT Hw. destruct (walFrames_ok env seed prng w s sz pList nT isCommit fl fs) as (rc2 & w2 & s2 & p2 & Hw2 & Hok); try done.
  rewrite Hw in Hw2. by injection Hw2 as <- <- <- <-.
Qed.

(** C30. Recovery finds the last commit of the log: frames after it, and whatever follows the valid frames in the file, are ignored. The handle and
    the shared memory it leaves hold the log up to that commit. *)
Theorem walIndexRecover_correct f sz nc salt pre cf un tail h0 sz0 nc0 m s rl sh pad mxw :
  env_ok env -> reads_ok f -> page_size sz -> is_u 32 nc -> length salt = 8%nat -> Forall (frame_ok sz) (pre ++ cf :: un) ->
  f_trunc cf <> 0 -> Forall (fun fr => f_trunc fr = 0) un -> contents f = wal_file sz nc salt (pre ++ cf :: un) ++ tail ->
  log_end sz salt (log_cksum (wal_cksum sz nc salt) (pre ++ cf :: un)) tail ->
  exists res, walIndexRecover env SQLITE_OK true f h0 sz0 nc0 m s = Some res /\ rr_rc res = SQLITE_OK /\
    mxFrame (rr_hdr res) = Z.of_nat (length pre) + 1 /\ nPage (rr_hdr res) = f_trunc cf /\
    aHdr0 (rr_shm res) = rr_hdr res /\ aHdr1 (rr_shm res) = rr_hdr res /\ log_ok (recovered_wal f res rl sh pad mxw) (rr_shm res) (pre ++ [cf]).
Proof.
  intros Henv Hr Hps Hnc Hs Hfr Hcf Hun Hf Hend. pose proof Hf as Hf'. unfold wal_file in Hf'. rewrite <- app_assoc in Hf'.
  destruct (recover_ok env f sz nc salt (pre ++ cf :: un) tail h0 sz0 nc0 m s) as (res & Hres & Hrec); try done.
  destruct (recovered_log_ok f sz nc salt pre cf un res tail rl sh pad mxw) as [Hlog Hn]; try done.
  exists res. pose proof (lg_mx _ _ _ Hlog) as Hmx. rewrite length_app in Hmx. cbn [recovered_wal hdr length] in Hmx.
  split_and!; try done; try apply Hrec. lia.
Qed.

(** C6. Writing pages to the log: the call returns; when it reports success the log has the new frames, in the file and in the index, and after a
    commit the new header is published; when it fails everything that was in the log is still there and the published header is the old one. *)
Theorem walFrames_atomic seed prng w s sz pList nT isCommit fl fs :
  log_ok w s fs -> page_size sz -> (fs <> [] -> szPage w = sz) -> pList <> [] -> Forall (dirty_ok sz) pList -> is_u 32 nT ->
  exists rc w' s' prng', walFrames env seed prng w s sz pList nT isCommit fl = Some (rc, w', s', prng') /\
    (rc = SQLITE_OK -> written w s fs sz nT isCommit pList w' s') /\ (rc <> SQLITE_OK -> kept w s fs w' s').
Proof. apply walFrames_ok. Qed.

(** C7. A reader keeps its snapshot while a writer works: after a call that adds frames, whether it succeeded or failed, the reader still finds for
    each page the last version of its own snapshot, and reads that version's content. *)
Theorem snapshot_read seed prng w s sz pList nT isCommit fl fs rc w' s' prng' r rfs pg :
  log_ok w s fs -> page_size sz -> (fs <> [] -> szPage w = sz) -> pList <> [] -> Forall (dirty_ok sz) pList -> is_u 32 nT ->
  walFrames env seed prng w s sz pList nT isCommit fl = Some (rc, w', s', prng') ->
  log_ok r s rfs -> rfs `prefix_of` fs -> szPage r = szPage w -> nCkpt r = nCkpt w -> aSalt (hdr r) = aSalt (hdr w) ->
  env_ok env -> reads_ok (pWalFd w') -> 0 < pg -> readLock r <> 0 ->
  let i := last_frame (map f_pgno rfs) (length rfs) pg in
  (sqlite3WalFindFrame env (wi r) (tables s') (readLock r) (mxFrame (hdr r)) pg).1 = (SQLITE_OK, i) /\
  (i <> 0 -> exists fr, rfs !! Z.to_nat (i - 1) = Some fr /\ f_pgno fr = pg /\
    sqlite3WalReadFrame (set_file r (pWalFd w') (hdr r)) i (szPage r) = (SQLITE_OK, f_data fr)).
Proof.
  intros Hlog Hps Hsame Hne Hpl HnT Hw Hr [more Hpre] Hsz Hnc Hsalt Henv Hreads Hpg Hrl.
  destruct (walFrames_outcome seed prng w s sz pList nT isCommit fl fs rc w' s' prng') as [Hok Herr]; try done.
  assert ((exists ext, index_ok (tables s') (map f_pgno fs ++ ext)) /\
    (fs <> [] -> wal_file (szPage w) (nCkpt w) (aSalt (hdr w)) fs `prefix_of` contents (pWalFd w'))) as [[ext Hidx] Hfile].
  { destruct (decide (rc = SQLITE_OK)) as [->|Hrc]; [|by destruct (Herr Hrc) as (_ & _ & ? & ?)].
    destruct (Hok eq_refl) as (k & p & _ & Hl & Esz & Enc & Esalt & _). destruct (lg_index _ _ _ Hl) as [ext Hidx]. rewrite map_app, <- app_assoc in Hidx.
    split; [by eexists|]. intros Hfn. destruct (lg_chain _ _ _ Hl) as (_ & [Hf _ _ _] & _); [by destruct fs|].
    rewrite wal_file_app in Hf. apply prefix_app_trans in Hf. by rewrite Esz, Enc, (Esalt Hfn) in Hf; rewrite (Hsame Hfn). }
  assert (log_ok (set_file r (pWalFd w') (hdr r)) s' rfs) as Hr'.
  { destruct Hr as [Hmx Hncu Hsl Hfr _ Hch]. constructor; try done.
    - exists (map f_pgno more ++ ext). by rewrite app_assoc, <- map_app, <- Hpre.
    - intros Hrn. destruct (Hch Hrn) as (H1 & [_ Hb Hs Hc] & H3). split_and!; [done| |done]. constructor; [|done|done|done].
      cbn [set_file hdr pWalFd szPage nCkpt]. rewrite Hsz, Hnc, Hsalt. rewrite Hpre, wal_file_app in Hfile. eapply prefix_app_trans, Hfile.
      by destruct rfs. }
  apply (read_page_ok _ _ _ _ Hr' Henv Hreads Hpg Hrl).
Qed.

(** Rolling back a transaction: every page it wrote is handed to the callback once per frame, in the order of the frames, and the log is again the one
    the published header describes. *)
Theorem walUndo_correct {C} (xUndo : C -> Z -> Z * C) c w s fs un : log_ok w s (fs ++ un) -> (forall c p, (xUndo c p).1 = SQLITE_OK) ->
  let h := aHdr0 s in mxFrame h = Z.of_nat (length fs) -> aSalt h = aSalt (hdr w) ->
  (fs <> [] -> bigEndCksum h = 0 /\ hszPage h = commit_size (szPage w) /\ aFrameCksum h = log_cksum (wal_cksum (szPage w) (nCkpt w) (aSalt (hdr w))) fs) ->
  (walIndexPage env (wi w) (walFramePage (mxFrame h))).1 = SQLITE_OK ->
  exists w' s', sqlite3WalUndo env xUndo c w s = Some (SQLITE_OK, foldl (fun c p => (xUndo c p).2) c (map f_pgno un), w', s') /\
    hdr w' = h /\ log_ok w' s' fs.
Proof.
  intros Hlog Hx h Hmx Hsalt Hh Hmap. destruct (lg_index _ _ _ Hlog) as [ext Hidx]. unfold sqlite3WalUndo. fold h. rewrite Hmx, (lg_mx _ _ _ Hlog).
  replace (Z.to_nat (Z.of_nat (length (fs ++ un)) - Z.of_nat (length fs))) with (length un) by (rewrite length_app; lia).
  rewrite (undo_loop_ok xUndo (tables s) (fs ++ un) ext Hx Hidx un fs c eq_refl).
  destruct (Z.eqb_spec (Z.of_nat (length (fs ++ un))) (Z.of_nat (length fs))) as [E|E].
  - eexists _, _. split; [done|]. split; [done|]. apply (log_ok_rewind w _ s _ fs un (map f_pgno un ++ ext)); try done. by rewrite app_assoc, <- map_app.
  - destruct (cleanup_index_ok env (wi w) (tables s) (map f_pgno (fs ++ un) ++ ext) (length fs)) as (m & tb & Hc & Hok);
      [done|rewrite length_app, length_map, length_app; lia|by rewrite <- Hmx|].
    rewrite Hc. cbn [mbind option_bind]. eexists _, _. split; [done|]. split; [done|]. apply (log_ok_rewind w _ s _ fs un []); try done.
    rewrite app_nil_r. rewrite map_app, <- app_assoc, take_app_length' in Hok by by rewrite length_map. done.
Qed.

(** Going back to a savepoint restores the log as it was when the savepoint was taken. *)
Theorem walSavepoint_correct w s fs w2 s2 un : log_ok w s fs -> log_ok w2 s2 (fs ++ un) ->
  szPage w2 = szPage w -> nCkpt w2 = nCkpt w -> aSalt (hdr w2) = aSalt (hdr w) ->
  (walIndexPage env (wi w2) (walFramePage (mxFrame (hdr w)))).1 = SQLITE_OK ->
  exists w' s', sqlite3WalSavepointUndo env w2 s2 (sqlite3WalSavepoint w) = Some (w', s', sqlite3WalSavepoint w) /\ log_ok w' s' fs /\
    (un <> [] -> aFrameCksum (hdr w') = aFrameCksum (hdr w)).
Proof.
  intros Hlog Hlog2 Hsz Hnc Hsalt Hmap. destruct (lg_index _ _ _ Hlog2) as [ext Hidx]. unfold sqlite3WalSavepointUndo, sqlite3WalSavepoint.
  cbn [sv_nCkpt]. rewrite Hnc, Z.eqb_refl. cbn [sv_mxFrame sv_cksum mxFrame set_position]. rewrite (lg_mx _ _ _ Hlog), (lg_mx _ _ _ Hlog2).
  rewrite (lg_mx _ _ _ Hlog) in Hmap. destruct (Z.ltb_spec (Z.of_nat (length fs)) (Z.of_nat (length (fs ++ un)))) as [Hlt|Hge].
  - destruct (cleanup_index_ok env (wi w2) (tables s2) (map f_pgno (fs ++ un) ++ ext) (length fs)) as (m & tb & Hc & Hok);
      [done|rewrite length_app, length_map, length_app; lia|done|].
    rewrite Hc. cbn [mbind option_bind]. eexists _, _. split; [done|]. split; [|done]. apply (log_ok_rewind w2 _ s2 _ fs un []); try done.
    + rewrite app_nil_r. rewrite map_app, <- app_assoc, take_app_length' in Hok by by rewrite length_map. done.
    + intros Hfn. destruct (lg_chain _ _ _ Hlog Hfn) as (_ & [_ _ _ Hck] & _). destruct (lg_chain _ _ _ Hlog2) as (_ & [_ Hb _ _] & Hh); [by destruct fs|].
      cbn [set_map hdr bigEndCksum hszPage aFrameCksum set_position]. split_and!; [done|done|by rewrite Hsz, Hnc, Hsalt].
  - rewrite length_app in Hge. destruct un as [|x un]; [|cbn in Hge; lia]. rewrite app_nil_r in Hlog2. by eexists _, _.
Qed.
End clients.

(** * A disk

    A file whose writes fail after a number of them, having written half of their data. *)
Record Disk := { d_bytes : list Z; d_writes : nat }.
#[export] Instance Disk_file : WalFile Disk := {
  contents := d_bytes;
  sqlite3OsRead d n off := (SQLITE_OK, take (Z.to_nat n) (drop (Z.to_nat off) (d_bytes d)));
  sqlite3OsWrite d l off :=
    match d_writes d with
    | O => (SQLITE_IOERR, {| d_bytes := pwrite (d_bytes d) (take (length l / 2) l) (Z.to_nat off); d_writes := O |})
    | S n => (SQLITE_OK, {| d_bytes := pwrite (d_bytes d) l (Z.to_nat off); d_writes := n |})
    end;
  sqlite3OsSync d _ := (SQLITE_OK, d);
  sqlite3OsTruncate d n := (SQLITE_OK, {| d_bytes := take (Z.to_nat n) (d_bytes d); d_writes := d_writes d |});
  sqlite3OsFileSize d := (SQLITE_OK, Z.of_nat (length (d_bytes d)));
  sqlite3OsSectorSize d := 512
}.
#[export] Instance Disk_laws : WalFileLaws Disk.
Proof.
  constructor; cbn; intros.
  - by simplify_eq.
  - by destruct (d_writes f); simplify_eq.
  - destruct (d_writes f); simplify_eq. cbn. rewrite lookup_pwrite_out; [done|done|]. rewrite length_take. lia.
  - by simplify_eq.
  - simplify_eq. by right.
  - by simplify_eq.
Qed.
Lemma disk_reads d : reads_ok d.
Proof. split; [by eexists|]. intros. by eexists. Qed.

(** A connection on an empty log, whose disk takes [n] writes. *)
Definition wal0 (n : nat) : Wal Disk :=
  {| pWalFd := {| d_bytes := []; d_writes := n |}; hdr := chain_hdr [1; 2; 3; 4; 5; 6; 7; 8] (0, 0); wi := no_map; szPage := 512; nCkpt := 1; readLock := 1;
     truncateOnCommit := 0; syncHeader := 1; padToSectorBoundary := 0; mxWalSize := -1; iCallback := 0 |}.
Definition shm0 : Shm := {| aHdr0 := zero_hdr; aHdr1 := zero_hdr; ckpt := {| nBackfill := 0; aReadMark := [] |}; tables := ∅ |}.
Definition dirty (n x : Z) : PgHdr := {| pgno := n; pData := replicate 512 x |}.

Lemma wal0_ok n : log_ok (wal0 n) shm0 [].
Proof. constructor; [done|unfold is_u; cbn; lia|done|done|exists []; apply index_ok_nil|done]. Qed.
Lemma dirty_ok_512 n x : 0 < n < 2 ^ 32 -> dirty_ok 512 (dirty n x).
Proof. intros. split; [done|]. cbn [dirty pData]. by rewrite length_replicate. Qed.
Lemma size_512 : page_size 512.
Proof. exists 9. split; [lia|done]. Qed.

(** The states after a commit of page 2, and after a spill of pages 3 and 2 on top of it. *)
Definition run1 := walFrames env1 [] zeroPrng (wal0 100) shm0 512 [dirty 2 7] 5 true 0x22.
Definition wal1 : Wal Disk := match run1 with Some (_, w, _, _) => w | None => wal0 0 end.
Definition shm1 : Shm := match run1 with Some (_, _, s, _) => s | None => shm0 end.
Definition fr1 : Frame := page_frame 5 (dirty 2 7).
Definition run2 := walFrames env1 [] zeroPrng wal1 shm1 512 [dirty 3 8; dirty 2 9] 0 false 0x22.
Definition wal2 : Wal Disk := match run2 with Some (_, w, _, _) => w | None => wal0 0 end.
Definition shm2 : Shm := match run2 with Some (_, _, s, _) => s | None => shm0 end.
Definition un2 : list Frame := [page_frame 0 (dirty 3 8); page_frame 0 (dirty 2 9)].

Definition run_rc (r : option (Z * Wal Disk * Shm * sqlite3PrngType)) : option (Z * Z) :=
  match r with Some (rc, w, _, _) => Some (rc, mxFrame (hdr w)) | None => None end.
Lemma run1_rc : run_rc run1 = Some (0, 1).
Proof. vm_compute. reflexivity. Qed.
Lemma run2_rc : run_rc run2 = Some (0, 3).
Proof. vm_compute. reflexivity. Qed.

Lemma one_dirty : Forall (dirty_ok 512) [dirty 2 7].
Proof. constructor; [apply dirty_ok_512; lia|constructor]. Qed.
Lemma run1_eq : exists p, walFrames env1 [] zeroPrng (wal0 100) shm0 512 [dirty 2 7] 5 true 0x22 = Some (SQLITE_OK, wal1, shm1, p).
Proof.
  pose proof run1_rc as H. fold run1. unfold wal1, shm1. destruct run1 as [[[[rc w] s] p]|]; [|done]. cbn in H. injection H as -> _. by eexists.
Qed.
Lemma run2_eq : exists p, walFrames env1 [] zeroPrng wal1 shm1 512 [dirty 3 8; dirty 2 9] 0 false 0x22 = Some (SQLITE_OK, wal2, shm2, p).
Proof.
  pose proof run2_rc as H. fold run2. unfold wal2, shm2. destruct run2 as [[[[rc w] s] p]|]; [|done]. cbn in H. injection H as -> _. by eexists.
Qed.
Lemma wal1_ok : log_ok wal1 shm1 [fr1].
Proof.
  destruct run1_eq as [p Hrun]. destruct (walFrames_outcome env1 [] zeroPrng (wal0 100) shm0 512 [dirty 2 7] 5 true 0x22 [] SQLITE_OK wal1 shm1 p (wal0_ok 100) size_512) as [Hok _];
    [by intros []|discriminate|apply one_dirty|unfold is_u; lia|exact Hrun|].
  destruct (Hok eq_refl) as (k & q & [= <-] & Hlog & _).
  assert (mxFrame (hdr wal1) = 1) as Hmx by (vm_compute; reflexivity).
  pose proof (lg_mx _ _ _ Hlog) as Hl. rewrite Hmx in Hl. cbn [tx_frames app length] in Hl. rewrite length_replicate in Hl. destruct k; [exact Hlog|lia].
Qed.
Lemma wal1_size : szPage wal1 = 512 /\ nCkpt wal1 = 1 /\ aSalt (hdr wal1) = [1; 2; 3; 4; 5; 6; 7; 8] /\ readLock wal1 = 1.
Proof. vm_compute. done. Qed.
Lemma two_dirty : Forall (dirty_ok 512) [dirty 3 8; dirty 2 9].
Proof. constructor; [apply dirty_ok_512; lia|]. constructor; [apply dirty_ok_512; lia|done]. Qed.
Lemma wal2_ok : log_ok wal2 shm2 ([fr1] ++ un2).
Proof.
  destruct run2_eq as [p Hrun]. destruct (walFrames_outcome env1 [] zeroPrng wal1 shm1 512 [dirty 3 8; dirty 2 9] 0 false 0x22 [fr1] SQLITE_OK wal2 shm2 p wal1_ok size_512) as [Hok _];
    [intros _; apply wal1_size|discriminate|apply two_dirty|unfold is_u; lia|exact Hrun|].
  destruct (Hok eq_refl) as (k & q & _ & Hlog & _ & _ & _ & -> & _). exact Hlog.
Qed.

(** The first write to a disk that takes two writes fails at the page's content: nothing is published. *)
Lemma walFrames_atomic_witness : exists w' s' p', walFrames env1 [] zeroPrng (wal0 2) shm0 512 [dirty 2 7] 5 true 0x22 = Some (SQLITE_IOERR, w', s', p') /\
  aHdr0 s' = zero_hdr.
Proof.
  destruct (walFrames_atomic env1 [] zeroPrng (wal0 2) shm0 512 [dirty 2 7] 5 true 0x22 []) as (rc & w' & s' & p' & Hw & _ & Hkept);
    [apply wal0_ok|apply size_512|by intros []|discriminate|apply one_dirty|unfold is_u; lia|].
  assert (run_rc (walFrames env1 [] zeroPrng (wal0 2) shm0 512 [dirty 2 7] 5 true 0x22) = Some (SQLITE_IOERR, 0)) as Hrc by (vm_compute; reflexivity).
  rewrite Hw in Hrc. cbn [run_rc] in Hrc. injection Hrc as -> _. exists w', s', p'. split; [exact Hw|]. apply Hkept. discriminate.
Defined.

(** A log with a commit, a frame without one and some bytes more. *)
Definition disk1 : Disk := {| d_bytes := wal_file 512 1 [1; 2; 3; 4; 5; 6; 7; 8] ([] ++ fr1 :: [page_frame 0 (dirty 3 8)]) ++ [1; 2; 3]; d_writes := 0 |}.
Lemma fr1_ok : frame_ok 512 fr1.
Proof. apply page_frame_ok; [apply dirty_ok_512; lia|unfold is_u; lia]. Qed.
Lemma walIndexRecover_correct_witness : exists res, walIndexRecover env1 SQLITE_OK true disk1 zero_hdr 0 0 no_map shm0 = Some res /\
  mxFrame (rr_hdr res) = 1 /\ nPage (rr_hdr res) = 5.
Proof.
  destruct (walIndexRecover_correct env1 disk1 512 1 [1; 2; 3; 4; 5; 6; 7; 8] [] fr1 [page_frame 0 (dirty 3 8)] [1; 2; 3] zero_hdr 0 0 no_map shm0 1 1 0 0)
    as (res & Hres & _ & Hmx & Hn & _); [apply env1_ok|apply disk_reads|apply size_512|unfold is_u; lia|reflexivity| |discriminate|repeat constructor|reflexivity|left; cbn; lia|exists res; exact (conj Hres (conj Hmx Hn))].
  constructor; [apply fr1_ok|]. constructor; [|done]. apply page_frame_ok; [apply dirty_ok_512; lia|unfold is_u; lia].
Defined.

(** The reader's snapshot is the log after the first commit. *)
Lemma snapshot_read_witness : (sqlite3WalFindFrame env1 (wi wal1) (tables shm2) 1 1 2).1 = (SQLITE_OK, 1).
Proof.
  destruct run2_eq as [p Hrun]. destruct wal1_size as (Hsz & Hnc & Hsalt & Hrl).
  destruct (snapshot_read env1 [] zeroPrng wal1 shm1 512 [dirty 3 8; dirty 2 9] 0 false 0x22 [fr1] SQLITE_OK wal2 shm2 p wal1 [fr1] 2) as [Hfind _];
    [apply wal1_ok|apply size_512|intros _; exact Hsz|discriminate|apply two_dirty|unfold is_u; lia|exact Hrun|apply wal1_ok|reflexivity|reflexivity|reflexivity|reflexivity|apply env1_ok|apply disk_reads|lia|by rewrite Hrl|].
  assert (mxFrame (hdr wal1) = 1) as Hmx by (vm_compute; reflexivity). rewrite Hrl, Hmx in Hfind. exact Hfind.
Defined.

(** Rolling back the spill tells the pager of pages 3 and 2. *)
Lemma walUndo_correct_witness : exists w' s', sqlite3WalUndo env1 (fun l p => (SQLITE_OK, l ++ [p])) [] wal2 shm2 = Some (SQLITE_OK, [3; 2], w', s') /\ mxFrame (hdr w') = 1.
Proof.
  destruct (walUndo_correct env1 (fun (l : list Z) p => (SQLITE_OK, l ++ [p])) [] wal2 shm2 [fr1] un2) as (w' & s' & Hu & Hh & _);
    [apply wal2_ok|done|vm_compute; reflexivity|vm_compute; reflexivity|intros _; split_and!; vm_compute; reflexivity|vm_compute; reflexivity|].
  exists w', s'. split; [exact Hu|]. rewrite Hh. vm_compute. reflexivity.
Defined.

Lemma walSavepoint_correct_witness : exists w' s', sqlite3WalSavepointUndo env1 wal2 shm2 (sqlite3WalSavepoint wal1) = Some (w', s', sqlite3WalSavepoint wal1) /\ log_ok w' s' [fr1].
Proof.
  destruct (walSavepoint_correct env1 wal1 shm1 [fr1] wal2 shm2 un2) as (w' & s' & Hu & Hl & _);
    [apply wal1_ok|apply wal2_ok|vm_compute; reflexivity|vm_compute; reflexivity|vm_compute; reflexivity|vm_compute; reflexivity|]. exists w', s'. exact (conj Hu Hl).
Defined.
