(* ===== verification/WalCrash.v ===== *)
(** Commits of the write-ahead log and power failures.

    [CrashLaws] says which contents the file of the log can have after a power failure: a sync makes the file safe; a write that was not followed by a sync can be lost, and
    can damage the sectors from the one it starts in. Over it, sqlite3WalFrames makes a transaction durable, and recovery finds it. *)
From S2P Require Import Prelude Random WalHash WalLog WalWrite WalSpec.
Local Open Scope Z_scope.
Local Open Scope c_scope.

(** The values of [F] are the states of one file on one device. After a power failure in the state [f] its content is one of the lists in [crash f]. *)
Class CrashLaws (F : Type) `{WalFile F} := {
  crash : F -> list Z -> Prop;
  sector : Z;
  sector_ok f : sqlite3SectorSize f = sector;
  crash_sync f flags f' bs : sqlite3OsSync f flags = (SQLITE_OK, f') -> crash f' bs -> bs = contents f';
  crash_write f d off rc f' bs : sqlite3OsWrite f d off = (rc, f') -> crash f' bs ->
    exists bs0, crash f bs0 /\ forall i x, Z.of_nat i < off / sector * sector -> bs0 !! i = Some x -> bs !! i = Some x;
  crash_truncate f n rc f' bs : sqlite3OsTruncate f n = (rc, f') -> crash f' bs ->
    exists bs0, crash f bs0 /\ forall i x, Z.of_nat i < n -> bs0 !! i = Some x -> bs !! i = Some x
}.

Lemma prefix_lookups (P l : list Z) : P `prefix_of` l <-> forall i x, P !! i = Some x -> l !! i = Some x.
Proof.
  split; [intros [k ->] i x; apply lookup_app_l_Some|]. revert l. induction P as [|a P IH]; intros l Hl; [apply prefix_nil|].
  pose proof (Hl 0%nat a eq_refl) as H0. destruct l as [|b l]; [done|]. injection H0 as ->. apply prefix_cons, IH. intros i x Hi. by apply (Hl (S i)).
Qed.

(** Rounding up to the end of a sector. *)
Lemma round_up off n : 0 < n -> off mod n <> 0 -> off < (off + n - 1) / n * n.
Proof.
  intros Hn Hm. pose proof (Z.div_mod off n ltac:(lia)). pose proof (Z.mod_pos_bound off n Hn).
  assert (off / n + 1 <= (off + n - 1) / n) as Hq by (apply Z.div_le_lower_bound; [lia|]; rewrite Z.mul_add_distr_l; lia).
  apply (Z.mul_le_mono_nonneg_r _ _ n) in Hq; [|lia]. rewrite Z.mul_add_distr_r in Hq. lia.
Qed.

Section crash.
Context {F : Type} `{WalFileLaws F} {CL : CrashLaws F} (env : ShmEnv).

(** The bytes [P] at the start of the file are there after a power failure. *)
Definition durable (P : list Z) (f : F) : Prop := forall bs, crash f bs -> P `prefix_of` bs.

Lemma durable_sync P f fl f' : sqlite3OsSync f fl = (SQLITE_OK, f') -> P `prefix_of` contents f -> durable P f'.
Proof. intros Hs HP bs Hb. rewrite (crash_sync _ _ _ _ Hs Hb). by rewrite (sync_ok _ _ _ _ Hs). Qed.

Lemma durable_write P f d off rc f' : sqlite3OsWrite f d off = (rc, f') -> Z.of_nat (length P) <= off / sector * sector -> durable P f -> durable P f'.
Proof.
  intros Hw Ho Hd bs Hb. destruct (crash_write _ _ _ _ _ _ Hw Hb) as (bs0 & Hb0 & Hsame). specialize (Hd bs0 Hb0).
  rewrite prefix_lookups in *. intros i x Hi. apply Hsame; [|by apply Hd]. apply lookup_lt_Some in Hi. lia.
Qed.

Lemma durable_limit P f n : Z.of_nat (length P) <= n -> durable P f -> durable P (walLimitSize f n).
Proof.
  intros Hn Hd. unfold walLimitSize. destruct (sqlite3OsFileSize f) as [rx size]. destruct (_ && _); [|done].
  destruct (sqlite3OsTruncate f n) as [rc f'] eqn:Ht. intros bs Hb. destruct (crash_truncate _ _ _ _ _ Ht Hb) as (bs0 & Hb0 & Hsame). specialize (Hd bs0 Hb0).
  rewrite prefix_lookups in *. intros i x Hi. apply Hsame; [|by apply Hd]. apply lookup_lt_Some in Hi. lia.
Qed.

(** A write behind [P]. *)
Lemma write_behind P f d off f' : sqlite3OsWrite f d off = (SQLITE_OK, f') -> Z.of_nat (length P) <= off -> P `prefix_of` contents f -> P `prefix_of` contents f'.
Proof.
  intros Hw Ho HP. rewrite (write_ok _ _ _ _ Hw) by lia. rewrite prefix_lookups in *. intros i x Hi. specialize (HP i x Hi).
  apply lookup_lt_Some in Hi. rewrite lookup_pwrite_out; [done|by apply lookup_lt_Some in HP|lia].
Qed.

(** ** Padding to the end of the sector *)

Section pad.
Context (P : list Z) (sp fl : Z) (Hsp : sp / sector * sector = sp) (HP : Z.of_nat (length P) <= sp).

(** A piece of a frame. When the sync point is in it, [P] is safe afterwards; a piece behind the sync point does no harm. *)
Lemma writeToLog_durable f d off f' : walWriteToLog f sp fl d off = (SQLITE_OK, f') -> Z.of_nat (length P) <= off -> P `prefix_of` contents f ->
  P `prefix_of` contents f' /\ (off < sp <= off + Z.of_nat (length d) -> durable P f') /\ (sp <= off -> 0 < sector -> durable P f -> durable P f').
Proof using Hsp HP H0.
  intros Hw Ho Hf. unfold walWriteToLog in Hw. destruct (Z.ltb_spec off sp) as [H1|H1], (Z.leb_spec sp (off + Z.of_nat (length d))) as [H2|H2]; cbn [andb] in Hw.
  - destruct (sqlite3OsWrite f _ off) as [rc f1] eqn:Hw1. destruct (Z.eqb_spec rc SQLITE_OK) as [->|Hrc]; cbn [negb] in Hw; [|by injection Hw as ->].
    pose proof (write_behind P _ _ _ _ Hw1 Ho Hf) as Hf1. destruct (sqlite3OsSync f1 _) as [rc f2] eqn:Hs.
    assert (P `prefix_of` contents f2) as Hf2 by by rewrite (sync_ok _ _ _ _ Hs).
    destruct (Z.eqb_spec rc SQLITE_OK) as [->|Hrc]; [|rewrite orb_true_r in Hw; by injection Hw as ->]. cbn [negb] in Hw. rewrite orb_false_r in Hw.
    pose proof (durable_sync P _ _ _ Hs Hf1) as Hd. destruct (_ =? 0) in Hw.
    + injection Hw as <-. split; [done|]. split; [done|lia].
    + replace (off + (sp - off)) with sp in Hw by lia. split; [by apply (write_behind P _ _ _ _ Hw)|]. split; [|lia]. intros _.
      eapply durable_write; [exact Hw|lia|done].
  - split; [by apply (write_behind P _ _ _ _ Hw)|]. split; lia.
  - split; [by apply (write_behind P _ _ _ _ Hw)|]. split; [lia|]. intros _ Hpos Hd. eapply durable_write; [exact Hw| |done].
    pose proof (Z.div_le_mono _ _ sector Hpos H1). nia.
  - split; [by apply (write_behind P _ _ _ _ Hw)|]. split; lia.
Qed.

Lemma oneFrame_durable sz p nT f h off f' h' : 0 < sector -> dirty_ok sz p -> length (aSalt h) = 8%nat ->
  walWriteOneFrame f h sp fl p nT off = (SQLITE_OK, f', h') -> Z.of_nat (length P) <= off -> P `prefix_of` contents f ->
  P `prefix_of` contents f' /\ length (aSalt h') = 8%nat /\ (off < sp <= off + (sz + WAL_FRAME_HDRSIZE) -> durable P f').
Proof using Hsp HP H0.
  intros Hpos [_ Hp] Hs. unfold walWriteOneFrame. destruct (walEncodeFrame _ _ _ _) as [hb h1] eqn:Ee.
  assert (Z.of_nat (length hb) = WAL_FRAME_HDRSIZE /\ length (aSalt h1) = 8%nat) as [Hl Hs1].
  { unfold walEncodeFrame in Ee. injection Ee as <- <-. split; [|done]. cbn [length]. rewrite length_app, Hs. done. }
  destruct (walWriteToLog f sp fl hb off) as [rc f1] eqn:Hw1. destruct (Z.eqb_spec rc SQLITE_OK) as [->|Hrc]; cbn [negb]; [|by intros [= ->]].
  destruct (walWriteToLog f1 sp fl (pData p) _) as [rc f2] eqn:Hw2. intros [= -> <- <-] Ho Hf. unfold WAL_FRAME_HDRSIZE in *.
  destruct (writeToLog_durable _ _ _ _ Hw1 Ho Hf) as (Hf1 & Hc1 & _). destruct (writeToLog_durable _ _ _ _ Hw2 ltac:(lia) Hf1) as (Hf2 & Hc2 & Hk2).
  split; [done|]. split; [done|]. intros Hin. rewrite Hl in Hc1. rewrite Hp in Hc2.
  destruct (decide (sp <= off + 24)); [apply Hk2; [done|done|]; apply Hc1; lia|apply Hc2; lia].
Qed.

(** The loop that pads writes over the sync point. *)
Lemma pad_loop_durable sz p nT : 0 < sector -> dirty_ok sz p -> forall fuel f h off n f' h' n', length (aSalt h) = 8%nat ->
  pad_loop fuel f h sp fl sz p nT off n = Some (SQLITE_OK, f', h', n') -> off < sp -> Z.of_nat (length P) <= off -> P `prefix_of` contents f -> durable P f'.
Proof using Hsp HP H0.
  intros Hpos Hp. induction fuel as [|fuel IH]; intros f h off n f' h' n' Hs Hl Hlt Ho Hf; cbn [pad_loop] in Hl; rewrite (proj2 (Z.ltb_lt _ _) Hlt) in Hl; cbn [negb] in Hl; [done|].
  destruct (walWriteOneFrame f h sp fl p nT off) as [[rc f1] h1] eqn:Hw. destruct (Z.eqb_spec rc SQLITE_OK) as [->|Hrc]; cbn [negb] in Hl; [|by injection Hl as ->].
  destruct (oneFrame_durable sz p nT f h off f1 h1 Hpos Hp Hs Hw Ho Hf) as (Hf1 & Hs1 & Hd). destruct (Z.ltb_spec (off + (sz + WAL_FRAME_HDRSIZE)) sp) as [H1|H1].
  - apply (IH _ _ _ _ _ _ _ Hs1 Hl H1); [|done]. destruct Hp as [_ Hp]. unfold WAL_FRAME_HDRSIZE. lia.
  - destruct fuel; cbn [pad_loop] in Hl; rewrite (proj2 (Z.ltb_ge _ _) H1) in Hl; cbn [negb] in Hl; injection Hl as <- _ _; apply Hd; lia.
Qed.
End pad.

Lemma sector_pos (f : F) : 32 <= sector.
Proof. rewrite <- (sector_ok f). unfold sqlite3SectorSize, MAX_SECTOR_SIZE. destruct (Z.ltb_spec (sqlite3OsSectorSize f) 32), (Z.ltb_spec 0x10000 (sqlite3OsSectorSize f)); lia. Qed.

(** The end of a transaction that is to be synced. There is no sync when the log is padded and the last frame ends with its sector. *)
Lemma end_transaction_durable P f h pad sz fl p nT off stop f' h' k : fl .& WAL_SYNC_TRANSACTIONS <> 0 -> dirty_ok sz p -> length (aSalt h) = 8%nat -> (pad = 0 \/ off mod sector <> 0) ->
  end_transaction f h pad sz true fl p nT off = Some (stop, SQLITE_OK, f', h', k) -> Z.of_nat (length P) = off -> P `prefix_of` contents f -> durable P f'.
Proof using H0.
  intros Hfl Hp Hs Hpad He Ho Hf. unfold end_transaction in He. rewrite (proj2 (Z.eqb_neq _ _) Hfl) in He. cbn [andb negb] in He.
  destruct (Z.eqb_spec pad 0) as [->|Hp0]; cbn [negb] in He.
  - destruct (sqlite3OsSync f _) as [rc f1] eqn:Hsy. injection He as <- -> <- <- <-. by eapply durable_sync.
  - destruct Hpad as [?|Hmod]; [done|]. rewrite (sector_ok f) in He. pose proof (sector_pos f). set (sp := (off + sector - 1) / sector * sector) in *.
    assert (off < sp) as Hlt by (apply round_up; [lia|done]).
    destruct (pad_loop _ _ _ _ _ _ _ _ _ _) as [[[[rc f1] h1] n1]|] eqn:El; [|done]. cbn in He. injection He as _ -> <- _ _.
    apply (pad_loop_durable P sp fl) in El; try done; try lia. unfold sp. by rewrite Z.div_mul by lia.
Qed.

Lemma publish_keeps (w w' : Wal F) s rc sz pgs ic nT rc' s' : publish env w s rc sz pgs ic nT = Some (rc', w', s') -> pWalFd w' = pWalFd w /\ aSalt (hdr w') = aSalt (hdr w) /\ (rc' = SQLITE_OK -> rc = SQLITE_OK).
Proof.
  unfold publish. destruct (if rc =? SQLITE_OK then _ else _) as [[[[rc1 m] tb] i]|] eqn:Ea; [|done]. cbn [mbind option_bind].
  assert (rc1 = SQLITE_OK -> rc = SQLITE_OK) as Hrc by (destruct (Z.eqb_spec rc SQLITE_OK); [done|injection Ea as <- _ _ _; done]).
  destruct (Z.eqb_spec rc1 SQLITE_OK) as [->|Hne]; cbn [negb]; [|by intros [= <- <- <-]]. destruct ic; intros [= <- <- <-]; auto.
Qed.

(** When a commit that is to be synced has reported success, the frames of the transaction are safe. *)
Lemma walFrames_durable seed prng w s sz pList nT fl fs w' s' prng' :
  log_ok w s fs -> page_size sz -> (fs <> [] -> szPage w = sz) -> pList <> [] -> Forall (dirty_ok sz) pList -> is_u 32 nT ->
  fl .& WAL_SYNC_TRANSACTIONS <> 0 ->
  padToSectorBoundary w = 0 \/ walFrameOffset (mxFrame (hdr w) + Z.of_nat (length pList) + 1) sz mod sector <> 0 ->
  walFrames env seed prng w s sz pList nT true fl = Some (SQLITE_OK, w', s', prng') ->
  durable (wal_file sz (nCkpt w) (aSalt (hdr w')) (fs ++ tx_frames true nT pList)) (pWalFd w').
Proof using H0.
  intros Hlog Hsz Hsame Hne Hpl HnT Hfl Hpad. unfold walFrames. destruct (start_ready seed prng w s sz fl fs Hlog Hsame) as (rc & w1 & prng1 & Est & Hready & _).
  assert (padToSectorBoundary w1 = padToSectorBoundary w) as Epad.
  { revert Est. destruct (_ =? 0); [|by intros [= _ <- _]]. unfold start_log. destruct (if nCkpt w =? 0 then _ else _) as [salt prng2]. destruct (sqlite3OsWrite _ _ _) as [r1 f1].
    destruct (negb (r1 =? SQLITE_OK)); [by intros [= _ <- _]|]. destruct (_ && _); [|by intros [= _ <- _]]. destruct (sqlite3OsSync _ _) as [r2 f2]. by intros [= _ <- _]. }
  rewrite Est. destruct (Z.eqb_spec rc SQLITE_OK) as [->|Hrc]; cbn [negb]; [|by intros [= ->]].
  specialize (Hready eq_refl). pose proof (rd_chain _ _ _ _ Hready) as Hch.
  assert (Forall (frame_ok sz) fs) as Hfs. { pose proof (lg_frames _ _ _ Hlog). destruct fs as [|fr l]; [done|]. by rewrite <- Hsame. }
  rewrite (lg_mx _ _ _ Hlog) in *. rewrite <- (wal_file_length sz (nCkpt w) (aSalt (hdr w1)) fs) by (done || apply Hch).
  destruct (write_frames _ _ _ _ _ _ _ _) as [[[rc f] h] off] eqn:Hw.
  destruct (write_frames_prefix sz nT HnT true fl pList _ _ _ _ _ _ _ Hpl (ch_big _ _ _ _ _ Hch) (ch_salt _ _ _ _ _ Hch) Hw (ch_file _ _ _ _ _ Hch)) as ([c Hset] & _ & Hok).
  destruct (Z.eqb_spec rc SQLITE_OK) as [->|Hrc]; cbn [negb]; [|by intros [= ->]]. destruct (Hok eq_refl) as (Eh & HP1 & Eoff). clear Hok.
  pose proof (chain_extend sz (nCkpt w) fs _ _ _ _ Hch HP1) as Hch1. rewrite <- Eh in Hch1. set (tx := tx_frames true nT pList) in *.
  assert (Forall (frame_ok sz) (fs ++ tx)) as Hfs1 by (apply Forall_app; split; [done|]; by apply tx_frames_ok).
  rewrite (ch_cksum _ _ _ _ _ Hch), <- wal_file_app in HP1, Eoff. set (P := wal_file sz (nCkpt w) (aSalt (hdr w1)) (fs ++ tx)) in *.
  pose proof (wal_file_length sz (nCkpt w) (aSalt (hdr w1)) (fs ++ tx) (ch_salt _ _ _ _ _ Hch) Hfs1) as HPl. fold P in HPl. rewrite <- Eoff in HPl.
  assert (Z.of_nat (length (fs ++ tx)) = Z.of_nat (length fs) + Z.of_nat (length pList)) as Hlen by (unfold tx; by rewrite length_app, tx_frames_length, Nat2Z.inj_add).
  set (p := default _ (last pList)).
  assert (dirty_ok sz p) as Hp.
  { unfold p. destruct (last pList) as [q|] eqn:Hl; [|by apply last_None in Hl]. by apply (proj1 (Forall_forall _ _) Hpl), last_Some_elem_of. }
  destruct (end_transaction_chain sz (nCkpt w) nT Hsz HnT (fs ++ tx) f h (padToSectorBoundary w) true fl p Hch1 Hfs1 Hp)
    as (stop & rc & f2 & h2 & k & He & Hstop & [c2 Hh2] & _ & _ & _). rewrite Epad, HPl, He. cbn [mbind option_bind].
  destruct stop; [intros [= ->]; by destruct Hstop|].
  destruct (publish _ _ _ _ _ _ _ _) as [[[rc3 w3] s3]|] eqn:Hpub; [|done]. cbn. intros [= -> <- <- <-].
  apply publish_keeps in Hpub as (-> & -> & Hrc). specialize (Hrc eq_refl). subst rc.
  assert (durable P f2) as Hd.
  { rewrite <- HPl in He. eapply end_transaction_durable; [exact Hfl|exact Hp|apply Hch1| |exact He|by rewrite Eoff|done]. by rewrite HPl, Hlen. }
  assert (wal_file sz (nCkpt w) (aSalt (hdr (limit_log (set_file w1 f2 h2) sz true (Z.of_nat (length fs) + Z.of_nat (length pList) + Z.of_nat k)))) (fs ++ tx) = P) as ->.
  { unfold limit_log. destruct (_ && _); cbn; rewrite Hh2, Hset; done. }
  unfold limit_log. destruct (_ && _); [|done]. cbn [set_truncated pWalFd set_file]. apply durable_limit; [|done].
  rewrite <- Eoff, HPl, Hlen. pose proof (page_size_pos sz Hsz). set (n := Z.of_nat (length fs) + Z.of_nat (length pList)).
  assert (walFrameOffset (n + 1) sz <= walFrameOffset (n + Z.of_nat k + 1) sz) by (unfold walFrameOffset, WAL_FRAME_HDRSIZE; nia).
  destruct (Z.ltb_spec (mxWalSize (set_file w1 f2 h2)) (walFrameOffset (n + Z.of_nat k + 1) sz)); lia.
Qed.
(** Behind the frames and copies of the frame [cf] the bytes [bs] hold nothing that passes for the next frame of the log: its salt and its checksum would have to fit. *)
Definition only_copies (sz nc : Z) (salt : list Z) (frames : list Frame) (cf : Frame) (bs : list Z) : Prop :=
  forall j, let log := frames ++ replicate j cf in
    wal_file sz nc salt log `prefix_of` bs -> wal_file sz nc salt (frames ++ replicate (S j) cf) `prefix_of` bs \/
    log_end sz salt (log_cksum (wal_cksum sz nc salt) log) (drop (length (wal_file sz nc salt log)) bs).

Lemma log_found sz nc salt frames cf bs : length salt = 8%nat -> Forall (frame_ok sz) frames -> frame_ok sz cf -> 0 < sz ->
  wal_file sz nc salt frames `prefix_of` bs -> only_copies sz nc salt frames cf bs ->
  exists j, wal_file sz nc salt (frames ++ replicate j cf) `prefix_of` bs /\
    log_end sz salt (log_cksum (wal_cksum sz nc salt) (frames ++ replicate j cf)) (drop (length (wal_file sz nc salt (frames ++ replicate j cf))) bs).
Proof.
  intros Hs Hfr Hcf Hsz HP Hoc. assert (forall j, Z.of_nat (length (wal_file sz nc salt (frames ++ replicate j cf))) = walFrameOffset (Z.of_nat (length frames + j) + 1) sz) as Hlen.
  { intros j. rewrite (wal_file_length sz); [by rewrite length_app, length_replicate|done|]. apply Forall_app. split; [done|]. by apply Forall_replicate. }
  assert (forall n j, (length bs < length (wal_file sz nc salt (frames ++ replicate j cf)) + n)%nat -> wal_file sz nc salt (frames ++ replicate j cf) `prefix_of` bs ->
    exists j, wal_file sz nc salt (frames ++ replicate j cf) `prefix_of` bs /\
      log_end sz salt (log_cksum (wal_cksum sz nc salt) (frames ++ replicate j cf)) (drop (length (wal_file sz nc salt (frames ++ replicate j cf))) bs)) as Hex.
  { induction n as [|n IH]; intros j Hj Hp; [apply prefix_length in Hp; lia|]. destruct (Hoc j Hp) as [Hp'|Hend]; [|by exists j].
    apply (IH (S j)); [|done]. pose proof (Hlen j). pose proof (Hlen (S j)) as H2. unfold walFrameOffset, WAL_FRAME_HDRSIZE in *. nia. }
  apply (Hex (S (length bs)) O); [lia|]. cbn [replicate]. by rewrite app_nil_r.
Qed.

(** C5. A commit survives a power failure. The call that ends a transaction, told to sync it, has reported success; then power fails, which can undo every write since the last
    successful sync and damage the sectors from the one where such a write starts. Recovery of what is then in the file finds this transaction as the last one, behind all the
    frames that were in the log, with the size of the database it set; some copies of its last frame can follow, where the log is padded to whole sectors. Two conditions:
    when the log is padded, the last frame does not end with its sector (there the code omits the sync: commit_without_sync); and no bytes behind the
    transaction pass by accident for a frame with the salt and the running checksum of the log. *)
Theorem commit_recovered seed prng w s sz pList nT fl fs w' s' prng' g h0 sz0 nc0 m s0 rl sh pad mxw :
  log_ok w s fs -> page_size sz -> (fs <> [] -> szPage w = sz) -> pList <> [] -> Forall (dirty_ok sz) pList -> 0 < nT < 2 ^ 32 -> env_ok env ->
  fl .& WAL_SYNC_TRANSACTIONS <> 0 ->
  padToSectorBoundary w = 0 \/ walFrameOffset (mxFrame (hdr w) + Z.of_nat (length pList) + 1) sz mod sector <> 0 ->
  walFrames env seed prng w s sz pList nT true fl = Some (SQLITE_OK, w', s', prng') ->
  crash (pWalFd w') (contents g) -> reads_ok g ->
  (forall p, last pList = Some p -> only_copies sz (nCkpt w) (aSalt (hdr w')) (fs ++ tx_frames true nT pList) (page_frame nT p) (contents g)) ->
  exists res k p, walIndexRecover env SQLITE_OK true g h0 sz0 nc0 m s0 = Some res /\ rr_rc res = SQLITE_OK /\
    nPage (rr_hdr res) = nT /\ aSalt (rr_hdr res) = aSalt (hdr w') /\ last pList = Some p /\
    log_ok (recovered_wal g res rl sh pad mxw) (rr_shm res) (fs ++ tx_frames true nT pList ++ replicate k (page_frame nT p)).
Proof using H0.
  intros Hlog Hps Hsame Hne Hpl HnT Henv Hfl Hpad Hw Hcr Hg Hoc. assert (is_u 32 nT) as HnTu by (unfold is_u; lia).
  pose proof (walFrames_durable seed prng w s sz pList nT fl fs w' s' prng' Hlog Hps Hsame Hne Hpl HnTu Hfl Hpad Hw _ Hcr) as HP.
  destruct (walFrames_outcome env seed prng w s sz pList nT true fl fs SQLITE_OK w' s' prng') as [Hok _]; try done. destruct (Hok eq_refl) as (k0 & p & Hlast & Hlog' & Hsz & Hnc & _).
  pose proof (lg_salt _ _ _ Hlog') as Hs. pose proof (lg_nckpt _ _ _ Hlog') as Hncu. pose proof (lg_frames _ _ _ Hlog') as Hfr. rewrite Hsz, app_assoc in Hfr. rewrite Hnc in Hncu.
  apply Forall_app in Hfr as [Hfr _]. assert (dirty_ok sz p) as Hp by (by apply (proj1 (Forall_forall _ _) Hpl), last_Some_elem_of).
  destruct (log_found sz (nCkpt w) (aSalt (hdr w')) (fs ++ tx_frames true nT pList) (page_frame nT p) (contents g)) as (k & [tail Htail] & Hend);
    [done|done|by apply page_frame_ok|by apply page_size_pos|done|by apply Hoc|].
  destruct (tx_commit nT pList p k Hlast) as (pre & cf & Etx & Hcf). rewrite <- app_assoc, Etx, app_assoc in Htail, Hend.
  rewrite Htail, drop_app_length in Hend.
  assert (Forall (frame_ok sz) ((fs ++ pre) ++ [cf])) as Hfr'.
  { rewrite <- app_assoc, <- Etx, app_assoc. apply Forall_app. split; [done|]. apply Forall_replicate. by apply page_frame_ok. }
  pose proof Htail as Hf2. unfold wal_file in Hf2. rewrite <- app_assoc in Hf2.
  destruct (recover_ok env g sz (nCkpt w) (aSalt (hdr w')) ((fs ++ pre) ++ [cf]) tail h0 sz0 nc0 m s0) as (res & Hres & Hrec); try done.
  destruct (recovered_log_ok g sz (nCkpt w) (aSalt (hdr w')) (fs ++ pre) cf [] res tail rl sh pad mxw) as [Hl Hn]; try done; [lia|].
  destruct (rec_handle _ _ _ _ _ Hrec) as (_ & _ & Hrs & _); [by destruct (fs ++ pre)|].
  exists res, k, p. split_and!; [done|apply Hrec|congruence|done|done|]. by rewrite Etx, app_assoc.
Qed.
End crash.

(** * A device with a cache

    Writes and truncations wait in a cache; a sync brings all of them to the medium; at a power failure any of those that wait may have got there, in their order. *)
Inductive pending := PWrite (off : nat) (d : list Z) | PTruncate (n : nat).
Record Store := { s_bytes : list Z; s_medium : list Z; s_cache : list pending }.

Definition pending_do (o : pending) (c : list Z) : list Z := match o with PWrite off d => pwrite c d off | PTruncate n => take n c end.
Definition images (medium : list Z) (cache : list pending) : list (list Z) := foldl (fun l o => l ++ map (pending_do o) l) [medium] cache.
Definition cached (d : Store) (o : pending) : Store := {| s_bytes := pending_do o (s_bytes d); s_medium := s_medium d; s_cache := s_cache d ++ [o] |}.

#[export] Instance Store_file : WalFile Store := {
  contents := s_bytes;
  sqlite3OsRead d n off := (SQLITE_OK, take (Z.to_nat n) (drop (Z.to_nat off) (s_bytes d)));
  sqlite3OsWrite d l off := (SQLITE_OK, cached d (PWrite (Z.to_nat off) l));
  sqlite3OsSync d _ := (SQLITE_OK, {| s_bytes := s_bytes d; s_medium := s_bytes d; s_cache := [] |});
  sqlite3OsTruncate d n := (SQLITE_OK, cached d (PTruncate (Z.to_nat n)));
  sqlite3OsFileSize d := (SQLITE_OK, Z.of_nat (length (s_bytes d)));
  sqlite3OsSectorSize d := 512
}.
#[export] Instance Store_laws : WalFileLaws Store.
Proof. constructor; cbn; intros; simplify_eq; auto. Qed.

Lemma images_snoc m l o bs : bs ∈ images m (l ++ [o]) <-> bs ∈ images m l \/ exists bs0, bs = pending_do o bs0 /\ bs0 ∈ images m l.
Proof. unfold images. rewrite foldl_app. cbn [foldl]. by rewrite elem_of_app, list_elem_of_fmap. Qed.
#[export] Instance Store_crash : CrashLaws Store.
Proof.
  refine {| crash d bs := bs ∈ images (s_medium d) (s_cache d); sector := 512 |}.
  - done.
  - intros f fl f' bs [= <-]. cbn. by intros ?%list_elem_of_singleton.
  - intros f d off rc f' bs [= <- <-]. cbn [cached s_medium s_cache]. rewrite images_snoc. intros [Hb|(bs0 & -> & Hb)]; [by exists bs|]. exists bs0. split; [done|].
    intros i x Hi Hx. cbn [pending_do]. rewrite lookup_pwrite_out; [done|by apply lookup_lt_Some in Hx|]. left. pose proof (Z.mul_div_le off 512). lia.
  - intros f n rc f' bs [= <- <-]. cbn [cached s_medium s_cache]. rewrite images_snoc. intros [Hb|(bs0 & -> & Hb)]; [by exists bs|]. exists bs0. split; [done|].
    intros i x Hi Hx. cbn [pending_do]. by rewrite lookup_take_lt by lia.
Defined.
Lemma store_reads d : reads_ok (F := Store) d.
Proof. split; [by eexists|]. intros. by eexists. Qed.

(** An empty log on such a device, to be padded. *)
Definition store0 : Wal Store :=
  {| pWalFd := {| s_bytes := []; s_medium := []; s_cache := [] |}; hdr := chain_hdr [1; 2; 3; 4; 5; 6; 7; 8] (0, 0); wi := no_map; szPage := 512; nCkpt := 1; readLock := 1;
     truncateOnCommit := 0; syncHeader := 1; padToSectorBoundary := 1; mxWalSize := -1; iCallback := 0 |}.
Lemma store0_ok : log_ok store0 shm0 [].
Proof. constructor; [done|unfold is_u; cbn; lia|done|done|exists []; apply index_ok_nil|done]. Qed.

(** The run of a commit of [pl] with a full sync. *)
Definition store_run (pl : list PgHdr) := walFrames env1 [] zeroPrng store0 shm0 512 pl 30 true 0x22.
Definition store_rc (r : option (Z * Wal Store * Shm * sqlite3PrngType)) : option Z := match r with Some (rc, _, _, _) => Some rc | None => None end.
Definition store_wal (r : option (Z * Wal Store * Shm * sqlite3PrngType)) : Wal Store := match r with Some (_, w, _, _) => w | None => store0 end.
(** The power fails and nothing that waited in the cache has reached the medium. *)
Definition fallen (w : Wal Store) : Store := {| s_bytes := s_medium (pWalFd w); s_medium := s_medium (pWalFd w); s_cache := [] |}.
Lemma fallen_crash w : crash (pWalFd w) (contents (fallen w)).
Proof. cbn. unfold images. generalize (s_cache (pWalFd w)). intros l. induction l as [|o l IH] using rev_ind; [by apply list_elem_of_singleton|]. apply images_snoc. by left. Qed.

(** One page is committed: the copy of its frame that goes over the end of the sector is lost in part, the transaction is found. *)
Lemma commit_recovered_witness : exists res, walIndexRecover env1 SQLITE_OK true (fallen (store_wal (store_run [dirty 2 7]))) zero_hdr 0 0 no_map shm0 = Some res /\ nPage (rr_hdr res) = 30.
Proof.
  assert (store_rc (store_run [dirty 2 7]) = Some SQLITE_OK) as Hrc by (vm_compute; reflexivity).
  destruct (store_run [dirty 2 7]) as [[[[rc w'] s'] p']|] eqn:Hrun; [|discriminate Hrc]. injection Hrc as ->. cbn [store_wal].
  destruct (commit_recovered env1 [] zeroPrng store0 shm0 512 [dirty 2 7] 30 0x22 [] w' s' p' (fallen w') zero_hdr 0 0 no_map shm0 1 1 0 0)
    as (res & k & q & Hres & _ & Hn & _);
    [apply store0_ok|apply size_512|by intros []|discriminate|apply one_dirty|lia|apply env1_ok|discriminate|right; discriminate|exact Hrun|apply fallen_crash|apply store_reads|
     |exists res; exact (conj Hres Hn)].
  assert (length (contents (fallen (store_wal (store_run [dirty 2 7])))) = 1024%nat) as Hl by (vm_compute; reflexivity). rewrite Hrun in Hl. cbn [store_wal] in Hl.
  assert (aSalt (hdr (store_wal (store_run [dirty 2 7]))) = [1; 2; 3; 4; 5; 6; 7; 8]) as Hsalt by (vm_compute; reflexivity). rewrite Hrun in Hsalt. cbn [store_wal] in Hsalt.
  intros q' [= <-] j log Hpre. rewrite Hsalt in *. change (nCkpt store0) with 1 in *. right. left.
  assert (Z.of_nat (length (wal_file 512 1 [1; 2; 3; 4; 5; 6; 7; 8] log)) = walFrameOffset (Z.of_nat (length log) + 1) 512) as Hw.
  { apply wal_file_length; [reflexivity|]. assert (frame_ok 512 (page_frame 30 (dirty 2 7))) by (apply page_frame_ok; [apply dirty_ok_512; lia|unfold is_u; lia]).
    unfold log. apply Forall_app. split; [by constructor|by apply Forall_replicate]. }
  assert (length log = S j) as Hj by (unfold log; rewrite length_app, length_replicate; reflexivity).
  apply prefix_length in Hpre. rewrite Hj in Hw. unfold walFrameOffset, WAL_HDRSIZE, WAL_FRAME_HDRSIZE in Hw. rewrite length_drop, Hl in *. lia.
Defined.

(** Where padding is on and the last frame of a transaction ends with its sector, the loop that pads writes nothing, and nothing is synced: a commit of 20 pages of 512 bytes
    reports success although the caller asked for a sync, and after a power failure only the header of the log is left. *)
Definition twenty : list PgHdr := map (fun i => dirty i 7) (seqZ 2 20).
Lemma commit_without_sync : store_rc (store_run twenty) = Some SQLITE_OK /\
  length (contents (fallen (store_wal (store_run twenty)))) = 32%nat /\
  (match walIndexRecover env1 SQLITE_OK true (fallen (store_wal (store_run twenty))) zero_hdr 0 0 no_map shm0 with Some res => mxFrame (rr_hdr res) | None => 1 end) = 0.
Proof. vm_compute. done. Qed.
