(* ===== verification/WalTrans.v ===== *)
(** Transactions and checkpoints of wal.c as programs.

    Connections of several threads and processes share the wal-index, the log and the database file. An operation of a
    connection is a program: a tree whose nodes are the accesses to what is shared, so that the accesses of several connections
    can be interleaved ([Prog]). Connections lock the wal-index in the modes of SQLITE_SHM_SHARED and SQLITE_SHM_EXCLUSIVE
    ([exclusiveMode] is WAL_NORMAL_MODE), and page 0 of it has been mapped and initialised. A private copy of the header, a word of the
    header as a whole, is loaded and stored at once; WalHdr.v shows that this is what connections observe.
    Frames are not padded to the end of a sector ([padToSectorBoundary] is 0) and the header of a log is synced when the flags say so ([syncHeader] is 1, as sqlite3WalOpen
    sets it); WalWrite.v covers the other cases. *)
From S2P Require Import Prelude WalHash WalIter WalLog WalWrite.
Local Open Scope Z_scope.
Local Open Scope c_scope.

Definition WAL_WRITE_LOCK : Z := 0.
Definition WAL_CKPT_LOCK : Z := 1.
Definition WAL_RECOVER_LOCK : Z := 2.
Definition WAL_READ_LOCK (i : Z) : Z := 3 + i.
Definition WAL_RETRY : Z := -1.
Definition SQLITE_PROTOCOL : Z := 15.
Definition SQLITE_BUSY_RECOVERY : Z := SQLITE_BUSY .| (1 << 8).
Definition SQLITE_BUSY_SNAPSHOT : Z := SQLITE_BUSY .| (2 << 8).
Definition SQLITE_READONLY_RECOVERY : Z := SQLITE_READONLY .| (1 << 8).
Definition SQLITE_READONLY_CANTLOCK : Z := SQLITE_READONLY .| (2 << 8).
Definition SQLITE_CHECKPOINT_PASSIVE : Z := 0.
Definition SQLITE_CHECKPOINT_FULL : Z := 1.
Definition SQLITE_CHECKPOINT_RESTART : Z := 2.

(** ** Accesses to what is shared *)

Inductive file := LogFile | DbFile.

(** Questions whose answer does not matter to what is shared: the mapping of page 0 (a result code), whether it is mapped, the busy handler,
    random numbers, syncs, and sizes of files (of the database the result code, of the log the size, 0 when it cannot be told). *)
Inductive question := QMap | QMapped | QBusy | QRandom | QSync (f : file) | QSize (f : file).

Inductive op :=
| OShmLock (exclusive : bool) (ofst n : Z)
| OShmUnlock (ofst n : Z)
| OLoadHdr (copy : Z)
| OStoreHdr (copy : Z) (h : WalIndexHdr)
| OLoadBackfill
| OStoreBackfill (v : Z)
| OLoadMark (i : Z)
| OStoreMark (i v : Z)
| OIndexAppend (iFrame pgno : Z)
| OIndexCleanup (mx : Z)
| OIterator (mx : Z)
| ORead (f : file) (off : Z)
| OWrite (f : file) (d : list Z) (off : Z)
| OTruncate (f : file) (size : Z)
| ORecover
| OAsk (q : question).

(** An answer: a number, a header, data, the pages of an iterator. *)
Record Ans := { a_z : Z; a_hdr : WalIndexHdr; a_data : list Z; a_list : list (Z * Z) }.

Inductive Prog (A : Type) :=
| Ret (a : A)
| Do (o : op) (k : Ans -> Prog A).
Arguments Ret {A} a.
Arguments Do {A} o k.

Fixpoint prog_bind {A B} (f : A -> Prog B) (m : Prog A) : Prog B :=
  match m with
  | Ret a => f a
  | Do o k => Do o (fun a => prog_bind f (k a))
  end.
#[export] Instance prog_ret : MRet Prog := fun A => Ret.
#[export] Instance prog_mbind : MBind Prog := fun A B => prog_bind.

Definition do_z (o : op) : Prog Z := Do o (fun a => Ret (a_z a)).
Definition do_ (o : op) : Prog unit := Do o (fun _ => Ret tt).
Definition ask (q : question) : Prog Z := do_z (OAsk q).
Definition load_hdr (copy : Z) : Prog WalIndexHdr := Do (OLoadHdr copy) (fun a => Ret (a_hdr a)).
Definition os_read (f : file) (off : Z) : Prog (Z * list Z) := Do (ORead f off) (fun a => Ret (a_z a, a_data a)).

(** ** A connection *)

(** The fields of Wal that these operations use. *)
Record Conn := { c_hdr : WalIndexHdr; c_readLock : Z; c_writeLock : Z; c_readOnly : Z; c_nCkpt : Z; c_truncate : Z; c_mxWalSize : Z; c_iCallback : Z }.
Definition set_c_hdr (x : Conn) (h : WalIndexHdr) : Conn :=
  {| c_hdr := h; c_readLock := c_readLock x; c_writeLock := c_writeLock x; c_readOnly := c_readOnly x; c_nCkpt := c_nCkpt x; c_truncate := c_truncate x;
     c_mxWalSize := c_mxWalSize x; c_iCallback := c_iCallback x |}.
Definition set_c_read (x : Conn) (k : Z) : Conn :=
  {| c_hdr := c_hdr x; c_readLock := k; c_writeLock := c_writeLock x; c_readOnly := c_readOnly x; c_nCkpt := c_nCkpt x; c_truncate := c_truncate x;
     c_mxWalSize := c_mxWalSize x; c_iCallback := c_iCallback x |}.
Definition set_c_write (x : Conn) (v : Z) : Conn :=
  {| c_hdr := c_hdr x; c_readLock := c_readLock x; c_writeLock := v; c_readOnly := c_readOnly x; c_nCkpt := c_nCkpt x; c_truncate := c_truncate x;
     c_mxWalSize := c_mxWalSize x; c_iCallback := c_iCallback x |}.
Definition set_c_log (x : Conn) (nCkpt truncate cb : Z) : Conn :=
  {| c_hdr := c_hdr x; c_readLock := c_readLock x; c_writeLock := c_writeLock x; c_readOnly := c_readOnly x; c_nCkpt := nCkpt; c_truncate := truncate;
     c_mxWalSize := c_mxWalSize x; c_iCallback := cb |}.

Definition walLockShared (lockIdx : Z) : Prog Z := do_z (OShmLock false lockIdx 1).
Definition walUnlockShared (lockIdx : Z) : Prog unit := do_ (OShmUnlock lockIdx 1).
Definition walLockExclusive (lockIdx n : Z) : Prog Z := do_z (OShmLock true lockIdx n).
Definition walUnlockExclusive (lockIdx n : Z) : Prog unit := do_ (OShmUnlock lockIdx n).

(** ** The header *)

(** The header [walIndexWriteHdr] stores. *)
Definition seal (h : WalIndexHdr) : WalIndexHdr :=
  (walIndexWriteHdr h {| aHdr0 := h; aHdr1 := h; ckpt := {| nBackfill := 0; aReadMark := [] |}; tables := ∅ |}).1.
Definition write_hdr (x : Conn) : Prog Conn :=
  let h := seal (c_hdr x) in
  do_ (OStoreHdr 1 h);;
  do_ (OStoreHdr 0 h);;
  mret (set_c_hdr x h).

(** [walIndexTryHdr]: bad or not, and [*pChanged]. *)
Definition try_hdr (x : Conn) (changed : bool) : Prog (bool * bool * Conn) :=
  h1 ← load_hdr 0;
  h2 ← load_hdr 1;
  let '(bad, ch, h, _) := walIndexTryHdr (c_hdr x) 0 h1 h2 in
  mret (negb (bad =? 0), changed || ch, set_c_hdr x h).

Definition walIndexReadHdr (x : Conn) : Prog (Z * bool * Conn) :=
  rc ← ask QMap;
  if negb (rc =? SQLITE_OK) then mret (rc, false, x)
  else
    '(badHdr, changed, x) ← try_hdr x false;
    '(rc, badHdr, changed, x) ←
      (if (badHdr : bool) then
         if negb (c_readOnly x .& WAL_SHM_RDONLY =? 0) then
           rc ← walLockShared WAL_WRITE_LOCK;
           if rc =? SQLITE_OK then walUnlockShared WAL_WRITE_LOCK;; mret (SQLITE_READONLY_RECOVERY, badHdr, changed, x)
           else mret (rc, badHdr, changed, x)
         else
           rc ← walLockExclusive WAL_WRITE_LOCK 1;
           if rc =? SQLITE_OK then
             rc ← ask QMap;
             '(rc, badHdr, changed, x) ←
               (if rc =? SQLITE_OK then
                  '(badHdr, changed, x) ← try_hdr x changed;
                  if (badHdr : bool) then rc ← do_z ORecover; mret (rc, badHdr, true, x) else mret (rc, badHdr, changed, x)
                else mret (rc, badHdr, changed, x));
             walUnlockExclusive WAL_WRITE_LOCK 1;;
             mret (rc, badHdr, changed, x)
           else mret (rc, badHdr, changed, x)
       else mret (rc, badHdr, changed, x));
    let rc := if negb badHdr && negb (iVersion (c_hdr x) =? WALINDEX_MAX_VERSION) then SQLITE_CANTOPEN else rc in
    mret (rc, changed, x).

(** ** Read transactions *)

(** The largest mark that does not exceed [mxFrame], and its slot. *)
Fixpoint find_mark (n : nat) (i mxFrame mxReadMark mxI : Z) : Prog (Z * Z) :=
  match n with
  | O => mret (mxReadMark, mxI)
  | S n =>
      thisMark ← do_z (OLoadMark i);
      if (mxReadMark <=? thisMark) && (thisMark <=? mxFrame) then find_mark n (i + 1) mxFrame thisMark i
      else find_mark n (i + 1) mxFrame mxReadMark mxI
  end.

(** The loop that sets a free mark to [mxFrame]; the flag says that the code returns [rc] at once. *)
Fixpoint claim_mark (n : nat) (i mxFrame rc mxReadMark mxI : Z) : Prog (bool * Z * Z * Z) :=
  match n with
  | O => mret (false, rc, mxReadMark, mxI)
  | S n =>
      rc ← walLockExclusive (WAL_READ_LOCK i) 1;
      if rc =? SQLITE_OK then
        do_ (OStoreMark i mxFrame);;
        walUnlockExclusive (WAL_READ_LOCK i) 1;;
        mret (false, rc, mxFrame, i)
      else if negb (rc =? SQLITE_BUSY) then mret (true, rc, mxReadMark, mxI)
      else claim_mark n (i + 1) mxFrame rc mxReadMark mxI
  end.

(** The second half of [walTryBeginRead], which uses the log. *)
Definition begin_with_log (x : Conn) (rc : Z) : Prog (Z * Conn) :=
  let mx := mxFrame (c_hdr x) in
  '(mxReadMark, mxI) ← find_mark 4 1 mx 0 0;
  '(stop, rc, mxReadMark, mxI) ←
    (if (c_readOnly x .& WAL_SHM_RDONLY =? 0) && ((mxReadMark <? mx) || (mxI =? 0)) then claim_mark 4 1 mx rc mxReadMark mxI
     else mret (false, rc, mxReadMark, mxI));
  if (stop : bool) then mret (rc, x)
  else if mxI =? 0 then mret (if rc =? SQLITE_BUSY then WAL_RETRY else SQLITE_READONLY_CANTLOCK, x)
  else
    rc ← walLockShared (WAL_READ_LOCK mxI);
    if negb (rc =? SQLITE_OK) then mret (if rc =? SQLITE_BUSY then WAL_RETRY else rc, x)
    else
      mark ← do_z (OLoadMark mxI);
      if negb (mark =? mxReadMark) then walUnlockShared (WAL_READ_LOCK mxI);; mret (WAL_RETRY, x)
      else
        h ← load_hdr 0;
        if negb (bool_decide (h = c_hdr x)) then walUnlockShared (WAL_READ_LOCK mxI);; mret (WAL_RETRY, x)
        else mret (rc, set_c_read x mxI).

(** The result code, [*pChanged] and the connection. *)
Definition walTryBeginRead (x : Conn) (useWal : bool) (cnt : Z) : Prog (Z * bool * Conn) :=
  if (5 <? cnt) && (100 <? cnt) then mret (SQLITE_PROTOCOL, false, x)
  else
    '(rc, changed, x) ←
      (if useWal then mret (SQLITE_OK, false, x)
       else
         '(rc, changed, x) ← walIndexReadHdr x;
         if rc =? SQLITE_BUSY then
           mapped ← ask QMapped;
           if mapped =? 0 then mret (WAL_RETRY, changed, x)
           else
             rc ← walLockShared WAL_RECOVER_LOCK;
             if rc =? SQLITE_OK then walUnlockShared WAL_RECOVER_LOCK;; mret (WAL_RETRY, changed, x)
             else mret (if rc =? SQLITE_BUSY then SQLITE_BUSY_RECOVERY else rc, changed, x)
         else mret (rc, changed, x));
    if negb (rc =? SQLITE_OK) then mret (rc, changed, x)
    else
      nb ← (if useWal then mret (-1) else do_z OLoadBackfill);
      if negb useWal && (nb =? mxFrame (c_hdr x)) then
        rc ← walLockShared (WAL_READ_LOCK 0);
        if rc =? SQLITE_OK then
          h ← load_hdr 0;
          if negb (bool_decide (h = c_hdr x)) then walUnlockShared (WAL_READ_LOCK 0);; mret (WAL_RETRY, changed, x)
          else mret (SQLITE_OK, changed, set_c_read x 0)
        else if negb (rc =? SQLITE_BUSY) then mret (rc, changed, x)
        else '(rc, x) ← begin_with_log x rc; mret (rc, changed, x)
      else '(rc, x) ← begin_with_log x rc; mret (rc, changed, x).

(** [do{ }while( rc==WAL_RETRY )], with [n] attempts to go; [cnt] attempts were made. *)
Fixpoint begin_loop (n : nat) (x : Conn) (useWal changed : bool) (cnt : Z) : Prog (Z * bool * Conn) :=
  match n with
  | O => mret (WAL_RETRY, changed, x)
  | S n =>
      let cnt := cnt + 1 in
      '(rc, ch, x) ← walTryBeginRead x useWal cnt;
      if rc =? WAL_RETRY then begin_loop n x useWal (changed || ch) cnt else mret (rc, changed || ch, x)
  end.
(** The attempt with [cnt] 101 gives up. *)
Definition sqlite3WalBeginReadTransaction (x : Conn) : Prog (Z * bool * Conn) := begin_loop 101 x false false 0.

(** ** Write transactions *)

Definition sqlite3WalBeginWriteTransaction (x : Conn) : Prog (Z * Conn) :=
  if negb (c_readOnly x =? 0) then mret (SQLITE_READONLY, x)
  else
    rc ← walLockExclusive WAL_WRITE_LOCK 1;
    if negb (rc =? SQLITE_OK) then mret (rc, x)
    else
      h ← load_hdr 0;
      if negb (bool_decide (c_hdr x = h)) then walUnlockExclusive WAL_WRITE_LOCK 1;; mret (SQLITE_BUSY_SNAPSHOT, x)
      else mret (rc, set_c_write x 1).

Definition sqlite3WalEndWriteTransaction (x : Conn) : Prog Conn :=
  if negb (c_writeLock x =? 0) then
    walUnlockExclusive WAL_WRITE_LOCK 1;;
    mret (set_c_log (set_c_write x 0) (c_nCkpt x) 0 (c_iCallback x))
  else mret x.

Definition sqlite3WalEndReadTransaction (x : Conn) : Prog Conn :=
  x ← sqlite3WalEndWriteTransaction x;
  if 0 <=? c_readLock x then walUnlockShared (WAL_READ_LOCK (c_readLock x));; mret (set_c_read x (-1))
  else mret x.

(** [sqlite3WalUndo]; the callback concerns the cache of the connection only. *)
Definition undo (x : Conn) : Prog Conn :=
  if negb (c_writeLock x =? 0) then
    let iMax := mxFrame (c_hdr x) in
    h ← load_hdr 0;
    let x := set_c_hdr x h in
    if negb (iMax =? mxFrame h) then do_ (OIndexCleanup (mxFrame h));; mret x else mret x
  else mret x.

(** [for(i=2; i<WAL_NREADER; i++)] *)
Fixpoint clear_marks (n : nat) (i : Z) : Prog unit :=
  match n with
  | O => mret tt
  | S n => do_ (OStoreMark i READMARK_NOT_USED);; clear_marks n (i + 1)
  end.

(** The header with which the log restarts. *)
Definition restart_hdr (h : WalIndexHdr) (salt1 : Z) : WalIndexHdr :=
  {| iVersion := iVersion h; unused := unused h; iChange := iChange h; isInit := isInit h; bigEndCksum := bigEndCksum h; hszPage := hszPage h;
     mxFrame := 0; nPage := nPage h; aFrameCksum := aFrameCksum h; aSalt := be4 (u32 (1 + get4 (aSalt h) 0)) ++ le4 salt1; aCksum := aCksum h |}.

Definition walRestartLog (x : Conn) : Prog (Z * Conn) :=
  if c_readLock x =? 0 then
    nb ← do_z OLoadBackfill;
    '(stop, rc, x) ←
      (if 0 <? nb then
         salt1 ← ask QRandom;
         rc ← walLockExclusive (WAL_READ_LOCK 1) (WAL_NREADER - 1);
         if rc =? SQLITE_OK then
           x ← write_hdr (set_c_hdr (set_c_log x (u32 (c_nCkpt x + 1)) (c_truncate x) (c_iCallback x)) (restart_hdr (c_hdr x) salt1));
           do_ (OStoreBackfill 0);;
           do_ (OStoreMark 1 0);;
           clear_marks 3 2;;
           walUnlockExclusive (WAL_READ_LOCK 1) (WAL_NREADER - 1);;
           mret (false, rc, x)
         else if negb (rc =? SQLITE_BUSY) then mret (true, rc, x)
         else mret (false, rc, x)
       else mret (false, SQLITE_OK, x));
    if (stop : bool) then mret (rc, x)
    else
      walUnlockShared (WAL_READ_LOCK 0);;
      '(rc, _, x) ← begin_loop 101 (set_c_read x (-1)) true false 0;
      mret (rc, x)
  else mret (SQLITE_OK, x).

(** The header of the log. *)
Definition write_log_header (x : Conn) (szPage sync_flags : Z) : Prog (Z * Conn) :=
  salt ← (if c_nCkpt x =? 0 then s1 ← ask QRandom; s2 ← ask QRandom; mret (le4 s1 ++ le4 s2) else mret (aSalt (c_hdr x)));
  let aWalHdr := wal_base szPage (c_nCkpt x) salt in
  let aCksum := walChecksumBytes true aWalHdr None in
  let h := c_hdr x in
  let h := {| iVersion := iVersion h; unused := unused h; iChange := iChange h; isInit := isInit h; bigEndCksum := SQLITE_BIGENDIAN; hszPage := hszPage h;
              mxFrame := mxFrame h; nPage := nPage h; aFrameCksum := aCksum; aSalt := salt; WalLog.aCksum := WalLog.aCksum h |} in
  let x := set_c_log (set_c_hdr x h) (c_nCkpt x) 1 (c_iCallback x) in
  rc ← do_z (OWrite LogFile (aWalHdr ++ be4 aCksum.1 ++ be4 aCksum.2) 0);
  if negb (rc =? SQLITE_OK) then mret (rc, x)
  else if negb (sync_flags =? 0) then rc ← ask (QSync LogFile); mret (rc, x)
  else mret (rc, x).

(** [for(p=pList; p; p=p->pDirty)] with [walWriteOneFrame]. *)
Fixpoint write_pages (x : Conn) (szPage : Z) (isCommit : bool) (nTruncate : Z) (pList : list PgHdr) (iOffset : Z) : Prog (Z * Conn) :=
  match pList with
  | [] => mret (SQLITE_OK, x)
  | p :: pDirty =>
      let nDbSize := if isCommit && match pDirty with [] => true | _ => false end then nTruncate else 0 in
      let '(aFrame, h) := walEncodeFrame (c_hdr x) (pgno p) nDbSize (pData p) in
      let x := set_c_hdr x h in
      rc ← do_z (OWrite LogFile aFrame iOffset);
      if negb (rc =? SQLITE_OK) then mret (rc, x)
      else
        rc ← do_z (OWrite LogFile (pData p) (iOffset + WAL_FRAME_HDRSIZE));
        if negb (rc =? SQLITE_OK) then mret (rc, x)
        else write_pages x szPage isCommit nTruncate pDirty (iOffset + (szPage + WAL_FRAME_HDRSIZE))
  end.

Fixpoint append_pages (pList : list PgHdr) (iFrame : Z) : Prog (Z * Z) :=
  match pList with
  | [] => mret (SQLITE_OK, iFrame)
  | p :: pDirty =>
      let iFrame := iFrame + 1 in
      rc ← do_z (OIndexAppend iFrame (pgno p));
      if negb (rc =? SQLITE_OK) then mret (rc, iFrame) else append_pages pDirty iFrame
  end.

(** The truncation of the log to the journal size limit. *)
Definition limit_size (x : Conn) (szPage iFrame : Z) (isCommit : bool) : Prog Conn :=
  if isCommit && negb (c_truncate x =? 0) && (0 <=? c_mxWalSize x) then
    let sz := if c_mxWalSize x <? walFrameOffset (iFrame + 1) szPage then walFrameOffset (iFrame + 1) szPage else c_mxWalSize x in
    size ← ask (QSize LogFile);
    (if sz <? size then do_ (OTruncate LogFile sz) else mret tt);;
    mret (set_c_log x (c_nCkpt x) 0 (c_iCallback x))
  else mret x.

Definition sqlite3WalFrames (x : Conn) (szPage : Z) (pList : list PgHdr) (nTruncate : Z) (isCommit : bool) (sync_flags : Z) : Prog (Z * Conn) :=
  '(rc, x) ← walRestartLog x;
  if negb (rc =? SQLITE_OK) then mret (rc, x)
  else
    let iFrame := mxFrame (c_hdr x) in
    '(rc, x) ← (if iFrame =? 0 then write_log_header x szPage sync_flags else mret (SQLITE_OK, x));
    if negb (rc =? SQLITE_OK) then mret (rc, x)
    else
      '(rc, x) ← write_pages x szPage isCommit nTruncate pList (walFrameOffset (iFrame + 1) szPage);
      if negb (rc =? SQLITE_OK) then mret (rc, x)
      else
        rc ← (if isCommit && negb (sync_flags .& WAL_SYNC_TRANSACTIONS =? 0) then ask (QSync LogFile) else mret SQLITE_OK);
        x ← limit_size x szPage (iFrame + Z.of_nat (length pList)) isCommit;
        '(rc, iFrame) ← (if rc =? SQLITE_OK then append_pages pList iFrame else mret (rc, iFrame));
        if negb (rc =? SQLITE_OK) then mret (rc, x)
        else
          let x := set_c_hdr x (frames_hdr (c_hdr x) szPage iFrame isCommit nTruncate) in
          if isCommit then x ← write_hdr x; mret (rc, set_c_log x (c_nCkpt x) (c_truncate x) iFrame)
          else mret (rc, x).

(** ** Checkpoints *)

(** [fuel] bounds the number of times that the busy handler asks for another attempt. *)
Fixpoint walBusyLock (fuel : nat) (xBusy : bool) (lockIdx n : Z) : Prog Z :=
  rc ← walLockExclusive lockIdx n;
  if xBusy && (rc =? SQLITE_BUSY) then
    again ← ask QBusy;
    if again =? 0 then mret rc
    else match fuel with O => mret rc | S fuel => walBusyLock fuel xBusy lockIdx n end
  else mret rc.

Definition walPagesize (h : WalIndexHdr) : Z := (hszPage h .& 0xfe00) + ((hszPage h .& 0x0001) << 16).

(** The loop that computes [mxSafeFrame]: whether to go to the end, [rc], [mxSafeFrame] and [xBusy]. *)
Fixpoint scan_readers (fuel n : nat) (i rc mxSafeFrame : Z) (xBusy : bool) : Prog (bool * Z * Z * bool) :=
  match n with
  | O => mret (false, rc, mxSafeFrame, xBusy)
  | S n =>
      y ← do_z (OLoadMark i);
      if y <? mxSafeFrame then
        rc ← walBusyLock fuel xBusy (WAL_READ_LOCK i) 1;
        if rc =? SQLITE_OK then
          do_ (OStoreMark i (if i =? 1 then mxSafeFrame else READMARK_NOT_USED));;
          walUnlockExclusive (WAL_READ_LOCK i) 1;;
          scan_readers fuel n (i + 1) rc mxSafeFrame xBusy
        else if rc =? SQLITE_BUSY then scan_readers fuel n (i + 1) rc y false
        else mret (true, rc, mxSafeFrame, xBusy)
      else scan_readers fuel n (i + 1) rc mxSafeFrame xBusy
  end.

(** The loop over the iterator that copies pages to the database. *)
Fixpoint backfill_loop (l : list (Z * Z)) (szPage nBackfill mxSafeFrame mxPage : Z) : Prog Z :=
  match l with
  | [] => mret SQLITE_OK
  | (iDbpage, iFrame) :: l =>
      if (iFrame <=? nBackfill) || (mxSafeFrame <? iFrame) || (mxPage <? iDbpage) then backfill_loop l szPage nBackfill mxSafeFrame mxPage
      else
        '(rc, zBuf) ← os_read LogFile (walFrameOffset iFrame szPage + WAL_FRAME_HDRSIZE);
        if negb (rc =? SQLITE_OK) then mret rc
        else
          rc ← do_z (OWrite DbFile zBuf ((iDbpage - 1) * szPage));
          if negb (rc =? SQLITE_OK) then mret rc else backfill_loop l szPage nBackfill mxSafeFrame mxPage
  end.

(** The part under the lock on slot 0. *)
Definition backfill (h : WalIndexHdr) (l : list (Z * Z)) (szPage mxSafeFrame mxPage sync_flags : Z) : Prog Z :=
  nBackfill ← do_z OLoadBackfill;
  rc ← (if negb (sync_flags =? 0) then ask (QSync LogFile) else mret SQLITE_OK);
  rc ← (if rc =? SQLITE_OK then ask (QSize DbFile) else mret rc);
  rc ← (if rc =? SQLITE_OK then backfill_loop l szPage nBackfill mxSafeFrame mxPage else mret rc);
  rc ← (if rc =? SQLITE_OK then
          cur ← load_hdr 0;
          rc ← (if mxSafeFrame =? mxFrame cur then
                  rc ← do_z (OTruncate DbFile (nPage h * szPage));
                  if (rc =? SQLITE_OK) && negb (sync_flags =? 0) then ask (QSync DbFile) else mret rc
                else mret rc);
          (if rc =? SQLITE_OK then do_ (OStoreBackfill mxSafeFrame) else mret tt);;
          mret rc
        else mret rc);
  walUnlockExclusive (WAL_READ_LOCK 0) 1;;
  mret rc.

(** [fuel] is for the busy handler. *)
Definition walCheckpoint (fuel : nat) (h : WalIndexHdr) (eMode : Z) (xBusyCall : bool) (sync_flags : Z) : Prog Z :=
  let szPage := walPagesize h in
  nb ← do_z OLoadBackfill;
  if mxFrame h <=? nb then mret SQLITE_OK
  else
    '(rc, l) ← Do (OIterator (mxFrame h)) (fun a => Ret (a_z a, a_list a));
    if negb (rc =? SQLITE_OK) then mret rc
    else
      let xBusy := if eMode =? SQLITE_CHECKPOINT_PASSIVE then false else xBusyCall in
      '(stop, rc, mxSafeFrame, xBusy) ← scan_readers fuel 4 1 rc (mxFrame h) xBusy;
      if (stop : bool) then mret rc
      else
        nb ← do_z OLoadBackfill;
        rc ← (if nb <? mxSafeFrame then
                rc ← walBusyLock fuel xBusy (WAL_READ_LOCK 0) 1;
                if rc =? SQLITE_OK then backfill h l szPage mxSafeFrame (nPage h) sync_flags else mret rc
              else mret rc);
        let rc := if rc =? SQLITE_BUSY then SQLITE_OK else rc in
        if (rc =? SQLITE_OK) && negb (eMode =? SQLITE_CHECKPOINT_PASSIVE) then
          nb ← do_z OLoadBackfill;
          if nb <? mxFrame h then mret SQLITE_BUSY
          else if eMode =? SQLITE_CHECKPOINT_RESTART then
            rc ← walBusyLock fuel xBusy (WAL_READ_LOCK 1) (WAL_NREADER - 1);
            (if rc =? SQLITE_OK then walUnlockExclusive (WAL_READ_LOCK 1) (WAL_NREADER - 1) else mret tt);;
            mret rc
          else mret rc
        else mret rc.

(** The result code, [*pnLog] and [*pnCkpt] when they are set, and the connection. *)
Definition sqlite3WalCheckpoint (fuel : nat) (x : Conn) (eMode : Z) (xBusy : bool) (sync_flags nBuf : Z) : Prog (Z * option (Z * Z) * Conn) :=
  if negb (c_readOnly x =? 0) then mret (SQLITE_READONLY, None, x)
  else
    rc ← walLockExclusive WAL_CKPT_LOCK 1;
    if negb (rc =? SQLITE_OK) then mret (rc, None, x)
    else
      '(rc, eMode2, x) ←
        (if negb (eMode =? SQLITE_CHECKPOINT_PASSIVE) then
           rc ← walBusyLock fuel xBusy WAL_WRITE_LOCK 1;
           if rc =? SQLITE_OK then mret (rc, eMode, set_c_write x 1)
           else if rc =? SQLITE_BUSY then mret (SQLITE_OK, SQLITE_CHECKPOINT_PASSIVE, x)
           else mret (rc, eMode, x)
         else mret (rc, eMode, x));
      '(rc, changed, x) ← (if rc =? SQLITE_OK then walIndexReadHdr x else mret (rc, false, x));
      '(rc, out) ←
        (if rc =? SQLITE_OK then
           rc ← (if negb (mxFrame (c_hdr x) =? 0) && negb (walPagesize (c_hdr x) =? nBuf) then mret SQLITE_CORRUPT
                 else walCheckpoint fuel (c_hdr x) eMode2 xBusy sync_flags);
           if (rc =? SQLITE_OK) || (rc =? SQLITE_BUSY) then nb ← do_z OLoadBackfill; mret (rc, Some (mxFrame (c_hdr x), nb))
           else mret (rc, None)
         else mret (rc, None));
      let x := if (changed : bool) then set_c_hdr x zero_hdr else x in
      x ← sqlite3WalEndWriteTransaction x;
      walUnlockExclusive WAL_CKPT_LOCK 1;;
      mret (if (rc =? SQLITE_OK) && negb (eMode =? eMode2) then SQLITE_BUSY else rc, out, x).

Definition sqlite3WalCallback (x : Conn) : Z * Conn := (c_iCallback x, set_c_log x (c_nCkpt x) (c_truncate x) 0).
