(* ===== verification/WalSys.v ===== *)
(** The system of connections that share a database in WAL mode.

    [World] is what they share. The steps of any number of connections that run the operations of WalTrans.v interleave
    ([sys_step]). Files are kept as blocks by their byte offset, since every part of a file is always written whole. *)
From S2P Require Import Prelude WalHash WalIter WalLog WalWrite WalTrans.
Local Open Scope Z_scope.
Local Open Scope c_scope.

Abbreviation block := (list Z).
Abbreviation pages := (gmap Z (list Z)).

(** ** The shared state *)

(** [w_locks] are the locks of a connection on a slot (true for an exclusive one); [w_index] the page numbers of the frames in the wal-index, which
    WalHash.v relates to the hash tables. [w_commits] is a history variable: the headers that were published, each with the database it stands for. *)
Record World := {
  w_locks : gmap (Z * Z) bool; w_hdr0 : WalIndexHdr; w_hdr1 : WalIndexHdr; w_backfill : Z; w_marks : list Z; w_index : list Z;
  w_log : gmap Z block; w_db : gmap Z block; w_commits : list (WalIndexHdr * pages) }.

Definition set_locks (w : World) (l : gmap (Z * Z) bool) : World :=
  {| w_locks := l; w_hdr0 := w_hdr0 w; w_hdr1 := w_hdr1 w; w_backfill := w_backfill w; w_marks := w_marks w; w_index := w_index w; w_log := w_log w;
     w_db := w_db w; w_commits := w_commits w |}.
Definition set_hdr1 (w : World) (h : WalIndexHdr) : World :=
  {| w_locks := w_locks w; w_hdr0 := w_hdr0 w; w_hdr1 := h; w_backfill := w_backfill w; w_marks := w_marks w; w_index := w_index w; w_log := w_log w;
     w_db := w_db w; w_commits := w_commits w |}.
Definition set_hdr0 (w : World) (h : WalIndexHdr) (p : pages) : World :=
  {| w_locks := w_locks w; w_hdr0 := h; w_hdr1 := w_hdr1 w; w_backfill := w_backfill w; w_marks := w_marks w; w_index := w_index w; w_log := w_log w;
     w_db := w_db w; w_commits := w_commits w ++ [(h, p)] |}.
Definition set_info (w : World) (nb : Z) (m : list Z) : World :=
  {| w_locks := w_locks w; w_hdr0 := w_hdr0 w; w_hdr1 := w_hdr1 w; w_backfill := nb; w_marks := m; w_index := w_index w; w_log := w_log w;
     w_db := w_db w; w_commits := w_commits w |}.
Definition set_log (w : World) (ix : list Z) (lg : gmap Z block) : World :=
  {| w_locks := w_locks w; w_hdr0 := w_hdr0 w; w_hdr1 := w_hdr1 w; w_backfill := w_backfill w; w_marks := w_marks w; w_index := ix; w_log := lg;
     w_db := w_db w; w_commits := w_commits w |}.
Definition set_db (w : World) (db : gmap Z block) : World :=
  {| w_locks := w_locks w; w_hdr0 := w_hdr0 w; w_hdr1 := w_hdr1 w; w_backfill := w_backfill w; w_marks := w_marks w; w_index := w_index w; w_log := w_log w;
     w_db := db; w_commits := w_commits w |}.

(** The database that was committed last. *)
Definition latest (w : World) : pages := default ∅ (snd <$> last (w_commits w)).

(** A lock on slots [ofst] to [ofst+n-1] conflicts with no lock of another connection. *)
Definition grantable (l : gmap (Z * Z) bool) (c : Z) (exclusive : bool) (ofst n : Z) : Prop :=
  map_Forall (fun (k : Z * Z) e => k.1 = c \/ ~ (ofst <= k.2 < ofst + n) \/ (exclusive = false /\ e = false)) l.
Definition add_locks (l : gmap (Z * Z) bool) (c : Z) (exclusive : bool) (ofst n : Z) : gmap (Z * Z) bool :=
  foldr (fun s l => <[(c, s) := exclusive]> l) l (seqZ ofst n).
Definition drop_locks (l : gmap (Z * Z) bool) (c ofst n : Z) : gmap (Z * Z) bool := foldr (fun s l => delete (c, s) l) l (seqZ ofst n).

Lemma add_locks_lookup l c ex o n d s : add_locks l c ex o n !! (d, s) = if decide (d = c /\ o <= s < o + n) then Some ex else l !! (d, s).
Proof.
  unfold add_locks. transitivity (if decide (d = c /\ s ∈ seqZ o n) then Some ex else l !! (d, s)); [|apply decide_ext; rewrite elem_of_seqZ; done].
  induction (seqZ o n) as [|t ss IH]; cbn [foldr]; [by rewrite decide_False by (intros [_ H]; by apply not_elem_of_nil in H)|].
  destruct (decide ((c, t) = (d, s))) as [[= -> ->]|Hne]; [rewrite lookup_insert_eq, decide_True; [done|]; split; [done|left]|].
  rewrite lookup_insert_ne, IH by done. apply decide_ext. rewrite elem_of_cons. naive_solver.
Qed.
Lemma drop_locks_lookup l c o n d s : drop_locks l c o n !! (d, s) = if decide (d = c /\ o <= s < o + n) then None else l !! (d, s).
Proof.
  unfold drop_locks. transitivity (if decide (d = c /\ s ∈ seqZ o n) then None else l !! (d, s)); [|apply decide_ext; rewrite elem_of_seqZ; done].
  induction (seqZ o n) as [|t ss IH]; cbn [foldr]; [by rewrite decide_False by (intros [_ H]; by apply not_elem_of_nil in H)|].
  destruct (decide ((c, t) = (d, s))) as [[= -> ->]|Hne]; [rewrite lookup_delete_eq, decide_True; [done|]; split; [done|left]|].
  rewrite lookup_delete_ne, IH by done. apply decide_ext. rewrite elem_of_cons. naive_solver.
Qed.

Section system.
Context (sz : Z).   (* the page size of the database *)

(** Where the content of a frame is in the log, and a page in the database. *)
Definition frame_pos (i : Z) : Z := walFrameOffset i sz + WAL_FRAME_HDRSIZE.
Definition page_pos (pg : Z) : Z := (pg - 1) * sz.

Definition apply_frame (w : World) (m : pages) (i : Z) : pages :=
  match w_index w !! Z.to_nat (i - 1) with Some pg => partial_alter (fun _ => w_log w !! frame_pos i) pg m | None => m end.
(** The committed database with the frames behind the last commit up to that of [h]; a commit with [h] cuts it to the size of [h]. *)
Definition in_progress (w : World) (h : WalIndexHdr) : pages :=
  foldl (apply_frame w) (latest w) (seqZ (mxFrame (w_hdr0 w) + 1) (mxFrame h - mxFrame (w_hdr0 w))).
Definition applied (w : World) (h : WalIndexHdr) : pages := filter (fun kv => kv.1 <= nPage h) (in_progress w h).

Definition ans0 : Ans := {| a_z := 0; a_hdr := zero_hdr; a_data := []; a_list := [] |}.
Definition ans_z (z : Z) : Ans := {| a_z := z; a_hdr := zero_hdr; a_data := []; a_list := [] |}.

(** An access of connection [c]. [ch] is what the environment decides: the answer to a question; otherwise nonzero for a failure with this code, of which
    [junk] tells the damage. *)
Definition exec_op (c : Z) (w : World) (o : op) (ch : Z) (junk : option block) : Ans * World :=
  match o with
  | OShmLock ex ofst n =>
      if negb (ch =? 0) then (ans_z ch, w)
      else if bool_decide (grantable (w_locks w) c ex ofst n) then (ans_z SQLITE_OK, set_locks w (add_locks (w_locks w) c ex ofst n))
      else (ans_z SQLITE_BUSY, w)
  | OShmUnlock ofst n => (ans0, set_locks w (drop_locks (w_locks w) c ofst n))
  | OLoadHdr copy => ({| a_z := 0; a_hdr := if copy =? 0 then w_hdr0 w else w_hdr1 w; a_data := []; a_list := [] |}, w)
  | OStoreHdr copy h => (ans0, if copy =? 0 then set_hdr0 w h (applied w h) else set_hdr1 w h)
  | OLoadBackfill => (ans_z (w_backfill w), w)
  | OStoreBackfill v => (ans0, set_info w v (w_marks w))
  | OLoadMark i => (ans_z (rd (w_marks w) i), w)
  | OStoreMark i v => (ans0, set_info w (w_backfill w) (wr (w_marks w) i v))
  | OIndexAppend iFrame pg => if ch =? 0 then (ans_z SQLITE_OK, set_log w (take (Z.to_nat (iFrame - 1)) (w_index w) ++ [pg]) (w_log w)) else (ans_z ch, w)
  | OIndexCleanup mx => (ans0, set_log w (take (Z.to_nat mx) (w_index w)) (w_log w))
  | OIterator mx => if ch =? 0 then ({| a_z := SQLITE_OK; a_hdr := zero_hdr; a_data := []; a_list := log_pages (w_index w) mx |}, w) else (ans_z ch, w)
  | ORead f off =>
      match (match f with LogFile => w_log w | DbFile => w_db w end) !! off with
      | Some d => if ch =? 0 then ({| a_z := SQLITE_OK; a_hdr := zero_hdr; a_data := d; a_list := [] |}, w) else (ans_z ch, w)
      | None => (ans_z SQLITE_IOERR, w)
      end
  | OWrite f d off =>
      let put m := if ch =? 0 then <[off := d]> m else partial_alter (fun _ => junk) off m in
      (ans_z ch, match f with LogFile => set_log w (w_index w) (put (w_log w)) | DbFile => set_db w (put (w_db w)) end)
  | OTruncate f size =>
      let cut m := if (ch =? 0) || bool_decide (junk <> None) then filter (fun kv => kv.1 < size) m else m in
      (ans_z ch, match f with LogFile => set_log w (w_index w) (cut (w_log w)) | DbFile => set_db w (cut (w_db w)) end)
  | ORecover => (ans_z ch, w)
  | OAsk _ => (ans_z ch, w)
  end.

(** ** Connections *)

Inductive call :=
| KBeginRead | KEndRead | KBeginWrite | KEndWrite | KUndo
| KFrames (pList : list PgHdr) (nTruncate : Z) (isCommit : bool) (sync_flags : Z)
| KCheckpoint (fuel : nat) (eMode : Z) (xBusy : bool) (sync_flags : Z).

(** What the pager guarantees: read before write transactions, the end of a write transaction after its commit or rollback only,
    checkpoints outside of transactions. *)
Definition call_ok (w : World) (x : Conn) (k : call) : Prop :=
  match k with
  | KBeginRead => c_readLock x < 0 /\ c_writeLock x = 0
  | KEndRead => True
  | KBeginWrite => 0 <= c_readLock x /\ c_writeLock x = 0
  | KEndWrite => c_writeLock x = 0 \/ c_hdr x = w_hdr0 w
  | KUndo => True
  | KFrames pl nT isCommit _ => c_writeLock x <> 0 /\ 0 <= c_readLock x /\ pl <> [] /\ Forall (dirty_ok sz) pl
  | KCheckpoint _ _ _ _ => c_readLock x < 0 /\ c_writeLock x = 0
  end.

Definition program (x : Conn) (k : call) : Prog (Z * Conn) :=
  match k with
  | KBeginRead => '(rc, _, x) ← sqlite3WalBeginReadTransaction x; mret (rc, x)
  | KEndRead => x ← sqlite3WalEndReadTransaction x; mret (SQLITE_OK, x)
  | KBeginWrite => sqlite3WalBeginWriteTransaction x
  | KEndWrite => x ← sqlite3WalEndWriteTransaction x; mret (SQLITE_OK, x)
  | KUndo => x ← undo x; mret (SQLITE_OK, x)
  | KFrames pl nT isCommit fl => sqlite3WalFrames x sz pl nT isCommit fl
  | KCheckpoint fuel eMode xBusy fl => '(rc, _, x) ← sqlite3WalCheckpoint fuel x eMode xBusy fl sz; mret (rc, x)
  end.

(** A connection between two operations, or in one. *)
Inductive status := Idle (x : Conn) | Running (p : Prog (Z * Conn)).
Definition State : Type := World * gmap Z status.

Definition new_conn (readOnly mxWalSize : Z) : Conn :=
  {| c_hdr := zero_hdr; c_readLock := -1; c_writeLock := 0; c_readOnly := readOnly; c_nCkpt := 0; c_truncate := 0; c_mxWalSize := mxWalSize; c_iCallback := 0 |}.

Inductive sys_step : State -> State -> Prop :=
| step_open w cs c ro mx : cs !! c = None -> sys_step (w, cs) (w, <[c := Idle (new_conn ro mx)]> cs)
| step_call w cs c x k : cs !! c = Some (Idle x) -> call_ok w x k -> sys_step (w, cs) (w, <[c := Running (program x k)]> cs)
| step_op w cs c o p ch junk : cs !! c = Some (Running (Do o p)) ->
    sys_step (w, cs) ((exec_op c w o ch junk).2, <[c := Running (p (exec_op c w o ch junk).1)]> cs)
| step_return w cs c rc x : cs !! c = Some (Running (Ret (rc, x))) -> sys_step (w, cs) (w, <[c := Idle x]> cs).

(** The wal-index right after recovery of an empty log. *)
Definition start (s : State) : Prop :=
  w_locks s.1 = ∅ /\ s.2 = ∅ /\ w_hdr1 s.1 = w_hdr0 s.1 /\ w_hdr0 s.1 = seal (w_hdr0 s.1) /\ mxFrame (w_hdr0 s.1) = 0 /\ w_backfill s.1 = 0 /\
  length (w_marks s.1) = 5%nat /\
  exists p, w_commits s.1 = [(w_hdr0 s.1, p)] /\ forall pg d, p !! pg = Some d -> 1 <= pg <= nPage (w_hdr0 s.1) /\ w_db s.1 !! page_pos pg = Some d.

(** The page a connection in a read transaction reads: sqlite3WalFindFrame, then the log or the database. *)
Definition reads (w : World) (x : Conn) (pg : Z) : option block :=
  let mx := mxFrame (c_hdr x) in
  let fr := if (mx =? 0) || (c_readLock x =? 0) then 0 else last_frame (w_index w) (Z.to_nat mx) pg in
  if fr =? 0 then w_db w !! page_pos pg else w_log w !! frame_pos fr.

(** No header was published twice, and no log is restarted (under the locks of all readers of the log) while another connection
    has the checkpoint lock. *)
Definition restarting (l : gmap (Z * Z) bool) (c : Z) : Prop := forall i, 1 <= i < WAL_NREADER -> l !! (c, WAL_READ_LOCK i) = Some true.
Definition apart (w : World) : Prop := forall c d, c <> d -> w_locks w !! (c, WAL_CKPT_LOCK) = Some true -> ~ restarting (w_locks w) d.
Definition good (w : World) : Prop := NoDup (map fst (w_commits w)) /\ apart w.

Definition sys_run : State -> State -> Prop := rtc (fun s s' => sys_step s s' /\ good s'.1).
End system.
