(* ===== verification/ShmLock.v ===== *)
(** Locks on the wal-index: unixShmLock of os_unix.c.

    The connections of a process to a database share a unixShmNode with one descriptor of the -shm file. The operating system has one set of record locks per process, so
    the masks in the unixShm objects tell which connection has which lock. The theorem at the end says that what unixShmLock does, over any implementation of the record locks
    that satisfies [PosixLocks] of LockSpec.v, is one of the things that a lock request on the wal-index can do in the system of WalSys.v. *)
From S2P Require Import Prelude Locks LockSpec LockTable WalHash WalLog WalTrans WalSys.
Local Open Scope Z_scope.
Local Open Scope c_scope.

Definition SQLITE_SHM_UNLOCK : Z := 1.
Definition SQLITE_SHM_LOCK : Z := 2.
Definition SQLITE_SHM_SHARED : Z := 4.
Definition SQLITE_SHM_EXCLUSIVE : Z := 8.
Definition SQLITE_SHM_NLOCK : Z := 8.
Definition UNIX_SHM_BASE : Z := (22 + SQLITE_SHM_NLOCK) * 4.
Definition UNIX_SHM_DMS : Z := UNIX_SHM_BASE + SQLITE_SHM_NLOCK.
Definition SQLITE_IOERR_SHMOPEN : Z := SQLITE_IOERR .| (18 << 8).

(** [s_conn] is the connection whose object this is. The list [pFirst] is in the order of the pointers [pNext]. *)
Record unixShm := { s_conn : Z; sharedMask : Z; exclMask : Z }.
Record unixShmNode := { n_h : Z; n_nRef : Z; pFirst : list unixShm }.

Definition set_masks (s : unixShm) (sh ex : Z) : unixShm := {| s_conn := s_conn s; sharedMask := sh; exclMask := ex |}.
Definition set_first (nd : unixShmNode) (l : list unixShm) : unixShmNode := {| n_h := n_h nd; n_nRef := n_nRef nd; pFirst := l |}.
(** The object of connection [c] after an assignment to its masks. *)
Definition assign (c : Z) (f : unixShm -> unixShm) (l : list unixShm) : list unixShm := map (fun s => if s_conn s =? c then f s else s) l.

Section lock.
Context {K : Type} `{PosixLocks K}.

(** [p] is the process; the result of fcntl is -1 when it fails. *)
Definition unixShmSystemLock (k : K) (p : Z) (nd : unixShmNode) (lockType : lock_type) (ofst n : Z) : Z * K :=
  if 0 <=? n_h nd then
    let '(e, k) := setlk k p {| l_type := lockType; l_start := ofst; l_len := n |} in
    let rc := if e =? 0 then 0 else -1 in
    (if negb (rc =? -1) then SQLITE_OK else SQLITE_BUSY, k)
  else (SQLITE_OK, k).

(** [for(pX=pShmNode->pFirst; pX; pX=pX->pNext){ if( pX==p ) continue; ... }] *)
Fixpoint sibling_masks (c : Z) (l : list unixShm) (allMask : Z) : Z :=
  match l with
  | [] => allMask
  | pX :: l => if s_conn pX =? c then sibling_masks c l allMask else sibling_masks c l (allMask .| sharedMask pX)
  end.
(** The loop of a shared request: [None] is the break with SQLITE_BUSY. *)
Fixpoint shared_masks (mask : Z) (l : list unixShm) (allShared : Z) : option Z :=
  match l with
  | [] => Some allShared
  | pX :: l => if negb (exclMask pX .& mask =? 0) then None else shared_masks mask l (allShared .| sharedMask pX)
  end.
(** The loop of an exclusive request: whether some connection is in the way. *)
Fixpoint any_lock (mask : Z) (l : list unixShm) : bool :=
  match l with
  | [] => false
  | pX :: l => if negb (exclMask pX .& mask =? 0) || negb (sharedMask pX .& mask =? 0) then true else any_lock mask l
  end.

Definition shm_mask (ofst n : Z) : Z := u16 ((1 << (ofst + n)) - (1 << ofst)).

Definition unixShmLock (k : K) (p : Z) (nd : unixShmNode) (c ofst n flags : Z) : Z * K * unixShmNode :=
  let mask := shm_mask ofst n in
  if negb (flags .& SQLITE_SHM_UNLOCK =? 0) then
    let allMask := sibling_masks c (pFirst nd) 0 in
    let '(rc, k) := if mask .& allMask =? 0 then unixShmSystemLock k p nd F_UNLCK (ofst + UNIX_SHM_BASE) n else (SQLITE_OK, k) in
    if rc =? SQLITE_OK then
      (rc, k, set_first nd (assign c (fun s => set_masks s (sharedMask s .& u16 (Z.lnot mask)) (exclMask s .& u16 (Z.lnot mask))) (pFirst nd)))
    else (rc, k, nd)
  else if negb (flags .& SQLITE_SHM_SHARED =? 0) then
    match shared_masks mask (pFirst nd) 0 with
    | None => (SQLITE_BUSY, k, nd)
    | Some allShared =>
        let '(rc, k) := if allShared .& mask =? 0 then unixShmSystemLock k p nd F_RDLCK (ofst + UNIX_SHM_BASE) n else (SQLITE_OK, k) in
        if rc =? SQLITE_OK then (rc, k, set_first nd (assign c (fun s => set_masks s (sharedMask s .| mask) (exclMask s)) (pFirst nd))) else (rc, k, nd)
    end
  else if any_lock mask (pFirst nd) then (SQLITE_BUSY, k, nd)
  else
    let '(rc, k) := unixShmSystemLock k p nd F_WRLCK (ofst + UNIX_SHM_BASE) n in
    if rc =? SQLITE_OK then (rc, k, set_first nd (assign c (fun s => set_masks s (sharedMask s) (exclMask s .| mask)) (pFirst nd))) else (rc, k, nd).

(** The end of unixOpenSharedMemory: a new connection becomes a child of the node. *)
Definition shm_link (nd : unixShmNode) (c : Z) : unixShmNode :=
  {| n_h := n_h nd; n_nRef := n_nRef nd + 1; pFirst := {| s_conn := c; sharedMask := 0; exclMask := 0 |} :: pFirst nd |}.
(** A new node in a process, with the dead-man switch on the opened descriptor [fd]. [trunc] tells whether robust_ftruncate fails; the wal-index itself is in WalSys.v. *)
Definition shm_node (k : K) (p fd : Z) (trunc : bool) : Z * option unixShmNode * K :=
  let nd := {| n_h := fd; n_nRef := 0; pFirst := [] |} in
  let '(rc, k) := unixShmSystemLock k p nd F_WRLCK UNIX_SHM_DMS 1 in
  let rc := if rc =? SQLITE_OK then if trunc then SQLITE_IOERR_SHMOPEN else SQLITE_OK else SQLITE_OK in
  let '(rc, k) := if rc =? SQLITE_OK then unixShmSystemLock k p nd F_RDLCK UNIX_SHM_DMS 1 else (rc, k) in
  if negb (rc =? 0) then (rc, None, closefd k p fd) else (rc, Some nd, k).
(** [o] is the node of the process if it has one. A failure before the file is open changes nothing. *)
Definition unixOpenSharedMemory (k : K) (p : Z) (o : option unixShmNode) (c fd : Z) (trunc : bool) : Z * option unixShmNode * K :=
  let '(rc, o, k) := match o with Some nd => (SQLITE_OK, Some nd, k) | None => shm_node k p fd trunc end in
  (rc, (fun nd => shm_link nd c) <$> o, k).
(** Closing a connection; [None] when the node is purged. Deleting the file is not modelled. *)
Definition unixShmUnmap (k : K) (p : Z) (nd : unixShmNode) (c : Z) : option unixShmNode * K :=
  let nd := {| n_h := n_h nd; n_nRef := n_nRef nd - 1; pFirst := filter (fun s => s_conn s <> c) (pFirst nd) |} in
  if n_nRef nd =? 0 then (None, if 0 <=? n_h nd then closefd k p (n_h nd) else k) else (Some nd, k).
End lock.

(** * Masks *)

Lemma mask_bit ofst n s : 0 <= ofst -> 0 <= n -> ofst + n <= SQLITE_SHM_NLOCK -> 0 <= s -> Z.testbit (shm_mask ofst n) s = (ofst <=? s) && (s <? ofst + n).
Proof.
  unfold SQLITE_SHM_NLOCK. intros Ho Hn Hle Hs. unfold shm_mask. rewrite !Z.shiftl_1_l.
  assert (2 ^ (ofst + n) - 2 ^ ofst = Z.shiftl (Z.ones n) ofst) as -> by (rewrite Z.shiftl_mul_pow2, Z.ones_equiv, Z.pow_add_r by lia; lia).
  rewrite testbit_uwrap, Z.shiftl_spec by lia. destruct (Z.leb_spec ofst s).
  - destruct (Z.ltb_spec s (ofst + n)); [rewrite Z.ones_spec_low by lia|rewrite Z.ones_spec_high by lia]; [|by rewrite andb_false_r]. by rewrite (proj2 (Z.ltb_lt s 16)) by lia.
  - rewrite Z.testbit_neg_r by lia. by rewrite andb_false_r.
Qed.
Lemma mask_zero e ofst n : 0 <= ofst -> 0 <= n -> ofst + n <= SQLITE_SHM_NLOCK ->
  (e .& shm_mask ofst n =? 0) = true <-> forall s, ofst <= s < ofst + n -> Z.testbit e s = false.
Proof.
  intros Ho Hn Hle. rewrite Z.eqb_eq. split.
  - intros E s Hs. apply (f_equal (fun y => Z.testbit y s)) in E. rewrite Z.land_spec, Z.bits_0, mask_bit in E by lia.
    rewrite (proj2 (Z.leb_le ofst s)), (proj2 (Z.ltb_lt s (ofst + n))), !andb_true_r in E by lia. done.
  - intros H. apply Z.bits_inj'. intros s Hs. rewrite Z.land_spec, Z.bits_0, mask_bit by lia. destruct (Z.leb_spec ofst s), (Z.ltb_spec s (ofst + n)); rewrite ?andb_false_r; try done.
    by rewrite H.
Qed.
Lemma clear_bit e ofst n s : 0 <= ofst -> 0 <= n -> ofst + n <= SQLITE_SHM_NLOCK -> 0 <= s < SQLITE_SHM_NLOCK ->
  Z.testbit (e .& u16 (Z.lnot (shm_mask ofst n))) s = Z.testbit e s && negb ((ofst <=? s) && (s <? ofst + n)).
Proof. intros Ho Hn Hle Hs. rewrite Z.land_spec, testbit_uwrap, Z.lnot_spec, mask_bit by lia. unfold SQLITE_SHM_NLOCK in *. by rewrite (proj2 (Z.ltb_lt s 16)) by lia. Qed.

(** * Lists of connections *)

Definition other (c : Z) (P : unixShm -> bool) (l : list unixShm) : bool := existsb (fun y => negb (s_conn y =? c) && P y) l.

Lemma sibling_bit c s : forall l a, Z.testbit (sibling_masks c l a) s = Z.testbit a s || other c (fun y => Z.testbit (sharedMask y) s) l.
Proof.
  induction l as [|y l IH]; intros a; cbn; [by rewrite orb_false_r|]. destruct (s_conn y =? c); cbn; [apply IH|]. rewrite IH, Z.lor_spec. by rewrite orb_assoc.
Qed.
Lemma shared_masks_spec mask : forall l a, match shared_masks mask l a with
  | None => True
  | Some b => (forall y, y ∈ l -> (exclMask y .& mask =? 0) = true) /\ forall s, Z.testbit b s = Z.testbit a s || existsb (fun y => Z.testbit (sharedMask y) s) l
  end.
Proof.
  induction l as [|y l IH]; intros a; cbn [shared_masks]; [split; [by intros y Hy%not_elem_of_nil|]; intros s; cbn; by rewrite orb_false_r|].
  destruct (exclMask y .& mask =? 0) eqn:E; cbn [negb]; [|done]. specialize (IH (a .| sharedMask y)). destruct (shared_masks _ _ _) as [b|]; [|done]. destruct IH as [H1 H2]. split.
  - intros z [->|Hz]%elem_of_cons; [done|by apply H1].
  - intros s. rewrite H2, Z.lor_spec. cbn. by rewrite orb_assoc.
Qed.
Lemma any_lock_spec mask l : any_lock mask l = false -> forall y, y ∈ l -> (exclMask y .& mask =? 0) = true /\ (sharedMask y .& mask =? 0) = true.
Proof.
  induction l as [|y l IH]; cbn [any_lock]; [by intros _ y Hy%not_elem_of_nil|]. destruct (exclMask y .& mask =? 0) eqn:E1, (sharedMask y .& mask =? 0) eqn:E2; cbn [negb orb]; try done.
  intros H z [->|Hz]%elem_of_cons; [done|by apply IH].
Qed.

(** A list in which [x] is the object of its connection. *)
Definition object (x : unixShm) (l : list unixShm) : Prop := x ∈ l /\ forall y, y ∈ l -> s_conn y = s_conn x -> y = x.
Lemma existsb_elem {A} (P : A -> bool) l : existsb P l = true <-> exists y, y ∈ l /\ P y = true.
Proof. rewrite existsb_exists. by setoid_rewrite <- list_elem_of_In. Qed.
Lemma existsb_object x P l : object x l -> existsb P l = P x || other (s_conn x) P l.
Proof.
  intros [Hx Hu]. apply eq_true_iff_eq. unfold other. rewrite orb_true_iff, !existsb_elem. split.
  - intros (y & Hy & HP). destruct (decide (s_conn y = s_conn x)) as [E|E]; [left; by rewrite <- (Hu y Hy E)|]. right. exists y. split; [done|]. by rewrite (proj2 (Z.eqb_neq _ _) E).
  - intros [HP|(y & Hy & HP)]; [by exists x|]. exists y. split; [done|]. by apply andb_true_iff in HP as [_ ?].
Qed.
Lemma assign_elem x f l y : object x l -> y ∈ assign (s_conn x) f l <-> y = f x \/ (y ∈ l /\ s_conn y <> s_conn x).
Proof.
  intros [Hx Hu]. unfold assign. rewrite list_elem_of_fmap. split.
  - intros (z & -> & Hz). destruct (Z.eqb_spec (s_conn z) (s_conn x)) as [E|E]; [left; by rewrite (Hu z Hz E)|by right].
  - intros [->|[Hy Hne]]; [exists x; by rewrite Z.eqb_refl|]. exists y. by rewrite (proj2 (Z.eqb_neq _ _) Hne).
Qed.
Lemma existsb_assign x f P l : object x l -> s_conn (f x) = s_conn x -> existsb P (assign (s_conn x) f l) = P (f x) || other (s_conn x) P l.
Proof.
  intros Hx Hf. apply eq_true_iff_eq. unfold other. rewrite orb_true_iff, !existsb_elem. split.
  - intros (y & Hy & HP). apply (assign_elem x f l y Hx) in Hy as [->|[Hy Hne]]; [by left|]. right. exists y. split; [done|]. by rewrite (proj2 (Z.eqb_neq _ _) Hne).
  - intros [HP|(y & Hy & HP)]; [exists (f x); split; [by apply assign_elem; [|left]|done]|]. apply andb_true_iff in HP as [Hne HP]. exists y. split; [|done].
    apply assign_elem; [done|]. right. split; [done|]. intros E. by rewrite E, Z.eqb_refl in Hne.
Qed.
Lemma other_false x P l : other (s_conn x) P l = false <-> forall y, y ∈ l -> s_conn y <> s_conn x -> P y = false.
Proof.
  unfold other. rewrite <- not_true_iff_false, existsb_elem. split.
  - intros H y Hy Hne. apply not_true_iff_false. intros HP. apply H. exists y. split; [done|]. by rewrite (proj2 (Z.eqb_neq _ _) Hne), HP.
  - intros H (y & Hy & HP). apply andb_true_iff in HP as [Hne HP]. rewrite (H y Hy) in HP; [done|]. intros E. by rewrite E, Z.eqb_refl in Hne.
Qed.

(** * What the masks mean *)

(** The lock of an object on a slot. *)
Definition bit (x : unixShm) (s : Z) : option bool := if Z.testbit (exclMask x) s then Some true else if Z.testbit (sharedMask x) s then Some false else None.

Section refine.
Context {K : Type} `{PL : PosixLocks K}.

(** The lock a process needs on a slot for the connections in [l]. *)
Definition needs (l : list unixShm) (s : Z) : option mode :=
  if existsb (fun y => Z.testbit (exclMask y) s) l then Some Wr else if existsb (fun y => Z.testbit (sharedMask y) s) l then Some Rd else None.

(** Processes with their nodes, the record locks on the -shm file, and the locks of the connections as in WalSys.v. *)
Record shm_ok (k : K) (ps : gmap Z unixShmNode) (m : gmap (Z * Z) bool) : Prop := {
  h_valid : valid k;
  h_fd p nd : ps !! p = Some nd -> 0 <= n_h nd;
  h_uniq p q nd nd' x y : ps !! p = Some nd -> ps !! q = Some nd' -> x ∈ pFirst nd -> y ∈ pFirst nd' -> s_conn x = s_conn y -> p = q /\ x = y;
  h_bits p nd x s : ps !! p = Some nd -> x ∈ pFirst nd -> 0 <= s < SQLITE_SHM_NLOCK -> m !! (s_conn x, s) = bit x s;
  h_known c s b : m !! (c, s) = Some b -> 0 <= s < SQLITE_SHM_NLOCK /\ exists p nd x, ps !! p = Some nd /\ x ∈ pFirst nd /\ s_conn x = c;
  h_posix p nd s : ps !! p = Some nd -> 0 <= s < SQLITE_SHM_NLOCK -> held k p (UNIX_SHM_BASE + s) = needs (pFirst nd) s;
  h_excl p nd x y s : ps !! p = Some nd -> x ∈ pFirst nd -> y ∈ pFirst nd -> s_conn x <> s_conn y -> 0 <= s < SQLITE_SHM_NLOCK -> Z.testbit (exclMask x) s = true -> bit y s = None;
  h_absent p s : ps !! p = None -> 0 <= s < SQLITE_SHM_NLOCK -> held k p (UNIX_SHM_BASE + s) = None;
  h_ref p nd : ps !! p = Some nd -> n_nRef nd = Z.of_nat (length (pFirst nd)) /\ NoDup (map s_conn (pFirst nd))
}.

Lemma shm_object k ps m p nd x : shm_ok k ps m -> ps !! p = Some nd -> x ∈ pFirst nd -> object x (pFirst nd).
Proof. intros Hok Hp Hx. split; [done|]. intros y Hy E. by destruct (h_uniq _ _ _ Hok p p nd nd y x). Qed.

(** Connection [s_conn x] changes its masks. *)
Lemma assign_ok k ps m p nd x f k' m' : shm_ok k ps m -> ps !! p = Some nd -> x ∈ pFirst nd -> s_conn (f x) = s_conn x -> valid k' ->
  (forall q b, q <> p -> held k' q b = held k q b) ->
  (forall s, 0 <= s < SQLITE_SHM_NLOCK -> held k' p (UNIX_SHM_BASE + s) = needs (assign (s_conn x) f (pFirst nd)) s) ->
  (forall s, 0 <= s < SQLITE_SHM_NLOCK -> m' !! (s_conn x, s) = bit (f x) s) ->
  (forall c s, (c <> s_conn x \/ ~ (0 <= s < SQLITE_SHM_NLOCK)) -> m' !! (c, s) = m !! (c, s)) ->
  (forall y s, y ∈ pFirst nd -> s_conn y <> s_conn x -> 0 <= s < SQLITE_SHM_NLOCK ->
    (Z.testbit (exclMask (f x)) s = true -> bit y s = None) /\ (Z.testbit (exclMask y) s = true -> bit (f x) s = None)) ->
  shm_ok k' (<[p := set_first nd (assign (s_conn x) f (pFirst nd))]> ps) m'.
Proof.
  intros Hok Hp Hx Hf Hv Hq Hpos Hm Hm' Hex. pose proof (shm_object _ _ _ _ _ _ Hok Hp Hx) as Hobj. destruct Hok as [H1 H2 H3 H4 H5 H6 H7 H8 H9].
  (* an element of a new list comes from one with the same connection in the old list of the same process *)
  assert (forall q nd1 y, <[p := set_first nd (assign (s_conn x) f (pFirst nd))]> ps !! q = Some nd1 -> y ∈ pFirst nd1 ->
    (q = p /\ y = f x) \/ exists nd0, ps !! q = Some nd0 /\ y ∈ pFirst nd0 /\ s_conn y <> s_conn x) as Hold.
  { intros q nd1 y Hq1 Hy. destruct (decide (q = p)) as [->|Hne].
    - rewrite lookup_insert_eq in Hq1. injection Hq1 as <-. cbn in Hy. apply (assign_elem x f _ y Hobj) in Hy as [->|[Hy Hne]]; [by left|]. right. by exists nd.
    - rewrite lookup_insert_ne in Hq1 by done. right. exists nd1. split; [done|]. split; [done|]. intros E. by destruct (H3 q p nd1 nd y x Hq1 Hp Hy Hx E). }
  constructor.
  - done.
  - intros q nd1 Hq1. destruct (decide (q = p)) as [->|Hne]; [rewrite lookup_insert_eq in Hq1; injection Hq1 as <-; apply (H2 p nd Hp)|]. rewrite lookup_insert_ne in Hq1 by done. by apply (H2 q).
  - intros q q' nd1 nd2 y z Hq1 Hq2 Hy Hz E. destruct (Hold q nd1 y Hq1 Hy) as [[-> ->]|(nd3 & A1 & A2 & A3)], (Hold q' nd2 z Hq2 Hz) as [[-> ->]|(nd4 & B1 & B2 & B3)]; [done|congruence|congruence|].
    by apply (H3 q q' nd3 nd4).
  - intros q nd1 y s Hq1 Hy Hs. destruct (Hold q nd1 y Hq1 Hy) as [[-> ->]|(nd3 & A1 & A2 & A3)]; [rewrite Hf; by apply Hm|]. rewrite Hm' by by left. by apply (H4 q nd3).
  - intros c s b Hc. destruct (decide (c = s_conn x /\ 0 <= s < SQLITE_SHM_NLOCK)) as [[-> Hs]|Hne].
    + split; [done|]. exists p, (set_first nd (assign (s_conn x) f (pFirst nd))), (f x). rewrite lookup_insert_eq. split; [done|]. split; [|done]. apply assign_elem; [done|by left].
    + rewrite Hm' in Hc by (destruct (decide (c = s_conn x)); [right; naive_solver|by left]). destruct (H5 c s b Hc) as (Hs & q & nd0 & y & A1 & A2 & A3). split; [done|].
      assert (c <> s_conn x) as Hcx by naive_solver. destruct (decide (q = p)) as [->|Hqp].
      * exists p, (set_first nd (assign (s_conn x) f (pFirst nd))), y. rewrite lookup_insert_eq. split; [done|]. split; [|done]. apply assign_elem; [done|]. right. simplify_eq. done.
      * exists q, nd0, y. by rewrite lookup_insert_ne.
  - intros q nd1 s Hq1 Hs. destruct (decide (q = p)) as [->|Hne]; [rewrite lookup_insert_eq in Hq1; injection Hq1 as <-; by apply Hpos|].
    rewrite lookup_insert_ne in Hq1 by done. rewrite Hq by done. by apply (H6 q).
  - intros q nd1 y z s Hq1 Hy Hz Hne Hs He. destruct (Hold q nd1 y Hq1 Hy) as [[Hqy ->]|(nd3 & A1 & A2 & A3)], (Hold q nd1 z Hq1 Hz) as [[Hqp ->]|(nd4 & B1 & B2 & B3)]; [done| | |].
    + subst q. rewrite Hp in B1. injection B1 as <-. destruct (Hex z s B2 B3 Hs) as [Ha _]. by apply Ha.
    + subst q. rewrite Hp in A1. injection A1 as <-. destruct (Hex y s A2 A3 Hs) as [_ Hb]. by apply Hb.
    + apply (H7 q nd3 y z); try done. congruence.
  - intros q s Hq1 Hs. apply lookup_insert_None in Hq1 as [Hq1 Hne]. rewrite Hq by done. by apply H8.
  - intros q nd1 Hq1. destruct (decide (q = p)) as [->|Hne]; [|rewrite lookup_insert_ne in Hq1 by done; by apply (H9 q)]. rewrite lookup_insert_eq in Hq1. injection Hq1 as <-. cbn [set_first pFirst n_nRef].
    destruct (H9 p nd Hp) as [A1 A2]. unfold assign. rewrite length_map, map_map. split; [done|]. replace (map _ (pFirst nd)) with (map s_conn (pFirst nd)); [done|]. apply map_ext_in. intros y Hy.
    apply list_elem_of_In in Hy. destruct (Z.eqb_spec (s_conn y) (s_conn x)) as [E|E]; [|done]. destruct Hobj as [_ Hu]. by rewrite (Hu y Hy E).
Qed.

(** The record locks of the process of [x], in terms of [x] and of its siblings. *)
Lemma needs_object x l s : object x l -> needs l s = if Z.testbit (exclMask x) s || other (s_conn x) (fun y => Z.testbit (exclMask y) s) l then Some Wr
  else if Z.testbit (sharedMask x) s || other (s_conn x) (fun y => Z.testbit (sharedMask y) s) l then Some Rd else None.
Proof. intros Hx. unfold needs. by rewrite !(existsb_object x) by done. Qed.
Lemma needs_assign x f l s : object x l -> s_conn (f x) = s_conn x -> needs (assign (s_conn x) f l) s =
  if Z.testbit (exclMask (f x)) s || other (s_conn x) (fun y => Z.testbit (exclMask y) s) l then Some Wr
  else if Z.testbit (sharedMask (f x)) s || other (s_conn x) (fun y => Z.testbit (sharedMask y) s) l then Some Rd else None.
Proof. intros Hx Hf. unfold needs. by rewrite !(existsb_assign x) by done. Qed.
Lemma bit_none x s : bit x s = None <-> Z.testbit (exclMask x) s = false /\ Z.testbit (sharedMask x) s = false.
Proof. unfold bit. destruct (Z.testbit (exclMask x) s), (Z.testbit (sharedMask x) s); naive_solver. Qed.

(** The system call on slots [ofst] to [ofst+n-1]. *)
Lemma system_lock k p nd t ofst n rc k' : valid k -> 0 <= n_h nd -> 0 < n -> unixShmSystemLock k p nd t (ofst + UNIX_SHM_BASE) n = (rc, k') ->
  valid k' /\ (forall q b, q <> p -> held k' q b = held k q b) /\
  ((rc = SQLITE_OK /\ forall s, held k' p (UNIX_SHM_BASE + s) = if (ofst <=? s) && (s <? ofst + n) then match t with F_RDLCK => Some Rd | F_WRLCK => Some Wr | F_UNLCK => None end
      else held k p (UNIX_SHM_BASE + s)) \/
   (rc = SQLITE_BUSY /\ forall b, held k' p b = held k p b)).
Proof.
  intros Hv Hh Hn. unfold unixShmSystemLock. rewrite (proj2 (Z.leb_le _ _) Hh). set (l := {| l_type := t; l_start := ofst + UNIX_SHM_BASE; l_len := n |}).
  pose proof (valid_setlk k p l Hv) as Hv'. pose proof (setlk_own k p l) as Hown. pose proof (setlk_other k p l) as Hoth. pose proof (setlk_refused k p l) as Href.
  destruct (setlk k p l) as [e k1]. cbn [fst snd] in *. intros [= <- <-]. split; [done|]. split; [intros q b Hq; by apply Hoth|]. destruct (Z.eqb_spec e 0) as [->|He].
  - left. split; [done|]. intros s. rewrite Hown by done. unfold in_range, grant, l. cbn [l_type l_start l_len]. rewrite (proj2 (Z.eqb_neq n 0)) by lia. cbn [orb].
    replace (ofst + UNIX_SHM_BASE <=? UNIX_SHM_BASE + s) with (ofst <=? s) by (apply eq_true_iff_eq; rewrite !Z.leb_le; lia).
    replace (UNIX_SHM_BASE + s <? ofst + UNIX_SHM_BASE + n) with (s <? ofst + n) by (apply eq_true_iff_eq; rewrite !Z.ltb_lt; lia). done.
  - right. split; [done|]. intros b. by apply Href.
Qed.

Lemma shm_same k ps m p k' : shm_ok k ps m -> valid k' -> (forall q b, q <> p -> held k' q b = held k q b) -> (forall b, held k' p b = held k p b) -> shm_ok k' ps m.
Proof.
  intros [H1 H2 H3 H4 H5 H6 H7 H8 H9] Hv Hq Hp. constructor; try done.
  - intros q nd s Hnd Hs. destruct (decide (q = p)) as [->|Hne]; [rewrite Hp|rewrite Hq by done]; by apply H6.
  - intros q s Hnd Hs. destruct (decide (q = p)) as [->|Hne]; [rewrite Hp|rewrite Hq by done]; by apply H8.
Qed.
Lemma bit_needs y l s b : y ∈ l -> bit y s = Some b -> needs l s <> None /\ (b = true -> needs l s = Some Wr).
Proof.
  intros Hy Hb. unfold needs, bit in *. destruct (Z.testbit (exclMask y) s) eqn:E1.
  - rewrite (proj2 (existsb_elem (fun y => Z.testbit (exclMask y) s) l)) by by exists y. done.
  - destruct (existsb _ l); [done|]. destruct (Z.testbit (sharedMask y) s) eqn:E2; [|done]. injection Hb as <-.
    rewrite (proj2 (existsb_elem (fun y => Z.testbit (sharedMask y) s) l)) by by exists y. done.
Qed.
(** The locks of connections, of the same process or of others. *)
Lemma who_has k ps m p nd d s e : shm_ok k ps m -> ps !! p = Some nd -> m !! (d, s) = Some e ->
  (exists y, y ∈ pFirst nd /\ s_conn y = d /\ bit y s = Some e) \/
  (exists q, q <> p /\ held k q (UNIX_SHM_BASE + s) <> None /\ (e = true -> held k q (UNIX_SHM_BASE + s) = Some Wr)).
Proof.
  intros Hok Hp Hd. destruct (h_known _ _ _ Hok d s e Hd) as (Hs & q & nd' & y & Hq & Hy & <-). rewrite (h_bits _ _ _ Hok q nd' y s Hq Hy Hs) in Hd.
  destruct (decide (q = p)) as [->|Hne]; [left; exists y; by simplify_eq|]. right. exists q. rewrite (h_posix _ _ _ Hok q nd' s Hq Hs). destruct (bit_needs y _ s e Hy Hd). done.
Qed.

(** ** Requests *)

Section request.
Context (k : K) (ps : gmap Z unixShmNode) (m : gmap (Z * Z) bool) (p : Z) (nd : unixShmNode) (x : unixShm) (ofst n : Z).
Context (Hok : shm_ok k ps m) (Hp : ps !! p = Some nd) (Hx : x ∈ pFirst nd) (Ho : 0 <= ofst) (Hn : 1 <= n) (Hle : ofst + n <= SQLITE_SHM_NLOCK).
Local Abbreviation inr s := ((ofst <=? s) && (s <? ofst + n)).
Local Abbreviation c := (s_conn x).

Lemma inr_true s : inr s = true <-> ofst <= s < ofst + n.
Proof. rewrite andb_true_iff, Z.leb_le, Z.ltb_lt. done. Qed.
Lemma add_bit f e s : 0 <= s < SQLITE_SHM_NLOCK -> (forall s, inr s = true -> bit (f x) s = Some e) -> (forall s, inr s = false -> bit (f x) s = bit x s) ->
  add_locks m c e ofst n !! (c, s) = bit (f x) s.
Proof.
  intros Hs H1 H2. rewrite add_locks_lookup. destruct (inr s) eqn:E.
  - rewrite decide_True by (split; [done|by apply inr_true]). by rewrite H1.
  - rewrite decide_False by (intros [_ H]; apply inr_true in H; congruence). rewrite H2 by done. by apply (h_bits _ _ _ Hok p nd).
Qed.
Lemma add_other e d s : d <> c \/ ~ (0 <= s < SQLITE_SHM_NLOCK) -> add_locks m c e ofst n !! (d, s) = m !! (d, s).
Proof. intros H. rewrite add_locks_lookup, decide_False; [done|]. intros [-> Hs]. destruct H; [done|lia]. Qed.
Lemma drop_other d s : d <> c \/ ~ (0 <= s < SQLITE_SHM_NLOCK) -> drop_locks m c ofst n !! (d, s) = m !! (d, s).
Proof. intros H. rewrite drop_locks_lookup, decide_False; [done|]. intros [-> Hs]. destruct H; [done|lia]. Qed.

Lemma excl_request rc k' nd' : unixShmLock k p nd c ofst n (SQLITE_SHM_LOCK .| SQLITE_SHM_EXCLUSIVE) = (rc, k', nd') ->
  (rc = SQLITE_OK /\ grantable m c true ofst n /\ shm_ok k' (<[p := nd']> ps) (add_locks m c true ofst n)) \/ (rc = SQLITE_BUSY /\ shm_ok k' (<[p := nd']> ps) m).
Proof.
  unfold unixShmLock. change (SQLITE_SHM_LOCK .| SQLITE_SHM_EXCLUSIVE) with 10. change (10 .& SQLITE_SHM_UNLOCK) with 0. change (10 .& SQLITE_SHM_SHARED) with 0. cbn [Z.eqb negb].
  destruct (any_lock _ _) eqn:Ea; [intros [= <- <- <-]; right; split; [done|]; by rewrite insert_id|]. pose proof (shm_object _ _ _ _ _ _ Hok Hp Hx) as Hobj.
  assert (forall y s, y ∈ pFirst nd -> inr s = true -> bit y s = None) as Hnone.
  { intros y s Hy Hs. apply inr_true in Hs. destruct (any_lock_spec _ _ Ea y Hy) as [A1 A2]. apply bit_none. rewrite mask_zero in A1, A2 by lia. auto. }
  destruct (unixShmSystemLock _ _ _ _ _ _) as [rc1 k1] eqn:Es. destruct (system_lock k p nd F_WRLCK ofst n rc1 k1 (h_valid _ _ _ Hok) (h_fd _ _ _ Hok p nd Hp) ltac:(lia) Es) as (Hv & Hq & [[-> Hself]|(-> & Hself)]); cbn [Z.eqb].
  2: { intros [= <- <- <-]. right. split; [done|]. rewrite insert_id by done. by apply (shm_same k ps m p). }
  intros [= <- <- <-]. left. split; [done|]. set (f := fun s => set_masks s (sharedMask s) (exclMask s .| shm_mask ofst n)).
  assert (forall s, 0 <= s -> Z.testbit (exclMask (f x)) s = Z.testbit (exclMask x) s || inr s) as Hfe by (intros s Hs; cbn; by rewrite Z.lor_spec, mask_bit by lia).
  split.
  - intros [d s] e Hd. destruct (decide (d = c)) as [|Hne]; [by left|]. right. cbn. destruct (decide (ofst <= s < ofst + n)) as [Hs|]; [|by left]. exfalso. apply inr_true in Hs.
    destruct (who_has _ _ _ _ _ _ _ _ Hok Hp Hd) as [(y & Hy & <- & Hb)|(q & Hqp & Hb & _)]; [rewrite (Hnone y s Hy Hs) in Hb; done|].
    rewrite <- Hq in Hb by done. apply Hb, (held_excl k1 p q); [done|done|]. by rewrite Hself, Hs.
  - apply (assign_ok k ps m p nd x f); try done.
    + intros s Hs. rewrite Hself, (needs_assign x f _ s Hobj) by done. rewrite Hfe by lia. destruct (inr s) eqn:Ei; [by rewrite orb_true_r|]. rewrite orb_false_r.
      by rewrite (h_posix _ _ _ Hok p nd s Hp Hs), (needs_object x) by done.
    + intros s Hs. apply add_bit; [done| |].
      * intros t Ht. unfold bit. rewrite Hfe, Ht, orb_true_r by (apply inr_true in Ht; lia). done.
      * intros t Ht. destruct (decide (0 <= t)); [unfold bit; by rewrite Hfe, Ht, orb_false_r by done|]. unfold bit. by rewrite !Z.testbit_neg_r by lia.
    + intros d s. apply add_other.
    + intros y s Hy Hne Hs. rewrite Hfe by lia. destruct (inr s) eqn:Ei.
      * split; [intros _; by apply Hnone|]. intros E. pose proof (Hnone y s Hy Ei) as Hb. apply bit_none in Hb as [Hb _]. congruence.
      * rewrite orb_false_r. split; [by apply (h_excl _ _ _ Hok p nd)|]. intros E. assert (bit (f x) s = bit x s) as -> by (unfold bit; by rewrite Hfe, Ei, orb_false_r by lia).
        by apply (h_excl _ _ _ Hok p nd y x).
Qed.

(** Every connection of the process that has the slot shares it, and the process has it. *)
Lemma shared_request rc k' nd' : n = 1 -> unixShmLock k p nd c ofst n (SQLITE_SHM_LOCK .| SQLITE_SHM_SHARED) = (rc, k', nd') ->
  (rc = SQLITE_OK /\ grantable m c false ofst n /\ shm_ok k' (<[p := nd']> ps) (add_locks m c false ofst n)) \/ (rc = SQLITE_BUSY /\ shm_ok k' (<[p := nd']> ps) m).
Proof.
  intros En. unfold unixShmLock. change (SQLITE_SHM_LOCK .| SQLITE_SHM_SHARED) with 6. change (6 .& SQLITE_SHM_UNLOCK) with 0. change (6 .& SQLITE_SHM_SHARED) with 4. cbn [Z.eqb negb].
  pose proof (shared_masks_spec (shm_mask ofst n) (pFirst nd) 0) as Hsp. destruct (shared_masks _ _ _) as [a|]; [|intros [= <- <- <-]; right; split; [done|]; by rewrite insert_id].
  destruct Hsp as [Hex Ha]. pose proof (shm_object _ _ _ _ _ _ Hok Hp Hx) as Hobj.
  assert (forall y, y ∈ pFirst nd -> Z.testbit (exclMask y) ofst = false) as Hnone by (intros y Hy; apply (proj1 (mask_zero _ ofst n Ho ltac:(lia) Hle) (Hex y Hy)); lia).
  assert (forall s, inr s = true -> s = ofst) as Hone by (intros s Hs; apply inr_true in Hs; lia).
  assert (inr ofst = true) as Hin by (apply inr_true; lia).
  pose proof (Hnone x Hx) as Hxe.
  (* what the system call, or its omission, leaves *)
  assert (forall rc1 k1, (if a .& shm_mask ofst n =? 0 then unixShmSystemLock k p nd F_RDLCK (ofst + UNIX_SHM_BASE) n else (SQLITE_OK, k)) = (rc1, k1) ->
    valid k1 /\ (forall q b, q <> p -> held k1 q b = held k q b) /\
    ((rc1 = SQLITE_OK /\ forall s, 0 <= s < SQLITE_SHM_NLOCK -> held k1 p (UNIX_SHM_BASE + s) = if inr s then Some Rd else held k p (UNIX_SHM_BASE + s)) \/
     (rc1 = SQLITE_BUSY /\ forall b, held k1 p b = held k p b))) as Hcall.
  { intros rc1 k1. destruct (a .& shm_mask ofst n =? 0) eqn:Em.
    - intros Es. destruct (system_lock k p nd F_RDLCK ofst n rc1 k1 (h_valid _ _ _ Hok) (h_fd _ _ _ Hok p nd Hp) ltac:(lia) Es) as (Hv & Hq & [[-> Hself]|(-> & Hself)]); (split; [done|]; split; [done|]).
      + left. split; [done|]. intros s _. apply Hself.
      + by right.
    - intros [= <- <-]. split; [apply (h_valid _ _ _ Hok)|]. split; [done|]. left. split; [done|]. intros s Hs. destruct (inr s) eqn:Ei; [|done]. rewrite (Hone s Ei) in *. rewrite (h_posix _ _ _ Hok p nd ofst Hp Hs).
      unfold needs. destruct (existsb (fun y => Z.testbit (exclMask y) ofst) (pFirst nd)) eqn:E1; [apply existsb_elem in E1 as (y & Hy & E); rewrite (Hnone y Hy) in E; done|].
      assert (Z.testbit a ofst = true) as Hbit.
      { apply not_false_iff_true. intros E. assert ((a .& shm_mask ofst n =? 0) = true); [|congruence]. apply mask_zero; [done|lia|done|]. intros t Ht. replace t with ofst by lia. done. }
      rewrite Ha, Z.bits_0 in Hbit. cbn [orb] in Hbit. by rewrite Hbit. }
  destruct (if a .& shm_mask ofst n =? 0 then _ else _) as [rc1 k1] eqn:Es. destruct (Hcall rc1 k1 eq_refl) as (Hv & Hq & [[-> Hself]|(-> & Hself)]); cbn [Z.eqb].
  2: { intros [= <- <- <-]. right. split; [done|]. rewrite insert_id by done. by apply (shm_same k ps m p). }
  intros [= <- <- <-]. left. split; [done|]. set (f := fun s => set_masks s (sharedMask s .| shm_mask ofst n) (exclMask s)).
  assert (forall s, 0 <= s -> Z.testbit (sharedMask (f x)) s = Z.testbit (sharedMask x) s || inr s) as Hfs by (intros s Hs; cbn; by rewrite Z.lor_spec, mask_bit by lia).
  split.
  - intros [d s] e Hd. destruct (decide (d = c)) as [|Hne]; [by left|]. right. cbn. destruct (decide (ofst <= s < ofst + n)) as [Hs|]; [|by left]. right. split; [done|]. apply inr_true, Hone in Hs as ->.
    destruct e; [|done]. exfalso. destruct (who_has _ _ _ _ _ _ _ _ Hok Hp Hd) as [(y & Hy & <- & Hb)|(q & Hqp & _ & Hb)].
    + unfold bit in Hb. rewrite (Hnone y Hy) in Hb. by destruct (Z.testbit (sharedMask y) ofst).
    + specialize (Hb eq_refl). rewrite <- Hq in Hb by done. pose proof (held_excl k1 q p _ Hv Hqp Hb) as Hz. rewrite Hself, Hin in Hz by lia. done.
  - apply (assign_ok k ps m p nd x f); try done.
    + intros s Hs. rewrite Hself, (needs_assign x f _ s Hobj) by done. rewrite Hfs by lia. destruct (inr s) eqn:Ei.
      * rewrite orb_true_r. cbn [orb f set_masks exclMask]. rewrite (Hone s Ei), Hxe. cbn [orb]. rewrite (proj2 (other_false x _ _)); [done|]. intros y Hy _. by apply Hnone.
      * rewrite orb_false_r. by rewrite (h_posix _ _ _ Hok p nd s Hp Hs), (needs_object x) by done.
    + intros s Hs. apply add_bit; [done| |].
      * intros t Ht. rewrite (Hone t Ht). unfold bit. cbn [f set_masks exclMask]. rewrite Hxe. change (sharedMask x .| shm_mask ofst n) with (sharedMask (f x)). by rewrite Hfs, Hin, orb_true_r by lia.
      * intros t Ht. unfold bit. destruct (decide (0 <= t)); [by rewrite Hfs, Ht, orb_false_r by done|]. by rewrite !Z.testbit_neg_r by lia.
    + intros d s. apply add_other.
    + intros y s Hy Hne Hs. split; [intros E; by apply (h_excl _ _ _ Hok p nd x y s)|]. intros E. destruct (inr s) eqn:Ei; [rewrite (Hone s Ei), (Hnone y Hy) in E; done|].
      assert (bit (f x) s = bit x s) as -> by (unfold bit; by rewrite Hfs, Ei, orb_false_r by lia). by apply (h_excl _ _ _ Hok p nd y x).
Qed.

(** A connection gives up locks that it has: exclusive ones, or a shared one. When the system call fails it keeps them. *)
Lemma unlock_request e fl rc k' nd' : fl = SQLITE_SHM_UNLOCK .| (if (e : bool) then SQLITE_SHM_EXCLUSIVE else SQLITE_SHM_SHARED) -> (e = false -> n = 1) ->
  (forall s, inr s = true -> m !! (c, s) = Some e) -> unixShmLock k p nd c ofst n fl = (rc, k', nd') ->
  (rc = SQLITE_OK /\ shm_ok k' (<[p := nd']> ps) (drop_locks m c ofst n)) \/ (rc = SQLITE_BUSY /\ shm_ok k' (<[p := nd']> ps) m).
Proof.
  intros Efl En Hhas. unfold unixShmLock. assert (negb (fl .& SQLITE_SHM_UNLOCK =? 0) = true) as -> by (subst fl; by destruct e). pose proof (shm_object _ _ _ _ _ _ Hok Hp Hx) as Hobj.
  assert (forall s, inr s = true -> bit x s = Some e) as Hbit.
  { intros s Hs. rewrite <- (Hhas s Hs). symmetry. apply (h_bits _ _ _ Hok p nd); [done|done|]. apply inr_true in Hs. lia. }
  (* siblings *)
  assert (forall s, inr s = true -> other c (fun y => Z.testbit (exclMask y) s) (pFirst nd) = false) as Hoe.
  { intros s Hs. apply other_false. intros y Hy Hne. apply not_true_iff_false. intros E. pose proof Hs as Hs'. apply inr_true in Hs'.
    pose proof (h_excl _ _ _ Hok p nd y x s Hp Hy Hx Hne ltac:(lia) E) as Hb. rewrite (Hbit s Hs) in Hb. done. }
  assert (forall s, inr s = true -> e = true -> other c (fun y => Z.testbit (sharedMask y) s) (pFirst nd) = false) as Hos.
  { intros s Hs ->. apply other_false. intros y Hy Hne. pose proof Hs as Hs'. apply inr_true in Hs'. pose proof (Hbit s Hs) as Hb. unfold bit in Hb. destruct (Z.testbit (exclMask x) s) eqn:E; [|by destruct (Z.testbit (sharedMask x) s)].
    pose proof (h_excl _ _ _ Hok p nd x y s Hp Hx Hy ltac:(done) ltac:(lia) E) as Hb'. by apply bit_none in Hb' as [_ Hb']. }
  set (f := fun s => set_masks s (sharedMask s .& u16 (Z.lnot (shm_mask ofst n))) (exclMask s .& u16 (Z.lnot (shm_mask ofst n)))).
  assert (forall s, 0 <= s < SQLITE_SHM_NLOCK -> Z.testbit (exclMask (f x)) s = Z.testbit (exclMask x) s && negb (inr s)) as Hfe by (intros s Hs; apply clear_bit; lia).
  assert (forall s, 0 <= s < SQLITE_SHM_NLOCK -> Z.testbit (sharedMask (f x)) s = Z.testbit (sharedMask x) s && negb (inr s)) as Hfs by (intros s Hs; apply clear_bit; lia).
  assert (forall s, 0 <= s < SQLITE_SHM_NLOCK -> bit (f x) s = if inr s then None else bit x s) as Hfb.
  { intros s Hs. unfold bit. rewrite Hfe, Hfs by done. destruct (inr s); cbn [negb]; by rewrite ?andb_false_r, ?andb_true_r. }
  set (all := sibling_masks c (pFirst nd) 0).
  assert (forall rc1 k1, (if shm_mask ofst n .& all =? 0 then unixShmSystemLock k p nd F_UNLCK (ofst + UNIX_SHM_BASE) n else (SQLITE_OK, k)) = (rc1, k1) ->
    valid k1 /\ (forall q b, q <> p -> held k1 q b = held k q b) /\
    ((rc1 = SQLITE_BUSY /\ forall b, held k1 p b = held k p b) \/ (rc1 = SQLITE_OK /\
    forall s, 0 <= s < SQLITE_SHM_NLOCK -> held k1 p (UNIX_SHM_BASE + s) = if inr s then (if other c (fun y => Z.testbit (sharedMask y) s) (pFirst nd) then Some Rd else None) else held k p (UNIX_SHM_BASE + s)))) as Hcall.
  { intros rc1 k1. rewrite Z.land_comm. destruct (all .& shm_mask ofst n =? 0) eqn:Em.
    - intros Es. destruct (system_lock k p nd F_UNLCK ofst n rc1 k1 (h_valid _ _ _ Hok) (h_fd _ _ _ Hok p nd Hp) ltac:(lia) Es) as (Hv & Hq & [[-> Hself]|[-> Hself]]); (split; [done|]; split; [done|]); [right|by left].
      split; [done|]. intros s Hs. rewrite Hself. destruct (inr s) eqn:Ei; [|done]. rewrite mask_zero in Em by lia. specialize (Em s ltac:(by apply inr_true)).
      unfold all in Em. rewrite sibling_bit, Z.bits_0 in Em. cbn [orb] in Em. by rewrite Em.
    - intros [= <- <-]. split; [apply (h_valid _ _ _ Hok)|]. split; [done|]. right. split; [done|]. intros s Hs. destruct (inr s) eqn:Ei; [|done].
      assert (exists t, inr t = true /\ other c (fun y => Z.testbit (sharedMask y) t) (pFirst nd) = true) as (t & Ht & Hot).
      { apply not_true_iff_false in Em. destruct (existsb (fun t => other c (fun y => Z.testbit (sharedMask y) t) (pFirst nd)) (seqZ ofst n)) eqn:E.
        - apply existsb_elem in E as (t & Ht & E). apply elem_of_seqZ in Ht. exists t. split; [by apply inr_true|done].
        - exfalso. apply Em. apply mask_zero; [done|lia|done|]. intros t Ht. unfold all. rewrite sibling_bit, Z.bits_0. cbn [orb]. apply not_true_iff_false. intros E'. apply not_true_iff_false in E. apply E.
          apply existsb_elem. exists t. split; [by apply elem_of_seqZ|done]. }
      destruct e; [rewrite (Hos t Ht eq_refl) in Hot; done|]. specialize (En eq_refl). assert (t = s) as -> by (apply inr_true in Ht, Ei; lia). rewrite Hot.
      rewrite (h_posix _ _ _ Hok p nd s Hp Hs), (needs_object x) by done. rewrite (Hoe s Ei), Hot, orb_false_r, orb_true_r. pose proof (Hbit s Ei) as Hb. unfold bit in Hb. by destruct (Z.testbit (exclMask x) s). }
  destruct (if shm_mask ofst n .& all =? 0 then _ else _) as [rc1 k1] eqn:Es. destruct (Hcall rc1 k1 eq_refl) as (Hv & Hq & [[-> Hself]|[-> Hself]]); cbn [Z.eqb].
  { intros [= <- <- <-]. right. split; [done|]. rewrite insert_id by done. by apply (shm_same k ps m p). }
  intros [= <- <- <-]. left. split; [done|]. apply (assign_ok k ps m p nd x f); try done.
  - intros s Hs. rewrite Hself, (needs_assign x f _ s Hobj), Hfe, Hfs by done. destruct (inr s) eqn:Ei; cbn [negb].
    + rewrite !andb_false_r. cbn [orb]. by rewrite (Hoe s Ei).
    + rewrite !andb_true_r. by rewrite (h_posix _ _ _ Hok p nd s Hp Hs), (needs_object x) by done.
  - intros s Hs. rewrite Hfb, drop_locks_lookup by done. destruct (inr s) eqn:Ei.
    + by rewrite decide_True by (split; [done|by apply inr_true]).
    + rewrite decide_False by (intros [_ H]; apply inr_true in H; congruence). by apply (h_bits _ _ _ Hok p nd).
  - intros d s. apply drop_other.
  - intros y s Hy Hne Hs. rewrite Hfe, Hfb by done. destruct (inr s); cbn [negb]; [rewrite andb_false_r; done|]. rewrite andb_true_r. split; intros E; [by apply (h_excl _ _ _ Hok p nd x y s)|by apply (h_excl _ _ _ Hok p nd y x s)].
Qed.
End request.

(** ** Processes come and go *)

Lemma shm_empty k : valid k -> (forall p b, held k p b = None) -> shm_ok k ∅ ∅.
Proof. intros Hv Hk. constructor; try done; by intros; rewrite ?lookup_empty in *. Qed.

(** A process without a node changes record locks that are not on slots. *)
Lemma absent_ok k ps m p k' : shm_ok k ps m -> ps !! p = None -> valid k' -> (forall q b, q <> p -> held k' q b = held k q b) ->
  (forall s, 0 <= s < SQLITE_SHM_NLOCK -> held k' p (UNIX_SHM_BASE + s) = None) -> shm_ok k' ps m.
Proof.
  intros [H1 H2 H3 H4 H5 H6 H7 H8 H9] Hp Hv Hq Hself. constructor; try done.
  - intros q nd s Hnd Hs. rewrite Hq by congruence. by apply H6.
  - intros q s Hnd Hs. destruct (decide (q = p)) as [->|Hne]; [by apply Hself|]. rewrite Hq by done. by apply H8.
Qed.
(** A node without connections. *)
Lemma node_insert k ps m p fd : shm_ok k ps m -> ps !! p = None -> 0 <= fd -> shm_ok k (<[p := {| n_h := fd; n_nRef := 0; pFirst := [] |}]> ps) m.
Proof.
  intros [H1 H2 H3 H4 H5 H6 H7 H8 H9] Hp Hfd.
  assert (forall q nd (y : unixShm), <[p := {| n_h := fd; n_nRef := 0; pFirst := [] |}]> ps !! q = Some nd -> y ∈ pFirst nd -> ps !! q = Some nd) as Hold.
  { intros q nd y Hq Hy. destruct (decide (q = p)) as [->|]; [|by rewrite lookup_insert_ne in Hq]. rewrite lookup_insert_eq in Hq. injection Hq as <-. by apply not_elem_of_nil in Hy. }
  constructor; try done.
  - intros q nd Hq. destruct (decide (q = p)) as [->|]; [rewrite lookup_insert_eq in Hq; by injection Hq as <-|]. rewrite lookup_insert_ne in Hq by done. by apply (H2 q).
  - intros q q' nd nd' y z Hq Hq' Hy Hz. apply (H3 q q' nd nd'); [by eapply Hold|by eapply Hold|done|done].
  - intros q nd y s Hq Hy. apply (H4 q nd); [by eapply Hold|done].
  - intros c s b Hc. destruct (H5 c s b Hc) as (Hs & q & nd & y & Hq & Hy & E). split; [done|]. exists q, nd, y. split; [|done]. rewrite lookup_insert_ne; [done|]. intros ->. congruence.
  - intros q nd s Hq Hs. destruct (decide (q = p)) as [->|]; [rewrite lookup_insert_eq in Hq; injection Hq as <-; by apply H8|]. rewrite lookup_insert_ne in Hq by done. by apply H6.
  - intros q nd y z s Hq Hy. apply (H7 q nd); [by eapply Hold|done].
  - intros q s Hq. apply lookup_insert_None in Hq as [Hq _]. by apply H8.
  - intros q nd Hq. destruct (decide (q = p)) as [->|]; [|rewrite lookup_insert_ne in Hq by done; by apply (H9 q)]. rewrite lookup_insert_eq in Hq. injection Hq as <-. split; [done|constructor].
Qed.

Lemma dms_lock k p nd t rc k' s : 0 <= s < SQLITE_SHM_NLOCK -> unixShmSystemLock k p nd t UNIX_SHM_DMS 1 = (rc, k') -> held k' p (UNIX_SHM_BASE + s) = held k p (UNIX_SHM_BASE + s).
Proof.
  intros Hs. unfold unixShmSystemLock. destruct (0 <=? n_h nd); [|by intros [= _ <-]]. set (l := {| l_type := t; l_start := UNIX_SHM_DMS; l_len := 1 |}).
  pose proof (setlk_own k p l (UNIX_SHM_BASE + s)) as Hown. pose proof (setlk_refused k p l (UNIX_SHM_BASE + s)) as Href. destruct (setlk k p l) as [e k1]. cbn [fst snd] in *. intros [= _ <-].
  destruct (decide (e = 0)) as [->|He]; [|by apply Href]. rewrite Hown by done. unfold in_range, l. cbn [l_start l_len]. unfold UNIX_SHM_DMS, SQLITE_SHM_NLOCK in *.
  rewrite (proj2 (Z.leb_gt _ _)) by lia. done.
Qed.
Lemma dms_frame k p nd t rc k' : valid k -> unixShmSystemLock k p nd t UNIX_SHM_DMS 1 = (rc, k') -> valid k' /\ forall q b, q <> p -> held k' q b = held k q b.
Proof.
  intros Hv. unfold unixShmSystemLock. destruct (0 <=? n_h nd); [|by intros [= _ <-]]. pose proof (valid_setlk k p {| l_type := t; l_start := UNIX_SHM_DMS; l_len := 1 |} Hv) as Hv'.
  pose proof (setlk_other k p {| l_type := t; l_start := UNIX_SHM_DMS; l_len := 1 |}) as Hoth. destruct (setlk k p _) as [e k1]. cbn [fst snd] in *. intros [= _ <-]. split; [done|]. intros q b Hq. by apply Hoth.
Qed.

Lemma shm_node_ok k ps m p fd tr rc r k' : shm_ok k ps m -> ps !! p = None -> 0 <= fd -> shm_node k p fd tr = (rc, r, k') ->
  match r with Some nd => pFirst nd = [] /\ shm_ok k' (<[p := nd]> ps) m | None => shm_ok k' ps m end.
Proof.
  intros Hok Hp Hfd. unfold shm_node. set (nd := {| n_h := fd; n_nRef := 0; pFirst := [] |}). destruct (unixShmSystemLock k p nd F_WRLCK UNIX_SHM_DMS 1) as [rc1 k1] eqn:E1.
  destruct (dms_frame _ _ _ _ _ _ (h_valid _ _ _ Hok) E1) as [Hv1 Hq1].
  assert (forall s, 0 <= s < SQLITE_SHM_NLOCK -> held k1 p (UNIX_SHM_BASE + s) = None) as Hk1 by (intros s Hs; rewrite (dms_lock _ _ _ _ _ _ s Hs E1); by apply (h_absent _ _ _ Hok)).
  assert (forall rc0 rc2 k2, (if rc0 =? SQLITE_OK then unixShmSystemLock k1 p nd F_RDLCK UNIX_SHM_DMS 1 else (rc0, k1)) = (rc2, k2) ->
    valid k2 /\ (forall q b, q <> p -> held k2 q b = held k q b) /\ forall s, 0 <= s < SQLITE_SHM_NLOCK -> held k2 p (UNIX_SHM_BASE + s) = None) as Hk2.
  { intros rc0 rc2 k2. destruct (rc0 =? SQLITE_OK); [|by intros [= _ <-]]. intros E2. destruct (dms_frame _ _ _ _ _ _ Hv1 E2) as [Hv2 Hq2]. split; [done|]. split; [intros q b Hq; by rewrite Hq2, Hq1|].
    intros s Hs. rewrite (dms_lock _ _ _ _ _ _ s Hs E2). by apply Hk1. }
  destruct (if _ =? SQLITE_OK then unixShmSystemLock k1 p nd F_RDLCK UNIX_SHM_DMS 1 else _) as [rc2 k2] eqn:E2. destruct (Hk2 _ _ _ E2) as (Hv2 & Hq2 & Hs2).
  destruct (negb (rc2 =? 0)); intros [= _ <- <-].
  - apply (absent_ok k ps m p _ Hok Hp); [by apply valid_closefd| |].
    + intros q b Hq. by rewrite closefd_other, Hq2 by done.
    + intros s Hs. apply closefd_own.
  - split; [done|]. apply node_insert; [|done|done]. by apply (absent_ok k ps m p k2 Hok Hp Hv2).
Qed.
Definition idle (y : unixShm) : Prop := sharedMask y = 0 /\ exclMask y = 0.
(** No object of any process is of connection [c]. *)
Definition fresh (ps : gmap Z unixShmNode) (c : Z) : Prop := forall q nd y, ps !! q = Some nd -> y ∈ pFirst nd -> s_conn y <> c.

Lemma idle_bit y s : idle y -> bit y s = None.
Proof. intros [E1 E2]. apply bit_none. by rewrite E1, E2, Z.bits_0. Qed.
Lemma conn_inj l y z : NoDup (map s_conn l) -> y ∈ l -> z ∈ l -> s_conn y = s_conn z -> y = z.
Proof.
  intros Hd [i Hi]%list_elem_of_lookup [j Hj]%list_elem_of_lookup E. assert (i = j) as ->; [|congruence].
  apply (proj1 (NoDup_alt (map s_conn l)) Hd i j (s_conn y)); rewrite list_lookup_fmap, ?Hi, ?Hj; cbn; congruence.
Qed.
Lemma needs_idle l l' s : (forall y, y ∈ l' -> y ∈ l \/ idle y) -> (forall y, y ∈ l -> y ∈ l' \/ idle y) -> needs l' s = needs l s.
Proof.
  intros H1 H2. assert (forall f : unixShm -> Z, (forall y, idle y -> f y = 0) -> existsb (fun y => Z.testbit (f y) s) l' = existsb (fun y => Z.testbit (f y) s) l) as Hex.
  { intros f Hf. apply eq_true_iff_eq. rewrite !existsb_elem. split; intros (y & Hy & E); exists y; (split; [|done]).
    - destruct (H1 y Hy) as [|Hi]; [done|]. rewrite (Hf y Hi), Z.bits_0 in E. done.
    - destruct (H2 y Hy) as [|Hi]; [done|]. rewrite (Hf y Hi), Z.bits_0 in E. done. }
  unfold needs. rewrite (Hex exclMask), (Hex sharedMask) by by intros y []. done.
Qed.

(** Objects without locks come and go. *)
Lemma idle_ok k ps m p nd nd' : shm_ok k ps m -> ps !! p = Some nd -> n_h nd' = n_h nd ->
  (forall y, y ∈ pFirst nd' -> y ∈ pFirst nd \/ (idle y /\ fresh ps (s_conn y))) -> (forall y, y ∈ pFirst nd -> y ∈ pFirst nd' \/ idle y) ->
  n_nRef nd' = Z.of_nat (length (pFirst nd')) -> NoDup (map s_conn (pFirst nd')) -> shm_ok k (<[p := nd']> ps) m.
Proof.
  intros [H1 H2 H3 H4 H5 H6 H7 H8 H9] Hp Hh Hnew Hold Href Hdup.
  assert (forall q nd1 y, <[p := nd']> ps !! q = Some nd1 -> y ∈ pFirst nd1 -> (exists nd0, ps !! q = Some nd0 /\ y ∈ pFirst nd0) \/ (q = p /\ nd1 = nd' /\ idle y /\ fresh ps (s_conn y))) as Hel.
  { intros q nd1 y Hq Hy. destruct (decide (q = p)) as [->|]; [|rewrite lookup_insert_ne in Hq by done; eauto]. rewrite lookup_insert_eq in Hq. injection Hq as <-.
    destruct (Hnew y Hy) as [|[? ?]]; [left; by exists nd|by right]. }
  assert (forall s, needs (pFirst nd') s = needs (pFirst nd) s) as Hneeds by (intros s; apply needs_idle; [intros y Hy; destruct (Hnew y Hy) as [|[]]; auto|done]).
  constructor; try done.
  - intros q nd1 Hq. destruct (decide (q = p)) as [->|]; [rewrite lookup_insert_eq in Hq; injection Hq as <-; rewrite Hh; by apply (H2 p)|]. rewrite lookup_insert_ne in Hq by done. by apply (H2 q).
  - intros q q' nd1 nd2 y z Hq Hq' Hy Hz E. destruct (Hel q nd1 y Hq Hy) as [(nd3 & A1 & A2)|(-> & -> & A1 & A2)], (Hel q' nd2 z Hq' Hz) as [(nd4 & B1 & B2)|(-> & -> & B1 & B2)].
    + by apply (H3 q q' nd3 nd4).
    + by destruct (B2 q nd3 y A1 A2).
    + by destruct (A2 q' nd4 z B1 B2).
    + split; [done|]. by apply (conn_inj (pFirst nd')).
  - intros q nd1 y s Hq Hy Hs. destruct (Hel q nd1 y Hq Hy) as [(nd3 & A1 & A2)|(-> & -> & A1 & A2)]; [by apply (H4 q nd3)|]. rewrite idle_bit by done.
    destruct (m !! (s_conn y, s)) eqn:E; [|done]. destruct (H5 _ _ _ E) as (_ & q & nd0 & z & B1 & B2 & B3). by destruct (A2 q nd0 z B1 B2).
  - intros c s b Hc. destruct (H5 c s b Hc) as (Hs & q & nd0 & y & A1 & A2 & <-). split; [done|]. destruct (decide (q = p)) as [->|Hne]; [|exists q, nd0, y; by rewrite lookup_insert_ne].
    rewrite Hp in A1. injection A1 as <-. destruct (Hold y A2) as [Hy|Hi]; [exists p, nd', y; by rewrite lookup_insert_eq|]. rewrite (H4 p nd y s Hp A2 Hs), idle_bit in Hc by done. done.
  - intros q nd1 s Hq Hs. destruct (decide (q = p)) as [->|]; [rewrite lookup_insert_eq in Hq; injection Hq as <-; rewrite Hneeds; by apply H6|]. rewrite lookup_insert_ne in Hq by done. by apply H6.
  - intros q nd1 y z s Hq Hy Hz Hne Hs E. destruct (Hel q nd1 y Hq Hy) as [(nd3 & A1 & A2)|(_ & _ & [_ A1] & _)]; [|rewrite A1, Z.bits_0 in E; done].
    destruct (Hel q nd1 z Hq Hz) as [(nd4 & B1 & B2)|(_ & _ & B1 & _)]; [|by apply idle_bit]. apply (H7 q nd3 y z); try done. congruence.
  - intros q s Hq Hs. apply lookup_insert_None in Hq as [Hq _]. by apply H8.
  - intros q nd1 Hq. destruct (decide (q = p)) as [->|]; [by rewrite lookup_insert_eq in Hq; injection Hq as <-|]. rewrite lookup_insert_ne in Hq by done. by apply (H9 q).
Qed.

Lemma shm_link_ok k ps m p nd c : shm_ok k ps m -> ps !! p = Some nd -> fresh ps c -> shm_ok k (<[p := shm_link nd c]> ps) m.
Proof.
  intros Hok Hp Hc. destruct (h_ref _ _ _ Hok p nd Hp) as [A1 A2]. apply (idle_ok k ps m p nd); try done.
  - intros y [->|Hy]%elem_of_cons; [right; split; [done|exact Hc]|by left].
  - intros y Hy. left. by right.
  - cbn [shm_link n_nRef pFirst length]. lia.
  - cbn. apply NoDup_cons. split; [|done]. intros (y & E & Hy)%list_elem_of_fmap. by destruct (Hc p nd y Hp Hy).
Qed.
Lemma unixOpenSharedMemory_ok k ps m p c fd tr rc o k' : shm_ok k ps m -> fresh ps c -> 0 <= fd -> unixOpenSharedMemory k p (ps !! p) c fd tr = (rc, o, k') ->
  shm_ok k' (partial_alter (fun _ => o) p ps) m.
Proof.
  intros Hok Hc Hfd. unfold unixOpenSharedMemory. destruct (ps !! p) as [nd|] eqn:Hp; [intros [= _ <- <-]; by apply shm_link_ok|].
  destruct (shm_node k p fd tr) as [[rc1 r] k1] eqn:E. pose proof (shm_node_ok k ps m p fd tr rc1 r k1 Hok Hp Hfd E) as Hr. destruct r as [nd|]; intros [= _ <- <-].
  - destruct Hr as [Hnil Hr]. apply (shm_link_ok k1 _ m p nd c) in Hr.
    + by rewrite insert_insert_eq in Hr.
    + by rewrite lookup_insert_eq.
    + intros q nd0 y Hq Hy. destruct (decide (q = p)) as [->|]; [|rewrite lookup_insert_ne in Hq by done; by apply (Hc q nd0)]. rewrite lookup_insert_eq in Hq. injection Hq as <-. rewrite Hnil in Hy. by apply not_elem_of_nil in Hy.
  - change (partial_alter _ p ps) with (delete p ps). by rewrite delete_id.
Qed.
(** The last connection of a process goes, and closes the file. *)
Lemma node_delete k ps m p nd k' : shm_ok k ps m -> ps !! p = Some nd -> (forall y, y ∈ pFirst nd -> idle y) -> valid k' ->
  (forall q b, q <> p -> held k' q b = held k q b) -> (forall b, held k' p b = None) -> shm_ok k' (delete p ps) m.
Proof.
  intros [H1 H2 H3 H4 H5 H6 H7 H8 H9] Hp Hi Hv Hq Hself.
  assert (forall q nd1, delete p ps !! q = Some nd1 -> q <> p /\ ps !! q = Some nd1) as Hd by (intros q nd1 [? ?]%lookup_delete_Some; split; [congruence|done]).
  constructor; try done.
  - intros q nd1 [_ Hq1]%Hd. by apply (H2 q).
  - intros q q' nd1 nd2 y z [_ Hq1]%Hd [_ Hq2]%Hd. by apply H3.
  - intros q nd1 y s [_ Hq1]%Hd. by apply (H4 q nd1).
  - intros c s b Hc. destruct (H5 c s b Hc) as (Hs & q & nd0 & y & A1 & A2 & <-). split; [done|]. exists q, nd0, y. split; [|done]. rewrite lookup_delete_ne; [done|]. intros <-.
    rewrite Hp in A1. injection A1 as <-. rewrite (H4 p nd y s Hp A2 Hs), (idle_bit y s (Hi y A2)) in Hc. done.
  - intros q nd1 s [Hne Hq1]%Hd Hs. rewrite Hq by done. by apply H6.
  - intros q nd1 y z s [_ Hq1]%Hd. by apply (H7 q nd1).
  - intros q s Hq1 Hs. destruct (decide (q = p)) as [->|Hne]; [apply Hself|]. rewrite lookup_delete_ne in Hq1 by done. rewrite Hq by done. by apply H8.
  - intros q nd1 [_ Hq1]%Hd. by apply (H9 q).
Qed.
Lemma filter_conn x l : object x l -> NoDup (map s_conn l) ->
  length l = S (length (filter (fun s => s_conn s <> s_conn x) l)) /\ NoDup (map s_conn (filter (fun s => s_conn s <> s_conn x) l)).
Proof.
  intros [Hx _]. induction l as [|y l IH]; [by apply not_elem_of_nil in Hx|]. cbn [map]. intros [Hn Hd]%NoDup_cons.
  assert (forall l0, (forall z, z ∈ l0 -> z ∈ l) -> s_conn y ∉ map s_conn l0) as Hsub by (intros l0 Hl0 (z & Ez & Hz)%list_elem_of_fmap; apply Hn; apply list_elem_of_fmap; eauto).
  destruct (decide (s_conn y = s_conn x)) as [E|E].
  - rewrite filter_cons_False by naive_solver. cbn [length]. assert (filter (fun s => s_conn s <> s_conn x) l = l) as ->; [|done]. clear IH Hx Hsub. rewrite E in Hn. clear E. induction l as [|z l IH]; [done|].
    cbn [map] in Hn, Hd. apply not_elem_of_cons in Hn as [Hn1 Hn2]. apply NoDup_cons in Hd as [_ Hd]. rewrite filter_cons_True by congruence. by rewrite IH.
  - rewrite filter_cons_True by done. apply elem_of_cons in Hx as [->|Hx]; [done|]. destruct (IH Hx Hd) as [IH1 IH2]. cbn [length map]. split; [by rewrite <- IH1|]. apply NoDup_cons. split; [|done].
    apply Hsub. intros z Hz. by apply list_elem_of_filter in Hz as [_ Hz].
Qed.
Lemma unixShmUnmap_ok k ps m p nd x o k' : shm_ok k ps m -> ps !! p = Some nd -> x ∈ pFirst nd -> idle x -> unixShmUnmap k p nd (s_conn x) = (o, k') ->
  shm_ok k' (partial_alter (fun _ => o) p ps) m.
Proof.
  intros Hok Hp Hx Hi. pose proof (shm_object _ _ _ _ _ _ Hok Hp Hx) as Hobj. destruct (h_ref _ _ _ Hok p nd Hp) as [A1 A2]. destruct (filter_conn x _ Hobj A2) as [B1 B2].
  assert (forall y, y ∈ pFirst nd -> y ∈ filter (fun s => s_conn s <> s_conn x) (pFirst nd) \/ idle y) as Hold.
  { intros y Hy. destruct (decide (s_conn y = s_conn x)) as [E|E]; [right; destruct Hobj as [_ Hu]; by rewrite (Hu y Hy E)|left; by apply list_elem_of_filter]. }
  unfold unixShmUnmap. cbn [n_nRef n_h]. destruct (Z.eqb_spec (n_nRef nd - 1) 0) as [E|E]; intros [= <- <-].
  - rewrite (proj2 (Z.leb_le _ _) (h_fd _ _ _ Hok p nd Hp)). apply (node_delete k ps m p nd); try done.
    + intros y Hy. destruct (Hold y Hy) as [Hy'|]; [|done]. destruct (filter _ (pFirst nd)); [by apply not_elem_of_nil in Hy'|]. cbn [length] in B1. lia.
    + apply valid_closefd, (h_valid _ _ _ Hok).
    + intros q b Hq. by apply closefd_other.
    + intros b. apply closefd_own.
  - apply (idle_ok k ps m p nd); try done.
    + intros y [_ Hy]%list_elem_of_filter. by left.
    + cbn [n_nRef pFirst]. lia.
Qed.

(** * Processes that share a wal-index *)

(** What a step of a process shows: an access to the wal-index of WalTrans.v by a connection, with its answer. *)
Abbreviation event := (Z * op * Ans)%type.
Abbreviation shm_state := (K * gmap Z unixShmNode)%type.

Definition lock_flags (ex : bool) : Z := if ex then SQLITE_SHM_EXCLUSIVE else SQLITE_SHM_SHARED.
(** The slots of a request; the assertions of unixShmLock. *)
Definition slots_ok (ex : bool) (ofst n : Z) : Prop := 0 <= ofst /\ 1 <= n /\ ofst + n <= SQLITE_SHM_NLOCK /\ (ex = false -> n = 1).

(** Processes open and close connections and request locks. As the comment of unixShmLock demands, a lock is given up by a connection that has it and in the mode
    it was taken in; a connection is closed when it has no lock. Every operation runs under the mutex of the
    node or that of the process, and is one step. A request to unlock that fails leaves the lock with the connection: it is no access of WalSys.v. *)
Inductive shm_step : shm_state -> list event -> shm_state -> Prop :=
| S_open k ps p c fd tr rc o k' : fresh ps c -> 0 <= fd -> unixOpenSharedMemory k p (ps !! p) c fd tr = (rc, o, k') ->
    shm_step (k, ps) [] (k', partial_alter (fun _ => o) p ps)
| S_lock k ps p nd x ex ofst n rc k' nd' : ps !! p = Some nd -> x ∈ pFirst nd -> slots_ok ex ofst n ->
    unixShmLock k p nd (s_conn x) ofst n (SQLITE_SHM_LOCK .| lock_flags ex) = (rc, k', nd') ->
    shm_step (k, ps) [(s_conn x, OShmLock ex ofst n, ans_z rc)] (k', <[p := nd']> ps)
| S_unlock k ps p nd x ex ofst n rc k' nd' : ps !! p = Some nd -> x ∈ pFirst nd -> slots_ok ex ofst n -> (forall s, ofst <= s < ofst + n -> bit x s = Some ex) ->
    unixShmLock k p nd (s_conn x) ofst n (SQLITE_SHM_UNLOCK .| lock_flags ex) = (rc, k', nd') ->
    shm_step (k, ps) (if rc =? SQLITE_OK then [(s_conn x, OShmUnlock ofst n, ans_z rc)] else []) (k', <[p := nd']> ps)
| S_close k ps p nd x o k' : ps !! p = Some nd -> x ∈ pFirst nd -> idle x -> unixShmUnmap k p nd (s_conn x) = (o, k') ->
    shm_step (k, ps) [] (k', partial_alter (fun _ => o) p ps).

Inductive shm_trace : shm_state -> list event -> shm_state -> Prop :=
| T_nil s : shm_trace s [] s
| T_cons s1 s2 s3 t1 t2 : shm_step s1 t1 s2 -> shm_trace s2 t2 s3 -> shm_trace s1 (t1 ++ t2) s3.

(** The same accesses in the system of WalSys.v, where the environment chooses. *)
Inductive world_trace (sz : Z) : World -> list event -> World -> Prop :=
| W_nil w : world_trace sz w [] w
| W_cons w1 w2 w3 c o a ch t : exec_op sz c w1 o ch None = (a, w2) -> world_trace sz w2 t w3 -> world_trace sz w1 ((c, o, a) :: t) w3.

Lemma world_app sz w1 t1 w2 t2 w3 : world_trace sz w1 t1 w2 -> world_trace sz w2 t2 w3 -> world_trace sz w1 (t1 ++ t2) w3.
Proof. induction 1; [done|]. intros H'. cbn. eapply W_cons; eauto. Qed.

Lemma lock_world sz k' ps' w c ex ofst n rc : (rc = SQLITE_OK /\ grantable (w_locks w) c ex ofst n /\ shm_ok k' ps' (add_locks (w_locks w) c ex ofst n)) \/ (rc = SQLITE_BUSY /\ shm_ok k' ps' (w_locks w)) ->
  exists w', world_trace sz w [(c, OShmLock ex ofst n, ans_z rc)] w' /\ shm_ok k' ps' (w_locks w').
Proof.
  intros [(-> & Hg & Hok)|[-> Hok]].
  - exists (set_locks w (add_locks (w_locks w) c ex ofst n)). split; [|done]. apply (W_cons _ _ _ _ _ _ _ 0 _) with (2 := W_nil _ _). cbn [exec_op Z.eqb negb]. by rewrite bool_decide_true.
  - exists w. split; [|done]. by apply (W_cons _ _ _ _ _ _ _ SQLITE_BUSY _) with (2 := W_nil _ _).
Qed.
Lemma step_simulates sz s t s' w : shm_step s t s' -> shm_ok s.1 s.2 (w_locks w) -> exists w', world_trace sz w t w' /\ shm_ok s'.1 s'.2 (w_locks w').
Proof.
  intros Hst. destruct Hst as [k ps p c fd tr rc o k' Hc Hfd E|k ps p nd x ex ofst n rc k' nd' Hp Hx (Ho & Hn & Hle & H1) E|k ps p nd x ex ofst n rc k' nd' Hp Hx (Ho & Hn & Hle & H1) Hb E|k ps p nd x o k' Hp Hx Hi E];
    cbn [fst snd]; intros Hok.
  - exists w. split; [constructor|]. by eapply unixOpenSharedMemory_ok.
  - apply lock_world. destruct ex.
    + by apply (excl_request k ps (w_locks w) p nd x ofst n Hok Hp Hx Ho Hn Hle rc k' nd').
    + apply (shared_request k ps (w_locks w) p nd x ofst n Hok Hp Hx Ho Hn Hle rc k' nd'); [by apply H1|done].
  - destruct (unlock_request k ps (w_locks w) p nd x ofst n Hok Hp Hx Ho Hn Hle ex _ rc k' nd' eq_refl H1) as [[-> Hok']|[-> Hok']]; [|done| |by cbn; exists w; split; [constructor|]].
    + intros s [Hs1%Z.leb_le Hs2%Z.ltb_lt]%andb_true_iff. rewrite (h_bits _ _ _ Hok p nd x s Hp Hx) by lia. apply Hb. lia.
    + exists (set_locks w (drop_locks (w_locks w) (s_conn x) ofst n)). split; [|done]. by apply (W_cons _ _ _ _ _ _ _ 0 _) with (2 := W_nil _ _).
  - exists w. split; [constructor|]. by eapply unixShmUnmap_ok.
Qed.
Lemma trace_simulates sz s t s' : shm_trace s t s' -> forall w, shm_ok s.1 s.2 (w_locks w) -> exists w', world_trace sz w t w' /\ shm_ok s'.1 s'.2 (w_locks w').
Proof.
  induction 1 as [s|s1 s2 s3 t1 t2 Hst _ IH]; intros w Hok; [exists w; split; [constructor|done]|]. destruct (step_simulates sz _ _ _ w Hst Hok) as (w1 & Hw1 & Hok1).
  destruct (IH w1 Hok1) as (w2 & Hw2 & Hok2). exists w2. split; [by eapply world_app|done].
Qed.

Lemma ok_exclusive k ps m p q nd nd' x y s : shm_ok k ps m -> ps !! p = Some nd -> ps !! q = Some nd' -> x ∈ pFirst nd -> y ∈ pFirst nd' -> s_conn x <> s_conn y ->
  0 <= s < SQLITE_SHM_NLOCK -> bit x s = Some true -> bit y s = None.
Proof.
  intros Hok Hp Hq Hx Hy Hne Hs Hb. destruct (decide (p = q)) as [->|Hpq].
  - simplify_eq. apply (h_excl _ _ _ Hok q nd x y); try done. unfold bit in Hb. destruct (Z.testbit (exclMask x) s); [done|]. by destruct (Z.testbit (sharedMask x) s).
  - destruct (bit y s) as [b|] eqn:E; [|done]. destruct (bit_needs x _ s true Hx Hb) as [_ Hwr]. destruct (bit_needs y _ s b Hy E) as [Hn _].
    rewrite <- (h_posix _ _ _ Hok p nd s Hp Hs) in Hwr. rewrite <- (h_posix _ _ _ Hok q nd' s Hq Hs) in Hn. by destruct Hn; apply (held_excl k p q); [apply (h_valid _ _ _ Hok)|done|apply Hwr].
Qed.

(** ** Executable runs *)

Inductive shm_act := AShmOpen (p c fd : Z) (trunc : bool) | AShmLock (p c : Z) (ex : bool) (ofst n : Z) | AShmUnlock (p c : Z) (ex : bool) (ofst n : Z) | AShmClose (p c : Z).

Definition fresh_b (ps : gmap Z unixShmNode) (c : Z) : bool := bool_decide (map_Forall (fun _ nd => Forall (fun y => s_conn y <> c) (pFirst nd)) ps).
Definition find_conn (ps : gmap Z unixShmNode) (p c : Z) : option (unixShmNode * unixShm) :=
  nd ← ps !! p; x ← List.find (fun y => s_conn y =? c) (pFirst nd); Some (nd, x).
Definition all_bits (x : unixShm) (ofst n : Z) (b : option bool) : bool := bool_decide (Forall (fun s => bit x s = b) (seqZ ofst n)).
#[export] Instance slots_ok_dec ex ofst n : Decision (slots_ok ex ofst n).
Proof. unfold slots_ok. apply _. Defined.

Definition shm_do (s : shm_state) (a : shm_act) : option (list event * shm_state) :=
  let '(k, ps) := s in
  match a with
  | AShmOpen p c fd tr =>
      if fresh_b ps c && (0 <=? fd) then let '(_, o, k) := unixOpenSharedMemory k p (ps !! p) c fd tr in Some ([], (k, partial_alter (fun _ => o) p ps)) else None
  | AShmLock p c ex ofst n =>
      '(nd, x) ← find_conn ps p c;
      if bool_decide (slots_ok ex ofst n) then
        let '(rc, k, nd) := unixShmLock k p nd c ofst n (SQLITE_SHM_LOCK .| lock_flags ex) in Some ([(c, OShmLock ex ofst n, ans_z rc)], (k, <[p := nd]> ps))
      else None
  | AShmUnlock p c ex ofst n =>
      '(nd, x) ← find_conn ps p c;
      if bool_decide (slots_ok ex ofst n) && all_bits x ofst n (Some ex) then
        let '(rc, k, nd) := unixShmLock k p nd c ofst n (SQLITE_SHM_UNLOCK .| lock_flags ex) in Some (if rc =? SQLITE_OK then [(c, OShmUnlock ofst n, ans_z rc)] else [], (k, <[p := nd]> ps))
      else None
  | AShmClose p c =>
      '(nd, x) ← find_conn ps p c;
      if (sharedMask x =? 0) && (exclMask x =? 0) then let '(o, k) := unixShmUnmap k p nd c in Some ([], (k, partial_alter (fun _ => o) p ps)) else None
  end.
Fixpoint shm_play (l : list shm_act) (s : shm_state) : option (list event * shm_state) :=
  match l with
  | [] => Some ([], s)
  | a :: l => '(t1, s) ← shm_do s a; '(t2, s) ← shm_play l s; Some (t1 ++ t2, s)
  end.

Lemma find_conn_sound ps p c nd x : find_conn ps p c = Some (nd, x) -> ps !! p = Some nd /\ x ∈ pFirst nd /\ c = s_conn x.
Proof.
  unfold find_conn. destruct (ps !! p) as [nd0|]; [|done]. cbn. destruct (List.find _ _) as [x0|] eqn:E; [|done]. intros [= <- <-]. apply List.find_some in E as [E1 E2%Z.eqb_eq]. split; [done|].
  split; [by apply list_elem_of_In|done].
Qed.
Lemma all_bits_sound x ofst n b : all_bits x ofst n b = true -> forall s, ofst <= s < ofst + n -> bit x s = b.
Proof. intros H%bool_decide_eq_true s Hs. apply (proj1 (Forall_forall _ _) H). by apply elem_of_seqZ. Qed.
Lemma shm_do_sound s a t s' : shm_do s a = Some (t, s') -> shm_step s t s'.
Proof.
  destruct s as [k ps], a as [p c fd tr|p c ex ofst n|p c ex ofst n|p c]; cbn [shm_do].
  - destruct (fresh_b ps c) eqn:Hf, (Z.leb_spec 0 fd); try done. cbn [andb]. destruct (unixOpenSharedMemory _ _ _ _ _ _) as [[rc o] k'] eqn:E. intros [= <- <-]. apply bool_decide_eq_true in Hf.
    apply (S_open k ps p c fd tr rc o k'); [|done|done]. intros q nd y Hq Hy. exact (proj1 (Forall_forall _ _) (Hf q nd Hq) y Hy).
  - destruct (find_conn ps p c) as [[nd x]|] eqn:Ef; [|done]. cbn. apply find_conn_sound in Ef as (Hp & Hx & ->). destruct (bool_decide _) eqn:E1; [|done].
    apply bool_decide_eq_true in E1. destruct (unixShmLock _ _ _ _ _ _ _) as [[rc k'] nd'] eqn:E. intros [= <- <-]. by apply (S_lock k ps p nd x).
  - destruct (find_conn ps p c) as [[nd x]|] eqn:Ef; [|done]. cbn. apply find_conn_sound in Ef as (Hp & Hx & ->). destruct (bool_decide _) eqn:E1, (all_bits _ _ _ _) eqn:E2; try done. cbn [andb].
    apply bool_decide_eq_true in E1. destruct (unixShmLock _ _ _ _ _ _ _) as [[rc k'] nd'] eqn:E. intros [= <- <-]. apply (S_unlock k ps p nd x ex); try done. by apply all_bits_sound.
  - destruct (find_conn ps p c) as [[nd x]|] eqn:Ef; [|done]. cbn. apply find_conn_sound in Ef as (Hp & Hx & ->). destruct (Z.eqb_spec (sharedMask x) 0), (Z.eqb_spec (exclMask x) 0); try done. cbn [andb].
    destruct (unixShmUnmap _ _ _ _) as [o k'] eqn:E. intros [= <- <-]. by apply (S_close k ps p nd x).
Qed.
Lemma shm_play_sound l : forall s t s', shm_play l s = Some (t, s') -> shm_trace s t s'.
Proof.
  induction l as [|a l IH]; intros s t s'; cbn [shm_play]; [intros [= <- <-]; constructor|]. destruct (shm_do s a) as [[t1 s1]|] eqn:E1; [|done]. cbn.
  destruct (shm_play l s1) as [[t2 s2]|] eqn:E2; [|done]. intros [= <- <-]. eapply T_cons; [by apply (shm_do_sound s a)|by apply IH].
Qed.

(** C9. unixShmLock implements the locks on the wal-index that the theorems about transactions and checkpoints start from. Whatever connections of whatever
    processes open, close, lock and unlock, over record locks as POSIX promises them, the system of WalSys.v can make the same accesses with the same answers; at the end
    its table of locks is what the masks of the connections say, and a connection with an exclusive lock on a slot is the only one, in all processes, with a lock on it.
    Any system call can fail, and then changes no lock; when an unlock fails the connection keeps the lock in both systems, and WalSys.v, where an unlock always succeeds, sees
    no access. A connection unlocks slots that it has, in the mode in which it locked them, and is closed only when it has no lock. *)
Theorem shmLock_refines sz k0 w0 t k ps : valid k0 -> (forall p b, held k0 p b = None) -> w_locks w0 = ∅ -> shm_trace (k0, ∅) t (k, ps) ->
  exists w, world_trace sz w0 t w /\
    (forall p nd x s, ps !! p = Some nd -> x ∈ pFirst nd -> 0 <= s < SQLITE_SHM_NLOCK -> w_locks w !! (s_conn x, s) = bit x s) /\
    (forall p q nd nd' x y s, ps !! p = Some nd -> ps !! q = Some nd' -> x ∈ pFirst nd -> y ∈ pFirst nd' -> s_conn x <> s_conn y -> 0 <= s < SQLITE_SHM_NLOCK ->
      bit x s = Some true -> bit y s = None).
Proof.
  intros Hv Hk Hw Ht. destruct (trace_simulates sz _ _ _ Ht w0) as (w & Hw' & Hok); [rewrite Hw; by apply shm_empty|]. exists w. split; [done|].
  split; [intros p nd x s; apply (h_bits _ _ _ Hok)|]. intros p q nd nd' x y s. apply (ok_exclusive _ _ _ _ _ _ _ _ _ _ Hok).
Qed.
End refine.

(** ** An example: connections 1 and 2 of process 1, connection 3 of process 2 *)

Definition shm_script : list shm_act :=
  [AShmOpen 1 1 5 false; AShmOpen 1 2 6 false; AShmOpen 2 3 5 false; AShmLock 1 1 true 0 1; AShmLock 1 2 true 0 1; AShmLock 2 3 true 0 1; AShmLock 1 2 false 4 1; AShmLock 2 3 false 4 1;
   AShmLock 1 1 false 4 1; AShmUnlock 1 2 false 4 1; AShmLock 2 3 true 5 3; AShmClose 1 2; AShmUnlock 1 1 true 0 1].
Definition shm_start : Table * gmap Z unixShmNode := (∅, ∅).
Definition shm_run : list (Z * op * Ans) * (Table * gmap Z unixShmNode) := default ([], shm_start) (shm_play shm_script shm_start).
Definition world_start : World :=
  {| w_locks := ∅; w_hdr0 := zero_hdr; w_hdr1 := zero_hdr; w_backfill := 0; w_marks := []; w_index := []; w_log := ∅; w_db := ∅; w_commits := [] |}.

(** The answers of the run: the second and the third request are refused. *)
Example shm_answers : map (fun e => (e.1.1, a_z e.2)) shm_run.1 =
  [(1, SQLITE_OK); (2, SQLITE_BUSY); (3, SQLITE_BUSY); (2, SQLITE_OK); (3, SQLITE_OK); (1, SQLITE_OK); (2, SQLITE_OK); (3, SQLITE_OK); (1, SQLITE_OK)].
Proof. vm_compute. reflexivity. Qed.
(** After the run process 1 still has the read-lock that connections 1 and 2 shared. *)
Example shm_left : tab_held shm_run.2.1 1 (UNIX_SHM_BASE + 4) = Some Rd /\ tab_held shm_run.2.1 2 (UNIX_SHM_BASE + 5) = Some Wr /\ tab_held shm_run.2.1 1 UNIX_SHM_BASE = None.
Proof. vm_compute. done. Qed.

Lemma shmLock_refines_witness : exists w, world_trace 512 world_start shm_run.1 w.
Proof.
  assert (forall p b, tab_held ∅ p b = None) as Hk by (intros p b; reflexivity). edestruct (shmLock_refines 512 ∅ world_start shm_run.1 shm_run.2.1 shm_run.2.2) as (w & Hw & _).
  - intros p q b _ _. apply Hk.
  - exact Hk.
  - reflexivity.
  - change ∅ with shm_start.1 at 1. apply (shm_play_sound shm_script). vm_compute. reflexivity.
  - exists w. exact Hw.
Defined.
