(* ===== verification/WalExec.v ===== *)
(** Schedules of the system of WalSys.v, executed.

    [play] executes a list of instructions, each of which lets a connection take some steps, and checks a condition on the shared state after each step;
    a schedule that succeeds is a run. The schedules here show that the hypotheses of WalSnap.v can hold, and that a checkpoint can lose a commit when
    a log is restarted after the checkpoint has read the header. *)
From S2P Require Import Prelude WalHash WalIter WalLog WalWrite WalSpec WalTrans WalSys.
Local Open Scope Z_scope.

(** * Decidability *)

Definition restarting_b (l : gmap (Z * Z) bool) (c : Z) : Prop := Forall (fun i => l !! (c, WAL_READ_LOCK i) = Some true) [1; 2; 3; 4].
Lemma restarting_spec l c : restarting l c <-> restarting_b l c.
Proof.
  unfold restarting, restarting_b, WAL_NREADER. rewrite Forall_forall. split; intros H i Hi.
  - apply H. set_unfold. lia.
  - apply H. set_unfold. lia.
Qed.
#[export] Instance restarting_dec l c : Decision (restarting l c).
Proof. refine (cast_if (decide (restarting_b l c))); by rewrite restarting_spec. Defined.
Definition apart_b (l : gmap (Z * Z) bool) : Prop :=
  map_Forall (fun k e => k.2 = WAL_CKPT_LOCK -> e = true -> map_Forall (fun (k' : Z * Z) (_ : bool) => k'.1 = k.1 \/ ~ restarting l k'.1) l) l.
Lemma apart_spec w : apart w <-> apart_b (w_locks w).
Proof.
  split.
  - intros H [c t] e Hc Et Ee [d u] e' Hd. cbn in *. subst. destruct (decide (d = c)) as [|Hne]; [by left|]. right. by apply (H c d).
  - intros H c d Hne Hc Hd. pose proof (Hd 1 ltac:(done)) as H1. destruct (H _ _ Hc eq_refl eq_refl _ _ H1) as [E|E]; cbn in E; [by subst|done].
Qed.
#[export] Instance apart_dec w : Decision (apart w).
Proof. refine (cast_if (decide (apart_b (w_locks w)))); by rewrite apart_spec. Defined.
#[export] Instance good_dec w : Decision (good w).
Proof. unfold good. apply _. Defined.
#[export] Instance call_ok_dec sz w x k : Decision (call_ok sz w x k).
Proof. destruct k; cbn [call_ok]; unfold dirty_ok; apply _. Defined.

(** * Schedules *)

Section exec.
Context (sz : Z) (G : World -> Prop) `{forall w, Decision (G w)}.

Definition ok_step (s s' : State) : Prop := sys_step sz s s' /\ G s'.1.
Definition guard_ok (s : State) : option State := if decide (G s.1) then Some s else None.

(** At most [n] accesses of connection [c] that do not fail; with [ret] the operation returns when it is done. *)
Fixpoint drive (n : nat) (ret : bool) (c : Z) (s : State) : option State :=
  match s.2 !! c with
  | Some (Running (Ret (rc, x))) => if ret then guard_ok (s.1, <[c := Idle x]> s.2) else Some s
  | Some (Running (Do o p)) =>
      match n with
      | O => if ret then None else Some s
      | S n => let '(a, w) := exec_op sz c s.1 o 0 None in guard_ok (w, <[c := Running (p a)]> s.2) ≫= drive n ret c
      end
  | _ => None
  end.

(** A new connection; an operation as a whole; the call of an operation and its first [n] accesses; the rest of an operation. *)
Inductive instr := IOpen (c : Z) | ICall (c : Z) (k : call) | IStart (c : Z) (k : call) (n : nat) | IFinish (c : Z).
Definition begin (c : Z) (k : call) (s : State) : option State :=
  match s.2 !! c with
  | Some (Idle x) => if decide (call_ok sz s.1 x k) then guard_ok (s.1, <[c := Running (program sz x k)]> s.2) else None
  | _ => None
  end.
Definition play1 (i : instr) (s : State) : option State :=
  match i with
  | IOpen c => if decide (s.2 !! c = None) then guard_ok (s.1, <[c := Idle (new_conn 0 (-1))]> s.2) else None
  | ICall c k => begin c k s ≫= drive 1000 true c
  | IStart c k n => begin c k s ≫= drive n false c
  | IFinish c => drive 1000 true c s
  end.
Fixpoint play (l : list instr) (s : State) : option State := match l with [] => Some s | i :: l => play1 i s ≫= play l end.

Lemma guard_step s s1 s2 : sys_step sz s s1 -> guard_ok s1 = Some s2 -> rtc ok_step s s2.
Proof. unfold guard_ok. intros Hs. case_decide; [|done]. intros [= <-]. by apply rtc_once. Qed.
Lemma drive_sound ret c : forall n s s', drive n ret c s = Some s' -> rtc ok_step s s'.
Proof.
  induction n as [|n IH]; intros [w cs] s'; cbn [drive fst snd]; destruct (cs !! c) as [[x|[[rc x]|o p]]|] eqn:E; try done.
  1, 3: destruct ret; [|by intros [= <-]]; apply guard_step; by econstructor.
  - destruct ret; [done|]. by intros [= <-].
  - destruct (exec_op sz c w o 0 None) as [a w'] eqn:Ee. intros (s1 & H1 & H2)%bind_Some. etrans; [|by eapply IH]. eapply guard_step; [|exact H1].
    pose proof (step_op sz w cs c o p 0 None E) as Hs. by rewrite Ee in Hs.
Qed.
Lemma begin_sound c k s s' : begin c k s = Some s' -> rtc ok_step s s'.
Proof.
  destruct s as [w cs]. unfold begin. cbn [fst snd]. destruct (cs !! c) as [[x|]|] eqn:E; try done. case_decide as Hk; [|done]. apply guard_step. by apply step_call.
Qed.
Lemma play_sound : forall l s s', play l s = Some s' -> rtc ok_step s s'.
Proof.
  induction l as [|i l IH]; intros s s'; cbn [play]; [by intros [= <-]|]. intros (s1 & H1 & H2)%bind_Some. etrans; [|by eapply IH].
  destruct i as [c|c k|c k n|c]; cbn [play1] in H1.
  - destruct s as [w cs]. cbn [fst snd] in H1. case_decide as E; [|done]. eapply guard_step; [|exact H1]. by apply step_open.
  - apply bind_Some in H1 as (s2 & A & B). etrans; [by eapply begin_sound|by eapply drive_sound].
  - apply bind_Some in H1 as (s2 & A & B). etrans; [by eapply begin_sound|by eapply drive_sound].
  - by eapply drive_sound.
Qed.
End exec.

(** * Examples *)

(** A database of three pages, with an empty log. *)
Definition hdr_example : WalIndexHdr :=
  seal {| iVersion := WALINDEX_MAX_VERSION; unused := 0; iChange := 0; isInit := 1; bigEndCksum := 0; hszPage := 512; mxFrame := 0; nPage := 3; aFrameCksum := (0, 0);
          aSalt := replicate 8 0; aCksum := (0, 0) |}.
Definition db_example : pages := {[ 1 := [11]; 2 := [12]; 3 := [13] ]}.
Definition world_example : World :=
  {| w_locks := ∅; w_hdr0 := hdr_example; w_hdr1 := hdr_example; w_backfill := 0; w_marks := replicate 5 0; w_index := []; w_log := ∅;
     w_db := {[ 0 := [11]; 512 := [12]; 1024 := [13] ]}; w_commits := [(hdr_example, db_example)] |}.
Definition s_example : State := (world_example, ∅).

Lemma start_example : start 512 s_example.
Proof.
  split; [done|]. split; [done|]. split; [done|]. split; [done|]. split; [done|]. split; [done|]. split; [done|]. exists db_example. split; [done|]. intros pg d.
  change (nPage (w_hdr0 s_example.1)) with 3. change (w_db s_example.1) with ({[ 0 := [11]; 512 := [12]; 1024 := [13] ]} : pages). unfold db_example, page_pos. intros H.
  rewrite !lookup_insert_Some, lookup_singleton_Some in H. destruct H as [[<- <-]|[_ [[<- <-]|[_ [<- <-]]]]]; (split; [lia|reflexivity]).
Qed.

(** A transaction that writes one page. *)
Definition transaction (c pg v : Z) : list instr :=
  [ICall c KBeginRead; ICall c KBeginWrite; ICall c (KFrames [dirty pg v] 3 true 0); ICall c KEndWrite; ICall c KEndRead].
Definition passive : call := KCheckpoint 0 SQLITE_CHECKPOINT_PASSIVE false 0.

Definition no_dup (w : World) : Prop := NoDup (map fst (w_commits w)).
Definition race : list instr :=
  [IOpen 1; IOpen 2; IOpen 3] ++ transaction 1 2 21 ++ transaction 1 3 31 ++ [ICall 2 passive; IStart 2 passive 4] ++ transaction 1 2 22 ++ [IFinish 2] ++ transaction 1 3 32 ++
  [ICall 3 KBeginRead].

(** The state after a schedule, and a connection that is idle in it. *)
Definition after (G : World -> Prop) `{forall w, Decision (G w)} (l : list instr) (s : State) : State := default s (play 512 G l s).
Definition conn (s : State) (c : Z) : Conn :=
  match s.2 !! c with Some (Idle x) => x | Some (Running (Ret (_, x))) => x | _ => new_conn 0 0 end.
Definition idle (s : State) (c : Z) : bool := match s.2 !! c with Some (Idle _) => true | _ => false end.

Lemma after_run (G : World -> Prop) `{forall w, Decision (G w)} l s : bool_decide (is_Some (play 512 G l s)) = true -> rtc (ok_step 512 G) s (after G l s).
Proof. intros [s' E]%bool_decide_eq_true. unfold after. rewrite E. by apply play_sound in E. Qed.
Lemma idle_conn s c : idle s c = true -> s.2 !! c = Some (Idle (conn s c)).
Proof. unfold idle, conn. by destruct (s.2 !! c) as [[x|p]|]. Qed.

(** In the schedule [race] the log is restarted, by a commit, after a passive checkpoint has read the header and before it reads [nBackfill]: the checkpoint then sets
    [nBackfill] to the size of the old log. After another commit the new log has that size. *)
Definition s_race : State := after no_dup race s_example.
Definition stale (s : State) (c pg : Z) : bool :=
  idle s c && (0 <=? c_readLock (conn s c)) && (c_writeLock (conn s c) =? 0) && bool_decide (w_hdr0 s.1 = c_hdr (conn s c)) &&
  bool_decide (last (w_commits s.1) = Some (w_hdr0 s.1, latest s.1)) && bool_decide (is_Some (latest s.1 !! pg)) && bool_decide (reads 512 s.1 (conn s c) pg <> latest s.1 !! pg).
Lemma stale_spec s c pg : stale s c pg = true -> exists x p d, s.2 !! c = Some (Idle x) /\ 0 <= c_readLock x /\ c_writeLock x = 0 /\
  last (w_commits s.1) = Some (c_hdr x, p) /\ p !! pg = Some d /\ reads 512 s.1 x pg <> Some d.
Proof.
  unfold stale. rewrite !andb_true_iff, !bool_decide_eq_true. intros ((((((H1 & H2) & H3) & H4) & H5) & [d H6]) & H7).
  exists (conn s c), (latest s.1), d. rewrite <- H4. split_and!; [by apply idle_conn|lia|lia|done|done|]. by rewrite <- H6.
Qed.
Lemma race_stale : stale s_race 3 3 = true.
Proof. vm_compute. reflexivity. Qed.

(** C38. Without the hypothesis that logs are not restarted during checkpoints, a commit can be lost: a connection that begins a read transaction with the header of the last
    commit reads an old version of a page. *)
Theorem checkpoint_race : exists s0 s c x pg p d, start 512 s0 /\ rtc (ok_step 512 no_dup) s0 s /\ s.2 !! c = Some (Idle x) /\ 0 <= c_readLock x /\ c_writeLock x = 0 /\
  last (w_commits s.1) = Some (c_hdr x, p) /\ p !! pg = Some d /\ reads 512 s.1 x pg <> Some d.
Proof.
  destruct (stale_spec _ _ _ race_stale) as (x & p & d & H). exists s_example, s_race, 3, x, 3, p, d. split; [apply start_example|]. split; [apply after_run; vm_compute; reflexivity|done].
Qed.
