(* ===== verification/WalIso.v ===== *)
(** The invariant of the system of WalSys.v, and what every access preserves of it.

    Programs are verified with a rely-guarantee method: [Inv] holds between any two accesses, [rely c] is what the accesses of other connections
    leave alone for connection [c], and [safe] says of a program that each of its accesses preserves [Inv] and what the others rely on.
    The record [Gh] of auxiliary state tells which snapshot each reader has and how far a checkpoint is. *)
From S2P Require Import Prelude WalHash WalIter WalLog WalWrite WalTrans WalSys.
Local Open Scope Z_scope.

(** * Auxiliary state *)

(** A checkpoint of the entry [k_entry] of the history: the readers in slots below [k_slot] do not need frames up to [k_safe] to be kept out of the
    database, the one in slot [k_slot] those up to [k_mark]. *)
Record Scan := { k_owner : Z; k_entry : nat; k_safe : Z; k_slot : Z; k_mark : Z }.

(** The history entry at which the log was restarted last; the connection that has stored one copy of the header; whether a restart has still to clear
    [nBackfill]; for each reader its slot and its entry in the history; the checkpoint. *)
Record Gh := { g_base : nat; g_mid : option Z; g_reset : bool; g_reg : gmap Z (Z * nat); g_ck : option Scan }.

Definition set_reg (g : Gh) (r : gmap Z (Z * nat)) : Gh := {| g_base := g_base g; g_mid := g_mid g; g_reset := g_reset g; g_reg := r; g_ck := g_ck g |}.
Definition set_ck (g : Gh) (k : option Scan) : Gh := {| g_base := g_base g; g_mid := g_mid g; g_reset := g_reset g; g_reg := g_reg g; g_ck := k |}.
Definition set_mid (g : Gh) (m : option Z) : Gh := {| g_base := g_base g; g_mid := m; g_reset := g_reset g; g_reg := g_reg g; g_ck := g_ck g |}.

Lemma last_frame_ext fs fs' n pg : (forall i, (i < n)%nat -> fs !! i = fs' !! i) -> last_frame fs n pg = last_frame fs' n pg.
Proof. induction n as [|n IH]; intros H; [done|]. cbn [last_frame]. rewrite H by lia. rewrite IH; [done|]. intros i Hi. apply H. lia. Qed.
Lemma last_frame_range fs n pg : 0 <= last_frame fs n pg <= Z.of_nat n.
Proof. destruct (last_frame_spec fs n pg) as [[-> _]|(i & Hi & -> & _)]; lia. Qed.
Lemma last_frame_max fs n pg i : (i < n)%nat -> fs !! i = Some pg -> Z.of_nat i + 1 <= last_frame fs n pg.
Proof. intros Hi Hl. destruct (last_frame_spec fs n pg) as [[_ H]|(j & Hj & -> & _ & H)]; [by destruct (H i Hi)|]. destruct (decide (i <= j)%nat); [lia|]. by destruct (H i ltac:(lia)). Qed.
(** What a longer prefix adds. *)
Lemma last_frame_older fs n m pg : (n <= m)%nat -> last_frame fs m pg <= Z.of_nat n -> last_frame fs n pg = last_frame fs m pg.
Proof.
  intros Hn Hl. destruct (last_frame_spec fs m pg) as [[E H]|(i & Hi & E & Hs & H)]; rewrite E in *.
  - destruct (last_frame_spec fs n pg) as [[-> _]|(j & Hj & _ & Hs & _)]; [done|]. by destruct (H j ltac:(lia)).
  - destruct (last_frame_spec fs n pg) as [[_ H']|(j & Hj & -> & Hs' & H')]; [by destruct (H' i ltac:(lia))|].
    destruct (Nat.lt_trichotomy i j) as [Hij|[->|Hij]]; [by destruct (H j ltac:(lia))|done|by destruct (H' i ltac:(lia))].
Qed.
Lemma last_frame_mono fs n m pg : (n <= m)%nat -> last_frame fs n pg <= last_frame fs m pg.
Proof. intros Hn. destruct (last_frame_spec fs n pg) as [[-> _]|(i & Hi & -> & Hs & _)]; [pose proof (last_frame_range fs m pg); lia|]. apply last_frame_max; [lia|done]. Qed.

Section iso.
Context (sz : Z) (Hsz : 0 < sz).

(** * The history *)

(** The entries from [b] on are the commits in the present log: every page of a commit is in its last frame, or was inherited. *)
Record History (cs : list (WalIndexHdr * pages)) (ix : list Z) (lg : gmap Z block) (b : nat) : Prop := {
  y_base : (b < length cs)%nat;
  y_mx j h s : (b <= j)%nat -> cs !! j = Some (h, s) -> 0 <= mxFrame h <= Z.of_nat (length ix);
  y_mono i j h s h' s' : (b <= i < j)%nat -> cs !! i = Some (h, s) -> cs !! j = Some (h', s') -> mxFrame h < mxFrame h';
  y_data j h s pg d : (b <= j)%nat -> cs !! j = Some (h, s) -> s !! pg = Some d -> last_frame ix (Z.to_nat (mxFrame h)) pg <> 0 ->
    lg !! frame_pos sz (last_frame ix (Z.to_nat (mxFrame h)) pg) = Some d;
  y_inh i j h s h' s' pg d : (b <= i <= j)%nat -> cs !! i = Some (h, s) -> cs !! j = Some (h', s') -> s' !! pg = Some d ->
    last_frame ix (Z.to_nat (mxFrame h')) pg <= mxFrame h -> s !! pg = Some d;
  y_dom j h s pg d : cs !! j = Some (h, s) -> s !! pg = Some d -> 1 <= pg <= nPage h
}.

(** The pages of [s] that are not in the first [n] frames are in the database file. *)
Definition backed (w : World) (n : Z) (s : pages) : Prop :=
  forall pg d, s !! pg = Some d -> last_frame (w_index w) (Z.to_nat n) pg = 0 -> w_db w !! page_pos sz pg = Some d.
Definition in_file (w : World) (s : pages) : Prop := forall pg d, s !! pg = Some d -> w_db w !! page_pos sz pg = Some d.

Definition mx (w : World) : Z := mxFrame (w_hdr0 w).
Definition held (w : World) (c s : Z) : option bool := w_locks w !! (c, s).

(** The reader [c] in slot [k] with entry [j]. *)
Definition reg_ok (w : World) (g : Gh) (c k : Z) (j : nat) : Prop :=
  0 <= k < WAL_NREADER /\ held w c (WAL_READ_LOCK k) = Some false /\
  exists h s, w_commits w !! j = Some (h, s) /\
    (k <> 0 -> (g_base g <= j)%nat /\ rd (w_marks w) k <= mxFrame h /\ backed w (mxFrame h) s) /\
    (k = 0 -> in_file w s /\ (S j = length (w_commits w) -> g_reset g = false /\ w_backfill w = mxFrame h)).

Definition scan_ok (w : World) (g : Gh) (k : Scan) : Prop :=
  held w (k_owner k) WAL_CKPT_LOCK = Some true /\ g_reset g = false /\ (g_base g <= k_entry k)%nat /\ 1 <= k_slot k /\
  exists h s, w_commits w !! k_entry k = Some (h, s) /\ k_safe k <= mxFrame h /\ k_mark k <= mxFrame h /\
    forall c i j h' s', g_reg g !! c = Some (i, j) -> w_commits w !! j = Some (h', s') ->
      (1 <= i < k_slot k -> k_safe k <= mxFrame h') /\ (i = k_slot k -> k_mark k <= mxFrame h').

Record Inv (w : World) (g : Gh) : Prop := {
  v_good : good w;
  v_ex c d s : c <> d -> held w c s = Some true -> held w d s = None;
  v_last : last (w_commits w) = Some (w_hdr0 w, latest w);
  v_seal : w_hdr0 w = seal (w_hdr0 w);
  v_mid : match g_mid g with None => w_hdr1 w = w_hdr0 w | Some c => held w c WAL_WRITE_LOCK = Some true end;
  v_hist : History (w_commits w) (w_index w) (w_log w) (g_base g);
  v_back : g_reset g = false -> 0 <= w_backfill w <= mx w /\
    forall pg d, latest w !! pg = Some d -> 0 < last_frame (w_index w) (Z.to_nat (mx w)) pg <= w_backfill w -> w_db w !! page_pos sz pg = Some d;
  v_reset : g_reset g = true -> mx w = 0 /\ 0 < w_backfill w /\
    exists c, held w c WAL_WRITE_LOCK = Some true /\ held w c WAL_CKPT_LOCK = None /\ restarting (w_locks w) c;
  v_file : backed w (mx w) (latest w);
  v_marks : length (w_marks w) = 5%nat;
  v_reg c k j : g_reg g !! c = Some (k, j) -> reg_ok w g c k j;
  v_ck k : g_ck g = Some k -> scan_ok w g k
}.

(** * What a connection relies on *)

Record rely (c : Z) (w : World) (g : Gh) (w' : World) (g' : Gh) : Prop := {
  r_locks s : held w' c s = held w c s;
  r_hist : w_commits w `prefix_of` w_commits w';
  r_write : held w c WAL_WRITE_LOCK = Some true -> w_hdr0 w' = w_hdr0 w /\ w_hdr1 w' = w_hdr1 w /\ w_commits w' = w_commits w /\ w_index w' = w_index w /\
    w_log w' = w_log w /\ g_base g' = g_base g /\ g_reset g' = g_reset g;
  r_mid : g_mid g' = Some c <-> g_mid g = Some c;
  r_mark i : 0 <= i < WAL_NREADER -> held w c (WAL_READ_LOCK i) <> None -> rd (w_marks w') i = rd (w_marks w) i;
  r_nb : length (w_commits w') = length (w_commits w) -> g_reset g = false -> g_reset g' = false /\ w_backfill w <= w_backfill w';
  r_ckpt : held w c WAL_CKPT_LOCK = Some true -> g_base g' = g_base g /\ w_backfill w' = w_backfill w /\ w_db w' = w_db w /\ g_reset g' = g_reset g;
  r_reg : g_reg g' !! c = g_reg g !! c;
  r_scan k : k_owner k = c -> g_ck g' = Some k <-> g_ck g = Some k;
  r_base : (g_base g <= g_base g')%nat;
  r_log : g_base g' = g_base g -> mx w <= mx w' /\ forall i, 1 <= i <= mx w ->
    w_index w' !! Z.to_nat (i - 1) = w_index w !! Z.to_nat (i - 1) /\ w_log w' !! frame_pos sz i = w_log w !! frame_pos sz i
}.

Lemma rely_refl c w g : rely c w g w g.
Proof. constructor; try done. Qed.

Lemma rely_trans c w1 g1 w2 g2 w3 g3 : rely c w1 g1 w2 g2 -> rely c w2 g2 w3 g3 -> rely c w1 g1 w3 g3.
Proof.
  intros A B. constructor.
  - intros s. by rewrite (r_locks _ _ _ _ _ B), (r_locks _ _ _ _ _ A).
  - etrans; [apply (r_hist _ _ _ _ _ A)|apply (r_hist _ _ _ _ _ B)].
  - intros H. destruct (r_write _ _ _ _ _ A H) as (<- & <- & <- & <- & <- & <- & <-). apply (r_write _ _ _ _ _ B). by rewrite (r_locks _ _ _ _ _ A).
  - by rewrite (r_mid _ _ _ _ _ B), (r_mid _ _ _ _ _ A).
  - intros i Hi H. rewrite (r_mark _ _ _ _ _ B i Hi) by by rewrite (r_locks _ _ _ _ _ A). by apply (r_mark _ _ _ _ _ A).
  - intros H Hr. pose proof (prefix_length _ _ (r_hist _ _ _ _ _ A)). pose proof (prefix_length _ _ (r_hist _ _ _ _ _ B)).
    destruct (r_nb _ _ _ _ _ A ltac:(lia) Hr) as [Hr2 ?]. destruct (r_nb _ _ _ _ _ B ltac:(lia) Hr2) as [? ?]. split; [done|lia].
  - intros H. destruct (r_ckpt _ _ _ _ _ A H) as (<- & <- & <- & <-). apply (r_ckpt _ _ _ _ _ B). by rewrite (r_locks _ _ _ _ _ A).
  - by rewrite (r_reg _ _ _ _ _ B), (r_reg _ _ _ _ _ A).
  - intros k Hk. by rewrite (r_scan _ _ _ _ _ B k Hk), (r_scan _ _ _ _ _ A k Hk).
  - pose proof (r_base _ _ _ _ _ A). pose proof (r_base _ _ _ _ _ B). lia.
  - intros H. pose proof (r_base _ _ _ _ _ A). pose proof (r_base _ _ _ _ _ B).
    destruct (r_log _ _ _ _ _ A ltac:(lia)) as [A1 A2]. destruct (r_log _ _ _ _ _ B ltac:(lia)) as [B1 B2]. split; [lia|]. intros i Hi.
    destruct (A2 i Hi) as [<- <-]. apply B2. lia.
Qed.

(** * Safe programs *)

(** The access of connection [c] that leads from [w] to [w'] keeps the invariant and what the others rely on. *)
Definition keeps (c : Z) (w : World) (g : Gh) (w' : World) (g' : Gh) : Prop := Inv w' g' /\ forall d, d <> c -> rely d w g w' g'.

Fixpoint safe {A} (c : Z) (p : Prog A) (w : World) (g : Gh) (Q : A -> World -> Gh -> Prop) : Prop :=
  forall w1 g1, Inv w1 g1 -> rely c w g w1 g1 ->
  match p with
  | Ret a => Q a w1 g1
  | Do o k => o <> ORecover /\ forall ch junk, let '(a, w') := exec_op sz c w1 o ch junk in good w' ->
      exists g', keeps c w1 g1 w' g' /\ safe c (k a) w' g' Q
  end.

Lemma safe_rely {A} c (p : Prog A) w g w1 g1 Q : rely c w g w1 g1 -> safe c p w g Q -> safe c p w1 g1 Q.
Proof. intros HR H. destruct p; cbn in *; intros w2 g2 HI HR2; (apply H; [done|by eapply rely_trans]). Qed.

Lemma safe_intro {A} c (p : Prog A) w g Q : (forall w1 g1, Inv w1 g1 -> rely c w g w1 g1 -> safe c p w1 g1 Q) -> safe c p w g Q.
Proof.
  intros H. destruct p; cbn in *; intros w1 g1 HI HR; specialize (H w1 g1 HI HR w1 g1 HI (rely_refl _ _ _)); apply H.
Qed.

Lemma safe_bind {A B} c (m : Prog A) (f : A -> Prog B) Q : forall w g, safe c m w g (fun a w g => safe c (f a) w g Q) -> safe c (m ≫= f) w g Q.
Proof.
  induction m as [a|o k IH]; intros w g H.
  - cbn in *. apply safe_intro. intros w1 g1 HI HR. by apply H.
  - cbn in *. intros w1 g1 HI HR. destruct (H w1 g1 HI HR) as [Ho Hs]. split; [done|]. intros ch junk. specialize (Hs ch junk).
    destruct (exec_op sz c w1 o ch junk) as [a w']. intros Hg. destruct (Hs Hg) as (g' & Hk & Hsafe). exists g'. split; [done|]. by apply IH.
Qed.

Lemma safe_mono {A} c (m : Prog A) (Q Q' : A -> World -> Gh -> Prop) : (forall a w g, Inv w g -> Q a w g -> Q' a w g) -> forall w g, safe c m w g Q -> safe c m w g Q'.
Proof.
  intros HQ. induction m as [a|o k IH]; intros w g H; cbn in *; intros w1 g1 HI HR.
  - by apply HQ, H.
  - destruct (H w1 g1 HI HR) as [Ho Hs]. split; [done|]. intros ch junk. specialize (Hs ch junk).
    destruct (exec_op sz c w1 o ch junk) as [a w']. intros Hg. destruct (Hs Hg) as (g' & Hk & Hsafe). exists g'. split; [done|]. by apply IH.
Qed.

(** The rules for a return and for an access at the head. *)
Lemma safe_ret {A} c (a : A) w g (Q : A -> World -> Gh -> Prop) : (forall w1 g1, Inv w1 g1 -> rely c w g w1 g1 -> Q a w1 g1) -> safe c (mret a) w g Q.
Proof. done. Qed.
Lemma safe_do {A B} c o (k : Ans -> A) (f : A -> Prog B) w g Q : o <> ORecover ->
  (forall w1 g1 ch junk, Inv w1 g1 -> rely c w g w1 g1 -> let '(a, w') := exec_op sz c w1 o ch junk in good w' ->
    exists g', keeps c w1 g1 w' g' /\ safe c (f (k a)) w' g' Q) ->
  safe c (Do o (fun a => Ret (k a)) ≫= f) w g Q.
Proof. intros Ho H w1 g1 HI HR. split; [done|]. intros ch junk. by apply H. Qed.

(** * Updates *)

Lemma entry_unique w g i j h s s' : Inv w g -> w_commits w !! i = Some (h, s) -> w_commits w !! j = Some (h, s') -> i = j.
Proof.
  intros HI Hi Hj. destruct (v_good _ _ HI) as [Hnd _].
  apply (NoDup_lookup _ i j h Hnd); rewrite list_lookup_fmap; [by rewrite Hi|by rewrite Hj].
Qed.
Lemma last_entry w g : Inv w g -> w_commits w !! pred (length (w_commits w)) = Some (w_hdr0 w, latest w).
Proof. intros HI. rewrite <- last_lookup. apply (v_last _ _ HI). Qed.
Lemma entry_lt w j h s : w_commits w !! j = Some (h, s) -> (j < length (w_commits w))%nat.
Proof. apply lookup_lt_Some. Qed.
(** The commits in the log are not beyond the last one. *)
Lemma entry_mx w g j h s : Inv w g -> (g_base g <= j)%nat -> w_commits w !! j = Some (h, s) -> 0 <= mxFrame h <= mx w.
Proof.
  intros HI Hb Hj. pose proof (entry_lt _ _ _ _ Hj) as Hlt. pose proof (y_mx _ _ _ _ (v_hist _ _ HI) _ _ _ Hb Hj). split; [lia|].
  destruct (decide (j = pred (length (w_commits w)))) as [->|Hne].
  - rewrite (last_entry w g HI) in Hj. by injection Hj as <- _.
  - pose proof (y_mono _ _ _ _ (v_hist _ _ HI) j (pred (length (w_commits w))) _ _ _ _ ltac:(lia) Hj (last_entry w g HI)). unfold mx. lia.
Qed.
Lemma entry_inj w g i j h s h' s' : Inv w g -> (g_base g <= i)%nat -> (g_base g <= j)%nat -> w_commits w !! i = Some (h, s) -> w_commits w !! j = Some (h', s') ->
  mxFrame h <= mxFrame h' -> (i <= j)%nat.
Proof.
  intros HI Hi Hj Ei Ej Hle. destruct (decide (i <= j)%nat); [done|]. pose proof (y_mono _ _ _ _ (v_hist _ _ HI) j i _ _ _ _ ltac:(lia) Ej Ei). lia.
Qed.

(** A connection changes its locks and its part of the auxiliary state. *)
Lemma own_step c w g l g' : Inv w g ->
  (forall d s, d <> c -> l !! (d, s) = held w d s) ->
  (forall d s, d <> c -> l !! (c, s) = Some true -> held w d s = None) ->
  (forall d s, d <> c -> l !! (c, s) = Some false -> held w d s <> Some true) ->
  g_base g' = g_base g -> g_mid g' = g_mid g -> g_reset g' = g_reset g -> (forall d, d <> c -> g_reg g' !! d = g_reg g !! d) ->
  (g_mid g = Some c -> l !! (c, WAL_WRITE_LOCK) = Some true) ->
  (g_reset g = true -> held w c WAL_WRITE_LOCK = Some true -> forall s, l !! (c, s) = held w c s) ->
  (forall k j, g_reg g' !! c = Some (k, j) -> reg_ok (set_locks w l) g' c k j) ->
  (forall k, g_ck g' = Some k -> (k_owner k = c /\ scan_ok (set_locks w l) g' k) \/
    (g_ck g = Some k /\ k_owner k <> c /\ forall i j h s, g_reg g' !! c = Some (i, j) -> w_commits w !! j = Some (h, s) ->
      (1 <= i < k_slot k -> k_safe k <= mxFrame h) /\ (i = k_slot k -> k_mark k <= mxFrame h))) ->
  (forall k, g_ck g = Some k -> k_owner k <> c -> g_ck g' = Some k) ->
  good (set_locks w l) -> keeps c w g (set_locks w l) g'.
Proof.
  intros HI Hl Ht Hf Eb Em Er Hreg Hmid Hres Hro Hck Hck' Hg. destruct HI as [Hgood Hex Hlast Hseal Hm Hh Hb Hrs Hfile Hmarks Hr Hk]. split.
  - constructor; try done.
    + intros a b s Hab Ha. unfold held in *. cbn [set_locks w_locks] in *. destruct (decide (b = c)) as [->|Hb'], (decide (a = c)) as [->|Ha']; [done| | |].
      * rewrite Hl in Ha by done. destruct (l !! (c, s)) as [[]|] eqn:E; [|by destruct (Hf a s Ha' E)|done]. by rewrite (Ht a s Ha' E) in Ha.
      * rewrite Hl by done. by apply (Ht b s).
      * rewrite Hl in * by done. by apply (Hex a).
    + rewrite Em. destruct (g_mid g) as [m|] eqn:E; [|done]. unfold held. cbn [set_locks w_locks]. destruct (decide (m = c)) as [->|]; [by apply Hmid|by rewrite Hl].
    + by rewrite Eb.
    + by rewrite Er.
    + rewrite Er. intros E. destruct (Hrs E) as (H1 & H2 & m & H3 & H4 & H5). split_and!; [done|done|]. exists m. unfold held, restarting in *. cbn [set_locks w_locks].
      destruct (decide (m = c)) as [->|Hm'].
      * rewrite !(Hres E H3). split_and!; [done|done|]. intros i Hi. rewrite (Hres E H3). by apply H5.
      * rewrite !Hl by done. split_and!; [done|done|]. intros i Hi. rewrite Hl by done. by apply H5.
    + intros a k j Ha. destruct (decide (a = c)) as [->|Hac]; [by apply Hro|]. rewrite Hreg in Ha by done. destruct (Hr a k j Ha) as (H1 & H2 & H3).
      split; [done|]. unfold held. cbn [set_locks w_locks w_commits w_marks w_backfill]. rewrite Hl by done. split; [done|].
      destruct H3 as (h & s & H3 & H4 & H5). exists h, s. by rewrite Eb, Er.
    + intros k Ek. destruct (Hck k Ek) as [[_ Hs]|(Ek' & Ho & Hnew)]; [done|]. destruct (Hk k Ek') as (H1 & H2 & H3 & H4 & h & s & H5 & H6 & H7 & H8).
      unfold scan_ok, held. cbn [set_locks w_locks w_commits]. rewrite Hl, Er, Eb by done. split_and!; try done. exists h, s. split_and!; try done.
      intros a i j h' s' Ha Hj. destruct (decide (a = c)) as [->|Hac]; [by apply (Hnew i j h' s')|]. rewrite Hreg in Ha by done. by apply (H8 a i j h' s').
  - intros d Hd. constructor; try done.
    + intros s. unfold held. cbn [set_locks w_locks]. by rewrite Hl.
    + by rewrite Em.
    + by rewrite Er.
    + by rewrite Hreg.
    + intros k <-. split; [|intros E; by apply Hck']. intros E. destruct (Hck k E) as [[? _]|[? _]]; done.
    + by rewrite Eb.
Qed.

(** An access that changes nothing. *)
Lemma stay_step c w g : Inv w g -> keeps c w g w g.
Proof. intros HI. split; [done|]. intros d _. apply rely_refl. Qed.

Lemma mark_step c w g i v : Inv w g -> 1 <= i < WAL_NREADER -> held w c (WAL_READ_LOCK i) = Some true ->
  keeps c w g (set_info w (w_backfill w) (wr (w_marks w) i v)) g.
Proof.
  intros HI Hi Hc. pose proof (v_marks _ _ HI) as Hl. split.
  - destruct HI as [Hgood Hex Hlast Hseal Hm Hh Hb Hrs Hfile Hmarks Hr Hk]. constructor; try done; [by cbn; rewrite length_wr|].
    intros d k j Hd. destruct (Hr d k j Hd) as (H1 & H2 & h & s & H3 & H4 & H5). split; [done|]. split; [done|]. exists h, s. split_and!; [done| |done].
    intros Hk0. destruct (H4 Hk0) as (A & B & D). split_and!; [done| |done]. cbn [set_info w_marks].
    assert (k <> i); [|rewrite rd_wr_ne by lia; done]. intros ->. destruct (decide (d = c)) as [->|Hd']; [unfold held in *; congruence|].
    rewrite (Hex c d _ ltac:(done) Hc) in H2. done.
  - intros d Hd. constructor; try done. intros k Hk H. cbn [set_info w_marks]. rewrite rd_wr_ne; [done|lia|lia|]. intros ->. apply H. by apply (v_ex _ _ HI c).
Qed.

(** The end of a restart clears [nBackfill]. *)
Lemma reset_step c w g : Inv w g -> held w c WAL_WRITE_LOCK = Some true -> g_reset g = true ->
  keeps c w g (set_info w 0 (w_marks w)) {| g_base := g_base g; g_mid := g_mid g; g_reset := false; g_reg := g_reg g; g_ck := g_ck g |}.
Proof.
  intros HI Hc Hres. destruct (v_reset _ _ HI Hres) as (Hmx & Hnb & c' & H1 & H2 & H3).
  assert (c' = c) as -> by (destruct (decide (c' = c)); [done|]; rewrite (v_ex _ _ HI c c') in H1; done).
  assert (g_ck g = None) as Hck.
  { destruct (g_ck g) as [k|] eqn:E; [|done]. destruct (v_ck _ _ HI k E) as (H4 & H5 & _). congruence. }
  split.
  - destruct HI as [Hgood Hex Hlast Hseal Hm Hh Hb Hrs Hfile Hmarks Hr Hk]. constructor; try done.
    + intros _. split; [unfold mx in *; cbn in *; lia|]. cbn. lia.
    + intros d k j Hd. destruct (Hr d k j Hd) as (A1 & A2 & h & s & A3 & A4 & A5). split; [done|]. split; [done|]. exists h, s. split_and!; [done|done|].
      intros Hk0. destruct (A5 Hk0) as [B1 B2]. split; [done|]. intros E. destruct (B2 E). congruence.
    + cbn. by rewrite Hck.
  - intros d Hd. constructor; try done.
    + intros H. rewrite (v_ex _ _ HI c d) in H; done.
    + cbn. congruence.
    + intros H. destruct (v_good _ _ HI) as [_ Ha]. by destruct (Ha d c Hd H).
Qed.

(** A checkpoint that has copied all frames up to [k_safe]. *)
Lemma backfill_step c w g k : Inv w g -> g_ck g = Some k -> k_owner k = c -> held w c (WAL_READ_LOCK 0) = Some true -> w_backfill w <= k_safe k ->
  (forall pg d, latest w !! pg = Some d -> 0 < last_frame (w_index w) (Z.to_nat (mx w)) pg <= k_safe k -> w_db w !! page_pos sz pg = Some d) ->
  keeps c w g (set_info w (k_safe k) (w_marks w)) g.
Proof.
  intros HI Hk Ho Hc Hle Hfill. destruct (v_ck _ _ HI k Hk) as (K1 & K2 & K3 & K4 & hk & sk & K5 & K6 & K7 & K8). rewrite Ho in K1.
  pose proof (entry_mx w g _ _ _ HI K3 K5) as Hmk. destruct (v_back _ _ HI K2) as [Hnb _]. split.
  - destruct HI as [Hgood Hex Hlast Hseal Hm Hh Hb Hrs Hfile Hmarks Hr Hck]. constructor; try done.
    + intros _. split; [unfold mx in *; cbn; lia|done].
    + cbn. congruence.
    + intros d i j Hd. destruct (Hr d i j Hd) as (A1 & A2 & h & s & A3 & A4 & A5). split; [done|]. split; [done|]. exists h, s. split_and!; [done|done|].
      intros ->. destruct (decide (d = c)) as [->|Hd']; [unfold held in *; congruence|]. rewrite (Hex c d _ ltac:(done) Hc) in A2. done.
  - intros d Hd. constructor; try done. intros H. rewrite (v_ex _ _ HI c d) in H; done.
Qed.

(** The writer changes the log and the index behind the last commit. *)
Lemma log_step c w g ix lg : Inv w g -> held w c WAL_WRITE_LOCK = Some true -> mx w <= Z.of_nat (length ix) ->
  (forall i, 1 <= i <= mx w -> ix !! Z.to_nat (i - 1) = w_index w !! Z.to_nat (i - 1) /\ lg !! frame_pos sz i = w_log w !! frame_pos sz i) ->
  keeps c w g (set_log w ix lg) g.
Proof.
  intros HI Hc Hlen Hsame.
  assert (forall n pg, n <= mx w -> last_frame ix (Z.to_nat n) pg = last_frame (w_index w) (Z.to_nat n) pg) as Hlf.
  { intros n pg Hn. apply last_frame_ext. intros i Hi. destruct (Hsame (Z.of_nat i + 1) ltac:(lia)) as [H _].
    by replace (Z.to_nat (Z.of_nat i + 1 - 1)) with i in H by lia. }
  pose proof (fun j h s => entry_mx w g j h s HI) as Hmx. split.
  - destruct HI as [Hgood Hex Hlast Hseal Hm Hh Hb Hrs Hfile Hmarks Hr Hck]. constructor; try done; cbn [set_log w_index w_log w_commits].
    + destruct Hh as [Y1 Y2 Y3 Y4 Y5 Y6]. constructor; try done.
      * intros j h s Hj E. specialize (Hmx j h s Hj E). lia.
      * intros j h s pg d Hj E Hd. pose proof (Hmx j h s Hj E). rewrite Hlf by lia. intros Hne. destruct (Hsame (last_frame (w_index w) (Z.to_nat (mxFrame h)) pg)) as [_ ->].
        { pose proof (last_frame_range (w_index w) (Z.to_nat (mxFrame h)) pg). lia. }
        by apply (Y4 j h s).
      * intros i j h s h' s' pg d Hij Ei Ej. pose proof (Hmx j h' s' ltac:(lia) Ej). rewrite Hlf by lia. by apply (Y5 i j h s h').
    + intros E. destruct (Hb E) as [B1 B2]. split; [done|]. intros pg d. unfold mx in *. cbn [set_log w_hdr0]. rewrite Hlf by lia. apply B2.
    + intros pg d Hd. unfold mx in *. cbn [set_log w_hdr0 w_index]. rewrite Hlf by lia. by apply Hfile.
    + intros d k j Hd. destruct (Hr d k j Hd) as (A1 & A2 & h & s & A3 & A4 & A5). split; [done|]. split; [done|]. exists h, s. split_and!; [done| |done].
      intros Hk0. destruct (A4 Hk0) as (B1 & B2 & B3). split_and!; [done|done|]. intros pg x Hx. cbn [set_log w_index]. pose proof (Hmx j h s B1 A3).
      rewrite Hlf by lia. by apply B3.
  - intros d Hd. constructor; try done. intros H. rewrite (v_ex _ _ HI c d) in H; done.
Qed.

(** The checkpoint changes the database. *)
Lemma db_step c w g k db : Inv w g -> g_ck g = Some k -> k_owner k = c -> k_slot k = WAL_NREADER -> held w c (WAL_READ_LOCK 0) = Some true ->
  (forall j h s pg d, (g_base g <= j)%nat -> w_commits w !! j = Some (h, s) -> k_safe k <= mxFrame h -> s !! pg = Some d ->
    last_frame (w_index w) (Z.to_nat (mxFrame h)) pg = 0 -> w_db w !! page_pos sz pg = Some d -> db !! page_pos sz pg = Some d) ->
  (forall pg d, latest w !! pg = Some d -> 0 < last_frame (w_index w) (Z.to_nat (mx w)) pg <= w_backfill w -> w_db w !! page_pos sz pg = Some d ->
    db !! page_pos sz pg = Some d) ->
  keeps c w g (set_db w db) g.
Proof.
  intros HI Hk Ho Hslot Hc Hback Hfill. destruct (v_ck _ _ HI k Hk) as (K1 & K2 & K3 & K4 & hk & sk & K5 & K6 & K7 & K8). rewrite Ho in K1.
  pose proof (entry_mx w g _ _ _ HI K3 K5) as Hmk. pose proof (last_entry w g HI) as Hle. pose proof (y_base _ _ _ _ (v_hist _ _ HI)) as Hb0. split.
  - destruct HI as [Hgood Hex Hlast Hseal Hm Hh Hb Hrs Hfile Hmarks Hr Hck]. constructor; try done.
    + intros E. destruct (Hb E) as [B1 B2]. split; [done|]. intros pg d H1 H2. apply Hfill; [done|done|by apply B2].
    + intros pg d H1 H2. apply (Hback (pred (length (w_commits w))) (w_hdr0 w) (latest w) pg d); [lia|done|unfold mx in *; lia|done|done|by apply Hfile].
    + intros d i j Hd. destruct (Hr d i j Hd) as (A1 & A2 & h & s & A3 & A4 & A5). split; [done|]. split; [done|]. exists h, s. split_and!; [done| |].
      * intros Hi. destruct (A4 Hi) as (B1 & B2 & B3). split_and!; [done|done|]. intros pg x Hx H0. destruct (K8 d i j h s Hd A3) as [C1 _].
        apply (Hback j h s); [done|done|lia|done|done|by apply B3].
      * intros ->. destruct (decide (d = c)) as [->|Hd']; [unfold held in *; congruence|]. rewrite (Hex c d _ ltac:(done) Hc) in A2. done.
  - intros d Hd. constructor; try done. intros H. rewrite (v_ex _ _ HI c d) in H; done.
Qed.

(** The writer stores the second copy of the header. *)
Lemma hdr1_step c w g h : Inv w g -> held w c WAL_WRITE_LOCK = Some true -> keeps c w g (set_hdr1 w h) (set_mid g (Some c)).
Proof.
  intros HI Hc. split.
  - destruct HI as [Hgood Hex Hlast Hseal Hm Hh Hb Hrs Hfile Hmarks Hr Hck]. by constructor.
  - intros d Hd. constructor; try done.
    + intros H. rewrite (v_ex _ _ HI c d) in H; done.
    + cbn. split; [intros [= ->]; done|]. intros E. pose proof (v_mid _ _ HI) as H. rewrite E in H. rewrite (v_ex _ _ HI c d) in H; done.
Qed.

(** ** Publishing a header *)

Lemma apply_frames_lookup w m a n pg : 0 <= a -> a + Z.of_nat n <= Z.of_nat (length (w_index w)) ->
  foldl (apply_frame sz w) m (seqZ (a + 1) (Z.of_nat n)) !! pg =
    let fr := last_frame (w_index w) (Z.to_nat (a + Z.of_nat n)) pg in if a <? fr then w_log w !! frame_pos sz fr else m !! pg.
Proof.
  intros Ha. induction n as [|n IH]; intros Hn.
  - cbn [seqZ]. rewrite Z.add_0_r. change (seqZ (a + 1) (Z.of_nat 0)) with (@nil Z). cbn [foldl]. cbv zeta. pose proof (last_frame_range (w_index w) (Z.to_nat a) pg).
    rewrite (proj2 (Z.ltb_ge _ _)) by lia. done.
  - rewrite seqZ_S, foldl_app. cbn [foldl]. set (m' := foldl _ _ _) in *. specialize (IH ltac:(lia)). unfold apply_frame at 1.
    replace (Z.to_nat (a + Z.of_nat (S n))) with (S (Z.to_nat (a + Z.of_nat n))) by lia. cbn [last_frame].
    replace (Z.to_nat (a + 1 + Z.of_nat n - 1)) with (Z.to_nat (a + Z.of_nat n)) by lia.
    destruct (lookup_lt_is_Some_2 (w_index w) (Z.to_nat (a + Z.of_nat n))) as [q Hq]; [lia|]. rewrite Hq. cbv zeta. case_decide as E.
    + injection E as ->. rewrite lookup_partial_alter_eq. rewrite (proj2 (Z.ltb_lt _ _)) by lia. do 2 f_equal. lia.
    + rewrite lookup_partial_alter_ne by congruence. done.
Qed.

Lemma in_progress_lookup w h pg : 0 <= mx w -> mx w <= mxFrame h -> mxFrame h <= Z.of_nat (length (w_index w)) ->
  in_progress sz w h !! pg = let fr := last_frame (w_index w) (Z.to_nat (mxFrame h)) pg in if mx w <? fr then w_log w !! frame_pos sz fr else latest w !! pg.
Proof.
  intros H0 H1 H2. unfold in_progress. fold (mx w). pose proof (apply_frames_lookup w (latest w) (mx w) (Z.to_nat (mxFrame h - mx w)) pg H0 ltac:(lia)) as H.
  rewrite Z2Nat.id in H by lia. by replace (mx w + (mxFrame h - mx w)) with (mxFrame h) in H by lia.
Qed.
Lemma applied_lookup w h pg : 0 <= mx w -> mx w <= mxFrame h -> mxFrame h <= Z.of_nat (length (w_index w)) ->
  applied sz w h !! pg = if decide (pg <= nPage h) then
    let fr := last_frame (w_index w) (Z.to_nat (mxFrame h)) pg in if mx w <? fr then w_log w !! frame_pos sz fr else latest w !! pg else None.
Proof.
  intros H0 H1 H2. unfold applied. rewrite map_lookup_filter, in_progress_lookup by done. cbn zeta.
  destruct (if mx w <? _ then _ else _) as [d|]; cbn; [|by case_decide]. by case_decide; case_guard.
Qed.

Lemma latest_snoc w h s : latest (set_hdr0 w h s) = s.
Proof. unfold latest. cbn [set_hdr0 w_commits]. by rewrite last_snoc. Qed.
Lemma lookup_snoc_cases {A} (l : list A) j x y : (l ++ [x]) !! j = Some y -> (l !! j = Some y /\ (j < length l)%nat) \/ (j = length l /\ y = x).
Proof.
  intros H. destruct (decide (j < length l)%nat); [left; rewrite lookup_app_l in H by done; by split|]. right.
  rewrite lookup_app_r in H by lia. apply list_lookup_singleton_Some in H as [? <-]. split; [lia|done].
Qed.

(** The writer commits the frames up to that of [h]; its snapshot is now the new commit. *)
Lemma commit_step c w g h k j0 : Inv w g -> held w c WAL_WRITE_LOCK = Some true -> g_reset g = false -> w_hdr1 w = h -> h = seal h -> g_reg g !! c = Some (k, j0) -> k <> 0 ->
  mx w < mxFrame h -> mxFrame h <= Z.of_nat (length (w_index w)) ->
  (forall i, mx w < i <= mxFrame h -> exists pg, w_index w !! Z.to_nat (i - 1) = Some pg /\ 0 < pg) ->
  let w' := set_hdr0 w h (applied sz w h) in
  let g' := set_mid (set_reg g (<[c := (k, length (w_commits w))]> (g_reg g))) None in
  good w' -> keeps c w g w' g'.
Proof.
  intros HI Hc Hres Hh1 Hs Hreg Hk Hlt Hle Hpos w' g' Hgood'.
  destruct (v_reg _ _ HI c k j0 Hreg) as (R1 & R2 & hr & sr & R3 & R4 & _). destruct (R4 Hk) as (R5 & R6 & R7).
  pose proof (entry_mx w g _ _ _ HI R5 R3) as Hr0. pose proof (fun j h s => entry_mx w g j h s HI) as Hmx. pose proof (last_entry w g HI) as Hlast0.
  pose proof (y_base _ _ _ _ (v_hist _ _ HI)) as Hb0.
  assert (forall pg d, applied sz w h !! pg = Some d -> pg <= nPage h /\
    let fr := last_frame (w_index w) (Z.to_nat (mxFrame h)) pg in (mx w < fr /\ w_log w !! frame_pos sz fr = Some d) \/
      (fr <= mx w /\ last_frame (w_index w) (Z.to_nat (mx w)) pg = fr /\ latest w !! pg = Some d)) as Happ.
  { intros pg d. rewrite applied_lookup by lia. case_decide as Hp; [|done]. cbv zeta. set (fr := last_frame _ _ _). destruct (Z.ltb_spec (mx w) fr); intros E; (split; [done|]).
    - by left.
    - right. split_and!; [done| |done]. apply last_frame_older; unfold fr in *; lia. }
  split.
  - destruct HI as [Hgood Hex Hlast Hseal Hm Hh Hb Hrs Hfile Hmarks Hr Hck]. constructor; try done.
    + unfold w'. rewrite latest_snoc. cbn [set_hdr0 w_commits]. by rewrite last_snoc.
    + destruct Hh as [Y1 Y2 Y3 Y4 Y5 Y6]. cbn [w' g' set_hdr0 set_mid set_reg w_commits w_index w_log g_base]. constructor.
      * rewrite length_app. lia.
      * intros j h' s' Hj [[E _]|[-> [= -> ->]]]%lookup_snoc_cases; [by apply (Y2 j h' s')|lia].
      * intros i j h1 s1 h2 s2 Hij Ei [[Ej _]|[-> [= -> ->]]]%lookup_snoc_cases.
        -- apply lookup_snoc_cases in Ei as [[Ei _]|[-> _]]; [by apply (Y3 i j h1 s1 h2 s2)|]. apply lookup_lt_Some in Ej. lia.
        -- apply lookup_snoc_cases in Ei as [[Ei _]|[-> _]]; [|lia]. pose proof (Hmx i h1 s1 ltac:(lia) Ei). lia.
      * intros j h' s' pg d Hj [[E _]|[-> [= -> ->]]]%lookup_snoc_cases; [by apply (Y4 j h' s')|]. intros Hd Hne. destruct (Happ pg d Hd) as [_ [[_ ?]|(H1 & H2 & H3)]]; [done|].
        rewrite <- H2 in *. apply (Y4 (pred (length (w_commits w))) (w_hdr0 w) (latest w) pg d); [lia|done|done|exact Hne].
      * intros i j h1 s1 h2 s2 pg d Hij Ei [[Ej Hjl]|[-> [= -> ->]]]%lookup_snoc_cases.
        -- apply lookup_snoc_cases in Ei as [[Ei _]|[-> _]]; [by apply (Y5 i j h1 s1 h2 s2)|]. lia.
        -- apply lookup_snoc_cases in Ei as [[Ei Hil]|[-> [= -> ->]]]; [|done]. intros Hd Hlf. pose proof (Hmx i h1 s1 ltac:(lia) Ei).
           destruct (Happ pg d Hd) as [_ [[? _]|(H1 & H2 & H3)]]; [lia|]. apply (Y5 i (pred (length (w_commits w))) h1 s1 (w_hdr0 w) (latest w)); [lia|done|done|done|].
           fold (mx w). lia.
      * intros j h' s' pg d [[E _]|[-> [= -> ->]]]%lookup_snoc_cases; [by apply (Y6 j h' s')|]. intros Hd. destruct (Happ pg d Hd) as [Hp Hcase]. split; [|done].
        destruct Hcase as [[H1 _]|(_ & _ & H3)]; [|by destruct (Y6 _ _ _ pg d Hlast0 H3)].
        destruct (last_frame_spec (w_index w) (Z.to_nat (mxFrame h)) pg) as [[E _]|(i & Hi & E & Hl & _)]; [lia|].
        destruct (Hpos (Z.of_nat i + 1) ltac:(lia)) as (q & Hq & Hq0). replace (Z.to_nat (Z.of_nat i + 1 - 1)) with i in Hq by lia. simplify_eq. lia.
    + intros E. destruct (Hb E) as [B1 B2]. unfold w', mx. rewrite latest_snoc. cbn [set_hdr0 w_backfill w_hdr0 w_index w_db]. split; [lia|]. intros pg d Hd Hl.
      destruct (Happ pg d Hd) as [_ [[? _]|(H1 & H2 & H3)]]; [lia|]. apply B2; [done|lia].
    + cbn. congruence.
    + unfold w'. intros pg d. rewrite latest_snoc. unfold mx. cbn [set_hdr0 w_hdr0 w_index w_db]. intros Hd Hl.
      destruct (Happ pg d Hd) as [_ [[? _]|(H1 & H2 & H3)]]; [lia|]. apply Hfile; [done|lia].
    + intros d i j. unfold g'. cbn [set_mid set_reg g_reg]. intros Hd. destruct (decide (d = c)) as [->|Hd'].
      * rewrite lookup_insert_eq in Hd. injection Hd as <- <-. split; [done|]. split; [done|]. exists h, (applied sz w h). unfold w'. cbn [set_hdr0 w_commits w_marks].
        split; [by rewrite lookup_app_r, Nat.sub_diag by lia|]. split; [|done]. intros _. split_and!; [unfold g'; cbn [set_mid set_reg g_base]; lia|lia|]. intros pg x. cbn [set_hdr0 w_index w_db]. intros Hx Hl.
        destruct (Happ pg x Hx) as [_ [[? _]|(H1 & H2 & H3)]]; [lia|]. apply Hfile; [done|lia].
      * rewrite lookup_insert_ne in Hd by done. destruct (Hr d i j Hd) as (A1 & A2 & h' & s' & A3 & A4 & A5). split; [done|]. split; [done|]. exists h', s'.
        pose proof (lookup_lt_Some _ _ _ A3) as Hj. unfold w'. cbn [set_hdr0 w_commits]. split; [by rewrite lookup_app_l by lia|]. split; [done|].
        intros Hi. destruct (A5 Hi) as [A6 _]. split; [done|]. rewrite length_app. cbn. lia.
    + intros q Hq. destruct (Hck q Hq) as (K1 & K2 & K3 & K4 & hk & sk & K5 & K6 & K7 & K8). split_and!; try done. exists hk, sk. unfold w'. cbn [set_hdr0 w_commits].
      pose proof (lookup_lt_Some _ _ _ K5) as Hj. split; [by rewrite lookup_app_l by lia|]. split_and!; [done|done|]. intros d i j h' s' Hd E.
      unfold g' in Hd. cbn [set_mid set_reg g_reg] in Hd. pose proof (Hmx _ _ _ K3 K5). destruct (decide (d = c)) as [->|Hd'].
      * rewrite lookup_insert_eq in Hd. injection Hd as <- <-. apply lookup_snoc_cases in E as [[_ ?]|[_ [= -> ->]]]; lia.
      * rewrite lookup_insert_ne in Hd by done. apply lookup_snoc_cases in E as [[E _]|[-> [= -> ->]]]; [by apply (K8 d i j h' s')|]. lia.
  - intros d Hd. constructor; try done.
    + by eexists.
    + intros H. rewrite (v_ex _ _ HI c d) in H; done.
    + cbn. split; [done|]. intros E. pose proof (v_mid _ _ HI) as H. rewrite E in H. rewrite (v_ex _ _ HI c d) in H; done.
    + unfold g'. cbn [set_mid set_reg g_reg]. by rewrite lookup_insert_ne.
    + intros _. unfold w', mx. cbn. split; [unfold mx in *; lia|done].
Qed.

(** A restart leaves the committed database as it is. *)
Lemma restart_applied w g h : Inv w g -> 0 < mx w -> mxFrame h = 0 -> nPage h = nPage (w_hdr0 w) -> applied sz w h = latest w.
Proof.
  intros HI Hpos H0 Hnp. unfold applied, in_progress. fold (mx w). rewrite H0. replace (seqZ (mx w + 1) (0 - mx w)) with (@nil Z) by (symmetry; apply seqZ_nil; lia). cbn [foldl].
  apply map_filter_id. intros pg d Hd. rewrite Hnp. by destruct (y_dom _ _ _ _ (v_hist _ _ HI) _ _ _ pg d (last_entry w g HI) Hd).
Qed.

(** The writer restarts a log that is in the database as a whole, under the locks of all its readers. *)
Lemma restart_step c w g h j : Inv w g -> held w c WAL_WRITE_LOCK = Some true -> held w c WAL_CKPT_LOCK = None -> restarting (w_locks w) c ->
  w_hdr1 w = h -> h = seal h -> g_reg g !! c = Some (0, j) -> S j = length (w_commits w) -> 0 < mx w -> mxFrame h = 0 -> nPage h = nPage (w_hdr0 w) ->
  let w' := set_hdr0 w h (applied sz w h) in
  let g' := {| g_base := length (w_commits w); g_mid := None; g_reset := true; g_reg := g_reg g; g_ck := g_ck g |} in
  good w' -> keeps c w g w' g'.
Proof.
  intros HI Hc Hc1 Hrst Hh1 Hs Hreg Hj Hpos H0 Hnp w' g' Hgood'.
  destruct (v_reg _ _ HI c 0 j Hreg) as (R1 & R2 & hr & sr & R3 & _ & R4). destruct (R4 eq_refl) as [R5 R6]. destruct (R6 Hj) as [R7 R8].
  pose proof (last_entry w g HI) as Hlast0. replace (pred (length (w_commits w))) with j in Hlast0 by lia. rewrite R3 in Hlast0. injection Hlast0 as -> ->.
  pose proof (restart_applied w g h HI Hpos H0 Hnp) as Happ.
  assert (forall d i k, g_reg g !! d = Some (i, k) -> i = 0) as Hslot.
  { intros d i k Hd. destruct (v_reg _ _ HI d i k Hd) as (A1 & A2 & _). destruct (decide (i = 0)) as [|Hi]; [done|]. pose proof (Hrst i ltac:(lia)) as H.
    destruct (decide (d = c)) as [->|Hd']; [unfold held in *; congruence|]. rewrite (v_ex _ _ HI c d _ ltac:(done) H) in A2. done. }
  assert (g_ck g = None) as Hck.
  { destruct (g_ck g) as [k|] eqn:E; [|done]. destruct (v_ck _ _ HI k E) as (H4 & _). destruct (decide (k_owner k = c)) as [Ek|Hne]; [congruence|].
    destruct (v_good _ _ HI) as [_ Ha]. by destruct (Ha (k_owner k) c). }
  unfold w' in *. rewrite Happ in *. clear w'. split.
  - destruct HI as [Hgood Hex Hlast Hseal Hm Hh Hb Hrs Hfile Hmarks Hr _]. constructor; try done.
    + rewrite latest_snoc. cbn [set_hdr0 w_commits]. by rewrite last_snoc.
    + destruct Hh as [Y1 Y2 Y3 Y4 Y5 Y6]. cbn [g' set_hdr0 w_commits w_index w_log g_base]. constructor.
      * rewrite length_app. cbn. lia.
      * intros i h' s' Hi [[_ ?]|[-> [= -> ->]]]%lookup_snoc_cases; [lia|]. rewrite H0. lia.
      * intros i k h1 s1 h2 s2 Hik _ E. apply lookup_lt_Some in E. rewrite length_app in E. cbn in E. lia.
      * intros i h' s' pg d Hi [[_ ?]|[-> [= -> ->]]]%lookup_snoc_cases; [lia|]. rewrite H0. done.
      * intros i k h1 s1 h2 s2 pg d Hik Ei [[_ ?]|[-> [= -> ->]]]%lookup_snoc_cases; [lia|]. apply lookup_snoc_cases in Ei as [[_ ?]|[_ [= -> ->]]]; [lia|done].
      * intros i h' s' pg d [[E _]|[-> [= -> ->]]]%lookup_snoc_cases; [by apply (Y6 i h' s')|]. rewrite Hnp. by apply (Y6 j).
    + intros _. unfold mx in *. cbn [set_hdr0 w_hdr0 w_backfill]. split_and!; [done|lia|]. by exists c.
    + intros pg d. rewrite latest_snoc. cbn [set_hdr0 w_db]. intros Hd _. by apply R5.
    + intros d i k Hd. pose proof (Hslot d i k Hd) as ->. destruct (Hr d 0 k Hd) as (A1 & A2 & h' & s' & A3 & A4 & A5). split; [done|]. split; [done|]. exists h', s'.
      pose proof (lookup_lt_Some _ _ _ A3). cbn [set_hdr0 w_commits]. split; [by rewrite lookup_app_l by lia|]. split; [done|]. intros _. destruct (A5 eq_refl) as [A6 _].
      split; [done|]. rewrite length_app. cbn. lia.
    + cbn. by rewrite Hck.
  - intros d Hd. constructor; try done.
    + by eexists.
    + intros H. rewrite (v_ex _ _ HI c d) in H; done.
    + cbn. split; [done|]. intros E. pose proof (v_mid _ _ HI) as H. rewrite E in H. rewrite (v_ex _ _ HI c d) in H; done.
    + cbn [set_hdr0 w_commits]. rewrite length_app. cbn. lia.
    + intros H. destruct (v_good _ _ HI) as [_ Ha]. by destruct (Ha d c Hd H).
    + cbn. pose proof (y_base _ _ _ _ (v_hist _ _ HI)). lia.
    + cbn. pose proof (y_base _ _ _ _ (v_hist _ _ HI)). lia.
Qed.
End iso.
