(* ===== verification/WalProof.v ===== *)
(** The programs of WalTrans.v keep the invariant of WalIso.v. *)
From S2P Require Import Prelude WalHash WalIter WalLog WalWrite WalTrans WalSys WalIso.
Local Open Scope Z_scope.

(** * Locks *)

(** The locks of one connection, by slot. *)
Definition upd (L : Z -> option bool) (o n : Z) (v : option bool) : Z -> option bool := fun s => if decide (o <= s < o + n) then v else L s.

(** Arithmetic of slots. *)
Ltac slots := unfold WAL_WRITE_LOCK, WAL_CKPT_LOCK, WAL_RECOVER_LOCK, WAL_READ_LOCK, WAL_NREADER in *; lia.

Section proof.
Context (sz : Z) (Hsz : 0 < sz).
Local Abbreviation Inv := (WalIso.Inv sz).
Local Abbreviation rely := (WalIso.rely sz).
Local Abbreviation safe := (WalIso.safe sz).

(** What a connection knows of itself: its locks, its snapshot [r] and its checkpoint [q]. *)
Record Own (c : Z) (w : World) (g : Gh) (L : Z -> option bool) (r : option (Z * nat)) (q : option Scan) : Prop := {
  o_locks s : held w c s = L s;
  o_reg : g_reg g !! c = r;
  o_ck k : k_owner k = c -> g_ck g = Some k <-> q = Some k;
  o_mid : g_mid g <> Some c;
  o_reset : L WAL_WRITE_LOCK = Some true -> g_reset g = false
}.

Lemma own_rely c w g w' g' L r q : rely c w g w' g' -> Own c w g L r q -> Own c w' g' L r q.
Proof.
  intros HR [H1 H2 H3 H4 H5]. constructor.
  - intros s. by rewrite (r_locks _ _ _ _ _ _ HR).
  - by rewrite (r_reg _ _ _ _ _ _ HR).
  - intros k Hk. rewrite (r_scan _ _ _ _ _ _ HR k Hk). by apply H3.
  - by rewrite (r_mid _ _ _ _ _ _ HR).
  - intros H. destruct (r_write _ _ _ _ _ _ HR) as (_ & _ & _ & _ & _ & _ & ->); [by rewrite H1|by apply H5].
Qed.

Lemma own_ext c w g L L' r q : (forall s, L s = L' s) -> Own c w g L r q -> Own c w g L' r q.
Proof. intros HL [H1 H2 H3 H4 H5]. constructor; try done; [intros s; by rewrite <- HL|by rewrite <- HL]. Qed.

(** The owner of the write lock sees two equal copies of the header. *)
Lemma writer_hdr c w g L r q : Inv w g -> Own c w g L r q -> L WAL_WRITE_LOCK = Some true -> g_mid g = None /\ w_hdr1 w = w_hdr0 w.
Proof.
  intros HI Ho HL. pose proof (v_mid _ _ _ HI) as H. destruct (g_mid g) as [d|] eqn:E; [|done].
  destruct (decide (d = c)) as [->|Hne]; [by destruct (o_mid _ _ _ _ _ _ Ho)|]. rewrite (v_ex _ _ _ HI c d) in H; [done|done|]. by rewrite (o_locks _ _ _ _ _ _ Ho).
Qed.

(** * Rules for accesses *)

Lemma set_locks_same w : set_locks w (w_locks w) = w.
Proof. by destruct w. Qed.

(** Accesses that only look. *)
Lemma safe_stay {A B} c o (k : Ans -> A) (f : A -> Prog B) w g Q : o <> ORecover -> (forall w ch junk, (exec_op sz c w o ch junk).2 = w) ->
  (forall w1 g1 ch junk, Inv w1 g1 -> rely c w g w1 g1 -> safe c (f (k (exec_op sz c w1 o ch junk).1)) w1 g1 Q) ->
  safe c (Do o (fun a => Ret (k a)) ≫= f) w g Q.
Proof.
  intros Ho Hw H. apply safe_do; [done|]. intros w1 g1 ch junk HI HR. specialize (H w1 g1 ch junk HI HR). specialize (Hw w1 ch junk).
  destruct (exec_op sz c w1 o ch junk) as [a w']. cbn in Hw, H. subst w'. intros _. exists g1. split; [by apply stay_step|done].
Qed.
Lemma safe_ask {B} c q (f : Z -> Prog B) w g Q : (forall w1 g1 a, Inv w1 g1 -> rely c w g w1 g1 -> safe c (f a) w1 g1 Q) -> safe c (ask q ≫= f) w g Q.
Proof. intros H. apply safe_stay; [done|done|]. intros w1 g1 ch junk HI HR. by apply H. Qed.
Lemma safe_load_hdr {B} c i (f : WalIndexHdr -> Prog B) w g Q :
  (forall w1 g1, Inv w1 g1 -> rely c w g w1 g1 -> safe c (f (if i =? 0 then w_hdr0 w1 else w_hdr1 w1)) w1 g1 Q) -> safe c (load_hdr i ≫= f) w g Q.
Proof. intros H. apply safe_stay; [done|done|]. intros w1 g1 ch junk HI HR. by apply H. Qed.
Lemma safe_load_nb {B} c (f : Z -> Prog B) w g Q :
  (forall w1 g1, Inv w1 g1 -> rely c w g w1 g1 -> safe c (f (w_backfill w1)) w1 g1 Q) -> safe c (do_z OLoadBackfill ≫= f) w g Q.
Proof. intros H. apply safe_stay; [done|done|]. intros w1 g1 ch junk HI HR. by apply H. Qed.
Lemma safe_load_mark {B} c i (f : Z -> Prog B) w g Q :
  (forall w1 g1, Inv w1 g1 -> rely c w g w1 g1 -> safe c (f (rd (w_marks w1) i)) w1 g1 Q) -> safe c (do_z (OLoadMark i) ≫= f) w g Q.
Proof. intros H. apply safe_stay; [done|done|]. intros w1 g1 ch junk HI HR. by apply H. Qed.

(** Locking slots on which the connection has no lock. *)
Lemma lock_keeps c w g ex o n L r q : Inv w g -> Own c w g L r q -> (forall s, o <= s < o + n -> L s = None) -> grantable (w_locks w) c ex o n ->
  let w' := set_locks w (add_locks (w_locks w) c ex o n) in good w' -> keeps sz c w g w' g /\ Own c w' g (upd L o n (Some ex)) r q.
Proof.
  intros HI Ho HL Hgr w' Hg.
  assert (forall d s, d <> c -> o <= s < o + n -> held w d s <> Some true /\ (ex = true -> held w d s = None)) as Hfree.
  { intros d s Hd Hs. unfold held. destruct (w_locks w !! (d, s)) as [e|] eqn:E; [|done]. destruct (Hgr _ _ E) as [?|[?|[-> ->]]]; [done|done|]. done. }
  assert (held w c WAL_WRITE_LOCK = Some true -> g_reset g = false) as Hres by (intros H; apply (o_reset _ _ _ _ _ _ Ho); by rewrite <- (o_locks _ _ _ _ _ _ Ho)).
  split; [apply own_step; try done|constructor].
  - intros d s Hd. rewrite add_locks_lookup, decide_False by naive_solver. done.
  - intros d s Hd. rewrite add_locks_lookup. case_decide as H; [intros [= ->]; destruct H as [_ H]; by destruct (Hfree d s Hd H) as [_ ->]|]. intros E. by apply (v_ex _ _ _ HI c).
  - intros d s Hd. rewrite add_locks_lookup. case_decide as H; [intros _; destruct H as [_ H]; by destruct (Hfree d s Hd H)|]. intros E E'. unfold held in *. pose proof (v_ex _ _ _ HI d c s Hd E') as Hx.
    unfold held in Hx. congruence.
  - intros Hm. by destruct (o_mid _ _ _ _ _ _ Ho).
  - intros E H. by rewrite (Hres H) in E.
  - intros k j Hk. destruct (v_reg _ _ _ HI c k j Hk) as (A1 & A2 & A3). split; [done|]. split; [|done]. unfold held. cbn [set_locks w_locks]. rewrite add_locks_lookup.
    rewrite decide_False; [done|]. intros [_ H]. rewrite (o_locks _ _ _ _ _ _ Ho), HL in A2; done.
  - intros k Hk. destruct (decide (k_owner k = c)) as [Hc|]; [|right; split_and!; [done|done|]].
    + left. split; [done|]. destruct (v_ck _ _ _ HI k Hk) as (A1 & A2). split; [|done]. unfold held. cbn [set_locks w_locks]. rewrite add_locks_lookup.
      rewrite decide_False; [done|]. intros [_ H]. rewrite Hc, (o_locks _ _ _ _ _ _ Ho), HL in A1; done.
    + intros i j h s Hi Hj. destruct (v_ck _ _ _ HI k Hk) as (_ & _ & _ & _ & hk & sk & _ & _ & _ & A). by apply (A c i j h s).
  - intros s. unfold held, upd. cbn [w' set_locks w_locks]. rewrite add_locks_lookup. rewrite <- (o_locks _ _ _ _ _ _ Ho). unfold held. by repeat case_decide; naive_solver.
  - apply (o_reg _ _ _ _ _ _ Ho).
  - apply (o_ck _ _ _ _ _ _ Ho).
  - apply (o_mid _ _ _ _ _ _ Ho).
  - unfold upd. case_decide as H; [|apply (o_reset _ _ _ _ _ _ Ho)]. intros [= ->]. destruct (g_reset g) eqn:E; [|done].
    destruct (v_reset _ _ _ HI E) as (_ & _ & d & H1 & _). destruct (decide (d = c)) as [->|Hd]; [rewrite (o_locks _ _ _ _ _ _ Ho), HL in H1; done|].
    destruct (Hfree d _ Hd H) as [? _]. done.
Qed.

Lemma safe_lock {B} c ex o n (f : Z -> Prog B) w g L r q Q : Own c w g L r q -> (forall s, o <= s < o + n -> L s = None) ->
  (forall w1 g1 rc, Inv w1 g1 -> rely c w g w1 g1 -> rc <> SQLITE_OK -> safe c (f rc) w1 g1 Q) ->
  (forall w1 g1, Inv w1 g1 -> rely c w g w1 g1 -> grantable (w_locks w1) c ex o n -> let w' := set_locks w1 (add_locks (w_locks w1) c ex o n) in
    Inv w' g1 -> Own c w' g1 (upd L o n (Some ex)) r q -> safe c (f SQLITE_OK) w' g1 Q) ->
  safe c (do_z (OShmLock ex o n) ≫= f) w g Q.
Proof.
  intros Ho HL Hno Hyes. apply safe_do; [done|]. intros w1 g1 ch junk HI HR. cbn [exec_op]. pose proof (own_rely _ _ _ _ _ _ _ _ HR Ho) as Ho1.
  destruct (Z.eqb_spec ch 0) as [->|Hch]; cbn [negb].
  - case_bool_decide as Hgr.
    + intros Hg. destruct (lock_keeps c w1 g1 ex o n L r q HI Ho1 HL Hgr Hg) as [Hk Ho']. exists g1. split; [done|]. apply Hyes; try done. apply Hk.
    + intros _. exists g1. split; [by apply stay_step|]. by apply Hno.
  - intros _. exists g1. split; [by apply stay_step|]. by apply Hno.
Qed.

(** Releasing locks; the snapshot can be given up. *)
Lemma unlock_keeps c w g o n L r q r' : Inv w g -> Own c w g L r q -> (r' = r /\ (forall k j, r = Some (k, j) -> ~ (o <= WAL_READ_LOCK k < o + n))) \/ r' = None ->
  (q <> None -> ~ (o <= WAL_CKPT_LOCK < o + n)) ->
  let w' := set_locks w (drop_locks (w_locks w) c o n) in
  let g' := set_reg g (partial_alter (fun _ => r') c (g_reg g)) in
  good w' -> keeps sz c w g w' g' /\ Own c w' g' (upd L o n None) r' q.
Proof.
  intros HI Ho Hr Hq w' g' Hg.
  assert (held w c WAL_WRITE_LOCK = Some true -> g_reset g = false) as Hres by (intros H; apply (o_reset _ _ _ _ _ _ Ho); by rewrite <- (o_locks _ _ _ _ _ _ Ho)).
  split; [apply own_step; try done|constructor].
  - intros d s Hd. rewrite drop_locks_lookup, decide_False by naive_solver. done.
  - intros d s Hd. rewrite drop_locks_lookup. case_decide as H; [done|]. intros E. by apply (v_ex _ _ _ HI c).
  - intros d s Hd. rewrite drop_locks_lookup. case_decide as H; [done|]. intros E E'. unfold held in *. pose proof (v_ex _ _ _ HI d c s Hd E') as Hx.
    unfold held in Hx. congruence.
  - intros d Hd. unfold g'. cbn [set_reg g_reg]. by rewrite lookup_partial_alter_ne.
  - intros Hm. by destruct (o_mid _ _ _ _ _ _ Ho).
  - intros E H. by rewrite (Hres H) in E.
  - intros k j. unfold g'. cbn [set_reg g_reg]. rewrite lookup_partial_alter_eq. intros ->. destruct Hr as [[Er Hr]|?]; [|done]. symmetry in Er.
    destruct (v_reg _ _ _ HI c k j) as (A1 & A2 & A3); [by rewrite (o_reg _ _ _ _ _ _ Ho)|]. split; [done|]. split; [|done]. unfold held. cbn [set_locks w_locks].
    rewrite drop_locks_lookup, decide_False; [done|]. intros [_ H]. by apply (Hr k j).
  - intros k Hk. destruct (decide (k_owner k = c)) as [Hc|]; [|right; split_and!; [done|done|]].
    + left. split; [done|]. destruct (v_ck _ _ _ HI k Hk) as (A1 & A2 & A3 & A4 & hk & sk & A5 & A6 & A7 & A8). split; [|split_and!; try done].
      * unfold held. cbn [set_locks w_locks]. rewrite drop_locks_lookup. rewrite decide_False; [done|]. intros [_ H]. apply Hq; [|done].
        intros ->. by apply (o_ck _ _ _ _ _ _ Ho k) in Hk.
      * exists hk, sk. split_and!; try done. unfold g'. cbn [set_reg g_reg]. intros d i j h s Hd Hj. destruct (decide (d = c)) as [->|Hdc].
        -- rewrite lookup_partial_alter_eq in Hd. destruct Hr as [[-> _]| ->]; [|done]. apply (A8 c i j h s); [by rewrite (o_reg _ _ _ _ _ _ Ho)|done].
        -- rewrite lookup_partial_alter_ne in Hd by done. by apply (A8 d i j h s).
    + unfold g'. cbn [set_reg g_reg]. rewrite lookup_partial_alter_eq. intros i j h s Hi Hj. destruct Hr as [[-> _]| ->]; [|done].
      destruct (v_ck _ _ _ HI k Hk) as (_ & _ & _ & _ & hk & sk & _ & _ & _ & A). apply (A c i j h s); [by rewrite (o_reg _ _ _ _ _ _ Ho)|done].
  - intros s. unfold held, upd. cbn [w' set_locks w_locks]. rewrite drop_locks_lookup. rewrite <- (o_locks _ _ _ _ _ _ Ho). unfold held. by repeat case_decide; naive_solver.
  - unfold g'. cbn [set_reg g_reg]. by rewrite lookup_partial_alter_eq.
  - apply (o_ck _ _ _ _ _ _ Ho).
  - apply (o_mid _ _ _ _ _ _ Ho).
  - unfold upd. case_decide as H; [done|]. apply (o_reset _ _ _ _ _ _ Ho).
Qed.

Lemma safe_unlock {B} c o n (f : unit -> Prog B) w g L r q r' Q : Own c w g L r q ->
  (r' = r /\ (forall k j, r = Some (k, j) -> ~ (o <= WAL_READ_LOCK k < o + n))) \/ r' = None -> (q <> None -> ~ (o <= WAL_CKPT_LOCK < o + n)) ->
  (forall w1 g1, Inv w1 g1 -> rely c w g w1 g1 -> let w' := set_locks w1 (drop_locks (w_locks w1) c o n) in
    let g' := set_reg g1 (partial_alter (fun _ => r') c (g_reg g1)) in
    Inv w' g' -> Own c w' g' (upd L o n None) r' q -> safe c (f tt) w' g' Q) ->
  safe c (do_ (OShmUnlock o n) ≫= f) w g Q.
Proof.
  intros Ho Hr Hq H. apply (safe_do sz c _ (fun _ => tt)); [done|]. intros w1 g1 ch junk HI HR. cbn [exec_op]. pose proof (own_rely _ _ _ _ _ _ _ _ HR Ho) as Ho1. intros Hg.
  destruct (unlock_keeps c w1 g1 o n L r q r' HI Ho1 Hr Hq Hg) as [Hk Ho']. eexists. split; [exact Hk|]. apply H; try done. apply Hk.
Qed.

Lemma safe_store_mark {B} c i v (f : unit -> Prog B) w g L r q Q : Own c w g L r q -> 1 <= i < WAL_NREADER -> L (WAL_READ_LOCK i) = Some true ->
  (forall w1 g1, Inv w1 g1 -> rely c w g w1 g1 -> let w' := set_info w1 (w_backfill w1) (wr (w_marks w1) i v) in
    Inv w' g1 -> Own c w' g1 L r q -> safe c (f tt) w' g1 Q) ->
  safe c (do_ (OStoreMark i v) ≫= f) w g Q.
Proof.
  intros Ho Hi HL H. apply (safe_do sz c _ (fun _ => tt)); [done|]. intros w1 g1 ch junk HI HR. cbn [exec_op]. pose proof (own_rely _ _ _ _ _ _ _ _ HR Ho) as Ho1. intros _.
  destruct (mark_step sz c w1 g1 i v HI Hi) as [HI' Hr]; [by rewrite (o_locks _ _ _ _ _ _ Ho1)|]. exists g1. split; [done|]. apply H; try done.
  destruct Ho1. by constructor.
Qed.

(** What stays while a connection changes nothing but its locks on readers' slots and the marks. *)
Definition frozen (L : Z -> option bool) (w : World) (g : Gh) (w' : World) (g' : Gh) : Prop :=
  w_commits w `prefix_of` w_commits w' /\
  (L WAL_WRITE_LOCK = Some true -> w_hdr0 w' = w_hdr0 w /\ w_commits w' = w_commits w /\ w_index w' = w_index w /\ w_log w' = w_log w /\ g_base g' = g_base g) /\
  (L WAL_CKPT_LOCK = Some true -> g_base g' = g_base g /\ w_backfill w' = w_backfill w /\ w_db w' = w_db w) /\
  (g_base g <= g_base g')%nat /\
  (g_base g' = g_base g -> mx w <= mx w' /\ forall i, 1 <= i <= mx w ->
    w_index w' !! Z.to_nat (i - 1) = w_index w !! Z.to_nat (i - 1) /\ w_log w' !! frame_pos sz i = w_log w !! frame_pos sz i) /\
  (length (w_commits w') = length (w_commits w) -> g_reset g = false -> g_reset g' = false /\ w_backfill w <= w_backfill w').

Lemma frozen_refl L w g : frozen L w g w g.
Proof. unfold frozen. split_and!; done. Qed.
Lemma frozen_trans L w1 g1 w2 g2 w3 g3 : frozen L w1 g1 w2 g2 -> frozen L w2 g2 w3 g3 -> frozen L w1 g1 w3 g3.
Proof.
  intros (A1 & A2 & A3 & A4 & A5 & A0) (B1 & B2 & B3 & B4 & B5 & B0). split_and!.
  - by etrans.
  - intros H. destruct (A2 H) as (<- & <- & <- & <- & <-). by apply B2.
  - intros H. destruct (A3 H) as (<- & <- & <-). by apply B3.
  - lia.
  - intros H. destruct (A5 ltac:(lia)) as [A6 A7]. destruct (B5 ltac:(lia)) as [B6 B7]. split; [lia|]. intros i Hi. destruct (A7 i Hi) as [<- <-]. apply B7. lia.
  - intros H Hr. pose proof (prefix_length _ _ A1). pose proof (prefix_length _ _ B1). destruct (A0 ltac:(lia) Hr) as [Hr2 ?]. destruct (B0 ltac:(lia) Hr2). split; [done|lia].
Qed.
Lemma frozen_rely c L w g w' g' : (forall s, held w c s = L s) -> rely c w g w' g' -> frozen L w g w' g'.
Proof.
  intros HL HR. split_and!.
  - apply (r_hist _ _ _ _ _ _ HR).
  - intros H. destruct (r_write _ _ _ _ _ _ HR) as (-> & _ & -> & -> & -> & -> & _); [by rewrite HL|]. done.
  - intros H. destruct (r_ckpt _ _ _ _ _ _ HR) as (-> & -> & -> & _); [by rewrite HL|]. done.
  - apply (r_base _ _ _ _ _ _ HR).
  - apply (r_log _ _ _ _ _ _ HR).
  - apply (r_nb _ _ _ _ _ _ HR).
Qed.
Lemma frozen_weak L L' w g w' g' : (L WAL_WRITE_LOCK = Some true -> L' WAL_WRITE_LOCK = Some true) -> (L WAL_CKPT_LOCK = Some true -> L' WAL_CKPT_LOCK = Some true) ->
  frozen L' w g w' g' -> frozen L w g w' g'.
Proof. intros H1 H2 (A1 & A2 & A3 & A4 & A5 & A6). split_and!; [done| | |done|done|done]; intros H; [by apply A2, H1|by apply A3, H2]. Qed.
Lemma frozen_locks L w g l g' : g_base g' = g_base g -> g_reset g' = g_reset g -> frozen L w g (set_locks w l) g'.
Proof. intros E Er. unfold frozen. split_and!; try done; [by rewrite E|by rewrite Er]. Qed.
(** Interference while the connection has the locks [L'], which are more than [L]. *)
Lemma frozen_own c L L' r q w g w' g' : Own c w g L' r q -> (L WAL_WRITE_LOCK = Some true -> L' WAL_WRITE_LOCK = Some true) ->
  (L WAL_CKPT_LOCK = Some true -> L' WAL_CKPT_LOCK = Some true) -> rely c w g w' g' -> frozen L w g w' g'.
Proof. intros Ho H1 H2 HR. apply (frozen_weak L L'); [done|done|]. apply (frozen_rely c); [apply (o_locks _ _ _ _ _ _ Ho)|done]. Qed.

(** A connection with the locks [L] that knows [P], a fact which stays while it keeps the locks of [L0] on the writer and the checkpoint. *)
Definition stable (L0 : Z -> option bool) (P : World -> Gh -> Prop) : Prop := forall w g w' g', frozen L0 w g w' g' -> P w g -> P w' g'.
Record St (c : Z) (L0 : Z -> option bool) (P : World -> Gh -> Prop) (w : World) (g : Gh) (L : Z -> option bool) (r : option (Z * nat)) (q : option Scan) : Prop := {
  st_own : Own c w g L r q;
  st_P : P w g;
  st_stable : stable L0 P;
  st_w : L0 WAL_WRITE_LOCK = Some true -> L WAL_WRITE_LOCK = Some true;
  st_c : L0 WAL_CKPT_LOCK = Some true -> L WAL_CKPT_LOCK = Some true
}.

Lemma st_rely c L0 P w g L r q w' g' : rely c w g w' g' -> St c L0 P w g L r q -> St c L0 P w' g' L r q.
Proof.
  intros HR [H1 H2 H3 H4 H5]. constructor; try done; [by eapply own_rely|]. eapply H3; [|exact H2]. by eapply (frozen_own c L0 L).
Qed.
Lemma st_start c w g L r q : Own c w g L r q -> St c L (frozen L w g) w g L r q.
Proof. intros Ho. constructor; try done. intros w1 g1 w2 g2 HF H. by eapply frozen_trans. Qed.
Lemma st_and c L0 P P' w g L r q : St c L0 P w g L r q -> stable L0 P' -> P' w g -> St c L0 (fun w g => P w g /\ P' w g) w g L r q.
Proof. intros [H1 H2 H3 H4 H5] Hs Hp. constructor; try done. intros w1 g1 w2 g2 HF [A B]. split; [by eapply H3|by eapply Hs]. Qed.
Lemma st_mono c L0 P P' w g L r q : St c L0 P w g L r q -> stable L0 P' -> (P w g -> P' w g) -> St c L0 P' w g L r q.
Proof. intros [H1 H2 H3 H4 H5] Hs Hp. constructor; try done. by apply Hp. Qed.
Lemma st_ext c L0 P w g L L' r q : (forall s, L s = L' s) -> St c L0 P w g L r q -> St c L0 P w g L' r q.
Proof. intros HL [H1 H2 H3 H4 H5]. constructor; try done; [by eapply own_ext|by rewrite <- HL..]. Qed.

Lemma s_lock {B} c ex o n (f : Z -> Prog B) L0 P w g L r q Q : St c L0 P w g L r q -> (forall s, o <= s < o + n -> L s = None) ->
  (forall w1 g1 rc, Inv w1 g1 -> St c L0 P w1 g1 L r q -> rc <> SQLITE_OK -> safe c (f rc) w1 g1 Q) ->
  (forall w1 g1, Inv w1 g1 -> St c L0 P w1 g1 (upd L o n (Some ex)) r q -> safe c (f SQLITE_OK) w1 g1 Q) ->
  safe c (do_z (OShmLock ex o n) ≫= f) w g Q.
Proof.
  intros Hst HL Hno Hyes. eapply safe_lock; [apply (st_own _ _ _ _ _ _ _ _ Hst)|done| |].
  - intros w1 g1 rc HI HR Hrc. apply Hno; [done|by eapply st_rely|done].
  - intros w1 g1 HI HR Hgr w' HI' Ho. apply Hyes; [done|]. destruct (st_rely _ _ _ _ _ _ _ _ _ _ HR Hst) as [H1 H2 H3 H4 H5]. constructor; try done.
    + eapply H3; [|exact H2]. by apply frozen_locks.
    + intros E. unfold upd. case_decide as H; [by rewrite HL in H4; [specialize (H4 E)|]|by apply H4].
    + intros E. unfold upd. case_decide as H; [by rewrite HL in H5; [specialize (H5 E)|]|by apply H5].
Qed.
Lemma s_unlock {B} c o n (f : unit -> Prog B) L0 P w g L r q r' Q : St c L0 P w g L r q ->
  (r' = r /\ (forall k j, r = Some (k, j) -> ~ (o <= WAL_READ_LOCK k < o + n))) \/ r' = None -> (q <> None -> ~ (o <= WAL_CKPT_LOCK < o + n)) ->
  (L0 WAL_WRITE_LOCK = Some true -> ~ (o <= WAL_WRITE_LOCK < o + n)) -> (L0 WAL_CKPT_LOCK = Some true -> ~ (o <= WAL_CKPT_LOCK < o + n)) ->
  (forall w1 g1, Inv w1 g1 -> St c L0 P w1 g1 (upd L o n None) r' q -> safe c (f tt) w1 g1 Q) ->
  safe c (do_ (OShmUnlock o n) ≫= f) w g Q.
Proof.
  intros Hst Hr Hq HW HC H. eapply safe_unlock; [apply (st_own _ _ _ _ _ _ _ _ Hst)|exact Hr|done|].
  intros w1 g1 HI HR w' g' HI' Ho. apply H; [done|]. destruct (st_rely _ _ _ _ _ _ _ _ _ _ HR Hst) as [H1 H2 H3 H4 H5]. constructor; try done.
  - eapply H3; [|exact H2]. by apply frozen_locks.
  - intros E. unfold upd. rewrite decide_False by by apply HW. by apply H4.
  - intros E. unfold upd. rewrite decide_False by by apply HC. by apply H5.
Qed.
Lemma s_mark {B} c i v (f : unit -> Prog B) L0 P w g L r q Q : St c L0 P w g L r q -> 1 <= i < WAL_NREADER -> L (WAL_READ_LOCK i) = Some true ->
  (forall w1 g1, Inv w1 g1 -> St c L0 P w1 g1 L r q -> safe c (f tt) w1 g1 Q) -> safe c (do_ (OStoreMark i v) ≫= f) w g Q.
Proof.
  intros Hst Hi HL H. eapply safe_store_mark; [apply (st_own _ _ _ _ _ _ _ _ Hst)|done|done|]. intros w1 g1 HI HR w' HI' Ho. apply H; [done|].
  destruct (st_rely _ _ _ _ _ _ _ _ _ _ HR Hst) as [H1 H2 H3 H4 H5]. constructor; try done. eapply H3; [|exact H2]. unfold frozen. by split_and!.
Qed.
Lemma s_ask {B} c a (f : Z -> Prog B) L0 P w g L r q Q : St c L0 P w g L r q ->
  (forall w1 g1 z, Inv w1 g1 -> St c L0 P w1 g1 L r q -> safe c (f z) w1 g1 Q) -> safe c (ask a ≫= f) w g Q.
Proof. intros Hst H. apply safe_ask. intros w1 g1 z HI HR. apply H; [done|by eapply st_rely]. Qed.
Lemma s_ret {A} c (a : A) L0 P w g L r q (Q : A -> World -> Gh -> Prop) : St c L0 P w g L r q ->
  (forall w1 g1, Inv w1 g1 -> St c L0 P w1 g1 L r q -> Q a w1 g1) -> safe c (mret a) w g Q.
Proof. intros Hst H. apply safe_ret. intros w1 g1 HI HR. apply H; [done|by eapply st_rely]. Qed.

(** ** Reading the header *)

Lemma seal_seal h : seal (seal h) = seal h.
Proof. done. Qed.
Lemma try_sealed hdr z h : h = seal h -> walIndexTryHdr hdr z h h = (0, negb (bool_decide (hdr = h)), h, snd (walIndexTryHdr hdr z h h)).
Proof.
  intros E. unfold walIndexTryHdr. rewrite bool_decide_eq_true_2 by done. cbn [negb].
  assert (isInit h = 1) as -> by (rewrite E; reflexivity).
  assert (walChecksumBytes true (hdr_bytes h) None = aCksum h) as Hck by (rewrite E at 2; rewrite E at 1; reflexivity).
  rewrite bool_decide_eq_true_2 by done. cbn [negb Z.eqb]. case_bool_decide as Hh; cbn [negb]; [by subst|done].
Qed.
Lemma try_hdr_eq hdr z h1 h2 bad ch h z' : walIndexTryHdr hdr z h1 h2 = (bad, ch, h, z') -> (bad = 0 /\ h = h1) \/ (bad = 1 /\ h = hdr).
Proof.
  unfold walIndexTryHdr. case_bool_decide; cbn [negb]; [|intros [= <- <- <- <-]; by right]. destruct (isInit h1 =? 0); [intros [= <- <- <- <-]; by right|].
  case_bool_decide; cbn [negb]; [|intros [= <- <- <- <-]; by right]. case_bool_decide; cbn [negb]; intros [= <- <- <- <-]; left; naive_solver.
Qed.

(** The header was published: it is that of an entry, one of the present log when a checkpoint is at work. *)
Definition published (L : Z -> option bool) (w : World) (g : Gh) (h : WalIndexHdr) : Prop :=
  exists j s, w_commits w !! j = Some (h, s) /\ (L WAL_CKPT_LOCK = Some true -> (g_base g <= j)%nat) /\ (L WAL_WRITE_LOCK = Some true -> h = w_hdr0 w).
Lemma published_frozen L w g w' g' h : frozen L w g w' g' -> published L w g h -> published L w' g' h.
Proof.
  intros (A1 & A2 & A3 & _) (j & s & H1 & H2 & H3). exists j, s. split_and!.
  - by eapply prefix_lookup_Some.
  - intros H. destruct (A3 H) as (-> & _). by apply H2.
  - intros H. destruct (A2 H) as (-> & _). by apply H3.
Qed.

Lemma published_stable L h : stable L (fun w g => published L w g h).
Proof. intros w g w' g' HF. by apply published_frozen. Qed.

Lemma try_hdr_safe c x ch L0 P w g L r q : St c L0 P w g L r q ->
  safe c (try_hdr x ch) w g (fun p w' g' => let '(bad, _, x') := p in St c L0 P w' g' L r q /\
    (bad = false -> exists h, x' = set_c_hdr x h /\ published L0 w' g' h) /\ (bad = true -> x' = x) /\ (L WAL_WRITE_LOCK = Some true -> bad = false)).
Proof.
  intros Hst. unfold try_hdr. apply safe_load_hdr. intros w1 g1 HI1 HR1. cbn [Z.eqb].
  assert (St c L0 (fun w g => P w g /\ published L0 w g (w_hdr0 w1)) w1 g1 L r q) as Hst1.
  { apply st_and; [by eapply st_rely|apply published_stable|]. exists (pred (length (w_commits w1))), (latest w1).
    split; [by apply (last_entry sz w1 g1)|]. pose proof (y_base _ _ _ _ _ (v_hist _ _ _ HI1)). split; [intros _; lia|done]. }
  apply safe_load_hdr. intros w2 g2 HI2 HR2. cbn [Z.eqb].
  destruct (walIndexTryHdr (c_hdr x) 0 (w_hdr0 w1) (w_hdr1 w2)) as [[[bad chg] h] z] eqn:Et.
  apply (s_ret c _ L0 _ w2 g2 L r q _ (st_rely _ _ _ _ _ _ _ _ _ _ HR2 Hst1)). intros w3 g3 HI3 Hst3. destruct (st_P _ _ _ _ _ _ _ _ Hst3) as [_ Hp].
  split; [apply (st_mono _ _ _ _ _ _ _ _ _ Hst3); [apply (st_stable _ _ _ _ _ _ _ _ Hst)|by intros [? _]]|].
  destruct (try_hdr_eq _ _ _ _ _ _ _ _ Et) as [[-> ->]|[-> ->]]; cbn [Z.eqb negb].
  - split; [|done]. intros _. by eexists.
  - split; [done|]. split; [by destruct x|]. intros HL. pose proof (st_own _ _ _ _ _ _ _ _ Hst1) as Ho1.
    destruct (r_write _ _ _ _ _ _ HR2) as (E0 & E1 & _); [by rewrite (o_locks _ _ _ _ _ _ Ho1)|].
    destruct (writer_hdr c w1 g1 L r q HI1 Ho1 HL) as [_ E2]. rewrite E1, E2 in Et. rewrite try_sealed in Et by apply (v_seal _ _ _ HI1). done.
Qed.

Lemma st_fst c L0 P P' w g L r q : stable L0 P -> St c L0 (fun w g => P w g /\ P' w g) w g L r q -> St c L0 P w g L r q /\ P' w g.
Proof. intros Hs H. split; [|apply (st_P _ _ _ _ _ _ _ _ H)]. apply (st_mono _ _ _ _ _ _ _ _ _ H Hs). by intros [? _]. Qed.
(** A return with a fact that is stable. *)
Lemma s_ret_and {A} c (a : A) L0 P P' w g L r q (Q : A -> World -> Gh -> Prop) : St c L0 P w g L r q -> stable L0 P' -> P' w g ->
  (forall w1 g1, Inv w1 g1 -> St c L0 P w1 g1 L r q -> P' w1 g1 -> Q a w1 g1) -> safe c (mret a) w g Q.
Proof.
  intros Hst Hs Hp H. apply (s_ret c a L0 _ w g L r q _ (st_and _ _ _ _ _ _ _ _ _ Hst Hs Hp)). intros w1 g1 HI Hst1.
  destruct (st_fst _ _ _ _ _ _ _ _ _ (st_stable _ _ _ _ _ _ _ _ Hst) Hst1). by apply H.
Qed.

Lemma upd_back L o n v : (forall s, o <= s < o + n -> L s = None) -> forall s, upd (upd L o n v) o n None s = L s.
Proof. intros H s. unfold upd. case_decide; [by rewrite H|done]. Qed.
Lemma one_slot (L : Z -> option bool) o : L o = None -> forall s, o <= s < o + 1 -> L s = None.
Proof. intros H s Hs. replace s with o by lia. done. Qed.

Lemma walIndexReadHdr_safe c x L0 P w g L : St c L0 P w g L None None -> (L WAL_WRITE_LOCK = None \/ L WAL_WRITE_LOCK = Some true) ->
  safe c (walIndexReadHdr x) w g (fun p w' g' => let '(rc, _, x') := p in St c L0 P w' g' L None None /\
    (exists h, x' = set_c_hdr x h) /\ (rc = SQLITE_OK -> published L0 w' g' (c_hdr x'))).
Proof.
  intros Hst HW. assert (exists h, x = set_c_hdr x h) as Hx by (exists (c_hdr x); by destruct x).
  unfold walIndexReadHdr. apply (s_ask c _ _ L0 P w g L None None _ Hst). intros w1 g1 rc HI1 Hst1.
  destruct (Z.eqb_spec rc SQLITE_OK) as [->|Hrc]; cbn [negb].
  2: { apply (s_ret c _ L0 P w1 g1 L None None _ Hst1). intros w2 g2 HI2 Hst2. done. }
  apply safe_bind. eapply safe_mono; [|by apply (try_hdr_safe c x false L0 P w1 g1 L None None)]. intros [[bad ch] x2] w2 g2 HI2 (Hst2 & Hgood2 & Hbad2 & Hwr2). cbn beta.
  apply safe_bind. eapply safe_mono with (Q := fun p w' g' => let '(rc, _, _, x') := p in St c L0 P w' g' L None None /\
    (exists h, x' = set_c_hdr x h) /\ (rc = SQLITE_OK -> published L0 w' g' (c_hdr x'))).
  { intros [[[rc b] chg] x'] w' g' HI' (Hst' & Hx' & Hp'). destruct (negb b && _) eqn:E.
    - apply (s_ret c _ L0 P w' g' L None None _ Hst'). done.
    - destruct (decide (rc = SQLITE_OK)) as [->|Hrc]; [|by apply (s_ret c _ L0 P w' g' L None None _ Hst')].
      by apply (s_ret_and c _ L0 P _ w' g' L None None _ Hst' (published_stable L0 (c_hdr x')) (Hp' eq_refl)). }
  destruct bad.
  - specialize (Hbad2 eq_refl). subst x2. assert (L WAL_WRITE_LOCK = None) as HW0 by (destruct HW as [?|HW]; [done|by specialize (Hwr2 HW)]).
    pose proof (one_slot L _ HW0) as Hfree. assert (L0 WAL_WRITE_LOCK <> Some true) as HW1.
    { intros H. pose proof (st_w _ _ _ _ _ _ _ _ Hst H). congruence. }
    destruct (negb (Z.land (c_readOnly x) _ =? 0)).
    + apply (s_lock c false WAL_WRITE_LOCK 1 _ L0 P w2 g2 L None None _ Hst2 Hfree).
      * intros w3 g3 rc HI3 Hst3 Hrc. rewrite (proj2 (Z.eqb_neq _ _) Hrc). apply (s_ret c _ L0 P w3 g3 L None None _ Hst3). done.
      * intros w3 g3 HI3 Hst3. cbn [Z.eqb]. apply (s_unlock c WAL_WRITE_LOCK 1 _ L0 P w3 g3 _ None None None _ Hst3); [by right|done|done|intros _; slots|].
        intros w4 g4 HI4 Hst4. apply (s_ret c _ L0 P w4 g4 L None None _ (st_ext _ _ _ _ _ _ _ _ _ (upd_back L _ _ _ Hfree) Hst4)). done.
    + apply (s_lock c true WAL_WRITE_LOCK 1 _ L0 P w2 g2 L None None _ Hst2 Hfree).
      * intros w3 g3 rc HI3 Hst3 Hrc. rewrite (proj2 (Z.eqb_neq _ _) Hrc). apply (s_ret c _ L0 P w3 g3 L None None _ Hst3). done.
      * intros w3 g3 HI3 Hst3. cbn [Z.eqb]. apply (s_ask c _ _ L0 P w3 g3 _ None None _ Hst3). intros w4 g4 rc HI4 Hst4.
        apply safe_bind. eapply safe_mono with (Q := fun p w' g' => let '(rc, _, _, x') := p in St c L0 P w' g' (upd L WAL_WRITE_LOCK 1 (Some true)) None None /\
          (exists h, x' = set_c_hdr x h) /\ (rc = SQLITE_OK -> published L0 w' g' (c_hdr x'))).
        { intros [[[rc' b] chg] x'] w' g' HI' (Hst' & Hx' & Hp'). destruct (decide (rc' = SQLITE_OK)) as [->|Hrc'].
          - apply (s_unlock c WAL_WRITE_LOCK 1 _ L0 _ w' g' _ None None None _ (st_and _ _ _ _ _ _ _ _ _ Hst' (published_stable L0 (c_hdr x')) (Hp' eq_refl)));
              [by right|done|done|intros _; slots|].
            intros w5 g5 HI5 Hst5. apply (s_ret c _ L0 _ w5 g5 L None None _ (st_ext _ _ _ _ _ _ _ _ _ (upd_back L _ _ _ Hfree) Hst5)). intros w6 g6 HI6 Hst6.
            by destruct (st_fst _ _ _ _ _ _ _ _ _ (st_stable _ _ _ _ _ _ _ _ Hst) Hst6).
          - apply (s_unlock c WAL_WRITE_LOCK 1 _ L0 P w' g' _ None None None _ Hst'); [by right|done|done|intros _; slots|].
            intros w5 g5 HI5 Hst5. apply (s_ret c _ L0 P w5 g5 L None None _ (st_ext _ _ _ _ _ _ _ _ _ (upd_back L _ _ _ Hfree) Hst5)). done. }
        destruct (Z.eqb_spec rc SQLITE_OK) as [->|Hrc]; [|by apply (s_ret c _ L0 P w4 g4 _ None None _ Hst4)].
        apply safe_bind. eapply safe_mono; [|exact (try_hdr_safe c x ch L0 P w4 g4 _ None None Hst4)]. intros [[bad chg] x5] w5 g5 HI5 (Hst5 & Hgood5 & _ & Hwr5). cbn beta.
        specialize (Hwr5 eq_refl). subst bad. destruct (Hgood5 eq_refl) as (h & -> & Hp).
        apply (s_ret_and c _ L0 P _ w5 g5 _ None None _ Hst5 (published_stable L0 h) Hp). intros w6 g6 HI6 Hst6 Hp6. split_and!; [done|by eexists|done].
  - destruct (Hgood2 eq_refl) as (h & -> & Hp). apply (s_ret_and c _ L0 P _ w2 g2 L None None _ Hst2 (published_stable L0 h) Hp). intros w3 g3 HI3 Hst3 Hp3. split_and!; [done|by eexists|done].
Qed.

(** ** Beginning a read transaction *)

Lemma entry_stable L j e : stable L (fun w _ => w_commits w !! j = Some e).
Proof. intros w g w' g' (HF & _) H. by eapply prefix_lookup_Some. Qed.
(** The header of entry [j], which is not older than the first [n0] commits; for a writer it is the present one. *)
Definition entered (n0 : nat) (L0 : Z -> option bool) (j : nat) (h : WalIndexHdr) (s : pages) (w : World) (g : Gh) : Prop :=
  w_commits w !! j = Some (h, s) /\ (L0 WAL_WRITE_LOCK = Some true -> w_hdr0 w = h) /\ (n0 <= S j)%nat.
Lemma entered_stable n0 L j h s : stable L (entered n0 L j h s).
Proof. intros w g w' g' (HF & HW & _) (H1 & H2 & H3). split; [by eapply prefix_lookup_Some|]. split; [|done]. intros E. destruct (HW E) as (-> & _). by apply H2. Qed.
(** [n0] commits were made. *)
Definition since (n0 : nat) (P : World -> Gh -> Prop) : Prop := forall w g, P w g -> (n0 <= length (w_commits w))%nat.
Lemma since_frozen L w g : since (length (w_commits w)) (frozen L w g).
Proof. intros w1 g1 (HF & _). by apply prefix_length. Qed.

(** Everything that is committed is in the database file once the log was copied. *)
Lemma all_in_file w g : Inv w g -> g_reset g = false -> w_backfill w = mx w -> in_file sz w (latest w).
Proof.
  intros HI Hr Hnb pg d Hd. destruct (v_back _ _ _ HI Hr) as [_ Hb]. pose proof (last_frame_range (w_index w) (Z.to_nat (mx w)) pg).
  destruct (decide (last_frame (w_index w) (Z.to_nat (mx w)) pg = 0)); [by apply (v_file _ _ _ HI)|]. apply Hb; [done|].
  pose proof (last_entry sz w g HI) as Hl. pose proof (y_base _ _ _ _ _ (v_hist _ _ _ HI)). pose proof (entry_mx sz w g (pred (length (w_commits w))) _ _ HI ltac:(lia) Hl). unfold mx in *. lia.
Qed.

(** A connection that has a lock on a slot and saw the present header becomes a reader. *)
Lemma register_keeps c w g L k : Inv w g -> Own c w g L None None -> 0 <= k < WAL_NREADER -> L (WAL_READ_LOCK k) = Some false ->
  (k <> 0 -> rd (w_marks w) k <= mx w) -> (k = 0 -> g_reset g = false /\ w_backfill w = mx w) ->
  let j := pred (length (w_commits w)) in let g' := set_reg g (<[c := (k, j)]> (g_reg g)) in
  keeps sz c w g w g' /\ Own c w g' L (Some (k, j)) None.
Proof.
  intros HI Ho Hk HL H1 H0 j g'. pose proof (last_entry sz w g HI) as Hl. pose proof (y_base _ _ _ _ _ (v_hist _ _ _ HI)) as Hb.
  assert (held w c (WAL_READ_LOCK k) = Some false) as Hheld by by rewrite (o_locks _ _ _ _ _ _ Ho).
  assert (forall q, g_ck g = Some q -> k_owner q <> c) as Hck.
  { intros q Hq Hc. by apply (o_ck _ _ _ _ _ _ Ho q Hc) in Hq. }
  split.
  - pose proof (own_step sz c w g (w_locks w) g' HI) as H. rewrite set_locks_same in H. apply H; try done; clear H.
    + intros d s Hd. by apply (v_ex _ _ _ HI).
    + intros d s Hd E E'. pose proof (v_ex _ _ _ HI d c s Hd E') as Hx. unfold held in *. congruence.
    + intros d Hd. unfold g'. cbn [set_reg g_reg]. by rewrite lookup_insert_ne.
    + intros E. by destruct (o_mid _ _ _ _ _ _ Ho).
    + intros i j'. unfold g'. cbn [set_reg g_reg]. rewrite lookup_insert_eq. intros [= <- <-]. split; [done|]. split; [done|]. exists (w_hdr0 w), (latest w).
      split_and!; [done| |].
      * intros Hk0. split_and!; [cbn; unfold j; lia|by apply H1|apply (v_file _ _ _ HI)].
      * intros Hk0. destruct (H0 Hk0) as [A B]. split; [by apply (all_in_file w g)|]. done.
    + intros q Hq. right. split_and!; [done|by apply Hck|]. intros i j' h s. unfold g'. cbn [set_reg g_reg]. rewrite lookup_insert_eq. intros [= <- <-] E.
      unfold j in E. rewrite Hl in E. injection E as <- <-. destruct (v_ck _ _ _ HI q Hq) as (_ & _ & K3 & _ & hk & sk & K5 & K6 & K7 & _).
      pose proof (entry_mx sz w g _ _ _ HI K3 K5). unfold mx in *. lia.
    + apply (v_good _ _ _ HI).
  - destruct Ho as [O1 O2 O3 O4 O5]. constructor; try done. unfold g'. cbn [set_reg g_reg]. by rewrite lookup_insert_eq.
Qed.

Definition mark_ok (mxf : Z) (m k : Z) : Prop := k = 0 \/ (1 <= k < WAL_NREADER /\ m <= mxf).

Lemma find_mark_safe c mxf L0 P L r q n : forall i w g m k, St c L0 P w g L r q -> 1 <= i -> i + Z.of_nat n <= WAL_NREADER -> mark_ok mxf m k ->
  safe c (find_mark n i mxf m k) w g (fun p w' g' => St c L0 P w' g' L r q /\ mark_ok mxf p.1 p.2).
Proof.
  induction n as [|n IH]; intros i w g m k Hst Hi Hn Hm; cbn [find_mark]; [by apply (s_ret c _ L0 P w g L r q _ Hst)|].
  apply safe_load_mark. intros w1 g1 HI1 HR1. pose proof (st_rely _ _ _ _ _ _ _ _ _ _ HR1 Hst) as Hst1. destruct (_ && _) eqn:E; apply IH; try done; try lia.
  right. lia.
Qed.

Definition free_slots (L : Z -> option bool) : Prop := forall i, 0 <= i < WAL_NREADER -> L (WAL_READ_LOCK i) = None.

Lemma claim_mark_safe c mxf L0 P L r q n : (forall k j, r <> Some (k, j)) -> free_slots L -> forall i rc w g m k, St c L0 P w g L r q -> 1 <= i -> i + Z.of_nat n <= WAL_NREADER -> mark_ok mxf m k ->
  safe c (claim_mark n i mxf rc m k) w g (fun p w' g' => let '(stop, rc', m', k') := p in St c L0 P w' g' L r q /\ (stop = false -> mark_ok mxf m' k') /\ (stop = true -> rc' <> SQLITE_OK)).
Proof.
  intros Hr Hfree. induction n as [|n IH]; intros i rc w g m k Hst Hi Hn Hm; cbn [claim_mark]; [by apply (s_ret c _ L0 P w g L r q _ Hst)|].
  pose proof (one_slot L _ (Hfree i ltac:(lia))) as Hone. apply (s_lock c true (WAL_READ_LOCK i) 1 _ L0 P w g L r q _ Hst Hone).
  - intros w1 g1 rc1 HI1 Hst1 Hrc1. rewrite (proj2 (Z.eqb_neq _ _) Hrc1). destruct (rc1 =? SQLITE_BUSY); cbn [negb]; [by apply IH; try lia|].
    by apply (s_ret c _ L0 P w1 g1 L r q _ Hst1).
  - intros w1 g1 HI1 Hst1. cbn [Z.eqb]. apply (s_mark c i mxf _ L0 P w1 g1 _ r q _ Hst1); [lia|unfold upd; by rewrite decide_True by lia|].
    intros w2 g2 HI2 Hst2. apply (s_unlock c (WAL_READ_LOCK i) 1 _ L0 P w2 g2 _ r q r _ Hst2); [left; split; [done|]; intros k' j' E; by destruct (Hr k' j')|intros _; slots..|].
    intros w3 g3 HI3 Hst3. apply (s_ret c _ L0 P w3 g3 L r q _ (st_ext _ _ _ _ _ _ _ _ _ (upd_back L _ _ _ Hone) Hst3)). intros w4 g4 HI4 Hst4.
    split_and!; [done|intros _; right; lia|done].
Qed.

(** The outcome of an attempt: a reader of the log or of the database, or nothing has changed. *)
Definition began (n0 : nat) (c : Z) (L0 : Z -> option bool) (P : World -> Gh -> Prop) (L : Z -> option bool) (x : Conn) (lo : Z) (rc : Z) (x' : Conn) (w' : World) (g' : Gh) : Prop :=
  (rc = SQLITE_OK -> exists k j s, lo <= k < WAL_NREADER /\ x' = set_c_read x k /\ St c L0 P w' g' (upd L (WAL_READ_LOCK k) 1 (Some false)) (Some (k, j)) None /\
    entered n0 L0 j (c_hdr x) s w' g') /\
  (rc <> SQLITE_OK -> x' = x /\ St c L0 P w' g' L None None).

(** The end of a successful attempt: the check of the header, and the return. *)
Lemma enter_safe {A} n0 c x L0 P L k (f : WalIndexHdr -> Prog A) w g Q : since n0 P -> free_slots L -> 0 <= k < WAL_NREADER ->
  St c L0 P w g (upd L (WAL_READ_LOCK k) 1 (Some false)) None None ->
  (k <> 0 -> rd (w_marks w) k <= mxFrame (c_hdr x)) ->
  (forall w1 g1, Inv w1 g1 -> rely c w g w1 g1 -> w_hdr0 w1 = c_hdr x -> k = 0 -> g_reset g1 = false /\ w_backfill w1 = mx w1) ->
  (forall w1 g1 h, Inv w1 g1 -> St c L0 P w1 g1 (upd L (WAL_READ_LOCK k) 1 (Some false)) None None -> h <> c_hdr x -> safe c (f h) w1 g1 Q) ->
  (forall w1 g1 j s, Inv w1 g1 -> St c L0 P w1 g1 (upd L (WAL_READ_LOCK k) 1 (Some false)) (Some (k, j)) None -> entered n0 L0 j (c_hdr x) s w1 g1 -> safe c (f (c_hdr x)) w1 g1 Q) ->
  safe c (load_hdr 0 ≫= f) w g Q.
Proof.
  intros HP Hfree Hk Hst Hmark Hzero Hno Hyes. unfold load_hdr. apply safe_do; [done|]. intros w1 g1 ch junk HI1 HR1. cbn [exec_op Z.eqb a_hdr]. intros _.
  pose proof (st_rely _ _ _ _ _ _ _ _ _ _ HR1 Hst) as Hst1. destruct (decide (w_hdr0 w1 = c_hdr x)) as [E|E].
  - pose proof (st_own _ _ _ _ _ _ _ _ Hst1) as Ho1.
    assert (upd L (WAL_READ_LOCK k) 1 (Some false) (WAL_READ_LOCK k) = Some false) as Hheld by (unfold upd; by rewrite decide_True by lia).
    destruct (register_keeps c w1 g1 _ k HI1 Ho1 Hk Hheld) as [Hkeep Ho'].
    + intros Hk0. unfold mx. rewrite E. rewrite (r_mark _ _ _ _ _ _ HR1 k Hk); [by apply Hmark|].
      rewrite (o_locks _ _ _ _ _ _ (st_own _ _ _ _ _ _ _ _ Hst)). by rewrite Hheld.
    + intros Hk0. by apply Hzero.
    + eexists. split; [exact Hkeep|]. rewrite E. apply (Hyes _ _ (pred (length (w_commits w1))) (latest w1)); [apply Hkeep| |].
      * destruct Hst1 as [A1 A2 A3 A4 A5]. constructor; try done. eapply A3; [|exact A2]. unfold frozen. by split_and!.
      * split; [rewrite (last_entry sz w1 g1 HI1); by rewrite E|]. split; [done|]. pose proof (HP _ _ (st_P _ _ _ _ _ _ _ _ Hst1)). lia.
  - exists g1. split; [by apply stay_step|]. by apply Hno.
Qed.

Lemma begin_with_log_safe n0 c x rc0 L0 P L w g : since n0 P -> free_slots L -> St c L0 P w g L None None ->
  safe c (begin_with_log x rc0) w g (fun p w' g' => began n0 c L0 P L x 1 p.1 p.2 w' g').
Proof.
  intros HP Hfree Hst. unfold begin_with_log.
  assert (forall rc w g, St c L0 P w g L None None -> rc <> SQLITE_OK -> safe c (mret (rc, x)) w g (fun p w' g' => began n0 c L0 P L x 1 p.1 p.2 w' g')) as Hfail.
  { intros rc w1 g1 Hst1 Hrc. apply (s_ret c _ L0 P w1 g1 L None None _ Hst1). intros w2 g2 HI2 Hst2. split; [done|]. done. }
  apply safe_bind. eapply safe_mono; [|apply (find_mark_safe c (mxFrame (c_hdr x)) L0 P L None None 4 1 w g 0 0 Hst); [lia|slots|by left]].
  intros [m k] w1 g1 HI1 [Hst1 Hm]. cbn [fst snd] in Hm. apply safe_bind.
  eapply safe_mono with (Q := fun p w' g' => let '(stop, rc', m', k') := p in St c L0 P w' g' L None None /\ (stop = false -> mark_ok (mxFrame (c_hdr x)) m' k') /\ (stop = true -> rc' <> SQLITE_OK)).
  2: { destruct (_ && _); [apply claim_mark_safe; try done; slots|]. by apply (s_ret c _ L0 P w1 g1 L None None _ Hst1). }
  intros [[[stop rc] m'] k'] w2 g2 HI2 (Hst2 & Hm2 & Hs2). destruct stop; [by apply Hfail; [|apply Hs2]|]. specialize (Hm2 eq_refl).
  destruct (Z.eqb_spec k' 0) as [->|Hk]; [apply Hfail; [done|by destruct (rc =? SQLITE_BUSY)]|]. destruct Hm2 as [?|[Hk1 Hm2]]; [done|].
  pose proof (one_slot L _ (Hfree k' ltac:(lia))) as Hone. apply (s_lock c false (WAL_READ_LOCK k') 1 _ L0 P w2 g2 L None None _ Hst2 Hone).
  - intros w3 g3 rc3 HI3 Hst3 Hrc3. rewrite (proj2 (Z.eqb_neq _ _) Hrc3). cbn [negb]. apply Hfail; [done|]. by destruct (rc3 =? SQLITE_BUSY).
  - intros w3 g3 HI3 Hst3. cbn [Z.eqb negb].
    assert (forall w g, St c L0 P w g (upd L (WAL_READ_LOCK k') 1 (Some false)) None None ->
      safe c (walUnlockShared (WAL_READ_LOCK k');; mret (WAL_RETRY, x)) w g (fun p w' g' => began n0 c L0 P L x 1 p.1 p.2 w' g')) as Hleave.
    { intros w4 g4 Hst4. apply (s_unlock c (WAL_READ_LOCK k') 1 _ L0 P w4 g4 _ None None None _ Hst4); [by right|intros _; slots..|].
      intros w5 g5 HI5 Hst5. apply Hfail; [|done]. exact (st_ext _ _ _ _ _ _ _ _ _ (upd_back L _ _ _ Hone) Hst5). }
    apply safe_load_mark. intros w4 g4 HI4 HR4. pose proof (st_rely _ _ _ _ _ _ _ _ _ _ HR4 Hst3) as Hst4.
    destruct (Z.eqb_spec (rd (w_marks w4) k') m') as [E|E]; cbn [negb]; [|by apply Hleave].
    apply (enter_safe n0 c x L0 P L k' _ w4 g4); [done|done|lia|done|lia|done| |].
    + intros w5 g5 h HI5 Hst5 Hh. rewrite bool_decide_eq_false_2 by done. cbn [negb]. by apply Hleave.
    + intros w5 g5 j s HI5 Hst5 Hj. rewrite bool_decide_eq_true_2 by done. cbn [negb]. apply (s_ret_and c _ L0 P _ w5 g5 _ _ _ _ Hst5 (entered_stable n0 L0 j _ _) Hj).
      intros w6 g6 HI6 Hst6 Hj6. split; [|done]. intros _. exists k', j, s. split; [done|]. split; [done|]. by split.
Qed.

(** A log that was in the database as a whole when header [h] was published still is, if that is the present header. *)
Definition copied (h : WalIndexHdr) (w : World) (g : Gh) : Prop :=
  exists j s, w_commits w !! j = Some (h, s) /\ (length (w_commits w) = S j -> g_reset g = false /\ mxFrame h <= w_backfill w).
Lemma copied_stable L h : stable L (copied h).
Proof.
  intros w g w' g' (HF & _ & _ & _ & _ & Hnb) (j & s & Hj & H). exists j, s. split; [by eapply prefix_lookup_Some|]. intros E.
  pose proof (prefix_length _ _ HF). pose proof (lookup_lt_Some _ _ _ Hj). destruct (H ltac:(lia)) as [Hr Hle]. destruct (Hnb ltac:(lia) Hr). split; [done|lia].
Qed.
Lemma copied_now h w g : Inv w g -> copied h w g -> w_hdr0 w = h -> g_reset g = false /\ w_backfill w = mx w.
Proof.
  intros HI (j & s & Hj & H) <-. pose proof (entry_unique sz w g _ _ _ _ _ HI Hj (last_entry sz w g HI)) as ->. pose proof (y_base _ _ _ _ _ (v_hist _ _ _ HI)).
  destruct (H ltac:(lia)) as [Hr Hle]. destruct (v_back _ _ _ HI Hr) as [? _]. split; [done|]. unfold mx in *. lia.
Qed.
Lemma copied_start L h w g : Inv w g -> published L w g h -> w_backfill w = mxFrame h -> copied h w g.
Proof.
  intros HI (j & s & Hj & _) Hnb. exists j, s. split; [done|]. intros E. pose proof (last_entry sz w g HI) as Hl. rewrite E in Hl. cbn [pred] in Hl. rewrite Hj in Hl. injection Hl as -> ->.
  split; [|lia]. destruct (g_reset g) eqn:Er; [|done]. destruct (v_reset _ _ _ HI Er) as (H1 & H2 & _). unfold mx in *. lia.
Qed.

Lemma walTryBeginRead_safe n0 c x useWal cnt L0 P L w g : since n0 P -> free_slots L -> L WAL_RECOVER_LOCK = None -> (useWal = false -> L WAL_WRITE_LOCK = None) -> St c L0 P w g L None None ->
  safe c (walTryBeginRead x useWal cnt) w g (fun p w' g' => let '(rc, _, x') := p in
    exists h, (useWal = true -> h = c_hdr x) /\ began n0 c L0 P L (set_c_hdr x h) (if useWal then 1 else 0) rc x' w' g').
Proof.
  intros HP Hfree Hrec HW Hst. unfold walTryBeginRead.
  assert (forall h rc (ch : bool) w g, (useWal = true -> h = c_hdr x) -> St c L0 P w g L None None -> rc <> SQLITE_OK -> safe c (mret (rc, ch, set_c_hdr x h)) w g (fun p w' g' => let '(rc, _, x') := p in
    exists h, (useWal = true -> h = c_hdr x) /\ began n0 c L0 P L (set_c_hdr x h) (if useWal then 1 else 0) rc x' w' g')) as Hfail.
  { intros h rc ch w1 g1 Hh Hst1 Hrc. apply (s_ret c _ L0 P w1 g1 L None None _ Hst1). intros w2 g2 HI2 Hst2. exists h. split; [done|]. split; [done|]. done. }
  assert (set_c_hdr x (c_hdr x) = x) as Hid by by destruct x.
  destruct (_ && _); [rewrite <- Hid at 1; by apply Hfail|].
  apply safe_bind. eapply safe_mono with (Q := fun p w' g' => let '(rc, _, x') := p in St c L0 P w' g' L None None /\ exists h, x' = set_c_hdr x h /\ (useWal = true -> h = c_hdr x) /\
    (useWal = false -> rc = SQLITE_OK -> published L0 w' g' h)).
  2: { destruct useWal.
    - apply (s_ret c _ L0 P w g L None None _ Hst). intros w1 g1 HI1 Hst1. split; [done|]. exists (c_hdr x). by rewrite Hid.
    - apply safe_bind. eapply safe_mono; [|apply (walIndexReadHdr_safe c x L0 P w g L Hst); left; by apply HW].
      intros [[rc ch] x1] w1 g1 HI1 (Hst1 & [h ->] & Hp). destruct (Z.eqb_spec rc SQLITE_BUSY) as [->|Hbusy].
      + apply (s_ask c _ _ L0 P w1 g1 L None None _ Hst1). intros w2 g2 z HI2 Hst2.
        assert (forall rc w g, St c L0 P w g L None None -> rc <> SQLITE_OK -> safe c (mret (rc, ch, set_c_hdr x h)) w g (fun p w' g' => let '(rc, _, x') := p in
          St c L0 P w' g' L None None /\ exists h, x' = set_c_hdr x h /\ (false = true -> h = c_hdr x) /\ (false = false -> rc = SQLITE_OK -> published L0 w' g' h))) as Hf.
        { intros rc w3 g3 Hst3 Hrc. apply (s_ret c _ L0 P w3 g3 L None None _ Hst3). intros w4 g4 HI4 Hst4. split; [done|]. exists h. done. }
        destruct (z =? 0); [by apply Hf|]. pose proof (one_slot L _ Hrec) as Hone.
        apply (s_lock c false WAL_RECOVER_LOCK 1 _ L0 P w2 g2 L None None _ Hst2 Hone).
        * intros w3 g3 rc HI3 Hst3 Hrc. rewrite (proj2 (Z.eqb_neq _ _) Hrc). apply Hf; [done|]. by destruct (rc =? SQLITE_BUSY).
        * intros w3 g3 HI3 Hst3. cbn [Z.eqb]. apply (s_unlock c WAL_RECOVER_LOCK 1 _ L0 P w3 g3 _ None None None _ Hst3); [by right|done|intros _; slots..|].
          intros w4 g4 HI4 Hst4. apply Hf; [|done]. exact (st_ext _ _ _ _ _ _ _ _ _ (upd_back L _ _ _ Hone) Hst4).
      + destruct (decide (rc = SQLITE_OK)) as [->|Hrc].
        * apply (s_ret_and c _ L0 P _ w1 g1 _ _ _ _ Hst1 (published_stable L0 h) (Hp eq_refl)). intros w2 g2 HI2 Hst2 Hp2. split; [done|]. by exists h.
        * apply (s_ret c _ L0 P w1 g1 L None None _ Hst1). intros w2 g2 HI2 Hst2. split; [done|]. exists h. done. }
  intros [[rc ch] x1] w1 g1 HI1 (Hst1 & h & -> & Hh & Hp). destruct (Z.eqb_spec rc SQLITE_OK) as [->|Hrc]; cbn [negb]; [|by apply Hfail].
  assert (forall rc0 w g, St c L0 P w g L None None -> safe c ('(rc, x) ← begin_with_log (set_c_hdr x h) rc0; mret (rc, ch, x)) w g (fun p w' g' => let '(rc, _, x') := p in
    exists h, (useWal = true -> h = c_hdr x) /\ began n0 c L0 P L (set_c_hdr x h) (if useWal then 1 else 0) rc x' w' g')) as Hlog.
  { intros rc0 w2 g2 Hst2. apply safe_bind. eapply safe_mono; [|by apply (begin_with_log_safe n0 c (set_c_hdr x h) rc0 L0 P L w2 g2)].
    intros [rc x3] w3 g3 HI3 [Hok Herr]. cbn [fst snd] in *. destruct (decide (rc = SQLITE_OK)) as [->|Hrc].
    - destruct (Hok eq_refl) as (k & j & s & Hk & -> & Hst3 & Hj). apply (s_ret_and c _ L0 P _ w3 g3 _ _ _ _ Hst3 (entered_stable n0 L0 j _ _) Hj).
      intros w4 g4 HI4 Hst4 Hj4. exists h. split; [done|]. split; [|done]. intros _. exists k, j, s. split; [destruct useWal; lia|]. split; [done|]. by split.
    - destruct (Herr Hrc) as [-> Hst3]. by apply Hfail. }
  destruct useWal; cbn [negb andb].
  - apply safe_bind, (s_ret c _ L0 P w1 g1 L None None _ Hst1). intros w2 g2 HI2 Hst2. by apply Hlog.
  - specialize (Hp eq_refl eq_refl). apply safe_load_nb. intros w2 g2 HI2 HR2.
    destruct (st_fst _ _ _ _ _ _ _ _ _ (st_stable _ _ _ _ _ _ _ _ Hst) (st_rely _ _ _ _ _ _ _ _ _ _ HR2 (st_and _ _ _ _ _ _ _ _ _ Hst1 (published_stable L0 h) Hp))) as [Hst2 Hp2].
    destruct (Z.eqb_spec (w_backfill w2) (mxFrame (c_hdr (set_c_hdr x h)))) as [E|E]; [|by apply Hlog]. cbn [set_c_hdr c_hdr] in E.
    pose proof (copied_start L0 h w2 g2 HI2 Hp2 E) as Hcp. pose proof (one_slot L _ (Hfree 0 ltac:(slots))) as Hone.
    apply (s_lock c false (WAL_READ_LOCK 0) 1 _ L0 _ w2 g2 L None None _ (st_and _ _ _ _ _ _ _ _ _ Hst2 (copied_stable L0 h) Hcp) Hone).
    + intros w3 g3 rc HI3 Hst3 Hrc. destruct (st_fst _ _ _ _ _ _ _ _ _ (st_stable _ _ _ _ _ _ _ _ Hst) Hst3) as [Hst3' _]. rewrite (proj2 (Z.eqb_neq _ _) Hrc).
      destruct (rc =? SQLITE_BUSY); cbn [negb]; [by apply Hlog|by apply Hfail].
    + intros w3 g3 HI3 Hst3. cbn [Z.eqb]. destruct (st_fst _ _ _ _ _ _ _ _ _ (st_stable _ _ _ _ _ _ _ _ Hst) Hst3) as [Hst3' Hcp3].
      apply (enter_safe n0 c (set_c_hdr x h) L0 P L 0 _ w3 g3); [done|done|slots|done|done| | |].
      * intros w4 g4 HI4 HR4 E4 _. apply (copied_now h); [done| |done]. destruct (st_rely _ _ _ _ _ _ _ _ _ _ HR4 Hst3) as [_ [_ ?] _ _ _]. done.
      * intros w4 g4 h' HI4 Hst4 Hne. rewrite bool_decide_eq_false_2 by done. cbn [negb].
        apply (s_unlock c (WAL_READ_LOCK 0) 1 _ L0 P w4 g4 _ None None None _ Hst4); [by right|done|intros _; slots..|].
        intros w5 g5 HI5 Hst5. apply Hfail; [done| |done]. exact (st_ext _ _ _ _ _ _ _ _ _ (upd_back L _ _ _ Hone) Hst5).
      * intros w4 g4 j s HI4 Hst4 Hj. rewrite bool_decide_eq_true_2 by done. cbn [negb]. apply (s_ret_and c _ L0 P _ w4 g4 _ _ _ _ Hst4 (entered_stable n0 L0 j _ _) Hj).
        intros w5 g5 HI5 Hst5 Hj5. exists h. split; [done|]. split; [|done]. intros _. exists 0, j, s. split; [slots|]. split; [done|]. by split.
Qed.

Lemma begin_loop_safe n0 c useWal L0 P L n : since n0 P -> free_slots L -> L WAL_RECOVER_LOCK = None -> (useWal = false -> L WAL_WRITE_LOCK = None) ->
  forall x ch cnt w g, St c L0 P w g L None None ->
  safe c (begin_loop n x useWal ch cnt) w g (fun p w' g' => let '(rc, _, x') := p in
    exists h, (useWal = true -> h = c_hdr x) /\ began n0 c L0 P L (set_c_hdr x h) (if useWal then 1 else 0) rc x' w' g').
Proof.
  intros HP Hfree Hrec HW. induction n as [|n IH]; intros x ch cnt w g Hst; cbn [begin_loop].
  - apply (s_ret c _ L0 P w g L None None _ Hst). intros w1 g1 HI1 Hst1. exists (c_hdr x). split; [done|]. split; [done|]. intros _. by destruct x.
  - apply safe_bind. eapply safe_mono; [|by apply (walTryBeginRead_safe n0 c x useWal (cnt + 1) L0 P L w g)]. intros [[rc ch1] x1] w1 g1 HI1 (h & Hh & Hok & Herr).
    destruct (Z.eqb_spec rc WAL_RETRY) as [->|Hretry].
    + destruct (Herr ltac:(done)) as [-> Hst1]. eapply safe_mono; [|by apply IH]. intros [[rc ch2] x2] w2 g2 HI2 (h2 & Hh2 & Hb). exists h2. split; [|done].
      intros E. rewrite (Hh2 E). by apply Hh.
    + destruct (decide (rc = SQLITE_OK)) as [->|Hrc].
      * destruct (Hok eq_refl) as (k & j & s & Hk & -> & Hst1 & Hj). apply (s_ret_and c _ L0 P _ w1 g1 _ _ _ _ Hst1 (entered_stable n0 L0 j _ _) Hj).
        intros w2 g2 HI2 Hst2 Hj2. exists h. split; [done|]. split; [|done]. intros _. exists k, j, s. split; [done|]. split; [done|]. by split.
      * destruct (Herr Hrc) as [-> Hst1]. apply (s_ret c _ L0 P w1 g1 L None None _ Hst1). intros w2 g2 HI2 Hst2. exists h. split; [done|]. split; [done|]. done.
Qed.

(** * A connection between its operations *)

Definition lk (x : Conn) : Z -> option bool := fun s =>
  if decide (s = WAL_WRITE_LOCK) then (if c_writeLock x =? 0 then None else Some true)
  else if decide (0 <= c_readLock x /\ s = WAL_READ_LOCK (c_readLock x)) then Some false else None.

(** What a writer has added to the log. *)
Definition writer_ok (x : Conn) (w : World) : Prop :=
  mx w <= mxFrame (c_hdr x) <= Z.of_nat (length (w_index w)) /\ nPage (c_hdr x) = nPage (w_hdr0 w) /\
  (forall i, mx w < i <= mxFrame (c_hdr x) -> exists pg, w_index w !! Z.to_nat (i - 1) = Some pg /\ 0 < pg) /\
  (c_readLock x = 0 -> mxFrame (c_hdr x) = mx w).

(** The snapshot of a reader is the entry of its header; that of a writer is the last one. *)
Definition snapshot_ok (x : Conn) (w : World) (r : option (Z * nat)) : Prop :=
  (c_readLock x < 0 /\ r = None) \/
  (0 <= c_readLock x < WAL_NREADER /\ exists j h s, r = Some (c_readLock x, j) /\ w_commits w !! j = Some (h, s) /\
    (c_writeLock x = 0 -> h = c_hdr x) /\ (c_writeLock x <> 0 -> S j = length (w_commits w) /\ writer_ok x w)).

Definition idle_ok (c : Z) (x : Conn) (w : World) (g : Gh) : Prop := exists r, Own c w g (lk x) r None /\ snapshot_ok x w r.

Lemma writer_ok_rely c x w g w' g' : held w c WAL_WRITE_LOCK = Some true -> rely c w g w' g' -> writer_ok x w -> writer_ok x w'.
Proof. intros HL HR H. destruct (r_write _ _ _ _ _ _ HR HL) as (E1 & _ & _ & E2 & _). unfold writer_ok, mx in *. by rewrite E1, E2. Qed.

Lemma idle_rely c x w g w' g' : rely c w g w' g' -> idle_ok c x w g -> idle_ok c x w' g'.
Proof.
  intros HR (r & Ho & Hs). exists r. split; [by eapply own_rely|]. destruct Hs as [Hs|(Hk & j & h & s & -> & Hj & H0 & H1)]; [by left|]. right. split; [done|].
  exists j, h, s. split; [done|]. split; [eapply prefix_lookup_Some; [done|apply (r_hist _ _ _ _ _ _ HR)]|]. split; [done|]. intros Hw. destruct (H1 Hw) as [E Hwr].
  assert (held w c WAL_WRITE_LOCK = Some true) as HL.
  { rewrite (o_locks _ _ _ _ _ _ Ho). unfold lk. rewrite decide_True by done. by rewrite (proj2 (Z.eqb_neq _ _)). }
  split; [|by eapply writer_ok_rely]. by destruct (r_write _ _ _ _ _ _ HR HL) as (_ & _ & -> & _).
Qed.

Lemma idle_start c x w g r : Own c w g (lk x) r None -> St c (lk x) (frozen (lk x) w g) w g (lk x) r None.
Proof. apply st_start. Qed.
Lemma safe_idle {A} c (a : A) x w g (Q : A -> World -> Gh -> Prop) : idle_ok c x w g -> (forall w1 g1, Inv w1 g1 -> idle_ok c x w1 g1 -> Q a w1 g1) -> safe c (mret a) w g Q.
Proof. intros Hi H. apply safe_ret. intros w1 g1 HI HR. apply H; [done|by eapply idle_rely]. Qed.

Lemma lk_no_reader x : c_readLock x < 0 -> c_writeLock x = 0 -> forall s, lk x s = None.
Proof. intros Hr Hw s. unfold lk. rewrite Hw. case_decide; [done|]. rewrite decide_False by lia. done. Qed.

Definition done_ok (c : Z) : Z * Conn -> World -> Gh -> Prop := fun p w g => idle_ok c p.2 w g.

(** The outcome of the beginning of a read transaction when [n0] commits were made: the snapshot is not older. *)
Definition begun (c : Z) (n0 : nat) : Z * Conn -> World -> Gh -> Prop := fun p w g =>
  idle_ok c p.2 w g /\ (p.1 = SQLITE_OK -> exists j s, w_commits w !! j = Some (c_hdr p.2, s) /\ (n0 <= S j)%nat).

Lemma beginRead_safe c x w g : idle_ok c x w g -> c_readLock x < 0 -> c_writeLock x = 0 -> safe c (program sz x KBeginRead) w g (begun c (length (w_commits w))).
Proof.
  intros (r & Ho & Hs) Hr Hw. destruct Hs as [[_ ->]|[? _]]; [|lia]. pose proof (lk_no_reader x Hr Hw) as HL. cbn [program]. unfold sqlite3WalBeginReadTransaction.
  apply safe_bind. eapply safe_mono; [|apply (begin_loop_safe _ c false (lk x) _ (lk x) 101 (since_frozen _ _ _) ltac:(intros i _; apply HL) ltac:(apply HL) ltac:(intros _; apply HL) x false 0 w g (idle_start _ _ _ _ _ Ho))].
  intros [[rc ch] x1] w1 g1 HI1 (h & _ & Hok & Herr).
  assert (forall w g, Own c w g (lk x) None None -> idle_ok c (set_c_hdr x h) w g) as Hidle.
  { intros w2 g2 Ho2. exists None. split; [done|]. by left. }
  destruct (decide (rc = SQLITE_OK)) as [->|Hrc].
  - destruct (Hok eq_refl) as (k & j & s & Hk & -> & Hst & Hj). apply (s_ret_and c _ _ _ _ w1 g1 _ _ _ _ Hst (entered_stable _ _ j _ _) Hj). clear Hst Hj HI1 Hok Herr w1 g1. intros w1 g1 HI1 Hst (Hj & _ & Hn0).
    split; [|intros _; by exists j, s]. cbn [fst snd]. exists (Some (k, j)). split.
    + eapply own_ext; [|apply (st_own _ _ _ _ _ _ _ _ Hst)]. intros t. unfold upd. rewrite HL. unfold lk. cbn [set_c_read set_c_hdr c_writeLock c_readLock]. rewrite Hw.
      destruct (decide (WAL_READ_LOCK k <= t < WAL_READ_LOCK k + 1)).
      * rewrite decide_False by slots. rewrite decide_True by slots. done.
      * case_decide; [done|]. rewrite decide_False by slots. done.
    + right. split; [done|]. exists j, h, s. split_and!; [done|done|done|]. cbn [set_c_read set_c_hdr c_writeLock]. done.
  - destruct (Herr Hrc) as [-> Hst]. apply (safe_idle c _ (set_c_hdr x h)); [|intros w2 g2 HI2 Hi2; by split]. apply Hidle, (st_own _ _ _ _ _ _ _ _ Hst).
Qed.

Lemma lk_writer x : c_writeLock x <> 0 -> lk x WAL_WRITE_LOCK = Some true.
Proof. intros Hw. unfold lk. rewrite decide_True by done. by rewrite (proj2 (Z.eqb_neq _ _)). Qed.
Lemma lk_reader x : c_writeLock x = 0 -> lk x WAL_WRITE_LOCK = None.
Proof. intros Hw. unfold lk. rewrite decide_True by done. by rewrite Hw. Qed.
Lemma lk_ckpt x : lk x WAL_CKPT_LOCK = None.
Proof. unfold lk. rewrite decide_False by done. rewrite decide_False; [done|]. slots. Qed.
(** The write lock makes the difference between a writer and a reader. *)
Lemma lk_write x v : v <> 0 -> forall s, upd (lk x) WAL_WRITE_LOCK 1 (Some true) s = lk (set_c_write x v) s.
Proof.
  intros Hv s. unfold upd, lk. cbn [set_c_write c_writeLock c_readLock]. rewrite (proj2 (Z.eqb_neq _ _) Hv).
  destruct (decide (WAL_WRITE_LOCK <= s < WAL_WRITE_LOCK + 1)) as [H|H]; [rewrite decide_True by slots; done|]. by rewrite !(decide_False (P := s = WAL_WRITE_LOCK)) by slots.
Qed.
Lemma lk_release x : forall s, upd (lk x) WAL_WRITE_LOCK 1 None s = lk (set_c_write x 0) s.
Proof.
  intros s. unfold upd, lk. cbn [set_c_write c_writeLock c_readLock]. cbn [Z.eqb].
  destruct (decide (WAL_WRITE_LOCK <= s < WAL_WRITE_LOCK + 1)) as [H|H]; [rewrite decide_True by slots; done|]. by rewrite !(decide_False (P := s = WAL_WRITE_LOCK)) by slots.
Qed.
Lemma lk_leave x : 0 <= c_readLock x -> forall s, upd (lk x) (WAL_READ_LOCK (c_readLock x)) 1 None s = lk (set_c_read x (-1)) s.
Proof.
  intros Hr s. unfold upd, lk. cbn [set_c_read c_writeLock c_readLock].
  destruct (decide (WAL_READ_LOCK (c_readLock x) <= s < WAL_READ_LOCK (c_readLock x) + 1)) as [H|H].
  - rewrite !(decide_False (P := s = WAL_WRITE_LOCK)) by slots. by rewrite decide_False by lia.
  - case_decide; [done|]. rewrite !decide_False; [done|lia|slots].
Qed.

Lemma beginWrite_safe c x w g : idle_ok c x w g -> 0 <= c_readLock x -> c_writeLock x = 0 -> safe c (program sz x KBeginWrite) w g (done_ok c).
Proof.
  intros Hi Hr Hw. cbn [program]. unfold sqlite3WalBeginWriteTransaction. destruct (negb (_ =? 0)); [by apply (safe_idle c _ x)|].
  destruct Hi as (r & Ho & [[? _]|(Hk & j & h & s & -> & Hj & H0 & _)]); [lia|]. specialize (H0 Hw). subst h.
  pose proof (one_slot (lk x) _ (lk_reader x Hw)) as Hone.
  assert (forall w g, Own c w g (lk x) (Some (c_readLock x, j)) None -> w_commits w !! j = Some (c_hdr x, s) -> idle_ok c x w g) as Hidle.
  { intros w1 g1 Ho1 Hj1. exists (Some (c_readLock x, j)). split; [done|]. right. split; [done|]. exists j, (c_hdr x), s. split_and!; done. }
  apply (s_lock c true WAL_WRITE_LOCK 1 _ (lk x) _ w g (lk x) _ None _ (st_and _ _ _ _ _ _ _ _ _ (st_start _ _ _ _ _ _ Ho) (entry_stable (lk x) j (c_hdr x, s)) Hj) Hone).
  - intros w1 g1 rc HI1 Hst1 Hrc. rewrite (proj2 (Z.eqb_neq _ _) Hrc). cbn [negb]. apply (safe_idle c _ x); [|done]. destruct Hst1 as [Ho1 [_ Hj1] _ _ _]. by apply Hidle.
  - intros w1 g1 HI1 Hst1. cbn [Z.eqb negb]. apply safe_load_hdr. intros w2 g2 HI2 HR2. cbn [Z.eqb]. pose proof (st_rely _ _ _ _ _ _ _ _ _ _ HR2 Hst1) as Hst2.
    case_bool_decide as E; cbn [negb].
    + apply (safe_idle c _ (set_c_write x 1)); [|done]. destruct Hst2 as [Ho2 [_ Hj2] _ _ _]. exists (Some (c_readLock x, j)).
      split; [eapply own_ext; [|exact Ho2]; by apply lk_write|]. right. split; [done|]. exists j, (c_hdr x), s. split; [done|]. split; [done|]. split; [done|]. intros _.
      pose proof (last_entry sz w2 g2 HI2) as Hl. pose proof (y_base _ _ _ _ _ (v_hist _ _ _ HI2)) as Hb. rewrite <- E in Hl.
      pose proof (entry_unique sz w2 g2 _ _ _ _ _ HI2 Hj2 Hl) as Ej. split; [lia|]. pose proof (y_mx _ _ _ _ _ (v_hist _ _ _ HI2) (pred (length (w_commits w2))) (c_hdr x) (latest w2) ltac:(lia) Hl).
      unfold writer_ok, mx. cbn [set_c_write c_hdr]. rewrite <- E. split_and!; [lia|lia|done|lia|done].
    + apply (s_unlock c WAL_WRITE_LOCK 1 _ (lk x) _ w2 g2 _ (Some (c_readLock x, j)) None (Some (c_readLock x, j)) _ Hst2); [left; split; [done|]; intros k' j' [= <- <-]; slots|done| |intros _; slots|].
      { rewrite (lk_reader x Hw). done. }
      intros w3 g3 HI3 Hst3. apply (safe_idle c _ x); [|done]. destruct Hst3 as [Ho3 [_ Hj3] _ _ _]. apply Hidle; [|done].
      exact (own_ext _ _ _ _ _ _ _ (upd_back (lk x) _ _ _ Hone) Ho3).
Qed.

(** Releasing the write lock. *)
Lemma endWrite_own {A} c x (f : Conn -> Prog A) L0 P w g r Q : St c L0 P w g (lk x) r None -> L0 WAL_WRITE_LOCK <> Some true -> (forall k j, r = Some (k, j) -> 0 <= k) ->
  (forall x' w1 g1, Inv w1 g1 -> St c L0 P w1 g1 (lk x') r None -> c_writeLock x' = 0 -> c_hdr x' = c_hdr x -> c_readLock x' = c_readLock x -> safe c (f x') w1 g1 Q) ->
  safe c (sqlite3WalEndWriteTransaction x ≫= f) w g Q.
Proof.
  intros Hst HW Hr H. unfold sqlite3WalEndWriteTransaction. destruct (Z.eqb_spec (c_writeLock x) 0) as [E|E]; cbn [negb].
  - apply safe_bind. apply (s_ret c _ L0 P w g _ _ _ _ Hst). intros w1 g1 HI1 Hst1. by apply H.
  - apply safe_bind. apply (s_unlock c WAL_WRITE_LOCK 1 _ L0 P w g _ r None r _ Hst); [left; split; [done|]; intros k j Hkj; specialize (Hr k j Hkj); slots|done|done|intros _; slots|].
    intros w1 g1 HI1 Hst1. apply (s_ret c _ L0 P w1 g1 _ _ _ _ Hst1). intros w2 g2 HI2 Hst2. apply H; try done.
    apply (st_ext _ _ _ _ _ _ _ _ _ (lk_release x) Hst2).
Qed.

Lemma st_any c w g L r q : Own c w g L r q -> St c (fun _ => None) (fun _ _ => True) w g L r q.
Proof. intros Ho. by constructor. Qed.

Lemma endWrite_safe c x w g : idle_ok c x w g -> c_writeLock x = 0 \/ c_hdr x = w_hdr0 w -> safe c (program sz x KEndWrite) w g (done_ok c).
Proof.
  intros (r & Ho & Hs) Hpre. cbn [program]. apply safe_intro. intros w0 g0 HI0 HR0.
  assert (snapshot_ok (set_c_write x 0) w0 r) as Hs0.
  { destruct Hs as [Hs|(Hk & j & h & s & -> & Hj & H0 & H1)]; [by left|]. right. split; [done|]. exists j, h, s. split; [done|].
    split; [eapply prefix_lookup_Some; [done|apply (r_hist _ _ _ _ _ _ HR0)]|]. split; [|done]. intros _. destruct (decide (c_writeLock x = 0)) as [Hw|Hw]; [by apply H0|].
    destruct Hpre as [?|E]; [done|]. destruct (H1 Hw) as [Ej _].
    destruct (r_write _ _ _ _ _ _ HR0) as (E0 & _ & Ec & _); [rewrite (o_locks _ _ _ _ _ _ Ho); by apply lk_writer|].
    pose proof (last_entry sz w0 g0 HI0) as Hl. rewrite Ec, <- Ej in Hl. cbn [pred] in Hl. rewrite Hj in Hl. injection Hl as -> _. cbn. congruence. }
  pose proof (own_rely _ _ _ _ _ _ _ _ HR0 Ho) as Ho0.
  apply (endWrite_own c x _ (fun _ => None) (fun w _ => snapshot_ok (set_c_write x 0) w r) w0 g0 r).
  - apply (st_mono _ _ _ _ _ _ _ _ _ (st_any _ _ _ _ _ _ Ho0)); [|done]. intros w1 g1 w2 g2 (HF & _) [?|(Hk & j & h & s & -> & Hj & H0 & H1)]; [by left|]. right. split; [done|].
    exists j, h, s. split; [done|]. split; [by eapply prefix_lookup_Some|done].
  - done.
  - intros k j ->. destruct Hs as [[_ ?]|(Hk & ? & ? & ? & [= -> ->] & _)]; [done|lia].
  - intros x' w1 g1 HI1 Hst1 Hw' Hh' Hr'. apply (safe_idle c _ x'); [|done]. exists r. split; [apply (st_own _ _ _ _ _ _ _ _ Hst1)|].
    destruct (st_P _ _ _ _ _ _ _ _ Hst1) as [[Hneg ->]|(Hk & j & h & s & -> & Hj & H0 & _)]; [left; split; [cbn in Hneg; lia|done]|]. cbn [set_c_write c_readLock c_hdr] in *.
    right. rewrite Hr'. split; [done|]. exists j, h, s. split; [done|]. split; [done|]. split; [rewrite Hh'; by intros _; apply H0|]. by rewrite Hw'.
Qed.

Lemma endRead_safe c x w g : idle_ok c x w g -> safe c (program sz x KEndRead) w g (done_ok c).
Proof.
  intros (r & Ho & Hs). cbn [program]. unfold sqlite3WalEndReadTransaction. apply safe_bind.
  assert (forall k j, r = Some (k, j) -> k = c_readLock x /\ 0 <= k) as Hr.
  { intros k j ->. destruct Hs as [[_ ?]|(Hk & ? & ? & ? & [= -> ->] & _)]; [done|]. split; [done|lia]. }
  apply (endWrite_own c x _ (fun _ => None) (fun _ _ => True) w g r); [by apply st_any|done|intros k j E; by apply (Hr k j)|].
  intros x' w1 g1 HI1 Hst1 Hw' Hh' Hr'. destruct (Z.leb_spec 0 (c_readLock x')) as [Hle|Hlt].
  - apply (s_unlock c _ 1 _ _ _ w1 g1 _ r None None _ Hst1); [by right|done|done|done|]. intros w2 g2 HI2 Hst2. apply safe_idle with (x := set_c_read x' (-1)).
    + exists None. split; [|left; split; [cbn; lia|done]]. eapply own_ext; [|apply (st_own _ _ _ _ _ _ _ _ Hst2)]. by apply lk_leave.
    + intros w3 g3 HI3 Hi3. by apply (safe_idle c _ (set_c_read x' (-1))).
  - apply safe_idle with (x := x').
    + exists r. split; [apply (st_own _ _ _ _ _ _ _ _ Hst1)|]. left. split; [lia|]. destruct r as [[k j]|]; [|done]. destruct (Hr k j eq_refl). lia.
    + intros w3 g3 HI3 Hi3. by apply (safe_idle c _ x').
Qed.
End proof.
