(* ===== verification/WalWriter.v ===== *)
(** Write transactions of WalTrans.v keep the invariant of WalIso.v. *)
From S2P Require Import Prelude WalHash WalIter WalLog WalWrite WalTrans WalSys WalIso WalProof.
Local Open Scope Z_scope.

Section writer.
Context (sz : Z) (Hsz : 0 < sz).
Local Abbreviation Inv := (WalIso.Inv sz).
Local Abbreviation rely := (WalIso.rely sz).
Local Abbreviation safe := (WalIso.safe sz).
Local Abbreviation St := (WalProof.St sz).

(** A connection with the write lock knows the header, the history, the index and the log. *)
Record Wst (c : Z) (w : World) (g : Gh) (L : Z -> option bool) (r : option (Z * nat)) (h : WalIndexHdr) (cs : list (WalIndexHdr * pages)) (ix : list Z) (lg : gmap Z block) : Prop := {
  ws_own : Own c w g L r None;
  ws_lock : L WAL_WRITE_LOCK = Some true;
  ws_hdr : w_hdr0 w = h;
  ws_cs : w_commits w = cs;
  ws_ix : w_index w = ix;
  ws_lg : w_log w = lg
}.

Lemma wst_rely c w g w' g' L r h cs ix lg : rely c w g w' g' -> Wst c w g L r h cs ix lg -> Wst c w' g' L r h cs ix lg.
Proof.
  intros HR [H1 H2 H3 H4 H5 H6]. destruct (r_write _ _ _ _ _ _ HR) as (E1 & _ & E2 & E3 & E4 & _); [by rewrite (o_locks _ _ _ _ _ _ H1)|].
  constructor; [by eapply own_rely|done|congruence..].
Qed.
Lemma wst_start c w g L r : Own c w g L r None -> L WAL_WRITE_LOCK = Some true -> Wst c w g L r (w_hdr0 w) (w_commits w) (w_index w) (w_log w).
Proof. by constructor. Qed.
Lemma wst_ext c w g L L' r h cs ix lg : (forall s, L s = L' s) -> Wst c w g L r h cs ix lg -> Wst c w g L' r h cs ix lg.
Proof. intros HL [H1 H2 H3 H4 H5 H6]. constructor; try done; [by eapply own_ext|by rewrite <- HL]. Qed.

Lemma w_ret {A} c (a : A) w g L r h cs ix lg (Q : A -> World -> Gh -> Prop) : Wst c w g L r h cs ix lg ->
  (forall w1 g1, Inv w1 g1 -> Wst c w1 g1 L r h cs ix lg -> Q a w1 g1) -> safe c (mret a) w g Q.
Proof. intros Hst H. apply safe_ret. intros w1 g1 HI HR. apply H; [done|by eapply wst_rely]. Qed.
Lemma w_ask {B} c q (f : Z -> Prog B) w g L r h cs ix lg Q : Wst c w g L r h cs ix lg ->
  (forall w1 g1 z, Inv w1 g1 -> Wst c w1 g1 L r h cs ix lg -> safe c (f z) w1 g1 Q) -> safe c (ask q ≫= f) w g Q.
Proof. intros Hst H. apply safe_ask. intros w1 g1 z HI HR. apply H; [done|by eapply wst_rely]. Qed.

(** An access to the log or the index that keeps the committed frames. *)
Definition same_frames (n : Z) (ix : list Z) (lg : gmap Z block) (ix' : list Z) (lg' : gmap Z block) : Prop :=
  n <= Z.of_nat (length ix') /\ forall i, 1 <= i <= n -> ix' !! Z.to_nat (i - 1) = ix !! Z.to_nat (i - 1) /\ lg' !! frame_pos sz i = lg !! frame_pos sz i.

Lemma w_log_op {A B} c o (k : Ans -> A) (f : A -> Prog B) w g L r h cs ix lg Q : Wst c w g L r h cs ix lg -> o <> ORecover ->
  (forall w1 g1 ch junk, Inv w1 g1 -> Wst c w1 g1 L r h cs ix lg -> let '(a, w') := exec_op sz c w1 o ch junk in
    exists ix' lg', w' = set_log w1 ix' lg' /\ same_frames (mxFrame h) ix lg ix' lg' /\
      (Inv w' g1 -> Wst c w' g1 L r h cs ix' lg' -> safe c (f (k a)) w' g1 Q)) ->
  safe c (Do o (fun a => Ret (k a)) ≫= f) w g Q.
Proof.
  intros Hst Ho H. apply safe_do; [done|]. intros w1 g1 ch junk HI HR. pose proof (wst_rely _ _ _ _ _ _ _ _ _ _ _ HR Hst) as Hst1. specialize (H w1 g1 ch junk HI Hst1).
  destruct (exec_op sz c w1 o ch junk) as [a w']. intros _. destruct H as (ix' & lg' & -> & [Hlen Hsame] & Hk). destruct Hst1 as [H1 H2 H3 H4 H5 H6]. subst h.
  destruct (log_step sz c w1 g1 ix' lg' HI) as [HI' HR']; [by rewrite (o_locks _ _ _ _ _ _ H1)|done|by rewrite H5, H6|]. exists g1. split; [done|]. apply Hk; [done|].
  constructor; try done. destruct H1. by constructor.
Qed.

Lemma set_log_same w : set_log w (w_index w) (w_log w) = w.
Proof. by destruct w. Qed.
Lemma same_refl n ix lg : n <= Z.of_nat (length ix) -> same_frames n ix lg ix lg.
Proof. done. Qed.

(** The number of frames in the log does not exceed the index. *)
Lemma wst_len c w g L r h cs ix lg : Inv w g -> Wst c w g L r h cs ix lg -> 0 <= mxFrame h <= Z.of_nat (length ix).
Proof.
  intros HI [_ _ <- _ <- _]. pose proof (y_base _ _ _ _ _ (v_hist _ _ _ HI)). apply (y_mx _ _ _ _ _ (v_hist _ _ _ HI) (pred (length (w_commits w))) _ (latest w)); [lia|].
  apply (last_entry sz w g HI).
Qed.

Lemma w_append {B} c i pg (f : Z -> Prog B) w g L r h cs ix lg Q : Wst c w g L r h cs ix lg -> mxFrame h < i -> i <= Z.of_nat (length ix) + 1 ->
  (forall w1 g1 rc, Inv w1 g1 -> Wst c w1 g1 L r h cs ix lg -> rc <> SQLITE_OK -> safe c (f rc) w1 g1 Q) ->
  (forall w1 g1, Inv w1 g1 -> Wst c w1 g1 L r h cs (take (Z.to_nat (i - 1)) ix ++ [pg]) lg -> safe c (f SQLITE_OK) w1 g1 Q) ->
  safe c (do_z (OIndexAppend i pg) ≫= f) w g Q.
Proof.
  intros Hst Hi Hl Hno Hyes. eapply w_log_op; [exact Hst|done|]. intros w1 g1 ch junk HI1 Hst1. cbn [exec_op]. pose proof (wst_len _ _ _ _ _ _ _ _ _ HI1 Hst1) as Hlen.
  destruct (Z.eqb_spec ch 0) as [->|Hch].
  - rewrite (ws_ix _ _ _ _ _ _ _ _ _ Hst1), (ws_lg _ _ _ _ _ _ _ _ _ Hst1). eexists _, _. split; [done|]. split; [|by apply Hyes]. split; [rewrite length_app, length_take; cbn; lia|].
    intros t Ht. split; [|done]. rewrite lookup_app_l by (rewrite length_take; lia). by rewrite lookup_take_lt by lia.
  - exists ix, lg. rewrite <- (ws_ix _ _ _ _ _ _ _ _ _ Hst1), <- (ws_lg _ _ _ _ _ _ _ _ _ Hst1), set_log_same. split; [done|]. split; [apply same_refl; rewrite (ws_ix _ _ _ _ _ _ _ _ _ Hst1); lia|].
    intros HI Hw. apply Hno; [done|by destruct Hst1; simplify_eq|done].
Qed.
Lemma w_cleanup {B} c m (f : unit -> Prog B) w g L r h cs ix lg Q : Wst c w g L r h cs ix lg -> m = mxFrame h ->
  (forall w1 g1, Inv w1 g1 -> Wst c w1 g1 L r h cs (take (Z.to_nat m) ix) lg -> safe c (f tt) w1 g1 Q) ->
  safe c (do_ (OIndexCleanup m) ≫= f) w g Q.
Proof.
  intros Hst -> H. eapply (w_log_op c _ (fun _ => tt)); [exact Hst|done|]. intros w1 g1 ch junk HI1 Hst1. cbn [exec_op]. pose proof (wst_len _ _ _ _ _ _ _ _ _ HI1 Hst1) as Hlen.
  rewrite (ws_ix _ _ _ _ _ _ _ _ _ Hst1), (ws_lg _ _ _ _ _ _ _ _ _ Hst1). eexists _, _. split; [done|]. split; [|by apply H]. split; [rewrite length_take; lia|].
  intros t Ht. split; [|done]. by rewrite lookup_take_lt by lia.
Qed.
(** Writing a block of the log that is not in a committed frame. *)
Lemma w_write {B} c d off (f : Z -> Prog B) w g L r h cs ix lg Q : Wst c w g L r h cs ix lg -> (forall i, 1 <= i <= mxFrame h -> off <> frame_pos sz i) ->
  (forall w1 g1 rc lg', Inv w1 g1 -> Wst c w1 g1 L r h cs ix lg' -> rc <> SQLITE_OK -> safe c (f rc) w1 g1 Q) ->
  (forall w1 g1, Inv w1 g1 -> Wst c w1 g1 L r h cs ix (<[off := d]> lg) -> safe c (f SQLITE_OK) w1 g1 Q) ->
  safe c (do_z (OWrite LogFile d off) ≫= f) w g Q.
Proof.
  intros Hst Hoff Hno Hyes. eapply w_log_op; [exact Hst|done|]. intros w1 g1 ch junk HI1 Hst1. cbn [exec_op]. pose proof (wst_len _ _ _ _ _ _ _ _ _ HI1 Hst1) as Hlen.
  rewrite (ws_ix _ _ _ _ _ _ _ _ _ Hst1), (ws_lg _ _ _ _ _ _ _ _ _ Hst1). destruct (Z.eqb_spec ch 0) as [->|Hch].
  - eexists _, _. split; [done|]. split; [|by apply Hyes]. split; [lia|]. intros t Ht. split; [done|]. by rewrite lookup_insert_ne by by apply Hoff.
  - eexists _, _. split; [done|]. split; [|intros HI' Hst'; cbn [a_z ans_z]; by eapply Hno]. split; [lia|]. intros t Ht. split; [done|]. by rewrite lookup_partial_alter_ne by by apply Hoff.
Qed.

Lemma w_truncate {B} c size (f : unit -> Prog B) w g L r h cs ix lg Q : Wst c w g L r h cs ix lg -> (forall i, 1 <= i <= mxFrame h -> frame_pos sz i < size) ->
  (forall w1 g1 lg', Inv w1 g1 -> Wst c w1 g1 L r h cs ix lg' -> (forall off, off < size -> lg' !! off = lg !! off) -> safe c (f tt) w1 g1 Q) ->
  safe c (do_ (OTruncate LogFile size) ≫= f) w g Q.
Proof.
  intros Hst Hsize H. eapply (w_log_op c _ (fun _ => tt)); [exact Hst|done|]. intros w1 g1 ch junk HI1 Hst1. cbn [exec_op]. pose proof (wst_len _ _ _ _ _ _ _ _ _ HI1 Hst1) as Hlen.
  rewrite (ws_ix _ _ _ _ _ _ _ _ _ Hst1), (ws_lg _ _ _ _ _ _ _ _ _ Hst1). eexists _, _. split; [done|].
  assert (forall off, off < size -> (if (ch =? 0) || bool_decide (junk <> None) then filter (fun kv : Z * block => kv.1 < size) lg else lg) !! off = lg !! off) as Hlow.
  { intros off Ho. destruct (_ || _); [|done]. rewrite map_lookup_filter. destruct (lg !! off); [|done]. cbn. by rewrite option_guard_True. }
  split; [split; [lia|]; intros t Ht; split; [done|]; apply Hlow, Hsize; lia|]. intros HI' Hst'. by eapply H.
Qed.

(** ** Rolling back *)

Lemma undo_safe c x w g : idle_ok c x w g -> safe c (program sz x KUndo) w g (done_ok c).
Proof.
  intros Hi. cbn [program]. unfold undo. destruct (Z.eqb_spec (c_writeLock x) 0) as [Hw|Hw]; cbn [negb].
  { apply safe_bind. apply safe_idle with (x := x); [done|]. intros w1 g1 HI1 Hi1. by apply (safe_idle sz c _ x). }
  destruct Hi as (r & Ho & Hs). pose proof (wst_start _ _ _ _ _ Ho (lk_writer x Hw)) as Hst.
  apply safe_bind. apply safe_load_hdr. intros w1 g1 HI1 HR1. cbn [Z.eqb]. pose proof (wst_rely _ _ _ _ _ _ _ _ _ _ _ HR1 Hst) as Hst1. rewrite (ws_hdr _ _ _ _ _ _ _ _ _ Hst1).
  assert (forall w' g' ix, Inv w' g' -> Wst c w' g' (lk x) r (w_hdr0 w) (w_commits w) ix (w_log w) -> idle_ok c (set_c_hdr x (w_hdr0 w)) w' g') as Hend.
  { intros w' g' ix HI' Hst'. exists r. split; [apply (ws_own _ _ _ _ _ _ _ _ _ Hst')|]. destruct Hs as [?|(Hk & j & h & s & -> & Hj & _ & H1)]; [by left|]. right. split; [done|].
    exists j, h, s. split; [done|]. rewrite (ws_cs _ _ _ _ _ _ _ _ _ Hst'). split; [done|]. cbn [set_c_hdr c_writeLock c_hdr]. split; [done|]. intros _. split; [by apply H1|].
    pose proof (wst_len _ _ _ _ _ _ _ _ _ HI' Hst'). unfold writer_ok, mx. rewrite (ws_hdr _ _ _ _ _ _ _ _ _ Hst'), (ws_ix _ _ _ _ _ _ _ _ _ Hst'). cbn [set_c_hdr c_hdr].
    split; [lia|]. split; [done|]. split; [lia|done]. }
  assert (forall w' g' ix, Inv w' g' -> Wst c w' g' (lk x) r (w_hdr0 w) (w_commits w) ix (w_log w) ->
    safe c (mret (set_c_hdr x (w_hdr0 w))) w' g' (fun x w g => safe c (mret (SQLITE_OK, x)) w g (done_ok c))) as Hret.
  { intros w' g' ix HI' Hst'. apply safe_idle with (x := set_c_hdr x (w_hdr0 w)); [by eapply Hend|]. intros w2 g2 HI2 Hi2. by apply (safe_idle sz c _ (set_c_hdr x (w_hdr0 w))). }
  destruct (negb (_ =? _)); [|by eapply Hret]. eapply w_cleanup; [exact Hst1|done|]. intros w2 g2 HI2 Hst2. by eapply Hret.
Qed.

(** ** Restarting the log *)

Lemma clear_marks_safe c L0 P L r q n : (forall i, 1 <= i < WAL_NREADER -> L (WAL_READ_LOCK i) = Some true) ->
  forall i w g, 1 <= i -> i + Z.of_nat n <= WAL_NREADER -> St c L0 P w g L r q -> safe c (clear_marks n i) w g (fun _ w g => St c L0 P w g L r q).
Proof.
  intros HL. induction n as [|n IH]; intros i w g Hi Hn Hst; cbn [clear_marks]; [by apply (s_ret sz c _ L0 P w g L r q _ Hst)|].
  eapply (s_mark sz c i); [exact Hst|lia|apply HL; lia|]. intros w1 g1 HI1 Hst1. apply IH; [lia|lia|done].
Qed.

(** A writer: its slot and its snapshot, the last one. *)
Definition writing (c : Z) (x : Conn) (w : World) (g : Gh) : Prop :=
  c_writeLock x <> 0 /\ 0 <= c_readLock x < WAL_NREADER /\ Own c w g (lk x) (Some (c_readLock x, pred (length (w_commits w)))) None /\ writer_ok x w.
Lemma writing_idle c x w g : Inv w g -> writing c x w g -> idle_ok c x w g.
Proof.
  intros HI (Hw & Hr & Ho & Hok). exists (Some (c_readLock x, pred (length (w_commits w)))). split; [done|]. right. split; [done|]. exists (pred (length (w_commits w))), (w_hdr0 w), (latest w).
  split; [done|]. split; [by apply (last_entry sz w g)|]. split; [done|]. intros _. pose proof (y_base _ _ _ _ _ (v_hist _ _ _ HI)). split; [lia|done].
Qed.
Lemma idle_writing c x w g : idle_ok c x w g -> c_writeLock x <> 0 -> 0 <= c_readLock x -> writing c x w g.
Proof.
  intros (r & Ho & [[? _]|(Hk & j & h & s & -> & Hj & _ & H1)]) Hw Hr; [lia|]. destruct (H1 Hw) as [E Hok]. split; [done|]. split; [done|]. rewrite <- E. by split.
Qed.

(** The outcome of [walRestartLog] when the database [l0] was committed last and the writer works on [s0]. *)
Definition restarted (c : Z) (l0 s0 : pages) (rc : Z) (x' : Conn) (w : World) (g : Gh) : Prop :=
  (rc = SQLITE_OK -> writing c x' w g /\ c_readLock x' <> 0 /\ latest w = l0 /\ in_progress sz w (c_hdr x') = s0) /\ (rc <> SQLITE_OK -> idle_ok c x' w g).

(** A writer that has added nothing to the log. *)
Lemma in_progress_clean w h : mxFrame h = mx w -> in_progress sz w h = latest w.
Proof. intros E. unfold in_progress. rewrite E. unfold mx. by rewrite Z.sub_diag. Qed.

(** The last part: the reader's lock on slot 0 is exchanged for one on a slot of the log. *)
Lemma rejoin_safe c x w g j : Inv w g -> Own c w g (lk x) (Some (0, j)) None -> c_readLock x = 0 -> c_writeLock x <> 0 ->
  safe c (walUnlockShared (WAL_READ_LOCK 0);; '(rc, _, x) ← begin_loop 101 (set_c_read x (-1)) true false 0; mret (rc, x)) w g (fun p w' g' => restarted c (latest w) (latest w) p.1 p.2 w' g').
Proof.
  intros HI Ho Hr Hw. eapply s_unlock with (r' := None); [by apply st_start|by right|done|intros _; slots..|].
  intros w1 g1 HI1 Hst1. set (x1 := set_c_read x (-1)).
  assert (forall s, upd (lk x) (WAL_READ_LOCK 0) 1 None s = lk x1 s) as HL by (rewrite <- Hr; by apply lk_leave; lia).
  pose proof (st_ext _ _ _ _ _ _ _ _ _ _ HL Hst1) as Hst2.
  assert (forall s, s <> WAL_WRITE_LOCK -> lk x1 s = None) as Hfree by (intros s Hs; unfold lk; rewrite decide_False by done; rewrite decide_False; [done|cbn; lia]).
  apply safe_bind. eapply safe_mono; [|apply (begin_loop_safe sz 0 c true (lk x) (frozen sz (lk x) w g) (lk x1) 101); [intros ? ? _; lia|intros i Hi; apply Hfree; slots|by apply Hfree|done|exact Hst2]].
  intros [[rc ch] x3] w3 g3 HI3 (h & Hh & Hok & Herr). specialize (Hh eq_refl). subst h. replace (set_c_hdr x1 (c_hdr x1)) with x1 in * by by destruct x.
  destruct (decide (rc = SQLITE_OK)) as [->|Hrc].
  - destruct (Hok eq_refl) as (k & jj & s & Hk & -> & Hst3 & Hj).
    apply (s_ret_and sz c _ (lk x) _ _ w3 g3 _ _ _ _ Hst3 (entered_stable sz 0 (lk x) jj _ _) Hj). intros w4 g4 HI4 Hst4 (Hj4 & Hhdr & _). specialize (Hhdr (lk_writer x Hw)).
    split; [|done]. intros _. cbn [fst snd]. pose proof (last_entry sz w4 g4 HI4) as Hl. rewrite Hhdr in Hl. pose proof (entry_unique sz w4 g4 _ _ _ _ _ HI4 Hj4 Hl) as ->.
    assert (latest w4 = latest w) as Elat.
    { destruct (st_P _ _ _ _ _ _ _ _ _ Hst4) as (_ & HF & _). destruct (HF (lk_writer x Hw)) as (_ & Ec & _). unfold latest. by rewrite Ec. }
    split; [|split; [cbn; lia|]; split; [done|]; rewrite <- Elat; apply in_progress_clean; unfold mx; by rewrite Hhdr]. split; [done|]. split; [cbn; slots|]. split.
    + eapply own_ext; [|apply (st_own _ _ _ _ _ _ _ _ _ Hst4)]. intros t. unfold upd, lk, x1. cbn [set_c_read c_writeLock c_readLock]. rewrite (proj2 (Z.eqb_neq _ _) Hw).
      destruct (decide (WAL_READ_LOCK k <= t < WAL_READ_LOCK k + 1)); [rewrite decide_False by slots; by rewrite decide_True by slots|]. case_decide; [done|]. by rewrite !decide_False by slots.
    + pose proof (y_base _ _ _ _ _ (v_hist _ _ _ HI4)). pose proof (y_mx _ _ _ _ _ (v_hist _ _ _ HI4) (pred (length (w_commits w4))) _ _ ltac:(lia) Hl) as Hmx.
      unfold writer_ok, mx. rewrite Hhdr. cbn [set_c_read c_hdr c_readLock x1] in *. split; [lia|]. split; [done|]. split; [lia|]. lia.
  - destruct (Herr Hrc) as [-> Hst3]. apply (s_ret sz c _ _ _ w3 g3 _ _ _ _ Hst3). intros w4 g4 HI4 Hst4. split; [done|]. intros _. exists None.
    split; [apply (st_own _ _ _ _ _ _ _ _ _ Hst4)|]. left. split; [cbn; lia|done].
Qed.

Lemma writing_rely c x w g w' g' : rely c w g w' g' -> writing c x w g -> writing c x w' g'.
Proof.
  intros HR (Hw & Hr & Ho & Hok). assert (held w c WAL_WRITE_LOCK = Some true) as HL by (rewrite (o_locks _ _ _ _ _ _ Ho); by apply lk_writer).
  destruct (r_write _ _ _ _ _ _ HR HL) as (_ & _ & Ec & _). split; [done|]. split; [done|]. rewrite Ec. split; [by eapply own_rely|by eapply writer_ok_rely].
Qed.

(** The two stores of the header and that of [nBackfill]. *)
Lemma reset_safe {A} c x j L (f : Conn -> Prog A) w g Q : Inv w g -> Own c w g L (Some (0, j)) None -> L WAL_WRITE_LOCK = Some true -> L WAL_CKPT_LOCK = None ->
  (forall i, 1 <= i < WAL_NREADER -> L (WAL_READ_LOCK i) = Some true) -> S j = length (w_commits w) -> 0 < mx w -> mxFrame (c_hdr x) = 0 -> nPage (c_hdr x) = nPage (w_hdr0 w) ->
  (forall w' g', Inv w' g' -> Own c w' g' L (Some (0, j)) None -> latest w' = latest w -> safe c (f (set_c_hdr x (seal (c_hdr x)))) w' g' Q) ->
  safe c (write_hdr x ≫= fun x => do_ (OStoreBackfill 0);; f x) w g Q.
Proof.
  intros HI Ho HW HC HR Hj Hmx H0 Hnp Hf. unfold write_hdr. set (h := seal (c_hdr x)).
  assert (forall w g, Own c w g L (Some (0, j)) None -> held w c WAL_WRITE_LOCK = Some true) as Hheld by (intros w0 g0 Ho0; by rewrite (o_locks _ _ _ _ _ _ Ho0)).
  apply safe_bind. apply (safe_do sz c _ (fun _ => tt)); [done|]. intros w1 g1 ch1 junk1 HI1 HR1. pose proof (own_rely _ _ _ _ _ _ _ _ _ HR1 Ho) as Ho1.
  destruct (r_write _ _ _ _ _ _ HR1 (Hheld _ _ Ho)) as (E1 & _ & Ec1 & _). cbn [exec_op Z.eqb]. intros _. eexists. split; [apply (hdr1_step sz c w1 g1 h HI1), (Hheld _ _ Ho1)|].
  apply (safe_do sz c _ (fun _ => tt)); [done|]. intros w2 g2 ch2 junk2 HI2 HR2. cbn [exec_op Z.eqb]. intros Hgood.
  destruct (r_write _ _ _ _ _ _ HR2 (Hheld _ _ Ho1)) as (E2 & E2' & Ec2 & _). cbn [set_hdr1 w_hdr0 w_hdr1 w_commits] in E2, E2', Ec2.
  assert (forall s, held w2 c s = L s) as HL2 by (intros s; rewrite (r_locks _ _ _ _ _ _ HR2); apply (o_locks _ _ _ _ _ _ Ho1)).
  assert (g_reg g2 !! c = Some (0, j)) as Hreg2 by (rewrite (r_reg _ _ _ _ _ _ HR2); apply (o_reg _ _ _ _ _ _ Ho1)).
  assert (forall k, k_owner k = c -> g_ck g2 <> Some k) as Hck2 by (intros k Hk E; apply (r_scan _ _ _ _ _ _ HR2 k Hk) in E; by apply (o_ck _ _ _ _ _ _ Ho1 k Hk) in E).
  pose proof (restart_applied sz w2 g2 h HI2) as Happ. destruct (restart_step sz c w2 g2 h j HI2) as [HI2' Hr2']; [by rewrite HL2|by rewrite HL2|intros i Hi; rewrite <- (HR i Hi); apply HL2|done|done|done|by rewrite Ec2, Ec1| |done| |done|].
  { unfold mx in *. by rewrite E2, E1. }
  { rewrite E2, E1. done. }
  eexists. split; [split; [exact HI2'|exact Hr2']|]. set (w2' := set_hdr0 w2 h (applied sz w2 h)) in *. set (g2' := {| g_base := length (w_commits w2); g_mid := None; g_reset := true; g_reg := g_reg g2; g_ck := g_ck g2 |}) in *.
  apply safe_ret. intros w3 g3 HI3 HR3. apply (safe_do sz c _ (fun _ => tt)); [done|]. intros w4 g4 ch4 junk4 HI4 HR4. cbn [exec_op]. intros _.
  pose proof (rely_trans _ _ _ _ _ _ _ _ HR3 HR4) as HR34.
  assert (held w2' c WAL_WRITE_LOCK = Some true) as Hw2' by (rewrite <- HW; apply HL2).
  destruct (r_write _ _ _ _ _ _ HR34 Hw2') as (_ & _ & Ec4 & _ & _ & _ & Er). cbn [g2' g_reset] in Er.
  destruct (reset_step sz c w4 g4 HI4) as [HI4' Hr4']; [by rewrite (r_locks _ _ _ _ _ _ HR34)|done|]. eexists. split; [split; [exact HI4'|exact Hr4']|].
  apply Hf; [done| |].
  2: { unfold latest at 1. cbn [set_info w_commits]. rewrite Ec4. unfold w2'. cbn [set_hdr0 w_commits]. rewrite last_snoc. cbn [fmap option_fmap option_map default snd from_option]. rewrite Happ.
    - unfold latest. by rewrite Ec2, Ec1.
    - unfold mx in *. by rewrite E2, E1.
    - done.
    - by rewrite E2, E1. }
  constructor.
  - intros s. cbn. rewrite <- HL2. apply (r_locks _ _ _ _ _ _ HR34).
  - cbn. rewrite (r_reg _ _ _ _ _ _ HR34). done.
  - intros k Hk. cbn. rewrite (r_scan _ _ _ _ _ _ HR34 k Hk). cbn [g2' g_ck]. split; [|done]. intros E. by destruct (Hck2 k Hk).
  - cbn. rewrite (r_mid _ _ _ _ _ _ HR34). done.
  - done.
Qed.

Lemma writing_own c x w g : writing c x w g -> Own c w g (lk x) (Some (c_readLock x, pred (length (w_commits w)))) None.
Proof. by intros (_ & _ & Ho & _). Qed.
(** A writer that reads no log: the log is in the database. *)
Lemma writing_copied c x w g : Inv w g -> writing c x w g -> c_readLock x = 0 -> w_backfill w = mx w.
Proof.
  intros HI (_ & _ & Ho & _) Hr. pose proof (y_base _ _ _ _ _ (v_hist _ _ _ HI)). destruct (v_reg _ _ _ HI c 0 (pred (length (w_commits w)))) as (_ & _ & h & s & Hj & _ & H0).
  { rewrite (o_reg _ _ _ _ _ _ Ho). by rewrite Hr. }
  rewrite (last_entry sz w g HI) in Hj. injection Hj as <- <-. destruct (H0 eq_refl) as [_ H1]. destruct (H1 ltac:(lia)) as [_ ->]. done.
Qed.

Lemma apply_frames_ext w w' l m :
  (forall i, i ∈ l -> w_index w' !! Z.to_nat (i - 1) = w_index w !! Z.to_nat (i - 1) /\ w_log w' !! frame_pos sz i = w_log w !! frame_pos sz i) ->
  foldl (apply_frame sz w') m l = foldl (apply_frame sz w) m l.
Proof.
  revert m. induction l as [|i l IH]; intros m H; [done|]. cbn [foldl]. destruct (H i ltac:(left)) as [A B].
  assert (apply_frame sz w' m i = apply_frame sz w m i) as -> by (unfold apply_frame; by rewrite A, B). apply IH. intros k Hk. apply H. by right.
Qed.
(** What a writer works on depends on the header, the history, the index and the log. *)
Lemma in_progress_ext w w' h : w_hdr0 w' = w_hdr0 w -> w_commits w' = w_commits w -> w_index w' = w_index w -> w_log w' = w_log w -> in_progress sz w' h = in_progress sz w h.
Proof. intros E1 E2 E3 E4. unfold in_progress, latest. rewrite E1, E2. apply apply_frames_ext. intros i _. by rewrite E3, E4. Qed.
(** The present log and the last commit do not change under a writer. *)
Lemma writing_same c x w g w' g' : rely c w g w' g' -> writing c x w g -> latest w' = latest w /\ in_progress sz w' (c_hdr x) = in_progress sz w (c_hdr x).
Proof.
  intros HR (Hw & Hr & Ho & Hok). destruct (r_write _ _ _ _ _ _ HR) as (E & _ & Ec & Ei & El & _); [rewrite (o_locks _ _ _ _ _ _ Ho); by apply lk_writer|].
  split; [unfold latest; by rewrite Ec|by apply in_progress_ext].
Qed.
Lemma latest_st c w g L r q s0 : Own c w g L r q -> L WAL_WRITE_LOCK = Some true -> latest w = s0 -> St c L (fun w _ => latest w = s0) w g L r q.
Proof.
  intros Ho HL Hs. apply (st_mono _ _ _ _ _ _ _ _ _ _ (st_start _ _ _ _ _ _ _ Ho)); [|done]. intros w1 g1 w2 g2 (_ & HF & _) <-. destruct (HF HL) as (_ & Ec & _). unfold latest. by rewrite Ec.
Qed.

Lemma walRestartLog_safe c x w g : writing c x w g -> safe c (walRestartLog x) w g (fun p w' g' => restarted c (latest w) (in_progress sz w (c_hdr x)) p.1 p.2 w' g').
Proof.
  intros Hwr. unfold walRestartLog. destruct (Z.eqb_spec (c_readLock x) 0) as [Hr|Hr].
  2: { apply safe_ret. intros w1 g1 HI1 HR1. split; [|done]. intros _. cbn. split; [by eapply writing_rely|]. by destruct (writing_same _ _ _ _ _ _ HR1 Hwr) as [Ec Em]. }
  assert (in_progress sz w (c_hdr x) = latest w) as -> by (apply in_progress_clean; by apply Hwr).
  apply safe_load_nb. intros w1 g1 HI1 HR1. pose proof (writing_rely _ _ _ _ _ _ HR1 Hwr) as Hwr1. destruct (writing_same _ _ _ _ _ _ HR1 Hwr) as [El1 Em1]. apply safe_bind.
  set (s0 := latest w1) in *. eapply safe_mono with (Q := fun p w g => let '(stop, rc, x') := p in (stop = true -> rc <> SQLITE_OK /\ idle_ok c x' w g) /\
    (stop = false -> (exists j, Own c w g (lk x') (Some (0, j)) None) /\ latest w = s0 /\ c_readLock x' = 0 /\ c_writeLock x' <> 0)).
  { intros [[stop rc] x'] w2 g2 HI2 [Hs Hgo]. destruct stop.
    - destruct (Hs eq_refl) as [Hrc Hi]. apply (safe_idle sz c _ x'); [done|]. intros w3 g3 HI3 Hi3. split; [done|]. done.
    - destruct (Hgo eq_refl) as ([j Ho] & El2 & Hr' & Hw'). rewrite <- El1, <- El2. by apply (rejoin_safe c x' w2 g2 j). }
  assert (forall rc w g, writing c x w g -> latest w = s0 -> safe c (mret (false, rc, x)) w g (fun p w g => let '(stop, rc, x') := p in (stop = true -> rc <> SQLITE_OK /\ idle_ok c x' w g) /\
    (stop = false -> (exists j, Own c w g (lk x') (Some (0, j)) None) /\ latest w = s0 /\ c_readLock x' = 0 /\ c_writeLock x' <> 0))) as Hgo.
  { intros rc w2 g2 Hw2 E2. apply safe_ret. intros w3 g3 HI3 HR3. split; [done|]. intros _. pose proof (writing_own _ _ _ _ (writing_rely _ _ _ _ _ _ HR3 Hw2)) as Ho. rewrite Hr in Ho.
    destruct (writing_same _ _ _ _ _ _ HR3 Hw2) as [El3 _]. split; [by eexists|]. split; [congruence|]. split; [done|]. apply Hw2. }
  destruct (Z.ltb_spec 0 (w_backfill w1)) as [Hnb|Hnb]; [|by apply Hgo].
  apply safe_ask. intros w2 g2 salt HI2 HR2. pose proof (writing_rely _ _ _ _ _ _ HR2 Hwr1) as Hwr2. destruct (writing_same _ _ _ _ _ _ HR2 Hwr1) as [El2 _]. pose proof (writing_own _ _ _ _ Hwr2) as Ho2.
  eapply safe_lock; [exact Ho2| | |].
  - intros s Hs. unfold lk. rewrite decide_False by slots. by rewrite decide_False by slots.
  - intros w3 g3 rc HI3 HR3 Hrc. rewrite (proj2 (Z.eqb_neq _ _) Hrc). pose proof (writing_rely _ _ _ _ _ _ HR3 Hwr2) as Hwr3. destruct (writing_same _ _ _ _ _ _ HR3 Hwr2) as [El3 _]. destruct (rc =? SQLITE_BUSY); cbn [negb]; [apply Hgo; [done|exact (eq_trans El3 El2)]|].
    apply safe_ret. intros w4 g4 HI4 HR4. split; [|done]. intros _. split; [done|]. apply writing_idle; [done|by eapply writing_rely].
  - intros w3 g3 HI3 HR3 _ w3' HI3' Ho3. cbn [Z.eqb]. pose proof (writing_rely _ _ _ _ _ _ HR3 Hwr2) as Hwr3. destruct (writing_same _ _ _ _ _ _ HR3 Hwr2) as [El3 _]. rewrite Hr in Ho3.
    assert (0 < mx w3) as Hmx.
    { pose proof (writing_copied _ _ _ _ HI1 Hwr1 Hr) as E1. pose proof (rely_trans _ _ _ _ _ _ _ _ HR2 HR3) as HR23.
      destruct (r_write _ _ _ _ _ _ HR23) as (E & _); [rewrite (o_locks _ _ _ _ _ _ (writing_own _ _ _ _ Hwr1)); apply lk_writer, Hwr|]. unfold mx in *. rewrite E. lia. }
    pose proof (y_base _ _ _ _ _ (v_hist _ _ _ HI3)) as Hb.
    destruct (r_write _ _ _ _ _ _ HR3) as (_ & _ & Ec & _); [rewrite (o_locks _ _ _ _ _ _ Ho2); apply lk_writer, Hwr|]. rewrite <- Ec in Ho3.
    eapply reset_safe; [exact HI3'|exact Ho3| | | |cbn; lia|exact Hmx|done| |].
    + unfold upd. rewrite decide_False by slots. apply lk_writer, Hwr.
    + unfold upd. rewrite decide_False by slots. apply lk_ckpt.
    + intros i Hi. unfold upd. by rewrite decide_True by slots.
    + destruct Hwr3 as (_ & _ & _ & _ & Hnp & _ & _). exact Hnp.
    + intros w4 g4 HI4 Ho4 El4. eapply (s_mark sz c) with (L0 := upd (lk x) (WAL_READ_LOCK 1) (WAL_NREADER - 1) (Some true)) (P := fun w _ => latest w = s0); [apply latest_st; [exact Ho4|unfold upd; rewrite decide_False by slots; apply lk_writer, Hwr|]; exact (eq_trans El4 (eq_trans El3 El2))|slots|unfold upd; by rewrite decide_True by slots|]. intros w5 g5 HI5 Hst5.
      apply safe_bind. eapply safe_mono; [|eapply (clear_marks_safe c) with (n := 3%nat); [|done|slots|exact Hst5]].
      2: { intros i Hi. unfold upd. by rewrite decide_True by slots. }
      intros [] w6 g6 HI6 Hst6. eapply s_unlock with (r' := Some (0, pred (length (w_commits w3)))); [exact Hst6|left; split; [done|]; intros k j [= <- <-]; slots|done|slots..|].
      intros w7 g7 HI7 Hst7. apply (s_ret sz c _ _ _ w7 g7 _ _ _ _ Hst7). intros w8 g8 HI8 Hst8. split; [done|]. intros _. split; [|split; [apply (st_P _ _ _ _ _ _ _ _ _ Hst8)|split; [done|apply Hwr]]].
      eexists. eapply own_ext; [|apply (st_own _ _ _ _ _ _ _ _ _ Hst8)]. cbn [set_c_hdr set_c_log lk c_writeLock c_readLock]. intros s. rewrite upd_back; [done|]. intros t Ht. unfold lk. rewrite decide_False by slots. by rewrite decide_False by slots.
Qed.

(** ** Writing frames *)

(** What writing frames does not change of a connection. *)
Definition same_conn (x x' : Conn) : Prop :=
  c_writeLock x' = c_writeLock x /\ c_readLock x' = c_readLock x /\ mxFrame (c_hdr x') = mxFrame (c_hdr x) /\ nPage (c_hdr x') = nPage (c_hdr x).
Lemma same_conn_trans x y z : same_conn x y -> same_conn y z -> same_conn x z.
Proof. unfold same_conn. intuition congruence. Qed.
Lemma same_conn_lk x x' : same_conn x x' -> lk x' = lk x.
Proof. intros (E1 & E2 & _). unfold lk. by rewrite E1, E2. Qed.

(** The first [n] entries of the index; those behind [lo] are of pages. *)
Definition idx_ok (lo n : Z) (ix : list Z) : Prop := n <= Z.of_nat (length ix) /\ forall i, lo < i <= n -> exists pg, ix !! Z.to_nat (i - 1) = Some pg /\ 0 < pg.
Lemma idx_le lo n n' ix : n' <= n -> idx_ok lo n ix -> idx_ok lo n' ix.
Proof. intros Hn [H1 H2]. split; [lia|]. intros i Hi. apply H2. lia. Qed.

Lemma frame_pos_lt i n : i <= n -> frame_pos sz i < walFrameOffset (n + 1) sz.
Proof. unfold frame_pos, walFrameOffset, WAL_HDRSIZE, WAL_FRAME_HDRSIZE. nia. Qed.
Lemma frame_offset_step n k : walFrameOffset (n + 1) sz + k * (sz + WAL_FRAME_HDRSIZE) + WAL_FRAME_HDRSIZE = frame_pos sz (n + 1 + k).
Proof. unfold frame_pos, walFrameOffset. lia. Qed.

Section frames.
Context (c : Z) (L : Z -> option bool) (r : option (Z * nat)) (h : WalIndexHdr) (cs : list (WalIndexHdr * pages)).
Local Abbreviation W w g ix lg := (Wst c w g L r h cs ix lg).

Lemma write_log_header_safe x fl w g ix lg : W w g ix lg -> mxFrame h <= 0 ->
  safe c (write_log_header x sz fl) w g (fun p w' g' => same_conn x p.2 /\ exists lg', W w' g' ix lg').
Proof.
  intros Hst H0. unfold write_log_header. apply safe_bind.
  eapply safe_mono with (Q := fun _ w' g' => W w' g' ix lg).
  2: { destruct (_ =? 0); [|by apply (w_ret c _ w g L r h cs ix lg)]. eapply w_ask; [exact Hst|]. intros w1 g1 z1 HI1 Hst1. eapply w_ask; [exact Hst1|]. intros w2 g2 z2 HI2 Hst2.
    by apply (w_ret c _ w2 g2 L r h cs ix lg). }
  intros salt w1 g1 HI1 Hst1. cbv zeta. eapply w_write; [exact Hst1|lia| |].
  - intros w2 g2 rc lg' HI2 Hst2 Hrc. rewrite (proj2 (Z.eqb_neq _ _) Hrc). cbn [negb]. apply (w_ret c _ w2 g2 L r h cs ix lg'); [done|]. intros w3 g3 HI3 Hst3. split; [done|by eexists].
  - intros w2 g2 HI2 Hst2. cbn [Z.eqb negb]. destruct (negb (fl =? 0)).
    + eapply w_ask; [exact Hst2|]. intros w3 g3 z HI3 Hst3. eapply w_ret; [exact Hst3|]. intros w4 g4 HI4 Hst4. split; [done|by eexists].
    + eapply w_ret; [exact Hst2|]. intros w4 g4 HI4 Hst4. split; [done|by eexists].
Qed.

(** The contents of the pages are in the log, one frame after the other. *)
Definition written (pl : list PgHdr) (off : Z) (lg : gmap Z block) : Prop :=
  forall k p, pl !! k = Some p -> lg !! (off + Z.of_nat k * (sz + WAL_FRAME_HDRSIZE) + WAL_FRAME_HDRSIZE) = Some (pData p).

Definition wrote (ix : list Z) (x : Conn) (pl : list PgHdr) (off : Z) (lg : gmap Z block) (p : Z * Conn) (w : World) (g : Gh) : Prop :=
  same_conn x p.2 /\ exists lg', W w g ix lg' /\ (p.1 = SQLITE_OK -> written pl off lg' /\ forall o, o < off -> lg' !! o = lg !! o).

Lemma write_pages_safe isCommit nT ix : forall pl x off w g lg, W w g ix lg -> walFrameOffset (mxFrame h + 1) sz <= off ->
  safe c (write_pages x sz isCommit nT pl off) w g (wrote ix x pl off lg).
Proof.
  induction pl as [|p pl IH]; intros x off w g lg Hst Hoff; cbn [write_pages].
  { eapply w_ret; [exact Hst|]. intros w1 g1 HI1 Hst1. split; [done|]. exists lg. split; [done|]. intros _. split; [|done]. intros k p Hk. done. }
  assert (forall o, off <= o -> forall i, 1 <= i <= mxFrame h -> o <> frame_pos sz i) as Hfar.
  { intros o Ho i Hi. pose proof (frame_pos_lt i (mxFrame h) ltac:(lia)). lia. }
  destruct (walEncodeFrame _ _ _ _) as [aFrame h'] eqn:E. unfold walEncodeFrame in E. injection E as _ <-. cbv zeta. set (x' := set_c_hdr x _).
  assert (forall rc w g lg1, W w g ix lg1 -> rc <> SQLITE_OK -> safe c (mret (rc, x')) w g (wrote ix x (p :: pl) off lg)) as Hfail.
  { intros rc w1 g1 lg1 Hst1 Hrc. eapply w_ret; [exact Hst1|]. intros w2 g2 HI2 Hst2. split; [done|]. exists lg1. by split. }
  eapply w_write; [exact Hst|by apply Hfar| |].
  { intros w1 g1 rc lg1 HI1 Hst1 Hrc. rewrite (proj2 (Z.eqb_neq _ _) Hrc). cbn [negb]. by apply (Hfail rc w1 g1 lg1). }
  intros w1 g1 HI1 Hst1. cbn [Z.eqb negb]. eapply w_write; [exact Hst1|apply Hfar; unfold WAL_FRAME_HDRSIZE; lia| |].
  { intros w2 g2 rc lg2 HI2 Hst2 Hrc. rewrite (proj2 (Z.eqb_neq _ _) Hrc). cbn [negb]. by apply (Hfail rc w2 g2 lg2). }
  intros w2 g2 HI2 Hst2. cbn [Z.eqb negb]. eapply safe_mono; [|apply (IH x' (off + (sz + WAL_FRAME_HDRSIZE)) w2 g2 _ Hst2); unfold WAL_FRAME_HDRSIZE; lia].
  intros [rc x3] w3 g3 HI3 (Hx & lg3 & Hst3 & Hok). split; [exact Hx|]. exists lg3. split; [done|]. intros Hrc. destruct (Hok Hrc) as [Hw Hlow].
  assert (0 < WAL_FRAME_HDRSIZE) by done. split.
  - intros [|k] q Hk; cbn in Hk.
    + injection Hk as ->. rewrite Z.mul_0_l, Z.add_0_r, Hlow by lia. by rewrite lookup_insert_eq.
    + rewrite <- (Hw k q Hk). f_equal. lia.
  - intros o Ho. rewrite Hlow by lia. rewrite !lookup_insert_ne by lia. done.
Qed.

Lemma limit_size_safe x n isCommit w g ix lg : W w g ix lg -> mxFrame h <= n ->
  safe c (limit_size x sz n isCommit) w g (fun x' w' g' => same_conn x x' /\ exists lg', W w' g' ix lg' /\ forall o, o < walFrameOffset (n + 1) sz -> lg' !! o = lg !! o).
Proof.
  intros Hst Hn. unfold limit_size. destruct (_ && _ && _).
  2: { eapply w_ret; [exact Hst|]. intros w1 g1 HI1 Hst1. split; [done|]. by exists lg. }
  cbv zeta. set (size := if _ <? _ then _ else _). assert (walFrameOffset (n + 1) sz <= size) as Hsize by (unfold size; destruct (Z.ltb_spec (c_mxWalSize x) (walFrameOffset (n + 1) sz)); lia).
  eapply w_ask; [exact Hst|]. intros w1 g1 z HI1 Hst1. apply safe_bind. destruct (_ <? z).
  - change (do_ (OTruncate LogFile size)) with (do_ (OTruncate LogFile size) ≫= mret). eapply w_truncate; [exact Hst1| |].
    { intros i Hi. pose proof (frame_pos_lt i n ltac:(lia)). lia. }
    intros w2 g2 lg2 HI2 Hst2 Hlow. eapply w_ret; [exact Hst2|]. intros w3 g3 HI3 Hst3. eapply w_ret; [exact Hst3|]. intros w4 g4 HI4 Hst4. split; [done|]. exists lg2. split; [done|].
    intros o Ho. apply Hlow. lia.
  - eapply w_ret; [exact Hst1|]. intros w3 g3 HI3 Hst3. eapply w_ret; [exact Hst3|]. intros w4 g4 HI4 Hst4. split; [done|]. by exists lg.
Qed.

(** The index after the pages [pl] were appended behind its first [n] entries. *)
Definition indexed (pl : list PgHdr) (n : Z) (ix ix' : list Z) : Prop :=
  (forall k p, pl !! k = Some p -> ix' !! (Z.to_nat n + k)%nat = Some (pgno p)) /\ forall k, (k < Z.to_nat n)%nat -> ix' !! k = ix !! k.

Lemma append_pages_safe lg : forall pl n ix w g, W w g ix lg -> mxFrame h <= n -> 0 <= n -> idx_ok (mxFrame h) n ix -> Forall (dirty_ok sz) pl ->
  safe c (append_pages pl n) w g (fun p w' g' => exists ix', W w' g' ix' lg /\ idx_ok (mxFrame h) n ix' /\
    (p.1 = SQLITE_OK -> p.2 = n + Z.of_nat (length pl) /\ idx_ok (mxFrame h) p.2 ix' /\ indexed pl n ix ix')).
Proof.
  induction pl as [|p pl IH]; intros n ix w g Hst Hn H0 Hix Hd; cbn [append_pages].
  { eapply w_ret; [exact Hst|]. intros w1 g1 HI1 Hst1. exists ix. split; [done|]. split; [done|]. intros _. cbn [fst snd length]. split; [lia|]. split; [done|]. by split. }
  apply Forall_cons in Hd as [[Hp _] Hd]. destruct Hix as [Hlen Hpos]. eapply w_append; [exact Hst|lia|lia| |].
  { intros w1 g1 rc HI1 Hst1 Hrc. rewrite (proj2 (Z.eqb_neq _ _) Hrc). cbn [negb]. eapply w_ret; [exact Hst1|]. intros w2 g2 HI2 Hst2. exists ix. split; [done|]. by split. }
  intros w1 g1 HI1 Hst1. cbn [Z.eqb negb]. replace (n + 1 - 1) with n in Hst1 by lia. set (ix1 := take (Z.to_nat n) ix ++ [pgno p]) in *.
  assert (length (take (Z.to_nat n) ix) = Z.to_nat n) as Hlt by (rewrite length_take; lia).
  assert (forall k, (k < Z.to_nat n)%nat -> ix1 !! k = ix !! k) as Hold.
  { intros k Hk. unfold ix1. rewrite lookup_app_l by lia. by rewrite lookup_take_lt by lia. }
  assert (ix1 !! Z.to_nat n = Some (pgno p)) as Hnew by (unfold ix1; rewrite lookup_app_r by lia; by rewrite Hlt, Nat.sub_diag).
  eapply safe_mono; [|apply (IH (n + 1) ix1 w1 g1 Hst1); [lia|lia| |done]].
  - intros [rc n2] w2 g2 HI2 (ix2 & Hst2 & Hix2 & Hok). exists ix2. split; [done|]. split; [by apply (idx_le _ (n + 1)); [lia|]|]. intros Hrc. cbn [fst snd] in *.
    destruct (Hok Hrc) as (-> & Hi & Hin & Hkeep). split; [cbn; lia|]. split; [done|]. split.
    + intros [|k] q Hk; cbn in Hk.
      * injection Hk as ->. rewrite Nat.add_0_r, Hkeep by lia. done.
      * rewrite <- (Hin k q Hk). f_equal. lia.
    + intros k Hk. rewrite Hkeep by lia. by apply Hold.
  - split; [unfold ix1; rewrite length_app, Hlt; cbn; lia|]. intros i Hi. destruct (decide (i = n + 1)) as [->|].
    + exists (pgno p). replace (Z.to_nat (n + 1 - 1)) with (Z.to_nat n) by lia. split; [done|lia].
    + destruct (Hpos i ltac:(lia)) as (pg & E & ?). pose proof (wst_len _ _ _ _ _ _ _ _ _ HI1 Hst1). exists pg. by rewrite Hold by lia.
Qed.
End frames.

(** ** Committing *)

(** The database after a transaction with the dirty pages [pl] that leaves [nT] pages. *)
Definition dirtied (pl : list PgHdr) (s : pages) : pages := foldl (fun m p => <[pgno p := pData p]> m) s pl.
Definition committed (nT : Z) (pl : list PgHdr) (s : pages) : pages := filter (fun kv => kv.1 <= nT) (dirtied pl s).

Lemma apply_pages w : forall pl n m, 0 <= n ->
  (forall k p, pl !! k = Some p -> w_index w !! (Z.to_nat n + k)%nat = Some (pgno p) /\ w_log w !! frame_pos sz (n + 1 + Z.of_nat k) = Some (pData p)) ->
  foldl (apply_frame sz w) m (seqZ (n + 1) (Z.of_nat (length pl))) = foldl (fun m p => <[pgno p := pData p]> m) m pl.
Proof.
  induction pl as [|p pl IH]; intros n m Hn H; [done|]. cbn [length]. rewrite seqZ_cons by lia. cbn [foldl]. destruct (H 0%nat p eq_refl) as [H1 H2].
  assert (apply_frame sz w m (n + 1) = <[pgno p := pData p]> m) as ->.
  { unfold apply_frame. replace (Z.to_nat (n + 1 - 1)) with (Z.to_nat n + 0)%nat by lia. rewrite H1. replace (n + 1) with (n + 1 + Z.of_nat 0) by lia. rewrite H2.
    apply map_eq. intros i. destruct (decide (pgno p = i)) as [->|]; [by rewrite lookup_partial_alter_eq, lookup_insert_eq|by rewrite lookup_partial_alter_ne, lookup_insert_ne]. }
  replace (Z.succ (n + 1)) with (n + 1 + 1) by lia. replace (Z.pred (Z.of_nat (S (length pl)))) with (Z.of_nat (length pl)) by lia. apply IH; [lia|].
  intros k q Hk. destruct (H (S k) q Hk) as [A B]. split; [rewrite <- A; f_equal; lia|rewrite <- B; do 2 f_equal; lia].
Qed.

(** The two stores of a commit. *)
Lemma publish_safe c x k j h cs ix lg w g : Wst c w g (lk x) (Some (k, j)) h cs ix lg -> k <> 0 -> mxFrame h < mxFrame (c_hdr x) -> idx_ok (mxFrame h) (mxFrame (c_hdr x)) ix ->
  safe c (write_hdr x) w g (fun x' w' g' => x' = set_c_hdr x (seal (c_hdr x)) /\
    exists w0, w_hdr0 w0 = h /\ w_commits w0 = cs /\ w_index w0 = ix /\ w_log w0 = lg /\
      Wst c w' g' (lk x) (Some (k, length cs)) (seal (c_hdr x)) (cs ++ [(seal (c_hdr x), applied sz w0 (seal (c_hdr x)))]) ix lg).
Proof.
  intros Hst Hk Hlt [Hlen Hpos]. unfold write_hdr. set (hc := seal (c_hdr x)). pose proof (ws_lock _ _ _ _ _ _ _ _ _ Hst) as HW.
  apply (safe_do sz c _ (fun _ => tt)); [done|]. intros w1 g1 ch1 junk1 HI1 HR1. pose proof (wst_rely _ _ _ _ _ _ _ _ _ _ _ HR1 Hst) as [Ho1 _ E1 E2 E3 E4].
  cbn [exec_op Z.eqb]. intros _. eexists. split; [apply (hdr1_step sz c w1 g1 hc HI1); by rewrite (o_locks _ _ _ _ _ _ Ho1)|].
  apply (safe_do sz c _ (fun _ => tt)); [done|]. intros w2 g2 ch2 junk2 HI2 HR2. cbn [exec_op Z.eqb]. intros Hgood.
  destruct (r_write _ _ _ _ _ _ HR2) as (F1 & F2 & F3 & F4 & F5 & _ & F6); [cbn; unfold held; cbn; rewrite <- HW; apply (o_locks _ _ _ _ _ _ Ho1)|].
  cbn [set_hdr1 w_hdr0 w_hdr1 w_commits w_index w_log set_mid g_reset] in F1, F2, F3, F4, F5, F6.
  assert (forall s, held w2 c s = lk x s) as HL2 by (intros s; rewrite (r_locks _ _ _ _ _ _ HR2); apply (o_locks _ _ _ _ _ _ Ho1)).
  assert (g_reg g2 !! c = Some (k, j)) as Hreg2 by (rewrite (r_reg _ _ _ _ _ _ HR2); apply (o_reg _ _ _ _ _ _ Ho1)).
  destruct (commit_step sz c w2 g2 hc k j HI2) as [HI3 HR3]; [by rewrite HL2|rewrite F6; by apply (o_reset _ _ _ _ _ _ Ho1)|done|done|done|done| | | |done|].
  { unfold mx. rewrite F1, E1. done. }
  { rewrite F4, E3. done. }
  { unfold mx. rewrite F1, F4, E1, E3. done. }
  eexists. split; [split; [exact HI3|exact HR3]|]. apply safe_ret. intros w4 g4 HI4 HR4. split; [done|]. exists w2. rewrite F1, F3, F4, F5. split_and!; [done..|].
  eapply wst_rely; [exact HR4|]. constructor; [|done|done| | |]; cbn [set_hdr0 w_commits w_index w_log]; [|by rewrite F3, E2|by rewrite F4|by rewrite F5]. constructor.
  - exact HL2.
  - cbn. rewrite lookup_insert_eq. by rewrite F3, E2.
  - intros q Hq. cbn. rewrite (r_scan _ _ _ _ _ _ HR2 q Hq). apply (o_ck _ _ _ _ _ _ Ho1 q Hq).
  - done.
  - intros _. cbn. rewrite F6. by apply (o_reset _ _ _ _ _ _ Ho1).
Qed.

(** A writer whose frames behind the last commit are in the index. *)
Lemma wst_writing c x L k h cs ix lg w g : Wst c w g L (Some (k, pred (length cs))) h cs ix lg -> lk x = L -> c_readLock x = k -> c_writeLock x <> 0 -> 1 <= k < WAL_NREADER ->
  mxFrame h <= mxFrame (c_hdr x) -> idx_ok (mxFrame h) (mxFrame (c_hdr x)) ix -> nPage (c_hdr x) = nPage h -> writing c x w g.
Proof.
  intros [Ho _ <- <- <- _] <- <- Hw Hk Hle [Hlen Hpos] Hnp. split; [done|]. split; [lia|]. split; [done|]. unfold writer_ok, mx. split_and!; try done; lia.
Qed.

(** The outcome of writing frames for a transaction that works on [s0], when [l0] was committed last. *)
Definition framed (c : Z) (l0 s0 : pages) (pl : list PgHdr) (nT : Z) (isCommit : bool) (p : Z * Conn) (w : World) (g : Gh) : Prop :=
  idle_ok c p.2 w g /\ (p.1 = SQLITE_OK -> writing c p.2 w g) /\
  (p.1 = SQLITE_OK -> if isCommit then c_hdr p.2 = w_hdr0 w /\ latest w = committed nT pl s0 else latest w = l0 /\ in_progress sz w (c_hdr p.2) = dirtied pl s0).

(** The frames behind the last commit are those that were there and those of the new pages. *)
Lemma progress_pages w w' pl n h h' : w_hdr0 w' = w_hdr0 w -> w_commits w' = w_commits w -> 0 <= mx w <= n -> mxFrame h = n -> mxFrame h' = n + Z.of_nat (length pl) ->
  (forall i, mx w < i <= n -> w_index w' !! Z.to_nat (i - 1) = w_index w !! Z.to_nat (i - 1) /\ w_log w' !! frame_pos sz i = w_log w !! frame_pos sz i) ->
  (forall k p, pl !! k = Some p -> w_index w' !! (Z.to_nat n + k)%nat = Some (pgno p) /\ w_log w' !! frame_pos sz (n + 1 + Z.of_nat k) = Some (pData p)) ->
  in_progress sz w' h' = dirtied pl (in_progress sz w h).
Proof.
  intros E1 E2 Hn Eh Eh' Hold Hnew. unfold in_progress, latest. rewrite E1, E2, Eh, Eh'. change (mxFrame (w_hdr0 w)) with (mx w).
  replace (n + Z.of_nat (length pl) - mx w) with ((n - mx w) + Z.of_nat (length pl)) by lia. rewrite seqZ_app, foldl_app by lia.
  replace (mx w + 1 + (n - mx w)) with (n + 1) by lia. rewrite (apply_pages w' pl n) by (done || lia). unfold dirtied. f_equal.
  apply apply_frames_ext. intros i Hi. apply elem_of_seqZ in Hi. apply Hold. lia.
Qed.

Lemma frames_safe c x pl nT isCommit fl w g : writing c x w g -> pl <> [] -> Forall (dirty_ok sz) pl ->
  safe c (sqlite3WalFrames x sz pl nT isCommit fl) w g (framed c (latest w) (in_progress sz w (c_hdr x)) pl nT isCommit).
Proof.
  intros Hwr Hpl Hd. unfold sqlite3WalFrames. apply safe_bind. eapply safe_mono; [|by apply walRestartLog_safe]. generalize (latest w) (in_progress sz w (c_hdr x)). clear w g Hwr.
  intros l0 s0 [rc x0] w g HI [Hok Herr]. cbn [fst snd] in *. destruct (Z.eqb_spec rc SQLITE_OK) as [->|Hrc]; cbn [negb].
  2: { apply (safe_idle sz c _ x0); [by apply Herr|]. intros w1 g1 HI1 Hi1. by split. }
  destruct (Hok eq_refl) as (Hwr & Hr0 & Hlat & Hprog). clear Hok Herr. destruct Hwr as (Hw & Hr & Ho & (Hle & Hlen) & Hnp & Hpos & _).
  set (h := w_hdr0 w) in *. set (cs := w_commits w) in *. set (k := c_readLock x0) in *. set (L := lk x0). set (n := mxFrame (c_hdr x0)) in *.
  pose proof (wst_start _ _ _ _ _ Ho (lk_writer x0 Hw)) as Hst. fold h cs L in Hst. pose proof (wst_len _ _ _ _ _ _ _ _ _ HI Hst) as Hmx. change (mx w) with (mxFrame h) in *.
  assert (idx_ok (mxFrame h) n (w_index w)) as Hix by by split. assert (1 <= k < WAL_NREADER) as Hk1 by lia.
  assert (forall x' ix lg w g, same_conn x0 x' -> idx_ok (mxFrame h) n ix -> Wst c w g L (Some (k, pred (length cs))) h cs ix lg -> writing c x' w g) as Hidle.
  { intros x' ix lg w1 g1 Hx Hi Hst1. pose proof (same_conn_lk _ _ Hx) as El. destruct Hx as (X1 & X2 & X3 & X4). eapply wst_writing; [exact Hst1|done|done|by rewrite X1|done|rewrite X3; exact Hle|by rewrite X3|by rewrite X4]. }
  assert (forall rc x' ix lg w g, rc <> SQLITE_OK -> same_conn x0 x' -> idx_ok (mxFrame h) n ix -> Wst c w g L (Some (k, pred (length cs))) h cs ix lg ->
    safe c (mret (rc, x')) w g (framed c l0 s0 pl nT isCommit)) as Hfail.
  { intros rc x' ix lg w1 g1 Hrc Hx Hi Hst1. eapply w_ret; [exact Hst1|]. intros w2 g2 HI2 Hst2. split; [|by split]. apply writing_idle; [done|by eapply Hidle]. }
  apply safe_bind. eapply safe_mono with (Q := fun p w' g' => same_conn x0 p.2 /\ exists lg, Wst c w' g' L (Some (k, pred (length cs))) h cs (w_index w) lg /\ (n <> 0 -> lg = w_log w)).
  2: { destruct (Z.eqb_spec n 0) as [En|En]; [|eapply w_ret; [exact Hst|]; intros w1 g1 HI1 Hst1; split; [done|by eexists]].
    eapply safe_mono; [|eapply write_log_header_safe; [exact Hst|lia]]. intros p w1 g1 _ [Hx [lg Hst1]]. split; [done|]. by exists lg. }
  intros [rc x1] w1 g1 HI1 [Hx1 (lg1 & Hst1 & Hlg1)]. cbn [fst snd] in *. destruct (Z.eqb_spec rc SQLITE_OK) as [->|Hrc]; cbn [negb]; [|by eapply Hfail].
  apply safe_bind. eapply safe_mono; [|eapply write_pages_safe with (off := walFrameOffset (n + 1) sz); [exact Hst1|]].
  2: { unfold walFrameOffset, WAL_FRAME_HDRSIZE. nia. }
  intros [rc x2] w2 g2 HI2 (Hx2 & lg2 & Hst2 & Hw2). cbn [fst snd] in *. pose proof (same_conn_trans _ _ _ Hx1 Hx2) as Hx02. destruct (Z.eqb_spec rc SQLITE_OK) as [->|Hrc]; cbn [negb]; [|by eapply Hfail].
  destruct (Hw2 eq_refl) as [Hwritten Hbelow]. clear Hw2. apply safe_bind. eapply safe_mono with (Q := fun _ w' g' => Wst c w' g' L (Some (k, pred (length cs))) h cs (w_index w) lg2).
  2: { destruct (_ && _); [|by eapply w_ret]. change (ask (QSync LogFile)) with (ask (QSync LogFile) ≫= mret). eapply w_ask; [exact Hst2|]. intros w3 g3 z HI3 Hst3. by eapply w_ret. }
  intros rc w3 g3 HI3 Hst3. apply safe_bind. eapply safe_mono; [|eapply limit_size_safe with (n := n + Z.of_nat (length pl)); [exact Hst3|lia]].
  intros x4 w4 g4 HI4 (Hx4 & lg4 & Hst4 & Hlow). pose proof (same_conn_trans _ _ _ Hx02 Hx4) as Hx04.
  assert (forall q p, pl !! q = Some p -> lg4 !! frame_pos sz (n + 1 + Z.of_nat q) = Some (pData p)) as Hdata.
  { intros q p Hq. pose proof (lookup_lt_Some _ _ _ Hq). rewrite Hlow by (apply frame_pos_lt; lia). rewrite <- frame_offset_step. by apply Hwritten. }
  apply safe_bind. eapply safe_mono with (Q := fun p w' g' => exists ix', Wst c w' g' L (Some (k, pred (length cs))) h cs ix' lg4 /\ idx_ok (mxFrame h) n ix' /\
    (p.1 = SQLITE_OK -> p.2 = n + Z.of_nat (length pl) /\ idx_ok (mxFrame h) p.2 ix' /\ indexed pl n (w_index w) ix')).
  2: { destruct (Z.eqb_spec rc SQLITE_OK) as [->|Hrc]; [eapply append_pages_safe; [exact Hst4|lia|lia|done|done]|].
    eapply w_ret; [exact Hst4|]. intros w5 g5 HI5 Hst5. exists (w_index w). split; [done|]. by split. }
  intros [rc5 n5] w5 g5 HI5 (ix & Hst5 & Hix5 & Hok5). cbn [fst snd] in *. destruct (Z.eqb_spec rc5 SQLITE_OK) as [->|Hrc]; cbn [negb]; [|by eapply Hfail].
  destruct (Hok5 eq_refl) as (-> & Hix6 & Hin & Hkeep). clear Hok5. assert (0 < Z.of_nat (length pl)) as Hpl0 by (destruct pl; [done|cbn; lia]).
  pose proof (same_conn_lk _ _ Hx04) as El. destruct Hx04 as (X1 & X2 & X3 & X4). set (x5 := set_c_hdr x4 _).
  assert (forall w' h', w_hdr0 w' = h -> w_commits w' = cs -> w_index w' = ix -> w_log w' = lg4 -> mxFrame h' = n + Z.of_nat (length pl) -> in_progress sz w' h' = dirtied pl s0) as Hnow.
  { intros w' h' E1 E2 E3 E4 Eh. rewrite <- Hprog. apply (progress_pages w w' pl n (c_hdr x0) h'); try done; [unfold mx; fold h; lia| |intros q p Hq; rewrite E3, E4; split; [by apply Hin|by apply Hdata]].
    intros i Hi. rewrite E3, E4. split; [apply Hkeep; unfold mx in Hi; fold h in Hi; lia|]. unfold mx in Hi. fold h in Hi. rewrite Hlow by (apply frame_pos_lt; lia).
    rewrite Hbelow by (apply frame_pos_lt; lia). by rewrite Hlg1 by lia. }
  destruct isCommit.
  - apply safe_bind. eapply safe_mono; [|eapply (publish_safe c x5); [change (lk x5) with (lk x4); rewrite El; exact Hst5|done|cbn; lia|exact Hix6]].
    intros x6 w6 g6 HI6 (-> & w0 & E1 & E2 & E3 & E4 & Hst6). eapply w_ret; [exact Hst6|]. intros w7 g7 HI7 Hst7.
    assert (writing c (set_c_log (set_c_hdr x5 (seal (c_hdr x5))) (c_nCkpt x4) (c_truncate x4) (n + Z.of_nat (length pl))) w7 g7) as Hwr7.
    { pose proof Hst7 as Hst8. replace (length cs) with (pred (length (cs ++ [(seal (c_hdr x5), applied sz w0 (seal (c_hdr x5)))]))) in Hst8 by (rewrite length_app; cbn; lia).
      eapply wst_writing; [exact Hst8|done|cbn; exact X2|cbn; by rewrite X1|done|cbn; lia|cbn|done]. split; [apply Hix6|lia]. }
    split; [by apply writing_idle|]. split; [done|]. intros _. cbn [fst snd]. split; [symmetry; apply (ws_hdr _ _ _ _ _ _ _ _ _ Hst7)|].
    unfold latest at 1. rewrite (ws_cs _ _ _ _ _ _ _ _ _ Hst7), last_snoc. cbn [fmap option_fmap option_map default snd from_option].
    unfold applied, committed. change (nPage (seal (c_hdr x5))) with nT. unfold id. f_equal. by apply Hnow.
  - eapply w_ret; [exact Hst5|]. intros w6 g6 HI6 Hst6. assert (writing c x5 w6 g6) as Hwr6.
    { eapply wst_writing; [exact Hst6|exact El|exact X2|cbn; by rewrite X1|done|cbn; lia|exact Hix6|cbn; by rewrite X4]. }
    split; [by apply writing_idle|]. split; [done|]. intros _. cbn [fst snd]. destruct Hst6 as [_ _ E1 E2 E3 E4]. split; [rewrite <- Hlat; unfold latest; by rewrite E2|]. by apply Hnow.
Qed.
End writer.
