(* ===== verification/WalCkpt.v ===== *)
(** Checkpoints of WalTrans.v keep the invariant of WalIso.v. *)
From S2P Require Import Prelude WalHash WalIter WalLog WalWrite WalTrans WalSys WalIso WalProof.
Local Open Scope Z_scope.

Section ckpt.
Context (sz : Z) (Hsz : 0 < sz).
Local Abbreviation Inv := (WalIso.Inv sz).
Local Abbreviation rely := (WalIso.rely sz).
Local Abbreviation safe := (WalIso.safe sz).
Local Abbreviation St := (WalProof.St sz).

Lemma keeps_trans c w1 g1 w2 g2 w3 g3 : keeps sz c w1 g1 w2 g2 -> keeps sz c w2 g2 w3 g3 -> keeps sz c w1 g1 w3 g3.
Proof. intros [_ A] [HI B]. split; [done|]. intros d Hd. eapply rely_trans; [by apply A|by apply B]. Qed.

(** No log is being restarted while a connection has the checkpoint lock. *)
Lemma ckpt_no_reset c w g L r q : Inv w g -> Own c w g L r q -> L WAL_CKPT_LOCK = Some true -> g_reset g = false.
Proof.
  intros HI Ho HL. destruct (g_reset g) eqn:E; [|done]. destruct (v_reset _ _ _ HI E) as (_ & _ & d & _ & H1 & H2).
  rewrite <- (o_locks _ _ _ _ _ _ Ho) in HL. destruct (decide (c = d)) as [->|Hne]; [congruence|]. destruct (v_good _ _ _ HI) as [_ Ha]. by destruct (Ha c d Hne HL).
Qed.

(** The owner of the checkpoint lock changes what is recorded of its checkpoint. *)
Lemma ck_keeps c w g L q q' : Inv w g -> Own c w g L None q -> L WAL_CKPT_LOCK = Some true -> (forall k, q' = Some k -> k_owner k = c /\ scan_ok w g k) ->
  keeps sz c w g w (set_ck g q') /\ Own c w (set_ck g q') L None q'.
Proof.
  intros HI Ho HL Hq.
  assert (forall k, g_ck g = Some k -> k_owner k = c) as Hmine.
  { intros k Hk. destruct (v_ck _ _ _ HI k Hk) as (K1 & _). destruct (decide (k_owner k = c)) as [|Hne]; [done|]. rewrite (v_ex _ _ _ HI c (k_owner k)) in K1; [done|done|].
    by rewrite (o_locks _ _ _ _ _ _ Ho). }
  split.
  - pose proof (own_step sz c w g (w_locks w) (set_ck g q') HI) as H. rewrite set_locks_same in H. apply H; try done; clear H.
    + intros d s Hd. by apply (v_ex _ _ _ HI).
    + intros d s Hd E E'. pose proof (v_ex _ _ _ HI d c s Hd E') as Hx. unfold held in *. congruence.
    + intros E. by destruct (o_mid _ _ _ _ _ _ Ho).
    + intros i j. cbn. rewrite (o_reg _ _ _ _ _ _ Ho). done.
    + intros k Hk. left. cbn in Hk. by apply Hq.
    + intros k Hk Hne. by destruct Hne; apply Hmine.
    + apply (v_good _ _ _ HI).
  - destruct Ho as [O1 O2 O3 O4 O5]. by constructor.
Qed.
Lemma frozen_ck L w g q : frozen sz L w g w (set_ck g q).
Proof. unfold frozen. by split_and!. Qed.
Lemma st_ck c L0 P w g L q q' : St c L0 P w g L None q -> Own c w (set_ck g q') L None q' -> St c L0 P w (set_ck g q') L None q'.
Proof. intros [H1 H2 H3 H4 H5] Ho. constructor; try done. eapply H3; [apply frozen_ck|done]. Qed.

(** The end of a checkpoint. *)
Lemma safe_unlock_ckpt {B} c (f : unit -> Prog B) w g L q Q : Own c w g L None q -> L WAL_CKPT_LOCK = Some true ->
  (forall w1 g1, Inv w1 g1 -> Own c w1 g1 (upd L WAL_CKPT_LOCK 1 None) None None -> safe c (f tt) w1 g1 Q) -> safe c (do_ (OShmUnlock WAL_CKPT_LOCK 1) ≫= f) w g Q.
Proof.
  intros Ho HL H. apply (safe_do sz c _ (fun _ => tt)); [done|]. intros w1 g1 ch junk HI HR. pose proof (own_rely _ _ _ _ _ _ _ _ _ HR Ho) as Ho1. cbn [exec_op]. intros Hg.
  destruct (ck_keeps c w1 g1 L q None HI Ho1 HL) as [Hk Ho2]; [done|]. destruct Hk as [HI2 Hk].
  destruct (unlock_keeps sz c w1 (set_ck g1 None) WAL_CKPT_LOCK 1 L None None None HI2 Ho2) as [Hk3 Ho3]; [by left|done|done|].
  eexists. split; [eapply keeps_trans; [split; [exact HI2|exact Hk]|exact Hk3]|]. apply H; [apply Hk3|exact Ho3].
Qed.

Lemma walBusyLock_safe c xb o n L0 P L r q : (forall s, o <= s < o + n -> L s = None) -> forall fuel w g, St c L0 P w g L r q ->
  safe c (walBusyLock fuel xb o n) w g (fun rc w' g' => (rc = SQLITE_OK -> St c L0 P w' g' (upd L o n (Some true)) r q) /\ (rc <> SQLITE_OK -> St c L0 P w' g' L r q)).
Proof.
  intros Hfree. induction fuel as [|fuel IH]; intros w g Hst; cbn [walBusyLock].
  all: eapply s_lock; [exact Hst|done| |].
  1, 3: intros w1 g1 rc HI1 Hst1 Hrc; destruct (xb && _); [|by eapply s_ret; [exact Hst1|]].
  - eapply s_ask; [exact Hst1|]. intros w2 g2 z HI2 Hst2. destruct (z =? 0); by eapply s_ret; [exact Hst2|].
  - eapply s_ask; [exact Hst1|]. intros w2 g2 z HI2 Hst2. destruct (z =? 0); [by eapply s_ret; [exact Hst2|]|by apply IH].
  - intros w1 g1 HI1 Hst1. rewrite andb_false_r. by eapply s_ret; [exact Hst1|].
  - intros w1 g1 HI1 Hst1. rewrite andb_false_r. by eapply s_ret; [exact Hst1|].
Qed.

(** ** The frames that readers need *)

(** What a checkpoint of entry [j] knows. *)
Definition ck_facts (j : nat) (h : WalIndexHdr) (s : pages) (l : list (Z * Z)) (w : World) (g : Gh) : Prop :=
  w_commits w !! j = Some (h, s) /\ (g_base g <= j)%nat /\ mxFrame h <= mx w /\ l = log_pages (w_index w) (mxFrame h).

Lemma log_pages_ext ix ix' n : (forall i, (i < Z.to_nat n)%nat -> ix' !! i = ix !! i) -> log_pages ix' n = log_pages ix n.
Proof.
  intros H. unfold log_pages. assert (take (Z.to_nat n) ix' = take (Z.to_nat n) ix) as ->.
  { apply list_eq. intros i. destruct (decide (i < Z.to_nat n)%nat); [rewrite !lookup_take_lt by done; by apply H|by rewrite !lookup_take_ge by lia]. }
  apply map_ext. intros pg. f_equal. apply last_frame_ext. done.
Qed.
Lemma ck_facts_stable L j h s l : L WAL_CKPT_LOCK = Some true -> stable sz L (ck_facts j h s l).
Proof.
  intros HL w g w' g' (F1 & _ & F3 & _ & F5 & _) (H1 & H2 & H3 & ->). destruct (F3 HL) as (Eb & _ & _). destruct (F5 Eb) as [Hmx Hsame]. split_and!.
  - by eapply prefix_lookup_Some.
  - by rewrite Eb.
  - lia.
  - symmetry. apply log_pages_ext. intros i Hi. destruct (Hsame (Z.of_nat i + 1) ltac:(lia)) as [E _]. by replace (Z.to_nat (Z.of_nat i + 1 - 1)) with i in E by lia.
Qed.

(** The readers in slots below [i] do not need the first [M] frames to be kept out of the database. *)
Definition covers (k : Scan) (M i : Z) : Prop := (k_slot k = i /\ k_safe k = M) \/ (k_slot k = i - 1 /\ M <= k_safe k /\ M <= k_mark k).

Definition scan_at (c : Z) (j : nat) (M i m : Z) : Scan := {| k_owner := c; k_entry := j; k_safe := M; k_slot := i; k_mark := m |}.
Lemma covers_scan w g k c j h s M i m : Inv w g -> g_ck g = Some k -> k_owner k = c -> k_entry k = j -> covers k M i -> 1 <= i -> w_commits w !! j = Some (h, s) -> M <= mxFrame h -> m <= mxFrame h ->
  (forall d j' h' s', g_reg g !! d = Some (i, j') -> w_commits w !! j' = Some (h', s') -> m <= mxFrame h') -> scan_ok w g (scan_at c j M i m).
Proof.
  intros HI Hk <- <- Hc Hi Hj HM Hm Hr. destruct (v_ck _ _ _ HI k Hk) as (K1 & K2 & K3 & K4 & hk & sk & K5 & K6 & K7 & K8). split_and!; try done.
  exists h, s. cbn. split_and!; [done|done|done|]. intros d i' j' h' s' Hd Hj'. destruct (K8 d i' j' h' s' Hd Hj') as [A B]. split.
  - intros Hi'. destruct Hc as [[E1 E2]|(E1 & E2 & E3)]; [rewrite <- E2; apply A; lia|]. destruct (decide (i' = k_slot k)) as [->|]; [specialize (B eq_refl); lia|]. specialize (A ltac:(lia)). lia.
  - intros ->. by apply (Hr d j' h' s').
Qed.

(** An access that looks, at which the record of the checkpoint changes. *)
Lemma s_look {A B} c o (k : Ans -> A) (f : A -> Prog B) L0 P w g L q Q : St c L0 P w g L None q -> o <> ORecover -> (forall w ch junk, (exec_op sz c w o ch junk).2 = w) ->
  L WAL_CKPT_LOCK = Some true ->
  (forall w1 g1 ch junk, Inv w1 g1 -> St c L0 P w1 g1 L None q -> exists q', (forall k, q' = Some k -> k_owner k = c /\ scan_ok w1 g1 k) /\
    (forall g2, Inv w1 g2 -> St c L0 P w1 g2 L None q' -> safe c (f (k (exec_op sz c w1 o ch junk).1)) w1 g2 Q)) ->
  safe c (Do o (fun a => Ret (k a)) ≫= f) w g Q.
Proof.
  intros Hst Ho Hw HL H. apply safe_do; [done|]. intros w1 g1 ch junk HI HR. pose proof (st_rely _ _ _ _ _ _ _ _ _ _ _ HR Hst) as Hst1. specialize (H w1 g1 ch junk HI Hst1). specialize (Hw w1 ch junk).
  destruct (exec_op sz c w1 o ch junk) as [a w']. cbn in Hw, H. subst w'. intros _. destruct H as (q' & Hq & Hs).
  destruct (ck_keeps c w1 g1 L q q' HI (st_own _ _ _ _ _ _ _ _ _ Hst1) HL Hq) as [Hk Ho']. exists (set_ck g1 q'). split; [done|]. apply Hs; [apply Hk|by eapply st_ck].
Qed.

Lemma st_scan c L0 P w g L k : St c L0 P w g L None (Some k) -> k_owner k = c -> g_ck g = Some k.
Proof. intros Hst Hk. by apply (o_ck _ _ _ _ _ _ (st_own _ _ _ _ _ _ _ _ _ Hst)). Qed.

Section scan.
Context (c : Z) (j : nat) (h : WalIndexHdr) (s : pages) (l : list (Z * Z)) (L0 L : Z -> option bool).
Context (HC : L0 WAL_CKPT_LOCK = Some true) (HL : forall i, 0 <= i < WAL_NREADER -> L (WAL_READ_LOCK i) = None).
Local Abbreviation CK w g q := (St c L0 (ck_facts j h s l) w g L None q).

(** The record of the checkpoint is at slot [i] with [M]. *)
Definition scanning (k : Scan) (M i : Z) : Prop := k_owner k = c /\ k_entry k = j /\ covers k M i /\ M <= mxFrame h.

(** The mark of a slot bounds the commits of its readers. *)
Lemma mark_bound w g i d j' h' s' : Inv w g -> i <> 0 -> g_reg g !! d = Some (i, j') -> w_commits w !! j' = Some (h', s') -> rd (w_marks w) i <= mxFrame h'.
Proof. intros HI Hi Hd Hj. destruct (v_reg _ _ _ HI d i j' Hd) as (_ & _ & h1 & s1 & E & A & _). simplify_eq. by destruct (A Hi) as (_ & ? & _). Qed.

Lemma scan_readers_safe fuel n : forall i rc M xb w g k, CK w g (Some k) -> scanning k M i -> 1 <= i -> i + Z.of_nat n = WAL_NREADER ->
  safe c (scan_readers fuel n i rc M xb) w g (fun p w' g' => let '(stop, _, M', _) := p in exists k', CK w' g' (Some k') /\ k_owner k' = c /\
    (stop = false -> scanning k' M' WAL_NREADER)).
Proof.
  induction n as [|n IH]; intros i rc M xb w g k Hst (Ko & Ke & Kc & KM) Hi Hn; cbn [scan_readers].
  { eapply s_ret; [exact Hst|]. intros w1 g1 HI1 Hst1. exists k. split; [done|]. split; [done|]. intros _. replace (WAL_NREADER) with i by lia. done. }
  pose proof (st_c _ _ _ _ _ _ _ _ _ Hst HC) as HCL.
  eapply (s_look c (OLoadMark i) a_z); [exact Hst|done|done|done|]. intros w1 g1 ch junk HI1 Hst1. cbn [exec_op fst ans_z a_z]. set (y := rd (w_marks w1) i).
  set (k1 := scan_at c j M i (Z.min y M)). destruct (st_P _ _ _ _ _ _ _ _ _ Hst1) as (Hj & Hb & Hmx & _).
  exists (Some k1). split.
  { intros k' [= <-]. split; [done|]. eapply covers_scan; [done|by apply (st_scan _ _ _ _ _ _ _ Hst1)|done|done|exact Kc|done|exact Hj|done|lia|].
    intros d j' h' s' Hd Hj'. pose proof (mark_bound w1 g1 i d j' h' s' HI1 ltac:(lia) Hd Hj'). unfold y. lia. }
  intros g2 HI2 Hst2. destruct (Z.ltb_spec y M) as [HyM|HyM].
  2: { eapply IH; [exact Hst2| |lia|lia]. unfold scanning. split_and!; try done. right. cbn. split; [lia|]. lia. }
  pose proof (one_slot L _ (HL i ltac:(slots))) as Hone. apply safe_bind. eapply safe_mono; [|by apply (walBusyLock_safe c xb _ 1 _ _ _ _ _ Hone fuel _ _ Hst2)].
  intros rc3 w3 g3 HI3 [Hok Hno]. destruct (Z.eqb_spec rc3 SQLITE_OK) as [->|Hrc].
  - specialize (Hok eq_refl). set (L' := upd L (WAL_READ_LOCK i) 1 (Some true)) in *. assert (L' (WAL_READ_LOCK i) = Some true) as Hheld by (unfold L', upd; by rewrite decide_True by lia).
    apply (safe_do sz c _ (fun _ => tt)); [done|]. intros w4 g4 ch4 junk4 HI4 HR4. pose proof (st_rely _ _ _ _ _ _ _ _ _ _ _ HR4 Hok) as Hst4. cbn [exec_op]. intros _.
    set (v := if i =? 1 then M else READMARK_NOT_USED). set (k2 := scan_at c j M (i + 1) 0). pose proof (st_own _ _ _ _ _ _ _ _ _ Hst4) as Ho4. destruct (st_P _ _ _ _ _ _ _ _ _ Hst4) as (Hj4 & Hb4 & Hmx4 & _).
    pose proof (y_mx _ _ _ _ _ (v_hist _ _ _ HI4)) as Hpos. specialize (Hpos j h s Hb4 Hj4).
    destruct (ck_keeps c w4 g4 L' (Some k1) (Some k2) HI4 Ho4) as [[HI5 Hk5] Ho5].
    { apply (st_c _ _ _ _ _ _ _ _ _ Hst4 HC). }
    { intros k' [= <-]. split; [done|]. destruct (v_ck _ _ _ HI4 k1 (st_scan _ _ _ _ _ _ _ Hst4 eq_refl)) as (K1 & K2 & K3 & K4 & hk & sk & K5 & K6 & K7 & K8). cbn [k1 scan_at k_owner k_entry k_safe k_slot k_mark] in *.
      unfold scan_ok. cbn [k2 scan_at k_owner k_entry k_safe k_slot k_mark]. split_and!; [done|done|done|lia|]. exists hk, sk. split_and!; [done|done|simplify_eq; lia|]. intros d i' j' h' s' Hd Hj'.
      destruct (v_reg _ _ _ HI4 d i' j' Hd) as (R1 & R2 & hr & sr & R3 & R4 & _). split.
      - intros Hi'. destruct (decide (i' = i)) as [->|]; [|apply (K8 d i' j' h' s' Hd Hj'); lia]. exfalso. destruct (decide (d = c)) as [->|Hne].
        + rewrite (o_reg _ _ _ _ _ _ Ho4) in Hd. done.
        + rewrite (v_ex _ _ _ HI4 c d) in R2; [done|done|]. by rewrite (o_locks _ _ _ _ _ _ Ho4).
      - intros ->. rewrite R3 in Hj'. injection Hj' as -> ->. destruct (R4 ltac:(lia)) as (Rb & _). apply (y_mx _ _ _ _ _ (v_hist _ _ _ HI4) j' h' s' Rb R3). }
    destruct (mark_step sz c w4 (set_ck g4 (Some k2)) i v HI5) as [HI6 Hk6]; [slots|by rewrite (o_locks _ _ _ _ _ _ Ho5)|].
    eexists. split; [eapply keeps_trans; [split; [exact HI5|exact Hk5]|split; [exact HI6|exact Hk6]]|].
    assert (St c L0 (ck_facts j h s l) (set_info w4 (w_backfill w4) (wr (w_marks w4) i v)) (set_ck g4 (Some k2)) L' None (Some k2)) as Hst6.
    { destruct Hst4 as [_ A2 A3 A4 A5]. constructor; try done. destruct Ho5 as [B1 B2 B3 B4 B5]. by constructor. }
    eapply (s_unlock sz c _ 1 _ _ _ _ _ _ _ _ None _ Hst6); [by left|intros _; slots..|]. intros w7 g7 HI7 Hst7. eapply IH; [exact (st_ext _ _ _ _ _ _ _ _ _ _ (upd_back L _ _ _ Hone) Hst7)| |lia|lia].
    unfold scanning. split_and!; try done. by left.
  - specialize (Hno Hrc). destruct (rc3 =? SQLITE_BUSY).
    + eapply IH; [exact Hno| |lia|lia]. unfold scanning. split_and!; try done; [|lia]. right. cbn. split; [lia|]. lia.
    + eapply s_ret; [exact Hno|]. intros w4 g4 HI4 Hst4. exists k1. by split_and!.
Qed.
End scan.

(** ** Copying frames to the database *)

Section copy.
Context (c : Z) (j : nat) (h : WalIndexHdr) (s : pages) (l : list (Z * Z)) (L0 L : Z -> option bool) (M nb : Z) (k : Scan).
Context (HC : L0 WAL_CKPT_LOCK = Some true) (HL : L (WAL_READ_LOCK 0) = Some true) (HM : M <= mxFrame h) (Hk : k = scan_at c j M WAL_NREADER 0).

(** The frames of [done] that the checkpoint copies are in the database. *)
Definition copying (done : list (Z * Z)) (w : World) (g : Gh) : Prop :=
  ck_facts j h s l w g /\ w_backfill w = nb /\ 0 <= nb /\
  forall pg f, (pg, f) ∈ done -> nb < f <= M -> pg <= nPage h -> w_db w !! page_pos sz pg = w_log w !! frame_pos sz f.
Local Abbreviation CP done w g := (St c L0 (copying done) w g L None (Some k)).

Lemma copying_stable done : stable sz L0 (copying done).
Proof.
  intros w g w' g' HF (H1 & H2 & H3 & H4). pose proof (ck_facts_stable L0 j h s l HC w g w' g' HF H1) as H1'. destruct HF as (_ & _ & F3 & _ & F5 & _).
  destruct (F3 HC) as (Eb & En & Ed). destruct (F5 Eb) as [_ Hsame]. split_and!; [done|congruence|done|]. intros pg f Hin Hf Hp. rewrite Ed, (H4 pg f Hin Hf Hp). symmetry. apply Hsame. destruct H1 as (_ & _ & ? & _). lia.
Qed.
Definition logged (done : list (Z * Z)) (f : Z) (d : block) (w : World) (g : Gh) : Prop := copying done w g /\ w_log w !! frame_pos sz f = Some d.
Lemma logged_stable done f d : 1 <= f <= mxFrame h -> stable sz L0 (logged done f d).
Proof.
  intros Hf w g w' g' HF [H1 H2]. split; [by eapply copying_stable|]. destruct H1 as ((_ & _ & Hmx & _) & _). destruct HF as (_ & _ & F3 & _ & F5 & _).
  destruct (F3 HC) as (Eb & _). destruct (F5 Eb) as [_ Hsame]. rewrite <- H2. apply Hsame. lia.
Qed.
Lemma weaken done w g : CP done w g -> St c L0 (ck_facts j h s l) w g L None (Some k).
Proof. intros Hst. apply (st_mono _ _ _ _ _ _ _ _ _ _ Hst); [by apply ck_facts_stable|]. by intros [? _]. Qed.

(** A change of the database that concerns a page which is in a frame behind [nb], up to [M]. *)
Lemma page_keeps w g P L1 pg f db : Inv w g -> St c L1 P w g L None (Some k) -> ck_facts j h s l w g -> w_backfill w = nb -> (pg, f) ∈ l -> nb < f <= M ->
  (forall q, q <> pg -> db !! page_pos sz q = w_db w !! page_pos sz q) -> keeps sz c w g (set_db w db) g.
Proof.
  intros HI Hst (Hj & Hb & Hmx & El) Hnb Hin Hf Hdb. rewrite El in Hin. apply log_pages_elem in Hin as (Hp & -> & Hf0).
  pose proof (st_scan _ _ _ _ _ _ _ Hst ltac:(by subst k)) as Hck. pose proof (y_mx _ _ _ _ _ (v_hist _ _ _ HI) j h s Hb Hj) as Hpos.
  assert (forall m, M <= m -> last_frame (w_index w) (Z.to_nat (mxFrame h)) pg <= last_frame (w_index w) (Z.to_nat m) pg) as Hlf.
  { intros m Hm. destruct (decide (mxFrame h <= m)); [apply last_frame_mono; lia|]. rewrite <- (last_frame_older (w_index w) (Z.to_nat m) (Z.to_nat (mxFrame h)) pg); [lia|lia|lia]. }
  apply (db_step sz c w g k db HI Hck); [by subst k|by subst k|by rewrite (o_locks _ _ _ _ _ _ (st_own _ _ _ _ _ _ _ _ _ Hst))| |].
  - intros j' h' s' q d Hj' E Hle Hd H0 Hold. rewrite Hdb; [done|]. intros ->. subst k. cbn in Hle. specialize (Hlf (mxFrame h') Hle). lia.
  - intros q d Hd Hlast Hold. rewrite Hdb; [done|]. intros ->. specialize (Hlf (mx w) ltac:(lia)). lia.
Qed.
Lemma page_pos_inj p q : page_pos sz p = page_pos sz q -> p = q.
Proof. unfold page_pos. nia. Qed.

Lemma db_st P P' w g db : St c L0 P w g L None (Some k) -> stable sz L0 P' -> P' (set_db w db) g -> St c L0 P' (set_db w db) g L None (Some k).
Proof. intros [[O1 O2 O3 O4 O5] A2 A3 A4 A5] Hs HP. by constructor. Qed.

Lemma backfill_loop_safe : forall l2 done w g, l = done ++ l2 -> CP done w g ->
  safe c (backfill_loop l2 sz nb M (nPage h)) w g (fun rc w' g' => (rc = SQLITE_OK -> CP l w' g') /\ (rc <> SQLITE_OK -> St c L0 (ck_facts j h s l) w' g' L None (Some k))).
Proof.
  induction l2 as [|[pg f] l2 IH]; intros done w g El Hst; cbn [backfill_loop].
  { rewrite app_nil_r in El. subst done. eapply s_ret; [exact Hst|]. done. }
  assert (l = (done ++ [(pg, f)]) ++ l2) as El' by by rewrite <- app_assoc.
  destruct ((f <=? nb) || (M <? f) || (nPage h <? pg)) eqn:Eskip.
  { apply (IH (done ++ [(pg, f)])); [done|]. apply (st_mono _ _ _ _ _ _ _ _ _ _ Hst); [apply copying_stable|]. intros (H1 & H2 & H3 & H4). split_and!; [done..|].
    intros q e Hin. apply elem_of_app in Hin as [Hin|Hin]; [by apply H4|]. apply list_elem_of_singleton in Hin as [= -> ->]. lia. }
  assert (nb < f <= M) as Hf by lia. assert ((pg, f) ∈ l) as Hin by (rewrite El; set_solver). fold (frame_pos sz f).
  assert (forall w g, copying done w g -> 1 <= f <= mxFrame h) as Hf1 by (intros w1 g1 (_ & _ & ? & _); lia).
  unfold os_read. apply (safe_stay sz c _ (fun a => (a_z a, a_data a))); [done|intros; cbn; by repeat case_match|]. intros w1 g1 ch junk HI1 HR1. pose proof (st_rely _ _ _ _ _ _ _ _ _ _ _ HR1 Hst) as Hst1. cbn [exec_op].
  assert (forall rc w g, CP done w g -> rc <> SQLITE_OK -> safe c (mret rc) w g (fun rc w' g' => (rc = SQLITE_OK -> CP l w' g') /\ (rc <> SQLITE_OK -> St c L0 (ck_facts j h s l) w' g' L None (Some k)))) as Hfail.
  { intros rc w2 g2 Hst2 Hrc. eapply s_ret; [exact Hst2|]. intros w3 g3 HI3 Hst3. split; [done|]. intros _. by apply (weaken done). }
  destruct (w_log w1 !! frame_pos sz f) as [d|] eqn:Ed; [|by apply Hfail]. destruct (Z.eqb_spec ch 0) as [->|Hch]; cbn [fst a_z a_data ans_z Z.eqb negb].
  2: { rewrite (proj2 (Z.eqb_neq _ _)) by done. cbn [negb]. by apply Hfail. }
  assert (St c L0 (logged done f d) w1 g1 L None (Some k)) as Hst2.
  { apply (st_mono _ _ _ _ _ _ _ _ _ _ Hst1); [|by split]. apply logged_stable. apply (Hf1 w1 g1), (st_P _ _ _ _ _ _ _ _ _ Hst1). }
  fold (page_pos sz pg). apply safe_do; [done|]. intros w3 g3 ch3 junk3 HI3 HR3. pose proof (st_rely _ _ _ _ _ _ _ _ _ _ _ HR3 Hst2) as Hst3. cbn [exec_op]. intros _.
  destruct (st_P _ _ _ _ _ _ _ _ _ Hst3) as [(P1 & P2 & P3 & P4) P5]. exists g3.
  destruct (Z.eqb_spec ch3 0) as [->|Hch3].
  - assert (keeps sz c w3 g3 (set_db w3 (<[page_pos sz pg := d]> (w_db w3))) g3) as Hkeep.
    { eapply page_keeps; [done|exact Hst3|done|done|exact Hin|done|]. intros q Hq. rewrite lookup_insert_ne; [done|]. intros E. by apply Hq, page_pos_inj. }
    split; [done|]. cbn [a_z ans_z Z.eqb negb]. apply (IH (done ++ [(pg, f)])); [done|]. eapply db_st; [exact Hst3|apply copying_stable|].
    split; [done|]. split; [done|]. split; [done|]. cbn [set_db w_db w_log]. intros q e Hqe He Hq. destruct (decide (page_pos sz pg = page_pos sz q)) as [E|E].
    + rewrite <- E, lookup_insert_eq. apply page_pos_inj in E as <-. assert (e = f) as ->; [|done]. destruct P1 as (_ & _ & _ & El1).
      assert ((pg, e) ∈ l) as Hl by (rewrite El'; set_solver). rewrite El1 in Hl, Hin. apply log_pages_elem in Hl as (_ & -> & _). by apply log_pages_elem in Hin as (_ & -> & _).
    + rewrite lookup_insert_ne by done. apply elem_of_app in Hqe as [Hqe|Hqe]; [by apply P4|]. apply list_elem_of_singleton in Hqe as [= -> ->]. done.
  - assert (keeps sz c w3 g3 (set_db w3 (partial_alter (fun _ => junk3) (page_pos sz pg) (w_db w3))) g3) as Hkeep.
    { eapply page_keeps; [done|exact Hst3|done|done|exact Hin|done|]. intros q Hq. rewrite lookup_partial_alter_ne; [done|]. intros E. by apply Hq, page_pos_inj. }
    split; [done|]. cbn [a_z ans_z]. change (ch3 <> SQLITE_OK) in Hch3. rewrite (proj2 (Z.eqb_neq _ _) Hch3). cbn [negb]. eapply s_ret; [eapply db_st; [exact Hst3|by apply ck_facts_stable|exact P1]|].
    intros w4 g4 HI4 Hst4. split; [done|]. done.
Qed.

Context (HnbM : nb < M).

(** All pages of the last commit whose last frame is among the first [M] are in the database. *)
Lemma copied_all w g : Inv w g -> g_reset g = false -> copying l w g -> forall pg d, latest w !! pg = Some d -> 0 < last_frame (w_index w) (Z.to_nat (mx w)) pg <= M ->
  w_db w !! page_pos sz pg = Some d.
Proof.
  intros HI Hr ((Hj & Hb & Hmx & El) & Hnb & Hnb0 & Hdone) pg d Hd Hf. pose proof (last_entry sz w g HI) as Hl. pose proof (v_hist _ _ _ HI) as Hh. pose proof (lookup_lt_Some _ _ _ Hj) as Hlt.
  assert (last_frame (w_index w) (Z.to_nat (mxFrame h)) pg = last_frame (w_index w) (Z.to_nat (mx w)) pg) as Ef by (apply last_frame_older; lia).
  assert (s !! pg = Some d) as Hs by (apply (y_inh _ _ _ _ _ Hh j (pred (length (w_commits w))) h s (w_hdr0 w) (latest w)); [lia|done|done|done|fold (mx w); lia]).
  pose proof (y_dom _ _ _ _ _ Hh _ _ _ _ _ Hj Hs) as Hdom. destruct (decide (last_frame (w_index w) (Z.to_nat (mx w)) pg <= nb)) as [Hle|Hgt].
  - destruct (v_back _ _ _ HI Hr) as [_ H]. apply H; [done|lia].
  - rewrite (Hdone pg (last_frame (w_index w) (Z.to_nat (mxFrame h)) pg)); [|rewrite El; apply log_pages_elem; lia|lia|lia]. apply (y_data _ _ _ _ _ Hh j h s); [done|done|done|lia].
Qed.

(** Cutting the database behind the last page of the snapshot, when all of its frames are copied. *)
Lemma cut_keeps w g db : Inv w g -> CP l w g -> mxFrame h = M -> (forall pg, 1 <= pg <= nPage h -> db !! page_pos sz pg = w_db w !! page_pos sz pg) ->
  keeps sz c w g (set_db w db) g /\ CP l (set_db w db) g.
Proof.
  intros HI Hst EM Hdb. destruct (st_P _ _ _ _ _ _ _ _ _ Hst) as ((Hj & Hb & Hmx & El) & Hnb & Hnb0 & Hdone). pose proof (v_hist _ _ _ HI) as Hh.
  pose proof (st_scan _ _ _ _ _ _ _ Hst ltac:(by subst k)) as Hck. pose proof (last_entry sz w g HI) as Hl. pose proof (lookup_lt_Some _ _ _ Hj) as Hlt.
  pose proof (y_mx _ _ _ _ _ Hh j h s Hb Hj) as Hpos. split.
  - apply (db_step sz c w g k db HI Hck); [by subst k|by subst k|by rewrite (o_locks _ _ _ _ _ _ (st_own _ _ _ _ _ _ _ _ _ Hst))| |].
    + intros j' h' s' pg d Hj' E Hle Hd H0 Hold. rewrite Hdb; [done|]. subst k. cbn in Hle. pose proof (entry_inj sz w g j j' h s h' s' HI Hb Hj' Hj E ltac:(lia)) as Hjj.
      apply (y_dom _ _ _ _ _ Hh j h s pg d Hj). apply (y_inh _ _ _ _ _ Hh j j' h s h' s'); [lia|done|done|done|lia].
    + intros pg d Hd Hlast Hold. rewrite Hdb; [done|]. apply (y_dom _ _ _ _ _ Hh j h s pg d Hj). apply (y_inh _ _ _ _ _ Hh j (pred (length (w_commits w))) h s (w_hdr0 w) (latest w)); [lia|done|done|done|].
      fold (mx w). lia.
  - eapply db_st; [exact Hst|apply copying_stable|]. split; [done|]. split; [done|]. split; [done|]. cbn [set_db w_db w_log]. intros pg f Hin Hf Hp. rewrite Hdb; [by apply (Hdone pg f)|].
    rewrite El in Hin. apply log_pages_elem in Hin. lia.
Qed.

(** The end: the truncation, and [nBackfill]. *)
Lemma backfill_end fl w g : CP l w g -> safe c (cur ← load_hdr 0;
  rc ← (if M =? mxFrame cur then rc ← do_z (OTruncate DbFile (nPage h * sz)); if (rc =? SQLITE_OK) && negb (fl =? 0) then ask (QSync DbFile) else mret rc else mret SQLITE_OK);
  (if rc =? SQLITE_OK then do_ (OStoreBackfill M) else mret tt);; mret rc) w g (fun _ w' g' => St c L0 (ck_facts j h s l) w' g' L None (Some k)).
Proof.
  intros Hst. apply safe_load_hdr. intros w1 g1 HI1 HR1. pose proof (st_rely _ _ _ _ _ _ _ _ _ _ _ HR1 Hst) as Hst1. cbn [Z.eqb]. apply safe_bind.
  eapply safe_mono with (Q := fun _ w' g' => CP l w' g').
  - intros rc w2 g2 HI2 Hst2. apply safe_bind. eapply safe_mono with (Q := fun _ w' g' => St c L0 (ck_facts j h s l) w' g' L None (Some k)).
    { intros _ w3 g3 HI3 Hst3. by eapply s_ret. }
    destruct (rc =? SQLITE_OK); [|eapply s_ret; [exact Hst2|]; intros; by eapply weaken]. change (do_ (OStoreBackfill M)) with (do_ (OStoreBackfill M) ≫= mret).
    apply (safe_do sz c _ (fun _ => tt)); [done|]. intros w3 g3 ch junk HI3 HR3. pose proof (st_rely _ _ _ _ _ _ _ _ _ _ _ HR3 Hst2) as Hst3. cbn [exec_op]. intros _. exists g3.
    destruct (st_P _ _ _ _ _ _ _ _ _ Hst3) as (P1 & P2 & P3 & P4). pose proof (st_own _ _ _ _ _ _ _ _ _ Hst3) as Ho3.
    pose proof (ckpt_no_reset _ _ _ _ _ _ HI3 Ho3 (st_c _ _ _ _ _ _ _ _ _ Hst3 HC)) as Hr3.
    replace M with (k_safe k) by by subst k. split.
    + apply (backfill_step sz c w3 g3 k HI3); [apply (st_scan _ _ _ _ _ _ _ Hst3); by subst k|by subst k|by rewrite (o_locks _ _ _ _ _ _ Ho3)|subst k; cbn; lia|].
      replace (k_safe k) with M by by subst k. by apply (copied_all w3 g3).
    + assert (St c L0 (ck_facts j h s l) (set_info w3 (k_safe k) (w_marks w3)) g3 L None (Some k)) as Hst4.
      { destruct Hst3 as [[O1 O2 O3 O4 O5] A2 A3 A4 A5]. constructor; try done; [by apply ck_facts_stable]. }
      by eapply s_ret.
  - destruct (Z.eqb_spec M (mxFrame (w_hdr0 w1))) as [E|E]; [|by eapply s_ret].
    assert (mxFrame h = M) as EM by (destruct (st_P _ _ _ _ _ _ _ _ _ Hst1) as ((_ & _ & Hmx & _) & _); unfold mx in *; lia).
    apply safe_do; [done|]. intros w2 g2 ch junk HI2 HR2. pose proof (st_rely _ _ _ _ _ _ _ _ _ _ _ HR2 Hst1) as Hst2. cbn [exec_op]. intros _. exists g2.
    destruct (cut_keeps w2 g2 (if (ch =? 0) || bool_decide (junk <> None) then filter (fun kv : Z * block => kv.1 < nPage h * sz) (w_db w2) else w_db w2) HI2 Hst2 EM) as [Hkeep Hst3].
    { intros pg Hpg. destruct (_ || _); [|done]. rewrite map_lookup_filter. destruct (w_db w2 !! _); [|done]. cbn. rewrite option_guard_True; [done|]. unfold page_pos. nia. }
    split; [done|]. cbn [a_z ans_z]. destruct (_ && _); [|by eapply s_ret]. change (ask (QSync DbFile)) with (ask (QSync DbFile) ≫= mret). eapply s_ask; [exact Hst3|]. intros. by eapply s_ret.
Qed.
End copy.

Lemma ask_safe c q L0 P w g L r k : St c L0 P w g L r k -> safe c (ask q) w g (fun _ w' g' => St c L0 P w' g' L r k).
Proof. intros Hst. change (ask q) with (ask q ≫= mret). eapply s_ask; [exact Hst|]. intros. by eapply s_ret. Qed.
Lemma ret_safe {A} c (a : A) L0 P w g L r k : St c L0 P w g L r k -> safe c (mret a) w g (fun _ w' g' => St c L0 P w' g' L r k).
Proof. intros Hst. by eapply s_ret. Qed.

Definition behind (j : nat) (h : WalIndexHdr) (s : pages) (l : list (Z * Z)) (M : Z) (w : World) (g : Gh) : Prop := ck_facts j h s l w g /\ w_backfill w < M.
Lemma behind_stable L j h s l M : L WAL_CKPT_LOCK = Some true -> stable sz L (behind j h s l M).
Proof. intros HL w g w' g' HF [H1 H2]. split; [by eapply ck_facts_stable|]. destruct HF as (_ & _ & F3 & _). destruct (F3 HL) as (_ & -> & _). done. Qed.

Lemma backfill_safe c j h s l L0 L M fl w g : L0 WAL_CKPT_LOCK = Some true -> L (WAL_READ_LOCK 0) = Some true -> M <= mxFrame h ->
  St c L0 (behind j h s l M) w g L None (Some (scan_at c j M WAL_NREADER 0)) ->
  safe c (backfill h l sz M (nPage h) fl) w g (fun _ w' g' => St c L0 (ck_facts j h s l) w' g' (upd L (WAL_READ_LOCK 0) 1 None) None (Some (scan_at c j M WAL_NREADER 0))).
Proof.
  intros HC HL HM Hst. unfold backfill. set (k := scan_at c j M WAL_NREADER 0) in *. apply safe_load_nb. intros w1 g1 HI1 HR1. pose proof (st_rely _ _ _ _ _ _ _ _ _ _ _ HR1 Hst) as Hst1.
  destruct (st_P _ _ _ _ _ _ _ _ _ Hst1) as [Hf Hnb]. pose proof (ckpt_no_reset _ _ _ _ _ _ HI1 (st_own _ _ _ _ _ _ _ _ _ Hst1) (st_c _ _ _ _ _ _ _ _ _ Hst1 HC)) as Hr1.
  destruct (v_back _ _ _ HI1 Hr1) as [Hnb0 _]. set (nb := w_backfill w1) in *.
  assert (St c L0 (copying j h s l M nb []) w1 g1 L None (Some k)) as Hst2.
  { apply (st_mono _ _ _ _ _ _ _ _ _ _ Hst1); [by apply copying_stable|]. intros _. split_and!; [done|done|lia|]. intros pg f Hin. by apply not_elem_of_nil in Hin. }
  apply safe_bind. eapply safe_mono with (Q := fun _ w' g' => St c L0 (copying j h s l M nb []) w' g' L None (Some k)); [|destruct (negb _); [by apply ask_safe|by apply ret_safe]].
  intros rc3 w3 g3 HI3 Hst3. apply safe_bind. eapply safe_mono with (Q := fun _ w' g' => St c L0 (copying j h s l M nb []) w' g' L None (Some k)); [|destruct (rc3 =? _); [by apply ask_safe|by apply ret_safe]].
  intros rc4 w4 g4 HI4 Hst4. apply safe_bind. eapply safe_mono with (Q := fun rc w' g' => (rc = SQLITE_OK -> St c L0 (copying j h s l M nb l) w' g' L None (Some k)) /\
    (rc <> SQLITE_OK -> St c L0 (ck_facts j h s l) w' g' L None (Some k))).
  2: { destruct (Z.eqb_spec rc4 SQLITE_OK) as [->|Hrc]; [by apply (backfill_loop_safe c j h s l L0 L M nb k HC HL HM eq_refl l [])|].
    eapply s_ret; [exact Hst4|]. intros w5 g5 HI5 Hst5. split; [done|]. intros _. by eapply weaken. }
  intros rc5 w5 g5 HI5 [Hok Hno]. apply safe_bind. eapply safe_mono with (Q := fun _ w' g' => St c L0 (ck_facts j h s l) w' g' L None (Some k)).
  2: { destruct (Z.eqb_spec rc5 SQLITE_OK) as [->|Hrc]; [|by apply ret_safe; apply Hno]. by apply (backfill_end c j h s l L0 L M nb k HC HL HM eq_refl); [lia|apply Hok]. }
  intros rc6 w6 g6 HI6 Hst6. eapply (s_unlock sz c _ 1 _ _ _ _ _ _ _ _ None _ Hst6); [by left|intros _; slots..|]. intros w7 g7 HI7 Hst7. by apply ret_safe.
Qed.

(** Frames that are not in the database have to be copied: [szPage] is the page size. *)
Lemma walCheckpoint_safe c h eMode xb fuel fl L0 L w g : L0 WAL_CKPT_LOCK = Some true -> (forall i, 0 <= i < WAL_NREADER -> L (WAL_READ_LOCK i) = None) ->
  (0 < mxFrame h -> walPagesize h = sz) -> St c L0 (fun w g => published L0 w g h) w g L None None ->
  safe c (walCheckpoint fuel h eMode xb fl) w g (fun _ w' g' => exists q, Own c w' g' L None q).
Proof.
  intros HC HL Hpage Hst. pose proof (st_c _ _ _ _ _ _ _ _ _ Hst HC) as HCL.
  assert (forall A (a : A) P q w g, St c L0 P w g L None q -> safe c (mret a) w g (fun _ w' g' => exists q, Own c w' g' L None q)) as Hret.
  { intros A a P q w1 g1 Hst1. eapply s_ret; [exact Hst1|]. intros w2 g2 HI2 Hst2. exists q. apply (st_own _ _ _ _ _ _ _ _ _ Hst2). }
  unfold walCheckpoint. apply safe_load_nb. intros w1 g1 HI1 HR1. pose proof (st_rely _ _ _ _ _ _ _ _ _ _ _ HR1 Hst) as Hst1.
  destruct (Z.leb_spec (mxFrame h) (w_backfill w1)) as [Hle|Hgt]; [by eapply Hret|].
  assert (walPagesize h = sz) as ->.
  { apply Hpage. pose proof (ckpt_no_reset _ _ _ _ _ _ HI1 (st_own _ _ _ _ _ _ _ _ _ Hst1) HCL) as Hr1. destruct (v_back _ _ _ HI1 Hr1) as [? _]. lia. }
  change (Do (OIterator (mxFrame h)) (fun a => Ret (a_z a, a_list a))) with (Do (OIterator (mxFrame h)) (fun a => Ret ((fun a => (a_z a, a_list a)) a))).
  apply safe_do; [done|]. intros w2 g2 ch junk HI2 HR2. pose proof (st_rely _ _ _ _ _ _ _ _ _ _ _ HR2 Hst1) as Hst2. cbn [exec_op]. destruct (Z.eqb_spec ch 0) as [->|Hch].
  2: { intros _. exists g2. split; [by apply stay_step|]. cbn [a_z a_list ans_z]. change (ch <> SQLITE_OK) in Hch. rewrite (proj2 (Z.eqb_neq _ _) Hch). cbn [negb]. by eapply Hret. }
  intros _. destruct (st_P _ _ _ _ _ _ _ _ _ Hst2) as (j & s & Hj & Hb & _). specialize (Hb HC). set (l := log_pages (w_index w2) (mxFrame h)). pose proof (y_mx _ _ _ _ _ (v_hist _ _ _ HI2) j h s Hb Hj) as Hpos.
  pose proof (st_own _ _ _ _ _ _ _ _ _ Hst2) as Ho2. pose proof (ckpt_no_reset _ _ _ _ _ _ HI2 Ho2 HCL) as Hr2.
  destruct (ck_keeps c w2 g2 L None (Some (scan_at c j (mxFrame h) 1 0)) HI2 Ho2 HCL) as [Hkeep Ho3].
  { intros k [= <-]. split; [done|]. unfold scan_ok. cbn. split_and!; [by rewrite (o_locks _ _ _ _ _ _ Ho2)|done|done|done|]. exists h, s. split_and!; [done|done|lia|]. intros d i j' h' s' Hd Hj'. split; [lia|]. intros ->.
    destruct (v_reg _ _ _ HI2 d 1 j' Hd) as (_ & _ & hr & sr & R3 & R4 & _). destruct (R4 ltac:(done)) as (Rb & _). apply (y_mx _ _ _ _ _ (v_hist _ _ _ HI2) j' h' s' Rb Hj'). }
  eexists. split; [exact Hkeep|]. cbn [a_z a_list Z.eqb negb].
  assert (St c L0 (ck_facts j h s l) w2 (set_ck g2 (Some (scan_at c j (mxFrame h) 1 0))) L None (Some (scan_at c j (mxFrame h) 1 0))) as Hst3.
  { eapply st_ck; [|exact Ho3]. apply (st_mono _ _ _ _ _ _ _ _ _ _ Hst2); [by apply ck_facts_stable|]. intros _. split_and!; [done|done|apply (entry_mx sz w2 g2 j h s HI2 Hb Hj)|done]. }
  apply safe_bind. eapply safe_mono; [|eapply scan_readers_safe; [exact HC|exact HL|exact Hst3| |done|slots]].
  2: { unfold scanning, covers. cbn. split_and!; try done. by left. }
  intros [[[stop rc] M] xb'] w4 g4 HI4 (k4 & Hst4 & Ko & Hsc). destruct stop; [by eapply Hret|]. destruct (Hsc eq_refl) as (_ & Ke & Kc & HM).
  eapply (s_look c OLoadBackfill a_z); [exact Hst4|done|done|done|]. intros w5 g5 ch5 junk5 HI5 Hst5. cbn [exec_op fst ans_z a_z]. set (k5 := scan_at c j M WAL_NREADER 0). exists (Some k5).
  destruct (st_P _ _ _ _ _ _ _ _ _ Hst5) as (Hj5 & Hb5 & Hmx5 & _). split.
  { intros k [= <-]. split; [done|]. eapply covers_scan; [done|by apply (st_scan _ _ _ _ _ _ _ Hst5)|done|done|exact Kc|done|exact Hj5|done| |].
    - apply (y_mx _ _ _ _ _ (v_hist _ _ _ HI5) j h s Hb5 Hj5).
    - intros d j' h' s' Hd. destruct (v_reg _ _ _ HI5 d _ j' Hd) as (R1 & _). lia. }
  intros g6 HI6 Hst6. apply safe_bind. eapply safe_mono with (Q := fun _ w' g' => St c L0 (ck_facts j h s l) w' g' L None (Some k5)).
  2: { destruct (Z.ltb_spec (w_backfill w5) M) as [Hlt|Hge]; [|by apply ret_safe]. pose proof (one_slot L _ (HL 0 ltac:(slots))) as Hone.
    assert (St c L0 (behind j h s l M) w5 g6 L None (Some k5)) as Hst7.
    { apply (st_mono _ _ _ _ _ _ _ _ _ _ Hst6); [by apply behind_stable|]. by split. }
    apply safe_bind. eapply safe_mono; [|exact (walBusyLock_safe c xb' _ 1 _ _ _ _ _ Hone fuel _ _ Hst7)]. intros rc8 w8 g8 HI8 [Hok Hno]. destruct (Z.eqb_spec rc8 SQLITE_OK) as [->|Hrc].
    - eapply safe_mono; [|apply (backfill_safe c j h s l L0 (upd L (WAL_READ_LOCK 0) 1 (Some true)) M fl w8 g8 HC); [unfold upd; by rewrite decide_True by lia|done|by apply Hok]].
      intros u9 w9 g9 HI9 Hst9. exact (st_ext _ _ _ _ _ _ _ _ _ _ (upd_back L _ _ _ Hone) Hst9).
    - specialize (Hno Hrc). apply ret_safe. apply (st_mono _ _ _ _ _ _ _ _ _ _ Hno); [by apply ck_facts_stable|]. by intros [? _]. }
  intros rc7 w7 g7 HI7 Hst7. cbv zeta. destruct (_ && _); [|by eapply Hret]. apply safe_load_nb. intros w8 g8 HI8 HR8. pose proof (st_rely _ _ _ _ _ _ _ _ _ _ _ HR8 Hst7) as Hst8.
  destruct (_ <? _); [by eapply Hret|]. destruct (eMode =? _); [|by eapply Hret].
  assert (forall t, WAL_READ_LOCK 1 <= t < WAL_READ_LOCK 1 + (WAL_NREADER - 1) -> L t = None) as Hall.
  { intros t Ht. replace t with (WAL_READ_LOCK (t - 3)) by slots. apply HL. slots. }
  apply safe_bind. eapply safe_mono; [|exact (walBusyLock_safe c xb' _ _ _ _ _ _ _ Hall fuel _ _ Hst8)]. intros rc9 w9 g9 HI9 [Hok Hno].
  apply safe_bind. eapply safe_mono with (Q := fun _ w' g' => St c L0 (ck_facts j h s l) w' g' L None (Some k5)); [intros u10 w10 g10 HI10 Hst10; by eapply Hret|].
  destruct (Z.eqb_spec rc9 SQLITE_OK) as [->|Hrc]; [|by apply ret_safe, Hno]. unfold walUnlockExclusive.
  change (do_ (OShmUnlock (WAL_READ_LOCK 1) (WAL_NREADER - 1))) with (do_ (OShmUnlock (WAL_READ_LOCK 1) (WAL_NREADER - 1)) ≫= mret).
  eapply (s_unlock sz c _ _ _ _ _ _ _ _ _ _ None _ (Hok eq_refl)); [by left|intros _; slots..|]. intros w10 g10 HI10 Hst10. apply ret_safe. exact (st_ext _ _ _ _ _ _ _ _ _ _ (upd_back L _ _ _ Hall) Hst10).
Qed.

(** ** The operation *)

(** The locks of a connection that checkpoints. *)
Definition LC (x : Conn) : Z -> option bool := upd (lk x) WAL_CKPT_LOCK 1 (Some true).
Lemma LC_write x : forall t, upd (LC x) WAL_WRITE_LOCK 1 (Some true) t = LC (set_c_write x 1) t.
Proof.
  intros t. pose proof (lk_write x 1 ltac:(done) t) as E. unfold LC. unfold upd in *. destruct (decide (WAL_WRITE_LOCK <= t < WAL_WRITE_LOCK + 1)).
  - rewrite decide_False by slots. done.
  - by rewrite E.
Qed.
Lemma LC_release x : forall t, upd (LC x) WAL_WRITE_LOCK 1 None t = LC (set_c_write x 0) t.
Proof.
  intros t. pose proof (lk_release x t) as E. unfold LC. unfold upd in *. destruct (decide (WAL_WRITE_LOCK <= t < WAL_WRITE_LOCK + 1)).
  - rewrite decide_False by slots. done.
  - by rewrite E.
Qed.
Lemma LC_slots x i : c_readLock x < 0 -> 0 <= i < WAL_NREADER -> LC x (WAL_READ_LOCK i) = None.
Proof. intros Hr Hi. unfold LC, upd. rewrite decide_False by slots. unfold lk. rewrite decide_False by slots. rewrite decide_False; [done|slots]. Qed.

Lemma end_safe {A} c x (f : Conn -> A) (Q : A -> World -> Gh -> Prop) w g q : Own c w g (LC x) None q -> c_readLock x < 0 -> (forall x' w1 g1, Inv w1 g1 -> idle_ok c x' w1 g1 -> Q (f x') w1 g1) ->
  safe c (x ← sqlite3WalEndWriteTransaction x; walUnlockExclusive WAL_CKPT_LOCK 1;; mret (f x)) w g Q.
Proof.
  intros Ho Hr HQ. assert (forall x w g, Own c w g (LC x) None q -> c_readLock x < 0 -> safe c (walUnlockExclusive WAL_CKPT_LOCK 1;; mret (f x)) w g Q) as Hlast.
  { intros x1 w1 g1 Ho1 Hr1. eapply safe_unlock_ckpt; [exact Ho1|unfold LC, upd; by rewrite decide_True by lia|]. intros w2 g2 HI2 Ho2. apply (safe_idle sz c _ x1); [|by intros; apply HQ]. exists None.
    split; [|by left]. eapply own_ext; [|exact Ho2]. apply upd_back. apply one_slot, lk_ckpt. }
  unfold sqlite3WalEndWriteTransaction. destruct (Z.eqb_spec (c_writeLock x) 0) as [Hw|Hw]; cbn [negb]; apply safe_bind.
  - apply safe_ret. intros w1 g1 HI1 HR1. apply Hlast; [by eapply own_rely|done].
  - eapply (s_unlock sz c _ 1 _ _ _ w g _ _ _ None _ (st_any sz _ _ _ _ _ _ Ho)); [by left|intros _; slots|done..|]. intros w1 g1 HI1 Hst1. eapply s_ret; [exact Hst1|]. intros w2 g2 HI2 Hst2.
    apply Hlast; [|done]. exact (own_ext _ _ _ _ _ _ _ (LC_release x) (st_own _ _ _ _ _ _ _ _ _ Hst2)).
Qed.

Lemma mode_safe c x fuel eMode xb w g : Own c w g (LC x) None None -> c_writeLock x = 0 ->
  safe c (if negb (eMode =? SQLITE_CHECKPOINT_PASSIVE) then
    rc ← walBusyLock fuel xb WAL_WRITE_LOCK 1;
    if rc =? SQLITE_OK then mret (rc, eMode, set_c_write x 1) else if rc =? SQLITE_BUSY then mret (SQLITE_OK, SQLITE_CHECKPOINT_PASSIVE, x) else mret (rc, eMode, x)
  else mret (SQLITE_OK, eMode, x)) w g (fun p w' g' => let '(_, _, x') := p in Own c w' g' (LC x') None None /\ c_readLock x' = c_readLock x).
Proof.
  intros Ho Hw. assert (forall rc e w g, Own c w g (LC x) None None -> safe c (mret ((rc : Z), (e : Z), x)) w g (fun p w' g' => let '(_, _, x') := p in Own c w' g' (LC x') None None /\ c_readLock x' = c_readLock x)) as Hret.
  { intros rc e w1 g1 Ho1. apply safe_ret. intros w2 g2 HI2 HR2. split; [by eapply own_rely|done]. }
  destruct (negb _); [|by apply Hret]. assert (LC x WAL_WRITE_LOCK = None) as HW by (unfold LC, upd; rewrite decide_False by slots; by apply lk_reader).
  apply safe_bind. eapply safe_mono; [|exact (walBusyLock_safe c xb _ 1 _ _ _ _ _ (one_slot _ _ HW) fuel _ _ (st_any sz _ _ _ _ _ _ Ho))]. intros rc w1 g1 HI1 [Hok Hno].
  destruct (Z.eqb_spec rc SQLITE_OK) as [->|Hrc].
  - eapply s_ret; [by apply Hok|]. intros w2 g2 HI2 Hst2. split; [|done]. exact (own_ext _ _ _ _ _ _ _ (LC_write x) (st_own _ _ _ _ _ _ _ _ _ Hst2)).
  - pose proof (st_own _ _ _ _ _ _ _ _ _ (Hno Hrc)) as Ho1. destruct (rc =? SQLITE_BUSY); by apply Hret.
Qed.

Lemma checkpoint_safe c x fuel eMode xb fl w g : idle_ok c x w g -> c_readLock x < 0 -> c_writeLock x = 0 -> safe c (program sz x (KCheckpoint fuel eMode xb fl)) w g (done_ok c).
Proof.
  intros Hi Hr Hw. cbn [program]. unfold sqlite3WalCheckpoint. destruct (negb (c_readOnly x =? 0)).
  { apply safe_bind. apply (safe_idle sz c _ x); [done|]. intros w1 g1 HI1 Hi1. by apply (safe_idle sz c _ x). }
  destruct Hi as (r & Ho & [[_ ->]|[? _]]); [|lia]. pose proof (lk_no_reader x Hr Hw) as HL.
  apply safe_bind. eapply safe_lock; [exact Ho|intros s _; apply HL| |].
  { intros w1 g1 rc HI1 HR1 Hrc. rewrite (proj2 (Z.eqb_neq _ _) Hrc). cbn [negb]. pose proof (own_rely _ _ _ _ _ _ _ _ _ HR1 Ho) as Ho1. apply (safe_idle sz c _ x); [exists None; split; [done|by left]|].
    intros w2 g2 HI2 Hi2. by apply (safe_idle sz c _ x). }
  intros w1 g1 HI1 HR1 _ w1' HI1' Ho1. cbn [Z.eqb negb]. fold (LC x) in Ho1. apply safe_bind. eapply safe_mono; [|by apply mode_safe]. intros [[rc e2] x2] w2 g2 HI2 [Ho2 Hr2].
  pose proof (st_start sz _ _ _ _ _ _ Ho2) as Hst2. apply safe_bind.
  eapply safe_mono with (Q := fun p w' g' => let '(rc, _, x') := p in (exists h, x' = set_c_hdr x2 h) /\ Own c w' g' (LC x2) None None /\ (rc = SQLITE_OK -> published (LC x2) w' g' (c_hdr x'))).
  2: { destruct (Z.eqb_spec rc SQLITE_OK) as [->|Hrc].
    - eapply safe_mono; [|eapply walIndexReadHdr_safe; [exact Hst2|]].
      + intros [[rc3 ch] x3] w3 g3 HI3 (Hst3 & Hx3 & Hp3). split; [done|]. split; [apply (st_own _ _ _ _ _ _ _ _ _ Hst3)|done].
      + unfold LC, upd. rewrite decide_False by slots. unfold lk. rewrite decide_True by done. destruct (_ =? 0); [by left|by right].
    - eapply s_ret; [exact Hst2|]. intros w3 g3 HI3 Hst3. split; [exists (c_hdr x2); by destruct x2|]. split; [apply (st_own _ _ _ _ _ _ _ _ _ Hst3)|done]. }
  intros [[rc3 ch] x3] w3 g3 HI3 ([h ->] & Ho3 & Hp3). apply safe_bind. eapply safe_mono with (Q := fun _ w' g' => exists q, Own c w' g' (LC x2) None q).
  - intros [rc4 out] w4 g4 HI4 [q Ho4]. cbv zeta. set (x4 := if ch then _ else _).
    assert (LC x4 = LC x2 /\ c_readLock x4 < 0) as [E4 Hr4] by (unfold x4; destruct ch; (split; [done|cbn; lia])). rewrite <- E4 in Ho4. clearbody x4.
    eapply (end_safe c x4 (fun x => (_, out, x))); [exact Ho4|done|]. intros x5 w5 g5 HI5 Hi5. by apply (safe_idle sz c _ x5).
  - assert (forall A (a : A) q w g, Own c w g (LC x2) None q -> safe c (mret a) w g (fun _ w' g' => exists q, Own c w' g' (LC x2) None q)) as Hret.
    { intros A a q w4 g4 Ho4. apply safe_ret. intros w5 g5 HI5 HR5. exists q. by eapply own_rely. }
    destruct (Z.eqb_spec rc3 SQLITE_OK) as [->|Hrc]; [|by eapply Hret]. cbn [set_c_hdr c_hdr] in *.
    assert (LC x2 WAL_CKPT_LOCK = Some true) as HC by (unfold LC, upd; by rewrite decide_True by lia).
    apply safe_bind. eapply safe_mono with (Q := fun _ w' g' => exists q, Own c w' g' (LC x2) None q).
    + intros rc5 w5 g5 HI5 [q Ho5]. destruct (_ || _); [|by eapply Hret]. apply safe_load_nb. intros w6 g6 HI6 HR6. eapply Hret. by eapply own_rely.
    + destruct (negb (mxFrame h =? 0) && negb (walPagesize h =? sz)) eqn:Esz; [by eapply Hret|]. eapply walCheckpoint_safe; [exact HC|intros i Hi; apply LC_slots; [lia|done]|lia|].
      apply (st_mono _ _ _ _ _ _ _ _ _ _ (st_start sz _ _ _ _ _ _ Ho3)); [apply published_stable|]. intros _. by apply Hp3.
Qed.
End ckpt.
