(* ===== verification/WalSnap.v ===== *)
(** What connections that share a database in WAL mode observe.

    Every operation of WalTrans.v is safe (WalProof.v, WalWriter.v, WalCkpt.v), so the invariant of WalIso.v holds in every reachable state
    of WalSys.v. The theorems say what that means for readers, writers and commits. *)
From S2P Require Import Prelude WalHash WalIter WalLog WalWrite WalSpec WalTrans WalSys WalExec WalIso WalProof WalWriter WalCkpt.
Local Open Scope Z_scope.

Section snap.
Context (sz : Z) (Hsz : 0 < sz).
Local Abbreviation Inv := (WalIso.Inv sz).
Local Abbreviation safe := (WalIso.safe sz).

Lemma call_safe c x k w g : Inv w g -> idle_ok c x w g -> call_ok sz w x k -> safe c (program sz x k) w g (done_ok c).
Proof.
  intros HI Hi Hk. destruct k as [| | | | |pl nT ic fl|fuel e xb fl]; cbn [call_ok] in Hk.
  - destruct Hk. eapply safe_mono; [|by apply beginRead_safe]. by intros p w1 g1 HI1 [? _].
  - by apply endRead_safe.
  - destruct Hk. by apply beginWrite_safe.
  - by apply endWrite_safe.
  - by apply undo_safe.
  - destruct Hk as (Hw & Hr & Hpl & Hd). eapply safe_mono; [|apply (frames_safe sz Hsz c x pl nT ic fl w g); [by apply idle_writing|done|done]]. by intros p w1 g1 HI1 [? _].
  - destruct Hk. by apply checkpoint_safe.
Qed.

(** * The invariant of the system *)

(** Every connection is idle, or runs a safe program; the one in [o], which runs a program, with a postcondition of its own. *)
Abbreviation Post := (Z * Conn -> World -> Gh -> Prop).
Definition post_of (o : option (Z * Post)) (c : Z) : Post := match o with Some (d, Q) => if decide (c = d) then Q else done_ok c | None => done_ok c end.
Definition conn_ok (o : option (Z * Post)) (w : World) (g : Gh) (c : Z) (st : option status) : Prop :=
  match st with
  | None => Own c w g (fun _ => None) None None
  | Some (Idle x) => idle_ok c x w g
  | Some (Running p) => safe c p w g (post_of o c)
  end.
Definition sys_ok (o : option (Z * Post)) (s : State) : Prop := exists g, Inv s.1 g /\ forall c, conn_ok o s.1 g c (s.2 !! c).

Lemma conn_rely o w g w' g' c st : rely sz c w g w' g' -> conn_ok o w g c st -> conn_ok o w' g' c st.
Proof. intros HR. destruct st as [[x|p]|]; cbn; [by eapply idle_rely|by eapply safe_rely|by eapply own_rely]. Qed.

Definition busy (c : Z) (s : State) : Prop := exists p, s.2 !! c = Some (Running p).

Lemma sys_step_ok o s s' : sys_ok o s -> sys_step sz s s' -> good s'.1 -> (forall c Q, o = Some (c, Q) -> busy c s /\ busy c s') -> sys_ok o s'.
Proof.
  intros (g & HI & Hc) Hs Hg Ho. assert (forall c, (exists x, s.2 !! c = Some (Idle x)) \/ (exists x, s'.2 !! c = Some (Idle x)) -> post_of o c = done_ok c) as Hpost.
  { intros c Hx. unfold post_of. destruct o as [[d Q]|]; [|done]. case_decide as E; [|done]. subst d. destruct (Ho c Q eq_refl) as [[p1 H1] [p2 H2]]. destruct Hx as [[x E]|[x E]]; congruence. }
  assert (forall cs st c w' g', keeps sz c s.1 g w' g' -> cs = <[c := st]> s.2 -> conn_ok o w' g' c (Some st) -> sys_ok o (w', cs)) as Hset.
  { intros cs st c w' g' [HI' HR'] -> Hst. exists g'. split; [done|]. intros d. cbn [fst snd]. destruct (decide (d = c)) as [->|Hd]; [by rewrite lookup_insert_eq|].
    rewrite lookup_insert_ne by done. eapply conn_rely; [by apply HR'|apply Hc]. }
  destruct Hs as [w cs c ro mx Hn|w cs c x k Hx Hk|w cs c op p ch junk Hp|w cs c rc x Hx]; cbn [fst snd] in *; specialize (Hc c) as Hcc.
  - rewrite Hn in Hcc. apply (Hset _ (Idle (new_conn ro mx)) c w g); [by apply stay_step|done|]. cbn in *. exists None. split; [|left; split; [cbn; lia|done]].
    eapply own_ext; [|exact Hcc]. intros t. symmetry. by apply lk_no_reader.
  - rewrite Hx in Hcc. apply (Hset _ (Running (program sz x k)) c w g); [by apply stay_step|done|]. cbn. rewrite Hpost by (left; by eexists). by apply call_safe.
  - rewrite Hp in Hcc. cbn in Hcc. destruct (Hcc w g HI (rely_refl _ _ _ _)) as [Hne Hop]. specialize (Hop ch junk). destruct (exec_op sz c w op ch junk) as [a w']. cbn [fst snd] in *.
    destruct (Hop Hg) as (g' & Hk & Hsafe). by apply (Hset _ (Running (p a)) c w' g').
  - rewrite Hx in Hcc. cbn in Hcc. specialize (Hcc w g HI (rely_refl _ _ _ _)). apply (Hset _ (Idle x) c w g); [by apply stay_step|done|]. cbn.
    rewrite Hpost in Hcc by (right; exists x; by rewrite lookup_insert_eq). exact Hcc.
Qed.

Lemma start_ok s : start sz s -> sys_ok None s.
Proof.
  intros (El & Ecs & E1 & Es & Emx & Enb & Em & p & Ec & Hp). exists {| g_base := 0; g_mid := None; g_reset := false; g_reg := ∅; g_ck := None |}.
  assert (forall c t, held s.1 c t = None) as Hheld by (intros c t; unfold held; rewrite El; by rewrite lookup_empty).
  assert (latest s.1 = p) as Elat by (unfold latest; by rewrite Ec). split.
  - constructor; cbn [g_base g_mid g_reset g_reg g_ck]; try done.
    + split; [rewrite Ec; apply NoDup_singleton|]. intros c d _ H. unfold held in Hheld. by rewrite Hheld in H.
    + by rewrite Ec, Elat.
    + rewrite Ec. constructor.
      * cbn; lia.
      * intros j h t _ [-> [= <- <-]]%list_lookup_singleton_Some. lia.
      * intros i j h t h' t' Hij _ [-> _]%list_lookup_singleton_Some. lia.
      * intros j h t pg d _ [-> [= <- <-]]%list_lookup_singleton_Some _. by rewrite Emx.
      * intros i j h t h' t' pg d _ [-> [= <- <-]]%list_lookup_singleton_Some [-> [= <- <-]]%list_lookup_singleton_Some. done.
      * intros j h t pg d [-> [= <- <-]]%list_lookup_singleton_Some Hd. by destruct (Hp pg d Hd).
    + intros _. unfold mx. rewrite Emx, Enb. split; [lia|]. cbn. lia.
    + intros pg d Hd _. rewrite Elat in Hd. by destruct (Hp pg d Hd).
  - intros c. rewrite Ecs, lookup_empty. constructor; done.
Qed.

Lemma run_ok s s' : sys_ok None s -> sys_run sz s s' -> sys_ok None s'.
Proof. intros Hs Hr. induction Hr as [|s1 s2 s3 [Hst Hg] _ IH]; [done|]. apply IH. by eapply sys_step_ok. Qed.
Lemma reach_ok s0 s : start sz s0 -> sys_run sz s0 s -> sys_ok None s.
Proof. intros H0. apply run_ok. by apply start_ok. Qed.

Lemma step_history s s' : sys_step sz s s' -> w_commits s.1 `prefix_of` w_commits s'.1.
Proof.
  intros H. destruct H as [| |w cs c op p ch junk Hp|]; try done. cbn [fst]. destruct op as [ex o n|o n|cp|cp h| |v|i|i v|i pg|m|m|f o|f d o|f size| |q]; cbn [exec_op]; repeat case_match; try done.
  by eexists.
Qed.
Lemma run_history s s' : sys_run sz s s' -> w_commits s.1 `prefix_of` w_commits s'.1.
Proof. induction 1 as [|s1 s2 s3 [Hst _] _ IH]; [done|]. etrans; [by apply step_history|done]. Qed.

(** * Readers *)

(** What a registered reader reads. *)
Lemma reader_reads w g x c j s pg d : Inv w g -> Own c w g (lk x) (Some (c_readLock x, j)) None -> w_commits w !! j = Some (c_hdr x, s) -> s !! pg = Some d -> reads sz w x pg = Some d.
Proof.
  intros HI Ho Hj Hd. destruct (v_reg _ _ _ HI c (c_readLock x) j) as (_ & _ & h & t & E & H1 & H0); [by apply (o_reg _ _ _ _ _ _ Ho)|]. rewrite Hj in E. injection E as <- <-.
  unfold reads. destruct (Z.eqb_spec (c_readLock x) 0) as [Hk|Hk].
  - rewrite orb_true_r. cbn [Z.eqb]. destruct (H0 Hk) as [Hf _]. by apply Hf.
  - destruct (H1 Hk) as (Hb & _ & Hback). rewrite orb_false_r. destruct (Z.eqb_spec (mxFrame (c_hdr x)) 0) as [Em|Em]; cbn [Z.eqb].
    + apply Hback; [done|]. by rewrite Em.
    + destruct (Z.eqb_spec (last_frame (w_index w) (Z.to_nat (mxFrame (c_hdr x))) pg) 0) as [E0|E0]; [by apply Hback|]. by apply (y_data _ _ _ _ _ (v_hist _ _ _ HI) j (c_hdr x) s).
Qed.

Lemma idle_entry w g c x : idle_ok c x w g -> 0 <= c_readLock x -> c_writeLock x = 0 ->
  exists j s, Own c w g (lk x) (Some (c_readLock x, j)) None /\ w_commits w !! j = Some (c_hdr x, s).
Proof. intros (r & Ho & [[? _]|(Hk & j & h & s & -> & Hj & H0 & _)]) Hr Hw; [lia|]. specialize (H0 Hw). subst h. by exists j, s. Qed.

(** What a writer reads: its own frames, and the last commit. *)
Lemma writer_reads w g x c pg v : Inv w g -> writing c x w g -> in_progress sz w (c_hdr x) !! pg = Some v -> reads sz w x pg = Some v.
Proof.
  intros HI (Hwx & Hk & Ho & (Hle & Hlen) & _ & _ & H0) Hv.
  assert (0 <= mx w) as Hmx by (pose proof (y_base _ _ _ _ _ (v_hist _ _ _ HI)); apply (y_mx _ _ _ _ _ (v_hist _ _ _ HI) (pred (length (w_commits w))) (w_hdr0 w) (latest w)); [lia|by apply (last_entry sz w g)]).
  assert (latest w !! pg = Some v -> reads sz w (set_c_hdr x (w_hdr0 w)) pg = Some v) as Hold by (intros Hl; eapply (reader_reads w g _ c); [done|exact Ho|by apply (last_entry sz w g)|done]).
  rewrite in_progress_lookup in Hv by lia. cbn zeta in Hv. unfold reads in *. cbn [set_c_hdr c_hdr c_readLock] in Hold. fold (mx w) in Hold.
  pose proof (last_frame_range (w_index w) (Z.to_nat (mxFrame (c_hdr x))) pg) as Hfr.
  destruct (Z.ltb_spec (mx w) (last_frame (w_index w) (Z.to_nat (mxFrame (c_hdr x))) pg)) as [Hlt|Hge].
  - rewrite (proj2 (Z.eqb_neq (mxFrame (c_hdr x)) 0)) by lia. destruct (Z.eqb_spec (c_readLock x) 0) as [E|E]; [specialize (H0 E); lia|]. cbn [orb]. by rewrite (proj2 (Z.eqb_neq _ 0)) by lia.
  - specialize (Hold Hv). rewrite (last_frame_older (w_index w) (Z.to_nat (mx w)) (Z.to_nat (mxFrame (c_hdr x)))) in Hold by lia.
    destruct (Z.eqb_spec (mxFrame (c_hdr x)) 0) as [E|E]; [by rewrite (proj2 (Z.eqb_eq (mx w) 0)) in Hold by lia|].
    destruct (Z.eqb_spec (mx w) 0) as [Em|Em]; [|done]. cbn [orb] in *. destruct (Z.eqb_spec (c_readLock x) 0); [done|].
    by replace (last_frame (w_index w) (Z.to_nat (mxFrame (c_hdr x))) pg) with 0 by lia.
Qed.

(** C1. Every connection in a read transaction that does not write reads, between any two operations of its own, the pages of one commit, that of its header, however the accesses of the
    others interleave and whichever of them fail. The runs start with an empty log, and are those in which no log is restarted
    while another connection has the checkpoint lock (needed, as checkpoint_race shows), no header is published twice, connections call in the order of the pager
    ([call_ok]) and unlocking a lock of the wal-index succeeds. *)
Theorem snapshot_isolation s0 s s' c x : start sz s0 -> sys_run sz s0 s -> sys_run sz s s' -> s.2 !! c = Some (Idle x) -> s'.2 !! c = Some (Idle x) ->
  0 <= c_readLock x -> c_writeLock x = 0 ->
  exists p, (c_hdr x, p) ∈ w_commits s.1 /\ forall pg d, p !! pg = Some d -> reads sz s.1 x pg = Some d /\ reads sz s'.1 x pg = Some d.
Proof.
  intros H0 Hr Hr' Hx Hx' Hk Hw. pose proof (reach_ok s0 s H0 Hr) as Hok. pose proof (run_ok s s' Hok Hr') as Hok'. destruct Hok as (g & HI & Hc), Hok' as (g' & HI' & Hc').
  specialize (Hc c). specialize (Hc' c). rewrite Hx in Hc. rewrite Hx' in Hc'. destruct (idle_entry _ _ _ _ Hc Hk Hw) as (j & p & Ho & Hj). destruct (idle_entry _ _ _ _ Hc' Hk Hw) as (j' & p' & Ho' & Hj').
  pose proof (prefix_lookup_Some _ _ _ _ Hj (run_history s s' Hr')) as Hj2. pose proof (entry_unique sz s'.1 g' _ _ _ _ _ HI' Hj2 Hj') as E. subst j'. rewrite Hj2 in Hj'. injection Hj' as <-.
  exists p. split; [by eapply list_elem_of_lookup_2|]. intros pg d Hd. split; by eapply reader_reads.
Qed.

(** * One operation of a connection, among steps of the others *)

Definition call_run (c : Z) : State -> State -> Prop := rtc (fun s s' => sys_step sz s s' /\ good s'.1 /\ busy c s').

Lemma call_run_ok c Q s s' : sys_ok (Some (c, Q)) s -> busy c s -> call_run c s s' -> sys_ok (Some (c, Q)) s'.
Proof. intros Hs Hb Hr. induction Hr as [|s1 s2 s3 (Hst & Hg & Hb2) _ IH]; [done|]. apply IH; [|done]. eapply sys_step_ok; [done|done|done|]. by intros d Q' [= <- _]. Qed.

Lemma call_post s s' c x k Q a : sys_ok None s -> s.2 !! c = Some (Idle x) -> (forall g, Inv s.1 g -> idle_ok c x s.1 g -> safe c (program sz x k) s.1 g Q) ->
  call_run c (s.1, <[c := Running (program sz x k)]> s.2) s' -> s'.2 !! c = Some (Running (Ret a)) -> exists g, Inv s'.1 g /\ Q a s'.1 g.
Proof.
  intros (g & HI & Hc) Hx Hs Hr Ha. assert (sys_ok (Some (c, Q)) (s.1, <[c := Running (program sz x k)]> s.2)) as Hok.
  { exists g. split; [done|]. intros d. cbn [fst snd]. destruct (decide (d = c)) as [->|Hd].
    - rewrite lookup_insert_eq. unfold conn_ok, post_of. rewrite decide_True by done. apply Hs; [done|]. specialize (Hc c). by rewrite Hx in Hc.
    - rewrite lookup_insert_ne by done. specialize (Hc d). destruct (s.2 !! d) as [[y|p]|]; try done. unfold conn_ok, post_of in *. by rewrite decide_False. }
  destruct (call_run_ok c Q _ s' Hok) as (g' & HI' & Hc'); [exists (program sz x k); cbn; by rewrite lookup_insert_eq|done|]. specialize (Hc' c). rewrite Ha in Hc'. exists g'. split; [done|].
  unfold conn_ok, post_of in Hc'. rewrite decide_True in Hc' by done. apply (Hc' s'.1 g' HI'), rely_refl.
Qed.

(** C2. A transaction commits what it wrote. While a writer is at work the frames it has added to the log belong to the database it works on
    ([in_progress], the last commit when there are none); a call that spills pages puts these on top of it and changes nothing that is committed; the call that commits
    makes this database with its last dirty pages, cut to the new size, the committed one. The runs start with an empty log, and are those in which no log is restarted
    while another connection has the checkpoint lock (needed, as checkpoint_race shows), no header is published twice, connections call in the order of the pager
    ([call_ok]) and unlocking a lock of the wal-index succeeds. *)
Theorem commit_visible s0 s s' c x pl nT isCommit fl x' : start sz s0 -> sys_run sz s0 s -> s.2 !! c = Some (Idle x) -> call_ok sz s.1 x (KFrames pl nT isCommit fl) ->
  call_run c (s.1, <[c := Running (program sz x (KFrames pl nT isCommit fl))]> s.2) s' -> s'.2 !! c = Some (Running (Ret (SQLITE_OK, x'))) ->
  (mxFrame (c_hdr x) = mxFrame (w_hdr0 s.1) -> in_progress sz s.1 (c_hdr x) = latest s.1) /\
  if isCommit then latest s'.1 = committed nT pl (in_progress sz s.1 (c_hdr x)) /\ c_hdr x' = w_hdr0 s'.1
  else latest s'.1 = latest s.1 /\ in_progress sz s'.1 (c_hdr x') = dirtied pl (in_progress sz s.1 (c_hdr x)).
Proof.
  intros H0 Hr Hx (Hw & Hk & Hpl & Hd) Hrun Ha. split; [apply in_progress_clean|].
  edestruct (call_post s s' c x (KFrames pl nT isCommit fl) (framed sz c (latest s.1) (in_progress sz s.1 (c_hdr x)) pl nT isCommit) (SQLITE_OK, x') (reach_ok s0 s H0 Hr) Hx) as (g & HI & _ & _ & Hf); [|exact Hrun|exact Ha|].
  { intros g HI Hi. apply (frames_safe sz Hsz c x pl nT isCommit fl s.1 g); [by apply idle_writing|done|done]. }
  specialize (Hf eq_refl). destruct isCommit; [by destruct Hf|done].
Qed.

(** C10. A read transaction that begins sees a commit that is not older than the last one at the time of the call. The runs start with an empty log, and are those in which no log is restarted
    while another connection has the checkpoint lock (needed, as checkpoint_race shows), no header is published twice, connections call in the order of the pager
    ([call_ok]) and unlocking a lock of the wal-index succeeds. *)
Theorem begin_fresh s0 s s' c x x' : start sz s0 -> sys_run sz s0 s -> s.2 !! c = Some (Idle x) -> call_ok sz s.1 x KBeginRead ->
  call_run c (s.1, <[c := Running (program sz x KBeginRead)]> s.2) s' -> s'.2 !! c = Some (Running (Ret (SQLITE_OK, x'))) ->
  exists j p, w_commits s'.1 !! j = Some (c_hdr x', p) /\ (length (w_commits s.1) <= S j)%nat.
Proof.
  intros H0 Hr Hx (Hk & Hw) Hrun Ha. edestruct (call_post s s' c x KBeginRead (begun c (length (w_commits s.1))) (SQLITE_OK, x') (reach_ok s0 s H0 Hr) Hx) as (g & HI & _ & Hf); [|exact Hrun|exact Ha|].
  { intros g HI Hi. by apply beginRead_safe. }
  by apply Hf.
Qed.

(** C8. At most one connection writes: while an idle connection is in a write transaction no other connection, idle or in an operation, has the write lock. With a read lock it reads
    the database it works on, the last commit with the frames it has spilled on top. The runs start with an empty log, and are those in which no log is restarted
    while another connection has the checkpoint lock (needed, as checkpoint_race shows), no header is published twice, connections call in the order of the pager
    ([call_ok]) and unlocking a lock of the wal-index succeeds. *)
Theorem writer_alone s0 s c x : start sz s0 -> sys_run sz s0 s -> s.2 !! c = Some (Idle x) -> c_writeLock x <> 0 ->
  (forall d, d <> c -> w_locks s.1 !! (d, WAL_WRITE_LOCK) = None /\ forall y, s.2 !! d = Some (Idle y) -> c_writeLock y = 0) /\
  (0 <= c_readLock x -> forall pg v, in_progress sz s.1 (c_hdr x) !! pg = Some v -> reads sz s.1 x pg = Some v).
Proof.
  intros H0 Hr Hx Hwx. destruct (reach_ok s0 s H0 Hr) as (g & HI & Hc). pose proof (Hc c) as Hcx. rewrite Hx in Hcx. split.
  - intros d Hd. destruct Hcx as (r & Ho & _). assert (held s.1 d WAL_WRITE_LOCK = None) as Hn.
    { apply (v_ex _ _ _ HI c d WAL_WRITE_LOCK); [by apply not_eq_sym|]. rewrite (o_locks _ _ _ _ _ _ Ho). by apply lk_writer. }
    split; [exact Hn|]. intros y Hy. specialize (Hc d). rewrite Hy in Hc. destruct Hc as (r' & Ho' & _).
    destruct (decide (c_writeLock y = 0)) as [|Hwy]; [done|]. rewrite (o_locks _ _ _ _ _ _ Ho'), lk_writer in Hn by done. done.
  - intros Hk. pose proof (idle_writing c x s.1 g Hcx Hwx Hk) as Hwr. intros pg v. by apply (writer_reads s.1 g x c).
Qed.

(** No connection ever finds a damaged header: recovery is not run. *)
Theorem never_recovers s0 s c k : start sz s0 -> sys_run sz s0 s -> s.2 !! c <> Some (Running (Do ORecover k)).
Proof.
  intros H0 Hr Hk. destruct (reach_ok s0 s H0 Hr) as (g & HI & Hc). specialize (Hc c). rewrite Hk in Hc. by destruct (Hc s.1 g HI (rely_refl _ _ _ _)).
Qed.
End snap.

(** * Bounded loops *)

(** Whatever the accesses of [p] answer, it returns after at most [n] of them, with a value in [Q]. *)
Fixpoint ends {A} (n : nat) (p : Prog A) (Q : A -> Prop) {struct p} : Prop :=
  match p with
  | Ret a => Q a
  | Do _ k => match n with O => False | S n => forall a, ends n (k a) Q end
  end.
Lemma ends_mono {A} (Q Q' : A -> Prop) : (forall a, Q a -> Q' a) -> forall (p : Prog A) n n', (n <= n')%nat -> ends n p Q -> ends n' p Q'.
Proof.
  intros HQ. induction p as [a|o k IH]; intros n n' Hn H; [by apply HQ|]. destruct n as [|n]; [done|]. destruct n' as [|n']; [lia|]. intros a. apply (IH a n); [lia|apply H].
Qed.
Lemma ends_bind {A B} (f : A -> Prog B) Q m : forall (p : Prog A) n, ends n p (fun a => ends m (f a) Q) -> ends (n + m) (p ≫= f) Q.
Proof.
  induction p as [a|o k IH]; intros n H.
  - apply (ends_mono Q Q) with (n := m); [done|lia|done].
  - destruct n as [|n]; [done|]. cbn. intros a. apply IH, H.
Qed.
Lemma ends_if {A} (b : bool) n (p q : Prog A) Q : (b = true -> ends n p Q) -> (b = false -> ends n q Q) -> ends n (if b then p else q) Q.
Proof. destruct b; auto. Qed.
Lemma ends_do {A B} o (k : Ans -> A) (f : A -> Prog B) n Q : (forall a, ends n (f (k a)) Q) -> ends (S n) (Do o (fun a => Ret (k a)) ≫= f) Q.
Proof. intros H a. apply H. Qed.
(** Returns, single accesses and choices. *)
Ltac ends_auto := repeat first
  [ exact I
  | match goal with
    | |- ends _ (mret _) _ => exact I
    | |- ends _ (if _ then _ else _) _ => apply ends_if; intros _
    | |- ends _ (let '(_, _) := ?p in _) _ => destruct p
    | |- ends (S _) (do_z _) _ => intros ?
    | |- ends (S _) (_ ≫= _) _ => apply (ends_do _ a_z); intros ?
    | |- ends (S _) (_ ≫= _) _ => apply (ends_do _ a_hdr); intros ?
    | |- ends (S _) (_ ≫= _) _ => apply (ends_do _ (fun _ => tt)); intros ?
    end ].

Lemma try_hdr_ends x ch : ends 2 (try_hdr x ch) (fun _ => True).
Proof. unfold try_hdr. do 2 (apply (ends_do _ a_hdr); intros ?). by destruct (walIndexTryHdr _ _ _ _) as [[[? ?] ?] ?]. Qed.
(** A sequence whose first part ends after [n] accesses. *)
Lemma ends_seq {A B} (f : A -> Prog B) Q n m (p : Prog A) : ends n p (fun _ => True) -> (forall a, ends m (f a) Q) -> ends (n + m) (p ≫= f) Q.
Proof. intros Hp Hf. apply ends_bind. eapply ends_mono; [|done|exact Hp]. intros a _. apply Hf. Qed.

Lemma walIndexReadHdr_ends x : ends 9 (walIndexReadHdr x) (fun _ => True).
Proof.
  unfold walIndexReadHdr. apply (ends_do _ a_z). intros a. apply ends_if; intros _; [exact I|]. apply (ends_seq _ _ 2 6); [apply try_hdr_ends|]. intros [[bad ch] x1].
  apply (ends_seq _ _ 6 0); [|by intros [[[? ?] ?] ?]]. apply ends_if; intros _; [|exact I]. apply ends_if; intros _; [ends_auto|]. apply (ends_do _ a_z). intros b.
  apply ends_if; intros _; [|exact I]. apply (ends_do _ a_z). intros d. apply (ends_seq _ _ 3 1); [|intros [[[? ?] ?] ?]; ends_auto]. apply ends_if; intros _; [|exact I].
  apply (ends_seq _ _ 2 1); [apply try_hdr_ends|]. intros [[bad2 ch2] x2]. ends_auto.
Qed.
Lemma find_mark_ends mxf : forall n i m k, ends n (find_mark n i mxf m k) (fun _ => True).
Proof. induction n as [|n IH]; intros i m k; cbn [find_mark]; [exact I|]. apply (ends_do _ a_z). intros a. apply ends_if; intros _; apply IH. Qed.
Lemma claim_mark_ends mxf : forall n i rc m k, ends (S (S n)) (claim_mark n i mxf rc m k) (fun _ => True).
Proof. induction n as [|n IH]; intros i rc m k; cbn [claim_mark]; [exact I|]. apply (ends_do _ a_z). intros a. apply ends_if; intros _; [ends_auto|]. apply ends_if; intros _; [exact I|apply IH]. Qed.
Lemma begin_with_log_ends x rc : ends 14 (begin_with_log x rc) (fun _ => True).
Proof.
  unfold begin_with_log. apply (ends_seq _ _ 4 10); [apply find_mark_ends|]. intros [m k]. apply (ends_seq _ _ 6 4); [apply ends_if; intros _; [apply claim_mark_ends|exact I]|].
  intros [[[stop rc2] m2] k2]. ends_auto.
Qed.
Lemma walTryBeginRead_ends x useWal cnt : ends 28 (walTryBeginRead x useWal cnt) (fun _ => True).
Proof.
  unfold walTryBeginRead. apply ends_if; intros _; [exact I|]. apply (ends_seq _ _ 12 16).
  - apply ends_if; intros _; [exact I|]. apply (ends_seq _ _ 9 3); [apply walIndexReadHdr_ends|]. intros [[rc ch] x1]. ends_auto.
  - intros [[rc ch] x1]. apply ends_if; intros _; [exact I|]. apply (ends_seq _ _ 1 15); [ends_auto|]. intros nb.
    assert (forall rc, ends 14 ('(rc, x) ← begin_with_log x1 rc; mret (rc, ch, x)) (fun _ => True)) as Hlog.
    { intros rc2. apply (ends_seq _ _ 14 0); [apply begin_with_log_ends|]. by intros [? ?]. }
    apply ends_if; intros _; [|apply (ends_mono (fun _ => True) (fun _ => True) ltac:(done) _ 14); [lia|apply Hlog]]. apply (ends_do _ a_z). intros a. apply ends_if; intros _; [ends_auto|]. apply ends_if; intros _; [exact I|apply Hlog].
Qed.

Lemma begin_loop_ends useWal : forall n x ch cnt, (0 < n)%nat -> 101 <= cnt + Z.of_nat n -> ends (28 * n) (begin_loop n x useWal ch cnt) (fun p => p.1.1 <> WAL_RETRY).
Proof.
  induction n as [|n IH]; intros x ch cnt Hn Hc; [lia|]. cbn [begin_loop]. replace (28 * S n)%nat with (28 + 28 * n)%nat by lia. apply ends_bind. destruct (decide (100 < cnt + 1)) as [Hbig|Hsmall].
  - unfold walTryBeginRead. rewrite (proj2 (Z.ltb_lt 5 (cnt + 1))), (proj2 (Z.ltb_lt 100 (cnt + 1))) by lia. cbn. done.
  - eapply ends_mono; [|done|apply walTryBeginRead_ends]. intros [[rc ch2] x2] _. destruct (Z.eqb_spec rc WAL_RETRY) as [E|E]; [|done]. apply IH; lia.
Qed.

(** C11. Beginning a read transaction ends after 101 attempts of at most 28 accesses each, whatever other connections do, and does not return the internal code WAL_RETRY. *)
Theorem begin_terminates x : ends (28 * 101) (sqlite3WalBeginReadTransaction x) (fun p => p.1.1 <> WAL_RETRY).
Proof. unfold sqlite3WalBeginReadTransaction. exact (begin_loop_ends false 101 x false 0 ltac:(lia) ltac:(lia)). Qed.

(** * Examples *)

Lemma drive_call sz n c : forall s s', drive sz good n false c s = Some s' -> busy c s -> call_run sz c s s'.
Proof.
  induction n as [|n IH]; intros [w cs] s' Hd [p Hp]; cbn [fst snd] in Hp; cbn [drive fst snd] in Hd; rewrite Hp in Hd; destruct p as [[rc x]|o p]; simplify_eq; try done.
  destruct (exec_op sz c w o 0 None) as [a w'] eqn:Ee. apply bind_Some in Hd as (s1 & H1 & H2). unfold guard_ok in H1. case_decide as Hg; [|done]. injection H1 as <-.
  assert (busy c (w', <[c := Running (p a)]> cs)) as Hb by (exists (p a); cbn; by rewrite lookup_insert_eq). eapply rtc_l; [|by apply IH]. split; [|done].
  pose proof (step_op sz w cs c o p 0 None Hp) as Hs. by rewrite Ee in Hs.
Qed.

(** Connection 3 reads while connection 1 commits page 2 again and connection 2 checkpoints; then connection 1 commits page 3. *)
Definition sched1 : list instr := [IOpen 1; IOpen 2; IOpen 3] ++ transaction 1 2 21 ++ [ICall 3 KBeginRead] ++ transaction 1 2 22 ++ [ICall 2 passive].
Definition sched2 : list instr := transaction 1 3 31 ++ [ICall 2 passive].
Definition s_one : State := after good sched1 s_example.
Definition s_two : State := after good sched2 s_one.
Lemma run_one : sys_run 512 s_example s_one.
Proof. apply (after_run good). vm_compute. reflexivity. Qed.
Lemma run_two : sys_run 512 s_one s_two.
Proof. apply (after_run good). vm_compute. reflexivity. Qed.

Lemma snapshot_isolation_witness : let x := conn s_one 3 in exists p, (c_hdr x, p) ∈ w_commits s_one.1 /\
  forall pg d, p !! pg = Some d -> reads 512 s_one.1 x pg = Some d /\ reads 512 s_two.1 x pg = Some d.
Proof.
  apply (snapshot_isolation 512 ltac:(lia) s_example s_one s_two 3 (conn s_one 3) start_example run_one run_two);
    [apply idle_conn; vm_compute; reflexivity|apply (eq_trans (idle_conn s_two 3 ltac:(vm_compute; reflexivity))); do 2 f_equal; vm_compute; reflexivity|vm_compute; discriminate|vm_compute; reflexivity].
Defined.
(** The reader sees the first version of page 2, which is neither in the database file nor committed last. *)
Example reader_sees_old : reads 512 s_two.1 (conn s_one 3) 2 = Some (replicate 512 21) /\ latest s_two.1 !! 2 = Some (replicate 512 22).
Proof. vm_compute. done. Qed.

(** Connection 1 is about to commit page 3 while connection 3 still reads. *)
Definition s_write : State := after good [ICall 1 KBeginRead; ICall 1 KBeginWrite] s_one.
Lemma run_write : sys_run 512 s_example s_write.
Proof. etrans; [apply run_one|]. apply (after_run good). vm_compute. reflexivity. Qed.
Definition calling (s : State) (c : Z) (k : call) : State := (s.1, <[c := Running (program 512 (conn s c) k)]> s.2).
Definition driven (s : State) (c : Z) : State := default s (drive 512 good 1000 false c s).
Lemma driven_call s c k : bool_decide (is_Some (drive 512 good 1000 false c (calling s c k))) = true -> call_run 512 c (calling s c k) (driven (calling s c k) c).
Proof.
  intros [s' E]%bool_decide_eq_true. unfold driven. rewrite E. apply (drive_call 512 1000); [done|]. exists (program 512 (conn s c) k). cbn. by rewrite lookup_insert_eq.
Qed.
(** The result code of an operation that has ended. *)
Definition result (s : State) (c : Z) : option Z := match s.2 !! c with Some (Running (Ret (rc, _))) => Some rc | _ => None end.
Lemma result_conn s c rc : result s c = Some rc -> s.2 !! c = Some (Running (Ret (rc, conn s c))).
Proof. unfold result, conn. destruct (s.2 !! c) as [[x|[[r x]|o p]]|]; try done. by intros [= ->]. Qed.

(** It spills page 2, then commits page 3. *)
Definition k_spill : call := KFrames [dirty 2 23] 0 false 0.
Definition s_spill : State := after good [ICall 1 k_spill] s_write.
Lemma run_spill : sys_run 512 s_example s_spill.
Proof. etrans; [apply run_write|]. apply (after_run good). vm_compute. reflexivity. Qed.
Definition k_commit : call := KFrames [dirty 3 31] 3 true 0.
Definition s_commit : State := driven (calling s_spill 1 k_commit) 1.
Lemma commit_visible_witness : latest s_commit.1 = committed 3 [dirty 3 31] (in_progress 512 s_spill.1 (c_hdr (conn s_spill 1))) /\ c_hdr (conn s_commit 1) = w_hdr0 s_commit.1.
Proof.
  refine (proj2 (commit_visible 512 ltac:(lia) s_example s_spill s_commit 1 (conn s_spill 1) [dirty 3 31] 3 true 0 (conn s_commit 1) start_example run_spill _ _ _ _)).
  - apply idle_conn. vm_compute. reflexivity.
  - apply (bool_decide_unpack _). vm_compute. exact I.
  - apply (driven_call s_spill 1 k_commit). vm_compute. reflexivity.
  - apply result_conn. vm_compute. reflexivity.
Defined.
(** Both pages are committed. *)
Example spill_committed : latest s_commit.1 !! 2 = Some (replicate 512 23) /\ latest s_commit.1 !! 3 = Some (replicate 512 31) /\ latest s_spill.1 !! 2 = Some (replicate 512 22).
Proof. vm_compute. done. Qed.

Definition s_begin : State := driven (calling s_two 2 KBeginRead) 2.
Lemma begin_fresh_witness : exists j p, w_commits s_begin.1 !! j = Some (c_hdr (conn s_begin 2), p) /\ (length (w_commits s_two.1) <= S j)%nat.
Proof.
  apply (begin_fresh 512 ltac:(lia) s_example s_two s_begin 2 (conn s_two 2) (conn s_begin 2) start_example).
  - etrans; [apply run_one|apply run_two].
  - apply idle_conn. vm_compute. reflexivity.
  - apply (bool_decide_unpack _). vm_compute. exact I.
  - apply (driven_call s_two 2 KBeginRead). vm_compute. reflexivity.
  - apply result_conn. vm_compute. reflexivity.
Defined.

Lemma writer_alone_witness : w_locks s_spill.1 !! (3, WAL_WRITE_LOCK) = None /\ reads 512 s_spill.1 (conn s_spill 1) 2 = Some (replicate 512 23).
Proof.
  destruct (writer_alone 512 ltac:(lia) s_example s_spill 1 (conn s_spill 1) start_example run_spill) as [H1 H2]; [apply idle_conn; vm_compute; reflexivity|vm_compute; discriminate|].
  split; [apply (H1 3); discriminate|]. apply H2; [vm_compute; discriminate|vm_compute; reflexivity].
Defined.
Lemma never_recovers_witness : s_two.2 !! 3 <> Some (Running (Do ORecover (fun _ => Ret (0, conn s_two 3)))).
Proof. apply (never_recovers 512 ltac:(lia) s_example s_two 3 _ start_example). etrans; [apply run_one|apply run_two]. Defined.
