(* ===== verification/Page.v ===== *)
(** b-tree pages: btree.c, cells and the space on a page.

    A page has a header at [hdrOffset], the array of cell pointers behind it, and the cell content area from [top] to the end of the usable part. Unused parts of the content area are
    in a list of free blocks in ascending order, linked through their first two bytes; rests of less than four bytes are only counted. *)
From S2P Require Import Prelude Varint.
Local Open Scope Z_scope.
Local Open Scope c_scope.

Definition PTF_INTKEY : Z := 0x01.
Definition PTF_ZERODATA : Z := 0x02.
Definition PTF_LEAFDATA : Z := 0x04.
Definition PTF_LEAF : Z := 0x08.
Definition BTS_SECURE_DELETE : Z := 0x0004.
Definition PTRMAP_OVERFLOW1 : Z := 3.

Definition get2byte (p : list Z) (i : Z) : Z := (rd p i << 8) .| rd p (i + 1).
Definition put2byte (p : list Z) (i v : Z) : list Z := wr (wr p i (u8 (v >> 8))) (i + 1) (u8 v).
Definition get2byteNotZero (p : list Z) (i : Z) : Z := ((get2byte p i - 1) .& 0xffff) + 1.

(** The fields of BtShared that pages use. *)
Record BtShared := {
  pageSize : Z; usableSize : Z; btsFlags : Z; autoVacuum : bool;
  bt_maxLocal : Z; bt_minLocal : Z; bt_maxLeaf : Z; bt_minLeaf : Z }.

(** The limits that lockBtree computes. *)
Definition bt_limits (pageSize usableSize flags : Z) (autoVacuum : bool) : BtShared :=
  {| pageSize := pageSize; usableSize := usableSize; btsFlags := flags; autoVacuum := autoVacuum;
     bt_maxLocal := u16 ((usableSize - 12) * 64 / 255 - 23); bt_minLocal := u16 ((usableSize - 12) * 32 / 255 - 23);
     bt_maxLeaf := u16 (usableSize - 35); bt_minLeaf := u16 ((usableSize - 12) * 32 / 255 - 23) |}.

Definition MX_CELL (pBt : BtShared) : Z := (pageSize pBt - 8) / 6.

(** [apOvfl] has the arrays aiOvfl and apOvfl, of which nOverflow entries are in use: the index of a cell that does not fit, and its content. *)
Record MemPage := {
  isInit : bool; apOvfl : list (Z * list Z); intKey : bool; leaf : Z; hasData : bool; hdrOffset : Z; childPtrSize : Z;
  maxLocal : Z; minLocal : Z; cellOffset : Z; nFree : Z; nCell : Z; aData : list Z; pgno : Z }.

Definition set_data (P : MemPage) (d : list Z) : MemPage :=
  {| isInit := isInit P; apOvfl := apOvfl P; intKey := intKey P; leaf := leaf P; hasData := hasData P; hdrOffset := hdrOffset P; childPtrSize := childPtrSize P;
     maxLocal := maxLocal P; minLocal := minLocal P; cellOffset := cellOffset P; nFree := nFree P; nCell := nCell P; aData := d; pgno := pgno P |}.
Definition set_counts (P : MemPage) (nf nc : Z) : MemPage :=
  {| isInit := isInit P; apOvfl := apOvfl P; intKey := intKey P; leaf := leaf P; hasData := hasData P; hdrOffset := hdrOffset P; childPtrSize := childPtrSize P;
     maxLocal := maxLocal P; minLocal := minLocal P; cellOffset := cellOffset P; nFree := nf; nCell := nc; aData := aData P; pgno := pgno P |}.
Definition set_ovfl (P : MemPage) (l : list (Z * list Z)) : MemPage :=
  {| isInit := isInit P; apOvfl := l; intKey := intKey P; leaf := leaf P; hasData := hasData P; hdrOffset := hdrOffset P; childPtrSize := childPtrSize P;
     maxLocal := maxLocal P; minLocal := minLocal P; cellOffset := cellOffset P; nFree := nFree P; nCell := nCell P; aData := aData P; pgno := pgno P |}.

Section page.
Context (pBt : BtShared).

(** ** Cells *)

Record CellInfo := { nKey : Z; nData : Z; nPayload : Z; nHeader : Z; nLocal : Z; iOverflow : Z; nSize : Z }.

(** A cell is the buffer from the start of its content on. *)
Definition btreeParseCellPtr (P : MemPage) (pCell : list Z) : CellInfo :=
  let n := childPtrSize P in
  let '(n, key, data, payload) :=
    if intKey P then
      let '(n, payload) := if hasData P then getVarint32 pCell else (n, 0) in
      let '(k, key) := sqlite3GetVarint (drop (Z.to_nat n) pCell) in
      (u16 (n + k), i64 key, payload, payload)
    else
      let '(k, payload) := getVarint32 (drop (Z.to_nat n) pCell) in
      (u16 (n + k), payload, 0, payload) in
  if payload <=? maxLocal P then
    let sz := u16 (n + payload) in
    {| nKey := key; nData := data; nPayload := payload; nHeader := n; nLocal := u16 payload; iOverflow := 0; nSize := if sz <? 4 then 4 else sz |}
  else
    let surplus := i32 (u32 (minLocal P + u32 (payload - minLocal P) mod (usableSize pBt - 4))) in
    let loc := if surplus <=? maxLocal P then u16 surplus else u16 (minLocal P) in
    let ovfl := u16 (loc + n) in
    {| nKey := key; nData := data; nPayload := payload; nHeader := n; nLocal := loc; iOverflow := ovfl; nSize := u16 (ovfl + 4) |}.

(** [while( ( *pIter++)&0x80 && pIter<pEnd );] with at most [k] bytes left. *)
Fixpoint skip_key (k : nat) (pCell : list Z) (pIter : Z) : Z :=
  match k with
  | O => pIter
  | S k => if negb (rd pCell pIter .& 0x80 =? 0) then skip_key k pCell (pIter + 1) else pIter + 1
  end.

Definition cellSizePtr (P : MemPage) (pCell : list Z) : Z :=
  let pIter := childPtrSize P in
  let '(pIter, nSize) :=
    if intKey P then
      let '(pIter, nSize) := if hasData P then let '(k, v) := getVarint32 (drop (Z.to_nat pIter) pCell) in (pIter + k, v) else (pIter, 0) in
      (skip_key 9 pCell pIter, nSize)
    else let '(k, v) := getVarint32 (drop (Z.to_nat pIter) pCell) in (pIter + k, v) in
  let nSize :=
    if maxLocal P <? nSize then
      let nSize := u32 (minLocal P + u32 (nSize - minLocal P) mod (usableSize pBt - 4)) in
      let nSize := if maxLocal P <? nSize then minLocal P else nSize in
      u32 (nSize + 4)
    else nSize in
  let nSize := u32 (nSize + pIter) in
  let nSize := if nSize <? 4 then 4 else nSize in
  u16 nSize.

Definition cell_at (d : list Z) (pc : Z) : list Z := drop (Z.to_nat pc) d.

(** ** Space *)

Definition iCellFirst (P : MemPage) : Z := cellOffset P + 2 * nCell P.

(** The loop over the cells, from cell [i] on with [k] cells to go. [None] for the data is a corrupt page. *)
Fixpoint defrag_loop (k : nat) (P : MemPage) (temp : list Z) (i cbrk : Z) (data : list Z) : list Z * option Z :=
  match k with
  | O => (data, Some cbrk)
  | S k =>
      let pAddr := cellOffset P + i * 2 in
      let pc := get2byte data pAddr in
      if (pc <? iCellFirst P) || (usableSize pBt - 4 <? pc) then (data, None)
      else
        let size := cellSizePtr P (cell_at temp pc) in
        let cbrk := cbrk - size in
        if (cbrk <? iCellFirst P) || (usableSize pBt <? pc + size) then (data, None)
        else defrag_loop k P temp (i + 1) cbrk (put2byte (splice data cbrk (slice temp pc size)) pAddr cbrk)
  end.

(** [temp] is the buffer of the pager. The cells are copied into it from [cbrk] on. *)
Definition defragmentPage (P : MemPage) (temp : list Z) : Z * MemPage :=
  let hdr := hdrOffset P in
  let data := aData P in
  let cbrk := get2byte data (hdr + 5) in
  let temp := splice temp cbrk (slice data cbrk (usableSize pBt - cbrk)) in
  match defrag_loop (Z.to_nat (nCell P)) P temp 0 (usableSize pBt) data with
  | (data, None) => (SQLITE_CORRUPT, set_data P data)
  | (data, Some cbrk) =>
      let data := put2byte data (hdr + 5) cbrk in
      let data := wr (wr (wr data (hdr + 1) 0) (hdr + 2) 0) (hdr + 7) 0 in
      let data := splice data (iCellFirst P) (replicate (Z.to_nat (cbrk - iCellFirst P)) 0) in
      (if negb (cbrk - iCellFirst P =? nFree P) then SQLITE_CORRUPT else SQLITE_OK, set_data P data)
  end.

Inductive found := Slot (data : list Z) (idx : Z) | Bad | NoSlot.

(** The search for a free block from [addr] on. *)
Fixpoint find_slot (fuel : nat) (hdr nFrag nByte : Z) (data : list Z) (addr : Z) : option found :=
  match fuel with
  | O => None
  | S fuel =>
      let pc := get2byte data addr in
      if 0 <? pc then
        if (usableSize pBt - 4 <? pc) || (pc <? addr + 4) then Some Bad
        else
          let size := get2byte data (pc + 2) in
          if nByte <=? size then
            let x := size - nByte in
            if x <? 4 then
              let data := wr (wr data addr (rd data pc)) (addr + 1) (rd data (pc + 1)) in
              Some (Slot (wr data (hdr + 7) (u8 (nFrag + x))) (pc + x))
            else if usableSize pBt <? size + pc then Some Bad
            else Some (Slot (put2byte data (pc + 2) x) (pc + x))
          else find_slot fuel hdr nFrag nByte data pc
      else Some NoSlot
  end.

(** The end of allocateSpace: space from the gap. *)
Definition take_gap (P : MemPage) (temp : list Z) (nByte top : Z) : Z * MemPage * Z :=
  let '(rc, P, top) :=
    if top <? iCellFirst P + 2 + nByte then let '(rc, P) := defragmentPage P temp in (rc, P, get2byteNotZero (aData P) (hdrOffset P + 5)) else (SQLITE_OK, P, top) in
  if negb (rc =? 0) then (rc, P, 0)
  else
    let top := top - nByte in
    (SQLITE_OK, set_data P (put2byte (aData P) (hdrOffset P + 5) top), top).

(** The index is 0 when there is an error. *)
Definition allocateSpace (P : MemPage) (temp : list Z) (nByte : Z) : option (Z * MemPage * Z) :=
  let hdr := hdrOffset P in
  let nFrag := rd (aData P) (hdr + 7) in
  let gap := iCellFirst P in
  let top := get2byteNotZero (aData P) (hdr + 5) in
  if top <? gap then Some (SQLITE_CORRUPT, P, 0)
  else if 60 <=? nFrag then
    let '(rc, P) := defragmentPage P temp in
    if negb (rc =? 0) then Some (rc, P, 0) else Some (take_gap P temp nByte (get2byteNotZero (aData P) (hdr + 5)))
  else if gap + 2 <=? top then
    match find_slot (Z.to_nat (usableSize pBt)) hdr nFrag nByte (aData P) (hdr + 1) with
    | None => None
    | Some Bad => Some (SQLITE_CORRUPT, P, 0)
    | Some (Slot data idx) => Some (SQLITE_OK, set_data P data, idx)
    | Some NoSlot => Some (take_gap P temp nByte top)
    end
  else Some (take_gap P temp nByte top).

(** The search for the place of a block in the list: its predecessor and successor, or [inr tt] when the list is corrupt. *)
Fixpoint free_place (fuel : nat) (data : list Z) (start addr : Z) : option (Z * Z + unit) :=
  match fuel with
  | O => None
  | S fuel =>
      let pbegin := get2byte data addr in
      if (pbegin <? start) && (0 <? pbegin) then
        if pbegin <? addr + 4 then Some (inr tt) else free_place fuel data start pbegin
      else Some (inl (addr, pbegin))
  end.

Fixpoint coalesce (fuel : nat) (hdr : Z) (data : list Z) (addr : Z) : option (Z * list Z) :=
  match fuel with
  | O => None
  | S fuel =>
      let pbegin := get2byte data addr in
      if 0 <? pbegin then
        let pnext := get2byte data pbegin in
        let psize := get2byte data (pbegin + 2) in
        if (pnext <=? pbegin + psize + 3) && (0 <? pnext) then
          let frag := pnext - (pbegin + psize) in
          if (frag <? 0) || (rd data (hdr + 7) <? frag) then Some (SQLITE_CORRUPT, data)
          else
            let data := wr data (hdr + 7) (u8 (rd data (hdr + 7) - u8 frag)) in
            let x := get2byte data pnext in
            let data := put2byte data pbegin x in
            let x := pnext + get2byte data (pnext + 2) - pbegin in
            coalesce fuel hdr (put2byte data (pbegin + 2) x) addr
        else coalesce fuel hdr data pbegin
      else Some (SQLITE_OK, data)
  end.

(** If the content area begins with a free block. *)
Definition drop_first (hdr : Z) (data : list Z) : list Z :=
  if (rd data (hdr + 1) =? rd data (hdr + 5)) && (rd data (hdr + 2) =? rd data (hdr + 6)) then
    let pbegin := get2byte data (hdr + 1) in
    let data := wr (wr data (hdr + 1) (rd data pbegin)) (hdr + 2) (rd data (pbegin + 1)) in
    let top := get2byte data (hdr + 5) + get2byte data (pbegin + 2) in
    put2byte data (hdr + 5) top
  else data.

(** [None] is a loop that takes more than [fuel] turns. *)
Definition freeSpace (fuel : nat) (P : MemPage) (start size : Z) : option (Z * MemPage) :=
  let data := aData P in
  let data := if negb (btsFlags pBt .& BTS_SECURE_DELETE =? 0) then splice data start (replicate (Z.to_nat size) 0) else data in
  let hdr := hdrOffset P in
  match free_place fuel data start (hdr + 1) with
  | None => None
  | Some (inr _) => Some (SQLITE_CORRUPT, set_data P data)
  | Some (inl (addr, pbegin)) =>
      if usableSize pBt - 4 <? pbegin then Some (SQLITE_CORRUPT, set_data P data)
      else
        let data := put2byte data addr start in
        let data := put2byte data start pbegin in
        let data := put2byte data (start + 2) size in
        let P := set_counts P (u16 (nFree P + u16 size)) (nCell P) in
        match coalesce fuel hdr data (hdr + 1) with
        | None => None
        | Some (rc, data) => if negb (rc =? 0) then Some (rc, set_data P data) else Some (SQLITE_OK, set_data P (drop_first hdr data))
        end
  end.

(** ** Whole pages *)

Definition decodeFlags (P : MemPage) (flagByte : Z) : Z * MemPage :=
  let lf := u8 (flagByte >> 3) in
  let flagByte := flagByte .& Z.lnot PTF_LEAF in
  let upd ik hd mx mn :=
    {| isInit := isInit P; apOvfl := apOvfl P; intKey := ik; leaf := lf; hasData := hd; hdrOffset := hdrOffset P; childPtrSize := u8 (4 - 4 * lf);
       maxLocal := mx; minLocal := mn; cellOffset := cellOffset P; nFree := nFree P; nCell := nCell P; aData := aData P; pgno := pgno P |} in
  if flagByte =? (PTF_LEAFDATA .| PTF_INTKEY) then (SQLITE_OK, upd true (negb (lf =? 0)) (bt_maxLeaf pBt) (bt_minLeaf pBt))
  else if flagByte =? PTF_ZERODATA then (SQLITE_OK, upd false false (bt_maxLocal pBt) (bt_minLocal pBt))
  else (SQLITE_CORRUPT, upd (intKey P) (hasData P) (maxLocal P) (minLocal P)).

Definition set_init (P : MemPage) (off nf nc : Z) (init : bool) : MemPage :=
  {| isInit := init; apOvfl := []; intKey := intKey P; leaf := leaf P; hasData := hasData P; hdrOffset := hdrOffset P; childPtrSize := childPtrSize P;
     maxLocal := maxLocal P; minLocal := minLocal P; cellOffset := off; nFree := nf; nCell := nc; aData := aData P; pgno := pgno P |}.

(** The sum over the free blocks from [pc] on; [inr tt] is a corrupt list. *)
Fixpoint free_sum (fuel : nat) (first : Z) (data : list Z) (pc nFree : Z) : option (Z + unit) :=
  match fuel with
  | O => None
  | S fuel =>
      if 0 <? pc then
        if (pc <? first) || (usableSize pBt - 4 <? pc) then Some (inr tt)
        else
          let next := get2byte data pc in
          let size := get2byte data (pc + 2) in
          if ((0 <? next) && (next <=? pc + size + 3)) || (usableSize pBt <? pc + size) then Some (inr tt)
          else free_sum fuel first data next (nFree + size)
      else Some (inl nFree)
  end.

Definition btreeInitPage (P : MemPage) : option (Z * MemPage) :=
  if isInit P then Some (SQLITE_OK, P)
  else
    let hdr := hdrOffset P in
    let data := aData P in
    let '(rc, P) := decodeFlags P (rd data hdr) in
    if negb (rc =? 0) then Some (SQLITE_CORRUPT, P)
    else
      let off := u16 (hdr + 12 - 4 * leaf P) in
      let top := get2byteNotZero data (hdr + 5) in
      let P := set_init P off (nFree P) (get2byte data (hdr + 3)) false in
      if MX_CELL pBt <? nCell P then Some (SQLITE_CORRUPT, P)
      else
        match free_sum (Z.to_nat (usableSize pBt)) (iCellFirst P) data (get2byte data (hdr + 1)) (rd data (hdr + 7) + top) with
        | None => None
        | Some (inr _) => Some (SQLITE_CORRUPT, P)
        | Some (inl n) => if usableSize pBt <? n then Some (SQLITE_CORRUPT, P) else Some (SQLITE_OK, set_init P off (u16 (n - iCellFirst P)) (nCell P) true)
        end.

Definition zeroPage (P : MemPage) (flags : Z) : MemPage :=
  let data := aData P in
  let hdr := hdrOffset P in
  let data := if negb (btsFlags pBt .& BTS_SECURE_DELETE =? 0) then splice data hdr (replicate (Z.to_nat (usableSize pBt - hdr)) 0) else data in
  let data := wr data hdr (u8 flags) in
  let first := u16 (hdr + (if flags .& PTF_LEAF =? 0 then 12 else 8)) in
  let data := splice data (hdr + 1) [0; 0; 0; 0] in
  let data := wr data (hdr + 7) 0 in
  let data := put2byte data (hdr + 5) (usableSize pBt) in
  let P := (decodeFlags (set_data P data) flags).2 in
  set_init P first (u16 (usableSize pBt - first)) 0 true.

(** [sz] is the size of the cell. The result code is zero when the function is called. *)
Definition dropCell (fuel : nat) (P : MemPage) (idx sz : Z) : option (Z * MemPage) :=
  let ptr := cellOffset P + 2 * idx in
  let pc := get2byte (aData P) ptr in
  let hdr := hdrOffset P in
  if (pc <? get2byte (aData P) (hdr + 5)) || (usableSize pBt <? pc + sz) then Some (SQLITE_CORRUPT, P)
  else
    match freeSpace fuel P pc sz with
    | None => None
    | Some (rc, P) =>
        if negb (rc =? 0) then Some (rc, P)
        else
          let nc := u16 (nCell P - 1) in
          let data := splice (aData P) ptr (slice (aData P) (ptr + 2) (2 * (nc - idx))) in
          let data := put2byte data (hdr + 3) nc in
          Some (SQLITE_OK, set_data (set_counts P (u16 (nFree P + 2)) nc) data)
    end.

(** The pointer map is code of the pager's client that is not part of the page: [ptrmapPut] is its operation, [PM] its state. *)
Context {PM : Type} (ptrmapPut : PM -> Z -> Z -> Z -> Z * PM).

Definition ptrmapPutOvflPtr (m : PM) (P : MemPage) (pCell : list Z) : Z * PM :=
  let info := btreeParseCellPtr P pCell in
  if negb (iOverflow info =? 0) then ptrmapPut m (sqlite3Get4byte (drop (Z.to_nat (iOverflow info)) pCell)) PTRMAP_OVERFLOW1 (pgno P) else (SQLITE_OK, m).

(** [wrc] is the result of sqlite3PagerWrite. The content [pCell] of a cell that does not fit is kept with the page. *)
Definition insertCell (m : PM) (P : MemPage) (temp : list Z) (wrc i : Z) (pCell : list Z) (sz iChild : Z) : option (Z * MemPage * PM) :=
  let nSkip := if iChild =? 0 then 0 else 4 in
  if negb (length (apOvfl P) =? 0)%nat || (nFree P <? sz + 2) then
    let c := if iChild =? 0 then pCell else sqlite3Put4byte pCell iChild in
    Some (SQLITE_OK, set_ovfl P (apOvfl P ++ [(u16 i, c)]), m)
  else if negb (wrc =? SQLITE_OK) then Some (wrc, P, m)
  else
    let stop := cellOffset P + 2 * nCell P in
    let ins := cellOffset P + 2 * i in
    match allocateSpace P temp sz with
    | None => None
    | Some (rc, P, idx) =>
        if negb (rc =? 0) then Some (rc, P, m)
        else
          let P := set_counts P (u16 (nFree P - u16 (2 + sz))) (u16 (nCell P + 1)) in
          let data := splice (aData P) (idx + nSkip) (slice pCell nSkip (sz - nSkip)) in
          let data := if iChild =? 0 then data else splice data idx (sqlite3Put4byte (replicate 4 0) iChild) in
          let data := splice data (ins + 2) (slice data ins (stop - ins)) in
          let data := put2byte data ins idx in
          let data := put2byte data (hdrOffset P + 3) (nCell P) in
          let P := set_data P data in
          if autoVacuum pBt then let '(rc, m) := ptrmapPutOvflPtr m P pCell in Some (rc, P, m) else Some (SQLITE_OK, P, m)
    end.

(** The loop of assemblePage from the last cell down; [cells] is the list in that order, [ptr] the address behind the pointer of its first cell. *)
Fixpoint assemble_loop (cells : list (list Z)) (ptr cellbody : Z) (data : list Z) : Z * list Z :=
  match cells with
  | [] => (cellbody, data)
  | c :: cells =>
      let ptr := ptr - 2 in
      let cellbody := cellbody - Z.of_nat (length c) in
      let data := put2byte data ptr cellbody in
      assemble_loop cells ptr cellbody (splice data cellbody c)
  end.

(** [apCell] has the bytes of the cells, of which aSize are the lengths. *)
Definition assemblePage (P : MemPage) (apCell : list (list Z)) : MemPage :=
  let n := Z.of_nat (length apCell) in
  let hdr := hdrOffset P in
  let '(cellbody, data) := assemble_loop (rev apCell) (cellOffset P + n * 2) (usableSize pBt) (aData P) in
  let data := put2byte data (hdr + 3) n in
  let data := put2byte data (hdr + 5) cellbody in
  set_data (set_counts P (u16 (nFree P - (n * 2 + usableSize pBt - cellbody))) (u16 n)) data.

(** The contents of the cells on the page, in the order of their pointers. *)
Definition page_cell (P : MemPage) (i : Z) : list Z :=
  let pc := get2byte (aData P) (cellOffset P + 2 * i) in
  slice (aData P) pc (cellSizePtr P (cell_at (aData P) pc)).
Definition page_cells (P : MemPage) : list (list Z) := map (fun i => page_cell P (Z.of_nat i)) (seq 0 (Z.to_nat (nCell P))).
End page.
