(* ===== verification/PageSpace.v ===== *)
(** The space on a page: allocateSpace and freeSpace keep the free blocks and the allocated parts of the content area apart, and lose no byte. *)
From S2P Require Import Prelude Varint Page.
Local Open Scope Z_scope.
Local Open Scope c_scope.

(** * Two-byte integers *)

Abbreviation len d := (Z.of_nat (length d)).

Lemma get2byte_eq d i : bytes d -> get2byte d i = 256 * rd d i + rd d (i + 1).
Proof. intros Hd. unfold get2byte. rewrite shl_lor by (lia || by apply rd_byte). change (2 ^ 8) with 256. lia. Qed.
Lemma get2byte_range d i : bytes d -> 0 <= get2byte d i < 65536.
Proof. intros Hd. rewrite get2byte_eq by done. pose proof (rd_byte d i Hd). pose proof (rd_byte d (i + 1) Hd). unfold is_u in *. lia. Qed.
Lemma length_put2 d i v : length (put2byte d i v) = length d.
Proof. unfold put2byte. by rewrite !length_wr. Qed.
Lemma bytes_put2 d i v : bytes d -> bytes (put2byte d i v).
Proof. intros Hd. unfold put2byte. apply bytes_wr; [apply bytes_wr; [done|]|]; apply uwrap_range; lia. Qed.
Lemma rd_put2_ne d i v j : 0 <= i -> 0 <= j -> j < i \/ i + 2 <= j -> rd (put2byte d i v) j = rd d j.
Proof. intros. unfold put2byte. by rewrite !rd_wr_ne by lia. Qed.
Lemma get2_ext d d' i : rd d' i = rd d i -> rd d' (i + 1) = rd d (i + 1) -> get2byte d' i = get2byte d i.
Proof. unfold get2byte. by intros -> ->. Qed.
Lemma get2_shift d d' i j : rd d' i = rd d j -> rd d' (i + 1) = rd d (j + 1) -> get2byte d' i = get2byte d j.
Proof. unfold get2byte. by intros -> ->. Qed.
Lemma get2_put2_mod d i v : bytes d -> 0 <= i -> i + 1 < len d -> get2byte (put2byte d i v) i = v mod 65536.
Proof.
  intros Hd Hi Hl. rewrite get2byte_eq by by apply bytes_put2. unfold put2byte. rewrite rd_wr_ne, rd_wr_eq by (rewrite ?length_wr; lia). rewrite rd_wr_eq by (rewrite length_wr; lia).
  unfold uwrap. rewrite Z.shiftr_div_pow2 by lia. change (2 ^ 8) with 256. change 65536 with (256 * 256). rewrite Z.rem_mul_r by lia. lia.
Qed.
Lemma get2_put2 d i v : bytes d -> 0 <= i -> i + 1 < len d -> 0 <= v < 65536 -> get2byte (put2byte d i v) i = v.
Proof. intros. rewrite get2_put2_mod by done. by apply Z.mod_small. Qed.
Lemma get2_put2_ne d i v j : 0 <= i -> 0 <= j -> j + 2 <= i \/ i + 2 <= j -> get2byte (put2byte d i v) j = get2byte d j.
Proof. intros. apply get2_ext; apply rd_put2_ne; lia. Qed.
Lemma get2_wr_ne d i x j : 0 <= i -> 0 <= j -> j + 2 <= i \/ i + 1 <= j -> get2byte (wr d i x) j = get2byte d j.
Proof. intros. apply get2_ext; apply rd_wr_ne; lia. Qed.
Lemma notZero_eq d i : bytes d -> get2byteNotZero d i = if get2byte d i =? 0 then 65536 else get2byte d i.
Proof.
  intros Hd. pose proof (get2byte_range d i Hd). unfold get2byteNotZero. change 0xffff with (Z.ones 16). rewrite land_mask by lia. destruct (Z.eqb_spec (get2byte d i) 0) as [->|]; [done|]. change (2 ^ 16) with 65536. rewrite Z.mod_small; lia.
Qed.
Lemma notZero_put2 d i v : bytes d -> 0 <= i -> i + 1 < len d -> 1 <= v <= 65536 -> get2byteNotZero (put2byte d i v) i = v.
Proof.
  intros Hd Hi Hl Hv. rewrite notZero_eq by by apply bytes_put2. rewrite get2_put2_mod by done. destruct (decide (v = 65536)) as [->|]; [done|]. rewrite Z.mod_small by lia. destruct (Z.eqb_spec v 0); lia.
Qed.
Lemma notZero_ext d d' i : rd d' i = rd d i -> rd d' (i + 1) = rd d (i + 1) -> get2byteNotZero d' i = get2byteNotZero d i.
Proof. intros H1 H2. unfold get2byteNotZero. by rewrite (get2_ext d d' i). Qed.
Lemma notZero_range d i : bytes d -> 1 <= get2byteNotZero d i <= 65536.
Proof. intros Hd. rewrite notZero_eq by done. pose proof (get2byte_range d i Hd). destruct (Z.eqb_spec (get2byte d i) 0); lia. Qed.
(** memcpy of a link. *)
Lemma copy2 d a b : bytes d -> 0 <= a -> a + 1 < len d -> wr (wr d a (rd d b)) (a + 1) (rd d (b + 1)) = put2byte d a (get2byte d b).
Proof.
  intros Hd Ha Hl. unfold put2byte. pose proof (rd_byte d b Hd) as H1. pose proof (rd_byte d (b + 1) Hd) as H2. unfold is_u in *. change (2 ^ 8) with 256 in *. rewrite get2byte_eq by done. f_equal; [f_equal|].
  - unfold uwrap. rewrite Z.shiftr_div_pow2 by lia. change (2 ^ 8) with 256. symmetry. rewrite Z.mul_comm, Z.div_add_l, (Z.div_small (rd d (b + 1))), Z.mod_small by lia. lia.
  - unfold uwrap. change (2 ^ 8) with 256. symmetry. replace (256 * rd d b + rd d (b + 1)) with (rd d (b + 1) + rd d b * 256) by lia. rewrite Z.mod_add by lia. apply Z.mod_small. lia.
Qed.

(** * Disjoint spans *)

Abbreviation span := (Z * Z)%type.
Definition apart (x y : span) : Prop := x.1 + x.2 <= y.1 \/ y.1 + y.2 <= x.1.
Fixpoint disj (l : list span) : Prop := match l with [] => True | x :: l => Forall (apart x) l /\ disj l end.
Fixpoint total (l : list span) : Z := match l with [] => 0 | x :: l => x.2 + total l end.
Definition inside (a b : Z) (x : span) : Prop := a <= x.1 /\ 4 <= x.2 /\ x.1 + x.2 <= b.

Lemma apart_sym x y : apart x y -> apart y x.
Proof. unfold apart. lia. Qed.
#[export] Instance disj_perm : Proper (Permutation ==> iff) disj.
Proof.
  assert (forall l l', Permutation l l' -> disj l -> disj l') as H; [|by intros l l' Hp; split; apply H].
  induction 1 as [|x l l' Hp IH|x y l|l l' l'' _ IH1 _ IH2]; cbn [disj]; [done| | |tauto].
  - intros [H1 H2]. split; [by rewrite <- Hp|by apply IH].
  - intros [H1 [H2 H3]]. inversion H1 as [|? ? H4 H5]; subst. split; [constructor; [by apply apart_sym|done]|]. done.
Qed.
#[export] Instance total_perm : Proper (Permutation ==> eq) total.
Proof. induction 1; cbn [total]; lia. Qed.
Lemma total_app l l' : total (l ++ l') = total l + total l'.
Proof. induction l; cbn [total app]; lia. Qed.
Lemma disj_app l l' : disj (l ++ l') <-> disj l /\ disj l' /\ forall x y, x ∈ l -> y ∈ l' -> apart x y.
Proof.
  induction l as [|x l IH]; cbn [disj app]; [split; [intros H; split_and!; [done|done|]; by intros x y Hx%not_elem_of_nil|tauto]|]. rewrite Forall_app, IH, !Forall_forall. split.
  - intros [[H1 H2] (H3 & H4 & H5)]. split_and!; [done|done|done|]. intros z y [->|Hz]%elem_of_cons Hy; [by apply H2|by apply H5].
  - intros [[H1 H2] (H3 & H4)]. split_and!; [done| |done|done|]; [intros y Hy; apply H4; [left|done]|]. intros z y Hz Hy. apply H4; [by right|done].
Qed.
(** Disjoint spans in a range are not longer than the range. *)
Lemma disj_total l : forall a b, a <= b -> disj l -> Forall (fun x => a <= x.1 /\ 0 <= x.2 /\ x.1 + x.2 <= b) l -> total l <= b - a.
Proof.
  induction l as [l IH] using (induction_ltof1 _ (@length span)). unfold ltof in IH. intros a b Hab. destruct l as [|x l]; cbn [disj total]; [lia|]. intros [Hx Hd] Hin. inversion Hin as [|? ? Hx' Hl]; subst.
  set (P := fun y : span => y.1 + y.2 <= x.1). assert (total l = total (filter P l) + total (filter (fun y => ~ P y) l)) as ->.
  { rewrite <- total_app. apply total_perm. symmetry. apply filter_app_complement. }
  assert (disj (filter P l) /\ disj (filter (fun y => ~ P y) l)) as [D1 D2].
  { assert (disj (filter P l ++ filter (fun y => ~ P y) l)) as D by (by rewrite filter_app_complement). apply disj_app in D. tauto. }
  assert (total (filter P l) <= x.1 - a); [|assert (total (filter (fun y => ~ P y) l) <= b - (x.1 + x.2)); [|lia]].
  - apply IH; [cbn [length]; pose proof (length_filter P l); lia|lia|done|]. apply Forall_forall. intros y [Py Hy]%list_elem_of_filter. pose proof (proj1 (Forall_forall _ _) Hl y Hy). unfold P in Py. cbn in *. lia.
  - apply IH; [cbn [length]; pose proof (length_filter (fun y => ~ P y) l); lia|lia|done|]. apply Forall_forall. intros y [Py Hy]%list_elem_of_filter. pose proof (proj1 (Forall_forall _ _) Hl y Hy) as H1.
    pose proof (proj1 (Forall_forall _ _) Hx y Hy) as H2. unfold P, apart in *. cbn in *. lia.
Qed.
Lemma inside_total l a b : a <= b -> disj l -> Forall (inside a b) l -> total l <= b - a.
Proof. intros Hab Hd Hl. apply disj_total; [done|done|]. eapply Forall_impl; [done|]. unfold inside. intros x ?. lia. Qed.

(** * The list of free blocks *)

(** The blocks [fs] are linked from the two bytes at [a] on; the last link is [z]. *)
Fixpoint chain (d : list Z) (a : Z) (fs : list span) (z : Z) : Prop :=
  match fs with
  | [] => get2byte d a = z
  | x :: fs => get2byte d a = x.1 /\ get2byte d (x.1 + 2) = x.2 /\ chain d x.1 fs z
  end.
(** The blocks are in ascending order from [lo] on, at least [g] bytes apart. *)
Fixpoint asc (g lo : Z) (fs : list span) : Prop :=
  match fs with [] => True | x :: fs => lo <= x.1 /\ 4 <= x.2 /\ asc g (x.1 + x.2 + g) fs end.
(** Where the last link is, and where a next block can be. *)
Fixpoint last_link (a : Z) (fs : list span) : Z := match fs with [] => a | x :: fs => last_link x.1 fs end.
Fixpoint asc_end (g lo : Z) (fs : list span) : Z := match fs with [] => lo | x :: fs => asc_end g (x.1 + x.2 + g) fs end.

Lemma chain_cat d a fs1 fs2 z : chain d a (fs1 ++ fs2) z <-> chain d a fs1 (get2byte d (last_link a fs1)) /\ chain d (last_link a fs1) fs2 z.
Proof. revert a. induction fs1 as [|x fs1 IH]; intros a; cbn [chain app last_link]; [tauto|]. rewrite IH. tauto. Qed.
Lemma chain_ext d d' a a' fs z : chain d a fs z -> get2byte d' a' = get2byte d a ->
  (forall x, x ∈ fs -> get2byte d' x.1 = get2byte d x.1 /\ get2byte d' (x.1 + 2) = get2byte d (x.1 + 2)) -> chain d' a' fs z.
Proof.
  revert a a'. induction fs as [|x fs IH]; intros a a'; cbn [chain]; [by intros ? ->|]. intros (H1 & H2 & H3) E Hx. destruct (Hx x ltac:(left)) as [E1 E2]. split_and!; [congruence|congruence|].
  apply (IH x.1); [done|done|]. intros y Hy. apply Hx. by right.
Qed.
Lemma asc_weaken g g' lo lo' fs : g' <= g -> lo' <= lo -> asc g lo fs -> asc g' lo' fs.
Proof. intros Hg. revert lo lo'. induction fs as [|x fs IH]; intros lo lo' Hlo; cbn [asc]; [done|]. intros (H1 & H2 & H3). split_and!; [lia|lia|]. apply (IH (x.1 + x.2 + g)); [lia|done]. Qed.
Lemma asc_cat g lo fs1 fs2 : asc g lo (fs1 ++ fs2) <-> asc g lo fs1 /\ asc g (asc_end g lo fs1) fs2.
Proof. revert lo. induction fs1 as [|x fs1 IH]; intros lo; cbn [asc app asc_end]; [tauto|]. rewrite IH. tauto. Qed.
Lemma asc_ge g lo fs x : 0 <= g -> asc g lo fs -> x ∈ fs -> lo <= x.1 /\ x.1 + x.2 + g <= asc_end g lo fs.
Proof.
  intros Hg. revert lo. induction fs as [|y fs IH]; intros lo; cbn [asc asc_end]; [by intros _ ?%not_elem_of_nil|]. intros (H1 & H2 & H3) [->|Hx]%elem_of_cons.
  - split; [done|]. clear -H3 Hg. revert H3. generalize (y.1 + y.2 + g). induction fs as [|z fs IH]; intros lo; cbn [asc asc_end]; [lia|]. intros (H1 & H2 & H3). specialize (IH _ H3). lia.
  - destruct (IH _ H3 Hx). lia.
Qed.
Lemma asc_end_ge g lo fs : 0 <= g -> asc g lo fs -> lo <= asc_end g lo fs.
Proof. intros Hg. revert lo. induction fs as [|x fs IH]; intros lo; cbn [asc asc_end]; [lia|]. intros (H1 & H2 & H3). specialize (IH _ H3). lia. Qed.
Lemma last_link_cases a fs : (fs = [] /\ last_link a fs = a) \/ exists x, x ∈ fs /\ last_link a fs = x.1.
Proof.
  destruct fs as [|x fs]; [by left|]. right. cbn [last_link]. revert x. induction fs as [|y fs IH]; intros x; [exists x; split; [left|done]|]. cbn [last_link]. destruct (IH y) as (z & Hz & E). exists z. split; [by right|done].
Qed.
Lemma last_link_bounds g a lo fs : 0 <= g -> a + 2 <= lo -> asc g lo fs -> a <= last_link a fs /\ last_link a fs + 2 <= asc_end g lo fs /\ (a + 4 <= lo -> last_link a fs + 4 <= asc_end g lo fs).
Proof.
  intros Hg Ha Hs. pose proof (asc_end_ge g lo fs Hg Hs). destruct (last_link_cases a fs) as [[-> ->]|(x & Hx & ->)]; [cbn [asc_end] in *; lia|]. pose proof (asc_ge g lo fs x Hg Hs Hx).
  assert (4 <= x.2); [|lia]. clear -Hs Hx. revert lo Hs. induction fs as [|y fs IH]; intros lo; cbn [asc]; [by apply not_elem_of_nil in Hx|]. intros (H1 & H2 & H3). apply elem_of_cons in Hx as [->|Hx]; [done|]. by apply (IH Hx _ H3).
Qed.
Lemma asc_size g lo fs x : asc g lo fs -> x ∈ fs -> 4 <= x.2.
Proof. revert lo. induction fs as [|y fs IH]; intros lo; cbn [asc]; [by intros _ ?%not_elem_of_nil|]. intros (H1 & H2 & H3) [->|Hx]%elem_of_cons; [done|by apply (IH _ H3)]. Qed.

(** The last link is changed. *)
Lemma chain_set d a lo fs z z' : chain d a fs z -> bytes d -> 0 <= a -> a + 2 <= lo -> asc 0 lo fs -> asc_end 0 lo fs <= len d -> 0 <= z' < 65536 -> chain (put2byte d (last_link a fs) z') a fs z'.
Proof.
  intros Hc Hd Ha Halo Hs Hl Hz. revert a lo Ha Halo Hc Hs Hl. induction fs as [|x fs IH]; intros a lo Ha Halo; cbn [chain asc last_link asc_end]; [intros; by apply get2_put2; [done|done|lia|]|].
  intros (H1 & H2 & H3) (S1 & S2 & S3) Hl. specialize (IH x.1 (x.1 + x.2 + 0) ltac:(lia) ltac:(lia) H3 S3 Hl). pose proof (last_link_bounds 0 x.1 (x.1 + x.2 + 0) fs ltac:(lia) ltac:(lia) S3) as (B1 & B2 & B3).
  split_and!; [rewrite get2_put2_ne by lia; done| |done]. destruct (last_link_cases x.1 fs) as [[-> E]|(y & Hy & E)].
  - cbn [last_link]. by rewrite get2_put2_ne by lia.
  - rewrite E. pose proof (asc_ge 0 _ fs y ltac:(lia) S3 Hy). by rewrite get2_put2_ne by lia.
Qed.
(** A block is taken out of the list. *)
Lemma chain_remove d a lo pre x l z : chain d a (pre ++ x :: l) z -> bytes d -> 0 <= a -> a + 2 <= lo -> asc 0 lo (pre ++ x :: l) -> asc_end 0 lo (pre ++ x :: l) <= len d ->
  chain (put2byte d (last_link a pre) (get2byte d x.1)) a (pre ++ l) z.
Proof.
  intros Hc Hd Ha Halo Hs Hl. apply chain_cat in Hc as [C1 (C2 & C3 & C4)]. pose proof Hs as Hs'. apply asc_cat in Hs' as [S1 (S2 & S3 & S4)].
  pose proof (last_link_bounds 0 a lo pre ltac:(lia) Halo S1) as (B1 & B2 & _). pose proof (asc_end_ge 0 lo _ ltac:(lia) S1).
  assert (x.1 + x.2 + 0 <= asc_end 0 lo (pre ++ x :: l)) as He by (apply (asc_ge 0 lo (pre ++ x :: l) x); [lia|done|]; apply elem_of_app; right; left).
  pose proof (get2byte_range d x.1 Hd). assert (get2byte (put2byte d (last_link a pre) (get2byte d x.1)) (last_link a pre) = get2byte d x.1) as E by (apply get2_put2; [done|lia|lia|lia]).
  apply chain_cat. split.
  - rewrite E. apply (chain_set d a lo pre (get2byte d (last_link a pre))); try done. lia.
  - apply (chain_ext d _ x.1); [done|done|]. intros y Hy. pose proof (asc_ge 0 _ l y ltac:(lia) S4 Hy). by rewrite !get2_put2_ne by lia.
Qed.
(** A block with its link in place is put into the list. *)
Lemma chain_insert d a lo pre x l z : chain d a (pre ++ l) z -> bytes d -> 0 <= a -> a + 2 <= lo -> asc 0 lo (pre ++ x :: l) -> asc_end 0 lo (pre ++ x :: l) <= len d -> len d <= 65536 ->
  chain (put2byte (put2byte (put2byte d (last_link a pre) x.1) x.1 (get2byte d (last_link a pre))) (x.1 + 2) x.2) a (pre ++ x :: l) z.
Proof.
  intros Hc Hd Ha Halo Hs Hl Hmax. apply chain_cat in Hc as [C1 C2]. pose proof Hs as Hs'. apply asc_cat in Hs' as [S1 (S2 & S3 & S4)].
  pose proof (last_link_bounds 0 a lo pre ltac:(lia) Halo S1) as (B1 & B2 & _). pose proof (asc_end_ge 0 lo _ ltac:(lia) S1).
  assert (x.1 + x.2 + 0 <= asc_end 0 lo (pre ++ x :: l)) as He by (apply (asc_ge 0 lo (pre ++ x :: l) x); [lia|done|]; apply elem_of_app; right; left).
  pose proof (get2byte_range d (last_link a pre) Hd). set (z0 := get2byte d (last_link a pre)) in *. set (d1 := put2byte d (last_link a pre) x.1).
  assert (bytes d1) as Hd1 by by apply bytes_put2. assert (len d1 = len d) as Hl1 by (unfold d1; by rewrite length_put2).
  set (d2 := put2byte d1 x.1 z0). assert (bytes d2) as Hd2 by by apply bytes_put2. assert (len d2 = len d) as Hl2 by (unfold d2; by rewrite length_put2).
  assert (chain d1 a pre x.1) as C1' by (apply (chain_set d a lo pre z0); try done; lia).
  apply chain_cat. split; [|cbn [chain]; split_and!].
  - rewrite !get2_put2_ne by lia. unfold d2. rewrite !get2_put2_ne by lia. unfold d1 at 2. rewrite get2_put2 by (done || lia). apply (chain_ext d1 _ a); [done| |].
    + rewrite !get2_put2_ne by lia. done.
    + intros y Hy. pose proof (asc_ge 0 _ pre y ltac:(lia) S1 Hy). pose proof (asc_size 0 _ pre y S1 Hy). by rewrite !get2_put2_ne by lia.
  - rewrite !get2_put2_ne by lia. unfold d2. rewrite !get2_put2_ne by lia. unfold d1. by rewrite get2_put2 by (done || lia).
  - apply get2_put2; [done|lia|lia|lia].
  - apply (chain_ext d _ (last_link a pre)); [done| |].
    + rewrite get2_put2_ne by lia. unfold d2. rewrite get2_put2 by (done || lia). done.
    + intros y Hy. pose proof (asc_ge 0 _ l y ltac:(lia) S4 Hy). unfold d2, d1. by rewrite !get2_put2_ne by lia.
Qed.

(** * Space on a page *)

Section space.
Context (pBt : BtShared).
Local Abbreviation us := (usableSize pBt).

Definition sizes_ok : Prop := 512 <= pageSize pBt <= 65536 /\ 480 <= us <= pageSize pBt.

(** In the content area from [top] on, the spans [ss] are in use and [fs] are the free blocks; the other bytes are counted as fragments. *)
Record space (d : list Z) (hdr top : Z) (ss fs : list span) : Prop := {
  sp_bytes : bytes d;
  sp_len : len d = pageSize pBt;
  sp_top : get2byteNotZero d (hdr + 5) = top;
  sp_lo : 0 <= hdr /\ hdr + 8 <= top <= us;
  sp_chain : chain d (hdr + 1) fs 0;
  sp_asc : asc 0 top fs;
  sp_in : Forall (inside top us) (ss ++ fs);
  sp_disj : disj (ss ++ fs);
  sp_frag : rd d (hdr + 7) = us - top - total (ss ++ fs) }.

(** What the operations on space leave alone: the bytes below [a] but for the fields in the header that describe the space, and the spans in use. *)
Definition kept (hdr a : Z) (ss : list span) (j : Z) : Prop :=
  0 <= j /\ ((j < a /\ ~ (hdr + 1 <= j < hdr + 3) /\ ~ (hdr + 5 <= j < hdr + 8)) \/ exists x, x ∈ ss /\ x.1 <= j < x.1 + x.2).
Definition frame (hdr a : Z) (ss : list span) (d d' : list Z) : Prop := length d' = length d /\ forall j, kept hdr a ss j -> rd d' j = rd d j.

Lemma frame_refl hdr a ss d : frame hdr a ss d d.
Proof. done. Qed.
Lemma pframe_trans hdr a ss d d' d'' : frame hdr a ss d d' -> frame hdr a ss d' d'' -> frame hdr a ss d d''.
Proof. intros [H1 H2] [H3 H4]. split; [congruence|]. intros j Hj. rewrite H4, H2 by done. done. Qed.
Definition loose (hdr a : Z) (ss : list span) (i n : Z) : Prop := forall j, i <= j < i + n -> ~ kept hdr a ss j.
Lemma frame_put2 hdr a ss d i v : 0 <= i -> loose hdr a ss i 2 -> frame hdr a ss d (put2byte d i v).
Proof.
  intros Hi Hlo. split; [apply length_put2|]. intros j Hj. destruct (decide (i <= j < i + 2)) as [Hin|Hout]; [by destruct (Hlo j Hin)|]. destruct Hj as [Hj _]. apply rd_put2_ne; lia.
Qed.
Lemma frame_wr hdr a ss d i v : 0 <= i -> loose hdr a ss i 1 -> frame hdr a ss d (wr d i v).
Proof.
  intros Hi Hlo. split; [apply length_wr|]. intros j Hj. destruct (decide (i = j)) as [->|Hne]; [by destruct (Hlo j ltac:(lia))|]. destruct Hj as [Hj _]. apply rd_wr_ne; lia.
Qed.
Lemma frame_splice hdr a ss d i c : 0 <= i -> i + len c <= len d -> loose hdr a ss i (len c) -> frame hdr a ss d (splice d i c).
Proof.
  intros Hi Hl Hlo. split; [by apply length_splice|]. intros j Hj. destruct (decide (i <= j < i + len c)) as [Hin|Hout]; [by destruct (Hlo j Hin)|]. destruct Hj as [Hj _]. apply rd_splice_out; lia.
Qed.
Lemma loose_span hdr a ss x i n : Forall (apart x) ss -> a <= x.1 -> x.1 <= i -> i + n <= x.1 + x.2 -> loose hdr a ss i n.
Proof. intros Hx Ha H1 H2 j Hj [_ [[Hk _]|(y & Hy & Hk)]]; [lia|]. pose proof (proj1 (Forall_forall _ _) Hx y Hy) as Hap. unfold apart in Hap. cbn in Hap. lia. Qed.
Lemma loose_hdr hdr a ss top b i n : Forall (inside top b) ss -> hdr + 8 <= top -> (hdr + 1 <= i /\ i + n <= hdr + 3) \/ (hdr + 5 <= i /\ i + n <= hdr + 8) -> loose hdr a ss i n.
Proof. intros Hss Ht Hin j Hj [_ [[_ Hk]|(y & Hy & Hk)]]; [lia|]. pose proof (proj1 (Forall_forall _ _) Hss y Hy) as Hap. unfold inside in Hap. cbn in Hap. lia. Qed.

(** ** Consequences *)

Lemma space_free d hdr top ss fs x : space d hdr top ss fs -> x ∈ fs -> inside top us x /\ Forall (apart x) ss.
Proof.
  intros Hsp Hx. split; [apply (proj1 (Forall_forall _ _) (sp_in _ _ _ _ _ Hsp)); apply elem_of_app; by right|]. apply Forall_forall. intros y Hy. apply apart_sym.
  destruct (proj1 (disj_app _ _) (sp_disj _ _ _ _ _ Hsp)) as (_ & _ & H). by apply H.
Qed.
Lemma space_used d hdr top ss fs : space d hdr top ss fs -> Forall (inside top us) ss.
Proof. intros Hsp. pose proof (sp_in _ _ _ _ _ Hsp) as H. by apply Forall_app in H as [H _]. Qed.
Lemma space_end d hdr top ss fs : sizes_ok -> space d hdr top ss fs -> asc_end 0 top fs <= us.
Proof.
  intros _ Hsp. pose proof (sp_asc _ _ _ _ _ Hsp) as Hs. pose proof (sp_lo _ _ _ _ _ Hsp). destruct fs as [|x fs _] using rev_ind; [cbn; lia|].
  assert (asc_end 0 top (fs ++ [x]) = x.1 + x.2 + 0) as ->. { clear. generalize top. induction fs as [|y fs IH]; intros t; cbn [asc_end app]; [done|apply IH]. }
  destruct (space_free _ _ _ _ _ x Hsp ltac:(apply elem_of_app; right; left)) as [Hi _]. unfold inside in Hi. lia.
Qed.
Lemma link_loose d hdr top ss pre l a : space d hdr top ss (pre ++ l) -> a <= top -> loose hdr a ss (last_link (hdr + 1) pre) 2.
Proof.
  intros Hsp Ha. pose proof (sp_lo _ _ _ _ _ Hsp). destruct (last_link_cases (hdr + 1) pre) as [[_ ->]|(x & Hx & ->)].
  - eapply loose_hdr; [by eapply space_used|lia|]. left. lia.
  - destruct (space_free _ _ _ _ _ x Hsp) as [Hi Hap]; [apply elem_of_app; by left|]. unfold inside in Hi. eapply loose_span; [done|lia|lia|lia].
Qed.

(** ** Allocation from a free block *)

Definition within (y x : span) : Prop := x.1 <= y.1 /\ y.1 + y.2 <= x.1 + x.2.
Lemma within_apart y x z : within y x -> apart x z -> apart y z.
Proof. unfold within, apart. lia. Qed.
Lemma disj_within y x l : within y x -> disj (x :: l) -> disj (y :: l).
Proof. intros Hy [H1 H2]. split; [|done]. eapply Forall_impl; [done|]. intros z. by apply within_apart. Qed.
Lemma asc_remove g lo pre x l : 0 <= g -> asc g lo (pre ++ x :: l) -> asc g lo (pre ++ l).
Proof. intros Hg [H1 (H2 & H3 & H4)]%asc_cat. apply asc_cat. split; [done|]. eapply asc_weaken; [| |done]; lia. Qed.
Lemma used_perm (ss pre l : list span) x : ss ++ pre ++ x :: l ≡ₚ x :: ss ++ pre ++ l.
Proof. rewrite !app_assoc. symmetry. apply Permutation_middle. Qed.

Context (Hsz : sizes_ok).

Lemma slot_remove d hdr top ss pre x l a n : space d hdr top ss (pre ++ x :: l) -> a <= top -> 4 <= n <= x.2 -> x.2 - n < 4 -> rd d (hdr + 7) < 60 ->
  let d' := wr (put2byte d (last_link (hdr + 1) pre) (get2byte d x.1)) (hdr + 7) (u8 (rd d (hdr + 7) + (x.2 - n))) in
  space d' hdr top ((x.1 + (x.2 - n), n) :: ss) (pre ++ l) /\ frame hdr a ss d d'.
Proof.
  intros Hsp Ha Hn Hx Hf d'. destruct Hsz as [Hps Hus]. pose proof (link_loose _ _ _ _ _ _ _ Hsp Ha) as Hll. destruct (space_free _ _ _ _ _ x Hsp) as [Hi Hap]; [apply elem_of_app; right; left|].
  pose proof (space_used _ _ _ _ _ Hsp) as Hused. pose proof (space_end _ _ _ _ _ Hsz Hsp) as Hend. destruct Hsp as [H1 H2 H3 H4 H5 H6 H7 H8 H9].
  pose proof H6 as [S1 (S2 & S3 & S4)]%asc_cat. pose proof (last_link_bounds 0 (hdr + 1) top pre ltac:(lia) ltac:(lia) S1) as (B1 & B2 & _). pose proof (asc_end_ge 0 top pre ltac:(lia) S1).
  pose proof (rd_byte d (hdr + 7) H1) as Hb. unfold is_u in Hb. unfold inside in Hi.
  assert (u8 (rd d (hdr + 7) + (x.2 - n)) = rd d (hdr + 7) + (x.2 - n)) as Eu by (apply uwrap_small; unfold is_u; lia).
  assert (forall i, hdr + 8 <= i -> get2byte d' i = get2byte (put2byte d (last_link (hdr + 1) pre) (get2byte d x.1)) i) as Hg by (intros i Hi'; unfold d'; apply get2_wr_ne; lia).
  assert (chain (put2byte d (last_link (hdr + 1) pre) (get2byte d x.1)) (hdr + 1) (pre ++ l) 0) as Hc by (apply (chain_remove d (hdr + 1) top pre x l); try done; lia).
  assert (asc 0 top (pre ++ l)) as Hasc by (apply (asc_remove 0 top pre x l); [lia|done]).
  split; [constructor|].
  - apply bytes_wr; [by apply bytes_put2|]. apply uwrap_range. lia.
  - unfold d'. by rewrite length_wr, length_put2.
  - rewrite <- H3. unfold d'. apply notZero_ext; rewrite rd_wr_ne by lia; destruct (last_link_cases (hdr + 1) pre) as [[_ ->]|(y & Hy & ->)]; try (rewrite rd_put2_ne by lia; done);
      pose proof (asc_ge 0 top pre y ltac:(lia) S1 Hy); rewrite rd_put2_ne by lia; done.
  - done.
  - apply (chain_ext (put2byte d (last_link (hdr + 1) pre) (get2byte d x.1)) _ (hdr + 1)); [done|unfold d'; apply get2_wr_ne; lia|]. intros y Hy. pose proof (asc_ge 0 top _ y ltac:(lia) Hasc Hy). split; apply Hg; lia.
  - done.
  - rewrite used_perm in H7. inversion H7 as [|? ? _ H7']; subst. constructor; [|done]. unfold inside. cbn. lia.
  - rewrite used_perm in H8. cbn [app]. eapply disj_within; [|done]. unfold within. cbn. lia.
  - rewrite used_perm in H9. cbn [app total] in *. cbn [snd]. unfold d'. rewrite rd_wr_eq by (rewrite length_put2; lia). rewrite Eu. lia.
  - apply (pframe_trans _ _ _ _ (put2byte d (last_link (hdr + 1) pre) (get2byte d x.1))); [apply frame_put2; [lia|done]|]. apply frame_wr; [lia|]. eapply loose_hdr; [done|lia|]. right. lia.
Qed.

Lemma slot_shrink d hdr top ss pre x l a n : space d hdr top ss (pre ++ x :: l) -> a <= top -> 4 <= n -> 4 <= x.2 - n ->
  let d' := put2byte d (x.1 + 2) (x.2 - n) in
  space d' hdr top ((x.1 + (x.2 - n), n) :: ss) (pre ++ (x.1, x.2 - n) :: l) /\ frame hdr a ss d d'.
Proof.
  intros Hsp Ha Hn Hx d'. destruct Hsz as [Hps Hus]. destruct (space_free _ _ _ _ _ x Hsp) as [Hi Hap]; [apply elem_of_app; right; left|].
  pose proof (space_end _ _ _ _ _ Hsz Hsp) as Hend. destruct Hsp as [H1 H2 H3 H4 H5 H6 H7 H8 H9].
  pose proof H6 as [S1 (S2 & S3 & S4)]%asc_cat. pose proof (last_link_bounds 0 (hdr + 1) top pre ltac:(lia) ltac:(lia) S1) as (B1 & B2 & _). pose proof (asc_end_ge 0 top pre ltac:(lia) S1). unfold inside in Hi.
  apply chain_cat in H5 as [C1 (C2 & C3 & C4)].
  split; [constructor|].
  - by apply bytes_put2.
  - unfold d'. by rewrite length_put2.
  - rewrite <- H3. unfold d'. apply notZero_ext; apply rd_put2_ne; lia.
  - done.
  - apply chain_cat. cbn [chain fst snd]. unfold d'. split_and!.
    + apply (chain_ext d _ (hdr + 1)); [|apply get2_put2_ne; lia|].
      * by rewrite get2_put2_ne by lia.
      * intros y Hy. pose proof (asc_ge 0 top pre y ltac:(lia) S1 Hy). pose proof (asc_size 0 top pre y S1 Hy). split; apply get2_put2_ne; lia.
    + by rewrite get2_put2_ne by lia.
    + apply get2_put2; [done|lia|lia|lia].
    + apply (chain_ext d _ x.1); [done|apply get2_put2_ne; lia|]. intros y Hy. pose proof (asc_ge 0 _ l y ltac:(lia) S4 Hy). split; apply get2_put2_ne; lia.
  - apply asc_cat. cbn [asc fst snd]. split_and!; [done|lia|lia|]. eapply asc_weaken; [| |done]; lia.
  - rewrite used_perm in H7. inversion H7 as [|? ? _ H7']; subst. cbn [app]. rewrite used_perm. constructor; [unfold inside; cbn; lia|]. constructor; [unfold inside; cbn; lia|done].
  - rewrite used_perm in H8. cbn [app]. rewrite used_perm. destruct H8 as [D1 D2]. cbn [disj]. split_and!; [|eapply Forall_impl; [done|]; intros z; apply within_apart; unfold within; cbn; lia|done].
    constructor; [unfold apart; cbn; lia|]. eapply Forall_impl; [done|]; intros z; apply within_apart; unfold within; cbn; lia.
  - rewrite used_perm in H9. cbn [app]. cbn [total snd]. rewrite used_perm. cbn [total snd]. cbn [total] in H9. unfold d'. rewrite rd_put2_ne by lia. lia.
  - apply frame_put2; [lia|]. eapply loose_span; [done|lia|lia|lia].
Qed.

Lemma find_slot_ok d hdr top ss a n : a <= top -> 4 <= n -> rd d (hdr + 7) < 60 -> forall l pre fuel, (length l < fuel)%nat -> space d hdr top ss (pre ++ l) -> asc 4 top (pre ++ l) ->
  find_slot pBt fuel hdr (rd d (hdr + 7)) n d (last_link (hdr + 1) pre) = Some NoSlot \/
  exists d' idx fs, find_slot pBt fuel hdr (rd d (hdr + 7)) n d (last_link (hdr + 1) pre) = Some (Slot d' idx) /\ space d' hdr top ((idx, n) :: ss) fs /\ asc 4 top fs /\ frame hdr a ss d d'.
Proof.
  intros Ha Hn Hf. induction l as [|x l IH]; intros pre fuel Hfuel Hsp Hasc; (destruct fuel as [|fuel]; [cbn in Hfuel; lia|]); cbn [find_slot].
  - pose proof (sp_chain _ _ _ _ _ Hsp) as [_ ->]%chain_cat. by left.
  - pose proof (sp_chain _ _ _ _ _ Hsp) as [_ (E1 & E2 & _)]%chain_cat. destruct (space_free _ _ _ _ _ x Hsp) as [Hi Hap]; [apply elem_of_app; right; left|]. unfold inside in Hi. pose proof (sp_lo _ _ _ _ _ Hsp).
    pose proof (sp_bytes _ _ _ _ _ Hsp) as Hb. pose proof (sp_len _ _ _ _ _ Hsp) as Hlen. destruct Hsz as [Hps Hus].
    pose proof (sp_asc _ _ _ _ _ Hsp) as [S1 (S2 & _)]%asc_cat. pose proof (last_link_bounds 0 (hdr + 1) top pre ltac:(lia) ltac:(lia) S1) as (B1 & B2 & B3). specialize (B3 ltac:(lia)).
    rewrite E1, E2. rewrite (proj2 (Z.ltb_lt 0 x.1)), (proj2 (Z.ltb_ge (us - 4) x.1)), (proj2 (Z.ltb_ge x.1 _)) by lia. cbn [orb].
    destruct (Z.leb_spec n x.2) as [Hle|Hlt].
    + right. destruct (Z.ltb_spec (x.2 - n) 4) as [H4|H4].
      * rewrite copy2 by (done || lia). destruct (slot_remove d hdr top ss pre x l a n Hsp Ha ltac:(lia) ltac:(lia) Hf) as [Hsp' Hfr].
        eexists _, _, (pre ++ l). split; [done|]. split; [done|]. split; [by apply (asc_remove 4 top pre x l)|done].
      * rewrite (proj2 (Z.ltb_ge us (x.2 + x.1))) by lia. destruct (slot_shrink d hdr top ss pre x l a n Hsp Ha Hn ltac:(lia)) as [Hsp' Hfr].
        eexists _, _, (pre ++ (x.1, x.2 - n) :: l). split; [done|]. split; [done|]. split; [|done]. apply asc_cat in Hasc as [A1 (A2 & A3 & A4)]. apply asc_cat. cbn [asc fst snd]. split_and!; [done|lia|lia|].
        eapply asc_weaken; [| |done]; lia.
    + specialize (IH (pre ++ [x]) fuel ltac:(cbn in Hfuel; lia)). rewrite <- app_assoc in IH. assert (last_link (hdr + 1) (pre ++ [x]) = x.1) as Hll by (clear; generalize (hdr + 1); induction pre as [|y pre IH]; intros z; [done|apply IH]).
      rewrite Hll in IH. by apply IH.
Qed.

(** Allocation at the start of the content area. *)
Lemma gap_take d hdr top ss fs a n : space d hdr top ss fs -> 4 <= n -> a <= top - n -> hdr + 8 <= a ->
  let d' := put2byte d (hdr + 5) (top - n) in space d' hdr (top - n) ((top - n, n) :: ss) fs /\ frame hdr a ss d d'.
Proof.
  intros Hsp Hn Ha Hh d'. destruct Hsz as [Hps Hus]. pose proof (space_used _ _ _ _ _ Hsp) as Hused. destruct Hsp as [H1 H2 H3 H4 H5 H6 H7 H8 H9].
  assert (forall x, x ∈ ss ++ fs -> top <= x.1) as Hge by (intros x Hx; pose proof (proj1 (Forall_forall _ _) H7 x Hx) as Hi; unfold inside in Hi; lia).
  split; [constructor|].
  - by apply bytes_put2.
  - unfold d'. by rewrite length_put2.
  - apply notZero_put2; [done|lia|lia|lia].
  - lia.
  - apply (chain_ext d _ (hdr + 1)); [done|apply get2_put2_ne; lia|]. intros y Hy. pose proof (asc_ge 0 top fs y ltac:(lia) H6 Hy). split; apply get2_put2_ne; lia.
  - eapply asc_weaken; [| |done]; lia.
  - cbn [app]. constructor; [unfold inside; cbn; lia|]. eapply Forall_impl; [done|]. unfold inside. intros x Hx. lia.
  - cbn [app disj]. split; [|done]. apply Forall_forall. intros x Hx. specialize (Hge x Hx). unfold apart. cbn. lia.
  - cbn [app total snd]. unfold d'. rewrite rd_put2_ne by lia. lia.
  - apply frame_put2; [lia|]. eapply loose_hdr; [done|lia|]. right. lia.
Qed.

(** ** Freeing *)

Lemma used_perm2 (ss pre l : list span) x y : ss ++ pre ++ x :: y :: l ≡ₚ x :: y :: ss ++ pre ++ l.
Proof. rewrite used_perm. constructor. apply used_perm. Qed.

(** Two free blocks with less than four bytes between them become one. *)
Lemma merge_blocks d hdr top ss pre x y l a : space d hdr top ss (pre ++ x :: y :: l) -> a <= top -> y.1 <= x.1 + x.2 + 3 ->
  let g := y.1 - (x.1 + x.2) in
  let d1 := wr d (hdr + 7) (u8 (rd d (hdr + 7) - u8 g)) in
  let d2 := put2byte d1 x.1 (get2byte d1 y.1) in
  let d3 := put2byte d2 (x.1 + 2) (y.1 + get2byte d2 (y.1 + 2) - x.1) in
  0 <= g <= rd d (hdr + 7) /\ space d3 hdr top ss (pre ++ (x.1, y.1 + y.2 - x.1) :: l) /\ frame hdr a ss d d3.
Proof.
  intros Hsp Ha Hg g. destruct Hsz as [Hps Hus]. pose proof (space_used _ _ _ _ _ Hsp) as Hused. destruct (space_free _ _ _ _ _ x Hsp) as [Hi Hap]; [apply elem_of_app; right; left|].
  destruct (space_free _ _ _ _ _ y Hsp) as [Hi' Hap']; [apply elem_of_app; right; right; left|]. unfold inside in Hi, Hi'. destruct Hsp as [H1 H2 H3 H4 H5 H6 H7 H8 H9].
  pose proof H6 as [S1 (S2 & S3 & S4 & S5 & S6)]%asc_cat. pose proof (last_link_bounds 0 (hdr + 1) top pre ltac:(lia) ltac:(lia) S1) as (B1 & B2 & _). pose proof (asc_end_ge 0 top pre ltac:(lia) S1).
  rewrite used_perm2 in H7, H8, H9. set (m := (x.1, y.1 + y.2 - x.1)). set (rest := ss ++ pre ++ l) in *.
  inversion H7 as [|? ? _ H7']; subst. inversion H7' as [|? ? _ H7'']; subst. destruct H8 as [D1 [D2 D3]]. apply Forall_cons in D1 as [_ D1].
  assert (inside (get2byteNotZero d (hdr + 5)) us m) as Him by (unfold inside, m; cbn; lia).
  assert (Forall (apart m) rest) as Hm.
  { apply Forall_forall. intros z Hz. pose proof (proj1 (Forall_forall _ _) D1 z Hz) as Z1. pose proof (proj1 (Forall_forall _ _) D2 z Hz) as Z2. pose proof (proj1 (Forall_forall _ _) H7'' z Hz) as Z3. unfold apart, inside, m in *. cbn in *. lia. }
  assert (total (m :: rest) <= us - get2byteNotZero d (hdr + 5)) as Htot by (apply inside_total; [lia|done|by constructor]). cbn [total snd m] in Htot, H9. pose proof (rd_byte d (hdr + 7) H1) as Hb. unfold is_u in Hb.
  assert (0 <= g <= rd d (hdr + 7)) as Hgr by (unfold g; lia). intros d1 d2 d3. split; [done|].
  assert (bytes d1) as Hd1. { apply bytes_wr; [done|]. apply uwrap_range. lia. } assert (len d1 = len d) as Hl1 by (unfold d1; by rewrite length_wr).
  assert (bytes d2) as Hd2 by by apply bytes_put2. assert (len d2 = len d) as Hl2 by (unfold d2; by rewrite length_put2).
  assert (forall i, hdr + 8 <= i -> get2byte d1 i = get2byte d i) as G1 by (intros i Hi0; apply get2_wr_ne; lia).
  pose proof (get2byte_range d y.1 H1). apply chain_cat in H5 as [C1 (C2 & C3 & C4 & C5 & C6)].
  assert (get2byte d2 (y.1 + 2) = y.2) as E2 by (unfold d2; rewrite get2_put2_ne, G1 by lia; done).
  assert (forall i, 0 <= i -> (i + 2 <= x.1 \/ x.1 + 4 <= i) -> get2byte d3 i = get2byte d1 i) as G3 by (intros i Hi0 Hio; unfold d3, d2; rewrite !get2_put2_ne by lia; done).
  assert (last_link (hdr + 1) pre + 2 <= hdr + 7 \/ hdr + 8 <= last_link (hdr + 1) pre) as Hlk by (destruct (last_link_cases (hdr + 1) pre) as [[_ ->]|(z & Hz & ->)]; [lia|pose proof (asc_ge 0 _ pre z ltac:(lia) S1 Hz); lia]).
  split; [constructor|].
  - by apply bytes_put2.
  - unfold d3, d2. by rewrite !length_put2, Hl1.
  - unfold d3, d2, d1. apply notZero_ext; rewrite !rd_put2_ne, rd_wr_ne by lia; done.
  - done.
  - apply chain_cat. cbn [chain fst snd m]. split_and!.
    + apply (chain_ext d _ (hdr + 1)).
      * rewrite G3 by lia. unfold d1. by rewrite get2_wr_ne by lia.
      * rewrite G3 by lia. unfold d1. apply get2_wr_ne; lia.
      * intros z Hz. pose proof (asc_ge 0 _ pre z ltac:(lia) S1 Hz). pose proof (asc_size 0 _ pre z S1 Hz). rewrite !G3, !G1 by lia. done.
    + rewrite G3 by lia. unfold d1. by rewrite get2_wr_ne by lia.
    + unfold d3. rewrite E2. apply get2_put2; [done|lia|lia|lia].
    + apply (chain_ext d _ y.1); [done| |].
      * unfold d3. rewrite get2_put2_ne by lia. unfold d2. rewrite get2_put2 by (done || rewrite ?G1; lia). apply G1. lia.
      * intros z Hz. pose proof (asc_ge 0 _ l z ltac:(lia) S6 Hz). rewrite !G3, !G1 by lia. done.
  - apply asc_cat. cbn [asc fst snd m]. split_and!; [done|lia|lia|]. eapply asc_weaken; [| |done]; lia.
  - rewrite used_perm. by constructor.
  - rewrite used_perm. done.
  - rewrite used_perm. cbn [total snd m]. unfold d3, d2. rewrite !rd_put2_ne by lia. unfold d1. rewrite rd_wr_eq by lia. fold rest. rewrite (uwrap_small 8 g) by (unfold is_u; lia). rewrite uwrap_small by (unfold is_u; lia). unfold g. lia.
  - apply (pframe_trans _ _ _ _ d1); [apply frame_wr; [lia|]; eapply loose_hdr; [done|lia|]; right; lia|].
    apply (pframe_trans _ _ _ _ d2); apply frame_put2; try lia; apply (loose_span _ _ _ x); try done; lia.
Qed.

Lemma last_link_snoc a pre x : last_link a (pre ++ [x]) = x.1.
Proof. revert a. induction pre as [|y pre IH]; intros a; [done|apply IH]. Qed.
Lemma space_first d hdr top ss x fs : space d hdr top ss (x :: fs) -> 0 < x.1 < 65536.
Proof. intros Hsp. destruct (space_free _ _ _ _ _ x Hsp ltac:(left)) as [Hi _]. pose proof (sp_lo _ _ _ _ _ Hsp). destruct Hsz. unfold inside in Hi. lia. Qed.

Lemma coalesce_ok hdr top ss a : a <= top -> forall n l pre d fuel, (length l <= n < fuel)%nat -> space d hdr top ss (pre ++ l) -> asc 4 top (pre ++ take 1 l) ->
  exists d' l', coalesce fuel hdr d (last_link (hdr + 1) pre) = Some (SQLITE_OK, d') /\ space d' hdr top ss (pre ++ l') /\ asc 4 top (pre ++ l') /\ frame hdr a ss d d' /\ (l <> [] -> l' <> []).
Proof.
  intros Ha. induction n as [|n IH]; intros l pre d fuel Hn Hsp Hasc; (destruct fuel as [|fuel]; [lia|]); cbn [coalesce].
  - destruct l; [|cbn in Hn; lia]. pose proof (sp_chain _ _ _ _ _ Hsp) as [_ ->]%chain_cat. exists d, []. done.
  - destruct l as [|x l]; [pose proof (sp_chain _ _ _ _ _ Hsp) as [_ ->]%chain_cat; by exists d, []|]. pose proof (sp_chain _ _ _ _ _ Hsp) as [_ (E1 & E2 & C)]%chain_cat.
    destruct (space_free _ _ _ _ _ x Hsp) as [Hi Hap]; [apply elem_of_app; right; left|]. unfold inside in Hi. pose proof (sp_lo _ _ _ _ _ Hsp). rewrite E1, E2, (proj2 (Z.ltb_lt 0 x.1)) by lia.
    assert (forall l2, asc 4 top (pre ++ [x] ++ take 1 l2) -> l = l2 -> exists d' l', coalesce fuel hdr d x.1 = Some (SQLITE_OK, d') /\ space d' hdr top ss (pre ++ l') /\ asc 4 top (pre ++ l') /\ frame hdr a ss d d' /\ (x :: l <> [] -> l' <> [])) as Hmove.
    { intros l2 Hasc' <-. destruct (IH l (pre ++ [x]) d fuel) as (d' & l' & F1 & F2 & F3 & F4 & F5); [cbn in Hn; lia|by rewrite <- app_assoc|by rewrite <- app_assoc|]. rewrite last_link_snoc in F1. rewrite <- app_assoc in F2, F3.
      exists d', (x :: l'). done. }
    destruct l as [|y l].
    + cbn [chain] in C. rewrite C. change (0 <? 0) with false. rewrite andb_false_r. apply (Hmove []); done.
    + destruct C as (C1 & C2 & C3). rewrite C1. destruct (space_free _ _ _ _ _ y Hsp) as [Hi' _]; [apply elem_of_app; right; right; left|]. unfold inside in Hi'. rewrite (proj2 (Z.ltb_lt 0 y.1)), andb_true_r by lia.
      destruct (Z.leb_spec y.1 (x.1 + x.2 + 3)) as [Hle|Hgt].
      * destruct (merge_blocks d hdr top ss pre x y l a Hsp Ha Hle) as (Hg & Hsp' & Hfr). rewrite (proj2 (Z.ltb_ge (y.1 - (x.1 + x.2)) 0)), (proj2 (Z.ltb_ge (rd d (hdr + 7)) _)) by lia. cbn [orb].
        destruct (IH ((x.1, y.1 + y.2 - x.1) :: l) pre _ fuel ltac:(cbn in *; lia) Hsp') as (d' & l' & F1 & F2 & F3 & F4 & F5).
        { cbn [take] in *. apply asc_cat in Hasc as [A1 (A2 & A3 & _)]. apply asc_cat. cbn [asc fst snd]. split_and!; [done|lia|lia|done]. }
        exists d', l'. split_and!; [done|done|done|by eapply pframe_trans|]. intros _. by apply F5.
      * cbn [orb]. apply (Hmove (y :: l)); [|done]. cbn [take app] in *. apply asc_cat in Hasc as [A1 (A2 & A3 & _)]. apply asc_cat. cbn [asc]. split_and!; [done|lia|lia|lia|lia|done].
Qed.

Lemma drop_first_ok d hdr top ss fs a : space d hdr top ss fs -> asc 4 top fs -> a <= top -> fs <> [] ->
  exists top' fs', space (drop_first hdr d) hdr top' ss fs' /\ asc 4 top' fs' /\ frame hdr a ss d (drop_first hdr d) /\ top <= top'.
Proof.
  intros Hsp Hasc Ha Hne. destruct fs as [|x fs]; [done|]. pose proof (space_first _ _ _ _ _ _ Hsp) as Hx1. destruct (space_free _ _ _ _ _ x Hsp ltac:(left)) as [Hi Hap]. unfold inside in Hi.
  pose proof (sp_chain _ _ _ _ _ Hsp) as (C1 & C2 & C3). pose proof (sp_bytes _ _ _ _ _ Hsp) as Hb. pose proof (sp_top _ _ _ _ _ Hsp) as Htop. pose proof (sp_lo _ _ _ _ _ Hsp) as Hlo. rewrite notZero_eq in Htop by done.
  unfold drop_first. destruct (rd d (hdr + 1) =? rd d (hdr + 5)) eqn:E1; [destruct (rd d (hdr + 2) =? rd d (hdr + 6)) eqn:E2|]; cbn [andb]; [|by exists top, (x :: fs)..].
  apply Z.eqb_eq in E1, E2.
  assert (x.1 = top) as Ex.
  { rewrite <- C1. rewrite !get2byte_eq in * by done. replace (hdr + 1 + 1) with (hdr + 2) in * by lia. replace (hdr + 5 + 1) with (hdr + 6) in * by lia. rewrite E1, E2 in *. destruct (Z.eqb_spec (256 * rd d (hdr + 5) + rd d (hdr + 6)) 0); lia. }
  rewrite C1. replace (hdr + 2) with (hdr + 1 + 1) by lia. pose proof (sp_len _ _ _ _ _ Hsp) as Hlen. destruct Hsz as [Hps Hus]. rewrite copy2 by (done || lia). set (d1 := put2byte d (hdr + 1) (get2byte d x.1)).
  assert (get2byte d1 (x.1 + 2) = x.2) as E3 by (unfold d1; by rewrite get2_put2_ne by lia). assert (get2byte d1 (hdr + 5) = top) as E4.
  { unfold d1. rewrite get2_put2_ne by lia. destruct (Z.eqb_spec (get2byte d (hdr + 5)) 0) as [E|]; lia. }
  rewrite E3, E4. pose proof (space_used _ _ _ _ _ Hsp) as Hused. destruct Hsp as [H1 H2 H3 H4 H5 H6 H7 H8 H9]. cbn [app] in *. destruct Hasc as (A1 & A2 & A3).
  assert (bytes d1) as Hd1 by by apply bytes_put2. assert (len d1 = len d) as Hl1 by (unfold d1; by rewrite length_put2).
  rewrite (used_perm ss [] fs x) in H7, H8, H9. cbn [app] in *. apply Forall_cons in H7 as [_ H7']. destruct H8 as [D1 D2].
  exists (top + x.2), fs. split; [constructor|split_and!].
  - by apply bytes_put2.
  - by rewrite length_put2, Hl1.
  - apply notZero_put2; [done|lia|lia|lia].
  - lia.
  - apply (chain_ext d _ x.1); [done| |].
    + rewrite get2_put2_ne by lia. unfold d1. apply get2_put2; [done|lia|lia|by apply get2byte_range].
    + intros y Hy. destruct H6 as (_ & _ & H6). pose proof (asc_ge 0 _ fs y ltac:(lia) H6 Hy). unfold d1. rewrite !get2_put2_ne by lia. done.
  - destruct H6 as (_ & _ & H6). eapply asc_weaken; [| |done]; lia.
  - apply Forall_forall. intros y Hy. pose proof (proj1 (Forall_forall _ _) H7' y Hy) as I1. pose proof (proj1 (Forall_forall _ _) D1 y Hy) as I2. unfold inside, apart in *. cbn in *. lia.
  - done.
  - cbn [total] in H9. rewrite rd_put2_ne by lia. unfold d1. rewrite rd_put2_ne by lia. lia.
  - eapply asc_weaken; [| |done]; lia.
  - apply (pframe_trans _ _ _ _ d1); apply frame_put2; try lia; (eapply loose_hdr; [done|lia|]); lia.
  - lia.
Qed.

(** Writing into a span in use. *)
Lemma space_write d hdr top x ss fs a i c : space d hdr top (x :: ss) fs -> a <= top -> bytes c -> x.1 <= i -> i + len c <= x.1 + x.2 ->
  space (splice d i c) hdr top (x :: ss) fs /\ frame hdr a ss d (splice d i c).
Proof.
  intros Hsp Ha Hc H1 H2. pose proof (sp_lo _ _ _ _ _ Hsp) as Hlo. pose proof (sp_len _ _ _ _ _ Hsp) as Hlen. destruct Hsz as [Hps Hus].
  assert (inside top us x) as Hi by (apply (proj1 (Forall_forall _ _) (sp_in _ _ _ _ _ Hsp)); left). unfold inside in Hi.
  assert (forall y, y ∈ ss ++ fs -> apart x y) as Hap by (apply Forall_forall; by destruct (sp_disj _ _ _ _ _ Hsp)).
  assert (forall j, 0 <= j -> j < x.1 \/ x.1 + x.2 <= j -> rd (splice d i c) j = rd d j) as Hrd by (intros j Hj0 Hj; apply rd_splice_out; lia).
  assert (forall j, 0 <= j -> j + 2 <= x.1 \/ x.1 + x.2 <= j -> get2byte (splice d i c) j = get2byte d j) as Hg by (intros j Hj0 Hj; apply get2_ext; apply Hrd; lia).
  split.
  - destruct Hsp as [S1 S2 S3 S4 S5 S6 S7 S8 S9]. constructor; try done.
    + by apply bytes_splice.
    + rewrite length_splice by lia. done.
    + rewrite <- S3. apply notZero_ext; apply Hrd; lia.
    + apply (chain_ext d _ (hdr + 1)); [done|apply Hg; lia|]. intros y Hy. pose proof (Hap y ltac:(apply elem_of_app; by right)) as Hxy. pose proof (asc_ge 0 _ fs y ltac:(lia) S6 Hy). pose proof (asc_size 0 _ fs y S6 Hy). unfold apart in Hxy. split; apply Hg; lia.
    + rewrite Hrd by lia. done.
  - apply frame_splice; [lia|lia|]. apply (loose_span _ _ _ x); try lia. apply Forall_forall. intros y Hy. apply Hap. apply elem_of_app. by left.
Qed.

Lemma free_place_ok d start a : forall l pre fuel, (length l < fuel)%nat -> 0 < start -> chain d a (pre ++ l) 0 -> asc 0 (a + 4) (pre ++ l) -> Forall (fun x => x.1 < start) pre -> 0 <= a ->
  exists l1 l2, l = l1 ++ l2 /\ free_place fuel d start (last_link a pre) = Some (inl (last_link a (pre ++ l1), get2byte d (last_link a (pre ++ l1)))) /\
    Forall (fun x => x.1 < start) (pre ++ l1) /\ Forall (fun x => start <= x.1) l2.
Proof.
  induction l as [|x l IH]; intros pre fuel Hf Hst Hc Hs Hpre Ha; (destruct fuel as [|fuel]; [cbn in Hf; lia|]); cbn [free_place].
  - pose proof Hc as [_ E]%chain_cat. cbn [chain] in E. rewrite E. change (0 <? 0) with false. rewrite andb_false_r. exists [], []. rewrite !app_nil_r in *. by rewrite E.
  - pose proof Hc as [_ (E1 & _)]%chain_cat. pose proof Hs as [S1 (S2 & S3 & S4)]%asc_cat. pose proof (last_link_bounds 0 a (a + 4) pre ltac:(lia) ltac:(lia) S1) as (B1 & B2 & B3). specialize (B3 ltac:(lia)). rewrite E1.
    rewrite (proj2 (Z.ltb_lt 0 x.1)), andb_true_r by lia. destruct (Z.ltb_spec x.1 start) as [Hlt|Hge].
    + rewrite (proj2 (Z.ltb_ge x.1 _)) by lia. destruct (IH (pre ++ [x]) fuel) as (l1 & l2 & -> & F1 & F2 & F3); try (rewrite <- app_assoc); try done; [cbn in Hf; lia|apply Forall_app_2; [done|by constructor]|].
      rewrite last_link_snoc in F1. rewrite <- app_assoc in F1, F2. by exists (x :: l1), l2.
    + exists [], (x :: l). rewrite app_nil_r, E1. split_and!; try done. constructor; [done|]. apply Forall_forall. intros y Hy. pose proof (asc_ge 0 _ l y ltac:(lia) S4 Hy). lia.
Qed.

(** A span in use becomes a free block. *)
Lemma space_insert d hdr top x ss l1 l2 a : space d hdr top (x :: ss) (l1 ++ l2) -> a <= top -> Forall (fun y => y.1 < x.1) l1 -> Forall (fun y => x.1 <= y.1) l2 ->
  let k := last_link (hdr + 1) l1 in
  let d' := put2byte (put2byte (put2byte d k x.1) x.1 (get2byte d k)) (x.1 + 2) x.2 in
  space d' hdr top ss (l1 ++ x :: l2) /\ frame hdr a ss d d' /\ get2byte d k <= us - 4.
Proof.
  intros Hsp Ha Hl1 Hl2 k d'. pose proof (link_loose _ _ _ _ _ _ _ Hsp Ha) as Hll. pose proof (space_end _ _ _ _ _ Hsz Hsp) as Hend. destruct Hsz as [Hps Hus]. pose proof (space_used _ _ _ _ _ Hsp) as Hused.
  assert (forall y, y ∈ l2 -> y.1 <= us - 4) as Hmax by (intros y Hy; destruct (space_free _ _ _ _ _ y Hsp) as [Hi _]; [apply elem_of_app; by right|]; unfold inside in Hi; lia).
  destruct Hsp as [S1 S2 S3 S4 S5 S6 S7 S8 S9]. apply Forall_cons in Hused as [Hx Hused]. unfold inside in Hx. cbn [app] in *. destruct S8 as [D1 D2]. apply Forall_app in D1 as [D0 D1]. apply Forall_app in D1 as [D11 D12].
  assert (asc 0 top (l1 ++ x :: l2)) as Hasc.
  { pose proof S6 as [A1 A2]%asc_cat. apply asc_cat. split; [done|]. cbn [asc]. split_and!; [|lia|].
    - destruct l1 as [|y l1 _] using rev_ind; [cbn; lia|]. assert (asc_end 0 top (l1 ++ [y]) = y.1 + y.2 + 0) as ->. { clear. generalize top. induction l1 as [|z l1 IH]; intros t; cbn [asc_end app]; [done|apply IH]. }
      apply Forall_app in Hl1 as [_ Hl1]. apply Forall_cons in Hl1 as [Hl1 _]. apply Forall_app in D11 as [_ D11]. apply Forall_cons in D11 as [D11 _]. unfold apart in D11. lia.
    - destruct l2 as [|y l2]; [done|]. cbn [asc] in A2 |- *. destruct A2 as (A2 & A3 & A4). apply Forall_cons in Hl2 as [Hy _]. apply Forall_cons in D12 as [D12 _]. unfold apart in D12. split_and!; [lia|lia|done]. }
  pose proof Hasc as [A1 (A2 & A3 & A4)]%asc_cat. pose proof (last_link_bounds 0 (hdr + 1) top l1 ltac:(lia) ltac:(lia) A1) as (B1 & B2 & _). pose proof (asc_end_ge 0 top l1 ltac:(lia) A1). fold k in B1, B2.
  assert (asc_end 0 top (l1 ++ x :: l2) <= us) as Hend'.
  { revert Hend. clear -Hx. generalize top. induction l1 as [|y l1 IH]; intros t; cbn [asc_end app]; [|apply IH]. destruct l2; cbn [asc_end]; lia. }
  assert (k + 2 <= hdr + 5 \/ hdr + 8 <= k) as Hk by (unfold k; destruct (last_link_cases (hdr + 1) l1) as [[_ ->]|(z & Hz & ->)]; [lia|pose proof (asc_ge 0 _ l1 z ltac:(lia) A1 Hz); lia]).
  split_and!; [constructor| |].
  - unfold d'. by repeat apply bytes_put2.
  - unfold d'. by rewrite !length_put2.
  - rewrite <- S3. unfold d'. apply notZero_ext; rewrite !rd_put2_ne by lia; done.
  - done.
  - apply (chain_insert d (hdr + 1) top l1 x l2); try done; lia.
  - done.
  - rewrite used_perm. done.
  - rewrite used_perm. cbn [disj]. split; [|done]. by rewrite !Forall_app.
  - rewrite used_perm. unfold d'. rewrite !rd_put2_ne by lia. cbn [total] in *. lia.
  - assert (Forall (apart x) ss) as Hap by done. assert (loose hdr a ss k 2) as Hlk by (intros j Hj [Hj0 [Hk1|(y & Hy & Hk1)]]; apply (Hll j Hj); (split; [done|]); [by left|right; exists y; split; [by right|done]]).
    apply (pframe_trans _ _ _ _ (put2byte d k x.1)); [apply frame_put2; [lia|done]|]. apply (pframe_trans _ _ _ _ (put2byte (put2byte d k x.1) x.1 (get2byte d k))); apply frame_put2; try lia; apply (loose_span _ _ _ x); try done; lia.
  - apply chain_cat in S5 as [_ S5]. fold k in S5. destruct l2 as [|y l2]; cbn [chain] in S5; [lia|]. destruct S5 as [-> _]. apply Hmax. left.
Qed.

Lemma free_count d hdr top ss fs : space d hdr top ss fs -> 4 * Z.of_nat (length fs) <= us - 8.
Proof.
  intros Hsp. pose proof (sp_lo _ _ _ _ _ Hsp). assert (total fs <= us - top).
  { apply inside_total; [lia| |]; [by destruct (proj1 (disj_app _ _) (sp_disj _ _ _ _ _ Hsp)) as (_ & ? & _)|]. pose proof (sp_in _ _ _ _ _ Hsp) as H'. by apply Forall_app in H' as [_ H']. }
  assert (4 * Z.of_nat (length fs) <= total fs); [|lia]. pose proof (sp_asc _ _ _ _ _ Hsp) as Hs. clear -Hs. revert Hs. generalize top. induction fs as [|x fs IH]; intros t; cbn [asc total length]; [lia|]. intros (H1 & H2 & H3). specialize (IH _ H3). lia.
Qed.

Lemma freeSpace_ok P top x ss fs a fuel : space (aData P) (hdrOffset P) top (x :: ss) fs -> a <= top -> us <= Z.of_nat fuel ->
  exists d' top' fs', freeSpace pBt fuel P x.1 x.2 = Some (SQLITE_OK, set_data (set_counts P (u16 (nFree P + x.2)) (nCell P)) d') /\
    space d' (hdrOffset P) top' ss fs' /\ asc 4 top' fs' /\ frame (hdrOffset P) a ss (aData P) d' /\ top <= top'.
Proof.
  intros Hsp0 Ha Hfuel. set (hdr := hdrOffset P) in *. unfold freeSpace. set (d := if negb (btsFlags pBt .& BTS_SECURE_DELETE =? 0) then _ else _). fold hdr. destruct Hsz as [Hps Hus].
  assert (inside top us x) as Hx by (apply (proj1 (Forall_forall _ _) (sp_in _ _ _ _ _ Hsp0)); left). unfold inside in Hx.
  assert (space d hdr top (x :: ss) fs /\ frame hdr a ss (aData P) d) as [Hsp Hfr0].
  { unfold d. destruct (negb _); [|done]. apply space_write; [done|done|by apply Forall_replicate|lia|rewrite length_replicate; lia]. }
  pose proof (free_count _ _ _ _ _ Hsp) as Hcnt. pose proof (sp_lo _ _ _ _ _ Hsp) as Hlo. pose proof (sp_asc _ _ _ _ _ Hsp) as Hasc.
  destruct (free_place_ok d x.1 (hdr + 1) fs [] fuel) as (l1 & l2 & -> & E & F1 & F2); [lia|lia|apply (sp_chain _ _ _ _ _ Hsp)|eapply asc_weaken; [| |done]; lia|done|lia|]. cbn [app last_link] in *. rewrite E.
  destruct (space_insert d hdr top x ss l1 l2 a Hsp Ha F1 F2) as (Hsp1 & Hfr1 & Hle). rewrite (proj2 (Z.ltb_ge (us - 4) _)) by lia. rewrite (uwrap_small 16 x.2) by (unfold is_u; lia).
  set (d1 := put2byte (put2byte (put2byte d _ _) _ _) _ _) in *. destruct (fun H => coalesce_ok hdr top ss a Ha (length (l1 ++ x :: l2)) (l1 ++ x :: l2) [] d1 fuel H Hsp1) as (d2 & l' & G1 & Hsp2 & Hasc2 & Hfr2 & Hne).
  { rewrite !length_app in *. cbn [length] in *. lia. }
  { pose proof (sp_asc _ _ _ _ _ Hsp1) as Hs1. destruct (l1 ++ x :: l2) as [|y l]; [done|]. destruct Hs1 as (? & ? & _). change (take 1 (y :: l)) with (y :: take 0 l). rewrite take_0. done. }
  cbn [app last_link] in *. rewrite G1. change (SQLITE_OK =? 0) with true. cbn [negb]. destruct (drop_first_ok d2 hdr top ss l' a Hsp2 Hasc2 Ha) as (top' & fs' & Hsp3 & Hasc3 & Hfr3 & Htop).
  { apply Hne. by destruct l1. }
  exists (drop_first hdr d2), top', fs'. split_and!; try done. by repeat (eapply pframe_trans; [done|]).
Qed.
End space.
