(* ===== verification/PageCell.v ===== *)
(** Cells: how the two functions that measure a cell relate, and which bytes of a cell they look at. *)
From S2P Require Import Prelude Varint Page PageSpace.
Local Open Scope Z_scope.
Local Open Scope c_scope.

(** * Varints as prefixes *)

Lemma varint_ref_len k : forall n acc p, (k < length p)%nat -> n < (varint_ref k n acc p).1 <= n + Z.of_nat k + 1.
Proof.
  induction k as [|k IH]; intros n acc [|c p] Hp; cbn [length] in Hp; try lia; cbn [varint_ref fst]; [lia|]. destruct (c .& 0x80 =? 0); cbn [fst]; [lia|]. specialize (IH (n + 1) (acc << 7 .| c .& 0x7f) p ltac:(lia)). lia.
Qed.
Lemma varint_ref_ext k : forall n acc p q, (k < length p)%nat -> (k < length q)%nat -> (forall j, 0 <= j < (varint_ref k n acc p).1 - n -> rd q j = rd p j) -> varint_ref k n acc q = varint_ref k n acc p.
Proof.
  induction k as [|k IH]; intros n acc [|c p] [|c' q] Hp Hq H; try (cbn [length] in *; lia).
  - assert (c' = c) as -> by (apply (H 0); cbn; lia). reflexivity.
  - assert (c' = c) as -> by (apply (H 0); pose proof (varint_ref_len (S k) n acc (c :: p) Hp); lia). cbn [length] in Hp, Hq. cbn [varint_ref] in *. destruct (c .& 0x80 =? 0); [done|]. apply IH; [lia|lia|]. intros j Hj.
    specialize (H (j + 1) ltac:(lia)). unfold rd in *. replace (Z.to_nat (j + 1)) with (S (Z.to_nat j)) in H by lia. done.
Qed.

Lemma pad_long p : (8 < length (p ++ replicate 9 0%Z))%nat.
Proof. rewrite length_app, length_replicate. lia. Qed.
Lemma getVarint_len p : bytes p -> 1 <= (sqlite3GetVarint p).1 <= 9.
Proof. intros Hp. rewrite getVarint_ref by done. pose proof (varint_ref_len 8 0 0 _ (pad_long p)). lia. Qed.
Lemma getVarint32_len p : bytes p -> (getVarint32 p).1 = (sqlite3GetVarint p).1.
Proof. intros Hp. by rewrite getVarint32_clip. Qed.
(** A varint is read from its own bytes only. *)
Lemma getVarint_prefix p q : bytes p -> bytes q -> (forall j, 0 <= j < (sqlite3GetVarint p).1 -> rd q j = rd p j) -> sqlite3GetVarint q = sqlite3GetVarint p.
Proof.
  intros Hp Hq H. rewrite (getVarint_ref p Hp) in *. rewrite getVarint_ref by done. apply varint_ref_ext; [apply pad_long|apply pad_long|]. intros j Hj. rewrite <- !rd_pad by lia. apply H. lia.
Qed.
Lemma getVarint32_prefix p q : bytes p -> bytes q -> (forall j, 0 <= j < (getVarint32 p).1 -> rd q j = rd p j) -> getVarint32 q = getVarint32 p.
Proof. intros Hp Hq H. rewrite getVarint32_len in H by done. rewrite !getVarint32_clip by done. f_equal. by apply getVarint_prefix. Qed.
Lemma getVarint32_range p : bytes p -> is_u 32 (getVarint32 p).2.
Proof.
  intros Hp. rewrite getVarint32_clip by done. unfold clip32. cbn [snd]. change SQLITE_MAX_U32 with (2 ^ 32 - 1). rewrite getVarint_ref by done.
  assert (0 <= (varint_ref 8 0 0 (p ++ replicate 9 0)).2) by (apply varint_ref_nonneg; [lia|]; apply Forall_app_2; [done|by apply Forall_replicate]). unfold is_u. destruct (Z.leb_spec (varint_ref 8 0 0 (p ++ replicate 9 0)).2 (2 ^ 32 - 1)); lia.
Qed.

(** The loop over the bytes of a key finds the end of the varint. *)
Lemma skip_key_ref k : forall c i n acc, 0 <= i -> skip_key (S k) c i = i + ((varint_ref k n acc (drop (Z.to_nat i) c ++ replicate (S k) 0)).1 - n).
Proof.
  induction k as [|k IH]; intros c i n acc Hi.
  - change (skip_key 1 c i) with (if negb (rd c i .& 0x80 =? 0) then i + 1 else i + 1). destruct (drop (Z.to_nat i) c); cbn [app replicate varint_ref fst]; destruct (negb _); lia.
  - cbn [skip_key]. assert (rd c i = rd (drop (Z.to_nat i) c ++ replicate (S (S k)) 0) 0) as Er by (rewrite <- rd_pad, rd_drop by lia; f_equal; lia).
    specialize (IH c (i + 1)). destruct (drop (Z.to_nat i) c ++ replicate (S (S k)) 0) as [|b l] eqn:E; [apply (f_equal length) in E; rewrite length_app, length_replicate in E; cbn in E; lia|].
    change (rd (b :: l) 0) with b in Er. cbn [varint_ref]. rewrite Er. destruct (b .& 0x80 =? 0); cbn [negb fst]; [lia|]. cbn [skip_key] in IH. rewrite (IH (n + 1) (acc << 7 .| b .& 0x7f)) by lia.
    assert (varint_ref k (n + 1) (acc << 7 .| b .& 0x7f) (drop (Z.to_nat (i + 1)) c ++ replicate (S k) 0) = varint_ref k (n + 1) (acc << 7 .| b .& 0x7f) l) as ->; [|lia].
    assert (length l = (length (drop (Z.to_nat i) c) + S k)%nat) as Hl by (apply (f_equal length) in E; rewrite length_app, length_replicate in E; cbn in E; lia).
    apply varint_ref_ext; [lia|rewrite length_app, length_replicate; lia|]. intros j Hj. rewrite <- rd_pad, rd_drop by lia. replace (rd l j) with (rd (b :: l) (j + 1)) by (unfold rd; by replace (Z.to_nat (j + 1)) with (S (Z.to_nat j)) by lia).
    rewrite <- E, <- rd_pad, rd_drop by lia. f_equal. lia.
Qed.
Lemma skip_key_len c i : bytes c -> 0 <= i -> skip_key 9 c i = i + (sqlite3GetVarint (drop (Z.to_nat i) c)).1.
Proof. intros Hc Hi. rewrite (skip_key_ref 8 c i 0 0), getVarint_ref by (done || by apply Forall_drop). lia. Qed.

(** * Sizes of cells *)

Section cell.
Context (pBt : BtShared).
Local Abbreviation us := (usableSize pBt).

(** The limits are those of lockBtree. *)
Definition bt_ok : Prop := sizes_ok pBt /\ pBt = bt_limits (pageSize pBt) us (btsFlags pBt) (autoVacuum pBt).

(** The flags of a page are one of the four combinations. *)
Record kind (P : MemPage) : Prop := {
  k_leaf : leaf P = 0 \/ leaf P = 1;
  k_child : childPtrSize P = 4 - 4 * leaf P;
  k_data : hasData P = intKey P && (leaf P =? 1);
  k_min : 0 <= minLocal P <= maxLocal P;
  k_max : maxLocal P <= us - 35 }.

Lemma decode_kind P fl P' : bt_ok -> is_u 8 fl -> decodeFlags pBt P fl = (SQLITE_OK, P') -> kind P'.
Proof.
  intros [[Hps Hus] Hbt] Hfl. assert (0 <= bt_minLocal pBt <= bt_maxLocal pBt /\ bt_maxLocal pBt <= us - 35 /\ 0 <= bt_minLeaf pBt <= bt_maxLeaf pBt /\ bt_maxLeaf pBt <= us - 35) as Hlim.
  { rewrite Hbt. cbn [bt_limits bt_minLocal bt_maxLocal bt_minLeaf bt_maxLeaf usableSize]. assert (0 <= (us - 12) * 32 / 255 - 23 <= us - 35 /\ (us - 12) * 32 / 255 <= (us - 12) * 64 / 255 /\ (us - 12) * 64 / 255 <= us - 12).
    { assert (23 <= (us - 12) * 32 / 255) by (apply Z.div_le_lower_bound; lia). assert ((us - 12) * 32 / 255 <= (us - 12) * 64 / 255) by (apply Z.div_le_mono; lia). assert ((us - 12) * 64 / 255 <= us - 12) by (apply Z.div_le_upper_bound; lia). lia. }
    rewrite !uwrap_small by (unfold is_u; lia). lia. }
  unfold decodeFlags. change (PTF_LEAFDATA .| PTF_INTKEY) with 5. change PTF_ZERODATA with 2. change (Z.lnot PTF_LEAF) with (-9). intros H.
  assert (u8 (fl >> 3) = 0 \/ u8 (fl >> 3) = 1) as Hleaf.
  { assert (fl .& -9 = 5 \/ fl .& -9 = 2) as Hf by (destruct (Z.eqb_spec (fl .& -9) 5); [by left|]; destruct (Z.eqb_spec (fl .& -9) 2); [by right|discriminate]). clear -Hf Hfl. revert fl Hfl Hf.
    byte_check (fun fl => negb ((fl .& -9 =? 5) || (fl .& -9 =? 2)) || (u8 (fl >> 3) =? 0) || (u8 (fl >> 3) =? 1)). rewrite !orb_true_iff, !Z.eqb_eq, negb_true_iff, orb_false_iff, !Z.eqb_neq in *. tauto. }
  assert (u8 (4 - 4 * u8 (fl >> 3)) = 4 - 4 * u8 (fl >> 3)) as Hc by (destruct Hleaf as [-> | ->]; done). rewrite Hc in H.
  destruct (fl .& -9 =? 5); [|destruct (fl .& -9 =? 2); [|done]]; injection H as <-; constructor; cbn; try done; try lia; destruct Hleaf as [-> | ->]; done.
Qed.

(** The length of the header of a cell and the size of its payload. *)
Definition cell_header (P : MemPage) (c : list Z) : Z * Z :=
  if intKey P then
    let '(i, n) := if hasData P then let '(k, v) := getVarint32 (drop (Z.to_nat (childPtrSize P)) c) in (childPtrSize P + k, v) else (childPtrSize P, 0) in
    (i + (sqlite3GetVarint (drop (Z.to_nat i) c)).1, n)
  else let '(k, v) := getVarint32 (drop (Z.to_nat (childPtrSize P)) c) in (childPtrSize P + k, v).
(** How much of a payload is on the page, with the number of an overflow page. *)
Definition local_part (P : MemPage) (n : Z) : Z :=
  if maxLocal P <? n then let s := minLocal P + (n - minLocal P) mod (us - 4) in if maxLocal P <? s then minLocal P else s else n.
Definition local_size (P : MemPage) (n : Z) : Z := local_part P n + if maxLocal P <? n then 4 else 0.

Context (Hbt : bt_ok).

Lemma header_range P c : kind P -> bytes c -> 1 <= (cell_header P c).1 <= 18 /\ is_u 32 (cell_header P c).2.
Proof.
  intros HP Hc. unfold cell_header. pose proof (k_child _ HP) as Hch. pose proof (k_leaf _ HP) as Hl. pose proof (k_data _ HP) as Hd.
  assert (forall i, 1 <= (sqlite3GetVarint (drop i c)).1 <= 9) as HV by (intros i; apply getVarint_len; by apply Forall_drop).
  pose proof (getVarint32_len (drop (Z.to_nat (childPtrSize P)) c) ltac:(by apply Forall_drop)) as H32. pose proof (getVarint32_range (drop (Z.to_nat (childPtrSize P)) c) ltac:(by apply Forall_drop)) as Hr.
  pose proof (HV (Z.to_nat (childPtrSize P))) as HV0. destruct (getVarint32 (drop (Z.to_nat (childPtrSize P)) c)) as [k v]. cbn [fst snd] in *.
  destruct (intKey P); [destruct (hasData P)|]; cbn [fst snd].
  - pose proof (HV (Z.to_nat (childPtrSize P + k))). cbn [andb] in Hd. symmetry in Hd. apply Z.eqb_eq in Hd. split; [lia|done].
  - pose proof (HV (Z.to_nat (childPtrSize P))). split; [lia|]. unfold is_u. lia.
  - split; [lia|done].
Qed.
Lemma local_range P n : kind P -> is_u 32 n -> 0 <= local_part P n <= maxLocal P /\ 0 <= local_size P n <= us - 31.
Proof.
  intros HP Hn. pose proof (k_min _ HP). pose proof (k_max _ HP). destruct Hbt as [[Hps Hus] _]. unfold is_u in Hn. assert (0 <= local_part P n <= maxLocal P); [|split; [done|]; unfold local_size; destruct (maxLocal P <? n); lia].
  unfold local_part. pose proof (Z.mod_pos_bound (n - minLocal P) (us - 4) ltac:(lia)). destruct (Z.ltb_spec (maxLocal P) n); [|lia]. cbv zeta. destruct (Z.ltb_spec (maxLocal P) (minLocal P + (n - minLocal P) mod (us - 4))); lia.
Qed.
Lemma cellSize_eq P c : kind P -> bytes c -> let '(i, n) := cell_header P c in cellSizePtr pBt P c = Z.max 4 (local_size P n + i) /\ 4 <= cellSizePtr pBt P c < us.
Proof.
  intros HP Hc. pose proof (header_range P c HP Hc) as [Hi Hn]. destruct (cell_header P c) as [i n] eqn:E. cbn [fst snd] in *. pose proof (local_range P n HP Hn) as [Hl1 Hl2]. pose proof (k_min _ HP). pose proof (k_max _ HP).
  destruct Hbt as [[Hps Hus] _]. enough (cellSizePtr pBt P c = Z.max 4 (local_size P n + i)) as -> by (split; [done|lia]).
  assert (cellSizePtr pBt P c = let nSize := if maxLocal P <? n then (let nSize := u32 (minLocal P + u32 (n - minLocal P) mod (us - 4)) in let nSize := if maxLocal P <? nSize then minLocal P else nSize in u32 (nSize + 4)) else n in
    let nSize := u32 (nSize + i) in let nSize := if nSize <? 4 then 4 else nSize in u16 nSize) as ->.
  { unfold cellSizePtr. unfold cell_header in E. assert (0 <= childPtrSize P) as Hch by (pose proof (k_child _ HP); pose proof (k_leaf _ HP); lia).
    pose proof (getVarint32_len (drop (Z.to_nat (childPtrSize P)) c) ltac:(by apply Forall_drop)) as Hk. pose proof (getVarint_len (drop (Z.to_nat (childPtrSize P)) c) ltac:(by apply Forall_drop)).
    destruct (getVarint32 (drop (Z.to_nat (childPtrSize P)) c)) as [k v]. cbn [fst] in Hk. destruct (intKey P); [destruct (hasData P)|]; rewrite ?skip_key_len by (done || lia); by injection E as <- <-. }
  unfold is_u in Hn. unfold local_size, local_part in *. pose proof (Z.mod_pos_bound (n - minLocal P) (us - 4) ltac:(lia)). cbv zeta in *. destruct (Z.ltb_spec (maxLocal P) n).
  - rewrite (uwrap_small 32 (n - minLocal P)) by (unfold is_u; lia). assert (minLocal P + (n - minLocal P) mod (us - 4) < 2 ^ 32) by (change (2 ^ 32) with 4294967296; lia).
    rewrite (uwrap_small 32 (minLocal P + _)) by (unfold is_u; lia). set (s := minLocal P + (n - minLocal P) mod (us - 4)) in *. set (q := if maxLocal P <? s then minLocal P else s) in *.
    rewrite (uwrap_small 32 (q + 4)) by (unfold is_u; change (2 ^ 32) with 4294967296; lia). rewrite (uwrap_small 32 (q + 4 + i)) by (unfold is_u; change (2 ^ 32) with 4294967296; lia). rewrite uwrap_small by (unfold is_u; destruct (Z.ltb_spec (q + 4 + i) 4); change (2 ^ 16) with 65536; lia).
    destruct (Z.ltb_spec (q + 4 + i) 4); lia.
  - rewrite (uwrap_small 32 (n + i)) by (unfold is_u; change (2 ^ 32) with 4294967296; lia). rewrite uwrap_small by (unfold is_u; destruct (Z.ltb_spec (n + i) 4); change (2 ^ 16) with 65536; lia). destruct (Z.ltb_spec (n + i) 4); lia.
Qed.

Lemma header_prefix P c c' : kind P -> bytes c -> bytes c' -> (forall j, 0 <= j < (cell_header P c).1 -> rd c' j = rd c j) -> cell_header P c' = cell_header P c.
Proof.
  intros HP Hc Hc'. assert (0 <= childPtrSize P) as Hch by (pose proof (k_child _ HP); pose proof (k_leaf _ HP); lia). set (o := childPtrSize P) in *.
  assert (forall i, 0 <= i -> bytes (drop (Z.to_nat i) c) /\ bytes (drop (Z.to_nat i) c')) as Hb by (intros i _; split; by apply Forall_drop).
  assert (forall i, 0 <= i -> (forall j, i <= j < i + (sqlite3GetVarint (drop (Z.to_nat i) c)).1 -> rd c' j = rd c j) ->
    sqlite3GetVarint (drop (Z.to_nat i) c') = sqlite3GetVarint (drop (Z.to_nat i) c) /\ getVarint32 (drop (Z.to_nat i) c') = getVarint32 (drop (Z.to_nat i) c)) as Hv.
  { intros i Hi H. destruct (Hb i Hi). assert (forall j, 0 <= j < (sqlite3GetVarint (drop (Z.to_nat i) c)).1 -> rd (drop (Z.to_nat i) c') j = rd (drop (Z.to_nat i) c) j) as Hj by (intros j Hj; rewrite !rd_drop by lia; apply H; lia).
    split; [by apply getVarint_prefix|]. apply getVarint32_prefix; [done|done|]. by rewrite getVarint32_len. }
  assert (forall i, 1 <= (sqlite3GetVarint (drop (Z.to_nat i) c)).1 <= 9) as Hlen by (intros i; apply getVarint_len; by apply Forall_drop).
  pose proof (getVarint32_len (drop (Z.to_nat o) c) ltac:(by apply Forall_drop)) as Hk. pose proof (Hlen o) as Ho. unfold cell_header. fold o. intros H. destruct (intKey P); [destruct (hasData P)|].
  - destruct (getVarint32 (drop (Z.to_nat o) c)) as [k v] eqn:E. cbn [fst snd] in *. pose proof (Hlen (o + k)) as Hok. destruct (Hv o Hch) as [_ ->]; [intros j Hj; apply H; lia|]. rewrite E. destruct (Hv (o + k) ltac:(lia)) as [-> _]; [intros j Hj; apply H; lia|done].
  - cbn [fst snd] in *. destruct (Hv o Hch) as [-> _]; [intros j Hj; apply H; lia|done].
  - destruct (getVarint32 (drop (Z.to_nat o) c)) as [k v] eqn:E. cbn [fst snd] in *. destruct (Hv o Hch) as [_ ->]; [intros j Hj; apply H; lia|]. by rewrite E.
Qed.
(** The size of a cell is determined by the bytes of the cell. *)
Lemma cellSize_prefix P c c' : kind P -> bytes c -> bytes c' -> (forall j, 0 <= j < cellSizePtr pBt P c -> rd c' j = rd c j) -> cellSizePtr pBt P c' = cellSizePtr pBt P c.
Proof.
  intros HP Hc Hc' H. pose proof (cellSize_eq P c HP Hc) as E. pose proof (cellSize_eq P c' HP Hc') as E'. pose proof (header_range P c HP Hc) as [_ Hn].
  assert (cell_header P c' = cell_header P c) as Eh.
  { apply header_prefix; try done. intros j Hj. apply H. destruct (cell_header P c) as [i n]. destruct E as [E _]. pose proof (local_range P n HP Hn). cbn [fst] in Hj. lia. }
  rewrite Eh in E'. destruct (cell_header P c) as [i n]. destruct E as [-> _], E' as [-> _]. done.
Qed.
Lemma cellSize_range P c : kind P -> bytes c -> 4 <= cellSizePtr pBt P c < us.
Proof. intros HP Hc. pose proof (cellSize_eq P c HP Hc) as E. destruct (cell_header P c). by destruct E. Qed.

(** The rowid of a cell of a table. *)
Definition cell_rowid (P : MemPage) (c : list Z) : Z := i64 (sqlite3GetVarint (drop (Z.to_nat (if hasData P then (getVarint32 c).1 else childPtrSize P)) c)).2.

Lemma parse_eq P c : kind P -> bytes c -> btreeParseCellPtr pBt P c =
  let '(i, n) := cell_header P c in
  {| nKey := if intKey P then cell_rowid P c else n; nData := if intKey P then n else 0; nPayload := n; nHeader := i; nLocal := local_part P n; iOverflow := if maxLocal P <? n then local_part P n + i else 0; nSize := Z.max 4 (local_size P n + i) |}.
Proof.
  intros HP Hc. pose proof (header_range P c HP Hc) as [Hi Hn]. destruct (cell_header P c) as [i n] eqn:Eh. cbn [fst snd] in Hi, Hn.
  pose proof (local_range P n HP Hn) as [Hl1 Hl2]. pose proof (k_min _ HP). pose proof (k_max _ HP). destruct Hbt as [[Hps Hus] _]. set (key := if intKey P then cell_rowid P c else n). set (data := if intKey P then n else 0).
  assert (btreeParseCellPtr pBt P c = if n <=? maxLocal P then let sz := u16 (i + n) in {| nKey := key; nData := data; nPayload := n; nHeader := i; nLocal := u16 n; iOverflow := 0; nSize := if sz <? 4 then 4 else sz |}
    else let surplus := i32 (u32 (minLocal P + u32 (n - minLocal P) mod (us - 4))) in let loc := if surplus <=? maxLocal P then u16 surplus else u16 (minLocal P) in let ovfl := u16 (loc + i) in
      {| nKey := key; nData := data; nPayload := n; nHeader := i; nLocal := loc; iOverflow := ovfl; nSize := u16 (ovfl + 4) |}) as ->.
  { unfold btreeParseCellPtr, key, data, cell_rowid. unfold cell_header in Eh. pose proof (k_child _ HP) as Hch. pose proof (k_data _ HP) as Hd. pose proof (k_leaf _ HP) as Hlf. destruct (intKey P); [destruct (hasData P)|].
    - cbn [andb] in Hd. symmetry in Hd. apply Z.eqb_eq in Hd. rewrite Hch, Hd in Eh. change (Z.to_nat (4 - 4 * 1)) with 0%nat in Eh. rewrite drop_0 in Eh. destruct (getVarint32 c) as [k v]. replace (4 - 4 * 1 + k) with k in Eh by lia.
      cbn [fst]. destruct (sqlite3GetVarint (drop (Z.to_nat k) c)) as [k2 key']. cbn [fst] in Eh. injection Eh as <- <-. rewrite uwrap_small by (unfold is_u; lia). done.
    - destruct (sqlite3GetVarint (drop (Z.to_nat (childPtrSize P)) c)) as [k2 key']. cbn [fst] in Eh. injection Eh as <- <-. rewrite uwrap_small by (unfold is_u; lia). done.
    - destruct (getVarint32 _) as [k v]. injection Eh as <- <-. rewrite uwrap_small by (unfold is_u; lia). done. }
  unfold is_u in Hn. unfold local_size, local_part in *. pose proof (Z.mod_pos_bound (n - minLocal P) (us - 4) ltac:(lia)). cbv zeta in *. destruct (Z.ltb_spec (maxLocal P) n).
  - rewrite (proj2 (Z.leb_gt n (maxLocal P))) by lia. rewrite (uwrap_small 32 (n - minLocal P)) by (unfold is_u; lia). set (s := minLocal P + (n - minLocal P) mod (us - 4)) in *.
    assert ((n - minLocal P) mod (us - 4) <= n - minLocal P) by (apply Z.mod_le; lia).
    rewrite (uwrap_small 32 s), (swrap_small 32 s) by (unfold is_u, is_i; change (2 ^ 32) with 4294967296; change (2 ^ (32 - 1)) with 2147483648; lia).
    assert ((if s <=? maxLocal P then u16 s else u16 (minLocal P)) = if maxLocal P <? s then minLocal P else s) as ->.
    { destruct (Z.leb_spec s (maxLocal P)), (Z.ltb_spec (maxLocal P) s); try lia; apply uwrap_small; unfold is_u; change (2 ^ 16) with 65536; lia. }
    set (q := if maxLocal P <? s then minLocal P else s) in *. rewrite (uwrap_small 16 (q + i)) by (unfold is_u; change (2 ^ 16) with 65536; lia). rewrite uwrap_small by (unfold is_u; change (2 ^ 16) with 65536; lia). f_equal. lia.
  - rewrite (proj2 (Z.leb_le n (maxLocal P))) by lia. rewrite !uwrap_small by (unfold is_u; change (2 ^ 16) with 65536; lia). f_equal. destruct (Z.ltb_spec (i + n) 4); lia.
Qed.

(** A large payload is not all on the page. *)
Lemma local_less P n : kind P -> maxLocal P < n -> minLocal P <= local_part P n < n.
Proof.
  intros HP Hn. pose proof (k_min _ HP). pose proof (k_max _ HP). destruct Hbt as [[Hps Hus] _]. unfold local_part. rewrite (proj2 (Z.ltb_lt _ _)) by done. cbv zeta. pose proof (Z.mod_pos_bound (n - minLocal P) (us - 4) ltac:(lia)). destruct (Z.ltb_spec (maxLocal P) (minLocal P + (n - minLocal P) mod (us - 4))); lia.
Qed.

(** C27. The short function that measures a cell agrees with the full parse of the cell, for every kind of page and whatever bytes the cell has; the parse divides the cell into a header, the local part of the
    payload and, when there is more payload, the number of an overflow page behind it. *)
Theorem cellSize_parse P c : kind P -> bytes c ->
  let info := btreeParseCellPtr pBt P c in
  nSize info = cellSizePtr pBt P c /\ 0 <= nLocal info <= maxLocal P /\
  nSize info = Z.max 4 (nHeader info + nLocal info + if iOverflow info =? 0 then 0 else 4) /\
  (if iOverflow info =? 0 then nLocal info = nPayload info else iOverflow info = nHeader info + nLocal info /\ minLocal P <= nLocal info < nPayload info).
Proof.
  intros HP Hc. pose proof (cellSize_eq P c HP Hc) as E. pose proof (header_range P c HP Hc) as [Hi Hn]. pose proof (parse_eq P c HP Hc) as Hp. destruct (cell_header P c) as [i n]. rewrite Hp. destruct E as [-> _]. cbn [fst snd nSize nLocal nHeader iOverflow nPayload] in *.
  pose proof (local_range P n HP Hn) as [Hl1 Hl2]. pose proof (k_min _ HP). unfold local_size in *. destruct (Z.ltb_spec (maxLocal P) n) as [Hm|Hm].
  - rewrite (proj2 (Z.eqb_neq _ 0)) by lia. pose proof (local_less P n HP Hm). split_and!; lia.
  - cbn [Z.eqb]. split_and!; try lia. unfold local_part. by rewrite (proj2 (Z.ltb_ge _ _)).
Qed.
End cell.
