(* ===== verification/PageSpec.v ===== *)
(** Pages as lists of cells.

    [page_ok] relates a page to the cells it holds. The operations on pages implement those on lists, as long as there is room; the room is exact. *)
From S2P Require Import Prelude Varint Page PageSpace PageCell.
Local Open Scope Z_scope.
Local Open Scope c_scope.

Definition cspans (cs : list (Z * list Z)) : list span := map (fun x => (x.1, len x.2)) cs.

Section page.
Context (pBt : BtShared).
Local Abbreviation us := (usableSize pBt).

Definition top_of (P : MemPage) : Z := get2byteNotZero (aData P) (hdrOffset P + 5).

(** The cells [cs] with their addresses, in the order of the pointers; [xs] are spans that were allocated and have no cell yet; [fs] are the free blocks. *)
Record page_ok (P : MemPage) (xs : list span) (cs : list (Z * list Z)) (fs : list span) : Prop := {
  pg_flags : decodeFlags pBt P (rd (aData P) (hdrOffset P)) = (SQLITE_OK, P);
  pg_hdr : hdrOffset P = 0 \/ hdrOffset P = 100;
  pg_off : cellOffset P = hdrOffset P + 12 - 4 * leaf P;
  pg_n : nCell P = len cs;
  pg_count : get2byte (aData P) (hdrOffset P + 3) = nCell P;
  pg_ptr : forall i x, cs !! i = Some x -> get2byte (aData P) (cellOffset P + 2 * Z.of_nat i) = x.1;
  pg_cell : forall x, x ∈ cs -> slice (aData P) x.1 (len x.2) = x.2 /\ cellSizePtr pBt P x.2 = len x.2;
  pg_first : iCellFirst P <= top_of P;
  pg_space : space pBt (aData P) (hdrOffset P) (top_of P) (xs ++ cspans cs) fs;
  pg_asc : asc 4 (top_of P) fs;
  pg_free : nFree P = us - iCellFirst P - total (cspans cs) }.

Context (Hbt : bt_ok pBt).

Lemma space_perm d hdr top ss ss' fs : ss ≡ₚ ss' -> space pBt d hdr top ss fs -> space pBt d hdr top ss' fs.
Proof. intros Hp [H1 H2 H3 H4 H5 H6 H7 H8 H9]. constructor; rewrite <- ?Hp; done. Qed.
Lemma frame_sub hdr a a' ss ss' d d' : ss' ⊆ ss -> a' <= a -> frame hdr a ss d d' -> frame hdr a' ss' d d'.
Proof. intros Hs Ha [H1 H2]. split; [done|]. intros j [Hj [Hk|(x & Hx & Hk)]]; apply H2; (split; [done|]); [left; lia|right; exists x; split; [by apply Hs|done]]. Qed.

Lemma page_kind P xs cs fs : page_ok P xs cs fs -> kind pBt P.
Proof. intros H. eapply decode_kind; [done| |apply (pg_flags _ _ _ _ H)]. apply rd_byte. apply (sp_bytes _ _ _ _ _ _ (pg_space _ _ _ _ H)). Qed.
Lemma page_off P xs cs fs : page_ok P xs cs fs -> hdrOffset P + 8 <= cellOffset P <= 112.
Proof. intros H. pose proof (pg_off _ _ _ _ H). pose proof (pg_hdr _ _ _ _ H). pose proof (k_leaf _ _ (page_kind _ _ _ _ H)). lia. Qed.
Lemma page_inside P xs cs fs x : page_ok P xs cs fs -> x ∈ cs -> inside (top_of P) us (x.1, len x.2).
Proof.
  intros H Hx. pose proof (space_used _ _ _ _ _ _ (pg_space _ _ _ _ H)) as Hu. apply (proj1 (Forall_forall _ _) Hu). apply elem_of_app. right. apply list_elem_of_fmap. by exists x.
Qed.
Lemma page_bytes P xs cs fs x : page_ok P xs cs fs -> x ∈ cs -> bytes x.2.
Proof. intros H Hx. destruct (pg_cell _ _ _ _ H x Hx) as [<- _]. unfold slice. apply Forall_take, Forall_drop. apply (sp_bytes _ _ _ _ _ _ (pg_space _ _ _ _ H)). Qed.

(** Reading a cell where it is. *)
Lemma cell_size_at P d x : kind pBt P -> bytes d -> 0 <= x.1 -> x.1 + len x.2 <= len d -> slice d x.1 (len x.2) = x.2 -> cellSizePtr pBt P x.2 = len x.2 -> cellSizePtr pBt P (cell_at d x.1) = len x.2.
Proof.
  intros HP Hd H0 Hl Hs Hc. rewrite <- Hc. assert (bytes x.2) by (rewrite <- Hs; by apply Forall_take, Forall_drop). apply cellSize_prefix; try done; [by apply Forall_drop|]. rewrite Hc. intros j Hj.
  rewrite <- Hs. unfold cell_at. rewrite rd_drop, rd_slice by lia. done.
Qed.
Lemma page_cells_ok P xs cs fs : page_ok P xs cs fs -> page_cells pBt P = map snd cs.
Proof.
  intros H. pose proof (page_kind _ _ _ _ H) as HP. pose proof (pg_space _ _ _ _ H) as Hsp. pose proof (sp_bytes _ _ _ _ _ _ Hsp) as Hb. pose proof (sp_len _ _ _ _ _ _ Hsp) as Hl. pose proof (sp_lo _ _ _ _ _ _ Hsp). destruct Hbt as [[Hps Hus] _].
  unfold page_cells. rewrite (pg_n _ _ _ _ H), Nat2Z.id. apply list_eq. intros i. rewrite !list_lookup_fmap. destruct (cs !! i) as [x|] eqn:E.
  - rewrite lookup_seq_lt by (by apply lookup_lt_Some in E). cbn [fmap option_fmap option_map]. f_equal. unfold page_cell. rewrite (pg_ptr _ _ _ _ H (0 + i) x E). pose proof (list_elem_of_lookup_2 _ _ _ E) as Hx.
    destruct (pg_cell _ _ _ _ H x Hx) as [E1 E2]. pose proof (page_inside _ _ _ _ x H Hx) as Hi. unfold inside in Hi. cbn in Hi. rewrite (cell_size_at P (aData P) x); [done|done|done|lia|lia|done|done].
  - rewrite lookup_seq_ge by (by apply lookup_ge_None in E). done.
Qed.

(** The room on a page is what the cells leave. *)
Lemma total_cspans cs : total (cspans cs) = Z.of_nat (length (concat (map snd cs))).
Proof. induction cs as [|x cs IH]; [done|]. cbn [cspans map total concat snd]. rewrite length_app. fold (cspans cs). lia. Qed.

(** * Cells packed at the end of a page *)

Fixpoint packed (b : Z) (l : list (list Z)) : list (Z * list Z) := match l with [] => [] | c :: l => (b - len c, c) :: packed (b - len c) l end.

Lemma packed_snd b l : map snd (packed b l) = l.
Proof. revert b. induction l as [|c l IH]; intros b; cbn; [done|]. by rewrite IH. Qed.
Lemma packed_length b l : length (packed b l) = length l.
Proof. rewrite <- (packed_snd b l) at 2. by rewrite length_map. Qed.
Lemma packed_app b l l' : packed b (l ++ l') = packed b l ++ packed (b - total (cspans (packed b l))) l'.
Proof. revert b. induction l as [|c l IH]; intros b; cbn [packed cspans map total app snd]; [f_equal; lia|]. rewrite IH. do 3 f_equal. unfold cspans. lia. Qed.
Lemma packed_total b b' l : total (cspans (packed b l)) = total (cspans (packed b' l)).
Proof. by rewrite !total_cspans, !packed_snd. Qed.
Lemma packed_inside b l : Forall (fun c => 4 <= len c) l -> Forall (inside (b - total (cspans (packed b l))) b) (cspans (packed b l)).
Proof.
  revert b. induction l as [|c l IH]; intros b; [by constructor|]. intros [Hc Hl]%Forall_cons. cbn [packed cspans map total snd fst]. specialize (IH (b - len c) Hl). fold (cspans (packed (b - len c) l)).
  assert (0 <= total (cspans (packed (b - len c) l))) by (rewrite total_cspans; lia). constructor; [unfold inside; cbn; lia|]. eapply Forall_impl; [done|]. unfold inside. intros x Hx. lia.
Qed.
Lemma packed_disj b l : Forall (fun c => 4 <= len c) l -> disj (cspans (packed b l)).
Proof.
  revert b. induction l as [|c l IH]; intros b; [done|]. intros [Hc Hl]%Forall_cons. cbn [packed cspans map disj snd fst]. fold (cspans (packed (b - len c) l)). split; [|by apply IH].
  eapply Forall_impl; [by apply packed_inside|]. unfold inside, apart. intros x Hx. cbn. lia.
Qed.

(** ** Defragmentation *)

(** After the loop has packed the cells [ds] of [ds ++ cs]; [d0] is the data before. *)
Record packing (P : MemPage) (d0 : list Z) (ds : list (list Z)) (cs : list (Z * list Z)) (d : list Z) : Prop := {
  dg_len : length d = length d0; dg_bytes : bytes d;
  dg_new : forall i x, packed us ds !! i = Some x -> get2byte d (cellOffset P + 2 * Z.of_nat i) = x.1 /\ slice d x.1 (len x.2) = x.2;
  dg_old : forall i x, cs !! i = Some x -> get2byte d (cellOffset P + 2 * Z.of_nat (length ds + i)) = x.1;
  dg_low : forall j, 0 <= j < cellOffset P -> rd d j = rd d0 j }.

Lemma packing_step P d0 ds x cs d n : packing P d0 ds (x :: cs) d -> n = Z.of_nat (length ds) + Z.of_nat (length (x :: cs)) -> us <= len d0 <= 65536 -> 0 <= cellOffset P -> bytes x.2 ->
  Forall (fun c => 4 <= len c) (ds ++ [x.2]) -> cellOffset P + 2 * n <= us - total (cspans (packed us (ds ++ [x.2]))) ->
  let b := us - total (cspans (packed us (ds ++ [x.2]))) in
  packing P d0 (ds ++ [x.2]) cs (put2byte (splice d b x.2) (cellOffset P + 2 * len ds) b).
Proof.
  intros [H1 H2 H3 H4 H5] Hn Hl Ho Hx Hsz Hb b. cbn [length] in Hn. assert (total (cspans (packed us (ds ++ [x.2]))) = total (cspans (packed us ds)) + len x.2) as Et by (rewrite packed_app; unfold cspans; rewrite map_app, total_app; cbn [map packed total snd]; lia).
  assert (0 <= total (cspans (packed us ds))) as Htn by (rewrite total_cspans; lia). pose proof Hsz as [Hds Hxl]%Forall_app. apply Forall_cons in Hxl as [Hxl _].
  assert (forall i y, packed us ds !! i = Some y -> b + len x.2 <= y.1 /\ y.1 + len y.2 <= us) as Hpk.
  { intros i y Hy. pose proof (proj1 (Forall_forall _ _) (packed_inside us ds Hds) (y.1, len y.2)) as Hi. unfold inside in Hi. cbn in Hi. unfold b. rewrite Et. destruct Hi; [|lia]. apply list_elem_of_fmap. exists y. split; [done|by eapply list_elem_of_lookup_2]. }
  assert (length (splice d b x.2) = length d) as Hls by (apply length_splice; unfold b; lia).
  assert (bytes (splice d b x.2)) as Hbs by by apply bytes_splice.
  assert (forall j, 0 <= j -> j < b \/ b + len x.2 <= j -> j < cellOffset P + 2 * len ds \/ cellOffset P + 2 * len ds + 2 <= j -> rd (put2byte (splice d b x.2) (cellOffset P + 2 * len ds) b) j = rd d j) as Hout.
  { intros j Hj1 Hj2 Hj3. rewrite rd_put2_ne by lia. apply rd_splice_out; unfold b in *; lia. }
  constructor.
  - by rewrite length_put2, Hls.
  - by apply bytes_put2.
  - intros i y Hy. rewrite packed_app in Hy. apply lookup_app_Some in Hy as [Hy|[Hi Hy]].
    + pose proof (lookup_lt_Some _ _ _ Hy) as Hlt. rewrite packed_length in Hlt. destruct (H3 i y Hy) as [E1 E2]. destruct (Hpk i y Hy) as [P1 P2]. split.
      * rewrite <- E1. apply get2_ext; apply Hout; lia.
      * rewrite <- E2 at 2. apply slice_ext; try (rewrite ?length_put2; unfold b in *; lia). intros j Hj. apply Hout; lia.
    + rewrite packed_length in *. cbn [packed] in Hy. apply list_lookup_singleton_Some in Hy as [Hi0 <-]. assert (i = length ds) as -> by lia. cbn [fst snd]. replace (us - total (cspans (packed us ds)) - len x.2) with b by (unfold b; lia). split.
      * apply get2_put2; [done|lia|unfold b in *; lia|unfold b in *; lia].
      * transitivity (slice (splice d b x.2) b (len x.2)); [|apply slice_splice; unfold b; lia]. apply slice_ext; try (rewrite ?length_put2; unfold b in *; lia). intros j Hj. apply rd_put2_ne; unfold b in *; lia.
  - intros i y Hy. rewrite length_app. cbn [length]. rewrite <- (H4 (S i) y Hy). replace (Z.of_nat (length ds + S i)) with (Z.of_nat (length ds + 1 + i)) by lia. pose proof (lookup_lt_Some _ _ _ Hy). apply get2_ext; apply Hout; unfold b in *; lia.
  - intros j Hj. rewrite Hout by (unfold b in *; lia). by apply H5.
Qed.

Lemma cells_min P xs cs fs : page_ok P xs cs fs -> Forall (fun c => 4 <= len c) (map snd cs).
Proof. intros H. apply Forall_forall. intros c (x & -> & Hx)%list_elem_of_fmap. pose proof (page_inside _ _ _ _ x H Hx) as Hi. unfold inside in Hi. cbn in Hi. lia. Qed.
Lemma cells_total P cs fs : page_ok P [] cs fs -> total (cspans cs) <= us - top_of P.
Proof.
  intros H. pose proof (pg_space _ _ _ _ H) as Hsp. pose proof (sp_lo _ _ _ _ _ _ Hsp). apply inside_total; [lia| |apply (space_used _ _ _ _ _ _ Hsp)].
  by destruct (proj1 (disj_app _ _) (sp_disj _ _ _ _ _ _ Hsp)).
Qed.

Lemma defrag_loop_ok P cs fs temp : page_ok P [] cs fs -> bytes temp -> len temp = pageSize pBt -> (forall j, top_of P <= j < us -> rd temp j = rd (aData P) j) ->
  forall rest pre d, cs = pre ++ rest -> packing P (aData P) (map snd pre) rest d ->
  exists d', defrag_loop pBt (length rest) P temp (len pre) (us - total (cspans (packed us (map snd pre)))) d = (d', Some (us - total (cspans cs))) /\ packing P (aData P) (map snd cs) [] d'.
Proof.
  intros H Htb Htl Ht. pose proof (page_kind _ _ _ _ H) as HP. pose proof (pg_space _ _ _ _ H) as Hsp. pose proof (sp_bytes _ _ _ _ _ _ Hsp) as Hb. pose proof (sp_len _ _ _ _ _ _ Hsp) as Hl. pose proof (sp_lo _ _ _ _ _ _ Hsp) as Hlo.
  pose proof (page_off _ _ _ _ H) as Hoff. pose proof (pg_hdr _ _ _ _ H) as Hh. pose proof (pg_first _ _ _ _ H) as Hfirst. unfold iCellFirst in Hfirst. pose proof (pg_n _ _ _ _ H) as Hn. pose proof (cells_min _ _ _ _ H) as Hmin. pose proof (cells_total _ _ _ H) as Htot. destruct Hbt as [[Hps Hus] _].
  induction rest as [|x rest IH]; intros pre d -> Hpk.
  - exists d. rewrite app_nil_r in *. cbn [length defrag_loop]. split; [|done]. by rewrite !total_cspans, packed_snd.
  - cbn [length defrag_loop]. assert (x ∈ pre ++ x :: rest) as Hx by (apply elem_of_app; right; left). pose proof (page_inside _ _ _ _ x H Hx) as Hi. unfold inside in Hi. cbn in Hi. destruct (pg_cell _ _ _ _ H x Hx) as [Es Ec].
    pose proof (page_bytes _ _ _ _ x H Hx) as Hxb. replace (cellOffset P + len pre * 2) with (cellOffset P + 2 * len (map snd pre)) by (rewrite length_map; lia).
    pose proof (dg_old _ _ _ _ _ Hpk 0%nat x eq_refl) as Eptr. rewrite Nat.add_0_r in Eptr. rewrite Eptr. unfold iCellFirst. rewrite (proj2 (Z.ltb_ge x.1 _)), (proj2 (Z.ltb_ge (us - 4) x.1)) by lia. cbn [orb].
    assert (slice temp x.1 (len x.2) = x.2) as Ets by (rewrite <- Es at 2; apply slice_ext; try lia; intros j Hj; apply Ht; lia). rewrite (cell_size_at P temp x) by (done || lia). rewrite Ets.
    assert (total (cspans (packed us (map snd pre ++ [x.2]))) = total (cspans (packed us (map snd pre))) + len x.2) as Et by (rewrite packed_app; unfold cspans; rewrite map_app, total_app; cbn [map packed total snd]; lia).
    assert (total (cspans (packed us (map snd pre ++ [x.2]))) <= total (cspans (pre ++ x :: rest))) as Hle.
    { rewrite !total_cspans, packed_snd, map_app. cbn [map]. rewrite !concat_app, !length_app. cbn [concat]. rewrite app_nil_r, !length_app. lia. }
    replace (us - total (cspans (packed us (map snd pre))) - len x.2) with (us - total (cspans (packed us (map snd pre ++ [x.2])))) by lia. rewrite (proj2 (Z.ltb_ge _ (cellOffset P + 2 * nCell P))), (proj2 (Z.ltb_ge us _)) by lia. cbn [orb].
    destruct (IH (pre ++ [x]) (put2byte (splice d (us - total (cspans (packed us (map snd pre ++ [x.2])))) x.2) (cellOffset P + 2 * len (map snd pre)) (us - total (cspans (packed us (map snd pre ++ [x.2])))))) as (d' & E & Hd').
    + by rewrite <- app_assoc.
    + rewrite map_app. cbn [map]. apply (packing_step P (aData P) (map snd pre) x rest d (nCell P)); try done; try lia.
      * rewrite Hn, length_app, length_map. lia.
      * rewrite map_app in Hmin. cbn [map] in Hmin. apply Forall_app in Hmin as [M1 M2]. apply Forall_cons in M2 as [M2 _]. apply Forall_app_2; [done|by constructor].
    + exists d'. rewrite length_app in E. cbn [length] in E. rewrite map_app in E. cbn [map] in E. replace (len pre + 1) with (Z.of_nat (length pre + 1)) by lia. split; [exact E|done].
Qed.

Lemma decode_same P P' fl : decodeFlags pBt P fl = (SQLITE_OK, P) -> intKey P' = intKey P -> leaf P' = leaf P -> hasData P' = hasData P -> childPtrSize P' = childPtrSize P -> maxLocal P' = maxLocal P ->
  minLocal P' = minLocal P -> decodeFlags pBt P' fl = (SQLITE_OK, P').
Proof.
  intros E E1 E2 E3 E4 E5 E6. unfold decodeFlags in *. destruct (_ =? (PTF_LEAFDATA .| PTF_INTKEY)); [|destruct (_ =? PTF_ZERODATA); [|done]]; f_equal;
    apply (f_equal snd) in E; cbn [snd] in E; destruct P', P; cbn in *; injection E as F1 F2 F3 F4 F5 F6; subst; reflexivity.
Qed.

Lemma defragmentPage_ok P cs fs temp : page_ok P [] cs fs -> bytes temp -> len temp = pageSize pBt ->
  exists d, defragmentPage pBt P temp = (SQLITE_OK, set_data P d) /\ page_ok (set_data P d) [] (packed us (map snd cs)) [] /\ top_of (set_data P d) = iCellFirst P + nFree P /\ rd d (hdrOffset P + 7) = 0.
Proof.
  intros H Htb Htl. pose proof (pg_space _ _ _ _ H) as Hsp. pose proof (sp_bytes _ _ _ _ _ _ Hsp) as Hb. pose proof (sp_len _ _ _ _ _ _ Hsp) as Hl. pose proof (sp_lo _ _ _ _ _ _ Hsp) as Hlo. pose proof (page_off _ _ _ _ H) as Hoff.
  pose proof (pg_hdr _ _ _ _ H) as Hh. pose proof (pg_first _ _ _ _ H) as Hfirst. pose proof (pg_n _ _ _ _ H) as Hn. pose proof (cells_min _ _ _ _ H) as Hmin. pose proof (cells_total _ _ _ H) as Htot. pose proof (pg_free _ _ _ _ H) as Hfree. destruct Hbt as [[Hps Hus] _].
  unfold defragmentPage. set (hdr := hdrOffset P) in *. set (cb := get2byte (aData P) (hdr + 5)). pose proof (sp_top _ _ _ _ _ _ Hsp) as Htop. rewrite notZero_eq in Htop by done. fold cb in Htop.
  assert (0 <= cb <= us /\ cb <= top_of P) as Hcb by (pose proof (get2byte_range (aData P) (hdr + 5) Hb) as Hr; fold cb in Hr; destruct (Z.eqb_spec cb 0); lia).
  assert (len (slice (aData P) cb (us - cb)) = us - cb) as Hls by (apply length_slice; lia). set (temp' := splice temp cb (slice (aData P) cb (us - cb))).
  assert (bytes temp') as Htb' by (apply bytes_splice; [done|by apply Forall_take, Forall_drop]). assert (len temp' = pageSize pBt) as Htl' by (unfold temp'; rewrite length_splice; lia).
  destruct (defrag_loop_ok P cs fs temp' H Htb' Htl') with (rest := cs) (pre := @nil (Z * list Z)) (d := aData P) as (d1 & E & Hpk).
  { intros j Hj. unfold temp'. rewrite rd_splice_in by lia. rewrite rd_slice by lia. f_equal. lia. }
  { done. }
  { constructor; [done|done|by intros i x|apply (pg_ptr _ _ _ _ H)|done]. }
  cbn [map packed cspans total length] in E. change (Z.of_nat 0) with 0 in E. rewrite Z.sub_0_r in E. assert (Z.to_nat (nCell P) = length cs) as -> by lia. rewrite E. set (b := us - total (cspans cs)) in *. assert (b - iCellFirst P = nFree P) as Ebf by (unfold b; lia). rewrite Ebf, Z.eqb_refl. cbn [negb].
  set (d2 := put2byte d1 (hdr + 5) b). set (d3 := wr (wr (wr d2 (hdr + 1) 0) (hdr + 2) 0) (hdr + 7) 0). set (d := splice d3 (iCellFirst P) (replicate (Z.to_nat (nFree P)) 0)). destruct Hpk as [G1 G2 G3 _ G5].
  assert (length d3 = length d1) as Hl3 by (unfold d3, d2; by rewrite !length_wr, length_put2). assert (0 <= total (cspans cs)) as Ht0 by (rewrite total_cspans; lia).
  assert (bytes d3) as Hb3 by (unfold d3, d2; repeat (apply bytes_wr; [|done]); by apply bytes_put2). assert (iCellFirst P = cellOffset P + 2 * len cs) as Hfi by (unfold iCellFirst; lia).
  assert (bytes d) as Hbd by (apply bytes_splice; [done|by apply Forall_replicate]). assert (length d = length d1) as Hld by (unfold d; rewrite length_splice; rewrite ?length_replicate; lia).
  assert (forall j, 0 <= j -> ~ (hdr + 1 <= j < hdr + 3) -> ~ (hdr + 5 <= j < hdr + 8) -> j < iCellFirst P \/ b <= j -> rd d j = rd d1 j) as Hout.
  { intros j Hj1 Hj2 Hj3 Hj4. unfold d. rewrite rd_splice_out by (rewrite ?length_replicate; lia). unfold d3, d2. rewrite !rd_wr_ne, rd_put2_ne by lia. done. }
  assert (forall j, 0 <= j < hdr + 8 -> rd d j = rd d3 j) as Hhd by (intros j Hj; unfold d; apply rd_splice_out; rewrite ?length_replicate; lia).
  assert (get2byteNotZero d (hdr + 5) = b) as Etop.
  { rewrite (notZero_ext d2 d) by (rewrite Hhd by lia; unfold d3; rewrite !rd_wr_ne by lia; done). apply notZero_put2; [done|lia|lia|lia]. }
  assert (map snd (packed us (map snd cs)) = map snd cs) as Esnd by apply packed_snd.
  assert (total (cspans (packed us (map snd cs))) = total (cspans cs)) as Etot by (by rewrite !total_cspans, packed_snd).
  exists d. split; [done|]. split_and!; [constructor|unfold top_of; cbn [aData set_data hdrOffset]; fold hdr; rewrite Etop; lia|].
  - cbn [aData set_data hdrOffset]. fold hdr. rewrite Hout by lia. rewrite G5 by lia. eapply decode_same; [apply (pg_flags _ _ _ _ H)|done..].
  - done.
  - apply (pg_off _ _ _ _ H).
  - cbn [nCell set_data]. rewrite packed_length, length_map. done.
  - cbn [aData set_data hdrOffset nCell]. fold hdr. rewrite <- (pg_count _ _ _ _ H). fold hdr. apply get2_ext; rewrite Hout, G5 by lia; done.
  - intros i x Hx. cbn [aData set_data cellOffset]. destruct (G3 i x Hx) as [<- _]. pose proof (lookup_lt_Some _ _ _ Hx) as Hlt. rewrite packed_length, length_map in Hlt. apply get2_ext; apply Hout; lia.
  - intros x [i Hx]%list_elem_of_lookup. cbn [aData set_data]. destruct (G3 i x Hx) as [_ Es]. pose proof (list_elem_of_lookup_2 _ _ _ Hx) as Hxe. split.
    + pose proof (proj1 (Forall_forall _ _) (packed_inside us (map snd cs) Hmin) (x.1, len x.2)) as Hi. rewrite Etot in Hi. fold b in Hi. unfold inside in Hi. cbn in Hi. destruct Hi as (I1 & I2 & I3); [apply list_elem_of_fmap; by exists x|].
      rewrite <- Es at 2. apply slice_ext; try lia. intros j Hj. apply Hout; lia.
    + assert (x.2 ∈ map snd cs) as Hc by (rewrite <- Esnd; apply list_elem_of_fmap; by exists x). apply list_elem_of_fmap in Hc as (y & -> & Hy). by destruct (pg_cell _ _ _ _ H y Hy).
  - unfold top_of. cbn [aData set_data hdrOffset]. fold hdr. rewrite Etop. unfold iCellFirst. cbn [cellOffset nCell set_data]. fold (iCellFirst P). lia.
  - unfold top_of. cbn [aData set_data hdrOffset]. fold hdr. rewrite Etop. cbn [app]. constructor.
    + done.
    + lia.
    + done.
    + lia.
    + cbn [chain]. rewrite get2byte_eq by done. rewrite !Hhd by lia. unfold d3. replace (hdr + 1 + 1) with (hdr + 2) by lia. rewrite (rd_wr_ne _ (hdr + 7)), (rd_wr_ne _ (hdr + 2) (hdr + 1)), rd_wr_eq by (rewrite ?length_wr; unfold d2; rewrite ?length_put2; lia).
      rewrite (rd_wr_ne _ (hdr + 7)), rd_wr_eq by (rewrite ?length_wr; unfold d2; rewrite ?length_put2; lia). done.
    + done.
    + rewrite app_nil_r. unfold b. rewrite <- Etot. by apply packed_inside.
    + rewrite app_nil_r. by apply packed_disj.
    + rewrite app_nil_r, Etot, Hhd by lia. unfold d3. rewrite rd_wr_eq by (rewrite ?length_wr; unfold d2; rewrite ?length_put2; lia). lia.
  - done.
  - cbn [nFree set_data]. unfold iCellFirst. cbn [cellOffset nCell set_data]. fold (iCellFirst P). rewrite Etot. lia.
  - rewrite Hhd by lia. unfold d3. apply rd_wr_eq. rewrite !length_wr. unfold d2. rewrite length_put2. lia.
Qed.

(** ** Allocation *)

(** The space changes, but no cell does. *)
Lemma page_reframe P xs cs fs xs' d top fs' : page_ok P xs cs fs -> frame (hdrOffset P) (iCellFirst P) (cspans cs) (aData P) d -> space pBt d (hdrOffset P) top (xs' ++ cspans cs) fs' -> asc 4 top fs' -> iCellFirst P <= top ->
  page_ok (set_data P d) xs' cs fs'.
Proof.
  intros H [Hl Hk] Hsp' Hasc Ht. pose proof (pg_space _ _ _ _ H) as Hsp. pose proof (sp_len _ _ _ _ _ _ Hsp) as Hlen. pose proof (sp_lo _ _ _ _ _ _ Hsp) as Hlo. pose proof (page_off _ _ _ _ H) as Hoff. pose proof (pg_n _ _ _ _ H) as Hn.
  pose proof (pg_hdr _ _ _ _ H) as Hh. pose proof (sp_top _ _ _ _ _ _ Hsp') as Etop. destruct Hbt as [[Hps Hus] _].
  assert (forall j, 0 <= j < iCellFirst P -> ~ (hdrOffset P + 1 <= j < hdrOffset P + 3) -> ~ (hdrOffset P + 5 <= j < hdrOffset P + 8) -> rd d j = rd (aData P) j) as Hlow by (intros j H1 H2 H3; apply Hk; split; [lia|left; lia]). unfold iCellFirst in Hlow.
  constructor; cbn [aData set_data hdrOffset cellOffset nCell nFree leaf]; try apply H.
  - rewrite Hlow by lia. eapply decode_same; [apply (pg_flags _ _ _ _ H)|done..].
  - rewrite <- (pg_count _ _ _ _ H). apply get2_ext; apply Hlow; lia.
  - intros i x Hx. rewrite <- (pg_ptr _ _ _ _ H i x Hx). pose proof (lookup_lt_Some _ _ _ Hx). apply get2_ext; apply Hlow; lia.
  - intros x Hx. destruct (pg_cell _ _ _ _ H x Hx) as [E1 E2]. split; [|done]. pose proof (page_inside _ _ _ _ x H Hx) as Hi. unfold inside in Hi. cbn in Hi. rewrite <- E1 at 2. apply slice_ext; try lia. intros j Hj. apply Hk. split; [lia|]. right.
    exists (x.1, len x.2). split; [apply list_elem_of_fmap; by exists x|done].
  - unfold top_of. cbn [aData set_data hdrOffset]. by rewrite Etop.
  - unfold top_of. cbn [aData set_data hdrOffset]. by rewrite Etop.
  - unfold top_of. cbn [aData set_data hdrOffset]. by rewrite Etop.
Qed.

Definition alloc_ok (P : MemPage) (cs : list (Z * list Z)) (n : Z) (r : Z * MemPage * Z) : Prop :=
  exists d idx cs' fs', r = (SQLITE_OK, set_data P d, idx) /\ page_ok (set_data P d) [(idx, n)] cs' fs' /\ map snd cs' = map snd cs /\ iCellFirst P + 2 <= top_of (set_data P d).

Lemma gap_page P cs fs n : page_ok P [] cs fs -> 4 <= n -> iCellFirst P + 2 + n <= top_of P ->
  alloc_ok P cs n (SQLITE_OK, set_data P (put2byte (aData P) (hdrOffset P + 5) (top_of P - n)), top_of P - n).
Proof.
  intros H Hn Ht. pose proof (page_off _ _ _ _ H) as Hoff. pose proof (pg_n _ _ _ _ H) as Hc. destruct (gap_take pBt (proj1 Hbt) _ _ _ _ _ (iCellFirst P) n (pg_space _ _ _ _ H) Hn) as [Hsp Hfr]; [lia|unfold iCellFirst; lia|].
  exists (put2byte (aData P) (hdrOffset P + 5) (top_of P - n)), (top_of P - n), cs, fs. split; [done|]. split; [|split; [done|unfold top_of at 1; cbn [aData set_data hdrOffset]; rewrite (sp_top _ _ _ _ _ _ Hsp); lia]].
  eapply (page_reframe P [] cs fs [(top_of P - n, n)]); [done|done|done| |lia]. apply (asc_weaken 4 4 (top_of P)); [lia|lia|apply (pg_asc _ _ _ _ H)].
Qed.
Lemma take_gap_ok P cs fs temp n : page_ok P [] cs fs -> bytes temp -> len temp = pageSize pBt -> 4 <= n -> n + 2 <= nFree P -> alloc_ok P cs n (take_gap pBt P temp n (top_of P)).
Proof.
  intros H Htb Htl Hn Hfree. unfold take_gap. destruct (Z.ltb_spec (top_of P) (iCellFirst P + 2 + n)).
  - destruct (defragmentPage_ok P cs fs temp H Htb Htl) as (d & -> & H' & Htop & _). change (SQLITE_OK =? 0) with true. cbn [negb]. fold (top_of (set_data P d)).
    destruct (gap_page (set_data P d) _ [] n H' Hn) as (d2 & idx & cs' & fs' & E & A1 & A2 & A3); [rewrite Htop; change (iCellFirst (set_data P d)) with (iCellFirst P); lia|]. rewrite E.
    exists d2, idx, cs', fs'. split; [done|]. split; [exact A1|]. split; [by rewrite A2, packed_snd|exact A3].
  - change (SQLITE_OK =? 0) with true. cbn [negb]. apply (gap_page P cs fs); [done|done|lia].
Qed.

Lemma allocateSpace_ok P cs fs temp n : page_ok P [] cs fs -> bytes temp -> len temp = pageSize pBt -> 4 <= n -> n + 2 <= nFree P -> exists r, allocateSpace pBt P temp n = Some r /\ alloc_ok P cs n r.
Proof.
  intros H Htb Htl Hn Hfree. unfold allocateSpace. fold (top_of P). pose proof (pg_first _ _ _ _ H) as Hfirst. rewrite (proj2 (Z.ltb_ge (top_of P) _)) by lia. pose proof (page_off _ _ _ _ H) as Hoff. pose proof (pg_n _ _ _ _ H) as Hc.
  destruct (Z.leb_spec 60 (rd (aData P) (hdrOffset P + 7))).
  - destruct (defragmentPage_ok P cs fs temp H Htb Htl) as (d & -> & H' & Htop & _). change (SQLITE_OK =? 0) with true. cbn [negb]. change (get2byteNotZero (aData (set_data P d)) (hdrOffset P + 5)) with (top_of (set_data P d)). eexists. split; [done|].
    destruct (take_gap_ok (set_data P d) _ [] temp n H' Htb Htl Hn Hfree) as (d2 & idx & cs' & fs' & E & A1 & A2 & A3). exists d2, idx, cs', fs'. rewrite E. split; [done|]. split; [exact A1|]. split; [by rewrite A2, packed_snd|exact A3].
  - destruct (Z.leb_spec (iCellFirst P + 2) (top_of P)); [|eexists; split; [done|]; by apply (take_gap_ok P cs fs)]. pose proof (pg_space _ _ _ _ H) as Hsp. pose proof (free_count _ _ _ _ _ _ Hsp) as Hcnt.
    pose proof (find_slot_ok pBt (proj1 Hbt) (aData P) (hdrOffset P) (top_of P) (cspans cs) (iCellFirst P) n Hfirst Hn ltac:(done) fs [] (Z.to_nat us) ltac:(lia) Hsp (pg_asc _ _ _ _ H)) as Hslot. cbn [last_link app] in Hslot.
    destruct Hslot as [->|(d & idx & fs' & -> & Hsp' & Hasc & Hfr)]; [eexists; split; [done|]; by apply (take_gap_ok P cs fs)|]. eexists. split; [done|]. exists d, idx, cs, fs'. split; [done|]. split; [by apply (page_reframe P [] cs fs [(idx, n)] d (top_of P))|]. split; [done|].
    unfold top_of at 1. cbn [aData set_data hdrOffset]. rewrite (sp_top _ _ _ _ _ _ Hsp'). done.
Qed.

(** ** Removal of a cell *)

(** Bytes below the content area that are not in the header do not matter for the space. *)
Lemma space_low d d' hdr top ss fs : space pBt d hdr top ss fs -> length d' = length d -> bytes d' -> (forall j, 0 <= j -> (hdr + 1 <= j < hdr + 3) \/ (hdr + 5 <= j < hdr + 8) \/ top <= j -> rd d' j = rd d j) -> space pBt d' hdr top ss fs.
Proof.
  intros [H1 H2 H3 H4 H5 H6 H7 H8 H9] Hl Hb Hrd. constructor; try done.
  - by rewrite Hl.
  - rewrite <- H3. apply notZero_ext; apply Hrd; lia.
  - apply (chain_ext d _ (hdr + 1)); [done|apply get2_ext; apply Hrd; lia|]. intros x Hx. pose proof (asc_ge 0 _ fs x ltac:(lia) H6 Hx). split; apply get2_ext; apply Hrd; lia.
  - rewrite <- H9. apply Hrd; lia.
Qed.
Lemma cspans_delete cs i x : cs !! i = Some x -> cspans cs ≡ₚ (x.1, len x.2) :: cspans (delete i cs).
Proof. intros Hx. unfold cspans. apply (delete_Permutation cs i x) in Hx. change ((x.1, len x.2) :: map (fun x => (x.1, len x.2)) (delete i cs)) with (map (fun x : Z * list Z => (x.1, len x.2)) (x :: delete i cs)). by apply Permutation_map. Qed.

Lemma dropCell_ok fuel P cs fs i x : page_ok P [] cs fs -> us <= Z.of_nat fuel -> cs !! i = Some x ->
  exists d fs', let P' := set_data (set_counts P (nFree P + len x.2 + 2) (nCell P - 1)) d in
  dropCell pBt fuel P (Z.of_nat i) (len x.2) = Some (SQLITE_OK, P') /\ page_ok P' [] (delete i cs) fs'.
Proof.
  intros H Hfuel Hi. pose proof (pg_space _ _ _ _ H) as Hsp. pose proof (sp_bytes _ _ _ _ _ _ Hsp) as Hb. pose proof (sp_len _ _ _ _ _ _ Hsp) as Hl. pose proof (sp_lo _ _ _ _ _ _ Hsp) as Hlo. pose proof (page_off _ _ _ _ H) as Hoff.
  pose proof (pg_hdr _ _ _ _ H) as Hh. pose proof (pg_first _ _ _ _ H) as Hfirst. pose proof (pg_n _ _ _ _ H) as Hn. pose proof (cells_total _ _ _ H) as Htot. pose proof (pg_free _ _ _ _ H) as Hfree. destruct Hbt as [[Hps Hus] _].
  pose proof (list_elem_of_lookup_2 _ _ _ Hi) as Hx. pose proof (page_inside _ _ _ _ x H Hx) as Hin. unfold inside in Hin. cbn in Hin. pose proof (lookup_lt_Some _ _ _ Hi) as Hlt. set (hdr := hdrOffset P) in *.
  unfold dropCell. fold hdr. rewrite (pg_ptr _ _ _ _ H i x Hi). assert (get2byte (aData P) (hdr + 5) <= top_of P) as Hraw by (unfold top_of; fold hdr; rewrite notZero_eq by done; pose proof (get2byte_range (aData P) (hdr + 5) Hb); destruct (_ =? 0); lia).
  rewrite (proj2 (Z.ltb_ge x.1 _)), (proj2 (Z.ltb_ge us _)) by lia. cbn [orb]. pose proof (cspans_delete cs i x Hi) as Hperm. cbn [app] in Hsp.
  destruct (freeSpace_ok pBt (proj1 Hbt) P (top_of P) (x.1, len x.2) (cspans (delete i cs)) fs (iCellFirst P) fuel (space_perm _ _ _ _ _ _ Hperm Hsp) Hfirst Hfuel) as (d1 & top' & fs' & E & Hsp1 & Hasc1 & [Hl1 Hk] & Htop). cbn [fst snd] in E. rewrite E.
  change (SQLITE_OK =? 0) with true. cbn [negb aData set_data set_counts nCell nFree cellOffset hdrOffset]. fold hdr in Hsp1, Hk. pose proof (total_perm _ _ Hperm) as Etot. cbn [total snd] in Etot. unfold iCellFirst in Hfirst, Hfree. assert (0 <= total (cspans (delete i cs))) by (rewrite total_cspans; lia).
  assert (u16 (nCell P - 1) = nCell P - 1) as -> by (apply uwrap_small; unfold is_u; lia). rewrite (uwrap_small 16 (nFree P + len x.2)) by (unfold is_u; lia). rewrite (uwrap_small 16 (nFree P + len x.2 + 2)) by (unfold is_u; lia).
  set (ptr := cellOffset P + 2 * Z.of_nat i) in *. set (m := 2 * (nCell P - 1 - Z.of_nat i)). pose proof (sp_bytes _ _ _ _ _ _ Hsp1) as Hb1. assert (len (slice d1 (ptr + 2) m) = m) as Hlm by (apply length_slice; unfold m, ptr; lia).
  set (d2 := splice d1 ptr (slice d1 (ptr + 2) m)). assert (length d2 = length d1) as Hl2 by (apply length_splice; unfold m, ptr in *; lia). assert (bytes d2) as Hb2 by (apply bytes_splice; [done|by apply Forall_take, Forall_drop]).
  set (d3 := put2byte d2 (hdr + 3) (nCell P - 1)). assert (forall j, 0 <= j -> j < ptr \/ cellOffset P + 2 * nCell P <= j -> rd d2 j = rd d1 j) as Hd2 by (intros j Hj0 Hj; apply rd_splice_out; unfold m, ptr in *; lia).
  assert (forall j, ptr <= j < ptr + m -> rd d2 j = rd d1 (j + 2)) as Hd2' by (intros j Hj; unfold d2; rewrite rd_splice_in, rd_slice by (unfold m, ptr in *; lia); f_equal; lia).
  assert (forall j, 0 <= j -> ~ (hdr + 3 <= j < hdr + 5) -> rd d3 j = rd d2 j) as Hd3 by (intros j Hj0 Hj; apply rd_put2_ne; lia).
  assert (forall j, 0 <= j < cellOffset P + 2 * nCell P -> ~ (hdr + 1 <= j < hdr + 3) -> ~ (hdr + 5 <= j < hdr + 8) -> rd d1 j = rd (aData P) j) as Hlow by (intros j H1 H2 H3; apply Hk; split; [lia|left; unfold iCellFirst; lia]).
  exists d3, fs'. split; [done|]. assert (space pBt d3 hdr top' (cspans (delete i cs)) fs') as Hsp3.
  { apply (space_low d1); [done|unfold d3; by rewrite length_put2|by apply bytes_put2|]. intros j Hj0 Hj. rewrite Hd3, Hd2 by (unfold ptr; lia). done. }
  pose proof (sp_top _ _ _ _ _ _ Hsp3) as Etop. assert (len (delete i cs) = len cs - 1) as Hdel by (rewrite length_delete by (by eexists); lia).
  constructor; cbn [aData set_data set_counts nCell nFree cellOffset hdrOffset leaf]; fold hdr; try apply H.
  - rewrite Hd3, Hd2, Hlow by (unfold ptr; lia). eapply decode_same; [apply (pg_flags _ _ _ _ H)|done..].
  - lia.
  - apply get2_put2; [done|lia|lia|lia].
  - intros k y Hy. pose proof (lookup_lt_Some _ _ _ Hy) as Hky. destruct (decide (k < i)%nat) as [Hki|Hki].
    + rewrite list_lookup_delete_lt in Hy by done. rewrite <- (pg_ptr _ _ _ _ H k y Hy). apply get2_ext; rewrite Hd3, Hd2, Hlow by (unfold ptr; lia); done.
    + rewrite list_lookup_delete_ge in Hy by lia. rewrite <- (pg_ptr _ _ _ _ H (S k) y Hy). apply get2_shift; rewrite Hd3, Hd2', Hlow by (unfold m, ptr; lia); f_equal; lia.
  - intros y Hy. assert (y ∈ cs) as Hyc by (apply list_elem_of_lookup in Hy as [k Hy]; destruct (decide (k < i)%nat); [rewrite list_lookup_delete_lt in Hy by done|rewrite list_lookup_delete_ge in Hy by lia]; by eapply list_elem_of_lookup_2).
    destruct (pg_cell _ _ _ _ H y Hyc) as [E1 E2]. split; [|done]. pose proof (page_inside _ _ _ _ y H Hyc) as Hiy. unfold inside in Hiy. cbn in Hiy. rewrite <- E1 at 2. apply slice_ext; try (unfold d3; rewrite ?length_put2; lia). intros j Hj. rewrite Hd3, Hd2 by (unfold ptr; lia).
    apply Hk. split; [lia|]. right. exists (y.1, len y.2). split; [apply list_elem_of_fmap; by exists y|done].
  - unfold top_of, iCellFirst. cbn [aData set_data set_counts nCell nFree cellOffset hdrOffset]. fold hdr. rewrite Etop. lia.
  - unfold top_of. cbn [aData set_data set_counts hdrOffset]. fold hdr. by rewrite Etop.
  - unfold top_of. cbn [aData set_data set_counts hdrOffset]. fold hdr. by rewrite Etop.
  - unfold iCellFirst. cbn [cellOffset nCell set_data set_counts]. lia.
Qed.

(** ** Insertion of a cell *)

(** The content of the new cell. *)
Definition with_child (c : list Z) (iChild : Z) : list Z := if iChild =? 0 then c else sqlite3Put4byte c iChild.

Lemma length_put4 c v : length (sqlite3Put4byte c v) = length c.
Proof. unfold sqlite3Put4byte. by rewrite !length_wr. Qed.
Lemma bytes_put4 c v : bytes c -> bytes (sqlite3Put4byte c v).
Proof. intros Hc. unfold sqlite3Put4byte. repeat (apply bytes_wr; [|apply uwrap_range; lia]). done. Qed.
Lemma rd_put4 c c' v j : 0 <= j < 4 -> 4 <= len c -> 4 <= len c' -> rd (sqlite3Put4byte c v) j = rd (sqlite3Put4byte c' v) j.
Proof.
  intros Hj Hc Hc'. unfold sqlite3Put4byte. destruct (decide (j = 3)) as [->|]; [by rewrite !rd_wr_eq by (rewrite ?length_wr; lia)|]. rewrite !(rd_wr_ne _ 3) by lia.
  destruct (decide (j = 2)) as [->|]; [by rewrite !rd_wr_eq by (rewrite ?length_wr; lia)|]. rewrite !(rd_wr_ne _ 2) by lia. destruct (decide (j = 1)) as [->|]; [by rewrite !rd_wr_eq by (rewrite ?length_wr; lia)|]. rewrite !(rd_wr_ne _ 1) by lia.
  assert (j = 0) as -> by lia. by rewrite !rd_wr_eq by lia.
Qed.
Lemma rd_put4_ge c v j : 4 <= j -> rd (sqlite3Put4byte c v) j = rd c j.
Proof. intros Hj. unfold sqlite3Put4byte. by rewrite !rd_wr_ne by lia. Qed.
Lemma length_child c i : length (with_child c i) = length c.
Proof. unfold with_child. destruct (i =? 0); [done|apply length_put4]. Qed.
Lemma bytes_child c i : bytes c -> bytes (with_child c i).
Proof. intros Hc. unfold with_child. destruct (i =? 0); [done|by apply bytes_put4]. Qed.

(** The stores of the content, in the order of the code. *)
Lemma content_stores d idx c iChild : 4 <= len c -> 0 <= idx -> idx + len c <= len d ->
  let nSkip := if iChild =? 0 then 0 else 4 in
  let d1 := splice d (idx + nSkip) (slice c nSkip (len c - nSkip)) in
  (if iChild =? 0 then d1 else splice d1 idx (sqlite3Put4byte (replicate 4 0) iChild)) = splice d idx (with_child c iChild).
Proof.
  intros Hc Hi Hl. unfold with_child. destruct (iChild =? 0); cbv zeta.
  - rewrite Z.add_0_r, Z.sub_0_r. f_equal. unfold slice. rewrite drop_0. apply take_ge. lia.
  - assert (len (slice c 4 (len c - 4)) = len c - 4) as Hs by (apply length_slice; lia). set (d1 := splice d (idx + 4) (slice c 4 (len c - 4))). assert (length d1 = length d) as Hl1 by (apply length_splice; lia).
    assert (length (sqlite3Put4byte (replicate 4 0) iChild) = 4%nat) as Hl4 by by rewrite length_put4. apply rd_ext.
    + rewrite !length_splice; rewrite ?length_put4; cbn [length replicate]; lia.
    + intros j Hj. rewrite length_splice in Hj by lia. destruct (decide (idx <= j < idx + len c)) as [Hin|Hout].
      * rewrite (rd_splice_in d) by (rewrite ?length_put4; lia). destruct (decide (j < idx + 4)).
        -- rewrite rd_splice_in by lia. apply rd_put4; [lia|done|lia].
        -- rewrite rd_splice_out by lia. unfold d1. rewrite rd_splice_in by lia. rewrite rd_slice, rd_put4_ge by lia. f_equal. lia.
      * rewrite (rd_splice_out d) by (rewrite ?length_put4; lia). rewrite rd_splice_out by lia. apply rd_splice_out; lia.
Qed.

Definition insert_at {A} (i : nat) (x : A) (l : list A) : list A := take i l ++ x :: drop i l.
Lemma insert_at_lt {A} i (x : A) l k : (i <= length l)%nat -> (k < i)%nat -> insert_at i x l !! k = l !! k.
Proof. intros. unfold insert_at. rewrite lookup_app_l by (rewrite length_take; lia). by apply lookup_take_lt. Qed.
Lemma insert_at_eq {A} i (x : A) l : (i <= length l)%nat -> insert_at i x l !! i = Some x.
Proof. intros. unfold insert_at. rewrite lookup_app_r, length_take by (rewrite length_take; lia). by replace (i - i `min` length l)%nat with 0%nat by lia. Qed.
Lemma insert_at_gt {A} i (x : A) l k : (i <= length l)%nat -> (i <= k)%nat -> insert_at i x l !! S k = l !! k.
Proof.
  intros. unfold insert_at. rewrite lookup_app_r, length_take by (rewrite length_take; lia). replace (S k - i `min` length l)%nat with (S (k - i)) by lia. change ((x :: drop i l) !! S (k - i)%nat) with (drop i l !! (k - i)%nat). rewrite lookup_drop. f_equal. lia.
Qed.
Lemma insert_at_perm {A} i (x : A) l : insert_at i x l ≡ₚ x :: l.
Proof. unfold insert_at. rewrite <- Permutation_middle. by rewrite take_drop. Qed.
Lemma insert_at_map {A B} (f : A -> B) i x l : map f (insert_at i x l) = insert_at i (f x) (map f l).
Proof. unfold insert_at. rewrite map_app. cbn [map]. by rewrite firstn_map, skipn_map. Qed.

Lemma place_cell P cs fs idx c i : page_ok P [(idx, len c)] cs fs -> bytes c -> cellSizePtr pBt P c = len c -> (i <= length cs)%nat -> iCellFirst P + 2 <= top_of P ->
  let ins := cellOffset P + 2 * Z.of_nat i in
  let d1 := splice (aData P) idx c in
  let d2 := splice d1 (ins + 2) (slice d1 ins (cellOffset P + 2 * nCell P - ins)) in
  let d3 := put2byte (put2byte d2 ins idx) (hdrOffset P + 3) (nCell P + 1) in
  page_ok (set_data (set_counts P (nFree P - (2 + len c)) (nCell P + 1)) d3) [] (insert_at i (idx, c) cs) fs.
Proof.
  intros H Hcb Hcs Hi Ht ins d1 d2 d3. pose proof (pg_space _ _ _ _ H) as Hsp. pose proof (sp_bytes _ _ _ _ _ _ Hsp) as Hb. pose proof (sp_len _ _ _ _ _ _ Hsp) as Hl. pose proof (sp_lo _ _ _ _ _ _ Hsp) as Hlo. pose proof (page_off _ _ _ _ H) as Hoff.
  pose proof (pg_hdr _ _ _ _ H) as Hh. pose proof (pg_n _ _ _ _ H) as Hn. pose proof (pg_free _ _ _ _ H) as Hfree. unfold iCellFirst in Ht, Hfree. destruct Hbt as [[Hps Hus] _]. set (hdr := hdrOffset P) in *.
  cbn [app] in Hsp. pose proof (space_used _ _ _ _ _ _ Hsp) as [Hidx _]%Forall_cons. unfold inside in Hidx. cbn in Hidx.
  destruct (space_write pBt (proj1 Hbt) _ _ _ _ _ _ (cellOffset P + 2 * nCell P) idx c Hsp ltac:(lia) Hcb ltac:(cbn; lia) ltac:(cbn; lia)) as [Hsp1 [Hl1 Hk1]]. fold d1 in Hsp1, Hl1, Hk1. fold hdr in Hk1. pose proof (sp_bytes _ _ _ _ _ _ Hsp1) as Hb1.
  set (m := cellOffset P + 2 * nCell P - ins) in *. assert (len (slice d1 ins m) = m) as Hlm by (apply length_slice; unfold m, ins; lia). assert (length d2 = length d1) as Hl2 by (apply length_splice; unfold m, ins in *; lia).
  assert (bytes d2) as Hb2 by (apply bytes_splice; [done|by apply Forall_take, Forall_drop]). assert (bytes (put2byte d2 ins idx)) as Hb2' by by apply bytes_put2.
  assert (forall j, 0 <= j -> j < ins + 2 \/ cellOffset P + 2 * nCell P + 2 <= j -> rd d2 j = rd d1 j) as Hd2 by (intros j Hj0 Hj; apply rd_splice_out; unfold m, ins in *; lia).
  assert (forall j, ins + 2 <= j < ins + 2 + m -> rd d2 j = rd d1 (j - 2)) as Hd2' by (intros j Hj; unfold d2; rewrite rd_splice_in, rd_slice by (unfold m, ins in *; lia); f_equal; lia).
  assert (forall j, 0 <= j -> ~ (hdr + 3 <= j < hdr + 5) -> ~ (ins <= j < ins + 2) -> rd d3 j = rd d2 j) as Hd3 by (intros j Hj0 Hj Hj'; unfold d3; rewrite !rd_put2_ne by (unfold ins in *; lia); done).
  assert (forall j, 0 <= j < cellOffset P + 2 * nCell P -> ~ (hdr + 1 <= j < hdr + 3) -> ~ (hdr + 5 <= j < hdr + 8) -> rd d1 j = rd (aData P) j) as Hlow by (intros j H1 H2 H3; apply Hk1; split; [lia|left; lia]).
  assert (forall j, top_of P <= j -> rd d3 j = rd d1 j) as Hhigh by (intros j Hj; rewrite Hd3, Hd2 by (unfold ins; lia); done).
  assert (space pBt d3 hdr (top_of P) ((idx, len c) :: cspans cs) fs) as Hsp3.
  { apply (space_low d1); [done|unfold d3; by rewrite !length_put2|by apply bytes_put2|]. intros j Hj0 Hj. rewrite Hd3, Hd2 by (unfold ins; lia). done. }
  pose proof (sp_top _ _ _ _ _ _ Hsp3) as Etop. assert (cspans (insert_at i (idx, c) cs) ≡ₚ (idx, len c) :: cspans cs) as Hperm by (unfold cspans; rewrite insert_at_map; apply insert_at_perm).
  assert (len d3 = pageSize pBt) as Hl3 by (unfold d3; rewrite !length_put2; lia).
  constructor; cbn [aData set_data set_counts nCell nFree cellOffset hdrOffset leaf]; fold hdr; try apply H.
  - rewrite Hd3, Hd2, Hlow by (unfold ins; lia). eapply decode_same; [apply (pg_flags _ _ _ _ H)|done..].
  - unfold insert_at. rewrite length_app, length_take. cbn [length]. rewrite length_drop. lia.
  - apply get2_put2; [done|lia|rewrite length_put2; lia|lia].
  - intros k y Hy. destruct (lt_eq_lt_dec k i) as [[Hki| ->]|Hki].
    + rewrite insert_at_lt in Hy by done. rewrite <- (pg_ptr _ _ _ _ H k y Hy). apply get2_ext; rewrite Hd3, Hd2, Hlow by (unfold ins; lia); done.
    + rewrite insert_at_eq in Hy by done. injection Hy as <-. unfold d3. fold ins. rewrite get2_put2_ne by (unfold ins; lia). apply get2_put2; [done|unfold ins; lia|unfold ins; lia|cbn; lia].
    + destruct k as [|k]; [lia|]. rewrite insert_at_gt in Hy by lia. rewrite <- (pg_ptr _ _ _ _ H k y Hy). pose proof (lookup_lt_Some _ _ _ Hy). apply get2_shift; rewrite Hd3, Hd2', Hlow by (unfold m, ins; lia); f_equal; lia.
  - intros y Hy. rewrite insert_at_perm in Hy. apply elem_of_cons in Hy as [->|Hy]; cbn [fst snd].
    + split; [|done]. transitivity (slice d1 idx (len c)); [|apply slice_splice; lia]. apply slice_ext; try lia. intros j Hj. apply Hhigh. lia.
    + destruct (pg_cell _ _ _ _ H y Hy) as [E1 E2]. split; [|done]. pose proof (page_inside _ _ _ _ y H Hy) as Hiy. unfold inside in Hiy. cbn in Hiy. rewrite <- E1 at 2. apply slice_ext; try lia. intros j Hj. rewrite Hhigh by lia.
      apply Hk1. split; [lia|]. right. exists (y.1, len y.2). split; [apply list_elem_of_fmap; by exists y|done].
  - unfold top_of, iCellFirst. cbn [aData set_data set_counts nCell nFree cellOffset hdrOffset]. fold hdr. rewrite Etop. lia.
  - unfold top_of at 1. cbn [aData set_data set_counts hdrOffset]. fold hdr. rewrite Etop. cbn [app]. by apply (space_perm _ _ _ _ _ _ (symmetry Hperm)).
  - unfold top_of. cbn [aData set_data set_counts hdrOffset]. fold hdr. rewrite Etop. apply (pg_asc _ _ _ _ H).
  - unfold iCellFirst. cbn [cellOffset nCell set_data set_counts]. rewrite Hperm. cbn [total snd]. lia.
Qed.

Context {PM : Type} (ptrmapPut : PM -> Z -> Z -> Z -> Z * PM).

Lemma insertCell_ok m P cs fs temp i c iChild : page_ok P [] cs fs -> apOvfl P = [] -> bytes temp -> len temp = pageSize pBt -> bytes c -> cellSizePtr pBt P (with_child c iChild) = len c -> (i <= length cs)%nat -> len c + 2 <= nFree P ->
  exists rc d m' idx cs' fs', let P' := set_data (set_counts P (nFree P - (2 + len c)) (nCell P + 1)) d in
  insertCell pBt ptrmapPut m P temp SQLITE_OK (Z.of_nat i) c (len c) iChild = Some (rc, P', m') /\
  page_ok P' [] (insert_at i (idx, with_child c iChild) cs') fs' /\ map snd cs' = map snd cs /\ ((forall m a b c, (ptrmapPut m a b c).1 = SQLITE_OK) -> rc = SQLITE_OK).
Proof.
  intros H Hov Htb Htl Hcb Hcs Hi Hfree. pose proof (cells_total _ _ _ H) as Htot. pose proof (pg_n _ _ _ _ H) as Hn. pose proof (pg_first _ _ _ _ H) as Hfirst. pose proof (pg_free _ _ _ _ H) as Hfr. pose proof (page_off _ _ _ _ H) as Hoff. pose proof (pg_hdr _ _ _ _ H) as Hh.
  pose proof (sp_lo _ _ _ _ _ _ (pg_space _ _ _ _ H)) as Hlo. pose proof (cellSize_range pBt Hbt P (with_child c iChild) (page_kind _ _ _ _ H) (bytes_child _ _ Hcb)) as Hsz. rewrite Hcs in Hsz. unfold iCellFirst in Hfirst, Hfr.
  unfold insertCell. rewrite Hov. cbn [length Nat.eqb negb orb]. rewrite (proj2 (Z.ltb_ge (nFree P) _)) by lia. change (SQLITE_OK =? SQLITE_OK) with true. cbn [negb].
  destruct (allocateSpace_ok P cs fs temp (len c) H Htb Htl ltac:(lia) ltac:(lia)) as (r & -> & d & idx & cs' & fs' & -> & Hok & Hsnd & Htop). change (SQLITE_OK =? 0) with true. cbn [negb aData set_data set_counts nCell nFree hdrOffset]. destruct Hbt as [[Hps Hus] _].
  assert (length cs' = length cs) as Hlen by (apply (f_equal length) in Hsnd; by rewrite !length_map in Hsnd). assert (0 <= total (cspans cs)) by (rewrite total_cspans; lia).
  rewrite (uwrap_small 16 (2 + len c)) by (unfold is_u; lia). rewrite (uwrap_small 16 (nFree P - _)) by (unfold is_u; lia). rewrite (uwrap_small 16 (nCell P + 1)) by (unfold is_u; lia).
  pose proof (space_used _ _ _ _ _ _ (pg_space _ _ _ _ Hok)) as [Hidx _]%Forall_cons. unfold inside in Hidx. cbn [fst snd] in Hidx. pose proof (sp_len _ _ _ _ _ _ (pg_space _ _ _ _ Hok)) as Hld. cbn [aData set_data] in Hld.
  pose proof (sp_lo _ _ _ _ _ _ (pg_space _ _ _ _ Hok)) as Hlo'. rewrite (content_stores d idx c iChild) by lia.
  assert (len (with_child c iChild) = len c) as Hlc by by rewrite length_child. rewrite <- Hlc in Hok. pose proof (place_cell (set_data P d) cs' fs' idx (with_child c iChild) i Hok (bytes_child _ _ Hcb) ltac:(by rewrite Hlc) ltac:(lia) Htop) as Hpl. cbv zeta in Hpl. rewrite Hlc in Hpl.
  cbn [aData set_data set_counts nCell nFree hdrOffset cellOffset] in Hpl. set (dd := put2byte (put2byte _ _ _) _ _) in *.
  destruct (autoVacuum pBt) eqn:Eav.
  - destruct (ptrmapPutOvflPtr pBt ptrmapPut m _ c) as [rc m'] eqn:Ep. exists rc, dd, m', idx, cs', fs'. split; [done|]. split; [exact Hpl|]. split; [done|]. intros Hpm. unfold ptrmapPutOvflPtr in Ep. destruct (negb _); [|by injection Ep as <- _]. apply (f_equal fst) in Ep. by rewrite Hpm in Ep.
  - exists SQLITE_OK, dd, m, idx, cs', fs'. split; [done|]. split; [exact Hpl|]. done.
Qed.

(** ** Empty pages *)

Lemma decode_idem P fl P1 : decodeFlags pBt P fl = (SQLITE_OK, P1) -> decodeFlags pBt P1 fl = (SQLITE_OK, P1).
Proof.
  unfold decodeFlags. destruct (_ =? (PTF_LEAFDATA .| PTF_INTKEY)); [|destruct (_ =? PTF_ZERODATA); [|done]]; intros [= <-]; reflexivity.
Qed.
Lemma decode_fields P fl P1 : decodeFlags pBt P fl = (SQLITE_OK, P1) -> aData P1 = aData P /\ hdrOffset P1 = hdrOffset P /\ leaf P1 = u8 (fl >> 3) /\ pgno P1 = pgno P.
Proof. unfold decodeFlags. destruct (_ =? (PTF_LEAFDATA .| PTF_INTKEY)); [|destruct (_ =? PTF_ZERODATA); [|done]]; intros [= <-]; done. Qed.
Lemma first_leaf fl : is_u 8 fl -> u8 (fl >> 3) = 0 \/ u8 (fl >> 3) = 1 -> (if fl .& PTF_LEAF =? 0 then 12 else 8) = 12 - 4 * u8 (fl >> 3).
Proof.
  revert fl. assert (forall fl, is_u 8 fl -> negb ((u8 (fl >> 3) =? 0) || (u8 (fl >> 3) =? 1)) || ((if fl .& PTF_LEAF =? 0 then 12 else 8) =? 12 - 4 * u8 (fl >> 3)) = true) as Hc.
  { apply (byte_forall (fun fl => negb ((u8 (fl >> 3) =? 0) || (u8 (fl >> 3) =? 1)) || ((if fl .& PTF_LEAF =? 0 then 12 else 8) =? 12 - 4 * u8 (fl >> 3)))). vm_compute. reflexivity. }
  intros fl Hfl Hl. specialize (Hc fl Hfl). apply orb_true_iff in Hc as [Hc|Hc]; [|by apply Z.eqb_eq]. apply negb_true_iff, orb_false_iff in Hc as [H1%Z.eqb_neq H2%Z.eqb_neq]. tauto.
Qed.

Lemma zeroPage_ok P fl : is_u 8 fl -> (decodeFlags pBt P fl).1 = SQLITE_OK -> hdrOffset P = 0 \/ hdrOffset P = 100 -> bytes (aData P) -> len (aData P) = pageSize pBt ->
  page_ok (zeroPage pBt P fl) [] [] [] /\ top_of (zeroPage pBt P fl) = us /\ apOvfl (zeroPage pBt P fl) = [].
Proof.
  intros Hfl Hdec Hh Hb Hl. unfold zeroPage. destruct Hbt as [[Hps Hus] _]. set (hdr := hdrOffset P) in *. set (d0 := if negb (btsFlags pBt .& BTS_SECURE_DELETE =? 0) then _ else _).
  assert (len d0 = len (aData P) /\ bytes d0) as [Hl0 Hb0].
  { unfold d0. destruct (negb _); [|done]. split; [rewrite length_splice; rewrite ?length_replicate; lia|]. apply bytes_splice; [done|by apply Forall_replicate]. }
  set (d1 := wr d0 hdr (u8 fl)). set (d2 := splice d1 (hdr + 1) [0; 0; 0; 0]). set (d3 := wr d2 (hdr + 7) 0). set (d := put2byte d3 (hdr + 5) us).
  assert (len d1 = len d0) as Hl1 by (unfold d1; by rewrite length_wr). assert (length d2 = length d1) as Hl2 by (apply length_splice; cbn [length]; lia). assert (length d3 = length d2) as Hl3 by apply length_wr.
  assert (bytes d3) as Hb3 by (unfold d3, d2, d1; apply bytes_wr; [|done]; apply bytes_splice; [apply bytes_wr; [done|apply uwrap_range; lia]|by repeat constructor]).
  assert (bytes d) as Hbd by by apply bytes_put2. assert (len d = pageSize pBt) as Hld by (unfold d; rewrite length_put2; lia).
  destruct (decodeFlags pBt (set_data P d) fl) as [rc P1] eqn:E. assert (rc = SQLITE_OK) as ->.
  { unfold decodeFlags in E, Hdec. destruct (_ =? (PTF_LEAFDATA .| PTF_INTKEY)); [by injection E as <- _|]. destruct (_ =? PTF_ZERODATA); [by injection E as <- _|done]. }
  cbn [snd]. destruct (decode_fields _ _ _ E) as (F1 & F2 & F3 & _). cbn [aData set_data hdrOffset] in F1, F2. fold hdr in F2. pose proof (decode_kind pBt _ _ _ Hbt Hfl E) as HP. pose proof (k_leaf _ _ HP) as Hlf. rewrite F3 in Hlf. rewrite (first_leaf fl Hfl Hlf).
  assert (u16 (hdr + (12 - 4 * u8 (fl >> 3))) = hdr + 12 - 4 * leaf P1) as -> by (rewrite F3, uwrap_small by (unfold is_u; lia); lia). rewrite <- F3 in Hlf.
  assert (forall j, 0 <= j -> ~ (hdr + 5 <= j < hdr + 7) -> rd d j = rd d3 j) as Hd by (intros j Hj0 Hj; apply rd_put2_ne; lia).
  assert (rd d hdr = fl) as Efl. { rewrite Hd by lia. unfold d3. rewrite rd_wr_ne by lia. unfold d2. rewrite rd_splice_out by (cbn [length]; lia). unfold d1. rewrite rd_wr_eq by lia. by apply uwrap_small. }
  assert (forall j, hdr + 1 <= j < hdr + 5 -> rd d j = 0) as Ezero.
  { intros j Hj. rewrite Hd by lia. unfold d3. rewrite rd_wr_ne by lia. unfold d2. rewrite rd_splice_in by (cbn [length]; lia). assert (j - (hdr + 1) = 0 \/ j - (hdr + 1) = 1 \/ j - (hdr + 1) = 2 \/ j - (hdr + 1) = 3) as Hc by lia. by destruct Hc as [-> |[-> |[-> | ->]]]. }
  assert (rd d (hdr + 7) = 0) as E7 by (rewrite Hd by lia; unfold d3; apply rd_wr_eq; lia).
  assert (get2byteNotZero d (hdr + 5) = us) as Etop by (apply notZero_put2; [done|lia|lia|lia]).
  rewrite (uwrap_small 16 (us - _)) by (unfold is_u; lia). set (P2 := set_init P1 _ _ _ _).
  assert (aData P2 = d) as Ed by exact F1. assert (hdrOffset P2 = hdr) as Eh by exact F2. assert (top_of P2 = us) as Et by (unfold top_of; by rewrite Ed, Eh). split; [|split; [done|done]].
  constructor; rewrite ?Ed, ?Eh, ?Et; try done.
  - rewrite Efl. eapply decode_same; [by eapply decode_idem|done..].
  - change (nCell P2) with 0. rewrite get2byte_eq by done. rewrite !Ezero by lia. done.
  - by intros x ?%not_elem_of_nil.
  - unfold iCellFirst. change (nCell P2) with 0. change (cellOffset P2) with (hdr + 12 - 4 * leaf P1). lia.
  - constructor; try done; try lia.
    + cbn [chain]. rewrite get2byte_eq by done. rewrite !Ezero by lia. done.
    + cbn. lia.
  - unfold iCellFirst. change (nCell P2) with 0. change (cellOffset P2) with (hdr + 12 - 4 * leaf P1). change (nFree P2) with (us - (hdr + 12 - 4 * leaf P1)). cbn. lia.
Qed.

(** ** Reading a page *)

Lemma free_sum_ok d hdr top ss first : first <= top -> forall l pre fuel acc, (length l < fuel)%nat -> space pBt d hdr top ss (pre ++ l) -> asc 4 top (pre ++ l) ->
  free_sum pBt fuel first d (get2byte d (last_link (hdr + 1) pre)) acc = Some (inl (acc + total l)).
Proof.
  intros Hf. induction l as [|x l IH]; intros pre fuel acc Hfuel Hsp Hasc; (destruct fuel as [|fuel]; [cbn in Hfuel; lia|]); cbn [free_sum].
  - pose proof (sp_chain _ _ _ _ _ _ Hsp) as [_ ->]%chain_cat. cbn [total]. by rewrite Z.add_0_r.
  - pose proof (sp_chain _ _ _ _ _ _ Hsp) as [_ (E1 & E2 & C)]%chain_cat. destruct (space_free _ _ _ _ _ _ x Hsp) as [Hi _]; [apply elem_of_app; right; left|]. unfold inside in Hi. pose proof (sp_lo _ _ _ _ _ _ Hsp). rewrite E1, E2.
    rewrite (proj2 (Z.ltb_lt 0 x.1)), (proj2 (Z.ltb_ge x.1 first)), (proj2 (Z.ltb_ge (us - 4) x.1)), (proj2 (Z.ltb_ge us (x.1 + x.2))) by lia. cbn [orb]. rewrite orb_false_r.
    assert ((0 <? get2byte d x.1) && (get2byte d x.1 <=? x.1 + x.2 + 3) = false) as ->.
    { destruct l as [|y l]; cbn [chain] in C; [by rewrite C|]. destruct C as [-> _]. apply asc_cat in Hasc as [_ (_ & _ & A & _)]. apply andb_false_iff. right. apply Z.leb_gt. lia. }
    specialize (IH (pre ++ [x]) fuel (acc + x.2) ltac:(cbn in Hfuel; lia)). rewrite <- app_assoc, last_link_snoc in IH. rewrite IH by done. cbn [total]. do 2 f_equal. lia.
Qed.

Lemma btreeInitPage_ok P cs fs P0 : page_ok P [] cs fs -> isInit P0 = false -> aData P0 = aData P -> hdrOffset P0 = hdrOffset P ->
  exists P1, btreeInitPage pBt P0 = Some (SQLITE_OK, P1) /\ page_ok P1 [] cs fs /\ nFree P1 = nFree P /\ nCell P1 = nCell P /\ isInit P1 = true /\ apOvfl P1 = [] /\ aData P1 = aData P /\ hdrOffset P1 = hdrOffset P.
Proof.
  intros H Hin Ed Eh. pose proof (pg_space _ _ _ _ H) as Hsp. pose proof (sp_bytes _ _ _ _ _ _ Hsp) as Hb. pose proof (sp_len _ _ _ _ _ _ Hsp) as Hl. pose proof (sp_lo _ _ _ _ _ _ Hsp) as Hlo. pose proof (page_off _ _ _ _ H) as Hoff. pose proof (pg_hdr _ _ _ _ H) as Hh.
  pose proof (pg_n _ _ _ _ H) as Hn. pose proof (pg_first _ _ _ _ H) as Hfirst. pose proof (pg_free _ _ _ _ H) as Hfree. pose proof (cells_total _ _ _ H) as Htot. pose proof (cells_min _ _ _ _ H) as Hmin. pose proof (free_count _ _ _ _ _ _ Hsp) as Hcnt. pose proof (sp_frag _ _ _ _ _ _ Hsp) as Hfrag.
  pose proof (page_kind _ _ _ _ H) as HP. pose proof (k_leaf _ _ HP) as Hlf. pose proof (pg_off _ _ _ _ H) as Ho. destruct Hbt as [[Hps Hus] _]. unfold btreeInitPage. rewrite Hin, Ed, Eh. set (hdr := hdrOffset P) in *. set (fl := rd (aData P) hdr).
  assert (exists P1, decodeFlags pBt P0 fl = (SQLITE_OK, P1) /\ decodeFlags pBt P1 fl = (SQLITE_OK, P1) /\ leaf P1 = leaf P /\ intKey P1 = intKey P /\ hasData P1 = hasData P /\ childPtrSize P1 = childPtrSize P /\ maxLocal P1 = maxLocal P /\ minLocal P1 = minLocal P) as (P1 & E & E' & K1 & K2 & K3 & K4 & K5 & K6).
  { pose proof (pg_flags _ _ _ _ H) as Hfl. fold hdr fl in Hfl. clear -Hfl. revert Hfl. unfold decodeFlags. destruct (_ =? (PTF_LEAFDATA .| PTF_INTKEY)); [|destruct (_ =? PTF_ZERODATA); [|done]]; intros Hfl; apply (f_equal snd) in Hfl; cbn [snd] in Hfl; destruct P as [];
      injection Hfl as -> -> -> -> -> ->; eexists; (split; [reflexivity|]); cbn; split_and!; reflexivity. }
  rewrite E. change (SQLITE_OK =? 0) with true. cbn [negb]. destruct (decode_fields _ _ _ E) as (F1 & F2 & F3 & F4). rewrite K1. rewrite (uwrap_small 16 (hdr + 12 - 4 * leaf P)) by (unfold is_u; lia). rewrite <- Ho. assert (get2byte (aData P) (hdr + 3) = nCell P) as Ec by apply (pg_count _ _ _ _ H). rewrite Ec.
  change (nCell (set_init P1 (cellOffset P) (nFree P1) (nCell P) false)) with (nCell P). change (iCellFirst (set_init P1 (cellOffset P) (nFree P1) (nCell P) false)) with (iCellFirst P).
  assert (4 * nCell P <= total (cspans cs)) as H4. { rewrite Hn. clear -Hmin. induction cs as [|x cs IH]; [cbn; lia|]. cbn [map] in Hmin. apply Forall_cons in Hmin as [M1 M2]. specialize (IH M2). cbn [cspans map total snd length]. fold (cspans cs). lia. }
  unfold MX_CELL. unfold iCellFirst in Hfirst. assert (nCell P <= (pageSize pBt - 8) / 6) as Hmx by (apply Z.div_le_lower_bound; lia). rewrite (proj2 (Z.ltb_ge _ (nCell P))) by lia.
  pose proof (free_sum_ok (aData P) hdr (top_of P) (cspans cs) (iCellFirst P) ltac:(unfold iCellFirst; lia) fs [] (Z.to_nat us) (rd (aData P) (hdr + 7) + get2byteNotZero (aData P) (hdr + 5)) ltac:(lia) Hsp (pg_asc _ _ _ _ H)) as Hsum. cbn [last_link] in Hsum. rewrite Hsum.
  change (get2byteNotZero (aData P) (hdr + 5)) with (top_of P). rewrite total_app in Hfrag. cbn [app] in Hfrag. assert (0 <= total (cspans cs)) by (rewrite total_cspans; lia). rewrite (proj2 (Z.ltb_ge us _)) by lia.
  assert (rd (aData P) (hdr + 7) + top_of P + total fs - iCellFirst P = nFree P) as Enf by lia. rewrite Enf. rewrite (uwrap_small 16 (nFree P)) by (unfold is_u, iCellFirst in *; lia).
  eexists. split; [reflexivity|]. split; [|split_and!; try done; cbn; congruence]. assert (aData P1 = aData P) as E1 by congruence. assert (hdrOffset P1 = hdr) as E2 by congruence.
  set (P2 := set_init _ _ _ _ true). assert (aData P2 = aData P) as A1 by exact E1. assert (hdrOffset P2 = hdr) as A2 by exact E2. assert (top_of P2 = top_of P) as A3 by (unfold top_of; rewrite A1, A2; done).
  constructor; rewrite ?A1, ?A2, ?A3; try apply H.
  - eapply decode_same; [exact E'|done..].
  - change (cellOffset P2) with (cellOffset P). rewrite Ho. change (leaf P2) with (leaf P1). by rewrite K1.
  - intros x Hx. destruct (pg_cell _ _ _ _ H x Hx) as [C1 C2]. split; [done|]. rewrite <- C2. unfold cellSizePtr. change (intKey P2) with (intKey P1). change (hasData P2) with (hasData P1). change (childPtrSize P2) with (childPtrSize P1).
    change (maxLocal P2) with (maxLocal P1). change (minLocal P2) with (minLocal P1). by rewrite K2, K3, K4, K5, K6.
Qed.

(** ** Assembling a page *)

Record assembling (P : MemPage) (d0 : list Z) (n : nat) (ds : list (list Z)) (d : list Z) : Prop := {
  as_len : length d = length d0; as_bytes : bytes d;
  as_new : forall i x, packed us ds !! i = Some x -> get2byte d (cellOffset P + 2 * (Z.of_nat n - 1 - Z.of_nat i)) = x.1 /\ slice d x.1 (len x.2) = x.2;
  as_low : forall j, 0 <= j < cellOffset P -> rd d j = rd d0 j }.

Lemma packed_snoc_total ds c : total (cspans (packed us (ds ++ [c]))) = total (cspans (packed us ds)) + len c.
Proof. rewrite packed_app. unfold cspans. rewrite map_app, total_app. cbn [map packed total snd]. lia. Qed.

Lemma assemble_loop_ok P d0 n : us <= len d0 <= 65536 -> 0 <= cellOffset P -> forall rest ds d, (length ds + length rest)%nat = n -> Forall (fun c => 4 <= len c /\ bytes c) (ds ++ rest) ->
  cellOffset P + 2 * Z.of_nat n <= us - total (cspans (packed us (ds ++ rest))) -> assembling P d0 n ds d ->
  exists d', assemble_loop rest (cellOffset P + 2 * (Z.of_nat n - len ds)) (us - total (cspans (packed us ds))) d = (us - total (cspans (packed us (ds ++ rest))), d') /\ assembling P d0 n (ds ++ rest) d'.
Proof.
  intros Hl Ho. induction rest as [|c rest IH]; intros ds d Hn Hok Hfit Ha; cbn [assemble_loop]; [rewrite app_nil_r; by exists d|].
  replace (ds ++ c :: rest) with ((ds ++ [c]) ++ rest) in * by (by rewrite <- app_assoc). pose proof (packed_snoc_total ds c) as Et. set (b := us - total (cspans (packed us (ds ++ [c])))) in *.
  replace (us - total (cspans (packed us ds)) - len c) with b by (unfold b; lia). cbn [length] in Hn.
  replace (cellOffset P + 2 * (Z.of_nat n - len ds) - 2) with (cellOffset P + 2 * (Z.of_nat n - len (ds ++ [c]))) by (rewrite length_app; cbn [length]; lia). set (ptr := cellOffset P + 2 * (Z.of_nat n - len (ds ++ [c]))).
  assert (b >= us - total (cspans (packed us ((ds ++ [c]) ++ rest)))) as Hb by (unfold b; rewrite !total_cspans, !packed_snd, !concat_app, !length_app; lia). assert (0 <= total (cspans (packed us ds))) by (rewrite total_cspans; lia).
  pose proof Hok as [Hokds _]%Forall_app. pose proof Hokds as [Hokd Hokc]%Forall_app. apply Forall_cons in Hokc as [[Hc Hcb] _]. assert (len (ds ++ [c]) = len ds + 1) as Hlc by (rewrite length_app; cbn [length]; lia).
  destruct Ha as [A1 A2 A3 A4]. set (d1 := put2byte d ptr b). assert (length d1 = length d) as Hl1 by apply length_put2. assert (bytes d1) as Hb1 by by apply bytes_put2.
  assert (forall j, 0 <= j -> j < b \/ b + len c <= j -> j < ptr \/ ptr + 2 <= j -> rd (splice d1 b c) j = rd d j) as Hout by (intros j Hj1 Hj2 Hj3; rewrite rd_splice_out by (unfold b, ptr in *; lia); apply rd_put2_ne; unfold ptr in *; lia).
  assert (length (splice d1 b c) = length d1) as Hls by (apply length_splice; unfold b in *; lia).
  apply (IH (ds ++ [c])); [rewrite length_app; cbn [length]; lia|done|done|]. constructor.
  - congruence.
  - by apply bytes_splice.
  - intros i y Hy. rewrite packed_app in Hy. apply lookup_app_Some in Hy as [Hy|[Hi Hy]].
    + destruct (A3 i y Hy) as [E1 E2]. pose proof (lookup_lt_Some _ _ _ Hy) as Hlt. rewrite packed_length in Hlt.
      assert (b + len c <= y.1 /\ y.1 + len y.2 <= us) as [P1 P2].
      { pose proof (proj1 (Forall_forall _ _) (packed_inside us ds ltac:(eapply Forall_impl; [exact Hokd|]; by intros z [])) (y.1, len y.2)) as Hin. unfold inside in Hin. cbn in Hin. destruct Hin; [apply list_elem_of_fmap; exists y; split; [done|by eapply list_elem_of_lookup_2]|]. unfold b. lia. }
      split.
      * rewrite <- E1. apply get2_ext; apply Hout; unfold ptr in *; lia.
      * rewrite <- E2 at 2. apply slice_ext; try lia. intros j Hj. apply Hout; unfold ptr in *; lia.
    + rewrite packed_length in *. cbn [packed] in Hy. apply list_lookup_singleton_Some in Hy as [Hi0 <-]. assert (i = length ds) as -> by lia. cbn [fst snd]. replace (us - total (cspans (packed us ds)) - len c) with b by (unfold b; lia). split.
      * replace (cellOffset P + 2 * (Z.of_nat n - 1 - Z.of_nat (length ds))) with ptr by (unfold ptr; lia). transitivity (get2byte d1 ptr); [apply get2_ext; apply rd_splice_out; unfold b, ptr in *; lia|]. apply get2_put2; [done|unfold ptr; lia|unfold b, ptr in *; lia|unfold b, ptr in *; lia].
      * apply slice_splice; unfold b in *; lia.
  - intros j Hj. rewrite Hout by (unfold b, ptr in *; lia). by apply A4.
Qed.

Lemma rev_lookup {A} (l : list A) i : (i < length l)%nat -> rev l !! i = l !! (length l - 1 - i)%nat.
Proof. intros Hi. rewrite rev_alt. change (rev_append l []) with (reverse l). rewrite reverse_lookup by done. f_equal. lia. Qed.

Lemma concat_rev_length {A} (l : list (list A)) : length (concat (rev l)) = length (concat l).
Proof. induction l as [|c l IH]; [done|]. cbn [rev concat]. rewrite concat_app, !length_app, IH. cbn [concat]. rewrite app_nil_r. lia. Qed.

Lemma assemblePage_ok P l : page_ok P [] [] [] -> top_of P = us -> Forall (fun c => bytes c /\ cellSizePtr pBt P c = len c) l -> Z.of_nat (length (concat l)) + 2 * len l <= nFree P ->
  exists cs, map snd cs = l /\ page_ok (assemblePage pBt P l) [] cs [] /\ nFree (assemblePage pBt P l) = nFree P - Z.of_nat (length (concat l)) - 2 * len l.
Proof.
  intros H Htop Hl Hfit. pose proof (pg_space _ _ _ _ H) as Hsp. pose proof (sp_bytes _ _ _ _ _ _ Hsp) as Hb. pose proof (sp_len _ _ _ _ _ _ Hsp) as Hlen. pose proof (sp_lo _ _ _ _ _ _ Hsp) as Hlo. pose proof (page_off _ _ _ _ H) as Hoff. pose proof (pg_hdr _ _ _ _ H) as Hh.
  pose proof (pg_n _ _ _ _ H) as Hn. pose proof (pg_free _ _ _ _ H) as Hfree. pose proof (page_kind _ _ _ _ H) as HP. pose proof (sp_chain _ _ _ _ _ _ Hsp) as Hch. pose proof (sp_frag _ _ _ _ _ _ Hsp) as Hfrag. destruct Hbt as [[Hps Hus] _]. cbn [length] in Hn. change (Z.of_nat 0) with 0 in Hn.
  unfold iCellFirst in Hfree. rewrite Hn in Hfree. cbn [cspans map total] in Hfree. cbn [chain] in Hch. cbn [app total cspans map] in Hfrag.
  set (n := length l). set (S := Z.of_nat (length (concat l))) in *. set (pk := packed us (rev l)). assert (total (cspans pk) = S) as Etot by (unfold pk, S; by rewrite total_cspans, packed_snd, concat_rev_length).
  assert (length pk = n) as Hpk by (unfold pk; by rewrite packed_length, length_rev).
  assert (Forall (fun c => 4 <= len c /\ bytes c) (rev l)) as Hmin.
  { apply Forall_forall. intros c Hc. rewrite <- Permutation_rev in Hc. destruct (proj1 (Forall_forall _ _) Hl c Hc) as [C1 C2]. pose proof (cellSize_range pBt Hbt P c HP C1). split; [lia|done]. }
  assert (Forall (fun c => 4 <= len c) (rev l)) as Hmin' by (eapply Forall_impl; [exact Hmin|]; by intros c []).
  destruct (assemble_loop_ok P (aData P) n ltac:(lia) ltac:(lia) (rev l) [] (aData P)) as (d & E & Ha); [cbn [length]; by rewrite length_rev|done|cbn [app]; fold pk; rewrite Etot; unfold n; lia|constructor; [done|done|by intros i x|done]|].
  cbn [packed cspans map total app length] in E. change (Z.of_nat 0) with 0 in E. rewrite !Z.sub_0_r in E. fold pk in E. change (map _ pk) with (cspans pk) in E. rewrite Etot in E.
  unfold assemblePage. fold n. replace (cellOffset P + Z.of_nat n * 2) with (cellOffset P + 2 * Z.of_nat n) by lia. rewrite E. cbv beta iota. destruct Ha as [A1 A2 A3 A4]. cbn [app] in A3. fold pk in A3. set (hdr := hdrOffset P) in *.
  set (d2 := put2byte (put2byte d (hdr + 3) (Z.of_nat n)) (hdr + 5) (us - S)). assert (bytes d2) as Hb2 by by do 2 apply bytes_put2. assert (len d2 = pageSize pBt) as Hl2 by (unfold d2; rewrite !length_put2; lia).
  rewrite (uwrap_small 16 (nFree P - _)), (uwrap_small 16 (Z.of_nat n)) by (unfold is_u; lia). exists (rev pk). split; [unfold pk; by rewrite map_rev, packed_snd, rev_involutive|].
  split; [|cbn [nFree set_data set_counts]; unfold n; lia]. set (P' := set_data _ _). assert (top_of P' = us - S) as Et by (unfold top_of; cbn [P' aData set_data set_counts hdrOffset]; fold hdr; apply notZero_put2; [by apply bytes_put2|lia|rewrite length_put2; lia|lia]).
  assert (forall j, 0 <= j -> ~ (hdr + 3 <= j < hdr + 7) -> rd d2 j = rd d j) as Hd by (intros j Hj0 Hj; unfold d2; rewrite !rd_put2_ne by lia; done).
  assert (cspans (rev pk) ≡ₚ cspans pk) as Hperm by (unfold cspans; apply Permutation_map; symmetry; apply Permutation_rev).
  assert (forall x, x ∈ pk -> us - S <= x.1 /\ x.1 + len x.2 <= us) as Hin.
  { intros x Hx. pose proof (proj1 (Forall_forall _ _) (packed_inside us (rev l) Hmin') (x.1, len x.2)) as Hi. fold pk in Hi. rewrite Etot in Hi. unfold inside in Hi. cbn in Hi. destruct Hi; [apply list_elem_of_fmap; by exists x|lia]. }
  constructor; cbn [P' aData set_data set_counts nCell nFree cellOffset hdrOffset leaf]; fold hdr; try apply H.
  - rewrite Hd, A4 by lia. eapply decode_same; [apply (pg_flags _ _ _ _ H)|done..].
  - rewrite length_rev, Hpk. done.
  - unfold d2. rewrite get2_put2_ne by lia. apply get2_put2; [done|lia|lia|lia].
  - intros i x Hx. pose proof (lookup_lt_Some _ _ _ Hx) as Hi. rewrite length_rev in Hi. rewrite rev_lookup in Hx by done. destruct (A3 _ _ Hx) as [<- _]. rewrite Hpk in *. transitivity (get2byte d (cellOffset P + 2 * Z.of_nat i)); [apply get2_ext; apply Hd; lia|]. f_equal. lia.
  - intros x Hx. rewrite <- Permutation_rev in Hx. pose proof Hx as [i Hi]%list_elem_of_lookup. destruct (A3 _ _ Hi) as [_ Es]. destruct (Hin x Hx) as [I1 I2]. split; [rewrite <- Es at 2; apply slice_ext; try lia; intros j Hj; apply Hd; lia|].
    assert (x.2 ∈ l) as Hxl. { rewrite (Permutation_rev l), <- (packed_snd us (rev l)). fold pk. apply list_elem_of_fmap. by exists x. } by destruct (proj1 (Forall_forall _ _) Hl _ Hxl).
  - rewrite Et. unfold iCellFirst. cbn [P' cellOffset nCell set_data set_counts]. unfold n. lia.
  - rewrite Et. cbn [app]. apply (space_perm _ _ _ _ _ _ (symmetry Hperm)). constructor.
    + done.
    + done.
    + exact Et.
    + lia.
    + cbn [chain]. rewrite <- Hch. apply get2_ext; rewrite Hd, A4 by lia; done.
    + done.
    + rewrite app_nil_r, <- Etot. by apply packed_inside.
    + rewrite app_nil_r. by apply packed_disj.
    + rewrite app_nil_r, Etot, Hd, A4 by lia. rewrite Hfrag, Htop. lia.
  - unfold iCellFirst. cbn [P' cellOffset nCell set_data set_counts]. rewrite Hperm, Etot. unfold n. lia.
Qed.
End page.
