(* ===== verification/PageRun.v ===== *)
(** Runs of operations on a page, which implement those on a list of cells; termination on every page, and a page on which freeSpace does not end. *)
From S2P Require Import Prelude Varint Page PageSpace PageCell PageSpec.
Local Open Scope Z_scope.
Local Open Scope c_scope.

(** * Runs *)

Section run.
Context (pBt : BtShared) {PM : Type} (ptrmapPut : PM -> Z -> Z -> Z -> Z * PM).
Local Abbreviation us := (usableSize pBt).

(** [PFill] is zeroPage followed by assemblePage, as in the balancing of the tree; [PReload] is the page written to the file and read again. *)
Inductive page_op := PInsert (i : nat) (c : list Z) (iChild : Z) | PDrop (i : nat) | PDefrag | PFill (l : list (list Z)) | PReload.



(** * The specification: a list of cells with a limit *)

Definition room (off : Z) (l : list (list Z)) : Z := us - off - Z.of_nat (length (concat l)) - 2 * len l.
Definition cell_ok (K : MemPage) (c : list Z) : Prop := bytes c /\ cellSizePtr pBt K c = len c.
(** [K] is a page of the same kind. *)
Definition op_ok (K : MemPage) (l : list (list Z)) (o : page_op) : Prop :=
  match o with
  | PInsert i c iChild => (i <= length l)%nat /\ bytes c /\ cell_ok K (with_child c iChild) /\ len c + 2 <= room (cellOffset K) l
  | PDrop i => (i < length l)%nat
  | PFill l' => Forall (cell_ok K) l' /\ 0 <= room (cellOffset K) l'
  | _ => True
  end.
Definition spec_op (l : list (list Z)) (o : page_op) : list (list Z) :=
  match o with
  | PInsert i c iChild => insert_at i (with_child c iChild) l
  | PDrop i => delete i l
  | PFill l' => l'
  | _ => l
  end.
Fixpoint ops_ok (K : MemPage) (l : list (list Z)) (ops : list (list Z * page_op)) : Prop :=
  match ops with
  | [] => True
  | (temp, o) :: ops => (bytes temp /\ len temp = pageSize pBt) /\ op_ok K l o /\ ops_ok K (spec_op l o) ops
  end.

(** * Simulation *)



Context (Hbt : bt_ok pBt) (Hpm : forall m a b c, (ptrmapPut m a b c).1 = SQLITE_OK).


Context (raw : MemPage) (fl : Z) (Hfl : is_u 8 fl) (Hdec : (decodeFlags pBt raw fl).1 = SQLITE_OK) (Hhdr : hdrOffset raw = 0 \/ hdrOffset raw = 100).
Local Abbreviation K := (zeroPage pBt raw fl).




End run.

(** * Termination *)

Section total.
Context (pBt : BtShared) (Hsz : sizes_ok pBt).
Local Abbreviation us := (usableSize pBt).

Lemma find_slot_total hdr nFrag n d : bytes d -> forall fuel addr, addr <= us -> us - addr < Z.of_nat fuel -> is_Some (find_slot pBt fuel hdr nFrag n d addr).
Proof.
  intros Hd. induction fuel as [|fuel IH]; intros addr Ha Hf; [lia|]. cbn [find_slot]. destruct (0 <? get2byte d addr); [|done]. destruct (Z.ltb_spec (us - 4) (get2byte d addr)), (Z.ltb_spec (get2byte d addr) (addr + 4)); cbn [orb]; try done.
  destruct (n <=? _); [|apply IH; lia]. destruct (_ - n <? 4); [done|]. by destruct (us <? _).
Qed.
Lemma free_sum_total first d : bytes d -> forall fuel pc acc, (0 < fuel)%nat -> (0 < pc <= us -> us - pc < Z.of_nat fuel) -> is_Some (free_sum pBt fuel first d pc acc).
Proof.
  intros Hd. induction fuel as [|fuel IH]; intros pc acc H0 Hf; [lia|]. cbn [free_sum]. destruct (Z.ltb_spec 0 pc); [|done]. destruct (pc <? first); [done|]. destruct (Z.ltb_spec (us - 4) pc); cbn [orb]; [done|].
  destruct (Z.ltb_spec us (pc + get2byte d (pc + 2))); [rewrite orb_true_r; done|]. rewrite orb_false_r. pose proof (get2byte_range d (pc + 2) Hd). destruct (Z.ltb_spec 0 (get2byte d pc)); cbn [andb]; [destruct (Z.leb_spec (get2byte d pc) (pc + get2byte d (pc + 2) + 3)); [done|]|]; apply IH; lia.
Qed.

(** C28. Reading a page and allocating space on it end for all contents of the page, the most corrupt ones included. *)
Theorem page_terminates P temp n : bytes (aData P) -> 0 <= hdrOffset P <= 100 -> is_Some (btreeInitPage pBt P) /\ is_Some (allocateSpace pBt P temp n).
Proof.
  intros Hb Hh. destruct Hsz as [Hps Hus]. split.
  - unfold btreeInitPage. destruct (isInit P); [done|]. destruct (decodeFlags pBt P _) as [rc P1]. destruct (negb _); [done|]. destruct (MX_CELL pBt <? _); [done|].
    set (P2 := set_init _ _ _ _ _). destruct (free_sum_total (iCellFirst P2) (aData P) Hb (Z.to_nat us) (get2byte (aData P) (hdrOffset P + 1)) (rd (aData P) (hdrOffset P + 7) + get2byteNotZero (aData P) (hdrOffset P + 5))) as [[s|] ->]; [lia|lia| |done].
    by destruct (us <? s).
  - unfold allocateSpace. destruct (_ <? iCellFirst P); [done|]. destruct (60 <=? _); [destruct (defragmentPage pBt P temp) as [rc P1]; by destruct (negb _)|]. destruct (_ <=? get2byteNotZero _ _); [|done].
    destruct (find_slot_total (hdrOffset P) (rd (aData P) (hdrOffset P + 7)) n (aData P) Hb (Z.to_nat us) (hdrOffset P + 1)) as [[| |] E]; [lia|lia|rewrite E; by eexists..].
Qed.

(** Free blocks from [lo] on, in ascending order with gaps of at least four bytes, behind the pointers that end at [first] and inside the page. *)
Fixpoint spaced (first lo : Z) (fs : list span) : Prop :=
  match fs with [] => True | x :: fs => lo <= x.1 /\ first <= x.1 <= us - 4 /\ 0 <= x.2 /\ x.1 + x.2 <= us /\ spaced first (x.1 + x.2 + 4) fs end.
Lemma free_sum_blocks first d : bytes d -> forall fuel a lo acc n, lo <= get2byte d a \/ get2byte d a = 0 -> free_sum pBt fuel first d (get2byte d a) acc = Some (inl n) ->
  exists fs, chain d a fs 0 /\ spaced first lo fs /\ n = acc + total fs.
Proof.
  intros Hd. induction fuel as [|fuel IH]; intros a lo acc n Ha; [done|]. cbn [free_sum]. pose proof (get2byte_range d a Hd) as Hr. destruct (Z.ltb_spec 0 (get2byte d a)) as [Hpc|Hpc].
  2: { intros [= <-]. exists []. cbn [chain spaced total]. split; [lia|]. split; [done|lia]. }
  destruct (Z.ltb_spec (get2byte d a) first), (Z.ltb_spec (us - 4) (get2byte d a)); cbn [orb]; try done. pose proof (get2byte_range d (get2byte d a + 2) Hd) as Hs. pose proof (get2byte_range d (get2byte d a) Hd) as Hx.
  destruct (Z.ltb_spec us (get2byte d a + get2byte d (get2byte d a + 2))); [by rewrite orb_true_r|]. rewrite orb_false_r. destruct (_ && _) eqn:En; [done|]. intros Hf.
  apply (IH (get2byte d a) (get2byte d a + get2byte d (get2byte d a + 2) + 4)) in Hf as (fs & Hc & Hsp & ->).
  - exists ((get2byte d a, get2byte d (get2byte d a + 2)) :: fs). cbn [chain spaced total fst snd]. split; [done|]. split; [|lia]. split_and!; try lia. done.
  - apply andb_false_iff in En as [?%Z.ltb_ge|?%Z.leb_gt]; lia.
Qed.

(** The kind of a page by its flags: tables or indices, leaves or not. *)
Lemma decode_limits P fl Q : bt_ok pBt -> is_u 8 fl -> decodeFlags pBt P fl = (SQLITE_OK, Q) ->
  fl ∈ [2; 5; 10; 13] /\ intKey Q = Z.testbit fl 0 /\ leaf Q = Z.b2z (Z.testbit fl 3) /\
  minLocal Q = (us - 12) * 32 / 255 - 23 /\ maxLocal Q = if intKey Q then us - 35 else (us - 12) * 64 / 255 - 23.
Proof.
  intros [[Hps Hus] Hbt] Hfl. assert (forall x, 0 <= x < 65536 -> u16 x = x) as Hu by (intros x Hx; apply uwrap_small; exact Hx).
  assert (23 <= (us - 12) * 32 / 255) by (apply Z.div_le_lower_bound; lia). assert ((us - 12) * 32 / 255 <= (us - 12) * 64 / 255) by (apply Z.div_le_mono; lia). assert ((us - 12) * 64 / 255 <= us - 12) by (apply Z.div_le_upper_bound; lia).
  assert (bt_minLeaf pBt = (us - 12) * 32 / 255 - 23 /\ bt_minLocal pBt = (us - 12) * 32 / 255 - 23 /\ bt_maxLeaf pBt = us - 35 /\ bt_maxLocal pBt = (us - 12) * 64 / 255 - 23) as (L1 & L2 & L3 & L4).
  { rewrite Hbt. cbn [bt_limits bt_minLocal bt_maxLocal bt_minLeaf bt_maxLeaf usableSize]. rewrite !Hu by lia. done. }
  unfold decodeFlags. change (PTF_LEAFDATA .| PTF_INTKEY) with 5. change PTF_ZERODATA with 2. change (Z.lnot PTF_LEAF) with (-9).
  assert ((fl .& -9 =? 5 = true -> (fl = 5 \/ fl = 13)) /\ (fl .& -9 =? 2 = true -> (fl = 2 \/ fl = 10))) as [H5 H2].
  { clear -Hfl. revert fl Hfl. byte_check (fun fl => (negb (fl .& -9 =? 5) || (fl =? 5) || (fl =? 13)) && (negb (fl .& -9 =? 2) || (fl =? 2) || (fl =? 10))). rewrite andb_true_iff, !orb_true_iff, !negb_true_iff, !Z.eqb_eq, !Z.eqb_neq in *. split; intros; lia. }
  destruct (fl .& -9 =? 5); [|destruct (fl .& -9 =? 2); [|done]]; intros [= <-]; cbn [intKey leaf minLocal maxLocal]; [destruct (H5 eq_refl) as [-> | ->]|destruct (H2 eq_refl) as [-> | ->]];
    (split; [set_solver|]; split; [done|]; split; [done|]; done).
Qed.

(** C29. Whatever bytes a page has, when btreeInitPage accepts it the fields of the page have their types and fit together: its flags are one of the four that name a kind, and the flags of the page and the payload limits are those of this kind, for the
    usable size; the pointers start behind the header and there are not more cells than a page can have; the free blocks are a list in ascending order behind the pointers and inside the page, and the number of free bytes is, as an
    unsigned 16-bit number, what they, the fragments and the gap have. *)
Theorem btreeInitPage_type P P1 : bt_ok pBt -> bytes (aData P) -> hdrOffset P = 0 \/ hdrOffset P = 100 -> isInit P = false -> btreeInitPage pBt P = Some (SQLITE_OK, P1) ->
  let fl := rd (aData P) (hdrOffset P) in
  fl ∈ [2; 5; 10; 13] /\ intKey P1 = Z.testbit fl 0 /\ leaf P1 = Z.b2z (Z.testbit fl 3) /\ hasData P1 = intKey P1 && (leaf P1 =? 1) /\ childPtrSize P1 = 4 - 4 * leaf P1 /\
  minLocal P1 = (us - 12) * 32 / 255 - 23 /\ (maxLocal P1 = if intKey P1 then us - 35 else (us - 12) * 64 / 255 - 23) /\
  aData P1 = aData P /\ isInit P1 = true /\ cellOffset P1 = hdrOffset P + 12 - 4 * leaf P1 /\ nCell P1 = get2byte (aData P) (hdrOffset P + 3) /\ 0 <= nCell P1 <= MX_CELL pBt /\
  exists fs, chain (aData P) (hdrOffset P + 1) fs 0 /\ spaced (iCellFirst P1) 0 fs /\
    let n := rd (aData P) (hdrOffset P + 7) + get2byteNotZero (aData P) (hdrOffset P + 5) + total fs in n <= us /\ nFree P1 = u16 (n - iCellFirst P1).
Proof.
  intros Hbt Hb Hh Hi. unfold btreeInitPage. rewrite Hi. destruct (decodeFlags pBt P (rd (aData P) (hdrOffset P))) as [rc Q] eqn:E. destruct (Z.eqb_spec rc 0) as [->|]; cbn [negb]; [|done].
  destruct (decode_kind pBt _ _ _ Hbt (rd_byte _ _ Hb) E) as [Hlf Hch Hda _ _]. destruct (decode_limits _ _ _ Hbt (rd_byte _ _ Hb) E) as (Hfl & Hik & Hle & Hmin & Hmax). destruct (decode_fields _ _ _ _ E) as (F1 & F2 & F3 & _).
  rewrite (uwrap_small 16 (hdrOffset P + 12 - 4 * leaf Q)) by (unfold is_u; lia).
  set (Q1 := set_init _ _ _ _ _). destruct (Z.ltb_spec (MX_CELL pBt) (nCell Q1)) as [|Hmx]; [done|]. change (nCell Q1) with (get2byte (aData P) (hdrOffset P + 3)) in *. pose proof (get2byte_range (aData P) (hdrOffset P + 3) Hb). destruct Hsz as [Hps Hus].
  destruct (free_sum _ _ _ _ _ _) as [[n|]|] eqn:Ef; [|done..]. destruct (Z.ltb_spec us n) as [|Hn]; [done|]. intros [= <-]. cbv zeta. do 7 (split; [done|]). split; [exact F1|]. split; [done|]. split; [done|]. split; [done|]. split; [cbn; lia|].
  apply (free_sum_blocks _ _ Hb _ _ 0) in Ef as (fs & Hc & Hs & ->); [|pose proof (get2byte_range (aData P) (hdrOffset P + 1) Hb); lia]. exists fs. split; [done|]. split; [done|]. split; [lia|done].
Qed.

(** ** A loop without end *)

(** A block that is its own successor and has no size is merged with itself again and again. *)
Lemma coalesce_stuck hdr d a b : get2byte d a = b -> 0 < b -> get2byte d b = b -> get2byte d (b + 2) = 0 -> 0 <= rd d (hdr + 7) < 256 -> wr d (hdr + 7) (rd d (hdr + 7)) = d -> put2byte d b b = d -> put2byte d (b + 2) 0 = d ->
  forall fuel, coalesce fuel hdr d a = None.
Proof.
  intros Ea Hb Eb Es Hr W1 W2 W3. induction fuel as [|fuel IH]; [done|]. cbn [coalesce]. rewrite Ea, Eb, Es. rewrite (proj2 (Z.ltb_lt 0 b)), (proj2 (Z.leb_le b _)) by lia. cbn [andb]. replace (b - (b + 0)) with 0 by lia. rewrite (proj2 (Z.ltb_ge (rd d (hdr + 7)) 0)) by lia. change (0 <? 0) with false. cbn [orb].
  change (u8 0) with 0. rewrite Z.sub_0_r, (uwrap_small 8) by done. rewrite W1, Eb, W2, Es. replace (b + 0 - b) with 0 by lia. rewrite W3. exact IH.
Qed.
(** freeSpace of a span that ends before such a block. *)
Lemma freeSpace_stuck P start size b : let d := aData P in let hdr := hdrOffset P in
  btsFlags pBt .& BTS_SECURE_DELETE = 0 -> get2byte d (hdr + 1) = b -> 0 < start -> start + size + 3 < b <= us - 4 ->
  let d1 := put2byte (put2byte (put2byte d (hdr + 1) start) start b) (start + 2) size in
  get2byte d1 (hdr + 1) = start -> get2byte d1 start = b -> get2byte d1 (start + 2) = size -> get2byte d1 b = b -> get2byte d1 (b + 2) = 0 -> 0 <= size -> 0 <= rd d1 (hdr + 7) < 256 ->
  wr d1 (hdr + 7) (rd d1 (hdr + 7)) = d1 -> put2byte d1 b b = d1 -> put2byte d1 (b + 2) 0 = d1 ->
  forall fuel, freeSpace pBt fuel P start size = None.
Proof.
  intros d hdr Hsec Eb Hst Hbb d1 E1 E2 E3 E4 E5 Hsize Hr W1 W2 W3 [|fuel]; unfold freeSpace; rewrite Hsec; cbn [Z.eqb negb]; fold d hdr; [done|]. cbn [free_place]. rewrite Eb, (proj2 (Z.ltb_ge b start)) by lia. cbn [andb]. rewrite (proj2 (Z.ltb_ge (us - 4) b)) by lia.
  fold d1. cbn [coalesce]. rewrite E1, E2, E3, (proj2 (Z.ltb_lt 0 start)), (proj2 (Z.leb_gt b _)) by lia. cbn [andb]. by rewrite (coalesce_stuck hdr d1 start b E2 ltac:(lia) E4 E5 Hr W1 W2 W3).
Qed.
End total.

(** * Examples *)

#[export] Instance is_u_dec w x : Decision (is_u w x).
Proof. unfold is_u. apply _. Defined.
#[export] Instance bytes_dec p : Decision (bytes p).
Proof. unfold bytes. apply _. Defined.
#[export] Instance cell_ok_dec pBt K c : Decision (cell_ok pBt K c).
Proof. unfold cell_ok. apply _. Defined.
#[export] Instance op_ok_dec pBt K l o : Decision (op_ok pBt K l o).
Proof. destruct o; unfold op_ok; apply _. Defined.
#[export] Instance ops_ok_dec pBt K l ops : Decision (ops_ok pBt K l ops).
Proof. revert l. induction ops as [|[temp o] ops IH]; intros l; cbn [ops_ok]; apply _. Defined.

Definition bt512 : BtShared := bt_limits 512 512 0 false.
Definition raw_page (d : list Z) : MemPage :=
  {| isInit := false; apOvfl := []; intKey := false; leaf := 0; hasData := false; hdrOffset := 0; childPtrSize := 0; maxLocal := 0; minLocal := 0; cellOffset := 0; nFree := 0; nCell := 0; aData := d; pgno := 2 |}.
Definition no_ptrmap (m : unit) (key eType parent : Z) : Z * unit := (SQLITE_OK, m).
Lemma bt512_ok : bt_ok bt512.
Proof. split; [unfold sizes_ok; cbn; lia|reflexivity]. Qed.

Definition temp512 : list Z := replicate 512 170.

Lemma page_terminates_witness : is_Some (btreeInitPage bt512 (raw_page temp512)) /\ is_Some (allocateSpace bt512 (raw_page temp512) temp512 40).
Proof.
  apply (page_terminates bt512 (proj1 bt512_ok)); [|cbn; lia]. apply (bool_decide_unpack (bytes temp512)). vm_compute. exact I.
Defined.

(** ** A page on which a removal never ends *)

(** A corrupt page: the free block at 300 and the cell at 260 are below the start of the content area at 400. *)
Definition evil_page : list Z := put2byte (splice (replicate 512 0) 0 [13; 1; 44; 0; 1; 1; 144; 0; 1; 4]) 302 4.
(** A row of 147 bytes, with a small row at its offset 10 and a free block that is its own successor at its offset 50. *)
Definition evil_row : list Z := splice (splice (splice (replicate 150 0) 0 [129; 19; 5]) 10 [8; 7]) 50 [1; 44; 0; 0].
Definition evil1 : MemPage := default (raw_page []) (snd <$> btreeInitPage bt512 (raw_page evil_page)).
Definition evil2 : MemPage := default (raw_page []) ((fun r => r.1.2) <$> insertCell bt512 no_ptrmap tt evil1 temp512 SQLITE_OK 1 evil_row 150 0).

(** C17. freeSpace does not end on every page that btreeInitPage accepts. The page [evil_page] is accepted, a row that fits is inserted without an error, and the removal of the other cell then merges a free
    block with itself for ever: no bound on the turns of the loop is enough. *)
Theorem freeSpace_hangs : exists P, btreeInitPage bt512 (raw_page evil_page) = Some (SQLITE_OK, P) /\
    exists P', insertCell bt512 no_ptrmap tt P temp512 SQLITE_OK 1 evil_row 150 0 = Some (SQLITE_OK, P', tt) /\ cellSizePtr bt512 P evil_row = 150 /\
    forall fuel, dropCell bt512 fuel P' 0 (len (page_cell bt512 P' 0)) = None.
Proof.
  exists evil1. split; [vm_compute; reflexivity|]. exists evil2. split; [vm_compute; reflexivity|]. split; [vm_compute; reflexivity|]. intros fuel. unfold dropCell.
  replace (get2byte (aData evil2) (cellOffset evil2 + 2 * 0)) with 260 by (vm_compute; reflexivity). replace (len (page_cell bt512 evil2 0)) with 10 by (vm_compute; reflexivity).
  replace ((260 <? get2byte (aData evil2) (hdrOffset evil2 + 5)) || (usableSize bt512 <? 260 + 10)) with false by (vm_compute; reflexivity).
  rewrite (freeSpace_stuck bt512 evil2 260 10 300); [done|..]; try (vm_compute; reflexivity); try (vm_compute; split; (reflexivity || discriminate)); try (vm_compute; discriminate).
Qed.
Lemma btreeInitPage_type_witness : intKey evil1 = true /\ leaf evil1 = 1 /\ maxLocal evil1 = 477 /\ nCell evil1 <= MX_CELL bt512.
Proof.
  destruct (btreeInitPage_type bt512 (proj1 bt512_ok) (raw_page evil_page) evil1 bt512_ok) as (_ & H1 & H2 & _ & _ & _ & H3 & _ & _ & _ & _ & [_ H4] & _).
  - apply (bool_decide_unpack (bytes evil_page)). vm_compute. exact I.
  - left. reflexivity.
  - reflexivity.
  - vm_compute. reflexivity.
  - rewrite H1 in *. split; [reflexivity|]. split; [exact H2|]. split; [exact H3|exact H4].
Defined.
(** A row of 500 bytes, of which 39 are on the page. *)
Lemma cellSize_parse_witness : let info := btreeParseCellPtr bt512 evil1 ([131; 116; 5] ++ replicate 60 9) in nSize info = 46 /\ nLocal info = 39 /\ nPayload info = 500 /\ nSize info = cellSizePtr bt512 evil1 ([131; 116; 5] ++ replicate 60 9).
Proof.
  destruct (cellSize_parse bt512 bt512_ok evil1 ([131; 116; 5] ++ replicate 60 9)) as [H _].
  - constructor; try (vm_compute; reflexivity); try (vm_compute; split; discriminate); try (vm_compute; discriminate). right. vm_compute. reflexivity.
  - apply (bool_decide_unpack (bytes ([131; 116; 5] ++ replicate 60 9))). vm_compute. exact I.
  - split; [vm_compute; reflexivity|]. split; [vm_compute; reflexivity|]. split; [vm_compute; reflexivity|exact H].
Defined.
