(* ===== verification/Pager.v ===== *)
(** The interface of the pager that the b-tree layer relies on, and a pager in memory.

    A reference to a page gives access to its bytes. Pages are fetched, made writable and released; each call can fail. The b-tree layer can give up the content of
    a page that it does not need ([dont_write], or [acquire] without content); the content of the others is [kept]. *)
From S2P Require Import Prelude.
Local Open Scope Z_scope.
Local Open Scope c_scope.

Definition PAGER_GET_NOCONTENT : Z := 0x01.
Definition PAGER_GET_READONLY : Z := 0x02.

Class PagerOps (W : Type) := {
  page : W -> Z -> list Z;  (* sqlite3PagerGetData *)
  refs : W -> Z -> Z;  (* sqlite3PagerPageRefcount *)
  acquire : Z -> Z -> W -> Z * W;  (* sqlite3PagerAcquire *)
  lookup_page : Z -> W -> bool * W;  (* sqlite3PagerLookup *)
  add_ref : Z -> W -> W;  (* sqlite3PagerRef *)
  pager_write : Z -> W -> Z * W;  (* sqlite3PagerWrite *)
  assign : Z -> list Z -> W -> W;  (* stores through the data pointer *)
  unref : Z -> W -> W;  (* sqlite3PagerUnref *)
  dont_write : Z -> W -> W;  (* sqlite3PagerDontWrite *)
  (** The content of the page is in the cache or in the file. *)
  kept : W -> Z -> Prop;
  (** sqlite3PagerWrite has succeeded for the page: a store to another page is not promised to have any effect. *)
  writable : W -> Z -> Prop }.

Definition same `{PagerOps W} (w w' : W) (q : Z) : Prop := (kept w q -> kept w' q /\ page w' q = page w q) /\ (writable w q -> writable w' q).

(** What the calls promise. *)
Class Pager (W : Type) `{PagerOps W} (pageSize : Z) : Prop := {
  page_bytes w q : bytes (page w q);
  page_length w q : Z.of_nat (length (page w q)) = pageSize;
  refs_nonneg w q : 0 <= refs w q;
  acquire_same p f w q : q <> p \/ f .& PAGER_GET_NOCONTENT = 0 -> same w (acquire p f w).2 q;
  acquire_ok p f w : (acquire p f w).1 = 0 -> 0 < p < 2 ^ 31 /\ forall q, refs (acquire p f w).2 q = if q =? p then refs w q + 1 else refs w q;
  acquire_fail p f w : (acquire p f w).1 <> 0 -> f .& PAGER_GET_NOCONTENT = 0 \/ refs w p = 0 -> forall q, refs (acquire p f w).2 q = refs w q;
  lookup_same p w q : same w (lookup_page p w).2 q;
  lookup_refs p w q : refs (lookup_page p w).2 q = if (lookup_page p w).1 && (q =? p) then refs w q + 1 else refs w q;
  add_ref_same p w q : same w (add_ref p w) q;
  add_ref_refs p w q : refs (add_ref p w) q = if q =? p then refs w q + 1 else refs w q;
  write_same p w q : 0 < refs w p -> same w (pager_write p w).2 q;
  write_refs p w q : 0 < refs w p -> refs (pager_write p w).2 q = refs w q;
  write_ok p w : 0 < refs w p -> (pager_write p w).1 = 0 -> writable (pager_write p w).2 p /\ kept (pager_write p w).2 p;
  assign_page p d w : 0 < refs w p -> writable w p -> bytes d -> Z.of_nat (length d) = pageSize -> page (assign p d w) p = d;
  assign_same p d w q : q <> p -> same w (assign p d w) q;
  assign_self p d w : (kept w p -> kept (assign p d w) p) /\ (writable w p -> writable (assign p d w) p);
  assign_refs p d w q : refs (assign p d w) q = refs w q;
  unref_same p w q : 0 < refs w p -> same w (unref p w) q;
  unref_refs p w q : 0 < refs w p -> refs (unref p w) q = if q =? p then refs w q - 1 else refs w q;
  dont_write_same p w q : 0 < refs w p -> q <> p -> same w (dont_write p w) q;
  dont_write_refs p w q : 0 < refs w p -> refs (dont_write p w) q = refs w q }.

(** ** A pager in memory *)

(** The contents of pages, the references, the pages that may be written, and the number of calls that can fail. *)
Record Memory := { contents : gmap Z (list Z); counts : gmap Z N; dirty : gset Z; calls : nat }.

Section memory.
Context (pageSize : Z) (fails : nat -> bool).

(** A page has [pageSize] bytes, whatever was stored. *)
Definition fit (l : list Z) : list Z := take (Z.to_nat pageSize) (map (uwrap 8) l ++ replicate (Z.to_nat pageSize) 0).
Definition count (w : Memory) (p : Z) : N := default 0%N (counts w !! p).
Definition set_count (w : Memory) (p : Z) (n : N) (k : nat) : Memory := {| contents := contents w; counts := <[p := n]> (counts w); dirty := dirty w; calls := k |}.
Definition set_contents (w : Memory) (p : Z) (d : list Z) (x : gset Z) : Memory := {| contents := <[p := d]> (contents w); counts := counts w; dirty := x; calls := calls w |}.

Definition mem_acquire (p f : Z) (w : Memory) : Z * Memory :=
  if negb ((0 <? p) && (p <? 2 ^ 31)) then (SQLITE_CORRUPT, w)
  else if fails (calls w) then (SQLITE_IOERR, set_count w p (count w p) (S (calls w)))
  else (SQLITE_OK, set_count (if f .& PAGER_GET_NOCONTENT =? 0 then w else set_contents w p [] (dirty w)) p (count w p + 1) (S (calls w))).

#[local] Instance mem_ops : PagerOps Memory := {
  page w p := fit (default [] (contents w !! p));
  refs w p := Z.of_N (count w p);
  acquire := mem_acquire;
  lookup_page p w := if bool_decide (p ∈ dom (counts w)) then (true, set_count w p (count w p + 1) (calls w)) else (false, w);
  add_ref p w := set_count w p (count w p + 1) (calls w);
  pager_write p w := if fails (calls w) then (SQLITE_IOERR, set_count w p (count w p) (S (calls w))) else (SQLITE_OK, {| contents := contents w; counts := counts w; dirty := {[p]} ∪ dirty w; calls := S (calls w) |});
  assign p d w := set_contents w p d (dirty w);
  unref p w := set_count w p (N.pred (count w p)) (calls w);
  dont_write p w := set_contents w p [] (dirty w ∖ {[p]});
  kept _ _ := True;
  writable w p := p ∈ dirty w }.

Lemma fit_id d : bytes d -> Z.of_nat (length d) = pageSize -> fit d = d.
Proof.
  intros Hb Hl. unfold fit. rewrite take_app_le by (rewrite length_map; lia). rewrite take_ge by (rewrite length_map; lia). induction d as [|x d IH] in Hb, pageSize, Hl |- *; [done|]. apply Forall_cons in Hb as [Hx Hb]. cbn [map]. rewrite (IH (Z.of_nat (length d))) by done. by rewrite uwrap_small.
Qed.
Lemma count_set w p n k q : count (set_count w p n k) q = if q =? p then n else count w q.
Proof. unfold count, set_count. cbn [counts]. destruct (Z.eqb_spec q p) as [->|]; [by rewrite lookup_insert_eq|by rewrite lookup_insert_ne]. Qed.
Lemma same_set_count w p n k q : same w (set_count w p n k) q.
Proof. done. Qed.
Lemma same_set_contents w p d x q : q <> p -> (q ∈ dirty w -> q ∈ x) -> same w (set_contents w p d x) q.
Proof. intros Hq Hx. split; [|done]. intros _. split; [done|]. cbn. by rewrite lookup_insert_ne. Qed.

Lemma mem_pager : 0 <= pageSize -> Pager Memory pageSize.
Proof.
  intros Hps. split.
  - intros w q. apply Forall_take, Forall_app_2; [|apply Forall_replicate; unfold is_u; lia]. apply Forall_map, Forall_forall. intros x _. apply uwrap_range. lia.
  - intros w q. cbn. unfold fit. rewrite length_take, length_app, length_replicate. lia.
  - intros w q. cbn. lia.
  - intros p f w q Hq. cbn. unfold mem_acquire. destruct (negb _); [done|]. destruct (fails _); [done|]. cbn [snd]. destruct (Z.eqb_spec (f .& PAGER_GET_NOCONTENT) 0) as [E|E]; [done|]. destruct Hq as [Hq|?]; [|done]. by apply same_set_contents.
  - intros p f w. cbn. unfold mem_acquire. destruct (negb _) eqn:E; [done|]. destruct (fails _); [done|]. intros _. apply negb_false_iff, andb_true_iff in E as [?%Z.ltb_lt ?%Z.ltb_lt]. split; [done|]. intros q. cbn [snd]. rewrite count_set. destruct (Z.eqb_spec q p) as [->|]; [lia|]. by destruct (_ =? 0).
  - intros p f w. cbn. unfold mem_acquire. destruct (negb _); [done|]. destruct (fails _); [|done]. intros _ _ q. cbn [snd]. rewrite count_set. destruct (Z.eqb_spec q p) as [->|]; done.
  - intros p w q. cbn. by destruct (bool_decide _).
  - intros p w q. cbn. destruct (bool_decide _); cbn [fst snd andb]; [|done]. rewrite count_set. destruct (Z.eqb_spec q p) as [->|]; [lia|done].
  - done.
  - intros p w q. cbn. rewrite count_set. destruct (Z.eqb_spec q p) as [->|]; [lia|done].
  - intros p w q _. cbn. destruct (fails _); [done|]. split; [done|]. cbn. intros ?. apply elem_of_union. by right.
  - intros p w q _. cbn. destruct (fails _); cbn [snd]; [|done]. rewrite count_set. destruct (Z.eqb_spec q p) as [->|]; done.
  - intros p w _. cbn. destruct (fails _); [done|]. intros _. split; [|done]. cbn. apply elem_of_union. left. by apply elem_of_singleton.
  - intros p d w _ _ Hb Hl. cbn. rewrite lookup_insert_eq. by apply fit_id.
  - intros p d w q Hq. by apply same_set_contents.
  - done.
  - done.
  - done.
  - intros p w q Hp. cbn in *. rewrite count_set. destruct (Z.eqb_spec q p) as [->|]; [lia|done].
  - intros p w q _ Hq. apply same_set_contents; [done|]. intros ?. apply elem_of_difference. split; [done|]. by rewrite elem_of_singleton.
  - done.
Qed.

(** The file is empty but for the pages [l]; page 1 is in use. *)
Definition mem_file (l : gmap Z (list Z)) : Memory := {| contents := l; counts := {[ 1 := 1%N ]}; dirty := ∅; calls := 0 |}.
End memory.
