(* ===== verification/BtPages.v ===== *)
(** Pages of the database file: btree.c, the pointer map, the list of free pages and overflow pages, as programs over a pager.

    The free pages are in a linked list of trunk pages: the first four bytes of a trunk page have the number of the next one, then come the number of leaves and the leaves. Page 1
    has the first trunk page at offset 32 and the number of free pages at offset 36. A payload that does not fit in its cell continues on a linked list of overflow pages. *)
From S2P Require Import Prelude Varint IntArith Bitvec Mem Page Pager.
Local Open Scope Z_scope.
Local Open Scope c_scope.

Definition PTRMAP_FREEPAGE : Z := 2.
Definition PTRMAP_OVERFLOW2 : Z := 4.
Definition BTALLOC_ANY : Z := 0.
Definition BTALLOC_EXACT : Z := 1.
Definition BTALLOC_LE : Z := 2.
Definition PENDING_BYTE : Z := 0x40000000.

Definition get4byte (p : list Z) (i : Z) : Z := sqlite3Get4byte (drop (Z.to_nat i) p).
Definition put4byte (p : list Z) (i v : Z) : list Z := splice p i (sqlite3Put4byte [0; 0; 0; 0] v).

(** The pager, and the fields of BtShared and MemPage that the programs change. [nAlloc] counts the calls of the allocator. *)
Record Db (W : Type) := { pPager : W; nPage : Z; pHasContent : option Bitvec; nAlloc : nat; inited : Z -> bool }.
Arguments pPager {W}. Arguments nPage {W}. Arguments pHasContent {W}. Arguments nAlloc {W}. Arguments inited {W}.

Section pages.
Context {W : Type} `{PagerOps W} (pBt : BtShared) (bDoTruncate : bool) (alloc : nat -> bool).

Definition set_pager (s : Db W) (w : W) : Db W := {| pPager := w; nPage := nPage s; pHasContent := pHasContent s; nAlloc := nAlloc s; inited := inited s |}.
Definition set_nPage (s : Db W) (n : Z) : Db W := {| pPager := pPager s; nPage := n; pHasContent := pHasContent s; nAlloc := nAlloc s; inited := inited s |}.
Definition set_hasContent (s : Db W) (b : option Bitvec) (k : nat) : Db W := {| pPager := pPager s; nPage := nPage s; pHasContent := b; nAlloc := k; inited := inited s |}.
Definition clear_init (s : Db W) (p : Z) : Db W :=
  {| pPager := pPager s; nPage := nPage s; pHasContent := pHasContent s; nAlloc := nAlloc s; inited := fun q => if q =? p then false else inited s q |}.

(** ** Calls of the pager *)

Definition btreeGetPage (pgno flags : Z) : prog (Db W) Z := fun s => let '(rc, w) := acquire pgno flags (pPager s) in Some (rc, set_pager s w).
Definition btreePageLookup (pgno : Z) : prog (Db W) bool := fun s => let '(b, w) := lookup_page pgno (pPager s) in Some (b, set_pager s w).
Definition pagerRef (pgno : Z) : prog (Db W) unit := pmod (fun s => set_pager s (add_ref pgno (pPager s))).
Definition pagerWrite (pgno : Z) : prog (Db W) Z := fun s => let '(rc, w) := pager_write pgno (pPager s) in Some (rc, set_pager s w).
Definition releasePage (pgno : Z) : prog (Db W) unit := pmod (fun s => set_pager s (unref pgno (pPager s))).
Definition releaseOpt (p : option Z) : prog (Db W) unit := match p with Some p => releasePage p | None => mret tt end.
Definition load (pgno : Z) : prog (Db W) (list Z) := fun s => Some (page (pPager s) pgno, s).
Definition store (pgno : Z) (d : list Z) : prog (Db W) unit := pmod (fun s => set_pager s (assign pgno d (pPager s))).

(** ** The pointer map *)

Definition PENDING_BYTE_PAGE : Z := u32 (PENDING_BYTE / pageSize pBt + 1).

Definition ptrmapPageno (pgno : Z) : Z :=
  if pgno <? 2 then 0
  else
    let nPagesPerMapPage := usableSize pBt / 5 + 1 in
    let iPtrMap := (pgno - 2) / nPagesPerMapPage in
    let ret := u32 (iPtrMap * nPagesPerMapPage + 2) in
    if ret =? PENDING_BYTE_PAGE then u32 (ret + 1) else ret.

Definition PTRMAP_PTROFFSET (pgptrmap pgno : Z) : Z := i32 (u32 (5 * (pgno - pgptrmap - 1))).
Definition PTRMAP_ISPAGE (pgno : Z) : bool := ptrmapPageno pgno =? pgno.

(** The result code is zero when the function is called. *)
Definition ptrmapPut (key eType parent : Z) : prog (Db W) Z :=
  if key =? 0 then mret SQLITE_CORRUPT
  else
    let iPtrmap := ptrmapPageno key in
    rc ← btreeGetPage iPtrmap 0;
    if negb (rc =? SQLITE_OK) then mret rc
    else
      let offset := PTRMAP_PTROFFSET iPtrmap key in
      if offset <? 0 then releasePage iPtrmap ;; mret SQLITE_CORRUPT
      else
        pPtrmap ← load iPtrmap;
        rc ← (if negb (eType =? rd pPtrmap offset) || negb (get4byte pPtrmap (offset + 1) =? parent) then
                rc ← pagerWrite iPtrmap;
                if rc =? SQLITE_OK then store iPtrmap (put4byte (wr pPtrmap offset eType) (offset + 1) parent) ;; mret rc else mret rc
              else mret SQLITE_OK);
        releasePage iPtrmap ;; mret rc.

(** The result code, the type and the parent. *)
Definition ptrmapGet (key : Z) : prog (Db W) (Z * Z * Z) :=
  let iPtrmap := ptrmapPageno key in
  rc ← btreeGetPage iPtrmap 0;
  if negb (rc =? SQLITE_OK) then mret (rc, 0, 0)
  else
    pPtrmap ← load iPtrmap;
    let offset := PTRMAP_PTROFFSET iPtrmap key in
    if offset <? 0 then releasePage iPtrmap ;; mret (SQLITE_CORRUPT, 0, 0)
    else
      let eType := rd pPtrmap offset in
      let parent := get4byte pPtrmap (offset + 1) in
      releasePage iPtrmap ;;
      mret (if (eType <? 1) || (5 <? eType) then SQLITE_CORRUPT else SQLITE_OK, eType, parent).

(** ** Pages whose content must be kept for a rollback *)

Definition btreeSetHasContent (pgno : Z) : prog (Db W) Z := fun s =>
  let '(b, k, rc) :=
    match pHasContent s with
    | Some b => (Some b, nAlloc s, SQLITE_OK)
    | None => let '(b, k) := sqlite3BitvecCreate alloc (nPage s) (nAlloc s) in (b, k, match b with None => SQLITE_NOMEM | Some _ => SQLITE_OK end)
    end in
  match b with
  | Some v =>
      if (rc =? SQLITE_OK) && (pgno <=? sqlite3BitvecSize v) then
        let '(rc, b, k) := sqlite3BitvecSet alloc b pgno k in Some (rc, set_hasContent s b k)
      else Some (rc, set_hasContent s b k)
  | None => Some (rc, set_hasContent s b k)
  end.

Definition btreeGetHasContent (pgno : Z) : prog (Db W) bool := fun s =>
  Some (match pHasContent s with Some v => (sqlite3BitvecSize v <? pgno) || negb (sqlite3BitvecTest (Some v) pgno =? 0) | None => false end, s).

Definition btreeClearHasContent : prog (Db W) unit := pmod (fun s => set_hasContent s None (nAlloc s)).

(** ** Allocation *)

(** The search for a leaf not above [nearby], from leaf [i] on with [k] leaves to go. *)
Fixpoint closest_le (k : nat) (aData : list Z) (nearby i : Z) : Z :=
  match k with
  | O => 0
  | S k => if get4byte aData (8 + i * 4) <=? nearby then i else closest_le k aData nearby (i + 1)
  end.

Definition distance (iPage nearby : Z) : Z := default 0 (Int64.sqlite3AbsInt32 (i32 (u32 (iPage - nearby)))).  (* defined for every int, see absInt32_spec *)

Fixpoint closest_dist (k : nat) (aData : list Z) (nearby i closest dist : Z) : Z :=
  match k with
  | O => closest
  | S k =>
      let d2 := distance (get4byte aData (8 + i * 4)) nearby in
      if d2 <? dist then closest_dist k aData nearby (i + 1) i d2 else closest_dist k aData nearby (i + 1) closest dist
  end.

Definition closest_leaf (aData : list Z) (k nearby eMode : Z) : Z :=
  if 0 <? nearby then
    if eMode =? BTALLOC_LE then closest_le (Z.to_nat k) aData nearby 0
    else closest_dist (Z.to_nat (k - 1)) aData nearby 1 0 (distance (get4byte aData 8) nearby)
  else 0.

(** A turn of the loop ends with a jump to end_allocate_page (the result code and the allocated page), or the search goes on. *)
Inductive turn := Done (rc pgno : Z) (pTrunk pPrevTrunk : option Z) | Next.

(** The trunk page itself, which has no leaves, is allocated without a search. *)
Definition take_first (iTrunk : Z) : prog (Db W) turn :=
  rc ← pagerWrite iTrunk;
  if negb (rc =? SQLITE_OK) then mret (Done rc 0 (Some iTrunk) None)
  else
    t ← load iTrunk;
    p1 ← load 1;
    store 1 (splice p1 32 (slice t 0 4)) ;;
    mret (Done SQLITE_OK iTrunk None None).

(** The trunk page [iTrunk], which was searched for, is allocated; its first leaf becomes a trunk page. *)
Definition take_trunk (iTrunk k mxPage : Z) (pPrevTrunk : option Z) : prog (Db W) turn :=
  let out rc : prog (Db W) turn := mret (Done rc 0 (Some iTrunk) pPrevTrunk) in
  rc ← pagerWrite iTrunk;
  if negb (rc =? SQLITE_OK) then out rc
  else
    t ← load iTrunk;
    if k =? 0 then
      match pPrevTrunk with
      | None => p1 ← load 1; store 1 (splice p1 32 (slice t 0 4)) ;; mret (Done SQLITE_OK iTrunk None None)
      | Some pv =>
          rc ← pagerWrite pv;
          if negb (rc =? SQLITE_OK) then out rc
          else d ← load pv; store pv (splice d 0 (slice t 0 4)) ;; releasePage pv ;; mret (Done SQLITE_OK iTrunk None None)
      end
    else
      let iNewTrunk := get4byte t 8 in
      if mxPage <? iNewTrunk then out SQLITE_CORRUPT
      else
        rc ← btreeGetPage iNewTrunk 0;
        if negb (rc =? SQLITE_OK) then out rc
        else
          rc ← pagerWrite iNewTrunk;
          if negb (rc =? SQLITE_OK) then releasePage iNewTrunk ;; out rc
          else
            d ← load iNewTrunk;
            let d := splice d 0 (slice t 0 4) in
            let d := put4byte d 4 (k - 1) in
            let d := splice d 8 (slice t 12 ((k - 1) * 4)) in
            store iNewTrunk d ;;
            releasePage iNewTrunk ;;
            match pPrevTrunk with
            | None => p1 ← load 1; store 1 (put4byte p1 32 iNewTrunk) ;; mret (Done SQLITE_OK iTrunk None None)
            | Some pv =>
                rc ← pagerWrite pv;
                if negb (rc =? SQLITE_OK) then out rc
                else d ← load pv; store pv (put4byte d 0 iNewTrunk) ;; releasePage pv ;; mret (Done SQLITE_OK iTrunk None None)
            end.

(** Leaf [iPage] at index [closest] of the trunk page is allocated. *)
Definition take_leaf (iTrunk k closest iPage : Z) (pPrevTrunk : option Z) : prog (Db W) turn :=
  rc ← pagerWrite iTrunk;
  if negb (rc =? SQLITE_OK) then mret (Done rc 0 (Some iTrunk) pPrevTrunk)
  else
    t ← load iTrunk;
    let t := if closest <? k - 1 then splice t (8 + closest * 4) (slice t (4 + k * 4) 4) else t in
    store iTrunk (put4byte t 4 (k - 1)) ;;
    hc ← btreeGetHasContent iPage;
    rc ← btreeGetPage iPage (if (hc : bool) then 0 else PAGER_GET_NOCONTENT);
    rc ← (if rc =? SQLITE_OK then
            rc ← pagerWrite iPage;
            if negb (rc =? SQLITE_OK) then releasePage iPage ;; mret rc else mret rc
          else mret rc);
    releaseOpt pPrevTrunk ;;
    mret (Done rc iPage (Some iTrunk) None).

(** One turn on the trunk page [iTrunk], which was fetched. [Next] has released the page before it. *)
Definition alloc_turn (mxPage nearby eMode : Z) (searchList : bool) (iTrunk : Z) (pPrevTrunk : option Z) : prog (Db W) turn :=
  t ← load iTrunk;
  let k := get4byte t 4 in
  if (k =? 0) && negb searchList then take_first iTrunk
  else if u32 (usableSize pBt / 4 - 2) <? k then mret (Done SQLITE_CORRUPT 0 (Some iTrunk) pPrevTrunk)
  else if searchList && ((nearby =? iTrunk) || ((iTrunk <? nearby) && (eMode =? BTALLOC_LE))) then take_trunk iTrunk k mxPage pPrevTrunk
  else if 0 <? k then
    let closest := closest_leaf t k nearby eMode in
    let iPage := get4byte t (8 + closest * 4) in
    if mxPage <? iPage then mret (Done SQLITE_CORRUPT 0 (Some iTrunk) pPrevTrunk)
    else if negb searchList || ((iPage =? nearby) || ((iPage <? nearby) && (eMode =? BTALLOC_LE))) then take_leaf iTrunk k closest iPage pPrevTrunk
    else releaseOpt pPrevTrunk ;; mret Next
  else releaseOpt pPrevTrunk ;; mret Next.

(** The loop over the trunk pages; [None] for more than [fuel] turns. *)
Fixpoint alloc_loop (fuel : nat) (mxPage nearby eMode : Z) (searchList : bool) (pTrunk : option Z) : prog (Db W) turn :=
  match fuel with
  | O => pfail
  | S fuel =>
      iTrunk ← match pTrunk with Some pv => d ← load pv; mret (get4byte d 0) | None => p1 ← load 1; mret (get4byte p1 32) end;
      rc ← (if mxPage <? iTrunk then mret SQLITE_CORRUPT else btreeGetPage iTrunk 0);
      if negb (rc =? SQLITE_OK) then mret (Done rc 0 None pTrunk)
      else
        r ← alloc_turn mxPage nearby eMode searchList iTrunk pTrunk;
        match r with Done _ _ _ _ => mret r | Next => alloc_loop fuel mxPage nearby eMode searchList (Some iTrunk) end
  end.

(** Whether the list must be searched for [nearby]: the result code and the flag. *)
Definition alloc_search (mxPage nearby eMode : Z) : prog (Db W) (Z * bool) :=
  if eMode =? BTALLOC_EXACT then
    if nearby <=? mxPage then '(rc, eType, _) ← ptrmapGet nearby; mret (rc : Z, eType =? PTRMAP_FREEPAGE) else mret (SQLITE_OK, false)
  else mret (SQLITE_OK, eMode =? BTALLOC_LE).

Definition next_page (n : Z) : Z := let n := u32 (n + 1) in if n =? PENDING_BYTE_PAGE then u32 (n + 1) else n.

(** A new page at the end of the file. The result code and the page. *)
Definition alloc_append : prog (Db W) (Z * Z) :=
  let noContent := if bDoTruncate then 0 else PAGER_GET_NOCONTENT in
  rc ← pagerWrite 1;
  if negb (rc =? SQLITE_OK) then mret (rc, 0)
  else
    pmod (fun s => set_nPage s (next_page (nPage s))) ;;
    s ← pget;
    rc ← (if autoVacuum pBt && PTRMAP_ISPAGE (nPage s) then
            rc ← btreeGetPage (nPage s) noContent;
            rc ← (if rc =? SQLITE_OK then rc ← pagerWrite (nPage s); releasePage (nPage s) ;; mret rc else mret rc);
            (if rc =? SQLITE_OK then pmod (fun s => set_nPage s (next_page (nPage s))) else mret tt) ;; mret rc
          else mret SQLITE_OK);
    if negb (rc =? SQLITE_OK) then mret (rc, 0)
    else
      s ← pget;
      p1 ← load 1;
      store 1 (put4byte p1 28 (nPage s)) ;;
      rc ← btreeGetPage (nPage s) noContent;
      if negb (rc =? SQLITE_OK) then mret (rc, 0)
      else
        rc ← pagerWrite (nPage s);
        (if negb (rc =? SQLITE_OK) then releasePage (nPage s) else mret tt) ;; mret (rc, nPage s).

(** From end_allocate_page on, when nothing is left to release. *)
Definition alloc_end (rc pgno : Z) : prog (Db W) (Z * Z) :=
  if rc =? SQLITE_OK then
    s ← pget;
    if 1 <? refs (pPager s) pgno then releasePage pgno ;; mret (SQLITE_CORRUPT, 0)
    else pmod (fun s => clear_init s pgno) ;; mret (SQLITE_OK, pgno)
  else mret (rc, 0).

(** The result code and the number of the page, to which the caller has a reference. *)
Definition allocateBtreePage (fuel : nat) (nearby eMode : Z) : prog (Db W) (Z * Z) :=
  s ← pget;
  p1 ← load 1;
  let mxPage := nPage s in
  let n := get4byte p1 36 in
  if mxPage <=? n then mret (SQLITE_CORRUPT, 0)
  else if 0 <? n then
    '(rc, searchList) ← alloc_search mxPage nearby eMode;
    if negb (rc =? SQLITE_OK) then mret (rc, 0)
    else
      rc ← pagerWrite 1;
      if negb (rc =? SQLITE_OK) then mret (rc, 0)
      else
        p1 ← load 1;
        store 1 (put4byte p1 36 (n - 1)) ;;
        r ← alloc_loop fuel mxPage nearby eMode searchList None;
        match r with
        | Done rc pgno pTrunk pPrevTrunk => releaseOpt pTrunk ;; releaseOpt pPrevTrunk ;; alloc_end rc pgno
        | Next => pfail
        end
  else
    '(rc, pgno) ← alloc_append;
    alloc_end rc pgno.

(** ** Freeing *)

Definition secure_delete : bool := negb (btsFlags pBt .& BTS_SECURE_DELETE =? 0).

(** The label freepage_out. [pPage] and [pTrunk] tell which references there are. *)
Definition free_out (rc iPage : Z) (pPage : bool) (pTrunk : option Z) : prog (Db W) Z :=
  (if pPage then pmod (fun s => clear_init s iPage) ;; releasePage iPage else mret tt) ;;
  releaseOpt pTrunk ;;
  mret rc.

(** The page becomes the first trunk page. *)
Definition free_trunk (iPage iTrunk : Z) (pPage : bool) (pTrunk : option Z) : prog (Db W) Z :=
  rc ← (if pPage then mret SQLITE_OK else btreeGetPage iPage 0);
  if negb (rc =? SQLITE_OK) then free_out rc iPage false pTrunk
  else
    rc ← pagerWrite iPage;
    if negb (rc =? SQLITE_OK) then free_out rc iPage true pTrunk
    else
      d ← load iPage;
      store iPage (put4byte (put4byte d 0 iTrunk) 4 0) ;;
      p1 ← load 1;
      store 1 (put4byte p1 32 iPage) ;;
      free_out SQLITE_OK iPage true pTrunk.

(** The page becomes a leaf of the trunk page [iTrunk], which has [nLeaf] leaves. *)
Definition free_leaf (iPage iTrunk nLeaf : Z) (pPage : bool) : prog (Db W) Z :=
  rc ← pagerWrite iTrunk;
  rc ← (if rc =? SQLITE_OK then
          t ← load iTrunk;
          store iTrunk (put4byte (put4byte t 4 (nLeaf + 1)) (8 + nLeaf * 4) iPage) ;;
          (if pPage && negb secure_delete then pmod (fun s => set_pager s (dont_write iPage (pPager s))) else mret tt) ;;
          btreeSetHasContent iPage
        else mret rc);
  free_out rc iPage pPage (Some iTrunk).

(** The free-list itself, from [if( nFree!=0 )] on. *)
Definition free_link (iPage nFree : Z) (pPage : bool) : prog (Db W) Z :=
  if nFree =? 0 then free_trunk iPage 0 pPage None
  else
    p1 ← load 1;
    let iTrunk := get4byte p1 32 in
    rc ← btreeGetPage iTrunk 0;
    if negb (rc =? SQLITE_OK) then free_out rc iPage pPage None
    else
      t ← load iTrunk;
      let nLeaf := get4byte t 4 in
      if usableSize pBt / 4 - 2 <? nLeaf then free_out SQLITE_CORRUPT iPage pPage (Some iTrunk)
      else if nLeaf <? usableSize pBt / 4 - 8 then free_leaf iPage iTrunk nLeaf pPage
      else free_trunk iPage iTrunk pPage (Some iTrunk).

(** [pMemPage] tells whether the caller passes a reference, which it keeps. *)
Definition freePage2 (pMemPage : bool) (iPage : Z) : prog (Db W) Z :=
  pPage ← (if pMemPage then pagerRef iPage ;; mret true else btreePageLookup iPage);
  rc ← pagerWrite 1;
  if negb (rc =? SQLITE_OK) then free_out rc iPage pPage None
  else
    p1 ← load 1;
    let nFree := get4byte p1 36 in
    store 1 (put4byte p1 36 (nFree + 1)) ;;
    '(rc, pPage) ← (if secure_delete then
            rc ← (if pPage then mret SQLITE_OK else btreeGetPage iPage 0);
            if negb (rc =? SQLITE_OK) then mret (rc, false)
            else
              rc ← pagerWrite iPage;
              (if rc =? SQLITE_OK then store iPage (replicate (Z.to_nat (pageSize pBt)) 0) else mret tt) ;; mret (rc, true)
          else mret (SQLITE_OK, pPage));
    if negb (rc =? SQLITE_OK) then free_out rc iPage pPage None
    else
      rc ← (if autoVacuum pBt then ptrmapPut iPage PTRMAP_FREEPAGE 0 else mret SQLITE_OK);
      if negb (rc =? SQLITE_OK) then free_out rc iPage pPage None
      else free_link iPage nFree pPage.

(** ** Overflow pages *)

(** [while( PTRMAP_ISPAGE(pBt, iGuess) || iGuess==PENDING_BYTE_PAGE(pBt) ) iGuess++;] *)
Fixpoint skip_special (fuel : nat) (iGuess : Z) : option Z :=
  match fuel with
  | O => None
  | S fuel => if PTRMAP_ISPAGE iGuess || (iGuess =? PENDING_BYTE_PAGE) then skip_special fuel (u32 (iGuess + 1)) else Some iGuess
  end.
(** A special page has at most one special neighbour. *)
Definition skip_fuel : nat := 3.
Definition skipped (iGuess : Z) : prog (Db W) Z := fun s => match skip_special skip_fuel iGuess with Some g => Some (g, s) | None => None end.

(** The search in the pointer map: the result code, and the next page when the guess is right. *)
Definition guess_next (ovfl : Z) : prog (Db W) (Z * option Z) :=
  if autoVacuum pBt then
    iGuess ← skipped (u32 (ovfl + 1));
    s ← pget;
    if iGuess <=? nPage s then
      '(rc, eType, pgno) ← ptrmapGet iGuess;
      mret (rc : Z, if (rc =? SQLITE_OK) && (eType =? PTRMAP_OVERFLOW2) && (pgno =? ovfl) then Some iGuess else None)
    else mret (SQLITE_OK, None)
  else mret (SQLITE_OK, None).

(** The result code, the next page, and whether there is a reference to page [ovfl], which there can be when [ppPage] is set. *)
Definition getOverflowPage (ovfl : Z) (ppPage : bool) : prog (Db W) (Z * Z * bool) :=
  '(rc, g) ← guess_next ovfl;
  match g with
  | Some next => mret (SQLITE_OK, next, false)
  | None =>
      if negb (rc =? SQLITE_OK) then mret (rc, 0, false)
      else
        rc ← btreeGetPage ovfl (if ppPage then 0 else PAGER_GET_READONLY);
        if negb (rc =? SQLITE_OK) then mret (rc, 0, false)
        else
          d ← load ovfl;
          (if ppPage then mret tt else releasePage ovfl) ;;
          mret (SQLITE_OK, get4byte d 0, ppPage)
  end.

(** The loop of clearCell over the overflow pages, of which [nOvfl] are left. *)
Fixpoint ovfl_loop (nOvfl : nat) (ovflPgno : Z) : prog (Db W) Z :=
  match nOvfl with
  | O => mret SQLITE_OK
  | S nOvfl =>
      s ← pget;
      if (ovflPgno <? 2) || (nPage s <? ovflPgno) then mret SQLITE_CORRUPT
      else
        '(rc, iNext, pOvfl) ← match nOvfl with O => mret (SQLITE_OK, 0, false) | S _ => getOverflowPage ovflPgno true end;
        if negb (rc =? SQLITE_OK) then mret rc
        else
          pOvfl ← (if (pOvfl : bool) then mret true else btreePageLookup ovflPgno);
          s ← pget;
          rc ← (if (pOvfl : bool) && negb (refs (pPager s) ovflPgno =? 1) then mret SQLITE_CORRUPT else freePage2 pOvfl ovflPgno);
          (if (pOvfl : bool) then releasePage ovflPgno else mret tt) ;;
          if negb (rc =? SQLITE_OK) then mret rc else ovfl_loop nOvfl iNext
  end.

(** The cell is on page [P] at offset [cell]; the content of the page is that of the pager. *)
Definition clearCell (P : MemPage) (cell : Z) : prog (Db W) Z :=
  d ← load (pgno P);
  let pCell := cell_at d cell in
  let info := btreeParseCellPtr pBt P pCell in
  if iOverflow info =? 0 then mret SQLITE_OK
  else if pageSize pBt - 1 <? cell + iOverflow info + 3 then mret SQLITE_CORRUPT
  else
    let ovflPgno := get4byte pCell (iOverflow info) in
    let ovflPageSize := usableSize pBt - 4 in
    let nOvfl := i32 (u32 (nPayload info - nLocal info + ovflPageSize - 1) / ovflPageSize) in
    ovfl_loop (Z.to_nat nOvfl) ovflPgno.

(** Where the next bytes of the payload, or the number of the next page, go: to an offset in the cell or on a page. *)
Inductive place := InCell (at_ : Z) | OnPage (pgno at_ : Z).
Definition put_at (pl : place) (pCell bs : list Z) : prog (Db W) (list Z) :=
  match pl with
  | InCell i => mret (splice pCell i bs)
  | OnPage p i => d ← load p; store p (splice d i bs) ;; mret pCell
  end.
Definition advance (pl : place) (n : Z) : place := match pl with InCell i => InCell (i + n) | OnPage p i => OnPage p (i + n) end.

(** A new overflow page behind [pgnoOvfl]: the result code and the page. *)
Definition new_overflow (fuel : nat) (pgnoOvfl : Z) : prog (Db W) (Z * Z) :=
  nearby ← (if autoVacuum pBt then skipped (u32 (pgnoOvfl + 1)) else mret pgnoOvfl);
  '(rc, pgno) ← allocateBtreePage fuel nearby BTALLOC_ANY;
  rc ← (if autoVacuum pBt && (rc =? SQLITE_OK) then
          let eType := if pgnoOvfl =? 0 then PTRMAP_OVERFLOW1 else PTRMAP_OVERFLOW2 in
          rc ← ptrmapPut pgno eType pgnoOvfl;
          (if negb (rc =? SQLITE_OK) then releasePage pgno else mret tt) ;; mret rc
        else mret rc);
  mret (rc, pgno).

(** The variables of fillInCell that change with the page: spaceLeft, pgnoOvfl, pToRelease, pPrior, pPayload and the cell. *)
Record Fill := { spaceLeft : Z; pgnoOvfl : Z; pToRelease : option Z; pPrior : place; pPayload : place; pCell : list Z }.

(** The start of a turn: when there is no space left, an overflow page is allocated and linked. *)
Definition fill_space (fuel : nat) (f : Fill) : prog (Db W) (Z * Fill) :=
  if spaceLeft f =? 0 then
    '(rc, pgno) ← new_overflow fuel (pgnoOvfl f);
    if negb (rc =? SQLITE_OK) then releaseOpt (pToRelease f) ;; mret (rc, f)
    else
      c ← put_at (pPrior f) (pCell f) (sqlite3Put4byte [0; 0; 0; 0] pgno);
      releaseOpt (pToRelease f) ;;
      d ← load pgno;
      store pgno (put4byte d 0 0) ;;
      mret (SQLITE_OK, {| spaceLeft := usableSize pBt - 4; pgnoOvfl := pgno; pToRelease := Some pgno; pPrior := OnPage pgno 0; pPayload := OnPage pgno 4; pCell := c |})
  else mret (SQLITE_OK, f).

(** The number of bytes that a turn stores, and the bytes. *)
Definition fill_n (nPayload : Z) (pSrc : list Z) (spaceLeft : Z) : Z :=
  let n := if spaceLeft <? nPayload then spaceLeft else nPayload in
  let nSrc := Z.of_nat (length pSrc) in
  if (0 <? nSrc) && (nSrc <? n) then nSrc else n.
Definition fill_bytes (pSrc : list Z) (n : Z) : list Z := if 0 <? Z.of_nat (length pSrc) then slice pSrc 0 n else replicate (Z.to_nat n) 0.

(** The loop, with the rest of the source (zeros follow it) and at most [turns] turns. *)
Fixpoint fill_loop (fuel turns : nat) (nPayload : Z) (pSrc : list Z) (f : Fill) : prog (Db W) (Z * list Z) :=
  match turns with
  | O => pfail
  | S turns =>
      if nPayload <=? 0 then releaseOpt (pToRelease f) ;; mret (SQLITE_OK, pCell f)
      else
        '(rc, f) ← fill_space fuel f;
        if negb (rc =? SQLITE_OK) then mret (rc, pCell f)
        else
          let n := fill_n nPayload pSrc (spaceLeft f) in
          c ← put_at (pPayload f) (pCell f) (fill_bytes pSrc n);
          fill_loop fuel turns (nPayload - n) (drop (Z.to_nat n) pSrc)
            {| spaceLeft := spaceLeft f - n; pgnoOvfl := pgnoOvfl f; pToRelease := pToRelease f; pPrior := pPrior f; pPayload := advance (pPayload f) n; pCell := c |}
  end.

Definition put_varint (put : list Z -> Z -> Z * list Z) (c : list Z) (i v : Z) : Z * list Z :=
  let '(n, bs) := put (drop (Z.to_nat i) c) v in (n, take (Z.to_nat i) c ++ bs).

(** The header of the cell: its length and the cell. [n] is the size of the data. *)
Definition fill_header (P : MemPage) (c : list Z) (nKey n : Z) : Z * list Z :=
  let nHeader := if leaf P =? 0 then 4 else 0 in
  let '(nHeader, c) := if hasData P then let '(k, c) := put_varint putVarint32 c nHeader (u32 n) in (nHeader + k, c) else (nHeader, c) in
  let '(k, c) := put_varint sqlite3PutVarint c nHeader (u64 nKey) in
  (nHeader + k, c).

(** The result code, the cell and its size. The key of a table is the rowid [nKey]; the key of an index is [pKey]. *)
Definition fillInCell (fuel : nat) (P : MemPage) (c pKey : list Z) (nKey : Z) (pData : list Z) (nZero : Z) : prog (Db W) (Z * list Z * Z) :=
  let nData := if hasData P then Z.of_nat (length pData) else 0 in
  let nZero := if hasData P then nZero else 0 in
  let '(nHeader, c) := fill_header P c nKey (nData + nZero) in
  let info := btreeParseCellPtr pBt P c in
  if negb (intKey P) && (0x7fffffff <? nKey) then mret (SQLITE_CORRUPT, c, 0)
  else
    let nPayload := if intKey P then nData + nZero else nData + nZero + nKey in
    let pSrc := if intKey P then if hasData P then pData else [] else pKey in
    '(rc, c) ← fill_loop fuel (S (Z.to_nat nPayload)) nPayload pSrc
      {| spaceLeft := nLocal info; pgnoOvfl := 0; pToRelease := None; pPrior := InCell (iOverflow info); pPayload := InCell nHeader; pCell := c |};
    mret (rc, c, nSize info).

(** A cursor on a cell: the page, the offset of the cell, and the cache of overflow pages. *)
Record BtCursor := { apPage : MemPage; cell : Z; isIncrblobHandle : bool; aOverflow : option (list Z) }.

(** The result code and the buffer, from or to which [nByte] bytes at [bufAt] are copied. *)
Definition copyPayload (pgno at_ : Z) (pBuf : list Z) (bufAt nByte : Z) (eOp : bool) : prog (Db W) (Z * list Z) :=
  if eOp then
    rc ← pagerWrite pgno;
    if negb (rc =? SQLITE_OK) then mret (rc, pBuf)
    else d ← load pgno; store pgno (splice d at_ (slice pBuf bufAt nByte)) ;; mret (SQLITE_OK, pBuf)
  else d ← load pgno; mret (SQLITE_OK, splice pBuf bufAt (slice d at_ nByte)).

(** The loop over the overflow pages. The result code, the bytes still to copy, the buffer and the cache. *)
Fixpoint access_loop (turns : nat) (iIdx nextPage offset amt : Z) (pBuf : list Z) (bufAt : Z) (eOp : bool) (aOvfl : option (list Z)) : prog (Db W) (Z * Z * list Z * option (list Z)) :=
  match turns with
  | O => pfail
  | S turns =>
      if (amt <=? 0) || (nextPage =? 0) then mret (SQLITE_OK, amt, pBuf, aOvfl)
      else
        let ovflSize := usableSize pBt - 4 in
        let aOvfl := match aOvfl with Some l => Some (wr l iIdx nextPage) | None => None end in
        if ovflSize <=? offset then
          '(rc, next) ←
            (let cached := match aOvfl with Some l => rd l (iIdx + 1) | None => 0 end in
             if negb (cached =? 0) then mret (SQLITE_OK, cached)
             else '(rc, next, _) ← getOverflowPage nextPage false; mret (rc : Z, next : Z));
          if negb (rc =? SQLITE_OK) then mret (rc, amt, pBuf, aOvfl)
          else access_loop turns (iIdx + 1) next (offset - ovflSize) amt pBuf bufAt eOp aOvfl
        else
          let a := if ovflSize <? amt + offset then ovflSize - offset else amt in
          rc ← btreeGetPage nextPage (if eOp then 0 else PAGER_GET_READONLY);
          if negb (rc =? SQLITE_OK) then mret (rc, amt - a, pBuf, aOvfl)
          else
            d ← load nextPage;
            '(rc, pBuf) ← copyPayload nextPage (offset + 4) pBuf bufAt a eOp;
            releasePage nextPage ;;
            if negb (rc =? SQLITE_OK) then mret (rc, amt - a, pBuf, aOvfl)
            else access_loop turns (iIdx + 1) (get4byte d 0) 0 (amt - a) pBuf (bufAt + a) eOp aOvfl
  end.

(** The cache of the overflow pages is allocated when it is needed first. *)
Definition access_cache (pCur : BtCursor) (n : Z) : prog (Db W) (Z * option (list Z)) := fun s =>
  match aOverflow pCur with
  | None =>
      if isIncrblobHandle pCur then
        let s' := set_hasContent s (pHasContent s) (S (nAlloc s)) in
        if alloc (nAlloc s) then Some ((SQLITE_OK, Some (replicate (Z.to_nat n) 0)), s') else Some ((SQLITE_NOMEM, None), s')
      else Some ((SQLITE_OK, None), s)
  | c => Some ((SQLITE_OK, c), s)
  end.

(** The part of accessPayload behind the local payload, from the overflow page [nextPage] on. *)
Definition access_overflow (pCur : BtCursor) (info : CellInfo) (nextPage offset amt : Z) (pBuf : list Z) (bufAt : Z) (eOp : bool) : prog (Db W) (Z * list Z * option (list Z)) :=
  let ovflSize := usableSize pBt - 4 in
  '(rc, cache) ← access_cache pCur (u32 (nPayload info - nLocal info + ovflSize - 1) / ovflSize);
  if negb (rc =? SQLITE_OK) then mret (rc, pBuf, cache)
  else
    let '(iIdx, nextPage, offset) :=
      match cache with
      | Some l => if negb (rd l (offset / ovflSize) =? 0) then (offset / ovflSize, rd l (offset / ovflSize), offset mod ovflSize) else (0, nextPage, offset)
      | None => (0, nextPage, offset)
      end in
    '(rc, amt, pBuf, cache) ← access_loop (S (Z.to_nat (offset + amt))) iIdx nextPage offset amt pBuf bufAt eOp cache;
    mret (if (rc =? SQLITE_OK) && (0 <? amt) then SQLITE_CORRUPT else rc, pBuf, cache).

(** The result code, the buffer and the cache of overflow pages. [info] of the cursor is the parsed cell. *)
Definition accessPayload (pCur : BtCursor) (offset amt : Z) (pBuf : list Z) (eOp : bool) : prog (Db W) (Z * list Z * option (list Z)) :=
  let P := apPage pCur in
  d ← load (pgno P);
  let pCell := cell_at d (cell pCur) in
  let info := btreeParseCellPtr pBt P pCell in
  let aPayload := cell pCur + nHeader info in
  let nKey := if intKey P then 0 else i32 (nKey info) in
  if (u32 (nKey + nData info) <? u32 (offset + amt)) || (usableSize pBt <? aPayload + nLocal info) then mret (SQLITE_CORRUPT, pBuf, aOverflow pCur)
  else
    '(rc, pBuf, offset, bufAt, amt) ←
      (if offset <? nLocal info then
         let a := if nLocal info <? amt + offset then nLocal info - offset else amt in
         '(rc, pBuf) ← copyPayload (pgno P) (aPayload + offset) pBuf 0 a eOp;
         mret (rc : Z, pBuf : list Z, 0, a, amt - a)
       else mret (SQLITE_OK, pBuf, offset - nLocal info, 0, amt));
    if (rc =? SQLITE_OK) && (0 <? amt) then d ← load (pgno P); access_overflow pCur info (get4byte d (aPayload + nLocal info)) offset amt pBuf bufAt eOp
    else mret (rc, pBuf, aOverflow pCur).

End pages.
