(* ===== verification/BtRep.v ===== *)
(** How programs over a pager are verified: [prep w h ws r] describes a pager by the contents [h] of the pages that matter, the pages [ws] that are writable, and the reference counts [r].
    Each call of the pager changes this description in one way when it succeeds, and not at all (but for the page whose content is given up) when it fails. *)
From S2P Require Import Prelude Varint IntArith Bitvec Mem Page PageSpace Pager BtPages.
Local Open Scope Z_scope.
Local Open Scope c_scope.

(** * Programs *)

Definition does {S A} (m : prog S A) (s : S) (Q : A -> S -> Prop) : Prop := exists x s', m s = Some (x, s') /\ Q x s'.

Lemma does_ret {S A} (x : A) (s : S) (Q : A -> S -> Prop) : Q x s -> does (mret x) s Q.
Proof. intros HQ. by exists x, s. Qed.
Lemma does_bind {S A B} (m : prog S A) (k : A -> prog S B) (s : S) (Q : B -> S -> Prop) : does m s (fun x s' => does (k x) s' Q) -> does (m ≫= k) s Q.
Proof. intros (x & s' & E & HQ). destruct HQ as (y & s2 & E2 & HQ). exists y, s2. split; [|done]. unfold mbind, prog_bind. by rewrite E. Qed.
Lemma does_mono {S A} (m : prog S A) (s : S) (Q Q' : A -> S -> Prop) : does m s Q -> (forall x s', Q x s' -> Q' x s') -> does m s Q'.
Proof. intros (x & s' & E & HQ) H. exists x, s'. auto. Qed.
Lemma does_get {S} (s : S) (Q : S -> S -> Prop) : Q s s -> does pget s Q.
Proof. intros HQ. by exists s, s. Qed.
Lemma does_mod {S} (f : S -> S) (s : S) (Q : unit -> S -> Prop) : Q tt (f s) -> does (pmod f) s Q.
Proof. intros HQ. by exists tt, (f s). Qed.

(** * Numbers of four bytes *)

Abbreviation enc4 v := (sqlite3Put4byte [0; 0; 0; 0] v).

Lemma length_enc4 v : length (enc4 v) = 4%nat.
Proof. unfold sqlite3Put4byte. by rewrite !length_wr. Qed.
Lemma bytes_enc4 v : bytes (enc4 v).
Proof. unfold sqlite3Put4byte. repeat (apply bytes_wr; [|apply uwrap_range; lia]). repeat constructor; unfold is_u; lia. Qed.

Lemma get4_ext p q i j : 0 <= i -> 0 <= j -> (forall k, 0 <= k < 4 -> rd p (i + k) = rd q (j + k)) -> get4byte p i = get4byte q j.
Proof.
  intros Hi Hj H. unfold get4byte, sqlite3Get4byte. rewrite !rd_drop by lia. by rewrite (H 0), (H 1), (H 2), (H 3) by lia.
Qed.
Lemma get4_range p i : bytes p -> is_u 32 (get4byte p i).
Proof.
  intros Hp. unfold get4byte, sqlite3Get4byte. set (q := drop _ p). assert (bytes q) as Hq by by apply Forall_drop.
  pose proof (rd_byte q 0 Hq). pose proof (rd_byte q 1 Hq). pose proof (rd_byte q 2 Hq). pose proof (rd_byte q 3 Hq).
  rewrite uwrap_small by (unfold is_u in *; rewrite Z.shiftl_mul_pow2 by lia; lia).
  rewrite <- !Z.lor_assoc. rewrite (shl_lor (rd q 2) (rd q 3) 8) by done || lia.
  rewrite (shl_lor (rd q 1) _ 16), (shl_lor (rd q 0) _ 24); unfold is_u in *; lia.
Qed.
Lemma get4_splice_ne p i bs j : 0 <= i -> 0 <= j -> i + Z.of_nat (length bs) <= Z.of_nat (length p) -> j + 4 <= i \/ i + Z.of_nat (length bs) <= j ->
  get4byte (splice p i bs) j = get4byte p j.
Proof. intros. apply get4_ext; [done|done|]. intros k Hk. apply rd_splice_out; lia. Qed.
Lemma get4_splice_in p i bs j : 0 <= i -> i + Z.of_nat (length bs) <= Z.of_nat (length p) -> i <= j -> j + 4 <= i + Z.of_nat (length bs) ->
  get4byte (splice p i bs) j = get4byte bs (j - i).
Proof. intros. apply get4_ext; [lia|lia|]. intros k Hk. rewrite rd_splice_in by lia. f_equal. lia. Qed.
Lemma get4_slice p i n j : 0 <= i -> 0 <= j -> j + 4 <= n -> get4byte (slice p i n) j = get4byte p (i + j).
Proof. intros. apply get4_ext; [lia|lia|]. intros k Hk. rewrite rd_slice by lia. f_equal. lia. Qed.
Lemma get4_enc4 v : is_u 32 v -> get4byte (enc4 v) 0 = v.
Proof. intros. by apply put4byte_roundtrip. Qed.

Lemma length_put4byte p i v : 0 <= i -> i + 4 <= Z.of_nat (length p) -> length (put4byte p i v) = length p.
Proof. intros. apply length_splice; rewrite ?length_enc4; lia. Qed.
Lemma bytes_put4byte p i v : bytes p -> bytes (put4byte p i v).
Proof. intros. apply bytes_splice; [done|apply bytes_enc4]. Qed.
Lemma get4_put4 p i v : 0 <= i -> i + 4 <= Z.of_nat (length p) -> is_u 32 v -> get4byte (put4byte p i v) i = v.
Proof. intros. unfold put4byte. rewrite get4_splice_in by (rewrite ?length_enc4; lia). rewrite Z.sub_diag. by apply get4_enc4. Qed.
Lemma get4_put4_ne p i v j : 0 <= i -> 0 <= j -> i + 4 <= Z.of_nat (length p) -> j + 4 <= i \/ i + 4 <= j -> get4byte (put4byte p i v) j = get4byte p j.
Proof. intros. apply get4_splice_ne; rewrite ?length_enc4; lia. Qed.
Lemma get4_copy p i q j : 0 <= i -> 0 <= j -> i + 4 <= Z.of_nat (length p) -> j + 4 <= Z.of_nat (length q) -> get4byte (splice p i (slice q j 4)) i = get4byte q j.
Proof.
  intros. pose proof (length_slice q j 4). rewrite get4_splice_in by lia. rewrite Z.sub_diag, get4_slice by lia. f_equal. lia.
Qed.

(** * Pagers *)

Lemma in_keep (ws : gset Z) p q : q ∈ ws -> q ∈ {[p]} ∪ (ws ∖ {[p]}).
Proof. intros Hq. destruct (decide (q = p)) as [->|]; [apply elem_of_union_l, elem_of_singleton; done|]. apply elem_of_union_r, elem_of_difference. split; [done|]. by rewrite elem_of_singleton. Qed.
(** Membership in a set of pages to which elements were added. *)
Ltac in_ws := solve [repeat first [assumption | apply elem_of_union_l; apply elem_of_singleton; reflexivity | apply in_keep | apply elem_of_union_r]].

Definition bump (r : Z -> Z) (p n : Z) : Z -> Z := fun q => if q =? p then r q + n else r q.

Section rep.
Context {W : Type} {ops : PagerOps W} {ps : Z} {HP : Pager W ps}.
Implicit Types (w : W) (s : Db W) (h : gmap Z (list Z)) (ws : gset Z) (r : Z -> Z).

Record prep (w : W) (h : gmap Z (list Z)) (ws : gset Z) (r : Z -> Z) : Prop := {
  pr_page p d : h !! p = Some d -> kept w p /\ page w p = d;
  pr_write p : p ∈ ws -> writable w p;
  pr_refs p : refs w p = r p }.

Lemma prep_good w h ws r p d : prep w h ws r -> h !! p = Some d -> bytes d /\ Z.of_nat (length d) = ps.
Proof. intros Hr Hp. destruct (pr_page _ _ _ _ Hr p d Hp) as [_ <-]. split; [apply page_bytes|apply page_length]. Qed.
Lemma prep_weaken w h h' ws ws' r r' : prep w h ws r -> h' ⊆ h -> ws' ⊆ ws -> (forall q, r' q = r q) -> prep w h' ws' r'.
Proof.
  intros Hr Hh Hw Hrr. split.
  - intros p d Hp. apply (pr_page _ _ _ _ Hr). by eapply lookup_weaken.
  - intros p Hp. apply (pr_write _ _ _ _ Hr). set_solver.
  - intros p. by rewrite (pr_refs _ _ _ _ Hr), Hrr.
Qed.
Lemma prep_refs w h ws r r' : prep w h ws r -> (forall q, r' q = r q) -> prep w h ws r'.
Proof. intros Hr Hrr. by apply (prep_weaken w h h ws ws r r'). Qed.

(** A call that keeps all pages. *)
Lemma prep_same w w' h ws r r' : prep w h ws r -> (forall q, same w w' q) -> (forall q, refs w' q = r' q) -> prep w' h ws r'.
Proof.
  intros Hr Hs Hrr. split; [| |done].
  - intros p d Hp. destruct (pr_page _ _ _ _ Hr p d Hp) as [Hk <-]. by apply Hs.
  - intros p Hp. apply (Hs p). by apply (pr_write _ _ _ _ Hr).
Qed.
(** A call that keeps all pages but one. *)
Lemma prep_same_but w w' h ws r r' p : prep w h ws r -> (forall q, q <> p -> same w w' q) -> (forall q, refs w' q = r' q) -> prep w' (delete p h) (ws ∖ {[p]}) r'.
Proof.
  intros Hr Hs Hrr. split; [| |done].
  - intros q d [Hq Hd]%lookup_delete_Some. destruct (pr_page _ _ _ _ Hr q d Hd) as [Hk <-]. by apply Hs.
  - intros q [Hq Hn]%elem_of_difference. apply (Hs q); [set_solver|]. by apply (pr_write _ _ _ _ Hr).
Qed.

(** No call fails. *)
Definition reliable : Prop := forall p (w : W), (forall f, 0 < p < 2 ^ 31 -> (acquire p f w).1 = 0) /\ (pager_write p w).1 = 0.

Lemma does_fetch p f s h ws r (Q : Z -> Db W -> Prop) : prep (pPager s) h ws r -> f .& PAGER_GET_NOCONTENT = 0 ->
  (forall rc w, rc <> 0 -> (reliable -> ~ 0 < p < 2 ^ 31) -> prep w h ws r -> Q rc (set_pager s w)) ->
  (forall w, 0 < p < 2 ^ 31 -> prep w h ws (bump r p 1) -> Q 0 (set_pager s w)) -> does (btreeGetPage p f) s Q.
Proof.
  intros Hr Hf Hfail Hok. unfold does, btreeGetPage. destruct (acquire p f (pPager s)) as [rc w] eqn:E. exists rc, (set_pager s w). split; [done|].
  assert (forall q, same (pPager s) w q) as Hs. { intros q. pose proof (acquire_same p f (pPager s) q) as H. rewrite E in H. apply H. by right. }
  destruct (decide (rc = 0)) as [->|Hrc].
  - pose proof (acquire_ok p f (pPager s)) as H. rewrite E in H. destruct (H eq_refl) as [Hp0 H']. cbn [snd] in H'. apply Hok; [done|]. apply (prep_same _ _ _ _ _ _ Hr Hs).
    intros q. rewrite H', (pr_refs _ _ _ _ Hr). done.
  - pose proof (acquire_fail p f (pPager s)) as H. rewrite E in H. apply Hfail; [done| |].
    { intros Hrel Hp0. destruct (Hrel p (pPager s)) as [Ha _]. specialize (Ha f Hp0). by rewrite E in Ha. }
    apply (prep_same _ _ _ _ _ _ Hr Hs). intros q. cbn [fst snd] in H. rewrite (H Hrc) by tauto. apply Hr.
Qed.

(** Fetching a page whose content does not matter. *)
Lemma does_fetch_any p f s h ws r (Q : Z -> Db W -> Prop) : prep (pPager s) h ws r -> r p = 0 ->
  (forall rc w, rc <> 0 -> (reliable -> ~ 0 < p < 2 ^ 31) -> prep w (delete p h) (ws ∖ {[p]}) r -> Q rc (set_pager s w)) ->
  (forall w, 0 < p < 2 ^ 31 -> prep w (delete p h) (ws ∖ {[p]}) (bump r p 1) -> Q 0 (set_pager s w)) -> does (btreeGetPage p f) s Q.
Proof.
  intros Hr Hp Hfail Hok. unfold does, btreeGetPage. destruct (acquire p f (pPager s)) as [rc w] eqn:E. exists rc, (set_pager s w). split; [done|].
  assert (forall q, q <> p -> same (pPager s) w q) as Hs. { intros q Hq. pose proof (acquire_same p f (pPager s) q) as H. rewrite E in H. apply H. by left. }
  destruct (decide (rc = 0)) as [->|Hrc].
  - pose proof (acquire_ok p f (pPager s)) as H. rewrite E in H. destruct (H eq_refl) as [Hp0 H']. cbn [snd] in H'. apply Hok; [done|]. apply (prep_same_but _ _ _ _ _ _ p Hr Hs).
    intros q. rewrite H', (pr_refs _ _ _ _ Hr). done.
  - pose proof (acquire_fail p f (pPager s)) as H. rewrite E in H. apply Hfail; [done| |].
    { intros Hrel Hp0. destruct (Hrel p (pPager s)) as [Ha _]. specialize (Ha f Hp0). by rewrite E in Ha. }
    apply (prep_same_but _ _ _ _ _ _ p Hr Hs). intros q. cbn [fst snd] in H. rewrite (H Hrc) by (right; by rewrite (pr_refs _ _ _ _ Hr)). apply Hr.
Qed.

Lemma does_lookup p s h ws r (Q : bool -> Db W -> Prop) : prep (pPager s) h ws r ->
  (forall b w, prep w h ws (if b : bool then bump r p 1 else r) -> Q b (set_pager s w)) -> does (btreePageLookup p) s Q.
Proof.
  intros Hr HQ. unfold does, btreePageLookup. destruct (lookup_page p (pPager s)) as [b w] eqn:E. exists b, (set_pager s w). split; [done|]. apply HQ.
  apply (prep_same _ _ _ _ _ _ Hr).
  - intros q. pose proof (lookup_same p (pPager s) q) as H. by rewrite E in H.
  - intros q. pose proof (lookup_refs p (pPager s) q) as H. rewrite E in H. cbn [fst snd] in H. rewrite H, (pr_refs _ _ _ _ Hr). destruct b; [|done]. unfold bump. by destruct (q =? p).
Qed.

Lemma does_ref p s h ws r (Q : unit -> Db W -> Prop) : prep (pPager s) h ws r -> (forall w, prep w h ws (bump r p 1) -> Q tt (set_pager s w)) -> does (pagerRef p) s Q.
Proof.
  intros Hr HQ. apply does_mod, HQ. apply (prep_same _ _ _ _ _ _ Hr); [intros q; apply add_ref_same|]. intros q. rewrite add_ref_refs, (pr_refs _ _ _ _ Hr). done.
Qed.

Lemma does_release p s h ws r (Q : unit -> Db W -> Prop) : prep (pPager s) h ws r -> 0 < r p -> (forall w, prep w h ws (bump r p (-1)) -> Q tt (set_pager s w)) -> does (releasePage p) s Q.
Proof.
  intros Hr Hp HQ. rewrite <- (pr_refs _ _ _ _ Hr) in Hp. apply does_mod, HQ. apply (prep_same _ _ _ _ _ _ Hr); [intros q; by apply unref_same|].
  intros q. rewrite unref_refs by done. unfold bump. by rewrite (pr_refs _ _ _ _ Hr).
Qed.

Lemma does_write p s h ws r (Q : Z -> Db W -> Prop) : prep (pPager s) h ws r -> 0 < r p ->
  (forall rc w, rc <> 0 -> (reliable -> False) -> prep w h ws r -> Q rc (set_pager s w)) ->
  (forall w d, prep w (<[p := d]> h) ({[p]} ∪ ws) r -> (forall d', h !! p = Some d' -> d = d') -> Q 0 (set_pager s w)) -> does (pagerWrite p) s Q.
Proof.
  intros Hr Hp Hfail Hok. rewrite <- (pr_refs _ _ _ _ Hr) in Hp. unfold does, pagerWrite. destruct (pager_write p (pPager s)) as [rc w] eqn:E. exists rc, (set_pager s w). split; [done|].
  assert (prep w h ws r) as Hr'.
  { apply (prep_same _ _ _ _ _ _ Hr); intros q; [pose proof (write_same p (pPager s) q Hp) as H|pose proof (write_refs p (pPager s) q Hp) as H]; rewrite E in H; [done|]. cbn [snd] in H. rewrite H. apply Hr. }
  destruct (decide (rc = 0)) as [->|Hrc]; [|apply Hfail; [done| |done]; intros Hrel; destruct (Hrel p (pPager s)) as [_ Ha]; by rewrite E in Ha]. pose proof (write_ok p (pPager s) Hp) as H. rewrite E in H. destruct (H eq_refl) as [Hw Hk]. apply (Hok w (page w p)).
  - split; [| |apply Hr'].
    + intros q d. destruct (decide (q = p)) as [->|]; [rewrite lookup_insert_eq; by intros [= <-]|]. rewrite lookup_insert_ne by done. apply Hr'.
    + intros q [->%elem_of_singleton|Hq]%elem_of_union; [done|by apply Hr'].
  - intros d' Hd'. by destruct (pr_page _ _ _ _ Hr' _ _ Hd').
Qed.

Lemma does_load p d s h ws r (Q : list Z -> Db W -> Prop) : prep (pPager s) h ws r -> h !! p = Some d -> Q d s -> does (load p) s Q.
Proof. intros Hr Hd HQ. exists d, s. split; [|done]. unfold load. by destruct (pr_page _ _ _ _ Hr _ _ Hd) as [_ ->]. Qed.

Lemma does_store p d0 d s h ws r (Q : unit -> Db W -> Prop) : prep (pPager s) h ws r -> 0 < r p -> p ∈ ws -> h !! p = Some d0 -> bytes d -> length d = length d0 ->
  (forall w, prep w (<[p := d]> h) ws r -> Q tt (set_pager s w)) -> does (store p d) s Q.
Proof.
  intros Hr Hp Hw H0 Hb Hl HQ. rewrite <- (pr_refs _ _ _ _ Hr) in Hp. apply does_mod, HQ. destruct (prep_good _ _ _ _ _ _ Hr H0) as [_ Hl0]. pose proof (pr_write _ _ _ _ Hr p Hw) as Hwp. split.
  - intros q d'. destruct (decide (q = p)) as [->|Hq].
    + rewrite lookup_insert_eq. intros [= <-]. split; [apply assign_self; by apply (pr_page _ _ _ _ Hr p d0)|apply assign_page; [done|done|done|lia]].
    + rewrite lookup_insert_ne by done. intros H1. destruct (pr_page _ _ _ _ Hr _ _ H1) as [Hk <-]. by apply assign_same.
  - intros q Hq. destruct (decide (q = p)) as [->|Hn]; [by apply assign_self|]. apply (assign_same p d _ q Hn). by apply Hr.
  - intros q. rewrite assign_refs. apply Hr.
Qed.

Lemma does_dont_write p s h ws r (Q : unit -> Db W -> Prop) : prep (pPager s) h ws r -> 0 < r p ->
  (forall w, prep w (delete p h) (ws ∖ {[p]}) r -> Q tt (set_pager s w)) -> does (pmod (fun s => set_pager s (dont_write p (pPager s)))) s Q.
Proof.
  intros Hr Hp HQ. rewrite <- (pr_refs _ _ _ _ Hr) in Hp. apply does_mod, HQ. apply (prep_same_but _ _ _ _ _ _ p Hr); [intros q; by apply dont_write_same|].
  intros q. rewrite dont_write_refs by done. apply Hr.
Qed.

End rep.
