(* ===== verification/BtPtrmap.v ===== *)
(** The pointer map: where the entries are, and that ptrmapPut and ptrmapGet write and read one entry. *)
From S2P Require Import Prelude Varint IntArith Bitvec Mem Page PageSpace Pager BtPages BtRep.
Local Open Scope Z_scope.
Local Open Scope c_scope.

Section ptrmap.
Context (pBt : BtShared) (Hsz : sizes_ok pBt).
Abbreviation us := (usableSize pBt).
Abbreviation pending := (PENDING_BYTE_PAGE pBt).
Abbreviation pageno := (ptrmapPageno pBt).

(** A page that b-trees, overflow chains and the list of free pages can use. *)
Definition regular (p : Z) : Prop := p <> pending /\ (autoVacuum pBt = true -> PTRMAP_ISPAGE pBt p = false).
(** A page with an entry in the pointer map. *)
Definition mapped (p : Z) : Prop := 2 <= p < 2 ^ 31 /\ p <> pending /\ PTRMAP_ISPAGE pBt p = false.

Lemma pending_range : 2 < pending < 2 ^ 31.
Proof.
  unfold PENDING_BYTE_PAGE, PENDING_BYTE. destruct Hsz as [Hp _]. assert (0x40000000 / 65536 <= 0x40000000 / pageSize pBt <= 0x40000000 / 512) as H. { split; [apply Z.div_le_compat_l; lia|apply Z.div_le_compat_l; lia]. }
  change (0x40000000 / 65536) with 16384 in H. change (0x40000000 / 512) with 2097152 in H. rewrite uwrap_small; unfold is_u; lia.
Qed.

(** The first page of the group of [p]. *)
Definition group (p : Z) : Z := (p - 2) / (us / 5 + 1) * (us / 5 + 1) + 2.
Lemma group_spec p : 2 <= p -> 97 <= us / 5 + 1 /\ 5 * (us / 5) <= us /\ 2 <= group p <= p /\ p < group p + (us / 5 + 1) /\ (forall q, group p <= q < group p + (us / 5 + 1) -> group q = group p).
Proof.
  intros Hp. destruct Hsz as [_ Hu]. assert (480 / 5 <= us / 5) as H5 by (apply Z.div_le_mono; lia). change (480 / 5) with 96 in H5. pose proof (Z.mul_div_le us 5 ltac:(lia)). unfold group. set (M := us / 5 + 1) in *.
  pose proof (Z.div_mod (p - 2) M ltac:(lia)) as Hd. pose proof (Z.mod_pos_bound (p - 2) M ltac:(lia)). pose proof (Z.div_pos (p - 2) M ltac:(lia) ltac:(lia)). split; [lia|]. split; [lia|]. split; [nia|]. split; [nia|].
  intros q Hq. assert ((q - 2) / M = (p - 2) / M) as ->; [|done]. symmetry. apply Z.div_unique_pos with (q - 2 - (p - 2) / M * M); nia.
Qed.
Lemma pageno_eq p : 2 <= p < 2 ^ 32 - 1 -> pageno p = if group p =? pending then group p + 1 else group p.
Proof.
  intros Hp. destruct (group_spec p ltac:(lia)) as (_ & _ & Hg & _). unfold ptrmapPageno. rewrite (proj2 (Z.ltb_ge p 2)) by lia. fold (group p). rewrite (uwrap_small 32 (group p)) by (unfold is_u; lia).
  rewrite uwrap_small by (unfold is_u; lia). done.
Qed.
Lemma ispage_iff p : 2 <= p < 2 ^ 32 - 1 -> PTRMAP_ISPAGE pBt p = true <-> p = if group p =? pending then group p + 1 else group p.
Proof. intros Hp. unfold PTRMAP_ISPAGE. rewrite Z.eqb_eq, pageno_eq by done. destruct (group p =? pending); lia. Qed.

Lemma mapped_spec p : mapped p -> 2 <= pageno p < p /\ PTRMAP_ISPAGE pBt (pageno p) = true /\ PTRMAP_PTROFFSET (pageno p) p = 5 * (p - pageno p - 1) /\ 0 <= 5 * (p - pageno p - 1) <= us - 5.
Proof.
  intros (Hp & Hne & Hn). destruct (group_spec p ltac:(lia)) as (HM & H5 & Hg & Hlt & Hq). pose proof pending_range. destruct Hsz as [Hps Hu].
  assert (2 <= pageno p < p) as Hpn. { rewrite pageno_eq by lia. apply not_true_iff_false in Hn. rewrite ispage_iff in Hn by lia. destruct (Z.eqb_spec (group p) pending); lia. }
  assert (0 <= 5 * (p - pageno p - 1) <= us - 5) as Ho. { split; [lia|]. assert (group p <= pageno p) by (rewrite pageno_eq by lia; destruct (group p =? pending); lia). lia. }
  split; [done|]. split; [|split; [|done]].
  - rewrite ispage_iff by lia. rewrite (Hq (pageno p)).
    + apply pageno_eq. lia.
    + rewrite pageno_eq by lia. destruct (group p =? pending); lia.
  - unfold PTRMAP_PTROFFSET. rewrite uwrap_small by (unfold is_u; lia). apply swrap_small; [lia|]. unfold is_i. change (2 ^ (32 - 1)) with (2 ^ 31). lia.
Qed.

(** Pages behind a special page. *)
Lemma ispage_next p : 2 <= p < 2 ^ 32 - 8 -> PTRMAP_ISPAGE pBt p = true -> forall q, p < q <= p + 3 -> PTRMAP_ISPAGE pBt q = false.
Proof.
  intros Hp H q Hq. apply not_true_iff_false. rewrite ispage_iff in * by lia. destruct (group_spec p ltac:(lia)) as (HM & _ & Hg & Hlt & Hgq). assert (group q = group p) as -> by (apply Hgq; destruct (group p =? pending); lia). destruct (group p =? pending); lia.
Qed.
Lemma ispage_pending : PTRMAP_ISPAGE pBt pending = false.
Proof.
  pose proof pending_range. apply not_true_iff_false. rewrite ispage_iff by lia. destruct (Z.eqb_spec (group pending) pending) as [E|E]; lia.
Qed.

(** The entry of a page. *)
Definition entry (h : gmap Z (list Z)) (p : Z) : option (Z * Z) :=
  d ← h !! pageno p; Some (rd d (5 * (p - pageno p - 1)), get4byte d (5 * (p - pageno p - 1) + 1)).

Lemma ispage_regular p : 2 <= p < 2 ^ 31 -> regular p -> autoVacuum pBt = true -> mapped p.
Proof. intros Hp [Hn Ha] Hav. split; [done|]. split; [done|]. by apply Ha. Qed.

Context {W : Type} {ops : PagerOps W} {HP : Pager W (pageSize pBt)}.

(** The stores of ptrmapPut. *)
Definition put_entry (d : list Z) (p ty parent : Z) : list Z := put4byte (wr d (5 * (p - pageno p - 1)) ty) (5 * (p - pageno p - 1) + 1) parent.

Lemma put_entry_ok h d p ty parent : h !! pageno p = Some d -> bytes d -> us <= Z.of_nat (length d) -> mapped p -> is_u 8 ty -> is_u 32 parent ->
  let d' := put_entry d p ty parent in let h' := <[pageno p := d']> h in
  bytes d' /\ length d' = length d /\ entry h' p = Some (ty, parent) /\ forall q, mapped q -> q <> p -> entry h' q = entry h q.
Proof.
  intros Hd Hb Hl Hp Hty Hpa d' h'. destruct (mapped_spec p Hp) as (Hr & _ & _ & Ho). unfold d', put_entry. set (o := 5 * (p - pageno p - 1)) in *.
  assert (length (wr d o ty) = length d) as L1 by apply length_wr. split; [apply bytes_put4byte; by apply bytes_wr|]. split; [rewrite length_put4byte; lia|]. unfold entry, h'. split.
  - rewrite lookup_insert_eq. cbn [mbind option_bind]. fold o. unfold d', put_entry. fold o. do 2 f_equal; [|apply get4_put4; [lia|lia|done]].
    unfold put4byte. rewrite rd_splice_out by (rewrite ?length_enc4; lia). apply rd_wr_eq. lia.
  - intros q Hq Hne. destruct (decide (pageno q = pageno p)) as [E|E]; [|by rewrite lookup_insert_ne].
    rewrite E, lookup_insert_eq, Hd. cbn [mbind option_bind]. destruct (mapped_spec q Hq) as (Hqr & _ & _ & Hqo). rewrite E in Hqr, Hqo. set (o' := 5 * (q - pageno p - 1)) in *.
    assert (o' + 5 <= o \/ o + 5 <= o') as Hoo by lia. unfold d', put_entry. fold o. do 2 f_equal.
    + unfold put4byte. rewrite rd_splice_out by (rewrite ?length_enc4; lia). by rewrite rd_wr_ne by lia.
    + rewrite get4_put4_ne by lia. apply get4_ext; [lia|lia|]. intros k Hk. apply rd_wr_ne; lia.
Qed.

Lemma ptrmapPut_ok p ty parent s h ws r : prep (pPager s) h ws r -> mapped p -> is_u 8 ty -> is_u 32 parent -> is_Some (h !! pageno p) -> (forall q, 0 <= r q) ->
  does (ptrmapPut pBt p ty parent) s (fun rc s' => exists w h' ws', s' = set_pager s w /\ prep w h' ws' r /\ (rc <> 0 -> reliable (W := W) -> False) /\
    (rc = 0 -> ws ⊆ ws' /\ entry h' p = Some (ty, parent) /\ (forall q, mapped q -> q <> p -> entry h' q = entry h q) /\
      (forall q, q <> pageno p -> h' !! q = h !! q) /\ is_Some (h' !! pageno p))).
Proof.
  intros Hw Hp Hty Hpa [d Hd] Hr0. pose proof (proj1 Hp) as Hp31. destruct (mapped_spec p Hp) as (Hr & _ & Ho & Hoo). destruct (prep_good _ _ _ _ _ _ Hw Hd) as [Hb Hl]. pose proof (Hr0 (pageno p)) as Hrp. destruct Hsz as [Hps Hu].
  unfold ptrmapPut. rewrite (proj2 (Z.eqb_neq p 0)) by (destruct Hp; lia). apply does_bind. eapply does_fetch; [exact Hw|done| |].
  { intros rc w Hrc Hrel Hw1. rewrite (proj2 (Z.eqb_neq _ SQLITE_OK)) by done. cbn [negb]. apply does_ret. exists w, h, ws. split; [done|]. split; [done|]. split; [intros _ Hre; specialize (Hrel Hre); lia|done]. }
  intros w1 _ Hw1. cbn [negb Z.eqb SQLITE_OK]. rewrite Ho, (proj2 (Z.ltb_ge _ 0)) by lia. apply does_bind. eapply does_load; [exact Hw1|done|]. apply does_bind.
  assert (forall rc w h' ws', prep w h' ws' (bump r (pageno p) 1) -> (rc <> 0 -> reliable (W := W) -> False) ->
    (rc = 0 -> ws ⊆ ws' /\ entry h' p = Some (ty, parent) /\ (forall q, mapped q -> q <> p -> entry h' q = entry h q) /\ (forall q, q <> pageno p -> h' !! q = h !! q) /\ is_Some (h' !! pageno p)) ->
    does (releasePage (pageno p) ;; mret rc) (set_pager s w) (fun rc s' => exists w h' ws', s' = set_pager s w /\ prep w h' ws' r /\ (rc <> 0 -> reliable (W := W) -> False) /\
      (rc = 0 -> ws ⊆ ws' /\ entry h' p = Some (ty, parent) /\ (forall q, mapped q -> q <> p -> entry h' q = entry h q) /\ (forall q, q <> pageno p -> h' !! q = h !! q) /\ is_Some (h' !! pageno p)))) as Hend.
  { intros rc w h' ws' Hw' Hf Hok. apply does_bind. eapply does_release; [exact Hw'|unfold bump; rewrite Z.eqb_refl; lia|]. intros w2 Hw2. apply does_ret. exists w2, h', ws'. split; [done|].
    split; [|done]. eapply prep_refs; [exact Hw2|]. intros q. unfold bump. destruct (q =? pageno p); lia. }
  destruct (_ || _) eqn:Hc.
  - apply does_bind. eapply does_write; [exact Hw1|unfold bump; rewrite Z.eqb_refl; lia| |].
    { intros rc w2 Hrc Hrel Hw2. rewrite (proj2 (Z.eqb_neq _ SQLITE_OK)) by done. apply does_ret. eapply Hend; [exact Hw2|done|done]. }
    intros w2 d0 Hw2 Hd0. rewrite (Hd0 d Hd) in *. cbn [Z.eqb SQLITE_OK]. destruct (put_entry_ok h d p ty parent Hd Hb ltac:(lia) Hp Hty Hpa) as (Hb' & Hl' & He & Heq).
    apply does_bind. eapply does_store; [exact Hw2|unfold bump; rewrite Z.eqb_refl; lia|in_ws|apply lookup_insert_eq|exact Hb'|done|]. intros w3 Hw3. rewrite insert_insert_eq in Hw3. apply does_ret. eapply Hend; [exact Hw3|done|].
    intros _. split; [apply union_subseteq_r|]. split; [done|]. split; [done|]. split; [intros q Hq; by apply lookup_insert_ne|]. rewrite lookup_insert_eq. eauto.
  - apply does_ret. eapply Hend; [exact Hw1|done|]. intros _. apply orb_false_iff in Hc as [H1%negb_false_iff%Z.eqb_eq H2%negb_false_iff%Z.eqb_eq]. split; [done|].
    split; [unfold entry; rewrite Hd; cbn [mbind option_bind]; by rewrite <- H1, <- H2|]. done.
Qed.

Lemma ptrmapGet_ok p s h ws r : prep (pPager s) h ws r -> mapped p -> is_Some (h !! pageno p) -> (forall q, 0 <= r q) ->
  does (ptrmapGet pBt p) s (fun x s' => exists w, s' = set_pager s w /\ prep w h ws r /\ let '(rc, ty, parent) := x in (rc = 0 -> entry h p = Some (ty, parent)) /\
    (rc <> 0 -> reliable (W := W) -> forall ty' parent', entry h p = Some (ty', parent') -> ty' < 1 \/ 5 < ty')).
Proof.
  intros Hw Hp [d Hd] Hr0. pose proof (proj1 Hp) as Hp31. destruct (mapped_spec p Hp) as (Hr & _ & Ho & Hoo). pose proof (Hr0 (pageno p)) as Hrp. unfold ptrmapGet. apply does_bind. eapply does_fetch; [exact Hw|done| |].
  { intros rc w Hrc Hrel Hw1. rewrite (proj2 (Z.eqb_neq _ SQLITE_OK)) by done. cbn [negb]. apply does_ret. exists w. split; [done|]. split; [done|]. split; [done|]. intros _ Hre. specialize (Hrel Hre). lia. }
  intros w1 _ Hw1. cbn [negb Z.eqb SQLITE_OK]. apply does_bind. eapply does_load; [exact Hw1|done|]. rewrite Ho, (proj2 (Z.ltb_ge _ 0)) by lia.
  apply does_bind. eapply does_release; [exact Hw1|unfold bump; rewrite Z.eqb_refl; lia|]. intros w2 Hw2. apply does_ret. exists w2. split; [done|]. split.
  - eapply prep_refs; [exact Hw2|]. intros q. unfold bump. destruct (q =? pageno p); lia.
  - unfold entry. rewrite Hd. cbn [mbind option_bind]. split; [done|]. intros Hrc _ ty' pa' [= <- _]. destruct (_ || _) eqn:Hc; [|done]. apply orb_true_iff in Hc. lia.
Qed.


(** Round trip of the pointer map: ptrmapGet returns the type and the parent that ptrmapPut has stored for a page, and for every other page the entry that was there before; neither fails while the pager does not, for entries that have a type. *)
Theorem ptrmap_roundtrip p ty parent q s h ws r : prep (pPager s) h ws r -> mapped p -> mapped q -> 1 <= ty <= 5 -> is_u 32 parent -> is_Some (h !! pageno p) -> is_Some (h !! pageno q) -> (forall q, 0 <= r q) ->
  does (rc ← ptrmapPut pBt p ty parent; if negb (rc =? SQLITE_OK) then mret (rc, 0, 0) else ptrmapGet pBt q) s (fun x _ => let '(rc, ty', parent') := x in
    (rc = 0 -> Some (ty', parent') = if q =? p then Some (ty, parent) else entry h q) /\ (reliable (W := W) -> q = p \/ (exists t a, entry h q = Some (t, a) /\ 1 <= t <= 5) -> rc = 0)).
Proof.
  intros Hw Hp Hq Hty Hpa Hsp Hsq Hr0. apply does_bind. eapply does_mono; [apply (ptrmapPut_ok p ty parent s h ws r Hw Hp ltac:(unfold is_u; lia) Hpa Hsp Hr0)|]. intros rc s' (w & h' & ws' & -> & Hw' & Hf & Hg). destruct (Z.eqb_spec rc SQLITE_OK) as [->|Hrc]; cbn [negb].
  2: { apply does_ret. split; [done|]. intros Hre. by destruct (Hf Hrc Hre). }
  destruct (Hg eq_refl) as (_ & He & Hne & Hh & Hs'). assert (entry h' q = if q =? p then Some (ty, parent) else entry h q) as Eq by (destruct (Z.eqb_spec q p) as [->|]; [done|by apply Hne]).
  eapply does_mono; [apply (ptrmapGet_ok q (set_pager s w) h' ws' r Hw' Hq); [|done]; destruct (decide (pageno q = pageno p)) as [->|]; [done|by rewrite Hh]|]. intros [[rc t] a] s2 (w2 & -> & _ & Hok & Hbad). split; [intros Hrc; rewrite <- Eq; symmetry; by apply Hok|].
  intros Hre Hor. destruct (decide (rc = 0)) as [|Hrc]; [done|]. destruct (Z.eqb_spec q p) as [->|Hqp]; [destruct (Hbad Hrc Hre _ _ Eq); lia|]. destruct Hor as [?|(t0 & a0 & E0 & Ht0)]; [done|]. rewrite E0 in Eq. destruct (Hbad Hrc Hre _ _ Eq); lia.
Qed.
End ptrmap.
