(* ===== verification/BtList.v ===== *)
(** The list of free pages: what it is in the contents of pages, and how the stores of allocateBtreePage and freePage2 change it. *)
From S2P Require Import Prelude Varint IntArith Bitvec Mem Page PageSpace Pager BtPages BtRep.
Local Open Scope Z_scope.
Local Open Scope c_scope.

(** A list of free pages: the trunk pages with their leaves. *)
Abbreviation flist := (list (Z * list Z)).
Definition trunks (F : flist) : list Z := map fst F.
Definition frees (F : flist) : list Z := concat (map (fun x => x.1 :: x.2) F).

Lemma frees_app F G : frees (F ++ G) = frees F ++ frees G.
Proof. unfold frees. by rewrite map_app, concat_app. Qed.
Lemma frees_cons t ls F : frees ((t, ls) :: F) = t :: ls ++ frees F.
Proof. done. Qed.
Lemma trunks_frees F p : p ∈ trunks F -> p ∈ frees F.
Proof.
  induction F as [|[t ls] F IH]; [done|]. rewrite frees_cons. unfold trunks. cbn [map fst]. rewrite elem_of_cons. intros [->|Hp]; [left|]. right. apply elem_of_app. right. by apply IH.
Qed.

Section list.
Context (pBt : BtShared).
Abbreviation us := (usableSize pBt).

(** [d] is a trunk page with the leaves [ls] in front of page [next]. *)
Record trunk_page (d : list Z) (next : Z) (ls : list Z) : Prop := {
  tp_bytes : bytes d;
  tp_length : us <= Z.of_nat (length d);
  tp_next : get4byte d 0 = next;
  tp_count : get4byte d 4 = Z.of_nat (length ls);
  tp_leaf i x : ls !! i = Some x -> get4byte d (8 + Z.of_nat i * 4) = x;
  tp_room : Z.of_nat (length ls) <= us / 4 - 2 }.

Lemma tp_fits d next ls : trunk_page d next ls -> 8 + Z.of_nat (length ls) * 4 <= Z.of_nat (length d).
Proof. intros [_ Hl _ _ _ Hr]. pose proof (Z.mul_div_le us 4). lia. Qed.

(** The trunk pages [F] from page [p] to page [q], which is not among them. *)
Fixpoint seg (h : gmap Z (list Z)) (p : Z) (F : flist) (q : Z) : Prop :=
  match F with
  | [] => p = q
  | (t, ls) :: F => p = t /\ exists d next, h !! t = Some d /\ trunk_page d next ls /\ seg h next F q
  end.

Lemma seg_app h p F G q : seg h p (F ++ G) q <-> exists m, seg h p F m /\ seg h m G q.
Proof.
  revert p. induction F as [|[t ls] F IH]; intros p; cbn [app seg]; [naive_solver|]. split.
  - intros (-> & d & next & Hd & Ht & (m & H1 & H2)%IH). eauto 10.
  - intros (m & (-> & d & next & Hd & Ht & H1) & H2). split; [done|]. exists d, next. split; [done|]. split; [done|]. apply IH. eauto.
Qed.
Lemma seg_ext h h' p F q : seg h p F q -> (forall t, t ∈ trunks F -> h' !! t = h !! t) -> seg h' p F q.
Proof.
  revert p. induction F as [|[t ls] F IH]; intros p; cbn [seg]; [done|]. intros (-> & d & next & Hd & Ht & Hs) He. split; [done|]. exists d, next.
  rewrite He by left. split; [done|]. split; [done|]. apply IH; [done|]. intros u Hu. apply He. by right.
Qed.

(** The page that links to the rest of the list behind [A]: page 1 or the last trunk page. *)
Definition last_trunk (A : flist) : option Z := option_map fst (last A).
Lemma last_trunk_snoc A t ls : last_trunk (A ++ [(t, ls)]) = Some t.
Proof. unfold last_trunk. by rewrite last_snoc. Qed.

(** The link behind [A] is set to [q]. *)
Definition relinked (h h' : gmap Z (list Z)) (A : flist) (q : Z) : Prop :=
  match last_trunk A with
  | None => exists d d', h !! 1 = Some d /\ h' = <[1 := d']> h /\ length d' = length d /\ bytes d' /\ get4byte d' 32 = q /\ forall j, 0 <= j -> j < 32 \/ 36 <= j -> rd d' j = rd d j
  | Some pv => exists d d', h !! pv = Some d /\ h' = <[pv := d']> h /\ length d' = length d /\ bytes d' /\ get4byte d' 0 = q /\ forall j, 4 <= j -> rd d' j = rd d j
  end.

Lemma trunk_relink d next ls d' q : trunk_page d next ls -> length d' = length d -> bytes d' -> get4byte d' 0 = q -> (forall j, 4 <= j -> rd d' j = rd d j) -> trunk_page d' q ls.
Proof.
  intros H Hl Hb Hq Hj. assert (forall i, 4 <= i -> get4byte d' i = get4byte d i) as Hg by (intros i Hi; apply get4_ext; [lia|lia|]; intros k Hk; apply Hj; lia). split; [done| |done| | |apply H].
  - rewrite Hl. apply H.
  - rewrite Hg by lia. apply H.
  - intros i x Hx. rewrite Hg by lia. by apply H.
Qed.

(** The list of which page 1 has the head. *)
Definition list_at (h : gmap Z (list Z)) (F : flist) (q : Z) : Prop := exists d1, h !! 1 = Some d1 /\ seg h (get4byte d1 32) F q.

Lemma list_relink h h' A m q : list_at h A m -> NoDup (1 :: trunks A) -> relinked h h' A q -> list_at h' A q.
Proof.
  intros (d1 & H1 & Hs) Hnd. unfold relinked. destruct A as [|[t ls] A _] using rev_ind; cbn [last_trunk last option_map].
  - intros (d & d' & Hd & -> & _ & _ & Hq & _). exists d'. by rewrite lookup_insert_eq.
  - rewrite last_trunk_snoc. intros (d & d' & Hd & -> & Hl & Hb & Hq & Hj).
    unfold trunks in Hnd. rewrite map_app in Hnd. cbn [map fst] in Hnd. apply NoDup_cons in Hnd as [H1t Hnd]. apply NoDup_app in Hnd as (_ & Hd2 & _).
    exists d1. rewrite lookup_insert_ne by (intros ->; apply H1t, elem_of_app; right; left). split; [done|].
    apply seg_app in Hs as (m' & Ha & (-> & d0 & nx & Hd0 & Ht & _)). apply seg_app. exists t. split.
    + apply (seg_ext h); [done|]. intros u Hu. apply lookup_insert_ne. intros <-. apply (Hd2 _ Hu). left.
    + split; [done|]. exists d', q. rewrite lookup_insert_eq. split; [done|]. split; [|done]. rewrite Hd in Hd0. injection Hd0 as <-. by apply (trunk_relink d nx).
Qed.

Lemma list_app h A B q : list_at h (A ++ B) q <-> exists m, list_at h A m /\ seg h m B q.
Proof.
  unfold list_at. split.
  - intros (d1 & H1 & (m & Ha & Hb)%seg_app). eauto.
  - intros (m & (d1 & H1 & Ha) & Hb). exists d1. split; [done|]. apply seg_app. eauto.
Qed.
Lemma list_ext h h' A m : list_at h A m -> h' !! 1 = h !! 1 -> (forall t, t ∈ trunks A -> h' !! t = h !! t) -> list_at h' A m.
Proof. intros (d1 & H1 & Hs) E1 E. exists d1. rewrite E1. split; [done|]. by apply (seg_ext h). Qed.

(** Removing leaf [c]: the last one takes its place. *)
Definition swap_remove (c : nat) (ls : list Z) : list Z := take (length ls - 1) (match last ls with Some x => <[c := x]> ls | None => ls end).

Lemma length_swap_remove c ls : length (swap_remove c ls) = (length ls - 1)%nat.
Proof. unfold swap_remove. rewrite length_take. destruct (last ls); rewrite ?length_insert; lia. Qed.
Lemma swap_remove_perm c ls x : ls !! c = Some x -> ls ≡ₚ x :: swap_remove c ls.
Proof.
  destruct ls as [|y ls _] using rev_ind; [done|]. intros Hc. unfold swap_remove. rewrite last_snoc, length_app, Nat.add_sub. destruct (decide (c = length ls)) as [->|].
  - rewrite lookup_app_r, Nat.sub_diag in Hc by lia. injection Hc as ->. rewrite insert_app_r_alt, take_app_length by lia. rewrite Permutation_app_comm. done.
  - apply lookup_lt_Some in Hc as Hl. rewrite length_app in Hl. cbn in Hl. rewrite lookup_app_l in Hc by lia. rewrite insert_app_l, take_app_length' by (rewrite ?length_insert; lia).
    apply take_drop_middle in Hc as E. rewrite <- E at 1. rewrite insert_take_drop by lia. solve_Permutation.
Qed.

(** ** Stores to trunk pages *)

Lemma trunk_pages_eq d d' next ls : trunk_page d next ls -> length d' = length d -> bytes d' -> (forall j, 0 <= j -> j < 8 + Z.of_nat (length ls) * 4 -> rd d' j = rd d j) -> trunk_page d' next ls.
Proof.
  intros H Hl Hb Hj. assert (forall i, 0 <= i -> i + 4 <= 8 + Z.of_nat (length ls) * 4 -> get4byte d' i = get4byte d i) as Hg by (intros i Hi Hi2; apply get4_ext; [lia|lia|]; intros k Hk; apply Hj; lia).
  split; [done| | | | |apply H].
  - rewrite Hl. apply H.
  - rewrite Hg by lia. apply H.
  - rewrite Hg by lia. apply H.
  - intros i x Hx. pose proof (lookup_lt_Some _ _ _ Hx). rewrite Hg by lia. by apply H.
Qed.

Lemma room_small (ls : list Z) : 480 <= us <= 65536 -> Z.of_nat (length ls) <= us / 4 - 2 -> is_u 32 (Z.of_nat (length ls)) /\ is_u 32 (Z.of_nat (length ls) + 1).
Proof. intros Hus Hr. assert (us / 4 <= 65536 / 4) by (apply Z.div_le_mono; lia). change (65536 / 4) with 16384 in *. unfold is_u. lia. Qed.

Context (Hus : 480 <= us <= 65536).

Lemma trunk_leaf_added d next ls p : trunk_page d next ls -> Z.of_nat (length ls) < us / 4 - 8 -> is_u 32 p ->
  trunk_page (put4byte (put4byte d 4 (Z.of_nat (length ls) + 1)) (8 + Z.of_nat (length ls) * 4) p) next (ls ++ [p]).
Proof.
  intros H Hr Hp. pose proof (tp_length _ _ _ H) as Hl. pose proof (Z.mul_div_le us 4 ltac:(lia)) as Hd. pose proof (room_small ls Hus (tp_room _ _ _ H)) as [_ Hu].
  assert (length (put4byte d 4 (Z.of_nat (length ls) + 1)) = length d) as L1 by (apply length_put4byte; lia). split.
  - apply bytes_put4byte, bytes_put4byte, H.
  - rewrite length_put4byte; lia.
  - rewrite !get4_put4_ne by lia. apply H.
  - rewrite get4_put4_ne, get4_put4 by (done || lia). rewrite length_app. cbn. lia.
  - intros i x Hx. destruct (decide (i < length ls)%nat) as [Hi|Hi].
    + rewrite lookup_app_l in Hx by done. rewrite !get4_put4_ne by lia. by apply H.
    + rewrite lookup_app_r in Hx by lia. apply list_lookup_singleton_Some in Hx as [Hi0 <-]. replace i with (length ls) by lia. apply get4_put4; [lia|lia|done].
  - rewrite length_app. cbn. lia.
Qed.

Lemma trunk_made d next : bytes d -> us <= Z.of_nat (length d) -> is_u 32 next -> trunk_page (put4byte (put4byte d 0 next) 4 0) next [].
Proof.
  intros Hb Hl Hn. assert (length (put4byte d 0 next) = length d) as L1 by (apply length_put4byte; lia). split; [by apply bytes_put4byte, bytes_put4byte| | | |done|].
  - rewrite length_put4byte; lia.
  - rewrite get4_put4_ne by lia. apply get4_put4; [lia|lia|done].
  - rewrite get4_put4; [done|lia|lia|unfold is_u; lia].
  - cbn. pose proof (Z.div_le_mono 480 us 4 ltac:(lia) ltac:(lia)) as H. change (480 / 4) with 120 in H. lia.
Qed.

Lemma trunk_leaf_removed d next ls c : trunk_page d next ls -> (c < length ls)%nat ->
  let k := Z.of_nat (length ls) in
  let d1 := if Z.of_nat c <? k - 1 then splice d (8 + Z.of_nat c * 4) (slice d (4 + k * 4) 4) else d in
  length (put4byte d1 4 (k - 1)) = length d /\ trunk_page (put4byte d1 4 (k - 1)) next (swap_remove c ls).
Proof.
  intros H Hc k d1. pose proof (tp_fits _ _ _ H) as Hf. pose proof (tp_length _ _ _ H) as Hl. pose proof (room_small ls Hus (tp_room _ _ _ H)) as [Hu _]. fold k in Hf, Hu. unfold is_u in Hu.
  assert (Z.of_nat (length (slice d (4 + k * 4) 4)) = 4) as Hsl by (apply length_slice; lia).
  assert (length d1 = length d) as L1. { unfold d1. destruct (Z.ltb_spec (Z.of_nat c) (k - 1)); [apply length_splice; lia|done]. }
  assert (bytes d1) as Hb. { unfold d1. destruct (_ <? _); [|apply H]. apply bytes_splice; [apply H|]. unfold slice. apply Forall_take, Forall_drop, H. }
  assert (length (put4byte d1 4 (k - 1)) = length d) as L2 by (rewrite length_put4byte; lia). split; [done|].
  assert (forall j, 0 <= j -> j + 4 <= 8 + Z.of_nat c * 4 \/ 12 + Z.of_nat c * 4 <= j -> get4byte d1 j = get4byte d j) as Hg. { intros j Hj0 Hj. unfold d1. destruct (Z.ltb_spec (Z.of_nat c) (k - 1)); [|done]. apply get4_splice_ne; lia. }
  split.
  - by apply bytes_put4byte.
  - rewrite L2. apply H.
  - rewrite get4_put4_ne, Hg by lia. apply H.
  - rewrite get4_put4; [rewrite length_swap_remove; lia|lia|lia|unfold is_u; lia].
  - intros i x Hx. rewrite get4_put4_ne by lia. unfold swap_remove in Hx. apply lookup_take_Some in Hx as [Hx Hi]. destruct (last_is_Some ls) as [_ [y Hy]]; [by intros ->|]. rewrite Hy in Hx.
    destruct (decide (i = c)) as [->|Hic].
    + rewrite list_lookup_insert_eq in Hx by done. injection Hx as <-. unfold d1. rewrite (proj2 (Z.ltb_lt (Z.of_nat c) (k - 1))) by lia. rewrite get4_copy by lia.
      rewrite last_lookup in Hy. rewrite <- (tp_leaf _ _ _ H _ _ Hy). f_equal. lia.
    + rewrite list_lookup_insert_ne in Hx by done. rewrite Hg by lia. by apply H.
  - rewrite length_swap_remove. pose proof (tp_room _ _ _ H). lia.
Qed.

(** The first leaf becomes a trunk page with the other leaves. *)
Lemma trunk_moved d next x ls d2 : trunk_page d next (x :: ls) -> bytes d2 -> length d2 = length d ->
  let k := Z.of_nat (length (x :: ls)) in
  let d' := splice (put4byte (splice d2 0 (slice d 0 4)) 4 (k - 1)) 8 (slice d 12 ((k - 1) * 4)) in
  length d' = length d /\ trunk_page d' next ls.
Proof.
  intros H Hb2 Hl2 k d'. pose proof (tp_fits _ _ _ H) as Hf. pose proof (tp_length _ _ _ H) as Hl. pose proof (room_small _ Hus (tp_room _ _ _ H)) as [Hu _]. fold k in Hf, Hu. unfold is_u in Hu.
  assert (k = Z.of_nat (length ls) + 1) as Ek by (unfold k; cbn [length]; lia).
  assert (Z.of_nat (length (slice d 0 4)) = 4) as S1 by (apply length_slice; lia). assert (Z.of_nat (length (slice d 12 ((k - 1) * 4))) = (k - 1) * 4) as S2 by (apply length_slice; lia).
  assert (length (splice d2 0 (slice d 0 4)) = length d2) as L1 by (apply length_splice; lia). assert (length (put4byte (splice d2 0 (slice d 0 4)) 4 (k - 1)) = length d2) as L2 by (rewrite length_put4byte; lia).
  assert (length d' = length d) as L3 by (unfold d'; rewrite length_splice; lia). split; [done|]. assert (forall i n, bytes (slice d i n)) as Hs by (intros; apply Forall_take, Forall_drop, H). split.
  - apply bytes_splice; [|apply Hs]. by apply bytes_put4byte, bytes_splice.
  - rewrite L3. apply H.
  - unfold d'. rewrite get4_splice_ne, get4_put4_ne, get4_copy by lia. apply H.
  - unfold d'. rewrite get4_splice_ne, get4_put4 by (unfold is_u; lia). lia.
  - intros i y Hy. pose proof (lookup_lt_Some _ _ _ Hy). unfold d'. rewrite get4_splice_in by lia. rewrite get4_slice by lia. rewrite <- (tp_leaf _ _ _ H (S i) y Hy). f_equal. lia.
  - pose proof (tp_room _ _ _ H). lia.
Qed.

(** ** The choice of a leaf *)

Lemma distance_spec x y : is_u 32 x -> is_u 32 y -> 0 <= distance x y /\ (distance x y = 0 <-> x = y).
Proof.
  intros Hx Hy. unfold distance. rewrite Int64.absInt32_spec by (apply swrap_range; lia). cbn [from_option id]. pose proof (swrap_range 32 (u32 (x - y)) ltac:(lia)) as Hr.
  unfold is_i, is_u in *. split; [lia|].  split; [|intros ->; by rewrite Z.sub_diag].
  intros H0. assert (i32 (u32 (x - y)) = 0) as E by lia. unfold swrap, uwrap in E. change (2 ^ (32 - 1)) with 2147483648 in E. change (2 ^ 32) with 4294967296 in *. Z.div_mod_to_equations. lia.
Qed.

Lemma closest_le_spec d nearby n i : let c := closest_le n d nearby i in
  (c = 0 \/ i <= c < i + Z.of_nat n) /\ ((exists j, i <= j < i + Z.of_nat n /\ get4byte d (8 + j * 4) <= nearby) -> get4byte d (8 + c * 4) <= nearby).
Proof.
  revert i. induction n as [|n IH]; intros i; cbn [closest_le].
  - split; [by left|]. intros (j & Hj & _). lia.
  - destruct (Z.leb_spec (get4byte d (8 + i * 4)) nearby) as [Hle|Hgt]; [split; [right; lia|done]|]. destruct (IH (i + 1)) as [Hr Hj]. split; [lia|].
    intros (j & Hji & Hjn). apply Hj. exists j. split; [|done]. destruct (decide (j = i)) as [->|]; lia.
Qed.

Lemma closest_dist_spec d nearby n i c : let D j := distance (get4byte d (8 + j * 4)) nearby in let c' := closest_dist n d nearby i c (D c) in
  (c' = c \/ i <= c' < i + Z.of_nat n) /\ D c' <= D c /\ (forall j, i <= j < i + Z.of_nat n -> D c' <= D j).
Proof.
  intros D. revert i c. induction n as [|n IH]; intros i c; cbn [closest_dist].
  - split; [by left|]. split; [lia|]. intros j Hj. lia.
  - fold (D i). destruct (Z.ltb_spec (D i) (D c)) as [Hlt|Hge]; [destruct (IH (i + 1) i) as (Hr & Hc & Hj)|destruct (IH (i + 1) c) as (Hr & Hc & Hj)];
      (split; [lia|]; split; [lia|]; intros j Hji; destruct (decide (j = i)) as [->|]; [lia|apply Hj; lia]).
Qed.

Lemma closest_leaf_range d k nearby eMode : 0 < k -> 0 <= closest_leaf d k nearby eMode < k.
Proof.
  intros Hk. unfold closest_leaf. destruct (0 <? nearby); [|lia]. destruct (eMode =? BTALLOC_LE).
  - destruct (closest_le_spec d nearby (Z.to_nat k) 0) as [Hr _]. lia.
  - destruct (closest_dist_spec d nearby (Z.to_nat (k - 1)) 1 0) as [Hr _]. replace (8 + 0 * 4) with 8 in Hr by lia. lia.
Qed.
Lemma closest_leaf_le d k nearby j : 0 < nearby -> 0 <= j < k -> get4byte d (8 + j * 4) <= nearby -> get4byte d (8 + closest_leaf d k nearby BTALLOC_LE * 4) <= nearby.
Proof.
  intros Hn Hj Hle. unfold closest_leaf. rewrite (proj2 (Z.ltb_lt 0 nearby) Hn). cbn [Z.eqb BTALLOC_LE Pos.eqb]. apply closest_le_spec. exists j. split; [lia|done].
Qed.
Lemma closest_leaf_exact d k nearby j : bytes d -> is_u 32 nearby -> 0 < nearby -> 0 <= j < k -> get4byte d (8 + j * 4) = nearby -> get4byte d (8 + closest_leaf d k nearby BTALLOC_EXACT * 4) = nearby.
Proof.
  intros Hb Hu Hn Hj He. unfold closest_leaf. rewrite (proj2 (Z.ltb_lt 0 nearby) Hn). cbn [Z.eqb BTALLOC_EXACT BTALLOC_LE Pos.eqb].
  pose proof (closest_dist_spec d nearby (Z.to_nat (k - 1)) 1 0) as (_ & H0 & H1). replace (8 + 0 * 4) with 8 in H0, H1 by lia.
  set (c := closest_dist _ _ _ _ _ _) in *. pose proof (distance_spec (get4byte d (8 + c * 4)) nearby (get4_range _ _ Hb) Hu) as [Hc0 Hc]. apply Hc.
  assert (distance (get4byte d (8 + j * 4)) nearby = 0) as Hj0. { apply distance_spec; [by apply get4_range|done|done]. }
  destruct (decide (j = 0)) as [->|]; [change (8 + 0 * 4) with 8 in Hj0; lia|specialize (H1 j ltac:(lia)); lia].
Qed.
End list.
