(* ===== verification/BtAlloc.v ===== *)
(** Allocating and freeing pages: allocateBtreePage and freePage2 implement the removal and the addition of a free page. *)
From S2P Require Import Prelude Varint IntArith Bitvec Mem Page PageSpace Pager BtPages BtRep BtList.
Local Open Scope Z_scope.
Local Open Scope c_scope.

Definition held (r : Z -> Z) (o : option Z) : Z -> Z := match o with Some p => bump r p 1 | None => r end.

(** Equality of reference counts, at every page. *)
Ltac refs_eq := intros; unfold held in *; repeat match goal with |- context [match ?o with Some _ => _ | None => _ end] => destruct o eqn:? end; unfold bump in *;
  repeat match goal with |- context [?a =? ?b] => destruct (Z.eqb_spec a b); try subst end; try lia; try done; try congruence.

(** All pages but page 1 and the pages [X] are as they were, and page 1 outside of the number of the first trunk page too. *)
Record changed (h h' : gmap Z (list Z)) (X : list Z) : Prop := {
  ch_page q : q <> 1 -> q ∉ X -> h' !! q = h !! q;
  ch_one d : h !! 1 = Some d -> exists d', h' !! 1 = Some d' /\ length d' = length d /\ forall j, 0 <= j -> j < 32 \/ 36 <= j -> rd d' j = rd d j }.

Lemma changed_refl h X : changed h h X.
Proof. split; [done|]. intros d Hd. by exists d. Qed.
Lemma changed_trans h h1 h2 X : changed h h1 X -> changed h1 h2 X -> changed h h2 X.
Proof.
  intros [A1 B1] [A2 B2]. split; [intros q Hq HX; by rewrite A2, A1|]. intros d Hd. destruct (B1 d Hd) as (d1 & H1 & L1 & R1). destruct (B2 d1 H1) as (d2 & H2 & L2 & R2).
  exists d2. split; [done|]. split; [congruence|]. intros j Hj0 Hj. by rewrite R2, R1.
Qed.
Lemma changed_insert h p d X : p ∈ X -> p <> 1 -> changed h (<[p := d]> h) X.
Proof. intros Hp H1. split; [intros q Hq HX; apply lookup_insert_ne; set_solver|]. intros d1 Hd1. exists d1. by rewrite lookup_insert_ne. Qed.
Lemma changed_delete h p X : p ∈ X -> p <> 1 -> changed h (delete p h) X.
Proof. intros Hp H1. split; [intros q Hq HX; apply lookup_delete_ne; set_solver|]. intros d1 Hd1. exists d1. by rewrite lookup_delete_ne. Qed.
Lemma changed_one h d d' X : h !! 1 = Some d -> length d' = length d -> (forall j, 0 <= j -> j < 32 \/ 36 <= j -> rd d' j = rd d j) -> changed h (<[1 := d']> h) X.
Proof.
  intros Hd Hl Hj. split; [intros q Hq _; by apply lookup_insert_ne|]. intros d1 Hd1. rewrite Hd in Hd1. injection Hd1 as <-. exists d'. by rewrite lookup_insert_eq.
Qed.
Lemma changed_weaken h h' X Y : changed h h' X -> X ⊆ Y -> changed h h' Y.
Proof. intros [A B] HX. split; [|done]. intros q Hq HY. apply A; [done|]. set_solver. Qed.

Lemma does_release_opt {W} {ops : PagerOps W} {ps} {HP : Pager W ps} o (s : Db W) h ws r (Q : unit -> Db W -> Prop) : prep (pPager s) h ws r -> (forall p, o = Some p -> 0 < r p) ->
  (forall w, prep w h ws (match o with Some p => bump r p (-1) | None => r end) -> Q tt (set_pager s w)) -> does (releaseOpt o) s Q.
Proof.
  intros Hp Ho HQ. destruct o as [p|]; cbn [releaseOpt].
  - apply (does_release p s h ws r); auto.
  - apply does_ret. destruct s. by apply (HQ _).
Qed.

(** * Allocation *)

Section alloc.
Context {W : Type} {ops : PagerOps W} (pBt : BtShared) {HP : Pager W (pageSize pBt)} (Hsz : sizes_ok pBt).
Abbreviation us := (usableSize pBt).
Context (mxPage nearby eMode : Z) (search : bool).
Context (h : gmap Z (list Z)) (ws : gset Z) (r : Z -> Z) (F : flist).
Context (HF : list_at pBt h F 0) (Hnd : NoDup (frees F)) (Hrange : forall p, p ∈ frees F -> 2 <= p <= mxPage) (Hmx : 0 <= mxPage < 2 ^ 31) (Hfree : forall p, p ∈ frees F -> r p = 0) (Hr1 : 0 < r 1) (Hr : forall p, 0 <= r p) (H1ws : 1 ∈ ws).

Lemma Hus : 480 <= us <= 65536.
Proof. clear -Hsz. destruct Hsz. lia. Qed.

(** The page that the caller asks for is on the list. *)
Definition wanted : Prop := search = true -> (eMode = BTALLOC_EXACT /\ nearby ∈ frees F) \/ (eMode = BTALLOC_LE /\ exists p, p ∈ frees F /\ p <= nearby).
Definition chosen (p : Z) : Prop := search = true -> p = nearby \/ (p < nearby /\ eMode = BTALLOC_LE).

(** How the loop ends. *)
Definition turn_ok (x : turn) (w : W) : Prop :=
  match x with
  | Next => False
  | Done rc p t pv =>
      exists h' ws', prep w h' ws' (held (held (if rc =? 0 then bump r p 1 else r) t) pv) /\
        (rc <> 0 -> reliable (W := W) -> wanted -> False) /\
        (rc = 0 -> exists F', list_at pBt h' F' 0 /\ frees F ≡ₚ p :: frees F' /\ changed h h' (frees F) /\ is_Some (h' !! p) /\ p ∈ ws' /\ (forall u, u ∈ ws -> u ∉ frees F -> u ∈ ws') /\ chosen p)
  end.

(** What is known about a trunk page [t] of the list. *)
Record at_trunk (A : flist) (t : Z) (ls : list Z) (B : flist) (d : list Z) (next : Z) : Prop := {
  at_F : F = A ++ (t, ls) :: B;
  at_page : h !! t = Some d;
  at_trunk_page : trunk_page pBt d next ls;
  at_front : list_at pBt h A t;
  at_rest : seg pBt h next B 0 }.

Lemma at_trunk_intro A t ls B : F = A ++ (t, ls) :: B -> exists d next, at_trunk A t ls B d next.
Proof.
  intros E. pose proof HF as H. rewrite E in H. apply list_app in H as (m & Ha & (-> & d & next & Hd & Ht & Hs)). by exists d, next.
Qed.

Lemma frees_mid A t ls B : frees (A ++ (t, ls) :: B) ≡ₚ t :: ls ++ frees A ++ frees B.
Proof. rewrite frees_app, frees_cons. solve_Permutation. Qed.

(** The pages of the list are apart. *)
Lemma apart A t ls B d next : at_trunk A t ls B d next -> t ∉ ls /\ NoDup ls /\ (forall p, p = t \/ p ∈ ls -> p <> 1 /\ p ∈ frees F /\ p ∉ trunks A /\ p ∉ trunks B) /\ NoDup (1 :: trunks A).
Proof.
  intros H. pose proof Hnd as Hn. rewrite (at_F _ _ _ _ _ _ H) in Hn. rewrite frees_mid in Hn. apply NoDup_cons in Hn as [Ht Hn]. apply NoDup_app in Hn as (Hls & Hd1 & Hn). apply NoDup_app in Hn as (Hna & Hd2 & Hnb).
  split; [set_solver|]. split; [done|]. split.
  - intros p Hp. assert (p ∈ frees F) as HpF. { rewrite (at_F _ _ _ _ _ _ H), frees_mid. set_solver. } pose proof (Hrange p HpF). split; [lia|]. split; [done|].
    split; intros Hx%trunks_frees; (destruct Hp as [->|Hp]; [apply Ht; set_solver|apply (Hd1 p Hp); set_solver]).
  - constructor.
    + intros H1%trunks_frees. assert (1 ∈ frees F) as H1F. { rewrite (at_F _ _ _ _ _ _ H), frees_mid. set_solver. } specialize (Hrange 1 H1F). lia.
    + clear -Hna. induction A as [|[u us] A IH]; [constructor|]. rewrite frees_cons in Hna. apply NoDup_cons in Hna as [Hu Hn]. apply NoDup_app in Hn as (_ & _ & Hn). constructor; [|by apply IH].
      intros Hx%trunks_frees. apply Hu. set_solver.
Qed.

(** The list after a change of the trunk page [t]. *)
Lemma list_mid A t ls B d next h' d' ls' : at_trunk A t ls B d next -> h' !! t = Some d' -> trunk_page pBt d' next ls' ->
  (forall q, q <> t -> q ∉ ls -> h' !! q = h !! q) -> list_at pBt h' (A ++ (t, ls') :: B) 0.
Proof.
  intros H Ht' Htp Hq. destruct (apart _ _ _ _ _ _ H) as (Htl & _ & Hap & _). apply list_app. exists t. split.
  - apply (list_ext pBt h); [apply H| |].
    + apply Hq; [|]; [by intros <-; destruct (Hap 1 ltac:(by left))|]. intros H1. by destruct (Hap 1 ltac:(by right)).
    + intros u Hu. apply Hq; [intros ->|intros Hul]; [by destruct (Hap t ltac:(by left)) as (_ & _ & ? & _)|by destruct (Hap u ltac:(by right)) as (_ & _ & ? & _)].
  - split; [done|]. exists d', next. split; [done|]. split; [done|]. apply (seg_ext pBt h); [apply H|].
    intros u Hu. apply Hq; [intros ->|intros Hul]; [by destruct (Hap t ltac:(by left)) as (_ & _ & _ & ?)|by destruct (Hap u ltac:(by right)) as (_ & _ & _ & ?)].
Qed.


Context (s0 : Db W).
(** The state of the pager behind [s0]. *)
Abbreviation ends x s := (exists w, s = set_pager s0 w /\ turn_ok x w).

Lemma done_fail rc p t pv s h' ws' r' : rc <> 0 -> (reliable (W := W) -> wanted -> False) -> (exists w, s = set_pager s0 w /\ prep w h' ws' r') ->
  (forall q, held (held r t) pv q = r' q) -> ends (Done rc p t pv) s.
Proof.
  intros Hrc Hrel (w & -> & Hp) Hr'. exists w. split; [done|]. exists h', ws'. rewrite (proj2 (Z.eqb_neq rc 0) Hrc). split; [by apply (prep_refs _ _ _ r')|]. split; done.
Qed.

(** A call that failed ends the program. *)
Ltac out w := rewrite ?(proj2 (Z.eqb_neq _ SQLITE_OK)) by assumption; cbn [negb]; apply does_ret; eapply done_fail; [assumption|naive_solver|by exists w|refs_eq].

Lemma take_leaf_ok A t ls B d next c p s : at_trunk A t ls B d next -> (exists w, s = set_pager s0 w /\ prep w h ws (bump (held r (last_trunk A)) t 1)) ->
  ls !! Z.to_nat c = Some p -> 0 <= c < Z.of_nat (length ls) -> chosen p ->
  does (take_leaf t (Z.of_nat (length ls)) c p (last_trunk A)) s (fun x s' => ends x s').
Proof.
  intros Hat (w & -> & Hp) Hlc Hc Hch. destruct (apart _ _ _ _ _ _ Hat) as (Htl & Hndl & Hap & _). destruct (Hap t ltac:(by left)) as (Ht1 & HtF & HtA & HtB). destruct (Hap p ltac:(right; by eapply list_elem_of_lookup_2)) as (Hp1 & HpF & HpA & HpB).
  assert (p <> t) as Hpt by (intros ->; apply Htl; by eapply list_elem_of_lookup_2). pose proof (Hr t) as Hrt. pose proof (Hfree p HpF) as Hrp.
  assert (forall q, last_trunk A = Some q -> q <> p /\ 0 <= r q) as Hlast. { intros q Hq. split; [|apply Hr]. intros ->. apply HpA. unfold last_trunk in Hq. destruct (last A) as [[u us]|] eqn:E; [|done]. injection Hq as <-. apply list_elem_of_fmap. exists (u, us). split; [done|]. by apply last_Some_elem_of. }
  destruct (trunk_leaf_removed pBt Hus d next ls (Z.to_nat c) (at_trunk_page _ _ _ _ _ _ Hat) ltac:(lia)) as [Hl' Htp']. rewrite Z2Nat.id in Hl', Htp' by lia.
  unfold take_leaf. apply does_bind. eapply does_write; [exact Hp|refs_eq| |].
  { intros rc w1 Hrc Hrel Hw1. out w1. }
  intros w1 d0 Hw1 Hd0. rewrite (Hd0 d) in * by apply Hat. clear d0 Hd0. cbn [negb Z.eqb SQLITE_OK]. apply does_bind. eapply does_load; [exact Hw1|apply lookup_insert_eq|].
  set (d' := put4byte _ 4 _) in *. apply does_bind. eapply does_store; [exact Hw1|refs_eq|in_ws|apply lookup_insert_eq|apply Htp'|done|].
  intros w2 Hw2. rewrite insert_insert_eq in Hw2. apply does_bind. eexists _, _. split; [reflexivity|]. cbv beta. apply does_bind. eapply does_fetch_any; [exact Hw2|refs_eq; naive_solver| |].
  { intros rc w3 Hrc Hrel Hw3. rewrite ?(proj2 (Z.eqb_neq _ SQLITE_OK)) by assumption. apply does_bind, does_ret, does_bind. eapply does_release_opt; [exact Hw3|intros q Hq; rewrite Hq; destruct (Hlast q Hq); refs_eq|].
    intros w4 Hw4. apply does_ret. eapply done_fail; [done|intros Hre; specialize (Hrel Hre); specialize (Hrange p HpF); lia|by exists w4|refs_eq]. }
  intros w3 _ Hw3. cbn [Z.eqb SQLITE_OK]. apply does_bind, does_bind. eapply does_write; [exact Hw3|refs_eq| |].
  { intros rc w4 Hrc Hrel Hw4. rewrite ?(proj2 (Z.eqb_neq _ SQLITE_OK)) by assumption. cbn [negb]. apply does_bind. eapply does_release; [exact Hw4|refs_eq|]. intros w5 Hw5. apply does_ret. apply does_bind.
    eapply does_release_opt; [exact Hw5|intros q Hq; rewrite Hq; destruct (Hlast q Hq); refs_eq|]. intros w6 Hw6. apply does_ret. eapply done_fail; [done|naive_solver|by exists w6|refs_eq]. }
  intros w4 dp Hw4 _. cbn [negb Z.eqb SQLITE_OK]. apply does_ret, does_bind. eapply does_release_opt; [exact Hw4|intros q Hq; rewrite Hq; destruct (Hlast q Hq); refs_eq|]. intros w5 Hw5. apply does_ret.
  exists w5. split; [done|]. eexists _, _. cbn [Z.eqb]. split; [eapply prep_refs; [exact Hw5|refs_eq]|]. split; [done|]. intros _. exists (A ++ (t, swap_remove (Z.to_nat c) ls) :: B).
  assert (is_Some ((<[p := dp]> (delete p (<[t := d']> h))) !! p)) as Hsome by (rewrite lookup_insert_eq; eauto).
  split; [|split; [|split; [|split; [done|split; [in_ws|split; [intros u Hu _; in_ws|done]]]]]].
  - eapply list_mid; [done| |exact Htp'|].
    + by rewrite lookup_insert_ne, lookup_delete_ne, lookup_insert_eq by done.
    + intros q Hq Hql. assert (q <> p) by (intros ->; apply Hql; by eapply list_elem_of_lookup_2). by rewrite lookup_insert_ne, lookup_delete_ne, lookup_insert_ne by done.
  - rewrite (at_F _ _ _ _ _ _ Hat), !frees_mid. rewrite (swap_remove_perm (Z.to_nat c) ls p Hlc) at 1. solve_Permutation.
  - eapply changed_trans; [by apply (changed_insert h t d')|]. eapply changed_trans; [by apply changed_delete|]. by apply changed_insert.
Qed.

Lemma last_trunk_elem A pv : last_trunk A = Some pv -> pv ∈ trunks A.
Proof. unfold last_trunk. destruct (last A) as [[u us]|] eqn:E; [|done]. intros [= <-]. apply list_elem_of_fmap. exists (u, us). split; [done|]. by apply last_Some_elem_of. Qed.
Lemma seg_lookup h1 m A q u : seg pBt h1 m A q -> u ∈ trunks A -> exists d, h1 !! u = Some d /\ us <= Z.of_nat (length d).
Proof.
  revert m. induction A as [|[t ls] A IH]; intros m; [by intros _ ?%not_elem_of_nil|]. intros (-> & d & next & Hd & Ht & Hs) [->|Hu]%elem_of_cons; [|by eapply IH]. exists d. split; [done|apply Ht].
Qed.

(** The store of the link behind [A], as a program. *)
Lemma relink_ok A bs q t m s h1 ws1 : (exists w, s = set_pager s0 w /\ prep w h1 ws1 (bump (held r (last_trunk A)) t 1)) -> list_at pBt h1 A m -> (forall u, u ∈ trunks A -> u <> t /\ u <> 1) -> 1 ∈ ws1 ->
  length bs = 4%nat -> bytes bs -> get4byte bs 0 = q ->
  does (match last_trunk A with
        | None => p1 ← load 1; store 1 (splice p1 32 bs) ;; mret (Done SQLITE_OK t None None)
        | Some pv =>
            rc ← pagerWrite pv;
            if negb (rc =? SQLITE_OK) then mret (Done rc 0 (Some t) (last_trunk A))
            else d ← load pv; store pv (splice d 0 bs) ;; releasePage pv ;; mret (Done SQLITE_OK t None None)
        end) s
    (fun x s' => (exists rc, x = Done rc 0 (Some t) (last_trunk A) /\ ends x s') \/
      (x = Done SQLITE_OK t None None /\ exists w h2 ws2, s' = set_pager s0 w /\ prep w h2 ws2 (bump r t 1) /\ ws1 ⊆ ws2 /\ relinked h1 h2 A q)).
Proof.
  intros (w & -> & Hw) (d1 & Hd1 & Hs) HA H1 Hlb Hbb Hq. destruct (prep_good _ _ _ _ _ _ Hw Hd1) as [Hb1 Hl1]. pose proof Hus as Hu. destruct Hsz as [Hps Huss]. pose proof (Hr 1) as Hr1'.
  destruct (last_trunk A) as [pv|] eqn:E.
  - pose proof (last_trunk_elem _ _ E) as Hpv. destruct (HA pv Hpv) as [Hpt Hp1]. destruct (seg_lookup _ _ _ _ _ Hs Hpv) as (d & Hd & Hld). destruct (prep_good _ _ _ _ _ _ Hw Hd) as [Hb _].
    pose proof (Hr pv) as Hrp. apply does_bind. eapply does_write; [exact Hw|refs_eq| |].
    { intros rc w1 Hrc Hrel Hw1. rewrite (proj2 (Z.eqb_neq _ SQLITE_OK)) by assumption. cbn [negb]. apply does_ret. left. exists rc. split; [done|]. eapply done_fail; [done|naive_solver|by exists w1|refs_eq]. }
    intros w1 d0 Hw1 Hd0. rewrite (Hd0 d Hd) in *. cbn [negb Z.eqb SQLITE_OK]. apply does_bind. eapply does_load; [exact Hw1|apply lookup_insert_eq|].
    assert (length (splice d 0 bs) = length d) as Hl' by (apply length_splice; lia).
    apply does_bind. eapply does_store; [exact Hw1|refs_eq|in_ws|apply lookup_insert_eq|by apply bytes_splice|done|]. intros w2 Hw2. rewrite insert_insert_eq in Hw2.
    apply does_bind. eapply does_release; [exact Hw2|refs_eq|]. intros w3 Hw3. apply does_ret. right. split; [done|]. eexists w3, _, _. split; [done|]. split; [eapply prep_refs; [exact Hw3|refs_eq]|]. split; [set_solver|].
    unfold relinked. rewrite E. exists d, (splice d 0 bs). split; [done|]. split; [done|]. split; [done|]. split; [by apply bytes_splice|]. split.
    + rewrite get4_splice_in by lia. done.
    + intros j Hj. apply rd_splice_out; lia.
  - apply does_bind. eapply does_load; [exact Hw|done|]. assert (length (splice d1 32 bs) = length d1) as Hl' by (apply length_splice; lia).
    apply does_bind. eapply does_store; [exact Hw|refs_eq|done|done|by apply bytes_splice|done|]. intros w2 Hw2. apply does_ret. right. split; [done|]. eexists w2, _, _. split; [done|]. split; [eapply prep_refs; [exact Hw2|refs_eq]|]. split; [done|].
    unfold relinked. rewrite E. exists d1, (splice d1 32 bs). split; [done|]. split; [done|]. split; [done|]. split; [by apply bytes_splice|]. split.
    + rewrite get4_splice_in by lia. done.
    + intros j Hj0 Hj. apply rd_splice_out; lia.
Qed.

Lemma relinked_changed h1 h2 A q : relinked h1 h2 A q -> 1 ∉ trunks A -> changed h1 h2 (trunks A) /\ (forall u, u <> 1 -> u ∉ trunks A -> h2 !! u = h1 !! u).
Proof.
  unfold relinked. intros H H1. assert (changed h1 h2 (trunks A)) as Hc; [|by split; [done|apply Hc]]. destruct (last_trunk A) as [pv|] eqn:E.
  - destruct H as (d & d' & Hd & -> & _). pose proof (last_trunk_elem _ _ E). apply changed_insert; [done|]. by intros ->.
  - destruct H as (d & d' & Hd & -> & Hl & _ & _ & Hj). apply (changed_one _ d); [done|done|]. intros j Hj0 Hj1. apply Hj; lia.
Qed.

(** The end of an allocation of the trunk page [t]: the rest [G] of the list is linked behind [A]. *)
Lemma trunk_done A t ls B d next G h1 h2 ws2 w q : at_trunk A t ls B d next -> relinked h1 h2 A q -> prep w h2 ws2 (bump r t 1) -> ws ⊆ ws2 -> t ∈ ws2 -> is_Some (h1 !! t) -> chosen t ->
  (forall u, u ∉ t :: ls -> h1 !! u = h !! u) -> seg pBt h1 q G 0 -> (forall u, u ∈ trunks G -> u <> 1 /\ u ∉ trunks A) -> ls ++ frees B ≡ₚ frees G ->
  ends (Done SQLITE_OK t None None) (set_pager s0 w).
Proof.
  intros Hat Hrl Hw H1 Ht Hst Hch Hh1 HsG HG HP'. destruct (apart _ _ _ _ _ _ Hat) as (Htl & Hndl & Hap & HnA). destruct (Hap t ltac:(by left)) as (Ht1 & HtF & HtA & HtB). apply NoDup_cons in HnA as Hn2. destruct Hn2 as [H1A _].
  destruct (relinked_changed _ _ _ _ Hrl H1A) as [Hc Hc2]. exists w. split; [done|]. exists h2, ws2. cbn [Z.eqb SQLITE_OK held]. split; [done|]. split; [done|]. intros _. exists (A ++ G).
  assert (changed h h1 (frees F)) as Hc1. { split; [intros u Hu HuF; apply Hh1|]. { intros Hin. apply HuF. rewrite (at_F _ _ _ _ _ _ Hat), frees_mid. set_solver. }
    intros d1 Hd1. exists d1. rewrite Hh1; [done|]. intros Hin%elem_of_cons. by destruct (Hap 1 ltac:(destruct Hin; auto)). }
  split; [|split; [|split; [|split; [|split; [done|split; [intros u Hu _; by apply H1|done]]]]]].
  - apply list_app. exists q. split.
    + apply (list_relink pBt h1 h2 A t); [|done|done]. apply (list_ext pBt h); [apply Hat| |].
      * apply Hh1. intros Hin%elem_of_cons. by destruct (Hap 1 ltac:(destruct Hin; auto)).
      * intros u Hu. apply Hh1. intros Hin%elem_of_cons. by destruct (Hap u ltac:(destruct Hin; auto)) as (_ & _ & ? & _).
    + apply (seg_ext pBt h1); [done|]. intros u Hu. destruct (HG u Hu). by apply Hc2.
  - rewrite (at_F _ _ _ _ _ _ Hat), frees_mid, frees_app. rewrite (Permutation_app_comm (frees A)), app_assoc, HP'. solve_Permutation.
  - apply (changed_trans h h1); [done|]. apply (changed_weaken _ _ _ _ Hc). intros u Hu%trunks_frees. rewrite (at_F _ _ _ _ _ _ Hat), frees_mid. set_solver.
  - rewrite Hc2; done.
Qed.

Lemma trunks_not_one B u : trunks B ⊆ trunks F -> u ∈ trunks B -> u <> 1.
Proof. intros HB Hu ->. apply HB, trunks_frees, Hrange in Hu. lia. Qed.
Lemma trunks_part A x B : F = A ++ x :: B -> trunks B ⊆ trunks F.
Proof. intros ->. unfold trunks. rewrite map_app. set_solver. Qed.

Lemma take_first_ok t B d next s : at_trunk [] t [] B d next -> search = false -> (exists w, s = set_pager s0 w /\ prep w h ws (bump r t 1)) ->
  does (take_first t) s (fun x s' => ends x s').
Proof.
  intros Hat Hse (w & -> & Hw). destruct (apart _ _ _ _ _ _ Hat) as (Htl & _ & Hap & _). destruct (Hap t ltac:(by left)) as (Ht1 & HtF & _ & HtB). pose proof (Hr t) as Hrt. pose proof Hus as Hu. pose proof (tp_length _ _ _ _ (at_trunk_page _ _ _ _ _ _ Hat)) as Hld.
  unfold take_first. apply does_bind. eapply does_write; [exact Hw|refs_eq| |].
  { intros rc w1 Hrc Hrel Hw1. rewrite (proj2 (Z.eqb_neq _ SQLITE_OK)) by assumption. cbn [negb]. apply does_ret. eapply done_fail; [done|naive_solver|by exists w1|refs_eq]. }
  intros w1 d0 Hw1 Hd0. rewrite (Hd0 d) in * by apply Hat. cbn [negb Z.eqb SQLITE_OK]. apply does_bind. eapply does_load; [exact Hw1|apply lookup_insert_eq|].
  eapply does_mono; [apply (relink_ok [] (slice d 0 4) next t t _ (<[t := d]> h) ({[t]} ∪ ws))|].
  - by exists w1.
  - rewrite insert_id by apply Hat. apply Hat.
  - by intros u Hu'%not_elem_of_nil.
  - set_solver.
  - apply Nat2Z.inj. rewrite length_slice; lia.
  - apply Forall_take, Forall_drop. apply (at_trunk_page _ _ _ _ _ _ Hat).
  - rewrite get4_slice by lia. apply (at_trunk_page _ _ _ _ _ _ Hat).
  - intros x s' [(rc & -> & He)|(-> & w2 & h2 & ws2 & -> & Hw2 & Hws & Hrl)]; [done|].
    apply (trunk_done [] t [] B d next B (<[t := d]> h) h2 ws2 w2 next); [done|done|done|intros u Hu'; apply Hws; in_ws|apply Hws; in_ws|rewrite lookup_insert_eq; eauto|unfold chosen; by rewrite Hse| | | |done].
    + intros u Hu'. apply lookup_insert_ne. set_solver.
    + apply (seg_ext pBt h); [apply Hat|]. intros u Hu'. apply lookup_insert_ne. by intros ->.
    + intros u Hu'. split; [|by intros ?%not_elem_of_nil]. apply (trunks_not_one B); [|done]. apply (trunks_part [] (t, [])), Hat.
Qed.

Lemma trunks_apart A t ls B d next u : at_trunk A t ls B d next -> u ∈ trunks A -> u <> t /\ u <> 1.
Proof.
  intros Hat Hu. destruct (apart _ _ _ _ _ _ Hat) as (_ & _ & Hap & HnA). destruct (Hap t ltac:(by left)) as (_ & _ & HtA & _). apply NoDup_cons in HnA as [H1A _]. split; by intros ->.
Qed.
Lemma trunks_disjoint A t ls B d next u : at_trunk A t ls B d next -> u ∈ trunks B -> u ∉ trunks A.
Proof.
  intros Hat Hb%trunks_frees Ha%trunks_frees. pose proof Hnd as Hn. rewrite (at_F _ _ _ _ _ _ Hat), frees_mid in Hn. apply NoDup_cons in Hn as [_ Hn]. apply NoDup_app in Hn as (_ & _ & Hn). apply NoDup_app in Hn as (_ & Hd & _). by apply (Hd u).
Qed.

Lemma take_trunk_ok A t ls B d next s : at_trunk A t ls B d next -> (exists w, s = set_pager s0 w /\ prep w h ws (bump (held r (last_trunk A)) t 1)) -> chosen t ->
  does (take_trunk t (Z.of_nat (length ls)) mxPage (last_trunk A)) s (fun x s' => ends x s').
Proof.
  intros Hat (w & -> & Hw) Hch. destruct (apart _ _ _ _ _ _ Hat) as (Htl & Hndl & Hap & HnA). destruct (Hap t ltac:(by left)) as (Ht1 & HtF & HtA & HtB). pose proof (Hr t) as Hrt. pose proof Hus as Hu.
  pose proof (at_trunk_page _ _ _ _ _ _ Hat) as Htp. pose proof (tp_length _ _ _ _ Htp) as Hld.
  assert (forall h1, h1 !! t = h !! t -> (forall u, u ∉ t :: ls -> h1 !! u = h !! u) -> list_at pBt h1 A t) as Hla.
  { intros h1 Ht Hh1. apply (list_ext pBt h); [apply Hat| |].
    - apply Hh1. intros Hin%elem_of_cons. by destruct (Hap 1 ltac:(destruct Hin; auto)).
    - intros u Hu'. apply Hh1. intros Hin%elem_of_cons. by destruct (Hap u ltac:(destruct Hin; auto)) as (_ & _ & ? & _). }
  unfold take_trunk. apply does_bind. eapply does_write; [exact Hw|refs_eq| |].
  { intros rc w1 Hrc Hrel Hw1. out w1. }
  intros w1 d0 Hw1 Hd0. rewrite (Hd0 d) in * by apply Hat. clear d0 Hd0. cbn [negb Z.eqb SQLITE_OK]. apply does_bind. eapply does_load; [exact Hw1|apply lookup_insert_eq|].
  rewrite insert_id in Hw1 by apply Hat. destruct ls as [|x ls]; [cbn [length Z.of_nat Z.eqb]|].
  - eapply does_mono; [apply (relink_ok A (slice d 0 4) next t t _ h ({[t]} ∪ ws))|].
    + by exists w1.
    + apply Hat.
    + intros u Hu'. by eapply trunks_apart.
    + set_solver.
    + apply Nat2Z.inj. rewrite length_slice; lia.
    + apply Forall_take, Forall_drop, Htp.
    + rewrite get4_slice by lia. apply Htp.
    + intros x s' [(rc & -> & He)|(-> & w2 & h2 & ws2 & -> & Hw2 & Hws & Hrl)]; [done|].
      apply (trunk_done A t [] B d next B h h2 ws2 w2 next); [done|done|done|intros u Hu'; apply Hws; in_ws|apply Hws; in_ws|rewrite (at_page _ _ _ _ _ _ Hat); eauto|done|done|apply Hat| |done].
      intros u Hu'. split; [|by eapply trunks_disjoint]. apply (trunks_not_one B); [|done]. eapply trunks_part, Hat.
  - rewrite (proj2 (Z.eqb_neq _ 0)) by (cbn [length]; lia). destruct (Hap x ltac:(right; left)) as (Hx1 & HxF & HxA & HxB). assert (x <> t) as Hxt by (intros ->; apply Htl; left). pose proof (Hfree x HxF) as Hrx.
    assert (get4byte d 8 = x) as Hx by (apply (tp_leaf _ _ _ _ Htp 0 x eq_refl)). rewrite Hx. destruct (Hrange x HxF) as [Hx2 Hxm]. rewrite (proj2 (Z.ltb_ge mxPage x)) by lia.
    apply does_bind. eapply does_fetch; [exact Hw1|done| |].
    { intros rc w2 Hrc Hrel Hw2. rewrite (proj2 (Z.eqb_neq _ SQLITE_OK)) by assumption. cbn [negb]. apply does_ret. eapply done_fail; [done|intros Hre; specialize (Hrel Hre); lia|by exists w2|refs_eq]. }
    intros w2 _ Hw2. cbn [negb Z.eqb SQLITE_OK]. apply does_bind. eapply does_write; [exact Hw2|refs_eq| |].
    { intros rc w3 Hrc Hrel Hw3. rewrite (proj2 (Z.eqb_neq _ SQLITE_OK)) by assumption. cbn [negb]. apply does_bind. eapply does_release; [exact Hw3|refs_eq|]. intros w4 Hw4. apply does_ret. eapply done_fail; [done|naive_solver|by exists w4|refs_eq]. }
    intros w3 d2 Hw3 _. cbn [negb Z.eqb SQLITE_OK]. apply does_bind. eapply does_load; [exact Hw3|apply lookup_insert_eq|].
    destruct (prep_good _ _ _ _ _ _ Hw3 (lookup_insert_eq _ _ _)) as [Hb2 Hl2]. destruct (prep_good _ _ _ _ _ _ Hw1 (at_page _ _ _ _ _ _ Hat)) as [_ Hld2].
    destruct (trunk_moved pBt Hus d next x ls d2 Htp Hb2 ltac:(lia)) as [Hl' Htp']. set (d' := splice (put4byte _ _ _) 8 _) in *.
    apply does_bind. eapply does_store; [exact Hw3|refs_eq|in_ws|apply lookup_insert_eq|apply Htp'|lia|]. intros w4 Hw4. rewrite insert_insert_eq in Hw4.
    apply does_bind. eapply does_release; [exact Hw4|refs_eq|]. intros w5 Hw5.
    eapply does_mono; [apply (relink_ok A (enc4 x) x t t _ (<[x := d']> h) ({[x]} ∪ ({[t]} ∪ ws)))|].
    + exists w5. split; [done|]. eapply prep_refs; [exact Hw5|refs_eq].
    + apply Hla; [by apply lookup_insert_ne|]. intros u Hu'. apply lookup_insert_ne. set_solver.
    + intros u Hu'. by eapply trunks_apart.
    + set_solver.
    + apply length_enc4.
    + apply bytes_enc4.
    + apply get4_enc4. unfold is_u. lia.
    + intros y s' [(rc & -> & He)|(-> & w6 & h2 & ws2 & -> & Hw6 & Hws & Hrl)]; [done|].
      apply (trunk_done A t (x :: ls) B d next ((x, ls) :: B) (<[x := d']> h) h2 ws2 w6 x); [done|done|done|intros u Hu'; apply Hws; in_ws|apply Hws; in_ws|rewrite lookup_insert_ne, (at_page _ _ _ _ _ _ Hat) by done; eauto|done| | | |by rewrite frees_cons].
      * intros u Hu'. apply lookup_insert_ne. set_solver.
      * split; [done|]. exists d', next. rewrite lookup_insert_eq. split; [done|]. split; [done|]. apply (seg_ext pBt h); [apply Hat|]. intros u Hu'. apply lookup_insert_ne. by intros ->.
      * intros u [->|Hu']%elem_of_cons; [done|]. split; [|by eapply trunks_disjoint]. apply (trunks_not_one B); [|done]. eapply trunks_part, Hat.
Qed.

Context (Hmode : search = true -> (eMode = BTALLOC_EXACT \/ eMode = BTALLOC_LE) /\ 0 < nearby) (Hnear : is_u 32 nearby).

(** Whether a page is one that the search is for. *)
Definition target (p : Z) : Prop := p = nearby \/ (p < nearby /\ eMode = BTALLOC_LE).

(** A turn that goes on has found no such page. *)
Definition passed (t : Z) (ls : list Z) (x : turn) (s : Db W) : Prop :=
  x = Next /\ search = true /\ (forall p, p ∈ t :: ls -> ~ target p) /\ exists w, s = set_pager s0 w /\ prep w h ws (held r (Some t)).

Lemma leaf_lookup A t ls B d next c : at_trunk A t ls B d next -> 0 <= c < Z.of_nat (length ls) -> exists p, ls !! Z.to_nat c = Some p /\ get4byte d (8 + c * 4) = p.
Proof.
  intros Hat Hc. destruct (lookup_lt_is_Some_2 ls (Z.to_nat c)) as [p Hp]; [lia|]. exists p. split; [done|]. rewrite <- (tp_leaf _ _ _ _ (at_trunk_page _ _ _ _ _ _ Hat) _ _ Hp). f_equal. lia.
Qed.

(** When the leaf that is closest is not a target, none is. *)
Lemma closest_no_target A t ls B d next p : at_trunk A t ls B d next -> search = true -> ls <> [] ->
  ~ target (get4byte d (8 + closest_leaf d (Z.of_nat (length ls)) nearby eMode * 4)) -> p ∈ ls -> ~ target p.
Proof.
  intros Hat Hse Hne Hc [i Hi]%list_elem_of_lookup Ht. pose proof (at_trunk_page _ _ _ _ _ _ Hat) as Htp. pose proof (lookup_lt_Some _ _ _ Hi) as Hlt. pose proof (tp_leaf _ _ _ _ Htp _ _ Hi) as Hg. apply Hc. destruct (Hmode Hse) as [[E|E] Hn0]; rewrite E.
  - destruct Ht as [->|[_ Ht]]; [|rewrite E in Ht; discriminate Ht]. left. apply (closest_leaf_exact d _ nearby (Z.of_nat i)); [apply Htp|done|done|lia|done].
  - assert (get4byte d (8 + closest_leaf d (Z.of_nat (length ls)) nearby BTALLOC_LE * 4) <= nearby) as Hle. { apply (closest_leaf_le d _ nearby (Z.of_nat i)); [done|lia|]. rewrite Hg. destruct Ht as [->|[Ht _]]; lia. }
    unfold target. destruct (decide (get4byte d (8 + closest_leaf d (Z.of_nat (length ls)) nearby BTALLOC_LE * 4) = nearby)); [by left|]. right. split; [lia|done].
Qed.

Lemma is_target p : reflect (target p) ((p =? nearby) || ((p <? nearby) && (eMode =? BTALLOC_LE))).
Proof. apply iff_reflect. unfold target. rewrite orb_true_iff, andb_true_iff, Z.eqb_eq, Z.ltb_lt, Z.eqb_eq. done. Qed.

Lemma alloc_turn_ok A t ls B d next s : at_trunk A t ls B d next -> (exists w, s = set_pager s0 w /\ prep w h ws (bump (held r (last_trunk A)) t 1)) -> (search = false -> A = []) ->
  does (alloc_turn pBt mxPage nearby eMode search t (last_trunk A)) s (fun x s' => ends x s' \/ passed t ls x s').
Proof.
  intros Hat Hs HA. pose proof Hs as (w & -> & Hw). pose proof (at_trunk_page _ _ _ _ _ _ Hat) as Htp. pose proof Hus as Hu.
  unfold alloc_turn. apply does_bind. eapply does_load; [exact Hw|apply Hat|]. rewrite (tp_count _ _ _ _ Htp).
  assert (search = true -> (forall p, p ∈ t :: ls -> ~ target p) -> does (releaseOpt (last_trunk A) ;; mret Next) (set_pager s0 w) (fun x s' => ends x s' \/ passed t ls x s')) as Hnext.
  { intros Hse Hnt. apply does_bind. eapply does_release_opt; [exact Hw|intros q Hq; pose proof (Hr q); refs_eq; naive_solver|]. intros w2 Hw2. apply does_ret. right. split; [done|]. split; [done|]. split; [done|]. exists w2. split; [done|]. eapply prep_refs; [exact Hw2|refs_eq]. }
  assert (forall p, search = true -> reflect (target p) ((nearby =? p) || ((p <? nearby) && (eMode =? BTALLOC_LE)))) as Hr2. { intros p _. rewrite Z.eqb_sym. apply is_target. }
  assert (target t -> chosen t) as Hct by (intros Ht _; exact Ht).
  destruct (Z.eqb_spec (Z.of_nat (length ls)) 0) as [Hk|Hk]; cbn [andb].
  - destruct ls as [|? ls]; [|done]. destruct (Sumbool.sumbool_of_bool search) as [Hse|Hse]; rewrite Hse; cbn [negb].
    + rewrite uwrap_small by (split; [|apply Z.le_lt_trans with us]; Z.div_mod_to_equations; lia). rewrite (proj2 (Z.ltb_ge _ _)) by apply Htp. cbn [andb length Z.of_nat Z.ltb Z.compare].
      destruct (Hr2 t Hse) as [Ht|Ht]; [eapply does_mono; [apply (take_trunk_ok A t [] B d next _); auto|by left]|]. apply Hnext; [done|]. set_solver.
    + specialize (HA Hse) as ->. eapply does_mono; [apply (take_first_ok t B d next _); auto|by left].
  - rewrite uwrap_small by (split; [|apply Z.le_lt_trans with us]; Z.div_mod_to_equations; lia). rewrite (proj2 (Z.ltb_ge _ _)) by apply Htp.
    set (c := closest_leaf d (Z.of_nat (length ls)) nearby eMode). assert (0 <= c < Z.of_nat (length ls)) as Hc by (apply closest_leaf_range; lia).
    destruct (leaf_lookup _ _ _ _ _ _ c Hat Hc) as (p & Hp & Hg). rewrite Hg, (proj2 (Z.ltb_lt 0 _)) by lia.
    assert (p ∈ frees F) as HpF. { rewrite (at_F _ _ _ _ _ _ Hat), frees_mid. apply list_elem_of_lookup_2 in Hp. set_solver. } destruct (Hrange p HpF) as [_ Hpm]. rewrite (proj2 (Z.ltb_ge mxPage p)) by lia.
    assert (chosen p -> does (take_leaf t (Z.of_nat (length ls)) c p (last_trunk A)) (set_pager s0 w) (fun x s' => ends x s' \/ passed t ls x s')) as Hleaf.
    { intros Hch. eapply does_mono; [by apply (take_leaf_ok A t ls B d next c p _)|by left]. }
    destruct (Sumbool.sumbool_of_bool search) as [Hse|Hse]; rewrite Hse; cbn [negb andb orb].
    + destruct (Hr2 t Hse) as [Ht|Ht]; [eapply does_mono; [apply (take_trunk_ok A t ls B d next _); auto|by left]|]. destruct (is_target p) as [Htp'|Htp']; [apply Hleaf; intros _; exact Htp'|]. apply Hnext; [done|].
      intros q [->|Hq]%elem_of_cons; [done|]. apply (closest_no_target A t ls B d next); [done|done|by intros ->|fold c; by rewrite Hg|done].
    + apply Hleaf. unfold chosen. by rewrite Hse.
Qed.

Lemma link_read A m w r' : list_at pBt h A m -> prep w h ws r' ->
  does (match last_trunk A with Some pv => d ← load pv; mret (get4byte d 0) | None => p1 ← load 1; mret (get4byte p1 32) end) (set_pager s0 w) (fun x s' => x = m /\ s' = set_pager s0 w).
Proof.
  intros (d1 & H1 & Hs) Hw. destruct A as [|[t ls] A _] using rev_ind.
  - apply does_bind. eapply does_load; [exact Hw|done|]. by apply does_ret.
  - rewrite last_trunk_snoc. apply seg_app in Hs as (m' & _ & (-> & d & next & Hd & Ht & Hs)). cbn in Hs. subst next. apply does_bind. eapply does_load; [exact Hw|done|]. apply does_ret. split; [apply Ht|done].
Qed.

Lemma wanted_target : wanted -> search = true -> exists p, p ∈ frees F /\ target p.
Proof. intros Hw Hse. destruct (Hw Hse) as [[E Hp]|[E (p & Hp & Hle)]]; [exists nearby; split; [done|by left]|]. exists p. split; [done|]. unfold target. destruct (decide (p = nearby)); [by left|]. right. split; [lia|done]. Qed.

Lemma alloc_loop_ok B : forall A fuel s, F = A ++ B -> (length B < fuel)%nat -> (exists w, s = set_pager s0 w /\ prep w h ws (held r (last_trunk A))) ->
  (search = false -> A = [] /\ B <> []) -> (search = true -> forall p, p ∈ frees A -> ~ target p) ->
  does (alloc_loop pBt fuel mxPage nearby eMode search (last_trunk A)) s (fun x s' => ends x s').
Proof.
  induction B as [|[t ls] B IH]; intros A fuel s EF Hfu (w & -> & Hw) Hns Hnt; (destruct fuel as [|fuel]; [cbn in Hfu; lia|]); cbn [alloc_loop].
  - rewrite app_nil_r in EF. apply does_bind. eapply does_mono; [eapply link_read; [|exact Hw]; rewrite <- EF; exact HF|]. intros x s' [-> ->].
    rewrite (proj2 (Z.ltb_ge mxPage 0)) by lia. apply does_bind. eapply does_fetch; [exact Hw|done| |lia].
    intros rc w1 Hrc _ Hw1. rewrite (proj2 (Z.eqb_neq _ SQLITE_OK)) by assumption. cbn [negb]. apply does_ret. eapply done_fail; [done| |by exists w1|refs_eq].
    intros _ Hwa. destruct (Sumbool.sumbool_of_bool search) as [Hse|Hse]; [|by destruct (Hns Hse)]. destruct (wanted_target Hwa Hse) as (p & Hp & Ht). rewrite EF in Hp. by apply (Hnt Hse p).
  - destruct (at_trunk_intro A t ls B EF) as (d & next & Hat). apply does_bind. eapply does_mono; [eapply link_read; [apply Hat|exact Hw]|]. intros x s' [-> ->].
    assert (t ∈ frees F) as HtF by (rewrite EF, frees_mid; left). destruct (Hrange t HtF) as [Ht2 Htm]. rewrite (proj2 (Z.ltb_ge mxPage t)) by lia. apply does_bind. eapply does_fetch; [exact Hw|done| |].
    { intros rc w1 Hrc Hrel Hw1. rewrite (proj2 (Z.eqb_neq _ SQLITE_OK)) by assumption. cbn [negb]. apply does_ret. eapply done_fail; [done|intros Hre; specialize (Hrel Hre); lia|by exists w1|refs_eq]. }
    intros w1 _ Hw1. cbn [negb Z.eqb SQLITE_OK]. apply does_bind. eapply does_mono; [apply (alloc_turn_ok A t ls B d next _); [done|by exists w1|by intros [? _]%Hns]|].
    intros x s' [He|(-> & Hse & Hno & w2 & -> & Hw2)].
    + destruct x; [by apply does_ret|]. by destruct He as (? & _ & []).
    + rewrite <- (last_trunk_snoc A t ls). apply (IH (A ++ [(t, ls)]) fuel _); [by rewrite <- app_assoc|cbn in Hfu; lia| |congruence|].
      * exists w2. rewrite last_trunk_snoc. done.
      * intros _ p. rewrite frees_app, frees_cons. change (frees []) with (@nil Z). rewrite app_nil_r. intros [Hp|Hp]%elem_of_app; [by apply Hnt|by apply Hno].
Qed.
End alloc.
