(* ===== verification/BtStore.v ===== *)
(** The pages of the database as a store: allocateBtreePage and freePage2 on a database whose list of free pages is in order. *)
From S2P Require Import Prelude Varint IntArith Bitvec Mem Page PageSpace Pager BtPages BtRep BtPtrmap BtList BtAlloc.
Local Open Scope Z_scope.
Local Open Scope c_scope.

Section store.
Context {W : Type} {ops : PagerOps W} (pBt : BtShared) {HP : Pager W (pageSize pBt)} (Hsz : sizes_ok pBt) (bDoTruncate : bool) (alloc : nat -> bool).
Abbreviation us := (usableSize pBt).

(** A database of [n] pages with the contents [h], the references [r] and the free pages [F]. *)
Record pages_ok (n : Z) (h : gmap Z (list Z)) (r : Z -> Z) (F : flist) : Prop := {
  po_list : list_at pBt h F 0;
  po_count d : h !! 1 = Some d -> get4byte d 36 = Z.of_nat (length (frees F));
  po_nodup : NoDup (frees F);
  po_range p : p ∈ frees F -> 2 <= p <= n /\ regular pBt p;
  po_refs p : p ∈ frees F \/ n < p -> r p = 0;
  po_one : 0 < r 1;
  po_pos p : 0 <= r p;
  po_size : 1 <= n < 2 ^ 31;
  po_map q : autoVacuum pBt = true -> 2 <= q <= n -> PTRMAP_ISPAGE pBt q = true -> is_Some (h !! q);
  po_type p : autoVacuum pBt = true -> p ∈ frees F -> exists parent, entry pBt h p = Some (PTRMAP_FREEPAGE, parent) }.

Lemma free_mapped n h r F p : pages_ok n h r F -> autoVacuum pBt = true -> 2 <= p <= n -> regular pBt p -> mapped pBt p /\ is_Some (h !! ptrmapPageno pBt p).
Proof.
  intros Hok Hav Hp Hreg. pose proof (po_size _ _ _ _ Hok). assert (mapped pBt p) as Hm by (apply ispage_regular; [lia|done|done]). split; [done|].
  destruct (mapped_spec pBt Hsz p Hm) as (Hr & Hi & _). apply (po_map _ _ _ _ Hok); [done|lia|done].
Qed.

(** ** New pages at the end of the file *)

Lemma next_page_spec n : 1 <= n < 2 ^ 31 + 8 -> n < next_page pBt n <= n + 2 /\ next_page pBt n <> PENDING_BYTE_PAGE pBt /\ forall q, n < q < next_page pBt n -> q = PENDING_BYTE_PAGE pBt.
Proof.
  intros Hn. unfold next_page. rewrite (uwrap_small 32 (n + 1)) by (unfold is_u; lia). rewrite uwrap_small by (unfold is_u; lia). destruct (Z.eqb_spec (n + 1) (PENDING_BYTE_PAGE pBt)); (split; [lia|]; split; [lia|]); intros q Hq; lia.
Qed.

(** The last page after an allocation at the end of a file of [n] pages. *)
Definition appended (n : Z) : Z := let n1 := next_page pBt n in if autoVacuum pBt && PTRMAP_ISPAGE pBt n1 then next_page pBt n1 else n1.
Lemma appended_spec n : 1 <= n < 2 ^ 31 -> n < appended n <= n + 4 /\ regular pBt (appended n) /\ (forall q, n < q < appended n -> ~ regular pBt q) /\
  forall q, autoVacuum pBt = true -> n < q <= appended n -> PTRMAP_ISPAGE pBt q = true -> q = next_page pBt n /\ q <> appended n.
Proof.
  intros Hn. unfold appended. destruct (next_page_spec n ltac:(lia)) as (H1 & H1p & H1q). set (n1 := next_page pBt n) in *. pose proof (ispage_pending pBt Hsz) as Hpp. destruct (autoVacuum pBt) eqn:Hav; cbn [andb].
  - destruct (PTRMAP_ISPAGE pBt n1) eqn:Hi.
    + destruct (next_page_spec n1 ltac:(lia)) as (H2 & H2p & H2q). set (n2 := next_page pBt n1) in *. pose proof (ispage_next pBt Hsz n1 ltac:(lia) Hi) as Hnx. split; [lia|]. split; [split; [done|intros _; apply Hnx; lia]|]. split.
      * intros q Hq [Hr1 Hr2]. destruct (decide (q < n1)); [by apply Hr1, H1q; lia|]. destruct (decide (q = n1)) as [->|]; [rewrite Hr2 in Hi; congruence|]. apply Hr1, H2q. lia.
      * intros q _ Hq Hqi. destruct (decide (q < n1)); [rewrite (H1q q ltac:(lia)) in Hqi; congruence|]. destruct (decide (q = n1)); [lia|]. destruct (decide (q <= n1 + 3)); [rewrite (Hnx q ltac:(lia)) in Hqi; congruence|lia].
    + split; [lia|]. split; [split; [done|done]|]. split; [intros q Hq [Hr1 _]; by apply Hr1, H1q|]. intros q _ Hq Hqi. destruct (decide (q = n1)) as [->|]; [congruence|]. rewrite (H1q q ltac:(lia)) in Hqi. congruence.
  - split; [lia|]. split; [split; [done|congruence]|]. split; [intros q Hq [Hr1 _]; by apply Hr1, H1q|congruence].
Qed.


(** What an allocation does with the pages: page [p] leaves the list of free pages, or it is new. *)
Definition fresh (n : Z) (F : flist) (p n' : Z) (F' : flist) : Prop := (frees F ≡ₚ p :: frees F' /\ n' = n) \/ (F = [] /\ F' = [] /\ n < p <= n + 4 /\ n' = p /\ forall q, n < q < p -> ~ regular pBt q).

(** The pages up to [n] outside of [X] are as they were, and page 1 outside of its bytes 28 to 39. *)
Definition untouched (n : Z) (h h' : gmap Z (list Z)) (X : list Z) : Prop :=
  (forall q, q <> 1 -> q ∉ X -> q <= n -> h' !! q = h !! q) /\ forall d, h !! 1 = Some d -> exists d', h' !! 1 = Some d' /\ length d' = length d /\ forall j, 0 <= j -> j < 28 \/ 40 <= j -> rd d' j = rd d j.

Definition allocated (s : Db W) (h : gmap Z (list Z)) (ws : gset Z) (r : Z -> Z) (F : flist) (p : Z) (s' : Db W) (h' : gmap Z (list Z)) (ws' : gset Z) : Prop :=
  exists F', pages_ok (nPage s') h' (bump r p 1) F' /\ fresh (nPage s) F p (nPage s') F' /\ untouched (nPage s) h h' (frees F) /\
    2 <= p /\ regular pBt p /\ is_Some (h' !! p) /\ p ∈ ws' /\ forall u, u ∈ ws -> u ∉ frees F -> u <= nPage s -> u ∈ ws'.

Definition others (s s' : Db W) : Prop := pHasContent s' = pHasContent s /\ nAlloc s' = nAlloc s.

Lemma append_pages n h r n2 h' d d' : pages_ok n h r [] -> h !! 1 = Some d -> h' !! 1 = Some d' -> (forall j, 0 <= j -> j < 28 \/ 32 <= j -> rd d' j = rd d j) -> length d' = length d -> n2 = appended n -> n2 < 2 ^ 31 ->
  (forall q, q <> 1 -> q <= n -> h' !! q = h !! q) -> (autoVacuum pBt && PTRMAP_ISPAGE pBt (next_page pBt n) = true -> is_Some (h' !! next_page pBt n)) ->
  pages_ok n2 h' (bump r n2 1) [].
Proof.
  intros Hok Hd Hd' Hj Hl -> Hn2 Hh Hnew. pose proof (po_size _ _ _ _ Hok) as Hn. destruct (appended_spec n Hn) as (Ha & _ & _ & Hq). destruct (po_list _ _ _ _ Hok) as (d0 & Hd0 & Hs). rewrite Hd in Hd0. injection Hd0 as <-.
  split; [|intros d0 Hd0|constructor|by intros p ?%not_elem_of_nil| | |intros p|lia| |by intros p _ ?%not_elem_of_nil].
  - exists d'. split; [done|]. cbn in *. rewrite <- Hs. apply get4_ext; [lia|lia|]. intros k Hk. apply Hj; lia.
  - rewrite Hd' in Hd0. injection Hd0 as <-. rewrite <- (po_count _ _ _ _ Hok d Hd). apply get4_ext; [lia|lia|]. intros k Hk. apply Hj; lia.
  - intros p [?%not_elem_of_nil|Hp]; [done|]. unfold bump. rewrite (proj2 (Z.eqb_neq _ _)) by lia. apply (po_refs _ _ _ _ Hok). right. lia.
  - pose proof (po_one _ _ _ _ Hok). unfold bump. rewrite (proj2 (Z.eqb_neq _ _)) by lia. done.
  - pose proof (po_pos _ _ _ _ Hok p). unfold bump. destruct (_ =? _); lia.
  - intros q Hav Hq2 Hqi. destruct (decide (q <= n)) as [Hqn|Hqn]; [rewrite Hh by lia; apply (po_map _ _ _ _ Hok); [done|lia|done]|].
    destruct (Hq q Hav ltac:(lia) Hqi) as [-> _]. apply Hnew. by rewrite Hav, Hqi.
Qed.

Definition append_post (s : Db W) h ws r (x : Z * Z) (s' : Db W) : Prop := exists h' ws', prep (pPager s') h' ws' (if x.1 =? 0 then bump r x.2 1 else r) /\ others s s' /\
  (x.1 <> 0 -> reliable (W := W) -> 2 ^ 31 <= nPage s + 4) /\ (x.1 = 0 -> allocated s h ws r [] x.2 s' h' ws').

Lemma append_fail s h ws r rc p s' h' ws' : rc <> 0 -> prep (pPager s') h' ws' r -> others s s' -> (reliable (W := W) -> 2 ^ 31 <= nPage s + 4) -> append_post s h ws r (rc, p) s'.
Proof. intros Hrc Hp Ho Hf. exists h', ws'. cbn [fst]. rewrite (proj2 (Z.eqb_neq rc 0) Hrc). done. Qed.

(** The page itself, when the page of the pointer map before it is done. *)
Lemma append_last s s1 h ws h1 ws1 r flags : pages_ok (nPage s) h r [] -> nPage s1 = appended (nPage s) -> others s s1 -> prep (pPager s1) h1 ws1 r -> 1 ∈ ws1 -> (forall u, u ∈ ws -> u <= nPage s -> u ∈ ws1) -> h1 !! 1 = h !! 1 -> (forall q, q <= nPage s -> h1 !! q = h !! q) ->
  (autoVacuum pBt && PTRMAP_ISPAGE pBt (next_page pBt (nPage s)) = true -> is_Some (h1 !! next_page pBt (nPage s)) /\ next_page pBt (nPage s) <> appended (nPage s)) ->
  does (s ← pget;
      p1 ← load 1;
      store 1 (put4byte p1 28 (nPage s)) ;;
      rc ← btreeGetPage (nPage s) flags;
      if negb (rc =? SQLITE_OK) then mret (rc, 0)
      else
        rc ← pagerWrite (nPage s);
        (if negb (rc =? SQLITE_OK) then releasePage (nPage s) else mret tt) ;; mret (rc, nPage s)) s1 (append_post s h ws r).
Proof.
  intros Hok Hn1 Ho Hw H1 Hws Hh1 Hh Hnew. pose proof (po_size _ _ _ _ Hok) as Hn. destruct (appended_spec (nPage s) Hn) as (Ha & Hareg & Hgap & _). pose proof (po_one _ _ _ _ Hok) as Hr1. destruct (po_list _ _ _ _ Hok) as (d & Hd & _).
  assert (h1 !! 1 = Some d) as Hd1 by congruence. destruct (prep_good _ _ _ _ _ _ Hw Hd1) as [Hb Hl]. destruct Hsz as [Hps Hu]. apply does_bind, does_get. rewrite Hn1. set (p := appended (nPage s)) in *.
  apply does_bind. eapply does_load; [exact Hw|done|]. assert (length (put4byte d 28 p) = length d) as Hl' by (apply length_put4byte; lia).
  apply does_bind. eapply does_store; [exact Hw|done|done|done|by apply bytes_put4byte|done|]. intros w2 Hw2. assert (r p = 0) as Hrp by (apply (po_refs _ _ _ _ Hok); right; lia).
  apply does_bind. eapply does_fetch_any; [exact Hw2|done| |].
  { intros rc w3 Hrc Hrel Hw3. rewrite (proj2 (Z.eqb_neq _ SQLITE_OK)) by done. cbn [negb]. apply does_ret. eapply append_fail; [done|exact Hw3|done|]. intros Hre. specialize (Hrel Hre). lia. }
  intros w3 Hp31 Hw3. cbn [negb Z.eqb SQLITE_OK]. apply does_bind. eapply does_write; [exact Hw3|refs_eq| |].
  { intros rc w4 Hrc Hrel Hw4. rewrite (proj2 (Z.eqb_neq _ SQLITE_OK)) by done. cbn [negb]. apply does_bind. eapply does_release; [exact Hw4|refs_eq|]. intros w5 Hw5. apply does_ret. eapply append_fail; [done|eapply prep_refs; [exact Hw5|refs_eq]|done|]. intros Hre. by destruct (Hrel Hre). }
  intros w4 dp Hw4 _. cbn [negb Z.eqb SQLITE_OK]. apply does_bind, does_ret, does_ret. eexists _, _. cbn [fst snd Z.eqb]. split; [exact Hw4|]. split; [done|]. split; [done|]. intros _. exists [].
  set (h' := <[p := dp]> _). assert (forall q, q <> p -> q <> 1 -> h' !! q = h1 !! q) as Hh'. { intros q Hq Hq1. unfold h'. by rewrite lookup_insert_ne, lookup_delete_ne, lookup_insert_ne by done. }
  assert (h' !! 1 = Some (put4byte d 28 p)) as H1'. { unfold h'. rewrite lookup_insert_ne, lookup_delete_ne by lia. apply lookup_insert_eq. }
  assert (forall j, 0 <= j -> j < 28 \/ 32 <= j -> rd (put4byte d 28 p) j = rd d j) as Hj. { intros j Hj0 Hj. apply rd_splice_out; rewrite ?length_enc4; lia. }
  split; [|split; [|split; [|split; [lia|split; [done|split; [|split; [in_ws|intros u Huw _ Hun; specialize (Hws u Huw Hun); in_ws]]]]]]].
  - cbn [set_pager nPage]. rewrite Hn1. eapply (append_pages (nPage s) h r p h' d); [done|done|exact H1'|done|done|done|lia| |].
    + intros q Hq Hqn. rewrite Hh' by lia. by apply Hh.
    + intros Hi. destruct (Hnew Hi) as [Hs Hne]. rewrite Hh'; [done|done|]. destruct (next_page_spec (nPage s) ltac:(lia)). lia.
  - right. cbn [set_pager nPage]. split; [done|]. split; [done|]. split; [lia|]. split; [lia|done].
  - split.
    + intros q Hq _ Hqn. rewrite Hh' by lia. by apply Hh.
    + intros d0 Hd0. rewrite Hd in Hd0. injection Hd0 as <-. exists (put4byte d 28 p). split; [done|]. split; [done|]. intros j Hj0 Hj1. apply Hj; lia.
  - unfold h'. rewrite lookup_insert_eq. eauto.
Qed.

Lemma alloc_append_ok s h ws r : prep (pPager s) h ws r -> pages_ok (nPage s) h r [] -> does (alloc_append pBt bDoTruncate) s (append_post s h ws r).
Proof.
  intros Hw Hok. pose proof (po_size _ _ _ _ Hok) as Hn. destruct (appended_spec (nPage s) Hn) as (Ha & _ & _ & Hq). pose proof (po_one _ _ _ _ Hok) as Hr1. destruct (po_list _ _ _ _ Hok) as (d & Hd & _).
  unfold alloc_append. set (flags := if bDoTruncate then 0 else PAGER_GET_NOCONTENT). apply does_bind. eapply does_write; [exact Hw|done| |].
  { intros rc w Hrc Hrel Hw1. rewrite (proj2 (Z.eqb_neq _ SQLITE_OK)) by done. cbn [negb]. apply does_ret. eapply append_fail; [done|exact Hw1|done|naive_solver]. }
  intros w1 d0 Hw1 Hd0. rewrite (Hd0 d Hd), insert_id in Hw1 by done. cbn [negb Z.eqb SQLITE_OK]. apply does_bind, does_mod, does_bind, does_get, does_bind. cbn [set_pager set_nPage nPage].
  pose proof (next_page_spec (nPage s) ltac:(lia)) as (H1 & _). set (n1 := next_page pBt (nPage s)) in *. unfold appended in *. fold n1 in Ha, Hq. destruct (autoVacuum pBt && PTRMAP_ISPAGE pBt n1) eqn:Hi.
  - assert (r n1 = 0) as Hrp by (apply (po_refs _ _ _ _ Hok); right; lia). apply does_bind. eapply does_fetch_any; [exact Hw1|done| |].
    { intros rc w2 Hrc Hrel Hw2. rewrite !(proj2 (Z.eqb_neq _ SQLITE_OK)) by done. apply does_bind, does_ret. rewrite !(proj2 (Z.eqb_neq _ SQLITE_OK)) by done. apply does_bind, does_ret, does_ret. cbn [negb]. rewrite !(proj2 (Z.eqb_neq _ SQLITE_OK)) by done. cbn [negb]. apply does_ret. eapply append_fail; [done|exact Hw2|done|]. intros Hre. specialize (Hrel Hre). lia. }
    intros w2 Hn31 Hw2. cbn [Z.eqb SQLITE_OK]. apply does_bind, does_bind. eapply does_write; [exact Hw2|refs_eq| |].
    { intros rc w3 Hrc Hrel Hw3. apply does_bind. eapply does_release; [exact Hw3|refs_eq|]. intros w4 Hw4. apply does_ret. rewrite !(proj2 (Z.eqb_neq _ SQLITE_OK)) by done. apply does_bind, does_ret, does_ret. rewrite !(proj2 (Z.eqb_neq _ SQLITE_OK)) by done. cbn [negb]. apply does_ret.
      eapply append_fail; [done|eapply prep_refs; [exact Hw4|refs_eq]|done|naive_solver]. }
    intros w3 dn Hw3 _. apply does_bind. eapply does_release; [exact Hw3|refs_eq|]. intros w4 Hw4. apply does_ret. cbn [Z.eqb SQLITE_OK]. apply does_bind, does_mod, does_ret. cbn [negb Z.eqb SQLITE_OK].
    eapply append_last; [done| |done|eapply prep_refs; [exact Hw4|refs_eq]|in_ws|intros u Hu _; in_ws| | |].
    + unfold appended. fold n1. rewrite Hi. done.
    + by rewrite lookup_insert_ne, lookup_delete_ne by lia.
    + intros q Hqn. by rewrite lookup_insert_ne, lookup_delete_ne by lia.
    + intros _. fold n1. rewrite lookup_insert_eq. split; [eauto|]. unfold appended. fold n1. rewrite Hi. destruct (next_page_spec n1 ltac:(lia)). lia.
  - apply does_ret. cbn [negb Z.eqb SQLITE_OK]. eapply append_last; [done| |done|exact Hw1|in_ws|intros u Hu _; in_ws|done|done|].
    + unfold appended. fold n1. by rewrite Hi.
    + fold n1. congruence.
Qed.

(** ** Allocation *)

Definition mode_ok (n nearby eMode : Z) : Prop :=
  0 <= nearby < 2 ^ 32 /\ (eMode = BTALLOC_ANY \/ (0 < nearby /\ (eMode = BTALLOC_LE \/ (eMode = BTALLOC_EXACT /\ autoVacuum pBt = true /\ (nearby <= n -> mapped pBt nearby))))).

(** The page that was asked for can be found. *)
Definition feasible (n : Z) h F (nearby eMode : Z) : Prop :=
  n + 4 < 2 ^ 31 /\ (eMode = BTALLOC_LE -> F = [] \/ exists q, q ∈ frees F /\ q <= nearby) /\
  (eMode = BTALLOC_EXACT -> nearby <= n -> exists ty parent, entry pBt h nearby = Some (ty, parent) /\ 1 <= ty <= 5 /\ (ty = PTRMAP_FREEPAGE -> nearby ∈ frees F)).

Definition alloc_post (s : Db W) h ws r F (nearby eMode : Z) (x : Z * Z) (s' : Db W) : Prop := exists h' ws', prep (pPager s') h' ws' (if x.1 =? 0 then bump r x.2 1 else r) /\ others s s' /\
  (x.1 <> 0 -> reliable (W := W) -> ~ feasible (nPage s) h F nearby eMode) /\
  (x.1 = 0 -> allocated s h ws r F x.2 s' h' ws' /\ (eMode = BTALLOC_EXACT -> nearby ∈ frees F -> x.2 = nearby) /\ (eMode = BTALLOC_LE -> F <> [] -> x.2 <= nearby)).

Lemma alloc_fail s h ws r F nearby eMode rc p s' h' ws' : rc <> 0 -> prep (pPager s') h' ws' r -> others s s' -> (reliable (W := W) -> ~ feasible (nPage s) h F nearby eMode) -> alloc_post s h ws r F nearby eMode (rc, p) s'.
Proof. intros Hrc Hp Ho Hf. exists h', ws'. cbn [fst]. rewrite (proj2 (Z.eqb_neq rc 0) Hrc). done. Qed.

Lemma frees_fit n h r F : pages_ok n h r F -> Z.of_nat (length (frees F)) < n.
Proof.
  intros Hok. pose proof (po_size _ _ _ _ Hok). assert (frees F ⊆+ seqZ 2 (n - 1)) as Hs. { apply NoDup_submseteq; [apply Hok|]. intros p Hp%(po_range _ _ _ _ Hok). apply elem_of_seqZ. lia. }
  apply submseteq_length in Hs. rewrite length_seqZ in Hs. lia.
Qed.

Lemma frees_nil F : length (frees F) = 0%nat -> F = [].
Proof. destruct F as [|[t ls] F]; [done|]. by rewrite frees_cons. Qed.

Lemma alloc_search_ok s h ws r F nearby eMode : prep (pPager s) h ws r -> pages_ok (nPage s) h r F -> mode_ok (nPage s) nearby eMode ->
  does (alloc_search pBt (nPage s) nearby eMode) s (fun x s' => exists w, s' = set_pager s w /\ prep w h ws r /\ (x.1 <> 0 -> reliable (W := W) -> ~ feasible (nPage s) h F nearby eMode) /\
    (x.1 = 0 -> (x.2 = true -> (eMode = BTALLOC_EXACT \/ eMode = BTALLOC_LE) /\ 0 < nearby) /\ (eMode = BTALLOC_LE -> x.2 = true) /\ (eMode = BTALLOC_EXACT -> nearby ∈ frees F -> x.2 = true) /\
      (x.2 = true -> feasible (nPage s) h F nearby eMode -> F <> [] -> (eMode = BTALLOC_EXACT /\ nearby ∈ frees F) \/ (eMode = BTALLOC_LE /\ exists p, p ∈ frees F /\ p <= nearby)))).
Proof.
  intros Hw Hok (Hn & Hm). unfold alloc_search. assert (forall w, w = pPager s -> s = set_pager s w) as Hs by (intros w ->; by destruct s).
  destruct Hm as [->|[Hn0 [->|(-> & Hav & Hmap)]]]; cbn [Z.eqb BTALLOC_ANY BTALLOC_EXACT BTALLOC_LE Pos.eqb].
  - apply does_ret. exists (pPager s). split; [by apply Hs|]. split; [done|]. split; [done|]. intros _. split; [done|]. split; [done|]. split; [done|]. done.
  - apply does_ret. exists (pPager s). split; [by apply Hs|]. split; [done|]. split; [done|]. intros _. cbn [snd]. split; [by auto|]. split; [done|]. split; [done|]. intros _ (_ & Hf & _) HF. right. split; [done|]. by destruct (Hf eq_refl).
  - destruct (Z.leb_spec nearby (nPage s)) as [Hle|Hgt].
    + specialize (Hmap Hle). destruct (mapped_spec pBt Hsz nearby Hmap) as (Hr & Hi & _). assert (is_Some (h !! ptrmapPageno pBt nearby)) as Hsome by (apply (po_map _ _ _ _ Hok); [done|lia|done]).
      apply does_bind. eapply does_mono; [apply (ptrmapGet_ok pBt Hsz nearby s h ws r Hw Hmap Hsome), Hok|]. intros [[rc ty] pa] s' (w & -> & Hw' & He & Hbad). apply does_ret. exists w. split; [done|]. split; [done|]. cbn [fst snd]. split.
      * intros Hrc Hre (_ & _ & Hf). destruct (Hf eq_refl Hle) as (ty' & pa' & He' & Hty & _). destruct (Hbad Hrc Hre _ _ He'); lia.
      * intros ->. specialize (He eq_refl). split; [by auto|]. split; [done|]. split.
        -- intros _ Hin. destruct (po_type _ _ _ _ Hok nearby Hav Hin) as [pa' He']. rewrite He in He'. injection He' as -> _. done.
        -- intros ->%Z.eqb_eq (_ & _ & Hf) _. left. split; [done|]. destruct (Hf eq_refl Hle) as (ty' & pa' & He' & _ & Hin). rewrite He in He'. injection He' as <- <-. by apply Hin.
    + apply does_ret. exists (pPager s). split; [by apply Hs|]. split; [done|]. split; [done|]. intros _. split; [done|]. split; [done|]. split; [|done]. intros _ Hin%(po_range _ _ _ _ Hok). lia.
Qed.

(** Pages of the pointer map are not free. *)
Lemma map_not_free n h r F q : pages_ok n h r F -> autoVacuum pBt = true -> PTRMAP_ISPAGE pBt q = true -> q ∉ frees F.
Proof. intros Hok Hav Hi Hq%(po_range _ _ _ _ Hok). destruct Hq as [_ [_ Hr]]. rewrite Hr in Hi; congruence. Qed.

Lemma entry_same n h r F h' p : pages_ok n h r F -> (forall q, q <> 1 -> q ∉ frees F -> q <= n -> h' !! q = h !! q) -> autoVacuum pBt = true -> mapped pBt p -> p <= n -> entry pBt h' p = entry pBt h p.
Proof.
  intros Hok Hh Hav Hp Hn. destruct (mapped_spec pBt Hsz p Hp) as (Hr & Hi & _). unfold entry. rewrite Hh; [done|lia| |lia]. by apply (map_not_free n h r).
Qed.

Lemma pages_taken n h r F d h' p F' : pages_ok n h r F -> h !! 1 = Some d -> bytes d -> us <= Z.of_nat (length d) -> F <> [] ->
  changed (<[1 := put4byte d 36 (Z.of_nat (length (frees F)) - 1)]> h) h' (frees F) -> list_at pBt h' F' 0 -> frees F ≡ₚ p :: frees F' ->
  pages_ok n h' (bump r p 1) F' /\ untouched n h h' (frees F) /\ 2 <= p /\ regular pBt p.
Proof.
  intros Hok Hd Hb Hl HF [Hch1 Hch2] Hla HP'. destruct Hsz as [Hps Hu]. assert (p ∈ frees F) as HpF by (rewrite HP'; left). destruct (po_range _ _ _ _ Hok p HpF) as [Hp Hreg]. pose proof (frees_fit _ _ _ _ Hok) as Hfit. pose proof (po_size _ _ _ _ Hok) as Hn.
  destruct (Hch2 _ (lookup_insert_eq _ _ _)) as (d' & Hd' & Hl' & Hj). rewrite length_put4byte in Hl' by lia.
  assert (forall q, q ∈ frees F' -> q ∈ frees F) as Hsub by (intros q Hq; rewrite HP'; by right). assert (NoDup (p :: frees F')) as Hnd by (rewrite <- HP'; apply Hok). apply NoDup_cons in Hnd as [Hnp Hnd].
  assert (forall q, q <> 1 -> q ∉ frees F -> h' !! q = h !! q) as Hh by (intros q Hq1 HqF; rewrite Hch1 by done; by apply lookup_insert_ne).
  split; [|split; [split|split; [lia|done]]].
  - split; [done|intros d0 Hd0|done|intros q Hq; by apply (po_range _ _ _ _ Hok), Hsub|intros q Hq|..|lia|intros q Hav Hq Hi|intros q Hav Hq].
    + rewrite Hd' in Hd0. injection Hd0 as <-. rewrite (get4_ext d' (put4byte d 36 (Z.of_nat (length (frees F)) - 1)) 36 36) by (intros; try apply Hj; lia). rewrite get4_put4; [|lia|lia|].
      * rewrite HP'. cbn [length]. lia.
      * assert (0 < length (frees F))%nat by (rewrite HP'; cbn; lia). unfold is_u. lia.
    + unfold bump. destruct (Z.eqb_spec q p) as [->|]; [destruct Hq; [done|lia]|]. apply (po_refs _ _ _ _ Hok). destruct Hq; [left; auto|by right].
    + unfold bump. pose proof (po_one _ _ _ _ Hok). destruct (1 =? p); lia.
    + intros q. unfold bump. pose proof (po_pos _ _ _ _ Hok q). destruct (q =? p); lia.
    + rewrite Hh; [by apply (po_map _ _ _ _ Hok)|lia|by apply (map_not_free n h r)].
    + pose proof (Hsub q Hq) as HqF. destruct (po_range _ _ _ _ Hok q HqF) as [Hqn Hqr]. destruct (free_mapped _ _ _ _ q Hok Hav Hqn Hqr) as [Hm _]. rewrite (entry_same n h r F h' q); [by apply (po_type _ _ _ _ Hok)|done| |done|done|lia]. intros; by apply Hh.
  - intros q Hq1 HqF _. by apply Hh.
  - intros d0 Hd0. rewrite Hd in Hd0. injection Hd0 as <-. exists d'. split; [done|]. split; [lia|]. intros j Hj0 Hj1. rewrite Hj by lia. apply rd_splice_out; rewrite ?length_enc4; lia.
Qed.

Lemma alloc_end_ok s h ws r F nearby eMode p s1 h' ws' : pages_ok (nPage s) h r F -> prep (pPager s1) h' ws' (bump r p 1) -> others s s1 -> allocated s h ws r F p s1 h' ws' ->
  (eMode = BTALLOC_EXACT -> nearby ∈ frees F -> p = nearby) -> (eMode = BTALLOC_LE -> F <> [] -> p <= nearby) -> does (alloc_end 0 p) s1 (alloc_post s h ws r F nearby eMode).
Proof.
  intros Hok Hw Ho Hal Hex Hle. unfold alloc_end. cbn [Z.eqb SQLITE_OK]. apply does_bind, does_get. rewrite (pr_refs _ _ _ _ Hw).
  assert (r p = 0) as Hrp. { apply (po_refs _ _ _ _ Hok). destruct Hal as (F' & _ & [[HP' _]|(_ & _ & Hp & _)] & _); [left; rewrite HP'; left|right; lia]. }
  unfold bump at 1. rewrite Z.eqb_refl, Hrp. cbn [Z.add Z.ltb Z.compare Pos.compare Pos.compare_cont]. apply does_bind, does_mod, does_ret. exists h', ws'. cbn [fst snd Z.eqb SQLITE_OK]. split; [exact Hw|]. split; [done|]. split; [done|]. intros _. split; [exact Hal|]. done.
Qed.

Lemma allocateBtreePage_ok fuel s h ws r F nearby eMode : prep (pPager s) h ws r -> pages_ok (nPage s) h r F -> (length F < fuel)%nat -> mode_ok (nPage s) nearby eMode ->
  does (allocateBtreePage pBt bDoTruncate fuel nearby eMode) s (alloc_post s h ws r F nearby eMode).
Proof.
  intros Hw Hok Hfu Hm. destruct (po_list _ _ _ _ Hok) as (d & Hd & _). destruct (prep_good _ _ _ _ _ _ Hw Hd) as [Hb Hl]. pose proof (frees_fit _ _ _ _ Hok) as Hfit. pose proof (po_size _ _ _ _ Hok) as Hn. pose proof (po_one _ _ _ _ Hok) as Hr1. destruct Hsz as [Hps Hu].
  unfold allocateBtreePage. apply does_bind, does_get, does_bind. eapply does_load; [exact Hw|done|]. rewrite (po_count _ _ _ _ Hok d Hd). rewrite (proj2 (Z.leb_gt _ _)) by lia.
  destruct (Z.ltb_spec 0 (Z.of_nat (length (frees F)))) as [Hk|Hk].
  - assert (F <> []) as HF by (intros ->; cbn in Hk; lia). apply does_bind. eapply does_mono; [apply (alloc_search_ok s h ws r F nearby eMode Hw Hok Hm)|]. intros [rc search] s' (w & -> & Hw1 & Hfail & Hok1). cbn [fst snd] in *.
    destruct (Z.eqb_spec rc SQLITE_OK) as [->|Hrc]; cbn [negb]; [|apply does_ret; eapply alloc_fail; [done|exact Hw1|done|by apply Hfail]]. destruct (Hok1 eq_refl) as (Hmode & Hle & Hex & Hwant). clear Hok1.
    apply does_bind. eapply does_write; [exact Hw1|done| |].
    { intros rc w2 Hrc Hrel Hw2. rewrite (proj2 (Z.eqb_neq _ SQLITE_OK)) by done. cbn [negb]. apply does_ret. eapply alloc_fail; [done|exact Hw2|done|naive_solver]. }
    intros w2 d0 Hw2 Hd0. rewrite (Hd0 d Hd), insert_id in Hw2 by done. cbn [negb Z.eqb SQLITE_OK]. apply does_bind. eapply does_load; [exact Hw2|done|]. set (d1 := put4byte d 36 _).
    assert (length d1 = length d) as Hl1 by (apply length_put4byte; lia). apply does_bind. eapply does_store; [exact Hw2|done|in_ws|done|by apply bytes_put4byte|done|]. intros w3 Hw3. apply does_bind.
    eapply does_mono; [apply (alloc_loop_ok pBt Hsz (nPage s) nearby eMode search (<[1 := d1]> h) ({[1]} ∪ ws) r F) with (A := []) (B := F) (s0 := s)|].
    + destruct (po_list _ _ _ _ Hok) as (d0' & Hd0' & Hs). rewrite Hd in Hd0'. injection Hd0' as <-. exists d1. rewrite lookup_insert_eq. split; [done|]. unfold d1. rewrite get4_put4_ne by lia.
      apply (seg_ext pBt h); [done|]. intros t Ht%trunks_frees%(po_range _ _ _ _ Hok). apply lookup_insert_ne. lia.
    + apply Hok.
    + intros p Hp%(po_range _ _ _ _ Hok). lia.
    + lia.
    + intros p Hp. apply (po_refs _ _ _ _ Hok). by left.
    + done.
    + apply Hok.
    + in_ws.
    + exact Hmode.
    + destruct Hm as [Hm0 _]. unfold is_u. lia.
    + done.
    + done.
    + by exists w3.
    + intros _. done.
    + by intros _ p ?%not_elem_of_nil.
    + intros [rc p t pv|] s' (w4 & -> & Hend); [|done]. destruct Hend as (h' & ws' & Hw4 & Hfl & Hgood). apply does_bind. eapply does_release_opt; [exact Hw4| |].
      { intros q ->. cbn [held]. pose proof (po_pos _ _ _ _ Hok q). destruct (rc =? 0); refs_eq. }
      intros w5 Hw5. apply does_bind. eapply does_release_opt; [exact Hw5| |].
      { intros q ->. pose proof (po_pos _ _ _ _ Hok q). destruct (rc =? 0), t; refs_eq. }
      intros w6 Hw6. assert (prep w6 h' ws' (if rc =? 0 then bump r p 1 else r)) as Hw7. { eapply prep_refs; [exact Hw6|]. destruct (rc =? 0), t, pv; refs_eq. }
      destruct (Z.eqb_spec rc 0) as [->|Hrc].
      * destruct (Hgood eq_refl) as (F' & Hla & HP' & Hch & Hsome & Hpw & Hwk & Hcho). destruct (pages_taken (nPage s) h r F d h' p F' Hok Hd Hb ltac:(lia) HF Hch Hla HP') as (Hok' & Hun & Hp2 & Hpr).
        eapply alloc_end_ok; [done|exact Hw7|done| | |].
        -- exists F'. split; [done|]. split; [by left|]. do 5 (split; [done|]). intros u Huw HuF _. apply Hwk; [in_ws|done].
        -- intros E Hin. destruct (Hcho (Hex E Hin)) as [?|[_ E']]; [done|]. rewrite E in E'. discriminate E'.
        -- intros E _. destruct (Hcho (Hle E)) as [?|[? _]]; lia.
      * unfold alloc_end. rewrite (proj2 (Z.eqb_neq rc SQLITE_OK)) by done. apply does_ret. eapply alloc_fail; [done|exact Hw7|done|]. intros Hre Hfe. apply (Hfl Hrc Hre). intros Hse. by apply Hwant.
  - assert (F = []) as -> by (apply frees_nil; lia). apply does_bind. eapply does_mono; [apply (alloc_append_ok s h ws r Hw Hok)|]. intros [rc p] s' (h' & ws' & Hw' & Ho & Hf & Hgood). cbn [fst snd] in *. destruct (Z.eqb_spec rc 0) as [->|Hrc].
    + eapply alloc_end_ok; [done|done|done|by apply Hgood|by intros _ ?%not_elem_of_nil|done].
    + unfold alloc_end. rewrite (proj2 (Z.eqb_neq rc SQLITE_OK)) by done. apply does_ret. eapply alloc_fail; [done|done|done|]. intros Hre (Hn4 & _). specialize (Hf Hrc Hre). lia.
Qed.
End store.
