(* ===== verification/BtFree.v ===== *)
(** freePage2 on a database whose list of free pages is in order, and the pages whose content must be kept for a rollback. *)
From S2P Require Import Prelude Varint IntArith Bitvec Mem Page PageSpace Pager BtPages BtRep BtPtrmap BtList BtAlloc BtStore.
Local Open Scope Z_scope.
Local Open Scope c_scope.

(** * Pages with content *)

Definition content_wf (b : option Bitvec) : Prop := forall v, b = Some v -> bv_wf v.
(** The page is fetched with its content when it is allocated. *)
Definition has_content (b : option Bitvec) (p : Z) : Prop := match b with Some v => iSize v < p \/ bv_elem v p | None => False end.

Section content.
Context {W : Type} {ops : PagerOps W} (alloc : nat -> bool).

Lemma btreeGetHasContent_ok p (s : Db W) : content_wf (pHasContent s) -> 0 <= p -> does (btreeGetHasContent p) s (fun b s' => s' = s /\ (b = true <-> has_content (pHasContent s) p)).
Proof.
  intros Hwf Hp. eexists _, _. split; [reflexivity|]. split; [done|]. destruct (pHasContent s) as [v|]; [|done]. cbn [has_content]. rewrite orb_true_iff, Z.ltb_lt, negb_true_iff, Z.eqb_neq.
  unfold sqlite3BitvecSize. destruct (test_elem v p (Hwf v eq_refl) Hp) as [[-> ?]|[-> ?]]; naive_solver.
Qed.

Lemma btreeSetHasContent_ok p (s : Db W) : content_wf (pHasContent s) -> 1 <= p -> 0 <= nPage s < 2 ^ 32 ->
  does (btreeSetHasContent alloc p) s (fun rc s' => s' = set_hasContent s (pHasContent s') (nAlloc s') /\ content_wf (pHasContent s') /\ (rc <> 0 -> exists k, alloc k = false) /\
    (rc = 0 -> has_content (pHasContent s') p /\ forall q, has_content (pHasContent s) q -> has_content (pHasContent s') q)).
Proof.
  intros Hwf Hp Hn. unfold does, btreeSetHasContent.
  assert (forall v k, bv_wf v -> (forall q, has_content (pHasContent s) q -> has_content (Some v) q) -> exists rc s', (if (SQLITE_OK =? SQLITE_OK) && (p <=? sqlite3BitvecSize v) then let '(rc, b, k) := sqlite3BitvecSet alloc (Some v) p k in Some (rc, set_hasContent s b k)
      else Some (SQLITE_OK, set_hasContent s (Some v) k)) = Some (rc, s') /\ s' = set_hasContent s (pHasContent s') (nAlloc s') /\ content_wf (pHasContent s') /\ (rc <> 0 -> exists k, alloc k = false) /\
    (rc = 0 -> has_content (pHasContent s') p /\ forall q, has_content (pHasContent s) q -> has_content (pHasContent s') q)) as Hset.
  { intros v k Hv Hq. change (SQLITE_OK =? SQLITE_OK) with true. cbn [andb]. unfold sqlite3BitvecSize. destruct (Z.leb_spec p (iSize v)) as [Hle|Hgt].
    - destruct (set_some alloc v p k Hv ltac:(lia)) as (rc & v' & k' & -> & Hv' & Hiz & Hrc & Hsub & Hsup). eexists _, _. split; [reflexivity|]. split; [done|]. split; [by intros ? [= <-]|]. split.
      + destruct Hrc as [->|[_ ?]]; [done|auto].
      + intros ->. cbn [pHasContent set_hasContent has_content]. rewrite Hiz. split; [right; split; [lia|by apply Hsup; [|left]]|]. intros q Hqc. destruct (Hq q Hqc) as [?|[? ?]]; [by left|]. right. split; [by rewrite Hiz|apply Hsup; auto].
    - eexists _, _. split; [reflexivity|]. split; [done|]. split; [by intros ? [= <-]|]. split; [done|]. intros _. split; [left; lia|done]. }
  destruct (pHasContent s) as [v|] eqn:E; [apply Hset; [by apply Hwf|done]|]. unfold sqlite3BitvecCreate. destruct (alloc (nAlloc s)) eqn:Ea.
  - apply Hset; [by apply new_wf|by intros q []].
  - eexists _, _. split; [reflexivity|]. split; [done|]. split; [done|]. split; [by eauto|]. intros [=].
Qed.

End content.

(** * Freeing a page *)

Section free.
Context {W : Type} {ops : PagerOps W} (pBt : BtShared) {HP : Pager W (pageSize pBt)} (Hsz : sizes_ok pBt) (alloc : nat -> bool).
Abbreviation us := (usableSize pBt).

(** The references of the caller to page [p] do not count. *)
Definition clear_ref (r : Z -> Z) (p : Z) : Z -> Z := fun q => if q =? p then 0 else r q.

Record freed (n : Z) (h : gmap Z (list Z)) (r : Z -> Z) (F : flist) (b : option Bitvec) (p : Z) (h' : gmap Z (list Z)) (F' : flist) (b' : option Bitvec) : Prop := {
  fr_ok : pages_ok pBt n h' (clear_ref r p) F';
  fr_frees : frees F' ≡ₚ p :: frees F;
  fr_page q : q <> 1 -> q <> p -> q ∉ frees F -> (autoVacuum pBt = true -> q <> ptrmapPageno pBt p) -> h' !! q = h !! q;
  fr_one d : h !! 1 = Some d -> exists d', h' !! 1 = Some d' /\ length d' = length d /\ forall j, 0 <= j -> j < 32 \/ 40 <= j -> rd d' j = rd d j;
  fr_entry q : autoVacuum pBt = true -> mapped pBt q -> q <= n -> q <> p -> entry pBt h' q = entry pBt h q;
  fr_map : autoVacuum pBt = true -> is_Some (h' !! ptrmapPageno pBt p);
  fr_content q : has_content b q -> has_content b' q;
  fr_leaf : p ∉ trunks F' -> has_content b' p }.

Definition free_post (s : Db W) h r F p (rc : Z) (s' : Db W) : Prop := exists h' ws', prep (pPager s') h' ws' r /\ nPage s' = nPage s /\ content_wf (pHasContent s') /\
  (rc <> 0 -> reliable (W := W) -> (forall k, alloc k = true) -> False) /\ (rc = 0 -> exists F', freed (nPage s) h r F (pHasContent s) p h' F' (pHasContent s')).

Context (s0 : Db W) (h : gmap Z (list Z)) (r : Z -> Z) (F : flist) (p : Z).
Context (Hok : pages_ok pBt (nPage s0) h r F) (Hp : 2 <= p <= nPage s0) (Hreg : regular pBt p) (HpF : p ∉ frees F) (Hwf : content_wf (pHasContent s0)).

Lemma free_out_ok rc b t s h' ws' : prep (pPager s) h' ws' (held (if b : bool then bump r p 1 else r) t) -> nPage s = nPage s0 -> content_wf (pHasContent s) ->
  (rc <> 0 -> reliable (W := W) -> (forall k, alloc k = true) -> False) -> (rc = 0 -> exists F', freed (nPage s0) h r F (pHasContent s0) p h' F' (pHasContent s)) -> does (free_out rc p b t) s (free_post s0 h r F p).
Proof.
  intros Hw Hn Hc Hf Hg. unfold free_out. pose proof (po_pos _ _ _ _ _ Hok p) as Hrp. assert (forall q, 0 <= r q) as Hr0 by apply Hok.
  assert (forall s2, prep (pPager s2) h' ws' (held r t) -> nPage s2 = nPage s0 -> pHasContent s2 = pHasContent s -> does (releaseOpt t ;; mret rc) s2 (free_post s0 h r F p)) as Hend.
  { intros s2 Hw2 Hn2 Hc2. apply does_bind. eapply does_release_opt; [exact Hw2|intros q ->; pose proof (Hr0 q); refs_eq|]. intros w3 Hw3. apply does_ret. exists h', ws'. split; [eapply prep_refs; [exact Hw3|refs_eq]|]. cbn [set_pager pHasContent nPage]. rewrite Hc2. done. }
  apply does_bind. destruct b.
  - apply does_bind, does_mod. eapply does_release; [exact Hw|refs_eq|]. intros w2 Hw2. apply Hend; [|done|done]. eapply prep_refs; [exact Hw2|refs_eq].
  - apply does_ret. by apply Hend.
Qed.

Lemma free_out_fail rc b t s h' ws' : prep (pPager s) h' ws' (held (if b : bool then bump r p 1 else r) t) -> nPage s = nPage s0 -> content_wf (pHasContent s) -> rc <> 0 ->
  (reliable (W := W) -> (forall k, alloc k = true) -> False) -> does (free_out rc p b t) s (free_post s0 h r F p).
Proof. intros. eapply free_out_ok; [done|done|done|done|done]. Qed.

(** The state [h2] in which the list is changed: the count is that of the longer list, and the entry of the page is written. *)
Record counted (h2 : gmap Z (list Z)) : Prop := {
  co_list : list_at pBt h2 F 0;
  co_one : exists d d2, h !! 1 = Some d /\ h2 !! 1 = Some d2 /\ length d2 = length d /\ bytes d2 /\ get4byte d2 36 = Z.of_nat (length (frees F)) + 1 /\ forall j, 0 <= j -> j < 36 \/ 40 <= j -> rd d2 j = rd d j;
  co_page q : q <> 1 -> q <> p -> (autoVacuum pBt = true -> q <> ptrmapPageno pBt p) -> h2 !! q = h !! q;
  co_entry q : autoVacuum pBt = true -> mapped pBt q -> q <= nPage s0 -> q <> p -> entry pBt h2 q = entry pBt h q;
  co_map : autoVacuum pBt = true -> is_Some (h2 !! ptrmapPageno pBt p) /\ exists parent, entry pBt h2 p = Some (PTRMAP_FREEPAGE, parent) }.

Lemma map_apart q : autoVacuum pBt = true -> 2 <= q <= nPage s0 -> PTRMAP_ISPAGE pBt q = true -> q <> 1 /\ q <> p /\ q ∉ frees F.
Proof. intros Hav Hq Hi. split; [lia|]. split; [|by eapply map_not_free]. intros ->. destruct Hreg as [_ Hr]. rewrite Hr in Hi; congruence. Qed.

Lemma freed_intro h2 h' F' b' : counted h2 -> changed h2 h' (p :: frees F) -> list_at pBt h' F' 0 -> frees F' ≡ₚ p :: frees F ->
  (forall q, has_content (pHasContent s0) q -> has_content b' q) -> (p ∉ trunks F' -> has_content b' p) -> freed (nPage s0) h r F (pHasContent s0) p h' F' b'.
Proof.
  intros Hco [Hch1 Hch2] Hla HP' Hhc Hleaf. destruct (co_one _ Hco) as (d & d2 & Hd & Hd2 & Hl2 & _ & Hc2 & Hj2). destruct (Hch2 d2 Hd2) as (d' & Hd' & Hl' & Hj').
  assert (forall q, autoVacuum pBt = true -> 2 <= q <= nPage s0 -> PTRMAP_ISPAGE pBt q = true -> h' !! q = h2 !! q) as Hmp.
  { intros q Hav Hq Hi. destruct (map_apart q Hav Hq Hi) as (? & ? & ?). apply Hch1; [done|]. by rewrite elem_of_cons; intros [?|?]. }
  assert (forall q, autoVacuum pBt = true -> mapped pBt q -> q <= nPage s0 -> entry pBt h' q = entry pBt h2 q) as He.
  { intros q Hav Hm Hq. destruct (mapped_spec pBt Hsz q Hm) as (Hr & Hi & _). unfold entry. rewrite Hmp; [done|done|lia|done]. }
  assert (autoVacuum pBt = true -> mapped pBt p /\ 2 <= ptrmapPageno pBt p <= nPage s0 /\ PTRMAP_ISPAGE pBt (ptrmapPageno pBt p) = true) as Hpm.
  { intros Hav. destruct (free_mapped pBt Hsz _ _ _ _ p Hok Hav Hp Hreg) as [Hm _]. destruct (mapped_spec pBt Hsz p Hm) as (Hr & Hi & _). split; [done|]. split; [lia|done]. }
  split; [|done| | | | |done|done].
  - split; [done|intros d0 Hd0| |intros q Hq|intros q Hq|..|apply Hok|intros q Hav Hq Hi|intros q Hav Hq].
    + rewrite Hd' in Hd0. injection Hd0 as <-. rewrite (get4_ext d' d2 36 36) by (intros; try apply Hj'; lia). rewrite Hc2, HP'. cbn [length]. lia.
    + rewrite HP'. constructor; [done|apply Hok].
    + rewrite HP' in Hq. apply elem_of_cons in Hq as [->|Hq]; [done|]. by apply (po_range _ _ _ _ _ Hok).
    + unfold clear_ref. destruct (Z.eqb_spec q p) as [->|]; [done|]. rewrite HP' in Hq. apply (po_refs _ _ _ _ _ Hok). destruct Hq as [[?|?]%elem_of_cons|?]; [done|by left|by right].
    + unfold clear_ref. pose proof (po_one _ _ _ _ _ Hok). rewrite (proj2 (Z.eqb_neq 1 p)) by lia. done.
    + intros q. unfold clear_ref. pose proof (po_pos _ _ _ _ _ Hok q). destruct (q =? p); lia.
    + rewrite Hmp by done. destruct (decide (q = ptrmapPageno pBt p)) as [->|Hne]; [by apply (co_map _ Hco Hav)|]. destruct (map_apart q Hav Hq Hi) as (? & ? & ?). rewrite (co_page _ Hco) by done. by apply (po_map _ _ _ _ _ Hok).
    + rewrite HP' in Hq. apply elem_of_cons in Hq as [->|Hq].
      * destruct (Hpm Hav) as [Hm _]. rewrite He by (done || lia). by apply (co_map _ Hco Hav).
      * destruct (po_range _ _ _ _ _ Hok q Hq) as [Hqn Hqr]. destruct (free_mapped pBt Hsz _ _ _ _ q Hok Hav Hqn Hqr) as [Hm _]. rewrite He by (done || lia). rewrite (co_entry _ Hco); [by apply (po_type _ _ _ _ _ Hok)|done|done|lia|]. by intros ->.
  - intros q H1 Hqp HqF Hqm. rewrite Hch1; [by apply (co_page _ Hco)|done|]. by rewrite elem_of_cons; intros [?|?].
  - intros d0 Hd0. rewrite Hd in Hd0. injection Hd0 as <-. exists d'. split; [done|]. split; [congruence|]. intros j Hj0 Hj. rewrite Hj', Hj2 by lia. done.
  - intros q Hav Hm Hq Hne. rewrite He by done. by apply (co_entry _ Hco).
  - intros Hav. destruct (Hpm Hav) as (_ & Hr & Hi). rewrite Hmp by done. by apply (co_map _ Hco Hav).
Qed.


Lemma trunk_not u : u ∈ trunks F -> u <> p /\ u <> 1.
Proof. intros Hu%trunks_frees. split; [by intros ->|]. apply (po_range _ _ _ _ _ Hok) in Hu. lia. Qed.

Lemma free_trunk_ok b t iTrunk s h2 ws : prep (pPager s) h2 ws (held (if b : bool then bump r p 1 else r) t) -> counted h2 -> 1 ∈ ws -> (forall d2, h2 !! 1 = Some d2 -> get4byte d2 32 = iTrunk) -> t <> Some p ->
  nPage s = nPage s0 -> content_wf (pHasContent s) -> pHasContent s = pHasContent s0 -> does (free_trunk p iTrunk b t) s (free_post s0 h r F p).
Proof.
  intros Hw Hco H1 Hlink Htp Hn Hc Hceq. pose proof (po_pos _ _ _ _ _ Hok p) as Hrp. pose proof (po_one _ _ _ _ _ Hok) as Hr1. pose proof (po_size _ _ _ _ _ Hok) as Hn31. pose proof Hsz as [Hps Hu].
  destruct (co_one _ Hco) as (d & d2 & Hd & Hd2 & Hl2 & Hb2 & Hc2 & Hj2). assert (p <> 1) as Hp1 by lia. destruct (prep_good _ _ _ _ _ _ Hw Hd2) as [_ Hld2]. assert (forall q, 0 <= r q) as Hr0 by apply Hok.
  unfold free_trunk. apply does_bind.
  assert (forall s1, prep (pPager s1) h2 ws (held (bump r p 1) t) -> nPage s1 = nPage s0 -> pHasContent s1 = pHasContent s0 -> does (rc ← pagerWrite p;
    if negb (rc =? SQLITE_OK) then free_out rc p true t
    else d ← load p; store p (put4byte (put4byte d 0 iTrunk) 4 0) ;; p1 ← load 1; store 1 (put4byte p1 32 p) ;; free_out SQLITE_OK p true t) s1 (free_post s0 h r F p)) as Hgo.
  { intros s1 Hw1 Hn1 Hc1. apply does_bind. eapply does_write; [exact Hw1|refs_eq| |].
    { intros rc w Hrc Hrel Hw2. rewrite (proj2 (Z.eqb_neq _ SQLITE_OK)) by done. cbn [negb]. eapply free_out_fail; [exact Hw2|done|by cbn; rewrite Hc1, <- Hceq|done|naive_solver]. }
    intros w dp Hw2 _. cbn [negb Z.eqb SQLITE_OK]. apply does_bind. eapply does_load; [exact Hw2|apply lookup_insert_eq|]. destruct (prep_good _ _ _ _ _ _ Hw2 (lookup_insert_eq _ _ _)) as [Hbp Hlp].
    assert (is_u 32 iTrunk) as Hui by (rewrite <- (Hlink d2 Hd2); by apply get4_range). pose proof (trunk_made pBt ltac:(lia) dp iTrunk Hbp ltac:(lia) Hui) as Htm. set (dp' := put4byte (put4byte dp 0 iTrunk) 4 0) in *.
    assert (length dp' = length dp) as Hlp' by (unfold dp'; rewrite !length_put4byte; rewrite ?length_put4byte; lia).
    apply does_bind. eapply does_store; [exact Hw2|refs_eq|in_ws|apply lookup_insert_eq|apply Htm|done|]. intros w3 Hw3. rewrite insert_insert_eq in Hw3.
    assert ((<[p := dp']> h2) !! 1 = Some d2) as Hd3 by by rewrite lookup_insert_ne. apply does_bind. eapply does_load; [exact Hw3|exact Hd3|].
    apply does_bind. eapply does_store; [exact Hw3|refs_eq|in_ws|exact Hd3|by apply bytes_put4byte|apply length_put4byte; lia|]. intros w4 Hw4. eapply free_out_ok; [exact Hw4|done|by cbn; rewrite Hc1, <- Hceq|done|]. intros _. cbn [set_pager pHasContent]. rewrite Hc1. exists ((p, []) :: F).
    apply (freed_intro h2); [done| | |done|done|by intros []; left].
    - eapply changed_trans; [apply (changed_insert h2 p dp'); [left|done]|]. apply (changed_one _ d2); [done|apply length_put4byte; lia|]. intros j Hj0 Hj. apply rd_splice_out; rewrite ?length_enc4; lia.
    - eexists. rewrite lookup_insert_eq. split; [done|]. rewrite get4_put4 by (unfold is_u; lia). split; [done|]. exists dp', iTrunk. rewrite lookup_insert_ne, lookup_insert_eq by done. split; [done|]. split; [done|].
      destruct (co_list _ Hco) as (d0 & Hd0 & Hs). rewrite (Hlink d0 Hd0) in Hs. apply (seg_ext pBt h2); [done|]. intros u Hu'. destruct (trunk_not u Hu'). by rewrite !lookup_insert_ne. }
  destruct b; [apply does_ret; cbn [negb Z.eqb SQLITE_OK]; by apply Hgo|]. eapply does_fetch; [exact Hw|done| |].
  - intros rc w Hrc Hrel Hw1. rewrite (proj2 (Z.eqb_neq _ SQLITE_OK)) by done. cbn [negb]. eapply free_out_fail; [exact Hw1|done|done|done|]. intros Hre. destruct (Hrel Hre). lia.
  - intros w _ Hw1. cbn [negb Z.eqb SQLITE_OK]. apply Hgo; [|done|done]. eapply prep_refs; [exact Hw1|refs_eq].
Qed.

Lemma free_leaf_ok b t ls F0 s h2 ws : F = (t, ls) :: F0 -> prep (pPager s) h2 ws (bump (if b : bool then bump r p 1 else r) t 1) -> counted h2 -> Z.of_nat (length ls) < us / 4 - 8 ->
  nPage s = nPage s0 -> content_wf (pHasContent s) -> pHasContent s = pHasContent s0 -> does (free_leaf pBt alloc p t (Z.of_nat (length ls)) b) s (free_post s0 h r F p).
Proof.
  intros EF Hw Hco Hroom Hn Hc Hceq. pose proof (po_size _ _ _ _ _ Hok) as Hn31. pose proof Hsz as [Hps Hu]. assert (forall q, 0 <= r q) as Hr0 by apply Hok. pose proof (Hr0 t) as Hrt. pose proof (Hr0 p) as Hrp.
  destruct (trunk_not t) as [Htp Ht1]; [rewrite EF; left|]. destruct (co_list _ Hco) as (d1 & Hd1 & Hs). rewrite EF in Hs. destruct Hs as (Hlink & d & next & Hd & Ht & Hs).
  assert (is_u 32 p) as Hup by (unfold is_u; lia). pose proof (trunk_leaf_added pBt ltac:(lia) d next ls p Ht Hroom Hup) as Ht'. pose proof (tp_fits _ _ _ _ Ht) as Hf. pose proof (tp_length _ _ _ _ Ht) as Hld. pose proof (Z.mul_div_le us 4 ltac:(lia)).
  unfold free_leaf. apply does_bind. eapply does_write; [exact Hw|destruct b; refs_eq| |].
  { intros rc w Hrc Hrel Hw1. rewrite (proj2 (Z.eqb_neq _ SQLITE_OK)) by done. apply does_bind, does_ret. eapply free_out_fail; [exact Hw1|done|done|done|naive_solver]. }
  intros w1 d0 Hw1 Hd0. rewrite (Hd0 d Hd) in *. cbn [Z.eqb SQLITE_OK]. apply does_bind, does_bind. eapply does_load; [exact Hw1|apply lookup_insert_eq|]. set (d' := put4byte _ (8 + _) p) in *.
  assert (length d' = length d) as Hl' by (unfold d'; rewrite !length_put4byte; rewrite ?length_put4byte; lia). apply does_bind. eapply does_store; [exact Hw1|destruct b; refs_eq|in_ws|apply lookup_insert_eq|apply Ht'|done|]. intros w2 Hw2. rewrite insert_insert_eq in Hw2.
  assert (forall s1 h3 ws3, prep (pPager s1) h3 ws3 (bump (if b then bump r p 1 else r) t 1) -> h3 = <[t := d']> h2 \/ h3 = delete p (<[t := d']> h2) -> nPage s1 = nPage s0 -> pHasContent s1 = pHasContent s0 ->
    does (btreeSetHasContent alloc p) s1 (fun rc s' => does (free_out rc p b (Some t)) s' (free_post s0 h r F p))) as Hgo.
  { intros s1 h3 ws3 Hw3 Hh3 Hn1 Hc1. eapply does_mono; [apply btreeSetHasContent_ok; [by rewrite Hc1|lia|lia]|]. intros rc s' (-> & Hcw & Hfail & Hset). cbn [pHasContent set_hasContent] in *.
    eapply free_out_ok; [exact Hw3|done|done| |].
    - intros Hrc _ Hal. destruct (Hfail Hrc) as [k Hk]. by rewrite Hal in Hk.
    - intros Hrc. destruct (Hset Hrc) as [Hhp Hmono]. rewrite Hc1 in Hmono. exists ((t, ls ++ [p]) :: F0). apply (freed_intro h2); [done| | | |done|done].
      + assert (changed h2 (<[t := d']> h2) (p :: frees F)) as Hc2 by (apply changed_insert; [right; rewrite EF; left|done]). destruct Hh3 as [->| ->]; [done|]. eapply changed_trans; [exact Hc2|]. apply changed_delete; [left|lia].
      + assert (forall u, u <> t -> u <> p -> h3 !! u = h2 !! u) as Hh by (intros u Hut Hup'; destruct Hh3 as [->| ->]; rewrite ?lookup_delete_ne, ?lookup_insert_ne by done; done).
        exists d1. rewrite Hh by lia. split; [done|]. split; [done|]. exists d', next. split; [destruct Hh3 as [->| ->]; rewrite ?lookup_delete_ne, lookup_insert_eq by done; done|]. split; [done|]. apply (seg_ext pBt h2); [done|].
        intros u Hu'. assert (u ∈ trunks F) as HuF by (rewrite EF; by right). destruct (trunk_not u HuF) as [Hup' _]. apply Hh; [|done]. intros ->. pose proof (po_nodup _ _ _ _ _ Hok) as Hnd. rewrite EF, frees_cons in Hnd. apply NoDup_cons in Hnd as [Hnt _]. apply Hnt, elem_of_app. right. by apply trunks_frees.
      + rewrite EF, !frees_cons. solve_Permutation. }
  destruct (b && negb (secure_delete pBt)) eqn:Hdw.
  - apply does_bind. apply andb_true_iff in Hdw as [-> _]. eapply does_dont_write; [exact Hw2|refs_eq|]. intros w3 Hw3. eapply Hgo; [exact Hw3|by right|done|done].
  - apply does_bind, does_ret. eapply Hgo; [exact Hw2|by left|done|done].
Qed.

Lemma free_link_ok b s h2 ws : prep (pPager s) h2 ws (if b : bool then bump r p 1 else r) -> counted h2 -> 1 ∈ ws -> nPage s = nPage s0 -> pHasContent s = pHasContent s0 ->
  does (free_link pBt alloc p (Z.of_nat (length (frees F))) b) s (free_post s0 h r F p).
Proof.
  intros Hw Hco H1 Hn Hc. assert (content_wf (pHasContent s)) as Hcw by by rewrite Hc. pose proof (po_size _ _ _ _ _ Hok) as Hn31. unfold free_link. destruct (Z.eqb_spec (Z.of_nat (length (frees F))) 0) as [E|E].
  - assert (F = []) as EF by (apply frees_nil; lia). apply (free_trunk_ok b None 0 s h2 ws); try done. intros d2 Hd2. destruct (co_list _ Hco) as (d0 & Hd0 & Hs). rewrite EF in Hs. rewrite Hd2 in Hd0. by injection Hd0 as <-.
  - assert (exists t ls F0, F = (t, ls) :: F0) as (t & ls & F0 & EF). { clear -E. destruct F as [|[t ls] F0]; [done|]. by exists t, ls, F0. } destruct (co_list _ Hco) as (d1 & Hd1 & Hs). rewrite EF in Hs. destruct Hs as (Hlink & d & next & Hd & Ht & Hs). destruct (trunk_not t) as [Htp Ht1]; [rewrite EF; left|].
    apply does_bind. eapply does_load; [exact Hw|exact Hd1|]. rewrite Hlink. apply does_bind. eapply does_fetch; [exact Hw|done| |].
    { intros rc w Hrc Hrel Hw1. rewrite (proj2 (Z.eqb_neq _ SQLITE_OK)) by done. cbn [negb]. eapply free_out_fail; [exact Hw1|done|done|done|]. intros Hre. destruct (Hrel Hre). assert (t ∈ frees F) as HtF by (rewrite EF; left). apply (po_range _ _ _ _ _ Hok) in HtF. lia. }
    intros w1 _ Hw1. cbn [negb Z.eqb SQLITE_OK]. apply does_bind. eapply does_load; [exact Hw1|exact Hd|]. rewrite (tp_count _ _ _ _ Ht). rewrite (proj2 (Z.ltb_ge _ _)) by apply Ht.
    destruct (Z.ltb_spec (Z.of_nat (length ls)) (us / 4 - 8)) as [Hlt|Hge].
    + by eapply (free_leaf_ok b t ls F0 _ h2 ws).
    + eapply (free_trunk_ok b (Some t) t _ h2 ws); [exact Hw1|done|done| |congruence|done|done|done]. intros d2 Hd2. rewrite Hd1 in Hd2. by injection Hd2 as <-.
Qed.

(** The state in which the list is changed is reached when the entry of the pointer map is written. *)
Lemma counted_intro d h1 h3 : h !! 1 = Some d -> bytes d -> us <= Z.of_nat (length d) -> (forall q, q <> 1 -> q <> p -> h1 !! q = h !! q) -> h1 !! 1 = Some (put4byte d 36 (Z.of_nat (length (frees F)) + 1)) ->
  (autoVacuum pBt = false -> h3 = h1) ->
  (autoVacuum pBt = true -> entry pBt h3 p = Some (PTRMAP_FREEPAGE, 0) /\ (forall q, mapped pBt q -> q <> p -> entry pBt h3 q = entry pBt h1 q) /\ (forall q, q <> ptrmapPageno pBt p -> h3 !! q = h1 !! q) /\ is_Some (h3 !! ptrmapPageno pBt p)) -> counted h3.
Proof.
  intros Hd Hb Hl Hh H1 Hoff Hon. pose proof Hsz as [Hps Hu]. pose proof (frees_fit _ _ _ _ _ Hok) as Hfit. pose proof (po_size _ _ _ _ _ Hok) as Hn.
  assert (forall q, (autoVacuum pBt = true -> q <> ptrmapPageno pBt p) -> h3 !! q = h1 !! q) as H3. { intros q Hq. destruct (autoVacuum pBt); [apply Hon; auto|by rewrite Hoff]. }
  assert (autoVacuum pBt = true -> ptrmapPageno pBt p <> 1 /\ ptrmapPageno pBt p <> p /\ ptrmapPageno pBt p ∉ frees F) as Hpm.
  { intros Hav. destruct (free_mapped pBt Hsz _ _ _ _ p Hok Hav Hp Hreg) as [Hm _]. destruct (mapped_spec pBt Hsz p Hm) as (Hr & Hi & _). apply map_apart; [done|lia|done]. }
  assert (h3 !! 1 = Some (put4byte d 36 (Z.of_nat (length (frees F)) + 1))) as H31. { rewrite H3; [done|]. intros Hav. by destruct (Hpm Hav) as [? _]. }
  split; [| |intros q Hq1 Hqp Hqm; by rewrite H3, Hh| |].
  - destruct (po_list _ _ _ _ _ Hok) as (d0 & Hd0 & Hs). rewrite Hd in Hd0. injection Hd0 as <-. eexists. split; [exact H31|]. rewrite get4_put4_ne by lia. apply (seg_ext pBt h); [done|]. intros u Hu'. destruct (trunk_not u Hu').
    rewrite H3; [by apply Hh|]. intros Hav ->. destruct (Hpm Hav) as (_ & _ & Hnf). by apply Hnf, trunks_frees.
  - exists d, (put4byte d 36 (Z.of_nat (length (frees F)) + 1)). split; [done|]. split; [done|]. split; [apply length_put4byte; lia|]. split; [by apply bytes_put4byte|]. split; [apply get4_put4; [lia|lia|unfold is_u; lia]|].
    intros j Hj0 Hj. apply rd_splice_out; rewrite ?length_enc4; lia.
  - intros q Hav Hm Hq Hqp. destruct (Hon Hav) as (_ & He & _). rewrite He by done. destruct (mapped_spec pBt Hsz q Hm) as (Hr & Hi & _). destruct (map_apart (ptrmapPageno pBt q) Hav ltac:(lia) Hi) as (? & ? & _). unfold entry. by rewrite Hh.
  - intros Hav. destruct (Hon Hav) as (He & _ & _ & Hs). eauto.
Qed.

(** The page is cleared when the content of deleted pages must not stay in the file. *)
Lemma secure_ok b s h1 ws : prep (pPager s) h1 ws (if b : bool then bump r p 1 else r) -> 1 ∈ ws ->
  does (if secure_delete pBt then
          rc ← (if b then mret SQLITE_OK else btreeGetPage p 0);
          if negb (rc =? SQLITE_OK) then mret (rc, false)
          else
            rc ← pagerWrite p;
            (if rc =? SQLITE_OK then store p (replicate (Z.to_nat (pageSize pBt)) 0) else mret tt) ;; mret (rc, true)
        else mret (SQLITE_OK, b)) s (fun x s' => exists w h2 ws2, s' = set_pager s w /\ prep w h2 ws2 (if x.2 : bool then bump r p 1 else r) /\ (x.1 <> 0 -> reliable (W := W) -> False) /\ 1 ∈ ws2 /\ forall q, q <> p -> h2 !! q = h1 !! q).
Proof.
  intros Hw H1. pose proof (po_size _ _ _ _ _ Hok) as Hn. pose proof (po_pos _ _ _ _ _ Hok p) as Hrp. pose proof Hsz as [Hps Hu]. destruct (secure_delete pBt); [|apply does_ret; exists (pPager s), h1, ws; split; [by destruct s|done]]. apply does_bind.
  assert (forall s1, prep (pPager s1) h1 ws (bump r p 1) -> (exists w, s1 = set_pager s w) -> does (rc ← pagerWrite p; (if rc =? SQLITE_OK then store p (replicate (Z.to_nat (pageSize pBt)) 0) else mret tt) ;; mret (rc, true)) s1
    (fun x s' => exists w h2 ws2, s' = set_pager s w /\ prep w h2 ws2 (if x.2 : bool then bump r p 1 else r) /\ (x.1 <> 0 -> reliable (W := W) -> False) /\ 1 ∈ ws2 /\ forall q, q <> p -> h2 !! q = h1 !! q)) as Hgo.
  { intros s1 Hw1 (w0 & ->). apply does_bind. eapply does_write; [exact Hw1|refs_eq| |].
    - intros rc w Hrc Hrel Hw2. rewrite (proj2 (Z.eqb_neq _ SQLITE_OK)) by done. apply does_bind, does_ret, does_ret. exists w, h1, ws. done.
    - intros w dp Hw2 _. cbn [Z.eqb SQLITE_OK]. destruct (prep_good _ _ _ _ _ _ Hw2 (lookup_insert_eq _ _ _)) as [_ Hlp]. apply does_bind. eapply does_store; [exact Hw2|refs_eq|in_ws|apply lookup_insert_eq|apply Forall_replicate; unfold is_u; lia|rewrite length_replicate; lia|].
      intros w3 Hw3. rewrite insert_insert_eq in Hw3. apply does_ret. eexists w3, _, _. split; [done|]. split; [exact Hw3|]. split; [done|]. split; [in_ws|]. intros q Hq. by apply lookup_insert_ne. }
  destruct b; [apply does_ret; cbn [negb Z.eqb SQLITE_OK]; apply Hgo; [done|]; exists (pPager s); by destruct s|]. eapply does_fetch; [exact Hw|done| |].
  - intros rc w Hrc Hrel Hw1. rewrite (proj2 (Z.eqb_neq _ SQLITE_OK)) by done. cbn [negb]. apply does_ret. exists w, h1, ws. split; [done|]. split; [done|]. split; [|done]. intros _ Hre. destruct (Hrel Hre). lia.
  - intros w _ Hw1. cbn [negb Z.eqb SQLITE_OK]. apply Hgo; [exact Hw1|by exists w].
Qed.

Lemma freePage2_ok pMemPage ws : prep (pPager s0) h ws r -> does (freePage2 pBt alloc pMemPage p) s0 (free_post s0 h r F p).
Proof.
  intros Hw. pose proof (po_size _ _ _ _ _ Hok) as Hn. pose proof (po_pos _ _ _ _ _ Hok p) as Hrp. pose proof (po_one _ _ _ _ _ Hok) as Hr1. pose proof Hsz as [Hps Hu]. destruct (po_list _ _ _ _ _ Hok) as (d & Hd & _). destruct (prep_good _ _ _ _ _ _ Hw Hd) as [Hb Hl].
  unfold freePage2. apply does_bind.
  assert (forall b s1, prep (pPager s1) h ws (if b : bool then bump r p 1 else r) -> (exists w, s1 = set_pager s0 w) -> does (rc ← pagerWrite 1;
    if negb (rc =? SQLITE_OK) then free_out rc p b None
    else
      p1 ← load 1;
      store 1 (put4byte p1 36 (get4byte p1 36 + 1)) ;;
      '(rc, pPage) ← (if secure_delete pBt then
              rc ← (if b then mret SQLITE_OK else btreeGetPage p 0);
              if negb (rc =? SQLITE_OK) then mret (rc, false)
              else rc ← pagerWrite p; (if rc =? SQLITE_OK then store p (replicate (Z.to_nat (pageSize pBt)) 0) else mret tt) ;; mret (rc, true)
            else mret (SQLITE_OK, b));
      if negb (rc =? SQLITE_OK) then free_out rc p pPage None
      else
        rc ← (if autoVacuum pBt then ptrmapPut pBt p PTRMAP_FREEPAGE 0 else mret SQLITE_OK);
        if negb (rc =? SQLITE_OK) then free_out rc p pPage None else free_link pBt alloc p (get4byte p1 36) pPage) s1 (free_post s0 h r F p)) as Hgo.
  { intros b s1 Hw1 (w0 & ->). apply does_bind. eapply does_write; [exact Hw1|destruct b; refs_eq| |].
    { intros rc w Hrc Hrel Hw2. rewrite (proj2 (Z.eqb_neq _ SQLITE_OK)) by done. cbn [negb]. eapply free_out_fail; [exact Hw2|done|done|done|naive_solver]. }
    intros w d0 Hw2 Hd0. rewrite (Hd0 d Hd), insert_id in Hw2 by done. cbn [negb Z.eqb SQLITE_OK]. apply does_bind. eapply does_load; [exact Hw2|done|]. rewrite (po_count _ _ _ _ _ Hok d Hd).
    apply does_bind. eapply does_store; [exact Hw2|destruct b; refs_eq|in_ws|done|by apply bytes_put4byte|apply length_put4byte; lia|]. intros w3 Hw3. apply does_bind. eapply does_mono; [eapply (secure_ok b (set_pager s0 w3)); [exact Hw3|in_ws]|].
    intros [rc b2] s' (w4 & h2 & ws2 & -> & Hw4 & Hf4 & H14 & Hh2). cbn [fst snd] in *. destruct (Z.eqb_spec rc SQLITE_OK) as [->|Hrc]; cbn [negb]; [|eapply free_out_fail; [exact Hw4|done|done|done|intros; by apply Hf4]].
    assert (forall q, q <> 1 -> q <> p -> h2 !! q = h !! q) as Hh21 by (intros q Hq1 Hqp; rewrite Hh2 by done; by apply lookup_insert_ne).
    assert (h2 !! 1 = Some (put4byte d 36 (Z.of_nat (length (frees F)) + 1))) as H21 by (rewrite Hh2 by lia; apply lookup_insert_eq). apply does_bind. destruct (autoVacuum pBt) eqn:Hav.
    - destruct (free_mapped pBt Hsz _ _ _ _ p Hok Hav Hp Hreg) as [Hm Hsome]. destruct (mapped_spec pBt Hsz p Hm) as (Hr & Hi & _). destruct (map_apart (ptrmapPageno pBt p) Hav ltac:(lia) Hi) as (? & ? & _).
      eapply does_mono; [eapply (ptrmapPut_ok pBt Hsz p PTRMAP_FREEPAGE 0 (set_pager s0 w4)); [exact Hw4|done|unfold is_u, PTRMAP_FREEPAGE; lia|unfold is_u; lia|by rewrite Hh21|destruct b2; intros q; pose proof (po_pos _ _ _ _ _ Hok q); refs_eq]|].
      intros rc s' (w5 & h3 & ws3 & -> & Hw5 & Hf5 & Hg5). destruct (Z.eqb_spec rc SQLITE_OK) as [->|Hrc]; cbn [negb]; [|eapply free_out_fail; [exact Hw5|done|done|done|intros; by apply Hf5]].
      destruct (Hg5 eq_refl) as (Hws & He1 & He2 & Hh3 & Hs3). eapply (free_link_ok b2 _ h3 ws3); [exact Hw5| |by apply Hws|done|done]. apply (counted_intro d h2); [done|done|lia|done|done|congruence|done].
    - apply does_ret. cbn [negb Z.eqb SQLITE_OK]. eapply (free_link_ok b2 _ h2 ws2); [exact Hw4| |done|done|done]. apply (counted_intro d h2); [done|done|lia|done|done|done|congruence]. }
  destruct pMemPage.
  - apply does_bind. eapply does_ref; [exact Hw|]. intros w Hw1. apply does_ret. apply (Hgo true); [exact Hw1|by exists w].
  - eapply does_lookup; [exact Hw|]. intros b w Hw1. apply (Hgo b); [exact Hw1|by exists w].
Qed.
End free.
