(* ===== verification/BtOverflow.v ===== *)
(** Overflow pages: fillInCell stores a payload on pages from the list of free pages, accessPayload reads and writes it, and clearCell gives the pages back. *)
From S2P Require Import Prelude Varint IntArith Bitvec Mem Page PageSpace PageCell Pager BtPages BtRep BtPtrmap BtList BtAlloc BtStore BtFree.
Local Open Scope Z_scope.
Local Open Scope c_scope.

Section overflow.
Context {W : Type} {ops : PagerOps W} (pBt : BtShared) {HP : Pager W (pageSize pBt)} (Hsz : sizes_ok pBt) (bDoTruncate : bool) (alloc : nat -> bool).
Abbreviation us := (usableSize pBt).
Abbreviation pageno := (ptrmapPageno pBt).

(** ** The pointer map of overflow pages *)

(** All entries have a type, so that ptrmapGet does not fail. *)
Definition typed (n : Z) (h : gmap Z (list Z)) : Prop := autoVacuum pBt = true -> forall q, mapped pBt q -> q <= n -> exists ty parent, entry pBt h q = Some (ty, parent) /\ 1 <= ty <= 5.
(** An entry of a second or later overflow page names the page that links to it. The entries of the pages [X] may be out of date. *)
Definition linked (n : Z) (h : gmap Z (list Z)) (F : flist) (X : list Z) : Prop := autoVacuum pBt = true -> forall q p, mapped pBt q -> q <= n -> q ∉ X -> entry pBt h q = Some (PTRMAP_OVERFLOW2, p) ->
  2 <= p <= n /\ regular pBt p /\ p ∉ frees F /\ exists d, h !! p = Some d /\ get4byte d 0 = q.

(** The pages [ps] were taken from the list of free pages or from the end of the file, and nothing else has changed. *)
Record grown (n : Z) (h : gmap Z (list Z)) (F : flist) (n' : Z) (h' : gmap Z (list Z)) (F' : flist) (ps : list Z) : Prop := {
  gr_size : n <= n' <= n + 4 * Z.of_nat (length ps);
  gr_nodup : NoDup ps;
  gr_new p : p ∈ ps -> 2 <= p <= n' /\ regular pBt p /\ p ∉ frees F' /\ (p ∈ frees F \/ n < p);
  gr_frees p : p ∈ frees F <-> (p ∈ ps /\ p <= n) \/ p ∈ frees F';
  gr_all q : n < q <= n' -> regular pBt q -> q ∈ ps;
  gr_page q : q <> 1 -> q <= n -> q ∉ frees F -> (autoVacuum pBt = true -> PTRMAP_ISPAGE pBt q = false) -> h' !! q = h !! q;
  gr_entry q : autoVacuum pBt = true -> mapped pBt q -> q <= n -> q ∉ ps -> entry pBt h' q = entry pBt h q;
  gr_one d : h !! 1 = Some d -> exists d', h' !! 1 = Some d' /\ length d' = length d /\ forall j, 0 <= j -> j < 28 \/ 40 <= j -> rd d' j = rd d j }.

Lemma grown_refl n h r F : pages_ok pBt n h r F -> grown n h F n h F [].
Proof.
  intros Hok. split; [cbn; lia|constructor|by intros p ?%not_elem_of_nil|intros p; split; [by right|]|lia|done|done|].
  - by intros [[?%not_elem_of_nil _]|?].
  - intros d Hd. by exists d.
Qed.

Lemma grown_trans n h F n1 h1 F1 n2 h2 F2 ps1 ps2 r : pages_ok pBt n h r F -> grown n h F n1 h1 F1 ps1 -> grown n1 h1 F1 n2 h2 F2 ps2 -> grown n h F n2 h2 F2 (ps1 ++ ps2).
Proof.
  intros Hok [A1 A2 A3 A4 A5 A6 A7 A8] [B1 B2 B3 B4 B5 B6 B7 B8].
  assert (forall p, p ∈ frees F1 -> p <= n) as HF1. { intros p Hp. assert (p ∈ frees F) as HpF by (apply A4; by right). apply (po_range _ _ _ _ _ Hok) in HpF. lia. }
  split.
  - rewrite length_app. lia.
  - apply NoDup_app. split; [done|]. split; [|done]. intros p Hp1 Hp2. destruct (A3 p Hp1) as (Hr & _ & Hn & _). destruct (B3 p Hp2) as (_ & _ & _ & [?|?]); [done|lia].
  - intros p [Hp|Hp]%elem_of_app.
    + destruct (A3 p Hp) as (Hr & Hreg & Hn & Ho). split; [lia|]. split; [done|]. split; [|done]. intros Hx. apply Hn, B4. by right.
    + destruct (B3 p Hp) as (Hr & Hreg & Hn & Ho). split; [done|]. split; [done|]. split; [done|]. destruct Ho as [Ho|Ho]; [left; apply A4; by right|right; lia].
  - intros p. rewrite A4, B4, elem_of_app. split.
    + intros [[? ?]|[[Hp2 Hpn]|?]]; [by auto| |by auto]. left. split; [by right|]. destruct (B3 p Hp2) as (_ & _ & _ & [Hx|Hx]); [by apply HF1|lia].
    + intros [[[?|Hp] ?]|?]; [by left| |by auto]. right. left. split; [done|lia].
  - intros q Hq Hr. apply elem_of_app. destruct (decide (q <= n1)); [left; apply A5; [lia|done]|right; apply B5; [lia|done]].
  - intros q H1 Hq HF Hi. rewrite B6, A6; [done|done|done|done|done|done|lia| |done]. intros Hx. apply HF, A4. by right.
  - intros q Hav Hm Hq Hn. apply not_elem_of_app in Hn as [Hn1 Hn2]. rewrite B7, A7 by (done || lia). done.
  - intros d Hd. destruct (A8 d Hd) as (d1 & Hd1 & L1 & R1). destruct (B8 d1 Hd1) as (d2 & Hd2 & L2 & R2). exists d2. split; [done|]. split; [congruence|]. intros j Hj0 Hj. by rewrite R2, R1.
Qed.

(** An allocation. *)
Lemma allocated_grown (s : Db W) h ws r F p s' h' ws' : pages_ok pBt (nPage s) h r F -> allocated pBt s h ws r F p s' h' ws' -> exists F', pages_ok pBt (nPage s') h' (bump r p 1) F' /\ grown (nPage s) h F (nPage s') h' F' [p].
Proof.
  intros Hok (F' & Hok' & Hfr & [Hun Hone] & Hp2 & Hreg & _). exists F'. split; [done|]. pose proof (po_nodup _ _ _ _ _ Hok) as Hnd. split; [|apply NoDup_singleton| | | | | |done].
  - cbn [length]. destruct Hfr as [[_ ->]|(_ & _ & ? & -> & _)]; lia.
  - intros q ->%list_elem_of_singleton. destruct Hfr as [[HP' En]|(-> & -> & Hlt & En & _)].
    + rewrite HP' in Hnd. apply NoDup_cons in Hnd as [Hn _]. assert (p ∈ frees F) as HpF by (rewrite HP'; left). pose proof (po_range _ _ _ _ _ Hok p HpF). split; [lia|]. auto.
    + split; [lia|]. split; [done|]. split; [by intros ?%not_elem_of_nil|right; lia].
  - intros q. rewrite list_elem_of_singleton. destruct Hfr as [[HP' En]|(-> & -> & Hlt & En & _)].
    + rewrite HP', elem_of_cons. assert (p ∈ frees F) as HpF by (rewrite HP'; left). pose proof (po_range _ _ _ _ _ Hok p HpF). split; [intros [->|?]; [left; split; [done|lia]|by right]|]. intros [[-> _]|?]; auto.
    + split; [by intros ?%not_elem_of_nil|]. intros [[-> ?]|?]; [lia|done].
  - intros q Hq Hr. apply list_elem_of_singleton. destruct Hfr as [[_ En]|(_ & _ & Hlt & En & Hgap)]; [lia|]. destruct (decide (q = p)); [done|]. destruct (Hgap q); [lia|done].
  - intros q H1 Hq HF _. by apply Hun.
  - intros q Hav Hm Hq _. by eapply entry_same.
Qed.


(** ** A new overflow page *)

Lemma skip_ok g : 1 <= g < 2 ^ 31 + 8 -> exists g', skip_special pBt skip_fuel g = Some g' /\ g <= g' <= g + 2 /\ g' <> PENDING_BYTE_PAGE pBt /\ PTRMAP_ISPAGE pBt g' = false.
Proof.
  intros Hg. pose proof (pending_range pBt Hsz) as Hpr. pose proof (ispage_pending pBt Hsz) as Hpp. unfold skip_fuel. cbn [skip_special].
  assert (PTRMAP_ISPAGE pBt g = true -> 2 <= g) as Hg2. { intros Hi. destruct (decide (g = 1)) as [->|]; [done|lia]. }
  assert (forall k, 0 <= k <= 2 -> u32 (g + k) = g + k) as Hu by (intros k Hk; apply uwrap_small; unfold is_u; lia). rewrite (Hu 1) by lia. replace (u32 (g + 1 + 1)) with (g + 2) by (rewrite <- (Hu 2) by lia; f_equal; lia).
  destruct (PTRMAP_ISPAGE pBt g) eqn:E0; cbn [orb].
  - pose proof (ispage_next pBt Hsz g ltac:(lia) E0) as Hn. rewrite (Hn (g + 1)), (Hn (g + 2)) by lia. cbn [orb]. destruct (Z.eqb_spec (g + 1) (PENDING_BYTE_PAGE pBt)) as [E1|E1]; [|exists (g + 1); rewrite Hn by lia; split; [done|split; [lia|done]]].
    rewrite (proj2 (Z.eqb_neq (g + 2) _)) by lia. exists (g + 2). rewrite Hn by lia. split; [done|]. split; [lia|]. split; [lia|done].
  - destruct (Z.eqb_spec g (PENDING_BYTE_PAGE pBt)) as [E1|E1]; [|exists g; split; [done|split; [lia|done]]]. rewrite (proj2 (Z.eqb_neq (g + 1) _)), orb_false_r by lia.
    destruct (PTRMAP_ISPAGE pBt (g + 1)) eqn:E2; [|exists (g + 1); split; [done|split; [lia|split; [lia|done]]]]. rewrite (ispage_next pBt Hsz (g + 1) ltac:(lia) E2 (g + 2)) by lia. rewrite (proj2 (Z.eqb_neq (g + 2) _)) by lia.
    exists (g + 2). split; [done|]. split; [lia|]. split; [lia|]. apply (ispage_next pBt Hsz (g + 1)); [lia|done|lia].
Qed.

Lemma does_skipped g (s : Db W) Q : 1 <= g < 2 ^ 31 + 8 -> (forall g', g <= g' <= g + 2 -> g' <> PENDING_BYTE_PAGE pBt -> PTRMAP_ISPAGE pBt g' = false -> Q g' s) -> does (skipped pBt g) s Q.
Proof. intros Hg HQ. destruct (skip_ok g Hg) as (g' & E & Hr & Hp & Hi). exists g', s. split; [unfold skipped; by rewrite E|auto]. Qed.

Lemma length_trunk_list F : (length F <= length (frees F))%nat.
Proof. induction F as [|[t ls] F IH]; [done|]. rewrite frees_cons. cbn [length]. rewrite length_app. lia. Qed.

(** A write to the entry of a page that is not free. *)
Lemma pages_put n h r F p h' : pages_ok pBt n h r F -> autoVacuum pBt = true -> mapped pBt p -> p ∉ frees F -> (forall q, mapped pBt q -> q <> p -> entry pBt h' q = entry pBt h q) -> (forall q, q <> pageno p -> h' !! q = h !! q) -> is_Some (h' !! pageno p) ->
  pages_ok pBt n h' r F.
Proof.
  intros Hok Hav Hm HpF He Hh Hs. destruct (mapped_spec pBt Hsz p Hm) as (Hr & Hi & _). assert (pageno p <> 1 /\ pageno p ∉ frees F) as [H1 Hf] by (split; [lia|by eapply map_not_free]).
  split; [|intros d Hd; rewrite Hh in Hd by done; by apply (po_count _ _ _ _ _ Hok)|apply Hok..| |].
  - apply (list_ext pBt h); [apply Hok|by apply Hh|]. intros t Ht. apply Hh. intros ->. by apply Hf, trunks_frees.
  - intros q _ Hq Hqi. destruct (decide (q = pageno p)) as [->|]; [done|]. rewrite Hh by done. by apply (po_map _ _ _ _ _ Hok).
  - intros q _ Hq. destruct (po_range _ _ _ _ _ Hok q Hq) as [Hqn Hqr]. destruct (free_mapped pBt Hsz _ _ _ _ q Hok Hav Hqn Hqr) as [Hqm _]. rewrite He; [by apply (po_type _ _ _ _ _ Hok)|done|by intros ->].
Qed.

Definition overflow_type (pg : Z) : Z := if pg =? 0 then PTRMAP_OVERFLOW1 else PTRMAP_OVERFLOW2.

Definition overflow_post (s : Db W) h (ws : gset Z) r F pg (x : Z * Z) (s' : Db W) : Prop := exists h' ws', prep (pPager s') h' ws' (if x.1 =? 0 then bump r x.2 1 else r) /\ others s s' /\ (x.1 <> 0 -> reliable (W := W) -> 2 ^ 31 <= nPage s + 4) /\
  (x.1 = 0 -> exists F', pages_ok pBt (nPage s') h' (bump r x.2 1) F' /\ grown (nPage s) h F (nPage s') h' F' [x.2] /\ is_Some (h' !! x.2) /\ x.2 ∈ ws' /\ (forall u, u ∈ ws -> u ∉ frees F -> u <= nPage s -> u ∈ ws') /\
    (typed (nPage s) h -> typed (nPage s') h') /\ (linked (nPage s) h F [] -> linked (nPage s') h' F' [x.2]) /\ (autoVacuum pBt = true -> entry pBt h' x.2 = Some (overflow_type pg, pg)) /\
    (linked (nPage s) h F [] -> autoVacuum pBt = true -> forall u, mapped pBt u -> u <= nPage s' -> entry pBt h' u <> Some (PTRMAP_OVERFLOW2, x.2))).

Lemma grown_put n h F n' h1 F' q h2 : grown n h F n' h1 F' [q] -> autoVacuum pBt = true -> mapped pBt q -> (forall u, mapped pBt u -> u <> q -> entry pBt h2 u = entry pBt h1 u) -> (forall u, u <> pageno q -> h2 !! u = h1 !! u) -> grown n h F n' h2 F' [q].
Proof.
  intros [A1 A2 A3 A4 A5 A6 A7 A8] Hav Hm He Hh. destruct (mapped_spec pBt Hsz q Hm) as (Hr & Hi & _). split; [done|done|done|done|done| | |].
  - intros u H1 Hu HF Hui. rewrite Hh by (intros ->; specialize (Hui Hav); congruence). by apply A6.
  - intros u _ Hum Hu Hq. rewrite He; [by apply A7|done|]. intros ->. apply Hq. left.
  - intros d Hd. rewrite Hh by lia. by apply A8.
Qed.

Lemma mapped_regular p : mapped pBt p -> regular pBt p.
Proof. intros (_ & Hn & Hi). split; [done|intros _; done]. Qed.

Lemma grown_typed n h F n' h' F' q : grown n h F n' h' F' [q] -> (autoVacuum pBt = true -> exists ty parent, entry pBt h' q = Some (ty, parent) /\ 1 <= ty <= 5) -> typed n h -> typed n' h'.
Proof.
  intros Hg Hq Ht Hav u Hm Hu. destruct (decide (u = q)) as [->|Hne]; [by apply Hq|]. assert (u ∉ [q]) as Hn by by rewrite list_elem_of_singleton. destruct (decide (u <= n)) as [Hle|Hgt].
  - rewrite (gr_entry _ _ _ _ _ _ _ Hg) by done. by apply Ht.
  - destruct Hn. apply (gr_all _ _ _ _ _ _ _ Hg); [lia|by apply mapped_regular].
Qed.

Lemma grown_linked n h F n' h' F' q X : grown n h F n' h' F' [q] -> linked n h F X -> linked n' h' F' (q :: X).
Proof.
  intros Hg Hl Hav u p Hm Hu HX He. apply not_elem_of_cons in HX as [Hne HX]. assert (u ∉ [q]) as Hn by by rewrite list_elem_of_singleton. assert (u <= n) as Hun. { destruct (decide (u <= n)); [done|]. destruct Hn. apply (gr_all _ _ _ _ _ _ _ Hg); [lia|by apply mapped_regular]. }
  rewrite (gr_entry _ _ _ _ _ _ _ Hg) in He by done. destruct (Hl Hav u p Hm Hun HX He) as (Hp & Hpr & HpF & d & Hd & Hg4). pose proof (gr_size _ _ _ _ _ _ _ Hg). split; [lia|]. split; [done|]. split.
  - intros Hx. apply HpF, (gr_frees _ _ _ _ _ _ _ Hg). by right.
  - exists d. split; [|done]. rewrite (gr_page _ _ _ _ _ _ _ Hg); [done|lia|lia|done|apply Hpr].
Qed.

(** No entry names a page that was free. *)
Lemma grown_unnamed n h F n' h' F' q ty pg : grown n h F n' h' F' [q] -> entry pBt h' q = Some (ty, pg) -> pg <> q -> linked n h F [] -> autoVacuum pBt = true -> forall u, mapped pBt u -> u <= n' -> entry pBt h' u <> Some (PTRMAP_OVERFLOW2, q).
Proof.
  intros Hg Hq Hne Hl Hav u Hm Hu He. destruct (decide (u = q)) as [->|Huq]; [congruence|]. assert (u ∉ [q]) as Hn by by rewrite list_elem_of_singleton. assert (u <= n) as Hun. { destruct (decide (u <= n)); [done|]. destruct Hn. apply (gr_all _ _ _ _ _ _ _ Hg); [lia|by apply mapped_regular]. }
  rewrite (gr_entry _ _ _ _ _ _ _ Hg) in He by done. destruct (Hl Hav u q Hm Hun ltac:(by intros ?%not_elem_of_nil) He) as (Hp & _ & HpF & _). destruct (gr_new _ _ _ _ _ _ _ Hg q ltac:(left)) as (_ & _ & _ & [?|?]); [done|lia].
Qed.

Lemma new_overflow_ok fuel pg s h ws r F : prep (pPager s) h ws r -> pages_ok pBt (nPage s) h r F -> (length (frees F) < fuel)%nat -> 0 <= pg <= nPage s -> pg ∉ frees F ->
  does (new_overflow pBt bDoTruncate fuel pg) s (overflow_post s h ws r F pg).
Proof.
  intros Hw Hok Hfu Hpg HpgF. pose proof (po_size _ _ _ _ _ Hok) as Hn. unfold new_overflow. apply does_bind. pose proof (length_trunk_list F) as Hlt.
  assert (forall nearby, 0 <= nearby < 2 ^ 32 -> does ('(rc, pgno) ← allocateBtreePage pBt bDoTruncate fuel nearby BTALLOC_ANY;
    rc ← (if autoVacuum pBt && (rc =? SQLITE_OK) then
            let eType := if pg =? 0 then PTRMAP_OVERFLOW1 else PTRMAP_OVERFLOW2 in
            rc ← ptrmapPut pBt pgno eType pg; (if negb (rc =? SQLITE_OK) then releasePage pgno else mret tt) ;; mret rc
          else mret rc);
    mret (rc, pgno)) s (overflow_post s h ws r F pg)) as Hgo.
  { intros nearby Hnear. apply does_bind. eapply does_mono; [apply (allocateBtreePage_ok pBt Hsz bDoTruncate fuel s h ws r F nearby BTALLOC_ANY Hw Hok); [lia|split; [done|by left]]|].
    intros [rc p] s' (h1 & ws1 & Hw1 & Ho & Hf & Hg). cbn [fst snd] in *. destruct (Z.eqb_spec rc 0) as [->|Hrc].
    - destruct (Hg eq_refl) as [Hal _]. destruct (allocated_grown s h ws r F p s' h1 ws1 Hok Hal) as (F' & Hok1 & Hgr). destruct Hal as (_ & _ & _ & _ & Hp2 & Hreg & Hsome & Hpw & Hwk). pose proof (po_size _ _ _ _ _ Hok1) as Hn1.
      destruct (gr_new _ _ _ _ _ _ _ Hgr p ltac:(left)) as (Hpr & _ & HpF & _). assert (forall q, 0 <= bump r p 1 q) as Hr0 by apply Hok1. change (0 =? SQLITE_OK) with true. rewrite andb_true_r. destruct (autoVacuum pBt) eqn:Hav.
      + assert (mapped pBt p) as Hm by (apply ispage_regular; [lia|done|done]). destruct (mapped_spec pBt Hsz p Hm) as (Hr & Hi & _). apply does_bind, does_bind. fold (overflow_type pg).
        eapply does_mono; [eapply (ptrmapPut_ok pBt Hsz p (overflow_type pg) pg s'); [exact Hw1|done|unfold overflow_type; destruct (pg =? 0); split; done|unfold is_u; lia|apply (po_map _ _ _ _ _ Hok1); [done|lia|done]|done]|].
        intros rc s2 (w2 & h2 & ws2 & -> & Hw2 & Hf2 & Hg2). destruct (Z.eqb_spec rc SQLITE_OK) as [->|Hrc]; cbn [negb].
        * apply does_bind, does_ret, does_ret, does_ret. destruct (Hg2 eq_refl) as (Hws & He1 & He2 & Hh2 & Hs2). exists h2, ws2. cbn [fst snd]. split; [done|]. split; [done|]. split; [done|]. intros _. exists F'.
          assert (grown (nPage s) h F (nPage s') h2 F' [p]) as Hgr2 by by eapply grown_put. split; [by eapply pages_put|]. split; [done|]. split; [rewrite Hh2; [done|lia]|]. split; [by apply Hws|]. split; [intros u Huw HuF Hun; by apply Hws, Hwk|]. split; [|split; [|split; [done|]]].
          -- intros Ht. eapply grown_typed; [done| |done]. intros _. exists (overflow_type pg), pg. split; [done|]. unfold overflow_type. destruct (pg =? 0); done.
          -- intros Hl. by eapply grown_linked.
          -- eapply grown_unnamed; [done|exact He1|]. intros ->. destruct (gr_new _ _ _ _ _ _ _ Hgr p ltac:(left)) as (_ & _ & _ & [?|?]); [done|lia].
        * apply does_bind. eapply does_release; [exact Hw2|unfold bump; rewrite Z.eqb_refl; pose proof (po_pos _ _ _ _ _ Hok p); lia|]. intros w3 Hw3. apply does_ret, does_ret. exists h2, ws2. cbn [fst snd]. rewrite (proj2 (Z.eqb_neq rc 0)) by done. split; [eapply prep_refs; [exact Hw3|refs_eq]|]. split; [done|]. split; [|done]. intros _ Hre. by destruct (Hf2 Hrc Hre).
      + apply does_bind, does_ret, does_ret. exists h1, ws1. cbn [fst snd Z.eqb]. split; [done|]. split; [done|]. split; [done|]. intros _. exists F'. split; [done|]. split; [done|]. split; [done|]. split; [done|]. split; [done|]. split; [intros _ Hav'; congruence|]. split; [intros _ Hav'; congruence|]. split; congruence.
    - rewrite (proj2 (Z.eqb_neq rc SQLITE_OK)) by done. rewrite andb_false_r. apply does_bind, does_ret, does_ret. exists h1, ws1. cbn [fst snd]. rewrite (proj2 (Z.eqb_neq rc 0)) by done. split; [done|]. split; [done|]. split; [|done].
      intros _ Hre. destruct (Z.le_gt_cases (2 ^ 31) (nPage s + 4)) as [|Hlt4]; [done|]. destruct (Hf Hrc Hre). split; [done|]. split; [intros [=]|intros [=]]. }
  destruct (autoVacuum pBt) eqn:Hav; [|apply does_ret; apply Hgo; lia]. rewrite uwrap_small by (unfold is_u; lia). apply does_skipped; [lia|]. intros g' Hg' _ _. apply Hgo. lia.
Qed.

(** ** Chains of overflow pages *)

Definition first_page (ps : list Z) : Z := match ps with [] => 0 | p :: _ => p end.

(** The pages [ps] hold the bytes [bs]. *)
Fixpoint ochain (h : gmap Z (list Z)) (ps : list Z) (bs : list Z) : Prop :=
  match ps with
  | [] => bs = []
  | p :: ps => bs <> [] /\ exists d, h !! p = Some d /\ get4byte d 0 = first_page ps /\ slice d 4 (Z.min (us - 4) (Z.of_nat (length bs))) = take (Z.to_nat (us - 4)) bs /\ ochain h ps (drop (Z.to_nat (us - 4)) bs)
  end.

Lemma ochain_ext h h' ps bs : ochain h ps bs -> (forall p, p ∈ ps -> h' !! p = h !! p) -> ochain h' ps bs.
Proof.
  revert bs. induction ps as [|p ps IH]; intros bs; [done|]. intros (Hne & d & Hd & Hl & Hs & Hc) He. split; [done|]. exists d. rewrite He by left. split; [done|]. split; [done|]. split; [done|]. apply IH; [done|]. intros q Hq. apply He. by right.
Qed.

(** The bytes that fillInCell stores: the source, then zeros. *)
Definition padded (n : nat) (src : list Z) : list Z := take n src ++ replicate (n - length src) 0.
Lemma length_padded n src : length (padded n src) = n.
Proof. unfold padded. rewrite length_app, length_take, length_replicate. lia. Qed.
Lemma bytes_padded n src : bytes src -> bytes (padded n src).
Proof. intros H. apply Forall_app_2; [by apply Forall_take|]. apply Forall_replicate. unfold is_u. lia. Qed.

(** One turn of the loop stores [k] bytes. *)
Lemma padded_step (n k : nat) src : (k <= n)%nat -> (src = [] \/ k <= length src)%nat -> take k (padded n src) = fill_bytes src (Z.of_nat k) /\ drop k (padded n src) = padded (n - k) (drop k src).
Proof.
  intros Hk Hs. unfold padded, fill_bytes. destruct src as [|x src].
  - rewrite !take_nil, !drop_nil, take_nil. cbn [app length Z.of_nat Z.ltb Z.compare]. rewrite Nat2Z.id, !Nat.sub_0_r. by rewrite take_replicate, drop_replicate, Nat.min_l by done.
  - destruct Hs as [|Hs]; [done|]. rewrite (proj2 (Z.ltb_lt 0 _)) by (cbn [length]; lia). unfold slice. rewrite Nat2Z.id. change (drop (Z.to_nat 0) (x :: src)) with (x :: src).
    rewrite take_app_le, take_take, Nat.min_l by (rewrite ?length_take; lia). split; [done|]. rewrite drop_app_le by (rewrite length_take; lia). rewrite length_drop, skipn_firstn_comm. do 2 f_equal. lia.
Qed.
Lemma fill_turn bs src sp : bs = padded (length bs) src -> bs <> [] -> 0 < sp -> bytes src -> let n := fill_n (Z.of_nat (length bs)) src sp in
  exists k : nat, n = Z.of_nat k /\ (0 < k <= length bs)%nat /\ Z.of_nat k <= sp /\ fill_bytes src n = take k bs /\ bytes (take k bs) /\ Z.of_nat (length bs) - n = Z.of_nat (length (drop k bs)) /\ drop k bs = padded (length (drop k bs)) (drop (Z.to_nat n) src) /\ bytes (drop (Z.to_nat n) src).
Proof.
  intros Hbs Hne Hsp Hb n. assert (0 < length bs)%nat as Hl by (destruct bs; [done|cbn; lia]). assert (0 < n <= Z.of_nat (length bs) /\ n <= sp /\ (src = [] \/ (Z.to_nat n <= length src)%nat)) as (H1 & H2 & H3).
  { unfold n, fill_n. destruct (Z.ltb_spec sp (Z.of_nat (length bs))); (destruct src as [|x src]; [change (0 <? Z.of_nat (@length Z [])) with false; cbn [andb]; split; [lia|]; split; [lia|by left]|]);
      rewrite (proj2 (Z.ltb_lt 0 _)) by (cbn [length]; lia); cbn [andb]; (match goal with |- context [?a <? ?b] => destruct (Z.ltb_spec a b) end; cbn [length] in *; (split; [lia|]; split; [lia|right; lia])). }
  exists (Z.to_nat n). rewrite Z2Nat.id by lia. destruct (padded_step (length bs) (Z.to_nat n) src ltac:(lia) H3) as [S1 S2]. rewrite Z2Nat.id in S1 by lia. rewrite <- Hbs in S1, S2. assert (bytes (take (Z.to_nat n) bs)) as Hb2 by (rewrite Hbs; by apply Forall_take, bytes_padded). clearbody n.
  split; [done|]. split; [lia|]. split; [lia|]. split; [done|]. split; [done|]. rewrite length_drop. split; [lia|]. split; [done|by apply Forall_drop].
Qed.

(** Two stores behind each other are one. *)
Lemma splice_app c i a b : 0 <= i -> i + Z.of_nat (length a) + Z.of_nat (length b) <= Z.of_nat (length c) -> splice (splice c i a) (i + Z.of_nat (length a)) b = splice c i (a ++ b).
Proof.
  intros Hi Hl. assert (length (splice c i a) = length c) as L1 by (apply length_splice; lia). apply rd_ext; [rewrite !length_splice; rewrite ?length_app; lia|]. rewrite length_splice by lia. intros j Hj.
  destruct (decide (i + Z.of_nat (length a) <= j < i + Z.of_nat (length a) + Z.of_nat (length b))) as [Hb|Hb].
  - rewrite rd_splice_in by lia. rewrite rd_splice_in by (rewrite ?length_app; lia). rewrite rd_app_r by lia. f_equal. lia.
  - rewrite rd_splice_out by lia. destruct (decide (i <= j < i + Z.of_nat (length a))) as [Ha|Ha].
    + rewrite rd_splice_in by lia. rewrite rd_splice_in by (rewrite ?length_app; lia). by rewrite rd_app_l by lia.
    + rewrite rd_splice_out by lia. rewrite rd_splice_out; rewrite ?length_app; [done|lia..].
Qed.
Lemma slice_app d i a b : 0 <= i -> 0 <= a -> 0 <= b -> slice d i (a + b) = slice d i a ++ slice d (i + a) b.
Proof.
  intros Hi Ha Hb. unfold slice. rewrite Z2Nat.inj_add by done. rewrite (Z2Nat.inj_add i a) by done. rewrite <- drop_drop. rewrite <- (take_drop (Z.to_nat a) (drop (Z.to_nat i) d)) at 1. destruct (decide (Z.to_nat a <= length (drop (Z.to_nat i) d))%nat).
  - rewrite take_app_add'; [done|]. rewrite length_take. lia.
  - rewrite (drop_ge (drop (Z.to_nat i) d)) by lia. rewrite take_nil, !app_nil_r. rewrite take_take. f_equal. lia.
Qed.

(** A store behind the bytes [pre] on an overflow page. *)
Lemma slice_extend d pre ck : slice d 4 (Z.of_nat (length pre)) = pre -> 4 + Z.of_nat (length pre) + Z.of_nat (length ck) <= Z.of_nat (length d) ->
  slice (splice d (4 + Z.of_nat (length pre)) ck) 4 (Z.of_nat (length (pre ++ ck))) = pre ++ ck.
Proof.
  intros Hs Hl. rewrite length_app, Nat2Z.inj_add, slice_app by lia. f_equal.
  - rewrite <- Hs at 3. apply slice_ext; try lia; [rewrite length_splice; lia|]. intros j Hj. apply rd_splice_out; lia.
  - apply slice_splice; lia.
Qed.

(** ** Stores to pages in use *)

(** The pointer map does not see a store to a regular page. *)
Lemma entry_store h p d q : regular pBt p -> autoVacuum pBt = true -> mapped pBt q -> entry pBt (<[p := d]> h) q = entry pBt h q.
Proof.
  intros [_ Hr] Hav Hq. destruct (mapped_spec pBt Hsz q Hq) as (_ & Hi & _). unfold entry. rewrite lookup_insert_ne; [done|]. intros ->. rewrite Hr in Hi; congruence.
Qed.
Lemma pages_store n h r F p d : pages_ok pBt n h r F -> p ∉ frees F -> p <> 1 -> regular pBt p -> pages_ok pBt n (<[p := d]> h) r F.
Proof.
  intros Hok HpF H1 Hr. split; [|intros d0 Hd0; rewrite lookup_insert_ne in Hd0 by done; by apply (po_count _ _ _ _ _ Hok)|apply Hok..| |].
  - apply (list_ext pBt h); [apply Hok|by apply lookup_insert_ne|]. intros t Ht. apply lookup_insert_ne. intros ->. by apply HpF, trunks_frees.
  - intros q Hav Hq Hi. destruct (decide (q = p)) as [->|]; [rewrite lookup_insert_eq; eauto|]. rewrite lookup_insert_ne by done. by apply (po_map _ _ _ _ _ Hok).
  - intros q Hav Hq. destruct (po_range _ _ _ _ _ Hok q Hq) as [Hqn Hqr]. destruct (free_mapped pBt Hsz _ _ _ _ q Hok Hav Hqn Hqr) as [Hqm _]. rewrite entry_store by done. by apply (po_type _ _ _ _ _ Hok).
Qed.
Lemma grown_store n h F n' h' F' ps p d r : pages_ok pBt n h r F -> grown n h F n' h' F' ps -> p ∈ ps -> grown n h F n' (<[p := d]> h') F' ps.
Proof.
  intros Hok Hg Hp. destruct (gr_new _ _ _ _ _ _ _ Hg p Hp) as (Hp2 & Hreg & HpF' & Ho). destruct Hg as [A1 A2 A3 A4 A5 A6 A7 A8]. split; [done|done|done|done|done| | |].
  - intros q H1 Hq HF Hi. rewrite lookup_insert_ne; [by apply A6|]. intros ->. destruct Ho; [done|lia].
  - intros q Hav Hm Hq Hn. rewrite entry_store by done. by apply A7.
  - intros d0 Hd0. rewrite lookup_insert_ne by lia. by apply A8.
Qed.
Lemma typed_store n h p d : typed n h -> regular pBt p -> typed n (<[p := d]> h).
Proof. intros Ht Hr Hav q Hq Hn. rewrite entry_store by done. by apply Ht. Qed.
(** The link of page [p] is the page whose entry names [p], if there is one. *)
Lemma linked_store n h F X X' p d : linked n h F X -> regular pBt p -> (autoVacuum pBt = true -> forall u, mapped pBt u -> u <= n -> u ∉ X' -> entry pBt h u = Some (PTRMAP_OVERFLOW2, p) -> 2 <= p <= n /\ p ∉ frees F /\ get4byte d 0 = u) ->
  (autoVacuum pBt = true -> forall u q, mapped pBt u -> u ∉ X' -> u ∈ X -> entry pBt h u = Some (PTRMAP_OVERFLOW2, q) -> q = p) -> linked n (<[p := d]> h) F X'.
Proof.
  intros Hl Hr Hd HX Hav u q Hm Hu Hn He. rewrite entry_store in He by done. destruct (decide (q = p)) as [->|Hne].
  - destruct (Hd Hav u Hm Hu Hn He) as (Hp & HpF & Hg). split; [done|]. split; [done|]. split; [done|]. exists d. by rewrite lookup_insert_eq.
  - destruct (decide (u ∈ X)) as [Hin|Hnin]; [by destruct Hne; apply (HX Hav u q)|]. destruct (Hl Hav u q Hm Hu Hnin He) as (Hp & Hpr & HpF & d0 & Hd0 & Hg). split; [done|]. split; [done|]. split; [done|]. exists d0. by rewrite lookup_insert_ne.
Qed.
Lemma linked_keep n h F p d d' : linked n h F [] -> regular pBt p -> h !! p = Some d -> get4byte d' 0 = get4byte d 0 -> linked n (<[p := d']> h) F [].
Proof.
  intros Hl Hr Hd Hg. eapply linked_store; [done|done| |by intros _ u q _ _ ?%not_elem_of_nil]. intros Hav u Hm Hu Hn He. destruct (Hl Hav u p Hm Hu Hn He) as (Hp & _ & HpF & d0 & Hd0 & Hg0). rewrite Hd in Hd0. injection Hd0 as <-. split; [done|]. split; [done|congruence].
Qed.

(** ** fillInCell *)

Definition ptr_ok (n : Z) (h : gmap Z (list Z)) (F : flist) : Prop := typed n h /\ linked n h F [].

(** The overflow page [p] with the content [d] is being filled; [pre] is on it. *)
Record on_page (s : Db W) (h : gmap Z (list Z)) (ws : gset Z) (r : Z -> Z) (F : flist) (p : Z) (d pre : list Z) : Prop := {
  op_prep : prep (pPager s) h ws (bump r p 1);
  op_ok : pages_ok pBt (nPage s) h (bump r p 1) F;
  op_page : h !! p = Some d;
  op_writable : p ∈ ws;
  op_range : 2 <= p <= nPage s;
  op_regular : regular pBt p;
  op_used : p ∉ frees F;
  op_link : get4byte d 0 = 0;
  op_pre : slice d 4 (Z.of_nat (length pre)) = pre;
  op_fit : Z.of_nat (length pre) <= us - 4;
  op_ptr : ptr_ok (nPage s) h F }.

Lemma pages_refs n h r r' F : pages_ok pBt n h r F -> (forall q, q ∈ frees F \/ n < q -> r' q = 0) -> 0 < r' 1 -> (forall q, 0 <= r' q) -> pages_ok pBt n h r' F.
Proof. intros Hok H1 H2 H3. split; [apply Hok..|done|done|done|apply Hok|apply Hok|apply Hok]. Qed.

Lemma op_good s h ws r F p d pre : on_page s h ws r F p d pre -> bytes d /\ Z.of_nat (length d) = pageSize pBt /\ us <= pageSize pBt /\ p <> 1 /\ 480 <= us.
Proof. intros H. destruct (prep_good _ _ _ _ _ _ (op_prep _ _ _ _ _ _ _ _ H) (op_page _ _ _ _ _ _ _ _ H)). pose proof (op_range _ _ _ _ _ _ _ _ H). destruct Hsz. split; [done|]. split; [done|]. lia. Qed.

(** A store of payload to the page. *)
Lemma page_write s h ws r F p d pre ck c : on_page s h ws r F p d pre -> (forall q, 0 <= r q) -> bytes ck -> Z.of_nat (length (pre ++ ck)) <= us - 4 ->
  does (put_at (OnPage p (4 + Z.of_nat (length pre))) c ck) s (fun c' s' => c' = c /\ exists w d', s' = set_pager s w /\ on_page s' (<[p := d']> h) ws r F p d' (pre ++ ck)).
Proof.
  intros Hop Hr0 Hck Hfit. destruct (op_good _ _ _ _ _ _ _ _ Hop) as (Hb & Hl & Hu & Hp1 & Hu4). rewrite length_app in Hfit. pose proof (Hr0 p) as Hrp. destruct Hop as [Hw Hok Hd Hpw Hpr Hreg HpF Hlink Hpre Hpfit [Ht Hli]].
  cbn [put_at]. apply does_bind. eapply does_load; [exact Hw|exact Hd|]. set (d' := splice d (4 + Z.of_nat (length pre)) ck).
  assert (length d' = length d) as Hl' by (apply length_splice; lia). apply does_bind. eapply does_store; [exact Hw|refs_eq|exact Hpw|exact Hd|by apply bytes_splice|exact Hl'|]. intros w Hw2. apply does_ret. split; [done|]. exists w, d'. split; [done|].
  assert (get4byte d' 0 = get4byte d 0) as Hg by (apply get4_splice_ne; lia). split; [exact Hw2|by apply pages_store|apply lookup_insert_eq|done|done|done|done|by rewrite Hg| |rewrite length_app; lia|].
  - apply slice_extend; [done|lia].
  - split; [by apply typed_store|]. by eapply linked_keep.
Qed.

(** The first store to a new page. *)
Lemma page_start {A} (k : prog (Db W) A) (Q : A -> Db W -> Prop) s1 h1 ws1 r F1 q : pages_ok pBt (nPage s1) h1 (bump r q 1) F1 -> prep (pPager s1) h1 ws1 (bump r q 1) -> 2 <= q <= nPage s1 -> regular pBt q -> q ∉ frees F1 -> is_Some (h1 !! q) -> q ∈ ws1 ->
  typed (nPage s1) h1 -> linked (nPage s1) h1 F1 [] -> (autoVacuum pBt = true -> forall u, mapped pBt u -> u <= nPage s1 -> entry pBt h1 u <> Some (PTRMAP_OVERFLOW2, q)) -> (forall q, 0 <= r q) ->
  (forall w d', on_page (set_pager s1 w) (<[q := d']> h1) ws1 r F1 q d' [] -> does k (set_pager s1 w) Q) -> does (d ← load q; store q (put4byte d 0 0) ;; k) s1 Q.
Proof.
  intros Hok Hw Hq Hqr HqF [d Hd] Hqw Ht Hli Hun Hr0 Hk. destruct (prep_good _ _ _ _ _ _ Hw Hd) as [Hb Hl]. pose proof (Hr0 q) as Hrq. pose proof Hsz as [Hps Hu].
  apply does_bind. eapply does_load; [exact Hw|done|]. assert (length (put4byte d 0 0) = length d) as Hl' by (apply length_put4byte; lia). apply does_bind. eapply does_store; [exact Hw|refs_eq|done|done|by apply bytes_put4byte|done|]. intros w Hw2. apply (Hk w (put4byte d 0 0)).
  split; [exact Hw2| |apply lookup_insert_eq|done|done|done|done| |done|cbn; lia|].
  - by apply pages_store; [| |lia|].
  - apply get4_put4; [lia|lia|unfold is_u; lia].
  - split; [by apply typed_store|]. eapply linked_store; [done|done| |by intros _ u q' _ _ ?%not_elem_of_nil]. intros Hav u Hm Hu' _ He. by destruct (Hun Hav u Hm Hu').
Qed.

Definition page_fill (p : Z) (pre c : list Z) : Fill :=
  {| spaceLeft := us - 4 - Z.of_nat (length pre); pgnoOvfl := p; pToRelease := Some p; pPrior := OnPage p 0; pPayload := OnPage p (4 + Z.of_nat (length pre)); pCell := c |}.

(** The frame of a store of payload: pages in use but [p] are as they were. *)
Definition frame_but (n : Z) (h h' : gmap Z (list Z)) (F : flist) (p : Z) : Prop := forall u, u <> 1 -> u <= n -> u ∉ frees F -> u <> p -> (autoVacuum pBt = true -> PTRMAP_ISPAGE pBt u = false) -> h' !! u = h !! u.

Lemma frees_shrink n h r F n' h' r' F' ps : pages_ok pBt n h r F -> pages_ok pBt n' h' r' F' -> grown n h F n' h' F' ps -> (length (frees F') <= length (frees F))%nat.
Proof. intros Hok Hok' Hg. apply submseteq_length, NoDup_submseteq; [apply Hok'|]. intros p Hp. apply (gr_frees _ _ _ _ _ _ _ Hg). by right. Qed.

(** The next overflow page. *)
Lemma page_next fuel s h ws r F p d pre c n0 h0 F0 r0 qs : on_page s h ws r F p d pre -> Z.of_nat (length pre) = us - 4 -> (forall q, 0 <= r q) -> 0 < r 1 -> (length (frees F) < fuel)%nat -> pages_ok pBt n0 h0 r0 F0 -> grown n0 h0 F0 (nPage s) h F qs -> p ∈ qs ->
  does (fill_space pBt bDoTruncate fuel (page_fill p pre c)) s (fun x s' => others s s' /\ (x.1 <> 0 -> (exists h' ws', prep (pPager s') h' ws' r) /\ x.2 = page_fill p pre c /\ (reliable (W := W) -> 2 ^ 31 <= nPage s + 4)) /\
    (x.1 = 0 -> exists q h' ws' F' dq d', x.2 = page_fill q [] c /\ on_page s' h' ws' r F' q dq [] /\ h' !! p = Some d' /\ get4byte d' 0 = q /\ slice d' 4 (us - 4) = pre /\ p <> q /\ p ∉ frees F' /\
      grown n0 h0 F0 (nPage s') h' F' (qs ++ [q]) /\ frame_but (nPage s) h h' F p /\ nPage s <= nPage s' <= nPage s + 4 /\ (length (frees F') < fuel)%nat /\ (forall u, u ∈ frees F' -> u ∈ frees F) /\ (q ∈ frees F \/ nPage s < q))).
Proof.
  intros Hop Hfull Hr0 Hr1 Hfu Hok0 Hg0 Hpq. destruct (op_good _ _ _ _ _ _ _ _ Hop) as (Hb & Hl & Hu & Hp1 & Hu4). pose proof (Hr0 p) as Hrp. destruct Hop as [Hw Hok Hd Hpw Hpr Hreg HpF Hlink Hpre Hpfit [Ht Hli]].
  unfold fill_space, page_fill. cbn [spaceLeft pgnoOvfl pToRelease pPrior pPayload pCell]. rewrite Hfull, Z.sub_diag. cbn [Z.eqb]. apply does_bind. eapply does_mono; [apply (new_overflow_ok fuel p s h ws (bump r p 1) F Hw Hok Hfu); [lia|done]|].
  intros [rc q] s1 (h1 & ws1 & Hw1 & Ho & Hf & Hg). cbn [fst snd] in *. destruct (Z.eqb_spec rc 0) as [->|Hrc].
  2: { rewrite (proj2 (Z.eqb_neq rc SQLITE_OK)) by done. cbn [negb]. apply does_bind. eapply does_release; [exact Hw1|refs_eq|]. intros w2 Hw2. apply does_ret. split; [done|]. split; [|done]. intros _. split; [eexists _, _; eapply prep_refs; [exact Hw2|refs_eq]|]. split; [done|]. by apply Hf. }
  destruct (Hg eq_refl) as (F1 & Hok1 & Hg1 & Hsome & Hqw & Hwk & Ht1 & Hl1 & He1 & Hun). destruct (gr_new _ _ _ _ _ _ _ Hg1 q ltac:(left)) as (Hq & Hqr & HqF & Hqo). pose proof (gr_size _ _ _ _ _ _ _ Hg1) as Hn1. pose proof (po_size _ _ _ _ _ Hok1) as Hn31. cbn [length] in Hn1.
  assert (p <> q) as Hpne by (intros ->; destruct Hqo; [done|lia]). assert (h1 !! p = Some d) as Hd1 by (rewrite (gr_page _ _ _ _ _ _ _ Hg1); [done|done|lia|done|apply Hreg]). pose proof (Hr0 q) as Hrq.
  change (0 =? SQLITE_OK) with true. cbn [negb put_at]. apply does_bind, does_bind. eapply does_load; [exact Hw1|exact Hd1|]. fold (put4byte d 0 q). set (d' := put4byte d 0 q).
  assert (length d' = length d) as Hl' by (apply length_put4byte; lia). assert (get4byte d' 0 = q) as Hg4 by (apply get4_put4; [lia|lia|unfold is_u; lia]).
  apply does_bind. eapply does_store; [exact Hw1|refs_eq|apply Hwk; [done|done|lia]|exact Hd1|by apply bytes_put4byte|exact Hl'|]. intros w2 Hw2. apply does_ret, does_bind. eapply does_release; [exact Hw2|refs_eq|]. intros w3 Hw3.
  assert (linked (nPage s1) (<[p := d']> h1) F1 []) as Hl2.
  { eapply linked_store; [by apply Hl1|done| |].
    - intros Hav u Hm Hu' _ He. split; [lia|]. split; [intros Hx; apply HpF, (gr_frees _ _ _ _ _ _ _ Hg1); by right|]. destruct (decide (u = q)) as [->|Hne]; [done|]. destruct (Hl1 Hli Hav u p Hm Hu' ltac:(by rewrite list_elem_of_singleton) He) as (_ & _ & _ & d0 & Hd0 & Hg0').
      rewrite Hd1 in Hd0. injection Hd0 as <-. destruct Hm as [Hm _]. lia.
    - intros Hav u q' Hm _ ->%list_elem_of_singleton He. rewrite (He1 Hav) in He. by injection He as _ <-. }
  assert (pages_ok pBt (nPage s1) (<[p := d']> h1) (bump r q 1) F1) as Hok2.
  { eapply pages_refs; [apply pages_store; [exact Hok1| |done|done]| | |].
    - intros Hx. apply HpF, (gr_frees _ _ _ _ _ _ _ Hg1). by right.
    - intros u Hu'. pose proof (po_refs _ _ _ _ _ Hok1 u Hu') as Hz. pose proof (Hr0 u). unfold bump in *. destruct (u =? q), (u =? p); lia.
    - refs_eq.
    - intros u. pose proof (Hr0 u). refs_eq. }
  eapply (page_start _ _ (set_pager (set_pager s1 w2) w3) (<[p := d']> h1) ws1 r F1 q); [exact Hok2|eapply prep_refs; [exact Hw3|refs_eq]|done|done|done|by rewrite lookup_insert_ne|done|apply typed_store; [by apply Ht1|done]|exact Hl2| |done|].
  - intros Hav u Hm Hu'. rewrite entry_store by done. by apply Hun.
  - intros w4 dq Hop2. apply does_ret. split; [done|]. split; [done|]. intros _. cbn [fst snd].
    exists q, (<[q := dq]> (<[p := d']> h1)), ws1, F1, dq, d'. split; [unfold page_fill; cbn [length Z.of_nat]; by rewrite Z.sub_0_r|]. split; [done|]. split; [by rewrite lookup_insert_ne, lookup_insert_eq|]. split; [done|]. split.
    { rewrite <- Hfull. rewrite <- Hpre at 2. apply slice_ext; try lia. intros j Hj. apply rd_splice_out; rewrite ?length_enc4; lia. }
    split; [done|]. split; [intros Hx; apply HpF, (gr_frees _ _ _ _ _ _ _ Hg1); by right|]. split.
    { apply grown_store with (r := r0); [done| |apply elem_of_app; right; left]. apply grown_store with (r := r0); [done| |apply elem_of_app; by left]. eapply grown_trans; [exact Hok0|exact Hg0|exact Hg1]. }
    split; [|split; [cbn [set_pager nPage]; lia|split; [|split; [|done]]]].
    + intros u Hu1 Hun' HuF Hup Hui. assert (u <> q) by (intros ->; destruct Hqo; [done|lia]). rewrite !lookup_insert_ne by done. by apply (gr_page _ _ _ _ _ _ _ Hg1).
    + eapply Nat.le_lt_trans; [|exact Hfu]. eapply frees_shrink; [exact Hok|exact Hok1|exact Hg1].
    + intros u Hu'. apply (gr_frees _ _ _ _ _ _ _ Hg1). by right.
Qed.

(** The loop of fillInCell on overflow pages: the bytes [pre] and [bs] are on [p] and the pages that were allocated. *)
Definition fill_post (n : Z) h (r : Z -> Z) F p n0 h0 F0 qs (c all : list Z) (m : Z) (x : Z * list Z) (s' : Db W) : Prop :=
  (exists h' ws', prep (pPager s') h' ws' r) /\ (x.1 <> 0 -> reliable (W := W) -> 2 ^ 31 <= m) /\
  (x.1 = 0 -> x.2 = c /\ exists h' ws' ps F', prep (pPager s') h' ws' r /\ pages_ok pBt (nPage s') h' r F' /\ grown n0 h0 F0 (nPage s') h' F' (qs ++ ps) /\ ochain h' (p :: ps) all /\ ptr_ok (nPage s') h' F' /\
    frame_but n h h' F p /\ nPage s' <= m).

Definition fill_pre (s : Db W) h ws r F p d pre n0 h0 F0 (r0 : Z -> Z) qs (fuel : nat) : Prop :=
  on_page s h ws r F p d pre /\ (length (frees F) < fuel)%nat /\ pages_ok pBt n0 h0 r0 F0 /\ grown n0 h0 F0 (nPage s) h F qs /\ p ∈ qs.

Lemma fill_done s h ws r F p d pre n0 h0 F0 r0 qs fuel c : fill_pre s h ws r F p d pre n0 h0 F0 r0 qs fuel -> (forall q, 0 <= r q) -> 0 < r 1 -> pre <> [] ->
  does (releasePage p ;; mret (SQLITE_OK, c)) s (fun x s' => others s s' /\ fill_post (nPage s) h r F p n0 h0 F0 qs c pre (nPage s) x s').
Proof.
  intros (Hop & _ & _ & Hg & _) Hr0 Hr1 Hne. destruct (op_good _ _ _ _ _ _ _ _ Hop) as (Hb & Hl & Hu & Hp1 & Hu4). pose proof (Hr0 p). destruct Hop as [Hw Hok Hd Hpw Hpr Hreg HpF Hlink Hpre Hpfit Hptr].
  apply does_bind. eapply does_release; [exact Hw|refs_eq|]. intros w Hw2. apply does_ret. assert (prep w h ws r) as Hw3 by (eapply prep_refs; [exact Hw2|refs_eq]). split; [done|]. split; [by eexists _, _|]. split; [done|]. intros _. split; [done|].
  exists h, ws, [], F. split; [exact Hw3|]. split.
  { eapply pages_refs; [exact Hok| |done|done]. intros q Hq. pose proof (po_refs _ _ _ _ _ Hok q Hq) as Hz. pose proof (Hr0 q). unfold bump in Hz. destruct (q =? p); lia. }
  rewrite app_nil_r. split; [exact Hg|]. split; [|split; [exact Hptr|split; [done|cbn; lia]]]. split; [done|]. exists d. split; [done|]. split; [done|]. rewrite Z.min_r by lia. rewrite take_ge, drop_ge by lia. done.
Qed.

Lemma fill_post_mono n h r F p n0 h0 F0 qs c all m m' x s' : fill_post n h r F p n0 h0 F0 qs c all m x s' -> m <= m' -> fill_post n h r F p n0 h0 F0 qs c all m' x s'.
Proof.
  intros (A & B & C) Hm. split; [done|]. split; [intros Hx Hr; specialize (B Hx Hr); lia|]. intros Hx. destruct (C Hx) as (-> & h' & ws' & ps & F' & D). destruct_and! D. split; [done|]. exists h', ws', ps, F'. split_and!; try done. lia.
Qed.

Lemma others_trans (s1 s2 s3 : Db W) : others s1 s2 -> others s2 s3 -> others s1 s3.
Proof. intros [A1 A2] [B1 B2]. split; congruence. Qed.

(** A turn on a page with space, and the rest of the loop. *)
Lemma fill_step fuel turns bs src s h ws r F p d pre c n0 h0 F0 r0 qs : fill_pre s h ws r F p d pre n0 h0 F0 r0 qs fuel -> (forall q, 0 <= r q) -> 0 < us - 4 - Z.of_nat (length pre) -> bs = padded (length bs) src -> bytes src -> bs <> [] ->
  (forall bs' src' s' h' pre' d', fill_pre s' h' ws r F p d' pre' n0 h0 F0 r0 qs fuel -> (length bs' < length bs)%nat -> bs' = padded (length bs') src' -> bytes src' -> pre' ++ bs' = pre ++ bs -> pre' <> [] ->
    does (fill_loop pBt bDoTruncate fuel turns (Z.of_nat (length bs')) src' (page_fill p pre' c)) s' (fun x s'' => others s' s'' /\ fill_post (nPage s') h' r F p n0 h0 F0 qs c (pre' ++ bs') (nPage s' + 4 * Z.of_nat (length bs')) x s'')) ->
  let f := page_fill p pre c in let n := fill_n (Z.of_nat (length bs)) src (spaceLeft f) in
  does (c' ← put_at (pPayload f) (pCell f) (fill_bytes src n);
        fill_loop pBt bDoTruncate fuel turns (Z.of_nat (length bs) - n) (drop (Z.to_nat n) src)
            {| spaceLeft := spaceLeft f - n; pgnoOvfl := pgnoOvfl f; pToRelease := pToRelease f; pPrior := pPrior f; pPayload := advance (pPayload f) n; pCell := c' |}) s
    (fun x s' => others s s' /\ fill_post (nPage s) h r F p n0 h0 F0 qs c (pre ++ bs) (nPage s + 4 * (Z.of_nat (length bs) - 1)) x s').
Proof.
  intros (Hop & Hfu & Hok0 & Hg & Hpq) Hr0 Hsp Hbs Hbb Hne Hloop f n. destruct (fill_turn bs src (spaceLeft f) Hbs Hne Hsp Hbb) as (k & Hn & Hk & Hks & Hfb & Hbk & Hlen & Hd & Hbd). fold n in Hn, Hfb, Hlen, Hd, Hbd. rewrite Hn in *. rewrite Hfb.
  unfold f in *. cbn [page_fill pPayload pCell spaceLeft pgnoOvfl pToRelease pPrior advance] in *. apply does_bind. assert (length (take k bs) = k) as Hlk by (rewrite length_take; lia).
  eapply does_mono; [apply (page_write s h ws r F p d pre (take k bs) c Hop Hr0 Hbk); rewrite length_app, Hlk; lia|]. intros c' s1 (-> & w & d' & -> & Hop1).
  assert (pre ++ take k bs <> []) as Hne'. { intros [_ E]%app_eq_nil. rewrite E in Hlk. cbn in Hlk. lia. }
  pose proof (Hloop (drop k bs) (drop (Z.to_nat (Z.of_nat k)) src) (set_pager s w) (<[p := d']> h) (pre ++ take k bs) d') as IH. assert (p <> 1) as Hp1 by (pose proof (op_range _ _ _ _ _ _ _ _ Hop); lia).
  eassert (does _ _ _) as Hdo. { apply IH; [| |done|done|by rewrite <- app_assoc, take_drop|done]; [|rewrite length_drop; lia]. split; [done|]. split; [done|]. split; [done|]. split; [|done]. by eapply grown_store. }
  unfold page_fill in Hdo. rewrite length_app, Hlk in Hdo. rewrite Hlen. replace (us - 4 - Z.of_nat (length pre) - Z.of_nat k) with (us - 4 - Z.of_nat (length pre + k)) by lia. replace (4 + Z.of_nat (length pre) + Z.of_nat k) with (4 + Z.of_nat (length pre + k)) by lia.
  eapply does_mono; [exact Hdo|]. intros x s' [Ho HQ]. split; [done|]. rewrite <- app_assoc, take_drop in HQ. eapply fill_post_mono in HQ; [|cbn [set_pager nPage]; rewrite length_drop; instantiate (1 := nPage s + 4 * (Z.of_nat (length bs) - 1)); lia].
  destruct HQ as (A & B & C). split; [done|]. split; [done|]. intros Hx. destruct (C Hx) as (-> & h' & ws' & ps & F' & D1 & D2 & D3 & D4 & D5 & D6 & D7). split; [done|]. exists h', ws', ps, F'. split_and!; try done.
  intros u Hu1 Hun HuF Hup Hui. rewrite D6 by done. by apply lookup_insert_ne.
Qed.

Lemma fill_page_ok fuel turns : forall bs src s h ws r F p d pre c n0 h0 F0 r0 qs, fill_pre s h ws r F p d pre n0 h0 F0 r0 qs fuel -> (forall q, 0 <= r q) -> 0 < r 1 -> (length bs < turns)%nat -> bs = padded (length bs) src -> bytes src -> pre ++ bs <> [] ->
  does (fill_loop pBt bDoTruncate fuel turns (Z.of_nat (length bs)) src (page_fill p pre c)) s (fun x s' => others s s' /\ fill_post (nPage s) h r F p n0 h0 F0 qs c (pre ++ bs) (nPage s + 4 * Z.of_nat (length bs)) x s').
Proof.
  induction turns as [|turns IH]; intros bs src s h ws r F p d pre c n0 h0 F0 r0 qs Hpre Hr0 Hr1 Ht Hbs Hbb Hne; [lia|]. cbn [fill_loop]. destruct (Z.leb_spec (Z.of_nat (length bs)) 0) as [Hz|Hz].
  { destruct bs; [|cbn in Hz; lia]. rewrite app_nil_r in *. cbn [releaseOpt page_fill pToRelease pCell length Z.of_nat Z.mul]. rewrite Z.add_0_r. by eapply fill_done. }
  assert (bs <> []) as Hbne by (intros ->; cbn in Hz; lia). destruct (decide (Z.of_nat (length pre) = us - 4)) as [Hfull|Hsp].
  - pose proof Hpre as (Hop & Hfu & Hok0 & Hg & Hpq). apply does_bind. eapply does_mono; [by eapply page_next|]. intros [rc f] s1 (Ho & Hf & Hgood). cbn [fst snd] in *. destruct (Z.eqb_spec rc SQLITE_OK) as [->|Hrc]; cbn [negb].
    2: { apply does_ret. split; [done|]. destruct (Hf Hrc) as (A & -> & B). split; [done|]. split; [|done]. intros _ Hre. specialize (B Hre). lia. }
    destruct (Hgood eq_refl) as (q & h1 & ws1 & F1 & dq & d' & -> & Hop1 & Hd' & Hlk & Hsl & Hpq' & HpF1 & Hg1 & Hfr & Hn1 & Hfu1 & HF1 & Hqo). pose proof (op_good _ _ _ _ _ _ _ _ Hop1) as (_ & _ & _ & _ & Hu4).
    eapply does_mono; [eapply (fill_step fuel turns bs src s1 h1 ws1 r F1 q dq [] c n0 h0 F0 r0 (qs ++ [q])); [|done|cbn; lia|done|done|done|]|].
    + split; [done|]. split; [done|]. split; [done|]. split; [done|]. apply elem_of_app. right. left.
    + intros bs' src' s' h' pre' d2 Hpre' Hlt Hbs' Hbb' _ Hne'. apply (IH _ _ _ _ _ _ _ _ _ _ _ _ _ _ _ _ Hpre'); try done; [lia|]. by intros [? _]%app_eq_nil.
    + intros x s' [Ho2 HQ]. split; [by eapply others_trans|]. eapply fill_post_mono in HQ; [|instantiate (1 := nPage s + 4 * Z.of_nat (length bs)); lia]. destruct HQ as (A & B & C). split; [done|]. split; [done|]. intros Hx.
      destruct (C Hx) as (-> & h' & ws' & ps & F' & D1 & D2 & D3 & D4 & D5 & D6 & D7). split; [done|]. exists h', ws', (q :: ps), F'. pose proof (op_range _ _ _ _ _ _ _ _ Hop) as Hpr. pose proof (op_regular _ _ _ _ _ _ _ _ Hop) as [_ Hreg]. split; [done|]. split; [done|]. split; [by rewrite <- app_assoc in D3|]. split; [|split; [done|split; [|done]]].
      * split; [done|]. exists d'. split; [rewrite D6; [done|lia|lia|done|done|done]|]. split; [done|]. rewrite length_app. rewrite Z.min_l by lia. replace (Z.to_nat (us - 4)) with (length pre) by lia. rewrite take_app_length, drop_app_length. by split.
      * intros u Hu1 Hun HuF Hup Hui. rewrite D6; [by apply Hfr|done|lia|intros Hx'; by apply HuF, HF1| |done]. intros ->.
        destruct Hqo; [done|lia].
  - assert (0 < us - 4 - Z.of_nat (length pre)) as Hsp0. { destruct Hpre as [Hop _]. pose proof (op_fit _ _ _ _ _ _ _ _ Hop). lia. }
    apply does_bind. unfold fill_space at 1. cbn [page_fill spaceLeft]. rewrite (proj2 (Z.eqb_neq _ 0)) by lia. apply does_ret. cbn [negb Z.eqb SQLITE_OK].
    eapply does_mono; [eapply (fill_step fuel turns bs src s h ws r F p d pre c n0 h0 F0 r0 qs); [done|done|done|done|done|done|]|].
    + intros bs' src' s' h' pre' d2 Hpre' Hlt Hbs' Hbb' _ Hne'. apply (IH _ _ _ _ _ _ _ _ _ _ _ _ _ _ _ _ Hpre'); try done; [lia|]. by intros [? _]%app_eq_nil.
    + intros x s' [Ho2 HQ]. split; [done|]. eapply fill_post_mono; [exact HQ|]. lia.
Qed.

(** ** The part of the payload in the cell *)

Lemma splice_nil c i : splice c i [] = c.
Proof. unfold splice. cbn [app length]. by rewrite Nat.add_0_r, take_drop. Qed.

Definition cell_fill (i : Z) (sp : nat) (iov : Z) (c : list Z) : Fill :=
  {| spaceLeft := Z.of_nat sp; pgnoOvfl := 0; pToRelease := None; pPrior := InCell iov; pPayload := InCell i; pCell := c |}.
(** The cell with the start of the payload and the number of the first overflow page. *)
Definition cell_with (c : list Z) (i : Z) (loc : list Z) (iov : Z) (ps : list Z) : list Z := let c := splice c i loc in match ps with [] => c | p :: _ => splice c iov (enc4 p) end.

Definition cell_post (s : Db W) h (r : Z -> Z) F (i : Z) (sp : nat) (iov : Z) (c bs : list Z) (x : Z * list Z) (s' : Db W) : Prop := others s s' /\ (exists h' ws', prep (pPager s') h' ws' r) /\
  (x.1 <> 0 -> reliable (W := W) -> 2 ^ 31 <= nPage s + 4 * Z.of_nat (length bs)) /\
  (x.1 = 0 -> exists h' ws' ps F', prep (pPager s') h' ws' r /\ pages_ok pBt (nPage s') h' r F' /\ grown (nPage s) h F (nPage s') h' F' ps /\ ochain h' ps (drop sp bs) /\ ptr_ok (nPage s') h' F' /\ x.2 = cell_with c i (take sp bs) iov ps).

(** The first overflow page. *)
Lemma fill_first fuel turns bs src s h ws r F i iov c : prep (pPager s) h ws r -> pages_ok pBt (nPage s) h r F -> ptr_ok (nPage s) h F -> (length (frees F) < fuel)%nat -> bs = padded (length bs) src -> bytes src -> bs <> [] -> (length bs < S turns)%nat ->
  does (fill_loop pBt bDoTruncate fuel (S turns) (Z.of_nat (length bs)) src (cell_fill i 0 iov c)) s (cell_post s h r F i 0 iov c bs).
Proof.
  intros Hw Hok [Ht Hli] Hfu Hbs Hbb Hne Htu. pose proof (po_size _ _ _ _ _ Hok) as Hn. assert (0 < length bs)%nat as Hl0 by (destruct bs; [done|cbn; lia]). cbn [fill_loop]. rewrite (proj2 (Z.leb_gt _ _)) by lia.
  unfold fill_space at 1. cbn [cell_fill spaceLeft pgnoOvfl pToRelease pPrior pPayload pCell Z.of_nat Z.eqb releaseOpt]. apply does_bind, does_bind.
  eapply does_mono; [apply (new_overflow_ok fuel 0 s h ws r F Hw Hok Hfu); [lia|]|]. { intros H0%(po_range _ _ _ _ _ Hok). lia. }
  intros [rc q] s1 (h1 & ws1 & Hw1 & Ho & Hf & Hg). cbn [fst snd] in *. destruct (Z.eqb_spec rc 0) as [->|Hrc].
  2: { rewrite !(proj2 (Z.eqb_neq rc SQLITE_OK)) by done. cbn [negb]. apply does_bind, does_ret, does_ret. rewrite !(proj2 (Z.eqb_neq rc SQLITE_OK)) by done. cbn [negb]. apply does_ret. split; [done|]. split; [by eexists _, _|]. split; [|done]. intros _ Hre. specialize (Hf Hrc Hre). lia. }
  destruct (Hg eq_refl) as (F1 & Hok1 & Hg1 & Hsome & Hqw & Hwk & Ht1 & Hl1 & He1 & Hun). destruct (gr_new _ _ _ _ _ _ _ Hg1 q ltac:(left)) as (Hq & Hqr & HqF & Hqo). pose proof (gr_size _ _ _ _ _ _ _ Hg1) as Hn1. cbn [length] in Hn1.
  assert (forall q, 0 <= r q) as Hr0 by apply Hok. assert (0 < r 1) as Hr1 by apply Hok. change (0 =? SQLITE_OK) with true. cbn [negb put_at]. apply does_bind, does_ret, does_bind, does_ret.
  assert (linked (nPage s1) h1 F1 []) as Hl2.
  { intros Hav u p Hm Hu _ He. apply (Hl1 Hli Hav u p Hm Hu); [|done]. rewrite list_elem_of_singleton. intros ->. rewrite (He1 Hav) in He. by injection He. }
  eapply (page_start _ _ s1 h1 ws1 r F1 q); [done|done|done|done|done|done|done|by apply Ht1|done|by apply Hun|done|]. intros w d' Hop. apply does_ret. change (0 =? SQLITE_OK) with true. cbn [negb]. pose proof (op_good _ _ _ _ _ _ _ _ Hop) as (_ & _ & _ & _ & Hu4).
  set (c' := splice c iov (enc4 q)). set (s2 := set_pager s1 w). assert (nPage s2 = nPage s1) as En2 by done.
  assert (grown (nPage s) h F (nPage s2) (<[q := d']> h1) F1 [q]) as Hg2 by (apply grown_store with (r := r); [done|done|left]).
  pose proof (fill_step fuel turns bs src s2 (<[q := d']> h1) ws1 r F1 q d' [] c' (nPage s) h F r [q]) as Hst. unfold page_fill in Hst. cbn [length Z.of_nat spaceLeft pgnoOvfl pToRelease pPrior pPayload pCell app] in Hst. rewrite Z.sub_0_r in Hst.
  eapply does_mono; [apply Hst; [|done|lia|done|done|done|]|].
  - split; [done|]. split; [|split; [done|split; [done|left]]]. eapply Nat.le_lt_trans; [|exact Hfu]. eapply frees_shrink; [exact Hok|exact Hok1|exact Hg1].
  - intros bs' src' s' h' pre' d2 Hpre' Hlt Hbs' Hbb' Eb Hne'. pose proof (fill_page_ok fuel turns bs' src' s' h' ws1 r F1 q d2 pre' c' (nPage s) h F r [q] Hpre' Hr0 Hr1 ltac:(lia) Hbs' Hbb') as Hlp. unfold page_fill in Hlp. apply Hlp. by intros [? _]%app_eq_nil.
  - intros x s' [Ho2 (A & B & C)]. split; [by eapply others_trans|]. split; [done|]. split; [intros Hx Hre; specialize (B Hx Hre); lia|]. intros Hx. destruct (C Hx) as (-> & h' & ws' & ps & F' & D1 & D2 & D3 & D4 & D5 & D6 & D7). exists h', ws', (q :: ps), F'.
    rewrite drop_0, take_0. split_and!; try done. unfold cell_with. by rewrite splice_nil.
Qed.

Lemma fill_cell_ok fuel turns : forall bs src s h ws r F i sp iov c, prep (pPager s) h ws r -> pages_ok pBt (nPage s) h r F -> ptr_ok (nPage s) h F -> (length (frees F) < fuel)%nat -> bs = padded (length bs) src -> bytes src -> (length bs < turns)%nat ->
  0 <= i -> i + Z.of_nat (Nat.min sp (length bs)) <= Z.of_nat (length c) ->
  does (fill_loop pBt bDoTruncate fuel turns (Z.of_nat (length bs)) src (cell_fill i sp iov c)) s (cell_post s h r F i sp iov c bs).
Proof.
  induction turns as [|turns IH]; intros bs src s h ws r F i sp iov c Hw Hok Hptr Hfu Hbs Hbb Ht Hi Hc; [lia|]. destruct (decide (bs = [])) as [->|Hne].
  { cbn [fill_loop length Z.of_nat Z.leb Z.compare cell_fill pToRelease releaseOpt pCell]. apply does_bind, does_ret, does_ret. split; [done|]. split; [by eexists _, _|]. split; [done|]. intros _. exists h, ws, [], F. rewrite take_nil, drop_nil. split; [done|]. split; [done|]. split; [by eapply grown_refl|]. split; [done|]. split; [done|]. cbn. by rewrite splice_nil. }
  assert (0 < length bs)%nat as Hl0 by (destruct bs; [done|cbn; lia]). destruct sp as [|sp']; [by eapply fill_first|]. set (sp := S sp') in *. cbn [fill_loop]. rewrite (proj2 (Z.leb_gt _ _)) by lia.
  apply does_bind. unfold fill_space at 1. cbn [cell_fill spaceLeft]. rewrite (proj2 (Z.eqb_neq _ 0)) by lia. apply does_ret. change (SQLITE_OK =? SQLITE_OK) with true. cbn [negb pPayload pCell put_at pgnoOvfl pToRelease pPrior advance spaceLeft cell_fill]. cbv zeta.
  destruct (fill_turn bs src (Z.of_nat sp) Hbs Hne ltac:(lia) Hbb) as (k & -> & Hk & Hks & -> & Hbk & -> & Hd & Hbd). rewrite Nat2Z.id in *. apply does_bind, does_ret. assert (length (take k bs) = k) as Hlk by (rewrite length_take; lia).
  assert (length (splice c i (take k bs)) = length c) as Hlc by (apply length_splice; lia).
  pose proof (IH (drop k bs) (drop k src) s h ws r F (i + Z.of_nat k) (sp - k)%nat iov (splice c i (take k bs)) Hw Hok Hptr Hfu Hd Hbd ltac:(rewrite length_drop; lia) ltac:(lia) ltac:(rewrite length_drop; lia)) as Hlp.
  unfold cell_fill in Hlp. replace (Z.of_nat (sp - k)) with (Z.of_nat sp - Z.of_nat k) in Hlp by lia. eapply does_mono; [exact Hlp|]. intros x s' (A & B & C & D). split; [done|]. split; [done|]. split; [intros Hx Hre; specialize (C Hx Hre); rewrite length_drop in C; lia|].
  intros Hx. destruct (D Hx) as (h' & ws' & ps & F' & D1 & D2 & D3 & D4 & D5 & D6). exists h', ws', ps, F'. rewrite drop_drop in D4. replace (k + (sp - k))%nat with sp in D4 by lia. split_and!; try done. rewrite D6. unfold cell_with.
  assert (splice (splice c i (take k bs)) (i + Z.of_nat k) (take (sp - k) (drop k bs)) = splice c i (take sp bs)) as ->; [|done].
  pose proof (splice_app c i (take k bs) (take (sp - k) (drop k bs))) as Hsa. rewrite Hlk in Hsa. rewrite Hsa; [|done|rewrite length_take, length_drop; lia]. f_equal. rewrite <- (take_drop k bs) at 3. rewrite take_app, Hlk, take_take. do 2 f_equal. lia.
Qed.
End overflow.
