(* ===== verification/BtClear.v ===== *)
(** getOverflowPage follows a chain of overflow pages with or without the pointer map, and clearCell gives the pages of a chain back to the list of free pages. *)
From S2P Require Import Prelude Varint IntArith Bitvec Mem Page PageSpace PageCell Pager BtPages BtRep BtPtrmap BtList BtAlloc BtStore BtFree BtOverflow.
Local Open Scope Z_scope.
Local Open Scope c_scope.

Section clear.
Context {W : Type} {ops : PagerOps W} (pBt : BtShared) {HP : Pager W (pageSize pBt)} (Hsz : sizes_ok pBt) (alloc : nat -> bool).
Abbreviation us := (usableSize pBt).

Definition next_post (s : Db W) h (ws : gset Z) r ovfl (ppPage : bool) (d : list Z) (x : Z * Z * bool) (s' : Db W) : Prop := let '(rc, next, b) := x in exists w, s' = set_pager s w /\ prep w h ws (if b : bool then bump r ovfl 1 else r) /\ (b = true -> ppPage = true) /\
  (rc = 0 -> next = get4byte d 0) /\ (rc <> 0 -> b = false /\ (reliable (W := W) -> False)).

(** The pointer map gives the same page as the link. *)
Lemma getOverflowPage_ok ovfl ppPage s h ws r F X d : prep (pPager s) h ws r -> pages_ok pBt (nPage s) h r F -> typed pBt (nPage s) h -> linked pBt (nPage s) h F X -> (forall x, x ∈ X -> x <= ovfl) -> 2 <= ovfl <= nPage s -> h !! ovfl = Some d ->
  does (getOverflowPage pBt ovfl ppPage) s (next_post s h ws r ovfl ppPage d).
Proof.
  intros Hw Hok Ht Hli HX Ho Hd. pose proof (po_size _ _ _ _ _ Hok) as Hn. assert (forall q, 0 <= r q) as Hr0 by apply Hok. pose proof (Hr0 ovfl) as Hro. unfold getOverflowPage. apply does_bind.
  assert (forall w, prep w h ws r -> does (rc ← btreeGetPage ovfl (if ppPage then 0 else PAGER_GET_READONLY);
    if negb (rc =? SQLITE_OK) then mret (rc, 0, false) else d ← load ovfl; (if ppPage then mret tt else releasePage ovfl) ;; mret (SQLITE_OK, get4byte d 0, ppPage)) (set_pager s w) (next_post s h ws r ovfl ppPage d)) as Hgo.
  { intros w Hw1. apply does_bind. eapply does_fetch; [exact Hw1|by destruct ppPage| |].
    - intros rc w2 Hrc Hrel Hw2. rewrite (proj2 (Z.eqb_neq _ SQLITE_OK)) by done. cbn [negb]. apply does_ret. exists w2. split; [done|]. split; [done|]. split; [done|]. split; [done|]. intros _. split; [done|]. intros Hre. specialize (Hrel Hre). lia.
    - intros w2 _ Hw2. cbn [negb Z.eqb SQLITE_OK]. apply does_bind. eapply does_load; [exact Hw2|exact Hd|]. destruct ppPage.
      + apply does_bind, does_ret, does_ret. exists w2. done.
      + apply does_bind. eapply does_release; [exact Hw2|refs_eq|]. intros w3 Hw3. apply does_ret. exists w3. split; [done|]. split; [eapply prep_refs; [exact Hw3|refs_eq]|]. done. }
  assert (s = set_pager s (pPager s)) as Es by by destruct s. unfold guess_next. destruct (autoVacuum pBt) eqn:Hav; [|apply does_ret; rewrite Es; by apply Hgo].
  apply does_bind. rewrite uwrap_small by (unfold is_u; lia). apply does_skipped; [done|lia|]. intros g Hg Hgp Hgi. apply does_bind, does_get. destruct (Z.leb_spec g (nPage s)) as [Hle|Hgt]; [|apply does_ret; rewrite Es; by apply Hgo].
  assert (mapped pBt g) as Hm by (split; [lia|done]). destruct (mapped_spec pBt Hsz g Hm) as (Hr & Hi & _). apply does_bind. eapply does_mono; [eapply (ptrmapGet_ok pBt Hsz g s h ws r Hw Hm); [|done]|]. { apply (po_map _ _ _ _ _ Hok); [done|lia|done]. }
  intros [[rc ty] pa] s1 (w & -> & Hw1 & He & Hbad). apply does_ret. destruct (Z.eqb_spec rc SQLITE_OK) as [->|Hrc]; cbn [andb negb].
  - specialize (He eq_refl). destruct (Z.eqb_spec ty PTRMAP_OVERFLOW2) as [->|]; [|by apply Hgo]. destruct (Z.eqb_spec pa ovfl) as [->|]; cbn [andb]; [|by apply Hgo]. apply does_ret. exists w. split; [done|]. split; [done|]. split; [done|]. split; [|done]. intros _.
    destruct (Hli Hav g ovfl Hm Hle) as (_ & _ & _ & d0 & Hd0 & Hg0); [|done|congruence]. intros Hx%HX. lia.
  - apply does_ret. exists w. split; [done|]. split; [done|]. split; [done|]. split; [done|]. intros _. split; [done|]. intros Hre. destruct (Ht Hav g Hm Hle) as (ty' & pa' & He' & Hty). destruct (Hbad Hrc Hre _ _ He'); lia.
Qed.

(** ** Clearing a chain *)

(** The pages of a chain are in use. *)
Definition in_use (n : Z) (r : Z -> Z) (F : flist) (ps : list Z) : Prop := NoDup ps /\ forall p, p ∈ ps -> 2 <= p <= n /\ regular pBt p /\ p ∉ frees F /\ r p = 0.

(** The pages [ps] have become free, and nothing else has changed. *)
Record cleared (n : Z) (h : gmap Z (list Z)) (r : Z -> Z) (F : flist) (b : option Bitvec) (ps : list Z) (h' : gmap Z (list Z)) (F' : flist) (b' : option Bitvec) : Prop := {
  cl_ok : pages_ok pBt n h' r F';
  cl_frees : frees F' ≡ₚ ps ++ frees F;
  cl_page q : q <> 1 -> q ∉ ps -> q ∉ frees F -> (autoVacuum pBt = true -> PTRMAP_ISPAGE pBt q = false) -> h' !! q = h !! q;
  cl_one d : h !! 1 = Some d -> exists d', h' !! 1 = Some d' /\ length d' = length d /\ forall j, 0 <= j -> j < 32 \/ 40 <= j -> rd d' j = rd d j;
  cl_entry q : autoVacuum pBt = true -> mapped pBt q -> q <= n -> q ∉ ps -> entry pBt h' q = entry pBt h q;
  cl_content q : has_content b q -> has_content b' q;
  cl_ptr : ptr_ok pBt n h' F' }.

Definition clear_post (s : Db W) h r F ps (rc : Z) (s' : Db W) : Prop := exists h' ws', prep (pPager s') h' ws' r /\ nPage s' = nPage s /\ content_wf (pHasContent s') /\
  (rc <> 0 -> reliable (W := W) -> (forall k, alloc k = true) -> False) /\ (rc = 0 -> exists F', cleared (nPage s) h r F (pHasContent s) ps h' F' (pHasContent s')).

(** One page of the chain becomes free. *)
Lemma freed_step n h r F b p d ps h1 F1 b1 r1 : freed pBt n h r1 F b p h1 F1 b1 -> pages_ok pBt n h r F -> r p = 0 -> (forall q, q <> p -> r1 q = r q) -> typed pBt n h -> linked pBt n h F [p] -> h !! p = Some d -> get4byte d 0 = first_page ps ->
  2 <= p <= n -> regular pBt p -> p ∉ frees F -> pages_ok pBt n h1 r F1 /\ typed pBt n h1 /\ linked pBt n h1 F1 [first_page ps].
Proof.
  intros Hfr Hok Hrp Hr1 Ht Hli Hd Hlk Hp Hreg HpF. pose proof (fr_frees _ _ _ _ _ _ _ _ _ _ Hfr) as HP'. assert (forall q, PTRMAP_ISPAGE pBt q = false -> autoVacuum pBt = true -> q <> ptrmapPageno pBt p) as Hnm.
  { intros q Hq Hav ->. destruct (free_mapped pBt Hsz _ _ _ _ p Hok Hav Hp Hreg) as [Hm _]. destruct (mapped_spec pBt Hsz p Hm) as (_ & Hi & _). congruence. }
  split; [|split].
  - eapply pages_refs; [apply Hfr| |apply Hok|apply Hok]. intros q [Hq|Hq]; [|apply (po_refs _ _ _ _ _ Hok); by right]. rewrite HP' in Hq. apply elem_of_cons in Hq as [->|Hq]; [done|]. apply (po_refs _ _ _ _ _ Hok). by left.
  - intros Hav q Hm Hq. destruct (decide (q = p)) as [->|Hne].
    + destruct (po_type _ _ _ _ _ (fr_ok _ _ _ _ _ _ _ _ _ _ Hfr) p Hav) as [pa He]; [rewrite HP'; left|]. exists PTRMAP_FREEPAGE, pa. done.
    + rewrite (fr_entry _ _ _ _ _ _ _ _ _ _ Hfr) by done. by apply Ht.
  - intros Hav u q Hm Hu Hn He. destruct (decide (u = p)) as [->|Hne].
    { destruct (po_type _ _ _ _ _ (fr_ok _ _ _ _ _ _ _ _ _ _ Hfr) p Hav) as [pa He']; [rewrite HP'; left|]. rewrite He in He'. discriminate He'. }
    rewrite (fr_entry _ _ _ _ _ _ _ _ _ _ Hfr) in He by done. destruct (Hli Hav u q Hm Hu ltac:(by rewrite list_elem_of_singleton) He) as (Hq & Hqr & HqF & d0 & Hd0 & Hg0). split; [done|]. split; [done|].
    assert (q <> p) as Hqp. { intros ->. rewrite Hd in Hd0. injection Hd0 as <-. apply Hn. rewrite Hlk in Hg0. subst u. left. }
    split; [rewrite HP', elem_of_cons; by intros [?|?]|]. exists d0. split; [|done]. rewrite (fr_page _ _ _ _ _ _ _ _ _ _ Hfr); [done|lia|done|done|]. intros _. apply Hnm; [by apply Hqr|done].
Qed.

Lemma ovfl_loop_ok ps : forall s h ws r F bs, prep (pPager s) h ws r -> pages_ok pBt (nPage s) h r F -> typed pBt (nPage s) h -> linked pBt (nPage s) h F [first_page ps] -> content_wf (pHasContent s) -> in_use (nPage s) r F ps -> ochain pBt h ps bs ->
  does (ovfl_loop pBt alloc (length ps) (first_page ps)) s (clear_post s h r F ps).
Proof.
  induction ps as [|p ps IH]; intros s h ws r F bs Hw Hok Ht Hli Hcw [Hnd Huse] Hch; cbn [length ovfl_loop first_page].
  { apply does_ret. exists h, ws. split; [done|]. split; [done|]. split; [done|]. split; [done|]. intros _. exists F. split; try done; [by intros d Hd; exists d|]. split; [done|]. intros Hav u q Hm Hu _. apply (Hli Hav u q Hm Hu). rewrite list_elem_of_singleton. intros ->. destruct Hm as [Hm _]. cbn in Hm. lia. }
  destruct (Huse p ltac:(left)) as (Hp & Hreg & HpF & Hrp). apply NoDup_cons in Hnd as [Hpps Hnd]. destruct Hch as (Hne & d & Hd & Hlk & Hsl & Hch). pose proof (po_size _ _ _ _ _ Hok) as Hn. assert (forall q, 0 <= r q) as Hr0 by apply Hok.
  apply does_bind, does_get. rewrite (proj2 (Z.ltb_ge p 2)), (proj2 (Z.ltb_ge (nPage s) p)) by lia. cbn [orb]. apply does_bind.
  (* the page is freed and released, and the rest of the chain is cleared *)
  assert (forall w b next, prep w h ws (if b : bool then bump r p 1 else r) -> (ps <> [] -> next = first_page ps) ->
    does (s1 ← pget; rc ← (if b && negb (refs (pPager s1) p =? 1) then mret SQLITE_CORRUPT else freePage2 pBt alloc b p);
          (if b then releasePage p else mret tt) ;; if negb (rc =? SQLITE_OK) then mret rc else ovfl_loop pBt alloc (length ps) next) (set_pager s w) (clear_post s h r F (p :: ps))) as Hfree.
  { intros w b next Hw1 Hnext. apply does_bind, does_get, does_bind. assert (b && negb (refs (pPager (set_pager s w)) p =? 1) = false) as ->.
    { destruct b; [|done]. cbn [set_pager pPager]. rewrite (pr_refs _ _ _ _ Hw1). unfold bump. by rewrite Z.eqb_refl, Hrp. }
    set (r1 := if b then bump r p 1 else r) in *. assert (pages_ok pBt (nPage s) h r1 F) as Hok1.
    { eapply pages_refs; [exact Hok| | |].
      - intros q Hq. assert (q <> p) by (intros ->; destruct Hq; [done|lia]). unfold r1, bump. destruct b; [rewrite (proj2 (Z.eqb_neq q p)) by done|]; by apply (po_refs _ _ _ _ _ Hok).
      - pose proof (po_one _ _ _ _ _ Hok). unfold r1. destruct b; refs_eq.
      - intros q. pose proof (Hr0 q). unfold r1. destruct b; refs_eq. }
    eapply does_mono; [apply (freePage2_ok pBt Hsz alloc (set_pager s w) h r1 F p Hok1 Hp Hreg HpF Hcw b ws Hw1)|]. intros rc s2 (h2 & ws2 & Hw2 & Hn2 & Hcw2 & Hfail & Hgood). cbn [set_pager nPage pHasContent] in *.
    assert (forall s3, prep (pPager s3) h2 ws2 r -> nPage s3 = nPage s -> pHasContent s3 = pHasContent s2 -> does (if negb (rc =? SQLITE_OK) then mret rc else ovfl_loop pBt alloc (length ps) next) s3 (clear_post s h r F (p :: ps))) as Hend.
    { intros s3 Hw3 Hn3 Hc3. destruct (Z.eqb_spec rc SQLITE_OK) as [->|Hrc]; cbn [negb].
      2: { apply does_ret. exists h2, ws2. rewrite Hc3. split; [done|]. split; [done|]. split; [done|]. split; [done|]. done. }
      destruct (Hgood eq_refl) as [F1 Hfr]. assert (forall q, q <> p -> r1 q = r q) as Hr1 by (intros q Hq; unfold r1, bump; destruct b; [by rewrite (proj2 (Z.eqb_neq q p))|done]).
      destruct (freed_step _ _ _ _ _ _ _ ps _ _ _ _ Hfr Hok Hrp Hr1 Ht Hli Hd Hlk Hp Hreg HpF) as (Hok2 & Ht2 & Hli2). pose proof (fr_frees _ _ _ _ _ _ _ _ _ _ Hfr) as HP'.
      assert (forall q, PTRMAP_ISPAGE pBt q = false -> autoVacuum pBt = true -> q <> ptrmapPageno pBt p) as Hnm.
      { intros q Hq Hav ->. destruct (free_mapped pBt Hsz _ _ _ _ p Hok Hav Hp Hreg) as [Hm _]. destruct (mapped_spec pBt Hsz p Hm) as (_ & Hi & _). congruence. }
      assert (ovfl_loop (H := ops) pBt alloc (length ps) next = ovfl_loop pBt alloc (length ps) (first_page ps)) as ->. { destruct ps; [done|]. by rewrite Hnext. }
      eapply does_mono; [eapply (IH s3 h2 ws2 r F1 (drop (Z.to_nat (us - 4)) bs)); rewrite ?Hn3, ?Hc3; try done|].
      - split; [done|]. intros q Hq. destruct (Huse q ltac:(by right)) as (A & B & C & D). split; [done|]. split; [done|]. split; [|done]. rewrite HP', elem_of_cons. intros [->|?]; done.
      - apply (ochain_ext pBt h); [done|]. intros q Hq. destruct (Huse q ltac:(by right)) as (A & B & C & D). apply (fr_page _ _ _ _ _ _ _ _ _ _ Hfr); [lia|by intros ->|done|]. intros Hav. apply Hnm; [by apply B|done].
      - intros rc' s4 (h4 & ws4 & Hw4 & Hn4 & Hcw4 & Hf4 & Hg4). rewrite Hn3, Hc3 in *. exists h4, ws4. split; [done|]. split; [done|]. split; [done|]. split; [done|]. intros Hrc'. destruct (Hg4 Hrc') as [F4 [C1 C2 C3 C4 C5 C6 C7]]. exists F4. split; [done| | | | |intros q Hq; by apply C6, (fr_content _ _ _ _ _ _ _ _ _ _ Hfr)|done].
        + rewrite C2, HP'. solve_Permutation.
        + intros q Hq1 [Hqp Hqps]%not_elem_of_cons HqF Hqi. rewrite C3, (fr_page _ _ _ _ _ _ _ _ _ _ Hfr); try done; [by intros Hav; apply Hnm; [by apply Hqi|]|]. rewrite HP', elem_of_cons. by intros [?|?].
        + intros d0 Hd0. destruct (fr_one _ _ _ _ _ _ _ _ _ _ Hfr d0 Hd0) as (d1 & Hd1 & L1 & R1). destruct (C4 d1 Hd1) as (d2 & Hd2 & L2 & R2). exists d2. split; [done|]. split; [congruence|]. intros j Hj0 Hj. by rewrite R2, R1.
        + intros q Hav Hm Hq [Hqp Hqps]%not_elem_of_cons. rewrite C5, (fr_entry _ _ _ _ _ _ _ _ _ _ Hfr) by done. done. }
    apply does_bind. destruct b; [|apply does_ret; by apply Hend]. eapply does_release; [exact Hw2|unfold r1; refs_eq|]. intros w3 Hw3. apply Hend; [|done|done]. eapply prep_refs; [exact Hw3|unfold r1; refs_eq]. }
  assert (s = set_pager s (pPager s)) as Es by by destruct s. destruct ps as [|p2 ps].
  - apply does_ret. cbn [negb Z.eqb SQLITE_OK]. apply does_bind. eapply does_lookup; [exact Hw|]. intros b w2 Hw2. by apply Hfree.
  - eapply does_mono; [eapply (getOverflowPage_ok p true s h ws r F [p] d); try done; by intros x ->%list_elem_of_singleton|]. intros [[rc next] b] s1 (w & -> & Hw1 & _ & Hnext & Hbad). destruct (Z.eqb_spec rc SQLITE_OK) as [->|Hrc]; cbn [negb].
    2: { apply does_ret. destruct (Hbad Hrc) as [-> Hre]. exists h, ws. split; [done|]. split; [done|]. split; [done|]. split; [|done]. intros _ Hre' _. by apply Hre. }
    apply does_bind. assert (next = first_page (p2 :: ps)) as Hnx by (rewrite Hnext by done; done). destruct b; [apply does_ret; by apply Hfree|]. eapply does_lookup; [exact Hw1|]. intros b w2 Hw2. by apply Hfree.
Qed.

(** ** Cells with a payload *)

(** The payload of the cell [c] of page [P] is [bs]; the pages [ps] hold what is not in the cell. *)
Definition stored (h : gmap Z (list Z)) (P : MemPage) (c ps bs : list Z) : Prop := let info := btreeParseCellPtr pBt P c in
  nPayload info = Z.of_nat (length bs) /\ slice c (nHeader info) (nLocal info) = take (Z.to_nat (nLocal info)) bs /\ (ps <> [] -> get4byte c (iOverflow info) = first_page ps) /\ ochain pBt h ps (drop (Z.to_nat (nLocal info)) bs).

Lemma ochain_pages h ps : forall bs, ochain pBt h ps bs -> Z.of_nat (length ps) = (Z.of_nat (length bs) + (us - 4) - 1) / (us - 4).
Proof.
  destruct Hsz as [_ Hu]. induction ps as [|p ps IH]; intros bs; [intros ->; cbn [length Z.of_nat]; symmetry; apply Z.div_small; lia|]. intros (Hne & d & _ & _ & _ & Hc). specialize (IH _ Hc). cbn [length]. rewrite length_drop in IH. assert (0 < length bs)%nat by (destruct bs; [done|cbn; lia]).
  rewrite Nat2Z.inj_succ, IH, <- Z.add_1_r. destruct (decide (us - 4 <= Z.of_nat (length bs))) as [Hge|Hlt].
  - rewrite <- Z.div_add by lia. f_equal. lia.
  - assert (length bs - Z.to_nat (us - 4) = 0)%nat as -> by lia. rewrite (Z.div_small (Z.of_nat 0 + (us - 4) - 1)) by lia. apply Z.div_unique_pos with (Z.of_nat (length bs) - 1); lia.
Qed.

Context (Hbt : bt_ok pBt).

(** What the parse of a cell with a payload gives. *)
Lemma stored_info h P c ps bs : kind pBt P -> bytes c -> stored h P c ps bs -> let info := btreeParseCellPtr pBt P c in
  1 <= nHeader info <= 18 /\ 0 <= nLocal info <= Z.of_nat (length bs) /\ nLocal info <= maxLocal P /\ nPayload info = Z.of_nat (length bs) /\ nHeader info + nLocal info + (if iOverflow info =? 0 then 0 else 4) <= nSize info /\
  ((iOverflow info = 0 /\ ps = [] /\ nLocal info = Z.of_nat (length bs)) \/ (iOverflow info = nHeader info + nLocal info /\ ps <> [] /\ nLocal info < Z.of_nat (length bs))).
Proof.
  intros HK Hc (Hn & Hs & Hg & Hch). pose proof (header_range pBt P c HK Hc) as [Hi Hu]. rewrite (parse_eq pBt Hbt P c HK Hc) in *. destruct (cell_header P c) as [i n]. cbn [fst snd nPayload nHeader nLocal iOverflow nSize] in *. subst n. pose proof (local_range pBt Hbt P _ HK Hu) as [Hl _].
  unfold local_size. destruct (Z.ltb_spec (maxLocal P) (Z.of_nat (length bs))) as [Hm|Hm].
  - pose proof (local_less pBt Hbt P _ HK Hm). rewrite (proj2 (Z.eqb_neq _ 0)) by lia. split_and!; try lia. right. split; [lia|]. split; [|lia]. intros ->. cbn in Hch. apply (f_equal length) in Hch. rewrite length_drop in Hch. cbn in Hch. lia.
  - assert (local_part pBt P (Z.of_nat (length bs)) = Z.of_nat (length bs)) as E by (unfold local_part; by rewrite (proj2 (Z.ltb_ge _ _))). rewrite E in *. cbn [Z.eqb]. split_and!; try lia. left. split; [done|]. split; [|done]. rewrite drop_ge in Hch by lia. destruct ps; [done|]. by destruct Hch.
Qed.

(** Nothing but the bytes of the cell matters. *)
Lemma stored_copy h P c c' ps bs : kind pBt P -> bytes c -> bytes c' -> stored h P c ps bs -> (forall j, 0 <= j < nSize (btreeParseCellPtr pBt P c) -> rd c' j = rd c j) -> nSize (btreeParseCellPtr pBt P c) <= Z.of_nat (length c) -> nSize (btreeParseCellPtr pBt P c) <= Z.of_nat (length c') ->
  btreeParseCellPtr pBt P c' = btreeParseCellPtr pBt P c -> stored h P c' ps bs.
Proof.
  intros HK Hb Hb' Hst Hj Hl Hl' E. destruct (stored_info h P c ps bs HK Hb Hst) as (Hh & Hlo & _ & Hp & Hsz' & Hov). unfold stored in *. rewrite E in *. destruct Hst as (A & B & C & D). split; [done|]. split; [|split; [|done]].
  - rewrite <- B. apply slice_ext; try (destruct (iOverflow _ =? 0); lia). intros j Hj'. apply Hj. destruct (iOverflow _ =? 0); lia.
  - intros Hne. destruct Hov as [(_ & ? & _)|(E2 & _ & Hlt)]; [done|]. rewrite <- (C Hne). rewrite E2 in *. rewrite (proj2 (Z.eqb_neq _ 0)) in Hsz' by lia. apply get4_ext; [lia|lia|]. intros k Hk. apply Hj. lia.
Qed.

Lemma clearCell_ok P cell d s h ws r F ps bs : kind pBt P -> prep (pPager s) h ws r -> pages_ok pBt (nPage s) h r F -> ptr_ok pBt (nPage s) h F -> content_wf (pHasContent s) -> h !! pgno P = Some d -> 0 <= cell -> stored h P (cell_at d cell) ps bs -> Z.of_nat (length bs) < 2 ^ 31 ->
  cell + nSize (btreeParseCellPtr pBt P (cell_at d cell)) <= us -> in_use (nPage s) r F ps -> does (clearCell pBt alloc P cell) s (clear_post s h r F ps).
Proof.
  intros HP' Hw Hok [Ht Hli] Hcw Hd Hcell Hst Hlen Hfit Huse. destruct (prep_good _ _ _ _ _ _ Hw Hd) as [Hb Hl]. assert (bytes (cell_at d cell)) as Hbc by by apply Forall_drop. destruct (stored_info _ _ _ _ _ HP' Hbc Hst) as (Hh & Hlo & _ & Hp & Hns & Hov). destruct Hst as (_ & _ & Hg & Hch). pose proof Hsz as [Hps Hu].
  unfold clearCell. apply does_bind. eapply does_load; [exact Hw|exact Hd|]. destruct Hov as [(E & -> & E2)|(E & Hne & Hlt)].
  - rewrite E. cbn [Z.eqb]. apply does_ret. exists h, ws. split; [done|]. split; [done|]. split; [done|]. split; [done|]. intros _. exists F. split; try done. by intros d0 Hd0; exists d0.
  - rewrite E in Hns |- *. rewrite (proj2 (Z.eqb_neq _ 0)) in * by lia. rewrite (proj2 (Z.ltb_ge _ _)) by lia. rewrite <- E, Hg by done. cbv zeta. rewrite Hp. set (lo := nLocal _) in *. pose proof (ochain_pages h ps _ Hch) as Hpg. rewrite length_drop in Hpg.
    rewrite uwrap_small by (unfold is_u; lia). replace (Z.of_nat (length bs) - lo + (us - 4) - 1) with (Z.of_nat (length bs - Z.to_nat lo) + (us - 4) - 1) by lia. rewrite <- Hpg.
    assert (Z.of_nat (length ps) < 2 ^ 31) as Hps31. { rewrite Hpg. apply Z.div_lt_upper_bound; lia. } rewrite swrap_small by (try (unfold is_i; change (2 ^ (32 - 1)) with (2 ^ 31)); lia). rewrite Nat2Z.id. eapply ovfl_loop_ok; try done.
    intros Hav u q Hm Hu' _. apply (Hli Hav u q Hm Hu'). by intros ?%not_elem_of_nil.
Qed.
End clear.
