(* ===== verification/BtPayload.v ===== *)
(** fillInCell makes a cell for a payload, and accessPayload reads and changes the payload of a cell. *)
From S2P Require Import Prelude Varint IntArith Bitvec Mem Page PageSpace PageCell Pager BtPages BtRep BtPtrmap BtList BtAlloc BtStore BtFree BtOverflow BtClear.
Local Open Scope Z_scope.
Local Open Scope c_scope.

(** * The header of a cell *)

Lemma put_varint_eq c i v : 0 <= i -> i + 9 <= Z.of_nat (length c) -> is_u 64 v -> put_varint sqlite3PutVarint c i v = (sqlite3VarintLen v, splice c i (venc v)).
Proof.
  intros Hi Hl Hv. pose proof (varintLen_range v Hv). unfold put_varint. destruct (putVarint_split (drop (Z.to_nat i) c) v Hv) as (-> & He & _); [rewrite length_drop; lia|]. unfold splice. rewrite drop_drop. do 4 f_equal. lia.
Qed.
Lemma put_varint32_eq c i v : 0 <= i -> i + 9 <= Z.of_nat (length c) -> is_u 32 v -> put_varint putVarint32 c i v = (sqlite3VarintLen v, splice c i (venc v)).
Proof.
  intros Hi Hl Hv. assert (is_u 64 v) as Hv' by (unfold is_u in *; lia). pose proof (varintLen_range v Hv'). pose proof (venc_length v Hv'). unfold put_varint. rewrite putVarint32_venc; [|done|rewrite length_drop; lia]. unfold splice. rewrite drop_drop. do 4 f_equal. lia.
Qed.
Lemma drop_splice c i bs : 0 <= i -> i + Z.of_nat (length bs) <= Z.of_nat (length c) -> drop (Z.to_nat i) (splice c i bs) = bs ++ drop (Z.to_nat i + length bs) c.
Proof. intros Hi Hl. unfold splice. rewrite drop_app_length'; [done|]. rewrite length_take. lia. Qed.
Lemma getVarint_venc v rest : is_u 64 v -> bytes rest -> sqlite3GetVarint (venc v ++ rest) = (sqlite3VarintLen v, v).
Proof.
  intros Hv Hr. pose proof (varintLen_range v Hv). destruct (putVarint_split (replicate 9 0) v Hv) as (_ & _ & Hb & Hdec); [rewrite length_replicate; lia|]. rewrite getVarint_ref, <- app_assoc, Hdec by by apply Forall_app_2. done.
Qed.

Section payload.
Context {W : Type} {ops : PagerOps W} (pBt : BtShared) {HP : Pager W (pageSize pBt)} (Hsz : sizes_ok pBt) (Hbt : bt_ok pBt) (bDoTruncate : bool) (alloc : nat -> bool).
Abbreviation us := (usableSize pBt).

(** What the header says is what fillInCell was told. *)
Lemma fill_header_ok P c key n : kind pBt P -> bytes c -> 22 <= Z.of_nat (length c) -> is_i 64 key -> is_u 32 n -> (intKey P = false -> is_u 32 key) -> let '(hd, c0) := fill_header P c key n in
  bytes c0 /\ length c0 = length c /\ cell_header P c0 = (hd, if hasData P then n else if intKey P then 0 else key) /\ (intKey P = true -> cell_rowid P c0 = key) /\ childPtrSize P <= hd /\ forall j, 0 <= j < childPtrSize P -> rd c0 j = rd c j.
Proof.
  intros HK Hb Hl Hkey Hn Hidx. pose proof (k_leaf _ _ HK) as Hlf. pose proof (k_child _ _ HK) as Hch. pose proof (k_data _ _ HK) as Hd. assert (is_u 64 (u64 key)) as Hu by (apply uwrap_range; lia). assert (is_u 64 n) as Hn64 by (unfold is_u in *; lia).
  pose proof (varintLen_range _ Hu). pose proof (varintLen_range _ Hn64). pose proof (venc_length _ Hu). pose proof (venc_length _ Hn64). pose proof (venc_bytes _ Hu) as Hbu. pose proof (venc_bytes _ Hn64) as Hbn.
  assert (i64 (u64 key) = key) as Hik. { unfold swrap, uwrap, is_i in *. rewrite Zplus_mod_idemp_l, Z.mod_small; lia. }
  unfold fill_header. assert ((if leaf P =? 0 then 4 else 0) = childPtrSize P) as -> by (destruct Hlf as [E|E]; rewrite E in *; cbn; lia). destruct (hasData P) eqn:Ehd.
  - symmetry in Hd. apply andb_true_iff in Hd as [Hik' Hlf1%Z.eqb_eq]. rewrite Hlf1 in Hch. change (4 - 4 * 1) with 0 in Hch. rewrite Hch. rewrite (uwrap_small 32 n) by done. rewrite put_varint32_eq by (done || lia). cbv beta iota. rewrite Z.add_0_l. rewrite put_varint_eq; [|lia|rewrite length_splice; lia|done].
    pose proof (splice_app c 0 (venc n) (venc (u64 key)) ltac:(lia) ltac:(lia)) as Hsp. rewrite Z.add_0_l, (venc_length n) in Hsp by done. cbv beta iota. rewrite Hsp. set (e := venc n ++ venc (u64 key)). assert (Z.of_nat (length e) = Z.of_nat (length (venc n)) + Z.of_nat (length (venc (u64 key)))) as Hle by (unfold e; rewrite length_app; lia).
    assert (bytes (splice c 0 e)) as Hbs by (apply bytes_splice; [done|by apply Forall_app_2]). split; [done|]. split; [apply length_splice; lia|]. assert (splice c 0 e = venc n ++ venc (u64 key) ++ drop (length e) c) as E. { unfold splice. change (Z.to_nat 0) with 0%nat. rewrite take_0. unfold e. by rewrite <- app_assoc. }
    assert (bytes (drop (length e) c)) as Hbd by by apply Forall_drop. assert (getVarint32 (splice c 0 e) = (sqlite3VarintLen n, n)) as G1 by (rewrite E; apply getVarint32_venc; [done|by apply Forall_app_2]).
    assert (sqlite3GetVarint (drop (Z.to_nat (sqlite3VarintLen n)) (splice c 0 e)) = (sqlite3VarintLen (u64 key), u64 key)) as G2. { rewrite E. rewrite drop_app_length' by lia. by apply getVarint_venc. }
    unfold cell_header, cell_rowid. rewrite Hik', Ehd, Hch. change (Z.to_nat 0) with 0%nat. rewrite drop_0, G1. cbn [fst]. rewrite ?Z.add_0_l, G2. cbn [fst snd]. split; [done|]. split; [done|]. split; lia.
  - rewrite put_varint_eq by (done || lia). set (o := childPtrSize P) in *. set (e := venc (u64 key)) in *. assert (bytes (splice c o e)) as Hbs by by apply bytes_splice. split; [done|]. split; [apply length_splice; lia|].
    assert (drop (Z.to_nat o) (splice c o e) = e ++ drop (Z.to_nat o + length e) c) as E by (apply drop_splice; lia). assert (bytes (drop (Z.to_nat o + length e) c)) as Hbd by by apply Forall_drop. unfold cell_header, cell_rowid. fold o. rewrite Ehd, E. split; [|split].
    + destruct (intKey P); [unfold e; by rewrite getVarint_venc|]. specialize (Hidx eq_refl). unfold e. rewrite (uwrap_small 64 key) by (unfold is_u in *; lia). rewrite getVarint32_venc; [done|done|by apply Forall_drop].
    + intros _. unfold e. by rewrite getVarint_venc.
    + split; [lia|]. intros j Hj. apply rd_splice_out; lia.
Qed.

(** The parse reads the header only. *)
Lemma parse_prefix P c c' : kind pBt P -> bytes c -> bytes c' -> (forall j, 0 <= j < (cell_header P c).1 -> rd c' j = rd c j) -> btreeParseCellPtr pBt P c' = btreeParseCellPtr pBt P c /\ (intKey P = true -> cell_rowid P c' = cell_rowid P c).
Proof.
  intros HK Hb Hb' Hj. assert (intKey P = true -> cell_rowid P c' = cell_rowid P c) as Hrow.
  { intros Hik. pose proof (k_child _ _ HK) as Hch. pose proof (k_data _ _ HK) as Hd. unfold cell_header in Hj. rewrite Hik in Hj. unfold cell_rowid. destruct (hasData P) eqn:Ehd.
    - rewrite Hik in Hd. cbn [andb] in Hd. symmetry in Hd. apply Z.eqb_eq in Hd. rewrite Hd in Hch. change (4 - 4 * 1) with 0 in Hch. rewrite Hch in Hj. change (Z.to_nat 0) with 0%nat in Hj. rewrite drop_0 in Hj. pose proof (getVarint32_len c Hb) as H1. pose proof (getVarint_len c Hb) as H2.
      destruct (getVarint32 c) as [k v] eqn:E. cbn [fst] in *. rewrite Z.add_0_l in Hj. assert (bytes (drop (Z.to_nat k) c)) as Hbk by by apply Forall_drop. pose proof (getVarint_len _ Hbk).
      rewrite (getVarint32_prefix c c' Hb Hb'), E by (rewrite E; cbn [fst]; intros; apply Hj; lia). cbn [fst]. rewrite (getVarint_prefix (drop (Z.to_nat k) c) (drop (Z.to_nat k) c')); [done|done|by apply Forall_drop|]. intros j Hj'. rewrite !rd_drop by lia. apply Hj. lia.
    - cbv beta iota in Hj. cbn [fst] in Hj. assert (0 <= childPtrSize P) by (pose proof (k_leaf _ _ HK); lia). rewrite (getVarint_prefix (drop (Z.to_nat (childPtrSize P)) c) (drop (Z.to_nat (childPtrSize P)) c')); [done|by apply Forall_drop..|]. intros j Hj'. rewrite !rd_drop by lia. apply Hj. lia. }
  split; [|done]. rewrite !(parse_eq pBt Hbt) by done. rewrite (header_prefix pBt P c c' HK Hb Hb' Hj). destruct (cell_header P c) as [i n]. assert ((if intKey P then cell_rowid P c' else n) = if intKey P then cell_rowid P c else n) as ->; [|done]. destruct (intKey P); auto.
Qed.

(** * fillInCell *)

Definition payload (P : MemPage) (pKey pData : list Z) (nZero : Z) : list Z := if hasData P then pData ++ replicate (Z.to_nat nZero) 0 else if intKey P then [] else pKey.

(** What the callers of fillInCell pass. *)
Record entry_ok (P : MemPage) (pKey : list Z) (key : Z) (pData : list Z) (nZero : Z) : Prop := {
  eo_key : is_i 64 key;
  eo_index : intKey P = false -> key = Z.of_nat (length pKey) /\ bytes pKey;
  eo_data : bytes pData;
  eo_zero : 0 <= nZero;
  eo_size : Z.of_nat (length (payload P pKey pData nZero)) < 2 ^ 31 }.

Definition fill_result (s : Db W) h (r : Z -> Z) F (P : MemPage) (c : list Z) (key : Z) (bs : list Z) (x : Z * list Z * Z) (s' : Db W) : Prop := let '(rc, c', sz) := x in
  others s s' /\ (exists h' ws', prep (pPager s') h' ws' r) /\ (rc <> 0 -> reliable (W := W) -> 2 ^ 31 <= nPage s + 4 * Z.of_nat (length bs)) /\
  (rc = 0 -> exists h' ws' ps F', prep (pPager s') h' ws' r /\ pages_ok pBt (nPage s') h' r F' /\ grown pBt (nPage s) h F (nPage s') h' F' ps /\ ptr_ok pBt (nPage s') h' F' /\ stored pBt h' P c' ps bs /\
    bytes c' /\ length c' = length c /\ sz = nSize (btreeParseCellPtr pBt P c') /\ 4 <= sz <= us - 13 /\ (intKey P = true -> nKey (btreeParseCellPtr pBt P c') = key) /\ forall j, 0 <= j < childPtrSize P -> rd c' j = rd c j).

Lemma payload_padded P pKey key pData nZero : entry_ok P pKey key pData nZero -> kind pBt P -> let nData := if hasData P then Z.of_nat (length pData) else 0 in let nZ := if hasData P then nZero else 0 in
  let bs := payload P pKey pData nZero in let src := if intKey P then if hasData P then pData else [] else pKey in
  (if intKey P then nData + nZ else nData + nZ + key) = Z.of_nat (length bs) /\ bs = padded (length bs) src /\ bytes src /\ is_u 32 (nData + nZ) /\ (if hasData P then nData + nZ else if intKey P then 0 else key) = Z.of_nat (length bs).
Proof.
  intros [Hk Hi Hd Hz Hs] HK. pose proof (k_data _ _ HK) as Hhd. unfold payload in *. destruct (hasData P).
  - destruct (intKey P); [|done]. cbn zeta. rewrite length_app, length_replicate in *. split; [lia|]. split; [|split; [done|split; [unfold is_u; lia|lia]]]. unfold padded. rewrite take_ge by lia. do 2 f_equal. lia.
  - destruct (intKey P); cbn zeta; [split; [done|]; split; [done|]; split; [constructor|]; split; [done|done]|]. destruct (Hi eq_refl) as [-> Hbk]. split; [lia|]. split; [|split; [done|split; [done|done]]]. unfold padded. by rewrite take_ge, Nat.sub_diag, app_nil_r by lia.
Qed.

Lemma cell_with_ok c hd (loc : list Z) (ps : list Z) iov : bytes c -> bytes loc -> 0 <= hd -> hd + Z.of_nat (length loc) + 4 <= Z.of_nat (length c) -> (ps <> [] -> iov = hd + Z.of_nat (length loc) /\ is_u 32 (first_page ps)) -> let c1 := cell_with c hd loc iov ps in
  bytes c1 /\ length c1 = length c /\ (forall j, 0 <= j < hd -> rd c1 j = rd c j) /\ slice c1 hd (Z.of_nat (length loc)) = loc /\ (ps <> [] -> get4byte c1 (hd + Z.of_nat (length loc)) = first_page ps).
Proof.
  intros Hb Hbl Hhd Hl Hiov. unfold cell_with. assert (length (splice c hd loc) = length c) as L1 by (apply length_splice; lia). assert (bytes (splice c hd loc)) as B1 by by apply bytes_splice. assert (slice (splice c hd loc) hd (Z.of_nat (length loc)) = loc) as S1 by (apply slice_splice; lia).
  assert (forall j, 0 <= j < hd -> rd (splice c hd loc) j = rd c j) as R1 by (intros j Hj; apply rd_splice_out; lia). destruct ps as [|p ps]; [done|]. destruct (Hiov ltac:(done)) as [-> Hp]. fold (put4byte (splice c hd loc) (hd + Z.of_nat (length loc)) p). set (c1 := put4byte _ _ _).
  assert (forall j, 0 <= j < hd + Z.of_nat (length loc) -> rd c1 j = rd (splice c hd loc) j) as R2 by (intros j Hj; apply rd_splice_out; rewrite ?length_enc4; lia). assert (length c1 = length (splice c hd loc)) as L2 by (apply length_put4byte; lia). split; [by apply bytes_put4byte|]. split; [congruence|]. split; [intros j Hj; rewrite R2 by lia; by apply R1|]. split.
  - rewrite <- S1 at 2. apply slice_ext; try lia. intros j Hj. apply R2. lia.
  - intros _. apply get4_put4; [lia|lia|done].
Qed.

Lemma fillInCell_ok fuel P c pKey key pData nZero s h ws r F : kind pBt P -> prep (pPager s) h ws r -> pages_ok pBt (nPage s) h r F -> ptr_ok pBt (nPage s) h F -> (length (frees F) < fuel)%nat -> entry_ok P pKey key pData nZero -> bytes c -> us <= Z.of_nat (length c) ->
  does (fillInCell pBt bDoTruncate fuel P c pKey key pData nZero) s (fill_result s h r F P c key (payload P pKey pData nZero)).
Proof.
  intros HK Hw Hok Hptr Hfu Heo Hb Hl. destruct (payload_padded P pKey key pData nZero Heo HK) as (Hlen & Hpad & Hbsrc & Hnd & Hhl). set (bs := payload P pKey pData nZero) in *. pose proof (eo_size _ _ _ _ _ Heo) as Hbs31. fold bs in Hbs31. pose proof Hsz as [Hps Hu].
  unfold fillInCell. cbv zeta. set (nD := if hasData P then Z.of_nat (length pData) else 0) in *. set (nZ := if hasData P then nZero else 0) in *. pose proof (fill_header_ok P c key (nD + nZ) HK Hb ltac:(lia) (eo_key _ _ _ _ _ Heo) Hnd) as Hh.
  destruct (fill_header P c key (nD + nZ)) as [hd c0]. destruct Hh as (Hb0 & Hl0 & Hhd & Hrow & Hcp & Hch); [|]. { intros Hik. destruct (eo_index _ _ _ _ _ Heo Hik) as [-> _]. unfold bs, payload in Hbs31. pose proof (k_data _ _ HK) as Hd. rewrite Hik in *. cbn [andb] in Hd. rewrite Hd in Hbs31. unfold is_u. lia. }
  rewrite Hhl in Hhd. pose proof (header_range pBt P c0 HK Hb0) as [Hi Hun]. pose proof (parse_eq pBt Hbt P c0 HK Hb0) as Hpe. rewrite Hhd in Hpe, Hi, Hun. cbn [fst snd] in Hi, Hun. pose proof (local_range pBt Hbt P _ HK Hun) as [Hlo Hls]. pose proof (cellSize_eq pBt Hbt P c0 HK Hb0) as Hcs. rewrite Hhd in Hcs. destruct Hcs as [_ Hcs].
  assert (negb (intKey P) && (0x7fffffff <? key) = false) as ->.
  { destruct (intKey P) eqn:Hik; [done|]. cbn [negb andb]. apply Z.ltb_ge. destruct (eo_index _ _ _ _ _ Heo Hik) as [-> _]. pose proof (k_data _ _ HK) as Hd. rewrite Hik in Hd. cbn [andb] in Hd. unfold bs, payload in Hbs31. rewrite Hd, Hik in Hbs31. lia. }
  rewrite Hlen. set (info := btreeParseCellPtr pBt P c0) in *. set (lo := local_part pBt P (Z.of_nat (length bs))) in *. assert (nLocal info = lo) as Elo by by rewrite Hpe. assert (maxLocal P <= us - 35) as Hmx by apply HK.
  assert (Z.of_nat (length bs) <= maxLocal P -> lo = Z.of_nat (length bs)) as Hsmall by (intros Hle; unfold lo, local_part; by rewrite (proj2 (Z.ltb_ge _ _))).
  apply does_bind. pose proof (fill_cell_ok pBt Hsz bDoTruncate fuel (S (Z.to_nat (Z.of_nat (length bs)))) bs _ s h ws r F hd (Z.to_nat lo) (iOverflow info) c0 Hw Hok Hptr Hfu Hpad Hbsrc ltac:(lia) ltac:(lia) ltac:(lia)) as Hfc. unfold cell_fill in Hfc. rewrite Z2Nat.id in Hfc by lia. rewrite Elo.
  eapply does_mono; [exact Hfc|]. intros [rc c1] s' (Ho & Hpr & Hfail & Hgood). cbn [fst snd] in *. apply does_ret. split; [done|]. split; [done|]. split; [done|]. intros Hrc. destruct (Hgood Hrc) as (h' & ws' & ps & F' & D1 & D2 & D3 & D4 & D5 & Hc1). exists h', ws', ps, F'.
  assert (length (take (Z.to_nat lo) bs) = Z.to_nat lo) as Hlt. { rewrite length_take. destruct (Z.le_gt_cases (Z.of_nat (length bs)) (maxLocal P)) as [Hle|Hgt]; [rewrite Hsmall by done; lia|]. pose proof (local_less pBt Hbt P _ HK Hgt). lia. }
  assert (ps <> [] -> iOverflow info = hd + Z.of_nat (length (take (Z.to_nat lo) bs)) /\ is_u 32 (first_page ps)) as Hiov.
  { intros Hne. split.
    - rewrite Hpe. cbn [iOverflow]. destruct (Z.ltb_spec (maxLocal P) (Z.of_nat (length bs))) as [Hm|Hm]; [lia|]. rewrite (Hsmall Hm), drop_ge in D4 by lia. destruct ps; [done|]. by destruct D4.
    - destruct ps as [|p ps]; [done|]. pose proof (gr_new _ _ _ _ _ _ _ _ D3 p ltac:(left)). pose proof (po_size _ _ _ _ _ D2). unfold is_u. cbn [first_page]. lia. }
  assert (bytes (take (Z.to_nat lo) bs)) as Hbt' by (rewrite Hpad; by apply Forall_take, bytes_padded). destruct (cell_with_ok c0 hd _ ps _ Hb0 Hbt' ltac:(lia) ltac:(lia) Hiov) as (Hb1 & Hl1 & Hj1 & Hs1 & Hg1). rewrite <- Hc1 in *.
  destruct (parse_prefix P c0 c1 HK Hb0 Hb1) as [Epa Erow]; [by rewrite Hhd|]. fold info in Epa. rewrite Hlt, Z2Nat.id in Hs1, Hg1, Hiov by lia. unfold stored. rewrite Epa. assert (nHeader info = hd /\ nPayload info = Z.of_nat (length bs)) as [Ehd Epl] by (rewrite Hpe; cbn [nHeader nPayload]; split; reflexivity). rewrite Ehd, Epl, Elo.
  split; [done|]. split; [done|]. split; [done|]. split; [done|]. split; [|split; [done|split; [congruence|split; [done|split]]]].
  - split; [done|]. split; [done|]. split; [|done]. intros Hne. destruct (Hiov Hne) as [-> _]. by apply Hg1.
  - rewrite Hpe. cbn [nSize]. pose proof (header_range pBt P c0 HK Hb0). lia.
  - split; [intros Hik; rewrite Hpe; cbn [nKey]; rewrite Hik; by apply Hrow|]. intros j Hj. rewrite Hj1; [by apply Hch|]. lia.
Qed.
End payload.
