(* ===== verification/BtAccess.v ===== *)
(** accessPayload: what it reads is the payload, and what it writes is the payload with the new bytes, on the page of the cell and on the overflow pages. *)
From S2P Require Import Prelude Varint IntArith Bitvec Mem Page PageSpace PageCell Pager BtPages BtRep BtPtrmap BtList BtAlloc BtStore BtFree BtOverflow BtClear BtPayload.
Local Open Scope Z_scope.
Local Open Scope c_scope.

Lemma slice_take (m : nat) x o a : 0 <= o -> 0 <= a -> o + a <= Z.of_nat m -> slice (take m x) o a = slice x o a.
Proof. intros Ho Ha Hm. unfold slice. rewrite skipn_firstn_comm, take_take. f_equal. lia. Qed.
Lemma slice_drop (m : nat) x o a : 0 <= o -> slice (drop m x) o a = slice x (Z.of_nat m + o) a.
Proof. intros Ho. unfold slice. rewrite drop_drop. do 2 f_equal. lia. Qed.
Lemma slice_none x o : slice x o 0 = [].
Proof. done. Qed.

Section access.
Context {W : Type} {ops : PagerOps W} (pBt : BtShared) {HP : Pager W (pageSize pBt)} (Hsz : sizes_ok pBt) (Hbt : bt_ok pBt) (alloc : nat -> bool).
Abbreviation us := (usableSize pBt).

(** The entries of the cache that are not zero are pages of the chain. *)
Definition cache_ok (cache : option (list Z)) (ps : list Z) : Prop := match cache with None => True | Some l => length l = length ps /\ forall i : nat, rd l (Z.of_nat i) <> 0 -> ps !! i = Some (rd l (Z.of_nat i)) end.

Lemma cache_set l ps k p : cache_ok (Some l) ps -> ps !! k = Some p -> cache_ok (Some (wr l (Z.of_nat k) p)) ps.
Proof.
  intros [Hl Hc] Hk. pose proof (lookup_lt_Some _ _ _ Hk). split; [by rewrite length_wr|]. intros i. destruct (decide (i = k)) as [->|Hne]; [rewrite rd_wr_eq by lia; done|]. rewrite rd_wr_ne by lia. apply Hc.
Qed.

Lemma first_drop ps k : first_page (drop k ps) = default 0 (ps !! k).
Proof. revert k. induction ps as [|p ps IH]; intros [|k]; try done. apply IH. Qed.

(** The bytes of the payload on one overflow page. *)
Lemma page_slice d bs o a : slice d 4 (Z.min (us - 4) (Z.of_nat (length bs))) = take (Z.to_nat (us - 4)) bs -> 0 <= o -> 0 <= a -> o + a <= us - 4 -> o + a <= Z.of_nat (length bs) -> slice d (o + 4) a = slice bs o a.
Proof.
  intros H Ho Ha H1 H2. rewrite <- (slice_take (Z.to_nat (us - 4)) bs o a) by lia. rewrite <- H. change (slice d 4 ?m) with (take (Z.to_nat m) (drop 4 d)). rewrite slice_take by lia. rewrite slice_drop by done. f_equal. lia.
Qed.

Section read.
Context (h : gmap Z (list Z)) (ws : gset Z) (r : Z -> Z) (F : flist) (n : Z) (all : list Z).
Context (Hok : pages_ok pBt n h r F) (Hptr : ptr_ok pBt n h F) (Hall : forall p, p ∈ all -> 2 <= p <= n).

Definition read_post (s : Db W) bs offset amt pBuf bufAt (x : Z * Z * list Z * option (list Z)) (s' : Db W) : Prop := let '(rc, amt', buf, cache) := x in
  exists w, s' = set_pager s w /\ prep w h ws r /\ cache_ok cache all /\ (rc <> 0 -> reliable (W := W) -> False) /\ (rc = 0 -> amt' = 0 /\ buf = splice pBuf bufAt (slice bs offset amt)).

(** The next page, from the cache or by its link. *)
Lemma follow_ok k p ps d cache s : prep (pPager s) h ws r -> nPage s = n -> p :: ps = drop k all -> h !! p = Some d -> get4byte d 0 = first_page ps -> cache_ok cache all ->
  does (let cached := match cache with Some l => rd l (Z.of_nat k + 1) | None => 0 end in
        if negb (cached =? 0) then mret (SQLITE_OK, cached) else '(rc, next, _) ← getOverflowPage pBt p false; mret (rc : Z, next : Z)) s
    (fun x s' => exists w, s' = set_pager s w /\ prep w h ws r /\ (x.1 <> 0 -> reliable (W := W) -> False) /\ (x.1 = 0 -> x.2 = first_page ps)).
Proof.
  intros Hw Hn Hps Hd Hlk Hc. assert (ps = drop (S k) all) as Eps by (change (drop (S k) all) with (drop (1 + k) all); rewrite Nat.add_comm, <- drop_drop, <- Hps; done). cbv zeta.
  assert (p ∈ all) as Hp by (rewrite <- (take_drop k all), <- Hps; apply elem_of_app; right; left). destruct (negb _) eqn:E.
  - destruct cache as [l|]; [|done]. apply negb_true_iff, Z.eqb_neq in E. destruct Hc as [_ Hc]. replace (Z.of_nat k + 1) with (Z.of_nat (S k)) in * by lia. specialize (Hc _ E). apply does_ret. exists (pPager s). split; [by destruct s|]. split; [done|]. split; [done|]. intros _. rewrite Eps, first_drop, Hc. done.
  - apply does_bind. eapply does_mono; [eapply (getOverflowPage_ok pBt Hsz p false s h ws r F [] d); rewrite ?Hn; try done; try apply Hptr; [by intros x ?%not_elem_of_nil|by apply Hall]|]. intros [[rc next] b] s1 (w & -> & Hw1 & Hb & Hnext & Hbad). apply does_ret. destruct b; [by specialize (Hb eq_refl)|].
    exists w. split; [done|]. split; [done|]. split; [intros Hrc; by apply Hbad|]. intros Hrc. rewrite Hnext by done. done.
Qed.

Lemma access_read_ok turns : forall k ps bs offset amt pBuf bufAt cache s, prep (pPager s) h ws r -> nPage s = n -> ps = drop k all -> ochain pBt h ps bs -> 0 <= offset -> 0 <= amt -> offset + amt <= Z.of_nat (length bs) -> 0 <= bufAt -> bufAt + amt <= Z.of_nat (length pBuf) ->
  (Z.to_nat (offset + amt) < turns)%nat -> cache_ok cache all ->
  does (access_loop pBt turns (Z.of_nat k) (first_page ps) offset amt pBuf bufAt false cache) s (read_post s bs offset amt pBuf bufAt).
Proof.
  pose proof Hsz as [Hps Hu]. assert (forall q, 0 <= r q) as Hr0 by apply Hok. pose proof (po_size _ _ _ _ _ Hok) as Hn31.
  induction turns as [|turns IH]; intros k ps bs offset amt pBuf bufAt cache s Hw Hn Eps Hch Ho Ha Hoa Hba Hbl Ht Hc; [lia|]. cbn [access_loop]. assert (s = set_pager s (pPager s)) as Es by by destruct s. destruct (Z.leb_spec amt 0) as [Hz|Hz].
  { cbn [orb]. apply does_ret. exists (pPager s). split; [done|]. split; [done|]. split; [done|]. split; [done|]. intros _. assert (amt = 0) as -> by lia. split; [done|]. by rewrite slice_none, splice_nil. }
  destruct ps as [|p ps]; [cbn in Hch; subst bs; cbn in Hoa; lia|]. destruct Hch as (Hne & d & Hd & Hlk & Hsl & Hch). assert (p ∈ all) as Hp by (rewrite <- (take_drop k all), <- Eps; apply elem_of_app; right; left). pose proof (Hall p Hp) as Hp2. pose proof (Hr0 p) as Hrp.
  assert (ps = drop (S k) all) as Eps' by (change (drop (S k) all) with (drop (1 + k) all); rewrite Nat.add_comm, <- drop_drop, <- Eps; done). assert (all !! k = Some p) as Hk by (rewrite <- (Nat.add_0_r k), <- lookup_drop, <- Eps; done).
  cbn [first_page orb]. rewrite (proj2 (Z.eqb_neq p 0)) by lia. set (cache1 := match cache with Some l => _ | None => _ end). assert (cache_ok cache1 all) as Hc1 by (unfold cache1; destruct cache; [by apply cache_set|done]). cbv zeta.
  destruct (Z.leb_spec (us - 4) offset) as [Hfar|Hnear].
  - apply does_bind. eapply does_mono; [by eapply (follow_ok k p ps d cache1 s)|]. intros [rc next] s1 (w & -> & Hw1 & Hf & Hg). cbn [fst snd] in *. destruct (Z.eqb_spec rc SQLITE_OK) as [->|Hrc]; cbn [negb]; [|apply does_ret; by exists w].
    rewrite (Hg eq_refl). replace (Z.of_nat k + 1) with (Z.of_nat (S k)) by lia. eapply does_mono; [eapply (IH (S k) ps (drop (Z.to_nat (us - 4)) bs) (offset - (us - 4)) amt pBuf bufAt cache1 (set_pager s w)); try done; rewrite ?length_drop; lia|].
    intros [[[rc' amt'] buf'] c'] s' (w2 & -> & Hw2 & Hc2 & Hf2 & Hg2). exists w2. split; [done|]. split; [done|]. split; [done|]. split; [done|]. intros Hrc'. destruct (Hg2 Hrc') as [-> ->]. split; [done|]. rewrite slice_drop by lia. do 2 f_equal. lia.
  - set (a := if us - 4 <? amt + offset then us - 4 - offset else amt). assert (0 < a <= amt /\ offset + a <= us - 4 /\ (a < amt -> offset + a = us - 4)) as (Ha1 & Ha2 & Ha3) by (unfold a; destruct (Z.ltb_spec (us - 4) (amt + offset)); lia).
    apply does_bind. eapply does_fetch; [exact Hw|done| |].
    { intros rc w Hrc Hrel Hw1. rewrite (proj2 (Z.eqb_neq _ SQLITE_OK)) by done. cbn [negb]. apply does_ret. exists w. split; [done|]. split; [done|]. split; [done|]. split; [|done]. intros _ Hre. specialize (Hrel Hre). lia. }
    intros w _ Hw1. cbn [negb Z.eqb SQLITE_OK]. apply does_bind. eapply does_load; [exact Hw1|exact Hd|]. unfold copyPayload. apply does_bind, does_bind. eapply does_load; [exact Hw1|exact Hd|]. apply does_ret, does_bind. eapply does_release; [exact Hw1|refs_eq|]. intros w2 Hw2. change (SQLITE_OK =? SQLITE_OK) with true. cbn [negb].
    assert (slice d (offset + 4) a = slice bs offset a) as Esl by (apply page_slice; [done|lia..]). assert (length (slice bs offset a) = Z.to_nat a) as Hla by (pose proof (length_slice bs offset a); lia). rewrite Hlk, Esl. replace (Z.of_nat k + 1) with (Z.of_nat (S k)) by lia.
    eapply does_mono; [eapply (IH (S k) ps (drop (Z.to_nat (us - 4)) bs) 0 (amt - a) (splice pBuf bufAt (slice bs offset a)) (bufAt + a) cache1); try done; rewrite ?length_drop, ?length_splice; try lia; eapply prep_refs; [exact Hw2|refs_eq]|].
    intros [[[rc' amt'] buf'] c'] s' (w3 & -> & Hw3 & Hc3 & Hf3 & Hg3). exists w3. split; [done|]. split; [done|]. split; [done|]. split; [done|]. intros Hrc'. destruct (Hg3 Hrc') as [-> ->]. split; [done|].
    replace (bufAt + a) with (bufAt + Z.of_nat (length (slice bs offset a))) by lia. rewrite slice_drop by lia. destruct (decide (a = amt)) as [->|Hlt].
    + rewrite Z.sub_diag, slice_none, splice_nil. done.
    + rewrite splice_app; [|done|pose proof (length_slice bs (Z.of_nat (Z.to_nat (us - 4)) + 0) (amt - a)); lia]. f_equal. replace amt with (a + (amt - a)) at 2 by lia. rewrite slice_app by lia. do 2 f_equal. lia.
Qed.
End read.

(** ** Writing *)

Lemma rd_take (m : nat) x j : 0 <= j < Z.of_nat m -> rd (take m x) j = rd x j.
Proof. intros Hj. pose proof (rd_slice x 0 (Z.of_nat m) j ltac:(lia) Hj) as H. unfold slice in H. by rewrite Nat2Z.id in H. Qed.
Lemma take_splice_in (m : nat) x o y : 0 <= o -> o + Z.of_nat (length y) <= Z.of_nat m -> o + Z.of_nat (length y) <= Z.of_nat (length x) -> take m (splice x o y) = splice (take m x) o y.
Proof.
  intros Ho Hm Hx. assert (length (splice x o y) = length x) as L1 by (apply length_splice; lia). assert (length (splice (take m x) o y) = length (take m x)) as L2 by (apply length_splice; rewrite ?length_take; lia). apply rd_ext; [by rewrite L2, !length_take, L1|]. rewrite length_take. intros j Hj. rewrite rd_take by lia.
  destruct (decide (o <= j < o + Z.of_nat (length y))); [by rewrite !rd_splice_in by (rewrite ?length_take; lia)|]. rewrite !rd_splice_out by (rewrite ?length_take; lia). by rewrite rd_take by lia.
Qed.
Lemma take_splice_out (m : nat) x o y : Z.of_nat m <= o -> o + Z.of_nat (length y) <= Z.of_nat (length x) -> take m (splice x o y) = take m x.
Proof. intros Hm Hx. unfold splice. rewrite take_app_le by (rewrite length_take; lia). rewrite take_take. f_equal. lia. Qed.
Lemma drop_splice_in (m : nat) x o y : Z.of_nat m <= o -> o + Z.of_nat (length y) <= Z.of_nat (length x) -> drop m (splice x o y) = splice (drop m x) (o - Z.of_nat m) y.
Proof.
  intros Hm Hx. unfold splice. rewrite drop_app_le by (rewrite length_take; lia). rewrite skipn_firstn_comm, drop_drop. replace (Z.to_nat (o - Z.of_nat m)) with (Z.to_nat o - m)%nat by lia. do 3 f_equal. lia.
Qed.
Lemma drop_splice_out (m : nat) x o y : 0 <= o -> o + Z.of_nat (length y) <= Z.of_nat m -> o + Z.of_nat (length y) <= Z.of_nat (length x) -> drop m (splice x o y) = drop m x.
Proof.
  intros Ho Hm Hx. unfold splice. rewrite drop_app_ge by (rewrite length_take; lia). rewrite drop_app_ge by (rewrite length_take; lia). rewrite drop_drop. f_equal. rewrite length_take. lia.
Qed.
Lemma slice_splice_in d i m o y : 0 <= i -> 0 <= o -> o + Z.of_nat (length y) <= m -> i + m <= Z.of_nat (length d) -> slice (splice d (i + o) y) i m = splice (slice d i m) o y.
Proof.
  intros Hi Ho Hm Hd. unfold slice. rewrite drop_splice_in by lia. replace (i + o - Z.of_nat (Z.to_nat i)) with o by lia. rewrite take_splice_in; [done|lia|lia|rewrite length_drop; lia].
Qed.

(** A store to one overflow page, and the payload. *)
Lemma page_splice d bs o A B : let K := Z.to_nat (us - 4) in let m := Z.min (us - 4) (Z.of_nat (length bs)) in slice d 4 m = take K bs -> 0 <= o -> 4 <= us -> us <= Z.of_nat (length d) -> o + Z.of_nat (length A) <= us - 4 -> o + Z.of_nat (length A) + Z.of_nat (length B) <= Z.of_nat (length bs) ->
  (B <> [] -> o + Z.of_nat (length A) = us - 4) -> slice (splice d (o + 4) A) 4 m = take K (splice bs o (A ++ B)) /\ drop K (splice bs o (A ++ B)) = splice (drop K bs) 0 B.
Proof.
  intros K m Hs Ho Hu Hd Ha Hb HB. assert (Z.of_nat K = us - 4) as HK by (unfold K; lia). assert (m <= us - 4 /\ m <= Z.of_nat (length bs) /\ (m = us - 4 \/ m = Z.of_nat (length bs))) as Hm by (unfold m; lia). clearbody K m. assert (slice (splice d (o + 4) A) 4 m = take K (splice bs o A)) as E1. { rewrite Z.add_comm, slice_splice_in, Hs by lia. rewrite take_splice_in by lia. done. }
  rewrite E1. destruct (decide (B = [])) as [->|Hne].
  - rewrite app_nil_r, splice_nil. split; [done|]. apply drop_splice_out; lia.
  - specialize (HB Hne). rewrite <- splice_app by lia. assert (length (splice bs o A) = length bs) as L by (apply length_splice; lia). rewrite (take_splice_out K (splice bs o A)), (drop_splice_in K (splice bs o A)) by lia. split; [done|]. rewrite drop_splice_out by lia. f_equal. lia.
Qed.

Section write.
Context (r : Z -> Z) (F : flist) (n : Z) (all pBuf : list Z) (Hnd : NoDup all) (Hbuf : bytes pBuf).
Context (Hall : forall p, p ∈ all -> 2 <= p <= n /\ regular pBt p /\ p ∉ frees F).

Definition write_post (s : Db W) (h : gmap Z (list Z)) ps bs offset amt bufAt (x : Z * Z * list Z * option (list Z)) (s' : Db W) : Prop := let '(rc, amt', buf, cache) := x in
  exists w h' ws', s' = set_pager s w /\ prep w h' ws' r /\ pages_ok pBt n h' r F /\ ptr_ok pBt n h' F /\ cache_ok cache all /\ (forall q, q ∉ ps -> h' !! q = h !! q) /\ buf = pBuf /\ (rc <> 0 -> reliable (W := W) -> False) /\
  (rc = 0 -> amt' = 0 /\ ochain pBt h' ps (splice bs offset (slice pBuf bufAt amt))).

Lemma access_write_ok turns : forall k ps bs offset amt bufAt cache s h ws, prep (pPager s) h ws r -> pages_ok pBt n h r F -> ptr_ok pBt n h F -> nPage s = n -> ps = drop k all -> ochain pBt h ps bs -> 0 <= offset -> 0 <= amt -> offset + amt <= Z.of_nat (length bs) -> 0 <= bufAt -> bufAt + amt <= Z.of_nat (length pBuf) ->
  (Z.to_nat (offset + amt) < turns)%nat -> cache_ok cache all ->
  does (access_loop pBt turns (Z.of_nat k) (first_page ps) offset amt pBuf bufAt true cache) s (write_post s h ps bs offset amt bufAt).
Proof.
  pose proof Hsz as [Hps Hu].
  induction turns as [|turns IH]; intros k ps bs offset amt bufAt cache s h ws Hw Hok Hptr Hn Eps Hch Ho Ha Hoa Hba Hbl Ht Hc; [lia|]. cbn [access_loop]. assert (s = set_pager s (pPager s)) as Es by by destruct s. assert (forall q, 0 <= r q) as Hr0 by apply Hok. pose proof (po_size _ _ _ _ _ Hok) as Hn31.
  destruct (Z.leb_spec amt 0) as [Hz|Hz].
  { cbn [orb]. apply does_ret. exists (pPager s), h, ws. split_and!; try done. intros _. assert (amt = 0) as -> by lia. split; [done|]. by rewrite slice_none, splice_nil. }
  destruct ps as [|p ps]; [cbn in Hch; subst bs; cbn in Hoa; lia|]. destruct Hch as (Hne & d & Hd & Hlk & Hsl & Hch). assert (p ∈ all) as Hp by (rewrite <- (take_drop k all), <- Eps; apply elem_of_app; right; left). destruct (Hall p Hp) as (Hp2 & Hpr & HpF). pose proof (Hr0 p) as Hrp.
  assert (ps = drop (S k) all) as Eps' by (change (drop (S k) all) with (drop (1 + k) all); rewrite Nat.add_comm, <- drop_drop, <- Eps; done). assert (all !! k = Some p) as Hk by (rewrite <- (Nat.add_0_r k), <- lookup_drop, <- Eps; done).
  assert (p ∉ ps) as Hpps. { pose proof Hnd as Hnd'. rewrite <- (take_drop k all), <- Eps in Hnd'. apply NoDup_app in Hnd' as (_ & _ & Hnd'). by apply NoDup_cons in Hnd' as [? _]. }
  cbn [first_page orb]. rewrite (proj2 (Z.eqb_neq p 0)) by lia. set (cache1 := match cache with Some l => _ | None => _ end). assert (cache_ok cache1 all) as Hc1 by (unfold cache1; destruct cache; [by apply cache_set|done]). cbv zeta.
  pose proof (length_slice pBuf bufAt amt Hba Ha Hbl) as Hlx. set (X := slice pBuf bufAt amt) in *. assert (length (splice bs offset X) = length bs) as Hls by (apply length_splice; lia). assert (splice bs offset X <> []) as Hne' by (intros E; rewrite E in Hls; cbn in Hls; destruct bs; [done|discriminate Hls]).
  destruct (Z.leb_spec (us - 4) offset) as [Hfar|Hnear].
  - apply does_bind. eapply does_mono; [eapply (follow_ok h ws r F n all Hok Hptr ltac:(intros q Hq; by apply Hall) k p ps d cache1 s); try done|]. intros [rc next] s1 (w & -> & Hw1 & Hf & Hg). cbn [fst snd] in *. destruct (Z.eqb_spec rc SQLITE_OK) as [->|Hrc]; cbn [negb]; [|apply does_ret; exists w, h, ws; split_and!; done].
    rewrite (Hg eq_refl). replace (Z.of_nat k + 1) with (Z.of_nat (S k)) by lia. eapply does_mono; [eapply (IH (S k) ps (drop (Z.to_nat (us - 4)) bs) (offset - (us - 4)) amt bufAt cache1 (set_pager s w) h ws); try done; rewrite ?length_drop; lia|].
    intros [[[rc' amt'] buf'] c'] s' (w2 & h2 & ws2 & -> & Hw2 & Hok2 & Hptr2 & Hc2 & Hfr2 & Hb2 & Hf2 & Hg2). exists w2, h2, ws2. split_and!; try done. { intros q [_ Hq]%not_elem_of_cons. by apply Hfr2. }
    intros Hrc'. destruct (Hg2 Hrc') as [-> Hch2]. split; [done|]. split; [exact Hne'|]. exists d. rewrite Hfr2 by done. split; [done|]. split; [done|]. fold X in Hch2 |- *. rewrite Hls, take_splice_out, drop_splice_in by lia. split; [done|]. rewrite Z2Nat.id by lia. done.
  - set (a := if us - 4 <? amt + offset then us - 4 - offset else amt). assert (0 < a <= amt /\ offset + a <= us - 4 /\ (a < amt -> offset + a = us - 4)) as (Ha1 & Ha2 & Ha3) by (unfold a; destruct (Z.ltb_spec (us - 4) (amt + offset)); lia).
    apply does_bind. eapply does_fetch; [exact Hw|done| |].
    { intros rc w Hrc Hrel Hw1. rewrite (proj2 (Z.eqb_neq _ SQLITE_OK)) by done. cbn [negb]. apply does_ret. exists w, h, ws. split_and!; try done. intros _ Hre. specialize (Hrel Hre). lia. }
    intros w _ Hw1. cbn [negb Z.eqb SQLITE_OK]. apply does_bind. eapply does_load; [exact Hw1|exact Hd|]. unfold copyPayload. apply does_bind, does_bind. eapply does_write; [exact Hw1|refs_eq| |].
    { intros rc w2 Hrc Hrel Hw2. rewrite (proj2 (Z.eqb_neq _ SQLITE_OK)) by done. cbn [negb]. apply does_ret, does_bind. eapply does_release; [exact Hw2|refs_eq|]. intros w3 Hw3. rewrite (proj2 (Z.eqb_neq _ SQLITE_OK)) by done. cbn [negb]. apply does_ret. exists w3, h, ws. split_and!; try done. eapply prep_refs; [exact Hw3|refs_eq]. }
    intros w2 d0 Hw2 Hd0. rewrite (Hd0 d Hd), insert_id in Hw2 by done. cbn [negb Z.eqb SQLITE_OK]. destruct (prep_good _ _ _ _ _ _ Hw2 Hd) as [Hbd Hld]. apply does_bind. eapply does_load; [exact Hw2|exact Hd|].
    pose proof (length_slice pBuf bufAt a Hba ltac:(lia) ltac:(lia)) as Hla. set (A := slice pBuf bufAt a) in *. set (d' := splice d (offset + 4) A). assert (length d' = length d) as Hld' by (apply length_splice; lia). assert (bytes A) as HbA by by apply Forall_take, Forall_drop.
    apply does_bind. eapply does_store; [exact Hw2|refs_eq|in_ws|exact Hd|by apply bytes_splice|done|]. intros w3 Hw3. apply does_ret, does_bind. eapply does_release; [exact Hw3|refs_eq|]. intros w4 Hw4. change (SQLITE_OK =? SQLITE_OK) with true. cbn [negb]. rewrite Hlk.
    assert (get4byte d' 0 = get4byte d 0) as Hg0 by (apply get4_splice_ne; lia). set (B := slice pBuf (bufAt + a) (amt - a)). assert (X = A ++ B) as EX by (unfold X, A, B; replace amt with (a + (amt - a)) at 1 by lia; by rewrite slice_app by lia). pose proof (length_slice pBuf (bufAt + a) (amt - a) ltac:(lia) ltac:(lia) ltac:(lia)) as HlB. fold B in HlB.
    destruct (page_splice d bs offset A B Hsl Ho ltac:(lia) ltac:(lia) ltac:(lia) ltac:(lia)) as [E1 E2]. { intros HB. rewrite Hla. apply Ha3. destruct B; [done|]. cbn in HlB. lia. } fold d' in E1.
    replace (Z.of_nat k + 1) with (Z.of_nat (S k)) by lia. destruct Hptr as [Hty Hli].
    eapply does_mono; [eapply (IH (S k) ps (drop (Z.to_nat (us - 4)) bs) 0 (amt - a) (bufAt + a) cache1 _ (<[p := d']> h)); try done; rewrite ?length_drop; try lia|].
    + eapply prep_refs; [exact Hw4|refs_eq].
    + apply pages_store; [done|done|done|lia|done].
    + split; [by apply typed_store|]. by eapply linked_keep.
    + apply (ochain_ext pBt h); [done|]. intros q Hq. apply lookup_insert_ne. by intros ->.
    + intros [[[rc' amt'] buf'] c'] s' (w5 & h5 & ws5 & -> & Hw5 & Hok5 & Hptr5 & Hc5 & Hfr5 & Hb5 & Hf5 & Hg5). exists w5, h5, ws5. split_and!; try done. { intros q [Hq1 Hq]%not_elem_of_cons. rewrite Hfr5 by done. by apply lookup_insert_ne. }
      intros Hrc'. destruct (Hg5 Hrc') as [-> Hch5]. split; [done|]. split; [exact Hne'|]. exists d'. rewrite Hfr5, lookup_insert_eq by done. split; [done|]. split; [congruence|]. fold X. rewrite Hls, EX. split; [done|]. rewrite E2. done.
Qed.
End write.

(** ** The whole payload *)

(** A cursor on a cell with the payload [bs]. *)
Record at_cell (pCur : BtCursor) (h : gmap Z (list Z)) (d ps bs : list Z) : Prop := {
  ac_kind : kind pBt (apPage pCur);
  ac_page : h !! pgno (apPage pCur) = Some d;
  ac_cell : 0 <= cell pCur;
  ac_stored : stored pBt h (apPage pCur) (cell_at d (cell pCur)) ps bs;
  ac_fit : cell pCur + nSize (btreeParseCellPtr pBt (apPage pCur) (cell_at d (cell pCur))) <= us;
  ac_size : Z.of_nat (length bs) < 2 ^ 31;
  ac_cache : cache_ok (aOverflow pCur) ps }.

Lemma ochain_drop h k : forall ps bs, ochain pBt h ps bs -> (k <= length ps)%nat -> ochain pBt h (drop k ps) (drop (k * Z.to_nat (us - 4)) bs).
Proof.
  induction k as [|k IH]; intros ps bs Hc Hk; [by rewrite !drop_0|]. destruct ps as [|p ps]; [cbn in Hk; lia|]. destruct Hc as (_ & d & _ & _ & _ & Hc). cbn [length] in Hk. specialize (IH ps _ Hc ltac:(lia)). rewrite drop_drop in IH. exact IH.
Qed.

(** The cache is allocated. *)
Lemma access_cache_ok pCur m ps (s : Db W) : cache_ok (aOverflow pCur) ps -> m = Z.of_nat (length ps) -> does (access_cache alloc pCur m) s (fun x s' => (exists k, s' = set_hasContent s (pHasContent s) k) /\ cache_ok x.2 ps /\ (x.1 <> 0 -> exists k, alloc k = false)).
Proof.
  intros Hc ->. unfold does, access_cache. destruct (aOverflow pCur) as [l|]; [eexists _, _; split; [reflexivity|]; split; [exists (nAlloc s); by destruct s|by split]|].
  destruct (isIncrblobHandle pCur); [|eexists _, _; split; [reflexivity|]; split; [exists (nAlloc s); by destruct s|by split]]. destruct (alloc (nAlloc s)) eqn:E; eexists _, _; (split; [reflexivity|]; split; [by eexists|]).
  - split; [|done]. split; [rewrite length_replicate; lia|]. intros i Hi. destruct Hi. destruct (decide (i < length ps)%nat) as [Hlt|Hge]; [|rewrite rd_beyond; [done|rewrite length_replicate; lia]]. apply rd_lookup. rewrite Nat2Z.id. apply lookup_replicate. split; [done|lia].
  - split; [done|]. intros _. eauto.
Qed.

(** Where the access to the overflow pages starts: at the first page, or at a page that the cache has. *)
Lemma access_start h ps bs cache offset : ochain pBt h ps bs -> cache_ok cache ps -> 0 <= offset < Z.of_nat (length bs) ->
  let '(iIdx, nextPage, off) := match cache with
      | Some l => if negb (rd l (offset / (us - 4)) =? 0) then (offset / (us - 4), rd l (offset / (us - 4)), offset mod (us - 4)) else (0, first_page ps, offset)
      | None => (0, first_page ps, offset)
      end in
  exists k : nat, iIdx = Z.of_nat k /\ nextPage = first_page (drop k ps) /\ off + Z.of_nat (k * Z.to_nat (us - 4)) = offset /\ 0 <= off /\ (k <= length ps)%nat.
Proof.
  intros Hch Hc Ho. destruct Hsz as [_ Hu]. assert (exists k : nat, 0 = Z.of_nat k /\ first_page ps = first_page (drop k ps) /\ offset + Z.of_nat (k * Z.to_nat (us - 4)) = offset /\ 0 <= offset /\ (k <= length ps)%nat) as H0. { exists 0%nat. rewrite drop_0. split_and!; try done; lia. }
  destruct cache as [l|]; [|done]. destruct (Z.eqb_spec (rd l (offset / (us - 4))) 0) as [E|E]; cbn [negb]; [done|]. pose proof (Z.div_pos offset (us - 4) ltac:(lia) ltac:(lia)) as Hq. pose proof (Z.mod_pos_bound offset (us - 4) ltac:(lia)). pose proof (Z.div_mod offset (us - 4) ltac:(lia)) as Hdm.
  destruct Hc as [_ Hc]. exists (Z.to_nat (offset / (us - 4))). pose proof (Hc (Z.to_nat (offset / (us - 4)))) as Hcc. rewrite Z2Nat.id in Hcc by lia. specialize (Hcc E). pose proof (lookup_lt_Some _ _ _ Hcc). rewrite first_drop, Hcc. split_and!; [lia|done| |lia|lia]. rewrite Nat2Z.inj_mul, !Z2Nat.id by lia. lia.
Qed.

Section overflow_read.
Context (h : gmap Z (list Z)) (ws : gset Z) (r : Z -> Z) (F : flist) (n : Z) (ps bs : list Z).
Context (Hok : pages_ok pBt n h r F) (Hptr : ptr_ok pBt n h F) (Hall : forall p, p ∈ ps -> 2 <= p <= n) (Hch : ochain pBt h ps bs).

Definition got (s : Db W) (offset amt : Z) (pBuf : list Z) (bufAt : Z) (x : Z * list Z * option (list Z)) (s' : Db W) : Prop := let '(rc, buf, cache) := x in
  (exists w k, s' = set_hasContent (set_pager s w) (pHasContent s) k /\ prep w h ws r) /\ cache_ok cache ps /\ (rc <> 0 -> reliable (W := W) -> (forall k, alloc k = true) -> False) /\ (rc = 0 -> buf = splice pBuf bufAt (slice bs offset amt)).

Lemma overflow_read pCur info offset amt pBuf bufAt s : prep (pPager s) h ws r -> nPage s = n -> cache_ok (aOverflow pCur) ps -> nPayload info - nLocal info = Z.of_nat (length bs) -> Z.of_nat (length bs) < 2 ^ 31 -> 0 <= offset -> 0 < amt -> offset + amt <= Z.of_nat (length bs) -> 0 <= bufAt -> bufAt + amt <= Z.of_nat (length pBuf) ->
  does (access_overflow pBt alloc pCur info (first_page ps) offset amt pBuf bufAt false) s (got s offset amt pBuf bufAt).
Proof.
  intros Hw Hn Hc Hnp Hb31 Ho Ha Hoa Hba Hbl. pose proof Hsz as [Hps Hu]. unfold access_overflow. rewrite Hnp, (uwrap_small 32) by (unfold is_u; lia). apply does_bind.
  eapply does_mono; [apply (access_cache_ok pCur _ ps s Hc); symmetry; by apply (ochain_pages pBt Hsz h)|]. intros [rc cache] s1 ((k1 & ->) & Hc1 & Hf). cbn [fst snd] in *. destruct (Z.eqb_spec rc SQLITE_OK) as [->|Hrc]; cbn [negb].
  2: { apply does_ret. split; [exists (pPager s), k1; by destruct s|]. split; [done|]. split; [|done]. intros _ _ Hal. destruct (Hf Hrc) as [k E]. by rewrite Hal in E. }
  pose proof (access_start h ps bs cache offset Hch Hc1 ltac:(lia)) as Hst. destruct (match cache with Some _ => _ | None => _ end) as [[iIdx nextPage] off]. destruct Hst as (k & -> & -> & Eoff & Hoff & Hk). pose proof (ochain_drop h k ps bs Hch Hk) as Hchk.
  apply does_bind. eapply does_mono; [eapply (access_read_ok h ws r F n ps Hok Hptr Hall _ k (drop k ps) (drop (k * Z.to_nat (us - 4)) bs) off amt pBuf bufAt cache); try done; rewrite ?length_drop; lia|].
  intros [[[rc amt'] buf] c'] s2 (w & -> & Hw2 & Hc2 & Hf2 & Hg2). apply does_ret. split; [by exists w, k1|]. split; [done|]. destruct (Z.eqb_spec rc SQLITE_OK) as [->|Hrc]; cbn [andb]; [|split; [|done]; intros _ Hre _; by apply Hf2].
  destruct (Hg2 eq_refl) as [-> ->]. cbn [Z.ltb Z.compare]. split; [done|]. intros _. rewrite slice_drop by lia. do 2 f_equal. lia.
Qed.
End overflow_read.

(** A change of the end of a chain is a change of the chain. *)
Lemma ochain_tail h h' k : forall ps bs off X, ochain pBt h ps bs -> NoDup ps -> (k <= length ps)%nat -> (forall q, q ∈ take k ps -> h' !! q = h !! q) -> 0 <= off -> off + Z.of_nat (k * Z.to_nat (us - 4)) + Z.of_nat (length X) <= Z.of_nat (length bs) ->
  ochain pBt h' (drop k ps) (splice (drop (k * Z.to_nat (us - 4)) bs) off X) -> ochain pBt h' ps (splice bs (off + Z.of_nat (k * Z.to_nat (us - 4))) X).
Proof.
  induction k as [|k IH]; intros ps bs off X Hc Hnd Hk Hq Ho Hl Hd. { rewrite !drop_0 in Hd. cbn [Nat.mul Z.of_nat]. by rewrite Z.add_0_r. }
  destruct ps as [|p ps]; [cbn in Hk; lia|]. destruct Hc as (Hne & d & Hp & Hlk & Hs & Hc). cbn [length] in Hk. cbn [take] in Hq. apply NoDup_cons in Hnd as [Hpn Hnd]. set (K := Z.to_nat (us - 4)) in *. assert (S k * K = K + k * K)%nat as EK by lia. rewrite EK in *.
  assert (length (splice bs (off + Z.of_nat (K + k * K)) X) = length bs) as L by (apply length_splice; lia). split; [intros E; rewrite E in L; destruct bs; [done|discriminate L]|]. exists d. rewrite Hq by left. split; [done|]. split; [done|]. rewrite L. fold K. rewrite take_splice_out, drop_splice_in by lia. split; [done|].
  replace (off + Z.of_nat (K + k * K) - Z.of_nat K) with (off + Z.of_nat (k * K)) by lia. cbn [drop] in Hd. rewrite <- drop_drop in Hd. apply IH; try done; [lia|intros q Hq'; apply Hq; by right|]. rewrite length_drop. lia.
Qed.

Section overflow_write.
Context (h : gmap Z (list Z)) (ws : gset Z) (r : Z -> Z) (F : flist) (n : Z) (ps bs : list Z).
Context (Hok : pages_ok pBt n h r F) (Hptr : ptr_ok pBt n h F) (Huse : in_use pBt n r F ps) (Hch : ochain pBt h ps bs).

Definition put (s : Db W) (offset amt : Z) (pBuf : list Z) (bufAt : Z) (x : Z * list Z * option (list Z)) (s' : Db W) : Prop := let '(rc, buf, cache) := x in
  exists w k h' ws', s' = set_hasContent (set_pager s w) (pHasContent s) k /\ prep w h' ws' r /\ pages_ok pBt n h' r F /\ ptr_ok pBt n h' F /\ cache_ok cache ps /\ (forall q, q ∉ ps -> h' !! q = h !! q) /\ buf = pBuf /\ (rc <> 0 -> reliable (W := W) -> (forall k, alloc k = true) -> False) /\
  (rc = 0 -> ochain pBt h' ps (splice bs offset (slice pBuf bufAt amt))).

Lemma overflow_write pCur info offset amt pBuf bufAt s : prep (pPager s) h ws r -> nPage s = n -> cache_ok (aOverflow pCur) ps -> nPayload info - nLocal info = Z.of_nat (length bs) -> Z.of_nat (length bs) < 2 ^ 31 -> bytes pBuf -> 0 <= offset -> 0 < amt -> offset + amt <= Z.of_nat (length bs) -> 0 <= bufAt -> bufAt + amt <= Z.of_nat (length pBuf) ->
  does (access_overflow pBt alloc pCur info (first_page ps) offset amt pBuf bufAt true) s (put s offset amt pBuf bufAt).
Proof.
  intros Hw Hn Hc Hnp Hb31 Hbuf Ho Ha Hoa Hba Hbl. pose proof Hsz as [Hps Hu]. destruct Huse as [Hnd Hu']. unfold access_overflow. rewrite Hnp, (uwrap_small 32) by (unfold is_u; lia). apply does_bind.
  eapply does_mono; [apply (access_cache_ok pCur _ ps s Hc); symmetry; by apply (ochain_pages pBt Hsz h)|]. intros [rc cache] s1 ((k1 & ->) & Hc1 & Hf). cbn [fst snd] in *. destruct (Z.eqb_spec rc SQLITE_OK) as [->|Hrc]; cbn [negb].
  2: { apply does_ret. exists (pPager s), k1, h, ws. split; [by destruct s|]. split_and!; try done. intros _ _ Hal. destruct (Hf Hrc) as [k E]. by rewrite Hal in E. }
  pose proof (access_start h ps bs cache offset Hch Hc1 ltac:(lia)) as Hst. destruct (match cache with Some _ => _ | None => _ end) as [[iIdx nextPage] off]. destruct Hst as (k & -> & -> & Eoff & Hoff & Hk). pose proof (ochain_drop h k ps bs Hch Hk) as Hchk.
  apply does_bind. eapply does_mono; [eapply (access_write_ok r F n ps pBuf Hnd Hbuf ltac:(intros q Hq; destruct (Hu' q Hq) as (? & ? & ? & _); done) _ k (drop k ps) (drop (k * Z.to_nat (us - 4)) bs) off amt bufAt cache _ h ws); try done; rewrite ?length_drop; lia|].
  intros [[[rc amt'] buf] c'] s2 (w & h2 & ws2 & -> & Hw2 & Hok2 & Hptr2 & Hc2 & Hfr2 & -> & Hf2 & Hg2). apply does_ret. exists w, k1, h2, ws2. assert (forall q, q ∈ take k ps -> q ∉ drop k ps) as Hdis. { intros q Hq. rewrite <- (take_drop k ps) in Hnd. apply NoDup_app in Hnd as (_ & Hnd & _). by apply Hnd. }
  split; [done|]. split_and!; try done.
  - intros q Hq. apply Hfr2. intros Hx. apply Hq. rewrite <- (take_drop k ps). apply elem_of_app. by right.
  - destruct (Z.eqb_spec rc SQLITE_OK) as [->|Hrc]; cbn [andb]; [destruct (Hg2 eq_refl) as [-> _]; done|]. intros _ Hre _. by apply Hf2.
  - destruct (Z.eqb_spec rc SQLITE_OK) as [->|Hrc]; cbn [andb]; [|done]. destruct (Hg2 eq_refl) as [-> Hch2]. intros _. rewrite <- Eoff. apply (ochain_tail h); try done; [intros q Hq; by apply Hfr2, Hdis|]. pose proof (length_slice pBuf bufAt amt Hba ltac:(lia) Hbl). lia.
Qed.
End overflow_write.

(** ** accessPayload *)

(** The numbers that accessPayload starts with. *)
Lemma access_info pCur h d ps bs : at_cell pCur h d ps bs -> bytes d -> let P := apPage pCur in let info := btreeParseCellPtr pBt P (cell_at d (cell pCur)) in
  u32 ((if intKey P then 0 else i32 (nKey info)) + nData info) = Z.of_nat (length bs) /\ 1 <= nHeader info /\ 0 <= nLocal info <= Z.of_nat (length bs) /\ nPayload info = Z.of_nat (length bs) /\ cell pCur + nHeader info + nLocal info <= us /\
  slice d (cell pCur + nHeader info) (nLocal info) = take (Z.to_nat (nLocal info)) bs /\ ochain pBt h ps (drop (Z.to_nat (nLocal info)) bs) /\
  (nLocal info < Z.of_nat (length bs) -> iOverflow info = nHeader info + nLocal info /\ cell pCur + nHeader info + nLocal info + 4 <= us /\ get4byte d (cell pCur + nHeader info + nLocal info) = first_page ps).
Proof.
  intros [HK Hd Hcell Hst Hfit Hsize _] Hb P info. change (apPage pCur) with P in HK, Hd, Hst, Hfit. assert (bytes (cell_at d (cell pCur))) as Hbc by by apply Forall_drop. destruct (stored_info pBt Hbt h P _ ps bs HK Hbc Hst) as (Hh & Hlo & _ & Hp & Hns & Hov). fold info in Hh, Hlo, Hp, Hns, Hov, Hfit. fold P in Hst. destruct Hst as (_ & Hs & Hg & Hch). fold info in Hs, Hg, Hch.
  split.
  { pose proof (parse_eq pBt Hbt P _ HK Hbc) as E. fold info in E. destruct (cell_header P (cell_at d (cell pCur))) as [i n]. rewrite E in Hp |- *. cbn [nPayload nKey nData] in *. subst n. destruct (intKey P); [by rewrite uwrap_small by (unfold is_u; lia)|].
    rewrite swrap_small by (try (unfold is_i; change (2 ^ (32 - 1)) with (2 ^ 31)); lia). rewrite uwrap_small by (unfold is_u; lia). lia. }
  split; [lia|]. split; [done|]. split; [done|]. split; [destruct (iOverflow info =? 0); lia|]. split; [|split; [done|]].
  - rewrite <- Hs. unfold cell_at. rewrite slice_drop by lia. f_equal. lia.
  - intros Hlt. destruct Hov as [(_ & _ & ?)|(E & Hne & _)]; [lia|]. rewrite E in Hns. rewrite (proj2 (Z.eqb_neq _ 0)) in Hns by lia. split; [done|]. split; [lia|]. rewrite <- (Hg Hne), E. unfold cell_at. apply get4_ext; [lia|lia|]. intros j Hj. rewrite rd_drop by lia. f_equal. lia.
Qed.

Lemma accessPayload_read pCur offset amt pBuf s h ws r F d ps bs : prep (pPager s) h ws r -> pages_ok pBt (nPage s) h r F -> ptr_ok pBt (nPage s) h F -> at_cell pCur h d ps bs -> (forall p, p ∈ ps -> 2 <= p <= nPage s) ->
  0 <= offset -> 0 <= amt -> offset + amt <= Z.of_nat (length bs) -> amt <= Z.of_nat (length pBuf) -> does (accessPayload pBt alloc pCur offset amt pBuf false) s (got h ws r ps bs s offset amt pBuf 0).
Proof.
  intros Hw Hok Hptr Hac Hall Ho Ha Hoa Hbl. pose proof (ac_page _ _ _ _ _ Hac) as Hd. destruct (prep_good _ _ _ _ _ _ Hw Hd) as [Hb Hl]. destruct (access_info pCur h d ps bs Hac Hb) as (Hk & Hh & Hlo & Hp & Hfit & Hs & Hch & Hov). pose proof (ac_size _ _ _ _ _ Hac) as Hsz31. pose proof (ac_cell _ _ _ _ _ Hac) as Hcell.
  unfold accessPayload. apply does_bind. eapply does_load; [exact Hw|exact Hd|]. cbv zeta. set (P := apPage pCur) in *. set (info := btreeParseCellPtr pBt P _) in *. set (lo := nLocal info) in *. rewrite Hk, (uwrap_small 32 (offset + amt)) by (unfold is_u; lia). rewrite (proj2 (Z.ltb_ge _ _)), (proj2 (Z.ltb_ge us _)) by lia. cbn [orb].
  pose proof Hsz as [Hps Hu]. assert (forall a, 0 <= a -> offset + a <= lo -> slice d (cell pCur + nHeader info + offset) a = slice bs offset a) as Hloc.
  { intros a Ha' Hal. rewrite <- (slice_take (Z.to_nat lo) bs offset a) by lia. rewrite <- Hs. change (slice d (cell pCur + nHeader info) lo) with (take (Z.to_nat lo) (drop (Z.to_nat (cell pCur + nHeader info)) d)). rewrite slice_take, slice_drop by lia. f_equal. lia. }
  assert (forall off am pb at_, 0 <= off -> 0 < am -> off + am <= Z.of_nat (length bs) - lo -> 0 <= at_ -> at_ + am <= Z.of_nat (length pb) ->
    does (d ← load (pgno P); access_overflow pBt alloc pCur info (get4byte d (cell pCur + nHeader info + lo)) off am pb at_ false) s (got h ws r ps (drop (Z.to_nat lo) bs) s off am pb at_)) as Hrest.
  { intros off am pb at_ H1 H2 H3 H4 H5. destruct (Hov ltac:(lia)) as (_ & _ & Hg). apply does_bind. eapply does_load; [exact Hw|exact Hd|]. rewrite Hg. eapply overflow_read; try done; try apply Hac; rewrite ?length_drop; lia. }
  apply does_bind. destruct (Z.ltb_spec offset lo) as [Hin|Hout].
  - set (a := if lo <? amt + offset then lo - offset else amt). assert (0 <= a <= amt /\ offset + a <= lo /\ (a < amt -> offset + a = lo)) as (Ha1 & Ha2 & Ha3) by (unfold a; destruct (Z.ltb_spec lo (amt + offset)); lia). unfold copyPayload. apply does_bind, does_bind. eapply does_load; [exact Hw|exact Hd|]. apply does_ret, does_ret. rewrite Hloc by lia.
    pose proof (length_slice bs offset a Ho ltac:(lia) ltac:(lia)) as Hla. change (SQLITE_OK =? SQLITE_OK) with true. cbn [andb]. destruct (Z.ltb_spec 0 (amt - a)) as [Hmore|Hno].
    + eapply does_mono; [apply Hrest; rewrite ?length_splice; lia|]. intros [[rc buf] c] s' (Hs' & Hc & Hf & Hg). split; [done|]. split; [done|]. split; [done|]. intros Hrc. rewrite (Hg Hrc). rewrite slice_drop by lia. replace a with (0 + Z.of_nat (length (slice bs offset a))) at 2 by lia.
      rewrite splice_app; [|lia|rewrite Hla; pose proof (length_slice bs (Z.of_nat (Z.to_nat lo) + 0) (amt - a)); lia]. f_equal. replace amt with (a + (amt - a)) at 2 by lia. rewrite slice_app by lia. do 2 f_equal. lia.
    + apply does_ret. split; [exists (pPager s), (nAlloc s); by destruct s|]. split; [apply Hac|]. split; [done|]. intros _. do 2 f_equal. lia.
  - apply does_ret. change (SQLITE_OK =? SQLITE_OK) with true. cbn [andb]. destruct (Z.ltb_spec 0 amt) as [Hmore|Hno].
    + eapply does_mono; [apply Hrest; lia|]. intros [[rc buf] c] s' (Hs' & Hc & Hf & Hg). split; [done|]. split; [done|]. split; [done|]. intros Hrc. rewrite (Hg Hrc), slice_drop by lia. do 2 f_equal. lia.
    + apply does_ret. split; [exists (pPager s), (nAlloc s); by destruct s|]. split; [apply Hac|]. split; [done|]. intros _. assert (amt = 0) as -> by lia. by rewrite slice_none, splice_nil.
Qed.

(** A store to a page in use that keeps what the list of free pages and the chains of overflow pages need. *)
Lemma pages_store_any n h r F p d d' : pages_ok pBt n h r F -> p ∉ frees F -> regular pBt p -> h !! p = Some d -> (p = 1 -> forall j, 0 <= j < 100 -> rd d' j = rd d j) -> pages_ok pBt n (<[p := d']> h) r F.
Proof.
  intros Hok HpF Hr Hd H1. destruct (decide (p = 1)) as [->|Hne]; [|by apply pages_store]. specialize (H1 eq_refl). assert (forall i, 0 <= i -> i + 4 <= 100 -> get4byte d' i = get4byte d i) as Hg by (intros i Hi Hi2; apply get4_ext; [lia|lia|intros j Hj; apply H1; lia]).
  split; [|intros d0 Hd0; rewrite lookup_insert_eq in Hd0; injection Hd0 as <-; rewrite Hg by lia; by apply (po_count _ _ _ _ _ Hok)|apply Hok..| |].
  - destruct (po_list _ _ _ _ _ Hok) as (d0 & Hd0 & Hs). rewrite Hd in Hd0. injection Hd0 as <-. exists d'. rewrite lookup_insert_eq, Hg by lia. split; [done|]. apply (seg_ext pBt h); [done|]. intros t Ht%trunks_frees. apply lookup_insert_ne. by intros <-.
  - intros q Hav Hq Hi. rewrite lookup_insert_ne by lia. by apply (po_map _ _ _ _ _ Hok).
  - intros q Hav Hq. destruct (po_range _ _ _ _ _ Hok q Hq) as [Hqn Hqr]. destruct (free_mapped pBt Hsz _ _ _ _ q Hok Hav Hqn Hqr) as [Hqm _]. rewrite entry_store by done. by apply (po_type _ _ _ _ _ Hok).
Qed.

(** The cell after a store to its local payload. *)
Lemma stored_local h P c ps bs o A : kind pBt P -> bytes c -> bytes A -> stored pBt h P c ps bs -> let info := btreeParseCellPtr pBt P c in 0 <= o -> o + Z.of_nat (length A) <= nLocal info -> nHeader info + nLocal info + (if iOverflow info =? 0 then 0 else 4) <= Z.of_nat (length c) ->
  let c' := splice c (nHeader info + o) A in stored pBt h P c' ps (splice bs o A) /\ btreeParseCellPtr pBt P c' = info.
Proof.
  intros HK Hb HbA Hst info Ho HA Hl c'. destruct (stored_info pBt Hbt h P c ps bs HK Hb Hst) as (Hh & Hlo & _ & Hp & Hns & Hov). destruct Hst as (_ & Hs & Hg & Hch). fold info in Hh, Hlo, Hp, Hns, Hov, Hs, Hg, Hch. assert (bytes c') as Hb' by by apply bytes_splice. assert (0 <= (if iOverflow info =? 0 then 0 else 4)) as H4 by (destruct (iOverflow info =? 0); lia).
  assert (btreeParseCellPtr pBt P c' = info) as E. { apply (parse_prefix pBt Hbt P c c' HK Hb Hb'). pose proof (parse_eq pBt Hbt P c HK Hb) as E. fold info in E. intros j Hj. apply rd_splice_out; try lia. left. destruct (cell_header P c) as [i n]. cbn [fst] in Hj. assert (nHeader info = i) by by rewrite E. lia. }
  split; [|done]. assert (length (splice bs o A) = length bs) as Lb by (apply length_splice; lia). unfold stored. rewrite E, Lb. split; [done|]. split; [|split].
  - unfold c'. rewrite slice_splice_in, Hs by lia. rewrite take_splice_in by lia. done.
  - intros Hne. rewrite <- (Hg Hne). destruct Hov as [(_ & ? & _)|(Eo & _ & Hlt)]; [done|]. rewrite Eo in Hl |- *. rewrite (proj2 (Z.eqb_neq _ 0)) in Hl by lia. apply get4_splice_ne; lia.
  - rewrite drop_splice_out by lia. done.
Qed.

Definition set_cache (pCur : BtCursor) (cache : option (list Z)) : BtCursor := {| apPage := apPage pCur; cell := cell pCur; isIncrblobHandle := isIncrblobHandle pCur; aOverflow := cache |}.

(** Nothing but the payload changes on the page of the cell. *)
Definition put_all (s : Db W) (h : gmap Z (list Z)) r F pCur (d ps bs : list Z) offset amt pBuf (x : Z * list Z * option (list Z)) (s' : Db W) : Prop := let '(rc, buf, cache) := x in let info := btreeParseCellPtr pBt (apPage pCur) (cell_at d (cell pCur)) in
  exists w k h' ws' d', s' = set_hasContent (set_pager s w) (pHasContent s) k /\ prep w h' ws' r /\ pages_ok pBt (nPage s) h' r F /\ ptr_ok pBt (nPage s) h' F /\ (forall q, q ∉ ps -> q <> pgno (apPage pCur) -> h' !! q = h !! q) /\
    h' !! pgno (apPage pCur) = Some d' /\ length d' = length d /\ (forall j, 0 <= j -> j < cell pCur + nHeader info \/ cell pCur + nHeader info + nLocal info <= j -> rd d' j = rd d j) /\
    (rc <> 0 -> reliable (W := W) -> (forall k, alloc k = true) -> False) /\ (rc = 0 -> at_cell (set_cache pCur cache) h' d' ps (splice bs offset (slice pBuf 0 amt))).

(** The cell after a store to its overflow pages. *)
Lemma stored_tail h h' P c ps bs o X : kind pBt P -> bytes c -> stored pBt h P c ps bs -> let lo := nLocal (btreeParseCellPtr pBt P c) in 0 <= o -> lo + o + Z.of_nat (length X) <= Z.of_nat (length bs) -> ochain pBt h' ps (splice (drop (Z.to_nat lo) bs) o X) -> stored pBt h' P c ps (splice bs (lo + o) X).
Proof.
  intros HK Hb Hst lo Ho HX Hch. destruct (stored_info pBt Hbt h P c ps bs HK Hb Hst) as (_ & Hlo & _). destruct Hst as (Hp & Hs & Hg & _). fold lo in Hlo, Hs. unfold stored. fold lo. rewrite length_splice by lia. split; [done|]. rewrite take_splice_out, drop_splice_in by lia. replace (lo + o - Z.of_nat (Z.to_nat lo)) with o by lia. done.
Qed.

Section put_all.
Context (pCur : BtCursor) (offset amt : Z) (pBuf : list Z) (s : Db W) (h : gmap Z (list Z)) (r : Z -> Z) (F : flist) (d ps bs : list Z).
Context (Hok : pages_ok pBt (nPage s) h r F) (Hptr : ptr_ok pBt (nPage s) h F) (Hac : at_cell pCur h d ps bs) (Hb : bytes d) (Hl : us <= Z.of_nat (length d)) (Huse : in_use pBt (nPage s) r F ps).
Context (Hreg : regular pBt (pgno (apPage pCur))) (HPF : pgno (apPage pCur) ∉ frees F) (HPps : pgno (apPage pCur) ∉ ps) (Hlow : (if pgno (apPage pCur) =? 1 then 100 else 4) <= cell pCur).
Context (Ho : 0 <= offset) (Ha : 0 <= amt) (Hoa : offset + amt <= Z.of_nat (length bs)) (Hbl : amt <= Z.of_nat (length pBuf)) (Hbuf : bytes pBuf).
Abbreviation P := (apPage pCur).
Abbreviation info := (btreeParseCellPtr pBt P (cell_at d (cell pCur))).

(** A store to the page of the cell. *)
Lemma put_local a : 0 <= a -> offset + a <= nLocal info -> a <= Z.of_nat (length pBuf) -> let A := slice pBuf 0 a in let d1 := splice d (cell pCur + nHeader info + offset) A in let h1 := <[pgno P := d1]> h in
  bytes d1 /\ length d1 = length d /\ pages_ok pBt (nPage s) h1 r F /\ ptr_ok pBt (nPage s) h1 F /\ at_cell pCur h1 d1 ps (splice bs offset A) /\ btreeParseCellPtr pBt P (cell_at d1 (cell pCur)) = info /\
  forall j, 0 <= j -> j < cell pCur + nHeader info \/ cell pCur + nHeader info + nLocal info <= j -> rd d1 j = rd d j.
Proof.
  intros Ha0 Hal Hab A d1 h1. destruct (access_info pCur h d ps bs Hac Hb) as (_ & Hh & Hlo & Hp & Hfit & _ & _ & Hov). destruct Hac as [HK Hd Hcell Hst Hfit' Hsize Hcache]. pose proof (length_slice pBuf 0 a ltac:(lia) Ha0 ltac:(lia)) as HlA. fold A in HlA. assert (bytes A) as HbA by by apply Forall_take, Forall_drop.
  assert (length d1 = length d) as Hl1 by (apply length_splice; lia). assert (bytes d1) as Hb1 by by apply bytes_splice. assert (forall j, 0 <= j -> j < cell pCur + nHeader info \/ cell pCur + nHeader info + nLocal info <= j -> rd d1 j = rd d j) as Hout by (intros j Hj Hj'; apply rd_splice_out; lia).
  assert (forall j, 0 <= j < (if pgno P =? 1 then 100 else 4) -> rd d1 j = rd d j) as Hlow1 by (intros j Hj; apply Hout; lia). assert (bytes (cell_at d (cell pCur))) as Hbc by by apply Forall_drop. assert (cell_at d1 (cell pCur) = splice (cell_at d (cell pCur)) (nHeader info + offset) A) as Ec. { change (cell_at d1 (cell pCur)) with (drop (Z.to_nat (cell pCur)) d1). unfold d1. rewrite drop_splice_in by lia. f_equal. lia. }
  assert (nHeader info + nLocal info + (if iOverflow info =? 0 then 0 else 4) <= Z.of_nat (length (cell_at d (cell pCur)))) as Hfc. { change (length (cell_at d (cell pCur))) with (length (drop (Z.to_nat (cell pCur)) d)). rewrite length_drop. destruct (stored_info pBt Hbt h P _ ps bs HK Hbc Hst) as (_ & _ & _ & _ & Hns & _). lia. }
  destruct (stored_local h P (cell_at d (cell pCur)) ps bs offset A HK Hbc HbA Hst Ho ltac:(lia) Hfc) as [Hst1 Hpa]. rewrite <- Ec in Hst1, Hpa.
  split; [done|]. split; [done|]. split; [eapply pages_store_any; [done|done|done|exact Hd|]; intros E; rewrite E in Hlow1; exact Hlow1|]. destruct Hptr as [Hty Hli]. split.
  { split; [by apply typed_store|]. eapply linked_keep; [done|done|done|exact Hd|]. apply get4_ext; [lia|lia|]. intros j Hj. apply Hlow1. destruct (pgno P =? 1); lia. }
  split; [|split; [done|done]]. split; [done|apply lookup_insert_eq|done| |by rewrite Hpa|rewrite length_splice; lia|done]. destruct Hst1 as (A1 & A2 & A3 & A4). split; [done|]. split; [done|]. split; [done|]. apply (ochain_ext pBt h); [done|]. intros q Hq. apply lookup_insert_ne. by intros <-.
Qed.

(** A store to the overflow pages, when the start of the payload has been stored. *)
Lemma put_rest h1 d1 bs1 off am at_ s1 ws1 : prep (pPager s1) h1 ws1 r -> (exists w, s1 = set_pager s w) -> pages_ok pBt (nPage s) h1 r F -> ptr_ok pBt (nPage s) h1 F -> at_cell pCur h1 d1 ps bs1 -> bytes d1 -> length d1 = length d -> length bs1 = length bs -> btreeParseCellPtr pBt P (cell_at d1 (cell pCur)) = info ->
  (forall q, q <> pgno P -> h1 !! q = h !! q) -> (forall j, 0 <= j -> j < cell pCur + nHeader info \/ cell pCur + nHeader info + nLocal info <= j -> rd d1 j = rd d j) ->
  0 <= off -> 0 < am -> off + am <= Z.of_nat (length bs) - nLocal info -> 0 <= at_ -> at_ + am <= Z.of_nat (length pBuf) -> splice bs1 (nLocal info + off) (slice pBuf at_ am) = splice bs offset (slice pBuf 0 amt) ->
  does (d ← load (pgno P); access_overflow pBt alloc pCur info (get4byte d (cell pCur + nHeader info + nLocal info)) off am pBuf at_ true) s1 (put_all s h r F pCur d ps bs offset amt pBuf).
Proof.
  intros Hw (w0 & ->) Hok1 Hptr1 Hac1 Hb1 Hl1 Hlb1 Hpa Hfr Hout Hoff Ham Hoam Hat Hatl Heq. destruct (access_info pCur h1 d1 ps bs1 Hac1 Hb1) as (_ & Hh & Hlo & Hp & Hfit & _ & Hch & Hov). rewrite Hpa in Hh, Hlo, Hp, Hfit, Hch, Hov. pose proof (ac_page _ _ _ _ _ Hac1) as Hd1. destruct (Hov ltac:(lia)) as (_ & _ & Hg).
  pose proof (ac_size _ _ _ _ _ Hac1) as Hs31. apply does_bind. eapply does_load; [exact Hw|exact Hd1|]. rewrite Hg. eapply does_mono; [eapply (overflow_write h1 ws1 r F (nPage s) ps _ Hok1 Hptr1 Huse Hch pCur info off am pBuf at_); try done; try apply Hac1; rewrite ?length_drop; lia|].
  intros [[rc buf] cache] s' (w & k & h' & ws' & -> & Hw' & Hok' & Hptr' & Hc' & Hfr' & -> & Hf & Hgood). exists w, k, h', ws', d1. assert (h' !! pgno P = Some d1) as Hd' by by rewrite Hfr'. split; [reflexivity|]. split; [exact Hw'|]. split; [exact Hok'|]. split; [exact Hptr'|]. split; [intros q Hq HqP; by rewrite Hfr', Hfr|]. split; [exact Hd'|]. split; [exact Hl1|]. split; [exact Hout|]. split; [exact Hf|].
  intros Hrc. pose proof (length_slice pBuf at_ am Hat ltac:(lia) Hatl) as HlX. pose proof (ac_stored _ _ _ _ _ Hac1) as Hst1. assert (bytes (cell_at d1 (cell pCur))) as Hbc by by apply Forall_drop.
  pose proof (stored_tail h1 h' P (cell_at d1 (cell pCur)) ps bs1 off (slice pBuf at_ am) (ac_kind _ _ _ _ _ Hac1) Hbc Hst1) as Hst2. rewrite Hpa in Hst2. specialize (Hst2 Hoff ltac:(lia) (Hgood Hrc)). rewrite Heq in Hst2. pose proof (length_slice pBuf 0 amt ltac:(lia) Ha ltac:(lia)).
  split; try apply Hac1; cbn [set_cache apPage cell aOverflow]; try done. rewrite length_splice by lia. apply Hac.
Qed.

Lemma accessPayload_write ws : prep (pPager s) h ws r -> 0 < r (pgno P) -> does (accessPayload pBt alloc pCur offset amt pBuf true) s (put_all s h r F pCur d ps bs offset amt pBuf).
Proof.
  intros Hw HrP. pose proof (ac_page _ _ _ _ _ Hac) as Hd. destruct (prep_good _ _ _ _ _ _ Hw Hd) as [_ Hld]. destruct (access_info pCur h d ps bs Hac Hb) as (Hk & Hh & Hlo & Hp & Hfit & Hs & Hch & Hov). pose proof (ac_size _ _ _ _ _ Hac) as Hsz31. pose proof (ac_cell _ _ _ _ _ Hac) as Hcell. pose proof Hsz as [Hps Hu].
  unfold accessPayload. apply does_bind. eapply does_load; [exact Hw|exact Hd|]. cbv zeta. rewrite Hk, (uwrap_small 32 (offset + amt)) by (unfold is_u; lia). rewrite (proj2 (Z.ltb_ge _ _)), (proj2 (Z.ltb_ge us _)) by lia. cbn [orb].
  assert (s = set_pager s (pPager s)) as Es by by destruct s. apply does_bind. destruct (Z.ltb_spec offset (nLocal info)) as [Hin|Hout].
  - set (a := if nLocal info <? amt + offset then nLocal info - offset else amt). assert (0 <= a <= amt /\ offset + a <= nLocal info /\ (a < amt -> offset + a = nLocal info)) as (Ha1 & Ha2 & Ha3) by (unfold a; destruct (Z.ltb_spec (nLocal info) (amt + offset)); lia). unfold copyPayload. apply does_bind, does_bind. eapply does_write; [exact Hw|done| |].
    { intros rc w Hrc Hrel Hw1. rewrite (proj2 (Z.eqb_neq _ SQLITE_OK)) by done. cbn [negb]. apply does_ret, does_ret. rewrite (proj2 (Z.eqb_neq _ SQLITE_OK)) by done. cbn [andb]. apply does_ret. exists w, (nAlloc s), h, ws, d. split_and!; done. }
    intros w d0 Hw1 Hd0. rewrite (Hd0 d Hd), insert_id in Hw1 by done. cbn [negb Z.eqb SQLITE_OK]. apply does_bind. eapply does_load; [exact Hw1|exact Hd|]. destruct (put_local a ltac:(lia) Ha2 ltac:(lia)) as (Hb1 & Hl1 & Hok1 & Hptr1 & Hac1 & Hpa & Hout1). set (A := slice pBuf 0 a) in *. set (d1 := splice d _ A) in *.
    apply does_bind. eapply does_store; [exact Hw1|done|in_ws|exact Hd|done|done|]. intros w2 Hw2. apply does_ret, does_ret. change (SQLITE_OK =? SQLITE_OK) with true. cbn [andb]. pose proof (length_slice pBuf 0 a ltac:(lia) ltac:(lia) ltac:(lia)) as HlA. fold A in HlA. destruct (Z.ltb_spec 0 (amt - a)) as [Hmore|Hno].
    + eapply (put_rest (<[pgno P := d1]> h) d1 (splice bs offset A)); try done; try lia; [by eexists|apply length_splice; lia|intros q Hq; by apply lookup_insert_ne|]. replace (nLocal info + 0) with (offset + Z.of_nat (length A)) by lia. rewrite splice_app; [|lia|pose proof (length_slice pBuf a (amt - a)); lia].
      f_equal. unfold A. replace amt with (a + (amt - a)) at 2 by lia. rewrite slice_app by lia. done.
    + apply does_ret. assert (slice pBuf 0 amt = A) as EA by (unfold A; f_equal; lia). eexists w2, (nAlloc s), _, _, d1. split; [reflexivity|]. split; [exact Hw2|]. split; [exact Hok1|]. split; [exact Hptr1|]. split; [intros q _ Hq; by apply lookup_insert_ne|]. split; [apply lookup_insert_eq|]. split; [exact Hl1|]. split; [exact Hout1|]. split; [done|]. intros _. rewrite EA. destruct Hac1. by split.
  - apply does_ret. change (SQLITE_OK =? SQLITE_OK) with true. cbn [andb]. destruct (Z.ltb_spec 0 amt) as [Hmore|Hno].
    + eapply (put_rest h d bs); try done; try lia; [by exists (pPager s)|]. f_equal. lia.
    + apply does_ret. assert (amt = 0) as E by lia. exists (pPager s), (nAlloc s), h, ws, d. split; [by destruct s|]. split_and!; try done. intros _. rewrite E, slice_none, splice_nil. destruct Hac. by split.
Qed.
End put_all.
End access.
