(* ===== verification/BtRun.v ===== *)
(** The pages of the database file as a store of pages: every client that takes, writes, reads and gives back pages sees a finite map, and no page is lost or used twice. *)
From S2P Require Import Prelude Varint IntArith Bitvec Mem Page PageSpace PageCell Pager BtPages BtRep BtPtrmap BtList BtAlloc BtStore BtFree BtOverflow.
Local Open Scope Z_scope.
Local Open Scope c_scope.

Section run.
Context {W : Type} {ops : PagerOps W} (pBt : BtShared) {HP : Pager W (pageSize pBt)} (Hsz : sizes_ok pBt) (bDoTruncate : bool) (alloc : nat -> bool).

(** ** Clients *)

Inductive op := Take (nearby eMode : Z) | Put (p : Z) (d : list Z) | Fetch (p : Z) | Give (p : Z).
Inductive out := Error (rc : Z) | Taken (p : Z) | Bytes (d : list Z) | Ok.
(** A client chooses its next operation by what the last one returned, and stops at an error. *)
Inductive client := Stop | Do (o : op) (k : out -> client).

(** The loop over the trunk pages has fewer turns than the file has pages. *)
Definition exec (o : op) : prog (Db W) out :=
  match o with
  | Take nearby eMode => s ← pget; '(rc, p) ← allocateBtreePage pBt bDoTruncate (Z.to_nat (nPage s)) nearby eMode; if negb (rc =? SQLITE_OK) then mret (Error rc) else releasePage p ;; mret (Taken p)
  | Put p d =>
      rc ← btreeGetPage p 0;
      if negb (rc =? SQLITE_OK) then mret (Error rc)
      else rc ← pagerWrite p; if negb (rc =? SQLITE_OK) then releasePage p ;; mret (Error rc) else store p d ;; releasePage p ;; mret Ok
  | Fetch p => rc ← btreeGetPage p 0; if negb (rc =? SQLITE_OK) then mret (Error rc) else d ← load p; releasePage p ;; mret (Bytes d)
  | Give p => rc ← freePage2 pBt alloc false p; if negb (rc =? SQLITE_OK) then mret (Error rc) else mret Ok
  end.

Fixpoint run (c : client) : prog (Db W) (list out) :=
  match c with
  | Stop => mret []
  | Do o k => x ← exec o; match x with Error _ => mret [x] | _ => l ← run (k x); mret (x :: l) end
  end.

(** ** The store of pages *)

(** The number of pages of the file and the contents of the pages in use. *)
Definition state : Type := Z * gmap Z (list Z).
Definition free (a : state) (q : Z) : Prop := 2 <= q <= a.1 /\ regular pBt q /\ a.2 !! q = None.

Inductive astep : state -> op -> out -> state -> Prop :=
  | a_take a nearby eMode p d n : a.2 !! p = None -> 2 <= p -> regular pBt p ->
      (free a p /\ n = a.1) \/ ((forall q, ~ free a q) /\ a.1 < p /\ n = p /\ forall q, a.1 < q < p -> ~ regular pBt q) ->
      (eMode = BTALLOC_EXACT -> free a nearby -> p = nearby) -> (eMode = BTALLOC_LE -> (exists q, free a q) -> p <= nearby) ->
      astep a (Take nearby eMode) (Taken p) (n, <[p := d]> a.2)
  | a_put a p d : is_Some (a.2 !! p) -> astep a (Put p d) Ok (a.1, <[p := d]> a.2)
  | a_fetch a p d : a.2 !! p = Some d -> astep a (Fetch p) (Bytes d) a
  | a_give a p : is_Some (a.2 !! p) -> astep a (Give p) Ok (a.1, delete p a.2).

Definition allowed (a : state) (o : op) : Prop :=
  match o with
  | Take nearby eMode => 0 <= nearby < 2 ^ 32 /\ (eMode = BTALLOC_ANY \/ (0 < nearby /\ (eMode = BTALLOC_LE \/ (eMode = BTALLOC_EXACT /\ autoVacuum pBt = true /\ mapped pBt nearby))))
  | Put p d => is_Some (a.2 !! p) /\ bytes d /\ Z.of_nat (length d) = pageSize pBt
  | Fetch p | Give p => is_Some (a.2 !! p)
  end.
(** When an operation can fail although no call of the pager and no allocation of memory does. *)
Definition may_fail (a : state) (o : op) : Prop :=
  match o with
  | Take nearby eMode => 2 ^ 31 <= a.1 + 4 \/ (eMode = BTALLOC_EXACT /\ nearby <= a.1 /\ ~ free a nearby) \/ (eMode = BTALLOC_LE /\ forall q, free a q -> nearby < q)
  | _ => False
  end.

Inductive traces : state -> client -> list out -> state -> Prop :=
  | t_stop a : traces a Stop [] a
  | t_error a o k rc : rc <> 0 -> (reliable (W := W) -> (forall k, alloc k = true) -> may_fail a o) -> traces a (Do o k) [Error rc] a
  | t_do a o k x a' l a2 : astep a o x a' -> traces a' (k x) l a2 -> traces a (Do o k) (x :: l) a2.

(** The client uses its own pages only. *)
Fixpoint safe (a : state) (c : client) : Prop := match c with Stop => True | Do o k => allowed a o /\ forall x a', astep a o x a' -> safe a' (k x) end.

(** ** The file implements the store *)

(** [one] has the part of page 1 that the list of free pages does not use. *)
Definition rep (one : list Z) (s : Db W) (a : state) : Prop := exists h ws r F, prep (pPager s) h ws r /\ pages_ok pBt (nPage s) h r F /\ content_wf (pHasContent s) /\ (forall p, p <> 1 -> r p = 0) /\ nPage s = a.1 /\
  (forall p, is_Some (a.2 !! p) <-> 2 <= p <= nPage s /\ regular pBt p /\ p ∉ frees F) /\ (forall p d, a.2 !! p = Some d -> h !! p = Some d) /\
  forall d, h !! 1 = Some d -> forall j, 0 <= j -> j < 28 \/ 40 <= j -> rd d j = rd one j.

Lemma state_free (s : Db W) a h r F q : pages_ok pBt (nPage s) h r F -> nPage s = a.1 -> (forall p, is_Some (a.2 !! p) <-> 2 <= p <= nPage s /\ regular pBt p /\ p ∉ frees F) -> free a q <-> q ∈ frees F.
Proof.
  intros Hok Hn Hu. unfold free. rewrite <- Hn. split.
  - intros (Hq & Hr & Hnone). destruct (decide (q ∈ frees F)) as [|Hx]; [done|]. destruct (proj2 (Hu q)) as [d Hd]; [done|congruence].
  - intros Hq. destruct (po_range _ _ _ _ _ Hok q Hq) as [Hr Hreg]. split; [done|]. split; [done|]. apply eq_None_not_Some. intros Hs%Hu. by destruct Hs as (_ & _ & ?).
Qed.

Lemma exec_take one s a nearby eMode : rep one s a -> allowed a (Take nearby eMode) ->
  does (exec (Take nearby eMode)) s (fun x s' => match x with Error rc => rc <> 0 /\ (reliable (W := W) -> may_fail a (Take nearby eMode)) | _ => exists a', astep a (Take nearby eMode) x a' /\ rep one s' a' end).
Proof.
  intros (h & ws & r & F & Hw & Hok & Hcw & Hr1 & Hn & Hu & Hc & Hone) [Hnear Hmode]. cbn [exec]. apply does_bind, does_get, does_bind. pose proof (frees_fit _ _ _ _ _ Hok) as Hfit. pose proof (length_trunk_list F) as Hlt.
  assert (mode_ok pBt (nPage s) nearby eMode) as Hm by (split; [done|]; destruct Hmode as [?|(? & [?|(? & ? & ?)])]; [by left|right; auto..]).
  eapply does_mono; [apply (allocateBtreePage_ok pBt Hsz bDoTruncate _ s h ws r F nearby eMode Hw Hok); [lia|done]|]. intros [rc p] s' (h' & ws' & Hw' & [Ho1 Ho2] & Hf & Hg). cbn [fst snd] in *. pose proof (state_free s a h r F) as Hfree.
  destruct (Z.eqb_spec rc SQLITE_OK) as [->|Hrc]; cbn [negb].
  - destruct (Hg eq_refl) as (Hal & Hex & Hle). destruct Hal as (F' & Hok' & Hfr & [Hun Hun1] & Hp2 & Hreg & [d Hd] & Hpw & _). apply does_bind. eapply does_release; [exact Hw'|pose proof (po_pos _ _ _ _ _ Hok p); refs_eq|]. intros w2 Hw2. apply does_ret.
    assert (forall q, q ∈ frees F' -> q ∈ frees F) as Hsub by (intros q Hq; destruct Hfr as [[HP' _]|(_ & -> & _)]; [rewrite HP'; by right|by apply not_elem_of_nil in Hq]). assert (a.2 !! p = None) as Hnone.
    { apply eq_None_not_Some. intros (Hpr & _ & HpF)%Hu. destruct Hfr as [[HP' _]|(_ & _ & Hgt & _)]; [|lia]. apply HpF. rewrite HP'. left. }
    exists (nPage s', <[p := d]> a.2). split.
    + apply a_take; try done.
      * destruct Hfr as [[HP' En]|(EF & _ & Hgt & En & Hgap)]; [left; split; [|congruence]; apply Hfree; [done..|]; rewrite HP'; left|]. right. rewrite <- Hn. split; [intros q Hq%Hfree; [|done..]; rewrite EF in Hq; by apply not_elem_of_nil in Hq|]. split; [lia|]. split; [done|]. intros q Hq. by apply Hgap.
      * intros E Hq%Hfree; [|done..]. by apply Hex.
      * intros E [q Hq%Hfree]; [|done..]. apply Hle; [done|]. intros ->. by apply not_elem_of_nil in Hq.
    + exists h', ws', r, F'. assert (forall q, bump (bump r p 1) p (-1) q = r q) as Hbr by refs_eq. split; [eapply prep_refs; [exact Hw2|by intros q; rewrite Hbr]|]. split.
      { eapply pages_refs; [exact Hok'| |apply Hok|apply Hok]. intros q Hq. pose proof (po_refs _ _ _ _ _ Hok' q Hq) as Hz. pose proof (po_pos _ _ _ _ _ Hok q). unfold bump in Hz. destruct (q =? p); lia. }
      cbn [set_pager pHasContent nPage fst snd]. split; [by rewrite Ho1|]. split; [done|]. split; [done|]. split; [|split].
      * intros q. pose proof (po_nodup _ _ _ _ _ Hok) as Hnd. destruct (decide (q = p)) as [->|Hne].
        -- rewrite lookup_insert_eq. split; [intros _|done]. destruct Hfr as [[HP' En]|(_ & -> & Hgt & En & _)]; [|split; [lia|]; split; [done|by intros ?%not_elem_of_nil]]. rewrite HP' in Hnd. apply NoDup_cons in Hnd as [Hnp _]. assert (p ∈ frees F) as HpF by (rewrite HP'; left). pose proof (po_range _ _ _ _ _ Hok p HpF). split; [lia|]. done.
        -- rewrite lookup_insert_ne, Hu by done. destruct Hfr as [[HP' En]|(-> & -> & Hgt & En & Hgap)]; [rewrite HP', En, elem_of_cons; naive_solver|]. split; [intros (? & ? & ?); split; [lia|done]|]. intros (Hq & Hqr & ?). split; [|done]. destruct (decide (q <= nPage s)); [lia|]. by destruct (Hgap q ltac:(lia)).
      * intros q dq. destruct (decide (q = p)) as [->|Hne]; [rewrite lookup_insert_eq; by intros [= <-]|]. rewrite lookup_insert_ne by done. intros Hq. pose proof (proj1 (Hu q) ltac:(eauto)) as (Hqr & _ & HqF). rewrite Hun; [by apply Hc|lia|done|lia].
      * intros d0 Hd0 j Hj0 Hj. destruct (po_list _ _ _ _ _ Hok) as (d1 & Hd1 & _). destruct (Hun1 d1 Hd1) as (d2 & Hd2 & _ & Hrd). rewrite Hd2 in Hd0. injection Hd0 as <-. rewrite Hrd by done. by apply Hone.
  - apply does_ret. split; [done|]. intros Hre. specialize (Hf Hrc Hre). cbn [may_fail]. rewrite <- Hn. destruct (decide (2 ^ 31 <= nPage s + 4)) as [|Hlt']; [by left|]. right. destruct Hmode as [->|(Hn0 & [->|(-> & Hav & _)])]; [|right; split; [done|]|left; split; [done|]].
    + destruct Hf. split; [lia|]. split; intros [=].
    + intros q Hq%Hfree; [|done..]. destruct (decide (nearby < q)); [done|]. destruct Hf. split; [lia|]. split; [|intros [=]]. intros _. right. exists q. split; [done|lia].
    + assert (~ (nearby <= nPage s -> nearby ∈ frees F)) as Hno.
      { intros Hin. destruct Hf. split; [lia|]. split; [intros [=]|]. intros _ Hle. specialize (Hin Hle). destruct (po_type _ _ _ _ _ Hok nearby Hav Hin) as [pa Hpa]. by exists PTRMAP_FREEPAGE, pa. }
      split; [destruct (decide (nearby <= nPage s)); [done|]; destruct Hno; lia|]. intros Hq%Hfree; [|done..]. by apply Hno.
Qed.

Definition refines one (s : Db W) (a : state) (o : op) : Prop :=
  does (exec o) s (fun x s' => match x with Error rc => rc <> 0 /\ (reliable (W := W) -> (forall k, alloc k = true) -> may_fail a o) | _ => exists a', astep a o x a' /\ rep one s' a' end).

(** A page in use is fetched. *)
Lemma use_page one s a p (Q : Z -> Db W -> Prop) : rep one s a -> is_Some (a.2 !! p) -> (forall rc s', rc <> 0 -> ~ reliable (W := W) -> Q rc s') ->
  (forall w h ws r F d, h !! p = Some d -> a.2 !! p = Some d -> prep w h ws (bump r p 1) -> 2 <= p -> p ∉ frees F -> regular pBt p -> r p = 0 -> (forall h' w' ws', prep w' h' ws' r -> (exists d', h' = <[p := d']> h /\ bytes d' /\ length d' = length d) -> exists d', h' !! p = Some d' /\ rep one (set_pager s w') (a.1, <[p := d']> a.2)) ->
    Q 0 (set_pager s w)) -> does (btreeGetPage p 0) s Q.
Proof.
  intros (h & ws & r & F & Hw & Hok & Hcw & Hr1 & Hn & Hu & Hc & Hone) Hs Hbad Hgood. destruct (proj1 (Hu p) Hs) as (Hp & Hreg & HpF). destruct Hs as [d Hd]. pose proof (po_size _ _ _ _ _ Hok). eapply does_fetch; [exact Hw|done| |].
  - intros rc w Hrc Hrel Hw'. apply Hbad; [done|]. intros Hre. specialize (Hrel Hre). lia.
  - intros w _ Hw'. eapply (Hgood w h ws r F d); try done; [by apply Hc|lia|apply Hr1; lia|]. intros h' w' ws' Hw2 (d' & -> & Hb & Hl). exists d'. rewrite lookup_insert_eq. split; [done|]. exists (<[p := d']> h), ws', r, F. cbn [set_pager pPager nPage pHasContent fst snd]. split; [done|]. split; [by apply pages_store; [| | |lia|]|]. split; [done|]. split; [done|]. split; [done|]. split; [|split].
    + intros q. destruct (decide (q = p)) as [->|]; [rewrite lookup_insert_eq; split; [done|eauto]|]. rewrite lookup_insert_ne by done. apply Hu.
    + intros q dq. destruct (decide (q = p)) as [->|]; [by rewrite !lookup_insert_eq|]. rewrite !lookup_insert_ne by done. apply Hc.
    + intros d1. rewrite lookup_insert_ne by lia. apply Hone.
Qed.

Lemma exec_put one s a p d : rep one s a -> allowed a (Put p d) -> refines one s a (Put p d).
Proof.
  intros Hrep (Hs & Hb & Hl). unfold refines. cbn [exec]. apply does_bind. eapply use_page; [exact Hrep|exact Hs| |].
  - intros rc s' Hrc Hre. rewrite (proj2 (Z.eqb_neq _ SQLITE_OK)) by done. cbn [negb]. apply does_ret. split; [done|]. intros Hre' _. by destruct Hre.
  - intros w h ws r F d0 Hd0 Ha Hw Hp HpF Hreg Hrp Hstore. cbn [negb Z.eqb SQLITE_OK]. destruct (prep_good _ _ _ _ _ _ Hw Hd0) as [_ Hl0]. apply does_bind. eapply does_write; [exact Hw|refs_eq| |].
    + intros rc w2 Hrc Hrel Hw2. rewrite (proj2 (Z.eqb_neq _ SQLITE_OK)) by done. cbn [negb]. apply does_bind. eapply does_release; [exact Hw2|refs_eq|]. intros w3 Hw3. apply does_ret. split; [done|]. intros Hre _. by destruct (Hrel Hre).
    + intros w2 d1 Hw2 Hd1. rewrite (Hd1 d0 Hd0), insert_id in Hw2 by done. cbn [negb Z.eqb SQLITE_OK]. apply does_bind. eapply does_store; [exact Hw2|refs_eq|in_ws|exact Hd0|done|lia|]. intros w3 Hw3. apply does_bind. eapply does_release; [exact Hw3|refs_eq|]. intros w4 Hw4. apply does_ret.
      exists (a.1, <[p := d]> a.2). split; [by constructor|]. destruct (Hstore (<[p := d]> h) w4 ({[p]} ∪ ws)) as (d2 & Hd2 & Hrep2); [eapply prep_refs; [exact Hw4|refs_eq]|exists d; split; [done|]; split; [done|lia]|]. rewrite lookup_insert_eq in Hd2. injection Hd2 as <-. exact Hrep2.
Qed.

Lemma exec_fetch one s a p : rep one s a -> allowed a (Fetch p) -> refines one s a (Fetch p).
Proof.
  intros Hrep Hs. unfold refines. cbn [exec]. apply does_bind. eapply use_page; [exact Hrep|exact Hs| |].
  - intros rc s' Hrc Hre. rewrite (proj2 (Z.eqb_neq _ SQLITE_OK)) by done. cbn [negb]. apply does_ret. split; [done|]. intros Hre' _. by destruct Hre.
  - intros w h ws r F d0 Hd0 Ha Hw Hp HpF Hreg Hrp Hstore. cbn [negb Z.eqb SQLITE_OK]. destruct (prep_good _ _ _ _ _ _ Hw Hd0) as [Hb0 _]. apply does_bind. eapply does_load; [exact Hw|exact Hd0|]. apply does_bind. eapply does_release; [exact Hw|refs_eq|]. intros w3 Hw3. apply does_ret.
    exists a. split; [by constructor|]. destruct (Hstore h w3 ws) as (d2 & Hd2 & Hrep2); [eapply prep_refs; [exact Hw3|refs_eq]|exists d0; by rewrite insert_id|]. rewrite Hd0 in Hd2. injection Hd2 as <-. rewrite insert_id in Hrep2 by done. by destruct a.
Qed.

Lemma exec_give one s a p : rep one s a -> allowed a (Give p) -> refines one s a (Give p).
Proof.
  intros (h & ws & r & F & Hw & Hok & Hcw & Hr1 & Hn & Hu & Hc & Hone) Hs. unfold refines. cbn [exec]. destruct (proj1 (Hu p) Hs) as (Hp & Hreg & HpF). apply does_bind. eapply does_mono; [apply (freePage2_ok pBt Hsz alloc s h r F p Hok Hp Hreg HpF Hcw false ws Hw)|].
  intros rc s' (h' & ws' & Hw' & Hn' & Hcw' & Hf & Hg). destruct (Z.eqb_spec rc SQLITE_OK) as [->|Hrc]; cbn [negb]; apply does_ret; [|split; [done|]; intros Hre Hal; by destruct (Hf Hrc Hre Hal)].
  destruct (Hg eq_refl) as [F' [Hok' HP' Hpg H1 _ _ _ _]]. exists (a.1, delete p a.2). split; [by constructor|]. exists h', ws', r, F'. rewrite Hn'. cbn [fst snd]. split; [done|]. split.
  { eapply pages_refs; [exact Hok'| |apply Hok|apply Hok]. intros q Hq. destruct (decide (q = p)) as [->|Hne]; [apply Hr1; lia|]. pose proof (po_refs _ _ _ _ _ Hok' q Hq) as Hz. unfold clear_ref in Hz. by rewrite (proj2 (Z.eqb_neq q p)) in Hz. }
  split; [done|]. split; [done|]. split; [done|]. split; [|split].
  - intros q. rewrite HP', not_elem_of_cons. destruct (decide (q = p)) as [->|Hne]; [rewrite lookup_delete_eq; split; [by intros []|naive_solver]|]. rewrite lookup_delete_ne, Hu by done. naive_solver.
  - intros q d [Hne Hq]%lookup_delete_Some. destruct (proj1 (Hu q) ltac:(eauto)) as (Hqr & Hqreg & HqF). rewrite Hpg; [by apply Hc|lia|done|done|]. intros Hav ->. destruct (free_mapped pBt Hsz _ _ _ _ p Hok Hav Hp Hreg) as [Hm _]. destruct (mapped_spec pBt Hsz p Hm) as (_ & Hi & _). destruct Hqreg as [_ Hqi]. specialize (Hqi Hav). congruence.
  - intros d0 Hd0 j Hj0 Hj. destruct (po_list _ _ _ _ _ Hok) as (d1 & Hd1 & _). destruct (H1 d1 Hd1) as (d2 & Hd2 & _ & Hrd). rewrite Hd2 in Hd0. injection Hd0 as <-. rewrite Hrd by lia. by apply Hone.
Qed.

Lemma exec_refines one s a o : rep one s a -> allowed a o -> refines one s a o.
Proof.
  intros Hrep Hal. destruct o as [nearby eMode|p d|p|p]; [|by apply exec_put|by apply exec_fetch|by apply exec_give]. eapply does_mono; [by eapply exec_take|]. intros [rc| | |] s'; try done. intros [Hrc Hf]. split; [done|]. intros Hre _. by apply Hf.
Qed.

(** C12. The pages of the file are a store of pages. Whatever a client does with the pages it was given (taking pages at a place it asks for, writing, reading and giving back), allocateBtreePage and freePage2 behave as a finite map from page numbers
    to contents: a page that is taken was not in use, the file grows only when no page is free, and contents stay as they were written. Every call returns. While no call of the pager and no allocation of memory fails, an operation
    fails only when the file is full, or when no free page is at or below the place asked for (BTALLOC_LE), or when the page asked for (BTALLOC_EXACT) is a page of the file that is not free: a free page that is asked for is always returned. *)
Theorem run_refines one c : forall s a, rep one s a -> safe a c -> does (run c) s (fun l s' => exists a', traces a c l a' /\ ((forall rc, Error rc ∉ l) -> rep one s' a')).
Proof.
  induction c as [|o k IH]; intros s a Hrep Hsafe; cbn [run].
  - apply does_ret. exists a. split; [constructor|done].
  - destruct Hsafe as [Hal Hk]. apply does_bind. eapply does_mono; [by apply exec_refines|].
    assert (forall x s', (exists a', astep a o x a' /\ rep one s' a') -> (forall rc, x <> Error rc) -> does (l ← run (k x); mret (x :: l)) s' (fun l s' => exists a', traces a (Do o k) l a' /\ ((forall rc, Error rc ∉ l) -> rep one s' a'))) as Hgo.
    { intros x s' (a' & Hst & Hrep') Hx. apply does_bind. eapply does_mono; [apply (IH x s' a' Hrep'); by apply Hk|]. intros l s2 (a2 & Ht & Hr2). apply does_ret. exists a2. split; [by eapply t_do|]. intros Hl. apply Hr2. intros rc Hin. apply (Hl rc). by right. }
    intros [rc|p|d|] s' Hx; [|by apply Hgo..]. destruct Hx as [Hrc Hf]. apply does_ret. exists a. split; [by constructor|]. intros Hl. destruct (Hl rc). left.
Qed.
End run.
