(* ===== verification/BtCells.v ===== *)
(** Cells with their overflow pages: a payload that fillInCell has stored is what accessPayload reads and changes, and clearCell gives back every page. *)
From S2P Require Import Prelude Varint IntArith Bitvec Mem Page PageSpace PageCell Pager BtPages BtRep BtPtrmap BtList BtAlloc BtStore BtFree BtOverflow BtClear BtPayload BtAccess.
Local Open Scope Z_scope.
Local Open Scope c_scope.

Section cells.
Context {W : Type} {ops : PagerOps W} (pBt : BtShared) {HP : Pager W (pageSize pBt)} (Hbt : bt_ok pBt) (bDoTruncate : bool) (alloc : nat -> bool).
Abbreviation us := (usableSize pBt).

(** fillInCell, and the copy of the cell to the end of the page, as insertCell makes it: the result code and the offset of the cell. *)
Definition save (P : MemPage) (c pKey : list Z) (key : Z) (pData : list Z) (nZero : Z) : prog (Db W) (Z * Z) :=
  s ← pget;
  '(rc, c, sz) ← fillInCell pBt bDoTruncate (Z.to_nat (nPage s)) P c pKey key pData nZero;
  if negb (rc =? SQLITE_OK) then mret (rc, 0)
  else
    rc ← pagerWrite (pgno P);
    if negb (rc =? SQLITE_OK) then mret (rc, 0)
    else d ← load (pgno P); store (pgno P) (splice d (us - sz) (slice c 0 sz)) ;; mret (SQLITE_OK, us - sz).

(** A database with a page [P] in use, to which the client has a reference. *)
Record ready (s : Db W) (P : MemPage) (h : gmap Z (list Z)) (ws : gset Z) (r : Z -> Z) (F : flist) (d : list Z) : Prop := {
  rd_prep : prep (pPager s) h ws r;
  rd_ok : pages_ok pBt (nPage s) h r F;
  rd_ptr : ptr_ok pBt (nPage s) h F;
  rd_content : content_wf (pHasContent s);
  rd_kind : kind pBt P;
  rd_page : h !! pgno P = Some d;
  rd_range : 2 <= pgno P <= nPage s;
  rd_regular : regular pBt (pgno P);
  rd_used : pgno P ∉ frees F;
  rd_ref : 0 < r (pgno P) }.

(** The payload [bs] has been stored with the pages [ps]: they were free or they are new, and other pages in use are as they were. *)
Record saved (s : Db W) (P : MemPage) (h : gmap Z (list Z)) (r : Z -> Z) (F : flist) (cur : BtCursor) (ps bs : list Z) (s' : Db W) (h' : gmap Z (list Z)) (F' : flist) : Prop := {
  sv_size : nPage s <= nPage s';
  sv_use : in_use pBt (nPage s') r F' ps;
  sv_new p : p ∈ ps -> p ∈ frees F \/ nPage s < p;
  sv_frees p : p ∈ frees F <-> (p ∈ ps /\ p <= nPage s) \/ p ∈ frees F';
  sv_all q : nPage s < q <= nPage s' -> regular pBt q -> q ∈ ps;
  sv_page q : q <> 1 -> q <> pgno P -> q <= nPage s -> q ∉ frees F -> (autoVacuum pBt = true -> PTRMAP_ISPAGE pBt q = false) -> h' !! q = h !! q }.

Lemma save_ok P c pKey key pData nZero s h ws r F d incr : ready s P h ws r F d -> entry_ok P pKey key pData nZero -> bytes c -> us <= Z.of_nat (length c) -> let bs := payload P pKey pData nZero in
  does (save P c pKey key pData nZero) s (fun x s' => (x.1 <> 0 -> reliable (W := W) -> 2 ^ 31 <= nPage s + 4 * Z.of_nat (length bs)) /\ (x.1 = 0 -> exists h' ws' F' ps d', let cur := {| apPage := P; cell := x.2; isIncrblobHandle := incr; aOverflow := None |} in
    ready s' P h' ws' r F' d' /\ at_cell pBt cur h' d' ps bs /\ 4 <= x.2 /\ saved s P h r F cur ps bs s' h' F')).
Proof.
  intros [Hw Hok Hptr Hcw HK Hd HPr HPg HPF HrP] Heo Hbc Hlc bs. destruct Hbt as [Hsz _]. pose proof Hsz as [Hps Hu]. pose proof (frees_fit _ _ _ _ _ Hok) as Hfit. unfold save. apply does_bind, does_get, does_bind.
  eapply does_mono; [eapply (fillInCell_ok pBt Hsz Hbt bDoTruncate _ P c pKey key pData nZero s h ws r F); try done; lia|]. intros [[rc c1] sz] s1 ([Ho1 Ho2] & (h0 & ws0 & Hw0) & Hf & Hg). fold bs in Hf, Hg. destruct (Z.eqb_spec rc SQLITE_OK) as [->|Hrc]; cbn [negb]; [|apply does_ret; cbn [fst]; split; [done|done]].
  destruct (Hg eq_refl) as (h1 & ws1 & ps & F1 & Hw1 & Hok1 & Hgr & Hptr1 & Hst & Hb1 & Hl1 & Esz & Hsz1 & _). destruct Hgr as [G1 G2 G3 G4 G5 G6 _ _]. assert (h1 !! pgno P = Some d) as Hd1 by (rewrite G6; [done|lia|lia|done|apply HPg]). destruct (prep_good _ _ _ _ _ _ Hw1 Hd1) as [Hbd Hld].
  assert (pgno P ∉ ps) as HPps. { intros Hx. destruct (G3 _ Hx) as (_ & _ & _ & [?|?]); [done|lia]. } assert (pgno P ∉ frees F1) as HPF1 by (intros Hx; apply HPF, G4; by right). apply does_bind. eapply does_write; [exact Hw1|done| |].
  { intros rc w Hrc Hrel Hw2. rewrite (proj2 (Z.eqb_neq _ SQLITE_OK)) by done. cbn [negb]. apply does_ret. cbn [fst]. split; [intros _ Hre; by destruct (Hrel Hre)|done]. }
  intros w d0 Hw2 Hd0. rewrite (Hd0 d Hd1), insert_id in Hw2 by done. cbn [negb Z.eqb SQLITE_OK]. apply does_bind. eapply does_load; [exact Hw2|exact Hd1|]. pose proof (length_slice c1 0 sz ltac:(lia) ltac:(lia) ltac:(lia)) as Hls.
  set (d' := splice d (us - sz) (slice c1 0 sz)). assert (length d' = length d) as Hld' by (apply length_splice; lia). assert (bytes d') as Hbd' by (apply bytes_splice; [done|by apply Forall_take, Forall_drop]). apply does_bind. eapply does_store; [exact Hw2|done|in_ws|exact Hd1|done|done|]. intros w3 Hw3. apply does_ret. cbn [fst snd]. split; [done|]. intros _.
  pose proof (stored_info pBt Hbt h1 P c1 ps bs HK Hb1 Hst) as (Hh & Hlo & Hmx & Hp & Hns & Hov). assert (bytes (cell_at d' (us - sz))) as Hbc' by by apply Forall_drop.
  assert (forall j, 0 <= j < sz -> rd (cell_at d' (us - sz)) j = rd c1 j) as Hj. { intros j Hj. unfold cell_at. rewrite rd_drop by lia. unfold d'. rewrite rd_splice_in by lia. rewrite rd_slice by lia. f_equal. lia. }
  assert (btreeParseCellPtr pBt P (cell_at d' (us - sz)) = btreeParseCellPtr pBt P c1) as Epa. { apply (parse_prefix pBt Hbt P c1); try done. intros j Hj'. apply Hj. rewrite (parse_eq pBt Hbt P c1 HK Hb1) in Esz. destruct (cell_header P c1) as [i m] eqn:Eh. cbn [fst] in Hj'. cbn [nSize] in Esz. pose proof (header_range pBt P c1 HK Hb1) as [_ Hum]. rewrite Eh in Hum. pose proof (local_range pBt Hbt P m HK Hum). lia. }
  assert (Z.of_nat (length (cell_at d' (us - sz))) = Z.of_nat (length d') - (us - sz)) as Hlca by (unfold cell_at; rewrite length_drop; lia).
  assert (stored pBt h1 P (cell_at d' (us - sz)) ps bs) as Hst1. { apply (stored_copy pBt Hbt h1 P c1); try done; rewrite <- Esz; [done|lia|lia]. }
  assert (get4byte d' 0 = get4byte d 0) as Hg0 by (apply get4_splice_ne; lia). destruct Hptr1 as [Hty1 Hli1].
  exists (<[pgno P := d']> h1), ({[pgno P]} ∪ ws1), F1, ps, d'. split; [|split; [|split; [lia|]]].
  - split; [exact Hw3|apply pages_store; [exact Hsz|exact Hok1|exact HPF1|lia|exact HPg]| |cbn; by rewrite Ho1|exact HK|apply lookup_insert_eq|cbn; lia|exact HPg|exact HPF1|exact HrP]. split; [by apply typed_store|by eapply linked_keep].
  - split; cbn [apPage cell aOverflow]; [exact HK|apply lookup_insert_eq|lia| |rewrite Epa; lia|apply Heo|exact I]. destruct Hst1 as (A1 & A2 & A3 & A4). split; [done|]. split; [done|]. split; [done|]. apply (ochain_ext pBt h1); [done|]. intros q Hq. apply lookup_insert_ne. by intros <-.
  - split; [cbn; lia| | |exact G4|exact G5|].
    + split; [done|]. intros p Hp'. destruct (G3 p Hp') as (A1 & A2 & A3 & A4). split; [done|]. split; [done|]. split; [done|]. apply (po_refs _ _ _ _ _ Hok). by destruct A4; [left|right].
    + intros p Hp'. by destruct (G3 p Hp') as (_ & _ & _ & ?).
    + intros q Hq1 HqP Hqn HqF Hqi. rewrite lookup_insert_ne by done. by apply G6.
Qed.

(** A payload is stored, [buf] is written to it at [off], and [amt] bytes at [off2] are read back. *)
Definition update_read (P : MemPage) (c pKey : list Z) (key : Z) (pData : list Z) (nZero : Z) (incr : bool) (off : Z) (buf : list Z) (off2 amt : Z) : prog (Db W) (Z * list Z) :=
  '(rc, cell) ← save P c pKey key pData nZero;
  if negb (rc =? SQLITE_OK) then mret (rc, [])
  else
    let cur := {| apPage := P; cell := cell; isIncrblobHandle := incr; aOverflow := None |} in
    '(rc, _, cache) ← accessPayload pBt alloc cur off (Z.of_nat (length buf)) buf true;
    if negb (rc =? SQLITE_OK) then mret (rc, [])
    else '(rc, got, _) ← accessPayload pBt alloc (set_cache cur cache) off2 amt (replicate (Z.to_nat amt) 0) false; mret (rc, got).

(** C13. Round trip of payloads. On every database whose pages are in order and for every kind of page, what fillInCell stores in a cell and on overflow pages, with or without a pointer map, and what accessPayload then writes to any part of it
    (across the end of the cell and of overflow pages, with or without the cache of overflow pages) is what accessPayload reads from any part of it. While no call of the pager and no allocation of memory fails, this fails only when the file is full. *)
Theorem payload_roundtrip P c pKey key pData nZero incr off buf off2 amt s h ws r F d : ready s P h ws r F d -> entry_ok P pKey key pData nZero -> bytes c -> us <= Z.of_nat (length c) -> let bs := payload P pKey pData nZero in
  bytes buf -> 0 <= off -> off + Z.of_nat (length buf) <= Z.of_nat (length bs) -> 0 <= off2 -> 0 <= amt -> off2 + amt <= Z.of_nat (length bs) ->
  does (update_read P c pKey key pData nZero incr off buf off2 amt) s (fun x _ => (x.1 = 0 -> x.2 = slice (splice bs off buf) off2 amt) /\ (x.1 <> 0 -> reliable (W := W) -> (forall k, alloc k = true) -> 2 ^ 31 <= nPage s + 4 * Z.of_nat (length bs))).
Proof.
  intros Hrd Heo Hbc Hlc bs Hbuf Ho Hob Ho2 Ha Hoa. pose proof Hbt as [Hsz _]. unfold update_read. apply does_bind. eapply does_mono; [by apply (save_ok P c pKey key pData nZero s h ws r F d incr)|]. fold bs. intros [rc cell] s1 [Hf Hg]. cbn [fst snd] in *.
  destruct (Z.eqb_spec rc SQLITE_OK) as [->|Hrc]; cbn [negb]; [|apply does_ret; split; [done|]; intros _ Hre _; by apply Hf]. destruct (Hg eq_refl) as (h1 & ws1 & F1 & ps & d1 & [Hw1 Hok1 Hptr1 Hcw1 HK Hd1 HPr HPg HPF HrP] & Hac & Hcell & [S1 S2 S3 S4 S5 S6]). pose proof Hsz as [Hps Hu]. destruct (prep_good _ _ _ _ _ _ Hw1 Hd1) as [Hb1 Hl1].
  set (cur := {| apPage := P; cell := cell; isIncrblobHandle := incr; aOverflow := None |}) in *. assert (slice buf 0 (Z.of_nat (length buf)) = buf) as Ebuf by (unfold slice; rewrite Nat2Z.id; apply take_ge; done). apply does_bind. eapply does_mono.
  { eapply (accessPayload_write pBt Hsz Hbt alloc cur off (Z.of_nat (length buf)) buf s1 h1 r F1 d1 ps bs); try done; try lia.
    - change (apPage cur) with P. intros Hx. destruct (S3 _ Hx) as [HxF|Hx']; [by destruct (rd_used _ _ _ _ _ _ _ Hrd)|pose proof (rd_range _ _ _ _ _ _ _ Hrd); lia].
    - cbn [apPage BtPages.cell cur]. rewrite (proj2 (Z.eqb_neq _ 1)) by lia. done. }
  intros [[rc buf'] cache] s2 (w & k & h2 & ws2 & d2 & -> & Hw2 & Hok2 & Hptr2 & Hfr2 & Hd2 & Hl2 & Hout2 & Hf2 & Hg2). destruct (Z.eqb_spec rc SQLITE_OK) as [->|Hrc]; cbn [negb]; [|apply does_ret; split; [done|]; intros _ Hre Hal; by destruct (Hf2 Hrc Hre Hal)].
  specialize (Hg2 eq_refl). rewrite Ebuf in Hg2. apply does_bind. eapply does_mono.
  { eapply (accessPayload_read pBt Hsz Hbt alloc (set_cache cur cache) off2 amt (replicate (Z.to_nat amt) 0) _ h2 ws2 r F1 d2 ps (splice bs off buf)); try done; [|rewrite length_splice; lia|rewrite length_replicate; lia]. intros q Hq. by apply S2. }
  intros [[rc got] c3] s3 (_ & _ & Hf3 & Hg3). apply does_ret. cbn [fst snd]. split; [|intros Hrc Hre Hal; by destruct (Hf3 Hrc Hre Hal)]. intros Hrc. rewrite (Hg3 Hrc).
  pose proof (length_slice (splice bs off buf) off2 amt Ho2 Ha ltac:(rewrite length_splice; lia)) as Hls. unfold splice at 1. cbn [take app]. rewrite drop_ge, app_nil_r; [done|]. rewrite length_replicate. lia.
Qed.

(** C14. Clearing a cell gives back exactly its overflow pages: after a payload was stored and the cell was cleared, the free pages are those that were free before and the pages by which the file has grown, the list of free pages and the pointer map
    are in order, and no other page in use has changed. *)
Theorem clear_exact P c pKey key pData nZero s h ws r F d : ready s P h ws r F d -> entry_ok P pKey key pData nZero -> bytes c -> us <= Z.of_nat (length c) -> let bs := payload P pKey pData nZero in
  does ('(rc, cell) ← save P c pKey key pData nZero; if negb (rc =? SQLITE_OK) then mret rc else clearCell pBt alloc P cell) s (fun rc s' => (rc <> 0 -> reliable (W := W) -> (forall k, alloc k = true) -> 2 ^ 31 <= nPage s + 4 * Z.of_nat (length bs)) /\
    (rc = 0 -> exists h' ws' F', prep (pPager s') h' ws' r /\ pages_ok pBt (nPage s') h' r F' /\ ptr_ok pBt (nPage s') h' F' /\ (forall q, q ∈ frees F' <-> q ∈ frees F \/ (nPage s < q <= nPage s' /\ regular pBt q)) /\
      forall q, q <> 1 -> q <> pgno P -> q <= nPage s -> q ∉ frees F -> (autoVacuum pBt = true -> PTRMAP_ISPAGE pBt q = false) -> h' !! q = h !! q)).
Proof.
  intros Hrd Heo Hbc Hlc bs. pose proof Hbt as [Hsz _]. apply does_bind. eapply does_mono; [by apply (save_ok P c pKey key pData nZero s h ws r F d false)|]. fold bs. intros [rc cell] s1 [Hf Hg]. cbn [fst snd] in *.
  destruct (Z.eqb_spec rc SQLITE_OK) as [->|Hrc]; cbn [negb]; [|apply does_ret; split; [|done]; intros _ Hre _; by apply Hf]. destruct (Hg eq_refl) as (h1 & ws1 & F1 & ps & d1 & [Hw1 Hok1 Hptr1 Hcw1 HK Hd1 HPr HPg HPF HrP] & Hac & Hcell & [S1 S2 S3 S4 S5 S6]). destruct Hac as [_ _ A3 A4 A5 A6 _]. cbn [apPage BtPages.cell] in A3, A4, A5.
  eapply does_mono; [eapply (clearCell_ok pBt Hsz alloc Hbt P cell d1 s1 h1 ws1 r F1 ps bs); try done|]. intros rc s2 (h2 & ws2 & Hw2 & Hn2 & _ & Hf2 & Hg2). split; [intros Hrc Hre Hal; by destruct (Hf2 Hrc Hre Hal)|]. intros Hrc. destruct (Hg2 Hrc) as [F2 [C1 C2 C3 C4 C5 C6 C7]]. rewrite Hn2. exists h2, ws2, F2. split; [done|]. split; [done|]. split; [done|]. split.
  - intros q. rewrite C2, elem_of_app, S4. split.
    + intros [Hq|Hq]; [|by left; right]. destruct (decide (q <= nPage s)); [by left; left|]. right. destruct S2 as [_ S2]. destruct (S2 q Hq) as (Hqr & Hqreg & _). split; [lia|done].
    + intros [[[? ?]|?]|[? ?]]; [by left|by right|]. left. by apply S5.
  - intros q Hq1 HqP Hqn HqF Hqi. rewrite C3, S6; try done. { intros Hx. destruct (S3 q Hx); [done|lia]. } intros Hx. apply HqF, S4. by right.
Qed.
End cells.
