(* ===== verification/BtHang.v ===== *)
(** allocateBtreePage on a list of free pages that is not in order: the loop over the trunk pages has no bound of its own. *)
From S2P Require Import Prelude Varint IntArith Bitvec Mem Page PageSpace Pager BtPages BtRep BtPtrmap BtList BtAlloc.
Local Open Scope Z_scope.
Local Open Scope c_scope.

Lemma none_bind {S A B} (m : prog S A) (k : A -> prog S B) (s : S) (Q : A -> S -> Prop) : does m s Q -> (forall x s', Q x s' -> k x s' = None) -> (m ≫= k) s = None.
Proof. intros (x & s' & E & HQ) Hk. unfold mbind, prog_bind. rewrite E. by apply Hk. Qed.

Section hang.
Context {W : Type} {ops : PagerOps W} (pBt : BtShared) {HP : Pager W (pageSize pBt)} (Hsz : sizes_ok pBt) (bDoTruncate : bool).
Context (Hre : reliable (W := W)) (t nearby : Z) (d : list Z).
(** The trunk page [t] has no leaves and is its own successor. *)
Context (Ht : 1 < t < 2 ^ 31) (Hlink : get4byte d 0 = t) (Hcount : get4byte d 4 = 0) (Hnear : nearby < t).

Lemma hang_turn h r ws pv s : prep (pPager s) h ws (held r pv) -> h !! t = Some d -> (forall q, 0 <= r q) -> (pv = None \/ pv = Some t) -> t <= nPage s -> does (rc ← (if nPage s <? t then mret SQLITE_CORRUPT else btreeGetPage t 0);
      if negb (rc =? SQLITE_OK) then mret (Done rc 0 None pv) else alloc_turn pBt (nPage s) nearby BTALLOC_LE true t pv) s
    (fun x s' => x = Next /\ nPage s' = nPage s /\ prep (pPager s') h ws (bump r t 1)).
Proof.
  intros Hw Hd Hr0 Hpv Hmx. pose proof (Hr0 t) as Hrt. destruct Hsz as [_ Hu]. apply does_bind. rewrite (proj2 (Z.ltb_ge _ _)) by lia. eapply does_fetch; [exact Hw|done|intros rc w Hrc Hbad _; destruct (Hbad Hre); lia|]. intros w _ Hw1. cbn [negb Z.eqb SQLITE_OK]. unfold alloc_turn. apply does_bind. eapply does_load; [exact Hw1|exact Hd|].
  rewrite Hcount. cbn [Z.eqb negb andb]. rewrite (proj2 (Z.ltb_ge _ 0)) by (apply uwrap_range; lia). rewrite (proj2 (Z.eqb_neq nearby t)), (proj2 (Z.ltb_ge t nearby)) by lia. cbn [orb andb Z.ltb Z.compare]. destruct Hpv as [->| ->]; cbn [releaseOpt].
  - apply does_bind, does_ret, does_ret. done.
  - apply does_bind. eapply does_release; [exact Hw1|cbn [held]; refs_eq|]. intros w2 Hw2. apply does_ret. split; [done|]. split; [done|]. eapply prep_refs; [exact Hw2|cbn [held]; refs_eq].
Qed.

Lemma hang_loop h r ws : h !! t = Some d -> (forall q, 0 <= r q) -> forall fuel pv s, prep (pPager s) h ws (held r pv) -> (pv = Some t \/ (pv = None /\ exists d1, h !! 1 = Some d1 /\ get4byte d1 32 = t)) -> t <= nPage s ->
  alloc_loop pBt fuel (nPage s) nearby BTALLOC_LE true pv s = None.
Proof.
  intros Hd Hr0. induction fuel as [|fuel IH]; intros pv s Hw Hpv Hmx; [done|]. cbn [alloc_loop]. apply none_bind with (fun x s' => x = t /\ s' = s).
  - destruct Hpv as [->|(-> & d1 & Hd1 & E)]; apply does_bind; (eapply does_load; [exact Hw|eassumption|]); apply does_ret; done.
  - intros x s' [-> ->]. destruct (hang_turn h r ws pv s Hw Hd Hr0 ltac:(tauto) Hmx) as (x & s' & E & -> & Hn & Hw'). revert E. unfold mbind, prog_bind. destruct ((if nPage s <? t then mret SQLITE_CORRUPT else btreeGetPage t 0) s) as [[rc s1]|]; [|done]. destruct (negb (rc =? SQLITE_OK)); [done|]. intros ->. rewrite <- Hn. apply IH; [exact Hw'|by left|lia].
Qed.
End hang.

(** C15. allocateBtreePage does not return for a corrupt file: when the first trunk page of the list of free pages has no leaves and is its own successor, a search for a page not above [nearby] goes round for ever, although every call of the pager succeeds. *)
Theorem allocateBtreePage_hangs `{HP : Pager W (pageSize pBt)} bDoTruncate s h ws r d1 d t nearby : sizes_ok pBt -> reliable (W := W) -> prep (pPager s) h ws r -> (forall q, 0 <= r q) -> 0 < r 1 -> h !! 1 = Some d1 -> h !! t = Some d ->
  1 < t <= nPage s -> nPage s < 2 ^ 31 -> get4byte d1 32 = t -> 0 < get4byte d1 36 < nPage s -> get4byte d 0 = t -> get4byte d 4 = 0 -> nearby < t ->
  forall fuel, allocateBtreePage pBt bDoTruncate fuel nearby BTALLOC_LE s = None.
Proof.
  intros Hsz Hre Hw Hr0 Hr1 Hd1 Hd Ht Hn E32 E36 E0 E4 Hnear fuel. destruct (prep_good _ _ _ _ _ _ Hw Hd1) as [Hb1 Hl1]. pose proof Hsz as [Hps Hu].
  assert (does (alloc_search pBt (nPage s) nearby BTALLOC_LE) s (fun x s' => x = (SQLITE_OK, true) /\ s' = s)) as Hse by by apply does_ret.
  assert (does (pagerWrite (W := W) 1) s (fun rc s' => rc = 0 /\ exists w ws', s' = set_pager s w /\ prep w h ws' r /\ 1 ∈ ws')) as Hwr.
  { eapply does_write; [exact Hw|done|naive_solver|]. intros w d0 Hw2 Hd0. rewrite (Hd0 d1 Hd1), insert_id in Hw2 by done. split; [done|]. exists w, ({[1]} ∪ ws). split; [done|]. split; [done|in_ws]. }
  unfold allocateBtreePage. apply none_bind with (fun x s' => x = s /\ s' = s); [by apply does_get|]. intros x s0 [-> ->]. eapply none_bind; [eapply (does_load 1 d1 _ h ws r (fun x s' => x = d1 /\ s' = s)); done|]. intros x s0 [-> ->]. cbv zeta.
  rewrite (proj2 (Z.leb_gt _ _)), (proj2 (Z.ltb_lt 0 _)) by lia. eapply none_bind; [exact Hse|]. intros x s0 [-> ->]. change (negb (SQLITE_OK =? SQLITE_OK)) with false. cbv iota. eapply none_bind; [exact Hwr|]. intros rc s0 (-> & w & ws' & -> & Hw2 & H1). cbn [negb Z.eqb SQLITE_OK].
  eapply none_bind; [eapply (does_load 1 d1 _ h ws' r (fun x s' => x = d1 /\ s' = set_pager s w)); done|]. intros x s0 [-> ->]. set (d2 := put4byte d1 36 _). assert (length d2 = length d1) as Hl2 by (apply length_put4byte; lia).
  eapply none_bind; [eapply (does_store 1 d1 d2 _ h ws' r (fun _ s' => exists w, s' = set_pager s w /\ prep w (<[1 := d2]> h) ws' r)); try done; [by apply bytes_put4byte|]; intros w3 Hw3; by exists w3|]. intros _ s0 (w3 & -> & Hw3).
  assert (alloc_loop pBt fuel (nPage (set_pager s w3)) nearby BTALLOC_LE true None (set_pager s w3) = None) as Hx.
  { apply (hang_loop pBt Hsz Hre t nearby d ltac:(lia) E0 E4 Hnear (<[1 := d2]> h) r ws'); [by rewrite lookup_insert_ne by lia|done|done| |cbn; lia]. right. split; [done|]. exists d2. rewrite lookup_insert_eq. split; [done|]. unfold d2. by rewrite get4_put4_ne by lia. }
  unfold mbind at 1, prog_bind at 1. cbn [set_pager nPage] in Hx. by rewrite Hx.
Qed.
