(* ===== verification/BtWitness.v ===== *)
(** The theorems on pages of the database file, on files in memory. *)
From S2P Require Import Prelude Varint IntArith Bitvec Mem Page PageSpace PageCell Pager BtPages BtRep BtPtrmap BtList BtAlloc BtStore BtFree BtOverflow BtClear BtPayload BtAccess BtRun BtCells BtHang.
Local Open Scope Z_scope.
Local Open Scope c_scope.

Definition steady : nat -> bool := fun _ => false.
Definition plenty : nat -> bool := fun _ => true.
(** Pages of 512 bytes and a pointer map. *)
Definition small : BtShared := bt_limits 512 512 0 true.
#[local] Instance disk : PagerOps Memory := mem_ops 512 steady.
#[local] Instance disk_pager : Pager Memory (pageSize small).
Proof. apply mem_pager. by vm_compute. Qed.

Lemma small_ok : bt_ok small.
Proof. split; [|reflexivity]. split; cbn; lia. Qed.

Definition blank : list Z := replicate 512 0.
Definition db (n : Z) (w : Memory) : Db Memory := {| pPager := w; nPage := n; pHasContent := None; nAlloc := 0; inited := fun _ => true |}.
Definition refs_of (l : list Z) : Z -> Z := fun p => if bool_decide (p ∈ l) then 1 else 0.
Definition file (l : gmap Z (list Z)) (used : list Z) : Memory := {| contents := l; counts := list_to_map (map (fun p => (p, 1%N)) used); dirty := ∅; calls := 0 |}.

Lemma disk_reliable : reliable (W := Memory).
Proof. intros p w. split; [|done]. intros f Hp. cbn. unfold mem_acquire. rewrite (proj2 (Z.ltb_lt 0 p)), (proj2 (Z.ltb_lt p _)) by lia. done. Qed.

Lemma file_prep l used : map_Forall (fun _ d => bytes d /\ Z.of_nat (length d) = 512) l -> NoDup used -> prep (file l used) l ∅ (refs_of used).
Proof.
  intros Hl Hnd. split.
  - intros p d Hp. split; [done|]. cbn. rewrite Hp. cbn [default from_option]. destruct (Hl p d Hp). by apply fit_id.
  - by intros p ?%not_elem_of_empty.
  - intros p. cbn. unfold count, refs_of. change (counts (file l used)) with (list_to_map (map (fun p => (p, 1%N)) used) : gmap Z N). destruct (bool_decide_reflect (p ∈ used)) as [Hin|Hin].
    + rewrite (elem_of_list_to_map_1 _ p 1%N); [done| |].
      * rewrite <- list_fmap_compose. change (fst ∘ (fun p : Z => (p, 1%N))) with (fun p : Z => p). by rewrite list_fmap_id.
      * apply list_elem_of_fmap. by exists p.
    + rewrite not_elem_of_list_to_map_1; [done|]. rewrite <- list_fmap_compose. change (fst ∘ (fun p : Z => (p, 1%N))) with (fun p : Z => p). by rewrite list_fmap_id.
Qed.
Lemma blank_ok : bytes blank /\ Z.of_nat (length blank) = 512.
Proof. split; [|reflexivity]. apply Forall_replicate. unfold is_u. lia. Qed.

(** ** A new file *)

Definition empty_file : gmap Z (list Z) := {[ 1 := blank ]}.

Lemma empty_one p d : empty_file !! p = Some d -> p = 1 /\ d = blank.
Proof. unfold empty_file. by intros [<- <-]%lookup_singleton_Some. Qed.

Lemma empty_pages : pages_ok small 1 empty_file (refs_of [1]) [].
Proof.
  split; try by (intros p; rewrite ?elem_of_nil).
  - exists blank. split; [done|]. done.
  - intros d Hd. apply empty_one in Hd as [_ ->]. done.
  - constructor.
  - intros p [?%not_elem_of_nil|Hp]; [done|]. unfold refs_of. rewrite bool_decide_false; [done|]. rewrite list_elem_of_singleton. lia.
  - done.
  - intros p. unfold refs_of. by destruct (bool_decide _).
  - done.
  - intros q _ Hq. lia.
Qed.

(** A page is taken, written and read; then it is given back, and taken again where it is. *)
Definition visitor : client :=
  Do (Take 0 BTALLOC_ANY) (fun x => match x with
    | Taken p => Do (Put p blank) (fun _ => Do (Fetch p) (fun _ => Do (Give p) (fun _ => Do (Take 9 BTALLOC_LE) (fun _ => Stop))))
    | _ => Stop
    end).

Lemma run_refines_witness : does (run small true plenty visitor) (db 1 (file empty_file [1])) (fun l s' => exists a', traces small plenty (1, ∅) visitor l a' /\ ((forall rc, Error rc ∉ l) -> rep small blank s' a')).
Proof.
  apply (run_refines small (proj1 small_ok) true plenty blank visitor).
  - exists empty_file, ∅, (refs_of [1]), []. split; [apply file_prep; [apply map_Forall_singleton, blank_ok|apply NoDup_singleton]|]. split; [exact empty_pages|]. split; [done|]. split; [intros p Hp; unfold refs_of; rewrite bool_decide_false; [done|by rewrite list_elem_of_singleton]|]. split; [done|].
    split; [intros p; split; [intros [? [=]]|cbn; lia]|]. split; [intros p d [=]|]. intros d Hd. apply empty_one in Hd as [_ ->]. done.
  - split; [split; [lia|by left]|]. intros x a Hst. inversion Hst as [a1 n1 m1 p d n H1 H2 H3 H4 H5 H6| | |]; subst. split; [split; [cbn [snd]; rewrite lookup_insert_eq; eauto|exact blank_ok]|]. intros x a Hst1. inversion Hst1; subst. split; [cbn [allowed fst snd]; rewrite lookup_insert_eq; eauto|]. intros x a Hst2. inversion Hst2; subst. split; [cbn [allowed fst snd]; rewrite lookup_insert_eq; eauto|]. intros x' a' Hst3. inversion Hst3; subst. split; [|done]. split; [lia|]. right. split; [lia|by left].
Defined.

(** ** A file with a table *)

(** Page 2 has the pointer map, and page 3 is the root of a table. *)
Definition map_page : list Z := 5 :: replicate 511 0.
Definition table_file : gmap Z (list Z) := <[1 := blank]> (<[2 := map_page]> {[ 3 := blank ]}).
Definition table_page : MemPage :=
  {| isInit := true; apOvfl := []; intKey := true; leaf := 1; hasData := true; hdrOffset := 0; childPtrSize := 0; maxLocal := bt_maxLeaf small; minLocal := bt_minLeaf small; cellOffset := 8; nFree := 504; nCell := 0; aData := blank; pgno := 3 |}.

Lemma table_pages_ok : map_Forall (fun _ d => bytes d /\ Z.of_nat (length d) = 512) table_file.
Proof.
  assert (bytes map_page /\ Z.of_nat (length map_page) = 512) as Hm. { split; [|reflexivity]. apply Forall_cons. split; [unfold is_u; lia|]. apply Forall_replicate. unfold is_u. lia. }
  unfold table_file. apply map_Forall_insert_2; [exact blank_ok|]. apply map_Forall_insert_2; [exact Hm|]. apply map_Forall_singleton, blank_ok.
Qed.

Lemma table_mapped q : mapped small q -> q <= 3 -> q = 3.
Proof. intros (Hq & _ & Hi) Hn. assert (q = 2 \/ q = 3) as [->| ->] by lia; [|done]. by vm_compute in Hi. Qed.
Lemma table_entry : entry small table_file 3 = Some (5, 0).
Proof. by vm_compute. Qed.

Lemma table_ready : ready small (db 3 (file table_file [1; 3])) table_page table_file ∅ (refs_of [1; 3]) [] blank.
Proof.
  split; try done.
  - apply file_prep; [exact table_pages_ok|]. apply NoDup_cons; split; [by rewrite list_elem_of_singleton|apply NoDup_singleton].
  - split; try by (intros p; rewrite ?elem_of_nil).
    + exists blank. done.
    + intros d [= <-]. done.
    + constructor.
    + intros p [?%not_elem_of_nil|Hp]; [done|]. unfold refs_of. rewrite bool_decide_false; [done|]. cbn in Hp. rewrite !elem_of_cons, elem_of_nil. lia.
    + done.
    + intros p. unfold refs_of. by destruct (bool_decide _).
    + done.
    + intros q _ Hq Hi. assert (q = 2 \/ q = 3) as [->| ->] by (cbn in Hq; lia); [by eexists|by vm_compute in Hi].
  - split.
    + intros _ q Hm Hq. rewrite (table_mapped q Hm Hq), table_entry. exists 5, 0. split; [done|lia].
    + intros _ q p Hm Hq _ He. rewrite (table_mapped q Hm Hq), table_entry in He. discriminate He.
  - constructor; [by right|done|done|by vm_compute|by vm_compute].
  - by intros ?%not_elem_of_nil.
Qed.

(** A row of 1000 bytes and 100 zeros. *)
Lemma row_ok : entry_ok table_page [] 7 (replicate 1000 9) 100.
Proof. split; [done|done|apply Forall_replicate; unfold is_u; lia|lia|by vm_compute]. Qed.

Lemma payload_roundtrip_witness : let bs := payload table_page [] (replicate 1000 9) 100 in
  does (update_read small true plenty table_page blank [] 7 (replicate 1000 9) 100 true 20 (replicate 600 3) 600 40) (db 3 (file table_file [1; 3])) (fun x _ => (x.1 = 0 -> x.2 = slice (splice bs 20 (replicate 600 3)) 600 40) /\ (x.1 <> 0 -> reliable (W := Memory) -> (forall k, plenty k = true) -> 2 ^ 31 <= 3 + 4 * Z.of_nat (length bs))).
Proof.
  intros bs. apply (payload_roundtrip small small_ok true plenty table_page blank [] 7 (replicate 1000 9) 100 true 20 (replicate 600 3) 600 40 _ table_file ∅ (refs_of [1; 3]) [] blank table_ready row_ok); try done; try lia.
  - apply blank_ok.
  - apply Forall_replicate. unfold is_u. lia.
Defined.

(** The run itself: the bytes are those that were written, and the zeros behind them. *)
Example update_read_run : match update_read small true plenty table_page blank [] 7 (replicate 1000 9) 100 true 20 (replicate 600 3) 600 40 (db 3 (file table_file [1; 3])) with
  | Some (x, s') => (x, nPage s') | None => ((-1, []), 0) end = ((0, replicate 20 3 ++ replicate 20 9), 5).
Proof. by vm_compute. Qed.

Lemma clear_exact_witness : let bs := payload table_page [] (replicate 1000 9) 100 in
  does ('(rc, cell) ← save small true table_page blank [] 7 (replicate 1000 9) 100; if negb (rc =? SQLITE_OK) then mret rc else clearCell small plenty table_page cell) (db 3 (file table_file [1; 3])) (fun rc s' =>
    (rc <> 0 -> reliable (W := Memory) -> (forall k, plenty k = true) -> 2 ^ 31 <= 3 + 4 * Z.of_nat (length bs)) /\
    (rc = 0 -> exists h' ws' F', prep (pPager s') h' ws' (refs_of [1; 3]) /\ pages_ok small (nPage s') h' (refs_of [1; 3]) F' /\ ptr_ok small (nPage s') h' F' /\ (forall q, q ∈ frees F' <-> q ∈ frees [] \/ (3 < q <= nPage s' /\ regular small q)) /\
      forall q, q <> 1 -> q <> 3 -> q <= 3 -> q ∉ frees [] -> (autoVacuum small = true -> PTRMAP_ISPAGE small q = false) -> h' !! q = table_file !! q)).
Proof. intros bs. apply (clear_exact small small_ok true plenty table_page blank [] 7 (replicate 1000 9) 100 _ table_file ∅ (refs_of [1; 3]) [] blank table_ready row_ok); [apply blank_ok|done]. Defined.

Lemma ptrmap_roundtrip_witness : does (rc ← ptrmapPut small 3 4 77; if negb (rc =? SQLITE_OK) then mret (rc, 0, 0) else ptrmapGet small 3) (db 3 (file table_file [1; 3])) (fun x _ => let '(rc, ty', parent') := x in
    (rc = 0 -> Some (ty', parent') = Some (4, 77)) /\ (reliable (W := Memory) -> 3 = 3 \/ (exists t a, entry small table_file 3 = Some (t, a) /\ 1 <= t <= 5) -> rc = 0)).
Proof.
  apply (ptrmap_roundtrip small (proj1 small_ok) 3 4 77 3 (db 3 (file table_file [1; 3])) table_file ∅ (refs_of [1; 3])); [apply table_ready|split; [lia|by vm_compute]|split; [lia|by vm_compute]|lia|unfold is_u; lia|by eexists|by eexists|]. intros q. unfold refs_of. by destruct (bool_decide _).
Defined.

(** ** A file with a trunk page that is its own successor *)

Definition loop_file : gmap Z (list Z) := <[1 := put4byte (put4byte blank 32 4) 36 1]> {[ 4 := put4byte blank 0 4 ]}.

Lemma loop_pages : map_Forall (fun _ d => bytes d /\ Z.of_nat (length d) = 512) loop_file.
Proof. unfold loop_file. apply map_Forall_insert_2; [|apply map_Forall_singleton]; (split; [|reflexivity]); repeat apply bytes_put4byte; apply blank_ok. Qed.

Lemma allocateBtreePage_hangs_witness : allocateBtreePage small true 1000 3 BTALLOC_LE (db 9 (file loop_file [1])) = None.
Proof.
  apply (allocateBtreePage_hangs true (db 9 (file loop_file [1])) loop_file ∅ (refs_of [1]) (put4byte (put4byte blank 32 4) 36 1) (put4byte blank 0 4) 4 3); try done.
  - exact disk_reliable.
  - apply file_prep; [exact loop_pages|apply NoDup_singleton].
  - intros q. unfold refs_of. by destruct (bool_decide _).
Defined.
